(* ===== verification/_CoqProject ===== *)
-Q . S2P
Prelude.v
CharSet.v
Hir.v
Nfa.v
Search.v
NfaCorrect.v
NfaSearch.v
Machine.v
NfaWf.v
Compile.v
SparseSet.v
BTree.v
Looks.v
Meaning.v
Flat.v
Total.v
LookMemo.v
Sweep.v
LookMemoOk.v
LooksOk.v
Explore.v
Pike.v
Backtrack.v
Linre.v
Slice.v
RangeSet.v
Reassembly.v
SendBuf.v
Stream.v
Wire.v
Congestion.v
Float.v
Pacer.v
Recovery.v
RecoveryOk.v
RecoveryRun.v
LossDetection.v
Frames.v
Reads.v
Packet.v
Params.v
Fips.v
Sha2.v
Tlog.v
Merkle.v
LogProofs.v
TileTree.v
TileData.v
TilePlan.v
Tiles.v
Huffman.v
Hpack.v
Streams.v
StreamsOk.v
StreamsRun.v
StreamsWrite.v
StreamsTold.v
FlowControl.v
