(* ===== verification/Prelude.v ===== *)
(** Verification of parts of lazaret: the regular expression engine of the
    scanner, the QUIC transport and the HTTP/2 header compression of its
    network client, and its checks of transparency logs.

    lazaret scans source code and packages for supply-chain attacks.  Four
    of its parts decide what a user can rely on under hostile input, and are
    modelled here from the Rust sources.

    _linre_ ([src/rust/crates/lazaret-engine/src/linre]) is the scanner's
    regular expression engine: every rule is a pattern in the syntax of
    Python's [re] and must match as [re] would, in bounded time, on text that
    an attacker wrote.  A pattern is lowered to a tree ([hir.rs]), compiled to
    programs ([nfa.rs]), and searched by a Pike simulation ([pike.rs]) or a
    bounded backtracker ([backtrack.rs]), which ask zero-width tests
    ([looks.rs]).

    _QUIC_ ([src/rust/crates/pratique/src/quic]) carries the client's HTTP/3:
    streams are cut in chunks ([sendbuf.rs]), chunks travel in frames
    ([frame.rs]) of packets ([packet.rs]) written with [wire.rs], are lost and reordered by
    the network, put back in order ([reassembly.rs]), and acknowledged by
    ranges ([rangeset.rs]); [recovery.rs] remembers the packets that were sent,
    measures the round trip, declares packets lost and sets the one timer of
    the connection; [congestion.rs] says how much may be in flight, and when
    the next packet may leave.  [streams.rs] keeps the streams of a connection
    over the two buffers: it opens and forgets them, takes and writes their
    frames, and keeps the accounts of flow control with the peer.

    _HPACK_ ([src/rust/crates/pratique/src/http/h2/hpack.rs], [huffman.rs]) is
    how header fields travel on an HTTP/2 connection: both ends keep a table of
    fields sent before, refer to them by index, and must never disagree about
    it.

    _Transparency logs_ ([src/rust/crates/pratique/src/tlog.rs]) are how the
    client knows that a package is the one everybody gets: a log's signed head
    is the root of a Merkle tree over its records, with the hash of
    [crypto/sha2.rs]; proofs, or tiles of the tree that any server may supply,
    show that a record is in the log and that an older head is of a prefix.

    * The files

    Shared: [Prelude] (machine bounds, results, monads, tactics, the hint
    database [lazaret]); [BTree] ([std]'s [BTreeMap] as a sorted list of
    entries); [Slice] (slices, 64-bit wrap-around); [Float] (64-bit floating
    point, on the Standard Library's [SpecFloat]).

    linre, in the order of dependence:
    - [CharSet] is [charset.rs]: sets of characters as sorted ranges.
    - [Hir] is [hir.rs], and the reference semantics [hmatch]: a backtracking
      search in priority order with capture slots.
    - [Nfa] is [nfa.rs]: the builder (a state and error monad over the vector
      of instructions, as the code's [&mut self]), fixed sequences, [compile].
    - [Search] is the specification of a search of a program;
      [NfaCorrect] and [NfaSearch] prove that a built program searches as its
      pattern, [NfaWf] and [Compile] that no index is out of range.
    - [Machine] is the interface between a matcher and the tests: the class
      [LookOracle] with its laws, against which both matchers are proved;
      [LooksOk] discharges it.
    - [SparseSet], [Looks], [LookMemo] are [looks.rs]: the set of states, the
      tests, the walks of lookarounds, the memo and the backward sweep of the
      unbounded ones.  [Meaning] says what a test means ([look_sem], and
      [test_means] for the simple ones); [Flat],
      [Sweep], [LookMemoOk], [LooksOk] prove the code answers it; [Total] that
      compiling never panics when the tests a pattern names exist.
    - [Explore] is the argument both matchers share (a depth-first search that
      takes each node once); [Pike] is [pike.rs] and [Backtrack] is
      [backtrack.rs], each with its refinement of [Search]; [Linre] composes
      everything.

    QUIC:
    - [RangeSet] is [rangeset.rs]; a set means the numbers it holds ([∈]).
    - [Reassembly] is [reassembly.rs]; a buffer means a partial function from
      offsets to bytes ([byte_at]).
    - [SendBuf] is [sendbuf.rs]; a buffer means the stream written and a status
      (unsent, in flight, lost, acknowledged) of each position.
    - [Stream] composes the two over a network that loses, repeats and
      reorders: a step relation on the state of both ends, the invariant by
      induction on its runs.
    - [Wire] is [wire.rs]: variable-length integers, the cursor that reads
      (a state and error monad that keeps the state on failure, as the code
      does), packet numbers.
    - [Frames] is [frame.rs]: reading a payload, writing frames, the ranges of
      an ACK.
    - [Packet] is [packet.rs]: reading the packet at the front of a datagram,
      writing headers; the format as a relation on byte strings ([is_packet]).
      [Reads] holds what it shares with the next on the cursor of [Wire].
    - [Params] is [transport_params.rs]: the transport parameters of the TLS
      extension; what a list of parameters says, by looking ids up in it, is
      [meaning].
    - [Congestion] is [NewReno] of [congestion.rs], and [Pacer] its pacer, in
      floating point as the code has it.
    - [Recovery] is [recovery.rs], state and operations: three packet number
      spaces with the packets in flight (a [BTreeMap]), the round-trip
      estimate, the congestion controller, the timer.  [RecoveryOk] has its
      invariant with a lemma per operation, [RecoveryRun] the operations as
      steps of a connection ([step], [reached]), [LossDetection] the
      properties.
    - [Streams] is [streams.rs], state and operations: the map of the streams,
      what we may send and what we let the peer send, the frames that are due,
      the queue of those that have something to send and the set of those that
      wait for credit of the connection.  [StreamsOk] has its invariant ([inv])
      with a lemma for what the application calls and the frames of the peer
      do, [StreamsRun] for limits that are raised and frames that were
      acknowledged or lost, [StreamsWrite] for [write_frames] (a weakest
      precondition for its monad) and for reading back what it wrote, and
      [StreamsTold] for what the peer must be told: the frames the state calls
      for ([binding]) and those that are due ([waiting]), and what each
      operation does to them.
      [FlowControl] makes runs of the calls ([step], [reached]) and proves the
      properties of every reached state.

    HPACK:
    - [Huffman] is [huffman.rs]: the tables worked out from the code lengths,
      encoding and decoding; the code as a tree, and both as runs over bits.
    - [Hpack] is [hpack.rs]: integers, strings, the tables, [Decoder] and
      [Encoder]; a connection is a sequence of events ([session]).

    Transparency logs:
    - [Fips] is FIPS 180-4 stated apart from the code, and runs: its functions
      bit by bit, its constants computed from the primes, its padding and its
      rounds.  [Sha2] is [sha2.rs]: the block functions and the streaming
      state.
    - [Tlog] is [tlog.rs]: hashes, checks of proofs, tiles, the plan of the
      tiles to fetch, reading nodes from them.
    - [Merkle] has the trees and proofs of RFC 6962 and the levels of a tree;
      [LogProofs] proves the checks of proofs against them.
    - [TileTree] has the nodes of a tree as blocks of its leaves and the fold
      of its right edge, [TileData] the arithmetic of tiles and the bytes that
      hold their entries, [TilePlan] what is planned, [Tiles] what reading and
      the checks that use it decide.

    * The theorems

    Each property of the code is a theorem whose doc comment begins with its
    number; the others are the lemmas under them.
    - The matchers are right ([Linre]): the Pike simulation and the
      backtracker, on compiled patterns, answer exactly the reference search
      of the pattern, with its groups, whatever their caches remember; the
      zero-width tests answer what the reference says; the backtracker's steps
      are bounded.
    - The compiler is right: programs are well formed ([compile_wf]), never
      panic ([compile_total]), and search as their pattern (the lemma
      [built_program_search]); the shortcuts of lookarounds are exact (the
      lemma [fixed_sequences]); character sets are what they claim
      ([set_operations]).
    - A stream is right end to end ([stream_safe], [stream_complete],
      [stream_live]): what is read is a prefix of what was written, nothing
      honest is refused as inconsistent, all that is acknowledged has arrived;
      a chunk that is sent takes exactly positions that waited, each position
      waits, is in a frame that was sent, or has come, and a stream can always
      be sent and completed; no call of the buffer panics.
    - Its parts refine their abstract states on every branch
      ([insert_stream], and the lemmas [read_stream], [sendbuf_next_chunk],
      [sendbuf_feedback] and [rangeset_is_set]).
    - The wire format goes both ways and no input breaks its readers
      (the lemmas [packet_numbers], [varint_roundtrip] and [reader_reads];
      [frames_roundtrip], [frames_any], [ack_ranges_roundtrip],
      [headers_roundtrip]); the packet parser decides its format exactly
      ([packet_parse]), as the decoder of transport parameters does
      ([params_decode], [params_roundtrip]).
    - The congestion window keeps its bounds over every run, and between two
      persistent congestions is cut once for what was sent before the cut
      ([newreno_window]), and the pacer never makes a sender wait longer than
      the packet it holds back takes at the pace ([pacer_waits]).
    - Loss recovery: over every run each packet is settled once, as
      acknowledged, lost or forgotten, and the counters agree with the packets
      in flight ([recovery_settles]); exactly the packets the thresholds name
      are declared lost ([loss_detection]); while something is in flight a
      timer is set, so a connection never waits for nothing
      ([recovery_timer]); the estimates keep their bounds
      ([recovery_bounds]); the single pass that looks for persistent
      congestion agrees with its definition, and the controller that a loss
      leaves is the one that RFC 9002 says ([persistent_congestion]).
    - Flow control, over every run of the calls of a connection's streams: no
      call panics and the accounts agree ([flow_accounts]); what is held is
      bounded by the configuration whatever the peer does ([flow_memory]);
      nothing waits for ever on our account, and the peer is told what it has
      to know ([flow_live]); packets say what
      the state says and read back as just that ([packet_frames]); the peer's
      frames are judged as RFC 9000 says ([stream_frames]).  [probed_stale]
      shows the one thing the code's own check finds wrong: a stream that is
      forgotten while it is queued leaves its id in the queue; and
      [unsaid_blocked] a DATA_BLOCKED that is never said, since the code drops
      one that is due when no stream waits and remembers it as said.
    - Header compression: over every sequence of lists and announced sizes
      the decoder reads what the encoder wrote, and secrets stay out of the
      tables ([session_in_step]); no block breaks a decoder or its limits
      ([decoder_within_limits]); the Huffman code decodes exactly what it
      encodes ([huffman_exact]).
    - The hash is that of FIPS 180-4 ([Fips]), however the message is fed
      ([sha2_streaming]).
    - Logs: the proofs of RFC 6962 are accepted and no others
      ([inclusion_proofs], [consistency_proofs]); hashes read from tiles are
      those of the tree, whoever supplied the tiles, and the tree's own tiles
      are always enough ([tiles_read]); [check_record] and [check_prefix]
      decide what they say ([records_checked], [prefixes_checked]).  Hashes
      can collide, so such a theorem says "or a collision was found": two
      different pairs of hashes with one hash, the one among the pairs the
      check made from what was supplied, the other among those of the tree,
      both lists explicit ([inclusion_pairs], [read_pairs], [tree_pairs]).
      [tampered] shows each kind of refusal.

    * Conventions

    An unsigned integer of Rust is a [Z] (an id of linre an [N]).  Arithmetic
    that can overflow is written as a release build does it: wrapped ([u64]),
    saturating ([sat_add], [sat_sub], [sat_mul]) or checked ([checked_add]),
    as the source says; invariants then bound it.  A panic (a slice or an
    index out of range, a failed assertion) is the value [Panic], or [None]
    where nothing else can go wrong, and theorems show that it does not
    happen.  Loops that are not structural take fuel; the definitions that
    use them pass enough for the worst case (the length of the map for
    [RangeSet.insert], of the buffer for a run of PADDING, the product of
    instructions and positions for the searches, the packets in flight for
    loss detection, the room of the packet and the length of the queue for
    [write_frames], the streams to open for [open_remote], the bits of a size
    for the shifts of [tlog.rs], the bytes of an HPACK integer and of a
    block), [NoFuel] is a
    fault like a panic, and the theorems show it is never reached.  The runs
    of [FlowControl] are those whose limits and stream lengths stay within
    2^62 - 1 ([fits]), the largest number that a frame can say: no connection
    lives long enough to leave them.

    * What is not modelled

    Of linre: case folding and class tables (generated Unicode data, whose
    alphanumeric property is a parameter), the parser of the syntax and the
    lowering (what lowering promises is the hypothesis [lowered]), the lazy
    DFA, the literal prefilters and the choice among engines, the byte
    alphabet; of the reversed program, that it is well formed is proved
    ([compile_wf]), not that it matches backwards, which only the lazy DFA
    uses.  Of QUIC: the connection with its handshake and timers, packet
    protection (cryptography), the debug text of [streams.rs].  Of transparency
    logs: the text of a tile's path, the signatures on heads and the clients
    of particular logs; of SHA-2, a CPU's own instructions for it.  Of HTTP:
    all but HPACK.  The rest of lazaret (parsers, data flow analyses, archives,
    X.509, TLS, the front ends) is outside this development.

    What would come next, in this order: for linre the byte alphabet and the
    search of the reversed program, then the lazy DFA and the interface that
    chooses among the engines. *)

From Stdlib Require Import ZArith Lia.
From stdpp Require Import base option sorting numbers list_numbers list.

(** ** Machine-width bounds *)

(** [u32::MAX] and [u64::MAX], the largest values of the unsigned types. *)
Definition U32_MAX : Z := 4294967295.
Definition U64_MAX : Z := 18446744073709551615.

(** [a.saturating_add(b)] on an unsigned type whose largest value is [m]. *)
Definition sat_add (m a b : Z) : Z := Z.min m (a + b)%Z.

(** [a.saturating_mul(b)]. *)
Definition sat_mul (m a b : Z) : Z := Z.min m (a * b)%Z.

(** [a.checked_add(b)]: [None] on overflow. *)
Definition checked_add (m a b : Z) : option Z :=
  (if a + b <=? m then Some (a + b) else None)%Z.

(** ** [Result] *)

Inductive result (E A : Type) : Type :=
| Ok (a : A)
| Err (e : E).
Arguments Ok {E A} a.
Arguments Err {E A} e.

#[export] Instance result_ret {E} : MRet (result E) := fun _ a => Ok a.
#[export] Instance result_bind {E} : MBind (result E) :=
  fun _ _ k m => match m with Ok a => k a | Err e => Err e end.

(** A state and error monad: [&mut self] methods that return a [Result]. *)
Definition stm (S E A : Type) : Type := S -> result E (A * S).

#[export] Instance stm_ret {S E} : MRet (stm S E) := fun _ a s => Ok (a, s).
#[export] Instance stm_bind {S E} : MBind (stm S E) :=
  fun _ _ k m s => match m s with Ok (a, s') => k a s' | Err e => Err e end.

Lemma stm_bind_Ok {S E A B} (c : stm S E A) (k : A -> stm S E B) s b s' :
  (c ≫= k) s = Ok (b, s') -> exists a s1, c s = Ok (a, s1) /\ k a s1 = Ok (b, s').
Proof.
  unfold mbind, stm_bind. destruct (c s) as [[a s1]|e]; [|done]. intros H. by exists a, s1.
Qed.

Lemma stm_ret_Ok {S E A} (a b : A) (s s' : S) :
  (mret a : stm S E A) s = Ok (b, s') -> a = b /\ s = s'.
Proof. unfold mret, stm_ret. intros H. by injection H as <- <-. Qed.

(** A loop over a list that may stop with [None] (a panic of the code). *)
Definition fold_opt {A B} (f : A -> B -> option A) : list B -> A -> option A :=
  fix go l a :=
    match l with
    | [] => Some a
    | x :: l' => match f a x with None => None | Some a' => go l' a' end
    end.

Lemma fold_opt_app {A B} (f : A -> B -> option A) l1 l2 a :
  fold_opt f (l1 ++ l2) a = match fold_opt f l1 a with None => None | Some a' => fold_opt f l2 a' end.
Proof. revert a. induction l1 as [|x l1 IH]; intros a; simpl; [done|]. destruct (f a x); [apply IH|done]. Qed.

Lemma alter_insert {A} (f : A -> A) (l : list A) i x : l !! i = Some x -> alter f i l = <[i := f x]> l.
Proof.
  intros Hx. apply list_eq. intros j. rewrite list_lookup_alter, list_lookup_insert. apply lookup_lt_Some in Hx as Hl.
  destruct (decide (i = j)) as [<-|Hne].
  - rewrite decide_True by done. by rewrite Hx.
  - rewrite decide_False; [done|]. by intros [? _].
Qed.

(** What a model adds to the errors of the code: a panic of the code (an
    index out of range), and a loop whose fuel ran out.  The theorems prove
    that neither happens. *)
Inductive fault : Type := Panic | NoFuel.

(** A state and error monad that keeps the state reached when it fails:
    methods that change buffers in place and may return early. *)
Definition stx (S E A : Type) : Type := S -> result E A * S.

#[export] Instance stx_ret {S E} : MRet (stx S E) := fun _ a s => (Ok a, s).
#[export] Instance stx_bind {S E} : MBind (stx S E) :=
  fun _ _ k m s => match m s with (Ok a, s') => k a s' | (Err e, s') => (Err e, s') end.

Definition xget {S E} : stx S E S := fun s => (Ok s, s).
Definition xput {S E} (s : S) : stx S E unit := fun _ => (Ok tt, s).
Definition xmod {S E} (f : S -> S) : stx S E unit := fun s => (Ok tt, f s).
Definition xfail {S E A} (e : E) : stx S E A := fun s => (Err e, s).

(** A value that must be there ([v[i]]: a panic otherwise). *)
Definition xsome {S E A} (e : E) (o : option A) : stx S E A := fun s =>
  match o with Some a => (Ok a, s) | None => (Err e, s) end.

(** A run of such a computation ends in a state and a value that satisfy
    [Q], or in an error that satisfies [R]. *)
Definition wp {S E A} (m : stx S E A) (s : S) (Q : A -> S -> Prop) (R : E -> S -> Prop) : Prop :=
  match m s with (Ok a, s') => Q a s' | (Err e, s') => R e s' end.

Lemma wp_bind {S E A B} (m : stx S E A) (k : A -> stx S E B) s Q R :
  wp m s (fun a s' => wp (k a) s' Q R) R -> wp (m ≫= k) s Q R.
Proof. unfold wp, mbind, stx_bind. by destruct (m s) as [[a|e] s']. Qed.

Lemma wp_step {S E A B} (m : stx S E A) (k : A -> stx S E B) s a s' Q R :
  m s = (Ok a, s') -> wp (k a) s' Q R -> wp (m ≫= k) s Q R.
Proof. intros H Hk. apply wp_bind. unfold wp at 1. by rewrite H. Qed.

Lemma wp_assoc {S E A B C} (m : stx S E A) (k : A -> stx S E B) (k' : B -> stx S E C) s Q R :
  wp (m ≫= fun a => k a ≫= k') s Q R -> wp ((m ≫= k) ≫= k') s Q R.
Proof. unfold wp, mbind, stx_bind. by destruct (m s) as [[a|e] s']. Qed.

Lemma wp_ret {S E A} (a : A) (s : S) Q (R : E -> S -> Prop) : Q a s -> wp (mret a) s Q R.
Proof. done. Qed.

Lemma wp_mono {S E A} (m : stx S E A) s (Q Q' : A -> S -> Prop) (R R' : E -> S -> Prop) :
  wp m s Q R -> (forall a s', Q a s' -> Q' a s') -> (forall e s', R e s' -> R' e s') -> wp m s Q' R'.
Proof. unfold wp. destruct (m s) as [[a|e] s']; auto. Qed.

(** ** Tactics of the development *)

(** Takes a run of a monadic computation apart, step by step. *)
Ltac minv :=
  repeat match goal with
  | H : (_ ≫= _) _ = Ok (_, _) |- _ =>
      let a := fresh "a" in let s1 := fresh "st" in let H1 := fresh "Hm" in
      apply stm_bind_Ok in H as (a & s1 & H1 & H)
  | H : mret _ _ = Ok (_, _) |- _ =>
      apply stm_ret_Ok in H as [<- <-] || apply stm_ret_Ok in H as [? ?]
  end.

(** Splits the booleans that tests on numbers leave, and cleans up. *)
Ltac cleanb :=
  repeat match goal with
  | H : andb _ _ = true |- _ => apply andb_true_iff in H; destruct H
  | H : orb _ _ = false |- _ => apply orb_false_iff in H; destruct H
  | H : negb _ = true |- _ => apply negb_true_iff in H
  | H : negb _ = false |- _ => apply negb_false_iff in H
  | H : (_ <=? _)%Z = true |- _ => apply Z.leb_le in H
  | H : (_ <=? _)%Z = false |- _ => apply Z.leb_gt in H
  | H : (_ <? _)%Z = true |- _ => apply Z.ltb_lt in H
  | H : (_ <? _)%Z = false |- _ => apply Z.ltb_ge in H
  | H : (_ =? _)%Z = true |- _ => apply Z.eqb_eq in H
  | H : (_ =? _)%Z = false |- _ => apply Z.eqb_neq in H
  | H : (_ <=? _)%nat = true |- _ => apply Nat.leb_le in H
  | H : (_ <=? _)%nat = false |- _ => apply Nat.leb_gt in H
  | H : (_ <? _)%nat = true |- _ => apply Nat.ltb_lt in H
  | H : (_ <? _)%nat = false |- _ => apply Nat.ltb_ge in H
  | H : (_ =? _)%nat = true |- _ => apply Nat.eqb_eq in H
  | H : (_ =? _)%nat = false |- _ => apply Nat.eqb_neq in H
  | H : (_ =? _)%N = true |- _ => apply N.eqb_eq in H
  | H : (_ =? _)%N = false |- _ => apply N.eqb_neq in H
  end.

(** Case analysis on the first test of an [if] or a [match] in the goal. *)
Ltac case_if :=
  match goal with
  | |- context [if ?b then _ else _] => destruct b eqn:?
  end; cleanb.

(** The same in a hypothesis. *)
Ltac case_if_in H :=
  match type of H with
  | context [if ?b then _ else _] => destruct b eqn:?
  end; cleanb.

(** ** Lists *)

(** [slice.partition_point(p)] on a slice that [p] partitions: the length of
    the longest prefix whose elements satisfy [p]. *)
Fixpoint partition_point {A} (p : A -> bool) (l : list A) : nat :=
  match l with
  | [] => 0
  | x :: l' => if p x then S (partition_point p l') else 0
  end.

(** [opt.or(other)]. *)
Definition opt_or {A} (a b : option A) : option A :=
  match a with Some _ => a | None => b end.

Lemma opt_or_assoc {A} (a b c : option A) : opt_or a (opt_or b c) = opt_or (opt_or a b) c.
Proof. by destruct a. Qed.

Lemma opt_or_None_r {A} (a : option A) : opt_or a None = a.
Proof. by destruct a. Qed.

Lemma opt_or_None_l {A} (a : option A) : opt_or None a = a.
Proof. done. Qed.

Create HintDb lazaret.
Create Rewrite HintDb lazaret.
#[export] Hint Rewrite @opt_or_None_r @opt_or_None_l : lazaret.
