(* ===== verification/CharSet.v ===== *)
(** Sets of code points: [linre/charset.rs].

    A character of a text is a [u32], modelled as a [Z] in [0 .. U32_MAX];
    a [CharSet] is the sorted list of its disjoint, non-adjacent inclusive
    ranges.  The file holds the set operations as the code writes them
    (sort and merge, the complement's walk, the two-index intersection, the
    scan or binary search of [contains]), their denotation as sets of
    characters ([∈]), and the canonical form every operation keeps, which
    makes equality of sets equality of range lists. *)

From Stdlib Require Import ZArith Lia.
From stdpp Require Import base option sorting numbers list_numbers list.
From S2P Require Import Prelude.

Local Open Scope Z_scope.

Definition MAX : Z := U32_MAX.

Record CharSet := mk_charset { cs_ranges : list (Z * Z) }.

#[export] Instance charset_eq_dec : EqDecision CharSet.
Proof. solve_decision. Defined.

(** [c] is in one of the ranges of [l]. *)
Definition in_ranges (c : Z) (l : list (Z * Z)) : Prop :=
  Exists (fun r => fst r <= c <= snd r) l.

(** [c ∈ s]: what a set stands for. *)
#[export] Instance charset_elem_of : ElemOf Z CharSet := fun c s => in_ranges c (cs_ranges s).

(** ** The operations *)

Definition empty : CharSet := mk_charset [].

Definition all : CharSet := mk_charset [(0, MAX)].

Definition one (c : Z) : CharSet := mk_charset [(c, c)].

Definition range (a b : Z) : CharSet :=
  if b <? a then empty else mk_charset [(a, b)].

(** The derived order of [(u32, u32)], which [sort_unstable] sorts by. *)
Definition range_le (r1 r2 : Z * Z) : Prop :=
  fst r1 < fst r2 \/ (fst r1 = fst r2 /\ snd r1 <= snd r2).

#[export] Instance range_le_dec : RelDecision range_le.
Proof. intros r1 r2; unfold range_le; apply _. Defined.

(** The loop of [from_ranges] over the sorted ranges: [out] is the vector
    built so far, its last element first. *)
Fixpoint merge_loop (out : list (Z * Z)) (v : list (Z * Z)) : list (Z * Z) :=
  match v with
  | [] => rev out
  | (a, b) :: v' =>
      match out with
      | (la, lb) :: out' =>
          if a <=? sat_add U32_MAX lb 1
          then merge_loop ((la, if lb <? b then b else lb) :: out') v'
          else merge_loop ((a, b) :: out) v'
      | [] => merge_loop [(a, b)] v'
      end
  end.

Definition from_ranges (v : list (Z * Z)) : CharSet :=
  mk_charset (merge_loop [] (merge_sort range_le (filter (fun r => fst r <= snd r) v))).

(** [Vec::dedup]: consecutive equal elements become one. *)
Fixpoint dedup (v : list Z) : list Z :=
  match v with
  | x :: ((y :: _) as v') => if x =? y then dedup v' else x :: dedup v'
  | _ => v
  end.

Definition from_chars (v : list Z) : CharSet :=
  from_ranges (map (fun c => (c, c)) (dedup (merge_sort Z.le v))).

Definition is_empty (s : CharSet) : bool :=
  match cs_ranges s with [] => true | _ => false end.

Definition is_all (s : CharSet) : bool :=
  (length (cs_ranges s) =? 1)%nat && bool_decide (cs_ranges s !! 0%nat = Some (0, MAX)).

Definition count (s : CharSet) : Z :=
  foldr (fun r n => (snd r - fst r) + 1 + n) 0 (cs_ranges s).

Definition single (s : CharSet) : option Z :=
  match cs_ranges s with
  | [(a, b)] => if a =? b then Some a else None
  | _ => None
  end.

(** [a..=b] *)
Definition chars_of_range (r : Z * Z) : list Z := seqZ (fst r) (snd r - fst r + 1).

Definition chars_upto (s : CharSet) (n : Z) : option (list Z) :=
  if n <? count s then None else Some (flat_map chars_of_range (cs_ranges s)).

(** The scan of [contains] for a set of a few ranges. *)
Fixpoint scan (c : Z) (l : list (Z * Z)) : bool :=
  match l with
  | [] => false
  | (a, b) :: l' => if c <? a then false else if c <=? b then true else scan c l'
  end.

Definition contains (s : CharSet) (c : Z) : bool :=
  if (length (cs_ranges s) <=? 8)%nat then scan c (cs_ranges s)
  else
    let i := partition_point (fun r => fst r <=? c) (cs_ranges s) in
    (0 <? i)%nat &&
    match cs_ranges s !! (i - 1)%nat with Some r => c <=? snd r | None => false end.

Definition union (s t : CharSet) : CharSet := from_ranges (cs_ranges s ++ cs_ranges t).

(** The walk of [complement]: [next] is the first character not yet
    decided; the loop's [break] at a range that ends at [MAX] leaves the
    complement closed. *)
Fixpoint complement_loop (next : Z) (l : list (Z * Z)) : list (Z * Z) :=
  match l with
  | [] => [(next, MAX)]
  | (a, b) :: l' =>
      (if next <? a then [(next, a - 1)] else []) ++
      (if b =? MAX then [] else complement_loop (b + 1) l')
  end.

Definition complement (s : CharSet) : CharSet := mk_charset (complement_loop 0 (cs_ranges s)).

(** The two-index loop of [intersect], over what is left of each list. *)
Fixpoint intersect_loop (l1 : list (Z * Z)) : list (Z * Z) -> list (Z * Z) :=
  match l1 with
  | [] => fun _ => []
  | (a1, b1) :: l1' =>
      fix walk (l2 : list (Z * Z)) : list (Z * Z) :=
        match l2 with
        | [] => []
        | (a2, b2) :: l2' =>
            let lo := Z.max a1 a2 in
            let hi := Z.min b1 b2 in
            (if lo <=? hi then [(lo, hi)] else []) ++
            (if b1 <? b2 then intersect_loop l1' l2 else walk l2')
        end
  end.

Definition intersect (s t : CharSet) : CharSet :=
  mk_charset (intersect_loop (cs_ranges s) (cs_ranges t)).

Definition minus (s t : CharSet) : CharSet := intersect s (complement t).

Definition intersects (s t : CharSet) : bool := negb (is_empty (intersect s t)).

(** The inner loop of [ascii_mask]: [m |= 1 << c] for [c] in [cs]. *)
Definition set_bits (m : Z) (cs : list Z) : Z :=
  fold_left (fun m c => Z.lor m (Z.shiftl 1 c)) cs m.

Fixpoint ascii_mask_loop (m : Z) (l : list (Z * Z)) : Z :=
  match l with
  | [] => m
  | (a, b) :: l' =>
      if 128 <=? a then m
      else ascii_mask_loop (set_bits m (chars_of_range (a, Z.min b 127))) l'
  end.

Definition ascii_mask (s : CharSet) : Z := ascii_mask_loop 0 (cs_ranges s).

Definition has_non_ascii (s : CharSet) : bool :=
  match last (cs_ranges s) with Some r => 128 <=? snd r | None => false end.

(** Any character, or any but a newline. *)
Definition any_set (dotall : bool) : CharSet :=
  if dotall then all else complement (one 10).

(** ** The canonical form *)

(** Ranges from [lo] up: each holds a character, is within [u32], and leaves
    a gap of at least one character before the next. *)
Fixpoint canon_from (lo : Z) (l : list (Z * Z)) : Prop :=
  match l with
  | [] => True
  | (a, b) :: l' => lo <= a /\ a <= b /\ b <= MAX /\ canon_from (b + 2) l'
  end.

Definition canonical (s : CharSet) : Prop := canon_from 0 (cs_ranges s).

Lemma in_ranges_nil c : in_ranges c [] <-> False.
Proof. apply Exists_nil. Qed.

Lemma in_ranges_cons c a b l : in_ranges c ((a, b) :: l) <-> a <= c <= b \/ in_ranges c l.
Proof. apply Exists_cons. Qed.

Lemma in_ranges_app c l1 l2 : in_ranges c (l1 ++ l2) <-> in_ranges c l1 \/ in_ranges c l2.
Proof. apply Exists_app. Qed.

Lemma in_ranges_perm c l1 l2 : l1 ≡ₚ l2 -> in_ranges c l1 <-> in_ranges c l2.
Proof. intros H. unfold in_ranges. by rewrite H. Qed.

Create Rewrite HintDb charset.
#[export] Hint Rewrite in_ranges_nil in_ranges_cons in_ranges_app : charset.

Lemma canon_from_weaken lo lo' l : lo' <= lo -> canon_from lo l -> canon_from lo' l.
Proof. destruct l as [|[a b] l]; simpl; intros; intuition lia. Qed.

Lemma canon_from_ge lo l c : canon_from lo l -> in_ranges c l -> lo <= c <= MAX.
Proof.
  revert lo; induction l as [|[a b] l IH]; intros lo Hc Hin; autorewrite with charset in Hin.
  - done.
  - destruct Hc as (? & ? & ? & Hc), Hin as [?|Hin]; [lia|].
    specialize (IH _ Hc Hin); lia.
Qed.

#[export] Hint Resolve canon_from_weaken : lazaret.

(** ** [from_ranges] *)

#[local] Instance range_le_total : Total range_le.
Proof. intros [a b] [c d]; unfold range_le; simpl; lia. Qed.

#[local] Instance range_le_trans : Transitive range_le.
Proof. intros [a b] [c d] [e f]; unfold range_le; simpl; lia. Qed.

(** A vector under construction, last element first: canonical, and every
    range of it starts at or before [hi]. *)
Fixpoint canon_rev (out : list (Z * Z)) : Prop :=
  match out with
  | [] => True
  | (a, b) :: out' =>
      0 <= a /\ a <= b /\ b <= MAX /\
      match out' with [] => True | (_, pb) :: _ => pb + 2 <= a end /\ canon_rev out'
  end.

Lemma canon_rev_app out lo l :
  canon_rev out ->
  match out with [] => lo = 0 | (_, b) :: _ => lo = b + 2 end ->
  canon_from lo l -> canon_from 0 (rev out ++ l).
Proof.
  revert lo l; induction out as [|[a b] out IH]; intros lo l Hr Hlo Hl; simpl in *.
  - by subst.
  - destruct Hr as (? & ? & ? & Hp & Hr). rewrite <- app_assoc. simpl.
    destruct out as [|[pa pb] out].
    + simpl in *. subst. auto.
    + apply (IH (pb + 2)); [done..|]. simpl. subst. auto.
Qed.

Lemma merge_loop_canon out v :
  canon_rev out -> StronglySorted range_le v ->
  Forall (fun r => 0 <= fst r <= snd r /\ snd r <= MAX) v ->
  match out with (a, _) :: _ => Forall (fun r => a <= fst r) v | [] => True end ->
  canon_from 0 (merge_loop out v).
Proof.
  revert out; induction v as [|[a b] v IH]; intros out Hr Hs Hv Ho; simpl.
  - rewrite <- (app_nil_r (rev out)).
    destruct out as [|[la lb] out]; eapply (canon_rev_app _ _ []); done.
  - inversion Hs as [|x y Hs' Hall]; subst. inversion Hv as [|x y Hab Hv']; subst.
    simpl in Hab. destruct out as [|[la lb] out].
    + apply IH; simpl; auto.
      * repeat split; lia.
      * eapply Forall_impl; [exact Hall|]. unfold range_le; simpl; intros [??]; simpl; lia.
    + inversion Ho as [|x y Hla Ho']; subst. simpl in Hla.
      destruct Hr as (? & ? & ? & Hp & Hr). unfold sat_add.
      case_if.
      * apply IH; simpl; auto. case_if; repeat split; auto; lia.
      * assert (lb + 2 <= a) by (unfold MAX, U32_MAX in *; lia).
        apply IH; simpl; auto.
        -- repeat split; auto; lia.
        -- eapply Forall_impl; [exact Hall|]. unfold range_le; simpl; intros [??]; simpl; lia.
Qed.

Lemma merge_loop_in c out v :
  0 <= c <= MAX ->
  canon_rev out -> StronglySorted range_le v ->
  Forall (fun r => 0 <= fst r <= snd r /\ snd r <= MAX) v ->
  match out with (a, _) :: _ => Forall (fun r => a <= fst r) v | [] => True end ->
  in_ranges c (merge_loop out v) <-> in_ranges c out \/ in_ranges c v.
Proof.
  intros Hc. revert out; induction v as [|[a b] v IH]; intros out Hr Hs Hv Ho; simpl.
  - rewrite (in_ranges_perm c (rev out) out) by (by rewrite <- Permutation_rev).
    autorewrite with charset. tauto.
  - inversion Hs as [|x y Hs' Hall]; subst. inversion Hv as [|x y Hab Hv']; subst.
    simpl in Hab.
    assert (Forall (fun r => a <= fst r) v).
    { eapply Forall_impl; [exact Hall|]. unfold range_le; simpl; intros [??]; simpl; lia. }
    destruct out as [|[la lb] out].
    + rewrite IH; simpl; autorewrite with charset; auto; [tauto|]. repeat split; lia.
    + inversion Ho as [|x y Hla Ho']; subst. simpl in Hla.
      destruct Hr as (? & ? & ? & Hp & Hr). unfold sat_add. case_if.
      * rewrite IH; simpl; auto.
        -- autorewrite with charset. case_if; unfold U32_MAX, MAX in *; intuition lia.
        -- case_if; repeat split; auto; lia.
      * rewrite IH; simpl; auto; autorewrite with charset; [tauto|].
        unfold MAX, U32_MAX in *. repeat split; auto; lia.
Qed.

(** Ranges of [u32] values: what the callers of [from_ranges] pass. *)
Definition u32_ranges (v : list (Z * Z)) : Prop :=
  Forall (fun r => 0 <= fst r /\ snd r <= MAX) v.

Lemma sorted_input v :
  u32_ranges v ->
  let w := merge_sort range_le (filter (fun r => fst r <= snd r) v) in
  StronglySorted range_le w /\ Forall (fun r => 0 <= fst r <= snd r /\ snd r <= MAX) w.
Proof.
  intros Hv w; split.
  - apply StronglySorted_merge_sort; apply _.
  - apply Forall_forall; intros r Hr. unfold w in Hr.
    rewrite merge_sort_Permutation in Hr.
    apply list_elem_of_filter in Hr as [Hle Hin].
    unfold u32_ranges in Hv. rewrite Forall_forall in Hv.
    specialize (Hv _ Hin). lia.
Qed.

Lemma from_ranges_spec v :
  u32_ranges v ->
  canonical (from_ranges v) /\ forall c, c ∈ from_ranges v <-> in_ranges c v.
Proof.
  intros Hv. destruct (sorted_input v Hv) as [Hs Hf].
  unfold canonical, from_ranges, elem_of, charset_elem_of; simpl.
  split; [by apply merge_loop_canon|].
  assert (Hperm : forall c, in_ranges c (merge_sort range_le (filter (fun r => fst r <= snd r) v))
                    <-> in_ranges c v).
  { intros c. rewrite (in_ranges_perm c _ _ (merge_sort_Permutation _ _)).
    unfold in_ranges. rewrite !Exists_exists. setoid_rewrite list_elem_of_filter.
    split; intros (r & Hr & Hc); exists r; [tauto|]. split; [|done]. split; [lia|done]. }
  intros c. destruct (decide (0 <= c <= MAX)) as [Hc|Hc].
  - rewrite merge_loop_in by done. autorewrite with charset. rewrite Hperm. tauto.
  - split; intros H; exfalso; apply Hc.
    + eapply canon_from_ge; [|exact H]. by apply merge_loop_canon.
    + unfold in_ranges in H. apply Exists_exists in H as (r & Hr & Hc').
      unfold u32_ranges in Hv. rewrite Forall_forall in Hv. specialize (Hv _ Hr). lia.
Qed.

Lemma canonical_u32 s : canonical s -> u32_ranges (cs_ranges s).
Proof.
  unfold canonical, u32_ranges. assert (H0 : 0 <= 0) by lia. revert H0. generalize 0 at 2 3.
  induction (cs_ranges s) as [|[a b] l IH]; intros lo Hlo Hc; simpl in *; constructor.
  - simpl. lia.
  - apply (IH (b + 2)); [lia|]. tauto.
Qed.

#[export] Hint Resolve canonical_u32 : lazaret.

(** ** Membership tests *)

Lemma scan_spec c lo l : canon_from lo l -> scan c l = true <-> in_ranges c l.
Proof.
  revert lo; induction l as [|[a b] l IH]; intros lo Hc; simpl; autorewrite with charset.
  - done.
  - destruct Hc as (? & ? & ? & Hc). specialize (IH _ Hc).
    repeat case_if; autorewrite with charset.
    + split; [done|]. intros [?|Hin]; [lia|]. pose proof (canon_from_ge _ _ _ Hc Hin); lia.
    + split; [|done]. intros _. lia.
    + rewrite IH. split; [tauto|]. intros [?|?]; [lia|done].
Qed.

Lemma partition_scan c lo l :
  canon_from lo l ->
  let i := partition_point (fun r => fst r <=? c) l in
  scan c l = (0 <? i)%nat &&
    match l !! (i - 1)%nat with Some r => c <=? snd r | None => false end.
Proof.
  revert lo; induction l as [|[a b] l IH]; intros lo Hc; simpl; [done|].
  destruct Hc as (? & ? & ? & Hc). specialize (IH _ Hc). simpl in IH.
  destruct (c <? a) eqn:Hca; destruct (a <=? c) eqn:Hac; cleanb; try lia; [done|].
  destruct (partition_point _ l) as [|i] eqn:Hi; simpl in *.
  - case_if; [done|]. rewrite IH. done.
  - rewrite IH. rewrite Nat.sub_0_r in *. case_if; [|done].
    destruct l as [|[a2 b2] l]; [done|]. simpl in Hi. destruct (a2 <=? c) eqn:?; cleanb; [|done].
    destruct Hc; lia.
Qed.

Lemma contains_iff s c : canonical s -> contains s c = true <-> c ∈ s.
Proof.
  intros Hs. unfold contains. rewrite <- (scan_spec c 0 _ Hs).
  case_if; [done|]. by rewrite (partition_scan c 0 _ Hs).
Qed.

(** ** Complement, union, intersection, difference *)

Lemma complement_loop_canon lo next l :
  0 <= lo -> next <= MAX -> canon_from next l -> lo <= next ->
  canon_from lo (complement_loop next l).
Proof.
  revert lo next; induction l as [|[a b] l IH]; intros lo next Hlo Hn Hc Hle; simpl.
  - repeat split; lia.
  - destruct Hc as (? & ? & ? & Hc).
    assert (Hrest : forall lo', 0 <= lo' -> lo' <= b + 1 ->
      canon_from lo' (if b =? MAX then [] else complement_loop (b + 1) l)).
    { intros lo' ??. case_if; simpl; [done|]. apply IH; eauto with lazaret; try lia.
      eapply canon_from_weaken; [|exact Hc]; lia. }
    destruct (next <? a) eqn:?; cleanb; simpl.
    + repeat split; try lia. apply Hrest; lia.
    + apply Hrest; lia.
Qed.

Lemma complement_loop_in c next l :
  0 <= next <= MAX -> canon_from next l -> next <= c <= MAX ->
  in_ranges c (complement_loop next l) <-> ~ in_ranges c l.
Proof.
  revert next; induction l as [|[a b] l IH]; intros next Hn Hc Hrange; simpl.
  - autorewrite with charset. tauto.
  - destruct Hc as (? & ? & ? & Hc). autorewrite with charset.
    assert (Hrest : in_ranges c (if b =? MAX then [] else complement_loop (b + 1) l)
                    <-> b < c /\ ~ in_ranges c l).
    { destruct (b =? MAX) eqn:Hb; cleanb; autorewrite with charset; [lia|].
      assert (Hc' : canon_from (b + 1) l) by (eapply canon_from_weaken; [|exact Hc]; lia).
      destruct (decide (b < c)).
      - rewrite IH by (done || lia). tauto.
      - split; [|lia]. intros Hin.
        assert (canon_from (b + 1) (complement_loop (b + 1) l))
          by (apply complement_loop_canon; done || lia).
        pose proof (canon_from_ge _ _ _ H2 Hin). lia. }
    rewrite Hrest.
    assert (Hgap : in_ranges c l -> b + 2 <= c) by (intros Hin; pose proof (canon_from_ge _ _ _ Hc Hin); lia).
    destruct (decide (c < a)), (decide (b < c)), (next <? a) eqn:?;
      cleanb; autorewrite with charset; intuition lia.
Qed.

Lemma complement_spec s :
  canonical s ->
  canonical (complement s) /\ forall c, c ∈ complement s <-> 0 <= c <= MAX /\ ~ c ∈ s.
Proof.
  intros Hs. assert (HM : 0 <= MAX) by (unfold MAX, U32_MAX; lia).
  assert (Hc : canonical (complement s))
    by (apply complement_loop_canon; unfold canonical in *; done || lia).
  split; [done|]. intros c. unfold elem_of, charset_elem_of. simpl. split.
  - intros Hin. pose proof (canon_from_ge _ _ _ Hc Hin) as Hr.
    split; [done|]. apply (complement_loop_in c 0) in Hin; unfold canonical in *; done || lia.
  - intros [Hr Hn]. apply (complement_loop_in c 0); unfold canonical in *; done || lia.
Qed.

Lemma intersect_loop_spec lo l1 l2 :
  canon_from lo l1 -> canon_from lo l2 ->
  canon_from lo (intersect_loop l1 l2) /\
  forall c, in_ranges c (intersect_loop l1 l2) <-> in_ranges c l1 /\ in_ranges c l2.
Proof.
  revert lo l2; induction l1 as [|[a1 b1] l1 IH1]; intros lo l2 H1 H2; simpl.
  { split; [done|]. intros c; autorewrite with charset. tauto. }
  revert lo H1 H2; induction l2 as [|[a2 b2] l2 IH2]; intros lo H1 H2.
  { split; [done|]. intros c; autorewrite with charset. tauto. }
  pose proof H1 as H1'. pose proof H2 as H2'.
  destruct H1 as (? & ? & ? & H1), H2 as (? & ? & ? & H2).
  set (rest := if b1 <? b2 then _ else _).
  assert (Hrest : canon_from (Z.min b1 b2 + 2) rest /\
    forall c, in_ranges c rest <->
      (if b1 <? b2 then in_ranges c l1 /\ in_ranges c ((a2, b2) :: l2)
       else in_ranges c ((a1, b1) :: l1) /\ in_ranges c l2)).
  { unfold rest. destruct (b1 <? b2) eqn:Hb; cleanb.
    - rewrite Z.min_l by lia.
      set (a2' := Z.max a2 (b1 + 2)).
      destruct (decide (b1 + 2 <= a2)).
      + apply (IH1 (b1 + 2)); [done|]. simpl. repeat split; done || lia.
      + destruct (IH1 lo ((a2, b2) :: l2)) as [Hca Hin];
          [eapply canon_from_weaken; [|exact H1]; lia|done|].
        split; [|done].
        assert (Hlow : forall c, in_ranges c (intersect_loop l1 ((a2, b2) :: l2)) -> b1 + 2 <= c).
        { intros c Hc. apply Hin in Hc as [Hc _]. pose proof (canon_from_ge _ _ _ H1 Hc). lia. }
        destruct (intersect_loop l1 ((a2, b2) :: l2)) as [|[x y] r]; simpl in *; [done|].
        specialize (Hlow x). autorewrite with charset in Hlow. intuition lia.
    - rewrite Z.min_r by lia.
      destruct (IH2 lo) as [Hca Hin];
        [done|eapply canon_from_weaken; [|exact H2]; lia|].
      split; [|done].
      match type of Hca with canon_from _ ?w =>
        assert (Hlow : forall c, in_ranges c w -> b2 + 2 <= c) end.
      { intros c Hc. apply Hin in Hc as [_ Hc]. pose proof (canon_from_ge _ _ _ H2 Hc). lia. }
      match type of Hca with canon_from _ ?w => destruct w as [|[x y] r] end; simpl in *; [done|].
      specialize (Hlow x). autorewrite with charset in Hlow. intuition lia. }
  destruct Hrest as [Hrc Hri]. clearbody rest. split.
  - case_if; simpl; [|eapply canon_from_weaken; [|exact Hrc]; lia].
    repeat split; lia || done.
  - intros c. autorewrite with charset. rewrite Hri.
    assert (in_ranges c l1 -> b1 + 2 <= c)
      by (intros Hin; pose proof (canon_from_ge _ _ _ H1 Hin); lia).
    assert (in_ranges c l2 -> b2 + 2 <= c)
      by (intros Hin; pose proof (canon_from_ge _ _ _ H2 Hin); lia).
    repeat case_if; autorewrite with charset; intuition lia.
Qed.

Lemma intersect_spec s t :
  canonical s -> canonical t ->
  canonical (intersect s t) /\ forall c, c ∈ intersect s t <-> c ∈ s /\ c ∈ t.
Proof. apply intersect_loop_spec. Qed.

Lemma union_spec s t :
  canonical s -> canonical t ->
  canonical (union s t) /\ forall c, c ∈ union s t <-> c ∈ s \/ c ∈ t.
Proof.
  intros Hs Ht. unfold union.
  destruct (from_ranges_spec (cs_ranges s ++ cs_ranges t)) as [Hc Hin].
  { apply Forall_app; split; by apply canonical_u32. }
  split; [done|]. intros c. rewrite Hin. apply in_ranges_app.
Qed.

Lemma canonical_bounds s c : canonical s -> c ∈ s -> 0 <= c <= MAX.
Proof. apply canon_from_ge. Qed.

Lemma minus_spec s t :
  canonical s -> canonical t ->
  canonical (minus s t) /\ forall c, c ∈ minus s t <-> c ∈ s /\ ~ c ∈ t.
Proof.
  intros Hs Ht. destruct (complement_spec t Ht) as [Hc Hin].
  destruct (intersect_spec s (complement t) Hs Hc) as [Hi Hm].
  split; [done|]. intros c. unfold minus. rewrite Hm, Hin.
  split; [tauto|]. intros [H1 H2]. pose proof (canonical_bounds s c Hs H1). tauto.
Qed.

(** ** Canonical sets are determined by their characters *)

Lemma canon_from_ext lo l1 l2 :
  canon_from lo l1 -> canon_from lo l2 ->
  (forall c, in_ranges c l1 <-> in_ranges c l2) -> l1 = l2.
Proof.
  revert lo l2; induction l1 as [|[a1 b1] l1 IH]; intros lo [|[a2 b2] l2] H1 H2 Hext; simpl in *.
  - done.
  - exfalso. apply (in_ranges_nil a2), Hext. autorewrite with charset. lia.
  - exfalso. apply (in_ranges_nil a1), Hext. autorewrite with charset. lia.
  - destruct H1 as (? & ? & ? & H1), H2 as (? & ? & ? & H2).
    assert (L1 : forall c, in_ranges c l1 -> b1 + 2 <= c)
      by (intros c Hin; pose proof (canon_from_ge _ _ _ H1 Hin); lia).
    assert (L2 : forall c, in_ranges c l2 -> b2 + 2 <= c)
      by (intros c Hin; pose proof (canon_from_ge _ _ _ H2 Hin); lia).
    setoid_rewrite in_ranges_cons in Hext.
    assert (a1 = a2).
    { destruct (proj1 (Hext a1)) as [E1|E1]; [left; lia| |apply L2 in E1];
        (destruct (proj2 (Hext a2)) as [E2|E2]; [left; lia| |apply L1 in E2]); lia. }
    subst a2.
    assert (b1 = b2).
    { destruct (proj1 (Hext b1)) as [E1|E1]; [left; lia| |apply L2 in E1];
        (destruct (proj2 (Hext b2)) as [E2|E2]; [left; lia| |apply L1 in E2]); try lia.
      - destruct (proj2 (Hext (b1 + 1))) as [E|E]; [left; lia| |apply L1 in E]; lia.
      - destruct (proj1 (Hext (b2 + 1))) as [E|E]; [left; lia| |apply L2 in E]; lia. }
    subst b2. f_equal. apply (IH (b1 + 2)); [done..|].
    intros c. destruct (Hext c). specialize (L1 c); specialize (L2 c). intuition lia.
Qed.

Lemma charset_ext s t :
  canonical s -> canonical t -> (forall c, c ∈ s <-> c ∈ t) -> s = t.
Proof.
  destruct s as [l1], t as [l2]. intros Hs Ht Hext. f_equal.
  by apply (canon_from_ext 0).
Qed.

Lemma elem_of_dec_canonical s c : canonical s -> c ∈ s \/ ~ c ∈ s.
Proof.
  intros Hs. rewrite <- (contains_iff s c Hs). destruct (contains s c); auto.
Qed.

#[export] Hint Resolve from_ranges_spec union_spec intersect_spec complement_spec minus_spec : lazaret.

Lemma canonical_union s t : canonical s -> canonical t -> canonical (union s t).
Proof. intros; by apply union_spec. Qed.
Lemma canonical_intersect s t : canonical s -> canonical t -> canonical (intersect s t).
Proof. intros; by apply intersect_spec. Qed.
Lemma canonical_complement s : canonical s -> canonical (complement s).
Proof. intros; by apply complement_spec. Qed.
Lemma canonical_minus s t : canonical s -> canonical t -> canonical (minus s t).
Proof. intros; by apply minus_spec. Qed.
Lemma canonical_empty : canonical empty.
Proof. done. Qed.
Lemma canonical_all : canonical all.
Proof. unfold canonical; simpl; unfold MAX, U32_MAX; lia. Qed.
Lemma canonical_one c : 0 <= c <= MAX -> canonical (one c).
Proof. unfold canonical; simpl; lia. Qed.
Lemma canonical_any d : canonical (any_set d).
Proof.
  destruct d; [apply canonical_all|]. apply canonical_complement, canonical_one.
  unfold MAX, U32_MAX; lia.
Qed.

#[export] Hint Resolve canonical_union canonical_intersect canonical_complement canonical_minus
  canonical_empty canonical_all canonical_one canonical_any : lazaret.

(** ** Counting and listing *)

Lemma chars_of_range_in r c : c ∈ chars_of_range r <-> fst r <= c <= snd r.
Proof. unfold chars_of_range. rewrite elem_of_seqZ. lia. Qed.

Lemma chars_in l c : c ∈ flat_map chars_of_range l <-> in_ranges c l.
Proof.
  induction l as [|[a b] l IH]; simpl; [rewrite elem_of_nil, in_ranges_nil; done|].
  rewrite elem_of_app, IH, chars_of_range_in. autorewrite with charset. done.
Qed.

Lemma StronglySorted_seqZ m n : StronglySorted Z.lt (seqZ m n).
Proof.
  destruct (Z.le_gt_cases n 0).
  { unfold seqZ. replace (Z.to_nat n) with 0%nat by lia. constructor. }
  rewrite <- (Z2Nat.id n) by lia. induction (Z.to_nat n) as [|k IH]; [constructor|].
  rewrite seqZ_S. apply StronglySorted_app. split; [|split; [done|repeat constructor]].
  intros x y Hx Hy. apply elem_of_seqZ in Hx. apply list_elem_of_singleton in Hy. lia.
Qed.

Lemma chars_sorted lo l :
  canon_from lo l -> StronglySorted Z.lt (flat_map chars_of_range l).
Proof.
  revert lo; induction l as [|[a b] l IH]; intros lo Hc; simpl; [constructor|].
  destruct Hc as (? & ? & ? & Hc). apply StronglySorted_app.
  split; [|split; [apply StronglySorted_seqZ|by eapply IH]].
  intros x y Hx Hy. apply chars_of_range_in in Hx. simpl in Hx.
  rewrite chars_in in Hy. pose proof (canon_from_ge _ _ _ Hc Hy). lia.
Qed.

Lemma count_length lo l :
  canon_from lo l ->
  foldr (fun r n => (snd r - fst r) + 1 + n) 0 l = Z.of_nat (length (flat_map chars_of_range l)).
Proof.
  revert lo; induction l as [|[a b] l IH]; intros lo Hc; simpl; [done|].
  destruct Hc as (? & ? & ? & Hc). rewrite (IH _ Hc), length_app.
  unfold chars_of_range. rewrite length_seqZ. simpl. lia.
Qed.

Lemma set_bits_testbit m cs n :
  0 <= n -> Forall (fun c => 0 <= c) cs ->
  Z.testbit (set_bits m cs) n = Z.testbit m n || bool_decide (n ∈ cs).
Proof.
  unfold set_bits. revert m; induction cs as [|c cs IH]; intros m Hn Hcs; simpl.
  - by rewrite orb_false_r.
  - inversion Hcs; subst. rewrite IH by done. rewrite Z.lor_spec, Z.shiftl_1_l, <- orb_assoc.
    f_equal. rewrite Z.pow2_bits_eqb by lia.
    destruct (Z.eqb_spec c n) as [->|Hne]; simpl.
    + symmetry. apply bool_decide_eq_true. left.
    + apply bool_decide_ext. rewrite elem_of_cons. intuition congruence.
Qed.

Lemma ascii_mask_testbit lo m l n :
  0 <= lo -> canon_from lo l -> 0 <= n ->
  Z.testbit (ascii_mask_loop m l) n = Z.testbit m n || (bool_decide (n < 128) && scan n l).
Proof.
  revert lo m; induction l as [|[a b] l IH]; intros lo m Hlo Hc Hn; simpl.
  - by rewrite andb_false_r, orb_false_r.
  - destruct Hc as (? & ? & ? & Hc). case_if.
    + case_bool_decide; simpl; [|by rewrite orb_false_r].
      assert (Hlt : (n <? a) = true) by (apply Z.ltb_lt; lia). by rewrite Hlt, orb_false_r.
    + rewrite (IH (b + 2)) by (done || lia). rewrite set_bits_testbit; [|done|].
      2:{ apply Forall_forall. intros c Hin. apply chars_of_range_in in Hin. simpl in Hin. lia. }
      rewrite <- orb_assoc. f_equal.
      rewrite (bool_decide_ext (n ∈ _) (a <= n <= Z.min b 127)) by apply chars_of_range_in.
      pose proof (scan_spec n (b + 2) l Hc) as Hscan.
      assert (Hrest : n <= b -> scan n l = false).
      { intros Hle. destruct (scan n l); [|done]. destruct Hscan as [Hscan _].
        pose proof (canon_from_ge _ _ _ Hc (Hscan eq_refl)). lia. }
      repeat case_bool_decide; simpl; repeat case_if; try lia; try done; try (rewrite Hrest by lia; done).
Qed.

(** Canonical sets of the same characters are equal; complement is an
    involution and the De Morgan laws are equations. *)
Lemma set_equality s t :
  canonical s -> canonical t ->
  ((forall c, c ∈ s <-> c ∈ t) -> s = t) /\
  complement (complement s) = s /\
  complement (union s t) = intersect (complement s) (complement t) /\
  minus s t = complement (union (complement s) t).
Proof.
  intros Hs Ht. split; [by apply charset_ext|].
  assert (Hcs := complement_spec s Hs). assert (Hct := complement_spec t Ht). destruct Hcs as [Cs Is], Hct as [Ct It].
  assert (Hdec : forall c, c ∈ s \/ ~ c ∈ s) by (intros c; by apply elem_of_dec_canonical).
  split; [|split].
  - destruct (complement_spec _ Cs) as [C2 I2]. apply charset_ext; [done..|]. intros c. rewrite I2, Is.
    pose proof (canonical_bounds s c Hs). destruct (Hdec c); tauto.
  - destruct (union_spec s t Hs Ht) as [Cu Iu]. destruct (complement_spec _ Cu) as [Ccu Icu].
    destruct (intersect_spec _ _ Cs Ct) as [Ci Ii]. apply charset_ext; [done..|]. intros c. rewrite Icu, Iu, Ii, Is, It. tauto.
  - destruct (minus_spec s t Hs Ht) as [Cm Im]. destruct (union_spec _ t Cs Ht) as [Cu Iu].
    destruct (complement_spec _ Cu) as [Ccu Icu]. apply charset_ext; [done..|]. intros c. rewrite Im, Icu, Iu, Is.
    pose proof (canonical_bounds s c Hs). destruct (Hdec c); tauto.
Qed.

(** [chars_upto] lists the characters of a set. *)
Lemma chars_upto_correct s n :
  canonical s ->
  match chars_upto s n with
  | Some l => StronglySorted Z.lt l /\ Z.of_nat (length l) <= n /\ forall c, c ∈ l <-> c ∈ s
  | None => n < Z.of_nat (length (flat_map chars_of_range (cs_ranges s)))
  end.
Proof.
  intros Hs. unfold chars_upto, count. rewrite (count_length 0) by done.
  destruct (Z.ltb_spec n (Z.of_nat (length (flat_map chars_of_range (cs_ranges s))))); [done|].
  split; [by apply (chars_sorted 0)|]. split; [done|]. intros c. apply chars_in.
Qed.

(** Bit [c] of the mask. *)
Lemma ascii_mask_correct s c :
  canonical s -> 0 <= c -> Z.testbit (ascii_mask s) c = bool_decide (c < 128) && contains s c.
Proof.
  intros Hs Hc. unfold ascii_mask. rewrite (ascii_mask_testbit 0), Z.testbit_0_l by (done || lia). simpl. f_equal.
  apply Bool.eq_true_iff_eq. rewrite (scan_spec c 0 _ Hs). symmetry. by apply contains_iff.
Qed.

(** ** The properties *)

(** C40: sets of characters are what their operations say.  Whatever ranges
    it is given, in any order, overlapping or empty, [from_ranges] makes the
    canonical set of the characters they hold.  Union, intersection,
    difference and complement keep sets canonical and are those of sets of
    characters.  Canonical sets of the same characters are equal, so the
    code's comparisons of sets compare their meaning; complement is an
    involution and the De Morgan laws are equations.  Membership as it is
    decided, by a scan or a binary search, is membership; [chars_upto] lists
    the characters, each once and in order, exactly where there are no more
    than asked; bit [c] of the mask of a set is whether it has the ASCII
    character [c]. *)
Theorem set_operations v s t :
  u32_ranges v -> canonical s -> canonical t ->
  (canonical (from_ranges v) /\ forall c, c ∈ from_ranges v <-> in_ranges c v) /\
  (canonical (union s t) /\ forall c, c ∈ union s t <-> c ∈ s \/ c ∈ t) /\
  (canonical (intersect s t) /\ forall c, c ∈ intersect s t <-> c ∈ s /\ c ∈ t) /\
  (canonical (minus s t) /\ forall c, c ∈ minus s t <-> c ∈ s /\ ~ c ∈ t) /\
  (canonical (complement s) /\ forall c, c ∈ complement s <-> 0 <= c <= MAX /\ ~ c ∈ s) /\
  ((forall c, c ∈ s <-> c ∈ t) -> s = t) /\
  complement (complement s) = s /\
  complement (union s t) = intersect (complement s) (complement t) /\
  minus s t = complement (union (complement s) t) /\
  forall n c, 0 <= c ->
    (contains s c = true <-> c ∈ s) /\
    match chars_upto s n with
    | Some l => StronglySorted Z.lt l /\ Z.of_nat (length l) <= n /\ forall c, c ∈ l <-> c ∈ s
    | None => n < Z.of_nat (length (flat_map chars_of_range (cs_ranges s)))
    end /\
    Z.testbit (ascii_mask s) c = bool_decide (c < 128) && contains s c.
Proof.
  intros Hv Hs Ht. split; [by apply from_ranges_spec|]. split; [by apply union_spec|]. split; [by apply intersect_spec|].
  split; [by apply minus_spec|]. split; [by apply complement_spec|].
  destruct (set_equality s t Hs Ht) as (H1 & H2 & H3 & H4). do 4 (split; [done|]). intros n c Hc.
  split; [by apply contains_iff|]. split; [by apply chars_upto_correct|by apply ascii_mask_correct].
Qed.

Lemma set_operations_witness :
  from_ranges [(5, 9); (20, 3); (1, 4); (30, MAX)] = mk_charset [(1, 9); (30, MAX)] /\ canonical (mk_charset [(1, 9); (30, MAX)]) /\
  canonical (minus all (one 10)) /\ ~ 10 ∈ minus all (one 10).
Proof.
  assert (H0 : u32_ranges [(5, 9); (20, 3); (1, 4); (30, MAX)]) by (repeat constructor; unfold MAX, U32_MAX; simpl; lia).
  assert (H1 : canonical (one 10)) by (apply canonical_one; unfold MAX, U32_MAX; lia).
  destruct (set_operations _ all (one 10) H0 canonical_all H1) as ([Hf _] & _ & _ & [Hc Hm] & _).
  split; [vm_compute; reflexivity|]. split; [exact Hf|]. split; [exact Hc|]. intros Hin. apply Hm in Hin as [_ Hin]. apply Hin. left. simpl. lia.
Defined.
