(* ===== verification/Hir.v ===== *)
(** The lowered pattern: [linre/hir.rs], and the reference meaning of it.

    [Hir] and [Look] are the code's enums (a [u32] id is an [N]).  [width] is
    the code's width computation, with its saturating [u64] arithmetic.  The
    rest is the specification the matchers are held to: [hmatch], the
    backtracking search of a pattern in priority order (what Python's [sre]
    does: the first alternative that lets the rest match), with the capture
    slots of the path it takes. *)

From Stdlib Require Import ZArith Lia.
From stdpp Require Import base option numbers list.
From S2P Require Import Prelude.

Inductive Hir : Type :=
| HEmpty
| HChar (set : N)
| HLook (look : N)
| HGroup (g : N) (body : Hir)
| HConcat (v : list Hir)
| HAlt (v : list Hir)
| HRepeat (min : N) (max : option N) (greedy simple : bool) (body : Hir).

Inductive Look : Type :=
| LBegin
| LBeginLine
| LEnd
| LEndLine
| LEndString
| LWord (ascii negate : bool)
| LBehind1 (set : N) (negate : bool)
| LAhead1 (set : N) (negate : bool)
| LAround (behind negate : bool) (body : Hir) (lo hi : N).

(** A lookbehind wider than this is refused; a lookahead that may read
    further is walked with a memo. *)
Definition MAX_LOOK : Z := 1000.

(** Induction over patterns, with the hypothesis for every item of a list. *)
Section hir_ind'.
Variable P : Hir -> Prop.
Hypothesis P_empty : P HEmpty.
Hypothesis P_char : forall s, P (HChar s).
Hypothesis P_look : forall l, P (HLook l).
Hypothesis P_group : forall g b, P b -> P (HGroup g b).
Hypothesis P_concat : forall v, Forall P v -> P (HConcat v).
Hypothesis P_alt : forall v, Forall P v -> P (HAlt v).
Hypothesis P_repeat : forall mn mx gr si b, P b -> P (HRepeat mn mx gr si b).

Fixpoint hir_ind' (h : Hir) : P h :=
  let list_ind := fix go (v : list Hir) : Forall P v :=
    match v with
    | [] => Forall_nil_2 P
    | x :: v' => Forall_cons_2 P x v' (hir_ind' x) (go v')
    end in
  match h with
  | HEmpty => P_empty
  | HChar s => P_char s
  | HLook l => P_look l
  | HGroup g b => P_group g b (hir_ind' b)
  | HConcat v => P_concat v (list_ind v)
  | HAlt v => P_alt v (list_ind v)
  | HRepeat mn mx gr si b => P_repeat mn mx gr si b (hir_ind' b)
  end.
End hir_ind'.

(** ** Width *)

(** The two accumulators of the loops of [width]. *)
Definition hi_add (p q : option Z) : option Z :=
  match p, q with Some p, Some q => Some (sat_add U64_MAX p q) | _, _ => None end.

Definition hi_max (p q : option Z) : option Z :=
  match p, q with Some p, Some q => Some (Z.max p q) | _, _ => None end.

(** (min, max) width of a pattern, in characters ([None]: unbounded). *)
Fixpoint width (h : Hir) : Z * option Z :=
  match h with
  | HEmpty | HLook _ => (0%Z, Some 0%Z)
  | HChar _ => (1%Z, Some 1%Z)
  | HGroup _ b => width b
  | HConcat v =>
      fold_left (fun acc w => (sat_add U64_MAX (fst acc) (fst w), hi_add (snd acc) (snd w)))
        (List.map width v) (0%Z, Some 0%Z)
  | HAlt v =>
      let r := fold_left (fun acc w => (Z.min (fst acc) (fst w), hi_max (snd acc) (snd w)))
        (List.map width v) (U64_MAX, Some 0%Z) in
      (match v with [] => 0%Z | _ => fst r end, snd r)
  | HRepeat mn mx _ _ body =>
      let (a, b) := width body in
      (sat_mul U64_MAX a (Z.of_N mn),
       match b, mx with
       | Some q, m =>
           if (q =? 0)%Z then Some 0%Z
           else match m with Some m => Some (sat_mul U64_MAX q (Z.of_N m)) | None => None end
       | None, _ => None
       end)
  end.

(** Whether a pattern can match the empty string, as its width says. *)
Definition nullable (h : Hir) : bool := (fst (width h) =? 0)%Z.

(** What the parser and [lower] let through: groups count from 1, a bounded
    repeat's bounds are in order and below [MAXREPEAT] (which means no bound),
    and a repeat of more than one iteration has a body that cannot match the
    empty string. *)
Fixpoint hir_wf (h : Hir) : Prop :=
  match h with
  | HEmpty | HChar _ | HLook _ => True
  | HGroup g b => (1 <= g)%N /\ hir_wf b
  | HConcat v | HAlt v => foldr (fun x acc => hir_wf x /\ acc) True v
  | HRepeat mn mx _ _ b =>
      hir_wf b /\
      match mx with
      | Some m => (mn <= m < 4294967295)%N /\ ((m <= 1)%N \/ nullable b = false)
      | None => nullable b = false
      end
  end.

Lemma hir_wf_list v : foldr (fun x acc => hir_wf x /\ acc) True v <-> Forall hir_wf v.
Proof. induction v; simpl; rewrite ?Forall_nil, ?Forall_cons; intuition. Qed.

(** ** Capture slots *)

(** Two slots per group, one for the last group closed, one for the match's
    start; -1 where nothing was recorded. *)
Abbreviation slots := (list Z).

(** A [Save] step at [pos]: the end of a group also makes it the last one
    closed. *)
Definition save (last_slot : N) (slot : N) (pos : nat) (sl : slots) : slots :=
  let sl1 :=
    if ((slot mod 2 =? 1) && (slot <? last_slot))%N
    then <[N.to_nat last_slot := Z.of_N (slot / 2 + 1)]> sl
    else sl in
  <[N.to_nat slot := Z.of_nat pos]> sl1.

Lemma length_save ls s p sl : length (save ls s p sl) = length sl.
Proof. unfold save. case_if; by rewrite !length_insert. Qed.

(** ** The reference search *)

Section search.
(** What a matcher is asked: whether the character at a position (within the
    window) is in a set, whether a zero-width test holds at a position, the
    window's end; and how the program is built. *)
Variable set_at : N -> nat -> bool.
Variable look_at : N -> nat -> bool.
Variable wend : nat.
Variable last_slot : N.
Variables saves guards : bool.

(** What a search answers: the slots and the end of a match. *)
Abbreviation answer := (option (slots * nat)).
(** The rest of a search, from a position and the slots so far. *)
Abbreviation cont := (nat -> slots -> answer).

Definition seq_all (fs : list (cont -> cont)) (k : cont) : cont :=
  foldr (fun f k => f k) k fs.

Definition alt_all (rs : list answer) : answer := foldr opt_or None rs.

(** Greedy: another iteration first; lazy: leaving first. *)
Definition prefer (greedy : bool) (body exit : answer) : answer :=
  if greedy then opt_or body exit else opt_or exit body.

Fixpoint exactly (f : cont -> cont) (n : nat) (k : cont) : cont :=
  match n with 0 => k | S n' => f (exactly f n' k) end.

Fixpoint at_most (f : cont -> cont) (greedy : bool) (n : nat) (k : cont) : cont :=
  match n with
  | 0 => k
  | S n' => fun p s => prefer greedy (f (at_most f greedy n' k) p s) (k p s)
  end.

(** Any number of iterations; [n] bounds them (each reads a character, so a
    bound past what is left of the window is never reached). *)
Fixpoint any_number (f : cont -> cont) (greedy : bool) (n : nat) (k : cont) : cont :=
  match n with
  | 0 => fun _ _ => None
  | S n' => fun p s => prefer greedy (f (any_number f greedy n' k) p s) (k p s)
  end.

Fixpoint hmatch (h : Hir) (k : cont) (pos : nat) (sl : slots) {struct h} : answer :=
  match h with
  | HEmpty => k pos sl
  | HChar s => if set_at s pos then k (S pos) sl else None
  | HLook l => if look_at l pos then k pos sl else None
  | HGroup g b =>
      if saves
      then hmatch b (fun p s => k p (save last_slot (2 * (g - 1) + 1) p s)) pos
             (save last_slot (2 * (g - 1)) pos sl)
      else hmatch b k pos sl
  | HConcat v => seq_all (List.map hmatch v) k pos sl
  | HAlt v =>
      match v with
      | [] => k pos sl
      | _ => alt_all (List.map (fun x => hmatch x k pos sl) v)
      end
  | HRepeat mn mx greedy simple b =>
      if simple && guards && negb (pos <=? wend)%nat then None
      else
        exactly (hmatch b) (N.to_nat mn)
          (match mx with
           | None => fun p s => any_number (hmatch b) greedy (S (wend - p)) k p s
           | Some m => at_most (hmatch b) greedy (N.to_nat (m - mn)) k
           end) pos sl
  end.
End search.

(** ** When a pattern can match the empty string *)

Lemma fold_concat_nonneg l a :
  (0 <= fst a)%Z -> Forall (fun w : Z * option Z => (0 <= fst w)%Z) l ->
  (0 <= fst (fold_left (fun acc w => (sat_add U64_MAX (fst acc) (fst w), hi_add (snd acc) (snd w))) l a))%Z.
Proof.
  revert a; induction l as [|w l IH]; intros a Ha Hl; simpl; [done|].
  inversion Hl; subst. apply IH; [|done]. simpl. unfold sat_add, U64_MAX. lia.
Qed.

Lemma fold_alt_nonneg l a :
  (0 <= fst a)%Z -> Forall (fun w : Z * option Z => (0 <= fst w)%Z) l ->
  (0 <= fst (fold_left (fun acc w => (Z.min (fst acc) (fst w), hi_max (snd acc) (snd w))) l a))%Z.
Proof.
  revert a; induction l as [|w l IH]; intros a Ha Hl; simpl; [done|].
  inversion Hl; subst. apply IH; [|done]. simpl. lia.
Qed.

Lemma width_nonneg h : (0 <= fst (width h))%Z.
Proof.
  induction h as [| | |g b IH|v IH|v IH|mn mx gr si b IH] using hir_ind'; simpl; try lia.
  - apply fold_concat_nonneg; [simpl; lia|]. by apply Forall_map.
  - destruct v; [simpl; lia|]. apply fold_alt_nonneg; [simpl; unfold U64_MAX; lia|].
    by apply Forall_map.
  - destruct (width b) as [a b']. simpl in *. unfold sat_mul, U64_MAX. nia.
Qed.

Lemma fold_concat_zero l a :
  (0 <= fst a)%Z -> Forall (fun w : Z * option Z => (0 <= fst w)%Z) l ->
  (fst (fold_left (fun acc w => (sat_add U64_MAX (fst acc) (fst w), hi_add (snd acc) (snd w))) l a) =? 0)%Z
  = (fst a =? 0)%Z && forallb (fun w => fst w =? 0)%Z l.
Proof.
  revert a; induction l as [|w l IH]; intros a Ha Hl; simpl; [by rewrite andb_true_r|].
  inversion Hl; subst. rewrite IH; [|simpl; unfold sat_add, U64_MAX; lia|done]. simpl.
  rewrite andb_assoc. f_equal. unfold sat_add, U64_MAX.
  destruct (Z.eqb_spec (fst a) 0), (Z.eqb_spec (fst w) 0); simpl; rewrite ?Z.eqb_eq, ?Z.eqb_neq; lia.
Qed.

Lemma fold_alt_zero l a :
  (0 <= fst a)%Z -> Forall (fun w : Z * option Z => (0 <= fst w)%Z) l ->
  (fst (fold_left (fun acc w => (Z.min (fst acc) (fst w), hi_max (snd acc) (snd w))) l a) =? 0)%Z
  = (fst a =? 0)%Z || existsb (fun w => fst w =? 0)%Z l.
Proof.
  revert a; induction l as [|w l IH]; intros a Ha Hl; simpl; [by rewrite orb_false_r|].
  inversion Hl; subst. rewrite IH; [|simpl; lia|done]. simpl.
  rewrite orb_assoc. f_equal.
  destruct (Z.eqb_spec (fst a) 0), (Z.eqb_spec (fst w) 0); simpl; rewrite ?Z.eqb_eq, ?Z.eqb_neq; lia.
Qed.

Lemma width_all_nonneg v :
  Forall (fun w : Z * option Z => (0 <= fst w)%Z) (List.map width v).
Proof. apply Forall_map, Forall_true. intros; apply width_nonneg. Qed.

Lemma forallb_map {A B} (f : A -> B) p l : forallb p (List.map f l) = forallb (fun x => p (f x)) l.
Proof. by induction l as [|x l IH]; simpl; rewrite ?IH. Qed.

Lemma existsb_map {A B} (f : A -> B) p l : existsb p (List.map f l) = existsb (fun x => p (f x)) l.
Proof. by induction l as [|x l IH]; simpl; rewrite ?IH. Qed.

Lemma nullable_concat v : nullable (HConcat v) = forallb nullable v.
Proof.
  unfold nullable. simpl. rewrite fold_concat_zero by (apply width_all_nonneg || done).
  simpl. apply forallb_map.
Qed.

Lemma nullable_alt v : nullable (HAlt v) = match v with [] => true | _ => existsb nullable v end.
Proof.
  unfold nullable. destruct v as [|x v]; [done|]. cbn [width fst].
  rewrite fold_alt_zero by (apply width_all_nonneg || done).
  rewrite existsb_map. done.
Qed.

Lemma nullable_repeat mn mx gr si b : nullable (HRepeat mn mx gr si b) = (mn =? 0)%N || nullable b.
Proof.
  unfold nullable. simpl. pose proof (width_nonneg b) as Hb. destruct (width b) as [a b']. simpl in *.
  unfold sat_mul, U64_MAX.
  destruct (N.eqb_spec mn 0) as [->|Hm]; simpl; [rewrite Z.mul_0_r; done|].
  destruct (Z.eqb_spec a 0) as [->|Ha]; simpl; [done|]. apply Z.eqb_neq. nia.
Qed.

(** The least number of characters a match reads, as far as termination is
    concerned: none, or one. *)
Definition step (h : Hir) : nat := if nullable h then 0 else 1.

Lemma step_concat_cons x v : step (HConcat (x :: v)) <= step x + step (HConcat v).
Proof. unfold step. rewrite !nullable_concat. simpl. destruct (nullable x), (forallb nullable v); simpl; lia. Qed.

Lemma step_alt_in x v : x ∈ v -> step (HAlt v) <= step x.
Proof.
  intros Hx. unfold step. rewrite nullable_alt. destruct v as [|y v]; [inversion Hx|].
  destruct (nullable x) eqn:Hn; [|case_if; lia].
  replace (existsb nullable (y :: v)) with true; [done|].
  symmetry. apply existsb_exists. exists x. by rewrite <- list_elem_of_In.
Qed.

Lemma step_repeat mn mx gr si b :
  step (HRepeat mn mx gr si b) <= if (mn =? 0)%N then 0 else step b.
Proof. unfold step. rewrite nullable_repeat. destruct (mn =? 0)%N, (nullable b); simpl; lia. Qed.
