(* ===== verification/Nfa.v ===== *)
(** Programs and their construction: [linre/nfa.rs].

    A program is the code's vector of instructions; a program counter and
    the ids of sets and tests are [u32]s ([N]).  The builder's [&mut self]
    methods are computations of the state and error monad over the vector
    ([stm]), [?] being its bind.  [compile] makes the five programs of a
    pattern and one per lookaround. *)

From Stdlib Require Import ZArith Lia.
From stdpp Require Import base option numbers list_numbers list.
From S2P Require Import Prelude CharSet Hir.

(** [u32::MAX]: a place not patched yet, and (in [Run]) no bound. *)
Definition HOLE : N := 4294967295.

Inductive Inst : Type :=
| IChar (set next : N)
| ISplit (x y : N)
| IJmp (next : N)
| ISave (slot next : N)
| ILook (look next : N)
| IGuard (next : N)
| IRun (set min max : N) (greedy : bool) (next : N)
| IMatch.

#[export] Instance inst_eq_dec : EqDecision Inst.
Proof. solve_decision. Defined.

Record Prog := mk_prog {
  insts : list Inst;
  (** the anchored entry *)
  start : N;
  (** the unanchored entry (the forward program's only; else the same) *)
  start_unanchored : N;
}.

(** One step of a lookaround read as fixed sequences. *)
Inductive Flat : Type :=
| FChar (set : N)
| FLook (look : N).

(** The characters flat sequences can begin with: a mask of the ASCII ones,
    and whether one past ASCII can. *)
Record FirstTest := mk_first { ft_ascii : Z; ft_other : bool }.

Inductive LookDef : Type :=
| DBegin
| DBeginLine
| DEnd
| DEndLine
| DEndString
| DWord (ascii negate : bool)
| DBehind1 (set : N) (negate : bool)
| DAhead1 (set : N) (negate : bool)
| DAround (behind negate : bool) (prog width max : N) (memo : bool)
    (flat : option (list (list Flat))) (first : option FirstTest).

Record Programs := mk_programs {
  sets : list CharSet;
  looks : list LookDef;
  fwd : Prog;
  full : Prog;
  rev_prog : Prog;
  fwd_bt : Prog;
  full_bt : Prog;
  subs : list Prog;
  nslots : N;
  any_set_id : N;
}.

(** Why a pattern is refused; or an index out of range, which the code would
    panic at ([compile_total] shows it never does). *)
Inductive Error : Type := TooLarge | Panicked.

(** Instructions one program may have. *)
Definition MAX_INSTS : N := 30000.

(** ** Lookarounds as fixed sequences *)

(** Sequences the flat form of a lookaround may have, and their length. *)
Definition MAX_FLAT : nat := 64.

(** [FirstTest::of]; the outer [None] where [sets[set]] is out of range. *)
Fixpoint first_test_loop (t : FirstTest) (seqs : list (list Flat)) (ss : list CharSet) : option (option FirstTest) :=
  match seqs with
  | [] => Some (Some t)
  | s :: seqs' =>
      match s with
      | FChar set :: _ =>
          match ss !! N.to_nat set with
          | None => None
          | Some cs =>
              first_test_loop
                (mk_first (Z.lor (ft_ascii t) (ascii_mask cs)) (ft_other t || has_non_ascii cs)) seqs' ss
          end
      | _ => Some None
      end
  end.

Definition first_test_of (seqs : list (list Flat)) (ss : list CharSet) : option (option FirstTest) :=
  first_test_loop (mk_first 0 false) seqs ss.

Definition may_begin (t : FirstTest) (c : Z) : bool :=
  if (c <? 128)%Z then negb (Z.land (ft_ascii t) (Z.shiftl 1 c) =? 0)%Z else ft_other t.

(** Each sequence of [acc] followed by each of [f], unless one gets too
    long. *)
Definition product (acc f : list (list Flat)) : option (list (list Flat)) :=
  let next := flat_map (fun a => List.map (fun b => a ++ b) f) acc in
  if existsb (fun s => MAX_FLAT <? length s)%nat next then None else Some next.

Definition flatten_concat (fs : list (option (list (list Flat)))) : option (list (list Flat)) :=
  fold_left (fun acc f =>
    match acc, f with
    | Some acc, Some f =>
        if (MAX_FLAT <? length acc * length f)%nat then None else product acc f
    | _, _ => None
    end) fs (Some [[]]).

Definition flatten_alt (fs : list (option (list (list Flat)))) : option (list (list Flat)) :=
  fold_left (fun acc f =>
    match acc, f with
    | Some acc, Some f =>
        let acc := acc ++ f in
        if (MAX_FLAT <? length acc)%nat then None else Some acc
    | _, _ => None
    end) fs (Some []).

(** The loop over [k] in [1..=m] of a repeat: [power] is the sequences of
    exactly [k - 1] iterations. *)
Fixpoint flatten_powers (f power acc : list (list Flat)) (mn k n : nat) : option (list (list Flat)) :=
  match n with
  | 0 => Some acc
  | S n' =>
      if (MAX_FLAT <? length power * length f)%nat then None
      else
        match product power f with
        | None => None
        | Some next =>
            if (mn <=? k)%nat
            then
              let acc := acc ++ next in
              if (MAX_FLAT <? length acc)%nat then None
              else flatten_powers f next acc mn (S k) n'
            else flatten_powers f next acc mn (S k) n'
        end
  end.

Fixpoint flatten (h : Hir) (ls : list Look) : option (list (list Flat)) :=
  match h with
  | HEmpty => Some [[]]
  | HChar s => Some [[FChar s]]
  | HLook l =>
      match ls !! N.to_nat l with
      | None => None
      | Some (LAround _ _ _ _ _) => None
      | Some _ => Some [[FLook l]]
      end
  | HGroup _ b => flatten b ls
  | HConcat v => flatten_concat (List.map (fun x => flatten x ls) v)
  | HAlt v => flatten_alt (List.map (fun x => flatten x ls) v)
  | HRepeat mn mx _ _ body =>
      match mx with
      | None => None
      | Some m =>
          match flatten body ls with
          | None => None
          | Some f =>
              flatten_powers f [[]] (if (mn =? 0)%N then [[]] else [])
                (N.to_nat mn) 1 (N.to_nat m)
          end
      end
  end.

(** ** The builder *)

(** A fragment: its entry, and the places to patch with what follows it (the
    field 0 or 1 of an instruction). *)
Record Frag := mk_frag { fstart : N; holes : list (N * N) }.

Record Options := mk_options { o_saves : bool; o_reverse : bool; o_guards : bool; o_runs : bool }.

Abbreviation builder := (stm (list Inst) Error).

Definition push (i : Inst) : builder N := fun I =>
  if (MAX_INSTS <=? N.of_nat (length I))%N then Err TooLarge
  else Ok (N.of_nat (length I), I ++ [i]).

(** Sets one field of an instruction. *)
Definition set_target (which to : N) (i : Inst) : Inst :=
  match i with
  | IChar s _ => IChar s to
  | IJmp _ => IJmp to
  | ISave s _ => ISave s to
  | ILook l _ => ILook l to
  | IGuard _ => IGuard to
  | IRun s mn mx g _ => IRun s mn mx g to
  | ISplit x y => if (which =? 0)%N then ISplit to y else ISplit x to
  | IMatch => IMatch
  end.

Definition patch_list (hs : list (N * N)) (to : N) (I : list Inst) : list Inst :=
  fold_left (fun I h => alter (set_target (snd h) to) (N.to_nat (fst h)) I) hs I.

Definition patch (hs : list (N * N)) (to : N) : builder unit := fun I =>
  if forallb (fun h => (N.to_nat (fst h) <? length I)%nat) hs then Ok (tt, patch_list hs to I) else Err Panicked.

Definition b_empty : builder Frag :=
  i ← push (IJmp HOLE); mret (mk_frag i [(i, 0%N)]).

(** The loop of [concat] after the first part. *)
Fixpoint concat_loop (st : N) (hs : list (N * N)) (parts : list Frag) : builder Frag :=
  match parts with
  | [] => mret (mk_frag st hs)
  | f :: parts' => patch hs (fstart f) ≫= fun _ => concat_loop st (holes f) parts'
  end.

Definition b_concat (parts : list Frag) : builder Frag :=
  match parts with
  | [] => b_empty
  | first :: rest => concat_loop (fstart first) (holes first) rest
  end.

(** [for x in v { parts.push(self.c(x)?) }], and the same over
    [v.iter().rev()]. *)
Definition each (c : Hir -> builder Frag) : list Hir -> builder (list Frag) :=
  fix go v :=
    match v with
    | [] => mret []
    | x :: v' => c x ≫= fun f => go v' ≫= fun fs => mret (f :: fs)
    end.

Definition each_rev (c : Hir -> builder Frag) : list Hir -> builder (list Frag) :=
  fix go v :=
    match v with
    | [] => mret []
    | x :: v' => go v' ≫= fun fs => c x ≫= fun f => mret (fs ++ [f])
    end.

(** The loop of an alternation: [hs] and [st] the holes and the start so
    far, [last_split] the split waiting for its second branch. *)
Definition alt_loop (c : Hir -> builder Frag) :
    list Hir -> list (N * N) -> N -> option N -> builder Frag :=
  fix go v hs st last_split :=
    match v with
    | [] => mret (mk_frag st hs)
    | x :: v' =>
        (match v' with
         | [] => c x ≫= fun f => mret (fstart f, holes f)
         | _ :: _ =>
             push (ISplit HOLE HOLE) ≫= fun s =>
             c x ≫= fun f =>
             patch [(s, 0%N)] (fstart f) ≫= fun _ =>
             mret (s, holes f)
         end) ≫= fun eh =>
        let entry := fst eh in
        (match last_split with
         | None => mret tt
         | Some s => patch [(s, 1%N)] entry
         end) ≫= fun _ =>
        go v' (hs ++ snd eh)
          (match last_split with None => entry | Some _ => st end)
          (match v' with [] => last_split | _ :: _ => Some entry end)
    end.

(** [for _ in 0..n { parts.push(self.c(body)?) }] *)
Fixpoint times (n : nat) (c : builder Frag) : builder (list Frag) :=
  match n with
  | 0 => mret []
  | S n' => c ≫= fun f => times n' c ≫= fun fs => mret (f :: fs)
  end.

Definition body_side (greedy : bool) : N := if greedy then 0%N else 1%N.
Definition exit_side (greedy : bool) : N := if greedy then 1%N else 0%N.

(** The loop of an unbounded repeat. *)
Definition b_loop (greedy : bool) (c : builder Frag) : builder Frag :=
  push (ISplit HOLE HOLE) ≫= fun s =>
  c ≫= fun f =>
  patch [(s, body_side greedy)] (fstart f) ≫= fun _ =>
  patch (holes f) s ≫= fun _ =>
  mret (mk_frag s [(s, exit_side greedy)]).

(** The [extra] optional iterations of a bounded repeat, each nested in the
    one before: [exits], [st] and [prev] as in the code's loop. *)
Fixpoint b_extra (greedy : bool) (c : builder Frag) (n : nat)
    (exits : list (N * N)) (st : N) (prev : option (list (N * N))) : builder Frag :=
  match n with
  | 0 => mret (mk_frag st (exits ++ default [] prev))
  | S n' =>
      push (ISplit HOLE HOLE) ≫= fun s =>
      c ≫= fun f =>
      patch [(s, body_side greedy)] (fstart f) ≫= fun _ =>
      (match prev with None => mret tt | Some h => patch h s end) ≫= fun _ =>
      b_extra greedy c n' (exits ++ [(s, exit_side greedy)])
        (match prev with None => s | Some _ => st end) (Some (holes f))
  end.

(** The set of a repeat of one set, which a [runs] builder makes one
    instruction. *)
Definition run_set (o : Options) (body : Hir) : option N :=
  if o_runs o then match body with HChar set => Some set | _ => None end else None.

(** [self.looks[l]]: the id of a test, a panic out of range. *)
Definition look_id (look_ids : list N) (l : N) : builder N := fun I =>
  match look_ids !! N.to_nat l with Some id => Ok (id, I) | None => Err Panicked end.

(** [2 * (g as u32 - 1)]: group 0, which no pattern has, wraps around (as a
    group from 2^31 on would, which no pattern is long enough to have). *)
Definition slot_of (g : N) : N := if (g =? 0)%N then 4294967294%N else (2 * (g - 1))%N.

Fixpoint b_c (look_ids : list N) (o : Options) (h : Hir) : builder Frag :=
  match h with
  | HEmpty => b_empty
  | HChar set => push (IChar set HOLE) ≫= fun i => mret (mk_frag i [(i, 0%N)])
  | HLook l => look_id look_ids l ≫= fun id => push (ILook id HOLE) ≫= fun i => mret (mk_frag i [(i, 0%N)])
  | HGroup g body =>
      if negb (o_saves o) then b_c look_ids o body
      else
        push (ISave (slot_of g) HOLE) ≫= fun a =>
        b_c look_ids o body ≫= fun f =>
        patch [(a, 0%N)] (fstart f) ≫= fun _ =>
        push (ISave (slot_of g + 1) HOLE) ≫= fun b =>
        patch (holes f) b ≫= fun _ =>
        mret (mk_frag a [(b, 0%N)])
  | HConcat v =>
      (if o_reverse o then each_rev (b_c look_ids o) v else each (b_c look_ids o) v) ≫= b_concat
  | HAlt v =>
      match v with
      | [] => b_empty
      | _ => alt_loop (b_c look_ids o) v [] HOLE None
      end
  | HRepeat mn mx greedy simple body =>
      match run_set o body with
      | Some set =>
          push (IRun set mn (default HOLE mx) greedy HOLE) ≫= fun i =>
          mret (mk_frag i [(i, 0%N)])
      | None =>
          (if simple && o_guards o
           then push (IGuard HOLE) ≫= fun g => mret [mk_frag g [(g, 0%N)]]
           else mret []) ≫= fun p1 =>
          times (N.to_nat mn) (b_c look_ids o body) ≫= fun p2 =>
          (match mx with
           | None => b_loop greedy (b_c look_ids o body) ≫= fun f => mret [f]
           | Some m =>
               let extra := (m - mn)%N in
               if (0 <? extra)%N
               then b_extra greedy (b_c look_ids o body) (N.to_nat extra) [] HOLE None ≫= fun f => mret [f]
               else mret []
           end) ≫= fun p3 =>
          b_concat (p1 ++ p2 ++ p3)
      end
  end.

(** The tail of a program: zero or more tests, then [Match]. *)
Fixpoint finish_loop (hs : list (N * N)) (tail : list Inst) : builder unit :=
  match tail with
  | [] => mret tt
  | t :: tail' =>
      push t ≫= fun i =>
      patch hs i ≫= fun _ =>
      finish_loop (match t with IMatch => [] | _ => [(i, 0%N)] end) tail'
  end.

Definition build_with (look_ids : list N) (o : Options) (h : Hir) (head : option N) (tail : list Inst) : result Error Prog :=
  match
    (b_c look_ids o h ≫= fun f =>
     (match head with
      | Some slot => push (ISave slot (fstart f)) ≫= fun s => mret (mk_frag s (holes f))
      | None => mret f
      end) ≫= fun f =>
     finish_loop (holes f) tail ≫= fun _ => mret (fstart f)) []
  with
  | Ok (st, v) => Ok (mk_prog v st st)
  | Err e => Err e
  end.

(** [build]: no [Run] instructions. *)
Definition build (look_ids : list N) (h : Hir) (saves reverse guards : bool) (head : option N) (tail : list Inst) : result Error Prog :=
  build_with look_ids (mk_options saves reverse guards false) h head tail.

(** ** [compile] *)

(** The place of the set of all characters, which is added if no set is. *)
Fixpoint position_all (ss : list CharSet) (i : N) : option N :=
  match ss with
  | [] => None
  | s :: ss' => if is_all s then Some i else position_all ss' (i + 1)%N
  end.

(** [(0..looks.len() as u32).collect()]. *)
Definition ids_of (ls : list Look) : list N := List.map N.of_nat (seq 0 (length ls)).

(** One lookaround: its definition, with its program pushed on [subs]. *)
Definition compile_look (ss : list CharSet) (ls : list Look) (ps : list Prog) (l : Look) :
    result Error (LookDef * list Prog) :=
  match l with
  | LBegin => Ok (DBegin, ps)
  | LBeginLine => Ok (DBeginLine, ps)
  | LEnd => Ok (DEnd, ps)
  | LEndLine => Ok (DEndLine, ps)
  | LEndString => Ok (DEndString, ps)
  | LWord a n => Ok (DWord a n, ps)
  | LBehind1 s n => Ok (DBehind1 s n, ps)
  | LAhead1 s n => Ok (DAhead1 s n, ps)
  | LAround behind negate body lo hi =>
      match build (ids_of ls) body false false true None [IMatch] with
      | Err e => Err e
      | Ok p =>
          let memo := negb behind && (MAX_LOOK <? Z.of_N hi)%Z in
          let seqs := if memo then None else flatten body ls in
          match (match seqs with Some v => first_test_of v ss | None => Some None end) with
          | None => Err Panicked
          | Some first => Ok (DAround behind negate (N.of_nat (length ps)) lo hi memo seqs first, ps ++ [p])
          end
      end
  end.

Fixpoint compile_looks (ss : list CharSet) (ls todo : list Look) (ps : list Prog) :
    result Error (list LookDef * list Prog) :=
  match todo with
  | [] => Ok ([], ps)
  | l :: todo' =>
      match compile_look ss ls ps l with
      | Err e => Err e
      | Ok (d, ps) =>
          match compile_looks ss ls todo' ps with
          | Err e => Err e
          | Ok (ds, ps) => Ok (d :: ds, ps)
          end
      end
  end.

(** The unanchored entry: any characters first, as few as possible. *)
Definition add_unanchored (any : N) (p : Prog) : result Error Prog :=
  let u := N.of_nat (length (insts p)) in
  if (MAX_INSTS <? u + 2)%N then Err TooLarge
  else Ok (mk_prog (insts p ++ [ISplit (start p) (u + 1); IChar any u]) (start p) u).

Definition compile (h : Hir) (ss : list CharSet) (ls : list Look) (groups : N) : result Error Programs :=
  let '(ss, any) :=
    match position_all ss 0 with
    | Some i => (ss, i)
    | None => (ss ++ [all], N.of_nat (length ss))
    end in
  '(defs, ps) ← compile_looks ss ls ls [];
  let defs := defs ++ [DEndString] in
  let end_look := N.of_nat (length defs - 1) in
  let slots := (2 * groups + 2)%N in
  let start_slot := (slots - 1)%N in
  fwd0 ← build (ids_of ls) h true false true (Some start_slot) [IMatch];
  fwd ← add_unanchored any fwd0;
  full ← build (ids_of ls) h true false true (Some start_slot) [ILook end_look HOLE; IMatch];
  rev ← build (ids_of ls) h false true false None [IMatch];
  fwd_bt ← build_with (ids_of ls) (mk_options true false false true) h (Some start_slot) [IMatch];
  full_bt ← build_with (ids_of ls) (mk_options true false false true) h (Some start_slot) [ILook end_look HOLE; IMatch];
  Ok (mk_programs ss defs fwd full rev fwd_bt full_bt ps slots any).
