(* ===== verification/Search.v ===== *)
(** What it means to search a program: the paths of its instructions, tried
    in priority order.

    This is the specification between the pattern ([Hir.hmatch]) and the
    matchers ([Pike], [Backtrack]): a node is a program counter at a
    position, [succs] its successors in the order a backtracking search
    tries them, and [Srch n sl r] says that the search from a node, with the
    slots [sl], tries every path (each of them ends) and that [r] is the
    first one accepted, if any. *)

From Stdlib Require Import ZArith Lia.
From stdpp Require Import base option numbers list_numbers list.
From S2P Require Import Prelude CharSet Hir Nfa.

(** A state of a search: a program counter at a position. *)
Abbreviation node := (N * nat)%type.
Abbreviation answer := (option (slots * nat)).

Definition inst_at (P : Prog) (pc : N) : option Inst := insts P !! N.to_nat pc.

(** [opt_or] over a list, first to last. *)
Definition first_of {A} (rs : list (option A)) : option A := foldr opt_or None rs.

Lemma first_of_app {A} (r1 r2 : list (option A)) :
  first_of (r1 ++ r2) = opt_or (first_of r1) (first_of r2).
Proof. induction r1 as [|r r1 IH]; simpl; [done|]. by rewrite IH, opt_or_assoc. Qed.

Section search.
Variable P : Prog.
(** The character tests, the zero-width tests, the window's end, the limit
    on what is read, and the positions a match may end at. *)
Variable set_at : N -> nat -> bool.
Variable look_at : N -> nat -> bool.
Variable wend lim : nat.
Variable last_slot : N.
Variable acc : nat -> bool.

(** How many characters of [set] follow [pos], [cap] at most. *)
Fixpoint run_len (set : N) (cap pos : nat) : nat :=
  match cap with
  | 0 => 0
  | S c => if set_at set pos then S (run_len set c (S pos)) else 0
  end.

(** The bound of a run: what is left to read, or its [max]. *)
Definition run_cap (mx : N) (pos : nat) : nat :=
  if (mx =? HOLE)%N then lim - pos else N.to_nat (N.min mx (N.of_nat (lim - pos))).

(** The positions a run of one set may end at, in the order tried. *)
Definition run_exits (set mn mx : N) (greedy : bool) (pos : nat) : list nat :=
  let n := run_len set (run_cap mx pos) pos in
  if (N.of_nat n <? mn)%N then []
  else
    let up := seq (pos + N.to_nat mn) (S (n - N.to_nat mn)) in
    if greedy then reverse up else up.

Definition succs (n : node) : list node :=
  let (pc, pos) := n in
  match inst_at P pc with
  | Some (IChar set next) => if set_at set pos then [(next, S pos)] else []
  | Some (ISplit x y) => [(x, pos); (y, pos)]
  | Some (IJmp next) => [(next, pos)]
  | Some (ISave _ next) => [(next, pos)]
  | Some (ILook l next) => if look_at l pos then [(next, pos)] else []
  | Some (IGuard next) => if (pos <=? wend)%nat then [(next, pos)] else []
  | Some (IRun set mn mx greedy next) => List.map (fun q => (next, q)) (run_exits set mn mx greedy pos)
  | Some IMatch | None => []
  end.

Definition is_match (pc : N) : bool :=
  match inst_at P pc with Some IMatch => true | _ => false end.

(** What a step from a node makes of the slots. *)
Definition upd (n : node) (sl : slots) : slots :=
  match inst_at P (fst n) with
  | Some (ISave slot _) => save last_slot slot (snd n) sl
  | _ => sl
  end.

(** The answer of a node that has no successors. *)
Definition leaf (n : node) (sl : slots) : answer :=
  if is_match (fst n) && acc (snd n) then Some (sl, snd n) else None.

(** A node of the program. *)
Definition valid (n : node) : Prop := is_Some (inst_at P (fst n)).

Inductive Srch : node -> slots -> answer -> Prop :=
| Srch_node n sl rs :
    valid n ->
    Forall2 (fun n' r => Srch n' (upd n sl) r) (succs n) rs ->
    Srch n sl (first_of (leaf n sl :: rs)).

(** [Srch] of each node of a list, in order. *)
Definition Srchs (ns : list node) (sl : slots) (r : answer) : Prop :=
  exists rs, Forall2 (fun n' r => Srch n' sl r) ns rs /\ r = first_of rs.

Lemma Srch_ind' (Q : node -> slots -> answer -> Prop) :
  (forall n sl rs,
     valid n ->
     Forall2 (fun n' r => Srch n' (upd n sl) r /\ Q n' (upd n sl) r) (succs n) rs ->
     Q n sl (first_of (leaf n sl :: rs))) ->
  forall n sl r, Srch n sl r -> Q n sl r.
Proof.
  intros Hstep. fix IH 4. intros n sl r [n0 sl0 rs Hv H]. apply Hstep; [exact Hv|]. clear Hv.
  revert rs H. generalize (succs n0). fix IHl 3. intros l rs [|x y l' rs' H1 H2]; constructor.
  - split; [exact H1|]. apply IH. exact H1.
  - apply IHl. exact H2.
Qed.

Lemma match_no_succs pc pos : is_match pc = true -> succs (pc, pos) = [].
Proof. unfold is_match, succs. by destruct (inst_at P pc) as [[]|]. Qed.

(** A node that is not [Match]: its successors answer. *)
Lemma Srch_step n sl r :
  valid n -> is_match (fst n) = false -> Srchs (succs n) (upd n sl) r -> Srch n sl r.
Proof.
  intros Hv Hm (rs & Hrs & ->).
  assert (Hl : leaf n sl = None) by (unfold leaf; by rewrite Hm).
  replace (first_of rs) with (first_of (leaf n sl :: rs)) by (by rewrite Hl).
  by constructor.
Qed.

Lemma Srch_match pc pos sl :
  is_match pc = true -> Srch (pc, pos) sl (if acc pos then Some (sl, pos) else None).
Proof.
  intros Hm.
  assert (Hl : leaf (pc, pos) sl = if acc pos then Some (sl, pos) else None)
    by (unfold leaf; simpl; by rewrite Hm).
  rewrite <- Hl, <- (opt_or_None_r (leaf _ _)). apply (Srch_node _ _ []).
  - unfold is_match in Hm. unfold valid. simpl. by destruct (inst_at P pc).
  - rewrite match_no_succs by done. constructor.
Qed.

Lemma Srchs_nil sl : Srchs [] sl None.
Proof. exists []. by split. Qed.

Lemma Srchs_cons n ns sl r rs :
  Srch n sl r -> Srchs ns sl rs -> Srchs (n :: ns) sl (opt_or r rs).
Proof. intros H (l & Hl & ->). exists (r :: l). split; [by constructor|done]. Qed.

Lemma Srchs_one n sl r : Srch n sl r -> Srchs [n] sl r.
Proof. intros H. rewrite <- (opt_or_None_r r). by apply Srchs_cons, Srchs_nil. Qed.

Lemma Srch_inv n sl r :
  Srch n sl r -> exists rs, Srchs (succs n) (upd n sl) rs /\ r = opt_or (leaf n sl) rs.
Proof. intros [n' sl' rs _ H]. exists (first_of rs). split; [by exists rs|done]. Qed.

(** The search has one answer. *)
Lemma Srch_fun n sl r r' : Srch n sl r -> Srch n sl r' -> r = r'.
Proof.
  intros H. revert r'. induction H as [n sl rs Hv IH] using Srch_ind'. intros r' H'.
  inversion H' as [n' sl' rs' _ H'']; subst. f_equal. f_equal.
  clear H'. revert rs' H''. induction IH as [|x y l l' [_ Hxy] _ IHl]; intros rs' H''.
  - by inversion H''.
  - inversion H'' as [|x' y' l1 l1' H1 H2]; subst. f_equal; eauto.
Qed.

(** A node from which some path is accepted. *)
Inductive wins : node -> Prop :=
| wins_leaf pc pos : is_match pc = true -> acc pos = true -> wins (pc, pos)
| wins_step n n' : n' ∈ succs n -> wins n' -> wins n.

Lemma first_of_Some {A} (rs : list (option A)) : is_Some (first_of rs) <-> exists r, Some r ∈ rs.
Proof.
  induction rs as [|[a|] rs IH]; simpl.
  - split; [intros [? ?]; done|]. intros [r Hr]. by apply elem_of_nil in Hr.
  - split; [|by eexists]. intros _. exists a. left.
  - rewrite IH. split; intros [r Hr]; exists r; [by right|].
    apply elem_of_cons in Hr as [|]; done.
Qed.

Lemma Srch_wins n sl r : Srch n sl r -> is_Some r <-> wins n.
Proof.
  intros H. induction H as [n sl rs Hv IH] using Srch_ind'.
  rewrite first_of_Some. split.
  - intros [r Hr]. apply elem_of_cons in Hr as [Hr|Hr].
    + destruct n as [pc pos]. unfold leaf in Hr. simpl in Hr.
      destruct (is_match pc && acc pos) eqn:E; [|done]. cleanb. by apply wins_leaf.
    + apply list_elem_of_lookup in Hr as [i Hi].
      destruct (Forall2_lookup_r _ _ _ _ _ IH Hi) as (n' & Hn' & _ & Hw).
      apply (wins_step n n'); [by eapply list_elem_of_lookup_2|]. apply Hw. by eexists.
  - intros Hw. inversion Hw as [pc pos Hm Ha|n0 n' Hin Hw']; subst.
    + exists (sl, pos). apply elem_of_cons. left. unfold leaf. simpl. by rewrite Hm, Ha.
    + apply list_elem_of_lookup in Hin as [i Hi].
      destruct (Forall2_lookup_l _ _ _ _ _ IH Hi) as (r & Hr & _ & Hr').
      destruct (proj2 Hr' Hw') as [a Ha]. exists a. right.
      rewrite <- Ha. by eapply list_elem_of_lookup_2.
Qed.

(** Every path from a node ends. *)
Inductive ends : node -> Prop :=
| ends_node n : valid n -> (forall n', n' ∈ succs n -> ends n') -> ends n.

Lemma Srch_ends n sl r : Srch n sl r -> ends n.
Proof.
  intros H. induction H as [n sl rs Hv IH] using Srch_ind'. constructor; [done|]. intros n' Hn'.
  apply list_elem_of_lookup in Hn' as [i Hi].
  destruct (Forall2_lookup_l _ _ _ _ _ IH Hi) as (r & _ & _ & Hr). done.
Qed.

Lemma ends_Srch n sl : ends n -> exists r, Srch n sl r.
Proof.
  intros H. revert sl. induction H as [n Hv _ IH]. intros sl.
  assert (Hall : exists rs, Forall2 (fun n' r => Srch n' (upd n sl) r) (succs n) rs).
  { revert IH. generalize (succs n). intros l IH. induction l as [|x l IHl].
    - exists []. constructor.
    - destruct (IH x (list_elem_of_here _ _) (upd n sl)) as [r Hr].
      destruct IHl as [rs Hrs]; [intros n' Hn'; apply IH; by right|].
      exists (r :: rs). by constructor. }
  destruct Hall as [rs Hrs]. eexists. by constructor.
Qed.

Lemma ends_succ n n' : ends n -> n' ∈ succs n -> ends n'.
Proof. intros [n0 Hv H]. apply H. Qed.

Lemma ends_valid n : ends n -> valid n.
Proof. by intros []. Qed.

(** [below n n']: [n'] is reached from [n] in one step or more. *)
Inductive below : node -> node -> Prop :=
| below_one n n' : n' ∈ succs n -> below n n'
| below_more n n' n'' : n' ∈ succs n -> below n' n'' -> below n n''.

Lemma below_trans n1 n2 n3 : below n1 n2 -> below n2 n3 -> below n1 n3.
Proof.
  intros H. revert n3. induction H as [n n' Hin|n n' n'' Hin _ IH]; intros n3 H3.
  - by eapply below_more.
  - eapply below_more; [done|]. by apply IH.
Qed.

(** A search that ends never comes back to a node it is in. *)
Lemma ends_irrefl n : ends n -> ~ below n n.
Proof.
  intros H. induction H as [n Hv _ IH]. intros Hb.
  inversion Hb as [n0 n' Hin|n0 n' n'' Hin Hb']; subst.
  - exact (IH n Hin Hb).
  - apply (IH n' Hin). eapply below_trans; [exact Hb'|]. by apply below_one.
Qed.

End search.

(** ** Where a search can get to *)

Section range.
Variable P : Prog.
Variable set_at : N -> nat -> bool.
Variable look_at : N -> nat -> bool.
Variable wend lim : nat.
Hypothesis set_at_lim : forall s p, set_at s p = true -> p < lim.

Lemma run_len_le s cap p : run_len set_at s cap p <= cap.
Proof. revert p; induction cap as [|cap IH]; intros p; simpl; [lia|]. case_match; [|lia]. specialize (IH (S p)). lia. Qed.

Lemma run_len_lim s cap p : p + run_len set_at s cap p <= Nat.max p lim.
Proof.
  revert p; induction cap as [|cap IH]; intros p; simpl; [lia|].
  destruct (set_at s p) eqn:Hs; [|lia]. apply set_at_lim in Hs. specialize (IH (S p)). lia.
Qed.

(** A smaller cap cuts the run. *)
Lemma run_len_min s a b p : a <= b -> run_len set_at s a p = Nat.min a (run_len set_at s b p).
Proof.
  revert b p; induction a as [|a IH]; intros [|b] p Hab; simpl; try lia.
  destruct (set_at s p); [|lia]. rewrite (IH b) by lia. lia.
Qed.

Lemma run_len_split s n cap p :
  n <= run_len set_at s (n + cap) p ->
  run_len set_at s (n + cap) p = n + run_len set_at s cap (p + n).
Proof.
  revert p; induction n as [|n IH]; intros p H; simpl in *; [by rewrite Nat.add_0_r|].
  destruct (set_at s p); [|lia]. rewrite IH by lia. by rewrite Nat.add_succ_r.
Qed.

(** Steps go forwards, and not past what is read. *)
Lemma succs_range n n' :
  n' ∈ succs P set_at look_at wend lim n -> snd n <= snd n' <= Nat.max (snd n) lim.
Proof.
  destruct n as [pc pos]. unfold succs. intros Hin. destruct (inst_at P pc) as [[]|]; simpl in *;
    repeat case_match; repeat (apply elem_of_cons in Hin as [->|Hin]); simpl; try lia;
    try by apply elem_of_nil in Hin.
  - match goal with H : set_at _ _ = true |- _ => apply set_at_lim in H end. lia.
  - apply list_elem_of_In, in_map_iff in Hin as (q & <- & Hq).
    apply list_elem_of_In in Hq. simpl. unfold run_exits in Hq.
    assert (Hl := run_len_lim set (run_cap lim max pos) pos).
    case_match; [by apply elem_of_nil in Hq|].
    match goal with H : (_ <? _)%N = false |- _ => apply N.ltb_ge in H end.
    destruct greedy; rewrite ?elem_of_reverse, elem_of_seq in Hq; lia.
Qed.
End range.
