(* ===== verification/NfaCorrect.v ===== *)
(** The builder builds what the pattern says.

    [frag P o h e x]: in the program [P] the instructions entered at [e] are
    the fragment of [h], leaving to [x].  The first part proves that the
    builder's output, once its holes are patched, is such a fragment
    ([b_c_builds]); the second, that searching a fragment is the reference
    search of the pattern ([frag_search]). *)

From Stdlib Require Import ZArith Lia.
From stdpp Require Import base option numbers list_numbers list.
From S2P Require Import Prelude CharSet Hir Nfa Search.

(** ** Fragments in a program *)

(** A shape: what the instructions from [e] to [x] are. *)
Abbreviation shape := (Prog -> N -> N -> Prop).

Definition one_inst (i : N -> Inst) : shape := fun P e x => inst_at P e = Some (i x).

Definition then_shape (F G : shape) : shape := fun P e x => exists m, F P e m /\ G P m x.

Fixpoint seq_shape (Fs : list shape) : shape :=
  match Fs with
  | [] => one_inst IJmp
  | [F] => F
  | F :: Fs' => then_shape F (seq_shape Fs')
  end.

Fixpoint alt_shape (Fs : list shape) : shape :=
  match Fs with
  | [] => one_inst IJmp
  | [F] => F
  | F :: Fs' => fun P e x => exists b c, inst_at P e = Some (ISplit b c) /\ F P b x /\ alt_shape Fs' P c x
  end.

(** A split whose preferred branch is [b] when [greedy]. *)
Definition split (greedy : bool) (b x : N) : Inst := if greedy then ISplit b x else ISplit x b.

Definition loop_shape (greedy : bool) (F : shape) : shape :=
  fun P e x => exists b, inst_at P e = Some (split greedy b x) /\ F P b e.

Fixpoint extra_shape (greedy : bool) (F : shape) (n : nat) : shape :=
  fun P e x =>
    match n with
    | 0 => False
    | S n' => exists b m, inst_at P e = Some (split greedy b x) /\ F P b m /\
              match n' with 0 => m = x | S _ => extra_shape greedy F n' P m x end
    end.

Definition tail_shapes (mn : N) (mx : option N) (greedy : bool) (F : shape) : list shape :=
  match mx with
  | None => [loop_shape greedy F]
  | Some m => if (0 <? m - mn)%N then [extra_shape greedy F (N.to_nat (m - mn))] else []
  end.

Fixpoint frag (o : Options) (h : Hir) : shape :=
  match h with
  | HEmpty => one_inst IJmp
  | HChar s => one_inst (IChar s)
  | HLook l => one_inst (ILook l)
  | HGroup g b =>
      if negb (o_saves o) then frag o b
      else then_shape (then_shape (one_inst (ISave (slot_of g))) (frag o b)) (one_inst (ISave (slot_of g + 1)))
  | HConcat v => seq_shape (List.map (frag o) v)
  | HAlt v => alt_shape (List.map (frag o) v)
  | HRepeat mn mx greedy simple b =>
      match run_set o b with
      | Some set => one_inst (IRun set mn (default HOLE mx) greedy)
      | None =>
          seq_shape ((if simple && o_guards o then [one_inst IGuard] else []) ++
                     replicate (N.to_nat mn) (frag o b) ++
                     tail_shapes mn mx greedy (frag o b))
      end
  end.

(** ** Patching *)

(** What patching [hs] makes of the instruction at [i]. *)
Definition patched (hs : list (N * N)) (to : N) (i : nat) (inst : Inst) : Inst :=
  fold_left (fun inst h => if decide (N.to_nat (fst h) = i) then set_target (snd h) to inst else inst) hs inst.

#[local] Arguments patched : simpl never.
#[local] Arguments patch_list : simpl never.

Lemma lookup_patch_list hs to I i : patch_list hs to I !! i = patched hs to i <$> I !! i.
Proof.
  unfold patch_list, patched. revert I; induction hs as [|[j w] hs IH]; intros I; simpl.
  - by destruct (I !! i).
  - rewrite IH, list_lookup_alter. simpl. case_decide; [subst|done].
    by destruct (I !! N.to_nat j).
Qed.

Lemma length_patch_list hs to I : length (patch_list hs to I) = length I.
Proof.
  unfold patch_list. revert I; induction hs as [|h hs IH]; intros I; simpl; [done|].
  by rewrite IH, length_alter.
Qed.

(** The places of [hs] lie in [n0 .. n1). *)
Definition within (n0 n1 : nat) (hs : list (N * N)) : Prop :=
  Forall (fun h => n0 <= N.to_nat (fst h) < n1) hs.

Lemma patched_out hs to i inst n0 n1 :
  within n0 n1 hs -> ~ (n0 <= i < n1) -> patched hs to i inst = inst.
Proof.
  unfold patched, within. intros H Hi. induction H as [|h hs Hh _ IH]; simpl; [done|].
  rewrite decide_False by lia. done.
Qed.

Lemma patched_out_fmap hs to i (o : option Inst) n0 n1 :
  within n0 n1 hs -> ~ (n0 <= i < n1) -> patched hs to i <$> o = o.
Proof. intros Hw Hi. destruct o; simpl; [|done]. by erewrite patched_out. Qed.

Lemma patched_app hs1 hs2 to i inst :
  patched (hs1 ++ hs2) to i inst = patched hs2 to i (patched hs1 to i inst).
Proof. apply fold_left_app. Qed.

Lemma patched_one_eq j w to inst : patched [(N.of_nat j, w)] to j inst = set_target w to inst.
Proof. unfold patched. simpl. rewrite Nat2N.id. by rewrite decide_True. Qed.

Lemma within_app n0 n1 hs1 hs2 : within n0 n1 (hs1 ++ hs2) <-> within n0 n1 hs1 /\ within n0 n1 hs2.
Proof. apply Forall_app. Qed.

Lemma within_weaken n0 n1 m0 m1 hs : m0 <= n0 -> n1 <= m1 -> within n0 n1 hs -> within m0 m1 hs.
Proof. intros ?? H. eapply Forall_impl; [exact H|]. simpl. intros; lia. Qed.

Lemma within_one i w n0 n1 : n0 <= i < n1 -> within n0 n1 [(N.of_nat i, w)].
Proof. intros. constructor; [|constructor]. simpl. lia. Qed.

#[export] Hint Resolve within_one within_weaken : lazaret.

(** ** Regions *)

(** The instructions [n0 .. n1) of [I] are [f]'s: once its holes are patched
    to [x] they have the shape [F]. *)
Record region (I : list Inst) (n0 n1 : nat) (f : Frag) (F : shape) : Prop := {
  reg_order : n0 < n1 <= length I;
  reg_holes : within n0 n1 (holes f);
  reg_shape : forall P x,
    (forall i, n0 <= i < n1 -> insts P !! i = patched (holes f) x i <$> I !! i) ->
    F P (fstart f) x;
}.

(** [I] and [J] agree on [n0 .. n1). *)
Definition same (n0 n1 : nat) (I J : list Inst) : Prop :=
  forall i, n0 <= i < n1 -> I !! i = J !! i.

Lemma region_ext I J n0 n1 f F :
  same n0 n1 I J -> n1 <= length J -> region I n0 n1 f F -> region J n0 n1 f F.
Proof.
  intros Hs Hl [Ho Hh HF]. split; [lia|done|]. intros P x HP. apply HF.
  intros i Hi. by rewrite HP, (Hs i).
Qed.

Lemma region_shape I n0 n1 f (F G : shape) :
  (forall P e x, F P e x -> G P e x) -> region I n0 n1 f F -> region I n0 n1 f G.
Proof. intros H [Ho Hh HF]. split; [done..|]. intros P x HP. by apply H, HF. Qed.

Lemma patch_same hs to I n0 n1 m0 m1 :
  within n0 n1 hs -> m1 <= n0 \/ n1 <= m0 -> same m0 m1 I (patch_list hs to I).
Proof.
  intros Hw Hd i Hi. rewrite lookup_patch_list. erewrite patched_out_fmap; [done|exact Hw|lia].
Qed.

(** Two regions in a row, the first patched to lead to the second. *)
Lemma region_then I n0 n1 n2 f1 f2 F1 F2 :
  region I n0 n1 f1 F1 -> region I n1 n2 f2 F2 ->
  region (patch_list (holes f1) (fstart f2) I) n0 n2 (mk_frag (fstart f1) (holes f2)) (then_shape F1 F2).
Proof.
  intros [Ho1 Hh1 HF1] [Ho2 Hh2 HF2]. split; simpl.
  - rewrite length_patch_list. lia.
  - eapply within_weaken; [| |exact Hh2]; lia.
  - intros P x HP. exists (fstart f2). split.
    + apply HF1. intros i Hi. rewrite HP by lia. rewrite lookup_patch_list.
      rewrite (patched_out_fmap (holes f2) x i _ n1 n2) by (done || lia). done.
    + apply HF2. intros i Hi. rewrite HP by lia. rewrite lookup_patch_list.
      f_equal. apply (patched_out_fmap (holes f1) _ i _ n0 n1); done || lia.
Qed.

(** ** The builder's steps *)

(** A computation of the builder that adds a region of shape [F] and leaves
    what was there. *)
Definition builds (c : builder Frag) (F : shape) : Prop :=
  forall I f J, c I = Ok (f, J) ->
    same 0 (length I) I J /\ region J (length I) (length J) f F.

Lemma push_spec i I n J : push i I = Ok (n, J) -> n = N.of_nat (length I) /\ J = I ++ [i].
Proof. unfold push. case_if; [done|]. intros H. by injection H as <- <-. Qed.

Lemma same_app I K : same 0 (length I) I (I ++ K).
Proof. intros i Hi. by rewrite lookup_app_l by lia. Qed.

Lemma same_trans n0 n1 I J K : same n0 n1 I J -> same n0 n1 J K -> same n0 n1 I K.
Proof. intros H1 H2 i Hi. by rewrite H1, H2. Qed.

Lemma same_weaken n0 n1 m0 m1 I J : same n0 n1 I J -> n0 <= m0 -> m1 <= n1 -> same m0 m1 I J.
Proof. intros H ?? i Hi. apply H. lia. Qed.

Lemma same_sym n0 n1 I J : same n0 n1 I J -> same n0 n1 J I.
Proof. intros H i Hi. symmetry. by apply H. Qed.

Lemma region_push I i w (g : N -> Inst) :
  (forall x, set_target w x i = g x) ->
  region (I ++ [i]) (length I) (S (length I)) (mk_frag (N.of_nat (length I)) [(N.of_nat (length I), w)]) (one_inst g).
Proof.
  intros Hg. split; simpl.
  - rewrite length_app. simpl. lia.
  - apply within_one. lia.
  - intros P x HP. unfold one_inst, inst_at. rewrite Nat2N.id, HP by lia.
    rewrite lookup_app_r, Nat.sub_diag by lia. simpl. by rewrite patched_one_eq, Hg.
Qed.

Lemma patch_spec hs to I u J : patch hs to I = Ok (u, J) -> J = patch_list hs to I.
Proof. unfold patch. destruct (forallb _ hs); [|done]. intros H. by injection H as _ <-. Qed.

Ltac steps :=
  minv;
  repeat match goal with
  | H : push _ _ = Ok (_, _) |- _ => apply push_spec in H as [-> ->]
  | H : patch _ _ _ = Ok (_, _) |- _ => apply patch_spec in H as ->
  end.

Lemma push_builds i (g : N -> Inst) (w : N) :
  (forall x, set_target w x i = g x) ->
  builds (push i ≫= fun n => mret (mk_frag n [(n, w)])) (one_inst g).
Proof.
  intros Hg I f J H. steps. split; [apply same_app|].
  rewrite length_app, Nat.add_1_r. by apply region_push.
Qed.

Lemma b_empty_builds : builds b_empty (one_inst IJmp).
Proof. by apply push_builds. Qed.

(** Consecutive regions of [I] from [n0] to [n1], one per fragment. *)
Inductive parts (I : list Inst) : nat -> list Frag -> list shape -> nat -> Prop :=
| parts_nil n : parts I n [] [] n
| parts_cons n0 n1 n2 f fs F Fs :
    region I n0 n1 f F -> parts I n1 fs Fs n2 -> parts I n0 (f :: fs) (F :: Fs) n2.

Lemma parts_le I n0 fs Fs n1 : parts I n0 fs Fs n1 -> n0 <= n1.
Proof. induction 1 as [|n0 n1 n2 f fs F Fs [Ho _ _] _ IH]; lia. Qed.

Lemma parts_length I n0 fs Fs n1 : parts I n0 fs Fs n1 -> n0 <= length I -> n1 <= length I.
Proof. induction 1 as [|n0 n1 n2 f fs F Fs [Ho _ _] _ IH]; lia. Qed.

Lemma parts_ext I J n0 fs Fs n1 :
  same n0 n1 I J -> n1 <= length J -> parts I n0 fs Fs n1 -> parts J n0 fs Fs n1.
Proof.
  intros Hs Hl H. induction H as [|n0 n1 n2 f fs F Fs Hr Hp IH]; [constructor|].
  pose proof (parts_le _ _ _ _ _ Hp). pose proof (reg_order _ _ _ _ _ Hr).
  apply (parts_cons _ _ n1).
  - eapply region_ext; [|lia|exact Hr]. eapply same_weaken; [exact Hs|lia|lia].
  - apply IH; [|done]. eapply same_weaken; [exact Hs|lia|lia].
Qed.

Lemma parts_app I n0 fs1 Fs1 n1 fs2 Fs2 n2 :
  parts I n0 fs1 Fs1 n1 -> parts I n1 fs2 Fs2 n2 -> parts I n0 (fs1 ++ fs2) (Fs1 ++ Fs2) n2.
Proof. induction 1; simpl; [done|]. intros. econstructor; eauto. Qed.

Lemma seq_shape_cons F G Fs P e x :
  seq_shape (then_shape F G :: Fs) P e x -> seq_shape (F :: G :: Fs) P e x.
Proof.
  destruct Fs as [|H Fs]; simpl; [done|].
  intros (m & (m' & HF & HG) & Hrest). exists m'. split; [done|]. by exists m.
Qed.

Lemma concat_loop_spec fs : forall I st hs F Fs n0 n1 n2 f J,
  region I n0 n1 (mk_frag st hs) F -> parts I n1 fs Fs n2 ->
  concat_loop st hs fs I = Ok (f, J) ->
  length J = length I /\ same 0 n0 I J /\ region J n0 n2 f (seq_shape (F :: Fs)).
Proof.
  induction fs as [|f2 fs IH]; intros I st hs F Fs n0 n1 n2 f J Hr Hp H; simpl in H.
  - inversion Hp; subst. steps. by split_and!.
  - inversion Hp as [|? n1' ? ? ? F2 Fs' Hr2 Hp2]; subst. steps.
    pose proof (region_then _ _ _ _ _ _ _ _ Hr Hr2) as Hr'. simpl in Hr'.
    pose proof (reg_order _ _ _ _ _ Hr). pose proof (reg_order _ _ _ _ _ Hr2).
    pose proof (reg_holes _ _ _ _ _ Hr) as Hh1. simpl in Hh1.
    assert (n2 <= length I) by (eapply parts_length; [exact Hp2|lia]).
    eapply IH in H; [|exact Hr'|].
    2:{ eapply parts_ext; [|rewrite length_patch_list|exact Hp2].
        - eapply patch_same; [exact Hh1|]. lia.
        - lia. }
    destruct H as (Hl & Hs & Hreg). split_and!.
    + by rewrite Hl, length_patch_list.
    + eapply same_trans; [|exact Hs]. eapply patch_same; [exact Hh1|]. lia.
    + eapply region_shape; [|exact Hreg]. intros P e x. apply seq_shape_cons.
Qed.

Lemma b_concat_spec fs I Fs n0 f J :
  parts I n0 fs Fs (length I) -> b_concat fs I = Ok (f, J) ->
  same 0 n0 I J /\ region J n0 (length J) f (seq_shape Fs).
Proof.
  intros Hp H. destruct fs as [|f1 fs]; simpl in H.
  - inversion Hp; subst. by apply b_empty_builds.
  - inversion Hp as [|? n1 ? ? ? F Fs' Hr Hp']; subst.
    assert (Hr' : region I n0 n1 (mk_frag (fstart f1) (holes f1)) F) by (by destruct f1).
    destruct (concat_loop_spec _ _ _ _ _ _ _ _ _ _ _ Hr' Hp' H) as (Hl & Hs & Hreg).
    split; [done|]. by rewrite Hl.
Qed.

(** A computation that adds consecutive regions. *)
Definition builds_parts (c : builder (list Frag)) (Fs : list shape) : Prop :=
  forall I fs J, c I = Ok (fs, J) ->
    same 0 (length I) I J /\ parts J (length I) fs Fs (length J).

Lemma builds_parts_nil : builds_parts (mret []) [].
Proof. intros I fs J H. steps. split; [by intros i|constructor]. Qed.

Lemma region_length I n0 n1 f F : region I n0 n1 f F -> n1 <= length I.
Proof. intros [Ho _ _]. lia. Qed.

Lemma same_length (I J : list Inst) f F n : region J (length I) n f F -> length I <= length J.
Proof. intros [Ho _ _]. lia. Qed.

Lemma builds_parts_cons c F (cs : builder (list Frag)) Fs :
  builds c F -> builds_parts cs Fs ->
  builds_parts (c ≫= fun f => cs ≫= fun fs => mret (f :: fs)) (F :: Fs).
Proof.
  intros Hc Hcs I fs J H. steps.
  destruct (Hc _ _ _ Hm) as [S1 R1]. destruct (Hcs _ _ _ Hm0) as [S2 P2].
  pose proof (same_length _ _ _ _ _ R1). pose proof (parts_le _ _ _ _ _ P2). split.
  - eapply same_trans; [exact S1|]. eapply same_weaken; [exact S2|lia|lia].
  - eapply parts_cons; [|exact P2]. eapply region_ext; [|lia|exact R1].
    eapply same_weaken; [exact S2|lia|lia].
Qed.

Lemma builds_parts_app (c1 c2 : builder (list Frag)) Fs1 Fs2 :
  builds_parts c1 Fs1 -> builds_parts c2 Fs2 ->
  builds_parts (c1 ≫= fun p1 => c2 ≫= fun p2 => mret (p1 ++ p2)) (Fs1 ++ Fs2).
Proof.
  intros H1 H2 I fs J H. steps.
  destruct (H1 _ _ _ Hm) as [S1 P1]. destruct (H2 _ _ _ Hm0) as [S2 P2].
  pose proof (parts_le _ _ _ _ _ P1). pose proof (parts_le _ _ _ _ _ P2). split.
  - eapply same_trans; [exact S1|]. eapply same_weaken; [exact S2|lia|lia].
  - eapply parts_app; [|exact P2]. eapply parts_ext; [|lia|exact P1].
    eapply same_weaken; [exact S2|lia|lia].
Qed.

Lemma builds_concat c Fs : builds_parts c Fs -> builds (c ≫= b_concat) (seq_shape Fs).
Proof.
  intros Hc I f J H. steps. destruct (Hc _ _ _ Hm) as [S1 P1].
  destruct (b_concat_spec _ _ _ _ _ _ P1 H) as [S2 R]. split; [|done].
  by eapply same_trans.
Qed.

Lemma each_builds c (Fr : Hir -> shape) v :
  Forall (fun h => builds (c h) (Fr h)) v -> builds_parts (each c v) (List.map Fr v).
Proof.
  induction 1 as [|h v Hh _ IH]; simpl; [apply builds_parts_nil|].
  by apply (builds_parts_cons (c h)).
Qed.

Lemma times_builds n c F : builds c F -> builds_parts (times n c) (replicate n F).
Proof.
  intros Hc. induction n as [|n IH]; simpl; [apply builds_parts_nil|]. by apply builds_parts_cons.
Qed.

Lemma builds_parts_one c F : builds c F -> builds_parts (c ≫= fun f => mret [f]) [F].
Proof.
  intros Hc I fs J H. steps. destruct (Hc _ _ _ Hm) as [S1 R1].
  split; [done|]. econstructor; [done|constructor].
Qed.

(** *** Alternation *)

(** Patching places of two disjoint ranges commutes. *)
Lemma patched_comm n0 n1 m0 m1 hs1 hs2 t1 t2 i inst :
  within n0 n1 hs1 -> within m0 m1 hs2 -> n1 <= m0 \/ m1 <= n0 ->
  patched hs1 t1 i (patched hs2 t2 i inst) = patched hs2 t2 i (patched hs1 t1 i inst).
Proof.
  intros H1 H2 Hd. destruct (decide (n0 <= i < n1)).
  - rewrite !(patched_out hs2 _ _ _ m0 m1) by (done || lia). done.
  - rewrite !(patched_out hs1 _ _ _ n0 n1) by (done || lia). done.
Qed.

(** The shape of an alternation whose alternatives so far, [done], lead to
    [x], and whose last split's second branch is [y]. *)
Definition alt_open (done : list shape) (P : Prog) (e y x : N) : Prop :=
  forall Fs, Fs <> [] -> alt_shape Fs P y x -> alt_shape (done ++ Fs) P e x.

(** An alternation under construction in [n0 .. length I): [s] the split
    whose second branch is open. *)
Record alt_region (I : list Inst) (n0 s : nat) (hs : list (N * N)) (st : N) (done : list shape) : Prop := {
  ar_split : n0 <= s < length I;
  ar_holes : within n0 (length I) hs;
  ar_shape : forall P x y,
    (forall i, n0 <= i < length I ->
       insts P !! i = patched hs x i <$> (patched [(N.of_nat s, 1%N)] y i <$> I !! i)) ->
    alt_open done P st y x;
}.

Lemma inst_at_region P n0 n1 (g : nat -> Inst -> Inst) (I : list Inst) i a :
  (forall j, n0 <= j < n1 -> insts P !! j = g j <$> I !! j) ->
  n0 <= i < n1 -> I !! i = Some a -> inst_at P (N.of_nat i) = Some (g i a).
Proof. intros H Hi HI. unfold inst_at. rewrite Nat2N.id, H by done. by rewrite HI. Qed.

Lemma alt_open_snoc done F P e y x s b :
  inst_at P s = Some (ISplit b y) -> F P b x -> alt_open done P e s x ->
  alt_open (done ++ [F]) P e y x.
Proof.
  intros Hs HF Ho Fs Hne Halt. rewrite <- app_assoc. apply Ho; [done|].
  destruct Fs as [|G Fs]; [done|]. exists b, y. done.
Qed.

(** One alternative that is not the last: its split, its fragment, and the
    split patched to it. *)
Lemma alt_step I (c : builder Frag) F f J :
  builds c F -> c (I ++ [ISplit HOLE HOLE]) = Ok (f, J) ->
  let n := length I in
  let J' := patch_list [(N.of_nat n, 0%N)] (fstart f) J in
  same 0 n I J' /\ length J' = length J /\ S n < length J /\
  within (S n) (length J) (holes f) /\
  J' !! n = Some (ISplit (fstart f) HOLE) /\ same (S n) (length J) J J' /\
  region J (S n) (length J) f F.
Proof.
  intros Hc H n J'. destruct (Hc _ _ _ H) as [S1 R1].
  rewrite length_app, Nat.add_1_r in *. fold n in R1, S1.
  assert (Hw : within n (S n) [(N.of_nat n, 0%N)]) by (apply within_one; lia).
  pose proof (reg_order _ _ _ _ _ R1). pose proof (reg_holes _ _ _ _ _ R1). split_and!; try done; try lia.
  - intros i Hi. unfold J'. rewrite lookup_patch_list.
    rewrite (patched_out_fmap _ _ _ _ n (S n)) by (done || lia).
    rewrite <- (S1 i) by lia. by rewrite lookup_app_l by lia.
  - apply length_patch_list.
  - unfold J'. rewrite lookup_patch_list, <- (S1 n) by lia.
    rewrite lookup_app_r, Nat.sub_diag by lia. simpl. by rewrite patched_one_eq.
  - intros i Hi. unfold J'. rewrite lookup_patch_list.
    by rewrite (patched_out_fmap _ _ _ _ n (S n)) by (done || lia).
Qed.

Lemma alt_loop_spec (c : Hir -> builder Frag) (Fr : Hir -> shape) v :
  Forall (fun h => builds (c h) (Fr h)) v -> v <> [] ->
  forall I n0 s hs st dn f J,
    alt_region I n0 s hs st dn ->
    alt_loop c v hs st (Some (N.of_nat s)) I = Ok (f, J) ->
    same 0 n0 I J /\ region J n0 (length J) f (alt_shape (dn ++ List.map Fr v)).
Proof.
  induction 1 as [|h v Hh Hv IH]; intros Hne I n0 s hs st dn f J [Hs Hhs Hsh] H; [done|].
  simpl in H. destruct v as [|h' v].
  - steps. simpl in *. steps. destruct (Hh _ _ _ Hm1) as [S1 R1].
    pose proof (reg_order _ _ _ _ _ R1) as Ho. pose proof (reg_holes _ _ _ _ _ R1) as Hho.
    assert (Hw : within s (S s) [(N.of_nat s, 1%N)]) by (apply within_one; lia). split.
    + intros i Hi. rewrite lookup_patch_list, (patched_out_fmap [(N.of_nat s, 1%N)] _ _ _ s (S s)) by (done || lia).
      apply S1. lia.
    + rewrite length_patch_list. split; simpl.
      * rewrite length_patch_list. lia.
      * apply within_app. split; [|eapply within_weaken; [| |exact Hho]; lia].
        eapply within_weaken; [| |exact Hhs]; lia.
      * intros P x HP. apply (Hsh P x (fstart a1)); [|done|].
        -- intros i Hi. rewrite HP by lia. rewrite lookup_patch_list, <- (S1 i) by lia.
           destruct (I !! i); simpl; [|done]. f_equal.
           rewrite patched_app. by rewrite (patched_out (holes a1) _ _ _ (length I) (length st2)) by (done || lia).
        -- simpl. apply (reg_shape _ _ _ _ _ R1). intros i Hi. rewrite HP by lia.
           rewrite lookup_patch_list. rewrite (patched_out_fmap [(N.of_nat s, 1%N)] _ _ _ s (S s)) by (done || lia).
           destruct (st2 !! i); simpl; [|done]. f_equal.
           rewrite patched_app. by rewrite (patched_out hs _ _ _ n0 (length I)) by (done || lia).
  - steps. cbn [fst snd] in *.
    destruct (alt_step _ _ _ _ _ Hh Hm2) as (SI & Hl & Hlt & Hho & Hn & SJ & R1).
    set (J' := patch_list [(N.of_nat (length I), 0%N)] (fstart a2) st3) in *.
    assert (Hw : within s (S s) [(N.of_nat s, 1%N)]) by (apply within_one; lia).
    assert (Hw' : forall t, within (length I) (S (length I)) [(N.of_nat (length I), t)])
      by (intros; apply within_one; lia).
    apply (IH ltac:(done) _ n0 (length I) _ _ (dn ++ [Fr h])) in H.
    + rewrite <- app_assoc in H. destruct H as [HS HR]. split; [|done].
      eapply same_trans; [|exact HS]. intros i Hi.
      rewrite lookup_patch_list, (patched_out_fmap [(N.of_nat s, 1%N)] _ _ _ s (S s)) by (done || lia). apply SI. lia.
    + split.
      * rewrite length_patch_list. lia.
      * rewrite length_patch_list. apply within_app. split.
        -- eapply within_weaken; [| |exact Hhs]; lia.
        -- eapply within_weaken; [| |exact Hho]; lia.
      * rewrite length_patch_list. intros P x y HP.
        eapply (alt_open_snoc _ _ _ _ _ _ (N.of_nat (length I)) (fstart a2)).
        -- rewrite (inst_at_region P n0 (length J')
             (fun i a => patched (hs ++ holes a2) x i (patched [(N.of_nat (length I), 1%N)] y i
                          (patched [(N.of_nat s, 1%N)] (N.of_nat (length I)) i a))) J' _ (ISplit (fstart a2) HOLE)).
           ++ f_equal. rewrite (patched_out [(N.of_nat s, 1%N)] _ _ _ s (S s)) by (done || lia).
              rewrite patched_one_eq. rewrite patched_app.
              rewrite (patched_out hs _ _ _ n0 (length I)) by (done || lia).
              by rewrite (patched_out (holes a2) _ _ _ (S (length I)) (length st3)) by (done || lia).
           ++ intros i Hi. rewrite HP by lia. rewrite lookup_patch_list.
              by destruct (J' !! i).
           ++ lia.
           ++ done.
        -- apply (reg_shape _ _ _ _ _ R1). intros i Hi. rewrite HP by lia.
           rewrite lookup_patch_list, <- (SJ i) by lia. destruct (st3 !! i); simpl; [|done]. f_equal.
           rewrite (patched_out [(N.of_nat s, 1%N)] _ _ _ s (S s)) by (done || lia).
           rewrite (patched_out [(N.of_nat (length I), 1%N)] _ _ _ _ _ (Hw' _)) by lia.
           rewrite patched_app. by rewrite (patched_out hs _ _ _ n0 (length I)) by (done || lia).
        -- apply Hsh. intros i Hi. rewrite HP by lia. rewrite lookup_patch_list, <- (SI i) by lia.
           destruct (I !! i); simpl; [|done]. f_equal.
           rewrite (patched_out [(N.of_nat (length I), 1%N)] _ _ _ _ _ (Hw' _)) by lia.
           rewrite patched_app. by rewrite (patched_out (holes a2) _ _ _ (S (length I)) (length st3)) by (done || lia).
Qed.

Lemma alt_builds (c : Hir -> builder Frag) (Fr : Hir -> shape) v :
  Forall (fun h => builds (c h) (Fr h)) v -> v <> [] ->
  builds (alt_loop c v [] HOLE None) (alt_shape (List.map Fr v)).
Proof.
  intros Hv Hne I f J H. destruct Hv as [|h v Hh Hv]; [done|]. simpl in H. destruct v as [|h' v].
  - steps. simpl in *. steps.
    match goal with Hm : c h I = Ok (?a, _) |- _ => destruct a; exact (Hh _ _ _ Hm) end.
  - steps. cbn [fst snd] in *.
    match goal with Hm : c h _ = Ok (?f0, ?J0) |- _ =>
      destruct (alt_step _ _ _ _ _ Hh Hm) as (SI & Hl & Hlt & Hho & Hn & SJ & R1);
      set (J' := patch_list [(N.of_nat (length I), 0%N)] (fstart f0) J0) in *;
      rename f0 into fb; rename J0 into Jb
    end.
    apply (alt_loop_spec c Fr _ Hv ltac:(done) _ (length I) (length I) _ _ [Fr h]) in H.
    + destruct H as [HS HR]. split; [|done]. by eapply same_trans.
    + split; simpl; [lia| |].
      * eapply within_weaken; [| |exact Hho]; lia.
      * intros P x y HP Fs Hne' Halt. destruct Fs as [|G Fs]; [done|].
        exists (fstart fb), y. split_and!; [| |done].
        -- rewrite (inst_at_region P (length I) (length J')
             (fun i a => patched (holes fb) x i (patched [(N.of_nat (length I), 1%N)] y i a)) J' _
             (ISplit (fstart fb) HOLE)) by (done || lia || (intros i Hi; rewrite HP by lia; by destruct (J' !! i))).
           rewrite patched_one_eq.
           by rewrite (patched_out (holes fb) _ _ _ (S (length I)) (length Jb)) by (done || lia).
        -- apply (reg_shape _ _ _ _ _ R1). intros i Hi. rewrite HP by lia.
           rewrite <- (SJ i) by lia.
           by rewrite (patched_out_fmap [(N.of_nat (length I), 1%N)] _ _ _ (length I) (S (length I)))
             by (apply within_one || idtac; lia).
Qed.

(** *** Repeats *)

Lemma set_sides greedy b x :
  set_target (exit_side greedy) x (set_target (body_side greedy) b (ISplit HOLE HOLE)) = split greedy b x.
Proof. by destruct greedy. Qed.

(** A split followed by a body: what patching both its branches makes. *)
Lemma body_step I (c : builder Frag) F f J greedy :
  builds c F -> c (I ++ [ISplit HOLE HOLE]) = Ok (f, J) ->
  let n := length I in
  let J' := patch_list [(N.of_nat n, body_side greedy)] (fstart f) J in
  same 0 n I J' /\ length J' = length J /\ S n < length J /\
  within (S n) (length J) (holes f) /\
  J' !! n = Some (set_target (body_side greedy) (fstart f) (ISplit HOLE HOLE)) /\
  same (S n) (length J) J J' /\ region J (S n) (length J) f F.
Proof.
  intros Hc H n J'. destruct (Hc _ _ _ H) as [S1 R1].
  rewrite length_app, Nat.add_1_r in *. fold n in R1, S1.
  assert (Hw : within n (S n) [(N.of_nat n, body_side greedy)]) by (apply within_one; lia).
  pose proof (reg_order _ _ _ _ _ R1). pose proof (reg_holes _ _ _ _ _ R1). split_and!; try done; try lia.
  - intros i Hi. unfold J'. rewrite lookup_patch_list.
    rewrite (patched_out_fmap _ _ _ _ n (S n)) by (done || lia).
    rewrite <- (S1 i) by lia. by rewrite lookup_app_l by lia.
  - apply length_patch_list.
  - unfold J'. rewrite lookup_patch_list, <- (S1 n) by lia.
    rewrite lookup_app_r, Nat.sub_diag by lia. cbn. by rewrite patched_one_eq.
  - intros i Hi. unfold J'. rewrite lookup_patch_list.
    by rewrite (patched_out_fmap _ _ _ _ n (S n)) by (done || lia).
Qed.

Lemma b_loop_builds greedy c F : builds c F -> builds (b_loop greedy c) (loop_shape greedy F).
Proof.
  intros Hc I f J H. unfold b_loop in H. steps.
  match goal with Hm : c _ = Ok (?f0, ?J0) |- _ =>
    destruct (body_step _ _ _ _ _ greedy Hc Hm) as (SI & Hl & Hlt & Hho & Hn & SJ & R1);
    set (J' := patch_list [(N.of_nat (length I), body_side greedy)] (fstart f0) J0) in *;
    rename f0 into fb; rename J0 into Jb
  end.
  assert (Hw : forall t, within (length I) (S (length I)) [(N.of_nat (length I), t)])
    by (intros; apply within_one; lia).
  split.
  - intros i Hi. rewrite lookup_patch_list, <- (SI i) by lia.
    by rewrite (patched_out_fmap (holes fb) _ _ _ (S (length I)) (length Jb)) by (done || lia).
  - rewrite length_patch_list. split; simpl.
    + rewrite length_patch_list. lia.
    + apply within_one. lia.
    + intros P x HP. exists (fstart fb). split.
      * rewrite (inst_at_region P (length I) (length J')
          (fun i a => patched [(N.of_nat (length I), exit_side greedy)] x i
             (patched (holes fb) (N.of_nat (length I)) i a)) J' (length I) _ ltac:(
             intros i Hi; rewrite HP by lia; rewrite lookup_patch_list; by destruct (J' !! i))
          ltac:(lia) Hn).
        rewrite (patched_out (holes fb) _ _ _ (S (length I)) (length Jb)) by (done || lia).
        by rewrite patched_one_eq, set_sides.
      * apply (reg_shape _ _ _ _ _ R1). intros i Hi. rewrite HP by lia.
        rewrite (patched_out_fmap [(N.of_nat (length I), exit_side greedy)] _ _ _ _ _ (Hw _)) by lia.
        by rewrite lookup_patch_list, <- (SJ i) by lia.
Qed.

(** The optional iterations built so far, [k] of them: their exits lead to
    [x], the last body's holes [h] to [y]; the last split is before [m]. *)
Record extra_region (I : list Inst) (n0 m : nat) (greedy : bool) (F : shape)
    (exits h : list (N * N)) (st : N) (k : nat) : Prop := {
  er_exits : within n0 m exits;
  er_holes : within m (length I) h;
  er_order : n0 < m <= length I;
  er_shape : forall P x y,
    (forall i, n0 <= i < length I ->
       insts P !! i = patched h y i <$> (patched exits x i <$> I !! i)) ->
    (y = x -> extra_shape greedy F k P st x) /\
    (forall n, extra_shape greedy F (S n) P y x -> extra_shape greedy F (k + S n) P st x);
}.

Lemma extra_spec greedy c F n : builds c F ->
  forall I n0 m exits h st k f J,
    extra_region I n0 m greedy F exits h st k ->
    b_extra greedy c n exits st (Some h) I = Ok (f, J) ->
    same 0 n0 I J /\ region J n0 (length J) f (extra_shape greedy F (k + n)).
Proof.
  intros Hc. induction n as [|n IH]; intros I n0 m exits h st k f J [He Hh Ho Hs] H; simpl in H.
  - steps. split; [by intros i|]. split; simpl; [lia| |].
    + apply within_app. split; eapply within_weaken; [| |exact He| | |exact Hh]; lia.
    + intros P x HP. rewrite Nat.add_0_r. apply (Hs P x x); [|done].
      intros i Hi. rewrite HP by done. destruct (I !! i); simpl; [|done]. by rewrite patched_app.
  - steps.
    match goal with Hm : c _ = Ok (?f0, ?J0) |- _ =>
      destruct (body_step _ _ _ _ _ greedy Hc Hm) as (SI & Hl & Hlt & Hho & Hn & SJ & R1);
      set (J' := patch_list [(N.of_nat (length I), body_side greedy)] (fstart f0) J0) in *;
      rename f0 into fb; rename J0 into Jb
    end.
    assert (Hw : forall t, within (length I) (S (length I)) [(N.of_nat (length I), t)])
      by (intros; apply within_one; lia).
    apply (IH _ n0 (S (length I)) _ _ _ (S k)) in H.
    + replace (S k + n) with (k + S n) in H by lia. destruct H as [HS HR]. split; [|done].
      eapply same_trans; [|exact HS]. intros i Hi. rewrite lookup_patch_list, <- (SI i) by lia.
      by rewrite (patched_out_fmap h _ _ _ m (length I)) by (done || lia).
    + split.
      * apply within_app. split; [|eapply within_weaken; [| |apply Hw]; lia].
        eapply within_weaken; [| |exact He]; lia.
      * by rewrite length_patch_list, Hl.
      * rewrite length_patch_list. lia.
      * rewrite length_patch_list. intros P x y HP.
        assert (Hold : forall i, n0 <= i < length I ->
          insts P !! i = patched h (N.of_nat (length I)) i <$> (patched exits x i <$> I !! i)).
        { intros i Hi. rewrite HP, lookup_patch_list, <- (SI i) by lia.
          destruct (I !! i); simpl; [|done]. f_equal. rewrite patched_app.
          rewrite (patched_out (holes fb) _ _ _ (S (length I)) (length Jb)) by (done || lia).
          rewrite (patched_out [(N.of_nat (length I), exit_side greedy)] _ _ _ _ _ (Hw _)) by lia.
          apply (patched_comm n0 m m (length I)); [done..|lia]. }
        assert (Hsp : inst_at P (N.of_nat (length I)) = Some (split greedy (fstart fb) x)).
        { rewrite (inst_at_region P n0 (length J')
            (fun i a => patched (holes fb) y i (patched (exits ++ [(N.of_nat (length I), exit_side greedy)]) x i
               (patched h (N.of_nat (length I)) i a))) J' (length I) _ ltac:(
               intros i Hi; rewrite HP by lia; rewrite lookup_patch_list; by destruct (J' !! i))
            ltac:(lia) Hn).
          rewrite (patched_out h _ _ _ m (length I)) by (done || lia). rewrite patched_app.
          rewrite (patched_out exits _ _ _ n0 m) by (done || lia).
          rewrite patched_one_eq, set_sides.
          by rewrite (patched_out (holes fb) _ _ _ (S (length I)) (length Jb)) by (done || lia). }
        assert (Hbody : F P (fstart fb) y).
        { apply (reg_shape _ _ _ _ _ R1). intros i Hi. rewrite HP, lookup_patch_list, <- (SJ i) by lia.
          destruct (Jb !! i); simpl; [|done]. f_equal. rewrite patched_app.
          rewrite (patched_out [(N.of_nat (length I), exit_side greedy)] _ _ _ _ _ (Hw _)) by lia.
          rewrite (patched_out exits _ _ _ n0 m) by (done || lia).
          by rewrite (patched_out h _ _ _ m (length I)) by (done || lia). }
        destruct (Hs P x (N.of_nat (length I)) Hold) as [_ Hmore]. split.
        -- intros ->. specialize (Hmore 0). rewrite Nat.add_1_r in Hmore. apply Hmore.
           exists (fstart fb), x. done.
        -- intros n' Hn'. replace (S k + S n') with (k + S (S n')) by lia. apply Hmore.
           exists (fstart fb), y. done.
Qed.

Lemma extra_builds greedy c F n :
  builds c F -> builds (b_extra greedy c (S n) [] HOLE None) (extra_shape greedy F (S n)).
Proof.
  intros Hc I f J H. simpl in H. steps.
  match goal with Hm : c _ = Ok (?f0, ?J0) |- _ =>
    destruct (body_step _ _ _ _ _ greedy Hc Hm) as (SI & Hl & Hlt & Hho & Hn & SJ & R1);
    set (J' := patch_list [(N.of_nat (length I), body_side greedy)] (fstart f0) J0) in *;
    rename f0 into fb; rename J0 into Jb
  end.
  assert (Hw : forall t, within (length I) (S (length I)) [(N.of_nat (length I), t)])
    by (intros; apply within_one; lia).
  apply (extra_spec _ _ _ _ Hc _ (length I) (S (length I)) _ _ _ 1) in H.
  - destruct H as [HS HR]. split; [|done]. by eapply same_trans.
  - split; [apply Hw|by rewrite Hl|lia|]. intros P x y HP.
    assert (Hsp : inst_at P (N.of_nat (length I)) = Some (split greedy (fstart fb) x)).
    { rewrite (inst_at_region P (length I) (length J')
        (fun i a => patched (holes fb) y i (patched [(N.of_nat (length I), exit_side greedy)] x i a)) J' (length I) _ ltac:(
           intros i Hi; rewrite HP by lia; by destruct (J' !! i)) ltac:(lia) Hn).
      rewrite patched_one_eq, set_sides.
      by rewrite (patched_out (holes fb) _ _ _ (S (length I)) (length Jb)) by (done || lia). }
    assert (Hbody : F P (fstart fb) y).
    { apply (reg_shape _ _ _ _ _ R1). intros i Hi. rewrite HP, <- (SJ i) by lia.
      by rewrite (patched_out_fmap [(N.of_nat (length I), exit_side greedy)] _ _ _ _ _ (Hw _)) by lia. }
    split; [intros ->|intros n' Hn']; [exists (fstart fb), x|exists (fstart fb), y]; done.
Qed.

(** *** The whole pattern *)

Lemma group_builds (c : builder Frag) F s1 s2 :
  builds c F ->
  builds
    (push (ISave s1 HOLE) ≫= fun a =>
     c ≫= fun f =>
     patch [(a, 0%N)] (fstart f) ≫= fun _ =>
     push (ISave s2 HOLE) ≫= fun b =>
     patch (holes f) b ≫= fun _ =>
     mret (mk_frag a [(b, 0%N)]))
    (then_shape (then_shape (one_inst (ISave s1)) F) (one_inst (ISave s2))).
Proof.
  intros Hc I f J H. steps.
  match goal with Hm : c _ = Ok (?f0, ?J0) |- _ =>
    destruct (Hc _ _ _ Hm) as [S1 R1]; rename f0 into fb; rename J0 into Jb end.
  rewrite length_app, Nat.add_1_r in *.
  pose proof (region_push I (ISave s1 HOLE) 0%N (ISave s1) (fun _ => eq_refl)) as R0.
  eapply (region_ext _ Jb) in R0; [|eapply same_weaken; [exact S1|lia|lia]|pose proof (reg_order _ _ _ _ _ R1); lia].
  pose proof (region_then _ _ _ _ _ _ _ _ R0 R1) as R01. cbn [fstart holes] in R01.
  set (J1 := patch_list [(N.of_nat (length I), 0%N)] (fstart fb) Jb) in *.
  pose proof (region_push J1 (ISave s2 HOLE) 0%N (ISave s2) (fun _ => eq_refl)) as R2.
  assert (Hl1 : length J1 = length Jb) by apply length_patch_list.
  pose proof (reg_order _ _ _ _ _ R1) as Ho. rewrite <- Hl1 in R01.
  eapply (region_ext _ (J1 ++ [ISave s2 HOLE])) in R01;
    [|intros i Hi; by rewrite lookup_app_l by lia|rewrite length_app; simpl; lia].
  pose proof (region_then _ _ _ _ _ _ _ _ R01 R2) as R. cbn [fstart holes] in R.
  rewrite length_patch_list, length_app, Nat.add_1_r. split; [|exact R].
  intros i Hi. rewrite lookup_patch_list.
  rewrite (patched_out_fmap _ _ _ _ _ _ (reg_holes _ _ _ _ _ R1)) by lia.
  rewrite lookup_app_l by lia. unfold J1. rewrite lookup_patch_list.
  rewrite (patched_out_fmap _ _ _ _ (length I) (S (length I))) by (apply within_one || idtac; lia).
  rewrite <- (S1 i) by lia. by rewrite lookup_app_l by lia.
Qed.

Lemma slot_of_group g : (1 <= g)%N -> slot_of g = (2 * (g - 1))%N.
Proof. intros Hg. unfold slot_of. by rewrite (proj2 (N.eqb_neq g 0)) by lia. Qed.

(** Every id in the list is its own place, as those of [compile] are. *)
Definition ids_exact (ids : list N) : Prop := forall l id, ids !! N.to_nat l = Some id -> id = l.

Lemma ids_of_lookup ls l : ids_of ls !! N.to_nat l = if (N.to_nat l <? length ls)%nat then Some l else None.
Proof.
  unfold ids_of. rewrite list_lookup_fmap. destruct (Nat.ltb_spec (N.to_nat l) (length ls)) as [H|H].
  - rewrite lookup_seq_lt by done. simpl. f_equal. lia.
  - by rewrite lookup_seq_ge.
Qed.

Lemma ids_of_exact ls : ids_exact (ids_of ls).
Proof. intros l id. rewrite ids_of_lookup. case_if; [by intros [= <-]|done]. Qed.

Lemma look_id_Ok ids l I id J : look_id ids l I = Ok (id, J) -> ids !! N.to_nat l = Some id /\ J = I.
Proof. unfold look_id. destruct (ids !! N.to_nat l); [by intros [= <- <-]|done]. Qed.

(** The builder, reading forwards, builds the fragment of the pattern. *)
Lemma b_c_builds ids o h : ids_exact ids -> o_reverse o = false -> builds (b_c ids o h) (frag o h).
Proof.
  intros Hids Hrev. induction h as [| |l|g b IH|v IH|v IH|mn mx gr si b IH] using hir_ind'; cbn [b_c frag].
  - apply b_empty_builds.
  - by apply push_builds.
  - intros I f J H. apply stm_bind_Ok in H as (id & I' & H1 & H). apply look_id_Ok in H1 as [H1%Hids ->]. subst id. revert I f J H. by apply push_builds.
  - case_if; [done|]. by apply group_builds.
  - rewrite Hrev. apply builds_concat. by apply each_builds.
  - destruct v as [|x v]; [apply b_empty_builds|]. by apply alt_builds.
  - destruct (run_set o b); [by apply push_builds|].
    assert (Hp : builds_parts
      ((if si && o_guards o then push (IGuard HOLE) ≫= fun g => mret [mk_frag g [(g, 0%N)]] else mret [])
       ≫= fun p1 => (times (N.to_nat mn) (b_c ids o b) ≫= fun p2 =>
         (match mx with
          | None => b_loop gr (b_c ids o b) ≫= fun f => mret [f]
          | Some m => if (0 <? m - mn)%N
                      then b_extra gr (b_c ids o b) (N.to_nat (m - mn)) [] HOLE None ≫= fun f => mret [f]
                      else mret []
          end) ≫= fun p3 => mret (p2 ++ p3)) ≫= fun p23 => mret (p1 ++ p23))
      ((if si && o_guards o then [one_inst IGuard] else []) ++
       replicate (N.to_nat mn) (frag o b) ++ tail_shapes mn mx gr (frag o b))).
    { apply builds_parts_app.
      - destruct (si && o_guards o); [|apply builds_parts_nil].
        intros I0 fs0 J0 H0. steps. split; [apply same_app|].
        rewrite length_app, Nat.add_1_r. econstructor; [by apply region_push|constructor].
      - apply builds_parts_app; [by apply times_builds|]. unfold tail_shapes.
        destruct mx as [m|]; [|apply builds_parts_one; by apply b_loop_builds].
        destruct (0 <? m - mn)%N eqn:Hmn; [|apply builds_parts_nil].
        apply builds_parts_one. destruct (N.to_nat (m - mn)) eqn:Hn; [apply N.ltb_lt in Hmn; lia|].
        by apply extra_builds. }
    intros I f J H. apply (builds_concat _ _ Hp I f J). rewrite <- H. clear.
    unfold mbind, stm_bind, mret, stm_ret.
    destruct (if si && o_guards o then _ else _) as [[p1 I1]|]; [|done].
    destruct (times _ _ _) as [[p2 I2]|]; [|done].
    destruct mx as [m|]; [destruct (0 <? m - mn)%N|];
      [destruct (b_extra _ _ _ _ _ _ _) as [[p3 I3]|]|idtac|destruct (b_loop _ _ _) as [[p3 I3]|]]; done.
Qed.

(** *** A whole program *)

(** The instructions of a tail, from [x] on. *)
Fixpoint tail_at (P : Prog) (tail : list Inst) (x : N) : Prop :=
  match tail with
  | [] => True
  | IMatch :: _ => inst_at P x = Some IMatch
  | t :: tail' => exists y, inst_at P x = Some (set_target 0 y t) /\ tail_at P tail' y
  end.

Lemma finish_loop_spec tail : tail <> [] -> forall I hs u J (G : Prog -> N -> Prop),
  within 0 (length I) hs ->
  (forall P x, (forall i, i < length I -> insts P !! i = patched hs x i <$> I !! i) -> G P x) ->
  finish_loop hs tail I = Ok (u, J) ->
  length I <= length J /\
  forall P, (forall i, i < length J -> insts P !! i = J !! i) -> exists x, G P x /\ tail_at P tail x.
Proof.
  induction tail as [|t tail IH]; intros Hne I hs u J G Hw HG H; [done|]. clear Hne.
  simpl in H. steps.
  set (I1 := patch_list hs (N.of_nat (length I)) (I ++ [t])) in *.
  assert (Hl1 : length I1 = S (length I)) by (unfold I1; rewrite length_patch_list, length_app; simpl; lia).
  assert (Ht : I1 !! length I = Some t).
  { unfold I1. rewrite lookup_patch_list, (patched_out_fmap _ _ _ _ _ _ Hw) by lia.
    by rewrite lookup_app_r, Nat.sub_diag by lia. }
  set (hs' := match t with IMatch => [] | _ => [(N.of_nat (length I), 0%N)] end) in *.
  assert (Hw' : within (length I) (S (length I)) hs').
  { unfold hs'. destruct t; try (apply within_one; lia). constructor. }
  assert (Hstep : forall P y, (forall i, i < length I1 -> insts P !! i = patched hs' y i <$> I1 !! i) ->
    G P (N.of_nat (length I)) /\ inst_at P (N.of_nat (length I)) = Some (set_target 0 y t)).
  { intros P y HP. split.
    - apply HG. intros i Hi. rewrite HP by lia. rewrite (patched_out_fmap _ _ _ _ _ _ Hw') by lia.
      unfold I1. by rewrite lookup_patch_list, lookup_app_l by lia.
    - unfold inst_at. rewrite Nat2N.id, HP, Ht by lia. simpl. f_equal.
      unfold hs'. destruct t; try apply patched_one_eq. done. }
  destruct tail as [|t' tail'].
  - simpl in H. steps. split; [lia|]. intros P HP. exists (N.of_nat (length I)).
    (* nothing follows: patching to the place it holds changes nothing *)
    assert (Hid : exists y, forall i, i < length I1 -> insts P !! i = patched hs' y i <$> I1 !! i).
    { exists (match t with IChar _ n | IJmp n | ISave _ n | ILook _ n | IGuard n | IRun _ _ _ _ n => n
              | ISplit x _ => x | IMatch => 0%N end).
      intros i Hi. rewrite HP by done. destruct (decide (i = length I)) as [->|Hne].
      - rewrite Ht. simpl. f_equal. unfold hs'. destruct t; try (rewrite patched_one_eq); done.
      - by rewrite (patched_out_fmap _ _ _ _ _ _ Hw') by lia. }
    destruct Hid as [y Hy]. destruct (Hstep P y Hy) as [HG' Hi]. split; [done|].
    destruct t; simpl; try (exists y; done). done.
  - assert (Hw1 : within 0 (length I1) hs') by (eapply within_weaken; [| |exact Hw']; lia).
    destruct (IH ltac:(done) _ _ _ _
      (fun P y => G P (N.of_nat (length I)) /\ inst_at P (N.of_nat (length I)) = Some (set_target 0 y t))
      Hw1 Hstep H) as [Hle Hex].
    split; [lia|]. intros P HP. destruct (Hex P HP) as (y & [HG' Hi] & Htail).
    exists (N.of_nat (length I)). split; [done|].
    destruct t; simpl; try (exists y; done). done.
Qed.

(** The program of [build_with]: the head's [Save] if any, the pattern's
    fragment, the tail. *)
Definition program (o : Options) (h : Hir) (head : option N) (tail : list Inst) (P : Prog) (st : N) : Prop :=
  exists e x, frag o h P e x /\ tail_at P tail x /\
    match head with Some slot => inst_at P st = Some (ISave slot e) | None => st = e end.

Lemma build_with_spec ids o h head tail P :
  ids_exact ids -> o_reverse o = false -> tail <> [] -> build_with ids o h head tail = Ok P ->
  start_unanchored P = start P /\
  forall P', insts P `prefix_of` insts P' -> program o h head tail P' (start P).
Proof.
  intros Hids Hrev Hne H. unfold build_with in H.
  match type of H with match ?c [] with _ => _ end = _ => destruct (c []) as [[st J]|] eqn:Hc; [|done] end.
  injection H as <-. split; [done|]. cbn [insts start]. intros P' [K HK].
  assert (HP : forall i, i < length J -> insts P' !! i = J !! i)
    by (intros i Hi; by rewrite HK, lookup_app_l by lia).
  clear HK. steps. match goal with Hm : b_c _ _ _ _ = Ok (?f0, ?J0) |- _ =>
    destruct (b_c_builds ids o h Hids Hrev _ _ _ Hm) as [_ [Ho Hh HF]]; rename f0 into f; rename J0 into I end.
  destruct head as [slot|]; steps; cbn [fstart holes] in *.
  - match goal with Hm : finish_loop _ _ _ = _ |- _ =>
      eapply (finish_loop_spec tail Hne _ _ _ _
        (fun P x => frag o h P (fstart f) x /\ inst_at P (N.of_nat (length I)) = Some (ISave slot (fstart f)))) in Hm end.
    + destruct Hm1 as [_ Hex]. destruct (Hex P' HP) as (x & [Hf Hs] & Ht). by exists (fstart f), x.
    + rewrite length_app. eapply within_weaken; [| |exact Hh]; simpl; lia.
    + intros P x Hag. split.
      * apply HF. intros i Hi. rewrite Hag by (rewrite length_app; lia). by rewrite lookup_app_l by lia.
      * unfold inst_at. rewrite Nat2N.id, Hag by (rewrite length_app; simpl; lia).
        rewrite (patched_out_fmap _ _ _ _ _ _ Hh) by lia. by rewrite lookup_app_r, Nat.sub_diag by lia.
  - match goal with Hm : finish_loop _ _ _ = _ |- _ =>
      eapply (finish_loop_spec tail Hne _ _ _ _ (fun P x => frag o h P (fstart f) x)) in Hm end.
    + destruct Hm1 as [_ Hex]. destruct (Hex P' HP) as (x & Hf & Ht). by exists (fstart f), x.
    + eapply within_weaken; [| |exact Hh]; simpl; lia.
    + intros P x Hag. apply HF. intros i Hi. by rewrite Hag by lia.
Qed.
