(* ===== verification/NfaSearch.v ===== *)
(** Searching a built program is the reference search of its pattern.

    [sem F g d] relates a program shape to a step of the reference search in
    continuation-passing form: if the search from the exit answers what the
    continuation does (at every position [d] characters or more further on,
    within what can be read), the search from the entry answers what [g] of
    the continuation does.  The lemmas follow the shapes; [frag_sem] is the
    result for a whole pattern, and [build_search] for a built program. *)

From Stdlib Require Import ZArith Lia.
From stdpp Require Import base option numbers list_numbers list.
From S2P Require Import Prelude CharSet Hir Nfa Search NfaCorrect.

Section search.
Variable P : Prog.
Variable set_at : N -> nat -> bool.
Variable look_at : N -> nat -> bool.
Variable wend lim : nat.
Variable last_slot : N.
Variable acc : nat -> bool.
(** Characters are read below the limit, which the window's end bounds. *)
Hypothesis set_at_lim : forall s p, set_at s p = true -> p < lim.
Hypothesis lim_wend : lim <= wend.

Abbreviation cont := (nat -> slots -> answer).
Abbreviation Srch := (Srch P set_at look_at wend lim last_slot acc).
Abbreviation Srchs := (Srchs P set_at look_at wend lim last_slot acc).
Abbreviation succs := (succs P set_at look_at wend lim).

Definition sem (F : shape) (g : cont -> cont) (d : nat) : Prop :=
  forall e x, F P e x -> forall k pos sl,
    (forall pos' sl', pos + d <= pos' <= Nat.max pos lim -> Srch (x, pos') sl' (k pos' sl')) ->
    Srch (e, pos) sl (g k pos sl).

Lemma not_match pc i : inst_at P pc = Some i -> i <> IMatch -> is_match P pc = false.
Proof. unfold is_match. intros ->. by destruct i. Qed.

(** One step from an instruction that is not [Match]. *)
Lemma inst_step e pos sl i r :
  inst_at P e = Some i -> i <> IMatch ->
  Srchs (succs (e, pos)) (upd P last_slot (e, pos) sl) r -> Srch (e, pos) sl r.
Proof. intros Hi Hm H. apply Srch_step; [by exists i|by eapply not_match|done]. Qed.

Ltac inst :=
  match goal with
  | H : inst_at P ?e = Some _ |- Search.Srch _ _ _ _ _ _ _ (?e, _) _ _ =>
      eapply inst_step; [exact H|done|]; unfold Search.succs, upd; cbn [fst snd]; rewrite H
  end.

Lemma sem_weaken F g d d' : d' <= d -> sem F g d -> sem F g d'.
Proof. intros Hd H e x HF k pos sl Hk. apply (H e x HF). intros. apply Hk. lia. Qed.

Lemma sem_ext F g g' d : (forall k p s, g k p s = g' k p s) -> sem F g d -> sem F g' d.
Proof. intros Hg H e x HF k pos sl Hk. rewrite <- Hg. by apply (H e x HF). Qed.

Lemma sem_then F G g g' d d' :
  sem F g d -> sem G g' d' -> sem (then_shape F G) (fun k => g (g' k)) (d + d').
Proof.
  intros HF HG e x (m & HFm & HGm) k pos sl Hk. apply (HF e m HFm). intros pos' sl' Hp.
  apply (HG m x HGm). intros pos'' sl'' Hp'. apply Hk. lia.
Qed.

Lemma sem_jmp : sem (one_inst IJmp) (fun k => k) 0.
Proof. intros e x H k pos sl Hk. unfold one_inst in H. inst. apply Srchs_one, Hk. lia. Qed.

Lemma sem_char s : sem (one_inst (IChar s)) (fun k p sl => if set_at s p then k (S p) sl else None) 1.
Proof.
  intros e x H k pos sl Hk. unfold one_inst in H. inst. destruct (set_at s pos) eqn:Hs.
  - apply Srchs_one, Hk. apply set_at_lim in Hs. lia.
  - apply Srchs_nil.
Qed.

Lemma sem_look l : sem (one_inst (ILook l)) (fun k p sl => if look_at l p then k p sl else None) 0.
Proof.
  intros e x H k pos sl Hk. unfold one_inst in H. inst.
  destruct (look_at l pos); [apply Srchs_one, Hk; lia|apply Srchs_nil].
Qed.

Lemma sem_guard : sem (one_inst IGuard) (fun k p sl => if (p <=? wend)%nat then k p sl else None) 0.
Proof.
  intros e x H k pos sl Hk. unfold one_inst in H. inst.
  destruct (pos <=? wend)%nat; [apply Srchs_one, Hk; lia|apply Srchs_nil].
Qed.

Lemma sem_save s : sem (one_inst (ISave s)) (fun k p sl => k p (save last_slot s p sl)) 0.
Proof. intros e x H k pos sl Hk. unfold one_inst in H. inst. apply Srchs_one, Hk. lia. Qed.

(** Shapes one after the other. *)
Inductive sems : list shape -> list (cont -> cont) -> nat -> Prop :=
| sems_nil : sems [] [] 0
| sems_cons F g d Fs gs ds : sem F g d -> sems Fs gs ds -> sems (F :: Fs) (g :: gs) (d + ds).

Lemma sems_app Fs1 gs1 d1 Fs2 gs2 d2 :
  sems Fs1 gs1 d1 -> sems Fs2 gs2 d2 -> sems (Fs1 ++ Fs2) (gs1 ++ gs2) (d1 + d2).
Proof.
  induction 1 as [|F g d Fs gs ds HF _ IH]; simpl; [done|]. intros H.
  rewrite <- Nat.add_assoc. constructor; auto.
Qed.

Lemma sem_seq Fs gs d : sems Fs gs d -> sem (seq_shape Fs) (seq_all gs) d.
Proof.
  induction 1 as [|F g d Fs gs ds HF Hs IH]; [apply sem_jmp|].
  destruct Hs as [|G g' d' Fs gs ds HG Hs].
  - rewrite Nat.add_0_r. exact HF.
  - exact (sem_then _ _ _ _ _ _ HF IH).
Qed.

Lemma split_succs greedy e b x pos sl rb rx :
  inst_at P e = Some (split greedy b x) ->
  Srch (b, pos) sl rb -> Srch (x, pos) sl rx -> Srch (e, pos) sl (prefer greedy rb rx).
Proof.
  intros H Hb Hx. destruct greedy; simpl in *; inst; apply Srchs_cons; [done| |done|]; by apply Srchs_one.
Qed.

(** A loop, whose body reads a character. *)
Lemma sem_loop F g greedy :
  sem F g 1 ->
  sem (loop_shape greedy F) (fun k p sl => any_number g greedy (S (wend - p)) k p sl) 0.
Proof.
  intros HF e x (b & He & Hb) k pos sl Hk.
  cut (forall n p s, lim - p < n -> pos <= p <= Nat.max pos lim -> Srch (e, p) s (any_number g greedy n k p s)).
  { intros H. apply H; lia. }
  induction n as [|n IH]; intros p s Hn Hp; [lia|]. simpl.
  apply (split_succs greedy e b x); [done| |apply Hk; lia].
  apply (HF b e Hb). intros p' s' Hp'. apply IH; lia.
Qed.

Lemma sem_extra F g d greedy n :
  sem F g d -> sem (extra_shape greedy F n) (at_most g greedy n) 0.
Proof.
  intros HF. induction n as [|n IH]; intros e x H k pos sl Hk; [done|].
  destruct H as (b & m & He & Hb & Hm). simpl.
  apply (split_succs greedy e b x); [done| |apply Hk; lia].
  apply (HF b m Hb). intros p' s' Hp'. destruct n as [|n].
  - subst m. simpl. apply Hk. lia.
  - apply (IH m x Hm). intros. apply Hk. lia.
Qed.

Lemma sems_replicate F g d n : sem F g d -> sems (replicate n F) (replicate n g) (n * d).
Proof. intros H. induction n; simpl; by constructor. Qed.

Lemma seq_all_app gs1 gs2 k : seq_all (gs1 ++ gs2) k = seq_all gs1 (seq_all gs2 k).
Proof. unfold seq_all. by rewrite foldr_app. Qed.

Lemma seq_all_replicate g n k : seq_all (replicate n g) k = exactly g n k.
Proof. induction n as [|n IH]; simpl; [done|]. by rewrite <- IH. Qed.

(** ** A run of one set *)

(** A cap at or past what is left to read changes nothing. *)
Lemma run_len_cap s cap cap' p :
  (cap' = cap \/ (lim - p <= cap' /\ lim - p <= cap)) -> run_len set_at s cap p = run_len set_at s cap' p.
Proof.
  revert cap' p; induction cap as [|cap IH]; intros cap' p H; destruct cap' as [|cap']; simpl; try done.
  - destruct H as [|H]; [done|]. destruct (set_at s p) eqn:Hs; [apply set_at_lim in Hs; lia|done].
  - destruct H as [|H]; [done|]. destruct (set_at s p) eqn:Hs; [apply set_at_lim in Hs; lia|done].
  - destruct (set_at s p); [|done]. f_equal. apply IH. lia.
Qed.

Abbreviation one_char s := (fun (k : cont) p sl => if set_at s p then k (S p) sl else None).

Definition in_order (greedy : bool) (l : list nat) : list nat := if greedy then reverse l else l.

Lemma first_of_in_order_cons greedy (f : nat -> answer) p l :
  first_of (List.map f (in_order greedy (p :: l)))
  = prefer greedy (first_of (List.map f (in_order greedy l))) (f p).
Proof.
  destruct greedy; simpl; [|done]. rewrite reverse_cons, map_app, first_of_app. simpl.
  by rewrite opt_or_None_r.
Qed.

Lemma at_most_run s greedy n k p sl :
  at_most (one_char s) greedy n k p sl
  = first_of (List.map (fun q => k q sl) (in_order greedy (seq p (S (run_len set_at s n p))))).
Proof.
  revert p; induction n as [|n IH]; intros p.
  - destruct greedy; simpl; by rewrite opt_or_None_r.
  - cbn [at_most run_len seq]. rewrite first_of_in_order_cons.
    destruct (set_at s p); [by rewrite IH|by destruct greedy].
Qed.

Lemma any_number_run s greedy n k p sl :
  lim - p < n ->
  any_number (one_char s) greedy n k p sl
  = first_of (List.map (fun q => k q sl) (in_order greedy (seq p (S (run_len set_at s n p))))).
Proof.
  revert p; induction n as [|n IH]; intros p Hn; [lia|].
  cbn [any_number run_len seq]. rewrite first_of_in_order_cons.
  destruct (set_at s p) eqn:Hs; [|by destruct greedy].
  apply set_at_lim in Hs. by rewrite IH by lia.
Qed.

(** [n] characters exactly, then a run: the run of the whole, cut. *)
Lemma exactly_run s n cap k p sl :
  exactly (one_char s) n k p sl
  = if (run_len set_at s (n + cap) p <? n)%nat then None else k (p + n) sl.
Proof.
  revert p; induction n as [|n IH]; intros p; simpl.
  - by rewrite Nat.add_0_r.
  - destruct (set_at s p); simpl; [|done]. rewrite IH. by rewrite Nat.add_succ_r.
Qed.

Lemma run_exits_spec s mn mx greedy p cap :
  run_len set_at s (run_cap lim mx p) p = run_len set_at s (N.to_nat mn + cap) p ->
  run_exits set_at lim s mn mx greedy p =
  if (run_len set_at s (N.to_nat mn + cap) p <? N.to_nat mn)%nat then []
  else in_order greedy (seq (p + N.to_nat mn) (S (run_len set_at s cap (p + N.to_nat mn)))).
Proof.
  intros H. unfold run_exits. rewrite H.
  destruct (Nat.ltb_spec (run_len set_at s (N.to_nat mn + cap) p) (N.to_nat mn)) as [Hlt|Hge].
  - by rewrite (proj2 (N.ltb_lt _ _)) by lia.
  - rewrite (proj2 (N.ltb_ge _ _)) by lia. rewrite run_len_split by done.
    by rewrite Nat.add_sub_swap, Nat.sub_diag by lia.
Qed.

Lemma Srchs_exits x (k : cont) sl qs :
  (forall q, q ∈ qs -> Srch (x, q) sl (k q sl)) ->
  Srchs (List.map (fun q => (x, q)) qs) sl (first_of (List.map (fun q => k q sl) qs)).
Proof.
  induction qs as [|q qs IH]; intros H; simpl; [apply Srchs_nil|].
  apply Srchs_cons; [apply H; left|]. apply IH. intros. apply H. by right.
Qed.

Lemma in_order_elem greedy q l : q ∈ in_order greedy l <-> q ∈ l.
Proof. destruct greedy; simpl; [apply elem_of_reverse|done]. Qed.

Lemma sem_run s mn mx greedy :
  match mx with Some m => (mn <= m < HOLE)%N | None => True end ->
  sem (one_inst (IRun s mn (default HOLE mx) greedy))
    (fun k => exactly (one_char s) (N.to_nat mn)
       match mx with
       | None => fun p sl => any_number (one_char s) greedy (S (wend - p)) k p sl
       | Some m => at_most (one_char s) greedy (N.to_nat (m - mn)) k
       end) (if (mn =? 0)%N then 0 else 1).
Proof.
  intros Hmx e x H k pos sl Hk. unfold one_inst in H. inst.
  set (cap := match mx with None => S (wend - (pos + N.to_nat mn)) | Some m => N.to_nat (m - mn) end).
  assert (Hcap : run_len set_at s (run_cap lim (default HOLE mx) pos) pos
                 = run_len set_at s (N.to_nat mn + cap) pos).
  { unfold run_cap. destruct mx as [m|]; simpl.
    - rewrite (proj2 (N.eqb_neq _ _)) by lia. apply run_len_cap. unfold cap. lia.
    - apply run_len_cap. unfold cap. lia. }
  rewrite (run_exits_spec _ _ _ _ _ _ Hcap). rewrite (exactly_run _ _ cap).
  set (r := run_len set_at s (N.to_nat mn + cap) pos).
  destruct (r <? N.to_nat mn)%nat eqn:Hr; [apply Srchs_nil|]. cleanb.
  assert (Hrun : forall q, q ∈ seq (pos + N.to_nat mn) (S (run_len set_at s cap (pos + N.to_nat mn))) ->
    Srch (x, q) sl (k q sl)).
  { intros q Hq. apply elem_of_seq in Hq. apply Hk.
    assert (Hl := run_len_lim set_at lim set_at_lim s (N.to_nat mn + cap) pos).
    assert (Hsp := run_len_split set_at s (N.to_nat mn) cap pos Hr). fold r in Hl, Hsp.
    destruct (N.eqb_spec mn 0); lia. }
  unfold cap in *. destruct mx as [m|]; [rewrite at_most_run|rewrite any_number_run by lia];
    apply Srchs_exits; intros q Hq; apply Hrun; by apply in_order_elem in Hq.
Qed.

(** ** A pattern *)

Variable o : Options.
(** The builders whose programs are searched: a builder of runs has no
    guards (its program is only searched within the window). *)
Hypothesis runs_guards : o_runs o = true -> o_guards o = false.

Abbreviation hmatch := (hmatch set_at look_at wend last_slot (o_saves o) (o_guards o)).

Lemma sem_list v :
  Forall (fun h => hir_wf h -> sem (frag o h) (hmatch h) (step h)) v -> Forall hir_wf v ->
  exists d, sems (List.map (frag o) v) (List.map hmatch v) d /\ step (HConcat v) <= d.
Proof.
  induction 1 as [|h v Hh _ IH]; intros Hw.
  - exists 0. split; [constructor|]. unfold step. rewrite nullable_concat. done.
  - inversion Hw; subst. destruct IH as (d & Hd & Hle); [done|].
    exists (step h + d). split; [constructor; auto|]. pose proof (step_concat_cons h v). lia.
Qed.

Lemma sem_alt v d :
  v <> [] -> Forall (fun h => sem (frag o h) (hmatch h) d) v ->
  sem (alt_shape (List.map (frag o) v))
    (fun k p sl => alt_all (List.map (fun h => hmatch h k p sl) v)) d.
Proof.
  intros Hne H. induction H as [|h v Hh Hv IH]; [done|]. destruct v as [|h' v].
  - eapply sem_ext; [|exact Hh]. intros k p sl. simpl. by rewrite opt_or_None_r.
  - intros e x (b & c & He & Hb & Hc) k pos sl Hk.
    apply (split_succs true e b c); [done| |].
    + by apply (Hh b x Hb).
    + by apply (IH ltac:(done) c x Hc).
Qed.

Lemma run_set_char b s : run_set o b = Some s -> o_runs o = true /\ b = HChar s.
Proof. unfold run_set. case_if; [|done]. destruct b; try done. intros H. by injection H as ->. Qed.

Lemma sems_tail mn mx greedy b :
  (match mx with Some m => (mn <= m < 4294967295)%N /\ ((m <= 1)%N \/ nullable b = false)
   | None => nullable b = false end) ->
  sem (frag o b) (hmatch b) (step b) ->
  exists gs, sems (tail_shapes mn mx greedy (frag o b)) gs 0 /\
    forall k, seq_all gs k =
      match mx with
      | None => fun p sl => any_number (hmatch b) greedy (S (wend - p)) k p sl
      | Some m => at_most (hmatch b) greedy (N.to_nat (m - mn)) k
      end.
Proof.
  intros Hmx Hb. destruct mx as [m|]; simpl.
  - destruct (0 <? m - mn)%N eqn:Hm.
    + eexists [_]. split; [apply (sems_cons _ _ 0 [] [] 0); [by eapply sem_extra|constructor]|done].
    + exists []. split; [constructor|]. apply N.ltb_ge in Hm.
      replace (m - mn)%N with 0%N by lia. done.
  - eexists [_]. split; [apply (sems_cons _ _ 0 [] [] 0); [|constructor]|].
    + apply sem_loop. unfold step in Hb. by rewrite Hmx in Hb.
    + done.
Qed.

Lemma sem_repeat mn mx greedy simple b :
  hir_wf (HRepeat mn mx greedy simple b) -> run_set o b = None ->
  sem (frag o b) (hmatch b) (step b) ->
  sem (frag o (HRepeat mn mx greedy simple b)) (hmatch (HRepeat mn mx greedy simple b))
    (step (HRepeat mn mx greedy simple b)).
Proof.
  intros [_ Hmx] Hrun Hb. cbn [frag]. rewrite Hrun.
  destruct (sems_tail mn mx greedy b Hmx Hb) as (gs & Hgs & Hk).
  set (guard := if simple && o_guards o then [fun (k : cont) p sl => if (p <=? wend)%nat then k p sl else None] else []).
  eapply sem_ext; [|eapply sem_weaken; [|apply (sem_seq _ (guard ++ replicate (N.to_nat mn) (hmatch b) ++ gs));
    eapply sems_app; [|eapply sems_app; [by apply sems_replicate|exact Hgs]]]].
  - intros k p sl. rewrite !seq_all_app, seq_all_replicate.
    rewrite Hk.
    cbn [Hir.hmatch]. unfold guard. destruct (simple && o_guards o); simpl; [|done].
    by destruct (p <=? wend)%nat.
  - instantiate (1 := 0). pose proof (step_repeat mn mx greedy simple b).
    destruct (N.eqb_spec mn 0); [lia|]. nia.
  - unfold guard. destruct (simple && o_guards o); [|constructor].
    apply (sems_cons _ _ 0 [] [] 0); [apply sem_guard|constructor].
Qed.

(** Searching the fragment of a pattern is the reference search of it. *)
Lemma frag_sem h : hir_wf h -> sem (frag o h) (hmatch h) (step h).
Proof.
  induction h as [| | |g b IH|v IH|v IH|mn mx gr si b IH] using hir_ind'; intros Hw; cbn [frag Hir.hmatch].
  - apply sem_jmp.
  - apply sem_char.
  - apply sem_look.
  - destruct Hw as [Hg1 Hw]. specialize (IH Hw). destruct (o_saves o) eqn:Hs; cbn [negb]; [|exact IH]. rewrite slot_of_group by done.
    eapply sem_weaken; [|apply (sem_then _ _ _ (fun k p sl => k p (save last_slot (2 * (g - 1) + 1) p sl)) _ 0
      (sem_then _ _ _ _ _ _ (sem_save (2 * (g - 1))) IH) (sem_save (2 * (g - 1) + 1)))].
    unfold step; simpl; unfold nullable; simpl; lia.
  - apply hir_wf_list in Hw. destruct (sem_list v IH Hw) as (d & Hd & Hle).
    eapply sem_weaken; [exact Hle|]. by apply sem_seq.
  - destruct v as [|x v]; [apply sem_jmp|]. apply hir_wf_list in Hw.
    apply sem_alt; [done|]. rewrite Forall_forall in IH, Hw |- *. intros y Hy.
    eapply sem_weaken; [by apply step_alt_in|]. by apply IH, Hw.
  - destruct (run_set o b) as [s|] eqn:Hrun.
    + apply run_set_char in Hrun as Hb. destruct Hb as [Hr ->].
      destruct Hw as [_ Hmx]. cbn [frag]. rewrite (runs_guards Hr), andb_false_r. simpl.
      eapply sem_ext; [|eapply sem_weaken; [|apply (sem_run s mn mx gr)]].
      * done.
      * apply step_repeat.
      * destruct mx; [unfold HOLE; lia|done].
    + pose proof (sem_repeat mn mx gr si b Hw Hrun (IH (proj1 Hw))) as H.
      cbn [frag Hir.hmatch] in H. rewrite Hrun in H. exact H.
Qed.
End search.

(** ** A whole program *)

Section program.
Variable P : Prog.
Variable set_at : N -> nat -> bool.
Variable look_at : N -> nat -> bool.
Variable wend lim : nat.
Variable last_slot : N.
Variable acc : nat -> bool.
Hypothesis set_at_lim : forall s p, set_at s p = true -> p < lim.
Hypothesis lim_wend : lim <= wend.

Abbreviation Srch := (Srch P set_at look_at wend lim last_slot acc).

(** The tests of a tail: the zero-width tests before [Match]. *)
Fixpoint tail_ok (tail : list Inst) (p : nat) : bool :=
  match tail with
  | [] | IMatch :: _ => true
  | ILook l _ :: tail' => look_at l p && tail_ok tail' p
  | _ :: tail' => tail_ok tail' p
  end.

(** A tail as the builder is given it: tests, then [Match]. *)
Fixpoint tail_wf (tail : list Inst) : Prop :=
  match tail with
  | [IMatch] => True
  | ILook _ _ :: tail' => tail_wf tail'
  | _ => False
  end.

Lemma tail_search tail x p s :
  tail_wf tail -> tail_at P tail x ->
  Srch (x, p) s (if tail_ok tail p && acc p then Some (s, p) else None).
Proof.
  revert x. induction tail as [|t tail IH]; intros x Hw Ht; [done|].
  destruct t; try done.
  - destruct Ht as (y & Hx & Ht). simpl in Hx. eapply inst_step; [exact Hx|done|].
    unfold succs, upd. cbn [fst snd tail_ok]. rewrite Hx.
    destruct (look_at look p); simpl; [|apply Srchs_nil]. apply Srchs_one. by apply IH.
  - destruct tail; [|done]. simpl in *. apply Srch_match. unfold is_match. by rewrite Ht.
Qed.

(** What the search of a program answers from a start: the reference search,
    accepting what its tail and the search accept. *)
Definition accepting (tail : list Inst) (p : nat) (s : slots) : answer :=
  if tail_ok tail p && acc p then Some (s, p) else None.

Definition headed (head : option N) (pos : nat) (sl : slots) : slots :=
  match head with Some slot => save last_slot slot pos sl | None => sl end.

Definition reference (o : Options) (h : Hir) (head : option N) (tail : list Inst) (pos : nat) (sl : slots) : answer :=
  hmatch set_at look_at wend last_slot (o_saves o) (o_guards o) h (accepting tail) pos (headed head pos sl).

Lemma program_search o h head tail st pos sl :
  (o_runs o = true -> o_guards o = false) ->
  hir_wf h -> tail_wf tail -> program o h head tail P st ->
  Srch (st, pos) sl (reference o h head tail pos sl).
Proof.
  intros Ho Hw Ht (e & x & Hf & Hx & Hh).
  assert (He : forall sl, Srch (e, pos) sl
     (hmatch set_at look_at wend last_slot (o_saves o) (o_guards o) h (accepting tail) pos sl)).
  { intros sl'. eapply (frag_sem P set_at look_at wend lim last_slot acc set_at_lim lim_wend o Ho h Hw e x Hf).
    intros pos' s' _. by apply tail_search. }
  unfold reference. destruct head as [slot|]; simpl; [|subst st; apply He].
  eapply inst_step; [exact Hh|done|]. unfold succs, upd. cbn [fst snd]. rewrite Hh.
  apply Srchs_one, He.
Qed.

(** The unanchored entry: the leftmost start first. *)
Lemma unanchored_search o h head tail st u any pos sl :
  (o_runs o = true -> o_guards o = false) ->
  hir_wf h -> tail_wf tail -> program o h head tail P st ->
  (forall p, p < lim -> set_at any p = true) ->
  inst_at P u = Some (ISplit st (u + 1)) -> inst_at P (u + 1) = Some (IChar any u) ->
  Srch (u, pos) sl
    (first_of (List.map (fun q => reference o h head tail q sl) (seq pos (S (lim - pos))))).
Proof.
  intros Ho Hw Ht Hp Hany Hu Hu1. remember (lim - pos) as n eqn:Hn. revert pos Hn.
  induction n as [|n IH]; intros pos Hn.
  - cbn [seq List.map first_of foldr]. eapply inst_step; [exact Hu|done|].
    unfold succs, upd. cbn [fst snd]. rewrite Hu.
    apply Srchs_cons; [by apply program_search|]. apply Srchs_one.
    eapply inst_step; [exact Hu1|done|]. unfold succs, upd. cbn [fst snd]. rewrite Hu1.
    destruct (set_at any pos) eqn:E; [apply set_at_lim in E; lia|apply Srchs_nil].
  - change (seq pos (S (S n))) with (pos :: seq (S pos) (S n)).
    cbn [List.map first_of foldr]. eapply inst_step; [exact Hu|done|].
    unfold succs, upd. cbn [fst snd]. rewrite Hu.
    apply Srchs_cons; [by apply program_search|]. apply Srchs_one.
    eapply inst_step; [exact Hu1|done|]. unfold succs, upd. cbn [fst snd]. rewrite Hu1.
    rewrite Hany by lia. apply Srchs_one. apply IH. lia.
Qed.
End program.

(** ** The property *)

(** A program the builder makes of a pattern, searched in any order of
    its paths, ends, and answers what the backtracking search of the pattern
    does: alternatives, greedy and lazy loops, counted repeats, runs, groups
    and tests, with its slots. *)
Theorem built_program_search ids set_at look_at wend lim last_slot acc o h head tail P pos sl :
  (forall s p, set_at s p = true -> p < lim) -> lim <= wend ->
  o_reverse o = false -> (o_runs o = true -> o_guards o = false) -> hir_wf h -> tail_wf tail ->
  ids_exact ids -> build_with ids o h head tail = Ok P ->
  ends P set_at look_at wend lim (start P, pos) /\
  Srch P set_at look_at wend lim last_slot acc (start P, pos) sl
    (reference set_at look_at wend last_slot acc o h head tail pos sl).
Proof.
  intros Hs Hl Hr Hg Hw Ht Hids Hb.
  destruct (build_with_spec ids o h head tail P Hids Hr ltac:(by destruct tail) Hb) as [_ Hp].
  assert (Hsr := program_search P set_at look_at wend lim last_slot acc Hs Hl o h head tail (start P) pos sl Hg Hw Ht (Hp P ltac:(done))).
  split; [by eapply Srch_ends|done].
Qed.

(** [a*b], from 0 in a text of three [a] and a [b]: the whole of it. *)
Lemma built_program_search_witness : exists P,
  build [] (HConcat [HRepeat 0 None true true (HChar 0); HChar 1]) true false true (Some 1%N) [IMatch] = Ok P /\
  Srch P (fun s p => if (s =? 0)%N then (p <? 3)%nat else (p =? 3)%nat) (fun _ _ => true) 4 4 0 (fun _ => true) (start P, 0) [(-1)%Z; (-1)%Z]
    (Some ([(-1)%Z; 0%Z], 4)).
Proof.
  eexists. split; [vm_compute; reflexivity|].
  refine (proj2 (built_program_search [] (fun s p => if (s =? 0)%N then (p <? 3)%nat else (p =? 3)%nat) (fun _ _ => true) 4 4 0 (fun _ => true)
    (mk_options true false true false) (HConcat [HRepeat 0 None true true (HChar 0); HChar 1]) (Some 1%N) [IMatch] _ 0 [(-1)%Z; (-1)%Z] _ _ _ _ _ _ _ _)).
  - intros s p. destruct (s =? 0)%N; intros Hp; cleanb; lia.
  - lia.
  - reflexivity.
  - done.
  - simpl. repeat split; lia.
  - exact Logic.I.
  - intros l id Hl. by rewrite lookup_nil in Hl.
  - vm_compute. reflexivity.
Defined.
