(* ===== verification/Machine.v ===== *)
(** What the matchers share: the text, the programs they are given, and the
    interface of the zero-width tests.

    [prog_wf] is what the builder promises the matchers: every index an
    instruction holds is in range.  [LookOracle] is the interface of
    [looks.rs]: a matcher asks whether a test holds at a position, and the
    answer does not depend on what the oracle remembers. *)

From Stdlib Require Import ZArith Lia.
From stdpp Require Import base option numbers list_numbers list.
From S2P Require Import Prelude CharSet Hir Nfa Search.

Abbreviation text := (list Z).

(** The character at a position is read and is in a set: what an
    instruction that reads a character asks, below a limit. *)
Definition set_at (pr : Programs) (t : text) (lim : nat) (set : N) (pos : nat) : bool :=
  (pos <? lim)%nat &&
  match t !! pos, sets pr !! N.to_nat set with
  | Some c, Some cs => contains cs c
  | _, _ => false
  end.

Lemma set_at_lim pr t lim s p : set_at pr t lim s p = true -> p < lim.
Proof. unfold set_at. intros H. cleanb. lia. Qed.

(** An index an instruction holds is in range. *)
Definition inst_wf (nsets nlooks nslots n : nat) (i : Inst) : bool :=
  let target (x : N) := (N.to_nat x <? n)%nat in
  match i with
  | IChar s x => (N.to_nat s <? nsets)%nat && target x
  | ISplit x y => target x && target y
  | IJmp x | IGuard x => target x
  | ISave s x => (N.to_nat s <? nslots)%nat && target x
  | ILook l x => (N.to_nat l <? nlooks)%nat && target x
  | IRun s _ _ _ x => (N.to_nat s <? nsets)%nat && target x
  | IMatch => true
  end.

Definition prog_wf (pr : Programs) (P : Prog) : bool :=
  let n := length (insts P) in
  forallb (inst_wf (length (sets pr)) (length (looks pr)) (N.to_nat (nslots pr)) n) (insts P) &&
  (N.to_nat (start P) <? n)%nat && (N.to_nat (start_unanchored P) <? n)%nat && (2 <=? nslots pr)%N.

Section wf.
Context (pr : Programs) (P : Prog) (Hwf : prog_wf pr P = true).

Lemma wf_inst pc i :
  inst_at P pc = Some i ->
  inst_wf (length (sets pr)) (length (looks pr)) (N.to_nat (nslots pr)) (length (insts P)) i = true.
Proof.
  unfold prog_wf in Hwf. cleanb. intros Hi.
  match goal with H : forallb _ _ = true |- _ => rewrite forallb_forall in H; apply H end.
  apply list_elem_of_In. by eapply list_elem_of_lookup_2.
Qed.

Lemma wf_at x : (N.to_nat x <? length (insts P))%nat = true -> is_Some (inst_at P x).
Proof. intros H. cleanb. by apply lookup_lt_is_Some_2. Qed.

Lemma wf_start : is_Some (inst_at P (start P)).
Proof. unfold prog_wf in Hwf. cleanb. apply lookup_lt_is_Some_2. lia. Qed.

Lemma wf_start_unanchored : is_Some (inst_at P (start_unanchored P)).
Proof. unfold prog_wf in Hwf. cleanb. apply lookup_lt_is_Some_2. lia. Qed.

(** The set of an instruction is there. *)
Lemma wf_set s : (N.to_nat s <? length (sets pr))%nat = true -> is_Some (sets pr !! N.to_nat s).
Proof. intros H. cleanb. by apply lookup_lt_is_Some_2. Qed.
End wf.

(** ** The interface of the zero-width tests *)

(** [looks::holds(pr, look, text, p, end, oracle)]: whether a test holds,
    with the oracle's memory after it ([None]: the code panics). *)
Class LookOracle (O : Type) := look_holds : Programs -> N -> text -> nat -> nat -> O -> option (bool * O).

(** What it promises: within the invariant of its memory, the answer is
    that of [look_at], whatever is remembered. *)
Class OracleLaws (O : Type) `{LookOracle O} (pr : Programs) (t : text) (wend : nat)
    (look_at : N -> nat -> bool) (oinv : O -> Prop) : Prop :=
  look_holds_ok : forall l p o, (N.to_nat l < length (looks pr))%nat -> oinv o ->
    exists o', look_holds pr l t p wend o = Some (look_at l p, o') /\ oinv o'.
