(* ===== verification/NfaWf.v ===== *)
(** A built program holds no index out of range.

    The builder leaves [HOLE]s and patches them later; [bwf I H] says that
    every target of the instructions [I] is an instruction of [I], but for
    the holes [H] still open, and that every set, test and slot named is one
    of the pattern's.  Each builder step keeps it; at the end no hole is
    open, which is what the matchers rely on ([prog_wf]). *)

From Stdlib Require Import ZArith Lia.
From stdpp Require Import base option numbers list_numbers sets list.
From S2P Require Import Prelude CharSet Hir Nfa Search NfaCorrect NfaSearch Machine.

(** The ids of a pattern are in range, and it has no empty alternation (an
    alternation is parsed with a branch). *)
Fixpoint hir_in (ns nl : nat) (ng : N) (h : Hir) : Prop :=
  match h with
  | HEmpty => True
  | HChar s => N.to_nat s < ns
  | HLook l => N.to_nat l < nl
  | HGroup g b => (1 <= g <= ng)%N /\ hir_in ns nl ng b
  | HConcat v => foldr (fun x acc => hir_in ns nl ng x /\ acc) True v
  | HAlt v => v <> [] /\ foldr (fun x acc => hir_in ns nl ng x /\ acc) True v
  | HRepeat _ _ _ _ b => hir_in ns nl ng b
  end.

Lemma hir_in_list ns nl ng v : foldr (fun x acc => hir_in ns nl ng x /\ acc) True v <-> Forall (hir_in ns nl ng) v.
Proof. induction v; simpl; rewrite ?Forall_nil, ?Forall_cons; intuition. Qed.

Lemma hir_in_mono ns ns' nl nl' ng h : ns <= ns' -> nl <= nl' -> hir_in ns nl ng h -> hir_in ns' nl' ng h.
Proof.
  intros Hns Hle. induction h as [| | |g b IH|v IH|v IH|mn mx gr si b IH] using hir_ind'; simpl; try done.
  - lia.
  - lia.
  - intros [H1 H2]. by split; [|apply IH].
  - rewrite !hir_in_list. intros H. rewrite Forall_forall in *. intros x Hx. by apply IH, H.
  - rewrite !hir_in_list. intros [Hne H]. split; [done|]. rewrite Forall_forall in *. intros x Hx. by apply IH, H.
Qed.

Section bwf.
Variables (ns nl : nat) (nsl ng : N) (runs : bool).
Hypothesis slots_room : (2 * ng <= nsl)%N.

(** What an instruction names. *)
Definition names_ok (i : Inst) : Prop :=
  match i with
  | IChar s _ => N.to_nat s < ns
  | ILook l _ => N.to_nat l < nl
  | ISave s _ => (s < nsl)%N
  | IRun s _ _ _ _ => runs = true /\ N.to_nat s < ns
  | _ => True
  end.

Lemma names_set_target w to i : names_ok i -> names_ok (set_target w to i).
Proof. destruct i; simpl; try done. by case_if. Qed.

(** Its targets, by field. *)
Definition fields (i : Inst) : list (N * N) :=
  match i with
  | IChar _ x | IJmp x | ISave _ x | ILook _ x | IGuard x | IRun _ _ _ _ x => [(0%N, x)]
  | ISplit x y => [(0%N, x); (1%N, y)]
  | IMatch => []
  end.

Definition bwf (I : list Inst) (H : list (N * N)) : Prop :=
  forall i inst, I !! i = Some inst ->
    names_ok inst /\ forall w x, (w, x) ∈ fields inst -> N.to_nat x < length I \/ (N.of_nat i, w) ∈ H.

Lemma bwf_nil : bwf [] [].
Proof. intros i inst Hi. by rewrite lookup_nil in Hi. Qed.

Lemma bwf_mono I H H' : H ⊆ H' -> bwf I H -> bwf I H'.
Proof.
  intros Hs Hb i inst Hi. destruct (Hb i inst Hi) as [H1 H2]. split; [done|]. intros w x Hx.
  destruct (H2 w x Hx); [by left|right; by apply Hs].
Qed.

(** A new instruction, its targets in range or open. *)
Lemma bwf_push I H H' i :
  bwf I H -> H ⊆ H' -> names_ok i ->
  (forall w x, (w, x) ∈ fields i -> N.to_nat x < length I \/ (N.of_nat (length I), w) ∈ H') ->
  bwf (I ++ [i]) H'.
Proof.
  intros Hb Hs Hn Hf j inst Hj. rewrite length_app. simpl. apply lookup_app_Some in Hj as [Hj|[Hl Hj]].
  - destruct (Hb j inst Hj) as [H1 H2]. split; [done|]. intros w x Hx. destruct (H2 w x Hx); [left; lia|right; by apply Hs].
  - apply list_lookup_singleton_Some in Hj as [Hj <-]. replace j with (length I) by lia.
    split; [done|]. intros w x Hx. destruct (Hf w x Hx); [left; lia|by right].
Qed.

Lemma bwf_patch_one I H p w to :
  bwf I ((p, w) :: H) -> N.to_nat to < length I -> bwf (alter (set_target w to) (N.to_nat p) I) H.
Proof.
  intros Hb Ht j inst Hj. rewrite length_alter. rewrite list_lookup_alter in Hj. case_decide as Hd.
  - destruct (I !! j) as [i0|] eqn:Hi; [|by rewrite Hd, Hi in Hj]. rewrite Hd, Hi in Hj. simpl in Hj. injection Hj as <-.
    destruct (Hb j i0 Hi) as [H1 H2]. split; [by apply names_set_target|]. intros w' x' Hx.
    destruct i0; simpl in Hx, H2; try (apply list_elem_of_singleton in Hx as [= -> ->]; by left); [|by apply elem_of_nil in Hx].
    destruct (N.eqb_spec w 0) as [->|Hw]; simpl in Hx; repeat (apply elem_of_cons in Hx as [[= -> ->]|Hx]); try (by left);
      try (by apply elem_of_nil in Hx).
    + destruct (H2 1%N y) as [|Hin]; [right; left|by left|]. apply elem_of_cons in Hin as [Heq|]; [done|by right].
    + destruct (H2 0%N x) as [|Hin]; [left|by left|]. apply elem_of_cons in Hin as [Heq|]; [congruence|by right].
  - destruct (Hb j inst Hj) as [H1 H2]. split; [done|]. intros w' x' Hx.
    destruct (H2 w' x' Hx) as [|Hin]; [by left|]. apply elem_of_cons in Hin as [[= <- <-]|]; [|by right].
    by rewrite Nat2N.id in Hd.
Qed.

Lemma bwf_patch I H hs to :
  bwf I (hs ++ H) -> N.to_nat to < length I -> bwf (patch_list hs to I) H.
Proof.
  unfold patch_list. revert I. induction hs as [|[p w] hs IH]; intros I Hb Ht; simpl; [done|].
  apply IH; [|by rewrite length_alter]. by apply bwf_patch_one.
Qed.

(** ** The builder's steps *)

Definition keeps (c : builder Frag) : Prop := forall I H f J,
  bwf I H -> c I = Ok (f, J) -> length I <= length J /\ bwf J (holes f ++ H) /\ N.to_nat (fstart f) < length J.

Definition keeps_parts (c : builder (list Frag)) : Prop := forall I H fs J,
  bwf I H -> c I = Ok (fs, J) -> length I <= length J /\ bwf J (concat (List.map holes fs) ++ H) /\
    Forall (fun f => N.to_nat (fstart f) < length J) fs.

Lemma keeps_push i : names_ok i -> (forall w x, (w, x) ∈ fields i -> w = 0%N) ->
  keeps (push i ≫= fun n => mret (mk_frag n [(n, 0%N)])).
Proof.
  intros Hn Hf I H f J Hb Hr. steps. rewrite length_app. simpl. split; [lia|]. split; [|lia].
  eapply bwf_push; [exact Hb|set_solver|done|]. intros w x Hx. rewrite (Hf w x Hx). right. left.
Qed.

Lemma one_field i : match i with ISplit _ _ => False | _ => True end -> forall w x, (w, x) ∈ fields i -> w = 0%N.
Proof. destruct i; simpl; try done; intros _ w x' Hx; set_solver. Qed.

Lemma keeps_empty : keeps b_empty.
Proof. apply keeps_push; [done|by apply one_field]. Qed.

Lemma keeps_concat_loop parts : forall st hs I H f J,
  bwf I (hs ++ concat (List.map holes parts) ++ H) -> Forall (fun f => N.to_nat (fstart f) < length I) parts ->
  concat_loop st hs parts I = Ok (f, J) -> length J = length I /\ bwf J (holes f ++ H) /\ fstart f = st.
Proof.
  induction parts as [|p parts IH]; intros st hs I H f J Hb Hf Hr; cbn [concat_loop] in Hr; steps; [done|].
  apply Forall_cons in Hf as [Hp Hf].
  destruct (IH st (holes p) (patch_list hs (fstart p) I) H f J) as (G1 & G2 & G3).
  - apply bwf_patch; [|done]. simpl in Hb. by rewrite <- app_assoc in Hb.
  - by rewrite length_patch_list.
  - done.
  - rewrite length_patch_list in G1. done.
Qed.

Lemma keeps_concat (c : builder (list Frag)) : keeps_parts c -> keeps (c ≫= b_concat).
Proof.
  intros Hc I H f J Hb Hr. steps. destruct (Hc I H _ _ Hb Hm) as (G1 & G2 & G3).
  destruct a as [|p parts]; simpl in Hr.
  - destruct (keeps_empty _ _ _ _ G2 Hr) as (F1 & F2 & F3). split; [lia|done].
  - apply Forall_cons in G3 as [Hp G3].
    destruct (keeps_concat_loop parts (fstart p) (holes p) st H f J) as (F1 & F2 & F3); try done.
    + simpl in G2. by rewrite <- app_assoc in G2.
    + rewrite F1, F3. split; [lia|done].
Qed.

Lemma keeps_parts_nil : keeps_parts (mret []).
Proof. intros I H fs J Hb Hr. steps. done. Qed.

Lemma keeps_parts_cons (c : builder Frag) (cs : builder (list Frag)) :
  keeps c -> keeps_parts cs -> keeps_parts (c ≫= fun f => cs ≫= fun fs => mret (f :: fs)).
Proof.
  intros Hc Hcs I H fs J Hb Hr. steps.
  destruct (Hc _ _ _ _ Hb Hm) as (G1 & G2 & G3). destruct (Hcs _ _ _ _ G2 Hm0) as (F1 & F2 & F3).
  split; [lia|]. split; [|constructor; [lia|done]]. eapply bwf_mono; [|exact F2]. simpl. set_solver.
Qed.

Lemma keeps_parts_app (c1 c2 : builder (list Frag)) :
  keeps_parts c1 -> keeps_parts c2 -> keeps_parts (c1 ≫= fun p1 => c2 ≫= fun p2 => mret (p1 ++ p2)).
Proof.
  intros Hc1 Hc2 I H fs J Hb Hr. steps.
  destruct (Hc1 _ _ _ _ Hb Hm) as (G1 & G2 & G3). destruct (Hc2 _ _ _ _ G2 Hm0) as (F1 & F2 & F3).
  split; [lia|]. rewrite map_app, concat_app. split.
  - eapply bwf_mono; [|exact F2]. set_solver.
  - apply Forall_app. split; [|done]. eapply Forall_impl; [exact G3|]. simpl. lia.
Qed.

Lemma keeps_parts_one c : keeps c -> keeps_parts (c ≫= fun f => mret [f]).
Proof.
  intros Hc I H fs J Hb Hr. steps. destruct (Hc _ _ _ _ Hb Hm) as (G1 & G2 & G3).
  split; [done|]. simpl. rewrite app_nil_r. split; [done|by constructor].
Qed.

Lemma keeps_each c v : Forall (fun h => keeps (c h)) v -> keeps_parts (each c v).
Proof. induction 1 as [|h v Hh _ IH]; [apply keeps_parts_nil|]. by apply keeps_parts_cons. Qed.

Lemma keeps_each_rev c v : Forall (fun h => keeps (c h)) v -> keeps_parts (each_rev c v).
Proof.
  induction 1 as [|h v Hh _ IH]; [apply keeps_parts_nil|]. cbn [each_rev]. intros I H fs J Hb Hr. steps.
  destruct (IH _ _ _ _ Hb Hm) as (G1 & G2 & G3). destruct (Hh _ _ _ _ G2 Hm0) as (F1 & F2 & F3).
  split; [lia|]. rewrite map_app, concat_app. simpl. split.
  - eapply bwf_mono; [|exact F2]. set_solver.
  - apply Forall_app. split; [eapply Forall_impl; [exact G3|]; simpl; lia|by constructor].
Qed.

Lemma keeps_times n c : keeps c -> keeps_parts (times n c).
Proof. intros Hc. induction n; [apply keeps_parts_nil|]. by apply keeps_parts_cons. Qed.

Lemma keeps_group c s1 s2 : (s1 < nsl)%N -> (s2 < nsl)%N -> keeps c ->
  keeps (push (ISave s1 HOLE) ≫= fun a => c ≫= fun f => patch [(a, 0%N)] (fstart f) ≫= fun _ =>
    push (ISave s2 HOLE) ≫= fun b => patch (holes f) b ≫= fun _ => mret (mk_frag a [(b, 0%N)])).
Proof.
  intros H1 H2 Hc I H f J Hb Hr. steps.
  assert (Hb1 : bwf (I ++ [ISave s1 HOLE]) ((N.of_nat (length I), 0%N) :: H)).
  { eapply bwf_push; [exact Hb|set_solver|done|]. intros w x Hx. rewrite (one_field (ISave s1 HOLE) Logic.I w x Hx). right. left. }
  destruct (Hc _ _ _ _ Hb1 Hm0) as (G1 & G2 & G3). rewrite length_app in G1. simpl in G1.
  set (I2 := patch_list [(N.of_nat (length I), 0%N)] (fstart a0) st0) in *.
  assert (Hl2 : length I2 = length st0) by apply length_patch_list.
  assert (Hb2 : bwf I2 (holes a0 ++ H)) by (apply bwf_patch; [eapply bwf_mono; [|exact G2]; set_solver|done]).
  set (I3 := I2 ++ [ISave s2 HOLE]) in *. assert (Hl3 : length I3 = S (length I2)) by (unfold I3; rewrite length_app; simpl; lia).
  assert (Hb3 : bwf I3 (holes a0 ++ (N.of_nat (length I2), 0%N) :: H)).
  { eapply bwf_push; [exact Hb2|set_solver|done|]. intros w x Hx. rewrite (one_field (ISave s2 HOLE) Logic.I w x Hx). right. set_solver. }
  rewrite length_patch_list. cbn [holes fstart app]. split; [lia|]. split; [|lia].
  apply bwf_patch; [exact Hb3|lia].
Qed.

(** The split a loop or an optional iteration starts with, its body's side
    patched. *)
Lemma keeps_split_body c greedy I H f J :
  keeps c -> bwf I H ->
  c (I ++ [ISplit HOLE HOLE]) = Ok (f, J) ->
  let I' := patch_list [(N.of_nat (length I), body_side greedy)] (fstart f) J in
  length I < length I' /\ bwf I' (holes f ++ (N.of_nat (length I), exit_side greedy) :: H).
Proof.
  intros Hc Hb Hr. cbn zeta. rewrite length_patch_list.
  assert (Hb1 : bwf (I ++ [ISplit HOLE HOLE]) ((N.of_nat (length I), body_side greedy) :: (N.of_nat (length I), exit_side greedy) :: H)).
  { eapply bwf_push; [exact Hb|set_solver|done|]. intros w x Hx. right. simpl in Hx.
    destruct greedy; simpl; set_solver. }
  destruct (Hc _ _ _ _ Hb1 Hr) as (G1 & G2 & G3). rewrite length_app in G1. simpl in G1. split; [lia|].
  apply bwf_patch; [|done]. eapply bwf_mono; [|exact G2]. set_solver.
Qed.

Lemma keeps_loop greedy c : keeps c -> keeps (b_loop greedy c).
Proof.
  intros Hc I H f J Hb Hr. unfold b_loop in Hr. steps.
  destruct (keeps_split_body c greedy I H _ _ Hc Hb Hm0) as [G1 G2].
  rewrite length_patch_list. cbn [holes fstart app]. split; [lia|]. split; [|lia].
  apply bwf_patch; [exact G2|lia].
Qed.

Lemma keeps_extra greedy c n : keeps c -> forall exits st prev I H f J,
  bwf I (exits ++ default [] prev ++ H) -> (0 < n \/ N.to_nat st < length I) ->
  (prev <> None -> N.to_nat st < length I) ->
  b_extra greedy c n exits st prev I = Ok (f, J) ->
  length I <= length J /\ bwf J (holes f ++ H) /\ N.to_nat (fstart f) < length J.
Proof.
  intros Hc. induction n as [|n IH]; intros exits st prev I H f J Hb Hn Hst Hr; cbn [b_extra] in Hr; steps.
  { cbn [holes fstart]. split; [done|]. split; [by rewrite <- app_assoc|lia]. }
  destruct (keeps_split_body c greedy I _ _ _ Hc Hb Hm0) as [G1 G2].
  set (I1 := patch_list [(N.of_nat (length I), body_side greedy)] (fstart a0) st1) in *.
  assert (Hnext : exists I2, st3 = I2 /\ length I2 = length I1 /\
    bwf I2 ((exits ++ [(N.of_nat (length I), exit_side greedy)]) ++ holes a0 ++ H)).
  { exists st3. split; [done|]. destruct prev as [hp|]; steps.
    - rewrite length_patch_list. split; [done|]. apply bwf_patch; [|lia]. eapply bwf_mono; [|exact G2]. simpl. set_solver.
    - split; [done|]. eapply bwf_mono; [|exact G2]. simpl. set_solver. }
  destruct Hnext as (I2 & -> & L2 & B2).
  assert (Hst2 : N.to_nat (match prev with None => N.of_nat (length I) | Some _ => st end) < length I2).
  { destruct prev; [|lia]. specialize (Hst ltac:(done)). lia. }
  destruct (IH _ _ (Some (holes a0)) I2 H f J B2 (or_intror Hst2) (fun _ => Hst2) Hr) as (F1 & F2 & F3).
  split; [lia|done].
Qed.

Definition last_hole (v : list Hir) (last : option N) : list (N * N) :=
  match v, last with _ :: _, Some s => [(s, 1%N)] | _, _ => [] end.

Lemma keeps_alt_loop (c : Hir -> builder Frag) v : Forall (fun h => keeps (c h)) v ->
  forall hs st last I H f J,
  bwf I (hs ++ last_hole v last ++ H) -> (v = [] \/ last <> None -> N.to_nat st < length I) ->
  alt_loop c v hs st last I = Ok (f, J) ->
  length I <= length J /\ bwf J (holes f ++ H) /\ N.to_nat (fstart f) < length J.
Proof.
  induction 1 as [|x v Hx _ IH]; intros hs st last I H f J Hb Hst Hr; cbn [alt_loop] in Hr; steps.
  { cbn [holes fstart]. split; [done|]. split; [done|]. apply Hst. by left. }
  (* the branch *)
  assert (Hbr : length I < length st0 /\ N.to_nat (fst a) < length st0 /\
    bwf st0 (snd a ++ (match v with [] => [] | _ :: _ => [(fst a, 1%N)] end) ++ hs ++ last_hole (x :: v) last ++ H)
    \/ length I <= length st0 /\ v = [] /\ N.to_nat (fst a) < length st0 /\
    bwf st0 (snd a ++ hs ++ last_hole (x :: v) last ++ H)).
  { destruct v as [|y v]; steps; cbn [fst snd].
    - right. destruct (Hx _ _ _ _ Hb Hm1) as (G1 & G2 & G3). done.
    - left. destruct (keeps_split_body (c x) true I _ _ _ Hx Hb Hm2) as [G1 G2]. cbn [body_side exit_side] in G1, G2. split; [done|]. split; [by rewrite Nat2N.id|]. exact G2. }
  assert (Hbr' : length I <= length st0 /\ N.to_nat (fst a) < length st0 /\
    bwf st0 (snd a ++ (match v with [] => [] | _ :: _ => [(fst a, 1%N)] end) ++ hs ++ last_hole (x :: v) last ++ H)).
  { destruct Hbr as [(?&?&?)|(?&->&?&?)]; [split; [lia|done]|]. split; [lia|]. done. }
  clear Hbr. destruct Hbr' as (L0 & A0 & B0).
  assert (Hl : length st1 = length st0 /\
    bwf st1 (snd a ++ (match v with [] => [] | _ :: _ => [(fst a, 1%N)] end) ++ hs ++ H)).
  { destruct last as [s|]; steps.
    - rewrite length_patch_list. split; [done|]. apply bwf_patch; [|done]. eapply bwf_mono; [|exact B0]. simpl. set_solver.
    - split; [done|]. eapply bwf_mono; [|exact B0]. simpl. set_solver. }
  destruct Hl as [L1 B1].
  eapply IH in Hr as (F1 & F2 & F3); [split; [lia|done]| |].
  - eapply bwf_mono; [|exact B1]. destruct v; simpl; set_solver.
  - intros _. rewrite L1. destruct last; [|done]. specialize (Hst ltac:(by right)). lia.
Qed.

Lemma keeps_c ids o h :
  ids_exact ids -> hir_in ns nl ng h -> (o_runs o = true -> runs = true) -> keeps (b_c ids o h).
Proof.
  intros Hids Hin Hruns. revert Hin. induction h as [|s|l|g b IH|v IH|v IH|mn mx gr si b IH] using hir_ind'; intros Hin; cbn [b_c].
  - apply keeps_empty.
  - by apply keeps_push; [|apply one_field].
  - intros I H f J Hb Hr. apply stm_bind_Ok in Hr as (id & I' & H1 & Hr). apply look_id_Ok in H1 as [H1%Hids ->]. subst id.
    revert I H f J Hb Hr. by apply keeps_push; [|apply one_field].
  - destruct Hin as [Hg Hin]. specialize (IH Hin). destruct (o_saves o); cbn [negb]; [|done].
    rewrite slot_of_group by lia. apply keeps_group; [lia|lia|done].
  - apply hir_in_list in Hin. apply keeps_concat.
    assert (Hall : Forall (fun h => keeps (b_c ids o h)) v) by (rewrite Forall_forall in *; intros x Hx; by apply IH, Hin).
    destruct (o_reverse o); [by apply keeps_each_rev|by apply keeps_each].
  - destruct Hin as [Hne Hin]. apply hir_in_list in Hin. destruct v as [|x v]; [done|].
    assert (Hall : Forall (fun h => keeps (b_c ids o h)) (x :: v)) by (rewrite Forall_forall in *; intros y Hy; by apply IH, Hin).
    intros I H f J Hb Hr. eapply (keeps_alt_loop _ _ Hall [] HOLE None); [exact Hb| |exact Hr]. by intros [|].
  - simpl in Hin. specialize (IH Hin). destruct (run_set o b) as [s|] eqn:Hs.
    { unfold run_set in Hs. destruct (o_runs o) eqn:Hr; [|done]. destruct b; try done. injection Hs as ->. apply keeps_push; [split; [by apply Hruns|done]|by apply one_field]. }
    match goal with |- keeps (?m1 ≫= fun p1 => ?m2 ≫= fun p2 => ?m3 ≫= fun p3 => _) =>
      set (c1 := m1); set (c2 := m2); set (c3 := m3) end.
    assert (K1 : keeps_parts c1).
    { unfold c1. destruct (si && o_guards o); [|apply keeps_parts_nil].
      intros I H fs J Hb Hr. steps. rewrite length_app. simpl. split; [lia|]. split; [|constructor; [simpl; lia|done]].
      eapply bwf_push; [exact Hb|set_solver|done|]. intros w x Hx. simpl in Hx. right. set_solver. }
    assert (K2 : keeps_parts c2) by by apply keeps_times.
    assert (K3 : keeps_parts c3).
    { unfold c3. destruct mx as [m|].
      - destruct (0 <? m - mn)%N eqn:Hm; [|apply keeps_parts_nil]. apply keeps_parts_one.
        intros I H f J Hb Hr. eapply (keeps_extra gr _ _ IH [] HOLE None); [exact Hb| |done|exact Hr]. left. cleanb. apply N.ltb_lt in Hm. lia.
      - by apply keeps_parts_one, keeps_loop. }
    intros I H f J Hb Hr. steps.
    assert (Hp : keeps_parts (c1 ≫= fun p1 => c2 ≫= fun p2 => c3 ≫= fun p3 => mret (p1 ++ p2 ++ p3))).
    { intros I' H' fs' J' Hb' Hr'. clear -K1 K2 K3 Hb' Hr'. steps.
      destruct (K1 _ _ _ _ Hb' Hm) as (G1 & G2 & G3). destruct (K2 _ _ _ _ G2 Hm0) as (F1 & F2 & F3).
      destruct (K3 _ _ _ _ F2 Hm1) as (E1 & E2 & E3). split; [lia|]. rewrite !map_app, !concat_app. split.
      - eapply bwf_mono; [|exact E2]. set_solver.
      - rewrite !Forall_app. split; [eapply Forall_impl; [exact G3|]; simpl; lia|]. split; [eapply Forall_impl; [exact F3|]; simpl; lia|done]. }
    eapply (keeps_concat _ Hp I H f J Hb). unfold mbind, stm_bind. rewrite Hm, Hm0, Hm1. exact Hr.
Qed.

(** The tail closes the last holes. *)
Lemma finish_wf tail : tail_wf tail -> Forall names_ok tail -> forall I hs u J,
  bwf I hs -> finish_loop hs tail I = Ok (u, J) -> length I < length J /\ bwf J [].
Proof.
  induction tail as [|i tail IH]; intros Ht Hn I hs u J Hb Hr; [done|]. apply Forall_cons in Hn as [Hi Hn].
  cbn [finish_loop] in Hr. steps. set (hs' := match i with IMatch => [] | _ => _ end) in *.
  assert (Hb1 : bwf (patch_list hs (N.of_nat (length I)) (I ++ [i])) hs').
  { apply bwf_patch; [|rewrite length_app; simpl; lia]. eapply bwf_push; [exact Hb|set_solver|done|].
    intros w x Hx. right. apply elem_of_app. right. unfold hs'.
    destruct i; simpl in Ht; try done; try (by destruct tail); simpl in Hx; set_solver. }
  assert (Hl : length (patch_list hs (N.of_nat (length I)) (I ++ [i])) = S (length I))
    by (rewrite length_patch_list, length_app; simpl; lia).
  destruct i; try done; simpl in Ht.
  - destruct (IH Ht Hn _ _ _ _ Hb1 Hr) as [G1 G2]. split; [lia|done].
  - destruct tail; [|done]. simpl in Hr. steps. split; [lia|done].
Qed.
End bwf.

(** A built program: nothing names what is not there, and no target leads
    out. *)
Lemma build_with_wf ns nl nsl ng runs ids o h head tail P :
  ids_exact ids -> (2 * ng <= nsl)%N -> hir_in ns nl ng h -> (o_runs o = true -> runs = true) ->
  tail_wf tail -> Forall (names_ok ns nl nsl runs) tail ->
  match head with Some s => (s < nsl)%N | None => True end ->
  build_with ids o h head tail = Ok P ->
  bwf ns nl nsl runs (insts P) [] /\ N.to_nat (start P) < length (insts P) /\ start_unanchored P = start P.
Proof.
  intros Hids Hs Hin Hr Ht Hn Hh H. unfold build_with in H.
  match type of H with match ?c [] with _ => _ end = _ => destruct (c []) as [[st J]|] eqn:Hc; [|done] end.
  injection H as <-. cbn [insts start start_unanchored]. steps.
  destruct (keeps_c ns nl nsl ng runs Hs ids o h Hids Hin Hr _ [] _ _ (bwf_nil _ _ _ _) Hm) as (G1 & G2 & G3).
  rewrite app_nil_r in G2. destruct head as [slot|]; steps; cbn [fstart holes] in *.
  - assert (Hb : bwf ns nl nsl runs (st0 ++ [ISave slot (fstart a)]) (holes a)).
    { eapply bwf_push; [exact Hs|exact G2|done|done|]. intros w x Hx. left. simpl in Hx.
      apply list_elem_of_singleton in Hx. injection Hx as -> ->. exact G3. }
    destruct (finish_wf ns nl nsl ng runs Hs tail Ht Hn _ _ _ _ Hb Hm1) as [F1 F2].
    rewrite length_app in F1. simpl in F1. split; [done|]. split; [lia|done].
  - match goal with Hf : finish_loop _ _ _ = _ |- _ => destruct (finish_wf ns nl nsl ng runs Hs tail Ht Hn _ _ _ _ G2 Hf) as [F1 F2] end.
    split; [done|]. split; [lia|done].
Qed.
