(* ===== verification/Compile.v ===== *)
(** What [compile] ([linre/nfa.rs]) makes of a lowered pattern.

    [looks_wf] is what lowering promises: a lookaround's own tests come
    before it, a lookbehind has one width.  [compile_spec] says what each
    part of the compiled [Programs] is; [compiled_wf] that every program in
    it is well formed for the matchers. *)

From Stdlib Require Import ZArith Lia.
From stdpp Require Import base option numbers list_numbers list.
From S2P Require Import Prelude CharSet Hir Nfa Search NfaCorrect NfaSearch Machine NfaWf.

(** What lowering promises of test [i]. *)
Definition look_wf (ns : nat) (ng : N) (i : nat) (l : Look) : Prop :=
  match l with
  | LBehind1 s _ | LAhead1 s _ => N.to_nat s < ns
  | LAround behind _ body lo hi =>
      hir_in ns i ng body /\ hir_wf body /\
      (behind = true -> width body = (Z.of_N lo, Some (Z.of_N lo)) /\ (Z.of_N lo <= MAX_LOOK)%Z)
  | _ => True
  end.

Definition looks_wf (ns : nat) (ng : N) (ls : list Look) : Prop :=
  forall i l, ls !! i = Some l -> look_wf ns ng i l.

(** The definition of a test. *)
Definition look_compiled (ss : list CharSet) (ls : list Look) (ps : list Prog) (l : Look) (d : LookDef) : Prop :=
  match l with
  | LBegin => d = DBegin
  | LBeginLine => d = DBeginLine
  | LEnd => d = DEnd
  | LEndLine => d = DEndLine
  | LEndString => d = DEndString
  | LWord a n => d = DWord a n
  | LBehind1 s n => d = DBehind1 s n
  | LAhead1 s n => d = DAhead1 s n
  | LAround behind negate body lo hi =>
      exists k P first,
        let memo := negb behind && (MAX_LOOK <? Z.of_N hi)%Z in
        let seqs := if memo then None else flatten body ls in
        match seqs with Some v => first_test_of v ss | None => Some None end = Some first /\
        d = DAround behind negate k lo hi memo seqs first /\
        ps !! N.to_nat k = Some P /\ build (ids_of ls) body false false true None [IMatch] = Ok P
  end.

Lemma look_compiled_app ss ls ps ps' l d : look_compiled ss ls ps l d -> look_compiled ss ls (ps ++ ps') l d.
Proof.
  destruct l; simpl; try done. intros (k & P & first & Hf & -> & Hk & Hb). exists k, P, first. split; [done|]. split; [done|]. split; [|done].
  by apply lookup_app_l_Some.
Qed.

Lemma compile_looks_spec ss ls todo ps ds ps' :
  compile_looks ss ls todo ps = Ok (ds, ps') ->
  (exists more, ps' = ps ++ more /\ forall k P, more !! k = Some P ->
     exists body, (exists b n lo hi, LAround b n body lo hi ∈ todo) /\ build (ids_of ls) body false false true None [IMatch] = Ok P) /\
  Forall2 (look_compiled ss ls ps') todo ds.
Proof.
  revert ps ds ps'. induction todo as [|l todo IH]; intros ps ds ps' Hc; cbn [compile_looks] in Hc.
  { injection Hc as <- <-. split; [|constructor]. exists []. split; [by rewrite app_nil_r|]. intros k P Hk. by rewrite lookup_nil in Hk. }
  destruct (compile_look ss ls ps l) as [[d ps1]|] eqn:Hl; [|done].
  destruct (compile_looks ss ls todo ps1) as [[ds1 ps2]|] eqn:Hr; [|done]. injection Hc as <- <-.
  destruct (IH _ _ _ Hr) as [(more & -> & Hmore) Hf].
  assert (Hone : exists m1, ps1 = ps ++ m1 /\ look_compiled ss ls ps1 l d /\
    (forall k P, m1 !! k = Some P -> exists body, (exists b n lo hi, LAround b n body lo hi = l) /\ build (ids_of ls) body false false true None [IMatch] = Ok P)).
  { destruct l; simpl in Hl; try (injection Hl as <- <-; exists []; split; [by rewrite app_nil_r|]; split; [done|];
      intros k P Hk; by rewrite lookup_nil in Hk).
    destruct (build (ids_of ls) body false false true None [IMatch]) as [P|] eqn:Hb; [|done].
    destruct (match (if negb behind && (MAX_LOOK <? Z.of_N hi)%Z then None else flatten body ls) with Some v => first_test_of v ss | None => _ end)
      as [first|] eqn:Hfi; [|done]. injection Hl as <- <-.
    exists [P]. split; [done|]. split.
    - simpl. exists (N.of_nat (length ps)), P, first. split; [done|]. split; [done|]. split; [|done].
      by rewrite Nat2N.id, lookup_app_r, Nat.sub_diag by lia.
    - intros k Q Hk. apply list_lookup_singleton_Some in Hk as [_ <-]. exists body. split; [by eexists _, _, _, _|done]. }
  destruct Hone as (m1 & -> & Hd & Hm1). split.
  - exists (m1 ++ more). split; [by rewrite app_assoc|]. intros k P Hk. apply lookup_app_Some in Hk as [Hk|[_ Hk]].
    + destruct (Hm1 _ _ Hk) as (body & (b & n & lo & hi & <-) & Hb). exists body. split; [|done]. eexists b, n, lo, hi. left.
    + destruct (Hmore _ _ Hk) as (body & (b & n & lo & hi & Hin) & Hb). exists body. split; [|done]. exists b, n, lo, hi. by right.
  - constructor; [|done]. by apply look_compiled_app.
Qed.

Lemma position_all_spec ss i j :
  position_all ss i = Some j -> exists k s, j = (i + N.of_nat k)%N /\ ss !! k = Some s /\ is_all s = true.
Proof.
  revert i. induction ss as [|s ss IH]; intros i; [done|]. cbn [position_all]. destruct (is_all s) eqn:Hs.
  - intros [= <-]. exists 0, s. split; [lia|done].
  - intros Hp. destruct (IH _ Hp) as (k & s' & -> & Hk & Ha). exists (S k), s'. split; [lia|done].
Qed.

(** The parts of a compiled pattern. *)
Record compiled (h : Hir) (ss : list CharSet) (ls : list Look) (ng : N) (pr : Programs) : Prop := mk_compiled {
  cp_sets : exists extra, sets pr = ss ++ extra /\ Forall canonical extra;
  cp_any : exists s, sets pr !! N.to_nat (any_set_id pr) = Some s /\ is_all s = true;
  cp_looks : exists ds, looks pr = ds ++ [DEndString] /\ Forall2 (look_compiled (sets pr) ls (subs pr)) ls ds;
  cp_subs : forall k P, subs pr !! k = Some P -> exists body, (exists b n lo hi, LAround b n body lo hi ∈ ls) /\
    build (ids_of ls) body false false true None [IMatch] = Ok P;
  cp_nslots : nslots pr = (2 * ng + 2)%N;
  cp_fwd : exists fwd0, build (ids_of ls) h true false true (Some (nslots pr - 1)%N) [IMatch] = Ok fwd0 /\
    add_unanchored (any_set_id pr) fwd0 = Ok (fwd pr);
  cp_full : build (ids_of ls) h true false true (Some (nslots pr - 1)%N) [ILook (N.of_nat (length ls)) HOLE; IMatch] = Ok (full pr);
  cp_rev : build (ids_of ls) h false true false None [IMatch] = Ok (rev_prog pr);
  cp_fwd_bt : build_with (ids_of ls) (mk_options true false false true) h (Some (nslots pr - 1)%N) [IMatch] = Ok (fwd_bt pr);
  cp_full_bt : build_with (ids_of ls) (mk_options true false false true) h (Some (nslots pr - 1)%N)
    [ILook (N.of_nat (length ls)) HOLE; IMatch] = Ok (full_bt pr);
}.

Lemma compile_spec h ss ls ng pr : compile h ss ls ng = Ok pr -> compiled h ss ls ng pr.
Proof.
  unfold compile. intros Hc.
  set (sa := match position_all ss 0 with Some i => (ss, i) | None => _ end) in Hc.
  assert (Hsa : (exists extra, fst sa = ss ++ extra /\ Forall canonical extra) /\ exists s, fst sa !! N.to_nat (snd sa) = Some s /\ is_all s = true).
  { unfold sa. destruct (position_all ss 0) as [i|] eqn:Hp; cbn [fst snd].
    - split; [exists []; split; [by rewrite app_nil_r|constructor]|]. destruct (position_all_spec _ _ _ Hp) as (k & s & -> & Hk & Ha).
      exists s. by rewrite N.add_0_l, Nat2N.id.
    - split; [exists [all]; split; [done|]; constructor; [apply canonical_all|done]|]. exists all. by rewrite Nat2N.id, lookup_app_r, Nat.sub_diag by lia. }
  destruct sa as [ss' any]. cbn [fst snd] in Hsa. destruct Hsa as [Hss Hany].
  repeat match type of Hc with
  | (match ?m with Ok _ => _ | Err _ => _ end) = _ => let E := fresh "E" in destruct m eqn:E; [|done]
  | (mbind _ ?m) = _ => let E := fresh "E" in destruct m as [?|?] eqn:E; [cbn [mbind result_bind] in Hc|done]
  | (let '(_, _) := ?x in _) = _ => destruct x
  end.
  injection Hc as <-.
  destruct (compile_looks_spec _ _ _ _ _ _ E) as [(more & -> & Hmore) Hf].
  assert (Hlen : N.of_nat (length (l ++ [DEndString]) - 1) = N.of_nat (length ls)).
  { rewrite length_app. simpl. f_equal. apply Forall2_length in Hf. lia. }
  split; cbn [sets looks subs nslots any_set_id fwd full rev_prog fwd_bt full_bt]; try done.
  - by exists l.
  - by exists a.
  - by rewrite <- Hlen.
  - by rewrite <- Hlen.
Qed.

(** ** The compiled programs are well formed *)

Lemma bwf_prog_wf pr P ns nl nsl runs :
  ns <= length (sets pr) -> nl <= length (looks pr) -> (nsl <= nslots pr)%N -> (2 <= nslots pr)%N ->
  bwf ns nl nsl runs (insts P) [] -> N.to_nat (start P) < length (insts P) ->
  N.to_nat (start_unanchored P) < length (insts P) -> prog_wf pr P = true.
Proof.
  intros Hns Hnl Hsl H2 Hb Hst Hsu. unfold prog_wf. rewrite !andb_true_iff.
  split; [split; [split|]|]; [|by apply Nat.ltb_lt|by apply Nat.ltb_lt|by apply N.leb_le].
  apply forallb_forall. intros i Hi. apply list_elem_of_In, list_elem_of_lookup in Hi as [j Hj].
  destruct (Hb j i Hj) as [Hn Hf].
  assert (Ht : forall w x, (w, x) ∈ fields i -> (N.to_nat x <? length (insts P))%nat = true).
  { intros w x Hx. apply Nat.ltb_lt. destruct (Hf w x Hx) as [|Hin]; [done|by apply elem_of_nil in Hin]. }
  destruct i; simpl in Hn, Ht |- *; rewrite ?andb_true_iff; try done;
    repeat split; try (apply Nat.ltb_lt; lia); try (eapply Ht; left); try (apply (Ht 1%N); right; left).
Qed.

Lemma bwf_no_runs P ns nl nsl pc s mn mx g x :
  bwf ns nl nsl false (insts P) [] -> inst_at P pc <> Some (IRun s mn mx g x).
Proof. intros Hb Hi. destruct (Hb _ _ Hi) as [[Hr _] _]. done. Qed.

(** The unanchored entry put before a program. *)
Lemma add_unanchored_spec any p q :
  add_unanchored any p = Ok q ->
  insts q = insts p ++ [ISplit (start p) (N.of_nat (length (insts p)) + 1); IChar any (N.of_nat (length (insts p)))] /\
  start q = start p /\ start_unanchored q = N.of_nat (length (insts p)).
Proof. unfold add_unanchored. case_if; [done|]. by intros [= <-]. Qed.

Section wf.
Variables (h : Hir) (ss : list CharSet) (ls : list Look) (ng : N) (pr : Programs).
Hypothesis comp : compiled h ss ls ng pr.
Hypothesis h_in : hir_in (length ss) (length ls) ng h.
Hypothesis ls_wf : looks_wf (length ss) ng ls.

Lemma cp_looks_length : length (looks pr) = S (length ls).
Proof. destruct (cp_looks _ _ _ _ _ comp) as (ds & -> & Hf). apply Forall2_length in Hf. rewrite length_app. simpl. lia. Qed.

Lemma cp_sets_length : length ss <= length (sets pr).
Proof. destruct (cp_sets _ _ _ _ _ comp) as (extra & -> & _). rewrite length_app. lia. Qed.

(** A set of the pattern is the compiled program's. *)
Lemma cp_set s cs : ss !! s = Some cs -> sets pr !! s = Some cs.
Proof. destruct (cp_sets _ _ _ _ _ comp) as (extra & -> & _). apply lookup_app_l_Some. Qed.

(** The definition of test [i]. *)
Lemma cp_look i l : ls !! i = Some l -> exists d, looks pr !! i = Some d /\ look_compiled (sets pr) ls (subs pr) l d.
Proof.
  intros Hi. destruct (cp_looks _ _ _ _ _ comp) as (ds & -> & Hf).
  destruct (Forall2_lookup_l _ _ _ _ _ Hf Hi) as (d & Hd & Hl). exists d. split; [by apply lookup_app_l_Some|done].
Qed.

(** The test after the pattern's own: the window's end. *)
Lemma cp_end_look : looks pr !! length ls = Some DEndString.
Proof.
  destruct (cp_looks _ _ _ _ _ comp) as (ds & -> & Hf). apply Forall2_length in Hf.
  by rewrite lookup_app_r, Hf, Nat.sub_diag by lia.
Qed.

Abbreviation bwf_of := (bwf (length (sets pr)) (length (looks pr)) (nslots pr)).

Lemma cp_bwf o tail P :
  build_with (ids_of ls) o h (Some (nslots pr - 1)%N) tail = Ok P ->
  tail = [IMatch] \/ tail = [ILook (N.of_nat (length ls)) HOLE; IMatch] ->
  bwf_of (o_runs o) (insts P) [] /\ N.to_nat (start P) < length (insts P) /\ start_unanchored P = start P.
Proof.
  intros Hb Ht. eapply build_with_wf with (ng := ng); [apply ids_of_exact| | | |  | | |exact Hb].
  - rewrite (cp_nslots _ _ _ _ _ comp). lia.
  - eapply (hir_in_mono (length ss) _ (length ls)); [apply cp_sets_length|rewrite cp_looks_length; lia|done].
  - done.
  - by destruct Ht as [-> | ->].
  - destruct Ht as [-> | ->]; repeat constructor. simpl. rewrite cp_looks_length. lia.
  - rewrite (cp_nslots _ _ _ _ _ comp). lia.
Qed.

Lemma cp_prog_wf o tail P :
  build_with (ids_of ls) o h (Some (nslots pr - 1)%N) tail = Ok P ->
  tail = [IMatch] \/ tail = [ILook (N.of_nat (length ls)) HOLE; IMatch] -> prog_wf pr P = true.
Proof.
  intros Hb Ht. destruct (cp_bwf o tail P Hb Ht) as (H1 & H2 & H3).
  eapply bwf_prog_wf; [..|exact H1|exact H2|by rewrite H3]; try done. rewrite (cp_nslots _ _ _ _ _ comp). lia.
Qed.

(** The matchers' programs. *)
Lemma cp_full_wf : prog_wf pr (full pr) = true.
Proof. eapply cp_prog_wf; [apply (cp_full _ _ _ _ _ comp)|by right]. Qed.
Lemma cp_fwd_bt_wf : prog_wf pr (fwd_bt pr) = true.
Proof. eapply cp_prog_wf; [apply (cp_fwd_bt _ _ _ _ _ comp)|by left]. Qed.
Lemma cp_full_bt_wf : prog_wf pr (full_bt pr) = true.
Proof. eapply cp_prog_wf; [apply (cp_full_bt _ _ _ _ _ comp)|by right]. Qed.

(** The reverse program. *)
Lemma cp_rev_bwf : bwf_of false (insts (rev_prog pr)) [] /\ prog_wf pr (rev_prog pr) = true.
Proof.
  destruct (build_with_wf (length (sets pr)) (length (looks pr)) (nslots pr) ng false (ids_of ls) (mk_options false true false false) h None [IMatch] (rev_prog pr)) as (H1 & H2 & H3);
    try done; [apply ids_of_exact|rewrite (cp_nslots _ _ _ _ _ comp); lia| |by repeat constructor|apply (cp_rev _ _ _ _ _ comp)|].
  - eapply (hir_in_mono (length ss) _ (length ls)); [apply cp_sets_length|rewrite cp_looks_length; lia|done].
  - split; [done|]. eapply bwf_prog_wf; [..|exact H1|exact H2|by rewrite H3]; try done. rewrite (cp_nslots _ _ _ _ _ comp). lia.
Qed.

Lemma cp_rev_no_runs pc s mn mx g x : inst_at (rev_prog pr) pc <> Some (IRun s mn mx g x).
Proof. by eapply bwf_no_runs, cp_rev_bwf. Qed.

Lemma cp_full_no_runs pc s mn mx g x : inst_at (full pr) pc <> Some (IRun s mn mx g x).
Proof.
  destruct (cp_bwf _ _ _ (cp_full _ _ _ _ _ comp)) as (H1 & _); [by right|]. by eapply bwf_no_runs.
Qed.

(** The forward program: the pattern's, with its unanchored entry. *)
Lemma cp_fwd_spec : exists fwd0,
  build (ids_of ls) h true false true (Some (nslots pr - 1)%N) [IMatch] = Ok fwd0 /\
  insts fwd0 `prefix_of` insts (fwd pr) /\ start (fwd pr) = start fwd0 /\
  inst_at (fwd pr) (start_unanchored (fwd pr)) = Some (ISplit (start (fwd pr)) (start_unanchored (fwd pr) + 1)) /\
  inst_at (fwd pr) (start_unanchored (fwd pr) + 1) = Some (IChar (any_set_id pr) (start_unanchored (fwd pr))).
Proof.
  destruct (cp_fwd _ _ _ _ _ comp) as (fwd0 & Hb & Ha). exists fwd0. split; [done|].
  destruct (add_unanchored_spec _ _ _ Ha) as (Hi & Hs & Hu). split; [rewrite Hi; by eexists|]. split; [done|].
  unfold inst_at. rewrite Hi, Hu, Hs, N2Nat.inj_add, Nat2N.id. simpl.
  rewrite lookup_app_r, Nat.sub_diag by lia. split; [done|].
  by rewrite lookup_app_r, Nat.add_sub_swap, Nat.sub_diag by lia.
Qed.

Lemma cp_fwd_bwf : bwf_of false (insts (fwd pr)) [] /\ prog_wf pr (fwd pr) = true.
Proof.
  destruct (cp_fwd _ _ _ _ _ comp) as (fwd0 & Hb & Ha).
  destruct (cp_bwf _ _ _ Hb) as (H1 & H2 & H3); [by left|].
  destruct (add_unanchored_spec _ _ _ Ha) as (Hi & Hs & Hu).
  destruct (cp_any _ _ _ _ _ comp) as (s & Hany & _). apply lookup_lt_Some in Hany.
  assert (Hb' : bwf_of false (insts (fwd pr)) []).
  { rewrite Hi. intros j i Hj. rewrite length_app. simpl. apply lookup_app_Some in Hj as [Hj|[Hl Hj]].
    - destruct (H1 j i Hj) as [Hn Hf]. split; [done|]. intros w x Hx. left.
      destruct (Hf w x Hx) as [|Hin]; [lia|by apply elem_of_nil in Hin].
    - destruct (j - length (insts fwd0)) as [|[|k]]; simpl in Hj; [| |done]; injection Hj as <-; (split; [done|]);
        intros w x Hx; simpl in Hx; left; repeat (apply elem_of_cons in Hx as [[= -> ->]|Hx]); try lia; by apply elem_of_nil in Hx. }
  split; [done|]. eapply bwf_prog_wf; [..|exact Hb'| |]; try done.
  - rewrite (cp_nslots _ _ _ _ _ comp). lia.
  - rewrite Hs, Hi, length_app. simpl. lia.
  - rewrite Hu, Hi, length_app. simpl. lia.
Qed.

Lemma cp_fwd_no_runs pc s mn mx g x : inst_at (fwd pr) pc <> Some (IRun s mn mx g x).
Proof. by eapply bwf_no_runs, cp_fwd_bwf. Qed.

(** The program of a lookaround, whose tests come before it. *)
Lemma cp_sub_wf i behind negate body lo hi P :
  ls !! i = Some (LAround behind negate body lo hi) -> build (ids_of ls) body false false true None [IMatch] = Ok P ->
  prog_wf pr P = true /\ (forall pc s mn mx g x, inst_at P pc <> Some (IRun s mn mx g x)) /\
  (forall pc l x, inst_at P pc = Some (ILook l x) -> N.to_nat l < i).
Proof.
  intros Hi Hb. destruct (ls_wf i _ Hi) as (Hin & Hw & _). apply lookup_lt_Some in Hi.
  destruct (build_with_wf (length ss) i (nslots pr) ng false (ids_of ls) (mk_options false false true false) body None [IMatch] P) as (H1 & H2 & H3);
    try done; [apply ids_of_exact|rewrite (cp_nslots _ _ _ _ _ comp); lia|by repeat constructor|].
  split; [|split].
  - eapply bwf_prog_wf; [apply cp_sets_length| |reflexivity| |exact H1|done|by rewrite H3].
    + rewrite cp_looks_length. lia.
    + rewrite (cp_nslots _ _ _ _ _ comp). lia.
  - intros. by eapply bwf_no_runs.
  - intros pc l x Hl. destruct (H1 _ _ Hl) as [Hn _]. exact Hn.
Qed.
End wf.

(** ** Programs are bounded: [MAX_INSTS] *)

Definition bounded {A} (c : builder A) : Prop := forall I a J,
  (N.of_nat (length I) <= MAX_INSTS)%N -> c I = Ok (a, J) -> (N.of_nat (length J) <= MAX_INSTS)%N.

Lemma bounded_ret {A} (a : A) : bounded (mret a).
Proof. intros I b J Hl H. by apply stm_ret_Ok in H as [_ <-]. Qed.

Lemma bounded_bind {A B} (c : builder A) (k : A -> builder B) : bounded c -> (forall a, bounded (k a)) -> bounded (c ≫= k).
Proof. intros Hc Hk I b J Hl H. minv. eapply Hk; [|exact H]. by eapply Hc. Qed.

Lemma bounded_push i : bounded (push i).
Proof. intros I n J Hl H. unfold push in H. case_if_in H; [done|]. injection H as _ <-. rewrite length_app. simpl. rewrite N.leb_gt in Heqb. lia. Qed.

Lemma bounded_patch hs to : bounded (patch hs to).
Proof. intros I u J Hl H. apply patch_spec in H as ->. by rewrite length_patch_list. Qed.

(** Each step, and each branch. *)
Ltac bnd :=
  repeat first
  [ assumption | apply bounded_ret | apply bounded_push | apply bounded_patch
  | apply bounded_bind; [|intros ?]
  | match goal with
    | |- bounded (match ?x with _ => _ end) => destruct x
    | |- bounded (if ?x then _ else _) => destruct x
    end ].

Lemma bounded_concat_loop st hs parts : bounded (concat_loop st hs parts).
Proof. revert st hs. induction parts; intros st hs; cbn [concat_loop]; bnd. auto. Qed.

Lemma bounded_concat parts : bounded (b_concat parts).
Proof. unfold b_concat, b_empty. bnd. apply bounded_concat_loop. Qed.

Lemma bounded_extra greedy c n exits st prev : bounded c -> bounded (b_extra greedy c n exits st prev).
Proof. intros Hc. revert exits st prev. induction n as [|n IH]; intros exits st prev; cbn [b_extra]; bnd. apply IH. Qed.

Lemma bounded_loop greedy c : bounded c -> bounded (b_loop greedy c).
Proof. intros Hc. unfold b_loop. bnd. Qed.

Lemma bounded_times n c : bounded c -> bounded (times n c).
Proof. intros Hc. induction n; cbn [times]; bnd. Qed.

Lemma bounded_alt (c : Hir -> builder Frag) v : Forall (fun x => bounded (c x)) v ->
  forall hs st last, bounded (alt_loop c v hs st last).
Proof. induction 1 as [|y w Hy _ IH]; intros hs st last; cbn [alt_loop]; bnd. apply IH. Qed.

Lemma bounded_each (c : Hir -> builder Frag) v : Forall (fun x => bounded (c x)) v -> bounded (each c v) /\ bounded (each_rev c v).
Proof. induction 1 as [|y w Hy _ [IH1 IH2]]; split; cbn [each each_rev]; bnd. Qed.

Lemma bounded_look_id ids l : bounded (look_id ids l).
Proof. intros I id J Hl H. by apply look_id_Ok in H as [_ ->]. Qed.

Lemma bounded_c ids o h : bounded (b_c ids o h).
Proof.
  induction h as [|s|l|g b IH|v IH|v IH|mn mx gr si b IH] using hir_ind'; cbn [b_c]; unfold b_empty; try (by bnd).
  - bnd. apply bounded_look_id.
  - bnd; [apply bounded_each..|apply bounded_concat]; done.
  - destruct v as [|x v]; [bnd|by apply bounded_alt].
  - bnd; [by apply bounded_times|by apply bounded_extra|apply bounded_concat].
Qed.

Lemma bounded_finish tail hs : bounded (finish_loop hs tail).
Proof. revert hs. induction tail; intros hs; cbn [finish_loop]; bnd. auto. Qed.

Lemma build_with_length ids o h head tail P : build_with ids o h head tail = Ok P -> (N.of_nat (length (insts P)) <= MAX_INSTS)%N.
Proof.
  intros H. unfold build_with in H.
  match type of H with match ?c [] with _ => _ end = _ => assert (Hb : bounded c); [|destruct (c []) as [[st J]|] eqn:Hc; [|done]] end.
  - bnd; [apply bounded_c|apply bounded_finish..].
  - injection H as <-. eapply (Hb []); [simpl; lia|exact Hc].
Qed.
