(* ===== verification/SparseSet.v ===== *)
(** The sparse set of [linre/looks.rs]: a set of small integers with
    constant-time insertion, test and clearing, whose arrays are never
    initialised again.  [elems] is the list the set stands for, in insertion
    order; whatever the arrays hold past it does not matter. *)

From Stdlib Require Import ZArith Lia.
From stdpp Require Import base option numbers list_numbers list.
From S2P Require Import Prelude.

Record SparseSet := mk_ss { dense : list N; sparse : list N; len : nat }.

Definition new (n : nat) : SparseSet := mk_ss (replicate n 0%N) (replicate n 0%N) 0.

Definition capacity (s : SparseSet) : nat := length (dense s).

(** [Vec::resize(n, v)] to a length no smaller. *)
Definition grow {A} (n : nat) (v : A) (l : list A) : list A := l ++ replicate (n - length l) v.

Definition resize (n : nat) (s : SparseSet) : SparseSet :=
  if (length (dense s) <? n)%nat
  then mk_ss (grow n 0%N (dense s)) (grow n 0%N (sparse s)) 0
  else mk_ss (dense s) (sparse s) 0.

Definition clear (s : SparseSet) : SparseSet := mk_ss (dense s) (sparse s) 0.

Definition is_empty (s : SparseSet) : bool := (len s =? 0)%nat.

(** [contains], [insert], [get]: [None] where an index is out of range. *)
Definition contains (x : N) (s : SparseSet) : option bool :=
  match sparse s !! N.to_nat x with
  | None => None
  | Some i =>
      if (N.to_nat i <? len s)%nat
      then match dense s !! N.to_nat i with None => None | Some y => Some (y =? x)%N end
      else Some false
  end.

Definition insert (x : N) (s : SparseSet) : option (bool * SparseSet) :=
  match contains x s with
  | None => None
  | Some true => Some (false, s)
  | Some false =>
      if (len s <? length (dense s))%nat
      then
        Some (true, mk_ss (<[len s := x]> (dense s)) (<[N.to_nat x := N.of_nat (len s)]> (sparse s)) (S (len s)))
      else None
  end.

Definition get (i : nat) (s : SparseSet) : option N := dense s !! i.

Definition as_slice (s : SparseSet) : list N := take (len s) (dense s).

(** ** What it stands for *)

Abbreviation elems := as_slice.

(** Every element's place is recorded. *)
Record ss_ok (s : SparseSet) : Prop := mk_ss_ok {
  ss_length : length (sparse s) = length (dense s);
  ss_len : len s <= length (dense s);
  ss_place : forall i x, elems s !! i = Some x -> sparse s !! N.to_nat x = Some (N.of_nat i);
}.

Lemma elems_length s : ss_ok s -> length (elems s) = len s.
Proof. intros H. unfold as_slice. rewrite length_take. apply ss_len in H. lia. Qed.

Lemma elems_bound s x : ss_ok s -> x ∈ elems s -> N.to_nat x < length (dense s).
Proof.
  intros H Hx. apply list_elem_of_lookup in Hx as [i Hi].
  apply (ss_place _ H) in Hi. apply lookup_lt_Some in Hi. by rewrite <- (ss_length _ H).
Qed.

Lemma elems_nodup s : ss_ok s -> NoDup (elems s).
Proof.
  intros H. apply NoDup_alt. intros i j x Hi Hj.
  apply (ss_place _ H) in Hi, Hj. rewrite Hi in Hj. injection Hj. lia.
Qed.

Lemma new_ok n : ss_ok (new n).
Proof. split; simpl; [by rewrite !length_replicate|lia|]. intros i x Hi. by destruct i. Qed.

Lemma clear_ok s : ss_ok s -> ss_ok (clear s) /\ elems (clear s) = [].
Proof. intros H. split; [|done]. split; simpl; [apply H|lia|]. intros i x Hi. by destruct i. Qed.

(** Growing the arrays empties the set, whatever they held. *)
Lemma resize_ok n s :
  length (sparse s) = length (dense s) ->
  ss_ok (resize n s) /\ elems (resize n s) = [] /\ n <= capacity (resize n s).
Proof.
  intros H. unfold resize, capacity, grow. case_if; simpl.
  - split; [|split; [done|rewrite length_app, length_replicate; lia]].
    split; simpl; [rewrite !length_app, !length_replicate; lia|lia|]. intros i x Hi. by destruct i.
  - split; [|by split; [|lia]]. split; simpl; [done|lia|]. intros i x Hi. by destruct i.
Qed.

(** The test is membership. *)
Lemma contains_ok x s :
  ss_ok s -> N.to_nat x < capacity s -> contains x s = Some (bool_decide (x ∈ elems s)).
Proof.
  intros H Hx. unfold contains, capacity in *.
  destruct (lookup_lt_is_Some_2 (sparse s) (N.to_nat x)) as [i Hi]; [by rewrite (ss_length _ H)|].
  rewrite Hi. destruct (Nat.ltb_spec (N.to_nat i) (len s)) as [Hl|Hl].
  - assert (Hd := ss_len _ H).
    destruct (lookup_lt_is_Some_2 (dense s) (N.to_nat i)) as [y Hy]; [lia|]. rewrite Hy. f_equal.
    assert (He : elems s !! N.to_nat i = Some y) by (unfold as_slice; by rewrite lookup_take_lt).
    destruct (N.eqb_spec y x) as [->|Hne].
    + rewrite bool_decide_eq_true_2; [done|]. by eapply list_elem_of_lookup_2.
    + rewrite bool_decide_eq_false_2; [done|]. intros Hin. apply list_elem_of_lookup in Hin as [j Hj].
      assert (Hp := ss_place _ H _ _ Hj). rewrite Hi in Hp. injection Hp as ->.
      rewrite Nat2N.id in He. congruence.
  - rewrite bool_decide_eq_false_2; [done|]. intros Hin. apply list_elem_of_lookup in Hin as [j Hj].
    assert (Hp := ss_place _ H _ _ Hj). rewrite Hi in Hp. injection Hp as ->.
    apply lookup_lt_Some in Hj. rewrite elems_length in Hj by done. lia.
Qed.

(** A set of a capacity holds fewer elements than that when one is missing. *)
Lemma room x s : ss_ok s -> N.to_nat x < capacity s -> x ∉ elems s -> len s < length (dense s).
Proof.
  intros H Hx Hn. rewrite <- elems_length by done. unfold capacity in Hx.
  assert (Hnd : NoDup (x :: elems s)) by (constructor; [done|by apply elems_nodup]).
  assert (Hincl : x :: elems s ⊆ List.map N.of_nat (seq 0 (length (dense s)))).
  { intros y Hy. apply list_elem_of_In, in_map_iff. exists (N.to_nat y). split; [lia|]. apply in_seq.
    apply elem_of_cons in Hy as [->|Hy]; [lia|]. apply elems_bound in Hy; [lia|done]. }
  apply NoDup_submseteq in Hincl; [|done]. apply submseteq_length in Hincl.
  rewrite length_map, length_seq in Hincl. simpl in Hincl. lia.
Qed.

(** Insertion adds at the end what is not there. *)
Lemma insert_ok x s :
  ss_ok s -> N.to_nat x < capacity s ->
  exists s', insert x s = Some (bool_decide (x ∉ elems s), s') /\ ss_ok s' /\ capacity s' = capacity s /\
    elems s' = if decide (x ∈ elems s) then elems s else elems s ++ [x].
Proof.
  intros H Hx. unfold insert. rewrite contains_ok by done.
  destruct (decide (x ∈ elems s)) as [Hin|Hnin].
  - rewrite bool_decide_eq_true_2 by done. exists s. split; [|done].
    by rewrite bool_decide_eq_false_2 by (intros Hn; by apply Hn).
  - rewrite bool_decide_eq_false_2 by done. assert (Hr := room x s H Hx Hnin).
    rewrite (proj2 (Nat.ltb_lt _ _)) by done.
    eexists. split; [by rewrite bool_decide_eq_true_2|].
    set (s' := mk_ss (<[len s:=x]> (dense s)) (<[N.to_nat x:=N.of_nat (len s)]> (sparse s)) (S (len s))).
    assert (He : elems s' = elems s ++ [x]).
    { unfold as_slice, s'. simpl. rewrite (take_S_r _ _ x) by (by rewrite list_lookup_insert_eq).
      by rewrite take_insert_ge. }
    split; [|split; [unfold capacity; simpl; by rewrite length_insert|done]].
    split; [unfold s'; simpl; rewrite !length_insert; apply H|unfold s'; simpl; rewrite length_insert; lia|].
    intros i y Hi. rewrite He in Hi. unfold s'. cbn [sparse].
    apply lookup_app_Some in Hi as [Hi|[Hl Hi]].
    + rewrite list_lookup_insert_ne; [by apply H|]. intros Heq. apply N2Nat.inj in Heq. subst y.
      apply Hnin. by eapply list_elem_of_lookup_2.
    + apply list_lookup_singleton_Some in Hi as [Hi <-].
      rewrite list_lookup_insert_eq by (rewrite (ss_length _ H); done).
      rewrite elems_length in * by done. f_equal. lia.
Qed.

Lemma get_ok i s x : elems s !! i = Some x -> get i s = Some x.
Proof. unfold as_slice, get. intros H. by apply lookup_take_Some in H as [H _]. Qed.

(** ** The property *)

(** The sparse set is a set in insertion order: a value within its
    capacity is in it if it was inserted, inserting it again changes
    nothing, and clearing empties it, whatever the arrays held. *)
Theorem sparse_set_correct s x :
  ss_ok s -> N.to_nat x < capacity s ->
  contains x s = Some (bool_decide (x ∈ as_slice s)) /\ NoDup (as_slice s) /\
  (exists s', insert x s = Some (bool_decide (x ∉ as_slice s), s') /\ ss_ok s' /\
     as_slice s' = if decide (x ∈ as_slice s) then as_slice s else as_slice s ++ [x]) /\
  (ss_ok (clear s) /\ as_slice (clear s) = []).
Proof.
  intros H Hx. split; [by apply contains_ok|]. split; [by apply elems_nodup|]. split; [|by apply clear_ok].
  destruct (insert_ok x s H Hx) as (s' & H1 & H2 & _ & H3). by exists s'.
Qed.

Lemma sparse_set_correct_witness : contains 3 (new 5) = Some false.
Proof. destruct (sparse_set_correct (new 5) 3 (new_ok 5)) as [H _]; [vm_compute; lia|]. rewrite H. reflexivity. Defined.
