(* ===== verification/BTree.v ===== *)
(** [std::collections::BTreeMap], as much of it as the code uses.

    A map is the list of its entries in the order of their keys ([sorted]):
    what [iter] gives.  The lemmas say what each operation does to the
    entries ([get], membership) and that the order is kept. *)

From Stdlib Require Import ZArith Lia.
From stdpp Require Import base option sorting numbers list_numbers list.
From S2P Require Import Prelude.

#[local] Open Scope Z_scope.

Section btree.
Context {V : Type}.

Abbreviation entry := (Z * V)%type.
Abbreviation map := (list entry).

Definition key_lt (e1 e2 : entry) : Prop := fst e1 < fst e2.

(** The keys go up. *)
Definition sorted (m : map) : Prop := StronglySorted key_lt m.

Fixpoint get (k : Z) (m : map) : option V :=
  match m with
  | [] => None
  | (k', v) :: m' => if k =? k' then Some v else get k m'
  end.

Definition contains_key (k : Z) (m : map) : bool := match get k m with Some _ => true | None => false end.

(** [insert]: a key that is there gets the new value. *)
Fixpoint insert (k : Z) (v : V) (m : map) : map :=
  match m with
  | [] => [(k, v)]
  | (k', v') :: m' =>
      if k <? k' then (k, v) :: m
      else if k =? k' then (k, v) :: m'
      else (k', v') :: insert k v m'
  end.

Definition remove (k : Z) (m : map) : map := List.filter (fun e => negb (fst e =? k)) m.

(** [range(a..b)], [range(a..=b)], [range(..b)], in order. *)
Definition range (a b : Z) (m : map) : map := List.filter (fun e => (a <=? fst e) && (fst e <? b)) m.
Definition range_incl (a b : Z) (m : map) : map := List.filter (fun e => (a <=? fst e) && (fst e <=? b)) m.
Definition range_to (b : Z) (m : map) : map := List.filter (fun e => fst e <? b) m.

(** [range(..=k).next_back()], [range(..k).next_back()]. *)
Definition floor (k : Z) (m : map) : option entry := last (List.filter (fun e => fst e <=? k) m).
Definition before (k : Z) (m : map) : option entry := last (range_to k m).

(** ** Lemmas *)

Lemma sorted_cons e m : sorted (e :: m) <-> Forall (key_lt e) m /\ sorted m.
Proof. split; [intros H; by inversion H|intros [H1 H2]; by constructor]. Qed.

Lemma get_in k v m : sorted m -> get k m = Some v <-> (k, v) ∈ m.
Proof.
  intros Hs. induction m as [|[k' v'] m IH]; simpl.
  - split; [done|]. intros H. by apply elem_of_nil in H.
  - apply sorted_cons in Hs as [Hf Hs]. rewrite elem_of_cons. destruct (Z.eqb_spec k k') as [->|Hne].
    + split; [intros [= ->]; by left|]. intros [[= ->]|Hin]; [done|].
      rewrite Forall_forall in Hf. specialize (Hf _ Hin). unfold key_lt in Hf. simpl in Hf. lia.
    + rewrite IH by done. split; [by right|]. intros [[= -> ->]|Hin]; done.
Qed.

Lemma get_none k m : get k m = None <-> forall v, (k, v) ∉ m.
Proof.
  induction m as [|[k' v'] m IH]; simpl.
  - split; [intros _ v H; by apply elem_of_nil in H|done].
  - destruct (Z.eqb_spec k k') as [->|Hne].
    + split; [done|]. intros H. destruct (H v'). left.
    + rewrite IH. split; intros H v Hin.
      * apply elem_of_cons in Hin as [[= ? ?]|Hin]; [done|by eapply H].
      * apply (H v). by right.
Qed.

Lemma key_unique k v1 v2 m : sorted m -> (k, v1) ∈ m -> (k, v2) ∈ m -> v1 = v2.
Proof. intros Hs H1 H2. apply get_in in H1, H2; try done. congruence. Qed.

Lemma insert_in k v m e : sorted m -> e ∈ insert k v m <-> e = (k, v) \/ (fst e <> k /\ e ∈ m).
Proof.
  intros Hs. induction m as [|[k' v'] m IH]; simpl.
  - rewrite list_elem_of_singleton. split; [by left|]. intros [H|[_ H]]; [done|by apply elem_of_nil in H].
  - apply sorted_cons in Hs as [Hf Hs]. rewrite Forall_forall in Hf. unfold key_lt in Hf. simpl in Hf.
    destruct (Z.ltb_spec k k') as [Hlt|Hge].
    + rewrite elem_of_cons. split; [|intros [->|[_ H]]; [by left|by right]].
      intros [->|H]; [by left|]. right. split; [|done].
      apply elem_of_cons in H as [->|H]; simpl; [lia|]. specialize (Hf _ H). lia.
    + destruct (Z.eqb_spec k k') as [->|Hne]; rewrite elem_of_cons.
      * split.
        -- intros [->|H]; [by left|]. right. specialize (Hf _ H). split; [lia|by right].
        -- intros [->|[Hk H]]; [by left|]. apply elem_of_cons in H as [->|H]; [done|by right].
      * rewrite IH by done. rewrite elem_of_cons. split.
        -- intros [->|[->|[Hk H]]]; [right; split; [simpl; lia|by left]|by left|right; split; [done|by right]].
        -- intros [->|[Hk [->|H]]]; [right; by left|by left|right; right; done].
Qed.

Lemma insert_sorted k v m : sorted m -> sorted (insert k v m).
Proof.
  intros Hs. induction m as [|[k' v'] m IH]; simpl.
  - repeat constructor.
  - pose proof Hs as Hs0. apply sorted_cons in Hs as [Hf Hs].
    assert (Hf' := Hf). rewrite Forall_forall in Hf'. unfold key_lt in Hf'. simpl in Hf'.
    destruct (Z.ltb_spec k k') as [Hlt|Hge].
    + apply sorted_cons. split; [|done]. apply Forall_forall. intros e He. unfold key_lt. simpl.
      apply elem_of_cons in He as [->|He]; [done|]. specialize (Hf' _ He). lia.
    + destruct (Z.eqb_spec k k') as [->|Hne]; [by apply sorted_cons|].
      apply sorted_cons. split; [|by apply IH]. apply Forall_forall. intros e He. unfold key_lt. simpl.
      apply insert_in in He as [->|[_ He]]; [simpl; lia|by apply Hf'|done].
Qed.

Lemma filter_sorted p m : sorted m -> sorted (List.filter p m).
Proof.
  intros Hs. induction m as [|e m IH]; simpl; [constructor|].
  apply sorted_cons in Hs as [Hf Hs]. destruct (p e); [|by apply IH].
  apply sorted_cons. split; [|by apply IH]. rewrite Forall_forall in Hf |- *. intros e' He.
  apply Hf. apply list_elem_of_In, filter_In in He as [He _]. by apply list_elem_of_In.
Qed.

Lemma filter_in p m (e : entry) : e ∈ List.filter p m <-> e ∈ m /\ p e = true.
Proof. rewrite !list_elem_of_In. apply filter_In. Qed.

Lemma remove_in k m e : e ∈ remove k m <-> e ∈ m /\ fst e <> k.
Proof. unfold remove. rewrite filter_in, negb_true_iff, Z.eqb_neq. done. Qed.

Lemma remove_sorted k m : sorted m -> sorted (remove k m).
Proof. apply filter_sorted. Qed.

Lemma range_in a b m e : e ∈ range a b m <-> e ∈ m /\ a <= fst e < b.
Proof. unfold range. rewrite filter_in, andb_true_iff, Z.leb_le, Z.ltb_lt. done. Qed.

Lemma range_incl_in a b m e : e ∈ range_incl a b m <-> e ∈ m /\ a <= fst e <= b.
Proof. unfold range_incl. rewrite filter_in, andb_true_iff, !Z.leb_le. done. Qed.

Lemma range_to_in b m e : e ∈ range_to b m <-> e ∈ m /\ fst e < b.
Proof. unfold range_to. by rewrite filter_in, Z.ltb_lt. Qed.

(** The last entry of a sorted map has the greatest key. *)
Lemma last_greatest m e : sorted m -> last m = Some e -> e ∈ m /\ forall e', e' ∈ m -> fst e' <= fst e.
Proof.
  intros Hs Hl. apply last_Some in Hl as [m' ->]. split; [apply elem_of_app; right; left|].
  intros e' He. apply elem_of_app in He as [He|He]; [|apply list_elem_of_singleton in He as ->; lia].
  unfold sorted in Hs. apply StronglySorted_app in Hs as (Hs & _ & _).
  specialize (Hs e' e He ltac:(left)). unfold key_lt in Hs. lia.
Qed.

Lemma last_none (m : map) : last m = None -> m = [].
Proof. by rewrite last_None. Qed.

Lemma floor_some k m e :
  sorted m -> floor k m = Some e -> e ∈ m /\ fst e <= k /\ forall e', e' ∈ m -> fst e' <= k -> fst e' <= fst e.
Proof.
  intros Hs Hf. unfold floor in Hf.
  destruct (last_greatest _ _ (filter_sorted _ _ Hs) Hf) as [He Hg].
  apply filter_in in He as [He Hk]. apply Z.leb_le in Hk. split; [done|]. split; [done|].
  intros e' He' Hk'. apply Hg, filter_in. by rewrite Z.leb_le.
Qed.

Lemma floor_none k m : floor k m = None -> forall e, e ∈ m -> k < fst e.
Proof.
  unfold floor. intros Hf e He. apply last_none in Hf.
  destruct (Z.leb_spec (fst e) k) as [Hk|Hk]; [|lia].
  assert (Hin : e ∈ List.filter (fun e => fst e <=? k) m) by (apply filter_in; by rewrite Z.leb_le).
  rewrite Hf in Hin. by apply elem_of_nil in Hin.
Qed.

Lemma before_some k m e :
  sorted m -> before k m = Some e -> e ∈ m /\ fst e < k /\ forall e', e' ∈ m -> fst e' < k -> fst e' <= fst e.
Proof.
  intros Hs Hf. unfold before in Hf.
  destruct (last_greatest _ _ (filter_sorted _ _ Hs) Hf) as [He Hg].
  apply range_to_in in He as [He Hk]. split; [done|]. split; [done|].
  intros e' He' Hk'. apply Hg. by apply range_to_in.
Qed.

Lemma before_none k m : before k m = None -> forall e, e ∈ m -> k <= fst e.
Proof.
  unfold before. intros Hf e He. apply last_none in Hf.
  destruct (Z.ltb_spec (fst e) k) as [Hk|Hk]; [|lia].
  assert (Hin : e ∈ range_to k m) by by apply range_to_in.
  rewrite Hf in Hin. by apply elem_of_nil in Hin.
Qed.

(** The first entry has the least key. *)
Lemma head_least m e e' : sorted (e :: m) -> e' ∈ e :: m -> fst e <= fst e'.
Proof.
  intros Hs He. apply sorted_cons in Hs as [Hf _]. rewrite Forall_forall in Hf.
  apply elem_of_cons in He as [->|He]; [lia|]. specialize (Hf _ He). unfold key_lt in Hf. lia.
Qed.

(** Two maps with the same entries are the same. *)
Lemma sorted_ext m1 m2 : sorted m1 -> sorted m2 -> (forall e, e ∈ m1 <-> e ∈ m2) -> m1 = m2.
Proof.
  revert m2. induction m1 as [|e1 m1 IH]; intros [|e2 m2] H1 H2 He.
  - done.
  - exfalso. assert (H : e2 ∈ (@nil entry)) by (apply He; left). by apply elem_of_nil in H.
  - exfalso. assert (H : e1 ∈ (@nil entry)) by (apply He; left). by apply elem_of_nil in H.
  - assert (Heq : e1 = e2).
    { assert (Hin1 : e1 ∈ e2 :: m2) by (apply He; left). assert (Hin2 : e2 ∈ e1 :: m1) by (apply He; left).
      assert (Hk := head_least _ _ _ H2 Hin1). assert (Hk' := head_least _ _ _ H1 Hin2).
      destruct e1 as [k1 v1], e2 as [k2 v2]. simpl in *. assert (k1 = k2) by lia. subst.
      f_equal. eapply (key_unique k2); [exact H1|left|]. apply He. left. }
    subst e2. f_equal. apply sorted_cons in H1 as [F1 H1], H2 as [F2 H2]. apply IH; try done.
    rewrite Forall_forall in F1, F2. unfold key_lt in F1, F2. intros e. split; intros Hin.
    + assert (H : e ∈ e1 :: m2) by (apply He; by right). apply elem_of_cons in H as [->|H]; [|done].
      specialize (F1 _ Hin). lia.
    + assert (H : e ∈ e1 :: m1) by (apply He; by right). apply elem_of_cons in H as [->|H]; [|done].
      specialize (F2 _ Hin). lia.
Qed.
Lemma get_insert k k' v m : get k' (insert k v m) = if k' =? k then Some v else get k' m.
Proof.
  induction m as [|[k0 v0] m IH]; cbn [insert get]; [done|]. destruct (Z.ltb_spec k k0); cbn [get].
  - by destruct (k' =? k).
  - destruct (Z.eqb_spec k k0) as [->|]; cbn [get]; [by destruct (k' =? k0)|]. rewrite IH. destruct (Z.eqb_spec k' k0); [|done].
    destruct (Z.eqb_spec k' k); [lia|done].
Qed.

Lemma get_remove k k' m : get k' (remove k m) = if k' =? k then None else get k' m.
Proof.
  unfold remove. induction m as [|[k0 v0] m IH]; cbn [List.filter get fst]; [by destruct (k' =? k)|]. destruct (Z.eqb_spec k0 k) as [->|]; cbn [negb get]; rewrite IH.
  - by destruct (k' =? k).
  - destruct (Z.eqb_spec k' k0) as [->|]; [|done]. by rewrite (proj2 (Z.eqb_neq _ _)).
Qed.

(** A new entry, and one taken out, up to the order. *)
Lemma insert_perm k v m : sorted m -> get k m = None -> insert k v m ≡ₚ (k, v) :: m.
Proof.
  intros Hs. induction m as [|[k' v'] m IH]; intros Hg; [done|]. apply sorted_cons in Hs as [_ Hs]. cbn [insert get] in *.
  destruct (k <? k'); [done|]. destruct (k =? k'); [done|]. rewrite IH by done. apply Permutation_swap.
Qed.

Lemma remove_above k m : (forall e, e ∈ m -> k < fst e) -> remove k m = m.
Proof.
  unfold remove. induction m as [|e m IH]; intros Hf; [done|]. cbn [List.filter]. assert (H := Hf e ltac:(left)).
  rewrite (proj2 (Z.eqb_neq _ _)) by lia. cbn [negb]. f_equal. apply IH. intros x Hx. apply Hf. by right.
Qed.

Lemma sorted_above k v m : sorted ((k, v) :: m) -> (forall e, e ∈ m -> k < fst e) /\ sorted m.
Proof. intros [Hf Hs]%sorted_cons. rewrite Forall_forall in Hf. split; [|done]. intros e He. exact (Hf e He). Qed.

Lemma remove_perm k v m : sorted m -> get k m = Some v -> m ≡ₚ (k, v) :: remove k m.
Proof.
  induction m as [|[k' v'] m IH]; intros Hs Hg; [done|]. apply sorted_above in Hs as [Hf Hs]. unfold remove in *. cbn [get List.filter fst] in *.
  destruct (Z.eqb_spec k k') as [->|Hne].
  - injection Hg as ->. rewrite Z.eqb_refl. cbn [negb]. f_equiv. fold (remove k' m). by rewrite remove_above.
  - rewrite (proj2 (Z.eqb_neq k' k)) by done. cbn [negb]. rewrite (IH Hs Hg) at 1. apply Permutation_swap.
Qed.

Lemma replace_perm k v v' m : sorted m -> get k m = Some v -> insert k v' m ≡ₚ (k, v') :: remove k m.
Proof.
  intros Hs. induction m as [|[k' w] m IH]; intros Hg; [done|]. apply sorted_above in Hs as [Hf Hs]. cbn [insert get] in *. unfold remove in *. cbn [List.filter fst].
  destruct (Z.ltb_spec k k') as [Hlt|Hge].
  - exfalso. rewrite (proj2 (Z.eqb_neq _ _)) in Hg by lia. apply get_in in Hg; [|done]. apply Hf in Hg. simpl in Hg. lia.
  - destruct (Z.eqb_spec k k') as [->|Hne].
    + rewrite Z.eqb_refl. cbn [negb]. f_equiv. fold (remove k' m). by rewrite remove_above.
    + rewrite (proj2 (Z.eqb_neq k' k)) by done. cbn [negb]. rewrite (IH Hs Hg). apply Permutation_swap.
Qed.
End btree.
Arguments sorted {V} m.

(** ** The same keys with other values *)

Section map_entries.
Context {V W : Type} (f : Z -> V -> W).

Definition map_entries (m : list (Z * V)) : list (Z * W) := List.map (fun e => (fst e, f (fst e) (snd e))) m.

Lemma me_in k w m : (k, w) ∈ map_entries m <-> exists v, (k, v) ∈ m /\ w = f k v.
Proof.
  unfold map_entries. rewrite list_elem_of_In, in_map_iff. split.
  - intros ([k' v] & [= -> <-] & H). exists v. by rewrite list_elem_of_In.
  - intros (v & H & ->). exists (k, v). by rewrite <- list_elem_of_In.
Qed.

Lemma me_sorted m : sorted (map_entries m) <-> sorted m.
Proof.
  induction m as [|[k v] m IH]; [split; constructor|]. change (map_entries ((k, v) :: m)) with ((k, f k v) :: map_entries m).
  rewrite !sorted_cons, IH. rewrite !Forall_forall. split; intros [H1 H2]; (split; [|done]).
  - intros [k' v'] Hin. apply (H1 (k', f k' v')). apply me_in. by exists v'.
  - intros [k' w'] Hin. apply me_in in Hin as (v' & Hin & _). exact (H1 _ Hin).
Qed.

Lemma me_filter (p : Z -> bool) m :
  map_entries (List.filter (fun e => p (fst e)) m) = List.filter (fun e => p (fst e)) (map_entries m).
Proof. induction m as [|[k v] m IH]; [done|]. cbn [map_entries List.map List.filter fst]. destruct (p k); [|done]. simpl. by f_equal. Qed.

Lemma me_remove k m : map_entries (remove k m) = remove k (map_entries m).
Proof. apply (me_filter (fun k' => negb (k' =? k))). Qed.

Lemma me_insert k v m : map_entries (insert k v m) = insert k (f k v) (map_entries m).
Proof.
  induction m as [|[k' v'] m IH]; [done|]. cbn [insert map_entries List.map fst snd].
  destruct (k <? k'); [done|]. destruct (k =? k'); [done|]. simpl. by f_equal.
Qed.

Lemma me_last m : last (map_entries m) = (fun e => (fst e, f (fst e) (snd e))) <$> last m.
Proof. induction m as [|e [|e' m] IH]; done. Qed.

Lemma me_floor k m : floor k (map_entries m) = (fun e => (fst e, f (fst e) (snd e))) <$> floor k m.
Proof. unfold floor. by rewrite <- (me_filter (fun k' => k' <=? k)), me_last. Qed.

Lemma me_before k m : before k (map_entries m) = (fun e => (fst e, f (fst e) (snd e))) <$> before k m.
Proof. unfold before, range_to. by rewrite <- (me_filter (fun k' => k' <? k)), me_last. Qed.

Lemma me_length m : length (map_entries m) = length m.
Proof. apply length_map. Qed.
End map_entries.
#[export] Hint Resolve insert_sorted remove_sorted filter_sorted : lazaret.
