(* ===== verification/Looks.v ===== *)
(** Zero-width tests at a position: [linre/looks.rs], but for the memoized
    lookaheads ([LookMemo]).

    [simple_holds] is the code's rule for each one-character (or position)
    test, [flat_holds] the fixed sequences of a lookaround, [closure] and
    [run] the walk of a lookaround's own program: a set of states stepped
    over the text, any path to its end answering yes.  [closure] asks the
    tests on its way through [hold], which is [holds_at_depth] one level
    deeper.  [run_ok] proves that the walk answers whether some path is
    accepted ([Search.wins]). *)

From Stdlib Require Import ZArith Lia.
From stdpp Require Import base option numbers relations list_numbers list.
From S2P Require Import Prelude CharSet Hir Nfa Search Machine SparseSet.

(** The generated table of the characters that [str.isalnum] accepts
    (generated/unicode13.rs), past ASCII. *)
Class UnicodeTables := alnum : Z -> bool.

(** [c.is_ascii_alphanumeric() || c == 0x5F], below 128. *)
Definition ascii_word (c : Z) : bool :=
  (((48 <=? c) && (c <=? 57)) || ((65 <=? c) && (c <=? 90)) || ((97 <=? c) && (c <=? 122)) || (c =? 95))%Z.

(** Is [c] a word character ([\w], Unicode or ASCII)? *)
Definition is_word `{UnicodeTables} (ascii : bool) (c : Z) : bool :=
  if (c <? 128)%Z then ascii_word c else if ascii then false else alnum c.

(** [text.get(p).is_some_and(|c| pr.sets[set].contains(c))]; [None]: the set
    is out of range. *)
Definition get_in (pr : Programs) (t : text) (set : N) (p : nat) : option bool :=
  match t !! p with
  | None => Some false
  | Some c => cs ← sets pr !! N.to_nat set; Some (CharSet.contains cs c)
  end.

Definition newline (t : text) (p : nat) : bool :=
  match t !! p with Some c => (c =? 10)%Z | None => false end.

(** Does a one-character (or position) test hold at [p]? *)
Definition simple_holds `{UnicodeTables} (pr : Programs) (d : LookDef) (t : text) (p wend : nat) : option bool :=
  match d with
  | DBegin => Some (p =? 0)%nat
  | DBeginLine => Some ((p =? 0)%nat || newline t (p - 1))
  | DEnd => Some ((p =? wend)%nat || ((p + 1 =? wend)%nat && newline t p))
  | DEndLine => Some ((p =? wend)%nat || newline t p)
  | DEndString => Some (p =? wend)%nat
  | DWord ascii negate =>
      if (wend =? 0)%nat then Some false
      else
        let word_at (q : nat) := match t !! q with Some c => is_word ascii c | None => false end in
        let that := (0 <? p)%nat && word_at (p - 1) in
        let this := (p <? wend)%nat && word_at p in
        Some (if negate then eqb this that else xorb this that)
  | DBehind1 set negate =>
      hit ← (if (1 <=? p)%nat && (p - 1 <? wend)%nat then get_in pr t set (p - 1) else Some false);
      Some (xorb hit negate)
  | DAhead1 set negate =>
      hit ← (if (p <? wend)%nat then get_in pr t set p else Some false);
      Some (xorb hit negate)
  | DAround _ _ _ _ _ _ _ _ => Some false
  end.

(** Does one of the fixed sequences match at [q]?  [None]: a set or a test
    out of range. *)
Fixpoint seq_holds `{UnicodeTables} (pr : Programs) (t : text) (wend pos : nat) (s : list Flat) : option bool :=
  match s with
  | [] => Some true
  | FChar set :: s' =>
      ok ← (if (pos <? wend)%nat then get_in pr t set pos else Some false);
      if (ok : bool) then seq_holds pr t wend (S pos) s' else Some false
  | FLook l :: s' =>
      d ← looks pr !! N.to_nat l;
      ok ← simple_holds pr d t pos wend;
      if (ok : bool) then seq_holds pr t wend pos s' else Some false
  end.

Fixpoint flat_holds_loop `{UnicodeTables} (pr : Programs) (seqs : list (list Flat)) (t : text) (q wend : nat) : option bool :=
  match seqs with
  | [] => Some false
  | s :: seqs' =>
      ok ← seq_holds pr t wend q s;
      if (ok : bool) then Some true else flat_holds_loop pr seqs' t q wend
  end.

Definition flat_holds `{UnicodeTables} (pr : Programs) (seqs : list (list Flat)) (t : text) (q wend : nat) : option bool :=
  flat_holds_loop pr seqs t q (Nat.min wend (length t)).

(** ** The walk of a lookaround's program *)

(** The buffers of one nesting depth (its stack is emptied before each use,
    so it is the walk's own here). *)
Record Level := mk_level {
  cur : SparseSet;
  next : SparseSet;
  path : list (N * nat * nat);
}.

Definition new_level : Level := mk_level (SparseSet.new 0) (SparseSet.new 0) [].

Section walk.
(** What the tests inside are asked of, one level deeper: [holds_at_depth]. *)
Context {O : Type} (hold : N -> nat -> O -> result fault (bool * O)).
Variables (pr : Programs) (P : Prog) (t : text) (wend : nat).

(** The loop of [closure]: the states that the stack's reach without
    reading, put in [set]. *)
Fixpoint closure_loop (fuel : nat) (pos : nat) (set : SparseSet) (stack : list N) (o : O) :
    result fault (SparseSet * O) :=
  match fuel with
  | 0 => Err NoFuel
  | S fuel' =>
      match stack with
      | [] => Ok (set, o)
      | pc :: stack =>
          match SparseSet.insert pc set with
          | None => Err Panic
          | Some (false, set) => closure_loop fuel' pos set stack o
          | Some (true, set) =>
              match inst_at P pc with
              | None => Err Panic
              | Some (ISplit x y) => closure_loop fuel' pos set (x :: y :: stack) o
              | Some (IJmp next) | Some (ISave _ next) => closure_loop fuel' pos set (next :: stack) o
              | Some (IGuard next) =>
                  closure_loop fuel' pos set (if (pos <=? wend)%nat then next :: stack else stack) o
              | Some (ILook look next) =>
                  match hold look pos o with
                  | Err e => Err e
                  | Ok (ok, o) => closure_loop fuel' pos set (if ok then next :: stack else stack) o
                  end
              | Some (IChar _ _) | Some IMatch | Some (IRun _ _ _ _ _) => closure_loop fuel' pos set stack o
              end
          end
      end
  end.

Definition closure_fuel : nat := 2 + 2 * length (insts P).

Definition closure (from : N) (pos : nat) (set : SparseSet) (o : O) : result fault (SparseSet * O) :=
  closure_loop closure_fuel pos set [from] o.

(** [pos < end && text.get(pos).is_some_and(..)] *)
Definition reads (set : N) (pos : nat) : option bool :=
  if (pos <? wend)%nat then get_in pr t set pos else Some false.

(** The loop over the states of [cur] from the [i]th on, [k] of them: true
    when one is an accepted match. *)
Fixpoint step_states (at_ : option nat) (pos : nat) (k i : nat) (lv : Level) (o : O) :
    result fault (bool * Level * O) :=
  match k with
  | 0 => Ok (false, lv, o)
  | S k' =>
      match SparseSet.get i (cur lv) with
      | None => Err Panic
      | Some pc =>
          match inst_at P pc with
          | None => Err Panic
          | Some (IChar set nx) =>
              match reads set pos with
              | None => Err Panic
              | Some true =>
                  match closure nx (pos + 1) (next lv) o with
                  | Err e => Err e
                  | Ok (s, o) => step_states at_ pos k' (S i) (mk_level (cur lv) s (path lv)) o
                  end
              | Some false => step_states at_ pos k' (S i) lv o
              end
          | Some IMatch =>
              if match at_ with Some a => (a =? pos)%nat | None => true end
              then Ok (true, lv, o)
              else step_states at_ pos k' (S i) lv o
          | Some _ => step_states at_ pos k' (S i) lv o
          end
      end
  end.

(** [mem::swap(&mut lv.cur, &mut lv.next); lv.next.clear();] *)
Definition swap (lv : Level) : Level := mk_level (next lv) (SparseSet.clear (cur lv)) (path lv).

(** The loop of [run] over the positions. *)
Fixpoint run_loop (fuel : nat) (at_ : option nat) (pos : nat) (lv : Level) (o : O) :
    result fault (bool * Level * O) :=
  match fuel with
  | 0 => Err NoFuel
  | S fuel' =>
      match step_states at_ pos (SparseSet.len (cur lv)) 0 lv o with
      | Err e => Err e
      | Ok (found, lv, o) =>
          if found || SparseSet.is_empty (next lv) || (wend <=? pos)%nat then Ok (found, lv, o)
          else
            let lv := swap lv in
            let pos := S pos in
            if match at_ with Some a => (a <? pos)%nat | None => false end then Ok (found, lv, o)
            else run_loop fuel' at_ pos lv o
      end
  end.

(** [run], with the level's buffers taken out. *)
Definition run_level (q : nat) (at_ : option nat) (lv : Level) (o : O) : result fault (bool * Level * O) :=
  let n := length (insts P) in
  let lv := mk_level (SparseSet.resize n (cur lv)) (SparseSet.resize n (next lv)) (path lv) in
  match closure (start P) q (cur lv) o with
  | Err e => Err e
  | Ok (s, o) =>
      match run_loop (2 + (wend - q)) at_ q (mk_level s (next lv) (path lv)) o with
      | Err e => Err e
      | Ok (found, lv, o) =>
          Ok (found, mk_level (SparseSet.clear (cur lv)) (SparseSet.clear (next lv)) (path lv), o)
      end
  end.
End walk.

(** ** What the walk answers *)

Section walk_ok.
Context {O : Type} (hold : N -> nat -> O -> result fault (bool * O)).
Variables (pr : Programs) (P : Prog) (t : text) (wend : nat).
Variable look_at : N -> nat -> bool.
Variable oinv : O -> Prop.
Hypothesis wf : prog_wf pr P = true.
Hypothesis no_runs : forall pc s mn mx g x, inst_at P pc <> Some (IRun s mn mx g x).
(** The tests of the program answer as [look_at] says. *)
Hypothesis hold_ok : forall pc l x pos o, inst_at P pc = Some (ILook l x) -> oinv o ->
  exists o', hold l pos o = Ok (look_at l pos, o') /\ oinv o'.

Abbreviation n := (length (insts P)).
Abbreviation set_at := (set_at pr t wend).
Abbreviation succs := (succs P set_at look_at wend wend).

(** The steps that read nothing. *)
Definition eps (pos : nat) (pc : N) : list N :=
  match inst_at P pc with
  | Some (ISplit x y) => [x; y]
  | Some (IJmp next) | Some (ISave _ next) => [next]
  | Some (IGuard next) => if (pos <=? wend)%nat then [next] else []
  | Some (ILook l next) => if look_at l pos then [next] else []
  | _ => []
  end.

Definition ereach (pos : nat) : N -> N -> Prop := rtc (fun a b => b ∈ eps pos a).

Definition closed (pos : nat) (S : list N) : Prop := forall a b, a ∈ S -> b ∈ eps pos a -> b ∈ S.

Definition in_prog (pc : N) : Prop := N.to_nat pc < n.

Record set_ok (s : SparseSet) : Prop := mk_set_ok {
  so_ok : ss_ok s;
  so_capacity : n <= capacity s;
  so_pcs : Forall in_prog (elems s);
}.

Lemma set_ok_length s : set_ok s -> length (elems s) <= n.
Proof.
  intros [H1 _ H3].
  assert (Hi : elems s ⊆ List.map N.of_nat (seq 0 n)).
  { intros x Hx. apply list_elem_of_In, in_map_iff. exists (N.to_nat x). split; [lia|]. apply in_seq.
    rewrite Forall_forall in H3. specialize (H3 x Hx). unfold in_prog in H3. lia. }
  apply (NoDup_submseteq _ _ (elems_nodup s H1)) in Hi. apply submseteq_length in Hi.
  by rewrite length_map, length_seq in Hi.
Qed.

Lemma eps_in_prog pos a b : b ∈ eps pos a -> in_prog b.
Proof.
  unfold eps. intros Hb. destruct (inst_at P a) as [i|] eqn:Hi; [|by apply elem_of_nil in Hb].
  assert (Hw := wf_inst pr P wf _ _ Hi). unfold in_prog.
  destruct i; simpl in Hw; cleanb; try (by apply elem_of_nil in Hb);
    repeat case_match; repeat (apply elem_of_cons in Hb as [->|Hb]); try lia; by apply elem_of_nil in Hb.
Qed.

(** A step that reads nothing is a step of the search, and the other way. *)
Lemma eps_succs pos a b : b ∈ eps pos a -> (b, pos) ∈ succs (a, pos).
Proof.
  unfold eps, Search.succs. intros Hb. destruct (inst_at P a) as [i|]; [|by apply elem_of_nil in Hb].
  destruct i; try (by apply elem_of_nil in Hb);
    repeat case_match; repeat (apply elem_of_cons in Hb as [->|Hb]); try (by apply elem_of_nil in Hb); by repeat constructor.
Qed.

(** The invariant of [closure]'s loop: what is new in the set or on the
    stack is reached from [from], and what the new states step to is there. *)
Record closing (pos : nat) (from : N) (S0 : list N) (s : SparseSet) (stack : list N) : Prop := mk_closing {
  cl_set : set_ok s;
  cl_old : S0 ⊆ elems s;
  cl_from : from ∈ elems s \/ from ∈ stack;
  cl_new : forall v, v ∈ elems s -> v ∈ S0 \/ ereach pos from v;
  cl_stack : forall v, v ∈ stack -> ereach pos from v;
  cl_prog : Forall in_prog stack;
  cl_closed : forall v, v ∈ elems s -> v ∉ S0 -> forall e, e ∈ eps pos v -> e ∈ elems s \/ e ∈ stack;
}.

Lemma closing_pop pos from S0 s s' pc stack :
  closing pos from S0 s (pc :: stack) -> pc ∈ elems s -> set_ok s' -> elems s' = elems s ->
  closing pos from S0 s' stack.
Proof.
  intros [H1 H2 H3 H4 H5 H6 H7] Hin Hs He. split; rewrite ?He; try done.
  - destruct H3 as [H3|H3]; [by left|]. apply elem_of_cons in H3 as [->|H3]; [by left|by right].
  - intros v Hv. apply H5. by right.
  - by inversion H6.
  - intros v Hv Hv0 e Hee. destruct (H7 v Hv Hv0 e Hee) as [H|H]; [by left|].
    apply elem_of_cons in H as [->|H]; [by left|by right].
Qed.

Lemma closing_new pos from S0 s s' pc stack new :
  closing pos from S0 s (pc :: stack) -> set_ok s' -> elems s' = elems s ++ [pc] -> eps pos pc = new ->
  closing pos from S0 s' (new ++ stack).
Proof.
  intros [H1 H2 H3 H4 H5 H6 H7] Hs He <-.
  assert (Hpc : ereach pos from pc) by (apply H5; left).
  split; rewrite ?He; try done.
  - intros v Hv. apply elem_of_app. left. by apply H2.
  - destruct H3 as [H3|H3]; [left; apply elem_of_app; by left|].
    apply elem_of_cons in H3 as [->|H3]; [left; apply elem_of_app; right; left|right; apply elem_of_app; by right].
  - intros v Hv. apply elem_of_app in Hv as [Hv|Hv]; [by apply H4|]. apply list_elem_of_singleton in Hv as ->. by right.
  - intros v Hv. apply elem_of_app in Hv as [Hv|Hv]; [|apply H5; by right].
    eapply rtc_r; [exact Hpc|exact Hv].
  - apply Forall_app. split; [|by inversion H6]. apply Forall_forall. intros v. apply eps_in_prog.
  - intros v Hv Hv0 e Hee. rewrite !elem_of_app. apply elem_of_app in Hv as [Hv|Hv].
    + destruct (H7 v Hv Hv0 e Hee) as [H|H]; [left; by left|].
      apply elem_of_cons in H as [->|H]; [left; right; left|right; by right].
    + apply list_elem_of_singleton in Hv as ->. right. by left.
Qed.

Lemma closing_done pos from S0 s :
  closing pos from S0 s [] -> closed pos S0 ->
  closed pos (elems s) /\ forall v, v ∈ elems s <-> v ∈ S0 \/ ereach pos from v.
Proof.
  intros [H1 H2 H3 H4 H5 H6 H7] Hc.
  assert (Hcl : closed pos (elems s)).
  { intros a b Ha Hb. destruct (decide (a ∈ S0)) as [Ha0|Ha0].
    - apply H2. by eapply Hc.
    - destruct (H7 a Ha Ha0 b Hb) as [H|H]; [done|by apply elem_of_nil in H]. }
  split; [done|]. intros v. split; [apply H4|]. intros [Hv|Hv]; [by apply H2|].
  destruct H3 as [H3|H3]; [|by apply elem_of_nil in H3].
  clear -Hcl H3 Hv. induction Hv as [x|x y z Hxy _ IH]; [done|]. apply IH. by eapply Hcl.
Qed.

Lemma closure_loop_ok fuel pos from S0 s stack o :
  closing pos from S0 s stack -> closed pos S0 -> oinv o ->
  length stack + 2 * (n - length (elems s)) < fuel ->
  exists s' o', closure_loop hold P wend fuel pos s stack o = Ok (s', o') /\ oinv o' /\
    set_ok s' /\ closed pos (elems s') /\ forall v, v ∈ elems s' <-> v ∈ S0 \/ ereach pos from v.
Proof.
  revert s stack o. induction fuel as [|fuel IH]; intros s stack o Hc H0 Ho Hf; [lia|]. cbn [closure_loop].
  destruct stack as [|pc stack].
  { exists s, o. split; [done|]. split; [done|]. split; [apply Hc|]. by apply closing_done. }
  destruct (cl_set _ _ _ _ _ Hc) as [S1 S2 S3].
  assert (Hp : in_prog pc) by (assert (Hp := cl_prog _ _ _ _ _ Hc); by inversion Hp).
  destruct (insert_ok pc s S1) as (s' & Hins & Hs' & Hcap & He); [unfold in_prog in Hp; lia|].
  rewrite Hins. destruct (decide (pc ∈ elems s)) as [Hin|Hnin].
  - rewrite bool_decide_eq_false_2 by (intros Hx; by apply Hx).
    apply IH; try done; [|rewrite He; simpl in Hf; lia].
    eapply closing_pop; try done. split; [done|by rewrite Hcap|by rewrite He].
  - rewrite bool_decide_eq_true_2 by done.
    assert (Hs2 : set_ok s').
    { split; [done|by rewrite Hcap|]. rewrite He. apply Forall_app. split; [done|by constructor]. }
    assert (Hlen := set_ok_length _ Hs2). rewrite He, length_app in Hlen. simpl in Hlen.
    assert (Hnew : forall new o, eps pos pc = new -> length new <= 2 -> oinv o ->
      exists s'' o', closure_loop hold P wend fuel pos s' (new ++ stack) o = Ok (s'', o') /\ oinv o' /\
      set_ok s'' /\ closed pos (elems s'') /\ forall v, v ∈ elems s'' <-> v ∈ S0 \/ ereach pos from v).
    { intros new o1 Hn Hl Ho1. apply IH; try done; [by eapply closing_new|].
      rewrite He, !length_app. simpl in Hf |- *. lia. }
    destruct (lookup_lt_is_Some_2 _ _ Hp) as [i Hi]. change (inst_at P pc = Some i) in Hi. rewrite Hi.
    assert (Heps : eps pos pc = eps pos pc) by done. unfold eps in Heps at 2. rewrite Hi in Heps.
    destruct i as [set nx|x y|nx|slot nx|look nx|nx|set mn mx greedy nx|].
    + by apply (Hnew []); simpl; try lia.
    + by apply (Hnew [x; y]); simpl; try lia.
    + by apply (Hnew [nx]); simpl; try lia.
    + by apply (Hnew [nx]); simpl; try lia.
    + destruct (hold_ok pc look nx pos o Hi Ho) as (o' & Hh & Ho'). rewrite Hh.
      destruct (look_at look pos); [by apply (Hnew [nx]); simpl; try lia|by apply (Hnew []); simpl; try lia].
    + destruct (pos <=? wend)%nat; [by apply (Hnew [nx]); simpl; try lia|by apply (Hnew []); simpl; try lia].
    + by destruct (no_runs pc set mn mx greedy nx).
    + by apply (Hnew []); simpl; try lia.
Qed.

(** [closure] adds to a closed set what a state reaches without reading. *)
Lemma closure_ok from pos s o :
  set_ok s -> closed pos (elems s) -> in_prog from -> oinv o ->
  exists s' o', closure hold P wend from pos s o = Ok (s', o') /\ oinv o' /\
    set_ok s' /\ closed pos (elems s') /\ forall v, v ∈ elems s' <-> v ∈ elems s \/ ereach pos from v.
Proof.
  intros Hs Hc Hf Ho. apply (closure_loop_ok _ _ _ (elems s)); try done.
  - split; try done.
    + right. left.
    + intros v Hv. by left.
    + intros v Hv. apply list_elem_of_singleton in Hv as ->. apply rtc_refl.
    + by constructor.
  - unfold closure_fuel. simpl. lia.
Qed.

(** *** The loop over positions *)

Section run_ok.
Variable at_ : option nat.

Definition ends_at (pos : nat) : bool := match at_ with Some a => (a =? pos)%nat | None => true end.

Abbreviation wins := (wins P set_at look_at wend wend ends_at).

(** Where a state of a closed set wins, a match of the set does, or a
    state that reads a character. *)
Lemma wins_closed pos S v :
  closed pos S -> v ∈ S -> wins (v, pos) ->
  (exists m, m ∈ S /\ inst_at P m = Some IMatch /\ ends_at pos = true) \/
  (exists c set nx, c ∈ S /\ inst_at P c = Some (IChar set nx) /\ set_at set pos = true /\ wins (nx, Datatypes.S pos)).
Proof.
  intros Hc Hv Hw. remember (v, pos) as x eqn:Hx. revert v Hv Hx.
  induction Hw as [pc p Hm Ha|x x' Hin Hw IH]; intros v Hv Hx.
  - injection Hx as -> ->. left. exists v. split; [done|]. split; [|done].
    unfold is_match in Hm. by destruct (inst_at P v) as [[]|].
  - subst x. destruct x' as [v' p']. assert (Hin' := Hin). unfold Search.succs in Hin.
    destruct (inst_at P v) as [i|] eqn:Hi; [|by apply elem_of_nil in Hin].
    assert (Heps : (forall set nx, i <> IChar set nx) -> (v' ∈ eps pos v /\ p' = pos) ->
      (exists m, m ∈ S /\ inst_at P m = Some IMatch /\ ends_at pos = true) \/
      (exists c set nx, c ∈ S /\ inst_at P c = Some (IChar set nx) /\ set_at set pos = true /\ wins (nx, Datatypes.S pos))).
    { intros _ [He ->]. apply (IH v'); [by apply (Hc v)|done]. }
    unfold eps in Heps. rewrite Hi in Heps.
    destruct i as [set nx|x y|nx|slot nx|look nx|nx|set mn mx greedy nx|].
    + right. destruct (set_at set pos) eqn:Hs; [|by apply elem_of_nil in Hin].
      apply list_elem_of_singleton in Hin. injection Hin as -> ->. by exists v, set, nx.
    + apply Heps; [done|]. apply elem_of_cons in Hin as [[= -> ->]|Hin]; [split; [left|done]|].
      apply list_elem_of_singleton in Hin. injection Hin as -> ->. split; [right; left|done].
    + apply Heps; [done|]. apply list_elem_of_singleton in Hin. injection Hin as -> ->. split; [left|done].
    + apply Heps; [done|]. apply list_elem_of_singleton in Hin. injection Hin as -> ->. split; [left|done].
    + apply Heps; [done|]. destruct (look_at look pos); [|by apply elem_of_nil in Hin].
      apply list_elem_of_singleton in Hin. injection Hin as -> ->. split; [left|done].
    + apply Heps; [done|]. destruct (pos <=? wend)%nat; [|by apply elem_of_nil in Hin].
      apply list_elem_of_singleton in Hin. injection Hin as -> ->. split; [left|done].
    + by destruct (no_runs v set mn mx greedy nx).
    + by apply elem_of_nil in Hin.
Qed.

Lemma wins_ereach pos a b : ereach pos a b -> wins (b, pos) -> wins (a, pos).
Proof.
  intros Hr. induction Hr as [x|x y z Hxy _ IH]; [done|]. intros Hw.
  eapply wins_step; [by apply eps_succs|]. by apply IH.
Qed.

Lemma wins_char pos c set nx :
  inst_at P c = Some (IChar set nx) -> set_at set pos = true -> wins (nx, S pos) -> wins (c, pos).
Proof.
  intros Hi Hs Hw. eapply wins_step; [|exact Hw]. unfold Search.succs. rewrite Hi, Hs. left.
Qed.

(** What is read at a position. *)
Lemma walk_reads set pos :
  is_Some (sets pr !! N.to_nat set) -> reads pr t wend set pos = Some (set_at set pos).
Proof.
  intros [cs Hcs]. unfold reads, get_in, Machine.set_at. rewrite Hcs.
  destruct (pos <? wend)%nat; simpl; [|done]. by destruct (t !! pos).
Qed.

(** The states from the [i]th on that read the character, and what they
    reach at the next position. *)
Definition read_from (pos : nat) (l : list N) (v : N) : Prop :=
  exists c set nx, c ∈ l /\ inst_at P c = Some (IChar set nx) /\ set_at set pos = true /\ ereach (S pos) nx v.

Lemma read_from_cons pos c l v :
  read_from pos (c :: l) v <->
  (exists set nx, inst_at P c = Some (IChar set nx) /\ set_at set pos = true /\ ereach (S pos) nx v) \/ read_from pos l v.
Proof.
  split.
  - intros (c' & set & nx & Hin & H1). apply elem_of_cons in Hin as [->|Hin]; [left; by exists set, nx|right].
    by exists c', set, nx.
  - intros [(set & nx & H1)|(c' & set & nx & Hin & H1)]; [exists c, set, nx|exists c', set, nx]; (split; [|done]); [left|by right].
Qed.

Lemma step_states_ok pos k i lv o :
  set_ok (cur lv) -> set_ok (next lv) -> closed (S pos) (elems (next lv)) -> oinv o ->
  i + k = SparseSet.len (cur lv) ->
  exists found lv' o', step_states hold pr P t wend at_ pos k i lv o = Ok (found, lv', o') /\ oinv o' /\
    cur lv' = cur lv /\ set_ok (next lv') /\ closed (S pos) (elems (next lv')) /\
    if found : bool then exists m, m ∈ elems (cur lv) /\ inst_at P m = Some IMatch /\ ends_at pos = true
    else (forall m, m ∈ drop i (elems (cur lv)) -> inst_at P m = Some IMatch -> ends_at pos = false) /\
         forall v, v ∈ elems (next lv') <-> v ∈ elems (next lv) \/ read_from pos (drop i (elems (cur lv))) v.
Proof.
  revert i lv o. induction k as [|k IH]; intros i lv o Hcu Hnx Hcl Ho Hk; cbn [step_states].
  { exists false, lv, o. do 5 (split; [done|]).
    assert (Hd : drop i (elems (cur lv)) = []) by (apply drop_ge; rewrite elems_length by apply Hcu; lia).
    rewrite Hd. split; [intros m Hm; by apply elem_of_nil in Hm|]. intros v. split; [by left|].
    intros [Hv|(c & set & nx & Hin & _)]; [done|by apply elem_of_nil in Hin]. }
  destruct (lookup_lt_is_Some_2 (elems (cur lv)) i) as [pc Hpc]; [rewrite elems_length by apply Hcu; lia|].
  rewrite (get_ok _ _ _ Hpc).
  assert (Hp : in_prog pc) by (apply (Forall_lookup_1 _ _ _ _ (so_pcs _ Hcu) Hpc)).
  destruct (lookup_lt_is_Some_2 _ _ Hp) as [ins Hi]. change (inst_at P pc = Some ins) in Hi. rewrite Hi.
  rewrite (drop_S _ _ _ Hpc).
  assert (Hskip : forall lv1 o1, cur lv1 = cur lv -> set_ok (next lv1) -> closed (S pos) (elems (next lv1)) -> oinv o1 ->
    (inst_at P pc = Some IMatch -> ends_at pos = false) ->
    (forall v, v ∈ elems (next lv1) <-> v ∈ elems (next lv) \/
      (exists set nx, inst_at P pc = Some (IChar set nx) /\ set_at set pos = true /\ ereach (S pos) nx v)) ->
    exists found lv' o', step_states hold pr P t wend at_ pos k (S i) lv1 o1 = Ok (found, lv', o') /\ oinv o' /\
    cur lv' = cur lv /\ set_ok (next lv') /\ closed (S pos) (elems (next lv')) /\
    if found : bool then exists m, m ∈ elems (cur lv) /\ inst_at P m = Some IMatch /\ ends_at pos = true
    else (forall m, m ∈ pc :: drop (S i) (elems (cur lv)) -> inst_at P m = Some IMatch -> ends_at pos = false) /\
         forall v, v ∈ elems (next lv') <-> v ∈ elems (next lv) \/ read_from pos (pc :: drop (S i) (elems (cur lv))) v).
  { intros lv1 o1 E1 E2 E3 E4 E5 E6.
    destruct (IH (S i) lv1 o1) as (found & lv' & o' & G1 & G2 & G3 & G4 & G5 & G6); try done; [by rewrite E1|rewrite E1; lia|].
    rewrite E1 in G3, G6. exists found, lv', o'. do 5 (split; [done|]). destruct found; [done|].
    destruct G6 as [G6 G7]. split.
    - intros m Hm. apply elem_of_cons in Hm as [->|Hm]; [done|by apply G6].
    - intros v. rewrite G7, E6, read_from_cons. tauto. }
  destruct ins as [set nx|x y|nx|slot nx|look nx|nx|set mn mx greedy nx|];
    try (apply Hskip; try done; [by rewrite Hi|]; intros v; split; [by left|]; intros [|(set' & nx' & Hi' & _)]; [done|congruence]).
  - assert (Hw := wf_inst pr P wf _ _ Hi). simpl in Hw. apply andb_true_iff in Hw as [Hset Hn].
    rewrite walk_reads by (by apply wf_set). destruct (set_at set pos) eqn:Hs.
    + destruct (closure_ok nx (S pos) (next lv) o Hnx Hcl) as (s' & o' & C1 & C2 & C3 & C4 & C5); [unfold in_prog; cleanb; lia|done|].
      rewrite Nat.add_1_r, C1.
      apply Hskip; cbn [cur next]; try done; [by rewrite Hi|]. intros v. rewrite C5. split.
      * intros [|Hv]; [by left|right]. by exists set, nx.
      * intros [|(set' & nx' & Hi' & _ & Hv)]; [by left|right]. rewrite Hi in Hi'. by injection Hi' as <- <-.
    + apply Hskip; try done; [by rewrite Hi|]. intros v. split; [by left|].
      intros [|(set' & nx' & Hi' & Hs' & _)]; [done|]. rewrite Hi in Hi'. injection Hi' as <- <-. congruence.
  - destruct (match at_ with Some a => (a =? pos)%nat | None => true end) eqn:He.
    + exists true, lv, o. do 5 (split; [done|]). exists pc. split; [by eapply list_elem_of_lookup_2|done].
    + apply Hskip; try done. intros v. split; [by left|]. intros [|(set' & nx' & Hi' & _)]; [done|congruence].
Qed.

(** Nothing ends where a walk has passed. *)
Lemma wins_past v a : at_ = Some a -> a < snd v -> ~ wins v.
Proof.
  intros He Hlt Hw. induction Hw as [pc p Hm Ha|v v' Hin Hw IH].
  - unfold ends_at in Ha. rewrite He in Ha. cleanb. simpl in Hlt. lia.
  - apply IH. apply (succs_range _ _ _ _ _ (set_at_lim pr t wend)) in Hin. lia.
Qed.

Lemma run_loop_ok fuel pos lv o :
  set_ok (cur lv) -> closed pos (elems (cur lv)) -> set_ok (next lv) -> elems (next lv) = [] -> oinv o ->
  wend - pos < fuel ->
  exists found lv' o', run_loop hold pr P t wend fuel at_ pos lv o = Ok (found, lv', o') /\ oinv o' /\
    set_ok (cur lv') /\ set_ok (next lv') /\
    (found = true <-> exists v, v ∈ elems (cur lv) /\ wins (v, pos)).
Proof.
  revert pos lv o. induction fuel as [|fuel IH]; intros pos lv o Hc Hcl Hn Hne Ho Hf; [lia|]. cbn [run_loop].
  assert (Hcl1 : closed (S pos) (elems (next lv))) by (rewrite Hne; intros a b Ha; by apply elem_of_nil in Ha).
  destruct (step_states_ok pos _ 0 lv o Hc Hn Hcl1 Ho eq_refl) as (found & lv1 & o1 & -> & Ho1 & E1 & E2 & E3 & E4).
  assert (Hc1 : set_ok (cur lv1)) by (by rewrite E1).
  destruct found; cbn [orb].
  { destruct E4 as (m & Hm & Hmi & Ha). exists true, lv1, o1. do 4 (split; [done|]). split; [|done]. intros _.
    exists m. split; [done|]. apply wins_leaf; [|done]. unfold is_match. by rewrite Hmi. }
  destruct E4 as [Enm Enx]. rewrite drop_0 in Enm, Enx.
  (* what wins here wins at the next position *)
  assert (Hstep : (exists v, v ∈ elems (cur lv) /\ wins (v, pos)) <-> (exists v, v ∈ elems (next lv1) /\ wins (v, S pos))).
  { split.
    - intros (v & Hv & Hw). destruct (wins_closed pos _ v Hcl Hv Hw) as [(m & Hm & Hmi & Ha)|(c & set & nx & Hcin & Hci & Hs & Hwn)].
      + rewrite (Enm m Hm Hmi) in Ha. done.
      + exists nx. split; [|done]. apply Enx. right. exists c, set, nx. do 3 (split; [done|]). apply rtc_refl.
    - intros (v & Hv & Hw). apply Enx in Hv as [Hv|(c & set & nx & Hcin & Hci & Hs & Hr)].
      + rewrite Hne in Hv. by apply elem_of_nil in Hv.
      + exists c. split; [done|]. eapply wins_char; [done..|]. by eapply wins_ereach. }
  destruct (SparseSet.is_empty (next lv1) || (wend <=? pos)%nat) eqn:Hend.
  { exists false, lv1, o1. do 4 (split; [done|]). split; [done|]. intros Hw. apply Hstep in Hw as (v & Hv & Hw).
    apply orb_true_iff in Hend as [Hend|Hend].
    - unfold SparseSet.is_empty in Hend. cleanb. assert (Hl := elems_length _ (so_ok _ E2)). rewrite Hend in Hl.
      apply nil_length_inv in Hl. rewrite Hl in Hv. by apply elem_of_nil in Hv.
    - cleanb. apply Enx in Hv as [Hv|(c & set & nx & _ & _ & Hs & _)]; [rewrite Hne in Hv; by apply elem_of_nil in Hv|].
      apply set_at_lim in Hs. lia. }
  apply orb_false_iff in Hend as [_ Hend]. cleanb.
  destruct (SparseSet.clear_ok (cur lv1) (so_ok _ Hc1)) as [Q1 Q2].
  assert (Hcs : set_ok (SparseSet.clear (cur lv1))).
  { split; [done|apply (so_capacity _ Hc1)|]. by rewrite Q2. }
  destruct (match at_ with Some a => (a <? S pos)%nat | None => false end) eqn:Hpast.
  { exists false, (swap lv1), o1. do 4 (split; [done|]). split; [done|]. intros Hw. apply Hstep in Hw as (v & _ & Hw).
    assert (Ha : exists a, at_ = Some a /\ a < S pos).
    { clear -Hpast. destruct at_ as [a|]; [|done]. cleanb. by exists a. }
    destruct Ha as (a & Ha & Hlt). by destruct (wins_past (v, S pos) a Ha Hlt). }
  destruct (IH (S pos) (swap lv1) o1) as (found & lv' & o' & G1 & G2 & G3 & G4 & G5); try done; [lia|].
  exists found, lv', o'. do 4 (split; [done|]). rewrite Hstep. exact G5.
Qed.

Definition level_ok (lv : Level) : Prop :=
  length (sparse (cur lv)) = length (dense (cur lv)) /\ length (sparse (next lv)) = length (dense (next lv)).

Lemma resize_set_ok s :
  length (sparse s) = length (dense s) -> set_ok (SparseSet.resize n s) /\ elems (SparseSet.resize n s) = [].
Proof.
  intros Hl. destruct (SparseSet.resize_ok n s Hl) as (H1 & H2 & H3). split; [|done]. split; [done|done|by rewrite H2].
Qed.

(** The walk answers whether some path is accepted. *)
Lemma run_level_ok q lv o :
  level_ok lv -> oinv o ->
  exists found lv' o', run_level hold pr P t wend q at_ lv o = Ok (found, lv', o') /\ oinv o' /\ level_ok lv' /\
    (found = true <-> wins (start P, q)).
Proof.
  intros [L1 L2] Ho. unfold run_level.
  destruct (resize_set_ok _ L1) as [R1 R2]. destruct (resize_set_ok _ L2) as [R3 R4]. cbn [cur next].
  assert (Hst : in_prog (start P)) by (apply lookup_lt_is_Some_1, (wf_start pr P wf)).
  destruct (closure_ok (start P) q (SparseSet.resize n (cur lv)) o R1) as (s & o1 & -> & C2 & C3 & C4 & C5);
    [rewrite R2; intros a b Ha; by apply elem_of_nil in Ha|done|done|].
  cbn [cur next path].
  destruct (run_loop_ok (2 + (wend - q)) q (mk_level s (SparseSet.resize n (next lv)) (path lv)) o1)
    as (found & lv' & o' & -> & G2 & G3 & G4 & G5); cbn [cur next] in *; try done; [lia|].
  eexists found, _, o'. split; [done|]. split; [done|].
  split; [split; [exact (ss_length _ (so_ok _ G3))|exact (ss_length _ (so_ok _ G4))]|].
  rewrite G5. split.
  - intros (v & Hv & Hw). apply C5 in Hv as [Hv|Hv]; [rewrite R2 in Hv; by apply elem_of_nil in Hv|].
    by eapply wins_ereach.
  - intros Hw. exists (start P). split; [|done]. apply C5. right. apply rtc_refl.
Qed.
End run_ok.
End walk_ok.
