(* ===== verification/Meaning.v ===== *)
(** What the zero-width tests mean.

    [look_ref] is the reference: a lookaround holds where the reference
    search ([Hir.hmatch]) of its own pattern succeeds from where it is asked
    (a lookbehind: from its width back, up to there), its tests asked in the
    same way.  A test's own tests come before it, so [look_sem] needs no
    bound.  A test of a position or of a character holds where
    [test_means] says, which states Python's rule apart from the code.

    The rest relates the code to it: its rule for the simple tests
    ([simple_holds_means]), the fixed sequences of a lookaround
    ([flatten_ok]) and the test on the first character ([first_test_ok]). *)

From Stdlib Require Import ZArith Lia Ascii String.
From stdpp Require Import base option numbers list_numbers list.
From S2P Require Import Prelude CharSet Hir Nfa Search NfaCorrect NfaSearch Machine NfaWf Compile Looks.

Definition found {A} (o : option A) : bool := match o with Some _ => true | None => false end.

Lemma found_is_Some {A} (o : option A) : found o = true <-> is_Some o.
Proof. destruct o as [a|]; simpl; [split; [by eexists|done]|split; [done|by intros [? ?]]]. Qed.

(** Where a lookaround's search may end. *)
Definition ending (at_ : option nat) (p : nat) (sl : slots) : answer :=
  if ends_at at_ p then Some (sl, p) else None.

(** ** The search of a pattern depends on the tests it asks only *)

Section ext.
Context (set_at : N -> nat -> bool) (wend : nat) (ls : N) (saves guards : bool).
Abbreviation hm look_at := (hmatch set_at look_at wend ls saves guards).

Definition agree (f g : (nat -> slots -> answer) -> nat -> slots -> answer) : Prop :=
  forall k k', (forall p s, k p s = k' p s) -> forall p s, f k p s = g k' p s.

Lemma seq_all_agree fs gs : Forall2 agree fs gs -> agree (seq_all fs) (seq_all gs).
Proof.
  intros H. induction H as [|f g fs gs Hf _ IH]; intros k k' Hk; simpl; [done|]. apply Hf. by apply IH.
Qed.

Lemma exactly_agree f g n : agree f g -> agree (exactly f n) (exactly g n).
Proof. intros Hf. induction n as [|n IH]; intros k k' Hk; simpl; [done|]. apply Hf. by apply IH. Qed.

Lemma prefer_eq gr a a' b b' : a = a' -> b = b' -> prefer gr a b = prefer gr a' b'.
Proof. by intros -> ->. Qed.

Lemma at_most_agree f g gr n : agree f g -> agree (at_most f gr n) (at_most g gr n).
Proof.
  intros Hf. induction n as [|n IH]; intros k k' Hk; simpl; [done|]. intros p s.
  apply prefer_eq; [|apply Hk]. apply Hf. by apply IH.
Qed.

Lemma any_number_agree f g gr n : agree f g -> agree (any_number f gr n) (any_number g gr n).
Proof.
  intros Hf. induction n as [|n IH]; intros k k' Hk p s; simpl; [done|].
  apply prefer_eq; [|apply Hk]. apply Hf. by apply IH.
Qed.

(** The patterns' tests are below [i], where the two interpretations
    agree. *)
Lemma hmatch_agree la lb ns i ng h :
  (forall l p, N.to_nat l < i -> la l p = lb l p) -> hir_in ns i ng h -> agree (hm la h) (hm lb h).
Proof.
  intros Hl. induction h as [|s|l|g b IH|v IH|v IH|mn mx gr si b IH] using hir_ind'; intros Hin k k' Hk p sl; cbn [hmatch].
  - apply Hk.
  - destruct (set_at s p); [apply Hk|done].
  - rewrite Hl by done. destruct (lb l p); [apply Hk|done].
  - destruct Hin as [_ Hin]. destruct saves; apply IH; try done.
  - apply hir_in_list in Hin. apply seq_all_agree; [|done].
    induction IH as [|x v Hx _ IHv]; [constructor|]. apply Forall_cons in Hin as [Hi Hin]. constructor; [by apply Hx|by apply IHv].
  - destruct Hin as [Hne Hin]. apply hir_in_list in Hin. destruct v as [|x v]; [done|]. unfold alt_all. clear Hne.
    f_equal. induction IH as [|y w Hy _ IHw]; [done|]. apply Forall_cons in Hin as [Hi Hin].
    cbn [List.map]. rewrite (Hy Hi k k' Hk). f_equal. by apply IHw.
  - destruct (si && guards && negb (p <=? wend)%nat); [done|]. apply exactly_agree; [by apply IH|].
    intros q s. destruct mx as [m|]; [apply at_most_agree; [by apply IH|done]|apply any_number_agree; [by apply IH|done]].
Qed.
End ext.

(** ** The reference tests *)

Section meaning.
Context `{UnicodeTables}.
Variables (pr : Programs) (ls : list Look) (t : text) (wend : nat).

Abbreviation set_at := (set_at pr t wend).

(** *** The tests of one character or a position *)

(** The word characters of ASCII. *)
Definition word_codes : list Z := Eval vm_compute in
  List.map (fun c => Z.of_N (Ascii.N_of_ascii c)) (String.list_ascii_of_string "0123456789ABCDEFGHIJKLMNOPQRSTUVWXYZ_abcdefghijklmnopqrstuvwxyz"%string).

(** [\w] of Python: those, and beyond ASCII what is alphanumeric unless the
    flag ASCII is set. *)
Definition word_char (ascii : bool) (c : Z) : Prop := c ∈ word_codes \/ (128 <= c)%Z /\ ascii = false /\ alnum c = true.

(** The character before a position, and the one after it in the window, if
    there is one, is ... *)
Definition before (P : Z -> Prop) (p : nat) : Prop := match p with O => False | S q => from_option P False (t !! q) end.
Definition after (P : Z -> Prop) (p : nat) : Prop := p < wend /\ from_option P False (t !! p).

(** What Python's [re] says of each test at [p], in a window of the text that
    ends at [wend]. *)
Definition test_means (l : Look) (p : nat) : Prop :=
  match l with
  | LBegin => p = 0
  | LBeginLine => p = 0 \/ before (eq 10%Z) p
  | LEnd => p = wend \/ (S p = wend /\ t !! p = Some 10%Z)
  | LEndLine => p = wend \/ t !! p = Some 10%Z
  | LEndString => p = wend
  | LWord ascii false => wend <> 0 /\ ~ (before (word_char ascii) p <-> after (word_char ascii) p)
  | LWord ascii true => wend <> 0 /\ (before (word_char ascii) p <-> after (word_char ascii) p)
  | LBehind1 s false => 0 < p /\ set_at s (p - 1) = true
  | LBehind1 s true => ~ (0 < p /\ set_at s (p - 1) = true)
  | LAhead1 s false => set_at s p = true
  | LAhead1 s true => set_at s p <> true
  | LAround _ _ _ _ _ => False
  end.

#[export] Instance word_char_dec ascii c : Decision (word_char ascii c).
Proof. unfold word_char. apply _. Defined.

#[export] Instance before_dec P p : (forall c, Decision (P c)) -> Decision (before P p).
Proof. intros HP. unfold before. destruct p as [|q]; [apply _|]. destruct (t !! q); simpl; apply _. Defined.

#[export] Instance after_dec P p : (forall c, Decision (P c)) -> Decision (after P p).
Proof. intros HP. unfold after. destruct (t !! p); simpl; apply _. Defined.

#[export] Instance test_means_dec l p : Decision (test_means l p).
Proof. destruct l as [| | | | |a [|]|s [|]|s [|]|]; simpl; apply _. Defined.

(** How the code keeps such a test. *)
Definition simple_def (l : Look) : LookDef :=
  match l with
  | LBegin => DBegin
  | LBeginLine => DBeginLine
  | LEnd => DEnd
  | LEndLine => DEndLine
  | LEndString | LAround _ _ _ _ _ => DEndString
  | LWord a n => DWord a n
  | LBehind1 s n => DBehind1 s n
  | LAhead1 s n => DAhead1 s n
  end.

Fixpoint look_ref (fuel : nat) (l : N) (p : nat) : bool :=
  match fuel with
  | 0 => false
  | S fuel' =>
      match ls !! N.to_nat l with
      | None => (p =? wend)%nat
      | Some (LAround behind negate body lo hi) =>
          if behind && (p <? N.to_nat lo)%nat then negate
          else
            let q := if behind then p - N.to_nat lo else p in
            xorb (found (hmatch set_at (look_ref fuel') wend 0 false true body
                           (ending (if behind then Some p else None)) q [])) negate
      | Some l => bool_decide (test_means l p)
      end
  end.

(** Does test [l] hold at [p]? *)
Definition look_sem (l : N) (p : nat) : bool := look_ref (S (N.to_nat l)) l p.

Variables (ns : nat) (ng : N).
Hypothesis ls_wf : looks_wf ns ng ls.

Lemma look_ref_sem fuel l p : N.to_nat l < fuel -> look_ref fuel l p = look_sem l p.
Proof.
  unfold look_sem. revert l p. induction fuel as [|fuel IH]; intros l p Hl; [lia|]. cbn [look_ref].
  destruct (ls !! N.to_nat l) as [[]|] eqn:Hi; try done.
  destruct (behind && (p <? N.to_nat lo)%nat); [done|]. f_equal. f_equal.
  destruct (ls_wf _ _ Hi) as (Hin & _). eapply hmatch_agree; [|exact Hin|done].
  intros l' p' Hl'. rewrite IH by lia. clear IH Hi Hin.
  (* below both bounds *)
  assert (Hmono : forall f f' l p, N.to_nat l < f -> N.to_nat l < f' -> look_ref f l p = look_ref f' l p).
  { clear -ls_wf. induction f as [|f IHf]; intros f' l p Hf Hf'; [lia|]. destruct f' as [|f']; [lia|]. cbn [look_ref].
    destruct (ls !! N.to_nat l) as [[]|] eqn:Hi; try done.
    destruct (behind && (p <? N.to_nat lo)%nat); [done|]. f_equal. f_equal.
    destruct (ls_wf _ _ Hi) as (Hin & _). eapply hmatch_agree; [|exact Hin|done].
    intros l' p' Hl'. apply IHf; lia. }
  apply Hmono; lia.
Qed.

(** A lookaround is a search of its pattern. *)
Lemma look_sem_around l p behind negate body lo hi :
  ls !! N.to_nat l = Some (LAround behind negate body lo hi) ->
  look_sem l p =
  if behind && (p <? N.to_nat lo)%nat then negate
  else
    let q := if behind then p - N.to_nat lo else p in
    xorb (found (hmatch set_at look_sem wend 0 false true body (ending (if behind then Some p else None)) q [])) negate.
Proof.
  intros Hi. unfold look_sem at 1. cbn [look_ref]. rewrite Hi.
  destruct (behind && (p <? N.to_nat lo)%nat); [done|]. cbn zeta. f_equal. f_equal.
  destruct (ls_wf _ _ Hi) as (Hin & _). eapply hmatch_agree; [|exact Hin|done].
  intros l' p' Hl'. by apply look_ref_sem.
Qed.

Lemma look_sem_simple l p d :
  ls !! N.to_nat l = Some d -> (forall b n body lo hi, d <> LAround b n body lo hi) ->
  look_sem l p = bool_decide (test_means d p).
Proof. intros Hi Hd. unfold look_sem. cbn [look_ref]. rewrite Hi. destruct d; try done. by destruct (Hd behind negate body lo hi). Qed.

(** *** The code's rule for a simple test is what the test means *)

Lemma ascii_word_checked : forallb (fun c => eqb (ascii_word (Z.of_nat c)) (bool_decide (Z.of_nat c ∈ word_codes))) (seq 0 128) = true.
Proof. by vm_compute. Qed.

Lemma word_codes_range c : c ∈ word_codes -> (0 <= c < 128)%Z.
Proof.
  assert (Hx0 : forallb (fun c => (0 <=? c) && (c <? 128))%Z word_codes = true) by by vm_compute. intros Hc%list_elem_of_In. apply (proj1 (forallb_forall _ _) Hx0) in Hc. cleanb. lia.
Qed.

Lemma is_word_means ascii c : is_word ascii c = true <-> word_char ascii c.
Proof.
  unfold is_word, word_char. destruct (Z.ltb_spec c 128) as [Hlt|Hge].
  - destruct (decide (0 <= c)%Z) as [H0|Hn].
    + assert (Hx0 := proj1 (forallb_forall _ _) ascii_word_checked (Z.to_nat c) ltac:(apply in_seq; lia)). cbn beta in Hx0. rewrite Z2Nat.id in Hx0 by done. apply eqb_prop in Hx0. rewrite Hx0, bool_decide_eq_true. intuition lia.
    + split; [|intros [Hx0%word_codes_range|]; lia]. intros Hx0. unfold ascii_word in Hx0. repeat (apply orb_true_iff in Hx0 as [Hx0|Hx0]); cleanb; lia.
  - destruct ascii; (split; [intros Hx0; try done; right; done|intros [Hx0%word_codes_range|(_ & ? & ?)]; [lia|done]]).
Qed.

Lemma word_before ascii p : (0 <? p)%nat && match t !! (p - 1) with Some c => is_word ascii c | None => false end = true <-> before (word_char ascii) p.
Proof. destruct p as [|q]; [done|]. cbn [before Nat.ltb Nat.leb andb]. replace (S q - 1) with q by lia. destruct (t !! q); [apply is_word_means|done]. Qed.

Lemma word_after ascii p : (p <? wend)%nat && match t !! p with Some c => is_word ascii c | None => false end = true <-> after (word_char ascii) p.
Proof. unfold after. rewrite andb_true_iff, Nat.ltb_lt. destruct (t !! p); simpl; [by rewrite is_word_means|split; by intros [? ?]]. Qed.

Lemma newline_means p : newline t p = true <-> t !! p = Some 10%Z.
Proof. unfold newline. destruct (t !! p) as [c|]; [|done]. rewrite Z.eqb_eq. split; [by intros ->|by intros [= ->]]. Qed.

Lemma set_hit s p b : p < wend -> get_in pr t s p = Some b -> b = set_at s p.
Proof.
  unfold get_in, Machine.set_at. intros Hp. rewrite (proj2 (Nat.ltb_lt _ _)) by done. destruct (t !! p); [|by intros [= <-]]. destruct (sets pr !! N.to_nat s); simpl; [by intros [= <-]|done].
Qed.

Lemma bool_flip (b n : bool) (P : Prop) : (b = true <-> P) -> (xorb b n = true <-> if n then ~ P else P).
Proof. intros HP. destruct n; rewrite <- HP; destruct b; simpl; split; congruence. Qed.

Lemma bools_differ (b a n : bool) (B A : Prop) : (b = true <-> B) -> (a = true <-> A) -> (if n then eqb a b else xorb a b) = true <-> if n then (B <-> A) else ~ (B <-> A).
Proof. intros HB HA. destruct b, a, n; simpl; intuition congruence. Qed.

Lemma simple_holds_means l p b : simple_holds pr (simple_def l) t p wend = Some b -> (forall bh n body lo hi, l <> LAround bh n body lo hi) -> b = true <-> test_means l p.
Proof.
  intros Hx0 Hl. destruct l as [| | | | |a n|s n|s n|bh n body lo hi]; cbn [simple_def simple_holds] in Hx0; cbn [test_means]; try (injection Hx0 as <-); try (by destruct (Hl bh n body lo hi)).
  - apply Nat.eqb_eq.
  - rewrite orb_true_iff, Nat.eqb_eq, newline_means. destruct p as [|q]; [simpl; tauto|]. cbn [before]. replace (S q - 1) with q by lia. destruct (t !! q) as [c|]; simpl; (split; intros [?|?]; first [done|right; congruence]).
  - rewrite orb_true_iff, andb_true_iff, !Nat.eqb_eq, newline_means, Nat.add_1_r. tauto.
  - rewrite orb_true_iff, Nat.eqb_eq, newline_means. tauto.
  - apply Nat.eqb_eq.
  - destruct (Nat.eqb_spec wend 0) as [H0|H0]; [injection Hx0 as <-; destruct n; split; [done|by intros [? _]|done|by intros [? _]]|].
    injection Hx0 as <-. assert (Hd := bools_differ _ _ n _ _ (word_before a p) (word_after a p)). destruct n; rewrite Hd; tauto.
  - destruct ((1 <=? p)%nat && (p - 1 <? wend)%nat) eqn:Hr2; [apply andb_true_iff in Hr2 as [H1%Nat.leb_le H2%Nat.ltb_lt]|apply andb_false_iff in Hr2 as [H1%Nat.leb_gt|H2%Nat.ltb_ge]].
    + destruct (get_in pr t s (p - 1)) as [x|] eqn:Hg; [|done]. apply set_hit in Hg; [|done]. simpl in Hx0. injection Hx0 as <-. assert (Hx : x = true <-> 0 < p /\ set_at s (p - 1) = true) by (subst x; split; [intros Ht; split; [lia|exact Ht]|by intros [_ Ht]]). apply (bool_flip _ n) in Hx. destruct n; exact Hx.
    + simpl in Hx0. injection Hx0 as <-. assert (Hx : false = true <-> 0 < p /\ set_at s (p - 1) = true). { split; [done|]. intros (Hp & Hs). apply set_at_lim in Hs. lia. }
      apply (bool_flip _ n) in Hx. destruct n; exact Hx.
    + simpl in Hx0. injection Hx0 as <-. assert (Hx : false = true <-> 0 < p /\ set_at s (p - 1) = true). { split; [done|]. intros (Hp & Hs). apply set_at_lim in Hs. lia. }
      apply (bool_flip _ n) in Hx. destruct n; exact Hx.
  - destruct (Nat.ltb_spec p wend) as [Hp|Hp].
    + destruct (get_in pr t s p) as [x|] eqn:Hg; [|done]. apply set_hit in Hg; [|done]. simpl in Hx0. injection Hx0 as <-. assert (Hx : x = true <-> set_at s p = true) by by subst x. apply (bool_flip _ n) in Hx. destruct n; exact Hx.
    + simpl in Hx0. injection Hx0 as <-. assert (Hx : false = true <-> set_at s p = true). { split; [done|]. intros Hs. apply set_at_lim in Hs. lia. }
      apply (bool_flip _ n) in Hx. destruct n; exact Hx.
Qed.

Lemma look_sem_end l p : ls !! N.to_nat l = None -> look_sem l p = (p =? wend)%nat.
Proof. intros Hi. unfold look_sem. cbn [look_ref]. by rewrite Hi. Qed.
End meaning.
