(* ===== verification/Flat.v ===== *)
(** The fixed sequences of a lookaround ([flatten], [FirstTest] of
    [linre/nfa.rs], [flat_holds] of [linre/looks.rs]) are right: where a
    pattern flattens, its search succeeds exactly when one of the sequences
    matches ([flatten_ok]); a sequence reads as many characters as the
    pattern's width says ([flatten_width]); where the first character is not
    one a sequence begins with, none matches ([first_test_ok]). *)

From Stdlib Require Import ZArith Lia.
From stdpp Require Import base option numbers list_numbers sets list.
From S2P Require Import Prelude CharSet Hir Nfa Search NfaCorrect NfaSearch Machine NfaWf Compile Looks Meaning.

Section flat.
Variable set_at : N -> nat -> bool.
Variable look_at : N -> nat -> bool.
Variable wend : nat.
Hypothesis set_at_lim : forall s p, set_at s p = true -> p < wend.

(** Where a sequence ends. *)
Fixpoint seq_run (s : list Flat) (q : nat) : option nat :=
  match s with
  | [] => Some q
  | FChar set :: s' => if set_at set q then seq_run s' (S q) else None
  | FLook l :: s' => if look_at l q then seq_run s' q else None
  end.

Fixpoint chars (s : list Flat) : nat :=
  match s with [] => 0 | FChar _ :: s' => S (chars s') | FLook _ :: s' => chars s' end.

Lemma chars_app a b : chars (a ++ b) = chars a + chars b.
Proof. induction a as [|[] a IH]; simpl; lia. Qed.

Lemma seq_run_app a b q : seq_run (a ++ b) q = seq_run a q ≫= seq_run b.
Proof. revert q. induction a as [|[] a IH]; intros q; simpl; [done| |]; case_match; done. Qed.

Lemma seq_run_chars s q q' : seq_run s q = Some q' -> q' = q + chars s.
Proof.
  revert q. induction s as [|[] s IH]; intros q; simpl; [intros [= <-]; lia| |]; case_match; try done; intros Hr; apply IH in Hr; lia.
Qed.

Lemma seq_run_lim s q q' : q <= wend -> seq_run s q = Some q' -> q' <= wend.
Proof.
  revert q. induction s as [|[] s IH]; intros q Hq; simpl; [by intros [= <-]| |]; case_match; try done; apply IH; [|done].
  by eapply set_at_lim.
Qed.

(** Some sequence leads to a position that satisfies [Q]. *)
Definition leads (seqs : list (list Flat)) (q : nat) (Q : nat -> Prop) : Prop :=
  exists s q', s ∈ seqs /\ seq_run s q = Some q' /\ Q q'.

Lemma leads_iff seqs q Q Q' : q <= wend -> (forall q', q' <= wend -> Q q' <-> Q' q') -> leads seqs q Q <-> leads seqs q Q'.
Proof.
  intros Hq HQ. split; intros (s & q' & Hs & Hr & Hq'); exists s, q'; (split; [done|]; split; [done|]);
    apply (HQ q'); try done; by eapply seq_run_lim.
Qed.

Lemma leads_nil q Q : leads [[]] q Q <-> Q q.
Proof.
  split; [|intros HQ; exists [], q; split; [left|done]].
  intros (s & q' & Hs & Hr & HQ). apply list_elem_of_singleton in Hs. subst. simpl in Hr. by injection Hr as ->.
Qed.

Lemma leads_app a b q Q : leads (a ++ b) q Q <-> leads a q Q \/ leads b q Q.
Proof.
  split.
  - intros (s & q' & Hs & Hr). apply elem_of_app in Hs as [Hs|Hs]; [left|right]; by exists s, q'.
  - intros [(s & q' & Hs & Hr)|(s & q' & Hs & Hr)]; exists s, q'; (split; [|done]); apply elem_of_app; [by left|by right].
Qed.

Lemma leads_product a b c q Q : product a b = Some c -> leads c q Q <-> leads a q (fun q' => leads b q' Q).
Proof.
  unfold product. case_if; [done|]. intros [= <-]. split.
  - intros (s & q' & Hs & Hr & HQ). apply list_elem_of_In, in_flat_map in Hs as (x & Hx & Hs).
    apply in_map_iff in Hs as (y & <- & Hy). rewrite seq_run_app in Hr.
    destruct (seq_run x q) as [q1|] eqn:E; [|done]. simpl in Hr. exists x, q1. split; [by apply list_elem_of_In|]. split; [done|].
    exists y, q'. split; [by apply list_elem_of_In|done].
  - intros (x & q1 & Hx & H1 & y & q' & Hy & H2 & HQ). exists (x ++ y), q'. split; [|by rewrite seq_run_app, H1].
    apply list_elem_of_In, in_flat_map. exists x. split; [by apply list_elem_of_In|]. apply in_map_iff. exists y.
    split; [done|by apply list_elem_of_In].
Qed.

(** [n] iterations, one after the other. *)
Fixpoint iterate (f : list (list Flat)) (n : nat) (q : nat) (Q : nat -> Prop) : Prop :=
  match n with 0 => Q q | S n' => leads f q (fun q' => iterate f n' q' Q) end.

Lemma iterate_iff f n q Q Q' : q <= wend -> (forall q', q' <= wend -> Q q' <-> Q' q') -> iterate f n q Q <-> iterate f n q Q'.
Proof. intros Hq HQ. revert q Hq. induction n as [|n IH]; intros q Hq; simpl; [by apply HQ|]. apply leads_iff; [done|]. apply IH. Qed.

Lemma iterate_last f n q Q : q <= wend -> iterate f n q (fun q' => leads f q' Q) <-> iterate f (S n) q Q.
Proof. revert q. induction n as [|n IH]; intros q Hq; [done|]. cbn [iterate]. apply leads_iff; [done|]. apply IH. Qed.

(** ** The search of a pattern that flattens *)

Abbreviation hmatch := (hmatch set_at look_at wend 0 false true).
Abbreviation cont := (nat -> slots -> answer).

Definition den (f : cont -> cont) (seqs : list (list Flat)) : Prop := forall k q sl, q <= wend ->
  found (f k q sl) = true <-> leads seqs q (fun q' => found (k q' sl) = true).

Lemma found_prefer gr (a b : answer) : found (prefer gr a b) = true <-> found a = true \/ found b = true.
Proof. destruct gr, a, b; simpl; intuition. Qed.

Lemma den_exactly f seqs n k q sl : den f seqs -> q <= wend ->
  found (exactly f n k q sl) = true <-> iterate seqs n q (fun q' => found (k q' sl) = true).
Proof.
  intros Hf. revert q. induction n as [|n IH]; intros q Hq; [done|]. cbn [exactly iterate]. rewrite (Hf _ _ _ Hq).
  apply leads_iff; [done|]. apply IH.
Qed.

Lemma den_at_most f seqs gr n k q sl : den f seqs -> q <= wend ->
  found (at_most f gr n k q sl) = true <-> exists j, j <= n /\ iterate seqs j q (fun q' => found (k q' sl) = true).
Proof.
  intros Hf. revert q. induction n as [|n IH]; intros q Hq; cbn [at_most].
  - split; [intros Hk; exists 0; split; [lia|done]|]. intros (j & Hj & Hi). by replace j with 0 in Hi by lia.
  - rewrite found_prefer, (Hf _ _ _ Hq). split.
    + intros [(s & q' & Hs & Hr & Hk)|Hk]; [|exists 0; split; [lia|done]].
      apply IH in Hk as (j & Hj & Hi); [|by eapply seq_run_lim]. exists (S j). split; [lia|]. by exists s, q'.
    + intros (j & Hj & Hi). destruct j as [|j]; [by right|]. left. destruct Hi as (s & q' & Hs & Hr & Hi).
      exists s, q'. do 2 (split; [done|]). apply IH; [by eapply seq_run_lim|]. exists j. split; [lia|done].
Qed.

Lemma iterate_add f n m q Q : iterate f (n + m) q Q <-> iterate f n q (fun q' => iterate f m q' Q).
Proof.
  revert q. induction n as [|n IH]; intros q; [done|]. cbn [Nat.add iterate].
  split; intros (s & q' & Hs & Hr & Hi); exists s, q'; (split; [done|]; split; [done|]); by apply IH.
Qed.

Lemma iterate_ex f n q (R : nat -> nat -> Prop) : iterate f n q (fun q' => exists j, R j q') <-> exists j, iterate f n q (R j).
Proof.
  revert q. induction n as [|n IH]; intros q; [done|]. cbn [iterate]. split.
  - intros (s & q' & Hs & Hr & Hi). apply IH in Hi as (j & Hi). exists j, s, q'. done.
  - intros (j & s & q' & Hs & Hr & Hi). exists s, q'. do 2 (split; [done|]). apply IH. by exists j.
Qed.

Lemma iterate_and f n q (A : Prop) (Q : nat -> Prop) : iterate f n q (fun q' => A /\ Q q') -> A /\ iterate f n q Q.
Proof.
  revert q. induction n as [|n IH]; intros q; [done|]. cbn [iterate]. intros (s & q' & Hs & Hr & Hi).
  apply IH in Hi as [HA Hi]. split; [done|]. by exists s, q'.
Qed.

Lemma iterate_mono f n q (Q Q' : nat -> Prop) : (forall q', Q q' -> Q' q') -> iterate f n q Q -> iterate f n q Q'.
Proof.
  intros HQ. revert q. induction n as [|n IH]; intros q; cbn [iterate]; [apply HQ|]. intros (s & q' & Hs & Hr & Hi).
  exists s, q'. do 2 (split; [done|]). by apply IH.
Qed.

(** The powers: after the loop, the sequences of [min] to [max]
    iterations. *)
Lemma flatten_powers_ok f power acc mn k n res q Q :
  q <= wend -> 1 <= k ->
  flatten_powers f power acc mn k n = Some res ->
  (forall Q, leads power q Q <-> iterate f (k - 1) q Q) ->
  leads res q Q <-> leads acc q Q \/ exists j, k <= j /\ mn <= j /\ j < k + n /\ iterate f j q Q.
Proof.
  intros Hq. revert power acc k. induction n as [|n IH]; intros power acc k Hk Hr Hp; cbn [flatten_powers] in Hr.
  { injection Hr as <-. split; [by left|]. intros [Hl|(j & H1 & _ & H2 & _)]; [done|lia]. }
  case_if_in Hr; [done|]. destruct (product power f) as [next|] eqn:Hpr; [|done].
  assert (Hnext : forall Q, leads next q Q <-> iterate f k q Q).
  { intros Q'. rewrite (leads_product _ _ _ _ _ Hpr), Hp, iterate_last by done. by replace (S (k - 1)) with k by lia. }
  assert (Hp' : forall Q, leads next q Q <-> iterate f (S k - 1) q Q)
    by (intros Q'; rewrite Hnext; by replace (S k - 1) with k by lia).
  destruct (Nat.leb_spec mn k) as [Hmn|Hmn].
  - case_if_in Hr; [done|]. rewrite (IH next _ (S k) ltac:(lia) Hr Hp'), leads_app, Hnext. split.
    + intros [[Hl|Hi]|(j & H1 & H2 & H3 & Hi)]; [by left|right; exists k; split; [lia|]; split; [lia|]; split; [lia|done]|].
      right. exists j. split; [lia|]. split; [lia|]. split; [lia|done].
    + intros [Hl|(j & H1 & H2 & H3 & Hi)]; [by left; left|]. destruct (decide (j = k)) as [->|]; [by left; right|].
      right. exists j. split; [lia|]. split; [lia|]. split; [lia|done].
  - rewrite (IH next _ (S k) ltac:(lia) Hr Hp'). split.
    + intros [Hl|(j & H1 & H2 & H3 & Hi)]; [by left|]. right. exists j. split; [lia|]. split; [lia|]. split; [lia|done].
    + intros [Hl|(j & H1 & H2 & H3 & Hi)]; [by left|]. right. exists j. split; [lia|]. split; [lia|]. split; [lia|done].
Qed.

Lemma flatten_concat_ok fs os acc res f0 :
  Forall2 (fun f o => forall seqs, o = Some seqs -> den f seqs) fs os -> den f0 acc ->
  fold_left (fun acc f => match acc, f with
    | Some acc, Some f => if (MAX_FLAT <? length acc * length f)%nat then None else product acc f
    | _, _ => None end) os (Some acc) = Some res ->
  den (fun k => f0 (seq_all fs k)) res.
Proof.
  intros H. revert acc f0. induction H as [|f o fs os Hf _ IH]; intros acc f0 H0 Hr; cbn [fold_left] in Hr.
  { by injection Hr as <-. }
  assert (Hnone : forall os : list (option (list (list Flat))), fold_left (fun acc f => match acc, f with
    | Some acc, Some f => if (MAX_FLAT <? length acc * length f)%nat then None else product acc f
    | _, _ => None end) os None = None) by (intros l; by induction l).
  destruct o as [seqs|]; [|by rewrite Hnone in Hr]. case_if_in Hr; [by rewrite Hnone in Hr|].
  destruct (product acc seqs) as [next|] eqn:Hp; [|by rewrite Hnone in Hr].
  apply (IH next (fun k => f0 (f k))); [|done]. intros k q sl Hq.
  rewrite (H0 _ _ _ Hq), (leads_product _ _ _ _ _ Hp). apply leads_iff; [done|]. intros q' Hq'. by apply Hf.
Qed.

Lemma flatten_alt_ok (fs : list (cont -> cont)) os acc res k q sl :
  Forall2 (fun f o => forall seqs, o = Some seqs -> den f seqs) fs os -> q <= wend ->
  fold_left (fun acc f => match acc, f with
    | Some acc, Some f => let acc := acc ++ f in if (MAX_FLAT <? length acc)%nat then None else Some acc
    | _, _ => None end) os (Some acc) = Some res ->
  leads res q (fun q' => found (k q' sl) = true) <->
  leads acc q (fun q' => found (k q' sl) = true) \/ found (alt_all (List.map (fun f => f k q sl) fs)) = true.
Proof.
  intros H Hq. revert acc. induction H as [|f o fs os Hf _ IH]; intros acc Hr; cbn [fold_left] in Hr.
  { injection Hr as <-. split; [by left|]. by intros [|]. }
  assert (Hnone : forall os : list (option (list (list Flat))), fold_left (fun acc f => match acc, f with
    | Some acc, Some f => let acc := acc ++ f in if (MAX_FLAT <? length acc)%nat then None else Some acc
    | _, _ => None end) os None = None) by (intros l; by induction l).
  destruct o as [seqs|]; [|by rewrite Hnone in Hr]. cbn zeta in Hr. case_if_in Hr; [by rewrite Hnone in Hr|].
  rewrite (IH _ Hr), leads_app, <- (Hf seqs eq_refl k q sl Hq). cbn [List.map alt_all foldr].
  change (foldr opt_or None (List.map (fun f => f k q sl) fs)) with (alt_all (List.map (fun f => f k q sl) fs)).
  destruct (f k q sl); simpl; [|by intuition].
  split; [|by intros [|]; [left; left|left; right]].
  intros [[|]|]; [by left|by right|by right].
Qed.

Lemma flatten_ok ns nl ng ls h seqs : hir_wf h -> hir_in ns nl ng h -> flatten h ls = Some seqs -> den (hmatch h) seqs.
Proof.
  revert seqs. induction h as [|c|l|g b IH|v IH|v IH|mn mx gr si b IH] using hir_ind'; intros seqs Hw Hn Hf k q sl Hq;
    cbn [flatten] in Hf; cbn [Hir.hmatch].
  - injection Hf as <-. by rewrite leads_nil.
  - injection Hf as <-. split.
    + destruct (set_at c q) eqn:Hc; [|done]. intros Hk. exists [FChar c], (S q). split; [left|]. simpl. by rewrite Hc.
    + intros (s & q' & Hs & Hr & Hk). apply list_elem_of_singleton in Hs as ->. simpl in Hr.
      destruct (set_at c q); [|done]. by injection Hr as <-.
  - assert (Hs : seqs = [[FLook l]]) by (destruct (ls !! N.to_nat l) as [[]|]; try done; by injection Hf as <-).
    subst seqs. split.
    + destruct (look_at l q) eqn:Hc; [|done]. intros Hk. exists [FLook l], q. split; [left|]. simpl. by rewrite Hc.
    + intros (s & q' & Hs & Hr & Hk). apply list_elem_of_singleton in Hs as ->. simpl in Hr.
      destruct (look_at l q); [|done]. by injection Hr as <-.
  - destruct Hw as [_ Hw]. destruct Hn as [_ Hn]. by apply IH.
  - apply hir_wf_list in Hw. apply hir_in_list in Hn. unfold flatten_concat in Hf.
    apply (flatten_concat_ok (List.map hmatch v) (List.map (fun x => flatten x ls) v) [[]] seqs (fun k => k)); try done.
    + clear Hf. induction IH as [|x v Hx _ IHv]; [constructor|]. apply Forall_cons in Hw as [Hwx Hw]. apply Forall_cons in Hn as [Hnx Hn].
      constructor; [|by apply IHv]. intros seqs' He. by apply Hx.
    + intros k' q' sl' _. by rewrite leads_nil.
  - apply hir_wf_list in Hw. destruct Hn as [Hne Hn]. apply hir_in_list in Hn. unfold flatten_alt in Hf.
    replace (match v with [] => k q sl | _ => alt_all (List.map (fun x => hmatch x k q sl) v) end)
      with (alt_all (List.map (fun x => hmatch x k q sl) v)) by (by destruct v). clear Hne.
    rewrite (flatten_alt_ok (List.map hmatch v) (List.map (fun x => flatten x ls) v) [] seqs k q sl); try done.
    + rewrite List.map_map. split; [by right|]. intros [(s & q' & Hs & _)|]; [by apply elem_of_nil in Hs|done].
    + clear -IH Hw Hn. induction IH as [|x w Hx _ IHv]; [constructor|]. apply Forall_cons in Hw as [Hwx Hw]. apply Forall_cons in Hn as [Hnx Hn].
      constructor; [|by apply IHv]. intros seqs' He. by apply Hx.
  - destruct Hw as [Hw Hmx]. destruct mx as [m|]; [|done]. destruct (flatten b ls) as [f|]; [|done].
    specialize (IH f Hw Hn eq_refl). rewrite (proj2 (Nat.leb_le q wend)) by done. cbn [negb]. rewrite andb_false_r.
    rewrite den_exactly by done. rewrite (flatten_powers_ok f [[]] _ _ 1 _ seqs q _ Hq (le_n 1) Hf);
      [|intros Q; by rewrite leads_nil].
    rewrite (iterate_iff f _ q _ (fun q' => exists j, j <= N.to_nat (m - mn) /\ iterate f j q' (fun q'' => found (k q'' sl) = true)) Hq);
      [|intros q' Hq'; by apply den_at_most].
    assert (Hit : iterate f (N.to_nat mn) q (fun q' => exists j, j <= N.to_nat (m - mn) /\ iterate f j q' (fun q'' => found (k q'' sl) = true)) <->
      exists j, N.to_nat mn <= j /\ j <= N.to_nat m /\ iterate f j q (fun q' => found (k q' sl) = true)).
    { rewrite iterate_ex. split.
      - intros (j & Hi). apply iterate_and in Hi as [Hj Hi]. exists (N.to_nat mn + j). rewrite iterate_add.
        split; [lia|]. split; [lia|done].
      - intros (j & H1 & H2 & Hi). exists (j - N.to_nat mn).
        replace j with (N.to_nat mn + (j - N.to_nat mn)) in Hi by lia. rewrite iterate_add in Hi.
        eapply iterate_mono; [|exact Hi]. intros q' Hq'. split; [lia|done]. }
    rewrite Hit. split.
    + intros (j & H1 & H2 & Hi). destruct j as [|j].
      * left. rewrite (proj2 (N.eqb_eq mn 0)) by lia. by rewrite leads_nil.
      * right. exists (S j). split; [lia|]. split; [lia|]. split; [lia|done].
    + intros [Hl|(j & H1 & H2 & H3 & Hi)]; [|exists j; split; [lia|]; split; [lia|done]].
      destruct (N.eqb_spec mn 0) as [->|]; [|destruct Hl as (s & q' & Hs & _); by apply elem_of_nil in Hs].
      exists 0. split; [lia|]. split; [lia|]. by rewrite leads_nil in Hl.
Qed.
End flat.

(** ** The sequences of a pattern *)

Section flatten_ind.
Variable ls : list Look.
Variable Q : Hir -> list Flat -> Prop.
Hypothesis Q_empty : Q HEmpty [].
Hypothesis Q_char : forall s, Q (HChar s) [FChar s].
Hypothesis Q_look : forall l d, ls !! N.to_nat l = Some d -> (forall b n body lo hi, d <> LAround b n body lo hi) -> Q (HLook l) [FLook l].
Hypothesis Q_group : forall g b s, Q b s -> Q (HGroup g b) s.
Hypothesis Q_concat : forall v ss, Forall2 Q v ss -> Q (HConcat v) (concat ss).
Hypothesis Q_alt : forall v x s, x ∈ v -> Q x s -> Q (HAlt v) s.
Hypothesis Q_repeat : forall mn m gr si b ss, Forall (Q b) ss -> N.to_nat mn <= length ss -> length ss <= N.to_nat m ->
  Q (HRepeat mn (Some m) gr si b) (concat ss).

Lemma product_in a b c s : product a b = Some c -> s ∈ c -> exists x y, x ∈ a /\ y ∈ b /\ s = x ++ y.
Proof.
  unfold product. case_if; [done|]. intros [= <-] Hs. apply list_elem_of_In, in_flat_map in Hs as (x & Hx & Hs).
  apply in_map_iff in Hs as (y & <- & Hy). exists x, y. by rewrite !list_elem_of_In.
Qed.

Lemma flatten_concat_in v acc res s w :
  Forall (fun h => forall seqs s, flatten h ls = Some seqs -> s ∈ seqs -> Q h s) v ->
  (forall s, s ∈ acc -> exists ss, Forall2 Q w ss /\ s = concat ss) ->
  fold_left (fun acc f => match acc, f with
    | Some acc, Some f => if (MAX_FLAT <? length acc * length f)%nat then None else product acc f
    | _, _ => None end) (List.map (fun x => flatten x ls) v) (Some acc) = Some res ->
  s ∈ res -> exists ss, Forall2 Q (w ++ v) ss /\ s = concat ss.
Proof.
  intros H. revert acc w. induction H as [|x v Hx _ IH]; intros acc w Hacc Hr Hs; cbn [List.map fold_left] in Hr.
  { injection Hr as <-. rewrite app_nil_r. by apply Hacc. }
  assert (Hnone : forall os : list (option (list (list Flat))), fold_left (fun acc f => match acc, f with
    | Some acc, Some f => if (MAX_FLAT <? length acc * length f)%nat then None else product acc f
    | _, _ => None end) os None = None) by (intros l; by induction l).
  destruct (flatten x ls) as [f|] eqn:Hf; [|by rewrite Hnone in Hr]. case_if_in Hr; [by rewrite Hnone in Hr|].
  destruct (product acc f) as [next|] eqn:Hp; [|by rewrite Hnone in Hr].
  destruct (IH next (w ++ [x])) as (ss & Hss & ->); [|done|done|exists ss; by rewrite <- app_assoc in Hss].
  intros s' Hs'. destruct (product_in _ _ _ _ Hp Hs') as (a & b & Ha & Hb & ->).
  destruct (Hacc a Ha) as (ss & Hss & ->). exists (ss ++ [b]). split.
  - apply Forall2_app; [done|]. constructor; [|constructor]. by apply (Hx f).
  - rewrite concat_app. simpl. by rewrite app_nil_r.
Qed.

Lemma flatten_powers_in b f power acc mn m k n res s :
  (forall s, s ∈ f -> Q b s) ->
  (forall s, s ∈ power -> exists ss, Forall (Q b) ss /\ S (length ss) = k /\ s = concat ss) ->
  (forall s, s ∈ acc -> exists ss, Forall (Q b) ss /\ mn <= length ss /\ length ss <= m /\ s = concat ss) ->
  k + n <= S m ->
  flatten_powers f power acc mn k n = Some res -> s ∈ res ->
  exists ss, Forall (Q b) ss /\ mn <= length ss /\ length ss <= m /\ s = concat ss.
Proof.
  intros Hf. revert power acc k. induction n as [|n IH]; intros power acc k Hp Ha Hk Hr Hs; cbn [flatten_powers] in Hr.
  { injection Hr as <-. by apply Ha. }
  case_if_in Hr; [done|]. destruct (product power f) as [next|] eqn:Hpr; [|done].
  assert (Hn : forall s, s ∈ next -> exists ss, Forall (Q b) ss /\ S (length ss) = S k /\ s = concat ss).
  { intros s' Hs'. destruct (product_in _ _ _ _ Hpr Hs') as (x & y & Hx & Hy & ->).
    destruct (Hp x Hx) as (ss & Hss & Hl & ->). exists (ss ++ [y]). rewrite length_app, concat_app. simpl. rewrite app_nil_r.
    split; [apply Forall_app; split; [done|]; constructor; [by apply Hf|done]|]. split; [lia|done]. }
  destruct (Nat.leb_spec mn k) as [Hmn|Hmn].
  - case_if_in Hr; [done|]. apply (IH next (acc ++ next) (S k)); try done; [|lia].
    intros s' Hs'. apply elem_of_app in Hs' as [Hs'|Hs']; [by apply Ha|]. destruct (Hn s' Hs') as (ss & H1 & H2 & ->).
    exists ss. split; [done|]. split; [lia|]. split; [lia|done].
  - apply (IH next acc (S k)); try done. lia.
Qed.

Lemma flatten_ind h seqs s : flatten h ls = Some seqs -> s ∈ seqs -> Q h s.
Proof.
  revert seqs s. induction h as [|c|l|g b IH|v IH|v IH|mn mx gr si b IH] using hir_ind'; intros seqs s Hf Hs; cbn [flatten] in Hf.
  - injection Hf as <-. by apply list_elem_of_singleton in Hs as ->.
  - injection Hf as <-. by apply list_elem_of_singleton in Hs as ->.
  - destruct (ls !! N.to_nat l) as [d|] eqn:Hd; [|done].
    destruct d; try done; injection Hf as <-; apply list_elem_of_singleton in Hs as ->; by eapply Q_look.
  - apply Q_group. by eapply IH.
  - destruct (flatten_concat_in v [[]] seqs s [] IH) as (ss & Hss & ->); [|exact Hf|done|by apply Q_concat].
    intros s' Hs'. apply list_elem_of_singleton in Hs' as ->. exists []. by split.
  - unfold flatten_alt in Hf.
    assert (Hgen : forall w acc, (forall s, s ∈ acc -> exists x, x ∈ v /\ Q x s) -> w ⊆ v ->
      Forall (fun h => forall seqs s, flatten h ls = Some seqs -> s ∈ seqs -> Q h s) w ->
      fold_left (fun acc f => match acc, f with
        | Some acc, Some f => let acc := acc ++ f in if (MAX_FLAT <? length acc)%nat then None else Some acc
        | _, _ => None end) (List.map (fun x => flatten x ls) w) (Some acc) = Some seqs -> exists x, x ∈ v /\ Q x s).
    { clear Hf IH. intros w. induction w as [|x w IHw]; intros acc Ha Hsub HQ Hr; cbn [List.map fold_left] in Hr.
      - injection Hr as <-. by apply Ha.
      - apply Forall_cons in HQ as [Hx HQ].
        assert (Hnone : forall os : list (option (list (list Flat))), fold_left (fun acc f => match acc, f with
          | Some acc, Some f => let acc := acc ++ f in if (MAX_FLAT <? length acc)%nat then None else Some acc
          | _, _ => None end) os None = None) by (intros l; by induction l).
        destruct (flatten x ls) as [f|] eqn:Hf; [|by rewrite Hnone in Hr]. cbn zeta in Hr.
        case_if_in Hr; [by rewrite Hnone in Hr|]. apply (IHw (acc ++ f)); try done; [|set_solver].
        intros s' Hs'. apply elem_of_app in Hs' as [Hs'|Hs']; [by apply Ha|]. exists x. split; [apply Hsub; left|]. by eapply Hx. }
    destruct (Hgen v []) as (x & Hx & HQ); try done; [intros s' Hs'; by apply elem_of_nil in Hs'|]. by eapply Q_alt.
  - destruct mx as [m|]; [|done]. destruct (flatten b ls) as [f|] eqn:Hb; [|done].
    eapply (flatten_powers_in b _ _ _ (N.to_nat mn) (N.to_nat m)) in Hf as (ss & H1 & H2 & H3 & ->); [by apply Q_repeat| | | |lia|done].
    + intros s' Hs'. by eapply IH.
    + intros s' Hs'. apply list_elem_of_singleton in Hs' as ->. by exists [].
    + intros s' Hs'. destruct (N.eqb_spec mn 0) as [->|]; [|by apply elem_of_nil in Hs'].
      apply list_elem_of_singleton in Hs' as ->. exists []. split; [done|]. split; [simpl; lia|]. split; [simpl; lia|done].
Qed.
End flatten_ind.

(** *** Their width *)

(** [n] characters are within a width ([u64::MAX] where it saturated). *)
Definition within_width (w : Z * option Z) (n : nat) : Prop :=
  (fst w <= Z.of_nat n)%Z /\ match snd w with Some b => (Z.of_nat n <= b \/ U64_MAX <= b)%Z | None => True end.

Lemma width_hi_nonneg h b : snd (width h) = Some b -> (0 <= b)%Z.
Proof.
  revert b. induction h as [| | |g h IH|v IH|v IH|mn mx gr si h IH] using hir_ind'; intros b; cbn [width snd]; try (by intros [= <-]); try apply IH.
  - assert (Hgen : forall acc b, (forall b, snd acc = Some b -> (0 <= b)%Z) ->
      snd (fold_left (fun acc w => (sat_add U64_MAX (fst acc) (fst w), hi_add (snd acc) (snd w))) (List.map width v) acc) = Some b -> (0 <= b)%Z).
    { induction IH as [|x v Hx _ IHv]; intros acc b' Ha; cbn [List.map fold_left]; [apply Ha|]. apply IHv. cbn [snd].
      intros b0. unfold hi_add. destruct (snd acc) as [p|]; [|done]. destruct (snd (width x)) as [q|]; [|done].
      intros [= <-]. specialize (Ha p eq_refl). specialize (Hx q eq_refl). unfold sat_add, U64_MAX. lia. }
    apply Hgen. by intros ? [= <-].
  - assert (Hgen : forall acc b, (forall b, snd acc = Some b -> (0 <= b)%Z) ->
      snd (fold_left (fun acc w => (Z.min (fst acc) (fst w), hi_max (snd acc) (snd w))) (List.map width v) acc) = Some b -> (0 <= b)%Z).
    { clear -IH. induction IH as [|x v Hx _ IHv]; intros acc b' Ha; cbn [List.map fold_left]; [apply Ha|]. apply IHv. cbn [snd].
      intros b0. unfold hi_max. destruct (snd acc) as [p|]; [|done]. destruct (snd (width x)) as [q|]; [|done].
      intros [= <-]. specialize (Ha p eq_refl). lia. }
    apply Hgen. by intros ? [= <-].
  - destruct (width h) as [a [q|]]; cbn [snd] in *; [|by destruct mx].
    specialize (IH q eq_refl). case_if; [by intros [= <-]|]. destruct mx as [m|]; [|done]. intros [= <-].
    unfold sat_mul, U64_MAX. nia.
Qed.

Lemma width_concat_ok v ns acc n :
  Forall2 (fun h n => within_width (width h) n) v ns -> within_width acc n -> (0 <= fst acc)%Z ->
  within_width (fold_left (fun acc w => (sat_add U64_MAX (fst acc) (fst w), hi_add (snd acc) (snd w))) (List.map width v) acc)
    (n + sum_list ns).
Proof.
  intros H. revert acc n. induction H as [|h k v ns [Hlo Hhi] _ IH]; intros acc n [Alo Ahi] H0; cbn [List.map fold_left sum_list].
  { by rewrite Nat.add_0_r. }
  rewrite Nat.add_assoc. change (id k) with k. apply IH; [|cbn [fst]; pose proof (width_nonneg h); unfold sat_add, U64_MAX; lia]. split; cbn [fst snd].
  - unfold sat_add. lia.
  - unfold hi_add. destruct (snd acc) as [p|]; [|done]. destruct (snd (width h)) as [q|] eqn:Hq; [|done].
    assert (Hq0 := width_hi_nonneg _ _ Hq). unfold sat_add in *. unfold U64_MAX in *. lia.
Qed.

Lemma width_alt_ok v x n :
  x ∈ v -> within_width (width x) n ->
  within_width (fold_left (fun acc w => (Z.min (fst acc) (fst w), hi_max (snd acc) (snd w))) (List.map width v) (U64_MAX, Some 0%Z)) n.
Proof.
  intros Hx Hn.
  assert (Hmono : forall v acc, let r := fold_left (fun acc w => (Z.min (fst acc) (fst w), hi_max (snd acc) (snd w))) (List.map width v) acc in
    (fst r <= fst acc)%Z /\ match snd r with Some b => exists p, snd acc = Some p /\ (p <= b)%Z | None => True end).
  { clear. induction v as [|y v IH]; intros acc; cbn [List.map fold_left]; cbn zeta.
    - split; [lia|]. destruct (snd acc) as [p|]; [|done]. exists p. split; [done|lia].
    - destruct (IH (Z.min (fst acc) (fst (width y)), hi_max (snd acc) (snd (width y)))) as [H1 H2]. cbn [fst snd] in *. split; [lia|].
      destruct (snd (fold_left _ _ _)) as [b|]; [|done]. destruct H2 as (p & Hp & Hle). unfold hi_max in Hp.
      destruct (snd acc) as [p'|]; [|done]. destruct (snd (width y)); [|done]. injection Hp as <-. exists p'. split; [done|lia]. }
  assert (Hgen : forall acc, within_width (fold_left (fun acc w => (Z.min (fst acc) (fst w), hi_max (snd acc) (snd w))) (List.map width v) acc) n).
  { induction v as [|y v IH]; [by apply elem_of_nil in Hx|]. intros acc. cbn [List.map fold_left].
    apply elem_of_cons in Hx as [->|Hx]; [|by apply IH]. destruct Hn as [Hlo Hhi].
    destruct (Hmono v (Z.min (fst acc) (fst (width y)), hi_max (snd acc) (snd (width y)))) as [H1 H2]. cbn [fst snd] in *.
    split; [lia|]. destruct (snd (fold_left _ _ _)) as [b|]; [|done]. destruct H2 as (p & Hp & Hle). unfold hi_max in Hp.
    destruct (snd acc) as [p'|]; [|done]. destruct (snd (width y)) as [q|]; [|done]. injection Hp as <-. lia. }
  apply Hgen.
Qed.

Lemma flatten_width ls h seqs s : flatten h ls = Some seqs -> s ∈ seqs -> within_width (width h) (chars s).
Proof.
  apply (flatten_ind ls (fun h s => within_width (width h) (chars s))).
  - split; simpl; lia.
  - intros c. split; simpl; lia.
  - intros l d _ _. split; simpl; lia.
  - done.
  - intros v ss Hss. cbn [width].
    assert (Hc : chars (concat ss) = sum_list (List.map chars ss)).
    { clear. induction ss as [|s ss IH]; simpl; [done|]. by rewrite chars_app, IH. }
    rewrite Hc. apply (width_concat_ok v _ (0%Z, Some 0%Z) 0); [|split; simpl; lia|simpl; lia].
    clear Hc. induction Hss; simpl; constructor; done.
  - intros v x s' Hx Hs'. cbn [width]. assert (Hr := width_alt_ok v x _ Hx Hs').
    destruct v as [|y v]; [by apply elem_of_nil in Hx|]. split; [apply Hr|apply (proj2 Hr)].
  - intros mn m gr si b ss Hss Hmin Hmax. cbn [width]. pose proof (width_nonneg b) as Ha.
    assert (Hc : (fst (width b) * Z.of_nat (length ss) <= Z.of_nat (chars (concat ss)))%Z /\
      match snd (width b) with Some q => (Z.of_nat (chars (concat ss)) <= q * Z.of_nat (length ss) \/ (U64_MAX <= q /\ 1 <= Z.of_nat (length ss)))%Z | None => True end).
    { clear Hmin Hmax. induction Hss as [|s' ss [Hlo Hhi] _ [IH1 IH2]]; cbn [concat length chars].
      - split; [lia|]. destruct (snd (width b)); [|done]. left. simpl. lia.
      - rewrite chars_app, Nat2Z.inj_add, Nat2Z.inj_succ. split; [nia|]. destruct (snd (width b)) as [q|]; [|done]. nia. }
    destruct Hc as [Hc1 Hc2]. destruct (width b) as [a hi] eqn:Hw. cbn [fst snd] in *.
    split; cbn [fst snd].
    + unfold sat_mul. nia.
    + destruct hi as [q|]; [|done]. assert (Hq : (0 <= q)%Z) by (apply (width_hi_nonneg b); by rewrite Hw).
      destruct (Z.eqb_spec q 0) as [->|Hq0]; [left; unfold U64_MAX in *; lia|]. unfold sat_mul.
      assert (HU : (0 < U64_MAX)%Z) by done. destruct Hc2 as [Hc2|[Hc2 Hc3]]; [|right; nia].
      destruct (Z.le_gt_cases (q * Z.of_N m) U64_MAX); [left; rewrite Z.min_r by lia; nia|right; lia].
Qed.

(** What they name. *)
Definition flat_in (ns nl : nat) (ls : list Look) (s : list Flat) : Prop :=
  Forall (fun f => match f with
    | FChar c => N.to_nat c < ns
    | FLook l => N.to_nat l < nl /\ exists d, ls !! N.to_nat l = Some d /\ forall b n body lo hi, d <> LAround b n body lo hi
    end) s.

Lemma flatten_in ns nl ng ls h seqs s : flatten h ls = Some seqs -> s ∈ seqs -> hir_in ns nl ng h -> flat_in ns nl ls s.
Proof.
  apply (flatten_ind ls (fun h s => hir_in ns nl ng h -> flat_in ns nl ls s)).
  - constructor.
  - intros c Hc. by repeat constructor.
  - intros l d Hd Hs Hl. constructor; [|constructor]. split; [done|]. by exists d.
  - intros g b s' IH [_ Hn]. by apply IH.
  - intros v ss Hss Hn. apply hir_in_list in Hn. induction Hss as [|h' s' v ss Hs' _ IH]; [constructor|].
    apply Forall_cons in Hn as [Hn1 Hn2]. apply Forall_app. split; [by apply Hs'|by apply IH].
  - intros v x s' Hx IH [_ Hn]. apply hir_in_list in Hn. rewrite Forall_forall in Hn. by apply IH, Hn.
  - intros mn m gr si b ss Hss _ _ Hn. induction Hss as [|s' ss Hs' _ IH]; [constructor|].
    apply Forall_app. split; [by apply Hs'|by apply IH].
Qed.

(** *** Their first character *)

Definition canonical_sets (ss : list CharSet) : Prop := Forall canonical ss.

Lemma ascii_mask_in cs c : canonical cs -> (0 <= c < 128)%Z -> contains cs c = true -> Z.testbit (ascii_mask cs) c = true.
Proof.
  intros Hc Hr Hin. unfold ascii_mask. rewrite (ascii_mask_testbit 0) by (done || lia). rewrite Z.testbit_0_l. simpl.
  rewrite bool_decide_eq_true_2 by lia. simpl. apply (scan_spec c 0 _ Hc). by apply contains_iff in Hin.
Qed.

Lemma non_ascii_in cs c : canonical cs -> (128 <= c)%Z -> contains cs c = true -> has_non_ascii cs = true.
Proof.
  intros Hc Hge Hin. apply contains_iff in Hin; [|done]. unfold has_non_ascii. unfold elem_of, charset_elem_of in Hin.
  destruct cs as [l]. cbn [cs_ranges] in *. apply Exists_exists in Hin as ([a b] & Hab & Hle). cbn [fst snd] in Hle.
  assert (Hgen : forall l lo, canon_from lo l -> (a, b) ∈ l -> exists r, last l = Some r /\ (b <= snd r)%Z).
  { clear. induction l as [|[x y] l IH]; intros lo Hl Hin; [by apply elem_of_nil in Hin|]. cbn [canon_from] in Hl.
    destruct Hl as (H1 & H2 & H3 & H4). apply elem_of_cons in Hin as [Heq|Hin].
    - injection Heq as <- <-. destruct l as [|[x' y'] l]; [by eexists|].
      destruct (last_is_Some ((x', y') :: l)) as [_ Hl]. destruct (Hl ltac:(done)) as [r Hr].
      assert (Hlast : forall l lo r, canon_from lo l -> last l = Some r -> (lo <= snd r)%Z).
      { clear. induction l as [|[p q] l IH]; intros lo r Hl Hr; [done|]. destruct Hl as (H1 & H2 & H3 & H4).
        destruct l as [|z l]; [injection Hr as <-; simpl; lia|]. apply (IH (q + 2)%Z) in Hr; [lia|done]. }
      exists r. split; [done|]. apply (Hlast _ (b + 2)%Z) in Hr; [lia|done].
    - destruct (IH _ H4 Hin) as (r & Hr & Hle). exists r. split; [|done]. destruct l; [done|exact Hr]. }
  destruct (Hgen l 0%Z Hc Hab) as (r & Hr & Hle').
  unfold has_non_ascii in *. cbn [cs_ranges]. rewrite Hr. destruct r. apply Z.leb_le. simpl in *. lia.
Qed.

Definition first_ok (f : FirstTest) (ss : list CharSet) (s : list Flat) : Prop :=
  exists set s', s = FChar set :: s' /\ forall cs c, ss !! N.to_nat set = Some cs -> (0 <= c)%Z -> contains cs c = true ->
    if (c <? 128)%Z then Z.testbit (ft_ascii f) c = true else ft_other f = true.

Lemma first_test_ok seqs ss f s :
  canonical_sets ss -> first_test_of seqs ss = Some (Some f) -> s ∈ seqs -> first_ok f ss s.
Proof.
  intros Hcs. unfold first_test_of.
  assert (Hgen : forall seqs f0, first_test_loop f0 seqs ss = Some (Some f) ->
    (forall c, Z.testbit (ft_ascii f0) c = true -> Z.testbit (ft_ascii f) c = true) /\
    (ft_other f0 = true -> ft_other f = true) /\ forall s, s ∈ seqs -> first_ok f ss s).
  { clear seqs s. induction seqs as [|s seqs IH]; intros f0; cbn [first_test_loop].
    - intros [= <-]. split; [done|]. split; [done|]. intros s Hs. by apply elem_of_nil in Hs.
    - destruct s as [|[set|] s']; try done. destruct (ss !! N.to_nat set) as [cs0|] eqn:Hcs0; [|done].
      intros Hr. destruct (IH _ Hr) as (G1 & G2 & G3). cbn [ft_ascii ft_other] in G1, G2.
      split; [intros c Hc; apply G1; by rewrite Z.lor_spec, Hc|]. split; [intros Ho; apply G2; by rewrite Ho|].
      intros s Hs. apply elem_of_cons in Hs as [->|Hs]; [|by apply G3]. exists set, s'. split; [done|].
      intros cs c Hset H0 Hin. assert (Hcan : canonical cs) by (apply (Forall_lookup_1 _ _ _ _ Hcs Hset)).
      assert (cs0 = cs) as -> by congruence. destruct (Z.ltb_spec c 128).
      + apply G1. rewrite Z.lor_spec, (ascii_mask_in cs c Hcan) by (done || lia). apply orb_true_r.
      + apply G2. rewrite (non_ascii_in cs c Hcan) by (done || lia). apply orb_true_r. }
  intros Hr Hs. by apply (Hgen seqs _ Hr).
Qed.

Lemma may_begin_ok f c : (0 <= c)%Z -> (if (c <? 128)%Z then Z.testbit (ft_ascii f) c = true else ft_other f = true) -> may_begin f c = true.
Proof.
  intros Hc Hb. unfold may_begin. destruct (c <? 128)%Z; [|done]. apply negb_true_iff, Z.eqb_neq. intros Hz.
  assert (Ht : Z.testbit (Z.land (ft_ascii f) (Z.shiftl 1 c)) c = true).
  { rewrite Z.land_spec, Hb, Z.shiftl_1_l, Z.pow2_bits_true by done. done. }
  by rewrite Hz, Z.testbit_0_l in Ht.
Qed.

(** ** The code's run of them *)

Section holds.
Context `{UnicodeTables}.
Variables (h : Hir) (ss : list CharSet) (ls : list Look) (ng : N) (pr : Programs).
Variables (t : text) (wend : nat).
Hypothesis comp : compiled h ss ls ng pr.
Hypothesis ls_wf : looks_wf (length ss) ng ls.
Hypothesis text_end : wend <= length t.
Hypothesis text_chars : Forall (fun c => 0 <= c)%Z t.
Hypothesis sets_canonical : canonical_sets (sets pr).

Abbreviation set_at := (set_at pr t wend).
Abbreviation look_sem := (look_sem pr ls t wend).
Abbreviation seq_run := (seq_run set_at look_sem).

(** A set of the pattern is there, wherever it is asked. *)
Lemma get_in_some set p : N.to_nat set < length ss -> is_Some (get_in pr t set p).
Proof.
  intros Hs. unfold get_in. destruct (t !! p); [|by eexists].
  destruct (lookup_lt_is_Some_2 ss _ Hs) as [cs Hcs]. apply (cp_set _ _ _ _ _ comp) in Hcs. rewrite Hcs. by eexists.
Qed.

Lemma simple_holds_some i d p : ls !! i = Some d -> is_Some (simple_holds pr (simple_def d) t p wend).
Proof.
  intros Hi. assert (Hw := ls_wf _ _ Hi). destruct d; cbn [look_wf] in Hw; cbn [simple_holds simple_def]; try (by eexists); try (case_match; by eexists).
  - destruct ((1 <=? p)%nat && (p - 1 <? wend)%nat); [|by eexists].
    destruct (get_in_some set (p - 1) Hw) as [b ->]. by eexists.
  - destruct (p <? wend)%nat; [|by eexists]. destruct (get_in_some set p Hw) as [b ->]. by eexists.
Qed.

(** A test that is not a lookaround, as the code runs it. *)
Lemma simple_compiled l d :
  ls !! N.to_nat l = Some d -> (forall b n body lo hi, d <> LAround b n body lo hi) ->
  looks pr !! N.to_nat l = Some (simple_def d) /\
  forall p, simple_holds pr (simple_def d) t p wend = Some (look_sem l p).
Proof.
  intros Hd Hs. destruct (cp_look _ _ _ _ _ comp _ _ Hd) as (d' & Hd' & Hc). split.
  - rewrite Hd'. f_equal. destruct d; simpl in Hc |- *; try done. by destruct (Hs behind negate body lo hi).
  - intros p. rewrite (look_sem_simple pr ls t wend l p d Hd Hs).
    destruct (simple_holds_some _ _ p Hd) as [b Hb]. rewrite Hb. f_equal. apply eq_true_iff_eq. rewrite bool_decide_eq_true. by apply (simple_holds_means pr t wend).
Qed.

Lemma seq_holds_ok nl s q :
  flat_in (length ss) nl ls s -> seq_holds pr t wend q s = Some (found (seq_run s q)).
Proof.
  intros Hs. revert q. induction Hs as [|f s Hf _ IH]; intros q; [done|]. destruct f as [c|l]; cbn [seq_holds Flat.seq_run].
  - destruct (lookup_lt_is_Some_2 ss _ Hf) as [cs Hcs]. apply (cp_set _ _ _ _ _ comp) in Hcs.
    unfold Machine.set_at, get_in. rewrite Hcs. destruct (q <? wend)%nat; [|done]. cbn [andb].
    destruct (t !! q) as [x|]; [|done]. simpl. destruct (CharSet.contains cs x); [apply IH|done].
  - destruct Hf as [_ (d & Hd & Hs)]. destruct (simple_compiled l d Hd Hs) as [Hl Hh]. rewrite Hl. cbn [mbind option_bind].
    rewrite Hh. cbn [mbind option_bind]. destruct (look_sem l q); [apply IH|done].
Qed.

Lemma flat_holds_ok nl seqs q :
  Forall (flat_in (length ss) nl ls) seqs ->
  exists b, flat_holds pr seqs t q wend = Some b /\ (b = true <-> exists s q', s ∈ seqs /\ seq_run s q = Some q').
Proof.
  intros Hs. unfold flat_holds. rewrite Nat.min_l by done. induction Hs as [|s seqs Hs _ IH]; cbn [flat_holds_loop].
  - exists false. split; [done|]. split; [done|]. intros (s & q' & Hs & _). by apply elem_of_nil in Hs.
  - rewrite (seq_holds_ok nl s q Hs). cbn [mbind option_bind]. destruct (seq_run s q) as [q'|] eqn:Hr; cbn [found].
    + exists true. split; [done|]. split; [|done]. intros _. exists s, q'. split; [left|done].
    + destruct IH as (b & Hb & Hiff). exists b. split; [done|]. rewrite Hiff. split.
      * intros (s' & q' & Hs' & Hr'). exists s', q'. split; [by right|done].
      * intros (s' & q' & Hs' & Hr'). apply elem_of_cons in Hs' as [->|Hs']; [congruence|]. by exists s', q'.
Qed.

(** Behind the test on the first character. *)
Lemma first_skip seqs f q :
  first_test_of seqs (sets pr) = Some (Some f) ->
  (q <? wend)%nat && (q <? length t)%nat && may_begin f (default 0%Z (t !! q)) = false ->
  ~ exists s q', s ∈ seqs /\ seq_run s q = Some q'.
Proof.
  intros Hf Hb (s & q' & Hs & Hr). destruct (first_test_ok _ _ _ _ sets_canonical Hf Hs) as (set & s' & -> & Hc).
  cbn [Flat.seq_run] in Hr. destruct (set_at set q) eqn:Hat; [|done]. unfold Machine.set_at in Hat.
  apply andb_true_iff in Hat as [Hq Hat]. destruct (t !! q) as [c|] eqn:Hct; [|done].
  destruct (sets pr !! N.to_nat set) as [cs|] eqn:Hset; [|done].
  assert (H0 : (0 <= c)%Z) by (apply (Forall_lookup_1 _ _ _ _ text_chars Hct)).
  assert (Hm := may_begin_ok f c H0 (Hc cs c eq_refl H0 Hat)).
  apply lookup_lt_Some in Hct as Hlt. rewrite Hq, (proj2 (Nat.ltb_lt _ _)) in Hb by done. cbn [andb default from_option id] in Hb.
  unfold default, from_option, id in Hb. congruence.
Qed.
End holds.

(** ** The properties *)

(** Fixed sequences are exact.  Where the code reads a lookaround as
    fixed sequences, the pattern's search succeeds from a position exactly
    when one of them matches there, and each reads as many characters as the
    pattern's width says.  The test made of their first characters never rules
    out a match: where one of them can begin, it says so. *)
Theorem fixed_sequences set_at look_at wend ns nl ng ls h seqs ss :
  (forall s p, set_at s p = true -> p < wend) -> hir_wf h -> hir_in ns nl ng h -> flatten h ls = Some seqs -> canonical_sets ss ->
  (forall k q sl, q <= wend ->
   (found (hmatch set_at look_at wend 0 false true h k q sl) = true <->
    exists s q', s ∈ seqs /\ seq_run set_at look_at s q = Some q' /\ found (k q' sl) = true)) /\
  (forall s, s ∈ seqs -> within_width (width h) (chars s)) /\
  (forall f s set s' cs c, first_test_of seqs ss = Some (Some f) -> s ∈ seqs -> s = FChar set :: s' ->
     ss !! N.to_nat set = Some cs -> (0 <= c)%Z -> CharSet.contains cs c = true -> may_begin f c = true).
Proof.
  intros Hs Hw Hin Hf Hc. split; [intros k q sl Hq; by eapply flatten_ok|]. split; [intros s; by eapply flatten_width|].
  intros f s set s' cs c Hft Hseq -> Hset H0 Hcont. destruct (first_test_ok _ _ _ _ Hc Hft Hseq) as (set0 & s0 & [= <- <-] & Hok).
  apply may_begin_ok; [done|]. by eapply Hok.
Qed.

(** [(?:a|bc){1,2}]: its six sequences, the two of them that match, and the
    test of their first characters. *)
Lemma fixed_sequences_witness :
  found (hmatch (fun s p => bool_decide ((s, p) ∈ [(0%N, 0); (1%N, 1); (2%N, 2)])) (fun _ _ => true) 3 0 false true
    (HRepeat 1 (Some 2%N) true false (HAlt [HChar 0; HConcat [HChar 1; HChar 2]])) (fun p sl => if (p =? 3)%nat then Some (sl, p) else None) 0 []) = true /\
  may_begin (mk_first (Z.lor (Z.shiftl 1 97) (Z.shiftl 1 98)) false) 98 = true.
Proof.
  destruct (fixed_sequences (fun s p => bool_decide ((s, p) ∈ [(0%N, 0); (1%N, 1); (2%N, 2)])) (fun _ _ => true) 3 3 0 0 []
    (HRepeat 1 (Some 2%N) true false (HAlt [HChar 0; HConcat [HChar 1; HChar 2]]))
    [[FChar 0]; [FChar 1; FChar 2]; [FChar 0; FChar 0]; [FChar 0; FChar 1; FChar 2]; [FChar 1; FChar 2; FChar 0]; [FChar 1; FChar 2; FChar 1; FChar 2]]
    [one 97; one 98; one 99]) as (Hfound & _ & Hfirst).
  - intros s p Hp. apply bool_decide_eq_true in Hp.
    repeat (apply elem_of_cons in Hp as [[= -> ->]|Hp]; [lia|]). by apply elem_of_nil in Hp.
  - simpl. repeat split; try lia. by right.
  - simpl. repeat split; try lia. done.
  - reflexivity.
  - repeat constructor; unfold canonical; simpl; unfold CharSet.MAX, U32_MAX; lia.
  - split.
    + apply Hfound; [lia|]. exists [FChar 0; FChar 1; FChar 2], 3. split; [do 3 right; left|]. split; reflexivity.
    + apply (Hfirst _ [FChar 1; FChar 2] 1%N [FChar 2] (one 98) 98%Z); [vm_compute; reflexivity|right; left|reflexivity|reflexivity|lia|reflexivity].
Defined.
