(* ===== verification/Total.v ===== *)
(** The compiler never panics.

    Every instruction the builder patches is one it has pushed: the holes of
    a fragment are in range when it is made, and the program only grows.  So
    compiling a pattern answers its programs, or that they are too large. *)

From Stdlib Require Import ZArith Lia.
From stdpp Require Import base option numbers list_numbers sets list.
From S2P Require Import Prelude CharSet Hir Nfa Search NfaCorrect NfaSearch Machine NfaWf Compile SparseSet Looks Meaning Flat.

(** The holes are of the first [n] instructions. *)
Definition holes_in (n : nat) (hs : list (N * N)) : Prop := Forall (fun h => N.to_nat (fst h) < n) hs.

Lemma holes_in_mono n m hs : n <= m -> holes_in n hs -> holes_in m hs.
Proof. intros Hn H. eapply Forall_impl; [exact H|simpl; lia]. Qed.

Lemma holes_in_app n hs hs' : holes_in n (hs ++ hs') <-> holes_in n hs /\ holes_in n hs'.
Proof. apply Forall_app. Qed.

Lemma holes_in_one n i w : holes_in n [(i, w)] <-> N.to_nat i < n.
Proof. unfold holes_in. rewrite Forall_singleton. done. Qed.

(** What a builder step leads to, whatever program it starts from: it only
    grows the program, and fails only when that gets too large. *)
Definition grows {A} (c : builder A) (I : list Inst) (Q : A -> nat -> Prop) : Prop :=
  match c I with
  | Ok (a, J) => length I <= length J /\ Q a (length J)
  | Err e => e = TooLarge
  end.

Lemma grows_ret {A} (a : A) I (Q : A -> nat -> Prop) : Q a (length I) -> grows (mret a) I Q.
Proof. intros HQ. by split. Qed.

Lemma grows_bind {A B} (c : builder A) (k : A -> builder B) I Q :
  grows c I (fun a n => forall J, length J = n -> length I <= n -> grows (k a) J Q) -> grows (c ≫= k) I Q.
Proof.
  unfold grows at 1 3. unfold mbind, stm_bind. destruct (c I) as [[a J]|e]; [|done]. intros [Hl H].
  specialize (H J eq_refl Hl). unfold grows in H. destruct (k a J) as [[b J']|e]; [|done]. destruct H. split; [lia|done].
Qed.

Lemma grows_mono {A} (c : builder A) I (Q Q' : A -> nat -> Prop) :
  grows c I Q -> (forall a n, length I <= n -> Q a n -> Q' a n) -> grows c I Q'.
Proof. unfold grows. destruct (c I) as [[a J]|e]; [|done]. intros [Hl H] HQ. split; [done|by apply HQ]. Qed.

Lemma grows_push i I (Q : N -> nat -> Prop) : Q (N.of_nat (length I)) (S (length I)) -> grows (push i) I Q.
Proof.
  intros HQ. unfold grows, push. destruct (MAX_INSTS <=? _)%N; [done|].
  rewrite length_app. cbn [length]. rewrite Nat.add_1_r. split; [lia|done].
Qed.

Lemma grows_patch hs to I (Q : unit -> nat -> Prop) : holes_in (length I) hs -> Q tt (length I) -> grows (patch hs to) I Q.
Proof.
  intros Hh HQ. unfold grows, patch. replace (forallb _ hs) with true; [by rewrite length_patch_list|].
  symmetry. apply forallb_forall. intros h Hin. apply Nat.ltb_lt. unfold holes_in in Hh. rewrite Forall_forall in Hh.
  by apply Hh, list_elem_of_In.
Qed.

Definition frag_in (f : Frag) (n : nat) : Prop := holes_in n (holes f).
Definition frags_in (fs : list Frag) (n : nat) : Prop := Forall (fun f => frag_in f n) fs.

Definition sound (c : builder Frag) : Prop := forall I, grows c I frag_in.
Definition sounds (c : builder (list Frag)) : Prop := forall I, grows c I frags_in.

Lemma frags_in_mono fs n m : n <= m -> frags_in fs n -> frags_in fs m.
Proof. intros Hn H. eapply Forall_impl; [exact H|]. intros f. by apply holes_in_mono. Qed.

(** One step of a builder. *)
Ltac grow :=
  repeat first
  [ apply grows_bind; first [apply grows_push | apply grows_patch]; try (intros ? ? ?)
  | apply grows_push | apply grows_ret ].

Ltac inrange := unfold frag_in, holes_in in *; cbn [holes fst] in *; rewrite ?Forall_app in *;
  repeat match goal with |- _ /\ _ => split | |- Forall _ (_ :: _) => constructor | |- Forall _ [] => constructor end;
  first [ done | cbn [fst]; lia | eapply Forall_impl; [eassumption|cbn [fst]; lia] ].

Lemma sound_one i w : sound (push i ≫= fun n => mret (mk_frag n [(n, w)])).
Proof. intros I. grow. inrange. Qed.

Lemma sound_concat_loop parts st hs I :
  holes_in (length I) hs -> frags_in parts (length I) -> grows (concat_loop st hs parts) I frag_in.
Proof.
  revert st hs I. induction parts as [|p parts IH]; intros st hs I Hh Hp; cbn [concat_loop]; grow; try done.
  apply Forall_cons in Hp as [Hp Hps]. apply IH; [eapply holes_in_mono; [|exact Hp]|eapply frags_in_mono; [|exact Hps]]; lia.
Qed.

Lemma sound_concat parts I : frags_in parts (length I) -> grows (b_concat parts) I frag_in.
Proof.
  intros Hp. destruct parts as [|p parts]; [apply sound_one|]. apply Forall_cons in Hp as [Hp Hps]. by apply sound_concat_loop.
Qed.

(** A fragment built, then more. *)
Lemma grows_frag {A} (c : builder Frag) (k : Frag -> builder A) I Q :
  sound c -> (forall f J, length I <= length J -> frag_in f (length J) -> grows (k f) J Q) -> grows (c ≫= k) I Q.
Proof. intros Hc Hk. apply grows_bind. eapply grows_mono; [apply Hc|]. intros f n Hl Hf J <- _. by apply Hk. Qed.

Lemma grows_frags {A} (c : builder (list Frag)) (k : list Frag -> builder A) I Q :
  sounds c -> (forall fs J, length I <= length J -> frags_in fs (length J) -> grows (k fs) J Q) -> grows (c ≫= k) I Q.
Proof. intros Hc Hk. apply grows_bind. eapply grows_mono; [apply Hc|]. intros f n Hl Hf J <- _. by apply Hk. Qed.

Lemma sounds_cons (c : builder Frag) cs : sound c -> sounds cs -> sounds (c ≫= fun f => cs ≫= fun fs => mret (f :: fs)).
Proof.
  intros Hc Hcs I. apply grows_frag; [done|]. intros f J Hl Hf. apply grows_frags; [done|]. intros fs J' Hl' Hfs.
  apply grows_ret. constructor; [by eapply holes_in_mono|done].
Qed.

Lemma sounds_one c : sound c -> sounds (c ≫= fun f => mret [f]).
Proof. intros Hc I. apply grows_frag; [done|]. intros f J Hl Hf. apply grows_ret. by constructor. Qed.

Lemma sounds_each c v : Forall (fun h => sound (c h)) v -> sounds (each c v).
Proof. induction 1; [intros I; by apply grows_ret; constructor|]. by apply sounds_cons. Qed.

Lemma sounds_each_rev c v : Forall (fun h => sound (c h)) v -> sounds (each_rev c v).
Proof.
  induction 1 as [|h v Hh _ IH]; [intros I; by apply grows_ret; constructor|]. intros I. cbn [each_rev].
  apply grows_frags; [done|]. intros fs J Hl Hfs. apply grows_frag; [done|]. intros f J' Hl' Hf.
  apply grows_ret. apply Forall_app. split; [by eapply frags_in_mono|by constructor].
Qed.

Lemma sounds_times n c : sound c -> sounds (times n c).
Proof. intros Hc. induction n; [intros I; by apply grows_ret; constructor|]. by apply sounds_cons. Qed.

Lemma sound_loop greedy c : sound c -> sound (b_loop greedy c).
Proof.
  intros Hc I. unfold b_loop. grow. apply grows_frag; [done|]. intros f J' Hl Hf. cbn [length] in *.
  grow; try inrange.
Qed.

Lemma sound_extra greedy c n : sound c -> forall exits st prev I,
  holes_in (length I) exits -> holes_in (length I) (default [] prev) -> grows (b_extra greedy c n exits st prev) I frag_in.
Proof.
  intros Hc. induction n as [|n IH]; intros exits st prev I He Hp; cbn [b_extra].
  { apply grows_ret. by apply holes_in_app. }
  grow. apply grows_frag; [done|]. intros f J' Hl Hf. grow; [inrange|].
  apply grows_bind. apply (grows_mono _ _ (fun _ _ => True)).
  { destruct prev as [hp|]; [apply grows_patch; [|done]; eapply holes_in_mono; [|exact Hp]; lia|by apply grows_ret]. }
  intros _ n' Hn' _ K HK _. apply IH.
  - apply holes_in_app. split; [eapply holes_in_mono; [|exact He]; lia|]. apply holes_in_one. lia.
  - cbn [default from_option id]. eapply holes_in_mono; [|exact Hf]. lia.
Qed.

Lemma sound_alt_loop (c : Hir -> builder Frag) v : Forall (fun h => sound (c h)) v -> forall hs st last I,
  holes_in (length I) hs -> (forall s, last = Some s -> N.to_nat s < length I) -> grows (alt_loop c v hs st last) I frag_in.
Proof.
  induction 1 as [|x v Hx _ IH]; intros hs st last I Hh Hlast; cbn [alt_loop]; [by apply grows_ret|].
  apply grows_bind. apply (grows_mono _ _ (fun eh n => holes_in n (snd eh) /\ (v <> [] -> N.to_nat (fst eh) < n))).
  { destruct v as [|y v].
    - apply grows_frag; [done|]. intros f J Hl Hf. by apply grows_ret.
    - grow. apply grows_frag; [done|]. intros f J' Hl Hf. grow; [inrange|]. cbn [fst snd]. split; [|lia].
      eapply holes_in_mono; [|exact Hf]. lia. }
  intros [e hx] n Hn [Hhx He] J <- _. cbn [fst snd] in *. apply grows_bind. apply (grows_mono _ _ (fun _ _ => True)).
  { destruct last as [s|]; [apply grows_patch; [|done]; apply holes_in_one; specialize (Hlast s eq_refl); lia|by apply grows_ret]. }
  intros _ n' Hn' _ K HK _. apply IH.
  - apply holes_in_app. split; (eapply holes_in_mono; [|done]); lia.
  - intros s. destruct v as [|y v]; intros Hs.
    + specialize (Hlast s Hs). lia.
    + injection Hs as <-. specialize (He ltac:(done)). lia.
Qed.

Lemma sound_group c s1 s2 : sound c ->
  sound (push (ISave s1 HOLE) ≫= fun a => c ≫= fun f => patch [(a, 0%N)] (fstart f) ≫= fun _ =>
    push (ISave s2 HOLE) ≫= fun b => patch (holes f) b ≫= fun _ => mret (mk_frag a [(b, 0%N)])).
Proof. intros Hc I. grow. apply grows_frag; [done|]. intros f J' Hl Hf. grow; try inrange. Qed.

(** The tests a pattern names are of the first [n]. *)
Fixpoint tests_in (n : nat) (h : Hir) : Prop :=
  match h with
  | HEmpty | HChar _ => True
  | HLook l => N.to_nat l < n
  | HGroup _ b | HRepeat _ _ _ _ b => tests_in n b
  | HConcat v | HAlt v => foldr (fun x acc => tests_in n x /\ acc) True v
  end.

Lemma tests_in_list n v : foldr (fun x acc => tests_in n x /\ acc) True v <-> Forall (tests_in n) v.
Proof. induction v; simpl; rewrite ?Forall_nil, ?Forall_cons; intuition. Qed.

Lemma hir_in_tests ns nl ng n h : nl <= n -> hir_in ns nl ng h -> tests_in n h.
Proof.
  intros Hn. induction h as [|s|l|g b IH|v IH|v IH|mn mx gr si b IH] using hir_ind'; simpl; try tauto; try lia.
  - rewrite hir_in_list, tests_in_list, !Forall_forall in *. intros H x Hx. by apply IH, H.
  - rewrite hir_in_list, tests_in_list, !Forall_forall in *. intros [_ H] x Hx. by apply IH, H.
Qed.

Lemma sound_look ids l : N.to_nat l < length ids -> sound (look_id ids l ≫= fun id => push (ILook id HOLE) ≫= fun i => mret (mk_frag i [(i, 0%N)])).
Proof.
  intros Hl I. apply grows_bind. unfold grows, look_id. destruct (lookup_lt_is_Some_2 ids (N.to_nat l) Hl) as [id ->]. split; [done|]. intros J _ _. apply sound_one.
Qed.

Lemma sound_c ids o h : tests_in (length ids) h -> sound (b_c ids o h).
Proof.
  induction h as [|s|l|g b IH|v IH|v IH|mn mx gr si b IH] using hir_ind'; cbn [b_c tests_in]; intros Hin;
    try (specialize (IH Hin)); try (apply tests_in_list in Hin; assert (IH' : Forall (fun h => sound (b_c ids o h)) v)
      by (rewrite Forall_forall in *; intros x Hx; by apply IH, Hin); clear IH Hin; rename IH' into IH).
  - apply sound_one.
  - apply sound_one.
  - by apply sound_look.
  - destruct (negb (o_saves o)); [done|]. by apply sound_group.
  - intros I. apply grows_frags; [|intros fs J _; apply sound_concat].
    destruct (o_reverse o); [by apply sounds_each_rev|by apply sounds_each].
  - destruct v as [|x v]; [apply sound_one|]. intros I. apply sound_alt_loop; [done|constructor|done].
  - destruct (run_set o b) as [s|]; [apply sound_one|]. intros I. apply grows_frags.
    { destruct (si && o_guards o); intros I'; [|by apply grows_ret; constructor]. grow. constructor; [inrange|constructor]. }
    intros p1 J1 L1 H1. apply grows_frags; [by apply sounds_times|]. intros p2 J2 L2 H2. apply grows_frags.
    { destruct mx as [m|]; [|by apply sounds_one, sound_loop].
      destruct (0 <? m - mn)%N; [|intros I'; by apply grows_ret; constructor].
      apply sounds_one. intros I'. apply sound_extra; [done|constructor|constructor]. }
    intros p3 J3 L3 H3. apply sound_concat. apply Forall_app; split; [|apply Forall_app; split; [|done]];
      (eapply frags_in_mono; [|eassumption]; lia).
Qed.

Lemma grows_finish tail hs I : holes_in (length I) hs -> grows (finish_loop hs tail) I (fun _ _ => True).
Proof.
  revert hs I. induction tail as [|i tail IH]; intros hs I Hh; cbn [finish_loop]; grow; try done.
  { eapply holes_in_mono; [|exact Hh]. lia. }
  apply IH. destruct i; inrange.
Qed.

Lemma build_with_total ids o h head tail : tests_in (length ids) h -> match build_with ids o h head tail with Ok _ => True | Err e => e = TooLarge end.
Proof.
  intros Hin. unfold build_with. match goal with |- context [?c []] => assert (Hg : grows c [] (fun _ _ => True)) end.
  - apply grows_frag; [by apply sound_c|]. intros f J Hl Hf. apply grows_bind. apply (grows_mono _ _ frag_in).
    { destruct head; [|by apply grows_ret]. grow. inrange. }
    intros f' n _ Hf' K <- _. apply grows_bind. eapply grows_mono; [by apply grows_finish|]. intros _ n _ _ K' _ _. by apply grows_ret.
  - unfold grows in Hg. match type of Hg with match ?x with _ => _ end => by destruct x as [[st v]|] end.
Qed.

(** ** The property *)

(** The first character of fixed sequences, whose sets are there. *)
Lemma first_test_total ns nl ls seqs ss : Forall (flat_in ns nl ls) seqs -> ns <= length ss -> is_Some (first_test_of seqs ss).
Proof.
  unfold first_test_of. generalize (mk_first 0 false). induction seqs as [|s seqs IH]; intros f Hf Hn; cbn [first_test_loop]; [done|].
  apply Forall_cons in Hf as [Hs Hf]. destruct s as [|[set|l] s]; [done| |done]. apply Forall_cons in Hs as [Hset _].
  destruct (lookup_lt_is_Some_2 ss (N.to_nat set)) as [cs ->]; [lia|]. by apply IH.
Qed.

Lemma ids_of_length ls : length (ids_of ls) = length ls.
Proof. unfold ids_of. by rewrite length_map, length_seq. Qed.

Lemma compile_looks_total ns ng ss ls todo ps :
  ns <= length ss -> (forall l, l ∈ todo -> exists i, i <= length ls /\ look_wf ns ng i l) ->
  match compile_looks ss ls todo ps with Ok _ => True | Err e => e = TooLarge end.
Proof.
  intros Hns. revert ps. induction todo as [|l todo IH]; intros ps Hw; cbn [compile_looks]; [done|].
  assert (Hl : match compile_look ss ls ps l with Ok _ => True | Err e => e = TooLarge end).
  { destruct (Hw l) as (i & Hil & Hi); [left|]. destruct l; try done. cbn [compile_look].
    assert (Hb := build_with_total (ids_of ls) (mk_options false false true false) body None [IMatch]). rewrite ids_of_length in Hb.
    specialize (Hb ltac:(eapply hir_in_tests, (proj1 Hi); exact Hil)). unfold build. destruct (build_with _ _ body None _) as [P|]; [|done].
    destruct (match (if negb behind && _ then None else flatten body ls) with Some v => first_test_of v ss | None => _ end) eqn:Hf; [done|].
    destruct (negb behind && _); [done|]. destruct (flatten body ls) as [v|] eqn:Hv; [|done].
    destruct Hi as (Hin & _). edestruct (first_test_total ns i ls v ss) as [r Hr]; [|done|congruence].
    apply Forall_forall. intros s Hs. by eapply flatten_in. }
  destruct (compile_look ss ls ps l) as [[d ps1]|]; [|done].
  specialize (IH ps1 (fun l Hl => Hw l ltac:(by right))). destruct (compile_looks ss ls todo ps1) as [[ds ps2]|]; done.
Qed.



(** A test that is not there is a panic. *)
Example test_missing : compile (HLook 1) [] [LBegin] 0 = Err Panicked /\ exists pr, compile (HLook 0) [] [LBegin] 0 = Ok pr.
Proof. split; [by vm_compute|eexists; vm_compute; reflexivity]. Qed.
