(* ===== verification/LookMemo.v ===== *)
(** The lookaheads that may read far, and the tests as a whole: the rest of
    [linre/looks.rs].

    A lookahead of unbounded width is walked with a memo ([run_memo]): the
    outcome of a walk depends only on the set of its character states and
    the position, so each (set, position) a walk passes is remembered, in
    runs of positions; once its walks have taken many steps it is decided at
    every position at once, backwards ([sweep]).  [holds_at_depth] is the
    code's test: the simple ones, the fixed sequences, the walk, the memoized
    walk; nested lookarounds are asked one level deeper. *)

From Stdlib Require Import ZArith Lia.
From stdpp Require Import base option numbers relations gmap sorting list_numbers list.
From S2P Require Import Prelude CharSet Hir Nfa Search Machine SparseSet BTree Looks.

(** Steps a walk takes before its sets are memoized; sets one lookahead
    remembers for one text; steps per character before it is swept. *)
Definition MEMO_AFTER : nat := 8.
Definition MEMO_SETS : nat := 4096.
Definition SWEEP_AFTER : Z := 4.
Definition SWEEP_SLACK : Z := 4096.

(** What the walks of one lookahead found in one text. *)
Record LookMemo := mk_memo {
  m_gen : Z;
  ids : gmap (list N) N;
  (** per set: from -> (to, outcome) *)
  runs : list (list (Z * (nat * bool)));
  lo : Z;
  m_steps : Z;
  swept : option (nat * list Z);
}.

Definition default_memo : LookMemo := mk_memo 0 ∅ [] 0 0 None.

Record Oracle := mk_oracle {
  levels : list Level;
  (** the text's address and length, and the window's end *)
  key : Z * nat * nat;
  gen : Z;
  memos : list LookMemo;
  walked : Z;
}.

Definition new_oracle : Oracle := mk_oracle [] (0%Z, 0, 0) 0 [] 0.

(** [known]: [None] where the set's number is out of range. *)
Definition known (m : LookMemo) (id : N) (pos : nat) : option (option bool) :=
  r ← runs m !! N.to_nat id;
  Some match BTree.floor (Z.of_nat pos) r with
       | Some (_, (to, outcome)) => if (pos <? to)%nat then Some outcome else None
       | None => None
       end.

Definition clear_sets (m : LookMemo) : LookMemo := mk_memo (m_gen m) ∅ [] (lo m) (m_steps m) (swept m).

(** Another text or window: nothing is known. *)
Definition reset (g : Z) (m : LookMemo) : LookMemo := mk_memo g ∅ [] U64_MAX 0 None.

(** The swept outcome at [q], if [q] is in the swept stretch; the outer
    [None] where the word is out of range. *)
Definition swept_at (m : LookMemo) (q wend : nat) : option (option bool) :=
  match swept m with
  | None => Some None
  | Some (from, bits) =>
      if (q <? from)%nat || (wend <? q)%nat then Some None
      else
        let i := q - from in
        w ← bits !! Nat.div i 64;
        Some (Some (Z.testbit w (Z.of_nat (Nat.modulo i 64))))
  end.

(** Have one lookahead's walks taken enough steps to sweep it instead? *)
Definition sweep_due (m : LookMemo) (wend : nat) : bool :=
  let stretch := sat_add U64_MAX (Z.max 0 (Z.of_nat wend - lo m)) 1 in
  (sat_add U64_MAX (sat_mul U64_MAX stretch SWEEP_AFTER) SWEEP_SLACK <? m_steps m)%Z.

(** [Oracle::begin], with the text's address. *)
Definition begin (addr : Z) (t : text) (wend : nat) (keep : bool) (o : Oracle) : Oracle :=
  let k := (addr, length t, wend) in
  if negb keep || negb (bool_decide (k = key o))
  then mk_oracle (levels o) k ((gen o + 1) mod 18446744073709551616) (memos o) 0
  else mk_oracle (levels o) (key o) (gen o) (memos o) 0.

Definition check_key (addr : Z) (t : text) (wend : nat) (o : Oracle) : Oracle :=
  let k := (addr, length t, wend) in
  if negb (bool_decide (k = key o))
  then mk_oracle (levels o) k ((gen o + 1) mod 18446744073709551616) (memos o) (walked o)
  else o.

(** ** The sweep *)

(** Where a step that reads nothing may lead, whatever the tests say. *)
Definition targets (i : Inst) : list N :=
  match i with
  | ISplit x y => [x; y]
  | IJmp nx | ISave _ nx | IGuard nx | ILook _ nx => [nx]
  | IChar _ _ | IMatch | IRun _ _ _ _ _ => []
  end.

(** The steps of a program, (from, to), in order. *)
Definition edges (P : Prog) : list (N * N) :=
  concat (imap (fun pc i => List.map (fun x => (N.of_nat pc, x)) (targets i)) (insts P)).

(** [starts[x + 1] += 1] for each step to [x], then the running sums.  In
    what follows [None] is an index out of range. *)
Definition counts (n : nat) (es : list (N * N)) : option (list nat) :=
  fold_opt (fun st e =>
    c ← st !! S (N.to_nat (snd e));
    Some (<[S (N.to_nat (snd e)) := S c]> st)) es (replicate (n + 1) 0).

Definition sums (st : list nat) (n : nat) : option (list nat) :=
  fold_opt (fun st i =>
    a ← st !! i; b ← st !! S i;
    Some (<[S i := b + a]> st)) (seq 0 n) st.

(** The steps grouped by where they lead: [preds[starts[x]..starts[x + 1]]]
    are the instructions that step to [x]. *)
Definition fill_preds (es : list (N * N)) (starts : list nat) (total : nat) : option (list nat * list N) :=
  fold_opt (fun fp e =>
    k ← fst fp !! N.to_nat (snd e);
    if (k <? length (snd fp))%nat
    then Some (<[N.to_nat (snd e) := S k]> (fst fp), <[k := fst e]> (snd fp)) else None)
    es (starts, replicate total 0%N).

Definition preds_of (starts : list nat) (preds : list N) (s : N) : option (list N) :=
  a ← starts !! N.to_nat s;
  b ← starts !! S (N.to_nat s);
  if (a <=? b)%nat && (b <=? length preds)%nat then Some (take (b - a) (drop a preds)) else None.

Section sweep.
Context {O : Type} (hold : N -> nat -> O -> result fault (bool * O)).
Variables (pr : Programs) (P : Prog) (t : text) (wend : nat).
Variables (starts : list nat) (preds : list N).

(** [matches] and [chars] of the program. *)
Definition match_pcs : list N :=
  concat (imap (fun pc i => match i with IMatch => [N.of_nat pc] | _ => [] end) (insts P)).
Definition char_pcs : list (N * N * N) :=
  concat (imap (fun pc i => match i with IChar set nx => [(N.of_nat pc, set, nx)] | _ => [] end) (insts P)).

Fixpoint sweep_matches (ms : list N) (s : SparseSet) (stack : list N) : result fault (SparseSet * list N) :=
  match ms with
  | [] => Ok (s, stack)
  | m :: ms =>
      match SparseSet.insert m s with
      | None => Err Panic
      | Some (new, s) => sweep_matches ms s (if new then m :: stack else stack)
      end
  end.

Fixpoint sweep_chars (c : Z) (cs : list (N * N * N)) (nx_set s : SparseSet) (stack : list N) :
    result fault (SparseSet * list N) :=
  match cs with
  | [] => Ok (s, stack)
  | (pc, set, nx) :: cs =>
      match SparseSet.contains nx nx_set with
      | None => Err Panic
      | Some false => sweep_chars c cs nx_set s stack
      | Some true =>
          match sets pr !! N.to_nat set with
          | None => Err Panic
          | Some st =>
              if CharSet.contains st c
              then
                match SparseSet.insert pc s with
                | None => Err Panic
                | Some (new, s) => sweep_chars c cs nx_set s (if new then pc :: stack else stack)
                end
              else sweep_chars c cs nx_set s stack
          end
      end
  end.

(** The instructions that step to one that reaches a match. *)
Fixpoint sweep_preds (p : nat) (ts : list N) (s : SparseSet) (stack : list N) (o : O) :
    result fault (SparseSet * list N * O) :=
  match ts with
  | [] => Ok (s, stack, o)
  | u :: ts =>
      match SparseSet.contains u s with
      | None => Err Panic
      | Some true => sweep_preds p ts s stack o
      | Some false =>
          match
            match inst_at P u with
            | None => Err Panic
            | Some (ILook look _) => hold look p o
            | Some (IGuard _) => Ok ((p <=? wend)%nat, o)
            | Some _ => Ok (true, o)
            end
          with
          | Err e => Err e
          | Ok (pass, o) =>
              if (pass : bool)
              then
                match SparseSet.insert u s with
                | None => Err Panic
                | Some (_, s) => sweep_preds p ts s (u :: stack) o
                end
              else sweep_preds p ts s stack o
          end
      end
  end.

Fixpoint sweep_close (fuel : nat) (p : nat) (s : SparseSet) (stack : list N) (o : O) : result fault (SparseSet * O) :=
  match fuel with
  | 0 => Err NoFuel
  | S fuel' =>
      match stack with
      | [] => Ok (s, o)
      | x :: stack =>
          match preds_of starts preds x with
          | None => Err Panic
          | Some us =>
              match sweep_preds p us s stack o with
              | Err e => Err e
              | Ok (s, stack, o) => sweep_close fuel' p s stack o
              end
          end
      end
  end.

(** One position: the instructions from which a path reaches a match,
    [next lv] those of the next position. *)
Definition sweep_at (p : nat) (lv : Level) (o : O) : result fault (Level * O) :=
  match sweep_matches match_pcs (SparseSet.clear (cur lv)) [] with
  | Err e => Err e
  | Ok (s, stack) =>
      match
        (if (p <? wend)%nat
         then
           match t !! p with
           | None => Err Panic
           | Some c => sweep_chars c char_pcs (next lv) s stack
           end
         else Ok (s, stack))
      with
      | Err e => Err e
      | Ok (s, stack) =>
          match sweep_close (1 + length (insts P)) p s stack o with
          | Err e => Err e
          | Ok (s, o) => Ok (mk_level s (next lv) (path lv), o)
          end
      end
  end.

Definition set_bit (bits : list Z) (i : nat) : option (list Z) :=
  w ← bits !! Nat.div i 64;
  Some (<[Nat.div i 64 := Z.lor w (Z.shiftl 1 (Z.of_nat (Nat.modulo i 64)))]> bits).

(** The positions from [from + k] down to [from]. *)
Fixpoint sweep_loop (k : nat) (from : nat) (bits : list Z) (lv : Level) (o : O) : result fault (list Z * Level * O) :=
  let p := from + k in
  match sweep_at p lv o with
  | Err e => Err e
  | Ok (lv, o) =>
      match SparseSet.contains (start P) (cur lv) with
      | None => Err Panic
      | Some b =>
          match (if (b : bool) then set_bit bits (p - from) else Some bits) with
          | None => Err Panic
          | Some bits =>
              match k with
              | 0 => Ok (bits, lv, o)
              | S k' => sweep_loop k' from bits (mk_level (next lv) (cur lv) (path lv)) o
              end
          end
      end
  end.
End sweep.

(** [sweep]: a bit per position of [from ..= end]. *)
Definition sweep {O} (hold : N -> nat -> O -> result fault (bool * O)) (pr : Programs) (P : Prog) (t : text)
    (from wend : nat) (lv : Level) (o : O) : result fault (list Z * Level * O) :=
  let n := length (insts P) in
  match
    starts ← (st ← counts n (edges P); sums st n);
    total ← starts !! n;
    fp ← fill_preds (edges P) starts total;
    Some (starts, snd fp)
  with
  | None => Err Panic
  | Some (starts, preds) =>
      let lv := mk_level (SparseSet.resize n (cur lv)) (SparseSet.resize n (next lv)) (path lv) in
      match sweep_loop hold pr P t wend starts preds (wend - from) from
              (replicate (Nat.div (wend - from + 1 + 63) 64) 0%Z) lv o with
      | Err e => Err e
      | Ok (bits, lv, o) =>
          Ok (bits, mk_level (SparseSet.clear (cur lv)) (SparseSet.clear (next lv)) (path lv), o)
      end
  end.

(** ** The memoized walk *)

Definition is_match_inst (P : Prog) (pc : N) : bool :=
  match inst_at P pc with Some IMatch => true | _ => false end.
Definition is_char_inst (P : Prog) (pc : N) : bool :=
  match inst_at P pc with Some (IChar _ _) => true | _ => false end.

(** The character states of a set, sorted: what decides its future. *)
Definition set_key (P : Prog) (s : SparseSet) : list N :=
  merge_sort N.le (List.filter (is_char_inst P) (SparseSet.as_slice s)).

(** The walk's memo and the stretch of positions it passed. *)
Definition note_path (id : N) (pos : nat) (pth : list (N * nat * nat)) : list (N * nat * nat) :=
  match pth with
  | (id', from, to) :: pth' =>
      if (id' =? id)%N && (to =? pos)%nat then (id', from, S pos) :: pth' else (id, pos, S pos) :: pth
  | [] => [(id, pos, S pos)]
  end.

(** The set's number, a new one if it is not known; the path so far is
    dropped when the sets are forgotten. *)
Definition intern (k : list N) (m : LookMemo) (pth : list (N * nat * nat)) : N * LookMemo * list (N * nat * nat) :=
  match ids m !! k with
  | Some id => (id, m, pth)
  | None =>
      let '(m, pth) := if (MEMO_SETS <=? size (ids m))%nat then (clear_sets m, []) else (m, pth) in
      let id := N.of_nat (size (ids m)) in
      (id, mk_memo (m_gen m) (<[k := id]> (ids m)) (runs m ++ [[]]) (lo m) (m_steps m) (swept m), pth)
  end.

(** The outcome of a walk, remembered for the positions of its path. *)
Definition record_path (outcome : bool) (pth : list (N * nat * nat)) (m : LookMemo) : option LookMemo :=
  fold_right (fun e m =>
    let '(id, from, to) := e in
    m ← m;
    r ← runs m !! N.to_nat id;
    Some (mk_memo (m_gen m) (ids m) (<[N.to_nat id := BTree.insert (Z.of_nat from) (to, outcome) r]> (runs m))
            (lo m) (m_steps m) (swept m))) (Some m) pth.

Section memo_walk.
Context {O : Type} (hold : N -> nat -> O -> result fault (bool * O)).
Variables (pr : Programs) (P : Prog) (t : text) (wend : nat).

(** The states that read the character [c], and what they reach. *)
Fixpoint memo_states (c : Z) (pos : nat) (k i : nat) (lv : Level) (o : O) : result fault (Level * O) :=
  match k with
  | 0 => Ok (lv, o)
  | S k' =>
      match SparseSet.get i (cur lv) with
      | None => Err Panic
      | Some pc =>
          match inst_at P pc with
          | None => Err Panic
          | Some (IChar set nx) =>
              match sets pr !! N.to_nat set with
              | None => Err Panic
              | Some st =>
                  if CharSet.contains st c
                  then
                    match closure hold P wend nx (pos + 1) (next lv) o with
                    | Err e => Err e
                    | Ok (s, o) => memo_states c pos k' (S i) (mk_level (cur lv) s (path lv)) o
                    end
                  else memo_states c pos k' (S i) lv o
              end
          | Some _ => memo_states c pos k' (S i) lv o
          end
      end
  end.

(** The walk from a position, the sets it passes interned: its outcome and
    its steps. *)
Fixpoint memo_loop (fuel : nat) (pos steps : nat) (m : LookMemo) (lv : Level) (o : O) :
    result fault (bool * nat * LookMemo * Level * O) :=
  match fuel with
  | 0 => Err NoFuel
  | S fuel' =>
      if existsb (is_match_inst P) (SparseSet.as_slice (cur lv)) then Ok (true, steps, m, lv, o)
      else
        let interned :=
          if (MEMO_AFTER <=? steps)%nat then Some (intern (set_key P (cur lv)) m (path lv)) else None in
        match
          (match interned with
           | None => Some (None, m, lv)
           | Some (id, m, pth) =>
               match known m id pos with
               | None => None
               | Some (Some oc) => Some (Some oc, m, mk_level (cur lv) (next lv) pth)
               | Some None => Some (None, m, mk_level (cur lv) (next lv) (note_path id pos pth))
               end
           end)
        with
        | None => Err Panic
        | Some (Some oc, m, lv) => Ok (oc, steps, m, lv, o)
        | Some (None, m, lv) =>
            if (wend <=? pos)%nat then Ok (false, steps, m, lv, o)
            else
              match t !! pos with
              | None => Err Panic
              | Some c =>
                  match memo_states c pos (SparseSet.len (cur lv)) 0 (mk_level (cur lv) (SparseSet.clear (next lv)) (path lv)) o with
                  | Err e => Err e
                  | Ok (lv, o) =>
                      if SparseSet.is_empty (next lv) then Ok (false, steps, m, lv, o)
                      else memo_loop fuel' (S pos) (S steps) m (mk_level (next lv) (cur lv) (path lv)) o
                  end
              end
        end
  end.

(** [run_memo] from where the level's buffers and the lookahead's memo are
    taken out, [q] not yet swept. *)
Definition memo_walk (q : nat) (m : LookMemo) (lv : Level) (o : O) : result fault (bool * Z * LookMemo * Level * O) :=
  let m := if (q <=? wend)%nat
           then mk_memo (m_gen m) (ids m) (runs m) (Z.min (lo m) (Z.of_nat q)) (m_steps m) (swept m) else m in
  if (q <=? wend)%nat && sweep_due m wend
  then
    let from := Z.to_nat (lo m) in
    match sweep hold pr P t from wend lv o with
    | Err e => Err e
    | Ok (bits, lv, o) =>
        let m := mk_memo (m_gen m) (ids m) (runs m) (lo m) 0 (Some (from, bits)) in
        match swept_at m q wend with
        | None => Err Panic
        | Some oc => Ok (bool_decide (oc = Some true), Z.of_nat (wend - from + 1), m, lv, o)
        end
    end
  else
    let n := length (insts P) in
    match closure hold P wend (start P) q (SparseSet.resize n (cur lv)) o with
    | Err e => Err e
    | Ok (s, o) =>
        match memo_loop (1 + (wend - q)) q 0 m (mk_level s (SparseSet.resize n (next lv)) []) o with
        | Err e => Err e
        | Ok (outcome, steps, m, lv, o) =>
            let m := mk_memo (m_gen m) (ids m) (runs m) (lo m) (sat_add U64_MAX (m_steps m) (Z.of_nat steps)) (swept m) in
            match record_path outcome (path lv) m with
            | None => Err Panic
            | Some m =>
                Ok (outcome, Z.of_nat steps, m, mk_level (SparseSet.clear (cur lv)) (SparseSet.clear (next lv)) [], o)
            end
        end
    end.
End memo_walk.

(** ** The tests *)

Section holds.
Context `{UnicodeTables}.
(** The text and its address. *)
Variables (pr : Programs) (addr : Z) (t : text).

(** [oracle.levels[depth]], with the levels up to it there. *)
Definition grow_levels (depth : nat) (o : Oracle) : Oracle :=
  mk_oracle (if (length (levels o) <=? depth)%nat
             then levels o ++ replicate (S depth - length (levels o)) new_level else levels o)
    (key o) (gen o) (memos o) (walked o).

Definition put_level (depth : nat) (lv : Level) (o : Oracle) : Oracle :=
  mk_oracle (<[depth := lv]> (levels o)) (key o) (gen o) (memos o) (walked o).

Definition grow_memos (look : N) (o : Oracle) : Oracle :=
  mk_oracle (levels o) (key o) (gen o)
    (if (length (memos o) <=? N.to_nat look)%nat
     then memos o ++ replicate (S (N.to_nat look) - length (memos o)) default_memo else memos o)
    (walked o).

Definition put_memo (look : N) (m : LookMemo) (o : Oracle) : Oracle :=
  mk_oracle (levels o) (key o) (gen o) (<[N.to_nat look := m]> (memos o)) (walked o).

(** [run]: the level's buffers are taken out while it runs. *)
Definition run (hold : N -> nat -> Oracle -> result fault (bool * Oracle)) (P : Prog)
    (q wend : nat) (at_ : option nat) (depth : nat) (o : Oracle) : result fault (bool * Oracle) :=
  let o := grow_levels depth o in
  match levels o !! depth with
  | None => Err Panic
  | Some lv =>
      match run_level hold pr P t wend q at_ lv (put_level depth new_level o) with
      | Err e => Err e
      | Ok (found, lv, o) =>
          if (depth <? length (levels o))%nat then Ok (found, put_level depth lv o) else Err Panic
      end
  end.

(** [run_memo]: the lookahead's memo is taken out too. *)
Definition run_memo (hold : N -> nat -> Oracle -> result fault (bool * Oracle)) (look : N) (P : Prog)
    (q wend : nat) (depth : nat) (o : Oracle) : result fault (bool * Oracle) :=
  let o := grow_memos look (grow_levels depth (check_key addr t wend o)) in
  let wend := Nat.min wend (length t) in
  match memos o !! N.to_nat look, levels o !! depth with
  | Some m, Some lv =>
      let m := if negb (m_gen m =? gen o)%Z then reset (gen o) m else m in
      match swept_at m q wend with
      | None => Err Panic
      | Some (Some oc) => Ok (oc, put_memo look m o)
      | Some None =>
          match memo_walk hold pr P t wend q m lv (put_memo look default_memo (put_level depth new_level o)) with
          | Err e => Err e
          | Ok (oc, steps, m, lv, o) =>
              if (depth <? length (levels o))%nat && (N.to_nat look <? length (memos o))%nat
              then
                let o := put_memo look m (put_level depth lv o) in
                Ok (oc, mk_oracle (levels o) (key o) (gen o) (memos o) (sat_add U64_MAX (walked o) steps))
              else Err Panic
          end
      end
  | _, _ => Err Panic
  end.

(** Does test [look] hold at [p]?  [fuel] bounds the nesting: a lookaround's
    own tests come before it. *)
Fixpoint holds_at_depth (fuel : nat) (wend : nat) (depth : nat) (look : N) (p : nat) (o : Oracle) :
    result fault (bool * Oracle) :=
  match fuel with
  | 0 => Err NoFuel
  | S fuel' =>
      match looks pr !! N.to_nat look with
      | None => Err Panic
      | Some (DAround false negate prog _ _ true _ _) =>
          match subs pr !! N.to_nat prog with
          | None => Err Panic
          | Some sub =>
              match run_memo (holds_at_depth fuel' (Nat.min wend (length t)) (S depth)) look sub p wend depth o with
              | Err e => Err e
              | Ok (hit, o) => Ok (xorb hit negate, o)
              end
          end
      | Some (DAround behind negate prog width _ _ flat first) =>
          if behind && (p <? N.to_nat width)%nat then Ok (negate, o)
          else
            let q := if behind then p - N.to_nat width else p in
            match
              (match flat with
               | Some seqs =>
                   if (p <=? wend)%nat
                   then
                     match first with
                     | Some f =>
                         if (q <? wend)%nat && (q <? length t)%nat && may_begin f (default 0%Z (t !! q))
                         then match flat_holds pr seqs t q wend with Some b => Ok (b, o) | None => Err Panic end
                         else Ok (false, o)
                     | None => match flat_holds pr seqs t q wend with Some b => Ok (b, o) | None => Err Panic end
                     end
                   else
                     match subs pr !! N.to_nat prog with
                     | None => Err Panic
                     | Some sub => run (holds_at_depth fuel' wend (S depth)) sub q wend (if behind then Some p else None) depth o
                     end
               | None =>
                   match subs pr !! N.to_nat prog with
                   | None => Err Panic
                   | Some sub => run (holds_at_depth fuel' wend (S depth)) sub q wend (if behind then Some p else None) depth o
                   end
               end)
            with
            | Err e => Err e
            | Ok (hit, o) => Ok (xorb hit negate, o)
            end
      | Some d =>
          match simple_holds pr d t p wend with
          | None => Err Panic
          | Some b => Ok (b, o)
          end
      end
  end.
End holds.

(** [holds]. *)
Definition holds `{UnicodeTables} (pr : Programs) (addr : Z) (look : N) (t : text) (p wend : nat) (o : Oracle) :
    result fault (bool * Oracle) :=
  holds_at_depth pr addr t (length (looks pr)) wend 0 look p o.
