(* ===== verification/Sweep.v ===== *)
(** The sweep of a lookahead ([linre/looks.rs], [sweep]) is right.

    First the grouping of the program's steps by where they lead (a counting
    sort into one array): [preds_of_ok].  Then the pass over the positions
    from the window's end back: at each, the set computed is that of the
    instructions from which some path is accepted ([sweep_at_ok]), so the bit
    of a position is the answer of the plain walk there ([sweep_ok]). *)

From Stdlib Require Import ZArith Lia.
From stdpp Require Import base option numbers relations gmap list_numbers list.
From S2P Require Import Prelude CharSet Hir Nfa Search Machine SparseSet Looks LookMemo.

(** ** Grouping the steps *)

Section group.
Variable n : nat.
Variable es : list (N * N).
Hypothesis es_range : Forall (fun e => N.to_nat (snd e) < n) es.

(** The steps that lead to [s]. *)
Definition into (s : nat) (l : list (N * N)) : list (N * N) :=
  List.filter (fun e => (N.to_nat (snd e) =? s)%nat) l.
Definition cnt (s : nat) (l : list (N * N)) : nat := length (into s l).

Lemma into_app s l1 l2 : into s (l1 ++ l2) = into s l1 ++ into s l2.
Proof. apply List.filter_app. Qed.

(** The same arrays, written without the range checks. *)
Definition plain_counts : list nat :=
  fold_left (fun st e => alter S (S (N.to_nat (snd (e : N * N)))) st) es (replicate (n + 1) 0).

Definition plain_sums (k : nat) : list nat :=
  fold_left (fun st i => <[S i := default 0 (st !! S i) + default 0 (st !! i)]> st) (seq 0 k) plain_counts.

Definition plain_fill (l : list (N * N)) (total : nat) : list nat * list N :=
  fold_left (fun fp e =>
    let k := default 0 (fst fp !! N.to_nat (snd e)) in
    (<[N.to_nat (snd e) := S k]> (fst fp), <[k := fst e]> (snd fp)))
    l (plain_sums n, replicate total 0%N).

Lemma counts_fold l (st : list nat) i :
  fold_left (fun st e => alter S (S (N.to_nat (snd (e : N * N)))) st) l st !! i =
  (fun x => x + match i with 0 => 0 | S s => cnt s l end) <$> st !! i.
Proof.
  revert st. induction l as [|e l IH]; intros st; cbn [fold_left].
  - destruct (st !! i); simpl; [|done]. f_equal. destruct i; unfold cnt; simpl; lia.
  - rewrite IH, list_lookup_alter. case_decide as Hd.
    + subst i. destruct (st !! _); simpl; [|done]. f_equal. unfold cnt. simpl. rewrite Nat.eqb_refl. simpl. lia.
    + destruct (st !! i); simpl; [|done]. f_equal. destruct i as [|s]; [done|]. unfold cnt. simpl.
      destruct (Nat.eqb_spec (N.to_nat (snd e)) s) as [He|]; [|done]. by rewrite He in Hd.
Qed.

Lemma length_counts : length plain_counts = S n.
Proof.
  unfold plain_counts. assert (H : forall l st, length (fold_left (fun st e => alter S (S (N.to_nat (snd (e : N * N)))) st) l st) = length (st : list nat)).
  { induction l as [|e l IH]; intros st; cbn [fold_left]; [done|]. by rewrite IH, length_alter. }
  rewrite H, length_replicate. lia.
Qed.

Lemma lookup_counts i : i <= n -> plain_counts !! i = Some match i with 0 => 0 | S s => cnt s es end.
Proof.
  intros Hi. unfold plain_counts. rewrite counts_fold, lookup_replicate_2 by lia. done.
Qed.

(** Where the steps into [s] begin. *)
Fixpoint base_of (s : nat) : nat := match s with 0 => 0 | S s' => base_of s' + cnt s' es end.

Lemma lookup_sums k : k <= n ->
  length (plain_sums k) = S n /\
  (forall i, i <= k -> plain_sums k !! i = Some (base_of i)) /\
  (forall i, k < i -> plain_sums k !! i = plain_counts !! i).
Proof.
  unfold plain_sums. induction k as [|k IH]; intros Hk.
  - split; [apply length_counts|]. split; [|done]. intros i Hi. assert (i = 0) as -> by lia. by rewrite lookup_counts by lia.
  - rewrite seq_S, fold_left_app. cbn [fold_left]. simpl (0 + k).
    destruct IH as (H1 & H2 & H3); [lia|]. set (st := fold_left _ (seq 0 k) plain_counts) in *.
    split; [by rewrite length_insert|]. split.
    + intros i Hi. destruct (decide (i = S k)) as [-> |Hne].
      * rewrite list_lookup_insert_eq by lia. rewrite (H3 (S k)), (H2 k), lookup_counts by lia. simpl. f_equal. lia.
      * rewrite list_lookup_insert_ne by lia. apply H2. lia.
    + intros i Hi. rewrite list_lookup_insert_ne by lia. apply H3. lia.
Qed.

Lemma base_mono s s' : s <= s' -> base_of s <= base_of s'.
Proof. induction 1 as [|s' _ IH]; simpl; lia. Qed.

Lemma cnt_cons s e l : cnt s (e :: l) = (if (N.to_nat (snd e) =? s)%nat then 1 else 0) + cnt s l.
Proof. unfold cnt, into. simpl. by destruct (_ =? s)%nat. Qed.

(** All the steps are grouped. *)
Lemma fill_ok l1 l2 :
  es = l1 ++ l2 ->
  let fp := plain_fill l1 (base_of n) in
  length (fst fp) = S n /\ length (snd fp) = base_of n /\
  (forall s, s < n -> fst fp !! s = Some (base_of s + cnt s l1)) /\
  (forall s j x, s < n -> List.map fst (into s l1) !! j = Some x -> snd fp !! (base_of s + j) = Some x).
Proof.
  cbn zeta. unfold plain_fill. destruct (lookup_sums n (le_n _)) as (S1 & S2 & _).
  revert l2. induction l1 as [|e l1 IH] using rev_ind; intros l2 He.
  - cbn [fold_left fst snd]. split; [done|]. split; [apply length_replicate|]. split.
    + intros s Hs. rewrite S2 by lia. unfold cnt. simpl. f_equal. lia.
    + intros s j x _ Hx. by destruct j.
  - rewrite fold_left_app. cbn [fold_left].
    destruct (IH (e :: l2)) as (H1 & H2 & H3 & H4); [by rewrite He, <- app_assoc|].
    set (fp := fold_left _ l1 _) in *. cbn [fst snd].
    assert (Hr : N.to_nat (snd e) < n).
    { rewrite He, Forall_app, Forall_app in es_range. destruct es_range as [[_ Hr] _]. by inversion Hr. }
    set (se := N.to_nat (snd e)) in *. rewrite (H3 se Hr). cbn [default from_option id].
    assert (Hcnt : forall s, cnt s (l1 ++ [e]) = cnt s l1 + if (se =? s)%nat then 1 else 0).
    { intros s. unfold cnt. rewrite into_app, length_app. f_equal. unfold into. simpl. fold se. by destruct (se =? s)%nat. }
    assert (Hes : cnt se l1 + 1 <= cnt se es).
    { rewrite He. unfold cnt. rewrite into_app, length_app. fold (cnt se (l1 ++ [e])) (cnt se l1). rewrite Hcnt, Nat.eqb_refl. lia. }
    assert (Hb : base_of se + cnt se l1 < base_of n).
    { assert (Hm := base_mono (S se) n ltac:(lia)). simpl in Hm. lia. }
    split; [by rewrite length_insert|]. split; [by rewrite length_insert|]. split.
    + intros s Hs. rewrite Hcnt. destruct (Nat.eqb_spec se s) as [<-|Hne].
      * rewrite list_lookup_insert_eq by lia. f_equal. lia.
      * rewrite list_lookup_insert_ne, H3 by done. f_equal. lia.
    + intros s j x Hs Hx. rewrite into_app, map_app in Hx. apply lookup_app_Some in Hx as [Hx|[Hl Hx]].
      * rewrite list_lookup_insert_ne; [by apply H4|].
        assert (Hj : j < cnt s l1) by (apply lookup_lt_Some in Hx; by rewrite length_map in Hx).
        assert (Hjs : cnt s l1 <= cnt s es) by (rewrite He, <- app_assoc; unfold cnt; rewrite into_app, length_app; lia).
        destruct (lt_eq_lt_dec s se) as [[Hlt| ->]|Hlt]; [|lia|].
        -- assert (Hm := base_mono (S s) se ltac:(lia)). simpl in Hm. lia.
        -- assert (Hm := base_mono (S se) s ltac:(lia)). simpl in Hm. lia.
      * rewrite length_map in Hl, Hx. fold (cnt s l1) in Hl, Hx. unfold into in Hx. simpl in Hx. fold se in Hx.
        destruct (Nat.eqb_spec se s) as [<-|]; [|by destruct (j - cnt s l1)].
        simpl in Hx. apply list_lookup_singleton_Some in Hx as [Hj <-].
        replace (base_of se + j) with (base_of se + cnt se l1) by lia. apply list_lookup_insert_eq. lia.
Qed.

Lemma cnt_le l1 l2 s : es = l1 ++ l2 -> cnt s l1 <= cnt s es.
Proof. intros ->. unfold cnt. rewrite into_app, length_app. lia. Qed.

(** The code's indices are in range. *)
Lemma counts_plain : counts n es = Some plain_counts.
Proof.
  unfold counts, plain_counts. assert (Hl : length (replicate (n + 1) 0) = S n) by (rewrite length_replicate; lia).
  revert Hl. generalize (replicate (n + 1) 0). pose proof es_range as Her. clear es_range. induction Her as [|e l He _ IH]; intros st Hl; [done|]. cbn [fold_opt fold_left].
  destruct (lookup_lt_is_Some_2 st (S (N.to_nat (snd e)))) as [c Hc]; [lia|]. rewrite Hc. cbn [mbind option_bind].
  rewrite (alter_insert _ _ _ _ Hc). apply IH. by rewrite length_insert.
Qed.

Lemma sums_plain : sums plain_counts n = Some (plain_sums n).
Proof.
  unfold sums. assert (H : forall k, k <= n -> fold_opt (fun st i => a ← st !! i; b ← st !! S i; Some (<[S i := b + a]> st))
    (seq 0 k) plain_counts = Some (plain_sums k)); [|by apply H].
  induction k as [|k IH]; intros Hk; [done|]. destruct (lookup_sums k) as (H1 & H2 & H3); [lia|].
  unfold plain_sums. rewrite seq_S, fold_opt_app, fold_left_app, IH by lia. cbn [fold_opt fold_left]. simpl (0 + k).
  fold (plain_sums k). rewrite (H2 k) by lia. cbn [mbind option_bind].
  destruct (lookup_lt_is_Some_2 (plain_sums k) (S k)) as [c Hc]; [lia|]. by rewrite Hc.
Qed.

Lemma fill_plain : fill_preds es (plain_sums n) (base_of n) = Some (plain_fill es (base_of n)).
Proof.
  unfold fill_preds.
  assert (H : forall l1 l2, es = l1 ++ l2 -> fold_opt (fun fp e =>
      k ← fst fp !! N.to_nat (snd e);
      if (k <? length (snd fp))%nat
      then Some (<[N.to_nat (snd e) := S k]> (fst fp), <[k := fst e]> (snd fp)) else None)
    l1 (plain_sums n, replicate (base_of n) 0%N) = Some (plain_fill l1 (base_of n))); [|apply (H es []); by rewrite app_nil_r].
  induction l1 as [|e l1 IH] using rev_ind; intros l2 He; [done|].
  assert (He' : es = l1 ++ e :: l2) by (by rewrite He, <- app_assoc).
  destruct (fill_ok l1 (e :: l2) He') as (H1 & H2 & H3 & _). cbn zeta in *.
  assert (Hstep : plain_fill (l1 ++ [e]) (base_of n) =
    let fp := plain_fill l1 (base_of n) in let k := default 0 (fst fp !! N.to_nat (snd e)) in
    (<[N.to_nat (snd e) := S k]> (fst fp), <[k := fst e]> (snd fp))) by (unfold plain_fill; by rewrite fold_left_app).
  rewrite Hstep, fold_opt_app, (IH _ He'). cbn [fold_opt]. cbn zeta.
  assert (Hr : N.to_nat (snd e) < n) by (rewrite Forall_forall in es_range; apply es_range; rewrite He'; set_solver).
  rewrite (H3 _ Hr). cbn [mbind option_bind default from_option id].
  assert (Hc : cnt (N.to_nat (snd e)) l1 + 1 <= cnt (N.to_nat (snd e)) es).
  { rewrite <- (cnt_le (l1 ++ [e]) l2) by done. unfold cnt. rewrite into_app, length_app. simpl. rewrite Nat.eqb_refl. simpl. lia. }
  assert (Hm := base_mono (S (N.to_nat (snd e))) n Hr). simpl in Hm.
  by rewrite (proj2 (Nat.ltb_lt _ _)) by lia.
Qed.

(** The group of [s]. *)
Lemma preds_of_ok (s : N) : N.to_nat s < n ->
  preds_of (plain_sums n) (snd (plain_fill es (base_of n))) s = Some (List.map fst (into (N.to_nat s) es)).
Proof.
  intros Hs. destruct (lookup_sums n (le_n _)) as (S1 & S2 & _).
  destruct (fill_ok es [] ltac:(by rewrite app_nil_r)) as (H1 & H2 & H3 & H4). cbn zeta in *.
  unfold preds_of. rewrite !S2 by lia. cbn [mbind option_bind base_of].
  assert (Hm := base_mono (S (N.to_nat s)) n Hs). simpl in Hm. rewrite H2.
  rewrite !(proj2 (Nat.leb_le _ _)) by lia. cbn [andb]. f_equal.
  rewrite Nat.add_comm, Nat.add_sub. apply list_eq. intros j.
  destruct (decide (j < cnt (N.to_nat s) es)) as [Hj|Hj].
  - rewrite lookup_take_lt, lookup_drop by done.
    destruct (lookup_lt_is_Some_2 (List.map fst (into (N.to_nat s) es)) j) as [x Hx]; [by rewrite length_map|].
    rewrite Hx. by apply H4.
  - rewrite lookup_take_ge by lia. symmetry. apply lookup_ge_None_2. rewrite length_map. fold (cnt (N.to_nat s) es). lia.
Qed.

Lemma into_in s u : u ∈ List.map fst (into (N.to_nat s) es) <-> (u, s) ∈ es.
Proof.
  rewrite list_elem_of_In, in_map_iff. split.
  - intros ([u' s'] & <- & Hin). apply filter_In in Hin as [Hin He]. cleanb. simpl in *. apply N2Nat.inj in He. subst.
    by apply list_elem_of_In.
  - intros Hin. exists (u, s). split; [done|]. apply filter_In. split; [by apply list_elem_of_In|]. simpl. apply Nat.eqb_refl.
Qed.
End group.

(** The steps of a program. *)
Lemma edges_in P u x :
  (u, x) ∈ edges P <-> exists i, inst_at P u = Some i /\ x ∈ targets i.
Proof.
  unfold edges. rewrite list_elem_of_In, in_concat. split.
  - intros (l & Hl & Hin). apply list_elem_of_In, elem_of_lookup_imap in Hl as (pc & i & -> & Hi).
    apply in_map_iff in Hin as (y & [= <- <-] & Hy). exists i. unfold inst_at. rewrite Nat2N.id.
    split; [done|by apply list_elem_of_In].
  - intros (i & Hi & Hx). exists (List.map (fun x => (u, x)) (targets i)). split.
    + apply list_elem_of_In, elem_of_lookup_imap. exists (N.to_nat u), i. rewrite N2Nat.id. done.
    + apply in_map_iff. exists x. split; [done|by apply list_elem_of_In].
Qed.

Lemma edges_range pr P : prog_wf pr P = true -> Forall (fun e => N.to_nat (snd e) < length (insts P)) (edges P).
Proof.
  intros Hwf. apply Forall_forall. intros [u x] Hin. apply edges_in in Hin as (i & Hi & Hx). simpl.
  assert (Hw := wf_inst pr P Hwf _ _ Hi).
  destruct i; simpl in Hw, Hx; cleanb; repeat (apply elem_of_cons in Hx as [-> |Hx]); try lia; by apply elem_of_nil in Hx.
Qed.

(** ** The pass *)

Section sweep_ok.
Context {O : Type} (hold : N -> nat -> O -> result fault (bool * O)).
Variables (pr : Programs) (P : Prog) (t : text) (wend : nat).
Variable look_at : N -> nat -> bool.
Variable oinv : O -> Prop.
Hypothesis wf : prog_wf pr P = true.
Hypothesis no_runs : forall pc s mn mx g x, inst_at P pc <> Some (IRun s mn mx g x).
Hypothesis hold_ok : forall pc l x pos o, inst_at P pc = Some (ILook l x) -> oinv o ->
  exists o', hold l pos o = Ok (look_at l pos, o') /\ oinv o'.
Hypothesis text_end : wend <= length t.

Abbreviation n := (length (insts P)).
Abbreviation set_at := (set_at pr t wend).
Abbreviation wins := (wins P set_at look_at wend wend (ends_at None)).
Abbreviation set_ok := (set_ok P).
Abbreviation eps := (eps P wend look_at).
Abbreviation starts := (plain_sums n (edges P) n).
Abbreviation preds := (snd (plain_fill n (edges P) (edges P) (base_of (edges P) n))).

(** The instructions that step to [s]. *)
Definition group (s : N) : list N := List.map fst (into (N.to_nat s) (edges P)).

Lemma preds_group s : N.to_nat s < n -> preds_of starts preds s = Some (group s).
Proof. apply (preds_of_ok n (edges P) (edges_range pr P wf)). Qed.

Lemma group_in s u : u ∈ group s <-> exists i, inst_at P u = Some i /\ s ∈ targets i.
Proof. unfold group. rewrite into_in. apply edges_in. Qed.

(** The tests a step asks. *)
Definition passes (p : nat) (i : Inst) : bool :=
  match i with ILook l _ => look_at l p | IGuard _ => (p <=? wend)%nat | _ => true end.

Lemma eps_targets p u s : s ∈ eps p u <-> exists i, inst_at P u = Some i /\ s ∈ targets i /\ passes p i = true.
Proof.
  unfold Looks.eps. split.
  - destruct (inst_at P u) as [i|]; [|by intros H; apply elem_of_nil in H]. intros Hs. exists i. split; [done|].
    destruct i; simpl in *; try done; case_match; try done; by apply elem_of_nil in Hs.
  - intros (i & -> & Ht & Hp). destruct i; simpl in *; try done; by rewrite Hp.
Qed.

(** A walk back half done: what is in the set wins, and what steps to a
    state of the set is in it, but for the states on the stack. *)
Record sweeping (p : nat) (s : SparseSet) (stack : list N) (open : N -> N -> Prop) : Prop := mk_sweeping {
  sw_set : set_ok s;
  sw_sound : forall v, v ∈ SparseSet.as_slice s -> wins (v, p);
  sw_stack : forall v, v ∈ stack -> v ∈ SparseSet.as_slice s;
  sw_closed : forall v u, v ∈ SparseSet.as_slice s -> v ∈ eps p u ->
    u ∈ SparseSet.as_slice s \/ v ∈ stack \/ open v u;
  sw_room : length stack + (n - length (SparseSet.as_slice s)) <= n;
}.

Lemma insert_new s v :
  set_ok s -> in_prog P v ->
  exists new s', SparseSet.insert v s = Some (new, s') /\ set_ok s' /\
    (forall x, x ∈ SparseSet.as_slice s' <-> x ∈ SparseSet.as_slice s \/ x = v) /\
    (new = false -> v ∈ SparseSet.as_slice s /\ SparseSet.as_slice s' = SparseSet.as_slice s) /\
    (new = true -> length (SparseSet.as_slice s') = S (length (SparseSet.as_slice s))).
Proof.
  intros [S1 S2 S3] Hv. destruct (insert_ok v s S1) as (s' & Hins & Hs' & Hcap & He); [unfold in_prog in Hv; lia|].
  eexists _, s'. split; [exact Hins|]. destruct (decide (v ∈ SparseSet.as_slice s)) as [Hin|Hnin].
  - rewrite bool_decide_eq_false_2 by (intros Hx; by apply Hx).
    split; [split; [done|by rewrite Hcap|by rewrite He]|]. rewrite He. split; [|done].
    intros x. split; [by left|]. by intros [ | -> ].
  - rewrite bool_decide_eq_true_2 by done.
    split; [split; [done|by rewrite Hcap|rewrite He; apply Forall_app; split; [done|by constructor]]|].
    rewrite He. split; [|split; [done|intros _; rewrite length_app; simpl; lia]].
    intros x. rewrite elem_of_app, list_elem_of_singleton. done.
Qed.

Lemma sweeping_add p s stack op v new s' :
  sweeping p s stack op -> wins (v, p) -> SparseSet.insert v s = Some (new, s') -> in_prog P v ->
  sweeping p s' (if new then v :: stack else stack) op /\ v ∈ SparseSet.as_slice s' /\
  (forall x, x ∈ SparseSet.as_slice s -> x ∈ SparseSet.as_slice s').
Proof.
  intros [H1 H2 H3 H4 H5] Hw Hins Hv. destruct (insert_new s v H1 Hv) as (new' & s'' & Hins' & I1 & I2 & I3 & I4).
  rewrite Hins in Hins'. injection Hins' as <- <-.
  assert (Hle : length (SparseSet.as_slice s') <= n) by (by eapply set_ok_length).
  split; [|split; [apply I2; by right|intros x Hx; apply I2; by left]].
  split; [done| | | |].
  - intros x Hx. apply I2 in Hx as [Hx | ->]; [by apply H2|done].
  - intros x Hx. apply I2. destruct new; [|left; by apply H3].
    apply elem_of_cons in Hx as [-> |Hx]; [by right|left; by apply H3].
  - intros x u Hx Hxu. destruct new.
    + apply I2 in Hx as [Hx | ->]; [|right; left; left].
      destruct (H4 x u Hx Hxu) as [H|[H|H]]; [left; apply I2; by left|right; left; by right|by right; right].
    + destruct (I3 eq_refl) as [Hin He]. rewrite He in *.
      destruct (H4 x u Hx Hxu) as [H|[H|H]]; [by left|by right; left|by right; right].
  - destruct new; [|by rewrite (proj2 (I3 eq_refl))]. rewrite I4 in * by done. simpl. lia.
Qed.

Lemma sweep_matches_ok p ms s stack op :
  sweeping p s stack op -> (forall m, m ∈ ms -> wins (m, p) /\ in_prog P m) ->
  exists s' stack', sweep_matches ms s stack = Ok (s', stack') /\ sweeping p s' stack' op /\
    (forall m, m ∈ ms -> m ∈ SparseSet.as_slice s') /\
    (forall x, x ∈ SparseSet.as_slice s -> x ∈ SparseSet.as_slice s').
Proof.
  revert s stack. induction ms as [|m ms IH]; intros s stack Hs Hms.
  - exists s, stack. split; [done|]. split; [done|]. split; [|done]. intros m Hm. by apply elem_of_nil in Hm.
  - cbn [sweep_matches]. destruct (Hms m ltac:(left)) as [Hw Hp].
    destruct (insert_new s m (sw_set _ _ _ _ Hs) Hp) as (new & s1 & Hins & _). rewrite Hins.
    destruct (sweeping_add p s stack op m new s1 Hs Hw Hins Hp) as (Hs1 & Hm1 & Hsub).
    destruct (IH s1 _ Hs1) as (s' & stack' & -> & G1 & G2 & G3); [intros m' Hm'; apply Hms; by right|].
    exists s', stack'. split; [done|]. split; [done|]. split; [|intros x Hx; by apply G3, Hsub].
    intros m' Hm'. apply elem_of_cons in Hm' as [-> |Hm']; [by apply G3|by apply G2].
Qed.

(** The states that read the character and whose next state wins. *)
Lemma sweep_chars_ok p c cs nxs s stack op :
  sweeping p s stack op -> set_ok nxs -> p < wend -> t !! p = Some c ->
  (forall pc set nx, (pc, set, nx) ∈ cs -> inst_at P pc = Some (IChar set nx)) ->
  (forall v, v ∈ SparseSet.as_slice nxs -> wins (v, S p)) ->
  exists s' stack', sweep_chars pr c cs nxs s stack = Ok (s', stack') /\ sweeping p s' stack' op /\
    (forall pc set nx, (pc, set, nx) ∈ cs -> nx ∈ SparseSet.as_slice nxs -> set_at set p = true -> pc ∈ SparseSet.as_slice s') /\
    (forall x, x ∈ SparseSet.as_slice s -> x ∈ SparseSet.as_slice s').
Proof.
  intros Hs Hn Hp Hc Hcs Hnw. revert s stack Hs. induction cs as [|[[pc set] nx] cs IH]; intros s stack Hs.
  - exists s, stack. split; [done|]. split; [done|]. split; [|done]. intros pc set nx Hin. by apply elem_of_nil in Hin.
  - cbn [sweep_chars]. assert (Hi : inst_at P pc = Some (IChar set nx)) by (apply Hcs; left).
    assert (Hw := wf_inst pr P wf _ _ Hi). simpl in Hw. apply andb_true_iff in Hw as [Hset Hnx].
    rewrite contains_ok by (try apply Hn; cleanb; pose proof (so_capacity _ _ Hn); lia).
    destruct (wf_set pr _ Hset) as [st Hst].
    assert (Hat : set_at set p = CharSet.contains st c)
      by (unfold Machine.set_at; rewrite (proj2 (Nat.ltb_lt _ _)) by done; by rewrite Hc, Hst).
    assert (IH' : forall s stack, sweeping p s stack op -> exists s' stack', sweep_chars pr c cs nxs s stack = Ok (s', stack') /\
      sweeping p s' stack' op /\ (forall pc set nx, (pc, set, nx) ∈ cs -> nx ∈ SparseSet.as_slice nxs -> set_at set p = true ->
      pc ∈ SparseSet.as_slice s') /\ (forall x, x ∈ SparseSet.as_slice s -> x ∈ SparseSet.as_slice s'))
      by (intros; apply IH; [intros; apply Hcs; by right|done]).
    assert (Hskip : (nx ∈ SparseSet.as_slice nxs -> set_at set p = true -> False) ->
      exists s' stack', sweep_chars pr c cs nxs s stack = Ok (s', stack') /\
      sweeping p s' stack' op /\ (forall pc' set' nx', (pc', set', nx') ∈ (pc, set, nx) :: cs -> nx' ∈ SparseSet.as_slice nxs ->
      set_at set' p = true -> pc' ∈ SparseSet.as_slice s') /\ (forall x, x ∈ SparseSet.as_slice s -> x ∈ SparseSet.as_slice s')).
    { intros Hno. destruct (IH' s stack Hs) as (s' & stack' & -> & G1 & G2 & G3).
      exists s', stack'. split; [done|]. split; [done|]. split; [|done]. intros pc' set' nx' Hin Hx Hset'.
      apply elem_of_cons in Hin as [[= -> -> ->]|Hin]; [by destruct Hno|by eapply G2]. }
    destruct (bool_decide_reflect (nx ∈ SparseSet.as_slice nxs)) as [Hin|Hnin]; [|by apply Hskip].
    rewrite Hst. destruct (CharSet.contains st c) eqn:Hcc; [|apply Hskip; intros _; by rewrite Hat].
    assert (Hpc : in_prog P pc) by (by apply lookup_lt_is_Some_1; eexists).
    assert (Hwin : wins (pc, p)) by (eapply wins_char; [done|by rewrite Hat|by apply Hnw]).
    destruct (insert_new s pc (sw_set _ _ _ _ Hs) Hpc) as (new & s1 & Hins & _). rewrite Hins.
    destruct (sweeping_add p s stack op pc new s1 Hs Hwin Hins Hpc) as (Hs1 & Hm1 & Hsub).
    destruct (IH' s1 _ Hs1) as (s' & stack' & -> & G1 & G2 & G3).
    exists s', stack'. split; [done|]. split; [done|]. split; [|intros x Hx; by apply G3, Hsub].
    intros pc' set' nx' Hin' Hx Hset'. apply elem_of_cons in Hin' as [[= -> -> ->]|Hin']; [by apply G3|by eapply G2].
Qed.

(** The instructions that step to [x]. *)
Lemma sweep_preds_ok p x ts s stack o :
  x ∈ SparseSet.as_slice s -> oinv o ->
  (forall u, u ∈ ts -> exists i, inst_at P u = Some i /\ x ∈ targets i) ->
  sweeping p s stack (fun v u => v = x /\ u ∈ ts) ->
  exists s' stack' o', sweep_preds hold P wend p ts s stack o = Ok (s', stack', o') /\ oinv o' /\
    sweeping p s' stack' (fun _ _ => False) /\ (forall x, x ∈ SparseSet.as_slice s -> x ∈ SparseSet.as_slice s') /\
    length stack' + (n - length (SparseSet.as_slice s')) <= length stack + (n - length (SparseSet.as_slice s)).
Proof.
  revert s stack o. induction ts as [|u ts IH]; intros s stack o Hx Ho Hts Hs; cbn [sweep_preds].
  { exists s, stack, o. split; [done|]. split; [done|]. split; [|split; [done|lia]]. destruct Hs as [H1 H2 H3 H4 H5]. split; try done.
    intros v u Hv Hu. destruct (H4 v u Hv Hu) as [H|[H|[_ H]]]; [by left|by right; left|by apply elem_of_nil in H]. }
  destruct (Hts u ltac:(left)) as (i & Hi & Hxi).
  assert (Hu : in_prog P u) by (by apply lookup_lt_is_Some_1; eexists).
  assert (Hts' : forall u0, u0 ∈ ts -> exists i, inst_at P u0 = Some i /\ x ∈ targets i) by (intros; apply Hts; by right).
  rewrite contains_ok by (try apply Hs; unfold in_prog in Hu; pose proof (so_capacity _ _ (sw_set _ _ _ _ Hs)); lia).
  assert (Hdrop : forall s stack, sweeping p s stack (fun v u' => v = x /\ u' ∈ u :: ts) ->
    (u ∈ SparseSet.as_slice s \/ x ∉ eps p u) -> sweeping p s stack (fun v u' => v = x /\ u' ∈ ts)).
  { intros s0 st0 [H1 H2 H3 H4 H5] Hd. split; try done. intros v u0 Hv Hu0.
    destruct (H4 v u0 Hv Hu0) as [H|[H|[-> H]]]; [by left|by right; left|].
    apply elem_of_cons in H as [-> |H]; [|by right; right]. destruct Hd as [Hd|Hd]; [by left|done]. }
  destruct (bool_decide_reflect (u ∈ SparseSet.as_slice s)) as [Hin|Hnin].
  { apply IH; try done. apply Hdrop; [done|by left]. }
  rewrite Hi.
  assert (Hpass : exists o1, (match i with
    | ILook look _ => hold look p o | IGuard _ => Ok ((p <=? wend)%nat, o) | _ => Ok (true, o) end)
    = Ok (passes p i, o1) /\ oinv o1).
  { destruct i; try (by exists o). by eapply hold_ok. }
  destruct Hpass as (o1 & Hps & Ho1).
  assert (Hmatch : (match i with ILook look _ => hold look p o | IGuard _ => Ok (p <=? wend, o) | _ => Ok (true, o) end)
    = Ok (passes p i, o1)) by exact Hps. rewrite Hmatch.
  destruct (passes p i) eqn:Hpi.
  - assert (Hxu : x ∈ eps p u) by (apply eps_targets; by exists i).
    assert (Hwin : wins (u, p)).
    { eapply wins_step; [by apply eps_succs|]. by apply (sw_sound _ _ _ _ Hs). }
    destruct (insert_new s u (sw_set _ _ _ _ Hs) Hu) as (new & s1 & Hins & I1 & _ & I3 & I4). rewrite Hins.
    destruct (sweeping_add p s stack _ u new s1 Hs Hwin Hins Hu) as (Hs1 & Hm1 & Hsub).
    assert (new = true) as -> by (destruct new; [done|]; by destruct (I3 eq_refl)).
    destruct (IH s1 (u :: stack) o1) as (s' & stack' & o' & -> & G1 & G2 & G3 & G4); try done; [by apply Hsub|apply Hdrop; [done|by left]|].
    exists s', stack', o'. do 3 (split; [done|]). split; [intros y Hy; by apply G3, Hsub|].
    assert (Hle := set_ok_length P s1 I1). rewrite I4 in * by done. simpl in G4. lia.
  - apply IH; try done. apply Hdrop; [done|right]. rewrite eps_targets. intros (i' & Hi' & _ & Hp').
    rewrite Hi in Hi'. injection Hi' as <-. congruence.
Qed.

Lemma sweep_close_ok fuel p s stack o :
  sweeping p s stack (fun _ _ => False) -> oinv o ->
  length stack + (n - length (SparseSet.as_slice s)) < fuel ->
  exists s' o', sweep_close hold P wend starts preds fuel p s stack o = Ok (s', o') /\ oinv o' /\
    sweeping p s' [] (fun _ _ => False) /\ (forall x, x ∈ SparseSet.as_slice s -> x ∈ SparseSet.as_slice s').
Proof.
  revert s stack o. induction fuel as [|fuel IH]; intros s stack o Hs Ho Hf; [lia|]. cbn [sweep_close].
  destruct stack as [|x stack]; [by exists s, o|].
  assert (Hx : x ∈ SparseSet.as_slice s) by (apply (sw_stack _ _ _ _ Hs); left).
  assert (Hxp : N.to_nat x < n).
  { pose proof (so_pcs _ _ (sw_set _ _ _ _ Hs)) as Hf'. rewrite Forall_forall in Hf'. by apply Hf'. }
  assert (Hs1 : sweeping p s stack (fun v u => v = x /\ u ∈ group x)).
  { destruct Hs as [H1 H2 H3 H4 H5]. split; try done.
    - intros v Hv. apply H3. by right.
    - intros v u Hv Hu. destruct (H4 v u Hv Hu) as [H|[H|H]]; [by left| |done].
      apply elem_of_cons in H as [-> |H]; [|by right; left]. right; right. split; [done|].
      apply group_in. apply eps_targets in Hu as (i & Hi & Ht & _). by exists i.
    - simpl in H5. lia. }
  assert (Hroom := sw_room _ _ _ _ Hs1). rewrite (preds_group x Hxp).
  destruct (sweep_preds_ok p x (group x) s stack o Hx Ho) as (s1 & stack1 & o1 & -> & G1 & G2 & G3 & G4).
  - intros u Hu. by apply group_in in Hu.
  - exact Hs1.
  - destruct (IH s1 stack1 o1 G2 G1) as (s' & o' & -> & F1 & F2 & F3); [simpl in Hf; lia|].
    exists s', o'. do 3 (split; [done|]). intros y Hy. by apply F3, G3.
Qed.

(** The states from which some path is accepted. *)
Definition exact (p : nat) (S : list N) : Prop := forall v, v ∈ S <-> wins (v, p).

Lemma match_pcs_in m : m ∈ match_pcs P <-> inst_at P m = Some IMatch.
Proof.
  unfold match_pcs. rewrite list_elem_of_In, in_concat. split.
  - intros (l & Hl & Hin). apply list_elem_of_In, elem_of_lookup_imap in Hl as (pc & i & -> & Hi).
    destruct i; try (by destruct Hin). destruct Hin as [<- |[]]. unfold inst_at. by rewrite Nat2N.id.
  - intros Hi. exists [m]. split; [|by left]. apply list_elem_of_In, elem_of_lookup_imap.
    exists (N.to_nat m), IMatch. split; [by rewrite N2Nat.id|exact Hi].
Qed.

Lemma char_pcs_in pc set nx : (pc, set, nx) ∈ char_pcs P <-> inst_at P pc = Some (IChar set nx).
Proof.
  unfold char_pcs. rewrite list_elem_of_In, in_concat. split.
  - intros (l & Hl & Hin). apply list_elem_of_In, elem_of_lookup_imap in Hl as (k & i & -> & Hi).
    destruct i; try (by destruct Hin). destruct Hin as [[= <- <- <-]|[]]. unfold inst_at. by rewrite Nat2N.id.
  - intros Hi. exists [(pc, set, nx)]. split; [|by left]. apply list_elem_of_In, elem_of_lookup_imap.
    exists (N.to_nat pc), (IChar set nx). split; [by rewrite N2Nat.id|exact Hi].
Qed.

(** A set closed backwards that has the matches and the states whose
    character leads on has all that wins. *)
Lemma closed_back p s nxs v :
  sweeping p s [] (fun _ _ => False) ->
  (forall m, inst_at P m = Some IMatch -> m ∈ SparseSet.as_slice s) ->
  (forall pc set nx, inst_at P pc = Some (IChar set nx) -> set_at set p = true -> nx ∈ nxs -> pc ∈ SparseSet.as_slice s) ->
  (p < wend -> exact (S p) nxs) ->
  wins (v, p) -> v ∈ SparseSet.as_slice s.
Proof.
  intros Hs Hm Hc Hn Hw. remember (v, p) as x eqn:Hx. revert v Hx.
  induction Hw as [pc q Hmt _|x x' Hin Hw IH]; intros v Hx.
  - injection Hx as -> ->. apply Hm. unfold is_match in Hmt. by destruct (inst_at P v) as [[]|].
  - subst x. destruct x' as [v' p'].
    assert (Hstep : p' = p -> v' ∈ eps p v -> v ∈ SparseSet.as_slice s).
    { intros -> He. destruct (sw_closed _ _ _ _ Hs v' v (IH v' eq_refl) He) as [H|[H|H]]; [done| |done].
      by apply elem_of_nil in H. }
    unfold Looks.eps in Hstep. unfold succs in Hin.
    destruct (inst_at P v) as [[set nx|a b|nx|slot nx|look nx|nx|set mn mx g nx|]|] eqn:Hi;
      try (by apply elem_of_nil in Hin); try (by destruct (no_runs _ _ _ _ _ _ Hi)).
    + destruct (set_at set p) eqn:Hset; [|by apply elem_of_nil in Hin].
      apply list_elem_of_singleton in Hin. injection Hin as -> ->.
      apply (Hc v set nx Hi Hset). apply Hn; [by eapply set_at_lim|done].
    + repeat (apply elem_of_cons in Hin as [[= -> ->]|Hin]); [..|by apply elem_of_nil in Hin]; apply Hstep; try done; set_solver.
    + apply list_elem_of_singleton in Hin. injection Hin as -> ->. apply Hstep; [done|left].
    + apply list_elem_of_singleton in Hin. injection Hin as -> ->. apply Hstep; [done|left].
    + destruct (look_at look p); [|by apply elem_of_nil in Hin].
      apply list_elem_of_singleton in Hin. injection Hin as -> ->. apply Hstep; [done|left].
    + destruct (p <=? wend)%nat; [|by apply elem_of_nil in Hin].
      apply list_elem_of_singleton in Hin. injection Hin as -> ->. apply Hstep; [done|left].
Qed.

(** One position of the sweep. *)
Lemma sweep_at_ok p lv o :
  p <= wend -> set_ok (cur lv) -> set_ok (next lv) -> (p < wend -> exact (S p) (SparseSet.as_slice (next lv))) -> oinv o ->
  exists lv' o', sweep_at hold pr P t wend starts preds p lv o = Ok (lv', o') /\ oinv o' /\
    set_ok (cur lv') /\ next lv' = next lv /\ exact p (SparseSet.as_slice (cur lv')).
Proof.
  intros Hp Hc Hn Hx Ho. unfold sweep_at.
  destruct (SparseSet.clear_ok (cur lv) (so_ok _ _ Hc)) as [Q1 Q2].
  assert (Hs0 : sweeping p (SparseSet.clear (cur lv)) [] (fun _ _ => False)).
  { split; rewrite ?Q2; try (intros v Hv; by apply elem_of_nil in Hv).
    - split; [done|apply (so_capacity _ _ Hc)|by rewrite Q2].
    - intros v u Hv. by apply elem_of_nil in Hv.
    - simpl. lia. }
  destruct (sweep_matches_ok p (match_pcs P) _ [] _ Hs0) as (s1 & st1 & -> & H1 & H2 & _).
  { intros m Hm. apply match_pcs_in in Hm. split; [|by apply lookup_lt_is_Some_1; eexists].
    apply wins_leaf; [|done]. unfold is_match. by rewrite Hm. }
  assert (Hmid : exists s2 st2, (if (p <? wend)%nat then match t !! p with
      | None => Err Panic | Some c => sweep_chars pr c (char_pcs P) (next lv) s1 st1 end else Ok (s1, st1)) = Ok (s2, st2) /\
    sweeping p s2 st2 (fun _ _ => False) /\ (forall x, x ∈ SparseSet.as_slice s1 -> x ∈ SparseSet.as_slice s2) /\
    (forall pc set nx, inst_at P pc = Some (IChar set nx) -> set_at set p = true -> nx ∈ SparseSet.as_slice (next lv) ->
      pc ∈ SparseSet.as_slice s2)).
  { destruct (Nat.ltb_spec p wend) as [Hlt|Hge].
    - destruct (lookup_lt_is_Some_2 t p) as [c Hct]; [lia|]. rewrite Hct.
      destruct (sweep_chars_ok p c (char_pcs P) (next lv) s1 st1 _ H1 Hn Hlt Hct) as (s2 & st2 & -> & G1 & G2 & G3).
      { intros pc set nx. by rewrite char_pcs_in. }
      { intros v Hv. by apply (Hx Hlt). }
      exists s2, st2. do 3 (split; [done|]). intros pc set nx Hi Hset Hnx. apply (G2 pc set nx); try done. by apply char_pcs_in.
    - exists s1, st1. do 3 (split; [done|]). intros pc set nx Hi Hset. apply set_at_lim in Hset. lia. }
  destruct Hmid as (s2 & st2 & -> & G1 & G2 & G3). assert (Hroom := sw_room _ _ _ _ G1).
  destruct (sweep_close_ok (1 + n) p s2 st2 o G1 Ho) as (s3 & o3 & -> & F1 & F2 & F3); [lia|].
  eexists _, o3. split; [reflexivity|]. cbn [cur next]. split; [done|]. split; [apply F2|]. split; [done|].
  intros v. split; [apply (sw_sound _ _ _ _ F2)|]. apply (closed_back p s3 (SparseSet.as_slice (next lv)) v F2); [| |done].
  - intros m Hm. apply F3, G2, H2. by apply match_pcs_in.
  - intros pc set nx Hi Hset Hnx. apply F3. by eapply G3.
Qed.

(** *** The bits *)

Definition bit (bits : list Z) (i : nat) : bool :=
  Z.testbit (default 0%Z (bits !! Nat.div i 64)) (Z.of_nat (Nat.modulo i 64)).

Lemma set_bit_ok bits i :
  Nat.div i 64 < length bits ->
  exists bits', set_bit bits i = Some bits' /\ length bits' = length bits /\ forall j, bit bits' j = (j =? i)%nat || bit bits j.
Proof.
  intros Hl. unfold set_bit. destruct (lookup_lt_is_Some_2 bits _ Hl) as [w Hw]. rewrite Hw. eexists. split; [reflexivity|].
  split; [apply length_insert|]. intros j. unfold bit. rewrite list_lookup_insert. case_decide as Hd.
  - destruct Hd as [Hd _]. rewrite <- Hd, Hw. cbn [default from_option id].
    rewrite Z.lor_spec, orb_comm. f_equal. rewrite Z.shiftl_spec by lia.
    destruct (Nat.eqb_spec j i) as [->|Hne].
    + rewrite Z.sub_diag. done.
    + destruct (Z.eq_dec (Z.of_nat (j mod 64)) (Z.of_nat (i mod 64))) as [He|He].
      * destruct Hne. rewrite (Nat.div_mod_eq j 64), (Nat.div_mod_eq i 64), Hd. lia.
      * replace 1%Z with (2 ^ 0)%Z by done. apply Z.pow2_bits_false. lia.
  - destruct (Nat.eqb_spec j i) as [->|]; [|done]. by destruct Hd.
Qed.

(** From position [from + k] down. *)
Lemma sweep_loop_ok k from bits lv o :
  from + k <= wend -> Nat.div k 64 < length bits ->
  set_ok (cur lv) -> set_ok (next lv) -> (from + k < wend -> exact (S (from + k)) (SparseSet.as_slice (next lv))) -> oinv o ->
  exists bits' lv' o', sweep_loop hold pr P t wend starts preds k from bits lv o = Ok (bits', lv', o') /\ oinv o' /\
    set_ok (cur lv') /\ set_ok (next lv') /\ length bits' = length bits /\
    (forall j, bit bits' j = true <-> bit bits j = true \/ j <= k /\ wins (start P, from + j)).
Proof.
  revert bits lv o. induction k as [|k IH]; intros bits lv o Hk Hl Hc Hn Hx Ho; cbn [sweep_loop].
  all: match goal with |- context [sweep_at _ _ _ _ _ _ _ ?p _ _] =>
    destruct (sweep_at_ok p lv o ltac:(lia) Hc Hn Hx Ho) as (lv1 & o1 & -> & Ho1 & C1 & E1 & X1) end.
  all: assert (Hst : in_prog P (start P)) by (apply lookup_lt_is_Some_1, (wf_start pr P wf)).
  all: rewrite contains_ok by (try apply C1; unfold in_prog in Hst; pose proof (so_capacity _ _ C1); lia).
  - rewrite Nat.add_0_r in *. replace (from - from) with 0 by lia.
    destruct (bool_decide_reflect (start P ∈ SparseSet.as_slice (cur lv1))) as [Hin|Hnin].
    + destruct (set_bit_ok bits 0 Hl) as (bits1 & -> & Hl1 & Hb1). eexists _, lv1, o1. split; [reflexivity|].
      do 2 (split; [done|]). split; [by rewrite E1|]. split; [done|]. intros j. rewrite Hb1, orb_true_iff, Nat.eqb_eq. split.
      * intros [->|Hb]; [|by left]. right. split; [lia|]. rewrite Nat.add_0_r. by apply X1.
      * intros [Hb|[Hj _]]; [by right|left; lia].
    + eexists _, lv1, o1. split; [reflexivity|]. do 2 (split; [done|]). split; [by rewrite E1|]. split; [done|]. intros j.
      split; [by left|]. intros [Hb|[Hj Hw]]; [done|]. destruct Hnin. apply X1. replace j with 0 in Hw by lia. by rewrite Nat.add_0_r in Hw.
  - replace (from + S k - from) with (S k) in * by lia.
    assert (Hset : exists bits1, (if bool_decide (start P ∈ SparseSet.as_slice (cur lv1)) then set_bit bits (S k) else Some bits) = Some bits1 /\
      length bits1 = length bits /\
      forall j, bit bits1 j = (bool_decide (start P ∈ SparseSet.as_slice (cur lv1)) && (j =? S k)%nat) || bit bits j).
    { case_bool_decide; [|by exists bits]. exact (set_bit_ok bits (S k) Hl). }
    destruct Hset as (bits1 & -> & Hl1 & Hb1).
    destruct (IH bits1 (mk_level (next lv1) (cur lv1) (path lv1)) o1) as (bits' & lv' & o' & -> & F1 & F2 & F3 & F5 & F4);
      cbn [cur next]; try done.
    + lia.
    + rewrite Hl1. eapply Nat.le_lt_trans; [|exact Hl]. apply Nat.Div0.div_le_mono. lia.
    + by rewrite E1.
    + intros _. by rewrite Nat.add_succ_r in X1.
    + exists bits', lv', o'. do 4 (split; [done|]). split; [congruence|]. intros j. rewrite F4, Hb1, orb_true_iff, andb_true_iff, Nat.eqb_eq, bool_decide_eq_true.
      split.
      * intros [[[Hin ->]|Hb]|[Hj Hw]]; [right; split; [lia|by apply X1]|by left|right; split; [lia|done]].
      * intros [Hb|[Hj Hw]]; [by left; right|]. destruct (decide (j = S k)) as [->|]; [|right; split; [lia|done]].
        left; left. split; [by apply X1|done].
Qed.

(** The sweep's bits are the answers of the plain walk. *)
Lemma sweep_ok from lv o :
  from <= wend -> level_ok lv -> oinv o ->
  exists bits lv' o', sweep hold pr P t from wend lv o = Ok (bits, lv', o') /\ oinv o' /\ level_ok lv' /\
    (forall j, j <= wend - from -> exists w, bits !! Nat.div j 64 = Some w /\
       (Z.testbit w (Z.of_nat (Nat.modulo j 64)) = true <-> wins (start P, from + j))).
Proof.
  intros Hf [L1 L2] Ho. unfold sweep. assert (He := edges_range pr P wf).
  rewrite counts_plain by done. cbn [mbind option_bind]. rewrite sums_plain by done. cbn [mbind option_bind].
  destruct (lookup_sums n (edges P) n (le_n _)) as (_ & S2 & _). rewrite (S2 n) by done. cbn [mbind option_bind].
  rewrite fill_plain by done. cbn [mbind option_bind].
  destruct (resize_set_ok P _ L1) as [R1 R2]. destruct (resize_set_ok P _ L2) as [R3 R4]. cbn [cur next].
  assert (Hlen : (wend - from + 1 + 63) / 64 = (wend - from) / 64 + 1).
  { replace (wend - from + 1 + 63) with ((wend - from) + 1 * 64) by lia. by rewrite Nat.div_add. }
  destruct (sweep_loop_ok (wend - from) from (replicate ((wend - from + 1 + 63) / 64) 0%Z)
    (mk_level (SparseSet.resize n (cur lv)) (SparseSet.resize n (next lv)) (path lv)) o)
    as (bits & lv' & o' & -> & F1 & F2 & F3 & F5 & F4); cbn [cur next]; try done.
  - lia.
  - rewrite length_replicate, Hlen. lia.
  - lia.
  - eexists bits, _, o'. split; [reflexivity|]. split; [done|]. split.
    + split; cbn [cur next]; [exact (ss_length _ (so_ok _ _ F2))|exact (ss_length _ (so_ok _ _ F3))].
    + intros j Hj. rewrite length_replicate, Hlen in F5. assert (Hd := Nat.Div0.div_le_mono _ _ 64 Hj).
      destruct (lookup_lt_is_Some_2 bits (j / 64)) as [w0 Hw0]; [lia|]. exists w0. split; [done|].
      specialize (F4 j). unfold bit at 1 in F4. rewrite Hw0 in F4. cbn [default from_option id] in F4.
      rewrite F4. split; [|by right]. intros [Hb|[_ Hw]]; [|done].
      unfold bit in Hb. destruct (replicate _ 0%Z !! (j / 64)) as [w|] eqn:Hw; [|by rewrite Z.testbit_0_l in Hb].
      apply lookup_replicate in Hw as [-> _]. cbn [default from_option id] in Hb. by rewrite Z.testbit_0_l in Hb.
Qed.
End sweep_ok.

(** ** The property *)

(** The sweep decides a lookahead at every position of a stretch in one
    pass: the bit of a position is set exactly when some path of the
    lookahead's program is accepted from there, the tests on the way asked
    at their positions. *)
Theorem sweep_answers {O} (hold : N -> nat -> O -> result fault (bool * O)) pr P t wend look_at (oinv : O -> Prop) from lv o :
  prog_wf pr P = true -> (forall pc s mn mx g x, inst_at P pc <> Some (IRun s mn mx g x)) ->
  (forall pc l x pos o, inst_at P pc = Some (ILook l x) -> oinv o -> exists o', hold l pos o = Ok (look_at l pos, o') /\ oinv o') ->
  wend <= length t -> from <= wend -> level_ok lv -> oinv o ->
  exists bits lv' o', sweep hold pr P t from wend lv o = Ok (bits, lv', o') /\ oinv o' /\ level_ok lv' /\
    forall q, from <= q <= wend ->
      exists w, bits !! Nat.div (q - from) 64 = Some w /\
      (Z.testbit w (Z.of_nat (Nat.modulo (q - from) 64)) = true <->
       wins P (set_at pr t wend) look_at wend wend (ends_at None) (start P, q)).
Proof.
  intros H1 H2 H3 H4 Hf Hl Ho.
  destruct (sweep_ok hold pr P t wend look_at oinv H1 H2 H3 H4 from lv o Hf Hl Ho) as (bits & lv' & o' & Hs & Ho' & Hl' & Hb).
  exists bits, lv', o'. do 3 (split; [done|]). intros q Hq. specialize (Hb (q - from) ltac:(lia)).
  replace (from + (q - from)) with q in Hb by lia. exact Hb.
Qed.

(** [.*d], everywhere in [xdyy]. *)
Lemma sweep_answers_witness :
  let P := mk_prog [ISplit 1 2; IChar 1 0; IChar 0 3; IMatch] 0 0 in
  let pr := mk_programs [one 100; all] [] P P P P P [P] 2 1 in
  exists lv' o', sweep (fun _ _ (o : unit) => Ok (true, o)) pr P [120; 100; 121; 121]%Z 0 4 new_level () = Ok ([3]%Z, lv', o') /\ level_ok lv'.
Proof.
  intros P pr.
  destruct (sweep_answers (fun _ _ (o : unit) => Ok (true, o)) pr P [120; 100; 121; 121]%Z 4 (fun _ _ => true) (fun _ => True) 0 new_level ())
    as (bits & lv' & o' & Hs & _ & Hl & _).
  - reflexivity.
  - intros pc s mn mx g x Hi. unfold inst_at in Hi. destruct (N.to_nat pc) as [|[|[|[|n]]]]; done.
  - intros pc l x pos o Hi _. by exists o.
  - simpl. lia.
  - lia.
  - done.
  - done.
  - exists lv', o'. split; [|exact Hl]. rewrite Hs. vm_compute in Hs. injection Hs as <- <- <-. reflexivity.
Defined.
