(* ===== verification/LookMemoOk.v ===== *)
(** The memoized walk and the sweep answer as the plain walk does.

    [memo_valid] is what a lookahead's memo promises: the outcome recorded
    for a set over a run of positions is that of a walk from that set at any
    of them, and the swept bit of a position is that of a walk from there.
    [memo_walk_ok]: whatever a valid memo holds, the answer is whether some
    path is accepted, and the memo stays valid. *)

From Stdlib Require Import ZArith Lia.
From stdpp Require Import base option numbers relations gmap sorting list_numbers list.
From S2P Require Import Prelude CharSet Hir Nfa Search Machine SparseSet BTree Looks LookMemo Sweep.

(** The walk's step leaves the path as it is. *)
Lemma step_states_path {O} (hold : N -> nat -> O -> result fault (bool * O)) pr P t wend at_ pos k i lv o found lv' o' :
  step_states hold pr P t wend at_ pos k i lv o = Ok (found, lv', o') -> path lv' = path lv.
Proof.
  revert i lv o. induction k as [|k IH]; intros i lv o; cbn [step_states]; [by intros [= _ <- _]|].
  destruct (SparseSet.get i (cur lv)); [|done]. destruct (inst_at P n) as [[set nx|x y|nx|slot nx|look nx|nx|set mn mx g nx|]|]; try done; try (by apply IH).
  - destruct (reads pr t wend set pos) as [[]|]; [|by apply IH|done].
    destruct (closure hold P wend nx (pos + 1) (next lv) o) as [[s o1]|]; [|done].
    intros Hs. apply IH in Hs. exact Hs.
  - case_match; [by intros [= _ <- _]|by apply IH].
Qed.

Section memo_ok.
Context {O : Type} (hold : N -> nat -> O -> result fault (bool * O)).
Variables (pr : Programs) (P : Prog) (t : text) (wend : nat).
Variable look_at : N -> nat -> bool.
Variable oinv : O -> Prop.
Hypothesis wf : prog_wf pr P = true.
Hypothesis no_runs : forall pc s mn mx g x, inst_at P pc <> Some (IRun s mn mx g x).
Hypothesis hold_ok : forall pc l x pos o, inst_at P pc = Some (ILook l x) -> oinv o ->
  exists o', hold l pos o = Ok (look_at l pos, o') /\ oinv o'.
Hypothesis text_end : wend <= length t.

Abbreviation n := (length (insts P)).
Abbreviation set_at := (set_at pr t wend).
Abbreviation wins := (wins P set_at look_at wend wend (ends_at None)).
Abbreviation set_ok := (set_ok P).
Abbreviation closed := (closed P wend look_at).
Abbreviation ereach := (ereach P wend look_at).
Abbreviation eps := (eps P wend look_at).
Abbreviation level_ok := (@level_ok).

(** Some state of a set wins at a position. *)
Definition some_wins (pos : nat) (S : list N) : Prop := exists v, v ∈ S /\ wins (v, pos).

Record memo_valid (m : LookMemo) : Prop := mk_memo_valid {
  mv_size : size (ids m) = length (runs m);
  mv_inj : forall k1 k2 i, ids m !! k1 = Some i -> ids m !! k2 = Some i -> k1 = k2;
  mv_range : forall k i, ids m !! k = Some i -> N.to_nat i < length (runs m);
  mv_sorted : Forall BTree.sorted (runs m);
  mv_runs : forall k i r from to outcome, ids m !! k = Some i -> runs m !! N.to_nat i = Some r ->
    (from, (to, outcome)) ∈ r -> forall p, (from <= Z.of_nat p)%Z -> p < to -> (outcome = true <-> some_wins p k);
  mv_lo : (0 <= lo m)%Z;
  mv_swept : forall q, exists r, swept_at m q wend = Some r /\ forall b, r = Some b -> (b = true <-> wins (start P, q));
}.

(** The positions of a path, if its walk's outcome is [Q]. *)
Definition path_valid (m : LookMemo) (pth : list (N * nat * nat)) (Q : Prop) : Prop :=
  Forall (fun e => let '(id, from, to) := e in
    exists k, ids m !! k = Some id /\ forall p, from <= p < to -> (some_wins p k <-> Q)) pth.

Lemma path_valid_iff m pth Q Q' : (Q <-> Q') -> path_valid m pth Q -> path_valid m pth Q'.
Proof.
  intros HQ H. eapply Forall_impl; [exact H|]. intros [[id from] to] (k & Hk & Hp). exists k. split; [done|].
  intros p Hr. by rewrite Hp.
Qed.

(** *** The sets of a memo *)

(** A walk's set, by its character states: they decide what it answers. *)
Lemma set_key_wins pos s :
  set_ok s -> closed pos (SparseSet.as_slice s) ->
  existsb (is_match_inst P) (SparseSet.as_slice s) = false ->
  some_wins pos (SparseSet.as_slice s) <-> some_wins pos (set_key P s).
Proof.
  intros Hs Hc Hm.
  assert (Hin : forall v, v ∈ set_key P s <-> v ∈ SparseSet.as_slice s /\ is_char_inst P v = true).
  { intros v. unfold set_key. rewrite merge_sort_Permutation, !list_elem_of_In. apply filter_In. }
  assert (Hnm : forall v, v ∈ SparseSet.as_slice s -> inst_at P v <> Some IMatch).
  { intros v Hv Hi. assert (Ht : existsb (is_match_inst P) (SparseSet.as_slice s) = true); [|congruence].
    apply existsb_exists. exists v. split; [by apply list_elem_of_In|]. unfold is_match_inst. by rewrite Hi. }
  split; intros (v & Hv & Hw).
  - destruct (wins_closed pr P t wend look_at no_runs None pos _ v Hc Hv Hw) as [(m & Hmi & Hi & _)|(c & set & nx & Hci & Hi & Hst & Hw')].
    + by destruct (Hnm m Hmi).
    + exists c. split; [|by eapply wins_char]. apply Hin. split; [done|]. unfold is_char_inst. by rewrite Hi.
  - exists v. split; [|done]. by apply Hin in Hv as [Hv _].
Qed.

Lemma known_ok m id k pos :
  memo_valid m -> ids m !! k = Some id ->
  exists b, known m id pos = Some b /\ forall outcome, b = Some outcome -> (outcome = true <-> some_wins pos k).
Proof.
  intros Hm Hk. unfold known.
  destruct (lookup_lt_is_Some_2 (runs m) (N.to_nat id)) as [r Hr]; [by eapply mv_range|].
  rewrite Hr. cbn [mbind option_bind]. eexists. split; [done|]. intros outcome.
  assert (Hs : BTree.sorted r) by (apply (Forall_lookup_1 _ _ _ _ (mv_sorted _ Hm) Hr)).
  destruct (BTree.floor (Z.of_nat pos) r) as [[from [to oc]]|] eqn:Hf; [|done].
  destruct (floor_some _ _ _ Hs Hf) as (Hin & Hle & _). simpl in Hle.
  destruct (Nat.ltb_spec pos to) as [Hlt|]; [|done]. intros [= ->].
  by apply (mv_runs _ Hm k id r from to outcome).
Qed.

Lemma clear_sets_valid m : memo_valid m -> memo_valid (clear_sets m).
Proof.
  intros Hm. split; cbn [clear_sets ids runs lo].
  - by rewrite map_size_empty.
  - intros k1 k2 i Hk. by rewrite lookup_empty in Hk.
  - intros k i Hk. by rewrite lookup_empty in Hk.
  - constructor.
  - intros k i r from to oc Hk. by rewrite lookup_empty in Hk.
  - apply Hm.
  - apply (mv_swept _ Hm).
Qed.

(** A set gets a number of its own. *)
Lemma intern_ok k m pth Q :
  memo_valid m -> path_valid m pth Q ->
  exists id m' pth', intern k m pth = (id, m', pth') /\ memo_valid m' /\ ids m' !! k = Some id /\ path_valid m' pth' Q.
Proof.
  intros Hm Hp. unfold intern. destruct (ids m !! k) as [id|] eqn:Hk; [by exists id, m, pth|].
  assert (Hc : exists m1 pth1, (if (MEMO_SETS <=? size (ids m))%nat then (clear_sets m, []) else (m, pth)) = (m1, pth1) /\
    memo_valid m1 /\ ids m1 !! k = None /\ path_valid m1 pth1 Q).
  { destruct (MEMO_SETS <=? size (ids m))%nat.
    - exists (clear_sets m), []. split; [done|]. split; [by apply clear_sets_valid|]. split; [done|constructor].
    - by exists m, pth. }
  destruct Hc as (m1 & pth1 & -> & Hm1 & Hk1 & Hp1).
  eexists _, _, pth1. split; [reflexivity|]. destruct Hm1 as [V1 V2 V3 V4 V5 V6 V7].
  split; [split; cbn [ids runs lo swept]|split].
  - by rewrite map_size_insert_None, length_app, V1, Nat.add_1_r.
  - intros k1 k2 i. rewrite !lookup_insert. repeat case_decide; subst; try done.
    + intros [= <-] H2. apply V3 in H2. rewrite Nat2N.id, V1 in H2. lia.
    + intros H1 [= <-]. apply V3 in H1. rewrite Nat2N.id, V1 in H1. lia.
    + apply V2.
  - intros k1 i. rewrite lookup_insert, length_app. simpl. case_decide.
    + intros [= <-]. rewrite Nat2N.id, V1. lia.
    + intros H1. apply V3 in H1. lia.
  - apply Forall_app. split; [done|]. constructor; [constructor|constructor].
  - intros k1 i r from to oc. rewrite lookup_insert. case_decide.
    + intros [= <-] Hr. rewrite Nat2N.id, V1, lookup_app_r, Nat.sub_diag in Hr by lia.
      injection Hr as <-. intros Hin. by apply elem_of_nil in Hin.
    + intros H1 Hr. rewrite lookup_app_l in Hr by (by eapply V3). by eapply V5.
  - done.
  - exact V7.
  - cbn [ids]. by rewrite lookup_insert_eq.
  - eapply Forall_impl; [exact Hp1|]. intros [[id' from] to] (k' & Hk' & Hpp). exists k'. split; [|done].
    cbn [ids]. rewrite lookup_insert_ne; [done|]. intros ->. congruence.
Qed.

Lemma note_path_ok m id k pos pth (Q : Prop) :
  memo_valid m -> ids m !! k = Some id -> (some_wins pos k <-> Q) -> path_valid m pth Q -> path_valid m (note_path id pos pth) Q.
Proof.
  intros Hm Hk HQ Hp.
  assert (Hone : path_valid m [(id, pos, S pos)] Q).
  { constructor; [|constructor]. exists k. split; [done|]. intros p Hr. by assert (p = pos) as -> by lia. }
  unfold note_path. destruct pth as [|[[id' from] to] pth]; [done|].
  destruct ((id' =? id)%N && (to =? pos)%nat) eqn:E.
  - cleanb. subst id' to. apply Forall_cons in Hp as [(k' & Hk' & Hr') Hp']. constructor; [|done].
    exists k'. split; [done|]. intros p Hr. destruct (decide (p = pos)) as [->|Hne]; [|apply Hr'; lia].
    by rewrite (mv_inj _ Hm _ _ _ Hk' Hk).
  - apply Forall_cons in Hone as [Hone _]. by constructor.
Qed.

(** The outcome of a walk is recorded for its path. *)
Lemma record_path_ok oc pth m :
  memo_valid m -> path_valid m pth (oc = true) ->
  exists m', record_path oc pth m = Some m' /\ memo_valid m' /\ ids m' = ids m /\ length (runs m') = length (runs m).
Proof.
  intros Hm. induction pth as [|[[id from] to] pth IH]; intros Hp; [by exists m|].
  apply Forall_cons in Hp as [(k & Hk & Hr) Hp]. cbn [record_path fold_right].
  destruct (IH Hp) as (m1 & H1 & Hm1 & Hi1 & Hl1). unfold record_path in H1. rewrite H1. cbn [mbind option_bind].
  destruct (lookup_lt_is_Some_2 (runs m1) (N.to_nat id)) as [r Hlr]; [rewrite Hl1; by eapply mv_range|].
  rewrite Hlr. eexists. split; [reflexivity|]. cbn [ids runs]. split; [|split; [done|by rewrite length_insert]].
  assert (Hs : BTree.sorted r) by (apply (Forall_lookup_1 _ _ _ _ (mv_sorted _ Hm1) Hlr)).
  destruct Hm1 as [V1 V2 V3 V4 V5 V6 V7]. split; cbn [ids runs lo].
  - by rewrite length_insert.
  - done.
  - intros k' i Hki. rewrite length_insert. by eapply V3.
  - apply Forall_insert; [done|]. by apply insert_sorted.
  - intros k' i r' from' to' oc' Hki Hr' Hin p Hfrom Hto.
    destruct (decide (N.to_nat i = N.to_nat id)) as [He|Hne].
    + apply N2Nat.inj in He. subst i. rewrite list_lookup_insert_eq in Hr' by (by eapply lookup_lt_Some).
      injection Hr' as <-. apply insert_in in Hin as [Heq|[_ Hin]]; [|by eapply V5|done].
      injection Heq as -> -> ->. rewrite <- Hi1 in Hk. rewrite (V2 _ _ _ Hki Hk). symmetry. apply Hr. lia.
    + rewrite list_lookup_insert_ne in Hr' by done. by eapply V5.
  - done.
  - exact V7.
Qed.

(** Reading a character, without a match among the states, is the plain
    walk's step. *)
Lemma memo_states_eq c pos k i lv o :
  pos < wend -> t !! pos = Some c -> set_ok (cur lv) -> i + k = len (cur lv) ->
  (forall v, v ∈ SparseSet.as_slice (cur lv) -> inst_at P v <> Some IMatch) ->
  memo_states hold pr P wend c pos k i lv o =
  match step_states hold pr P t wend None pos k i lv o with
  | Ok (_, lv, o) => Ok (lv, o)
  | Err e => Err e
  end.
Proof.
  intros Hp Ht. revert i lv o. induction k as [|k IH]; intros i lv o Hc Hk Hm; [done|]. cbn [memo_states step_states].
  destruct (lookup_lt_is_Some_2 (SparseSet.as_slice (cur lv)) i) as [pc Hpc]; [rewrite elems_length by apply Hc; lia|].
  rewrite (get_ok _ _ _ Hpc).
  assert (Hin : pc ∈ SparseSet.as_slice (cur lv)) by (by eapply list_elem_of_lookup_2).
  specialize (Hm pc Hin) as Hpm. destruct (inst_at P pc) as [[set nx|x y|nx|slot nx|look nx|nx|set mn mx g nx|]|] eqn:Hi;
    try (apply IH; done || lia); try done.
  unfold reads, get_in. rewrite (proj2 (Nat.ltb_lt _ _)) by done. rewrite Ht.
  destruct (sets pr !! N.to_nat set) as [st|]; cbn [mbind option_bind]; [|done].
  destruct (CharSet.contains st c); [|apply IH; done || lia].
  destruct (closure hold P wend nx (pos + 1) (next lv) o) as [[s o']|e]; [|done].
  apply IH; cbn [cur]; done || lia.
Qed.

(** What a position answers, the next one does. *)
Lemma memo_step_ok c pos lv o :
  pos < wend -> t !! pos = Some c -> set_ok (cur lv) -> closed pos (SparseSet.as_slice (cur lv)) ->
  set_ok (next lv) -> SparseSet.as_slice (next lv) = [] -> oinv o ->
  existsb (is_match_inst P) (SparseSet.as_slice (cur lv)) = false ->
  exists lv' o', memo_states hold pr P wend c pos (len (cur lv)) 0 lv o = Ok (lv', o') /\ oinv o' /\
    cur lv' = cur lv /\ path lv' = path lv /\ set_ok (next lv') /\ closed (S pos) (SparseSet.as_slice (next lv')) /\
    (some_wins pos (SparseSet.as_slice (cur lv)) <-> some_wins (S pos) (SparseSet.as_slice (next lv'))).
Proof.
  intros Hp Ht Hc Hcl Hn Hne Ho Hm.
  assert (Hnm : forall v, v ∈ SparseSet.as_slice (cur lv) -> inst_at P v <> Some IMatch).
  { intros v Hv Hi. assert (Htr : existsb (is_match_inst P) (SparseSet.as_slice (cur lv)) = true); [|congruence].
    apply existsb_exists. exists v. split; [by apply list_elem_of_In|]. unfold is_match_inst. by rewrite Hi. }
  rewrite memo_states_eq by (done || lia).
  assert (Hcl1 : closed (S pos) (SparseSet.as_slice (next lv))) by (rewrite Hne; intros a b Ha; by apply elem_of_nil in Ha).
  destruct (step_states_ok hold pr P t wend look_at oinv wf no_runs hold_ok None pos _ 0 lv o Hc Hn Hcl1 Ho eq_refl)
    as (found & lv1 & o1 & Hst & Ho1 & E1 & E2 & E3 & E4).
  rewrite Hst. exists lv1, o1. do 3 (split; [done|]).
  split; [by eapply step_states_path|]. do 2 (split; [done|]).
  destruct found; [destruct E4 as (m & Hmi & Hi & _); by destruct (Hnm m Hmi)|].
  destruct E4 as [_ Enx]. rewrite drop_0 in Enx. split; intros (v & Hv & Hw).
  - destruct (wins_closed pr P t wend look_at no_runs None pos _ v Hcl Hv Hw) as [(m & Hmi & Hi & _)|(c' & set & nx & Hci & Hi & Hs & Hw')].
    + by destruct (Hnm m Hmi).
    + exists nx. split; [|done]. apply Enx. right. exists c', set, nx. do 3 (split; [done|]). apply rtc_refl.
  - apply Enx in Hv as [Hv|(c' & set & nx & Hci & Hi & Hs & Hr)]; [rewrite Hne in Hv; by apply elem_of_nil in Hv|].
    exists c'. split; [done|]. eapply wins_char; [done..|]. by eapply wins_ereach.
Qed.

Lemma memo_loop_ok fuel pos steps m lv o :
  set_ok (cur lv) -> closed pos (SparseSet.as_slice (cur lv)) -> set_ok (next lv) -> oinv o ->
  memo_valid m -> path_valid m (path lv) (some_wins pos (SparseSet.as_slice (cur lv))) ->
  wend - pos < fuel ->
  exists oc steps' m' lv' o', memo_loop hold pr P t wend fuel pos steps m lv o = Ok (oc, steps', m', lv', o') /\ oinv o' /\
    set_ok (cur lv') /\ set_ok (next lv') /\ memo_valid m' /\ path_valid m' (path lv') (oc = true) /\
    (oc = true <-> some_wins pos (SparseSet.as_slice (cur lv))).
Proof.
  revert pos steps m lv o. induction fuel as [|fuel IH]; intros pos steps m lv o Hc Hcl Hn Ho Hm Hp Hf; [lia|].
  cbn [memo_loop]. destruct (existsb (is_match_inst P) (SparseSet.as_slice (cur lv))) eqn:Hex.
  { assert (Hw : some_wins pos (SparseSet.as_slice (cur lv))).
    { apply existsb_exists in Hex as (v & Hv & Hvm). exists v. split; [by apply list_elem_of_In|].
      apply wins_leaf; [|done]. unfold is_match. unfold is_match_inst in Hvm. by destruct (inst_at P v) as [[]|]. }
    exists true, steps, m, lv, o. do 5 (split; [done|]). split; [|done]. eapply path_valid_iff; [|exact Hp]. done. }
  assert (Hkey := set_key_wins pos (cur lv) Hc Hcl Hex).
  set (Q := some_wins pos (SparseSet.as_slice (cur lv))) in *.
  assert (Hmid : exists m1 lv1 b,
    (match (if (MEMO_AFTER <=? steps)%nat then Some (intern (set_key P (cur lv)) m (path lv)) else None) with
     | None => Some (None, m, lv)
     | Some (id, m, pth) =>
         match known m id pos with
         | None => None
         | Some (Some oc) => Some (Some oc, m, mk_level (cur lv) (next lv) pth)
         | Some None => Some (None, m, mk_level (cur lv) (next lv) (note_path id pos pth))
         end
     end) = Some (b, m1, lv1) /\ memo_valid m1 /\ cur lv1 = cur lv /\ next lv1 = next lv /\
     path_valid m1 (path lv1) Q /\ forall oc, b = Some oc -> (oc = true <-> Q)).
  { destruct (MEMO_AFTER <=? steps)%nat; [|exists m, lv, None; by do 5 (split; [done|])].
    destruct (intern_ok (set_key P (cur lv)) m (path lv) Q Hm Hp) as (id & m1 & pth1 & -> & Hm1 & Hk1 & Hp1).
    destruct (known_ok m1 id _ pos Hm1 Hk1) as (b & -> & Hb). destruct b as [oc|].
    - exists m1, (mk_level (cur lv) (next lv) pth1), (Some oc). do 5 (split; [done|]).
      intros oc' [= <-]. rewrite (Hb oc eq_refl). by rewrite <- Hkey.
    - exists m1, (mk_level (cur lv) (next lv) (note_path id pos pth1)), None. do 4 (split; [done|]).
      split; [|done]. cbn [path]. by eapply note_path_ok. }
  destruct Hmid as (m1 & lv1 & b & -> & Hm1 & E1 & E2 & Hp1 & Hb).
  destruct b as [oc|].
  { exists oc, steps, m1, lv1, o. split; [done|]. split; [done|]. rewrite E1, E2. do 3 (split; [done|]).
    assert (Hoc := Hb oc eq_refl). split; [|done]. eapply path_valid_iff; [|exact Hp1]. done. }
  clear Hb. destruct (Nat.leb_spec wend pos) as [Hend|Hlt].
  { exists false, steps, m1, lv1, o. split; [done|]. split; [done|]. rewrite E1, E2. do 3 (split; [done|]).
    assert (Hnq : ~ Q).
    { rewrite Hkey. intros (v & Hv & Hw).
      unfold set_key in Hv. rewrite merge_sort_Permutation in Hv.
      apply list_elem_of_In, filter_In in Hv as [_ Hv]. unfold is_char_inst in Hv.
      inversion Hw as [pc p Hmt|v0 v' Hin Hw']; subst.
      - unfold is_match in Hmt. by destruct (inst_at P v) as [[]|].
      - unfold succs in Hin. destruct (inst_at P v) as [[]|]; try done.
        destruct (set_at set pos) eqn:Hs; [|by apply elem_of_nil in Hin]. apply set_at_lim in Hs. lia. }
    split; [|done]. eapply path_valid_iff; [|exact Hp1]. done. }
  destruct (lookup_lt_is_Some_2 t pos) as [c Hct]; [lia|]. rewrite Hct, E1.
  destruct (SparseSet.clear_ok (next lv1)) as [Q1 Q2]; [rewrite E2; apply Hn|].
  assert (Hcs : set_ok (SparseSet.clear (next lv1))).
  { split; [done|rewrite E2; apply (so_capacity _ _ Hn)|]. by rewrite Q2. }
  destruct (memo_step_ok c pos (mk_level (cur lv) (SparseSet.clear (next lv1)) (path lv1)) o Hlt Hct Hc Hcl Hcs Q2 Ho Hex)
    as (lv2 & o2 & Hst & Ho2 & G1 & G2 & G3 & G4 & G5).
  cbn [cur] in Hst. rewrite Hst. cbn [cur path] in G1, G2, G5. fold Q in G5.
  destruct (SparseSet.is_empty (next lv2)) eqn:Hemp.
  { exists false, steps, m1, lv2, o2. split; [done|]. split; [done|]. rewrite G1. do 3 (split; [done|]).
    assert (Hnq : ~ Q).
    { rewrite G5. intros (v & Hv & _). unfold SparseSet.is_empty in Hemp. cleanb.
      assert (Hl := elems_length _ (so_ok _ _ G3)). rewrite Hemp in Hl. apply nil_length_inv in Hl.
      rewrite Hl in Hv. by apply elem_of_nil in Hv. }
    rewrite G2. split; [|done]. eapply path_valid_iff; [|exact Hp1]. done. }
  destruct (IH (S pos) (S steps) m1 (mk_level (next lv2) (cur lv2) (path lv2)) o2)
    as (oc & steps' & m' & lv' & o' & F1 & F2 & F3 & F4 & F5 & F6 & F7); cbn [cur next path]; try done.
  - by rewrite G1.
  - rewrite G2. by eapply path_valid_iff; [|exact Hp1].
  - lia.
  - exists oc, steps', m', lv', o'. do 6 (split; [done|]). by rewrite F7, G5.
Qed.

(** *** The walk, or the sweep it is due *)

Lemma intern_gen k m pth : m_gen (snd (fst (intern k m pth))) = m_gen m.
Proof. unfold intern. destruct (ids m !! k); [done|]. by destruct (MEMO_SETS <=? size (ids m))%nat. Qed.

Lemma memo_loop_gen fuel pos steps m lv o oc steps' m' lv' o' :
  memo_loop hold pr P t wend fuel pos steps m lv o = Ok (oc, steps', m', lv', o') -> m_gen m' = m_gen m.
Proof.
  revert pos steps m lv o. induction fuel as [|fuel IH]; intros pos steps m lv o; [done|]. cbn [memo_loop].
  destruct (existsb _ _); [by intros [= _ _ <- _ _]|].
  assert (Hm1 : forall id m1 pth1, intern (set_key P (cur lv)) m (path lv) = (id, m1, pth1) -> m_gen m1 = m_gen m).
  { intros id m1 pth1 He. assert (Hg := intern_gen (set_key P (cur lv)) m (path lv)). by rewrite He in Hg. }
  destruct (if (MEMO_AFTER <=? steps)%nat then _ else _) as [[[id m1] pth1]|] eqn:Hint.
  - destruct (MEMO_AFTER <=? steps)%nat; [|done]. injection Hint as Hint. specialize (Hm1 _ _ _ Hint).
    destruct (known m1 id pos) as [[b|]|]; [by intros [= _ _ <- _ _]| |done].
    destruct (wend <=? pos)%nat; [by intros [= _ _ <- _ _]|]. destruct (t !! pos); [|done].
    destruct (memo_states _ _ _ _ _ _ _ _ _ _) as [[lv2 o2]|]; [|done].
    destruct (SparseSet.is_empty _); [by intros [= _ _ <- _ _]|]. intros H. apply IH in H. congruence.
  - destruct (wend <=? pos)%nat; [by intros [= _ _ <- _ _]|]. destruct (t !! pos); [|done].
    destruct (memo_states _ _ _ _ _ _ _ _ _ _) as [[lv2 o2]|]; [|done].
    destruct (SparseSet.is_empty _); [by intros [= _ _ <- _ _]|]. intros H. by apply IH in H.
Qed.

Lemma record_path_gen oc pth m m' : record_path oc pth m = Some m' -> m_gen m' = m_gen m.
Proof.
  unfold record_path. revert m'. induction pth as [|[[id from] to] pth IH]; intros m'; [by intros [= <-]|]. cbn [fold_right].
  destruct (fold_right _ _ pth) as [m1|]; [|done]. cbn [mbind option_bind].
  destruct (runs m1 !! N.to_nat id); [|done]. intros [= <-]. cbn [m_gen]. by apply IH.
Qed.

(** The memo, but for the counters. *)
Lemma memo_valid_counters g l st m :
  memo_valid m -> (0 <= l)%Z -> memo_valid (mk_memo g (ids m) (runs m) l st (swept m)).
Proof. intros [V1 V2 V3 V4 V5 V6 V7] Hl. split; cbn [ids runs lo]; try done. Qed.

Lemma memo_walk_ok q m lv o :
  memo_valid m -> level_ok lv -> oinv o ->
  exists oc steps m' lv' o', memo_walk hold pr P t wend q m lv o = Ok (oc, steps, m', lv', o') /\ oinv o' /\
    level_ok lv' /\ memo_valid m' /\ m_gen m' = m_gen m /\ (oc = true <-> wins (start P, q)).
Proof.
  intros Hm Hl Ho. unfold memo_walk.
  assert (Hlo := mv_lo _ Hm).
  set (m0 := if (q <=? wend)%nat then _ else m).
  assert (Hm0 : memo_valid m0 /\ m_gen m0 = m_gen m /\ (q <= wend -> lo m0 = Z.min (lo m) (Z.of_nat q))).
  { unfold m0. destruct (Nat.leb_spec q wend); [|split; [done|split; [done|lia]]].
    split; [apply memo_valid_counters; [done|lia]|done]. }
  destruct Hm0 as (Hm0 & Hg0 & Hl0). clearbody m0.
  destruct ((q <=? wend)%nat && sweep_due m0 wend) eqn:Hdue.
  - apply andb_true_iff in Hdue as [Hq _]. cleanb. specialize (Hl0 Hq).
    destruct (sweep_ok hold pr P t wend look_at oinv wf no_runs hold_ok text_end (Z.to_nat (lo m0)) lv o) as
      (bits & lv' & o' & -> & G1 & G2 & G3); [lia|done|done|].
    set (m1 := mk_memo _ _ _ _ _ _).
    assert (Hsw : forall q', exists r, swept_at m1 q' wend = Some r /\ (forall b, r = Some b -> (b = true <-> wins (start P, q'))) /\
      (Z.to_nat (lo m0) <= q' <= wend -> r <> None)).
    { intros q'. unfold swept_at, m1. cbn [swept].
      destruct ((q' <? Z.to_nat (lo m0))%nat || (wend <? q')%nat) eqn:Hr.
      - exists None. split; [done|]. split; [done|]. apply orb_true_iff in Hr as [Hr|Hr]; cleanb; lia.
      - cleanb. destruct (G3 (q' - Z.to_nat (lo m0)) ltac:(lia)) as (w & Hw & Hiff). rewrite Hw. cbn [mbind option_bind].
        eexists. split; [reflexivity|]. split; [|done]. intros b [= <-]. rewrite Hiff.
        by replace (Z.to_nat (lo m0) + (q' - Z.to_nat (lo m0))) with q' by lia. }
    destruct (Hsw q) as (r & -> & Hr & Hin). eexists _, _, m1, lv', o'. split; [reflexivity|]. split; [done|]. split; [done|].
    split; [destruct Hm0 as [V1 V2 V3 V4 V5 V6 V7]; split; try done; intros q'; destruct (Hsw q') as (r' & H1 & H2 & _); by exists r'|].
    split; [done|]. rewrite bool_decide_eq_true. destruct r as [b|]; [|destruct Hin; [lia|done]].
    rewrite <- (Hr b eq_refl). split; [by intros [= ->]|by intros ->].
  - destruct Hl as [L1 L2].
    destruct (resize_set_ok P _ L1) as [R1 R2]. destruct (resize_set_ok P _ L2) as [R3 R4].
    assert (Hst : in_prog P (start P)) by (apply lookup_lt_is_Some_1, (wf_start pr P wf)).
    destruct (closure_ok hold pr P wend look_at oinv wf no_runs hold_ok (start P) q (SparseSet.resize n (cur lv)) o R1)
      as (s & o1 & -> & C2 & C3 & C4 & C5); [rewrite R2; intros a b Ha; by apply elem_of_nil in Ha|done|done|].
    destruct (memo_loop_ok (1 + (wend - q)) q 0 m0 (mk_level s (SparseSet.resize n (next lv)) []) o1)
      as (oc & steps & m1 & lv1 & o2 & Hrun & Ho2 & F1 & F2 & F3 & F4 & F5); cbn [cur next path]; try done; [constructor|lia|].
    rewrite Hrun. apply memo_loop_gen in Hrun.
    set (m2 := mk_memo _ _ _ _ _ _).
    assert (Hm2 : memo_valid m2) by (apply memo_valid_counters; [done|apply F3]).
    destruct (record_path_ok oc (path lv1) m2 Hm2 F4) as (m3 & Hrec & Hm3 & _). rewrite Hrec.
    apply record_path_gen in Hrec.
    destruct (SparseSet.clear_ok (cur lv1) (so_ok _ _ F1)) as [Q1 _].
    destruct (SparseSet.clear_ok (next lv1) (so_ok _ _ F2)) as [Q2 _].
    eexists _, _, m3, _, o2. split; [reflexivity|]. split; [done|].
    split; [split; cbn [cur next]; [exact (ss_length _ Q1)|exact (ss_length _ Q2)]|].
    split; [done|]. split; [rewrite Hrec; unfold m2; cbn [m_gen]; congruence|].
    rewrite F5. cbn [cur]. split.
    + intros (v & Hv & Hw). apply C5 in Hv as [Hv|Hv]; [rewrite R2 in Hv; by apply elem_of_nil in Hv|].
      by eapply wins_ereach.
    + intros Hw. exists (start P). split; [|done]. apply C5. right. apply rtc_refl.
Qed.
End memo_ok.

(** ** The property *)

(** With any memo that holds only true outcomes, the memoized walk of a
    lookahead answers what the plain walk does (is some path accepted?),
    and leaves a memo that holds only true outcomes: interning, the limit on
    sets, the recorded runs of positions and the switch to the sweep change
    no answer. *)
Theorem memo_walk_answers {O} (hold : N -> nat -> O -> result fault (bool * O)) pr P t wend look_at (oinv : O -> Prop) q m lv o :
  prog_wf pr P = true -> (forall pc s mn mx g x, inst_at P pc <> Some (IRun s mn mx g x)) ->
  (forall pc l x pos o, inst_at P pc = Some (ILook l x) -> oinv o -> exists o', hold l pos o = Ok (look_at l pos, o') /\ oinv o') ->
  wend <= length t -> memo_valid pr P t wend look_at m -> level_ok lv -> oinv o ->
  exists oc steps m' lv' o', memo_walk hold pr P t wend q m lv o = Ok (oc, steps, m', lv', o') /\ oinv o' /\
    memo_valid pr P t wend look_at m' /\
    (oc = true <-> wins P (set_at pr t wend) look_at wend wend (ends_at None) (start P, q)).
Proof.
  intros H1 H2 H3 H4 Hm Hl Ho.
  destruct (memo_walk_ok hold pr P t wend look_at oinv H1 H2 H3 H4 q m lv o Hm Hl Ho) as (oc & steps & m' & lv' & o' & Hw & Ho' & _ & Hm' & _ & Hoc).
  by exists oc, steps, m', lv', o'.
Qed.

(** [.*d] from 0 in a text of twelve [x] and a [d]: the walk is long enough
    to be memoized. *)
Lemma memo_walk_answers_witness :
  let P := mk_prog [ISplit 1 2; IChar 1 0; IChar 0 3; IMatch] 0 0 in
  let pr := mk_programs [one 100; all] [] P P P P P [P] 2 1 in
  let t := (replicate 12 120 ++ [100])%Z in
  exists m' lv' o', memo_walk (fun _ _ (o : unit) => Ok (true, o)) pr P t 13 0 default_memo new_level () = Ok (true, 13%Z, m', lv', o') /\
    memo_valid pr P t 13 (fun _ _ => true) m' /\ size (ids m') = 1.
Proof.
  intros P pr t.
  destruct (memo_walk_answers (fun _ _ (o : unit) => Ok (true, o)) pr P t 13 (fun _ _ => true) (fun _ => True) 0 default_memo new_level ())
    as (oc & steps & m' & lv' & o' & Hs & _ & Hm & _).
  - reflexivity.
  - intros pc s mn mx g x Hi. unfold inst_at in Hi. destruct (N.to_nat pc) as [|[|[|[|n]]]]; done.
  - intros pc l x pos o Hi _. by exists o.
  - vm_compute. lia.
  - split; try done. intros q. exists None. by split.
  - done.
  - done.
  - exists m', lv', o'. rewrite Hs. vm_compute in Hs. injection Hs as <- <- <- <- <-. split; [reflexivity|]. split; [exact Hm|reflexivity].
Defined.
