(* ===== verification/LooksOk.v ===== *)
(** The tests the matchers ask ([linre/looks.rs]) hold exactly where the
    reference says.

    [holds_ok]: whatever the oracle remembers of this text, [holds] answers
    [look_sem] — by the simple rules, the fixed sequences, the walk of a
    lookaround's program, its memoized walk or its sweep — and the oracle
    stays valid.  This discharges [OracleLaws], which is all the matchers'
    theorems use of this file.  [begin_ok]: a text's first question forgets
    the others. *)

From Stdlib Require Import ZArith Lia.
From stdpp Require Import base option numbers relations gmap sorting list_numbers list.
From S2P Require Import Prelude CharSet Hir Nfa Search NfaCorrect NfaSearch Machine NfaWf Compile SparseSet BTree Looks Meaning Flat LookMemo Sweep LookMemoOk.

Section looks_ok.
Context `{UnicodeTables}.
Variables (h : Hir) (ss : list CharSet) (ls : list Look) (ng : N) (pr : Programs).
Variables (addr : Z) (t : text) (wend : nat).
Hypothesis comp : compiled h ss ls ng pr.
Hypothesis ls_wf : looks_wf (length ss) ng ls.
Hypothesis text_end : wend <= length t.
Hypothesis text_chars : Forall (fun c => 0 <= c)%Z t.
Hypothesis sets_canonical : canonical_sets (sets pr).

Abbreviation set_at := (set_at pr t wend).
Abbreviation look_sem := (look_sem pr ls t wend).
Abbreviation hit at_ body q := (found (hmatch set_at look_sem wend 0 false true body (ending at_) q [])).

(** ** The oracle's invariant *)

(** A lookahead's memo, against its program. *)
Definition memo_of (i : nat) (m : LookMemo) : Prop :=
  forall b n k w mx fl fi P, looks pr !! i = Some (DAround b n k w mx true fl fi) -> subs pr !! N.to_nat k = Some P ->
    memo_valid pr P t wend look_sem m.

(** Generation [g], [nl] levels and [nm] memos at least. *)
Record oracle_at (g : Z) (nl nm : nat) (o : Oracle) : Prop := mk_oracle_at {
  oa_levels : Forall level_ok (levels o);
  oa_key : key o = (addr, length t, wend);
  oa_gen : gen o = g;
  oa_nl : nl <= length (levels o);
  oa_nm : nm <= length (memos o);
  oa_memos : forall i m, memos o !! i = Some m -> m_gen m = g -> memo_of i m;
  oa_gens : (0 <= g)%Z /\ Forall (fun m => m_gen m <= g)%Z (memos o);
}.

Lemma new_level_ok : level_ok new_level.
Proof. by split. Qed.

Lemma empty_memo_valid P m : ids m = ∅ -> runs m = [] -> swept m = None -> (0 <= lo m)%Z -> memo_valid pr P t wend look_sem m.
Proof.
  intros Hi Hr Hs Hl. split; rewrite ?Hi, ?Hr.
  - by rewrite map_size_empty.
  - intros k1 k2 i Hk. by rewrite lookup_empty in Hk.
  - intros k i Hk. by rewrite lookup_empty in Hk.
  - constructor.
  - intros k i r from to oc Hk. by rewrite lookup_empty in Hk.
  - done.
  - intros q. exists None. split; [|done]. unfold swept_at. by rewrite Hs.
Qed.

Lemma default_memo_of i : memo_of i default_memo.
Proof. intros b n k w mx fl fi P _ _. by apply empty_memo_valid. Qed.

Lemma grow_levels_ok g nl nm depth o : oracle_at g nl nm o -> oracle_at g (max nl (S depth)) nm (grow_levels depth o).
Proof.
  intros [H1 H2 H3 H4 H5 H6 H7]. split; cbn [grow_levels levels key gen memos]; try done.
  - case_if; [|done]. apply Forall_app. split; [done|]. apply Forall_replicate, new_level_ok.
  - case_if; [|lia]. rewrite length_app, length_replicate. lia.
Qed.

Lemma grow_memos_ok g nl nm look o : oracle_at g nl nm o -> oracle_at g nl (max nm (S (N.to_nat look))) (grow_memos look o).
Proof.
  intros [H1 H2 H3 H4 H5 H6 H7]. split; cbn [grow_memos levels key gen memos]; try done.
  - case_if; [|lia]. rewrite length_app, length_replicate. lia.
  - intros i m. case_if; [|apply H6]. intros Hm. apply lookup_app_Some in Hm as [Hm|[_ Hm]]; [by apply H6|].
    apply lookup_replicate in Hm as [-> _]. intros _. apply default_memo_of.
  - destruct H7 as [H7 H8]. split; [done|]. case_if; [|done]. apply Forall_app. split; [done|]. by apply Forall_replicate.
Qed.

Lemma put_level_ok g nl nm depth lv o : oracle_at g nl nm o -> level_ok lv -> oracle_at g nl nm (put_level depth lv o).
Proof.
  intros [H1 H2 H3 H4 H5 H6 H7] Hl. split; cbn [put_level levels key gen memos]; try done.
  - by apply Forall_insert.
  - by rewrite length_insert.
Qed.

Lemma put_memo_ok g nl nm look m o : oracle_at g nl nm o -> memo_of (N.to_nat look) m -> (m_gen m <= g)%Z -> oracle_at g nl nm (put_memo look m o).
Proof.
  intros [H1 H2 H3 H4 H5 H6 H7] Hm Hg. split; cbn [put_memo levels key gen memos]; try done.
  - by rewrite length_insert.
  - intros i m' Hi Hg'. destruct (decide (i = N.to_nat look)) as [->|Hne].
    + destruct (decide (N.to_nat look < length (memos o))) as [Hlt|Hge].
      * rewrite list_lookup_insert_eq in Hi by done. by injection Hi as <-.
      * rewrite list_insert_ge in Hi by lia. by apply H6.
    + rewrite list_lookup_insert_ne in Hi by done. by apply H6.
  - destruct H7 as [H7 H8]. split; [done|]. by apply Forall_insert.
Qed.

Lemma oracle_at_weaken g nl nl' nm nm' o : nl' <= nl -> nm' <= nm -> oracle_at g nl nm o -> oracle_at g nl' nm' o.
Proof. intros Hl Hm [H1 H2 H3 H4 H5 H6 H7]. split; try done; lia. Qed.

Lemma check_key_ok g nl nm o : oracle_at g nl nm o -> check_key addr t wend o = o.
Proof. intros Ho. unfold check_key. rewrite (oa_key _ _ _ _ Ho). by rewrite bool_decide_eq_true_2. Qed.

(** ** One level *)

(** The walk of a lookaround's program is the search of its pattern. *)
Lemma sub_wins body P at_ q :
  hir_wf body -> build (ids_of ls) body false false true None [IMatch] = Ok P ->
  wins P set_at look_sem wend wend (ends_at at_) (start P, q) <-> hit at_ body q = true.
Proof.
  intros Hw Hb. destruct (build_with_spec (ids_of ls) (mk_options false false true false) body None [IMatch] P (ids_of_exact ls) eq_refl ltac:(done) Hb) as [_ Hp].
  specialize (Hp P ltac:(done)).
  assert (Hs := program_search P set_at look_sem wend wend 0 (ends_at at_) (set_at_lim pr t wend) (le_n _)
    (mk_options false false true false) body None [IMatch] (start P) q [] ltac:(done) Hw Logic.I Hp).
  rewrite <- (Srch_wins _ _ _ _ _ _ _ _ _ _ Hs). rewrite found_is_Some. done.
Qed.

Section level.
Variable hold : N -> nat -> Oracle -> result fault (bool * Oracle).
Variables (i : nat) (g : Z).
(** The tests before [i], one level deeper. *)
Hypothesis hold_ok : forall l p nl nm o, N.to_nat l < i -> oracle_at g nl nm o ->
  exists o', hold l p o = Ok (look_sem l p, o') /\ oracle_at g nl nm o'.

Lemma run_ok behind negate body lo hi P q at_ depth nl nm o :
  ls !! i = Some (LAround behind negate body lo hi) -> build (ids_of ls) body false false true None [IMatch] = Ok P ->
  oracle_at g nl nm o ->
  exists o', run pr t hold P q wend at_ depth o = Ok (hit at_ body q, o') /\ oracle_at g nl nm o'.
Proof.
  intros Hi Hb Ho. destruct (cp_sub_wf _ _ _ _ _ comp ls_wf _ _ _ _ _ _ _ Hi Hb) as (W1 & W2 & W3).
  destruct (ls_wf _ _ Hi) as (_ & Hw & _).
  unfold run. assert (Ho1 := grow_levels_ok g nl nm depth o Ho).
  destruct (lookup_lt_is_Some_2 (levels (grow_levels depth o)) depth) as [lv Hlv]; [pose proof (oa_nl _ _ _ _ Ho1); lia|].
  rewrite Hlv. assert (Hl := Forall_lookup_1 _ _ _ _ (oa_levels _ _ _ _ Ho1) Hlv).
  destruct (run_level_ok hold pr P t wend look_sem (oracle_at g (max nl (S depth)) nm) W1 W2) with
    (at_ := at_) (q := q) (lv := lv) (o := put_level depth new_level (grow_levels depth o))
    as (fnd & lv' & o' & -> & G1 & G2 & G3).
  - intros pc l x pos o0 Hl0 Ho0. apply hold_ok; [by eapply W3|done].
  - done.
  - by apply put_level_ok.
  - pose proof (oa_nl _ _ _ _ G1). rewrite (proj2 (Nat.ltb_lt _ _)) by lia.
    rewrite (sub_wins body P at_ q Hw Hb) in G3.
    exists (put_level depth lv' o'). split; [|apply put_level_ok; [|done]; eapply oracle_at_weaken; [| |exact G1]; lia].
    do 3 f_equal. by apply Bool.eq_true_iff_eq.
Qed.

Lemma run_memo_ok negate body lo hi k w mx fl fi P look q depth nl nm o :
  ls !! N.to_nat look = Some (LAround false negate body lo hi) -> i = N.to_nat look ->
  looks pr !! N.to_nat look = Some (DAround false negate k w mx true fl fi) -> subs pr !! N.to_nat k = Some P ->
  build (ids_of ls) body false false true None [IMatch] = Ok P ->
  oracle_at g nl nm o ->
  exists o', run_memo pr addr t hold look P q wend depth o = Ok (hit None body q, o') /\ oracle_at g nl nm o'.
Proof.
  intros Hi Hil Hd Hk Hb Ho. destruct (cp_sub_wf _ _ _ _ _ comp ls_wf _ _ _ _ _ _ _ Hi Hb) as (W1 & W2 & W3).
  destruct (ls_wf _ _ Hi) as (_ & Hw & _).
  assert (Hmo : forall m, memo_of (N.to_nat look) m <-> memo_valid pr P t wend look_sem m).
  { intros m. split; [intros Hm; by eapply Hm|]. intros Hm b n k' w' mx' fl' fi' P' Hd' Hk'. rewrite Hd in Hd'. injection Hd' as <- <- <- <- <- <- <-.
    rewrite Hk in Hk'. by injection Hk' as <-. }
  unfold run_memo. rewrite (check_key_ok _ _ _ _ Ho). rewrite Nat.min_l by done.
  assert (Ho1 := grow_memos_ok _ _ _ look _ (grow_levels_ok g nl nm depth o Ho)).
  set (o1 := grow_memos look (grow_levels depth o)) in *.
  destruct (lookup_lt_is_Some_2 (memos o1) (N.to_nat look)) as [m0 Hm0]; [pose proof (oa_nm _ _ _ _ Ho1); lia|].
  destruct (lookup_lt_is_Some_2 (levels o1) depth) as [lv Hlv]; [pose proof (oa_nl _ _ _ _ Ho1); lia|].
  rewrite Hm0, Hlv. assert (Hl := Forall_lookup_1 _ _ _ _ (oa_levels _ _ _ _ Ho1) Hlv).
  set (m := if negb (m_gen m0 =? gen o1)%Z then reset (gen o1) m0 else m0).
  assert (Hm : memo_valid pr P t wend look_sem m /\ m_gen m = g).
  { unfold m. rewrite (oa_gen _ _ _ _ Ho1). destruct (Z.eqb_spec (m_gen m0) g) as [He|]; cbn [negb].
    - split; [|done]. apply Hmo. by eapply (oa_memos _ _ _ _ Ho1).
    - split; [by apply empty_memo_valid|done]. }
  destruct Hm as [Hm Hmg]. clearbody m.
  destruct (mv_swept _ _ _ _ _ _ Hm q) as (r & -> & Hsw). destruct r as [oc|].
  { exists (put_memo look m o1). split.
    - do 2 f_equal. apply Bool.eq_true_iff_eq. rewrite (Hsw oc eq_refl). apply (sub_wins body P None q Hw Hb).
    - eapply oracle_at_weaken; [| |apply put_memo_ok; [exact Ho1|by apply Hmo|lia]]; lia. }
  set (nl1 := max nl (S depth)) in *. set (nm1 := max nm (S (N.to_nat look))) in *.
  destruct (memo_walk_ok hold pr P t wend look_sem (oracle_at g nl1 nm1) W1 W2) with
    (q := q) (m := m) (lv := lv) (o := put_memo look default_memo (put_level depth new_level o1))
    as (oc & steps & m' & lv' & o' & -> & G1 & G2 & G3 & G4 & G5); try done.
  - intros pc l x pos o0 Hl0 Ho0. apply hold_ok; [rewrite Hil; by eapply W3|done].
  - apply put_memo_ok; [by apply put_level_ok|apply default_memo_of|apply Ho1].
  - pose proof (oa_nl _ _ _ _ G1). pose proof (oa_nm _ _ _ _ G1).
    rewrite (proj2 (Nat.ltb_lt _ _)) by lia. rewrite (proj2 (Nat.ltb_lt _ _)) by lia. cbn [andb].
    eexists. split.
    + do 3 f_equal. apply Bool.eq_true_iff_eq. rewrite G5. apply (sub_wins body P None q Hw Hb).
    + assert (Ho' : oracle_at g nl1 nm1 (put_memo look m' (put_level depth lv' o')))
        by (apply put_memo_ok; [by apply put_level_ok|by apply Hmo|lia]).
      destruct Ho' as [F1 F2 F3 F4 F5 F6 F7]. split; cbn [levels key gen memos]; try done; lia.
Qed.
End level.

(** ** A lookaround's fixed sequences *)

Lemma flat_hit i behind negate body lo hi seqs p :
  ls !! i = Some (LAround behind negate body lo hi) -> flatten body ls = Some seqs ->
  p <= wend -> (behind = true -> N.to_nat lo <= p) ->
  let q := if behind then p - N.to_nat lo else p in
  exists b, flat_holds pr seqs t q wend = Some b /\ b = hit (if behind then Some p else None) body q /\
    (b = true <-> exists s q', s ∈ seqs /\ seq_run set_at look_sem s q = Some q').
Proof.
  intros Hi Hf Hp Hlo q. destruct (ls_wf _ _ Hi) as (Hin & Hw & Hwidth).
  assert (Hq : q <= wend) by (unfold q; destruct behind; lia).
  destruct (flat_holds_ok h ss ls ng pr t wend comp ls_wf text_end i seqs q) as (b & Hb & Hiff).
  { apply Forall_forall. intros s Hs. by eapply flatten_in. }
  exists b. split; [done|]. split; [|done]. apply Bool.eq_true_iff_eq. rewrite Hiff.
  rewrite (flatten_ok set_at look_sem wend (set_at_lim pr t wend) _ _ _ ls body seqs Hw Hin Hf _ q [] Hq).
  split; intros (s & q' & Hs & Hr).
  - exists s, q'. split; [done|]. split; [done|]. unfold ending. destruct behind; cbn [ends_at]; [|done].
    (* a lookbehind's sequences have its width *)
    destruct (Hwidth eq_refl) as [Hwd Hmax]. destruct (flatten_width _ _ _ _ Hf Hs) as [Hmin Hhi].
    rewrite Hwd in Hmin, Hhi. cbn [fst snd] in Hmin, Hhi. apply seq_run_chars in Hr as ->.
    assert (HU : (MAX_LOOK < U64_MAX)%Z) by done.
    specialize (Hlo eq_refl). rewrite (proj2 (Nat.eqb_eq _ _)); [done|]. unfold q. lia.
  - destruct Hr as [Hr _]. by exists s, q'.
Qed.

(** ** The tests *)

Lemma around_or_not d : (exists b n body lo hi, d = LAround b n body lo hi) \/ forall b n body lo hi, d <> LAround b n body lo hi.
Proof. destruct d; try (by right). left. by eexists _, _, _, _, _. Qed.

Lemma holds_at_depth_ok g fuel : forall depth l p nl nm o,
  N.to_nat l < fuel -> N.to_nat l < length (looks pr) -> oracle_at g nl nm o ->
  exists o', holds_at_depth pr addr t fuel wend depth l p o = Ok (look_sem l p, o') /\ oracle_at g nl nm o'.
Proof.
  induction fuel as [|fuel IH]; intros depth l p nl nm o Hf Hl Ho; [lia|]. cbn [holds_at_depth].
  rewrite (cp_looks_length _ _ _ _ _ comp) in Hl.
  destruct (ls !! N.to_nat l) as [d|] eqn:Hd.
  2:{ assert (Hend : looks pr !! N.to_nat l = Some DEndString).
      { apply lookup_ge_None_1 in Hd. replace (N.to_nat l) with (length ls) by lia. exact (cp_end_look _ _ _ _ _ comp). }
      rewrite Hend. cbn [simple_holds]. exists o. split; [|done]. by rewrite look_sem_end. }
  destruct (around_or_not d) as [(behind & negate & body & lo & hi & ->)|Hs].
  2:{ destruct (simple_compiled h ss ls ng pr t wend comp ls_wf l d Hd) as [Hc Hh]; [exact Hs|].
      rewrite Hc. specialize (Hh p). exists o. split; [|done].
      destruct d; cbn [simple_def] in *; by rewrite Hh. }
  destruct (cp_look _ _ _ _ _ comp _ _ Hd) as (d' & Hd' & k & P & first & Hfi & -> & Hk & Hb). cbn zeta in Hd', Hfi. rewrite Hd'.
  assert (Hsem := look_sem_around pr ls t wend _ _ ls_wf l p _ _ _ _ _ Hd). cbn zeta in Hsem.
  assert (Hlook : N.to_nat l < length ls) by (by eapply lookup_lt_Some).
  assert (IH' : forall depth l' p nl nm o, N.to_nat l' < N.to_nat l -> oracle_at g nl nm o ->
    exists o', holds_at_depth pr addr t fuel wend depth l' p o = Ok (look_sem l' p, o') /\ oracle_at g nl nm o').
  { intros. apply IH; [lia|rewrite (cp_looks_length _ _ _ _ _ comp); lia|done]. }
  destruct (negb behind && (MAX_LOOK <? Z.of_N hi)%Z) eqn:Hmemo.
  - apply andb_true_iff in Hmemo as [Hbeh _]. apply negb_true_iff in Hbeh. subst behind. rewrite Hk.
    rewrite Nat.min_l by done.
    destruct (run_memo_ok (holds_at_depth pr addr t fuel wend (S depth)) (N.to_nat l) g (IH' (S depth)) negate body lo hi _ _ _ _ _ P l p depth
      nl nm o Hd eq_refl Hd' Hk Hb Ho) as (o' & -> & Ho').
    exists o'. split; [|done]. by rewrite Hsem.
  - set (seqs := flatten body ls) in *.
    assert (Hrun : forall at_ q, exists o', run pr t (holds_at_depth pr addr t fuel wend (S depth)) P q wend at_ depth o =
      Ok (hit at_ body q, o') /\ oracle_at g nl nm o').
    { intros at_ q. by eapply (run_ok _ (N.to_nat l) g (IH' (S depth))). }
    (* the sequences, or the walk *)
    set (q := if behind then p - N.to_nat lo else p) in *. set (at_ := if behind then Some p else None) in *.
    assert (Hpart : (behind = true -> N.to_nat lo <= p) -> exists o',
      (match seqs with
       | Some seqs =>
           if (p <=? wend)%nat
           then
             match first with
             | Some f =>
                 if (q <? wend)%nat && (q <? length t)%nat && may_begin f (default 0%Z (t !! q))
                 then match flat_holds pr seqs t q wend with Some b => Ok (b, o) | None => Err Panic end
                 else Ok (false, o)
             | None => match flat_holds pr seqs t q wend with Some b => Ok (b, o) | None => Err Panic end
             end
           else run pr t (holds_at_depth pr addr t fuel wend (S depth)) P q wend at_ depth o
       | None => run pr t (holds_at_depth pr addr t fuel wend (S depth)) P q wend at_ depth o
       end) = Ok (hit at_ body q, o') /\ oracle_at g nl nm o').
    { intros Hlo. destruct seqs as [v|] eqn:Hv; [|apply Hrun]. destruct (Nat.leb_spec p wend) as [Hp|]; [|apply Hrun].
      destruct (flat_hit _ _ _ _ _ _ v p Hd Hv Hp Hlo) as (b & Hb1 & Hb2 & Hb3). fold q at_ in Hb1, Hb2, Hb3. rewrite Hb1, <- Hb2.
      exists o. split; [|done]. destruct first as [f|]; [|done].
      destruct ((q <? wend)%nat && (q <? length t)%nat && may_begin f (default 0%Z (t !! q))) eqn:Hbeg; [done|].
      assert (Hno := first_skip ls pr t wend text_chars sets_canonical v f q Hfi Hbeg).
      destruct b; [|done]. destruct Hno. by apply Hb3. }
    clearbody q at_ seqs. rewrite Hsem, Hk. clear Hsem Hd' IH Hrun.
    assert (Hfin : forall o', oracle_at g nl nm o' ->
      exists o'', Ok (xorb (hit at_ body q) negate, o') = Ok (E := fault) (xorb (hit at_ body q) negate, o'') /\ oracle_at g nl nm o'')
      by (intros o' Ho'; by exists o').
    destruct behind; cbn [andb].
    + destruct (Nat.ltb_spec p (N.to_nat lo)) as [|Hlo]; [by exists o|].
      destruct (Hpart ltac:(done)) as (o' & -> & Ho'). by apply Hfin.
    + destruct (Hpart ltac:(done)) as (o' & -> & Ho'). by apply Hfin.
Qed.

(** ** The oracle *)

(** An oracle between texts: what it remembers is of its generation or
    before. *)
Record oracle_idle (o : Oracle) : Prop := mk_oracle_idle {
  oi_levels : Forall level_ok (levels o);
  oi_gen : (0 <= gen o <= U64_MAX)%Z;
  oi_gens : Forall (fun m => m_gen m <= gen o)%Z (memos o);
}.

Lemma oracle_at_idle g nl nm o : oracle_at g nl nm o -> (g <= U64_MAX)%Z -> oracle_idle o.
Proof.
  intros [H1 H2 H3 H4 H5 H6 [H7 H8]] Hg. clear text_end. split; [done|rewrite H3; lia|]. by rewrite H3.
Qed.

Lemma new_oracle_idle : oracle_idle new_oracle.
Proof. clear text_end. split; [constructor|cbn [gen new_oracle]; unfold U64_MAX; lia|constructor]. Qed.

(** A new text: the oracle knows nothing of it (the generation counter not
    at its end). *)
Lemma begin_ok o : oracle_idle o -> (gen o < U64_MAX)%Z -> oracle_at (gen o + 1) 0 0 (begin addr t wend false o).
Proof.
  intros [H1 H2 H3] Hg. clear text_end. unfold U64_MAX in *. unfold begin. cbn [negb orb].
  split; cbn [levels key gen memos]; try done; try lia.
  - rewrite Z.mod_small; lia.
  - intros i m Hm He. rewrite Forall_forall in H3. specialize (H3 m ltac:(by eapply list_elem_of_lookup_2)). lia.
  - split; [lia|]. eapply Forall_impl; [exact H3|]. simpl. lia.
Qed.

(** The same text and window: what is known stays. *)
Lemma begin_keep g nl nm o : oracle_at g nl nm o -> oracle_at g nl nm (begin addr t wend true o).
Proof.
  intros [H1 H2 H3 H4 H5 H6 H7]. unfold begin. rewrite bool_decide_eq_true_2 by done. by split.
Qed.

Lemma holds_ok g l p o : N.to_nat l < length (looks pr) -> oracle_at g 0 0 o ->
  exists o', holds pr addr l t p wend o = Ok (look_sem l p, o') /\ oracle_at g 0 0 o'.
Proof. intros Hl Ho. by apply holds_at_depth_ok. Qed.
End looks_ok.

(** What a matcher asks, with the oracle of a text at an address. *)
Definition oracle_lookup `{UnicodeTables} (addr : Z) : LookOracle Oracle := fun pr l t p wend o =>
  match holds pr addr l t p wend o with Ok r => Some r | Err _ => None end.

(** The oracle keeps its promise. *)
Lemma oracle_laws `{UnicodeTables} h ss ls ng pr addr t wend g :
  compiled h ss ls ng pr -> looks_wf (length ss) ng ls -> wend <= length t ->
  Forall (fun c => 0 <= c)%Z t -> canonical_sets (sets pr) ->
  @OracleLaws Oracle (oracle_lookup addr) pr t wend (look_sem pr ls t wend) (oracle_at ls pr addr t wend g 0 0).
Proof.
  intros Hc Hl Ht Htc Hs l p o Hlo Ho.
  destruct (holds_ok _ _ _ _ _ addr t wend Hc Hl Ht Htc Hs g l p o Hlo Ho) as (o' & Hh & Ho').
  exists o'. split; [|done]. unfold look_holds, oracle_lookup. by rewrite Hh.
Qed.
