(* ===== verification/Explore.v ===== *)
(** Depth-first search that takes each node once.

    Both matchers walk the nodes of a search ([Search]) in priority order
    with an explicit stack, and drop a node they have taken before: the Pike
    VM's [add] among the program counters of one position, the backtracker
    among all nodes.  This file is the argument they share.  [Inv D V st sl F]
    relates a walk half done to the answer [F] of the whole search: [D] is
    what the threads listed so far answer, [V] the nodes taken, [st] the
    stack (what is to be tried and what is to be restored), [sl] the slots. *)

From Stdlib Require Import ZArith Lia.
From stdpp Require Import base option numbers list_numbers list.
From S2P Require Import Prelude CharSet Hir Nfa Search.

(** What a stack holds: a node to try, or a slot to restore. *)
Inductive item : Type :=
| Todo (n : node)
| Undo (slot : N) (old : Z).

Definition todo (i : item) : option node := match i with Todo n => Some n | Undo _ _ => None end.
Abbreviation todos := (omap todo).

(** The slots after the restores of a list. *)
Definition undo_all (us : list (N * Z)) (sl : slots) : slots :=
  fold_left (fun sl u => <[N.to_nat (fst u) := snd u]> sl) us sl.

Definition undos (us : list (N * Z)) : list item := List.map (fun u => Undo (fst u) (snd u)) us.

(** [slots[slot]], as the code reads it before a [Save]. *)
Definition slot_at (slot : N) (sl : slots) : Z := default (-1)%Z (sl !! N.to_nat slot).

(** What a [Save] pushes, the top of the stack first. *)
Definition save_undos (last_slot slot : N) (sl : slots) : list (N * Z) :=
  if ((slot mod 2 =? 1) && (slot <? last_slot))%N
  then [(last_slot, slot_at last_slot sl); (slot, slot_at slot sl)]
  else [(slot, slot_at slot sl)].

Lemma insert_slot_at slot sl : <[N.to_nat slot := slot_at slot sl]> sl = sl.
Proof.
  unfold slot_at. destruct (sl !! N.to_nat slot) as [z|] eqn:E; simpl.
  - by apply list_insert_id.
  - apply list_insert_ge. by apply lookup_ge_None.
Qed.

(** Restoring what a [Save] changed gives the slots back. *)
Lemma undo_save last_slot slot pos sl :
  undo_all (save_undos last_slot slot sl) (save last_slot slot pos sl) = sl.
Proof.
  unfold save_undos, save, undo_all. case_if; simpl.
  - match goal with H : (_ <? _)%N = true |- _ => apply N.ltb_lt in H end.
    rewrite (list_insert_insert_ne _ (N.to_nat last_slot) (N.to_nat slot)) by lia.
    by rewrite !list_insert_insert_eq, !insert_slot_at.
  - by rewrite list_insert_insert_eq, insert_slot_at.
Qed.

Section explore.
Variable P : Prog.
Variable set_at : N -> nat -> bool.
Variable look_at : N -> nat -> bool.
Variable wend lim : nat.
Variable last_slot : N.
Variable acc : nat -> bool.

Abbreviation Srch := (Srch P set_at look_at wend lim last_slot acc).
Abbreviation Srchs := (Srchs P set_at look_at wend lim last_slot acc).
Abbreviation succs := (succs P set_at look_at wend lim).
Abbreviation wins := (wins P set_at look_at wend lim acc).
Abbreviation below := (below P set_at look_at wend lim).
Abbreviation upd := (upd P last_slot).
Abbreviation leaf := (leaf P acc).

(** What the rest of a stack answers. *)
Inductive Rest : list item -> slots -> answer -> Prop :=
| Rest_nil sl : Rest [] sl None
| Rest_todo n st sl r1 r2 : Srch n sl r1 -> Rest st sl r2 -> Rest (Todo n :: st) sl (opt_or r1 r2)
| Rest_undo s o st sl r : Rest st (<[N.to_nat s := o]> sl) r -> Rest (Undo s o :: st) sl r.

(** The future of a taken node [v] is still on the stack: the first node of
    the stack that wins, and all those before it, come after [v]. *)
Definition pending (ts : list node) (v : node) : Prop :=
  exists i n, ts !! i = Some n /\ wins n /\ forall j m, j <= i -> ts !! j = Some m -> below v m.

Definition Inv (D : answer) (V : node -> Prop) (st : list item) (sl : slots) (F : answer) : Prop :=
  (exists r, Rest st sl r /\ F = opt_or D r) /\
  forall v, V v -> wins v -> is_Some D \/ pending (todos st) v.

Lemma pending_drop n ts v : ~ wins n -> pending (n :: ts) v -> pending ts v.
Proof.
  intros Hn ([|i] & m & Hi & Hw & Hb); simpl in Hi; [congruence|].
  exists i, m. split; [done|]. split; [done|]. intros j m' Hj Hm'. apply (Hb (S j)); [lia|done].
Qed.

Lemma pending_below n ts v : pending (n :: ts) v -> below v n.
Proof. intros (i & m & _ & _ & Hb). by apply (Hb 0); [lia|]. Qed.

(** A node before which everything comes after [v], in front of which come
    nodes that come after [v] too. *)
Lemma pending_front n ts ns v :
  (forall m, m ∈ ns -> below v m) -> (wins n -> exists m, m ∈ ns /\ wins m) ->
  pending (n :: ts) v -> pending (ns ++ ts) v.
Proof.
  intros Hns Hw ([|i] & m & Hi & Hwm & Hb); simpl in Hi.
  - injection Hi as ->. destruct (Hw Hwm) as (m' & Hm' & Hwm').
    apply list_elem_of_lookup in Hm' as [i Hi]. exists i, m'.
    assert (Hlt := lookup_lt_Some _ _ _ Hi).
    split; [by apply lookup_app_l_Some|]. split; [done|]. intros j m'' Hj Hm''.
    apply Hns. rewrite lookup_app_l in Hm'' by lia. by eapply list_elem_of_lookup_2.
  - exists (length ns + i), m. split; [rewrite lookup_app_r by lia; by rewrite Nat.add_comm, Nat.add_sub|].
    split; [done|]. intros j m' Hj Hm'. destruct (decide (j < length ns)) as [Hl|Hl].
    + apply Hns. rewrite lookup_app_l in Hm' by lia. by eapply list_elem_of_lookup_2.
    + rewrite lookup_app_r in Hm' by lia. apply (Hb (S (j - length ns))); [lia|done].
Qed.

Lemma todos_undos us : todos (undos us) = [].
Proof. by induction us. Qed.

Lemma todos_Todo ns : todos (List.map Todo ns) = ns.
Proof. induction ns as [|n ns IH]; simpl; [done|]. by f_equal. Qed.

Lemma Rest_undos us st sl r : Rest st (undo_all us sl) r -> Rest (undos us ++ st) sl r.
Proof. revert sl; induction us as [|[s o] us IH]; intros sl H; simpl; [done|]. constructor. by apply IH. Qed.

Lemma Rest_todos ns st sl r1 r2 :
  Srchs ns sl r1 -> Rest st sl r2 -> Rest (List.map Todo ns ++ st) sl (opt_or r1 r2).
Proof.
  intros (rs & Hrs & ->). induction Hrs as [|n r ns rs Hn _ IH]; intros H; simpl; [done|].
  rewrite <- opt_or_assoc. constructor; auto.
Qed.

Lemma is_Some_opt_or {A} (a b : option A) : is_Some a -> is_Some (opt_or a b).
Proof. by intros [x ->]. Qed.

(** ** The steps of a walk *)

Lemma inv_start D V n sl sl0 F r :
  Inv D V [] sl0 F -> Srch n sl r -> Inv D V [Todo n] sl (opt_or F r).
Proof.
  intros [(r0 & Hr0 & ->) Hv] Hs. inversion Hr0; subst. split.
  - exists (opt_or r None). split; [repeat constructor; done|]. by rewrite !opt_or_None_r.
  - intros v Hvv Hw. destruct (Hv v Hvv Hw) as [|(i & m & Hi & _)]; [by left|].
    by destruct i.
Qed.

Lemma inv_empty V sl : (forall v, ~ V v) -> Inv None V [] sl None.
Proof. intros H. split; [exists None; split; [constructor|done]|]. intros v Hv. by destruct (H v). Qed.

Lemma inv_done D V sl F : Inv D V [] sl F -> F = D.
Proof. intros [(r & Hr & ->) _]. inversion Hr; subst. apply opt_or_None_r. Qed.

Lemma inv_undo D V s o st sl F : Inv D V (Undo s o :: st) sl F -> Inv D V st (<[N.to_nat s := o]> sl) F.
Proof. intros [(r & Hr & ->) Hv]. inversion Hr; subst. split; [by exists r|done]. Qed.

Lemma inv_undos D V us st sl F : Inv D V (undos us ++ st) sl F -> Inv D V st (undo_all us sl) F.
Proof. revert sl; induction us as [|[s o] us IH]; intros sl H; simpl in *; [done|]. by apply IH, inv_undo. Qed.

(** A node taken before is dropped. *)
Lemma inv_old D V n st sl F : V n -> Inv D V (Todo n :: st) sl F -> Inv D V st sl F.
Proof.
  intros Hn [(r & Hr & ->) Hv]. inversion Hr as [|n' st' sl' r1 r2 Hs Hr2|]; subst.
  assert (Hd : r1 = None \/ is_Some D).
  { destruct r1 as [a|]; [right|by left].
    assert (Hw : wins n) by (eapply Srch_wins; [exact Hs|by eexists]).
    destruct (Hv n Hn Hw) as [|Hp]; [done|]. exfalso.
    eapply ends_irrefl; [by eapply Srch_ends|]. exact (pending_below _ _ _ Hp). }
  destruct Hd as [->|[d ->]].
  - split; [by exists r2|]. intros v Hvv Hw. destruct (Hv v Hvv Hw) as [|Hp]; [by left|right].
    eapply pending_drop; [|exact Hp]. intros Hwn. 
    apply (Srch_wins _ _ _ _ _ _ _ _ _ _ Hs) in Hwn. by destruct Hwn.
  - split; [by exists r2|]. intros; left; by eexists.
Qed.

(** A node is listed: what it answers is what comes next. *)
Lemma inv_list D V n st sl r F :
  Srch n sl r -> Inv D V (Todo n :: st) sl F -> Inv (opt_or D r) (fun v => v = n \/ V v) st sl F.
Proof.
  intros Hs [(r' & Hr & ->) Hv]. inversion Hr as [|n' st' sl' r1 r2 Hs1 Hr2|]; subst.
  rewrite (Srch_fun _ _ _ _ _ _ _ _ _ _ _ Hs1 Hs) in *. split.
  - exists r2. split; [done|]. by rewrite opt_or_assoc.
  - assert (Hn : wins n -> is_Some (opt_or D r)).
    { intros Hw. apply (Srch_wins _ _ _ _ _ _ _ _ _ _ Hs) in Hw as [a ->]. by destruct D; eexists. }
    intros v [->|Hvv] Hw; [left; by apply Hn|].
    destruct (Hv v Hvv Hw) as [|Hp]; [left; by apply is_Some_opt_or|].
    assert (Hsr := Srch_wins _ _ _ _ _ _ _ _ _ _ Hs).
    destruct r as [a|]; [left; by destruct D; eexists|]. right.
    eapply pending_drop; [|exact Hp]. intros Hwn.
    apply Hsr in Hwn. by destruct Hwn.
Qed.

(** A node is taken: its successors come next, before what it changed is
    restored. *)
Lemma inv_new D V n us st sl F :
  leaf n sl = None -> undo_all us (upd n sl) = sl ->
  Inv D V (Todo n :: st) sl F ->
  Inv D (fun v => v = n \/ V v) (List.map Todo (succs n) ++ undos us ++ st) (upd n sl) F.
Proof.
  intros Hl Hu [(r' & Hr & ->) Hv]. inversion Hr as [|n' st' sl' r1 r2 Hs Hr2|]; subst.
  destruct (Srch_inv _ _ _ _ _ _ _ _ _ _ Hs) as (rs & Hrs & ->). rewrite Hl, opt_or_None_l. split.
  - exists (opt_or rs r2). split; [|done]. apply Rest_todos; [done|]. apply Rest_undos. by rewrite Hu.
  - assert (Hw : wins n -> exists m, m ∈ succs n /\ wins m).
    { intros Hw. apply (Srch_wins _ _ _ _ _ _ _ _ _ _ Hs) in Hw. rewrite Hl, opt_or_None_l in Hw.
      destruct Hrs as (l & Hf & ->). apply first_of_Some in Hw as [a Ha].
      apply list_elem_of_lookup in Ha as [i Hi].
      destruct (Forall2_lookup_r _ _ _ _ _ Hf Hi) as (m & Hm & Hsm).
      exists m. split; [by eapply list_elem_of_lookup_2|]. eapply Srch_wins; [exact Hsm|by eexists]. }
    rewrite !omap_app, todos_Todo, todos_undos. simpl in Hv. intros v [->|Hvv] Hwv.
    + right. destruct (Hw Hwv) as (m & Hm & Hwm). apply list_elem_of_lookup in Hm as [i Hi].
      exists i, m. split; [by apply lookup_app_l_Some|]. split; [done|]. intros j m' Hj Hm'.
      apply below_one. assert (Hlt := lookup_lt_Some _ _ _ Hi).
      rewrite lookup_app_l in Hm' by lia. by eapply list_elem_of_lookup_2.
    + destruct (Hv v Hvv Hwv) as [|Hp]; [by left|right].
      eapply pending_front; [|exact Hw|exact Hp]. intros m Hm.
      eapply below_trans; [exact (pending_below _ _ _ Hp)|]. by apply below_one.
Qed.

(** A match that is accepted is the answer, when nothing is listed. *)
Lemma inv_accept V n st sl a F :
  leaf n sl = Some a -> Inv None V (Todo n :: st) sl F -> F = Some a.
Proof.
  intros Hl [(r' & Hr & ->) _]. inversion Hr as [|n' st' sl' r1 r2 Hs Hr2|]; subst.
  destruct (Srch_inv _ _ _ _ _ _ _ _ _ _ Hs) as (rs & _ & ->). by rewrite Hl.
Qed.

(** The nodes taken are a matter of membership. *)
Lemma inv_ext D V V' st sl F : (forall v, V' v -> V v) -> Inv D V st sl F -> Inv D V' st sl F.
Proof. intros HV [Hr Hv]. split; [done|]. intros v Hvv. by apply Hv, HV. Qed.

(** What is on the stack can be searched. *)
Lemma inv_valid D V n st sl F : Inv D V (Todo n :: st) sl F -> valid P n.
Proof.
  intros [(r & Hr & _) _]. inversion Hr; subst. by eapply ends_valid, Srch_ends.
Qed.
End explore.
