(* ===== verification/Pike.v ===== *)
(** The Pike VM: [linre/pike.rs].

    Every state of a program at once, one character at a time, each thread
    with its capture slots, in priority order.  [add] is the code's: an
    explicit stack of program counters to try and slots to restore, the
    zero-width tests of a position asked once ([memo]); [search] is its loop
    over positions with the two thread lists swapped. *)

From Stdlib Require Import ZArith Lia.
From stdpp Require Import base option numbers list_numbers list.
From S2P Require Import Prelude CharSet Hir Nfa Search Machine SparseSet Explore.

(** The states of a position, in priority order, and the slots of each
    thread (a row per program counter). *)
Record Threads := mk_threads { t_set : SparseSet; t_slots : list Z }.

Definition new_threads : Threads := mk_threads (SparseSet.new 0) [].

Definition reset (n nslots : nat) (T : Threads) : Threads :=
  mk_threads (SparseSet.resize n (t_set T))
    (if (length (t_slots T) <? n * nslots)%nat then SparseSet.grow (n * nslots) (-1)%Z (t_slots T) else t_slots T).

(** [slots[base..base + n].copy_from_slice(row)] and [slots[base..base + n]]:
    [None] where the range is out of bounds. *)
Definition write_row (base : nat) (row l : list Z) : option (list Z) :=
  if (base + length row <=? length l)%nat
  then Some (take base l ++ row ++ drop (base + length row) l) else None.

Definition read_row (base n : nat) (l : list Z) : option (list Z) :=
  if (base + n <=? length l)%nat then Some (take n (drop base l)) else None.

Inductive Job : Type :=
| JExplore (pc : N)
| JRestore (slot : N) (old : Z).

(** What a search accepts. *)
Record Want := mk_want { anchored : bool; must_advance : bool; end_at : option nat }.

Section pike.
Context {O : Type} `{LookOracle O}.

(** What a walk of [add] changes. *)
Record adding := mk_adding {
  a_list : Threads;
  a_stack : list Job;
  a_scratch : slots;
  a_oracle : O;
  a_memo : list Z;
  a_touched : list N;
}.

Record PikeCache := mk_cache {
  clist : Threads;
  nlist : Threads;
  c_stack : list Job;
  scratch : slots;
  c_oracle : O;
  memo : list Z;
  memo_touched : list N;
}.

Definition new_cache (o : O) : PikeCache := mk_cache new_threads new_threads [] [] o [] [].

Section search.
Variables (pr : Programs) (P : Prog) (t : text) (start_ wend : nat) (want : Want).

Abbreviation nslots := (N.to_nat (nslots pr)).
Definition last_slot : N := (Nfa.nslots pr - 2)%N.

Abbreviation A := (stx adding fault).

Definition inst (pc : N) {S} : stx S fault Inst := xsome Panic (inst_at P pc).

Definition a_push (j : Job) : A unit := xmod (fun a =>
  mk_adding (a_list a) (j :: a_stack a) (a_scratch a) (a_oracle a) (a_memo a) (a_touched a)).

Definition a_pop : A (option Job) := fun a =>
  match a_stack a with
  | [] => (Ok None, a)
  | j :: rest => (Ok (Some j), mk_adding (a_list a) rest (a_scratch a) (a_oracle a) (a_memo a) (a_touched a))
  end.

Definition a_slot (slot : N) : A Z := fun a => xsome Panic (a_scratch a !! N.to_nat slot) a.

Definition a_set_slot (slot : N) (v : Z) : A unit := fun a =>
  if (N.to_nat slot <? length (a_scratch a))%nat
  then (Ok tt, mk_adding (a_list a) (a_stack a) (<[N.to_nat slot := v]> (a_scratch a)) (a_oracle a) (a_memo a) (a_touched a))
  else (Err Panic, a).

(** [list.set.insert(pc)] *)
Definition a_insert (pc : N) : A bool := fun a =>
  match SparseSet.insert pc (t_set (a_list a)) with
  | None => (Err Panic, a)
  | Some (b, s) => (Ok b, mk_adding (mk_threads s (t_slots (a_list a))) (a_stack a) (a_scratch a) (a_oracle a) (a_memo a) (a_touched a))
  end.

(** Whether a test holds here, asked once per position. *)
Definition a_look (look : N) (pos : nat) : A bool := fun a =>
  match a_memo a !! N.to_nat look with
  | None => (Err Panic, a)
  | Some m =>
      if negb (m =? 0)%Z then (Ok (m =? 2)%Z, a)
      else
        match look_holds pr look t pos wend (a_oracle a) with
        | None => (Err Panic, a)
        | Some (v, o) =>
            (Ok v, mk_adding (a_list a) (a_stack a) (a_scratch a) o
              (<[N.to_nat look := (if v then 2 else 1)%Z]> (a_memo a)) (look :: a_touched a))
        end
  end.

(** The thread's slots are written to its row. *)
Definition a_write (pc : N) : A unit := fun a =>
  match write_row (N.to_nat pc * nslots) (a_scratch a) (t_slots (a_list a)) with
  | None => (Err Panic, a)
  | Some l => (Ok tt, mk_adding (mk_threads (t_set (a_list a)) l) (a_stack a) (a_scratch a) (a_oracle a) (a_memo a) (a_touched a))
  end.

(** One job of [add]: true when there was none. *)
Definition add_step (pos : nat) : A bool :=
  a_pop ≫= fun job =>
  match job with
  | None => mret true
  | Some (JRestore slot old) => a_set_slot slot old ≫= fun _ => mret false
  | Some (JExplore pc) =>
      a_insert pc ≫= fun new =>
      (if negb new then mret tt
       else
         inst pc ≫= fun i =>
         match i with
         | ISplit x y => a_push (JExplore y) ≫= fun _ => a_push (JExplore x)
         | IJmp next => a_push (JExplore next)
         | IGuard next => if (pos <=? wend)%nat then a_push (JExplore next) else mret tt
         | ISave slot next =>
             a_slot slot ≫= fun old =>
             a_push (JRestore slot old) ≫= fun _ =>
             (if ((slot mod 2 =? 1) && (slot <? last_slot))%N
              then a_slot last_slot ≫= fun old_last =>
                   a_push (JRestore last_slot old_last) ≫= fun _ =>
                   a_set_slot last_slot (Z.of_N (slot / 2 + 1))
              else mret tt) ≫= fun _ =>
             a_set_slot slot (Z.of_nat pos) ≫= fun _ =>
             a_push (JExplore next)
         | ILook look next =>
             a_look look pos ≫= fun ok =>
             if ok : bool then a_push (JExplore next) else mret tt
         | IRun _ _ _ _ _ => mret tt
         | IChar _ _ | IMatch => a_write pc
         end) ≫= fun _ => mret false
  end.

Fixpoint add_loop (fuel : nat) (pos : nat) : A unit :=
  match fuel with
  | 0 => xfail NoFuel
  | S fuel' =>
      add_step pos ≫= fun done => if done : bool then mret tt else add_loop fuel' pos
  end.

(** Every job but the first is pushed when a program counter is taken. *)
Definition add_fuel : nat := 3 + 4 * length (insts P).

Definition add (from : N) (pos : nat) : A unit :=
  a_push (JExplore from) ≫= fun _ => add_loop add_fuel pos.

(** ** The search *)

Abbreviation M := (stx PikeCache fault).

(** [add] to one of the lists, with the cache's buffers. *)
Definition add_to (next_list : bool) (from : N) (pos : nat) : M unit := fun c =>
  let (r, a) := add from pos
    (mk_adding (if next_list then nlist c else clist c) (c_stack c) (scratch c) (c_oracle c) (memo c) (memo_touched c)) in
  (r, if next_list
      then mk_cache (clist c) (a_list a) (a_stack a) (a_scratch a) (a_oracle a) (a_memo a) (a_touched a)
      else mk_cache (a_list a) (nlist c) (a_stack a) (a_scratch a) (a_oracle a) (a_memo a) (a_touched a)).

Definition clear_memo : M unit := fun c =>
  match
    fold_opt (fun m l => if (N.to_nat l <? length m)%nat then Some (<[N.to_nat l := 0%Z]> m) else None)
      (memo_touched c) (memo c)
  with
  | None => (Err Panic, c)
  | Some m => (Ok tt, mk_cache (clist c) (nlist c) (c_stack c) (scratch c) (c_oracle c) m [])
  end.

(** [text.get(p).is_some_and(|c| sets[set].contains(c))], below the end. *)
Definition reads (set : N) (p : nat) : M bool :=
  if (p <? wend)%nat
  then
    match t !! p with
    | None => mret false
    | Some c => xsome Panic (sets pr !! N.to_nat set) ≫= fun cs => mret (CharSet.contains cs c)
    end
  else mret false.

(** A thread's slots, read from its row. *)
Definition row_of_thread (pc : N) : M slots := fun c =>
  xsome Panic (read_row (N.to_nat pc * nslots) nslots (t_slots (clist c))) c.

Definition set_scratch (sl : slots) : M unit := xmod (fun c =>
  mk_cache (clist c) (nlist c) (c_stack c) sl (c_oracle c) (memo c) (memo_touched c)).

(** Is a match here accepted? *)
Definition accepted (p : nat) : bool :=
  (negb (must_advance want) || negb (p =? start_)%nat) &&
  match end_at want with Some e => (e =? p)%nat | None => true end.

(** The loop over the threads of [clist], from [i] on: the match recorded,
    if one is. *)
Fixpoint scan_threads (p : nat) (k i : nat) : M (option answer) :=
  match k with
  | 0 => mret None
  | S k' =>
      xget ≫= fun c =>
      xsome Panic (SparseSet.get i (t_set (clist c))) ≫= fun pc =>
      inst pc ≫= fun ins =>
      match ins with
      | IChar set next =>
          reads set p ≫= fun ok =>
          (if ok : bool
           then row_of_thread pc ≫= fun sl => set_scratch sl ≫= fun _ => add_to true next (p + 1)
           else mret tt) ≫= fun _ =>
          scan_threads p k' (S i)
      | IMatch =>
          if accepted p
          then row_of_thread pc ≫= fun sl => mret (Some (Some (sl, p)))
          else scan_threads p k' (S i)
      | _ => scan_threads p k' (S i)
      end
  end.

Definition swap_lists : M unit := xmod (fun c =>
  mk_cache (nlist c) (mk_threads (SparseSet.clear (t_set (clist c))) (t_slots (clist c)))
    (c_stack c) (scratch c) (c_oracle c) (memo c) (memo_touched c)).

Fixpoint search_loop (fuel : nat) (p : nat) (matched : answer) : M answer :=
  match fuel with
  | 0 => xfail NoFuel
  | S fuel' =>
      clear_memo ≫= fun _ =>
      xget ≫= fun c =>
      scan_threads p (SparseSet.len (t_set (clist c))) 0 ≫= fun m =>
      let matched := default matched m in
      xget ≫= fun c =>
      if (wend <=? p)%nat || SparseSet.is_empty (t_set (nlist c)) then mret matched
      else if match end_at want with
              | Some e => match matched with Some _ => true | None => (e <=? p)%nat end
              | None => false
              end then mret matched
      else swap_lists ≫= fun _ => search_loop fuel' (S p) matched
  end.

(** The buffers as a search starts. *)
Definition prepare (c : PikeCache) : PikeCache :=
  let n := length (insts P) in
  mk_cache (reset n nslots (clist c)) (reset n nslots (nlist c)) (c_stack c) (replicate nslots (-1)%Z)
    (c_oracle c)
    (if (length (memo c) <? length (looks pr))%nat then SparseSet.grow (length (looks pr)) 0%Z (memo c) else memo c)
    (memo_touched c).

Definition search : M answer :=
  xmod prepare ≫= fun _ =>
  add_to false (if anchored want then start P else start_unanchored P) start_ ≫= fun _ =>
  search_loop (2 + (wend - start_)) start_ None ≫= fun matched =>
  clear_memo ≫= fun _ => mret matched.
End search.
End pike.
Arguments PikeCache O : clear implicits.
Arguments adding O : clear implicits.

(** ** Rows *)

Lemma write_row_ok base row l :
  base + length row <= length l ->
  exists l', write_row base row l = Some l' /\ length l' = length l /\
    forall i, l' !! i = if decide (base <= i < base + length row) then row !! (i - base) else l !! i.
Proof.
  intros Hb. unfold write_row. rewrite (proj2 (Nat.leb_le _ _)) by done. eexists. split; [done|].
  assert (Ht : length (take base l) = base) by (rewrite length_take; lia).
  split; [rewrite !length_app, Ht, length_drop; lia|].
  intros i. case_decide as Hi.
  - rewrite lookup_app_r by lia. rewrite Ht. by rewrite lookup_app_l by lia.
  - destruct (decide (i < base)) as [Hl|Hl].
    + rewrite lookup_app_l by lia. by rewrite lookup_take_lt by lia.
    + rewrite !lookup_app_r by lia. rewrite Ht, lookup_drop. f_equal. lia.
Qed.

Lemma read_row_ok base n l : base + n <= length l -> read_row base n l = Some (take n (drop base l)).
Proof. intros Hb. unfold read_row. by rewrite (proj2 (Nat.leb_le _ _)). Qed.

Lemma lookup_row base n (l : list Z) j : take n (drop base l) !! j = if decide (j < n) then l !! (base + j) else None.
Proof.
  case_decide as Hj; [by rewrite lookup_take_lt, lookup_drop|]. apply lookup_ge_None_2.
  rewrite length_take. lia.
Qed.

Lemma row_eq base n (l l' : list Z) :
  (forall j, j < n -> l' !! (base + j) = l !! (base + j)) -> take n (drop base l') = take n (drop base l).
Proof.
  intros Hj. apply list_eq. intros j. rewrite !lookup_row. case_decide; [by apply Hj|done].
Qed.

(** ** Correctness *)

Section correct.
Context {O : Type} `{LookOracle O}.
Variables (pr : Programs) (P : Prog) (t : text) (start_ wend : nat) (want : Want).
Variable look_at : N -> nat -> bool.
Variable oinv : O -> Prop.
Context `{!OracleLaws O pr t wend look_at oinv}.
Hypothesis wf : prog_wf pr P = true.
(** The program has no [Run] instructions. *)
Hypothesis no_runs : forall pc s mn mx g x, inst_at P pc <> Some (IRun s mn mx g x).

Abbreviation n := (length (insts P)).
Abbreviation nslots := (N.to_nat (nslots pr)).
Abbreviation set_at := (set_at pr t wend).
Abbreviation last_slot := (last_slot pr).
Abbreviation accepted := (accepted start_ want).
Abbreviation Srch := (Srch P set_at look_at wend wend last_slot accepted).
Abbreviation Inv := (Inv P set_at look_at wend wend last_slot accepted).
Abbreviation succs := (succs P set_at look_at wend wend).
Abbreviation wins := (wins P set_at look_at wend wend accepted).
Abbreviation leaf := (leaf P accepted).
Abbreviation upd := (upd P last_slot).
Abbreviation adding := (adding O).

(** The slots of a thread. *)
Definition row (pc : N) (T : Threads) : slots := take nslots (drop (N.to_nat pc * nslots) (t_slots T)).

Record threads_ok (T : Threads) : Prop := mk_threads_ok {
  to_set : ss_ok (t_set T);
  to_capacity : n <= capacity (t_set T);
  to_slots : n * nslots <= length (t_slots T);
  to_pcs : Forall (fun pc => N.to_nat pc < n) (elems (t_set T));
}.

(** The states that are threads: the others were stepped through. *)
Definition is_thread (pc : N) : bool :=
  match inst_at P pc with Some (IChar _ _) | Some IMatch => true | _ => false end.

(** What each state listed at a position answers. *)
Definition answers (p : nat) (T : Threads) (rs : list answer) : Prop :=
  Forall2 (fun pc r => if is_thread pc then Srch (pc, p) (row pc T) r else r = None) (elems (t_set T)) rs.

(** The states listed at a position, as nodes. *)
Definition listed (p : nat) (T : Threads) (v : node) : Prop := snd v = p /\ fst v ∈ elems (t_set T).

Definition memo_ok (pos : nat) (mem : list Z) (touched : list N) : Prop :=
  length (looks pr) <= length mem /\ Forall (fun l => N.to_nat l < length mem) touched /\
  forall l m, mem !! N.to_nat l = Some m ->
    m = 0%Z \/ (m = (if look_at l pos then 2 else 1)%Z /\ l ∈ touched).

Definition job_item (pos : nat) (j : Job) : item :=
  match j with JExplore pc => Todo (pc, pos) | JRestore slot old => Undo slot old end.

Abbreviation items pos js := (List.map (job_item pos) js).

Definition job_wf (j : Job) : Prop :=
  match j with JRestore slot _ => N.to_nat slot < nslots | JExplore _ => True end.

Record add_inv (pos : nat) (a : adding) (rs : list answer) (F : answer) : Prop := mk_add_inv {
  ai_threads : threads_ok (a_list a);
  ai_answers : answers pos (a_list a) rs;
  ai_inv : Inv (first_of rs) (listed pos (a_list a)) (items pos (a_stack a)) (a_scratch a) F;
  ai_jobs : Forall job_wf (a_stack a);
  ai_slots : length (a_scratch a) = nslots;
  ai_memo : memo_ok pos (a_memo a) (a_touched a);
  ai_oracle : oinv (a_oracle a);
}.

Definition meas (a : adding) : nat := length (a_stack a) + 4 * (n - length (elems (t_set (a_list a)))).

(** *** Lists of threads *)

Lemma row_write T pc sl :
  threads_ok T -> N.to_nat pc < n -> length sl = nslots ->
  exists l, write_row (N.to_nat pc * nslots) sl (t_slots T) = Some l /\
    length l = length (t_slots T) /\
    row pc (mk_threads (t_set T) l) = sl /\
    forall pc', pc' <> pc -> row pc' (mk_threads (t_set T) l) = row pc' T.
Proof.
  intros [_ _ Hs _] Hp Hl.
  destruct (write_row_ok (N.to_nat pc * nslots) sl (t_slots T)) as (l & Hw & Hlen & Hlk); [nia|].
  exists l. split; [done|]. split; [done|]. unfold row. cbn [t_slots]. split.
  - apply list_eq. intros j. rewrite lookup_row. case_decide as Hj.
    + rewrite Hlk, decide_True by lia. f_equal. lia.
    + symmetry. apply lookup_ge_None_2. lia.
  - intros pc' Hne. apply row_eq. intros j Hj. rewrite Hlk, decide_False; [done|].
    assert (N.to_nat pc' <> N.to_nat pc) by (intros He; by apply N2Nat.inj in He). nia.
Qed.

Lemma threads_insert T s pc :
  threads_ok T -> ss_ok s -> capacity s = capacity (t_set T) -> N.to_nat pc < n ->
  elems s = elems (t_set T) ++ [pc] -> threads_ok (mk_threads s (t_slots T)).
Proof.
  intros [H1 H2 H3 H4] Hs Hc Hp He. split; cbn [t_set t_slots]; try done; [by rewrite Hc|].
  rewrite He. apply Forall_app. split; [done|]. by constructor.
Qed.

(** A state that is no thread adds nothing to what a list answers. *)
Lemma answers_skip pos T s pc rs :
  answers pos T rs -> elems s = elems (t_set T) ++ [pc] -> is_thread pc = false ->
  answers pos (mk_threads s (t_slots T)) (rs ++ [None]).
Proof.
  intros Ha He Ht. unfold answers. cbn [t_set]. rewrite He. apply Forall2_app; [exact Ha|].
  constructor; [by rewrite Ht|constructor].
Qed.

Lemma answers_thread pos T s pc rs l r :
  answers pos T rs -> elems s = elems (t_set T) ++ [pc] -> pc ∉ elems (t_set T) -> is_thread pc = true ->
  (forall pc', pc' <> pc -> row pc' (mk_threads (t_set T) l) = row pc' T) ->
  Srch (pc, pos) (row pc (mk_threads (t_set T) l)) r ->
  answers pos (mk_threads s l) (rs ++ [r]).
Proof.
  intros Ha He Hn Ht Hr Hs. unfold answers. cbn [t_set]. rewrite He.
  apply Forall2_app; [|constructor; [by rewrite Ht|constructor]].
  assert (Hall : forall pc', pc' ∈ elems (t_set T) -> row pc' (mk_threads s l) = row pc' T).
  { intros pc' Hin. apply Hr. by intros ->. }
  unfold answers in Ha. revert Ha Hall. generalize (elems (t_set T)). intros es Ha Hall.
  induction Ha as [|pc' r' es rs Hp _ IH]; [constructor|]. constructor.
  - rewrite Hall by left. exact Hp.
  - apply IH. intros pc'' Hin. apply Hall. by right.
Qed.

Lemma first_of_skip {B} (rs : list (option B)) : first_of (rs ++ [None]) = first_of rs.
Proof. rewrite first_of_app. apply opt_or_None_r. Qed.

Lemma first_of_snoc {B} (rs : list (option B)) r : first_of (rs ++ [r]) = opt_or (first_of rs) r.
Proof. rewrite first_of_app. f_equal. apply opt_or_None_r. Qed.

Lemma listed_insert pos T s l pc v :
  elems s = elems (t_set T) ++ [pc] -> listed pos (mk_threads s l) v -> v = (pc, pos) \/ listed pos T v.
Proof.
  intros He [Hp Hin]. cbn [t_set] in Hin. rewrite He in Hin. destruct v as [pc' p']. simpl in *. subst.
  apply elem_of_app in Hin as [Hin|Hin]; [by right|left]. apply list_elem_of_singleton in Hin. by subst.
Qed.

(** *** The walk of [add] *)

Lemma memo_look a pos l :
  memo_ok pos (a_memo a) (a_touched a) -> oinv (a_oracle a) -> N.to_nat l < length (looks pr) ->
  exists mem touched o,
    a_look pr t wend l pos a = (Ok (look_at l pos), mk_adding (a_list a) (a_stack a) (a_scratch a) o mem touched) /\
    memo_ok pos mem touched /\ oinv o.
Proof.
  intros (Hl & Hr & Hm) Ho Hlk. unfold a_look.
  destruct (lookup_lt_is_Some_2 (a_memo a) (N.to_nat l)) as [m Hml]; [lia|]. rewrite Hml.
  destruct (Z.eqb_spec m 0) as [->|Hne]; simpl.
  - destruct (look_holds_ok l pos (a_oracle a) Hlk Ho) as (o & Hh & Hoi). rewrite Hh.
    do 3 eexists. split; [reflexivity|]. split; [|done]. split; [by rewrite length_insert|].
    rewrite length_insert. split; [constructor; [lia|done]|]. intros l' m' Hl'. destruct (decide (l' = l)) as [->|Hne].
    + rewrite list_lookup_insert_eq in Hl' by lia. injection Hl' as <-. right. split; [done|left].
    + rewrite list_lookup_insert_ne in Hl' by (intros He; by apply N2Nat.inj in He).
      destruct (Hm _ _ Hl') as [->|[-> Hin]]; [by left|]. right. split; [done|by right].
  - destruct (Hm _ _ Hml) as [->|[-> Hin]]; [done|]. exists (a_memo a), (a_touched a), (a_oracle a).
    split; [|done]. replace (mk_adding _ _ _ _ _ _) with a by (by destruct a). by destruct (look_at l pos).
Qed.

(** A state taken and stepped through: its successors are pushed. *)
Lemma add_through pos a rs F pc js s us ns sc mem touched o js' :
  add_inv pos a rs F -> a_stack a = JExplore pc :: js ->
  pc ∉ elems (t_set (a_list a)) -> is_thread pc = false ->
  ss_ok s -> capacity s = capacity (t_set (a_list a)) -> elems s = elems (t_set (a_list a)) ++ [pc] ->
  succs (pc, pos) = ns -> upd (pc, pos) (a_scratch a) = sc -> undo_all us sc = a_scratch a ->
  items pos js' = List.map Todo ns ++ undos us -> Forall job_wf js' -> length js' <= 3 ->
  memo_ok pos mem touched -> oinv o ->
  let a' := mk_adding (mk_threads s (t_slots (a_list a))) (js' ++ js) sc o mem touched in
  add_inv pos a' (rs ++ [None]) F /\ meas a' < meas a.
Proof.
  intros [H1 H2 H3 H4 H5 H6 H7] Hst Hn Hth Hs Hc He Hsu Hup Hun Hit Hjw Hjl Hm Ho a'.
  rewrite Hst in H3, H4. inversion H4; subst. cbn [List.map job_item] in H3.
  assert (Hp : N.to_nat pc < n) by (apply inv_valid in H3; by apply lookup_lt_is_Some_1).
  assert (Ht : threads_ok (a_list a')) by (by eapply threads_insert).
  split; [split; unfold a'; cbn [a_list a_stack a_scratch a_memo a_touched a_oracle]|].
  - exact Ht.
  - by eapply answers_skip.
  - rewrite first_of_skip, map_app, Hit, <- app_assoc. eapply inv_ext; [|eapply inv_new; [| |exact H3]].
    + intros v Hv. by eapply listed_insert.
    + unfold Search.leaf, is_match. simpl. unfold is_thread in Hth. by destruct (inst_at P pc) as [[]|].
    + done.
  - by apply Forall_app.
  - rewrite <- H5. unfold Search.upd. destruct (inst_at P (fst (pc, pos))) as [[]|]; try done. apply length_save.
  - done.
  - done.
  - unfold meas, a'. cbn [a_list a_stack t_set]. rewrite Hst, He, !length_app. cbn [length].
    assert (Hnd : length (elems s) <= n).
    { assert (Hi : elems s ⊆ List.map N.of_nat (seq 0 n)).
      { intros x Hx. apply list_elem_of_In, in_map_iff. exists (N.to_nat x). split; [lia|]. apply in_seq.
        assert (Hf := to_pcs _ Ht). rewrite Forall_forall in Hf. specialize (Hf x Hx). lia. }
      apply (NoDup_submseteq _ _ (elems_nodup s Hs)) in Hi. apply submseteq_length in Hi.
      by rewrite length_map, length_seq in Hi. }
    rewrite He, length_app in Hnd. simpl in Hnd. lia.
Qed.

(** A thread: listed with its slots. *)
Lemma add_thread pos a rs F pc js s l r :
  add_inv pos a rs F -> a_stack a = JExplore pc :: js ->
  pc ∉ elems (t_set (a_list a)) -> is_thread pc = true ->
  ss_ok s -> capacity s = capacity (t_set (a_list a)) -> elems s = elems (t_set (a_list a)) ++ [pc] ->
  length l = length (t_slots (a_list a)) ->
  row pc (mk_threads (t_set (a_list a)) l) = a_scratch a ->
  (forall pc', pc' <> pc -> row pc' (mk_threads (t_set (a_list a)) l) = row pc' (a_list a)) ->
  Srch (pc, pos) (a_scratch a) r ->
  let a' := mk_adding (mk_threads s l) js (a_scratch a) (a_oracle a) (a_memo a) (a_touched a) in
  add_inv pos a' (rs ++ [r]) F /\ meas a' < meas a.
Proof.
  intros [H1 H2 H3 H4 H5 H6 H7] Hst Hn Hth Hs Hc He Hl Hr Hro Hsr a'.
  rewrite Hst in H3, H4. inversion H4; subst. cbn [List.map job_item] in H3.
  assert (Hp : N.to_nat pc < n) by (apply inv_valid in H3; by apply lookup_lt_is_Some_1).
  split; [split; unfold a'; cbn [a_list a_stack a_scratch a_memo a_touched a_oracle]; try done|].
  - destruct (threads_insert _ _ _ H1 Hs Hc Hp He) as [T1 T2 T3 T4].
    split; cbn [t_set t_slots] in *; try done. by rewrite Hl.
  - eapply answers_thread; try done. by rewrite Hr.
  - rewrite first_of_snoc. eapply inv_ext; [|eapply inv_list; [exact Hsr|exact H3]].
    intros v Hv. by eapply listed_insert.
  - unfold meas, a'. cbn [a_list a_stack t_set]. rewrite Hst, He, length_app. cbn [length]. lia.
Qed.

Lemma add_old pos a rs F pc js s :
  add_inv pos a rs F -> a_stack a = JExplore pc :: js -> pc ∈ elems (t_set (a_list a)) ->
  ss_ok s -> capacity s = capacity (t_set (a_list a)) -> elems s = elems (t_set (a_list a)) ->
  let a' := mk_adding (mk_threads s (t_slots (a_list a))) js (a_scratch a) (a_oracle a) (a_memo a) (a_touched a) in
  add_inv pos a' rs F /\ meas a' < meas a.
Proof.
  intros [H1 H2 H3 H4 H5 H6 H7] Hst Hin Hs Hc He a'.
  rewrite Hst in H3, H4. inversion H4; subst. cbn [List.map job_item] in H3.
  split; [split; unfold a'; cbn [a_list a_stack a_scratch a_memo a_touched a_oracle]; try done|].
  - destruct H1 as [T1 T2 T3 T4]. split; cbn [t_set t_slots]; try done; [by rewrite Hc|by rewrite He].
  - unfold answers in *. cbn [t_set]. by rewrite He.
  - eapply inv_old; [|eapply inv_ext; [|exact H3]]; [split; [done|]; cbn [t_set fst]; by rewrite He|].
    intros v [Hv1 Hv2]. split; [done|]. cbn [t_set] in Hv2. by rewrite He in Hv2.
  - unfold meas, a'. cbn [a_list a_stack t_set]. rewrite Hst, He. cbn [length]. lia.
Qed.

Definition add_next (pos : nat) (a : adding) (F : answer) (done_ : bool) (a' : adding) : Prop :=
  exists rs', add_inv pos a' rs' F /\ (if done_ then a_stack a' = [] /\ F = first_of rs' else meas a' < meas a).

Abbreviation no_fault := (fun (_ : fault) (_ : adding) => False).

Lemma a_slot_ok slot (a : adding) :
  N.to_nat slot < length (a_scratch a) -> a_slot slot a = (Ok (slot_at slot (a_scratch a)), a).
Proof. intros Hl. unfold a_slot, xsome, slot_at. by destruct (lookup_lt_is_Some_2 _ _ Hl) as [z ->]. Qed.

(** What a [Save] does to the walk. *)
Lemma save_ok slot next pos (a : adding) :
  N.to_nat slot < length (a_scratch a) -> N.to_nat last_slot < length (a_scratch a) ->
  (a_slot slot ≫= fun old =>
   a_push (JRestore slot old) ≫= fun _ =>
   (if ((slot mod 2 =? 1) && (slot <? last_slot))%N
    then a_slot last_slot ≫= fun old_last =>
         a_push (JRestore last_slot old_last) ≫= fun _ =>
         a_set_slot last_slot (Z.of_N (slot / 2 + 1))
    else mret tt) ≫= fun _ =>
   a_set_slot slot (Z.of_nat pos) ≫= fun _ =>
   a_push (JExplore next)) a =
  (Ok tt, mk_adding (a_list a)
     (JExplore next :: List.map (fun u => JRestore (fst u) (snd u)) (save_undos last_slot slot (a_scratch a)) ++ a_stack a)
     (save last_slot slot pos (a_scratch a)) (a_oracle a) (a_memo a) (a_touched a)).
Proof.
  intros Hs Hl. unfold save, save_undos, mbind, stx_bind. rewrite (a_slot_ok slot) by done.
  cbn [a_push xmod a_scratch].
  destruct ((slot mod 2 =? 1) && (slot <? last_slot))%N.
  - rewrite (a_slot_ok last_slot) by done. unfold a_set_slot at 1. cbn [a_scratch].
    rewrite (proj2 (Nat.ltb_lt _ _)) by done. unfold a_set_slot. cbn [a_scratch].
    rewrite length_insert, (proj2 (Nat.ltb_lt _ _)) by done. done.
  - cbn. unfold a_set_slot. cbn [a_scratch]. rewrite (proj2 (Nat.ltb_lt _ _)) by done. done.
Qed.

Lemma nslots_2 : 2 <= nslots.
Proof.
  assert (Hwf := wf). unfold prog_wf in Hwf. apply andb_true_iff in Hwf as [_ H2]. apply N.leb_le in H2. lia.
Qed.

Section explore_one.
Variables (pos : nat) (a : adding) (rs : list answer) (F : answer) (pc : N) (js : list Job) (s : SparseSet) (i : Inst).
Hypothesis Hinv : add_inv pos a rs F.
Hypothesis Hst : a_stack a = JExplore pc :: js.
Hypothesis Hi : inst_at P pc = Some i.
Hypothesis Hn : pc ∉ elems (t_set (a_list a)).
Hypothesis Hs : ss_ok s.
Hypothesis Hc : capacity s = capacity (t_set (a_list a)).
Hypothesis He : elems s = elems (t_set (a_list a)) ++ [pc].

(** The state once the program counter is in the set. *)
Definition inserted : adding :=
  mk_adding (mk_threads s (t_slots (a_list a))) js (a_scratch a) (a_oracle a) (a_memo a) (a_touched a).

Lemma one_wf : inst_wf (length (sets pr)) (length (looks pr)) nslots n i = true.
Proof. by eapply wf_inst. Qed.

(** Stepped through, without a change of slots. *)
Lemma one_through js' ns mem touched o :
  is_thread pc = false -> (forall sl x, i <> ISave sl x) -> succs (pc, pos) = ns ->
  items pos js' = List.map Todo ns -> length js' <= 3 ->
  memo_ok pos mem touched -> oinv o ->
  exists rs', add_inv pos (mk_adding (mk_threads s (t_slots (a_list a))) (js' ++ js) (a_scratch a) o mem touched) rs' F /\
    meas (mk_adding (mk_threads s (t_slots (a_list a))) (js' ++ js) (a_scratch a) o mem touched) < meas a.
Proof.
  intros Hth Hsv Hsu Hit Hl Hm Ho. eexists.
  eapply (add_through pos a rs F pc js s [] ns); try done.
  - unfold Search.upd. simpl. rewrite Hi. destruct i; try done. by destruct (Hsv slot next).
  - by rewrite app_nil_r.
  - clear -Hit. revert ns Hit. induction js' as [|j js' IH]; intros ns Hit; [constructor|].
    destruct ns as [|m ns]; [done|]. simpl in Hit. injection Hit as Hj Hit.
    constructor; [by destruct j|]. by eapply IH.
Qed.

Lemma one_not_thread : (forall s x, i <> IChar s x) -> i <> IMatch -> is_thread pc = false.
Proof. intros H1 H2. unfold is_thread. rewrite Hi. destruct i; try done. by destruct (H1 set next). Qed.

Lemma one_thread r :
  is_thread pc = true -> Srch (pc, pos) (a_scratch a) r ->
  wp (a_write pr pc ≫= fun _ => mret false) inserted (add_next pos a F) no_fault.
Proof.
  intros Hth Hsr.
  assert (Hp : N.to_nat pc < n) by (by apply lookup_lt_is_Some_1; exists i).
  destruct (row_write (a_list a) pc (a_scratch a) (ai_threads _ _ _ _ Hinv) Hp (ai_slots _ _ _ _ Hinv))
    as (l & Hw & Hl & Hr & Hro).
  eapply wp_step; [unfold a_write, inserted; cbn [a_scratch a_list t_slots]; rewrite Hw; reflexivity|].
  apply wp_ret. eexists. by eapply (add_thread pos a rs F pc js s l r).
Qed.

Lemma one_save slot next :
  i = ISave slot next ->
  exists a', (a_slot slot ≫= fun old =>
   a_push (JRestore slot old) ≫= fun _ =>
   (if ((slot mod 2 =? 1) && (slot <? last_slot))%N
    then a_slot last_slot ≫= fun old_last =>
         a_push (JRestore last_slot old_last) ≫= fun _ =>
         a_set_slot last_slot (Z.of_N (slot / 2 + 1))
    else mret tt) ≫= fun _ =>
   a_set_slot slot (Z.of_nat pos) ≫= fun _ =>
   a_push (JExplore next)) inserted = (Ok tt, a') /\
  exists rs', add_inv pos a' rs' F /\ meas a' < meas a.
Proof.
  intros Hir. assert (Hi' := Hi). rewrite Hir in Hi'.
  assert (Hw := one_wf). rewrite Hir in Hw. simpl in Hw. apply andb_true_iff in Hw as [Hsl _]. cleanb.
  assert (H2 := nslots_2). assert (Hlen := ai_slots _ _ _ _ Hinv).
  eexists. split; [apply save_ok; cbn [inserted a_scratch]; rewrite Hlen; unfold Pike.last_slot; lia|].
  cbn [inserted a_list a_scratch a_stack a_oracle a_memo a_touched].
  set (us := save_undos last_slot slot (a_scratch a)).
  exists (rs ++ [None]).
  apply (add_through pos a rs F pc js s us [(next, pos)] _ _ _ _ (JExplore next :: List.map (fun u => JRestore (fst u) (snd u)) us) Hinv Hst Hn); try done.
  - apply one_not_thread; by rewrite Hir.
  - unfold Search.succs. by rewrite Hi'.
  - unfold Search.upd. simpl. by rewrite Hi'.
  - unfold us. apply undo_save.
  - simpl. f_equal. unfold undos. by rewrite map_map.
  - constructor; [done|]. unfold us, save_undos, Pike.last_slot. case_if; repeat constructor; simpl; lia.
  - unfold us, save_undos. case_if; simpl; lia.
  - apply Hinv.
  - apply Hinv.
Qed.

Lemma explore_one_ok :
  wp ((match i with
       | ISplit x y => a_push (JExplore y) ≫= fun _ => a_push (JExplore x)
       | IJmp next => a_push (JExplore next)
       | IGuard next => if (pos <=? wend)%nat then a_push (JExplore next) else mret tt
       | ISave slot next =>
           a_slot slot ≫= fun old =>
           a_push (JRestore slot old) ≫= fun _ =>
           (if ((slot mod 2 =? 1) && (slot <? last_slot))%N
            then a_slot last_slot ≫= fun old_last =>
                 a_push (JRestore last_slot old_last) ≫= fun _ =>
                 a_set_slot last_slot (Z.of_N (slot / 2 + 1))
            else mret tt) ≫= fun _ =>
           a_set_slot slot (Z.of_nat pos) ≫= fun _ =>
           a_push (JExplore next)
       | ILook look next =>
           a_look pr t wend look pos ≫= fun ok =>
           if ok : bool then a_push (JExplore next) else mret tt
       | IRun _ _ _ _ _ => mret tt
       | IChar _ _ | IMatch => a_write pr pc
       end) ≫= fun _ => mret false) inserted (add_next pos a F) no_fault.
Proof.
  assert (Hm := ai_memo _ _ _ _ Hinv). assert (Ho := ai_oracle _ _ _ _ Hinv).
  assert (Hsr : exists r, Srch (pc, pos) (a_scratch a) r).
  { destruct Hinv as [_ _ [(r & Hr & _) _] _ _ _ _]. rewrite Hst in Hr. inversion Hr; subst. by eexists. }
  destruct Hsr as [r Hsr]. assert (Hwf := one_wf).
  assert (Hc0 : exists i0, i0 = i) by (by exists i). destruct Hc0 as [i0 Hir]. rewrite <- Hir in Hwf |- *.
  destruct i0 as [set next|x y|next|slot next|look next|next|set mn mx greedy next|].
  - eapply one_thread; [unfold is_thread; by rewrite Hi, <- Hir|done].
  - eapply wp_step; [reflexivity|]. apply wp_ret.
    destruct (one_through [JExplore x; JExplore y] [(x, pos); (y, pos)] (a_memo a) (a_touched a) (a_oracle a))
      as (rs' & Hr); try done; [apply one_not_thread; by rewrite <- Hir|by rewrite <- Hir|unfold Search.succs; by rewrite Hi, <- Hir|simpl; lia|].
    by exists rs'.
  - eapply wp_step; [reflexivity|]. apply wp_ret.
    destruct (one_through [JExplore next] [(next, pos)] (a_memo a) (a_touched a) (a_oracle a))
      as (rs' & Hr); try done; [apply one_not_thread; by rewrite <- Hir|by rewrite <- Hir|unfold Search.succs; by rewrite Hi, <- Hir|simpl; lia|].
    by exists rs'.
  - destruct (one_save slot next (eq_sym Hir)) as (a' & Ha & rs' & Hr).
    eapply wp_step; [exact Ha|]. apply wp_ret. by exists rs'.
  - simpl in Hwf. apply andb_true_iff in Hwf as [Hlk _]. cleanb.
    destruct (memo_look inserted pos look Hm Ho ltac:(done)) as (mem & touched & o & Hl & Hm' & Ho').
    apply wp_bind. eapply wp_step; [exact Hl|].
    destruct (one_through (if look_at look pos then [JExplore next] else [])
      (if look_at look pos then [(next, pos)] else []) mem touched o)
      as (rs' & Hr); try done; [apply one_not_thread; by rewrite <- Hir|by rewrite <- Hir|unfold Search.succs; by rewrite Hi, <- Hir|by case_match|case_match; simpl; lia|].
    destruct (look_at look pos); apply wp_ret; by exists rs'.
  - destruct (one_through (if (pos <=? wend)%nat then [JExplore next] else [])
      (if (pos <=? wend)%nat then [(next, pos)] else []) (a_memo a) (a_touched a) (a_oracle a))
      as (rs' & Hr); try done; [apply one_not_thread; by rewrite <- Hir|by rewrite <- Hir|unfold Search.succs; by rewrite Hi, <- Hir|by case_match|case_match; simpl; lia|].
    destruct (pos <=? wend)%nat; (eapply wp_step; [reflexivity|]); apply wp_ret; by exists rs'.
  - by destruct (no_runs pc set mn mx greedy next); rewrite Hi, <- Hir.
  - eapply one_thread; [unfold is_thread; by rewrite Hi, <- Hir|done].
Qed.
End explore_one.

Lemma add_step_ok pos a rs F :
  add_inv pos a rs F -> wp (add_step pr P t wend pos) a (add_next pos a F) no_fault.
Proof.
  intros Hinv. unfold add_step. destruct (a_stack a) as [|j js] eqn:Hst.
  { eapply wp_step; [unfold a_pop; by rewrite Hst|]. apply wp_ret. exists rs. split; [done|].
    split; [done|]. assert (Hi := ai_inv _ _ _ _ Hinv). rewrite Hst in Hi. by apply inv_done in Hi. }
  eapply wp_step; [unfold a_pop; by rewrite Hst|]. destruct j as [pc|slot old].
  - assert (Hv : is_Some (inst_at P pc)).
    { assert (Hi := ai_inv _ _ _ _ Hinv). rewrite Hst in Hi. by apply inv_valid in Hi. }
    destruct Hv as [i Hi].
    assert (Hp : N.to_nat pc < n) by (by apply lookup_lt_is_Some_1; exists i).
    destruct (ai_threads _ _ _ _ Hinv) as [T1 T2 T3 T4].
    destruct (insert_ok pc (t_set (a_list a)) T1 ltac:(lia)) as (s & Hins & Hs & Hc & He).
    eapply wp_step; [unfold a_insert; cbn [a_list]; by rewrite Hins|].
    destruct (decide (pc ∈ elems (t_set (a_list a)))) as [Hin|Hnin].
    + rewrite bool_decide_eq_false_2 by (intros Hx; by apply Hx). cbn [negb].
      eapply wp_step; [reflexivity|]. apply wp_ret. exists rs. by eapply (add_old pos a rs F pc js s).
    + rewrite bool_decide_eq_true_2 by done. cbn [negb]. apply wp_assoc.
      eapply wp_step; [unfold inst, xsome; by rewrite Hi|].
      exact (explore_one_ok pos a rs F pc js s i Hinv Hst Hi Hnin Hs Hc He).
  - assert (Hslot : N.to_nat slot < nslots).
    { assert (Hj := ai_jobs _ _ _ _ Hinv). rewrite Hst in Hj. by inversion Hj. }
    eapply wp_step.
    { unfold a_set_slot. cbn [a_scratch]. rewrite (ai_slots _ _ _ _ Hinv), (proj2 (Nat.ltb_lt _ _)) by done. done. }
    apply wp_ret. exists rs. destruct Hinv as [H1 H2 H3 H4 H5 H6 H7]. rewrite Hst in H3, H4. inversion H4; subst.
    split; [split; cbn [a_list a_stack a_scratch a_memo a_touched a_oracle]; try done|].
    + by apply inv_undo in H3.
    + by rewrite length_insert.
    + unfold meas. cbn [a_list a_stack]. rewrite Hst. simpl. lia.
Qed.

(** *** [add] *)

(** A list whose walk is over: what it answers, and every state of it that
    wins has a thread that does. *)
Record settled (pos : nat) (T : Threads) (rs : list answer) : Prop := mk_settled {
  st_threads : threads_ok T;
  st_answers : answers pos T rs;
  st_complete : forall v, listed pos T v -> wins v -> is_Some (first_of rs);
}.

Lemma settled_inv pos T rs sl : settled pos T rs -> Inv (first_of rs) (listed pos T) [] sl (first_of rs).
Proof.
  intros [_ _ Hc]. split; [exists None; split; [constructor|by rewrite opt_or_None_r]|].
  intros v Hv Hw. left. by apply (Hc v).
Qed.

Lemma add_loop_ok fuel pos a rs F :
  add_inv pos a rs F -> meas a < fuel ->
  wp (add_loop pr P t wend fuel pos) a
    (fun _ a' => exists rs', add_inv pos a' rs' F /\ a_stack a' = [] /\ F = first_of rs') no_fault.
Proof.
  revert a rs. induction fuel as [|fuel IH]; intros a rs Hi Hm; [lia|]. cbn [add_loop].
  apply wp_bind. eapply wp_mono; [by apply (add_step_ok pos a rs F)| |done].
  intros d a' (rs' & Hi' & Hd). destruct d.
  - apply wp_ret. by exists rs'.
  - eapply IH; [exact Hi'|lia].
Qed.

(** [add] lists what the search from a state answers, after what the list
    has. *)
Lemma add_ok pos a rs from r :
  settled pos (a_list a) rs -> a_stack a = [] -> length (a_scratch a) = nslots ->
  memo_ok pos (a_memo a) (a_touched a) -> oinv (a_oracle a) ->
  Srch (from, pos) (a_scratch a) r ->
  wp (add pr P t wend from pos) a
    (fun _ a' => exists rs', settled pos (a_list a') rs' /\ first_of rs' = opt_or (first_of rs) r /\
       a_stack a' = [] /\ length (a_scratch a') = nslots /\
       memo_ok pos (a_memo a') (a_touched a') /\ oinv (a_oracle a')) no_fault.
Proof.
  intros Hse Hst Hl Hm Ho Hs. unfold add.
  eapply wp_step; [reflexivity|]. rewrite Hst.
  set (a1 := mk_adding _ _ _ _ _ _).
  assert (Hi : add_inv pos a1 rs (opt_or (first_of rs) r)).
  { split; unfold a1; cbn [a_list a_stack a_scratch a_memo a_touched a_oracle]; try done.
    - exact (st_threads _ _ _ Hse).
    - exact (st_answers _ _ _ Hse).
    - cbn [List.map job_item]. eapply inv_start; [by apply (settled_inv _ _ _ (a_scratch a))|done].
    - by repeat constructor. }
  assert (Hms : meas a1 < add_fuel P).
  { unfold meas, add_fuel, a1. cbn [a_stack length]. lia. }
  eapply wp_mono; [exact (add_loop_ok _ _ _ _ _ Hi Hms)| |done].
  intros _ a' (rs' & [H1 H2 H3 H4 H5 H6 H7] & Hst' & HF). exists rs'. split; [|by rewrite HF].
  split; [done|done|]. intros v Hv Hw. rewrite Hst' in H3.
  destruct (proj2 H3 v Hv Hw) as [|(i & m & Hi' & _)]; [done|]. by destruct i.
Qed.

(** *** The loop over positions *)

Abbreviation PikeCache := (PikeCache O).
Abbreviation no_fault' := (fun (_ : fault) (_ : PikeCache) => False).

(** What the buffers keep between two steps. *)
Record buffers (pos : nat) (c : PikeCache) : Prop := mk_buffers {
  bu_stack : c_stack c = [];
  bu_scratch : length (scratch c) = nslots;
  bu_memo : memo_ok pos (memo c) (memo_touched c);
  bu_oracle : oinv (c_oracle c);
}.

Lemma add_to_ok nl c from pos rs r :
  buffers pos c -> settled pos (if nl : bool then nlist c else clist c) rs ->
  Srch (from, pos) (scratch c) r ->
  wp (add_to pr P t wend nl from pos) c
    (fun _ c' => buffers pos c' /\ (if nl then clist c' = clist c else nlist c' = nlist c) /\
       exists rs', settled pos (if nl then nlist c' else clist c') rs' /\ first_of rs' = opt_or (first_of rs) r)
    no_fault'.
Proof.
  intros [B1 B2 B3 B4] Hse Hs. unfold wp, add_to.
  set (a := mk_adding _ _ _ _ _ _).
  assert (Ha : wp (add pr P t wend from pos) a
    (fun _ a' => exists rs', settled pos (a_list a') rs' /\ first_of rs' = opt_or (first_of rs) r /\
       a_stack a' = [] /\ length (a_scratch a') = nslots /\
       memo_ok pos (a_memo a') (a_touched a') /\ oinv (a_oracle a')) no_fault) by by apply add_ok.
  unfold wp in Ha. destruct (add pr P t wend from pos a) as [[u|e] a']; [|done].
  destruct Ha as (rs' & H1 & H2 & H3 & H4 & H5 & H6).
  destruct nl; (split; [by split|]); (split; [done|]); by exists rs'.
Qed.

Lemma reads_ok set p (c : PikeCache) :
  is_Some (sets pr !! N.to_nat set) -> reads pr t wend set p c = (Ok (set_at set p), c).
Proof.
  intros [cs Hcs]. unfold reads, Machine.set_at. destruct (p <? wend)%nat; simpl; [|done].
  destruct (t !! p); [|done]. unfold mbind, stx_bind, xsome. by rewrite Hcs.
Qed.

(** The row of a thread is there. *)
Lemma row_ok pc (c : PikeCache) :
  threads_ok (clist c) -> N.to_nat pc < n -> row_of_thread pr pc c = (Ok (row pc (clist c)), c).
Proof.
  intros [_ _ Hs _] Hp. unfold row_of_thread, xsome. rewrite read_row_ok by nia. done.
Qed.

Lemma row_length pc T : threads_ok T -> N.to_nat pc < n -> length (row pc T) = nslots.
Proof. intros [_ _ Hs _] Hp. unfold row. rewrite length_take, length_drop. nia. Qed.

(** What a thread that reads a character answers. *)
Lemma char_answer pc p sl r set next :
  inst_at P pc = Some (IChar set next) -> Srch (pc, p) sl r ->
  if set_at set p then Srch (next, S p) sl r else r = None.
Proof.
  intros Hi Hs. destruct (Srch_inv _ _ _ _ _ _ _ _ _ _ Hs) as (rs & Hrs & ->).
  assert (Hl : leaf (pc, p) sl = None) by (unfold Search.leaf, is_match; simpl; by rewrite Hi).
  assert (Hu : upd (pc, p) sl = sl) by (unfold Search.upd; simpl; by rewrite Hi).
  rewrite Hl, opt_or_None_l. rewrite Hu in Hrs. unfold Search.succs in Hrs. rewrite Hi in Hrs.
  destruct Hrs as (l & Hf & ->). destruct (set_at set p).
  - inversion Hf as [|? ? ? ? H1 H2]; subst. inversion H2; subst. simpl. by rewrite opt_or_None_r.
  - by inversion Hf; subst.
Qed.

Lemma match_answer pc p sl r :
  inst_at P pc = Some IMatch -> Srch (pc, p) sl r -> r = if accepted p then Some (sl, p) else None.
Proof.
  intros Hi Hs. eapply Srch_fun; [exact Hs|]. apply Srch_match. unfold is_match. by rewrite Hi.
Qed.

(** The loop over the threads from the [i]th on: what is listed at the next
    position, then what is recorded, is what they answer. *)
Lemma scan_ok p rs_c matched F k i c rs_n :
  buffers (p + 1) c -> settled p (clist c) rs_c -> settled (p + 1) (nlist c) rs_n ->
  i + k = SparseSet.len (t_set (clist c)) ->
  F = opt_or (first_of rs_n) (opt_or (first_of (drop i rs_c)) matched) ->
  wp (scan_threads pr P t start_ wend want p k i) c
    (fun m c' => buffers (p + 1) c' /\ clist c' = clist c /\
       (wend <= p -> elems (t_set (nlist c)) = [] -> elems (t_set (nlist c')) = []) /\
       (forall a, m = Some a -> is_Some a /\ accepted p = true) /\
       exists rs', settled (p + 1) (nlist c') rs' /\ F = opt_or (first_of rs') (default matched m))
    no_fault'.
Proof.
  revert i c rs_n. induction k as [|k IH]; intros i c rs_n Hb Hc Hn Hk HF.
  { apply wp_ret. split; [done|]. split; [done|]. split; [done|]. split; [done|]. exists rs_n. split; [done|].
    rewrite HF. simpl. rewrite drop_ge; [done|].
    rewrite <- (Forall2_length _ _ _ (st_answers _ _ _ Hc)), elems_length by apply Hc. lia. }
  cbn [scan_threads]. eapply wp_step; [reflexivity|].
  destruct (st_threads _ _ _ Hc) as [T1 T2 T3 T4].
  destruct (lookup_lt_is_Some_2 (elems (t_set (clist c))) i) as [pc Hpc]; [rewrite elems_length by done; lia|].
  destruct (Forall2_lookup_l _ _ _ _ _ (st_answers _ _ _ Hc) Hpc) as (r & Hr & Hans).
  assert (Hp : N.to_nat pc < n) by (by eapply Forall_lookup_1 in T4).
  destruct (lookup_lt_is_Some_2 _ _ Hp) as [ins Hi]. change (inst_at P pc = Some ins) in Hi.
  eapply wp_step; [unfold xsome; by rewrite (get_ok i _ pc)|].
  eapply wp_step; [unfold inst, xsome; by rewrite Hi|].
  rewrite (drop_S _ _ _ Hr) in HF. cbn [first_of foldr] in HF.
  assert (Hskip : r = None ->
    wp (scan_threads pr P t start_ wend want p k (S i)) c
    (fun m c' => buffers (p + 1) c' /\ clist c' = clist c /\
       (wend <= p -> elems (t_set (nlist c)) = [] -> elems (t_set (nlist c')) = []) /\
       (forall a, m = Some a -> is_Some a /\ accepted p = true) /\
       exists rs', settled (p + 1) (nlist c') rs' /\ F = opt_or (first_of rs') (default matched m)) no_fault').
  { intros ->. apply (IH (S i) c rs_n); try done; lia. }
  destruct ins as [set next|x y|next|slot next|look next|next|set mn mx greedy next|];
    try (apply Hskip; by rewrite (one_not_thread pc _ Hi) in Hans).
  - unfold is_thread in Hans. rewrite Hi in Hans.
    assert (Hw := wf_inst pr P wf _ _ Hi). simpl in Hw. apply andb_true_iff in Hw as [Hset _].
    eapply wp_step; [by apply reads_ok, wf_set|].
    assert (Hch := char_answer pc p _ r set next Hi Hans).
    destruct (set_at set p) eqn:Hat.
    + apply wp_bind. eapply wp_step; [by apply row_ok|]. eapply wp_step; [reflexivity|].
      set (c1 := mk_cache _ _ _ _ _ _ _).
      rewrite <- Nat.add_1_r in Hch.
      eapply wp_mono; [apply (add_to_ok true c1 next (p + 1) rs_n r)| |done].
      * destruct Hb. split; try done. by apply row_length.
      * exact Hn.
      * exact Hch.
      * intros _ c' (Hb' & Hcl & rs' & Hse' & Hrs'). cbn [c1 clist] in Hcl.
        eapply wp_mono; [apply (IH (S i) c' rs')| |done].
        -- done.
        -- by rewrite Hcl.
        -- done.
        -- rewrite Hcl. lia.
        -- rewrite HF, Hrs', !opt_or_assoc. done.
        -- intros m c'' (G1 & G2 & G3 & G4 & G5). split; [done|]. split; [by rewrite G2|].
           split; [|done]. apply set_at_lim in Hat. lia.
    + eapply wp_step; [reflexivity|]. by apply Hskip.
  - unfold is_thread in Hans. rewrite Hi in Hans. apply match_answer in Hans; [|done].
    destruct (accepted p) eqn:Hac.
    + eapply wp_step; [by apply row_ok|]. apply wp_ret. subst r.
      split; [done|]. split; [done|]. split; [done|].
      split; [intros a [= <-]; split; [by eexists|done]|]. by exists rs_n.
    + by apply Hskip.
Qed.

(** Nothing ends before where a search stands. *)
Lemma thread_past v e : end_at want = Some e -> e < snd v -> ~ wins v.
Proof.
  intros He Hlt Hw. induction Hw as [pc pos Hm Ha|v v' Hin Hw IH].
  - unfold Pike.accepted in Ha. rewrite He in Ha. cleanb. simpl in Hlt. lia.
  - apply IH. apply (succs_range _ _ _ _ _ (set_at_lim pr t wend)) in Hin. lia.
Qed.

Lemma settled_past p T rs e : settled p T rs -> end_at want = Some e -> e < p -> first_of rs = None.
Proof.
  intros [_ Ha _] He Hlt. destruct (first_of rs) as [a|] eqn:E; [|done].
  assert (Hs : is_Some (first_of rs)) by (by rewrite E). apply first_of_Some in Hs as [r Hr].
  apply list_elem_of_lookup in Hr as [i Hi].
  destruct (Forall2_lookup_r _ _ _ _ _ Ha Hi) as (pc & _ & Hpc). destruct (is_thread pc); [|done].
  assert (Hw : wins (pc, p)) by (eapply Srch_wins; [exact Hpc|by eexists]).
  by destruct (thread_past (pc, p) e He Hlt).
Qed.

(** *** Between two positions *)

Lemma settled_empty p T : threads_ok T -> elems (t_set T) = [] -> settled p T [].
Proof.
  intros Ht He. split; [done|unfold answers; rewrite He; constructor|].
  intros v [_ Hin]. rewrite He in Hin. by apply elem_of_nil in Hin.
Qed.

(** Clearing what was asked leaves a memo that holds nothing. *)
Definition memo_clean (mem : list Z) : Prop := forall l m, mem !! N.to_nat l = Some m -> m = 0%Z.

Lemma cleared_lookup touched (mem : list Z) (i : nat) :
  fold_left (fun m l => <[N.to_nat l := 0%Z]> m) touched mem !! i =
  if decide (N.of_nat i ∈ touched) then (fun _ => 0%Z) <$> (mem !! i) else mem !! i.
Proof.
  revert mem. induction touched as [|l touched IH]; intros mem; cbn [fold_left].
  { case_decide as Hin; [by apply elem_of_nil in Hin|done]. }
  rewrite IH. destruct (decide (i = N.to_nat l)) as [->|Hne].
  - rewrite N2Nat.id. rewrite (decide_True (P := l ∈ l :: touched)) by left.
    destruct (decide (N.to_nat l < length mem)) as [Hl|Hl].
    + rewrite list_lookup_insert_eq by done. destruct (lookup_lt_is_Some_2 _ _ Hl) as [z ->]. by destruct (decide (l ∈ touched)).
    + rewrite list_insert_ge by lia. rewrite (lookup_ge_None_2 mem) by lia. by destruct (decide (l ∈ touched)).
  - rewrite list_lookup_insert_ne by done. assert (N.of_nat i <> l) by (intros <-; lia).
    destruct (decide (N.of_nat i ∈ touched)) as [Hd|Hd].
    + by rewrite decide_True by (by right).
    + rewrite decide_False; [done|]. intros Hin. by apply elem_of_cons in Hin as [|].
Qed.

Lemma length_cleared touched (mem : list Z) :
  length (fold_left (fun m l => <[N.to_nat l := 0%Z]> m) touched mem) = length mem.
Proof.
  revert mem. induction touched as [|l touched IH]; intros mem; cbn [fold_left]; [done|].
  by rewrite IH, length_insert.
Qed.

Lemma cleared_all touched (mem : list Z) : Forall (fun l => N.to_nat l < length mem) touched ->
  fold_opt (fun m l => if (N.to_nat l <? length m)%nat then Some (<[N.to_nat l := 0%Z]> m) else None) touched mem =
  Some (fold_left (fun m l => <[N.to_nat l := 0%Z]> m) touched mem).
Proof.
  revert mem. induction touched as [|l touched IH]; intros mem Hf; [done|]. cbn [fold_opt fold_left].
  apply Forall_cons in Hf as [Hl Hf]. rewrite (proj2 (Nat.ltb_lt _ _)) by done. apply IH. by rewrite length_insert.
Qed.

Lemma clear_memo_ok pos c pos' :
  buffers pos c ->
  exists c', clear_memo c = (Ok tt, c') /\
    buffers pos' c' /\ clist c' = clist c /\ nlist c' = nlist c /\ memo_clean (memo c') /\ memo_touched c' = [].
Proof.
  intros [B1 B2 (B3 & Br & B3') B4]. unfold clear_memo. rewrite cleared_all by done. eexists. split; [reflexivity|].
  assert (Hcl : memo_clean (fold_left (fun m l => <[N.to_nat l := 0%Z]> m) (memo_touched c) (memo c))).
  { intros l m. rewrite cleared_lookup, N2Nat.id. intros Hm. case_decide as Hd.
    - destruct (memo c !! N.to_nat l); simpl in Hm; congruence.
    - by destruct (B3' _ _ Hm) as [|[_ Hin]]. }
  split; [|done]. split; cbn [c_stack scratch memo memo_touched c_oracle]; try done.
  split; [by rewrite length_cleared|]. split; [constructor|]. intros l m Hm. left. by eapply Hcl.
Qed.

(** *** The search *)

(** What a search leaves, whatever it found. *)
Record cache_ok (c : PikeCache) : Prop := mk_cache_ok {
  co_clist : length (sparse (t_set (clist c))) = length (dense (t_set (clist c)));
  co_nlist : length (sparse (t_set (nlist c))) = length (dense (t_set (nlist c)));
  co_stack : c_stack c = [];
  co_memo : memo_clean (memo c);
  co_touched : memo_touched c = [];
  co_oracle : oinv (c_oracle c);
}.

Lemma search_loop_ok fuel p c rs matched F :
  buffers p c -> settled p (clist c) rs ->
  threads_ok (nlist c) -> elems (t_set (nlist c)) = [] ->
  (is_Some matched -> end_at want = None) ->
  F = opt_or (first_of rs) matched -> wend - p < fuel ->
  wp (search_loop pr P t start_ wend want fuel p matched) c
    (fun a c' => a = F /\ (exists p', buffers p' c') /\ threads_ok (clist c') /\ threads_ok (nlist c')) no_fault'.
Proof.
  revert p c rs matched. induction fuel as [|fuel IH]; intros p c rs matched Hb Hc Hn Hne Hm HF Hf; [lia|].
  cbn [search_loop]. destruct (clear_memo_ok p c (p + 1) Hb) as (c1 & Hclear & Hb1 & Hcl1 & Hnl1 & _).
  eapply wp_step; [exact Hclear|]. eapply wp_step; [reflexivity|]. apply wp_bind.
  eapply wp_mono; [apply (scan_ok p rs matched F _ 0 c1 [])| |done].
  - exact Hb1.
  - by rewrite Hcl1.
  - rewrite Hnl1. by apply settled_empty.
  - done.
  - by rewrite HF.
  - intros m c2 (G1 & G2 & G3 & G4 & rs' & G5 & G6). eapply wp_step; [reflexivity|].
    assert (Hct : threads_ok (clist c2)) by (rewrite G2, Hcl1; apply Hc).
    assert (Hdone : first_of rs' = None -> default matched m = F /\ (exists p', buffers p' c2) /\
      threads_ok (clist c2) /\ threads_ok (nlist c2)).
    { intros Hnone. rewrite Hnone, opt_or_None_l in G6.
      split; [done|]. split; [by eexists|]. split; [done|apply G5]. }
    destruct ((wend <=? p)%nat || SparseSet.is_empty (t_set (nlist c2))) eqn:Hend.
    { apply wp_ret, Hdone. assert (He : elems (t_set (nlist c2)) = []).
      { apply orb_true_iff in Hend as [Hend|Hend]; cleanb.
        - apply G3; [done|by rewrite Hnl1].
        - unfold SparseSet.is_empty in Hend. cleanb.
          apply nil_length_inv. rewrite elems_length by apply G5. done. }
      assert (Ha := st_answers _ _ _ G5). unfold answers in Ha. rewrite He in Ha. by inversion Ha. }
    apply orb_false_iff in Hend as [Hwp _]. cleanb.
    destruct (match end_at want with
              | Some e => match default matched m with Some _ => true | None => (e <=? p)%nat end
              | None => false end) eqn:Hcut.
    + apply wp_ret, Hdone. destruct (end_at want) as [e|] eqn:He; [|done].
      eapply (settled_past (p + 1) _ _ e G5 He).
      destruct m as [a|]; simpl in Hcut.
      * destruct (G4 a eq_refl) as [[x ->] Hac]. unfold Pike.accepted in Hac. rewrite He in Hac. cleanb. lia.
      * destruct matched as [x|]; [by discriminate (Hm ltac:(by eexists))|]. cleanb. lia.
    + eapply wp_step; [reflexivity|]. rewrite Nat.add_1_r in *.
      destruct (SparseSet.clear_ok (t_set (clist c2)) (to_set _ Hct)) as [Hs1 Hs2].
      eapply (IH (S p) _ rs' (default matched m)); cbn [clist nlist t_set]; try done; [by destruct G1| | |lia].
      * destruct Hct. by split.
      * intros [x Hx]. destruct (end_at want); [|done]. by rewrite Hx in Hcut.
Qed.

Lemma reset_ok T :
  length (sparse (t_set T)) = length (dense (t_set T)) ->
  threads_ok (reset n nslots T) /\ elems (t_set (reset n nslots T)) = [].
Proof.
  intros Hl. destruct (SparseSet.resize_ok n (t_set T) Hl) as (H1 & H2 & H3). unfold reset. cbn [t_set].
  split; [|done]. split; cbn [t_set t_slots]; [done|done| |by rewrite H2].
  case_if; [|done]. unfold SparseSet.grow. rewrite length_app, length_replicate. lia.
Qed.

(** The search answers what searching the program's paths does. *)
Lemma search_ok c F :
  cache_ok c ->
  Srch (if anchored want then start P else start_unanchored P, start_) (replicate nslots (-1)%Z) F ->
  wp (search pr P t start_ wend want) c (fun a c' => a = F /\ cache_ok c') no_fault'.
Proof.
  intros [C1 C2 C3 C4 C5 C6] Hs. unfold search. eapply wp_step; [reflexivity|].
  destruct (reset_ok _ C1) as [R1 R2]. destruct (reset_ok _ C2) as [R3 R4].
  assert (Hb : buffers start_ (prepare pr P c)).
  { split; cbn [prepare c_stack scratch memo memo_touched c_oracle]; try done; [by rewrite length_replicate|].
    assert (Hg : forall k l m, SparseSet.grow k 0%Z (memo c) !! N.to_nat l = Some m -> m = 0%Z).
    { intros k l m Hm. unfold SparseSet.grow in Hm. apply lookup_app_Some in Hm as [Hm|[_ Hm]]; [by eapply C4|].
      by apply lookup_replicate in Hm as [-> _]. }
    split; [|split; [rewrite C5; constructor|]].
    - case_if; [|lia]. unfold SparseSet.grow. rewrite length_app, length_replicate. lia.
    - intros l m Hm. left. case_if_in Hm; [by eapply Hg|by eapply C4]. }
  apply wp_bind. eapply wp_mono; [apply (add_to_ok false _ _ start_ [] F Hb)| |done].
  - by apply settled_empty.
  - exact Hs.
  - intros _ c1 (Hb1 & Hn1 & rs & Hse & Hrs). cbn [first_of foldr] in Hrs. rewrite opt_or_None_l in Hrs.
    apply wp_bind. cbn [prepare nlist] in Hn1.
    eapply wp_mono; [apply (search_loop_ok _ start_ c1 rs None F Hb1 Hse)| |done].
    + by rewrite Hn1.
    + by rewrite Hn1.
    + by intros [? ?].
    + by rewrite Hrs, opt_or_None_r.
    + lia.
    + intros a c2 (-> & (p' & Hb2) & Ht1 & Ht2). destruct (clear_memo_ok p' c2 0 Hb2) as (c3 & Hclear & B & E1 & E2 & E3 & E4).
      eapply wp_step; [exact Hclear|]. apply wp_ret. split; [done|].
      destruct B. split; try done; rewrite ?E1, ?E2; by apply ss_length, to_set.
Qed.
End correct.
