(* ===== verification/Backtrack.v ===== *)
(** The backtracker: [linre/backtrack.rs].

    A depth-first search of a program in priority order that takes each
    (program counter, position) once.  [dfs] is the code's search: its table
    of visited bits (a row of words per position), its stack of frames (a
    node, a slot to restore, the exits of a greedy run, the exits of a lazy
    one), its shortcut for the greedy runs of one set, its budget of steps.
    The nested loops are the states of [ctl]: the outer loop pops ([CPop]),
    the inner one follows a path ([CAt]), the loop inside a split consumes a
    run ([CRun]). *)

From Stdlib Require Import ZArith Lia.
From stdpp Require Import base option numbers list_numbers list.
From S2P Require Import Prelude CharSet Hir Nfa Search Machine Explore.

(** Visited bits a search may use. *)
Definition MAX_BITS : Z := Z.shiftl 1 24.

(** A frame of the stack. *)
Inductive Frame : Type :=
| FExplore (pc : N) (pos : nat)
| FRestore (slot : N) (old : Z)
| FExits (exit : N) (lo hi : nat)
| FLazy (next set : N) (at_ last : nat).

(** Why a search stopped without an answer: the budget ran out
    ([OutOfSteps]); or a fault, which the code does not have. *)
Inductive stop : Type := OutOfSteps | Fault (f : fault).

(** [Backtracker]: the buffers kept from one search to the next. *)
Record Backtracker := mk_bt {
  visited : list Z;
  used : nat;
  stack : list Frame;
  bt_slots : slots;
}.

Definition new_backtracker : Backtracker := mk_bt [] 0 [] [].

(** Words of a row. *)
Definition row_of (P : Prog) : nat := Nat.div (length (insts P) + 63) 64.

Definition max_rows (P : Prog) : Z := Z.max (MAX_BITS / 64 / Z.of_nat (row_of P)) 1.

(** Can a span of [len] characters be searched within the limit? *)
Definition fits (P : Prog) (len : nat) : bool := (Z.of_nat len <? max_rows P)%Z.

(** Is [pc] a split of a greedy run of [set] leaving to [exit]? [None]: an
    index is out of range. *)
Definition run_split (P : Prog) (pc set exit : N) : option bool :=
  match inst_at P pc with
  | None => None
  | Some (ISplit x y) =>
      if (y =? exit)%N
      then
        match inst_at P x with
        | None => None
        | Some (IChar s _) => Some (s =? set)%N
        | Some _ => Some false
        end
      else Some false
  | Some _ => Some false
  end.

(** While the character at [q] is in the set, the next one, [n] times at
    most: where it stops ([None]: an index is out of range). *)
Fixpoint consume (cs : CharSet) (t : text) (q n : nat) : option nat :=
  match n with
  | 0 => Some q
  | S n' =>
      match t !! q with
      | None => None
      | Some c => if contains cs c then consume cs t (S q) n' else Some q
      end
  end.

Section dfs.
Context {O : Type} `{LookOracle O}.
Variables (pr : Programs) (P : Prog) (t : text) (s wend : nat).
Variables (end_at : option nat) (no_empty : bool) (budget : Z).

(** What a search changes: the buffers, the steps taken, the caller's count
    of steps, the oracle's memory. *)
Record dfs_state := mk_dfs {
  bt : Backtracker;
  steps : Z;
  spent : Z;
  oracle : O;
}.

Abbreviation M := (stx dfs_state stop).

Definition row : nat := row_of P.
Definition last_slot : N := (nslots pr - 2)%N.
Definition limit : nat := Nat.min (default wend end_at) wend.

Definition set_bt (b : Backtracker) (st : dfs_state) : dfs_state :=
  mk_dfs b (steps st) (spent st) (oracle st).

Definition push_frame (f : Frame) : M unit := xmod (fun st =>
  let b := bt st in set_bt (mk_bt (visited b) (used b) (f :: stack b) (bt_slots b)) st).

Definition charge (k : Z) : M unit := fun st =>
  let st' := mk_dfs (bt st) (steps st + k) (spent st + k) (oracle st) in
  if (budget <? steps st')%Z then (Err OutOfSteps, st') else (Ok tt, st').

(** The words of the rows up to [r] are there and in use. *)
Definition use_row (r : nat) (b : Backtracker) : Backtracker :=
  let need := (r + 1) * row in
  if (used b <? need)%nat
  then
    mk_bt (if (length (visited b) <? need)%nat
           then visited b ++ replicate (need - length (visited b)) 0%Z else visited b)
      need (stack b) (bt_slots b)
  else b.

(** Mark (pc, pos) visited; false if it was. *)
Definition visit (pc : N) (pos : nat) : M bool := fun st =>
  let r := pos - s in
  if (max_rows P <=? Z.of_nat r)%Z then (Err OutOfSteps, st)
  else
    let b := use_row r (bt st) in
    let st := set_bt b st in
    let w := r * row + N.to_nat (pc / 64) in
    let bit := Z.shiftl 1 (Z.of_N (pc mod 64)) in
    match visited b !! w with
    | None => (Err (Fault Panic), st)
    | Some word =>
        if negb (Z.land word bit =? 0)%Z then (Ok false, st)
        else
          (charge 1 ≫= fun _ => mret true)
            (set_bt (mk_bt (<[w := Z.lor word bit]> (visited b)) (used b) (stack b) (bt_slots b)) st)
    end.

Definition inst (pc : N) : M Inst := xsome (Fault Panic) (inst_at P pc).
Definition the_set (set : N) : M CharSet := xsome (Fault Panic) (sets pr !! N.to_nat set).

(** [pos < limit && pr.sets[set].contains(text[pos])] *)
Definition reads (set : N) (pos : nat) : M bool :=
  if (pos <? limit)%nat
  then the_set set ≫= fun cs => xsome (Fault Panic) (t !! pos) ≫= fun c => mret (contains cs c)
  else mret false.

Definition get_slot (slot : N) : M Z := fun st =>
  xsome (Fault Panic) (bt_slots (bt st) !! N.to_nat slot) st.

Definition set_slot (slot : N) (v : Z) : M unit := fun st =>
  let b := bt st in
  if (N.to_nat slot <? length (bt_slots b))%nat
  then (Ok tt, set_bt (mk_bt (visited b) (used b) (stack b) (<[N.to_nat slot := v]> (bt_slots b))) st)
  else (Err (Fault Panic), st).

(** Where the search is in its loops. *)
Inductive ctl : Type :=
| CPop
| CAt (pc : N) (pos : nat)
| CRun (set y : N) (lo : nat) (sp : N) (q : nat).

(** The outer loop, from [stack.pop()]. *)
Definition pop_step : M (ctl + answer) := xget ≫= fun st =>
  match stack (bt st) with
  | [] => mret (inr None)
  | f :: rest =>
      xput (let b := bt st in set_bt (mk_bt (visited b) (used b) rest (bt_slots b)) st) ≫= fun _ =>
      match f with
      | FRestore slot old => set_slot slot old ≫= fun _ => mret (inl CPop)
      | FExplore pc pos => mret (inl (CAt pc pos))
      | FExits exit lo hi =>
          (if (lo <? hi)%nat then push_frame (FExits exit lo (hi - 1)) else mret tt) ≫= fun _ =>
          mret (inl (CAt exit hi))
      | FLazy next set at_ last =>
          charge 1 ≫= fun _ =>
          (if (at_ <? last)%nat then reads set at_ else mret false) ≫= fun more =>
          (if more : bool then push_frame (FLazy next set (at_ + 1) last) else mret tt) ≫= fun _ =>
          mret (inl (CAt next at_))
      end
  end.

(** Is the split at [pc] a greedy run of one set? *)
Definition greedy_run (pc x y : N) : M (option N) :=
  inst x ≫= fun i =>
  match i with
  | IChar set next =>
      if (next =? pc)%N then mret (Some set)
      else xsome (Fault Panic) (run_split P next set y) ≫= fun r =>
           mret (if r : bool then Some set else None)
  | _ => mret None
  end.

(** A repeat of one set, as one instruction. *)
Definition run_inst (set mn mx : N) (greedy : bool) (next : N) (pos : nat) : M (ctl + answer) :=
  the_set set ≫= fun cs =>
  let cap := if (mx =? HOLE)%N then limit else N.to_nat (N.min (N.of_nat limit) (N.of_nat pos + mx)) in
  let need := pos + N.to_nat mn in
  if (cap <? need)%nat then mret (inl CPop)
  else if greedy then
    xsome (Fault Panic) (consume cs t pos (cap - pos)) ≫= fun q =>
    charge (Z.of_nat (q - pos) / 4) ≫= fun _ =>
    if (q <? need)%nat then mret (inl CPop)
    else push_frame (FExits next need q) ≫= fun _ => mret (inl CPop)
  else
    xsome (Fault Panic) (consume cs t pos (need - pos)) ≫= fun q =>
    charge (Z.of_nat (q - pos) / 4) ≫= fun _ =>
    if (q <? need)%nat then mret (inl CPop)
    else push_frame (FLazy next set need cap) ≫= fun _ => mret (inl CPop).

(** The inner loop: one node of the path followed. *)
Definition at_step (pc : N) (pos : nat) : M (ctl + answer) :=
  visit pc pos ≫= fun new =>
  if negb new then mret (inl CPop)
  else
    inst pc ≫= fun i =>
    match i with
    | IChar set next =>
        reads set pos ≫= fun ok => mret (inl (if ok : bool then CAt next (pos + 1) else CPop))
    | ISplit x y =>
        greedy_run pc x y ≫= fun run =>
        match run with
        | None => push_frame (FExplore y pos) ≫= fun _ => mret (inl (CAt x pos))
        | Some set => mret (inl (CRun set y pos pc pos))
        end
    | IRun set mn mx greedy next => run_inst set mn mx greedy next pos
    | IJmp next => mret (inl (CAt next pos))
    | IGuard next => mret (inl (if (pos <=? wend)%nat then CAt next pos else CPop))
    | ISave slot next =>
        get_slot slot ≫= fun old =>
        push_frame (FRestore slot old) ≫= fun _ =>
        (if ((slot mod 2 =? 1) && (slot <? last_slot))%N
         then get_slot last_slot ≫= fun old_last =>
              push_frame (FRestore last_slot old_last) ≫= fun _ =>
              set_slot last_slot (Z.of_N (slot / 2 + 1))
         else mret tt) ≫= fun _ =>
        set_slot slot (Z.of_nat pos) ≫= fun _ =>
        mret (inl (CAt next pos))
    | ILook look next => fun st =>
        match look_holds pr look t pos wend (oracle st) with
        | None => (Err (Fault Panic), st)
        | Some (ok, o) =>
            (Ok (inl (if ok then CAt next pos else CPop)), mk_dfs (bt st) (steps st) (spent st) o)
        end
    | IMatch =>
        let ok := match end_at with
                  | Some e => (pos =? e)%nat
                  | None => negb (no_empty && (pos =? s)%nat)
                  end in
        if ok
        then xget ≫= fun st => mret (inr (Some (bt_slots (bt st), pos)))
        else mret (inl CPop)
    end.

(** The loop of a greedy run, from the split [sp] at [q]; [lo] is where the
    run began. *)
Definition run_step (set y : N) (lo : nat) (sp : N) (q : nat) : M (ctl + answer) :=
  let leave := push_frame (FExits y lo q) ≫= fun _ => mret (inl CPop) in
  inst sp ≫= fun i =>
  match i with
  | ISplit cpc _ =>
      inst cpc ≫= fun c =>
      match c with
      | IChar _ cnext =>
          visit cpc q ≫= fun new =>
          if negb new then leave
          else
            reads set q ≫= fun ok =>
            if negb ok then leave
            else
              (if (cnext =? sp)%N then mret true
               else xsome (Fault Panic) (run_split P cnext set y)) ≫= fun more =>
              if more : bool
              then
                visit cnext (q + 1) ≫= fun new =>
                if negb new then leave else mret (inl (CRun set y lo cnext (q + 1)))
              else
                push_frame (FExits y lo q) ≫= fun _ => mret (inl (CAt cnext (q + 1)))
      | _ => leave
      end
  | _ => leave
  end.

Definition dfs_step (c : ctl) : M (ctl + answer) :=
  match c with
  | CPop => pop_step
  | CAt pc pos => at_step pc pos
  | CRun set y lo sp q => run_step set y lo sp q
  end.

Fixpoint dfs_loop (fuel : nat) (c : ctl) : M answer :=
  match fuel with
  | 0 => xfail (Fault NoFuel)
  | S fuel' =>
      dfs_step c ≫= fun r =>
      match r with inl c' => dfs_loop fuel' c' | inr a => mret a end
  end.

(** The positions a search can reach, the nodes it can take, and the steps
    of the loops that are always enough. *)
Definition rows : nat := limit - s + 1.
Definition node_bound : nat := length (insts P) * rows.
Definition dfs_fuel : nat := 4 + (2 * rows + 9) * (node_bound + 1).

(** The buffers as a search starts. *)
Definition clear_bt (b : Backtracker) : Backtracker :=
  mk_bt (replicate (used b) 0%Z ++ drop (used b) (visited b)) 0
    [FExplore (start P) s] (replicate (N.to_nat (nslots pr)) (-1)%Z).

Definition dfs (b : Backtracker) (o : O) (spent0 : Z) : result stop answer * dfs_state :=
  dfs_loop dfs_fuel CPop (mk_dfs (clear_bt b) 0 spent0 o).
End dfs.
Arguments dfs_state O : clear implicits.

(** [groups]: the slots of the first path from [s] that matches at [e]. *)
Definition groups {O} `{LookOracle O} (pr : Programs) (P : Prog) (t : text) (s e wend : nat)
    (b : Backtracker) (o : O) : option slots * dfs_state O :=
  let (r, st) := dfs pr P t s wend (Some e) false U64_MAX b o 0 in
  (match r with Ok (Some (sl, _)) => Some sl | _ => None end, st).

(** [anchored]: the match from [s], within a budget; the steps taken are
    added to [spent0]. *)
Definition anchored {O} `{LookOracle O} (pr : Programs) (P : Prog) (t : text) (s wend : nat)
    (no_empty : bool) (budget : Z) (b : Backtracker) (o : O) (spent0 : Z) :
    result stop answer * dfs_state O :=
  dfs pr P t s wend None no_empty budget b o spent0.

(** ** The table of visited bits *)

Section table.
Variables (P : Prog) (s : nat).

Abbreviation n := (length (insts P)).
Abbreviation row := (row_of P).

(** Past the words in use, every word is 0. *)
Definition table_ok (b : Backtracker) : Prop :=
  used b <= length (visited b) /\ forall i, used b <= i -> default 0%Z (visited b !! i) = 0%Z.

Definition word_of (v : node) : nat := (snd v - s) * row + N.to_nat (fst v / 64).
Definition bit_of (v : node) : Z := Z.of_N (fst v mod 64).

Definition marked (b : Backtracker) (v : node) : bool :=
  Z.testbit (default 0%Z (visited b !! word_of v)) (bit_of v).

(** A node of the table. *)
Definition in_table (v : node) : Prop := N.to_nat (fst v) < n /\ s <= snd v.

Lemma bit_of_nonneg v : (0 <= bit_of v)%Z.
Proof. apply N2Z.is_nonneg. Qed.

Lemma row_bound pc : N.to_nat pc < n -> N.to_nat (pc / 64) < row.
Proof.
  intros Hp. unfold row_of. rewrite N2Nat.inj_div. change (N.to_nat 64) with 64.
  assert (Hd : N.to_nat pc = 64 * (N.to_nat pc / 64) + N.to_nat pc mod 64) by (apply Nat.div_mod_eq).
  assert (Hm := Nat.mod_upper_bound (N.to_nat pc) 64 ltac:(done)).
  assert (Hd' : n + 63 = 64 * ((n + 63) / 64) + (n + 63) mod 64) by (apply Nat.div_mod_eq).
  assert (Hm' := Nat.mod_upper_bound (n + 63) 64 ltac:(done)). lia.
Qed.

Lemma word_bit_inj v v' :
  in_table v -> in_table v' -> word_of v = word_of v' -> bit_of v = bit_of v' -> v = v'.
Proof.
  destruct v as [pc pos], v' as [pc' pos']. unfold in_table, word_of, bit_of. simpl. intros [Hp Hs] [Hp' Hs'] Hw Hb.
  assert (H1 := row_bound _ Hp). assert (H2 := row_bound _ Hp').
  destruct (Nat.div_mod_unique row (pos - s) (pos' - s) _ _ H1 H2 ltac:(lia)) as [Hr Hq].
  apply N2Nat.inj in Hq.
  assert (Hm : (pc mod 64 = pc' mod 64)%N) by lia.
  f_equal; [|lia]. rewrite (N.div_mod pc 64), (N.div_mod pc' 64) by done. by rewrite Hq, Hm.
Qed.

Lemma use_row_spec r b :
  table_ok b ->
  table_ok (use_row P r b) /\ (r + 1) * row <= used (use_row P r b) /\
  (forall i, default 0%Z (visited (use_row P r b) !! i) = default 0%Z (visited b !! i)) /\
  stack (use_row P r b) = stack b /\ bt_slots (use_row P r b) = bt_slots b.
Proof.
  intros [Hu Hz]. unfold use_row, Backtrack.row. case_if; [|done || (repeat split; auto; lia)]. simpl.
  assert (Hd : forall i, default 0%Z ((if (length (visited b) <? (r + 1) * row)%nat
     then visited b ++ replicate ((r + 1) * row - length (visited b)) 0%Z else visited b) !! i)
     = default 0%Z (visited b !! i)).
  { intros i. case_if; [|done]. destruct (decide (i < length (visited b))) as [Hi|Hi].
    - by rewrite lookup_app_l.
    - rewrite lookup_app_r by lia. rewrite (lookup_ge_None_2 (visited b)) by lia.
      destruct (replicate _ 0%Z !! _) eqn:E; [|done]. by apply lookup_replicate in E as [-> _]. }
  split; [split; simpl|].
  - case_if; rewrite ?length_app, ?length_replicate; lia.
  - intros i Hi. rewrite Hd. apply Hz. lia.
  - by repeat split.
Qed.

Lemma marked_mark b v v' word :
  in_table v -> in_table v' -> visited b !! word_of v = Some word ->
  marked (mk_bt (<[word_of v := Z.lor word (Z.shiftl 1 (bit_of v))]> (visited b)) (used b) (stack b) (bt_slots b)) v'
  = bool_decide (v' = v) || marked b v'.
Proof.
  intros Hv Hv' Hw. unfold marked. simpl. assert (Hb0 := bit_of_nonneg v').
  destruct (decide (word_of v = word_of v')) as [Heq|Hne].
  - rewrite <- Heq, list_lookup_insert_eq by (by eapply lookup_lt_Some). rewrite Hw. simpl.
    rewrite Z.lor_spec, Z.shiftl_spec by done.
    destruct (decide (bit_of v' = bit_of v)) as [Hb|Hb].
    + rewrite Hb, Z.sub_diag. simpl. rewrite orb_true_r.
      rewrite bool_decide_eq_true_2; [done|]. symmetry. by apply word_bit_inj.
    + rewrite bool_decide_eq_false_2 by congruence.
      destruct (decide (bit_of v' - bit_of v < 0)%Z); [by rewrite (Z.testbit_neg_r 1) by lia; rewrite orb_false_r|].
      rewrite (Z.bits_above_log2 1); [by rewrite orb_false_r|lia|]. simpl. lia.
  - rewrite list_lookup_insert_ne by done. rewrite bool_decide_eq_false_2; [done|]. intros ->. done.
Qed.

(** The bit tested by the code. *)
Lemma bit_test word v :
  negb (Z.land word (Z.shiftl 1 (bit_of v)) =? 0)%Z = Z.testbit word (bit_of v).
Proof.
  assert (Hb := bit_of_nonneg v).
  destruct (Z.testbit word (bit_of v)) eqn:E.
  - apply negb_true_iff, Z.eqb_neq. intros H0.
    assert (Hf : Z.testbit (Z.land word (Z.shiftl 1 (bit_of v))) (bit_of v) = true).
    { rewrite Z.land_spec, E, Z.shiftl_spec, Z.sub_diag by lia. done. }
    rewrite H0, Z.testbit_0_l in Hf. done.
  - apply negb_false_iff, Z.eqb_eq, Z.bits_inj'. intros i Hi. rewrite Z.land_spec, Z.testbit_0_l.
    destruct (decide (i = bit_of v)) as [->|Hne]; [by rewrite E|].
    rewrite Z.shiftl_spec by done.
    destruct (decide (i - bit_of v < 0)%Z); [rewrite (Z.testbit_neg_r 1) by lia; apply andb_false_r|].
    rewrite (Z.bits_above_log2 1); [apply andb_false_r|lia|]. simpl. lia.
Qed.
End table.

(** ** The search is the search of the program *)

Section correct.
Context {O : Type} `{LookOracle O}.
Variables (pr : Programs) (P : Prog) (t : text) (s wend : nat).
Variables (end_at : option nat) (no_empty : bool) (budget : Z).
Variable look_at : N -> nat -> bool.
Variable oinv : O -> Prop.
Context `{!OracleLaws O pr t wend look_at oinv}.
Hypothesis wf : prog_wf pr P = true.
Hypothesis text_end : wend <= length t.

Abbreviation n := (length (insts P)).
Abbreviation limit := (limit wend end_at).
Hypothesis start_limit : s <= limit.
Abbreviation rows := (rows s wend end_at).
Abbreviation node_bound := (node_bound P s wend end_at).
Abbreviation M := (stx (dfs_state O) stop).
Abbreviation set_at := (set_at pr t limit).
Abbreviation last_slot := (last_slot pr).

(** The ends a match may have. *)
Definition accepts (pos : nat) : bool :=
  match end_at with
  | Some e => (pos =? e)%nat
  | None => negb (no_empty && (pos =? s)%nat)
  end.

Abbreviation Srch := (Srch P set_at look_at wend limit last_slot accepts).
Abbreviation Inv := (Inv P set_at look_at wend limit last_slot accepts).
Abbreviation succs := (succs P set_at look_at wend limit).
Abbreviation leaf := (leaf P accepts).
Abbreviation upd := (upd P last_slot).

Lemma limit_wend : limit <= wend.
Proof. unfold Backtrack.limit. lia. Qed.

(** *** Reading *)

Lemma bt_reads_ok set pos (st : dfs_state O) :
  is_Some (sets pr !! N.to_nat set) ->
  reads pr t wend end_at set pos st = (Ok (set_at set pos), st).
Proof.
  intros [cs Hcs]. unfold reads, Machine.set_at. rewrite Hcs.
  destruct (pos <? limit)%nat eqn:E; [|done]. cleanb.
  assert (Hl := limit_wend).
  destruct (lookup_lt_is_Some_2 t pos) as [c Hc]; [lia|].
  unfold the_set, xsome, mbind, stx_bind. by rewrite Hcs, Hc.
Qed.

Lemma consume_ok set cs q k :
  sets pr !! N.to_nat set = Some cs -> q + k <= limit ->
  consume cs t q k = Some (q + run_len set_at set k q).
Proof.
  intros Hcs. revert q. induction k as [|k IH]; intros q Hq; cbn [consume run_len]; [by rewrite Nat.add_0_r|].
  assert (Hl := limit_wend).
  destruct (lookup_lt_is_Some_2 t q) as [c Hc]; [lia|].
  rewrite Hc. unfold Machine.set_at at 1. rewrite Hc, Hcs, (proj2 (Nat.ltb_lt q limit)) by lia. simpl.
  destruct (contains cs c); [|by rewrite Nat.add_0_r]. rewrite IH by lia. f_equal. lia.
Qed.

Lemma run_split_ok pc set exit :
  is_Some (inst_at P pc) ->
  exists b, run_split P pc set exit = Some b /\
    (b = true -> exists x next, inst_at P pc = Some (ISplit x exit) /\ inst_at P x = Some (IChar set next)).
Proof.
  intros [i Hi]. unfold run_split. rewrite Hi. destruct i; try (by exists false).
  destruct (y =? exit)%N eqn:E; [|by exists false]. cleanb. subst.
  assert (Hw := wf_inst pr P wf _ _ Hi). simpl in Hw. cleanb.
  destruct (wf_at P x) as [j Hj]; [apply Nat.ltb_lt; lia|]. rewrite Hj.
  destruct j; try (by exists false). eexists. split; [done|]. intros E. cleanb. subst. eauto.
Qed.

(** *** The walk's invariant *)

(** The positions a lazy run may end at. *)
Definition lazy_exits (set : N) (at_ last : nat) : list nat :=
  seq at_ (S (run_len set_at set (last - at_) at_)).

Definition exits (exit : N) (qs : list nat) : list item := List.map Todo (List.map (fun q => (exit, q)) qs).

(** What a frame stands for. *)
Definition flat (f : Frame) : list item :=
  match f with
  | FExplore pc pos => [Todo (pc, pos)]
  | FRestore slot old => [Undo slot old]
  | FExits e lo hi => exits e (reverse (seq lo (S (hi - lo))))
  | FLazy next set at_ last => exits next (lazy_exits set at_ last)
  end.

Definition flats (fs : list Frame) : list item := flat_map flat fs.

Definition frame_wf (f : Frame) : Prop :=
  match f with
  | FExits _ lo hi => lo <= hi
  | FRestore slot _ => N.to_nat slot < N.to_nat (nslots pr)
  | FLazy _ set _ _ => is_Some (sets pr !! N.to_nat set)
  | FExplore _ _ => True
  end.

(** The node the loops are at, and the exits a run has passed. *)
Definition here (c : ctl) : list item :=
  match c with
  | CPop => []
  | CAt pc pos => [Todo (pc, pos)]
  | CRun _ _ _ sp q => match inst_at P sp with Some (ISplit x _) => [Todo (x, q)] | _ => [] end
  end.

Definition passed (c : ctl) : list item :=
  match c with CRun _ y lo _ q => flat (FExits y lo q) | _ => [] end.

Definition ctl_wf (c : ctl) : Prop :=
  match c with
  | CRun set y lo sp q =>
      lo <= q /\ exists x next, inst_at P sp = Some (ISplit x y) /\ inst_at P x = Some (IChar set next)
  | _ => True
  end.

Definition in_range (v : node) : Prop := s <= snd v <= limit.

(** The table holds the nodes taken. *)
Record tables (b : Backtracker) (V : list node) : Prop := mk_tables {
  tb_ok : table_ok b;
  tb_marks : forall v, in_table P s v -> marked P s b v = bool_decide (v ∈ V);
  tb_nodup : NoDup V;
  tb_taken : Forall (fun v => N.to_nat (fst v) < n /\ in_range v) V;
}.

Record walk (b : Backtracker) (items : list item) (V : list node) (F : answer) : Prop := mk_walk {
  wk_tables : tables b V;
  wk_inv : Inv None (fun v => v ∈ V) items (bt_slots b) F;
  wk_range : Forall in_range (todos items);
  wk_slots : length (bt_slots b) = N.to_nat (nslots pr);
}.

Lemma tables_ext b b' V :
  visited b' = visited b -> used b' = used b -> tables b V -> tables b' V.
Proof.
  intros Hv Hu [[H1 H2] H3 H4 H5]. split; [|by unfold marked in *; rewrite Hv|done|done].
  unfold table_ok. by rewrite Hv, Hu.
Qed.

Lemma walk_ext b b' items V F :
  visited b' = visited b -> used b' = used b -> bt_slots b' = bt_slots b ->
  walk b items V F -> walk b' items V F.
Proof. intros Hv Hu Hs [H1 H2 H3 H4]. split; rewrite ?Hs; try done. by eapply tables_ext. Qed.

(** The nodes taken are nodes of the search. *)
Lemma taken_bound b V : tables b V -> length V <= node_bound.
Proof.
  intros [_ _ Hnd Hr].
  assert (Hincl : V ⊆ flat_map (fun pc => List.map (fun r => (N.of_nat pc, s + r)) (seq 0 rows)) (seq 0 n)).
  { intros [pc pos] Hin. rewrite Forall_forall in Hr. destruct (Hr _ Hin) as [Hp [H1 H2]]. simpl in *.
    apply list_elem_of_In, in_flat_map. exists (N.to_nat pc). split; [apply in_seq; lia|].
    apply in_map_iff. exists (pos - s). rewrite N2Nat.id. split; [f_equal; lia|].
    apply in_seq. unfold Backtrack.rows. lia. }
  unfold Backtrack.node_bound. etrans; [apply submseteq_length, (NoDup_submseteq _ _ Hnd Hincl)|].
  rewrite length_flat_map, (map_ext _ (fun _ => rows)) by (intros; by rewrite length_map, length_seq).
  generalize n rows 0. clear. intros k r. induction k as [|k IH]; intros a; simpl; [lia|].
  specialize (IH (S a)). lia.
Qed.

(** *** Steps of the walk *)

Lemma walk_valid b v items V F : walk b (Todo v :: items) V F -> is_Some (inst_at P (fst v)) /\ in_range v.
Proof.
  intros [_ Hi Hr _]. split; [by eapply inv_valid|]. by inversion Hr.
Qed.

Lemma walk_old b v items V F : v ∈ V -> walk b (Todo v :: items) V F -> walk b items V F.
Proof.
  intros Hv [H1 H2 H3 H4]. split; try done; [by eapply inv_old|]. by inversion H3.
Qed.

Lemma walk_undo b slot old items V F :
  walk b (Undo slot old :: items) V F ->
  walk (mk_bt (visited b) (used b) (stack b) (<[N.to_nat slot := old]> (bt_slots b))) items V F.
Proof.
  intros [H1 H2 H3 H4]. split; cbn [bt_slots]; try done; [by apply (tables_ext b)| |by rewrite length_insert].
  by apply inv_undo in H2.
Qed.

(** A node not taken yet, marked in [b']: its successors come next. *)
Lemma walk_new b b' v items V F ns us :
  walk b (Todo v :: items) V F -> tables b' (v :: V) -> v ∉ V ->
  succs v = ns -> leaf v (bt_slots b) = None -> undo_all us (upd v (bt_slots b)) = bt_slots b ->
  bt_slots b' = upd v (bt_slots b) ->
  walk b' (List.map Todo ns ++ undos us ++ items) (v :: V) F.
Proof.
  intros [H1 H2 H3 H4] Ht Hv <- Hl Hu Hs.
  assert (Hlen : length (upd v (bt_slots b)) = length (bt_slots b)).
  { unfold Search.upd. destruct (inst_at P (fst v)) as [[]|]; try done. apply length_save. }
  split; [done| | |by rewrite Hs, Hlen].
  - rewrite Hs. eapply inv_ext; [|by apply inv_new]. intros v' Hv'. by apply elem_of_cons in Hv'.
  - rewrite !omap_app, todos_Todo, todos_undos. simpl. inversion H3 as [|? ? Hr Hrs]; subst.
    apply Forall_app. split; [|done]. apply Forall_forall. intros v' Hv'.
    apply (succs_range _ _ _ _ _ (set_at_lim pr t limit)) in Hv'. unfold in_range in *. lia.
Qed.

(** *** The invariant of the loops *)

Variable spent0 : Z.

Definition width_C : Z := 2 * Z.of_nat rows + 4.
(** No search takes more steps. *)
Definition step_bound : Z := 1 + width_C * Z.of_nat node_bound.

Definition keeps (st : dfs_state O) : Prop :=
  table_ok (bt st) /\ oinv (oracle st) /\ spent st = (spent0 + steps st)%Z /\ (0 <= steps st <= step_bound)%Z.

(** Why a search stops early. *)
Definition stopped (e : stop) (st : dfs_state O) : Prop :=
  e = OutOfSteps /\ keeps st /\ ((budget < steps st)%Z \/ (max_rows P < Z.of_nat rows)%Z).

Record inv (c : ctl) (st : dfs_state O) (V : list node) (F : answer) : Prop := mk_inv {
  iv_walk : walk (bt st) (here c ++ passed c ++ flats (stack (bt st))) V F;
  iv_frames : Forall frame_wf (stack (bt st));
  iv_ctl : ctl_wf c;
  iv_keeps : keeps st;
  iv_budget : (steps st <= budget)%Z;
  iv_cost : (steps st + Z.of_nat (length (passed c ++ flats (stack (bt st)))) <= 1 + width_C * Z.of_nat (length V))%Z;
}.

Definition weight (c : ctl) : nat := match c with CPop => 1 | _ => 0 end.

Definition meas (c : ctl) (st : dfs_state O) (V : list node) : nat :=
  2 * length (here c ++ passed c ++ flats (stack (bt st))) + weight c + (2 * rows + 9) * (node_bound - length V).

Definition done_ok (F a : answer) (st : dfs_state O) : Prop :=
  a = F /\ keeps st /\ (steps st <= budget)%Z.

(** What a step leads to. *)
Definition next_ok (m : nat) (F : answer) (r : ctl + answer) (st : dfs_state O) : Prop :=
  match r with
  | inl c => exists V, inv c st V F /\ meas c st V < m
  | inr a => done_ok F a st
  end.

Lemma keeps_set_bt st b : table_ok b -> keeps st -> keeps (set_bt b st).
Proof. intros Hb (_ & H1). by split. Qed.

(** A charge that stays within the bound. *)
Lemma wp_charge {A} (k : unit -> M A) m st Q :
  (0 <= m)%Z -> keeps st -> (steps st + m <= step_bound)%Z ->
  ((steps st + m <= budget)%Z -> wp (k tt) (mk_dfs (bt st) (steps st + m) (spent st + m) (oracle st)) Q stopped) ->
  wp (charge budget m ≫= k) st Q stopped.
Proof.
  intros Hm (H1 & H2 & H3 & H4) Hb Hk. apply wp_bind. unfold wp at 1, charge. cbn [steps].
  destruct (Z.ltb_spec budget (steps st + m)).
  - split; [done|]. split; [|by left]. split; [done|]. split; [done|]. cbn [spent steps]. lia.
  - apply Hk. lia.
Qed.

(** A visit: of a node taken before, or of a new one, which is marked. *)
Lemma wp_visit {A} (k : bool -> M A) st v items V F Q :
  keeps st -> walk (bt st) (Todo v :: items) V F ->
  (steps st <= 1 + width_C * Z.of_nat (length V))%Z ->
  (forall b', v ∈ V -> walk b' items V F -> stack b' = stack (bt st) -> keeps (set_bt b' st) ->
     wp (k false) (set_bt b' st) Q stopped) ->
  (forall b', v ∉ V -> tables b' (v :: V) -> walk (bt st) (Todo v :: items) V F ->
     stack b' = stack (bt st) -> bt_slots b' = bt_slots (bt st) ->
     length V < node_bound -> (steps st + 1 <= budget)%Z ->
     wp (k true) (mk_dfs b' (steps st + 1) (spent st + 1) (oracle st)) Q stopped) ->
  wp (visit P s budget (fst v) (snd v) ≫= k) st Q stopped.
Proof.
  intros Hk Hw Hc Hold Hnew.
  destruct (walk_valid _ _ _ _ _ Hw) as [Hv [Hr1 Hr2]].
  assert (Hvt : in_table P s v) by (split; [by apply lookup_lt_is_Some_1|done]).
  apply wp_bind. unfold wp at 1, visit.
  destruct (Z.leb_spec (max_rows P) (Z.of_nat (snd v - s))).
  { split; [done|]. split; [done|]. right. unfold Backtrack.rows. lia. }
  destruct Hw as [[Ht Hm Hnd Htk] Hi Hrg Hsl].
  destruct (use_row_spec P (snd v - s) (bt st) Ht) as (Ht' & Hu & Hd & Hst & Hbs).
  set (b := use_row P (snd v - s) (bt st)) in *.
  assert (Htb : tables b V).
  { split; try done. intros v' Hv'. unfold marked. rewrite Hd. by apply Hm. }
  assert (Hwd : word_of P s v < length (visited b)).
  { destruct Ht' as [Hl _]. unfold word_of. assert (Hp := row_bound P _ (proj1 Hvt)). nia. }
  change ((snd v - s) * row P + N.to_nat (fst v / 64)) with (word_of P s v).
  change (Z.of_N (fst v mod 64)) with (bit_of v). cbn [bt set_bt].
  destruct (lookup_lt_is_Some_2 _ _ Hwd) as [word Hword]. rewrite Hword, bit_test.
  assert (Hmk : Z.testbit word (bit_of v) = bool_decide (v ∈ V)).
  { rewrite <- (tb_marks _ _ Htb v Hvt). unfold marked. by rewrite Hword. }
  rewrite Hmk. destruct (decide (v ∈ V)) as [Hin|Hnin].
  - rewrite bool_decide_eq_true_2 by done. apply (Hold b); [done| |done|by apply keeps_set_bt].
    eapply walk_old; [exact Hin|]. split; [done|by rewrite Hbs|done|by rewrite Hbs].
  - rewrite bool_decide_eq_false_2 by done.
    set (b' := mk_bt (<[word_of P s v := Z.lor word (Z.shiftl 1 (bit_of v))]> (visited b)) (used b) (stack b) (bt_slots b)).
    assert (Htb' : tables b' (v :: V)).
    { split.
      - destruct Ht' as [Hl Hz]. split; cbn [used visited b'].
        + unfold b'. cbn [visited used]. by rewrite length_insert.
        + intros i Hi'. unfold b'. cbn [visited used] in *. rewrite list_lookup_insert_ne; [by apply Hz|].
          unfold word_of. assert (Hp := row_bound P _ (proj1 Hvt)). nia.
      - intros v' Hv'. unfold b'. rewrite (marked_mark P s b v v' word Hvt Hv' Hword).
        rewrite (tb_marks _ _ Htb v' Hv'). apply eq_true_iff_eq.
        rewrite orb_true_iff, !bool_decide_eq_true. by rewrite elem_of_cons.
      - by constructor.
      - constructor; [split; [apply Hvt|done]|done]. }
    assert (Hlen := taken_bound _ _ Htb'). simpl in Hlen.
    assert (Hlt : (steps st + 1 <= step_bound)%Z) by (unfold step_bound, width_C in *; nia).
    unfold charge, mbind, stx_bind, mret, stx_ret. cbn [steps spent bt oracle set_bt].
    destruct (Z.ltb_spec budget (steps st + 1)).
    + split; [done|]. split; [|by left]. destruct Hk as (_ & Ho & Hs & Hb).
      split; [by apply Htb'|]. split; [done|]. cbn [spent steps]. lia.
    + apply (Hnew b'); try done.
Qed.

(** *** Popping a frame *)

Lemma exits_pop e lo hi :
  lo < hi -> flat (FExits e lo hi) = Todo (e, hi) :: flat (FExits e lo (hi - 1)).
Proof.
  intros Hlt. cbn [flat]. replace (hi - lo) with (S (hi - 1 - lo)) by lia.
  rewrite (seq_S (S (hi - 1 - lo))), reverse_app. unfold exits. cbn [reverse List.map app].
  simpl. f_equal. f_equal. f_equal. lia.
Qed.

Lemma exits_one e lo : flat (FExits e lo lo) = [Todo (e, lo)].
Proof. cbn [flat]. by rewrite Nat.sub_diag. Qed.

Lemma lazy_pop next set at_ last :
  flat (FLazy next set at_ last) =
  Todo (next, at_) :: if (at_ <? last)%nat && set_at set at_ then flat (FLazy next set (at_ + 1) last) else [].
Proof.
  cbn [flat]. unfold lazy_exits, exits. cbn [List.map]. f_equal.
  destruct (Nat.ltb_spec at_ last) as [Hl|Hl].
  - replace (last - at_) with (S (last - (at_ + 1))) by lia. cbn [run_len]. rewrite Nat.add_1_r.
    destruct (set_at set at_); done.
  - by replace (last - at_) with 0 by lia.
Qed.

Lemma length_exits e qs : length (exits e qs) = length qs.
Proof. unfold exits. by rewrite !length_map. Qed.

(** Back to the outer loop, or on to a node, with what is on the stack. *)
Lemma next_intro m F c st V :
  walk (bt st) (here c ++ passed c ++ flats (stack (bt st))) V F ->
  Forall frame_wf (stack (bt st)) -> ctl_wf c -> keeps st -> (steps st <= budget)%Z ->
  (steps st + Z.of_nat (length (passed c ++ flats (stack (bt st)))) <= 1 + width_C * Z.of_nat (length V))%Z ->
  meas c st V < m -> next_ok m F (inl c) st.
Proof. intros. exists V. split; [|done]. by split. Qed.

Lemma cost_step (st : dfs_state O) V m :
  tables (bt st) V -> (steps st + m <= 1 + width_C * Z.of_nat (length V))%Z -> (steps st + m <= step_bound)%Z.
Proof. intros Ht Hc. assert (Hl := taken_bound _ _ Ht). unfold step_bound, width_C in *. nia. Qed.

Definition popped (st : dfs_state O) (fs : list Frame) : dfs_state O :=
  set_bt (mk_bt (visited (bt st)) (used (bt st)) fs (bt_slots (bt st))) st.

#[local] Arguments flat : simpl never.

Lemma walk_popped st fs items V F : walk (bt st) items V F -> walk (bt (popped st fs)) items V F.
Proof. by apply walk_ext. Qed.

Lemma pop_step_ok st V F :
  inv CPop st V F -> wp (pop_step pr t wend end_at budget) st (next_ok (meas CPop st V) F) stopped.
Proof.
  intros [Hw Hf _ Hk Hb Hc]. cbn [here passed app] in *. unfold pop_step.
  eapply wp_step; [reflexivity|]. destruct (stack (bt st)) as [|f rest] eqn:Hst.
  { apply wp_ret. split; [|done]. symmetry. by destruct Hw as [_ Hw _ _]; apply inv_done in Hw. }
  eapply wp_step; [reflexivity|]. change (flats (f :: rest)) with (flat f ++ flats rest) in *.
  inversion Hf as [|? ? Hf1 Hf2]; subst. fold (popped st rest).
  assert (Hk1 : forall fs, keeps (popped st fs)) by (intros fs; by apply keeps_set_bt; [destruct Hk as [? _]|]).
  assert (Hm : meas CPop st V = 2 * length (flat f ++ flats rest) + 1 + (2 * rows + 9) * (node_bound - length V))
    by (unfold meas; cbn [here passed app weight]; by rewrite Hst).
  rewrite length_app in Hc.
  destruct f as [pc pos|slot old|e lo hi|next set at_ last].
  - apply wp_ret. apply (next_intro _ _ _ _ V); try exact (Hk1 _); try exact (walk_popped _ _ _ _ _ Hw); cbn [popped set_bt bt stack steps here passed app] in *;
      try done; [cbn [length app] in Hc; lia|]. rewrite Hm. unfold meas. cbn [here passed app weight bt stack set_bt popped]. simpl. lia.
  - cbn [frame_wf] in Hf1. eapply wp_step.
    { unfold set_slot. cbn [bt popped set_bt bt_slots]. rewrite (wk_slots _ _ _ _ Hw), (proj2 (Nat.ltb_lt _ _)) by done. done. }
    apply wp_ret. apply (next_intro _ _ _ _ V); try exact (Hk1 _); try exact (walk_popped _ _ _ _ _ Hw); cbn [popped set_bt bt stack steps here passed app] in *; try done.
    + exact (walk_undo _ _ _ _ _ _ (walk_popped _ rest _ _ _ Hw)).
    + cbn [length app] in Hc. lia.
    + rewrite Hm. unfold meas. cbn [here passed app weight bt stack set_bt popped]. simpl. lia.
  - cbn [frame_wf] in Hf1. destruct (Nat.ltb_spec lo hi) as [Hlt|Hge].
    + eapply wp_step; [reflexivity|]. apply wp_ret. rewrite exits_pop in Hw, Hc, Hm by done.
      apply (next_intro _ _ _ _ V); try exact (Hk1 _); try exact (walk_popped _ _ _ _ _ Hw); cbn [popped set_bt bt stack steps here passed app] in *; try done.
      * constructor; [simpl; lia|done].
      * change (flats (?f :: rest)) with (flat f ++ flats rest). rewrite length_app. cbn [length app] in Hc. lia.
      * rewrite Hm. unfold meas. cbn [here passed app weight bt stack set_bt popped].
        change (flats (?f :: rest)) with (flat f ++ flats rest). cbn [length app]. lia.
    + assert (hi = lo) by lia. subst hi. eapply wp_step; [reflexivity|]. apply wp_ret. rewrite exits_one in Hw, Hc, Hm.
      apply (next_intro _ _ _ _ V); try exact (Hk1 _); try exact (walk_popped _ _ _ _ _ Hw); cbn [popped set_bt bt stack steps here passed app] in *; try done.
      * cbn [length app] in Hc. lia.
      * rewrite Hm. unfold meas. cbn [here passed app weight bt stack set_bt popped]. simpl. lia.
  - cbn [frame_wf] in Hf1. rewrite lazy_pop in Hw, Hc, Hm.
    apply wp_charge; [lia|done|..].
    { change (steps (popped st rest)) with (steps st). apply (cost_step _ V); [apply Hw|]. cbn [length app] in Hc. lia. }
    change (steps (popped st rest)) with (steps st). intros Hb'.
    assert (Hk2 : forall fs, keeps (mk_dfs (bt (popped st fs)) (steps st + 1) (spent st + 1) (oracle st))).
    { intros fs. destruct Hk as (H1 & H2 & H3 & H4). split; [done|]. split; [done|]. cbn [spent steps].
      assert (Hc' := cost_step st V 1 (wk_tables _ _ _ _ Hw) ltac:(cbn [length app] in Hc; lia)). lia. }
    eapply (wp_step _ _ _ ((at_ <? last)%nat && set_at set at_)).
    { destruct (at_ <? last)%nat; [by apply bt_reads_ok|done]. }
    destruct ((at_ <? last)%nat && set_at set at_).
    + eapply wp_step; [reflexivity|]. apply wp_ret.
      apply (next_intro _ _ _ _ V); try exact (Hk1 _); try exact (walk_popped _ _ _ _ _ Hw); cbn [popped set_bt bt stack steps here passed app] in *; try done.
      * by constructor.
      * exact (Hk2 (FLazy next set (at_ + 1) last :: rest)).
      * change (flats (?f :: rest)) with (flat f ++ flats rest). rewrite length_app. cbn [length app] in Hc. lia.
      * rewrite Hm. unfold meas. cbn [here passed app weight bt stack set_bt popped].
        change (flats (?f :: rest)) with (flat f ++ flats rest). cbn [length app]. lia.
    + eapply wp_step; [reflexivity|]. apply wp_ret.
      apply (next_intro _ _ _ _ V); try exact (Hk1 _); try exact (walk_popped _ _ _ _ _ Hw); cbn [popped set_bt bt stack steps here passed app] in *; try done.
      * cbn [length app] in Hc. lia.
      * rewrite Hm. unfold meas. cbn [here passed app weight bt stack set_bt popped]. simpl. lia.
Qed.

(** *** Following a path *)

(** A node taken, and on to its successors: the arithmetic of it. *)
Lemma next_new F c c' st st' v V :
  inv c st V F -> length V < node_bound ->
  walk (bt st') (here c' ++ passed c' ++ flats (stack (bt st'))) (v :: V) F ->
  Forall frame_wf (stack (bt st')) -> ctl_wf c' -> keeps st' ->
  (steps st' <= budget)%Z -> (steps st' <= steps st + 1 + Z.of_nat rows)%Z ->
  length (passed c' ++ flats (stack (bt st'))) <= length (passed c ++ flats (stack (bt st))) + rows + 1 ->
  length (here c') <= length (here c) + 1 ->
  next_ok (meas c st V) F (inl c') st'.
Proof.
  intros [_ _ _ _ _ Hc] Hlt Hw Hf Hcw Hk Hb Hs Hl Hh. apply (next_intro _ _ _ _ (v :: V)); try done.
  - cbn [length]. unfold width_C in *. lia.
  - unfold meas. rewrite !(length_app (here _)). cbn [length].
    assert (weight c' <= 1) by (destruct c'; simpl; lia). nia.
Qed.

(** A node taken before: back to the loop that has the rest. *)
Lemma next_old F c c' st st' V :
  inv c st V F ->
  walk (bt st') (here c' ++ passed c' ++ flats (stack (bt st'))) V F ->
  Forall frame_wf (stack (bt st')) -> ctl_wf c' -> keeps st' -> steps st' = steps st ->
  length (passed c' ++ flats (stack (bt st'))) = length (passed c ++ flats (stack (bt st))) ->
  2 * length (here c') + weight c' < 2 * length (here c) + weight c ->
  next_ok (meas c st V) F (inl c') st'.
Proof.
  intros [_ _ _ _ Hb Hc] Hw Hf Hcw Hk Hs Hl Hh. apply (next_intro _ _ _ _ V); try done; [lia|lia|].
  unfold meas. rewrite !(length_app (here _)). lia.
Qed.

Lemma keeps_new st b' v V m :
  keeps st -> tables b' (v :: V) -> (0 <= m <= Z.of_nat rows)%Z ->
  (steps st <= 1 + width_C * Z.of_nat (length V))%Z ->
  keeps (mk_dfs b' (steps st + 1 + m) (spent st + 1 + m) (oracle st)).
Proof.
  intros (_ & H2 & H3 & H4) Ht Hm Hc. split; [apply Ht|]. split; [done|].
  assert (Hl := taken_bound _ _ Ht). cbn [length] in Hl. cbn [spent steps].
  unfold step_bound, width_C in *. nia.
Qed.

Lemma keeps_new0 st b' v V :
  keeps st -> tables b' (v :: V) -> (steps st <= 1 + width_C * Z.of_nat (length V))%Z ->
  keeps (mk_dfs b' (steps st + 1) (spent st + 1) (oracle st)).
Proof.
  intros Hk Ht Hc. assert (H1 := keeps_new st b' v V 0 Hk Ht ltac:(lia) Hc). by rewrite !Z.add_0_r in H1.
Qed.

Lemma inv_steps c st V F : inv c st V F -> (steps st <= 1 + width_C * Z.of_nat (length V))%Z.
Proof. intros [_ _ _ _ _ Hc]. lia. Qed.

Lemma inst_taken pc i (st : dfs_state O) : inst_at P pc = Some i -> inst P pc st = (Ok i, st).
Proof. intros Hi. unfold inst, xsome. by rewrite Hi. Qed.

(** A successor that is a target of an instruction is there. *)
Lemma target_ok x : (N.to_nat x <? n)%nat = true -> is_Some (inst_at P x).
Proof. apply wf_at. Qed.

Lemma greedy_run_ok pc x y (st : dfs_state O) :
  is_Some (inst_at P x) ->
  exists r, greedy_run P pc x y st = (Ok r, st) /\
    forall set, r = Some set -> exists next, inst_at P x = Some (IChar set next).
Proof.
  intros [i Hi]. unfold greedy_run, mbind, stx_bind. rewrite (inst_taken _ _ _ Hi).
  destruct i; try (by exists None).
  destruct (next =? pc)%N; [exists (Some set); split; [done|]; intros ? [= ->]; by eexists|].
  assert (Hw := wf_inst pr P wf _ _ Hi). simpl in Hw. apply andb_true_iff in Hw as [_ Hn].
  destruct (run_split_ok next set y (target_ok _ Hn)) as (b & Hb & _).
  unfold xsome. rewrite Hb. exists (if b then Some set else None). split; [done|].
  destruct b; [|done]. intros ? [= ->]. by eexists.
Qed.

(** *** A repeat of one set *)

(** The bound of a run, and the exits its frame stands for. *)
Definition cap_of (mx : N) (pos : nat) : nat :=
  if (mx =? HOLE)%N then limit else N.to_nat (N.min (N.of_nat limit) (N.of_nat pos + mx)).

Lemma cap_run_cap mx pos : pos <= limit -> cap_of mx pos - pos = run_cap limit mx pos /\ pos <= cap_of mx pos <= limit.
Proof. intros Hp. unfold cap_of, run_cap. destruct (mx =? HOLE)%N; lia. Qed.

Lemma run_exits_none set mn mx greedy pos :
  pos <= limit -> run_len set_at set (cap_of mx pos - pos) pos < N.to_nat mn ->
  run_exits set_at limit set mn mx greedy pos = [].
Proof.
  intros Hp Hl. unfold run_exits. rewrite <- (proj1 (cap_run_cap mx pos Hp)).
  by rewrite (proj2 (N.ltb_lt _ _)) by lia.
Qed.

Lemma run_exits_some set mn mx greedy pos :
  pos <= limit -> N.to_nat mn <= run_len set_at set (cap_of mx pos - pos) pos ->
  let need := pos + N.to_nat mn in
  run_exits set_at limit set mn mx greedy pos =
  if greedy then reverse (seq need (S (pos + run_len set_at set (cap_of mx pos - pos) pos - need)))
  else lazy_exits set need (cap_of mx pos).
Proof.
  intros Hp Hl need. unfold run_exits. rewrite <- (proj1 (cap_run_cap mx pos Hp)).
  rewrite (proj2 (N.ltb_ge _ _)) by lia.
  assert (Hle := run_len_le set_at set (cap_of mx pos - pos) pos).
  set (r := run_len set_at set (cap_of mx pos - pos) pos) in *.
  destruct greedy; [by replace (pos + r - need) with (r - N.to_nat mn) by lia|].
  unfold lazy_exits. f_equal. f_equal.
  assert (Hs := run_len_split set_at set (N.to_nat mn) (cap_of mx pos - need) pos).
  replace (N.to_nat mn + (cap_of mx pos - need)) with (cap_of mx pos - pos) in Hs by lia.
  specialize (Hs Hl). fold r in Hs. fold need in Hs. lia.
Qed.

(** The frame that a repeat of one set pushes, if any. *)
Definition run_frame (set mn mx : N) (greedy : bool) (next : N) (pos : nat) : option Frame :=
  let need := pos + N.to_nat mn in
  let r := run_len set_at set (cap_of mx pos - pos) pos in
  if (r <? N.to_nat mn)%nat then None
  else Some (if greedy then FExits next need (pos + r) else FLazy next set need (cap_of mx pos)).

Lemma run_frame_flat set mn mx greedy next pos :
  pos <= limit ->
  exits next (run_exits set_at limit set mn mx greedy pos) =
  match run_frame set mn mx greedy next pos with Some f => flat f | None => [] end.
Proof.
  intros Hp. unfold run_frame.
  destruct (Nat.ltb_spec (run_len set_at set (cap_of mx pos - pos) pos) (N.to_nat mn)) as [Hl|Hl].
  - by rewrite run_exits_none.
  - rewrite run_exits_some by done. by destruct greedy.
Qed.

Lemma length_run_exits set mn mx greedy pos :
  in_range (0%N, pos) -> length (run_exits set_at limit set mn mx greedy pos) <= rows.
Proof.
  intros [Hr1 Hr2]. simpl in *. unfold run_exits. case_match; [simpl; lia|].
  assert (Hl := run_len_lim set_at limit (set_at_lim pr t limit) set (run_cap limit mx pos) pos).
  unfold Backtrack.rows. destruct greedy; rewrite ?length_reverse, length_seq; lia.
Qed.

Definition with_frame (f : option Frame) (st : dfs_state O) : dfs_state O :=
  match f with
  | Some f => let b := bt st in set_bt (mk_bt (visited b) (used b) (f :: stack b) (bt_slots b)) st
  | None => st
  end.

Lemma run_inst_ok set mn mx greedy next pos (st : dfs_state O) Q :
  is_Some (sets pr !! N.to_nat set) -> in_range (0%N, pos) ->
  (forall m, (0 <= m <= Z.of_nat rows)%Z ->
     keeps (mk_dfs (bt st) (steps st + m) (spent st + m) (oracle st))) ->
  (steps st <= budget)%Z ->
  (forall m, (0 <= m <= Z.of_nat rows)%Z -> (steps st + m <= budget)%Z ->
     Q (inl CPop) (with_frame (run_frame set mn mx greedy next pos)
                     (mk_dfs (bt st) (steps st + m) (spent st + m) (oracle st)))) ->
  wp (run_inst pr t wend end_at budget set mn mx greedy next pos) st Q stopped.
Proof.
  intros [cs Hcs] [Hr1 Hr2] Hk Hb HQ. simpl in Hr1, Hr2. unfold run_inst.
  eapply wp_step; [unfold the_set, xsome; by rewrite Hcs|]. cbn beta zeta. fold (cap_of mx pos).
  destruct (cap_run_cap mx pos Hr2) as [_ [Hc1 Hc2]].
  set (cap := cap_of mx pos) in *. set (need := pos + N.to_nat mn) in *.
  set (r := run_len set_at set (cap - pos) pos).
  assert (Hr : r <= cap - pos) by apply run_len_le.
  assert (Hf : run_frame set mn mx greedy next pos =
    if (r <? N.to_nat mn)%nat then None
    else Some (if greedy then FExits next need (pos + r) else FLazy next set need cap)) by done.
  assert (H0 : mk_dfs (bt st) (steps st + 0) (spent st + 0) (oracle st) = st)
    by (destruct st; cbn; by rewrite !Z.add_0_r).
  assert (Hq : forall k, k <= cap - pos -> (0 <= Z.of_nat k / 4 <= Z.of_nat rows)%Z).
  { intros k Hk'. split; [apply Z.div_pos; lia|].
    apply Z.div_le_upper_bound; [lia|]. unfold Backtrack.rows. lia. }
  destruct (Nat.ltb_spec cap need) as [Hlt|Hge].
  { specialize (HQ 0%Z ltac:(lia) ltac:(lia)). rewrite Hf, H0 in HQ.
    by rewrite (proj2 (Nat.ltb_lt r (N.to_nat mn))) in HQ by lia. }
  assert (Hk0 : keeps st) by (rewrite <- H0; apply Hk; lia).
  assert (Hcg : forall m, (0 <= m <= Z.of_nat rows)%Z -> (steps st + m <= step_bound)%Z)
    by (intros m Hm; destruct (Hk m Hm) as (_ & _ & _ & Hs); cbn [steps] in Hs; lia).
  destruct greedy.
  - eapply wp_step; [unfold xsome; by rewrite (consume_ok set cs) by (done || lia)|].
    fold r. replace (pos + r - pos) with r by lia. specialize (Hq r Hr).
    apply wp_charge; [lia|done|auto|]. intros Hb'. specialize (HQ _ Hq Hb'). rewrite Hf in HQ.
    destruct (Nat.ltb_spec (pos + r) need), (Nat.ltb_spec r (N.to_nat mn)); try lia; done.
  - eapply wp_step; [unfold xsome; by rewrite (consume_ok set cs) by (done || lia)|].
    rewrite (run_len_min set_at set (need - pos) (cap - pos) pos) by lia. fold r.
    replace (pos + Nat.min (need - pos) r - pos) with (Nat.min (need - pos) r) by lia.
    specialize (Hq (Nat.min (need - pos) r) ltac:(lia)).
    apply wp_charge; [lia|done|auto|]. intros Hb'. specialize (HQ _ Hq Hb'). rewrite Hf in HQ.
    destruct (Nat.ltb_spec (pos + Nat.min (need - pos) r) need), (Nat.ltb_spec r (N.to_nat mn)); try lia; done.
Qed.

(** *** One node *)

(** A node just taken: what its case is given. *)
Record taken (pc : N) (pos : nat) (st : dfs_state O) (b' : Backtracker) (V : list node) (F : answer) : Prop := mk_taken {
  tk_inv : inv (CAt pc pos) st V F;
  tk_new : (pc, pos) ∉ V;
  tk_tables : tables b' ((pc, pos) :: V);
  tk_stack : stack b' = stack (bt st);
  tk_slots : bt_slots b' = bt_slots (bt st);
  tk_bound : length V < node_bound;
  tk_budget : (steps st + 1 <= budget)%Z;
}.

Definition fresh (st : dfs_state O) (b' : Backtracker) : dfs_state O :=
  mk_dfs b' (steps st + 1) (spent st + 1) (oracle st).

(** Its successors come next, for an instruction that neither saves nor
    matches; then the frames [fs] and the path [c] stand for them. *)
Lemma taken_next pc pos st b' V F c fs o m :
  taken pc pos st b' V F ->
  is_match P pc = false -> (forall sl, upd (pc, pos) sl = sl) ->
  (here c ++ passed c ++ flats fs) = List.map Todo (succs (pc, pos)) ++ flats (stack (bt st)) ->
  length (passed c ++ flats fs) <= length (flats (stack (bt st))) + rows + 1 -> length (here c) <= 2 ->
  Forall frame_wf fs -> ctl_wf c -> oinv o -> (0 <= m <= Z.of_nat rows)%Z -> (steps st + 1 + m <= budget)%Z ->
  next_ok (meas (CAt pc pos) st V) F (inl c)
    (mk_dfs (mk_bt (visited b') (used b') fs (bt_slots b')) (steps st + 1 + m) (spent st + 1 + m) o).
Proof.
  intros [Hi Hn Ht Hs Hsl Hb _] Hm Hu Hit Hl Hh Hf Hc Ho Hm' Hbu.
  eapply (next_new _ _ _ _ _ (pc, pos)); cbn [bt stack steps]; try done; [| |lia].
  - rewrite Hit. rewrite <- (app_nil_l (flats (stack (bt st)))). change [] with (undos []) at 1.
    eapply (walk_ext b'); [done..|]. eapply walk_new; [|exact Ht|exact Hn|done| | |].
    + destruct Hi as [Hw _ _ _ _ _]. exact Hw.
    + unfold Search.leaf. simpl. by rewrite Hm.
    + apply Hu.
    + by rewrite Hu.
  - destruct (keeps_new st b' (pc, pos) V m (iv_keeps _ _ _ _ Hi) Ht Hm' (inv_steps _ _ _ _ Hi)) as (H1 & _ & H3 & H4).
    split; [done|]. split; [done|]. done.
Qed.

Lemma taken_push pc pos st b' V F c fs o :
  taken pc pos st b' V F ->
  is_match P pc = false -> (forall sl, upd (pc, pos) sl = sl) ->
  (here c ++ passed c ++ flats fs) = List.map Todo (succs (pc, pos)) ++ flats (stack (bt st)) ->
  length (passed c ++ flats fs) <= length (flats (stack (bt st))) + rows + 1 -> length (here c) <= 2 ->
  Forall frame_wf fs -> ctl_wf c -> oinv o ->
  next_ok (meas (CAt pc pos) st V) F (inl c)
    (mk_dfs (mk_bt (visited b') (used b') fs (bt_slots b')) (steps st + 1) (spent st + 1) o).
Proof.
  intros Ht ????????. assert (Hb := tk_budget _ _ _ _ _ _ Ht).
  pose proof (taken_next pc pos st b' V F c fs o 0 Ht) as Hn. rewrite !Z.add_0_r in Hn. apply Hn; done || lia.
Qed.

(** The same, the stack left as it is. *)
Lemma taken_stay pc pos st b' V F c o :
  taken pc pos st b' V F ->
  is_match P pc = false -> (forall sl, upd (pc, pos) sl = sl) ->
  here c ++ passed c = List.map Todo (succs (pc, pos)) ->
  length (passed c) <= rows + 1 -> length (here c) <= 2 -> ctl_wf c -> oinv o ->
  next_ok (meas (CAt pc pos) st V) F (inl c) (mk_dfs b' (steps st + 1) (spent st + 1) o).
Proof.
  intros Ht Hm Hu Hh Hl Hl' Hc Ho.
  assert (Hf := iv_frames _ _ _ _ (tk_inv _ _ _ _ _ _ Ht)).
  assert (Hs := tk_stack _ _ _ _ _ _ Ht). rewrite <- Hs in Hf.
  pose proof (taken_push pc pos st b' V F c (stack b') o Ht Hm Hu) as H1.
  replace (mk_bt _ _ _ _) with b' in H1 by (by destruct b').
  apply H1; try done; rewrite Hs; [by rewrite app_assoc, Hh|rewrite length_app; lia].
Qed.

Section at_node.
Variables (pc : N) (pos : nat) (st : dfs_state O) (b' : Backtracker) (V : list node) (F : answer) (i : Inst).
Hypothesis Ht : taken pc pos st b' V F.
Hypothesis Hi : inst_at P pc = Some i.

Abbreviation ok c st' := (next_ok (meas (CAt pc pos) st V) F (inl c) st').

Lemma at_wf : inst_wf (length (sets pr)) (length (looks pr)) (N.to_nat (nslots pr)) n i = true.
Proof. by eapply wf_inst. Qed.

Lemma at_oinv : oinv (oracle st).
Proof. by destruct (iv_keeps _ _ _ _ (tk_inv _ _ _ _ _ _ Ht)) as (_ & Ho & _). Qed.

Lemma at_range : in_range (pc, pos).
Proof. apply (walk_valid _ _ _ _ _ (iv_walk _ _ _ _ (tk_inv _ _ _ _ _ _ Ht))). Qed.

Lemma at_not_match : i <> IMatch -> is_match P pc = false.
Proof. intros Hm. unfold is_match. rewrite Hi. by destruct i. Qed.

Lemma at_upd : (forall s x, i <> ISave s x) -> forall sl, upd (pc, pos) sl = sl.
Proof. intros Hs sl. unfold Search.upd. simpl. rewrite Hi. destruct i; try done. by destruct (Hs slot next). Qed.

(** One successor at most, followed at once. *)
Lemma at_one (b : bool) x o pos' :
  i <> IMatch -> (forall s x, i <> ISave s x) -> oinv o ->
  succs (pc, pos) = (if b then [(x, pos')] else []) ->
  ok (if b then CAt x pos' else CPop) (mk_dfs b' (steps st + 1) (spent st + 1) o).
Proof.
  intros Hm Hs Ho Hsu.
  eapply taken_stay; [done|by apply at_not_match|by apply at_upd|rewrite Hsu; by destruct b
    |by destruct b; simpl; lia|by destruct b; simpl; lia|by destruct b|done].
Qed.

(** Two, the second left on the stack. *)
Lemma at_two x y :
  i = ISplit x y ->
  ok (CAt x pos) (mk_dfs (mk_bt (visited b') (used b') (FExplore y pos :: stack b') (bt_slots b'))
                    (steps st + 1) (spent st + 1) (oracle st)).
Proof.
  intros Hir. assert (Hi' := Hi). rewrite Hir in Hi'.
  eapply taken_push; [done|apply at_not_match; by rewrite Hir|apply at_upd; intros; by rewrite Hir|..].
  - unfold Search.succs. rewrite Hi'. by rewrite (tk_stack _ _ _ _ _ _ Ht).
  - rewrite (tk_stack _ _ _ _ _ _ Ht). simpl. lia.
  - simpl. lia.
  - constructor; [done|]. rewrite (tk_stack _ _ _ _ _ _ Ht). apply (tk_inv _ _ _ _ _ _ Ht).
  - done.
  - apply at_oinv.
Qed.

(** A greedy run begins. *)
Lemma at_run x y set next :
  i = ISplit x y -> inst_at P x = Some (IChar set next) ->
  ok (CRun set y pos pc pos) (mk_dfs b' (steps st + 1) (spent st + 1) (oracle st)).
Proof.
  intros Hir Hx. assert (Hi' := Hi). rewrite Hir in Hi'.
  eapply taken_stay; [done|apply at_not_match; by rewrite Hir|apply at_upd; intros; by rewrite Hir|..].
  - unfold Search.succs. cbn [here passed]. by rewrite Hi', exits_one.
  - cbn [passed]. rewrite exits_one. simpl. lia.
  - cbn [here]. rewrite Hi'. simpl. lia.
  - split; [done|]. eauto.
  - apply at_oinv.
Qed.

(** A repeat of one set. *)
Lemma at_repeat set mn mx greedy next :
  i = IRun set mn mx greedy next ->
  wp (run_inst pr t wend end_at budget set mn mx greedy next pos) (fresh st b')
    (next_ok (meas (CAt pc pos) st V) F) stopped.
Proof.
  intros Hir. destruct at_range as [Hr1 Hr2]. simpl in Hr1, Hr2.
  assert (Hw := at_wf). rewrite Hir in Hw. simpl in Hw. apply andb_true_iff in Hw as [Hset _].
  assert (Hcs : is_Some (sets pr !! N.to_nat set)) by (by apply wf_set).
  assert (Hsu : succs (pc, pos) = List.map (fun q => (next, q)) (run_exits set_at limit set mn mx greedy pos))
    by (unfold Search.succs; by rewrite Hi, Hir).
  apply run_inst_ok; [done|done| |exact (tk_budget _ _ _ _ _ _ Ht)|].
  - intros m Hm. apply (keeps_new st b' (pc, pos) V m); [apply (tk_inv _ _ _ _ _ _ Ht)|apply Ht|done|].
    exact (inv_steps _ _ _ _ (tk_inv _ _ _ _ _ _ Ht)).
  - intros m Hm Hb. cbn [steps fresh spent bt oracle] in *.
    assert (Hfl := run_frame_flat set mn mx greedy next pos Hr2).
    assert (Hlen := length_run_exits set mn mx greedy pos (conj Hr1 Hr2)).
    rewrite <- (length_exits next), Hfl in Hlen. unfold exits in Hfl.
    pose proof (taken_next pc pos st b' V F CPop
      match run_frame set mn mx greedy next pos with Some f => f :: stack b' | None => stack b' end
      (oracle st) m Ht) as H1.
    replace (with_frame _ _) with (mk_dfs
      (mk_bt (visited b') (used b') match run_frame set mn mx greedy next pos with Some f => f :: stack b' | None => stack b' end
        (bt_slots b')) (steps st + 1 + m) (spent st + 1 + m) (oracle st))
      by (destruct (run_frame _ _ _ _ _ _); [done|by destruct b']).
    assert (Hs := tk_stack _ _ _ _ _ _ Ht).
    apply H1; try done; rewrite ?Hs.
    + apply at_not_match. by rewrite Hir.
    + apply at_upd. intros. by rewrite Hir.
    + rewrite Hsu, Hfl. cbn [here passed app]. destruct (run_frame _ _ _ _ _ _); done.
    + cbn [passed app]. destruct (run_frame _ _ _ _ _ _); [|lia].
      change (flats (f :: ?r)) with (flat f ++ flats r). rewrite length_app. lia.
    + simpl. lia.
    + assert (Hf := iv_frames _ _ _ _ (tk_inv _ _ _ _ _ _ Ht)).
      unfold run_frame. case_if; [done|]. constructor; [|done].
      destruct greedy; cbn [frame_wf]; [lia|done].
    + apply at_oinv.
Qed.

(** What a [Save] does. *)
Definition save_step (slot next : N) : M (ctl + answer) :=
  get_slot slot ≫= fun old =>
  push_frame (FRestore slot old) ≫= fun _ =>
  (if ((slot mod 2 =? 1) && (slot <? last_slot))%N
   then get_slot last_slot ≫= fun old_last =>
        push_frame (FRestore last_slot old_last) ≫= fun _ =>
        set_slot last_slot (Z.of_N (slot / 2 + 1))
   else mret tt) ≫= fun _ =>
  set_slot slot (Z.of_nat pos) ≫= fun _ =>
  mret (inl (CAt next pos)).

Definition saved (slot : N) : Backtracker :=
  mk_bt (visited b') (used b')
    (List.map (fun u => FRestore (fst u) (snd u)) (save_undos last_slot slot (bt_slots b')) ++ stack b')
    (save last_slot slot pos (bt_slots b')).

Lemma get_slot_ok slot (st' : dfs_state O) :
  N.to_nat slot < length (bt_slots (bt st')) -> get_slot slot st' = (Ok (slot_at slot (bt_slots (bt st'))), st').
Proof.
  intros Hl. unfold get_slot, xsome, slot_at. by destruct (lookup_lt_is_Some_2 _ _ Hl) as [z ->].
Qed.

Lemma save_step_ok slot next :
  N.to_nat slot < length (bt_slots b') -> N.to_nat last_slot < length (bt_slots b') ->
  save_step slot next (fresh st b') =
  (Ok (inl (CAt next pos)), mk_dfs (saved slot) (steps st + 1) (spent st + 1) (oracle st)).
Proof.
  intros Hs Hl. unfold save_step, saved, save, save_undos.
  unfold mbind, stx_bind. rewrite (get_slot_ok slot) by done. cbn [push_frame xmod bt set_bt fresh bt_slots].
  destruct ((slot mod 2 =? 1) && (slot <? last_slot))%N.
  - rewrite (get_slot_ok last_slot) by done. unfold set_slot at 1. cbn [bt set_bt bt_slots].
    rewrite (proj2 (Nat.ltb_lt _ _)) by done. unfold set_slot. cbn [bt set_bt bt_slots].
    rewrite length_insert, (proj2 (Nat.ltb_lt _ _)) by done. done.
  - cbn. unfold set_slot. cbn [bt set_bt bt_slots]. rewrite (proj2 (Nat.ltb_lt _ _)) by done. done.
Qed.

Lemma at_save slot next :
  i = ISave slot next ->
  wp (save_step slot next) (fresh st b') (next_ok (meas (CAt pc pos) st V) F) stopped.
Proof.
  intros Hir. assert (Hi' := Hi). rewrite Hir in Hi'.
  assert (Hw := at_wf). rewrite Hir in Hw. simpl in Hw. apply andb_true_iff in Hw as [Hsl _]. cleanb.
  assert (Hwf := wf). unfold prog_wf in Hwf. apply andb_true_iff in Hwf as [_ H2]. apply N.leb_le in H2.
  destruct Ht as [Hin Hn Htb Hs Hsb Hb Hbu].
  assert (Hlen : length (bt_slots b') = N.to_nat (nslots pr))
    by (rewrite Hsb; apply (wk_slots _ _ _ _ (iv_walk _ _ _ _ Hin))).
  unfold wp. rewrite save_step_ok by (rewrite Hlen; unfold Backtrack.last_slot; lia).
  assert (Hfl : flats (stack (saved slot)) = undos (save_undos last_slot slot (bt_slots b')) ++ flats (stack (bt st))).
  { unfold saved. cbn [stack]. unfold flats. rewrite flat_map_app, Hs. f_equal.
    induction (save_undos last_slot slot (bt_slots b')) as [|u us IH]; simpl; [done|]. by rewrite IH. }
  assert (Hul : length (save_undos last_slot slot (bt_slots b')) <= 2).
  { unfold save_undos. case_if; simpl; lia. }
  apply (next_new F (CAt pc pos) _ st _ (pc, pos)); cbn [bt steps]; try done.
  - rewrite Hfl. cbn [here passed app].
    change (Todo (next, pos) :: ?l) with (List.map Todo [(next, pos)] ++ l).
    eapply (walk_ext (mk_bt (visited b') (used b') (stack b') (save last_slot slot pos (bt_slots b'))));
      [done..|].
    eapply (walk_new (bt st)); [exact (iv_walk _ _ _ _ Hin)|by eapply (tables_ext b')|done| | | |].
    + unfold Search.succs. by rewrite Hi'.
    + unfold Search.leaf. simpl. by rewrite at_not_match by (by rewrite Hir).
    + rewrite Hsb. unfold Search.upd. simpl. rewrite Hi'. apply undo_save.
    + cbn [bt_slots]. rewrite Hsb. unfold Search.upd. simpl. by rewrite Hi'.
  - unfold saved. cbn [stack]. apply Forall_app. split.
    + unfold save_undos. case_if; repeat constructor; cbn [frame_wf fst]; try (by rewrite <- Hlen in *; lia); unfold Backtrack.last_slot; lia.
    + rewrite Hs. apply Hin.
  - apply (keeps_new0 st (saved slot) (pc, pos) V); [apply Hin| |by eapply inv_steps]. by eapply (tables_ext b').
  - lia.
  - rewrite Hfl. cbn [passed app]. rewrite length_app. unfold undos. rewrite length_map. unfold Backtrack.rows. lia.
  - simpl. lia.
Qed.

(** A match: accepted, or a dead end. *)
Lemma at_match : i = IMatch -> next_ok (meas (CAt pc pos) st V) F
  (if accepts pos then inr (Some (bt_slots b', pos)) else inl CPop) (fresh st b').
Proof.
  intros Hir. assert (Hi' := Hi). rewrite Hir in Hi'.
  assert (Hm : is_match P pc = true) by (unfold is_match; by rewrite Hi').
  destruct Ht as [Hin Hn Htb Hs Hsb Hb Hbu].
  assert (Hk : keeps (fresh st b')) by (apply (keeps_new0 st b' (pc, pos) V); [apply Hin|done|by eapply inv_steps]).
  destruct (accepts pos) eqn:Ha.
  - split; [|done]. symmetry. rewrite Hsb.
    eapply inv_accept; [|exact (wk_inv _ _ _ _ (iv_walk _ _ _ _ Hin))].
    unfold Search.leaf. simpl. by rewrite Hm, Ha.
  - apply (next_new F (CAt pc pos) _ st _ (pc, pos)); cbn [bt steps fresh here passed app]; try done; [| |lia|rewrite Hs; simpl; lia|simpl; lia].
    + rewrite Hs. rewrite <- (app_nil_l (flats (stack (bt st)))). change [] with (undos []) at 1.
      change (undos [] ++ ?l) with (List.map Todo [] ++ undos [] ++ l).
      assert (Hup : forall sl, upd (pc, pos) sl = sl) by (apply at_upd; intros; by rewrite Hir).
      eapply walk_new; [exact (iv_walk _ _ _ _ Hin)|done|done|by apply match_no_succs| | |].
      * unfold Search.leaf. simpl. by rewrite Hm, Ha.
      * apply Hup.
      * by rewrite Hup.
    + rewrite Hs. apply Hin.
Qed.
End at_node.

Lemma at_step_ok pc pos st V F :
  inv (CAt pc pos) st V F ->
  wp (at_step pr P t s wend end_at no_empty budget pc pos) st (next_ok (meas (CAt pc pos) st V) F) stopped.
Proof.
  intros Hin. unfold at_step.
  apply (wp_visit (fun new => _) st (pc, pos) _ V F _ (iv_keeps _ _ _ _ Hin) (iv_walk _ _ _ _ Hin) (inv_steps _ _ _ _ Hin)).
  { intros b' _ Hw Hs Hk. apply wp_ret. eapply next_old; [exact Hin|..]; cbn [bt set_bt here passed app]; try done.
    - by rewrite Hs.
    - rewrite Hs. apply Hin.
    - by rewrite Hs.
    - simpl. lia. }
  intros b' Hn Htb Hw Hs Hsb Hl Hb. cbn [fst snd] in *.
  destruct (walk_valid _ _ _ _ _ Hw) as [[i Hi] Hr]. simpl in Hi.
  assert (Ht : taken pc pos st b' V F) by by split.
  eapply wp_step; [by apply inst_taken|]. cbn [negb]. fold (fresh st b').
  assert (Hiw := wf_inst pr P wf _ _ Hi).
  destruct i as [set next|x y|next|slot next|look next|next|set mn mx greedy next|].
  - simpl in Hiw. apply andb_true_iff in Hiw as [Hset _].
    eapply wp_step; [by apply bt_reads_ok, wf_set|]. apply wp_ret. rewrite Nat.add_1_r.
    eapply at_one; [done|done|done|done|by eapply at_oinv|]. unfold Search.succs. by rewrite Hi.
  - simpl in Hiw. apply andb_true_iff in Hiw as [Hx _].
    destruct (greedy_run_ok pc x y (fresh st b') (target_ok _ Hx)) as (r & Hr' & Hset).
    eapply wp_step; [exact Hr'|]. destruct r as [set|].
    + apply wp_ret. destruct (Hset set eq_refl) as [next Hx']. by eapply at_run.
    + eapply wp_step; [reflexivity|]. apply wp_ret. exact (at_two pc pos st b' V F _ Ht Hi x y eq_refl).
  - apply wp_ret. eapply (at_one _ _ _ _ _ _ _ Ht Hi true); [done|done|by eapply at_oinv|]. unfold Search.succs. by rewrite Hi.
  - by eapply at_save.
  - simpl in Hiw. apply andb_true_iff in Hiw as [Hlk _]. cleanb.
    destruct (look_holds_ok look pos (oracle st) ltac:(done) ltac:(by eapply at_oinv)) as (o' & Ho & Hoi).
    unfold wp. cbn [fresh oracle]. rewrite Ho.
    eapply at_one; [done|done|done|done|done|]. unfold Search.succs. by rewrite Hi.
  - apply wp_ret. eapply at_one; [done|done|done|done|by eapply at_oinv|]. unfold Search.succs. by rewrite Hi.
  - by eapply at_repeat.
  - pose proof (at_match pc pos st b' V F IMatch Ht Hi eq_refl) as H1. unfold accepts in H1.
    destruct (match end_at with Some e => (pos =? e)%nat | None => negb (no_empty && (pos =? s)%nat) end).
    + eapply wp_step; [reflexivity|]. apply wp_ret. exact H1.
    + apply wp_ret. exact H1.
Qed.

(** *** The loop of a greedy run *)

Lemma next_ok_mono m m' F r st : m <= m' -> next_ok m F r st -> next_ok m' F r st.
Proof. destruct r; [|done]. intros Hm (V & Hi & Hl). exists V. split; [done|lia]. Qed.

Definition leave_frame (y : N) (lo q : nat) (st : dfs_state O) : dfs_state O :=
  popped st (FExits y lo q :: stack (bt st)).

Lemma leave_flats y lo q st : flats (stack (bt (leave_frame y lo q st))) = flat (FExits y lo q) ++ flats (stack (bt st)).
Proof. done. Qed.

(** A state with the exits passed pushed. *)
Lemma leave_keeps y lo q st : keeps st -> keeps (leave_frame y lo q st).
Proof. intros Hk. apply keeps_set_bt; [by destruct Hk|done]. Qed.

Section run.
Variables (set y : N) (lo : nat) (sp : N) (q : nat) (st : dfs_state O) (V : list node) (F : answer).
Variables (x next : N).
Hypothesis Hin : inv (CRun set y lo sp q) st V F.
Hypothesis Hsp : inst_at P sp = Some (ISplit x y).
Hypothesis Hx : inst_at P x = Some (IChar set next).
Hypothesis Hlo : lo <= q.

Lemma run_walk : walk (bt st) (Todo (x, q) :: flat (FExits y lo q) ++ flats (stack (bt st))) V F.
Proof. assert (H1 := iv_walk _ _ _ _ Hin). cbn [here passed] in H1. by rewrite Hsp in H1. Qed.

Lemma run_leave_old b' :
  walk b' (flat (FExits y lo q) ++ flats (stack (bt st))) V F -> stack b' = stack (bt st) ->
  keeps (set_bt b' st) ->
  next_ok (meas (CRun set y lo sp q) st V) F (inl CPop) (leave_frame y lo q (set_bt b' st)).
Proof.
  intros Hw Hs Hk. eapply next_old; [exact Hin|..]; rewrite ?leave_flats; cbn [bt set_bt here passed app]; rewrite ?Hs; try done.
  - by apply (walk_ext b').
  - constructor; [done|]. cbn [bt set_bt]. rewrite Hs. apply Hin.
  - rewrite Hsp. simpl. lia.
Qed.

(** The character is read: what is left, with the exits on the stack. *)
Section read.
Variable b' : Backtracker.
Hypothesis Hnew : (x, q) ∉ V.
Hypothesis Htb : tables b' ((x, q) :: V).
Hypothesis Hs : stack b' = stack (bt st).
Hypothesis Hsb : bt_slots b' = bt_slots (bt st).
Hypothesis Hl : length V < node_bound.
Hypothesis Hb : (steps st + 1 <= budget)%Z.

Abbreviation st1 := (leave_frame y lo q (fresh st b')).

Lemma run_keeps : keeps (fresh st b').
Proof. apply (keeps_new0 st b' (x, q) V); [apply Hin|done|by eapply inv_steps]. Qed.

Lemma run_read c :
  (set_at set q = false /\ c = CPop) \/ (set_at set q = true /\ c = CAt next (q + 1)) ->
  next_ok (meas (CRun set y lo sp q) st V) F (inl c) st1 /\
  inv c st1 ((x, q) :: V) F /\ meas c st1 ((x, q) :: V) < meas (CRun set y lo sp q) st V.
Proof.
  intros Hc.
  assert (Hpc : passed c = []) by (destruct Hc as [[_ ->]|[_ ->]]; done).
  assert (Hsu : List.map Todo (succs (x, q)) = here c).
  { unfold Search.succs. rewrite Hx. destruct Hc as [[-> ->]|[-> ->]]; [done|]. simpl. by rewrite Nat.add_1_r. }
  assert (Hup : forall sl, upd (x, q) sl = sl) by (intros sl; unfold Search.upd; simpl; by rewrite Hx).
  assert (Hw : walk (bt st1) (here c ++ passed c ++ flats (stack (bt st1))) ((x, q) :: V) F).
  { rewrite Hpc, leave_flats. cbn [app bt fresh]. rewrite Hs, <- Hsu.
    eapply (walk_ext b'); [done..|].
    rewrite <- (app_nil_l (flat _ ++ _)). change [] with (undos []) at 1.
    eapply walk_new; [exact run_walk|done|done|done| | |].
    - unfold Search.leaf, is_match. simpl. by rewrite Hx.
    - apply Hup.
    - by rewrite Hup. }
  assert (Hk : keeps st1) by apply leave_keeps, run_keeps.
  assert (Hf : Forall frame_wf (stack (bt st1))) by (constructor; [done|]; cbn [bt fresh]; rewrite Hs; apply Hin).
  assert (Hcw : ctl_wf c) by (destruct Hc as [[_ ->]|[_ ->]]; done).
  assert (Hh : length (here c) <= 1) by (destruct Hc as [[_ ->]|[_ ->]]; simpl; lia).
  assert (Hwt : weight c <= 1) by (destruct Hc as [[_ ->]|[_ ->]]; simpl; lia).
  assert (Hflats : passed c ++ flats (stack (bt st1)) = passed (CRun set y lo sp q) ++ flats (stack (bt st)))
    by (rewrite Hpc, leave_flats; cbn [app bt fresh passed]; by rewrite Hs).
  assert (Hsteps : steps st1 = (steps st + 1)%Z) by done.
  assert (Hm : meas c st1 ((x, q) :: V) < meas (CRun set y lo sp q) st V).
  { unfold meas. rewrite Hflats, !(length_app (here _)). cbn [length weight]. nia. }
  assert (Hcost : (steps st1 + Z.of_nat (length (passed c ++ flats (stack (bt st1)))) <= 1 + width_C * Z.of_nat (length ((x, q) :: V)))%Z).
  { rewrite Hflats, Hsteps. assert (Hc0 := iv_cost _ _ _ _ Hin). cbn [length]. unfold width_C in *. lia. }
  assert (Hi : inv c st1 ((x, q) :: V) F) by (split; done || lia).
  split; [|done]. by exists ((x, q) :: V).
Qed.

Lemma run_next_valid : is_Some (inst_at P next).
Proof.
  assert (Hw := wf_inst pr P wf _ _ Hx). simpl in Hw. apply andb_true_iff in Hw as [_ Hn]. by apply target_ok.
Qed.

(** On to the next split of the run. *)
Lemma run_more x' next' :
  set_at set q = true ->
  inst_at P next = Some (ISplit x' y) -> inst_at P x' = Some (IChar set next') ->
  wp (visit P s budget next (q + 1) ≫= fun new =>
      if negb new then push_frame (FExits y lo q) ≫= fun _ => mret (inl CPop)
      else mret (inl (CRun set y lo next (q + 1)))) (fresh st b')
    (next_ok (meas (CRun set y lo sp q) st V) F) stopped.
Proof.
  intros Hat Hn Hx'. destruct (run_read (CAt next (q + 1)) ltac:(by right)) as (_ & Hi1 & Hm).
  assert (Hw1 : walk b' (Todo (next, q + 1) :: flat (FExits y lo q) ++ flats (stack b')) ((x, q) :: V) F)
    by (apply (walk_ext (bt st1)); [done..|]; exact (iv_walk _ _ _ _ Hi1)).
  apply (wp_visit (fun new => _) (fresh st b') (next, q + 1) _ _ F _ run_keeps Hw1).
  { assert (H1 := inv_steps _ _ _ _ Hi1). exact H1. }
  - intros b2 _ Hw2 Hs2 Hk2. cbn [negb]. eapply wp_step; [reflexivity|]. apply wp_ret.
    eapply next_ok_mono; [apply Nat.lt_le_incl, Hm|]. 
    change (next_ok ?m F ?r _) with (next_ok m F r (leave_frame y lo q (set_bt b2 (fresh st b')))).
    eapply next_old; [exact Hi1|..]; rewrite ?leave_flats; cbn [bt set_bt fresh here passed app] in *; rewrite ?Hs2; try done.
    + by apply (walk_ext b2).
    + constructor; [done|]. cbn [bt set_bt fresh]. rewrite Hs2, Hs. apply Hin.
    + simpl. lia.
  - intros b2 Hn2 Htb2 _ Hs2 Hsb2 Hl2 Hb2. cbn [negb]. apply wp_ret.
    eapply next_ok_mono; [apply Nat.lt_le_incl, Hm|].
    assert (Hex : flat (FExits y lo (q + 1)) = Todo (y, q + 1) :: flat (FExits y lo q))
      by (rewrite exits_pop by lia; by rewrite Nat.add_sub).
    eapply (next_new F (CAt next (q + 1)) _ st1 _ (next, q + 1)); cbn [bt steps fresh here passed app] in *; try done; rewrite ?Hex, ?Hs2.
    + rewrite Hn.
      match goal with |- walk _ ?l _ _ => replace l with
        (List.map Todo [(x', q + 1); (y, q + 1)] ++ undos [] ++ flat (FExits y lo q) ++ flats (stack b')) by done end.
      assert (Hup : forall sl, upd (next, q + 1) sl = sl) by (intros sl; unfold Search.upd; simpl; by rewrite Hn).
      eapply walk_new; [exact Hw1|exact Htb2|exact Hn2| | | |].
      * unfold Search.succs. by rewrite Hn.
      * unfold Search.leaf, is_match. simpl. by rewrite Hn.
      * apply Hup.
      * by rewrite Hup.
    + rewrite Hs. apply Hin.
    + split; [lia|]. eauto.
    + apply (keeps_new0 (fresh st b') b2 (next, q + 1) ((x, q) :: V)); [apply run_keeps|done|exact (inv_steps _ _ _ _ Hi1)].
    + change (steps st1) with (steps st + 1)%Z. lia.
    + rewrite leave_flats. cbn [bt fresh]. simpl. lia.
    + rewrite Hn. simpl. lia.
Qed.
End read.
End run.

Lemma run_step_ok set y lo sp q st V F :
  inv (CRun set y lo sp q) st V F ->
  wp (run_step pr P t s wend end_at budget set y lo sp q) st (next_ok (meas (CRun set y lo sp q) st V) F) stopped.
Proof.
  intros Hin. destruct (iv_ctl _ _ _ _ Hin) as (Hlo & x & next & Hsp & Hx). unfold run_step.
  eapply wp_step; [by apply inst_taken|]. eapply wp_step; [by apply inst_taken|]. cbn beta iota.
  apply (wp_visit (fun new => _) st (x, q) _ V F _ (iv_keeps _ _ _ _ Hin) (run_walk _ _ _ _ _ _ _ _ _ Hin Hsp) (inv_steps _ _ _ _ Hin)).
  { intros b' _ Hw Hs Hk. cbn [negb]. eapply wp_step; [reflexivity|]. apply wp_ret.
    exact (run_leave_old _ _ _ _ _ _ _ _ _ Hin Hsp Hlo b' Hw Hs Hk). }
  intros b' Hn Htb _ Hs Hsb Hl Hb. cbn [negb fst snd]. fold (fresh st b').
  assert (Hset : is_Some (sets pr !! N.to_nat set)).
  { assert (Hw := wf_inst pr P wf _ _ Hx). simpl in Hw. apply andb_true_iff in Hw as [Hset _]. by apply wf_set. }
  eapply wp_step; [by apply bt_reads_ok|].
  destruct (set_at set q) eqn:Hat; cbn [negb].
  2: { eapply wp_step; [reflexivity|]. apply wp_ret.
       by eapply (run_read set y lo sp q st V F x next Hin Hsp Hx Hlo b'); [done..|left]. }
  assert (Hread := fun c => run_read set y lo sp q st V F x next Hin Hsp Hx Hlo b' Hn Htb Hs Hsb Hl Hb c).
  destruct (N.eqb_spec next sp) as [->|Hne].
  - eapply wp_step; [reflexivity|]. cbn beta iota.
    eapply (run_more set y lo sp q st V F x sp); try done.
  - destruct (run_split_ok next set y (run_next_valid set x next Hx)) as (more & Hmore & Hyes).
    eapply wp_step; [unfold xsome; by rewrite Hmore|]. cbn beta iota. destruct more.
    + destruct (Hyes eq_refl) as (x' & next' & Hn' & Hx'). by eapply (run_more set y lo sp q st V F x next).
    + eapply wp_step; [reflexivity|]. apply wp_ret. apply (Hread (CAt next (q + 1))). by right.
Qed.

(** *** The whole search *)

Lemma dfs_step_ok c st V F :
  inv c st V F -> wp (dfs_step pr P t s wend end_at no_empty budget c) st (next_ok (meas c st V) F) stopped.
Proof.
  destruct c; [apply pop_step_ok|apply at_step_ok|apply run_step_ok].
Qed.

Lemma dfs_loop_ok fuel c st V F :
  inv c st V F -> meas c st V < fuel ->
  wp (dfs_loop pr P t s wend end_at no_empty budget fuel c) st (done_ok F) stopped.
Proof.
  revert c st V. induction fuel as [|fuel IH]; intros c st V Hi Hm; [lia|]. cbn [dfs_loop].
  apply wp_bind. eapply wp_mono; [by apply dfs_step_ok| |done].
  intros [c'|a] st' Hn; [|exact Hn]. destruct Hn as (V' & Hi' & Hm'). eapply IH; [exact Hi'|lia].
Qed.

Lemma clear_zero b i : table_ok b -> default 0%Z (visited (clear_bt pr P s b) !! i) = 0%Z.
Proof.
  intros [Hu Hz]. unfold clear_bt. cbn [visited]. destruct (decide (i < used b)) as [Hl|Hl].
  - rewrite lookup_app_l by (by rewrite length_replicate). by rewrite lookup_replicate_2.
  - rewrite lookup_app_r by (rewrite length_replicate; lia). rewrite length_replicate, lookup_drop.
    replace (used b + (i - used b)) with i by lia. apply Hz. lia.
Qed.

Lemma clear_bt_ok b : table_ok b -> table_ok (clear_bt pr P s b).
Proof. intros Hb. split; [cbn; lia|]. intros i _. by apply clear_zero. Qed.

Lemma dfs_ok b o F :
  table_ok b -> oinv o -> (0 <= budget)%Z ->
  Srch (start P, s) (replicate (N.to_nat (nslots pr)) (-1)%Z) F ->
  wp (fun _ => dfs pr P t s wend end_at no_empty budget b o spent0) (mk_dfs b 0 spent0 o) (done_ok F) stopped.
Proof.
  intros Hb Ho Hbu Hs. unfold dfs, wp.
  assert (Hi : inv CPop (mk_dfs (clear_bt pr P s b) 0 spent0 o) [] F).
  { split; cbn [bt stack here passed app steps length]; try done.
    - split; cbn [bt_slots clear_bt].
      + split; [by apply clear_bt_ok| |constructor|constructor].
        intros v Hv. unfold marked. rewrite clear_zero by done. rewrite Z.testbit_0_l. done.
      + rewrite <- (opt_or_None_l F). eapply inv_start; [|exact Hs]. apply (inv_empty _ _ _ _ _ _ _ _ []).
        intros v Hv. by apply elem_of_nil in Hv.
      + constructor; [split; simpl; lia|constructor].
      + apply length_replicate.
    - by repeat constructor.
    - split; [by apply clear_bt_ok|]. split; [done|]. cbn [spent steps]. unfold step_bound, width_C. lia.
    - simpl. unfold width_C. lia. }
  assert (Hm : meas CPop (mk_dfs (clear_bt pr P s b) 0 spent0 o) [] < dfs_fuel P s wend end_at).
  { unfold meas, dfs_fuel. cbn [bt here passed app weight length].
    change (length (flats (stack (clear_bt pr P s b)))) with 1. nia. }
  exact (dfs_loop_ok _ _ _ _ _ Hi Hm).
Qed.
End correct.
