(* ===== verification/Linre.v ===== *)
(** The engine's matchers answer what a backtracking matcher would:
    [linre] end to end.

    [match_from] is the specification: the reference search of the pattern
    ([Hir.hmatch]) from one start, its tests read by [Meaning.look_sem].
    [pike_anchored], [pike_unanchored] and [pike_full]: the Pike simulation
    of the compiled forward and full programs answers it (the unanchored one
    the leftmost start's).  [backtrack_anchored] and [backtrack_groups]: the
    bounded backtracker on the programs with runs answers it too, or stops
    where its budget or its table ends; within [fits] it does not stop. *)

From Stdlib Require Import ZArith Lia.
From stdpp Require Import base option numbers list_numbers list.
From S2P Require Import Prelude CharSet Hir Nfa Search NfaCorrect NfaSearch Machine NfaWf Compile SparseSet Looks Meaning Flat LookMemo LooksOk Pike Backtrack.

(** ** What the guards and the limit of the text change: nothing *)

Section upto.
Context (sa sb look_at : N -> nat -> bool) (wend e : nat) (ls : N) (saves ga gb : bool).
Hypothesis e_wend : e <= wend.
Hypothesis same_below : forall s p, p < e -> sa s p = sb s p.
Hypothesis sb_lim : forall s p, sb s p = true -> p < e.
(** Or nothing is read there. *)
Variable quiet : bool.
Hypothesis sa_lim : quiet = true -> forall s p, sa s p = true -> p < e.

Abbreviation cont := (nat -> slots -> answer).
Abbreviation hma := (hmatch sa look_at wend ls saves ga).
Abbreviation hmb := (hmatch sb look_at wend ls saves gb).

(** Nothing is answered past [e]. *)
Definition dead (k : cont) : Prop := quiet = false -> forall p s, e < p -> k p s = None.

Definition upto (f g : cont -> cont) : Prop := forall k k', dead k -> (forall p s, p <= e -> k p s = k' p s) ->
  dead (f k) /\ forall p s, p <= e -> f k p s = g k' p s.

Lemma seq_all_upto fs gs : Forall2 upto fs gs -> upto (seq_all fs) (seq_all gs).
Proof.
  intros H. induction H as [|f g fs gs Hf _ IH]; intros k k' Hd Hk; [done|]. simpl. destruct (IH k k' Hd Hk) as [G1 G2]. by apply Hf.
Qed.

Lemma exactly_upto f g n : upto f g -> upto (exactly f n) (exactly g n).
Proof. intros Hf. induction n as [|n IH]; intros k k' Hd Hk; [done|]. simpl. destruct (IH k k' Hd Hk) as [G1 G2]. by apply Hf. Qed.

Lemma prefer_none gr : prefer gr None None = None.
Proof. by destruct gr. Qed.

Lemma at_most_upto f g gr n : upto f g -> upto (at_most f gr n) (at_most g gr n).
Proof.
  intros Hf. induction n as [|n IH]; intros k k' Hd Hk; [done|]. cbn [at_most]. destruct (IH k k' Hd Hk) as [G1 G2].
  destruct (Hf _ _ G1 G2) as [F1 F2]. split; [intros Hq p s Hp; by rewrite F1, Hd, prefer_none|].
  intros p s Hp. by rewrite F2, Hk.
Qed.

Lemma any_number_upto f g gr n : upto f g -> upto (any_number f gr n) (any_number g gr n).
Proof.
  intros Hf. induction n as [|n IH]; intros k k' Hd Hk; [done|]. cbn [any_number]. destruct (IH k k' Hd Hk) as [G1 G2].
  destruct (Hf _ _ G1 G2) as [F1 F2]. split; [intros Hq p s Hp; by rewrite F1, Hd, prefer_none|].
  intros p s Hp. by rewrite F2, Hk.
Qed.

Lemma alt_all_none {A} (fs : list A) (f : A -> answer) : (forall x, x ∈ fs -> f x = None) -> alt_all (List.map f fs) = None.
Proof.
  induction fs as [|x fs IH]; intros H; [done|]. cbn [List.map alt_all foldr]. rewrite (H x) by left. apply IH. intros y Hy. apply H. by right.
Qed.

Lemma hmatch_upto h : upto (hma h) (hmb h).
Proof.
  induction h as [|c|l|g b IH|v IH|v IH|mn mx gr si b IH] using hir_ind'; intros k k' Hd Hk; unfold dead; cbn [hmatch].
  - done.
  - split.
    + intros Hq p s Hp. destruct (sa c p); [|done]. apply Hd; [done|lia].
    + intros p s Hp. destruct (decide (p < e)) as [Hlt|].
      * rewrite same_below by done. destruct (sb c p); [|done]. by apply Hk.
      * destruct (sb c p) eqn:Hb; [by apply sb_lim in Hb|]. destruct (sa c p) eqn:Ha; [|done].
        destruct quiet eqn:Hq; [by apply sa_lim in Ha|]. apply Hd; [done|lia].
  - split; [intros Hq|]; intros p s Hp; (destruct (look_at l p); [|done]); [by apply Hd|by apply Hk].
  - destruct saves; [|by apply IH].
    destruct (IH (fun p s => k p (save ls (2 * (g - 1) + 1) p s)) (fun p s => k' p (save ls (2 * (g - 1) + 1) p s))) as [G1 G2].
    + intros Hq p s Hp. by apply Hd.
    + intros p s Hp. by apply Hk.
    + split; [intros Hq|]; intros p s Hp; [by apply G1|by apply G2].
  - apply seq_all_upto; [|done..]. induction IH as [|x v Hx _ IHv]; constructor; done.
  - destruct v as [|x v]; [done|]. split.
    + intros Hq p s Hp. apply (alt_all_none (x :: v)). intros y Hy. rewrite Forall_forall in IH. by apply (IH y Hy k k').
    + intros p s Hp. unfold alt_all. f_equal. induction IH as [|y w Hy _ IHw]; [done|]. cbn [List.map].
      f_equal; [by apply Hy|done].
  - set (ra := match mx with None => fun p s => any_number (hma b) gr (S (wend - p)) k p s | Some m => at_most (hma b) gr (N.to_nat (m - mn)) k end).
    set (rb := match mx with None => fun p s => any_number (hmb b) gr (S (wend - p)) k' p s | Some m => at_most (hmb b) gr (N.to_nat (m - mn)) k' end).
    assert (Hr : dead ra /\ forall p s, p <= e -> ra p s = rb p s).
    { unfold ra, rb. destruct mx as [m|]; [by apply at_most_upto|].
      split; [intros Hq|]; intros p s Hp; by apply (any_number_upto _ _ gr (S (wend - p)) IH k k' Hd Hk). }
    destruct Hr as [R1 R2]. destruct (exactly_upto _ _ (N.to_nat mn) IH ra rb R1 R2) as [G1 G2]. split.
    + intros Hq p s Hp. destruct (si && ga && negb (p <=? wend)%nat); [done|]. by apply G1.
    + intros p s Hp. rewrite (proj2 (Nat.leb_le p wend)) by lia. cbn [negb]. rewrite !andb_false_r. by apply G2.
Qed.
End upto.

(** ** The matchers *)

Section linre.
Context `{UnicodeTables}.
Context (h : Hir) (ss : list CharSet) (ls : list Look) (ng : N) (pr : Programs).
Context (t : text) (wend : nat).
Context {O : Type} `{LookOracle O} (oinv : O -> Prop).
Hypothesis comp : compiled h ss ls ng pr.
Hypothesis h_wf : hir_wf h.
Hypothesis h_in : hir_in (length ss) (length ls) ng h.
Hypothesis ls_wf : looks_wf (length ss) ng ls.
Hypothesis text_end : wend <= length t.
Hypothesis text_chars : Forall (fun c => 0 <= c <= MAX)%Z t.
Context `{!OracleLaws O pr t wend (look_sem pr ls t wend) oinv}.

Abbreviation set_at := (set_at pr t wend).
Abbreviation look_sem := (look_sem pr ls t wend).

(** No slot recorded. *)
Definition no_slots : slots := replicate (N.to_nat (nslots pr)) (-1)%Z.

(** The specification: the match from [s], ending where [acc] accepts. *)
Definition match_from (acc : nat -> bool) (s : nat) : answer :=
  hmatch set_at look_sem wend (nslots pr - 2) true true h
    (fun p sl => if acc p then Some (sl, p) else None)
    s (save (nslots pr - 2) (nslots pr - 1) s no_slots).

(** The leftmost match from [s] on. *)
Definition leftmost_from (acc : nat -> bool) (s : nat) : answer :=
  first_of (List.map (match_from acc) (seq s (S (wend - s)))).

Lemma built o hd i tl P P' :
  o_reverse o = false -> build_with (ids_of ls) o h hd (i :: tl) = Ok P -> insts P `prefix_of` insts P' -> program o h hd (i :: tl) P' (start P).
Proof. intros Hr Hb Hp. destruct (build_with_spec (ids_of ls) o h hd (i :: tl) P (ids_of_exact ls) Hr ltac:(done) Hb) as [_ Hs]. by apply Hs. Qed.

Lemma any_set_at p : p < wend -> set_at (any_set_id pr) p = true.
Proof.
  intros Hp. destruct (cp_any _ _ _ _ _ comp) as (s & Hs & Ha). unfold Machine.set_at.
  rewrite (proj2 (Nat.ltb_lt _ _)) by done. destruct (lookup_lt_is_Some_2 t p) as [c Hc]; [lia|]. rewrite Hc, Hs. simpl.
  unfold is_all in Ha. apply andb_true_iff in Ha as [Hl Hr]. apply Nat.eqb_eq in Hl. apply bool_decide_eq_true in Hr.
  assert (Hall : s = all).
  { destruct s as [[|r [|]]]; try done. simpl in Hr. injection Hr as ->. done. }
  subst s. apply (contains_iff all c canonical_all). apply Exists_cons_hd. simpl.
  apply (Forall_lookup_1 _ _ _ _ text_chars Hc).
Qed.

(** *** The Pike simulation *)

Section pike.
Variables (start_ : nat) (want : Want) (c : PikeCache O).
Hypothesis c_ok : cache_ok oinv c.

Abbreviation acc := (accepted start_ want).

Lemma run_search P F :
  prog_wf pr P = true -> (forall pc s mn mx g x, inst_at P pc <> Some (IRun s mn mx g x)) ->
  Srch P set_at look_sem wend wend (nslots pr - 2) acc
    (if Pike.anchored want then start P else start_unanchored P, start_) no_slots F ->
  exists c', search pr P t start_ wend want c = (Ok F, c') /\ cache_ok oinv c'.
Proof.
  intros Hw Hr Hs. assert (Hk := search_ok pr P t start_ wend want look_sem oinv Hw Hr c F c_ok Hs).
  unfold wp in Hk. destruct (search pr P t start_ wend want c) as [[a|f] c']; [|done].
  destruct Hk as [-> Hk]. by exists c'.
Qed.

Lemma fwd_search : Srch (fwd pr) set_at look_sem wend wend (nslots pr - 2) acc (start (fwd pr), start_) no_slots (match_from acc start_).
Proof.
  destruct (cp_fwd_spec _ _ _ _ _ comp) as (fwd0 & Hb & Hpre & Hst & _).
  assert (Hp := built (mk_options true false true false) _ _ _ _ (fwd pr) eq_refl Hb Hpre). rewrite Hst.
  exact (program_search (fwd pr) set_at look_sem wend wend _ acc (set_at_lim pr t wend) (le_n _) (mk_options true false true false) h _ [IMatch] _ start_ no_slots
    ltac:(done) h_wf Logic.I Hp).
Qed.

Lemma pike_fwd_anchored : Pike.anchored want = true ->
  exists c', search pr (fwd pr) t start_ wend want c = (Ok (match_from acc start_), c') /\ cache_ok oinv c'.
Proof.
  intros Ha. apply run_search; [by eapply cp_fwd_bwf|by eapply cp_fwd_no_runs|]. rewrite Ha. apply fwd_search.
Qed.

Lemma pike_fwd_unanchored : Pike.anchored want = false ->
  exists c', search pr (fwd pr) t start_ wend want c = (Ok (leftmost_from acc start_), c') /\ cache_ok oinv c'.
Proof.
  intros Ha. apply run_search; [by eapply cp_fwd_bwf|by eapply cp_fwd_no_runs|]. rewrite Ha.
  destruct (cp_fwd_spec _ _ _ _ _ comp) as (fwd0 & Hb & Hpre & Hst & Hu & Hu1).
  assert (Hp := built (mk_options true false true false) _ _ _ _ (fwd pr) eq_refl Hb Hpre). rewrite <- Hst in Hp.
  exact (unanchored_search (fwd pr) set_at look_sem wend wend _ acc (set_at_lim pr t wend) (le_n _) (mk_options true false true false) h _ [IMatch] _ _ _ start_ no_slots
    ltac:(done) h_wf Logic.I Hp any_set_at Hu Hu1).
Qed.

(** The full program's match ends at the window's end. *)
Lemma pike_full_anchored : Pike.anchored want = true ->
  exists c', search pr (full pr) t start_ wend want c = (Ok (match_from (fun p => (p =? wend)%nat && acc p) start_), c') /\ cache_ok oinv c'.
Proof.
  intros Ha. apply run_search; [by eapply cp_full_wf|by eapply cp_full_no_runs|]. rewrite Ha.
  assert (Hb := cp_full _ _ _ _ _ comp).
  assert (Hp := built (mk_options true false true false) _ _ _ _ (full pr) eq_refl Hb (reflexivity _)).
  assert (Hs := program_search (full pr) set_at look_sem wend wend (nslots pr - 2) acc (set_at_lim pr t wend) (le_n _) (mk_options true false true false) h _ [ILook (N.of_nat (length ls)) HOLE; IMatch] _ start_ no_slots
    ltac:(done) h_wf Logic.I Hp).
  assert (Heq : match_from (fun p => (p =? wend)%nat && acc p) start_ =
    reference set_at look_sem wend (nslots pr - 2) acc (mk_options true false true false) h (Some (nslots pr - 1)%N)
      [ILook (N.of_nat (length ls)) HOLE; IMatch] start_ no_slots); [|rewrite Heq; exact Hs].
  unfold match_from, reference. cbn [headed o_saves o_guards].
  eapply (hmatch_agree _ _ _ _ _ look_sem look_sem); [done|exact h_in|]. intros p s. unfold accepting. cbn [tail_ok].
  rewrite look_sem_end by (rewrite Nat2N.id; apply lookup_ge_None_2; lia). by rewrite andb_true_r.
Qed.
End pike.

(** *** The backtracker *)

Section backtrack.
Variables (s : nat) (b : Backtracker) (o : O).
Hypothesis b_ok : table_ok b.
Hypothesis o_ok : oinv o.

(** Reading less of the text than the window, where a match ends at the
    limit: the same answer. *)
Lemma upto_match e acc s' : e <= wend -> s' <= e -> e = wend \/ (forall p, e < p -> acc p = false) ->
  hmatch (Machine.set_at pr t e) look_sem wend (nslots pr - 2) true false h
    (fun p sl => if acc p then Some (sl, p) else None) s' (save (nslots pr - 2) (nslots pr - 1) s' no_slots)
  = match_from acc s'.
Proof.
  intros He Hs Hacc. symmetry. unfold match_from.
  assert (Hsame : forall c p, p < e -> set_at c p = Machine.set_at pr t e c p).
  { intros c p Hp. unfold Machine.set_at. by rewrite (proj2 (Nat.ltb_lt p wend)), (proj2 (Nat.ltb_lt p e)) by lia. }
  assert (Hq : (if decide (e = wend) then true else false) = true -> forall c p, set_at c p = true -> p < e).
  { case_decide as Hd; [|done]. intros _ c p. rewrite Hd. apply set_at_lim. }
  apply (hmatch_upto set_at (Machine.set_at pr t e) look_sem wend e (nslots pr - 2) true true false He Hsame (set_at_lim pr t e) _ Hq h); [|done..].
  case_decide as Hd; [done|]. intros _ p sl Hp. destruct Hacc as [|Hacc]; [done|]. by rewrite Hacc.
Qed.

Lemma bt_search end_at no_empty :
  s <= limit wend end_at -> (forall e, end_at = Some e -> e <= wend) ->
  Srch (fwd_bt pr) (Machine.set_at pr t (limit wend end_at)) look_sem wend (limit wend end_at) (nslots pr - 2)
    (accepts s end_at no_empty) (start (fwd_bt pr), s) no_slots
    (hmatch (Machine.set_at pr t (limit wend end_at)) look_sem wend (nslots pr - 2) true false h
       (fun p sl => if accepts s end_at no_empty p then Some (sl, p) else None) s (save (nslots pr - 2) (nslots pr - 1) s no_slots)).
Proof.
  intros Hs He. assert (Hb := cp_fwd_bt _ _ _ _ _ comp).
  assert (Hp := built (mk_options true false false true) _ _ _ _ (fwd_bt pr) eq_refl Hb (reflexivity _)).
  assert (Hl : limit wend end_at <= wend) by (unfold limit; lia).
  exact (program_search (fwd_bt pr) _ look_sem wend _ _ _ (set_at_lim pr t _) Hl (mk_options true false false true) h _ [IMatch] _ s no_slots ltac:(done) h_wf Logic.I Hp).
Qed.

(** Within the table's bound, the step bound is far from the counter's
    end. *)
Lemma rows_fit P e : s <= limit wend e -> (max_rows P < Z.of_nat (rows s wend e))%Z -> fits P (limit wend e - s) = false.
Proof. intros Hs Hr. unfold fits. apply Z.ltb_ge. unfold rows in Hr. lia. Qed.

Lemma step_bound_u64 P e :
  (N.of_nat (length (insts P)) <= MAX_INSTS)%N -> s <= limit wend e -> fits P (limit wend e - s) = true ->
  (step_bound P s wend e <= U64_MAX)%Z.
Proof.
  intros Hl Hs Hf. unfold fits in Hf. apply Z.ltb_lt in Hf. unfold step_bound, width_C, node_bound.
  assert (Hr : (Z.of_nat (rows s wend e) <= 262144)%Z).
  { unfold rows. unfold max_rows in Hf. assert (Hd : (MAX_BITS / 64 / Z.of_nat (row_of P) <= 262144)%Z).
    { change (MAX_BITS / 64)%Z with 262144%Z. destruct (decide (row_of P = 0)) as [->|]; [done|].
      apply Z.div_le_upper_bound; [lia|]. nia. }
    lia. }
  unfold MAX_INSTS, U64_MAX in *. rewrite Nat2Z.inj_mul. nia.
Qed.

Lemma limit_none : limit wend None = wend.
Proof. unfold limit. simpl. lia. Qed.

(** The anchored search: the match from [s], or out of steps. *)
Lemma bt_anchored no_empty budget spent0 : s <= wend -> (0 <= budget)%Z ->
  match Backtrack.anchored pr (fwd_bt pr) t s wend no_empty budget b o spent0 with
  | (Ok a, st) => a = match_from (fun p => negb (no_empty && (p =? s)%nat)) s /\
      table_ok (bt st) /\ oinv (oracle st) /\ spent st = (spent0 + steps st)%Z /\ (steps st <= budget)%Z
  | (Err e, st) => e = OutOfSteps /\ table_ok (bt st) /\ oinv (oracle st) /\ spent st = (spent0 + steps st)%Z /\
      ((budget < steps st)%Z \/ fits (fwd_bt pr) (wend - s) = false)
  end.
Proof.
  intros Hs Hbu. unfold Backtrack.anchored. assert (Hlim := limit_none).
  assert (Hw := cp_fwd_bt_wf _ _ _ _ _ comp h_in).
  assert (Hk := dfs_ok pr (fwd_bt pr) t s wend None no_empty budget look_sem oinv Hw text_end ltac:(by rewrite Hlim) spent0 b o _
    b_ok o_ok Hbu (bt_search None no_empty ltac:(by rewrite Hlim) ltac:(done))).
  unfold wp in Hk. destruct (dfs _ _ _ _ _ _ _ _ _ _ _) as [[a|e] st].
  - destruct Hk as (-> & (K1 & K2 & K3 & K4) & Hst). split; [|done]. rewrite Hlim. apply upto_match; [done..|by left].
  - destruct Hk as (-> & (K1 & K2 & K3 & K4) & Hst). do 4 (split; [done|]). destruct Hst as [|Hr]; [by left|right].
    rewrite <- Hlim at 1. apply rows_fit; [by rewrite Hlim|done].
Qed.

(** With a budget of the step bound, on a span that fits, it answers. *)
Lemma bt_answers no_empty budget spent0 : s <= wend -> fits (fwd_bt pr) (wend - s) = true ->
  (step_bound (fwd_bt pr) s wend None <= budget)%Z ->
  let (r, st) := Backtrack.anchored pr (fwd_bt pr) t s wend no_empty budget b o spent0 in
  r = Ok (match_from (fun p => negb (no_empty && (p =? s)%nat)) s) /\ (0 <= steps st <= step_bound (fwd_bt pr) s wend None)%Z.
Proof.
  intros Hs Hfit Hbu. assert (H0b : (0 <= step_bound (fwd_bt pr) s wend None)%Z) by (unfold step_bound, width_C; lia).
  assert (Ha := bt_anchored no_empty budget spent0 Hs ltac:(lia)).
  assert (Hlim := limit_none). assert (Hw := cp_fwd_bt_wf _ _ _ _ _ comp h_in). unfold Backtrack.anchored in *.
  assert (Hk := dfs_ok pr (fwd_bt pr) t s wend None no_empty budget look_sem oinv Hw text_end ltac:(by rewrite Hlim) spent0 b o _
    b_ok o_ok ltac:(lia) (bt_search None no_empty ltac:(by rewrite Hlim) ltac:(done))).
  unfold wp in Hk. destruct (dfs _ _ _ _ _ _ _ _ _ _ _) as [[a|e] st].
  - destruct Hk as (_ & (_ & _ & _ & K4) & _), Ha as (-> & _). done.
  - destruct Hk as (_ & (_ & _ & _ & K4) & _), Ha as (_ & _ & _ & _ & [Hst|Hf]); [lia|congruence].
Qed.

(** The groups of the match that ends at [e]: never out of steps on a span
    that fits. *)
Lemma bt_groups e : s <= e -> e <= wend -> fits (fwd_bt pr) (e - s) = true ->
  let (r, st) := Backtrack.groups pr (fwd_bt pr) t s e wend b o in
  r = fst <$> match_from (fun p => (p =? e)%nat) s /\ table_ok (bt st) /\ oinv (oracle st).
Proof.
  intros Hs He Hfit. unfold Backtrack.groups.
  assert (Hlim : limit wend (Some e) = e) by (unfold limit; simpl; lia).
  assert (Hw := cp_fwd_bt_wf _ _ _ _ _ comp h_in).
  assert (Hk := dfs_ok pr (fwd_bt pr) t s wend (Some e) false U64_MAX look_sem oinv Hw text_end ltac:(by rewrite Hlim) 0 b o _
    b_ok o_ok ltac:(done) (bt_search (Some e) false ltac:(by rewrite Hlim) ltac:(by intros ? [= <-]))).
  unfold wp in Hk. destruct (dfs _ _ _ _ _ _ _ _ _ _ _) as [[a|x] st].
  - destruct Hk as (-> & (K1 & K2 & K3 & K4) & _). split; [|done]. rewrite Hlim.
    rewrite upto_match; [|done..|right; intros p Hp; simpl; apply Nat.eqb_neq; lia].
    change (accepts s (Some e) false) with (fun p => (p =? e)%nat). by destruct (match_from _ s) as [[sl p]|].
  - destruct Hk as (-> & (K1 & K2 & K3 & K4) & Hst).
    assert (Hb := step_bound_u64 (fwd_bt pr) (Some e) (build_with_length _ _ _ _ _ _ (cp_fwd_bt _ _ _ _ _ comp)) ltac:(by rewrite Hlim)
      ltac:(by rewrite Hlim)).
    destruct Hst as [Hst|Hst]; [lia|]. apply rows_fit in Hst; [|by rewrite Hlim]. rewrite Hlim in Hst. congruence.
Qed.
End backtrack.
End linre.

(** ** The end first, the groups after *)

(** What asking for an end changes: an answer with that end stays (and is
    one that [ok] allows). *)
Definition narrows (ok : Prop) (e : nat) (a a' : answer) : Prop :=
  (a = None -> a' = None) /\ forall sl, a = Some (sl, e) -> a' = a /\ ok.

Section narrows.
Context (ok : Prop) (set_at look_at : N -> nat -> bool) (wend e : nat) (ls : N) (saves guards : bool).
Abbreviation cont := (nat -> slots -> answer).
Abbreviation hm := (hmatch set_at look_at wend ls saves guards).

Definition keeps_end (f : cont -> cont) : Prop := forall k k', (forall p s, narrows ok e (k p s) (k' p s)) ->
  forall p s, narrows ok e (f k p s) (f k' p s).

Lemma narrows_none : narrows ok e None None.
Proof. done. Qed.

Lemma narrows_or a a' b b' : narrows ok e a a' -> narrows ok e b b' -> narrows ok e (opt_or a b) (opt_or a' b').
Proof.
  intros [A1 A2] [B1 B2]. destruct a as [x|]; simpl; [|by rewrite (A1 eq_refl)].
  split; [done|]. intros sl Hx. by destruct (A2 sl Hx) as [-> ?].
Qed.

Lemma narrows_prefer gr a a' b b' : narrows ok e a a' -> narrows ok e b b' -> narrows ok e (prefer gr a b) (prefer gr a' b').
Proof. intros Ha Hb. destruct gr; by apply narrows_or. Qed.

Lemma seq_all_end fs : Forall keeps_end fs -> keeps_end (seq_all fs).
Proof. intros H. induction H as [|f fs Hf _ IH]; intros k k' Hk; [done|]. simpl. apply Hf. by apply IH. Qed.

Lemma exactly_end f n : keeps_end f -> keeps_end (exactly f n).
Proof. intros Hf. induction n as [|n IH]; intros k k' Hk; [done|]. simpl. apply Hf. by apply IH. Qed.

Lemma at_most_end f gr n : keeps_end f -> keeps_end (at_most f gr n).
Proof.
  intros Hf. induction n as [|n IH]; intros k k' Hk; [done|]. cbn [at_most]. intros p s.
  apply narrows_prefer; [|apply Hk]. apply Hf. by apply IH.
Qed.

Lemma any_number_end f gr n : keeps_end f -> keeps_end (any_number f gr n).
Proof.
  intros Hf. induction n as [|n IH]; intros k k' Hk p s; [done|]. cbn [any_number].
  apply narrows_prefer; [|apply Hk]. apply Hf. by apply IH.
Qed.

Lemma hmatch_end h : keeps_end (hm h).
Proof.
  induction h as [|c|l|g b IH|v IH|v IH|mn mx gr si b IH] using hir_ind'; intros k k' Hk p s; cbn [hmatch].
  - apply Hk.
  - destruct (set_at c p); [apply Hk|apply narrows_none].
  - destruct (look_at l p); [apply Hk|apply narrows_none].
  - destruct saves; by apply IH.
  - apply seq_all_end; [|done]. induction IH; by constructor.
  - destruct v as [|x v]; [apply Hk|]. induction IH as [|y w Hy _ IHw]; [apply narrows_none|].
    cbn [List.map alt_all foldr]. apply narrows_or; [by apply Hy|done].
  - destruct (si && guards && negb (p <=? wend)%nat); [apply narrows_none|]. apply exactly_end; [done|].
    intros q s'. destruct mx as [m|]; [by apply at_most_end|by apply any_number_end].
Qed.
End narrows.

(** The match from [s], asked again with its end. *)
Lemma match_from_end `{UnicodeTables} h ls pr t wend acc s sl e :
  match_from h ls pr t wend acc s = Some (sl, e) ->
  match_from h ls pr t wend (fun p => (p =? e)%nat) s = Some (sl, e).
Proof.
  unfold match_from. intros Hm.
  match type of Hm with hmatch ?sa ?la ?w ?l0 ?sv ?gd _ ?k ?p ?s0 = _ =>
    set (k0 := k) in *; assert (Hk := fun ok k' Hk' => hmatch_end ok sa la w e l0 sv gd h k0 k' Hk' p s0) end.
  assert (He : acc e = true).
  { destruct (Hk (acc e = true) k0) as [_ Heq]; [|by apply (Heq sl)]. intros p s'. unfold k0.
    destruct (acc p) eqn:Ha; [|done]. split; [done|]. by intros sl' [= _ ->]. }
  destruct (Hk True (fun p sl => if (p =? e)%nat then Some (sl, p) else None)) as [_ Heq].
  - intros p s'. unfold k0. destruct (Nat.eqb_spec p e) as [->|Hne]; [by rewrite He|].
    destruct (acc p); [|done]. split; [done|]. by intros sl' [= _ ->].
  - rewrite <- Hm. by apply (Heq sl).
Qed.

(** ** The properties of the engine *)

(** What lowering ([linre/hir.rs]) promises of its output. *)
Record lowered (h : Hir) (ss : list CharSet) (ls : list Look) (ng : N) : Prop := mk_lowered {
  lw_wf : hir_wf h;
  lw_in : hir_in (length ss) (length ls) ng h;
  lw_looks : looks_wf (length ss) ng ls;
  lw_sets : canonical_sets ss;
}.

(** A text of code points, and a window of it. *)
Record readable (t : text) (wend : nat) : Prop := mk_readable {
  rd_end : wend <= length t;
  rd_chars : Forall (fun c => 0 <= c <= MAX)%Z t;
}.

(** The engine's own oracle, at a text. *)
Definition oracle_inv `{UnicodeTables} ls pr addr t wend (o : Oracle) : Prop := exists g, oracle_at ls pr addr t wend g 0 0 o.

Lemma oracle_inv_laws `{UnicodeTables} h ss ls ng pr addr t wend :
  compile h ss ls ng = Ok pr -> lowered h ss ls ng -> readable t wend ->
  @OracleLaws Oracle (oracle_lookup addr) pr t wend (look_sem pr ls t wend) (oracle_inv ls pr addr t wend).
Proof.
  intros Hc Hl Hr l p o Hlo (g & Ho). apply compile_spec in Hc.
  assert (Hs : canonical_sets (sets pr)).
  { destruct (cp_sets _ _ _ _ _ Hc) as (extra & -> & He). apply Forall_app. split; [apply Hl|done]. }
  assert (Ht : Forall (fun c => 0 <= c)%Z t) by (eapply Forall_impl; [apply Hr|simpl; lia]).
  destruct (oracle_laws h ss ls ng pr addr t wend g Hc (lw_looks _ _ _ _ Hl) (rd_end _ _ Hr) Ht Hs l p o Hlo Ho) as (o' & H1 & H2).
  exists o'. split; [done|by exists g].
Qed.

(** The oracle as a search of a new text starts. *)
Lemma oracle_inv_begin `{UnicodeTables} ls pr addr t wend o :
  oracle_idle o -> (gen o < U64_MAX)%Z -> oracle_inv ls pr addr t wend (begin addr t wend false o).
Proof. intros Ho Hg. exists (gen o + 1)%Z. by apply begin_ok. Qed.

Lemma new_cache_ok {O} (oinv : O -> Prop) o : oinv o -> cache_ok oinv (new_cache o).
Proof. intros Ho. by split. Qed.

Section properties.
Context `{UnicodeTables}.
Variables (h : Hir) (ss : list CharSet) (ls : list Look) (ng : N) (pr : Programs) (addr : Z) (t : text) (wend : nat).

Abbreviation inv := (oracle_inv ls pr addr t wend).
Abbreviation pike := (@search Oracle (oracle_lookup addr) pr).

(** C1: the Pike simulation of a compiled pattern's forward program, without
    an anchor, answers the leftmost match of the pattern, and of those the
    one a backtracking matcher finds first, with its groups: whatever
    lookarounds the pattern has, and whatever the caches remember. *)
Theorem pike_unanchored start_ want c :
  compile h ss ls ng = Ok pr -> lowered h ss ls ng -> readable t wend ->
  Pike.anchored want = false -> cache_ok inv c ->
  exists c', pike (fwd pr) t start_ wend want c = (Ok (leftmost_from h ls pr t wend (accepted start_ want) start_), c') /\ cache_ok inv c'.
Proof.
  intros Hc Hl Hr Ha Hk. assert (Hlaws := oracle_inv_laws h ss ls ng pr addr t wend Hc Hl Hr). apply compile_spec in Hc.
  destruct Hl, Hr. by eapply pike_fwd_unanchored.
Qed.

(** C2: the same, anchored at [start_]; and the full program's match is the
    first that ends at the window's end. *)
Theorem pike_anchored start_ want c :
  compile h ss ls ng = Ok pr -> lowered h ss ls ng -> readable t wend ->
  Pike.anchored want = true -> cache_ok inv c ->
  (exists c', pike (fwd pr) t start_ wend want c = (Ok (match_from h ls pr t wend (accepted start_ want) start_), c') /\ cache_ok inv c') /\
  exists c', pike (full pr) t start_ wend want c =
    (Ok (match_from h ls pr t wend (fun p => (p =? wend)%nat && accepted start_ want p) start_), c') /\ cache_ok inv c'.
Proof.
  intros Hc Hl Hr Ha Hk. assert (Hlaws := oracle_inv_laws h ss ls ng pr addr t wend Hc Hl Hr). apply compile_spec in Hc.
  destruct Hl, Hr. split; [by eapply pike_fwd_anchored|by eapply pike_full_anchored].
Qed.

(** C3: the bounded backtracker answers the same match from [s], or stops
    out of steps, which takes more steps than its budget or a span that does
    not fit its table; it never faults.  On a span that fits, a budget of
    [(2 * rows + 4) * (instructions * rows) + 1] steps, for the [rows]
    positions from [s] to the window's end, is always enough: it answers, and
    has taken no more. *)
Theorem backtrack_anchored s b o no_empty budget spent0 :
  compile h ss ls ng = Ok pr -> lowered h ss ls ng -> readable t wend ->
  table_ok b -> inv o -> s <= wend -> (0 <= budget)%Z ->
  let rows := (Z.of_nat (wend - s) + 1)%Z in
  let bound := ((2 * rows + 4) * (Z.of_nat (length (insts (fwd_bt pr))) * rows) + 1)%Z in
  let answer := match_from h ls pr t wend (fun p => negb (no_empty && (p =? s)%nat)) s in
  let (r, st) := @Backtrack.anchored Oracle (oracle_lookup addr) pr (fwd_bt pr) t s wend no_empty budget b o spent0 in
  table_ok (bt st) /\ inv (oracle st) /\ spent st = (spent0 + steps st)%Z /\
  match r with
  | Ok a => a = answer /\ (steps st <= budget)%Z
  | Err e => e = OutOfSteps /\ ((budget < steps st)%Z \/ fits (fwd_bt pr) (wend - s) = false)
  end /\
  (fits (fwd_bt pr) (wend - s) = true -> (bound <= budget)%Z -> r = Ok answer /\ (0 <= steps st <= bound)%Z).
Proof.
  intros Hc Hl Hr Hb Ho Hs Hbu rows bound answer. assert (Hlaws := oracle_inv_laws h ss ls ng pr addr t wend Hc Hl Hr). apply compile_spec in Hc.
  assert (Heq : bound = step_bound (fwd_bt pr) s wend None).
  { unfold bound, rows, step_bound, width_C, node_bound, Backtrack.rows, limit. cbn [default from_option].
    rewrite Nat.min_id, Nat2Z.inj_mul, Nat2Z.inj_add. change (Z.of_nat 1) with 1%Z. ring. }
  destruct Hl, Hr.
  assert (H1 : match @Backtrack.anchored Oracle (oracle_lookup addr) pr (fwd_bt pr) t s wend no_empty budget b o spent0 with
    | (Ok a, st) => a = answer /\ table_ok (bt st) /\ inv (oracle st) /\ spent st = (spent0 + steps st)%Z /\ (steps st <= budget)%Z
    | (Err e, st) => e = OutOfSteps /\ table_ok (bt st) /\ inv (oracle st) /\ spent st = (spent0 + steps st)%Z /\ ((budget < steps st)%Z \/ fits (fwd_bt pr) (wend - s) = false)
    end) by (by eapply bt_anchored).
  assert (H2 : fits (fwd_bt pr) (wend - s) = true -> (bound <= budget)%Z ->
    let (r, st) := @Backtrack.anchored Oracle (oracle_lookup addr) pr (fwd_bt pr) t s wend no_empty budget b o spent0 in r = Ok answer /\ (0 <= steps st <= bound)%Z)
    by (intros Hf Hle; rewrite Heq in *; by eapply bt_answers).
  destruct (Backtrack.anchored _ _ _ _ _ _ _ _ _ _) as [[a|e] st]; naive_solver.
Qed.

(** C4: once a match's start and end are known (from the Pike simulation, or
    another search), the backtracker finds that match's groups, within a
    span that fits: the two engines agree on every group. *)
Theorem backtrack_groups s e sl acc b o :
  compile h ss ls ng = Ok pr -> lowered h ss ls ng -> readable t wend ->
  table_ok b -> inv o -> s <= e -> e <= wend -> fits (fwd_bt pr) (e - s) = true ->
  match_from h ls pr t wend acc s = Some (sl, e) ->
  fst (@Backtrack.groups Oracle (oracle_lookup addr) pr (fwd_bt pr) t s e wend b o) = Some sl.
Proof.
  intros Hc Hl Hr Hb Ho Hs He Hf Hm. assert (Hlaws := oracle_inv_laws h ss ls ng pr addr t wend Hc Hl Hr). apply compile_spec in Hc.
  destruct Hl, Hr. assert (Hg := bt_groups (H0 := oracle_lookup addr) h ss ls ng pr t wend inv Hc ltac:(done) ltac:(done) ltac:(done) s b o Hb Ho e Hs He Hf).
  destruct (@Backtrack.groups _ _ _ _ _ _ _ _ _ _) as [r st]. destruct Hg as (-> & _). by rewrite (match_from_end _ _ _ _ _ _ _ _ _ Hm).
Qed.

(** C5: every zero-width test is decided as it should be, whatever the oracle
    remembers of the text: by a simple rule, by fixed sequences, by walking
    its program, by the memoized walk or the sweep.  A test of a position or
    of one character holds where Python's [re] says it does ([test_means]); a
    lookaround, where the reference search of its pattern succeeds with its own
    tests so decided (a lookbehind from its width back, up to there), or does
    not if it is negated; the test after the pattern's own, at the window's
    end. *)
Theorem holds_answers l p o :
  compile h ss ls ng = Ok pr -> lowered h ss ls ng -> readable t wend ->
  N.to_nat l < length (looks pr) -> inv o ->
  exists b o', holds pr addr l t p wend o = Ok (b, o') /\ inv o' /\ b = look_sem pr ls t wend l p /\
    match ls !! N.to_nat l with
    | None => b = true <-> p = wend
    | Some (LAround behind negate body lo hi) =>
        let q := if behind then p - N.to_nat lo else p in
        b = if behind && (p <? N.to_nat lo)%nat then negate
            else xorb (found (hmatch (set_at pr t wend) (look_sem pr ls t wend) wend 0 false true body (ending (if behind then Some p else None)) q [])) negate
    | Some d => b = true <-> test_means pr t wend d p
    end.
Proof.
  intros Hc Hl Hr Hlo (g & Ho). apply compile_spec in Hc.
  assert (Hs : canonical_sets (sets pr)).
  { destruct (cp_sets _ _ _ _ _ Hc) as (extra & -> & He). apply Forall_app. split; [apply Hl|done]. }
  assert (Ht : Forall (fun c => 0 <= c)%Z t) by (eapply Forall_impl; [apply Hr|simpl; lia]).
  destruct (holds_ok h ss ls ng pr addr t wend Hc (lw_looks _ _ _ _ Hl) (rd_end _ _ Hr) Ht Hs g l p o Hlo Ho) as (o' & H1 & H2).
  exists (look_sem pr ls t wend l p), o'. split; [done|]. split; [by exists g|]. split; [done|]. destruct (ls !! N.to_nat l) as [d|] eqn:Hd; [|rewrite look_sem_end by done; apply Nat.eqb_eq].
  assert (Hsimple : (forall b n body lo hi, d <> LAround b n body lo hi) -> look_sem pr ls t wend l p = true <-> test_means pr t wend d p)
    by (intros Hn; rewrite (look_sem_simple pr ls t wend l p d Hd Hn); apply bool_decide_eq_true).
  destruct d; try (by apply Hsimple). exact (look_sem_around pr ls t wend _ _ (lw_looks _ _ _ _ Hl) l p behind negate body lo hi Hd).
Qed.

(** A search of a new text begins with an oracle that claims nothing of
    it, whatever texts it has served. *)
Theorem begin_forgets o :
  oracle_idle o -> (gen o < U64_MAX)%Z ->
  inv (begin addr t wend false o) /\ oracle_idle (begin addr t wend false o).
Proof.
  intros Ho Hg. split; [by apply oracle_inv_begin|].
  eapply oracle_at_idle; [by apply (begin_ok ls pr)|]. unfold U64_MAX in *. lia.
Qed.

(** C6: every program [compile] makes names only instructions, sets, tests
    and slots that are there, is within the size limit, and only the
    backtracker's have [Run] instructions. *)
Theorem compile_wf :
  compile h ss ls ng = Ok pr -> lowered h ss ls ng ->
  (forall P, P = fwd pr \/ P = full pr \/ P = rev_prog pr \/ P = fwd_bt pr \/ P = full_bt pr \/ P ∈ subs pr ->
     prog_wf pr P = true /\ (N.of_nat (length (insts P)) <= MAX_INSTS)%N) /\
  (forall P, P = fwd pr \/ P = full pr \/ P = rev_prog pr \/ P ∈ subs pr -> forall pc s mn mx g x, inst_at P pc <> Some (IRun s mn mx g x)).
Proof.
  intros Hc Hl. apply compile_spec in Hc as Hcomp. destruct Hl as [L1 L2 L3 L4].
  assert (Hsub : forall P, P ∈ subs pr -> prog_wf pr P = true /\ (N.of_nat (length (insts P)) <= MAX_INSTS)%N /\
    forall pc s mn mx g x, inst_at P pc <> Some (IRun s mn mx g x)).
  { intros P HP. apply list_elem_of_lookup in HP as [k Hk]. destruct (cp_subs _ _ _ _ _ Hcomp _ _ Hk) as (body & (b & n & lo & hi & Hin) & Hb).
    apply list_elem_of_lookup in Hin as [i Hi]. destruct (cp_sub_wf _ _ _ _ _ Hcomp L3 _ _ _ _ _ _ _ Hi Hb) as (W1 & W2 & _).
    split; [done|]. split; [by eapply build_with_length|done]. }
  assert (Hfl : (N.of_nat (length (insts (fwd pr))) <= MAX_INSTS)%N).
  { destruct (cp_fwd _ _ _ _ _ Hcomp) as (fwd0 & _ & Ha). unfold add_unanchored in Ha.
    destruct (MAX_INSTS <? N.of_nat (length (insts fwd0)) + 2)%N eqn:Hlt; [done|]. injection Ha as <-. cbn [insts].
    rewrite length_app. cbn [length]. rewrite N.ltb_ge in Hlt. lia. }
  split.
  - intros P [->|[->|[->|[->|[->|HP]]]]].
    + split; [by eapply cp_fwd_bwf|done].
    + split; [by eapply cp_full_wf|eapply build_with_length, (cp_full _ _ _ _ _ Hcomp)].
    + split; [by eapply cp_rev_bwf|eapply build_with_length, (cp_rev _ _ _ _ _ Hcomp)].
    + split; [by eapply cp_fwd_bt_wf|eapply build_with_length, (cp_fwd_bt _ _ _ _ _ Hcomp)].
    + split; [by eapply cp_full_bt_wf|eapply build_with_length, (cp_full_bt _ _ _ _ _ Hcomp)].
    + by destruct (Hsub P HP) as (W1 & W2 & _).
  - intros P [->|[->|[->|HP]]]; [by eapply cp_fwd_no_runs|by eapply cp_full_no_runs|by eapply cp_rev_no_runs|by apply Hsub].
Qed.
End properties.

(** ** The properties at a pattern *)

(** [(?:a|ab)(c)(?=d)] in the text [xabcd]. *)
Module Sample.
#[local] Instance no_alnum : UnicodeTables := fun _ => false.

Definition sample_sets : list CharSet := [one 97; one 98; one 99; one 100].
Definition sample_looks : list Look := [LAround false false (HChar 3) 1 1].
Definition sample_hir : Hir :=
  HConcat [HAlt [HChar 0; HConcat [HChar 0; HChar 1]]; HGroup 1 (HChar 2); HLook 0].
Definition sample_programs : Programs :=
  Eval vm_compute in
  match compile sample_hir sample_sets sample_looks 1 with
  | Ok p => p
  | Err _ => mk_programs [] [] (mk_prog [] 0 0) (mk_prog [] 0 0) (mk_prog [] 0 0) (mk_prog [] 0 0) (mk_prog [] 0 0) [] 0 0
  end.
Definition sample_text : text := [120; 97; 98; 99; 100]%Z.
Definition sample_oracle : Oracle := begin 0 sample_text 5 false new_oracle.

Lemma sample_compiled : compile sample_hir sample_sets sample_looks 1 = Ok sample_programs.
Proof. vm_compute. reflexivity. Qed.

Lemma sample_lowered : lowered sample_hir sample_sets sample_looks 1.
Proof.
  split.
  - simpl. repeat split; lia.
  - simpl. repeat split; try lia; done.
  - intros [|i] l; [|done]. intros [= <-]. simpl. repeat split; try lia; done.
  - repeat constructor; apply canonical_one; unfold MAX, U32_MAX; lia.
Qed.

Lemma sample_readable : readable sample_text 5.
Proof. split; [simpl; lia|]. repeat constructor; unfold MAX, U32_MAX; lia. Qed.

Lemma sample_oracle_ok : oracle_inv sample_looks sample_programs 0 sample_text 5 sample_oracle.
Proof. apply oracle_inv_begin; [apply new_oracle_idle|done]. Qed.

Lemma sample_cache_ok : cache_ok (oracle_inv sample_looks sample_programs 0 sample_text 5) (new_cache sample_oracle).
Proof. apply new_cache_ok, sample_oracle_ok. Qed.

Lemma sample_table_ok : table_ok new_backtracker.
Proof. split; [done|]. intros i _. done. Qed.

Abbreviation sample_pike := (@search Oracle (oracle_lookup 0) sample_programs).

(** The match is [abc], at 1: the second branch, since [ac] does not follow. *)
Lemma pike_unanchored_witness :
  fst (sample_pike (fwd sample_programs) sample_text 0 5 (mk_want false false None) (new_cache sample_oracle))
  = Ok (Some ([3; 4; 1; 1]%Z, 4)).
Proof.
  destruct (pike_unanchored sample_hir sample_sets sample_looks 1 sample_programs 0 sample_text 5 0 (mk_want false false None) (new_cache sample_oracle)
    sample_compiled sample_lowered sample_readable eq_refl sample_cache_ok) as (c' & -> & _).
  vm_compute. reflexivity.
Defined.

Lemma pike_anchored_witness :
  fst (sample_pike (fwd sample_programs) sample_text 1 5 (mk_want true false None) (new_cache sample_oracle))
  = Ok (Some ([3; 4; 1; 1]%Z, 4)) /\
  fst (sample_pike (full sample_programs) sample_text 1 5 (mk_want true false None) (new_cache sample_oracle)) = Ok None.
Proof.
  destruct (pike_anchored sample_hir sample_sets sample_looks 1 sample_programs 0 sample_text 5 1 (mk_want true false None) (new_cache sample_oracle)
    sample_compiled sample_lowered sample_readable eq_refl sample_cache_ok) as [(c' & -> & _) (c'' & -> & _)].
  split; vm_compute; reflexivity.
Defined.

Lemma backtrack_anchored_witness :
  fst (@Backtrack.anchored Oracle (oracle_lookup 0) sample_programs (fwd_bt sample_programs) sample_text 1 5 false 2000 new_backtracker sample_oracle 0)
  = Ok (Some ([3; 4; 1; 1]%Z, 4)).
Proof.
  assert (Hk := backtrack_anchored sample_hir sample_sets sample_looks 1 sample_programs 0 sample_text 5 1 new_backtracker sample_oracle false 2000 0
    sample_compiled sample_lowered sample_readable sample_table_ok sample_oracle_ok ltac:(lia) ltac:(lia)).
  cbv zeta in Hk. destruct (Backtrack.anchored _ _ _ _ _ _ _ _ _ _) as [r st]. destruct Hk as (_ & _ & _ & _ & Hk). destruct Hk as [-> _]; [reflexivity|vm_compute; discriminate|]. vm_compute. reflexivity.
Defined.

Lemma backtrack_groups_witness :
  fst (@Backtrack.groups Oracle (oracle_lookup 0) sample_programs (fwd_bt sample_programs) sample_text 1 4 5 new_backtracker sample_oracle)
  = Some [3; 4; 1; 1]%Z.
Proof.
  apply (backtrack_groups sample_hir sample_sets sample_looks 1 sample_programs 0 sample_text 5 1 4 _ (fun _ => true) new_backtracker sample_oracle
    sample_compiled sample_lowered sample_readable sample_table_ok sample_oracle_ok); [lia|lia|reflexivity|vm_compute; reflexivity].
Defined.

Lemma holds_answers_witness :
  exists o', holds sample_programs 0 0 sample_text 4 5 sample_oracle = Ok (true, o') /\
    oracle_inv sample_looks sample_programs 0 sample_text 5 o'.
Proof.
  destruct (holds_answers sample_hir sample_sets sample_looks 1 sample_programs 0 sample_text 5 0 4 sample_oracle
    sample_compiled sample_lowered sample_readable ltac:(simpl; lia) sample_oracle_ok) as (b & o' & Hh & Ho & Hb & _).
  exists o'. split; [|exact Ho]. rewrite Hh, Hb. reflexivity.
Defined.

Lemma begin_forgets_witness : oracle_idle (begin 0 sample_text 5 false new_oracle).
Proof. apply (begin_forgets sample_looks sample_programs 0 sample_text 5 new_oracle new_oracle_idle). reflexivity. Defined.

Lemma compile_wf_witness : prog_wf sample_programs (fwd_bt sample_programs) = true.
Proof.
  apply (compile_wf sample_hir sample_sets sample_looks 1 sample_programs sample_compiled sample_lowered). right; right; right; by left.
Defined.
End Sample.
