(* ===== verification/Slice.v ===== *)
(** Slices of vectors and machine words, as the QUIC code uses them.

    The length of a slice is a number ([len]), [l[a..b]] is [slice] (with
    [None] where the code panics), and [u64] is the wrap-around of 64-bit
    arithmetic in a release build. *)

From Stdlib Require Import ZArith Lia.
From stdpp Require Import base option numbers list_numbers list.
From S2P Require Import Prelude.

#[local] Open Scope Z_scope.

(** ** Machine words *)

(** The low 64 bits: what an operation of [u64] that overflows gives. *)
Definition u64 (x : Z) : Z := x mod (U64_MAX + 1).

Lemma u64_small x : 0 <= x <= U64_MAX -> u64 x = x.
Proof. intros H. unfold u64. apply Z.mod_small. lia. Qed.

Lemma u64_range x : 0 <= u64 x <= U64_MAX.
Proof. unfold u64. assert (H := Z.mod_pos_bound x (U64_MAX + 1)). unfold U64_MAX in *. lia. Qed.

(** [u64::from(b)]. *)
Definition b2z (b : bool) : Z := if b then 1 else 0.

Lemma b2z_range b : 0 <= b2z b <= 1.
Proof. destruct b; simpl; lia. Qed.

(** [a.saturating_sub(b)]. *)
Definition sat_sub (a b : Z) : Z := Z.max 0 (a - b).

(** The computation gives a value. *)
Definition is_Ok {E A} (m : result E A) : Prop := match m with Ok _ => True | Err _ => False end.

(** ** Slices *)

Definition len {A} (l : list A) : Z := Z.of_nat (length l).

(** [l[a..b]]: [None] out of range. *)
Definition slice {A} (a b : Z) (l : list A) : option (list A) :=
  if (0 <=? a) && (a <=? b) && (b <=? len l)
  then Some (take (Z.to_nat (b - a)) (drop (Z.to_nat a) l)) else None.

Lemma len_nonneg {A} (l : list A) : 0 <= len l.
Proof. unfold len. lia. Qed.

Lemma len_app {A} (l l' : list A) : len (l ++ l') = len l + len l'.
Proof. unfold len. rewrite length_app. lia. Qed.

Lemma len_nil {A} (l : list A) : len l = 0 <-> l = [].
Proof. unfold len. destruct l; simpl; split; (done || lia). Qed.

Lemma len_pos {A} (l : list A) : l <> [] -> 0 < len l.
Proof. destruct l; [done|]. intros _. unfold len. simpl. lia. Qed.

Lemma lookup_len {A} (l : list A) (i : Z) : 0 <= i -> is_Some (l !! Z.to_nat i) <-> i < len l.
Proof. intros Hi. unfold len. split; [intros H%lookup_lt_is_Some_1; lia|intros H; apply lookup_lt_is_Some_2; lia]. Qed.

Lemma lookup_app_Z {A} (l1 l2 : list A) (i : Z) : 0 <= i ->
  (l1 ++ l2) !! Z.to_nat i = if decide (i < len l1) then l1 !! Z.to_nat i else l2 !! Z.to_nat (i - len l1).
Proof.
  intros Hi. unfold len. case_decide; [by rewrite lookup_app_l by lia|]. rewrite lookup_app_r by lia. f_equal. lia.
Qed.

Lemma len_drop {A} (l : list A) n : 0 <= n <= len l -> len (drop (Z.to_nat n) l) = len l - n.
Proof. unfold len. rewrite length_drop. lia. Qed.

Lemma slice_some {A} a b (l : list A) : 0 <= a <= b -> b <= len l ->
  exists s, slice a b l = Some s /\ len s = b - a /\ forall i, 0 <= i < b - a -> s !! Z.to_nat i = l !! Z.to_nat (a + i).
Proof.
  intros Hab Hb. unfold slice. rewrite !(proj2 (Z.leb_le _ _)) by lia. cbn [andb]. eexists. split; [reflexivity|]. split.
  - unfold len in *. rewrite length_take, length_drop. lia.
  - intros i Hi. rewrite lookup_take_lt by lia. rewrite lookup_drop. f_equal. lia.
Qed.

Lemma slice_end {A} a (l : list A) : 0 <= a <= len l -> slice a (len l) l = Some (drop (Z.to_nat a) l).
Proof.
  intros Ha. unfold slice. rewrite !(proj2 (Z.leb_le _ _)) by lia. cbn [andb]. rewrite take_ge; [done|].
  unfold len in *. rewrite length_drop. lia.
Qed.

(** Two slices of the same length that differ differ somewhere. *)
Lemma list_differ (l l' : list Z) : length l = length l' -> l <> l' -> exists i b b', l !! i = Some b /\ l' !! i = Some b' /\ b <> b'.
Proof.
  revert l'. induction l as [|x l IH]; intros [|y l'] Hl Hne; try done. destruct (Z.eq_dec x y) as [->|Hxy].
  - destruct (IH l') as (i & b & b' & H1 & H2 & H3); [by injection Hl|by intros ->|]. by exists (S i), b, b'.
  - by exists 0%nat, x, y.
Qed.

Lemma slice_eq {A} a b (l : list A) : 0 <= a <= b -> b <= len l -> slice a b l = Some (take (Z.to_nat (b - a)) (drop (Z.to_nat a) l)).
Proof. intros Hab Hb. unfold slice. by rewrite !(proj2 (Z.leb_le _ _)) by lia. Qed.

(** ** Sums and counts over lists *)

Lemma filter_none {A} (P : A -> bool) l : (forall x, x ∈ l -> P x = false) -> List.filter P l = [].
Proof. induction l as [|x l IH]; intros H; [done|]. cbn [List.filter]. rewrite (H x) by left. apply IH. intros y Hy. apply H. by right. Qed.

Lemma filter_split {A} (P : A -> bool) l : List.filter P l ++ List.filter (fun x => negb (P x)) l ≡ₚ l.
Proof.
  induction l as [|x l IH]; [done|]. cbn [List.filter]. destruct (P x); cbn [negb app]; [by rewrite IH|]. by rewrite <- Permutation_middle, IH.
Qed.

(** Sums of a measure over a list. *)
Definition total {A} (f : A -> Z) (l : list A) : Z := foldr (fun x n => f x + n) 0 l.

Lemma total_app {A} (f : A -> Z) l l' : total f (l ++ l') = total f l + total f l'.
Proof. induction l as [|x l IH]; cbn; [done|]. fold (total f (l ++ l')) (total f l). lia. Qed.

Lemma total_perm {A} (f : A -> Z) l l' : l ≡ₚ l' -> total f l = total f l'.
Proof. induction 1; cbn; unfold total in *; lia. Qed.

Lemma measure_nonneg {A} (f : A -> Z) l : (forall x, x ∈ l -> 0 <= f x) -> 0 <= total f l.
Proof.
  induction l as [|x l IH]; intros H; cbn; [done|]. fold (total f l). assert (0 <= f x) by (apply H; left). assert (0 <= total f l) by (apply IH; intros; apply H; by right). lia.
Qed.

Lemma total_count {A} (P : A -> bool) l : Z.of_nat (length (List.filter P l)) = total (fun x => b2z (P x)) l.
Proof. induction l as [|x l IH]; [done|]. cbn [List.filter total foldr]. fold (total (fun x => b2z (P x)) l). rewrite <- IH. destruct (P x); cbn [length b2z]; lia. Qed.

Lemma total_le_length {A} (P : A -> bool) l : total (fun x => b2z (P x)) l <= Z.of_nat (length l).
Proof. induction l as [|x l IH]; cbn; [done|]. fold (total (fun x => b2z (P x)) l). assert (H := b2z_range (P x)). lia. Qed.
