(* ===== verification/RangeSet.v ===== *)
(** Sets of numbers kept as ranges: [pratique/src/quic/rangeset.rs].

    The received packet numbers, and the parts of a stream that are
    acknowledged or lost.  A set is the [BTreeMap] of its ranges, start to
    end (the end not in the range); [rs_wf] says the ranges are the fewest
    that hold it (none is empty, none touches the next), which makes equal
    sets equal ([rs_ext]).  Every operation keeps it and does to the numbers
    what its name says. *)

From Stdlib Require Import ZArith Lia.
From stdpp Require Import base option sorting numbers list_numbers sets list.
From S2P Require Import Prelude BTree.

#[local] Open Scope Z_scope.

(** ** The operations *)

(** [start..end] of [u64]. *)
Abbreviation range := (Z * Z)%type.

Record RangeSet := mk_rangeset { ranges : list range }.

Definition new : RangeSet := mk_rangeset [].

Definition is_empty (s : RangeSet) : bool := match ranges s with [] => true | _ => false end.

Definition range_count (s : RangeSet) : nat := length (ranges s).

Definition count (s : RangeSet) : Z := foldr (fun r n => snd r - fst r + n) 0 (ranges s).

Definition min (s : RangeSet) : option Z := fst <$> head (ranges s).

Definition max (s : RangeSet) : option Z := (fun r => snd r - 1) <$> last (ranges s).

Definition first (s : RangeSet) : option range := head (ranges s).

Definition iter (s : RangeSet) : list range := ranges s.

Definition containing (s : RangeSet) (v : Z) : option range :=
  match floor v (ranges s) with
  | Some (a, e) => if v <? e then Some (a, e) else None
  | None => None
  end.

Definition contains (s : RangeSet) (v : Z) : bool := match containing s v with Some _ => true | None => false end.

Definition covers (s : RangeSet) (r : range) : bool :=
  (snd r <=? fst r) || match containing s (fst r) with Some (_, e) => snd r <=? e | None => false end.

Definition intersects (s : RangeSet) (r : range) : bool :=
  if snd r <=? fst r then false
  else
    match containing s (fst r) with
    | Some _ => true
    | None => match BTree.range (fst r) (snd r) (ranges s) with [] => false | _ => true end
    end.

Definition within (s : RangeSet) (r : range) : list range :=
  if snd r <=? fst r then []
  else
    let first := match containing s (fst r) with Some (a, _) => a | None => fst r end in
    List.filter (fun x => fst x <? snd x)
      (List.map (fun x => (Z.max (fst x) (fst r), Z.min (snd x) (snd r))) (BTree.range first (snd r) (ranges s))).

(** The loop of [insert]: the ranges that begin inside [start ..= end]. *)
Fixpoint insert_loop (fuel : nat) (start end_ : Z) (m : list range) : option (Z * list range) :=
  match fuel with
  | O => None
  | S fuel' =>
      match head (range_incl start end_ m) with
      | None => Some (end_, m)
      | Some (s, e) => insert_loop fuel' start (Z.max end_ e) (remove s m)
      end
  end.

(** Whether the set grew, and the set ([None]: out of fuel). *)
Definition insert (r : range) (s : RangeSet) : option (bool * RangeSet) :=
  if snd r <=? fst r then Some (false, s)
  else if covers s r then Some (false, s)
  else
    let '(start, end_, m) :=
      match floor (fst r) (ranges s) with
      | Some (a, e) =>
          if fst r <=? e then (a, Z.max (snd r) e, remove a (ranges s)) else (fst r, snd r, ranges s)
      | None => (fst r, snd r, ranges s)
      end in
    match insert_loop (S (length m)) start end_ m with
    | None => None
    | Some (end_, m) => Some (true, mk_rangeset (BTree.insert start end_ m))
    end.

Definition insert_one (v : Z) (s : RangeSet) : option (bool * RangeSet) :=
  insert (v, (v + 1) mod 18446744073709551616) s.

(** Longest prefix. *)
Fixpoint take_while {A} (p : A -> bool) (l : list A) : list A :=
  match l with
  | [] => []
  | x :: l' => if p x then x :: take_while p l' else []
  end.

(** One range of [touching]. *)
Definition remove_one (r : range) (m : list range) (x : range) : list range :=
  let m := BTree.remove (fst x) m in
  let m := if fst x <? fst r then BTree.insert (fst x) (fst r) m else m in
  if snd r <? snd x then BTree.insert (snd r) (snd x) m else m.

Definition remove (r : range) (s : RangeSet) : RangeSet :=
  if snd r <=? fst r then s
  else
    let touching := take_while (fun x => fst r <? snd x) (rev (range_to (snd r) (ranges s))) in
    mk_rangeset (fold_left (remove_one r) touching (ranges s)).

Definition remove_below (v : Z) (s : RangeSet) : RangeSet := remove (0, v) s.

Definition pop_first (most : Z) (s : RangeSet) : option range * RangeSet :=
  if most =? 0 then (None, s)
  else
    match head (ranges s) with
    | None => (None, s)
    | Some (a, e) =>
        let end_ := Z.min e (sat_add U64_MAX a most) in
        let m := BTree.remove a (ranges s) in
        (Some (a, end_), mk_rangeset (if end_ <? e then BTree.insert end_ e m else m))
    end.

Fixpoint keep_loop (fuel n : nat) (m : list range) : list range :=
  match fuel with
  | O => m
  | S fuel' =>
      if (n <? length m)%nat
      then match head m with Some (a, _) => keep_loop fuel' n (BTree.remove a m) | None => m end
      else m
  end.

Definition keep_highest (n : nat) (s : RangeSet) : RangeSet :=
  mk_rangeset (keep_loop (length (ranges s)) n (ranges s)).

(** ** The numbers of a set *)

Definition holds (m : list range) (v : Z) : Prop := exists a e, (a, e) ∈ m /\ a <= v < e.

#[export] Instance rangeset_elem_of : ElemOf Z RangeSet := fun v s => holds (ranges s) v.

(** Each range has a number, and one that is in none is between it and the
    next. *)
Record apart (m : list range) : Prop := mk_apart {
  ap_sorted : sorted m;
  ap_bounds : forall a e, (a, e) ∈ m -> 0 <= a < e /\ e <= U64_MAX;
  ap_gap : forall a e a' e', (a, e) ∈ m -> (a', e') ∈ m -> a < a' -> e < a';
}.

Definition rs_wf (s : RangeSet) : Prop := apart (ranges s).

(** A range of [u64]s. *)
Definition in_u64 (r : range) : Prop := 0 <= fst r <= U64_MAX /\ 0 <= snd r <= U64_MAX.

(** ** The lemmas of the representation *)

Lemma apart_nil : apart [].
Proof.
  split; [constructor| |].
  - intros a e H. by apply elem_of_nil in H.
  - intros a e a' e' H. by apply elem_of_nil in H.
Qed.

Lemma apart_disjoint m a e a' e' v :
  apart m -> (a, e) ∈ m -> (a', e') ∈ m -> a <= v < e -> a' <= v < e' -> a = a' /\ e = e'.
Proof.
  intros Hm H H' Hv Hv'. destruct (Z.lt_trichotomy a a') as [Hlt|[->|Hlt]].
  - assert (Hg := ap_gap _ Hm _ _ _ _ H H' Hlt). lia.
  - split; [done|]. exact (key_unique _ _ _ _ (ap_sorted _ Hm) H H').
  - assert (Hg := ap_gap _ Hm _ _ _ _ H' H Hlt). lia.
Qed.

(** The range that holds a number is the last that begins by it. *)
Lemma floor_holds m v :
  apart m ->
  match floor v m with
  | Some (a, e) => (a, e) ∈ m /\ a <= v /\ (holds m v <-> v < e) /\ forall a' e', (a', e') ∈ m -> a < a' -> v < a'
  | None => ~ holds m v /\ forall a e, (a, e) ∈ m -> v < a
  end.
Proof.
  intros Hm. destruct (floor v m) as [[a e]|] eqn:Hf.
  - destruct (floor_some _ _ _ (ap_sorted _ Hm) Hf) as (Hin & Hle & Hmax). simpl in *.
    split; [done|]. split; [done|]. split.
    + split; [|intros; by exists a, e]. intros (a' & e' & Hin' & Hv). specialize (Hmax _ Hin' ltac:(simpl; lia)). simpl in Hmax.
      destruct (Z.eq_dec a a') as [->|Hne]; [rewrite (key_unique _ _ _ _ (ap_sorted _ Hm) Hin Hin'); lia|].
      assert (Hg := ap_gap _ Hm _ _ _ _ Hin' Hin). lia.
    + intros a' e' Hin' Hlt. destruct (Z.le_gt_cases a' v) as [Hle'|]; [|lia]. specialize (Hmax _ Hin' Hle'). simpl in Hmax. lia.
  - assert (Hn := floor_none _ _ Hf). split.
    + intros (a & e & Hin & Hv). specialize (Hn _ Hin). simpl in Hn. lia.
    + intros a e Hin. by apply (Hn (a, e)).
Qed.

Lemma containing_some s v a e : rs_wf s -> containing s v = Some (a, e) <-> (a, e) ∈ ranges s /\ a <= v < e.
Proof.
  intros Hs. unfold containing. assert (Hf := floor_holds _ v Hs). destruct (floor v (ranges s)) as [[a' e']|].
  - destruct Hf as (Hin & Hle & Hh & _). destruct (Z.ltb_spec v e') as [Hlt|Hge].
    + split; [intros [= <- <-]; by repeat split|]. intros [Hin' Hv].
      destruct (apart_disjoint _ _ _ _ _ v Hs Hin Hin') as [-> ->]; [lia|lia|done].
    + split; [done|]. intros [Hin' Hv]. assert (holds (ranges s) v) by by exists a, e. apply Hh in H. lia.
  - destruct Hf as [Hn _]. split; [done|]. intros [Hin Hv]. destruct Hn. by exists a, e.
Qed.

Lemma containing_none s v : rs_wf s -> containing s v = None <-> v ∉ s.
Proof.
  intros Hs. destruct (containing s v) as [[a e]|] eqn:Hc; split; try done.
  - apply containing_some in Hc as [Hin Hv]; [|done]. intros Hn. destruct Hn. by exists a, e.
  - intros _ (a & e & Hin & Hv). assert (Hc' : containing s v = Some (a, e)) by by apply containing_some. congruence.
Qed.

Lemma contains_elem s v : rs_wf s -> contains s v = true <-> v ∈ s.
Proof.
  intros Hs. unfold contains. assert (Hn := containing_none s v Hs). destruct (containing s v) as [[a e]|] eqn:Hc.
  - apply containing_some in Hc as [Hin Hv]; [|done]. split; [intros _; by exists a, e|done].
  - split; [done|]. intros Hv. by apply Hn in Hv.
Qed.

Lemma covers_elem s r : rs_wf s -> covers s r = true <-> forall v, fst r <= v < snd r -> v ∈ s.
Proof.
  intros Hs. unfold covers. destruct r as [b c]. cbn [fst snd]. destruct (Z.leb_spec c b) as [Hcb|Hbc]; cbn [orb].
  { split; [intros _ v Hv; lia|done]. }
  destruct (containing s b) as [[a e]|] eqn:Hc.
  - apply containing_some in Hc as [Hin Hv]; [|done]. rewrite Z.leb_le. split.
    + intros Hce v Hv'. exists a, e. split; [done|lia].
    + intros Hall. destruct (Z.le_gt_cases c e) as [|Hec]; [done|]. destruct (Hall e) as (a' & e' & Hin' & He); [lia|].
      assert (Hlt : a < a').
      { destruct (Z.le_gt_cases a' a) as [Hle|]; [|done]. destruct (apart_disjoint _ _ _ _ _ a Hs Hin Hin'); lia. }
      assert (Hg := ap_gap _ Hs _ _ _ _ Hin Hin' Hlt). lia.
  - apply containing_none in Hc; [|done]. split; [done|]. intros Hall. destruct Hc. apply Hall. lia.
Qed.

Lemma intersects_elem s r : rs_wf s -> intersects s r = true <-> exists v, fst r <= v < snd r /\ v ∈ s.
Proof.
  intros Hs. unfold intersects. destruct r as [b c]. cbn [fst snd]. destruct (Z.leb_spec c b) as [Hcb|Hbc].
  { split; [done|]. intros (v & Hv & _). lia. }
  destruct (containing s b) as [[a e]|] eqn:Hc.
  - apply containing_some in Hc as [Hin Hv]; [|done]. split; [|done]. intros _. exists b. split; [lia|by exists a, e].
  - apply containing_none in Hc; [|done]. destruct (BTree.range b c (ranges s)) as [|[a e] l] eqn:Hr.
    + split; [done|]. intros (v & Hv & a & e & Hin & Hve). exfalso.
      assert (Hn : (a, e) ∈ BTree.range b c (ranges s)).
      { apply range_in. simpl. split; [done|]. destruct (Z.le_gt_cases b a); [lia|]. destruct Hc. exists a, e. split; [done|lia]. }
      rewrite Hr in Hn. by apply elem_of_nil in Hn.
    + split; [|done]. intros _. assert (Hin : (a, e) ∈ BTree.range b c (ranges s)) by (rewrite Hr; left).
      apply range_in in Hin as [Hin Ha]. simpl in Ha. exists a. split; [lia|]. exists a, e. split; [done|].
      destruct (ap_bounds _ Hs _ _ Hin). lia.
Qed.

(** *** Taking a range out of the map, and putting one in *)

Lemma apart_remove m k : apart m -> apart (BTree.remove k m).
Proof.
  intros Hm. split; [by apply remove_sorted, Hm| |].
  - intros a e [H _]%remove_in. by eapply ap_bounds.
  - intros a e a' e' [H _]%remove_in [H' _]%remove_in. by eapply ap_gap.
Qed.

Lemma holds_remove m a e v : apart m -> (a, e) ∈ m -> holds (BTree.remove a m) v <-> holds m v /\ ~ (a <= v < e).
Proof.
  intros Hm Hin. split.
  - intros (a' & e' & [Hin' Hne]%remove_in & Hv). split; [by exists a', e'|]. intros Hv'.
    destruct (apart_disjoint _ _ _ _ _ v Hm Hin Hin' Hv' Hv). done.
  - intros [(a' & e' & Hin' & Hv) Hn]. exists a', e'. split; [|done]. apply remove_in. split; [done|]. simpl. intros ->.
    rewrite (key_unique _ _ _ _ (ap_sorted _ Hm) Hin Hin') in Hn. done.
Qed.

(** A range that touches none. *)
Lemma apart_insert m a e :
  apart m -> 0 <= a < e -> e <= U64_MAX -> (forall a' e', (a', e') ∈ m -> e' < a \/ e < a') -> apart (BTree.insert a e m).
Proof.
  intros Hm Ha He Hn. split; [by apply insert_sorted, Hm| |].
  - intros a' e' [[= -> ->]|[_ H]]%insert_in; [done|by eapply ap_bounds|apply Hm].
  - intros a1 e1 a2 e2 [[= -> ->]|[Hk H1]]%insert_in [[= -> ->]|[Hk' H2]]%insert_in Hlt; try exact (ap_sorted _ Hm); simpl in *; try lia.
    + destruct (Hn _ _ H2), (ap_bounds _ Hm _ _ H2); lia.
    + destruct (Hn _ _ H1), (ap_bounds _ Hm _ _ H1); lia.
    + by eapply (ap_gap _ Hm).
Qed.

Lemma holds_insert m a e v :
  sorted m -> (forall e', (a, e') ∉ m) -> holds (BTree.insert a e m) v <-> a <= v < e \/ holds m v.
Proof.
  intros Hs Hn. split.
  - intros (a' & e' & [[= -> ->]|[_ Hin]]%insert_in & Hv); [by left|right; by exists a', e'|done].
  - intros [Hv|(a' & e' & Hin & Hv)]; [exists a, e|exists a', e']; (split; [|done]); apply insert_in; try done; [by left|].
    right. split; [|done]. simpl. intros ->. by apply (Hn e').
Qed.

Lemma rs_length_remove (m : list range) a e : sorted m -> (a, e) ∈ m -> S (length (BTree.remove a m)) = length m.
Proof.
  intros Hs Hin. induction m as [|[a' e'] m IH]; [by apply elem_of_nil in Hin|].
  pose proof Hs as Hs0. apply sorted_cons in Hs as [Hf Hs]. unfold BTree.remove. cbn [List.filter fst]. destruct (Z.eqb_spec a' a) as [->|Hne]; cbn [negb length].
  - f_equal. clear IH Hin Hs0. induction m as [|[b c] m IH]; [done|]. apply Forall_cons in Hf as [Hlt Hf]. unfold key_lt in Hlt. simpl in Hlt.
    cbn [List.filter fst]. destruct (Z.eqb_spec b a); [lia|]. cbn [negb length]. f_equal. apply IH; [done|]. by apply sorted_cons in Hs as [_ Hs].
  - f_equal. apply IH; [done|]. apply elem_of_cons in Hin as [[= -> ->]|Hin]; [done|done].
Qed.

(** *** [insert] *)

(** The loop takes out every range that touches, and grows its own. *)
Lemma rs_insert_loop_ok fuel start end_ m :
  (length m < fuel)%nat -> apart m -> 0 <= start < end_ -> end_ <= U64_MAX ->
  (forall a e, (a, e) ∈ m -> a < start -> e < start) ->
  exists end' m', insert_loop fuel start end_ m = Some (end', m') /\ apart m' /\ end_ <= end' <= U64_MAX /\
    (forall a e, (a, e) ∈ m' -> e < start \/ end' < a) /\
    (forall v, start <= v < end' \/ holds m' v <-> start <= v < end_ \/ holds m v).
Proof.
  revert end_ m. induction fuel as [|fuel IH]; intros end_ m Hf Hm Hse Hu Hlow; [lia|]. cbn [insert_loop].
  destruct (range_incl start end_ m) as [|[a e] l] eqn:Hr; cbn [head].
  - exists end_, m. split; [done|]. split; [done|]. split; [lia|]. split; [|done]. intros a e Hin.
    destruct (Z.le_gt_cases start a) as [Hle|]; [|left; apply (Hlow a e); done || lia]. right.
    destruct (Z.le_gt_cases a end_); [|lia]. assert (Hn : (a, e) ∈ range_incl start end_ m) by (apply range_incl_in; done).
    rewrite Hr in Hn. by apply elem_of_nil in Hn.
  - assert (Hin : (a, e) ∈ range_incl start end_ m) by (rewrite Hr; left).
    apply range_incl_in in Hin as [Hin Ha]. simpl in Ha. assert (Hb := ap_bounds _ Hm _ _ Hin).
    assert (Hl := rs_length_remove m a e (ap_sorted _ Hm) Hin).
    destruct (IH (Z.max end_ e) (BTree.remove a m)) as (end' & m' & -> & H1 & H2 & H3 & H4); [lia|by apply apart_remove|lia|lia| |].
    + intros a' e' [H' _]%remove_in. by apply Hlow.
    + exists end', m'. split; [done|]. split; [done|]. split; [lia|]. split; [done|]. intros v. rewrite H4.
      rewrite (holds_remove m a e v Hm Hin). split.
      * intros [Hv|[Hv _]]; [|by right]. destruct (Z.lt_ge_cases v end_); [left; lia|]. right. exists a, e. split; [done|lia].
      * intros [Hv|Hv]; [left; lia|]. destruct (decide (a <= v < e)); [left; lia|by right].
Qed.

Lemma rs_insert_ok r s :
  rs_wf s -> in_u64 r ->
  exists s', insert r s = Some (negb (covers s r), s') /\ rs_wf s' /\ forall v, v ∈ s' <-> v ∈ s \/ fst r <= v < snd r.
Proof.
  intros Hs [Hb Hc]. unfold insert. assert (Hcov := covers_elem s r Hs). destruct r as [b c]. cbn [fst snd] in *.
  destruct (Z.leb_spec c b) as [Hcb|Hbc].
  { exists s. replace (covers s (b, c)) with true; [|symmetry; apply Hcov; intros v Hv; lia].
    split; [done|]. split; [done|]. intros v. split; [by left|intros [Hv|Hv]; [done|lia]]. }
  destruct (covers s (b, c)) eqn:Hcv.
  { exists s. split; [done|]. split; [done|]. intros v. split; [by left|]. intros [Hv|Hv]; [done|by apply Hcov]. }
  assert (Hfl := floor_holds _ b Hs).
  set (st := match floor b (ranges s) with Some _ => _ | None => _ end).
  assert (Hst : exists start end_ m, st = (start, end_, m) /\ apart m /\ 0 <= start < end_ /\ end_ <= U64_MAX /\
    (forall a e, (a, e) ∈ m -> a < start -> e < start) /\
    (forall v, start <= v < end_ \/ holds m v <-> b <= v < c \/ v ∈ s)).
  { unfold st. destruct (floor b (ranges s)) as [[a e]|].
    - destruct Hfl as (Hin & Hle & Hh & Hmax). assert (Hbd := ap_bounds _ Hs _ _ Hin). destruct (Z.leb_spec b e) as [Hbe|Hbe].
      + exists a, (Z.max c e), (BTree.remove a (ranges s)). split; [done|]. split; [by apply apart_remove|]. split; [lia|]. split; [lia|]. split.
        * intros a' e' [Hin' _]%remove_in Hlt. by apply (ap_gap _ Hs a' e' a e).
        * intros v. rewrite (holds_remove _ a e v Hs Hin). split.
          -- intros [Hv|[Hv _]]; [|by right]. destruct (decide (a <= v < e)); [right; by exists a, e|left; lia].
          -- intros [Hv|Hv]; [left; lia|]. destruct (decide (a <= v < e)); [left; lia|by right].
      + exists b, c, (ranges s). split; [done|]. split; [done|]. split; [lia|]. split; [lia|]. split; [|done].
        intros a' e' Hin' Hlt. destruct (Z.lt_trichotomy a' a) as [H|[->|H]].
        * assert (Hg := ap_gap _ Hs _ _ _ _ Hin' Hin H). lia.
        * rewrite <- (key_unique _ _ _ _ (ap_sorted _ Hs) Hin Hin'). lia.
        * specialize (Hmax _ _ Hin' H). lia.
    - destruct Hfl as [Hn Hlow]. exists b, c, (ranges s). split; [done|]. split; [done|]. split; [lia|]. split; [lia|]. split; [|done].
      intros a' e' Hin' Hlt. specialize (Hlow _ _ Hin'). lia. }
  destruct Hst as (start & end_ & m & -> & Hm & Hse & Hu & Hlow & Hmem).
  destruct (rs_insert_loop_ok (S (length m)) start end_ m) as (end' & m' & -> & Hm' & He & Hap & Hmem'); try done; [lia|].
  eexists. split; [done|]. split.
  - unfold rs_wf. cbn [ranges]. apply apart_insert; try done; lia.
  - intros v. unfold elem_of, rangeset_elem_of. cbn [ranges]. rewrite holds_insert; [|apply Hm'|].
    + rewrite Hmem', Hmem. tauto.
    + intros e' Hin. destruct (Hap _ _ Hin), (ap_bounds _ Hm' _ _ Hin); lia.
Qed.

(** *** [remove] *)

(** One range that [r] reaches: what is left of it. *)
Lemma remove_one_ok b c m a e :
  apart m -> (a, e) ∈ m -> b < c -> 0 <= b -> c <= U64_MAX -> b < e -> a < c ->
  apart (remove_one (b, c) m (a, e)) /\
  (forall v, holds (remove_one (b, c) m (a, e)) v <-> holds m v /\ ~ (a <= v < e /\ b <= v < c)) /\
  (forall x, x ∈ m -> fst x <> a -> x ∈ remove_one (b, c) m (a, e)).
Proof.
  intros Hm Hin Hbc Hb Hc Hbe Hac. unfold remove_one. cbn [fst snd]. assert (Hbd := ap_bounds _ Hm _ _ Hin).
  assert (Hm1 := apart_remove m a Hm). set (m1 := BTree.remove a m) in *.
  assert (Hh1 : forall v, holds m1 v <-> holds m v /\ ~ (a <= v < e)) by (intros v; by apply holds_remove).
  assert (Hap1 : forall a' e', (a', e') ∈ m1 -> e' < a \/ e < a').
  { intros a' e' [Hin' Hne]%remove_in. simpl in Hne. destruct (Z.lt_trichotomy a a') as [H|[->|H]]; [right|done|left].
    - by apply (ap_gap _ Hm a e a' e').
    - by apply (ap_gap _ Hm a' e' a e). }
  assert (Hin1 : forall x, x ∈ m -> fst x <> a -> x ∈ m1) by (intros x Hx Hne; by apply remove_in).
  set (m2 := if a <? b then BTree.insert a b m1 else m1).
  assert (H2 : apart m2 /\ (forall v, holds m2 v <-> holds m1 v \/ (a <= v < e /\ v < b)) /\
    (forall a' e', (a', e') ∈ m2 -> e' < a \/ e < a' \/ (a' = a /\ e' = b)) /\ (forall x, x ∈ m -> fst x <> a -> x ∈ m2)).
  { unfold m2. destruct (Z.ltb_spec a b) as [Hab|Hba].
    - split; [apply apart_insert; try done; [lia|lia|]|].
      { intros a' e' H'. assert (Hb' := ap_bounds _ Hm1 _ _ H'). destruct (Hap1 _ _ H'); lia. }
      split; [|split].
      + intros v. rewrite holds_insert; [|apply Hm1|].
        * split; [intros [Hv|Hv]; [right; lia|by left]|intros [Hv|Hv]; [by right|left; lia]].
        * intros e' H'. assert (Hb' := ap_bounds _ Hm1 _ _ H'). destruct (Hap1 _ _ H'); lia.
      + intros a' e' [[= -> ->]|[_ H']]%insert_in; [by right; right| |apply Hm1].
        destruct (Hap1 _ _ H'); [by left|by right; left].
      + intros x Hx Hne. apply insert_in; [apply Hm1|]. right. split; [done|by apply Hin1].
    - split; [done|]. split; [intros v; split; [by left|intros [Hv|Hv]; [done|lia]]|]. split; [|done].
      intros a' e' H'. destruct (Hap1 _ _ H'); [by left|by right; left]. }
  destruct H2 as (Hm2 & Hh2 & Hap2 & Hin2). clearbody m2. destruct (Z.ltb_spec c e) as [Hce|Hec].
  - assert (Hnew : forall a' e', (a', e') ∈ m2 -> e' < c \/ e < a') by (intros a' e' H'; destruct (Hap2 _ _ H') as [|[|[-> ->]]]; lia).
    split; [apply apart_insert; try done; lia|]. split.
    + intros v. rewrite holds_insert; [|apply Hm2|].
      * rewrite Hh2, Hh1. split.
        -- intros [Hv|[[Hv Hn]|Hv]]; [|tauto|]; (split; [exists a, e; split; [done|lia]|lia]).
        -- intros [Hv Hn]. destruct (decide (a <= v < e)); [|tauto]. destruct (Z.lt_ge_cases v b); [tauto|]. left. lia.
      * intros e' H'. assert (Hb' := ap_bounds _ Hm2 _ _ H'). destruct (Hnew _ _ H'); lia.
    + intros x Hx Hne. apply insert_in; [apply Hm2|]. right. split; [|by apply Hin2]. simpl. intros Heq.
      destruct x as [xa xe]. simpl in *. subst xa. assert (Hb' := ap_bounds _ Hm _ _ Hx).
      destruct (apart_disjoint _ _ _ _ _ c Hm Hin Hx); lia.
  - split; [done|]. split; [|done]. intros v. rewrite Hh2, Hh1. split.
    + intros [[Hv Hn]|Hv]; [tauto|]. split; [exists a, e; split; [done|lia]|lia].
    + intros [Hv Hn]. destruct (decide (a <= v < e)); [|tauto]. right. lia.
Qed.

Lemma remove_all_ok b c l m :
  apart m -> b < c -> 0 <= b -> c <= U64_MAX -> NoDup (List.map fst l) ->
  (forall a e, (a, e) ∈ l -> (a, e) ∈ m /\ b < e /\ a < c) ->
  apart (fold_left (remove_one (b, c)) l m) /\
  (forall v, holds (fold_left (remove_one (b, c)) l m) v <-> holds m v /\ ~ (b <= v < c /\ exists a e, (a, e) ∈ l /\ a <= v < e)).
Proof.
  intros Hm Hbc Hb Hc. revert m Hm. induction l as [|[a e] l IH]; intros m Hm Hnd Hl; cbn [fold_left].
  { split; [done|]. intros v. split; [|by intros [? _]]. intros Hv. split; [done|]. intros (_ & a & e & H & _). by apply elem_of_nil in H. }
  cbn [List.map fst] in Hnd. apply NoDup_cons in Hnd as [Hna Hnd]. destruct (Hl a e) as (Hin & Hbe & Hac); [left|].
  destruct (remove_one_ok b c m a e) as (H1 & H2 & H3); try done.
  destruct (IH (remove_one (b, c) m (a, e))) as [G1 G2]; [done|done| |].
  - intros a' e' Hin'. destruct (Hl a' e') as (Hi & ? & ?); [by right|]. split; [|done]. apply H3; [done|]. simpl. intros ->.
    apply Hna. apply list_elem_of_fmap. by exists (a, e').
  - split; [done|]. intros v. rewrite G2, H2. split.
    + intros [[Hv Hn] Hn']. split; [done|]. intros [Hr (a' & e' & Hin' & Hv')]. apply elem_of_cons in Hin' as [[= -> ->]|Hin']; [tauto|].
      apply Hn'. split; [done|by exists a', e'].
    + intros [Hv Hn]. split; [split; [done|]|].
      * intros [Hv' Hr]. apply Hn. split; [done|]. exists a, e. split; [left|done].
      * intros [Hr (a' & e' & Hin' & Hv')]. apply Hn. split; [done|]. exists a', e'. split; [by right|done].
Qed.

Lemma take_while_elem {A} (p : A -> bool) l x : x ∈ take_while p l -> x ∈ l /\ p x = true.
Proof.
  induction l as [|y l IH]; simpl; [intros H; by apply elem_of_nil in H|]. destruct (p y) eqn:Hp; [|intros H; by apply elem_of_nil in H].
  intros [->|H]%elem_of_cons; [split; [left|done]|]. destruct (IH H). split; [by right|done].
Qed.

Lemma take_while_prefix {A} (p : A -> bool) l : exists k, take_while p l = take k l.
Proof.
  induction l as [|y l [k IH]]; [by exists 0%nat|]. simpl. destruct (p y); [|by exists 0%nat]. exists (S k). simpl. by f_equal.
Qed.

(** Going down from the end, the ranges that reach past [b] are the first. *)
Lemma touching_all m b c a e :
  apart m -> (a, e) ∈ m -> a < c -> b < e -> (a, e) ∈ take_while (fun x => b <? snd x) (rev (range_to c m)).
Proof.
  intros Hm Hin Hac Hbe.
  assert (Hr : apart (range_to c m)).
  { split; [by apply filter_sorted, Hm| |].
    - intros x y [H _]%range_to_in. by eapply ap_bounds.
    - intros x y x' y' [H _]%range_to_in [H' _]%range_to_in. by apply (ap_gap _ Hm x y x' y'). }
  assert (Hin' : (a, e) ∈ range_to c m) by by apply range_to_in. clear Hm Hin.
  induction (range_to c m) as [|x l IH] using rev_ind; [by apply elem_of_nil in Hin'|].
  rewrite rev_app_distr. cbn [rev app take_while]. apply elem_of_app in Hin' as [Hin|Hx].
  - assert (Hlt : a < fst x).
    { assert (Hs := ap_sorted _ Hr). unfold sorted in Hs. apply StronglySorted_app in Hs as (Hs & _ & _).
      exact (Hs (a, e) x Hin ltac:(left)). }
    assert (Hgap : e < fst x).
    { destruct x as [xa xe]. apply (ap_gap _ Hr a e xa xe); [apply elem_of_app; by left|apply elem_of_app; right; left|done]. }
    assert (Hbx : b < snd x).
    { destruct x as [xa xe]. destruct (ap_bounds _ Hr xa xe); [apply elem_of_app; right; left|]. simpl in *. lia. }
    rewrite (proj2 (Z.ltb_lt _ _) Hbx). right. apply IH; [|done]. split.
    + assert (Hs := ap_sorted _ Hr). unfold sorted in Hs. by apply StronglySorted_app in Hs as (_ & Hs & _).
    + intros x' y' H. apply (ap_bounds _ Hr). apply elem_of_app. by left.
    + intros x1 y1 x2 y2 H H'. apply (ap_gap _ Hr x1 y1 x2 y2); apply elem_of_app; by left.
  - apply list_elem_of_singleton in Hx as <-. cbn [snd]. rewrite (proj2 (Z.ltb_lt _ _) Hbe). left.
Qed.

Lemma sorted_keys_nodup (m : list range) : sorted m -> NoDup (List.map fst m).
Proof.
  intros Hs. induction m as [|x m IH]; [constructor|]. apply sorted_cons in Hs as [Hf Hs]. cbn [List.map]. constructor; [|by apply IH].
  intros Hin. apply list_elem_of_fmap in Hin as (y & Hy & Hin). rewrite Forall_forall in Hf. specialize (Hf _ Hin). unfold key_lt in Hf. lia.
Qed.

Lemma rs_remove_ok r s :
  rs_wf s -> in_u64 r -> rs_wf (remove r s) /\ forall v, v ∈ remove r s <-> v ∈ s /\ ~ (fst r <= v < snd r).
Proof.
  intros Hs [Hb Hc]. unfold remove. destruct r as [b c]. cbn [fst snd] in *. destruct (Z.leb_spec c b) as [Hcb|Hbc].
  { split; [done|]. intros v. split; [intros H; split; [done|lia]|by intros [? _]]. }
  set (l := take_while _ _).
  destruct (remove_all_ok b c l (ranges s)) as [H1 H2]; try done; try lia.
  - unfold l. destruct (take_while_prefix (fun x => b <? snd x) (rev (range_to c (ranges s)))) as [k ->].
    rewrite <- firstn_map, List.map_rev.
    assert (Hnd : NoDup (rev (List.map fst (range_to c (ranges s))))).
    { apply NoDup_ListNoDup, NoDup_rev, NoDup_ListNoDup, sorted_keys_nodup, filter_sorted, Hs. }
    rewrite <- (take_drop k) in Hnd. by apply NoDup_app in Hnd as [? _].
  - intros a e [Hin Hbe]%take_while_elem. cbn [snd] in Hbe. apply Z.ltb_lt in Hbe.
    apply list_elem_of_In, in_rev, list_elem_of_In, range_to_in in Hin as [Hin Hac]. done.
  - split; [done|]. intros v. unfold elem_of at 1, rangeset_elem_of at 1. cbn [ranges]. rewrite H2. split.
    + intros [(a & e & Hin & Hv) Hn]. split; [by exists a, e|]. intros Hr. apply Hn. split; [done|]. exists a, e.
      split; [|done]. unfold l. apply touching_all; try done; lia.
    + intros [Hv Hn]. split; [done|]. intros [Hr _]. done.
Qed.

(** *** Taking from the bottom *)

Lemma apart_cons a e m :
  apart ((a, e) :: m) <-> 0 <= a < e /\ e <= U64_MAX /\ apart m /\ forall a' e', (a', e') ∈ m -> e < a'.
Proof.
  split.
  - intros Hm. destruct (ap_bounds _ Hm a e) as [H1 H2]; [left|]. split; [done|]. split; [done|].
    assert (Hs := ap_sorted _ Hm). apply sorted_cons in Hs as [Hf Hs]. rewrite Forall_forall in Hf. split.
    + split; [done| |].
      * intros x y H. apply (ap_bounds _ Hm). by right.
      * intros x y x' y' H H'. apply (ap_gap _ Hm x y x' y'); by right.
    + intros a' e' H. apply (ap_gap _ Hm a e a' e'); [left|by right|]. exact (Hf _ H).
  - intros (H1 & H2 & Hm & Hg). split.
    + apply sorted_cons. split; [|apply Hm]. apply Forall_forall. intros [x y] H. unfold key_lt. simpl. specialize (Hg _ _ H). lia.
    + intros x y [[= -> ->]|H]%elem_of_cons; [done|by apply (ap_bounds _ Hm)].
    + intros x y x' y' [[= -> ->]|H]%elem_of_cons [[= -> ->]|H']%elem_of_cons Hlt; [lia|by eapply Hg| |by apply (ap_gap _ Hm x y x' y')].
      specialize (Hg _ _ H). destruct (ap_bounds _ Hm _ _ H). lia.
Qed.

(** The same, decided. *)
Fixpoint apartb (lo : Z) (m : list range) : bool :=
  match m with
  | [] => true
  | (a, e) :: m' => (lo <=? a) && (a <? e) && (e <=? U64_MAX) && apartb (e + 1) m'
  end.

Lemma apartb_low lo m a e : apartb lo m = true -> (a, e) ∈ m -> lo <= a.
Proof.
  revert lo. induction m as [|[x y] m IH]; intros lo Hb Hin; [by apply elem_of_nil in Hin|]. cbn [apartb] in Hb.
  rewrite !andb_true_iff in Hb. destruct Hb as [[[H1 H2] H3] H4]. cleanb. apply elem_of_cons in Hin as [[= -> ->]|Hin]; [done|].
  specialize (IH _ H4 Hin). lia.
Qed.

Lemma apartb_apart lo m : 0 <= lo -> apartb lo m = true -> apart m.
Proof.
  revert lo. induction m as [|[x y] m IH]; intros lo Hlo Hb; [apply apart_nil|]. cbn [apartb] in Hb.
  rewrite !andb_true_iff in Hb. destruct Hb as [[[H1 H2] H3] H4]. cleanb. apply apart_cons.
  split; [lia|]. split; [done|]. split; [eapply (IH (y + 1)); [lia|done]|].
  intros a' e' Hin. assert (Hl := apartb_low _ _ _ _ H4 Hin). lia.
Qed.

Lemma holds_cons a e m v : holds ((a, e) :: m) v <-> a <= v < e \/ holds m v.
Proof.
  split.
  - intros (x & y & [[= -> ->]|H]%elem_of_cons & Hv); [by left|right; by exists x, y].
  - intros [Hv|(x & y & H & Hv)]; [exists a, e; split; [left|done]|exists x, y; split; [by right|done]].
Qed.

Lemma remove_head a e m : apart ((a, e) :: m) -> BTree.remove a ((a, e) :: m) = m.
Proof.
  intros Hm. apply apart_cons in Hm as (H1 & _ & _ & Hg). unfold BTree.remove. cbn [List.filter fst]. rewrite Z.eqb_refl. cbn [negb].
  induction m as [|[x y] m IH]; [done|]. assert (Hlt := Hg x y ltac:(left)). cbn [List.filter fst]. destruct (Z.eqb_spec x a); [lia|].
  cbn [negb]. f_equal. apply IH. intros a' e' H. apply (Hg a' e'). by right.
Qed.

Lemma insert_head a e (m : list range) : (forall a' e', (a', e') ∈ m -> a < a') -> BTree.insert a e m = (a, e) :: m.
Proof. intros H. destruct m as [|[x y] m]; [done|]. simpl. rewrite (proj2 (Z.ltb_lt _ _)); [done|]. apply (H x y). left. Qed.

(** The lowest range, or the front of it. *)
Lemma pop_first_ok most s :
  rs_wf s -> 0 <= most <= U64_MAX ->
  match pop_first most s with
  | (None, s') => s' = s /\ (most = 0 \/ s = new)
  | (Some (a, e), s') => rs_wf s' /\ a < e <= a + most /\ (forall v, v ∈ s -> a <= v) /\
      (forall v, a <= v < e -> v ∈ s) /\ (e < a + most -> e ∉ s) /\ (forall v, v ∈ s' <-> v ∈ s /\ e <= v)
  end.
Proof.
  intros Hs Hmost. unfold pop_first. destruct (Z.eqb_spec most 0) as [->|Hne]; [split; [done|by left]|].
  destruct s as [m]. unfold rs_wf in *. cbn [ranges] in *. destruct m as [|[a e] m]; cbn [head]; [split; [done|by right]|].
  rewrite remove_head by done. apply apart_cons in Hs as (H1 & H2 & Hm & Hg).
  set (e1 := Z.min e (sat_add U64_MAX a most)). assert (He1 : a < e1 <= e /\ e1 <= a + most /\ (e1 < a + most -> e1 = e)).
  { unfold e1, sat_add, U64_MAX in *. lia. }
  set (m' := if e1 <? e then BTree.insert e1 e m else m).
  assert (Hm' : apart m' /\ forall v, holds m' v <-> holds m v \/ e1 <= v < e).
  { unfold m'. destruct (Z.ltb_spec e1 e).
    - rewrite insert_head by (intros a' e' H'; specialize (Hg _ _ H'); lia). split.
      + apply apart_cons. split; [lia|]. done.
      + intros v. rewrite holds_cons. tauto.
    - split; [done|]. intros v. split; [by left|]. intros [|]; [done|lia]. }
  destruct Hm' as [Hm' Hh]. assert (Hlow : forall v, holds m v -> e < v).
  { intros v (x & y & Hin & Hv). specialize (Hg _ _ Hin). lia. }
  unfold elem_of, rangeset_elem_of. cbn [ranges]. split; [done|]. split; [lia|]. split; [|split; [|split]].
  - intros v. rewrite holds_cons. intros [Hv|Hv]; [lia|specialize (Hlow v Hv); lia].
  - intros v Hv. rewrite holds_cons. left. lia.
  - intros Hlt. assert (e1 = e) as -> by lia. rewrite holds_cons. intros [Hv|Hv]; [lia|]. specialize (Hlow _ Hv). lia.
  - intros v. rewrite Hh, holds_cons. split.
    + intros [Hv|Hv]; [split; [by right|specialize (Hlow _ Hv); lia]|split; [left|]; lia].
    + intros [[Hv|Hv] Hev]; [right; lia|by left].
Qed.

Lemma keep_loop_ok fuel n m : apart m -> (length m - n <= fuel)%nat -> keep_loop fuel n m = drop (length m - n) m.
Proof.
  revert m. induction fuel as [|fuel IH]; intros m Hm Hf; cbn [keep_loop].
  { by replace (length m - n)%nat with 0%nat by lia. }
  destruct (Nat.ltb_spec n (length m)) as [Hlt|Hge]; [|by replace (length m - n)%nat with 0%nat by lia].
  destruct m as [|[a e] m]; [done|]. cbn [head]. rewrite remove_head by done. apply apart_cons in Hm as (_ & _ & Hm & _).
  cbn [length] in *. rewrite IH by (done || lia). replace (S (length m) - n)%nat with (S (length m - n))%nat by lia. done.
Qed.

Lemma apart_drop k m : apart m -> apart (drop k m).
Proof. revert m. induction k as [|k IH]; intros [|[a e] m] Hm; try done. cbn [drop]. apply IH. by apply apart_cons in Hm as (_ & _ & ? & _). Qed.

(** *** What a set has *)

Lemma min_ok s : rs_wf s -> match min s with Some v => v ∈ s /\ forall w, w ∈ s -> v <= w | None => forall w, w ∉ s end.
Proof.
  intros Hs. unfold min. destruct s as [[|[a e] m]]; cbn [ranges head fmap option_fmap option_map fst].
  - intros w (a & e & H & _). by apply elem_of_nil in H.
  - unfold rs_wf in Hs. cbn [ranges] in Hs. apply apart_cons in Hs as (H1 & H2 & Hm & Hg). split; [exists a, e; split; [left|lia]|].
    intros w (x & y & [[= -> ->]|H]%elem_of_cons & Hw); [lia|]. specialize (Hg _ _ H). lia.
Qed.

Lemma max_ok s : rs_wf s -> match max s with Some v => v ∈ s /\ forall w, w ∈ s -> w <= v | None => forall w, w ∉ s end.
Proof.
  intros Hs. unfold max. destruct (last (ranges s)) as [[a e]|] eqn:Hl; cbn [fmap option_fmap option_map snd].
  - destruct (last_greatest _ _ (ap_sorted _ Hs) Hl) as [Hin Hg]. assert (Hb := ap_bounds _ Hs _ _ Hin).
    split; [exists a, e; split; [done|lia]|]. intros w (x & y & H & Hw). specialize (Hg _ H). simpl in Hg.
    destruct (Z.eq_dec x a) as [->|]; [rewrite (key_unique _ _ _ _ (ap_sorted _ Hs) H Hin) in Hw; lia|].
    assert (Hgap := ap_gap _ Hs x y a e H Hin). lia.
  - apply last_none in Hl. intros w (a & e & H & _). rewrite Hl in H. by apply elem_of_nil in H.
Qed.

(** The numbers, in order. *)
Definition elements (s : RangeSet) : list Z := flat_map (fun r => seqZ (fst r) (snd r - fst r)) (ranges s).

Lemma elements_in s v : v ∈ elements s <-> v ∈ s.
Proof.
  unfold elements. rewrite list_elem_of_In, in_flat_map. split.
  - intros ([a e] & Hin & Hv). apply list_elem_of_In, elem_of_seqZ in Hv. exists a, e. split; [by apply list_elem_of_In|simpl in Hv; lia].
  - intros (a & e & Hin & Hv). exists (a, e). split; [by apply list_elem_of_In|]. apply list_elem_of_In, elem_of_seqZ. simpl. lia.
Qed.

Lemma elements_nodup s : rs_wf s -> NoDup (elements s).
Proof.
  unfold rs_wf, elements. destruct s as [m]. cbn [ranges]. induction m as [|[a e] m IH]; intros Hm; [constructor|].
  apply apart_cons in Hm as (H1 & H2 & Hm & Hg). cbn [flat_map fst snd]. apply NoDup_app. split; [apply NoDup_seqZ|]. split; [|by apply IH].
  intros v Hv Hin. apply elem_of_seqZ in Hv. apply (elements_in (mk_rangeset m)) in Hin as (x & y & Hin & Hw).
  specialize (Hg _ _ Hin). lia.
Qed.

Lemma count_elements s : rs_wf s -> count s = Z.of_nat (length (elements s)).
Proof.
  unfold rs_wf, elements, count. destruct s as [m]. cbn [ranges]. induction m as [|[a e] m IH]; intros Hm; [done|].
  apply apart_cons in Hm as (H1 & H2 & Hm & Hg). cbn [flat_map foldr fst snd]. rewrite length_app, length_seqZ, IH by done. lia.
Qed.

Lemma within_elem s r a e : rs_wf s -> (a, e) ∈ within s r <->
  exists a0 e0, (a0, e0) ∈ ranges s /\ a = Z.max a0 (fst r) /\ e = Z.min e0 (snd r) /\ a < e.
Proof.
  intros Hs. unfold within. destruct r as [b c]. cbn [fst snd]. destruct (Z.leb_spec c b) as [Hcb|Hbc].
  { split; [intros H; by apply elem_of_nil in H|]. intros (a0 & e0 & _ & -> & -> & H). lia. }
  set (f := match containing s b with Some _ => _ | None => _ end).
  assert (Hf : forall a0 e0, (a0, e0) ∈ ranges s -> b < e0 -> f <= a0).
  { intros a0 e0 Hin Hlt. unfold f. destruct (containing s b) as [[x y]|] eqn:Hc.
    - apply containing_some in Hc as [Hx Hxy]; [|done]. destruct (Z.le_gt_cases x a0); [done|].
      assert (Hg := ap_gap _ Hs a0 e0 x y Hin Hx). lia.
    - apply containing_none in Hc; [|done]. destruct (Z.le_gt_cases b a0); [done|]. destruct Hc. exists a0, e0. split; [done|lia]. }
  clearbody f. rewrite list_elem_of_In, filter_In, in_map_iff. cbn [fst snd]. rewrite Z.ltb_lt. split.
  - intros [([a0 e0] & [= <- <-] & Hin) Hlt]. apply list_elem_of_In, range_in in Hin as [Hin _]. by exists a0, e0.
  - intros (a0 & e0 & Hin & -> & -> & Hlt). split; [|lia]. exists (a0, e0). split; [done|]. apply list_elem_of_In, range_in. simpl.
    split; [done|]. split; [apply (Hf a0 e0); [done|lia]|lia].
Qed.

Lemma within_holds s r v : rs_wf s -> holds (within s r) v <-> v ∈ s /\ fst r <= v < snd r.
Proof.
  intros Hs. split.
  - intros (a & e & (a0 & e0 & Hin & -> & -> & Hlt)%within_elem & Hv); [|done]. split; [exists a0, e0; split; [done|]|]; lia.
  - intros [(a & e & Hin & Hv) Hr]. exists (Z.max a (fst r)), (Z.min e (snd r)). split; [|lia]. apply within_elem; [done|].
    exists a, e. do 3 (split; [done|]). lia.
Qed.

(** Sets of the same numbers are equal. *)
Lemma rs_ext s1 s2 : rs_wf s1 -> rs_wf s2 -> (forall v, v ∈ s1 <-> v ∈ s2) -> s1 = s2.
Proof.
  destruct s1 as [m1], s2 as [m2]. unfold rs_wf, elem_of, rangeset_elem_of. cbn [ranges]. intros H1 H2 Heq. f_equal.
  revert m2 H1 H2 Heq. induction m1 as [|[a e] m1 IH]; intros [|[a' e'] m2] H1 H2 Heq; [done| | |].
  - apply apart_cons in H2 as (Hb & _). destruct (proj2 (Heq a')) as (x & y & H & _); [apply holds_cons; left; lia|by apply elem_of_nil in H].
  - apply apart_cons in H1 as (Hb & _). destruct (proj1 (Heq a)) as (x & y & H & _); [apply holds_cons; left; lia|by apply elem_of_nil in H].
  - apply apart_cons in H1 as (Hb1 & Hu1 & Hm1 & Hg1), H2 as (Hb2 & Hu2 & Hm2 & Hg2).
    assert (Hl1 : forall v, holds m1 v -> e < v) by (intros v (x & y & H & Hv); specialize (Hg1 _ _ H); lia).
    assert (Hl2 : forall v, holds m2 v -> e' < v) by (intros v (x & y & H & Hv); specialize (Hg2 _ _ H); lia).
    assert (Heq' : forall v, (a <= v < e \/ holds m1 v) <-> (a' <= v < e' \/ holds m2 v)) by (intros v; by rewrite <- !holds_cons).
    assert (a = a') as <-.
    { destruct (proj1 (Heq' a)) as [H|H]; [lia| |specialize (Hl2 _ H)]; destruct (proj2 (Heq' a')) as [H'|H']; try specialize (Hl1 _ H'); lia. }
    assert (e = e') as <-.
    { destruct (Z.lt_trichotomy e e') as [Hlt|[He|Hlt]]; [|done|].
      - destruct (proj2 (Heq' e)) as [H|H]; [lia|lia|specialize (Hl1 _ H); lia].
      - destruct (proj1 (Heq' e')) as [H|H]; [lia|lia|specialize (Hl2 _ H); lia]. }
    f_equal. apply IH; try done. intros v. specialize (Heq' v). split; intros H.
    + destruct (proj1 Heq' (or_intror H)) as [Hv|]; [|done]. specialize (Hl1 _ H). lia.
    + destruct (proj2 Heq' (or_intror H)) as [Hv|]; [|done]. specialize (Hl2 _ H). lia.
Qed.

Lemma insert_one_ok v s :
  rs_wf s -> 0 <= v < U64_MAX ->
  exists s', insert_one v s = Some (negb (contains s v), s') /\ rs_wf s' /\ forall w, w ∈ s' <-> w ∈ s \/ w = v.
Proof.
  intros Hs Hv. unfold insert_one. rewrite Z.mod_small by (unfold U64_MAX in *; lia).
  destruct (rs_insert_ok (v, v + 1) s Hs) as (s' & Hi & Hw & Hm); [unfold in_u64; simpl; lia|]. exists s'. rewrite Hi. cbn [fst snd] in Hm.
  split; [|split; [done|]].
  - do 3 f_equal. apply Bool.eq_true_iff_eq. rewrite covers_elem, contains_elem by done. cbn [fst snd].
    split; [intros H; apply H; lia|]. intros H w Hw'. by replace w with v by lia.
  - intros w. rewrite Hm. split; (intros [?|?]; [by left|right; lia]).
Qed.

(** The three ranges of the examples. *)
Definition sample : RangeSet := mk_rangeset [(1, 3); (5, 7); (9, 12)].

Lemma sample_wf : rs_wf sample.
Proof. by apply (apartb_apart 0). Qed.

(** ** The properties *)

(** The operations that change a set. *)
Lemma rangeset_changes r s most n :
  rs_wf s -> in_u64 r -> 0 <= most <= U64_MAX ->
  (exists grew s', insert r s = Some (grew, s') /\ rs_wf s' /\ (forall v, v ∈ s' <-> v ∈ s \/ fst r <= v < snd r) /\
     (grew = false <-> forall v, fst r <= v < snd r -> v ∈ s) /\ (grew = false -> s' = s)) /\
  (rs_wf (remove r s) /\ (forall v, v ∈ remove r s <-> v ∈ s /\ ~ (fst r <= v < snd r))) /\
  match pop_first most s with
  | (None, t) => t = s /\ (most = 0 \/ s = new)
  | (Some (a, e), t) => rs_wf t /\ a < e <= a + most /\ (forall v, v ∈ s -> a <= v) /\
      (forall v, a <= v < e -> v ∈ s) /\ (e < a + most -> e ∉ s) /\ (forall v, v ∈ t <-> v ∈ s /\ e <= v)
  end /\
  rs_wf (keep_highest n s) /\ ranges (keep_highest n s) = drop (range_count s - n) (ranges s).
Proof.
  intros Hs Hr Hmost. assert (Hk : ranges (keep_highest n s) = drop (range_count s - n) (ranges s)) by (apply keep_loop_ok; [done|lia]).
  split; [|split; [by apply rs_remove_ok|split; [by apply pop_first_ok|split; [unfold rs_wf; rewrite Hk; by apply apart_drop|done]]]]. destruct (rs_insert_ok r s Hs Hr) as (s' & Hi & Hw & Hm).
  assert (Hc := covers_elem s r Hs). exists (negb (covers s r)), s'. do 3 (split; [done|]).
  assert (Hg : negb (covers s r) = false <-> forall v, fst r <= v < snd r -> v ∈ s) by (rewrite <- Hc; by destruct (covers s r)).
  split; [done|]. intros H. apply rs_ext; try done. intros v. rewrite Hm. split; [|by left]. intros [|Hv]; [done|]. by apply Hg.
Qed.

(** The extremes of a set. *)
Lemma min_max_ok s : rs_wf s ->
  match min s, max s with
  | Some a, Some b => a ∈ s /\ b ∈ s /\ forall v, v ∈ s -> a <= v <= b
  | None, None => is_empty s = true /\ forall v, v ∉ s
  | _, _ => False
  end.
Proof.
  intros Hs. assert (Hmin := min_ok s Hs). assert (Hmax := max_ok s Hs). destruct (min s) as [a|] eqn:Ha, (max s) as [b|].
  - destruct Hmin as [H1 H2], Hmax as [H3 H4]. split; [done|]. split; [done|]. intros v Hv. split; [by apply H2|by apply H4].
  - destruct Hmin as [H1 _]. by apply (Hmax a).
  - destruct Hmax as [H1 _]. by apply (Hmin b).
  - split; [|done]. unfold min in Ha. unfold is_empty. by destruct (ranges s).
Qed.

(** A set of ranges is the set of its numbers.  [insert] and [remove] are
    union and difference whatever ranges are there, keep the ranges the fewest
    that hold the set, and [insert] says whether the set grew; its loop always
    ends.  Taking the lowest numbers takes a front of the lowest range, and
    limiting the ranges keeps the highest.  What a set says of its numbers is
    so: membership, coverage and overlap of a range, its parts within a range,
    its extremes, and how many there are; and a set is kept as one list of
    ranges only, so comparing two compares the sets. *)
Theorem rangeset_is_set r s s' most n :
  rs_wf s -> rs_wf s' -> in_u64 r -> 0 <= most <= U64_MAX ->
  ((exists grew s', insert r s = Some (grew, s') /\ rs_wf s' /\ (forall v, v ∈ s' <-> v ∈ s \/ fst r <= v < snd r) /\
      (grew = false <-> forall v, fst r <= v < snd r -> v ∈ s) /\ (grew = false -> s' = s)) /\
   (rs_wf (remove r s) /\ (forall v, v ∈ remove r s <-> v ∈ s /\ ~ (fst r <= v < snd r))) /\
   match pop_first most s with
   | (None, t) => t = s /\ (most = 0 \/ s = new)
   | (Some (a, e), t) => rs_wf t /\ a < e <= a + most /\ (forall v, v ∈ s -> a <= v) /\
       (forall v, a <= v < e -> v ∈ s) /\ (e < a + most -> e ∉ s) /\ (forall v, v ∈ t <-> v ∈ s /\ e <= v)
   end /\
   rs_wf (keep_highest n s) /\ ranges (keep_highest n s) = drop (range_count s - n) (ranges s)) /\
  (forall v, contains s v = true <-> v ∈ s) /\
  (covers s r = true <-> forall v, fst r <= v < snd r -> v ∈ s) /\
  (intersects s r = true <-> exists v, fst r <= v < snd r /\ v ∈ s) /\
  (forall v, (exists a e, (a, e) ∈ within s r /\ a <= v < e) <-> v ∈ s /\ fst r <= v < snd r) /\
  match min s, max s with
  | Some a, Some b => a ∈ s /\ b ∈ s /\ forall v, v ∈ s -> a <= v <= b
  | None, None => is_empty s = true /\ forall v, v ∉ s
  | _, _ => False
  end /\
  (exists l, NoDup l /\ (forall v, v ∈ l <-> v ∈ s) /\ count s = Z.of_nat (length l)) /\
  ((forall v, v ∈ s <-> v ∈ s') -> s = s').
Proof.
  intros Hs Hs' Hr Hmost. split; [by apply rangeset_changes|]. split; [intros v; by apply contains_elem|]. split; [by apply covers_elem|]. split; [by apply intersects_elem|].
  split; [intros v; by apply within_holds|]. split; [by apply min_max_ok|]. split; [|by apply rs_ext].
  exists (elements s). split; [by apply elements_nodup|]. split; [apply elements_in|by apply count_elements].
Qed.

Lemma rangeset_is_set_witness :
  insert (6, 9) sample = Some (true, mk_rangeset [(1, 3); (5, 12)]) /\ rs_wf (remove (2, 6) sample) /\
  pop_first 1 sample = (Some (1, 2), mk_rangeset [(2, 3); (5, 7); (9, 12)]) /\ rs_wf (keep_highest 2 sample) /\
  covers sample (5, 7) = true /\ 6 ∈ sample /\ count sample = 7.
Proof.
  split; [vm_compute; reflexivity|].
  destruct (rangeset_is_set (5, 7) sample sample 1 2 sample_wf sample_wf) as ((_ & _ & _ & Hk & _) & _ & H & _); [unfold in_u64, U64_MAX; simpl; lia|unfold U64_MAX; lia|].
  destruct (rangeset_is_set (2, 6) sample sample 1 2 sample_wf sample_wf) as ((_ & [Hr _] & _) & _); [unfold in_u64, U64_MAX; simpl; lia|unfold U64_MAX; lia|].
  split; [exact Hr|]. split; [reflexivity|]. split; [exact Hk|]. split; [reflexivity|]. split; [apply H; [reflexivity|simpl; lia]|reflexivity].
Defined.
