(* ===== verification/Reassembly.v ===== *)
(** Putting a byte stream back in order: [pratique/src/quic/reassembly.rs].

    A [Reassembler] takes ranges of a stream in any order, repeated and
    overlapping, and gives the bytes back from the front.  Its meaning is the
    partial stream it holds ([byte_at]: an offset to its byte).  [insert]
    adds exactly the bytes of the range that have not been read, or refuses
    for the reason it says; [read] takes exactly the bytes up to the first
    hole.  A slice or an index out of range is the error [Fault Panic], which
    the theorems show is never given. *)

From Stdlib Require Import ZArith Lia.
From stdpp Require Import base option sorting numbers list_numbers list.
From S2P Require Import Prelude Slice BTree RangeSet.

#[local] Open Scope Z_scope.

(** ** The operations *)

Definition MAX_PIECES : nat := Z.to_nat 4096.

Inductive Error : Type := Exceeded | Inconsistent | Fault (f : fault).

(** The bytes from [pos] on are the data. *)
Record Piece := mk_piece { bytes : list Z; pos : nat }.

Definition data (p : Piece) : list Z := drop (pos p) (bytes p).

Record Reassembler := mk_reassembler {
  read_off : Z;
  pieces : list (Z * Piece);
  held : Z;
}.

Definition new : Reassembler := mk_reassembler 0 [] 0.

Definition end_offset (r : Reassembler) : Z :=
  Z.max (match last (pieces r) with Some (at_, p) => at_ + len (data p) | None => read_off r end) (read_off r).

Definition readable (r : Reassembler) : Z :=
  match head (pieces r) with
  | Some (at_, p) => if at_ =? read_off r then len (data p) else 0
  | None => 0
  end.

Abbreviation res := (result Error).

(** A slice, or a panic. *)
Definition sliced {A} (a b : Z) (l : list A) : res (list A) :=
  match slice a b l with Some s => Ok s | None => Err (Fault Panic) end.

(** The piece that begins before [start], if it reaches it: what is left of
    the new range after it. *)
Definition skip_front (m : list (Z * Piece)) (start : Z) (d : list Z) : res (Z * list Z) :=
  match floor start m with
  | None => Ok (start, d)
  | Some (at_, p) =>
      let have := data p in
      let piece_end := at_ + len have in
      if start <? piece_end
      then
        let overlap := Z.min (piece_end - start) (len d) in
        let from := start - at_ in
        x ← sliced from (from + overlap) have;
        y ← sliced 0 overlap d;
        if negb (bool_decide (x = y)) then Err Inconsistent
        else d' ← sliced overlap (len d) d; Ok (start + overlap, d')
      else Ok (start, d)
  end.

(** The pieces inside the range: the same check; [fresh] is the gaps so far. *)
Fixpoint gaps (m : list (Z * Piece)) (start : Z) (d : list Z) (inside : list (Z * Z))
    (fresh : list (Z * list Z)) (cursor : Z) (rest : list Z) : res (list (Z * list Z) * Z * list Z) :=
  match inside with
  | [] => Ok (fresh, cursor, rest)
  | (at_, n) :: inside' =>
      fresh ← (if cursor <? at_ then x ← sliced 0 (at_ - cursor) rest; Ok (fresh ++ [(cursor, x)]) else Ok fresh);
      let take_ := Z.min (at_ + n) (start + len d) - at_ in
      let skip := at_ - start in
      match get at_ m with
      | None => Err (Fault Panic)
      | Some p =>
          x ← sliced 0 take_ (data p);
          y ← sliced skip (skip + take_) d;
          if negb (bool_decide (x = y)) then Err Inconsistent
          else
            let cursor := at_ + take_ in
            rest ← sliced (cursor - start) (len d) d;
            gaps m start d inside' fresh cursor rest
      end
  end.

(** What of a range is new: the part after the piece at its front, without
    the pieces inside it. *)
Definition new_ranges (m : list (Z * Piece)) (start : Z) (d : list Z) : res (list (Z * list Z)) :=
  '(start, d) ← skip_front m start d;
  let inside := List.map (fun x => (fst x, len (data (snd x)))) (BTree.range start (start + len d) m) in
  '(fresh, cursor, rest) ← gaps m start d inside [] start d;
  Ok (match rest with [] => fresh | _ => fresh ++ [(cursor, rest)] end).

(** Whether a piece ends at [at_]. *)
Definition joins_left (m : list (Z * Piece)) (at_ : Z) : bool :=
  match before at_ m with Some (b, p) => b + len (data p) =? at_ | None => false end.

(** The pieces there would be. *)
Definition count_after (m : list (Z * Piece)) (fresh : list (Z * list Z)) : Z :=
  fold_left (fun n x =>
    let left := joins_left m (fst x) in
    let right := contains_key (fst x + len (snd x)) m in
    n + (if left && right then -1 else if left || right then 0 else 1)) fresh (len m).

(** Adds bytes that overlap nothing held, joining the pieces they touch. *)
Definition add (at_ : Z) (b : list Z) (r : Reassembler) : Reassembler :=
  let end_ := at_ + len b in
  let m := pieces r in
  let '(key, joined, m) :=
    match before at_ m with
    | Some (k, p) => if k + len (data p) =? at_ then (k, p, BTree.remove k m) else (at_, mk_piece [] 0, m)
    | None => (at_, mk_piece [] 0, m)
    end in
  let joined :=
    if (0 <? pos joined)%nat && (length (data joined) <=? pos joined)%nat
    then mk_piece (drop (pos joined) (bytes joined)) 0 else joined in
  let joined := mk_piece (bytes joined ++ b) (pos joined) in
  let '(joined, m) :=
    match get end_ m with
    | Some next => (mk_piece (bytes joined ++ data next) (pos joined), BTree.remove end_ m)
    | None => (joined, m)
    end in
  mk_reassembler (read_off r) (BTree.insert key joined m) (held r + len b).

Definition insert (offset : Z) (d : list Z) (window : Z) (r : Reassembler) : res Reassembler :=
  match checked_add U64_MAX offset (len d) with
  | None => Err Exceeded
  | Some end_ =>
      if sat_add U64_MAX (read_off r) window <? end_ then Err Exceeded
      else if end_ <=? read_off r then Ok r
      else
        sd ← (if offset <? read_off r
              then d' ← sliced (read_off r - offset) (len d) d; Ok (read_off r, d')
              else Ok (offset, d));
        fresh ← new_ranges (pieces r) (fst sd) (snd sd);
        if Z.of_nat MAX_PIECES <? count_after (pieces r) fresh then Err Exceeded
        else Ok (fold_left (fun r x => add (fst x) (snd x) r) fresh r)
  end.

(** [read] into a buffer of [cap] bytes: the bytes read. *)
Definition read (cap : nat) (r : Reassembler) : list Z * Reassembler :=
  match pieces r with
  | [] => ([], r)
  | (at_, p) :: rest =>
      if negb (at_ =? read_off r) then ([], r)
      else
        let n := Nat.min (length (data p)) cap in
        let p' := mk_piece (bytes p) (pos p + n) in
        (take n (data p),
         mk_reassembler (read_off r + Z.of_nat n)
           (match data p' with [] => rest | _ => BTree.insert (at_ + Z.of_nat n) p' rest end) (held r - Z.of_nat n))
  end.

Definition discard (r : Reassembler) : Z * Reassembler :=
  match pieces r with
  | [] => (0, r)
  | (at_, p) :: rest =>
      if negb (at_ =? read_off r) then (0, r)
      else (len (data p), mk_reassembler (read_off r + len (data p)) rest (held r - len (data p)))
  end.

Definition take_all (r : Reassembler) : list Z * Reassembler := read (Z.to_nat (readable r)) r.

(** ** What a buffer holds *)

(** The byte at an offset. *)
Definition byte_at (m : list (Z * Piece)) (o : Z) : option Z :=
  match floor o m with Some (a, p) => data p !! Z.to_nat (o - a) | None => None end.

(** The offsets of the pieces. *)
Abbreviation spans := (map_entries (fun a p => a + len (data p))).

(** Pieces are not empty, and none touches the next; those already read are
    gone. *)
Record wf (r : Reassembler) : Prop := mk_wf {
  wf_apart : apart (spans (pieces r));
  wf_low : forall a p, (a, p) ∈ pieces r -> read_off r <= a;
  wf_read : 0 <= read_off r <= U64_MAX;
  wf_held : held r = foldr (fun x n => len (data (snd x)) + n) 0 (pieces r);
}.

Definition within_limit (r : Reassembler) : Prop := (length (pieces r) <= MAX_PIECES)%nat.

Lemma span_in m a p : (a, p) ∈ m -> (a, a + len (data p)) ∈ spans m.
Proof. intros H. apply me_in. by exists p. Qed.

Lemma piece_bounds m a p : apart (spans m) -> (a, p) ∈ m -> 0 <= a /\ 0 < len (data p) /\ a + len (data p) <= U64_MAX.
Proof. intros Hm Hin. destruct (ap_bounds _ Hm _ _ (span_in _ _ _ Hin)). lia. Qed.

Lemma pieces_sorted m : apart (spans m) -> sorted m.
Proof. intros Hm. eapply me_sorted, (ap_sorted _ Hm). Qed.

Lemma byte_at_in m o b :
  apart (spans m) -> byte_at m o = Some b <-> exists a p, (a, p) ∈ m /\ a <= o /\ data p !! Z.to_nat (o - a) = Some b.
Proof.
  intros Hm. unfold byte_at. assert (Hf := floor_holds _ o Hm). rewrite me_floor in Hf. destruct (floor o m) as [[a p]|] eqn:Hfl; cbn in Hf.
  - assert (Hin : (a, p) ∈ m) by (eapply floor_some; [by apply pieces_sorted|exact Hfl]).
    destruct Hf as (Hin' & Hle & Hh & Hmax). split; [intros Hb; by exists a, p|].
    intros (a' & p' & Hin1 & Hle1 & Hb). assert (Hb1 := lookup_len (data p') (o - a') ltac:(lia)).
    destruct (apart_disjoint _ _ _ _ _ o Hm (span_in _ _ _ Hin1) Hin') as [Ha _].
    + split; [done|]. assert (o - a' < len (data p')) by (apply Hb1; by eexists). lia.
    + split; [done|]. apply Hh. exists a', (a' + len (data p')). split; [by apply span_in|]. split; [done|].
      assert (o - a' < len (data p')) by (apply Hb1; by eexists). lia.
    + subst a'. assert (p' = p) as -> by exact (key_unique _ _ _ _ (pieces_sorted _ Hm) Hin1 Hin). done.
  - destruct Hf as [_ Hlow]. split; [done|]. intros (a & p & Hin & Hle & _). specialize (Hlow _ _ (span_in _ _ _ Hin)). lia.
Qed.

Lemma byte_at_none m o : apart (spans m) -> byte_at m o = None <-> ~ holds (spans m) o.
Proof.
  intros Hm. rewrite eq_None_not_Some. split; intros H Hc; apply H.
  - destruct Hc as (a & e & Hin & Hv). apply me_in in Hin as (p & Hin & ->).
    destruct (proj2 (lookup_len (data p) (o - a) ltac:(lia)) ltac:(lia)) as [b Hb]. exists b. apply byte_at_in; [done|]. exists a, p.
    split; [done|]. split; [lia|done].
  - destruct Hc as [b Hb]. apply byte_at_in in Hb as (a & p & Hin & Hle & Hb); [|done].
    exists a, (a + len (data p)). split; [by apply span_in|]. assert (o - a < len (data p)) by (apply lookup_len; [lia|by eexists]). lia.
Qed.

(** A piece put in, and taken out. *)
Lemma byte_at_insert m k p o :
  apart (spans (BTree.insert k p m)) -> apart (spans m) -> (forall p', (k, p') ∉ m) ->
  byte_at (BTree.insert k p m) o = if decide (k <= o < k + len (data p)) then data p !! Z.to_nat (o - k) else byte_at m o.
Proof.
  intros Hi Hm Hn. apply option_eq. intros b. rewrite byte_at_in by done. case_decide as Hd.
  - split.
    + intros (a & q & Hin & Hle & Hb).
      destruct (apart_disjoint _ _ _ _ _ o Hi (span_in _ _ _ Hin) (span_in _ k p ltac:(apply insert_in; [by apply pieces_sorted|by left]))) as [-> _]; [|done|].
      * assert (o - a < len (data q)) by (apply lookup_len; [lia|by eexists]). lia.
      * apply insert_in in Hin as [[= ->]|[Hne _]]; [done|done|by apply pieces_sorted].
    + intros Hb. exists k, p. split; [apply insert_in; [by apply pieces_sorted|by left]|]. split; [lia|done].
  - rewrite byte_at_in by done. split.
    + intros (a & q & Hin & Hle & Hb). exists a, q. apply insert_in in Hin as [[= -> ->]|[Hne Hin]]; [|done|by apply pieces_sorted].
      destruct Hd. assert (o - k < len (data p)) by (apply lookup_len; [lia|by eexists]). lia.
    + intros (a & q & Hin & Hle & Hb). exists a, q. split; [|done]. apply insert_in; [by apply pieces_sorted|]. right. split; [|done].
      simpl. intros ->. by apply (Hn q).
Qed.

Lemma byte_at_remove m k p o :
  apart (spans m) -> (k, p) ∈ m ->
  byte_at (BTree.remove k m) o = if decide (k <= o < k + len (data p)) then None else byte_at m o.
Proof.
  intros Hm Hin. assert (Hr : apart (spans (BTree.remove k m))) by (rewrite me_remove; by apply apart_remove).
  apply option_eq. intros b. rewrite byte_at_in by done. case_decide as Hd.
  - split; [|done]. intros (a & q & [Hq Hne]%remove_in & Hle & Hb). simpl in Hne.
    destruct (apart_disjoint _ _ _ _ _ o Hm (span_in _ _ _ Hq) (span_in _ _ _ Hin)) as [-> _]; [|done|done].
    assert (o - a < len (data q)) by (apply lookup_len; [lia|by eexists]). lia.
  - rewrite byte_at_in by done. split.
    + intros (a & q & [Hq _]%remove_in & Hb). by exists a, q.
    + intros (a & q & Hq & Hle & Hb). exists a, q. split; [|done]. apply remove_in. split; [done|]. simpl. intros ->.
      assert (q = p) as -> by exact (key_unique _ _ _ _ (pieces_sorted _ Hm) Hq Hin).
      destruct Hd. assert (o - k < len (data p)) by (apply lookup_len; [lia|by eexists]). lia.
Qed.

(** ** [add] *)

(** A piece that ends at an offset is the last one before it. *)
Lemma before_ends m at_ k p :
  apart (spans m) -> (k, p) ∈ m -> k + len (data p) = at_ -> before at_ m = Some (k, p).
Proof.
  intros Hm Hin He. assert (Hb := piece_bounds _ _ _ Hm Hin). destruct (before at_ m) as [[k' p']|] eqn:Hbf.
  - destruct (before_some _ _ _ (pieces_sorted _ Hm) Hbf) as (Hin' & Hlt & Hmax). simpl in *. specialize (Hmax _ Hin ltac:(simpl; lia)). simpl in Hmax.
    destruct (Z.eq_dec k k') as [<-|Hne]; [by rewrite (key_unique _ _ _ _ (pieces_sorted _ Hm) Hin Hin')|].
    assert (Hg := ap_gap _ Hm _ _ _ _ (span_in _ _ _ Hin) (span_in _ _ _ Hin')). lia.
  - assert (Hn := before_none _ _ Hbf _ Hin). simpl in Hn. lia.
Qed.

Lemma joins_left_ok m at_ :
  apart (spans m) -> joins_left m at_ = true <-> exists k p, (k, p) ∈ m /\ k + len (data p) = at_.
Proof.
  intros Hm. unfold joins_left. split.
  - destruct (before at_ m) as [[k p]|] eqn:Hb; [|done]. intros He%Z.eqb_eq. exists k, p. split; [|done].
    eapply before_some; [by apply pieces_sorted|exact Hb].
  - intros (k & p & Hin & He). rewrite (before_ends m at_ k p) by done. by apply Z.eqb_eq.
Qed.

(** Beside an offset that is a hole, the two tests ask for a byte. *)
Lemma joins_left_byte m at_ :
  apart (spans m) -> byte_at m at_ = None -> joins_left m at_ = bool_decide (is_Some (byte_at m (at_ - 1))).
Proof.
  intros Hm Hh. apply Bool.eq_true_iff_eq. rewrite joins_left_ok, bool_decide_eq_true by done. split.
  - intros (k & p & Hin & He). assert (Hb := piece_bounds _ _ _ Hm Hin).
    destruct (proj2 (lookup_len (data p) (at_ - 1 - k) ltac:(lia)) ltac:(lia)) as [b Hb']. exists b. apply byte_at_in; [done|].
    exists k, p. split; [done|]. split; [lia|done].
  - intros [b Hb]. apply byte_at_in in Hb as (k & p & Hin & Hle & Hb); [|done]. exists k, p. split; [done|].
    assert (Hlt : at_ - 1 - k < len (data p)) by (apply lookup_len; [lia|by eexists]).
    apply byte_at_none in Hh; [|done]. destruct (Z.lt_ge_cases at_ (k + len (data p))); [|lia].
    destruct Hh. exists k, (k + len (data p)). split; [by apply span_in|lia].
Qed.

Lemma contains_key_get {V} k (m : list (Z * V)) : contains_key k m = true <-> is_Some (get k m).
Proof. unfold contains_key. destruct (get k m); split; (done || by intros [? ?]). Qed.

Lemma joins_right_byte m e :
  apart (spans m) -> byte_at m (e - 1) = None -> contains_key e m = bool_decide (is_Some (byte_at m e)).
Proof.
  intros Hm Hh. apply Bool.eq_true_iff_eq. rewrite contains_key_get, bool_decide_eq_true. split.
  - intros [p Hp]. apply get_in in Hp as Hin; [|by apply pieces_sorted]. assert (Hb := piece_bounds _ _ _ Hm Hin).
    destruct (proj2 (lookup_len (data p) (e - e) ltac:(lia)) ltac:(lia)) as [b Hb']. exists b. apply byte_at_in; [done|].
    exists e, p. split; [done|]. split; [lia|done].
  - intros [b Hb]. apply byte_at_in in Hb as (k & p & Hin & Hle & Hb); [|done].
    assert (Hlt : e - k < len (data p)) by (apply lookup_len; [lia|by eexists]).
    apply byte_at_none in Hh; [|done]. destruct (Z.eq_dec k e) as [->|Hne].
    + exists p. by apply get_in; [apply pieces_sorted|].
    + destruct Hh. exists k, (k + len (data p)). split; [by apply span_in|lia].
Qed.

Definition total (m : list (Z * Piece)) : Z := foldr (fun x n => len (data (snd x)) + n) 0 m.

Lemma total_remove m k p : sorted m -> (k, p) ∈ m -> total (BTree.remove k m) = total m - len (data p) /\ (S (length (BTree.remove k m)) = length m)%nat.
Proof.
  intros Hs Hin. induction m as [|[a q] m IH]; [by apply elem_of_nil in Hin|]. apply sorted_cons in Hs as [Hf Hs].
  unfold BTree.remove. cbn [List.filter fst]. destruct (Z.eqb_spec a k) as [->|Hne]; cbn [negb].
  - assert (Hno : List.filter (fun e => negb (fst e =? k)) m = m).
    { clear -Hf. induction m as [|[x y] m IH]; [done|]. apply Forall_cons in Hf as [Hlt Hf]. unfold key_lt in Hlt. simpl in Hlt.
      cbn [List.filter fst]. destruct (Z.eqb_spec x k); [lia|]. cbn [negb]. f_equal. by apply IH. }
    rewrite Hno. apply elem_of_cons in Hin as [[= ->]|Hin]; [simpl; unfold total; simpl; split; [lia|done]|].
    rewrite Forall_forall in Hf. specialize (Hf _ Hin). unfold key_lt in Hf. simpl in Hf. lia.
  - apply elem_of_cons in Hin as [[= -> ->]|Hin]; [done|]. destruct (IH Hs Hin) as [H1 H2]. unfold BTree.remove in H1, H2.
    unfold total in *. cbn [foldr length snd]. rewrite H1. split; [lia|]. by f_equal.
Qed.

Lemma total_insert m k p : (forall q, (k, q) ∉ m) -> total (BTree.insert k p m) = total m + len (data p) /\ length (BTree.insert k p m) = S (length m).
Proof.
  intros Hn. induction m as [|[a q] m IH]; [unfold total; simpl; split; [lia|done]|]. cbn [BTree.insert].
  destruct (k <? a); [unfold total; cbn [foldr length snd]; split; [lia|done]|]. destruct (Z.eqb_spec k a) as [->|Hne]; [destruct (Hn q); left|].
  destruct IH as [H1 H2]; [intros q' Hq; apply (Hn q'); by right|]. unfold total in *. cbn [foldr length snd]. rewrite H1, H2. split; [lia|done].
Qed.

(** Dropping what was read changes no data. *)
Lemma compact_data p :
  data (if (0 <? pos p)%nat && (length (data p) <=? pos p)%nat then mk_piece (drop (pos p) (bytes p)) 0 else p) = data p.
Proof. by case_if. Qed.

Lemma compact_pos p : (pos p <= length (bytes p))%nat ->
  let q := if (0 <? pos p)%nat && (length (data p) <=? pos p)%nat then mk_piece (drop (pos p) (bytes p)) 0 else p in
  (pos q <= length (bytes q))%nat.
Proof. intros Hp. cbn zeta. case_if; simpl; lia. Qed.

Lemma data_app p b : (pos p <= length (bytes p))%nat -> data (mk_piece (bytes p ++ b) (pos p)) = data p ++ b.
Proof. intros Hp. unfold data. simpl. by rewrite drop_app_le. Qed.

(** The piece on the left, taken out. *)
Lemma take_left m at_ :
  apart (spans m) -> 0 <= at_ -> byte_at m at_ = None ->
  exists key joined m1,
    match before at_ m with
    | Some (k, p) => if k + len (data p) =? at_ then (k, p, BTree.remove k m) else (at_, mk_piece [] 0, m)
    | None => (at_, mk_piece [] 0, m)
    end = (key, joined, m1) /\
    apart (spans m1) /\ 0 <= key <= at_ /\ key + len (data joined) = at_ /\ (pos joined <= length (bytes joined))%nat /\
    (key = at_ \/ (key, joined) ∈ m) /\
    (forall a p, (a, p) ∈ m1 -> (a, p) ∈ m /\ (a + len (data p) < key \/ at_ < a)) /\
    (forall a p, (a, p) ∈ m -> a <> key -> (a, p) ∈ m1) /\
    (forall o, byte_at m o = if decide (key <= o < at_) then data joined !! Z.to_nat (o - key) else byte_at m1 o) /\
    total m1 + len (data joined) = total m /\ len m1 + (if joins_left m at_ then 1 else 0) = len m.
Proof.
  intros Hm H0 Hh. unfold joins_left.
  assert (Hnot : forall a p, (a, p) ∈ m -> a <> at_).
  { intros a p Hin ->. apply byte_at_none in Hh; [|done]. destruct Hh. exists at_, (at_ + len (data p)).
    split; [by apply span_in|]. destruct (piece_bounds _ _ _ Hm Hin). lia. }
  assert (Hsame : (forall k p, (k, p) ∈ m -> k + len (data p) <> at_) ->
    apart (spans m) /\ 0 <= at_ <= at_ /\ at_ + len (data (mk_piece [] 0)) = at_ /\ (0 <= 0)%nat /\
    (at_ = at_ \/ (at_, mk_piece [] 0) ∈ m) /\
    (forall a p, (a, p) ∈ m -> (a, p) ∈ m /\ (a + len (data p) < at_ \/ at_ < a)) /\
    (forall a p, (a, p) ∈ m -> a <> at_ -> (a, p) ∈ m) /\
    (forall o, byte_at m o = if decide (at_ <= o < at_) then data (mk_piece [] 0) !! Z.to_nat (o - at_) else byte_at m o) /\
    total m + len (data (mk_piece [] 0)) = total m /\ len m + 0 = len m).
  { intros Hno. split; [done|]. split; [lia|]. split; [change (len (data (mk_piece [] 0))) with 0; lia|]. split; [done|]. split; [by left|].
    split; [|split; [done|split; [intros o; rewrite decide_False by lia; done|change (len (data (mk_piece [] 0))) with 0; lia]]].
    intros a p Hin. split; [done|]. specialize (Hnot _ _ Hin). specialize (Hno _ _ Hin). destruct (Z.lt_ge_cases at_ a); [by right|]. left.
    apply byte_at_none in Hh; [|done]. destruct (Z.lt_ge_cases at_ (a + len (data p))); [|lia].
    destruct Hh. exists a, (a + len (data p)). split; [by apply span_in|lia]. }
  destruct (before at_ m) as [[k p]|] eqn:Hb.
  - destruct (before_some _ _ _ (pieces_sorted _ Hm) Hb) as (Hin & Hlt & Hmax). simpl in Hlt. destruct (Z.eqb_spec (k + len (data p)) at_) as [He|Hne].
    + exists k, p, (BTree.remove k m). assert (Hpb := piece_bounds _ _ _ Hm Hin). destruct (total_remove m k p (pieces_sorted _ Hm) Hin) as [Ht Hl].
      split; [done|]. split; [rewrite me_remove; by apply apart_remove|]. split; [lia|]. split; [done|]. split.
      { destruct (Nat.le_gt_cases (pos p) (length (bytes p))); [done|]. exfalso. assert (len (data p) = 0); [|lia].
        apply len_nil. unfold data. apply drop_ge. lia. }
      split; [by right|]. split; [|split; [|split; [|split; [lia|unfold len; lia]]]].
      * intros a q [Hq Hne]%remove_in. simpl in Hne. split; [done|]. specialize (Hnot _ _ Hq).
        destruct (Z.lt_ge_cases at_ a); [by right|]. left.
        specialize (Hmax _ Hq ltac:(simpl; lia)). simpl in Hmax.
        assert (Hg := ap_gap _ Hm _ _ _ _ (span_in _ _ _ Hq) (span_in _ _ _ Hin)). lia.
      * intros a q Hq Hne'. apply remove_in. done.
      * intros o. rewrite (byte_at_remove m k p o Hm Hin). rewrite He. case_decide as Hd; [|done].
        assert (Hil : o - k < len (data p)) by lia. apply lookup_len in Hil as [b Hbb]; [|lia]. rewrite Hbb.
        apply byte_at_in; [done|]. exists k, p. split; [done|]. split; [lia|done].
    + exists at_, (mk_piece [] 0), m. split; [done|]. apply Hsame. intros k' p' Hin' He.
      assert (Hb' := before_ends m at_ k' p' Hm Hin' He). rewrite Hb in Hb'. injection Hb' as -> ->. done.
  - exists at_, (mk_piece [] 0), m. split; [done|]. apply Hsame. intros k' p' Hin' He.
    assert (Hb' := before_ends m at_ k' p' Hm Hin' He). congruence.
Qed.

Lemma total_nonneg m : 0 <= total m.
Proof. induction m as [|x m IH]; unfold total in *; cbn [foldr]; [lia|]. assert (H := len_nonneg (data (snd x))). lia. Qed.

(** What a new range of bytes does to the number of pieces. *)
Definition joins (left right : bool) : Z := if left && right then -1 else if left || right then 0 else 1.

(** Putting the joined piece in. *)
Lemma put_joined m2 key j o :
  apart (spans m2) -> 0 <= key -> 0 < len (data j) -> key + len (data j) <= U64_MAX ->
  (forall a p, (a, p) ∈ m2 -> a + len (data p) < key \/ key + len (data j) < a) ->
  apart (spans (BTree.insert key j m2)) /\
  byte_at (BTree.insert key j m2) o = (if decide (key <= o < key + len (data j)) then data j !! Z.to_nat (o - key) else byte_at m2 o) /\
  total (BTree.insert key j m2) = total m2 + len (data j) /\ len (BTree.insert key j m2) = len m2 + 1.
Proof.
  intros Hm Hk Hl Hu Hn.
  assert (Hno : forall q, (key, q) ∉ m2).
  { intros q Hq. destruct (piece_bounds _ _ _ Hm Hq), (Hn _ _ Hq); lia. }
  assert (Ha : apart (spans (BTree.insert key j m2))).
  { rewrite me_insert. apply apart_insert; [done|lia|done|]. intros a e Hin. apply me_in in Hin as (p & Hin & ->). by apply Hn. }
  split; [done|]. split; [by apply byte_at_insert|]. destruct (total_insert m2 key j Hno) as [-> Hlen]. split; [done|]. unfold len. lia.
Qed.

Lemma ra_add_ok at_ b r :
  wf r -> b <> [] -> read_off r <= at_ -> at_ + len b <= U64_MAX ->
  (forall o, at_ <= o < at_ + len b -> byte_at (pieces r) o = None) ->
  wf (add at_ b r) /\ read_off (add at_ b r) = read_off r /\
  (forall o, byte_at (pieces (add at_ b r)) o =
     if decide (at_ <= o < at_ + len b) then b !! Z.to_nat (o - at_) else byte_at (pieces r) o) /\
  len (pieces (add at_ b r)) = len (pieces r) + joins (joins_left (pieces r) at_) (contains_key (at_ + len b) (pieces r)).
Proof.
  intros [Hm Hlow Hrd Hheld] Hb Hat Hend Hhole. destruct r as [rd m h]. cbn [pieces read_off held] in *.
  assert (Hlb : 0 < len b) by (assert (Hn := len_nonneg b); assert (Hz := len_nil b); destruct (Z.eq_dec (len b) 0); [by destruct Hb; apply Hz|lia]).
  assert (H0 : 0 <= at_) by lia.
  destruct (take_left m at_ Hm H0 (Hhole at_ ltac:(lia))) as (key & joined & m1 & Heq & Hm1 & Hk & Hj & Hp & Hkin & Hin1 & Hto1 & Hb1 & Ht1 & Hl1).
  unfold add. cbn [pieces read_off held]. rewrite Heq. clear Heq. set (e := at_ + len b) in *.
  assert (Hcd := compact_data joined). assert (Hcp := compact_pos joined Hp). cbn zeta in Hcp.
  set (j1 := if (0 <? pos joined)%nat && (length (data joined) <=? pos joined)%nat then _ else joined) in *. clearbody j1.
  set (j2 := mk_piece (bytes j1 ++ b) (pos j1)).
  assert (Hd2 : data j2 = data joined ++ b) by (unfold j2; by rewrite data_app, Hcd).
  assert (Hp2 : (pos j2 <= length (bytes j2))%nat) by (unfold j2; simpl; rewrite length_app; lia).
  clearbody j2. assert (Hle2 : len (data j2) = e - key) by (rewrite Hd2, len_app; unfold e; lia).
  assert (Hge : get e m1 = get e m).
  { apply option_eq. intros q. rewrite !get_in by (apply pieces_sorted; done). split; [by intros [H _]%Hin1|].
    intros Hq. apply Hto1; [done|lia]. }
  assert (Hsep : forall a p, (a, p) ∈ m1 -> a + len (data p) < key \/ e <= a).
  { intros a p Hin. destruct (Hin1 _ _ Hin) as [Hin' [|Hlt]]; [by left|right]. destruct (Z.le_gt_cases e a) as [|Hea]; [done|]. exfalso.
    assert (Hpb := piece_bounds _ _ _ Hm Hin'). apply (byte_at_none m a Hm); [apply Hhole; lia|].
    exists a, (a + len (data p)). split; [by apply span_in|lia]. }
  assert (Hkr : rd <= key) by (destruct Hkin as [->|Hkin]; [done|by eapply Hlow]).
  (* the bytes of the new piece *)
  assert (Hbytes : forall o, key <= o < e -> data j2 !! Z.to_nat (o - key) =
    if decide (at_ <= o < e) then b !! Z.to_nat (o - at_) else byte_at m o).
  { intros o Ho. rewrite Hd2, lookup_app_Z by lia. case_decide as H1.
    - rewrite decide_False by lia. by rewrite Hb1, decide_True by lia.
    - rewrite decide_True by lia. do 2 f_equal. lia. }
  destruct (get e m1) as [next|] eqn:Hgn.
  - (* a piece on the right *)
    apply get_in in Hgn as Hnin; [|by apply pieces_sorted]. assert (Hnb := piece_bounds _ _ _ Hm1 Hnin).
    destruct (total_remove m1 e next (pieces_sorted _ Hm1) Hnin) as [Ht2 Hl2].
    set (j3 := mk_piece (bytes j2 ++ data next) (pos j2)).
    assert (Hd3 : data j3 = data j2 ++ data next) by (by apply data_app). clearbody j3.
    assert (Hl3 : len (data j3) = e - key + len (data next)) by (rewrite Hd3, len_app; lia).
    assert (Hm2 : apart (spans (BTree.remove e m1))) by (rewrite me_remove; by apply apart_remove).
    assert (Hput := fun o => put_joined (BTree.remove e m1) key j3 o Hm2 ltac:(lia) ltac:(lia) ltac:(lia)).
    assert (Hsep2 : forall a p, (a, p) ∈ BTree.remove e m1 -> a + len (data p) < key \/ key + len (data j3) < a).
    { intros a p [Hin Hne]%remove_in. simpl in Hne. destruct (Hsep _ _ Hin) as [|Hge2]; [by left|right].
      assert (Hg := ap_gap _ Hm1 _ _ _ _ (span_in _ _ _ Hnin) (span_in _ _ _ Hin)). lia. }
    cbn [pieces read_off held]. split; [|split; [done|split]].
    + destruct (Hput 0 Hsep2) as (A1 & _ & A3 & _). split; cbn [pieces read_off held]; [done| |done|].
      * intros a p Hin. apply insert_in in Hin as [[= -> ->]|[_ [Hin _]%remove_in]]; [done| |by apply pieces_sorted].
        apply Hin1 in Hin as [Hin _]. by eapply Hlow.
      * fold (total m) in Hheld. rewrite Hheld. change (foldr _ 0 ?x) with (total x). lia.
    + intros o. destruct (Hput o Hsep2) as (_ & -> & _). rewrite (byte_at_remove m1 e next o Hm1 Hnin). case_decide as H1.
      * rewrite Hd3, lookup_app_Z by lia. case_decide as H2; [rewrite Hbytes by lia; done|].
        rewrite decide_False by lia. rewrite Hb1, decide_False by lia. rewrite Hle2. replace (o - key - (e - key)) with (o - e) by lia.
        symmetry. assert (Hs := proj2 (lookup_len (data next) (o - e) ltac:(lia)) ltac:(lia)). destruct Hs as [x Hx]. rewrite Hx.
        apply byte_at_in; [done|]. exists e, next. split; [done|]. split; [lia|done].
      * rewrite decide_False by lia. rewrite decide_False by lia. by rewrite Hb1, decide_False by lia.
    + destruct (Hput 0 Hsep2) as (_ & _ & _ & ->). unfold contains_key. rewrite <- Hge. unfold joins.
      destruct (joins_left m at_); unfold len in *; cbn [andb orb]; lia.
  - assert (Hput := fun o => put_joined m1 key j2 o Hm1 ltac:(lia) ltac:(lia) ltac:(lia)).
    assert (Hsep2 : forall a p, (a, p) ∈ m1 -> a + len (data p) < key \/ key + len (data j2) < a).
    { intros a p Hin. destruct (Hsep _ _ Hin) as [|Hge2]; [by left|right]. destruct (Z.eq_dec a e) as [->|]; [|lia].
      exfalso. apply (get_none e m1) with (v := p) in Hgn. done. }
    cbn [pieces read_off held]. split; [|split; [done|split]].
    + destruct (Hput 0 Hsep2) as (A1 & _ & A3 & _). split; cbn [pieces read_off held]; [done| |done|].
      * intros a p Hin. apply insert_in in Hin as [[= -> ->]|[_ Hin]]; [done| |by apply pieces_sorted].
        apply Hin1 in Hin as [Hin _]. by eapply Hlow.
      * fold (total m) in Hheld. rewrite Hheld. change (foldr _ 0 ?x) with (total x). lia.
    + intros o. destruct (Hput o Hsep2) as (_ & -> & _). case_decide as H1; [rewrite Hbytes by lia; done|].
      rewrite decide_False by lia. by rewrite Hb1, decide_False by lia.
    + destruct (Hput 0 Hsep2) as (_ & _ & _ & ->). unfold contains_key. rewrite <- Hge. unfold joins.
      destruct (joins_left m at_); cbn [andb orb]; lia.
Qed.

(** ** [insert] *)

(** A range says another byte than what is held. *)
Definition conflict (m : list (Z * Piece)) (start : Z) (d : list Z) : Prop :=
  exists o b b', start <= o < start + len d /\ byte_at m o = Some b /\ d !! Z.to_nat (o - start) = Some b' /\ b <> b'.

(** Comparing a stretch of a piece with the bytes that say it again. *)
Lemma compare_ok m start d a p from n skip :
  apart (spans m) -> (a, p) ∈ m -> 0 <= from -> 0 <= n -> from + n <= len (data p) -> 0 <= skip -> skip + n <= len d ->
  a + from = start + skip ->
  exists x y, sliced from (from + n) (data p) = Ok x /\ sliced skip (skip + n) d = Ok y /\
    (x = y -> forall o, a + from <= o < a + from + n -> byte_at m o = d !! Z.to_nat (o - start)) /\
    (x <> y -> conflict m start d).
Proof.
  intros Hm Hin Hf Hn Hfn Hs Hsn He.
  destruct (slice_some from (from + n) (data p)) as (x & Hx & Lx & Ex); [lia|lia|].
  destruct (slice_some skip (skip + n) d) as (y & Hy & Ly & Ey); [lia|lia|].
  exists x, y. unfold sliced. rewrite Hx, Hy. split; [done|]. split; [done|].
  assert (Hat : forall i, 0 <= i < n -> byte_at m (a + from + i) = x !! Z.to_nat i).
  { intros i Hi. rewrite Ex by lia. destruct (proj2 (lookup_len (data p) (from + i) ltac:(lia)) ltac:(lia)) as [z Hz]. rewrite Hz.
    apply byte_at_in; [done|]. exists a, p. split; [done|]. split; [lia|]. rewrite <- Hz. f_equal. lia. }
  split.
  - intros -> o Ho. specialize (Hat (o - (a + from)) ltac:(lia)). replace (a + from + (o - (a + from))) with o in Hat by lia.
    rewrite Hat, Ey by lia. f_equal. lia.
  - intros Hne. destruct (list_differ x y) as (i & z & z' & H1 & H2 & H3); [unfold len in *; lia|done|].
    apply lookup_lt_Some in H1 as Hi1. exists (a + from + Z.of_nat i), z, z'. unfold len in *.
    assert (Hi : 0 <= Z.of_nat i < n) by lia. split; [lia|]. split; [|split; [|done]].
    + rewrite Hat by done. by rewrite Nat2Z.id.
    + specialize (Ey (Z.of_nat i) ltac:(lia)). rewrite Nat2Z.id, H2 in Ey. rewrite Ey. f_equal. lia.
Qed.

Lemma skip_front_ok m start d :
  apart (spans m) -> 0 <= start ->
  match skip_front m start d with
  | Ok (start', d') => start <= start' /\ start' + len d' = start + len d /\ d' = drop (Z.to_nat (start' - start)) d /\
      (forall o, start <= o < start' -> is_Some (byte_at m o) /\ byte_at m o = d !! Z.to_nat (o - start)) /\
      (d' <> [] -> byte_at m start' = None)
  | Err e => e = Inconsistent /\ conflict m start d
  end.
Proof.
  intros Hm H0. unfold skip_front. assert (Hf := floor_holds _ start Hm). rewrite me_floor in Hf.
  assert (Hdone : ~ holds (spans m) start -> start <= start /\ start + len d = start + len d /\ d = drop (Z.to_nat (start - start)) d /\
      (forall o, start <= o < start -> is_Some (byte_at m o) /\ byte_at m o = d !! Z.to_nat (o - start)) /\
      (d <> [] -> byte_at m start = None)).
  { intros Hn. split; [lia|]. split; [done|]. rewrite Z.sub_diag. split; [done|]. split; [intros; lia|]. intros _. by apply byte_at_none. }
  destruct (floor start m) as [[a p]|] eqn:Hfl; cbn in Hf; [|apply Hdone, Hf].
  assert (Hin : (a, p) ∈ m) by (eapply floor_some; [by apply pieces_sorted|exact Hfl]).
  destruct Hf as (Hin' & Hle & Hh & Hmax). destruct (Z.ltb_spec start (a + len (data p))) as [Hlt|Hge]; [|apply Hdone; rewrite Hh; lia].
  assert (Hld := len_nonneg d).
  set (ov := Z.min (a + len (data p) - start) (len d)).
  destruct (compare_ok m start d a p (start - a) ov 0) as (x & y & Hx & Hy & Hsame & Hdiff); try done; try lia.
  replace (0 + ov) with ov in Hy by lia. rewrite Hx, Hy. cbn [mbind result_bind].
  destruct (bool_decide_reflect (x = y)) as [He|He]; cbn [negb]; [|split; [done|by apply Hdiff]].
  unfold sliced. rewrite slice_end by lia. cbn [mbind result_bind]. split; [lia|].
  assert (Hld' : len (drop (Z.to_nat ov) d) = len d - ov) by (unfold len in *; rewrite length_drop; lia).
  split; [lia|]. split; [f_equal; lia|]. split.
  - intros o Ho. assert (Hb := Hsame He o ltac:(lia)). split; [|done]. rewrite Hb. apply lookup_len; lia.
  - intros Hne. apply byte_at_none; [done|]. assert (Hov : ov = a + len (data p) - start).
    { assert (len (drop (Z.to_nat ov) d) <> 0) by by rewrite len_nil. lia. }
    intros (a' & e' & Hin2 & Hv). destruct (Z.lt_trichotomy a a') as [H|[->|H]].
    + assert (Hg := ap_gap _ Hm _ _ _ _ Hin' Hin2 H). lia.
    + assert (e' = a' + len (data p)) by exact (key_unique _ _ _ _ (ap_sorted _ Hm) Hin2 Hin'). lia.
    + assert (Hg := ap_gap _ Hm _ _ _ _ Hin2 Hin' H). lia.
Qed.

(** The gaps of a range up to [cursor]: what [fresh] is. *)
Record filled (m : list (Z * Piece)) (start : Z) (d : list Z) (cursor : Z) (fresh : list (Z * list Z)) : Prop := mk_filled {
  fl_sep : StronglySorted (fun x y => fst x + len (snd x) < fst y) fresh;
  fl_seg : forall a b, (a, b) ∈ fresh -> b <> [] /\ start <= a /\ a + len b <= cursor;
  fl_byte : forall a b, (a, b) ∈ fresh -> forall o, a <= o < a + len b -> byte_at m o = None /\ d !! Z.to_nat (o - start) = b !! Z.to_nat (o - a);
  fl_all : forall o, start <= o < cursor ->
    match byte_at m o with
    | Some x => d !! Z.to_nat (o - start) = Some x
    | None => exists a b, (a, b) ∈ fresh /\ a <= o < a + len b
    end;
}.

(** One more gap, from [cursor]. *)
Lemma filled_gap m start d cursor fresh b :
  filled m start d cursor fresh -> start <= cursor -> b <> [] -> (forall a x, (a, x) ∈ fresh -> a + len x < cursor) ->
  (forall o, cursor <= o < cursor + len b -> byte_at m o = None /\ d !! Z.to_nat (o - start) = b !! Z.to_nat (o - cursor)) ->
  filled m start d (cursor + len b) (fresh ++ [(cursor, b)]).
Proof.
  intros [F1 F2 F3 F4] Hc Hb Hs Hg. assert (Hn := len_nonneg b). split.
  - apply StronglySorted_app. split; [|split; [done|repeat constructor]].
    intros [a x] y Hin ->%list_elem_of_singleton. cbn [fst snd]. by eapply Hs.
  - intros a x [H|[= -> ->]%list_elem_of_singleton]%elem_of_app; [destruct (F2 _ _ H) as (? & ? & ?); split; [done|lia]|]. split; [done|lia].
  - intros a x [H|[= -> ->]%list_elem_of_singleton]%elem_of_app; [by apply F3|done].
  - intros o Ho. destruct (Z.lt_ge_cases o cursor) as [Hlt|Hge].
    + specialize (F4 o ltac:(lia)). destruct (byte_at m o); [done|]. destruct F4 as (a & x & Hin & Hv). exists a, x.
      split; [apply elem_of_app; by left|done].
    + destruct (Hg o ltac:(lia)) as [-> _]. exists cursor, b. split; [apply elem_of_app; right; left|lia].
Qed.

(** A piece that says the same. *)
Lemma filled_piece m start d cursor fresh n :
  filled m start d cursor fresh -> start <= cursor -> 0 <= n ->
  (forall o, cursor <= o < cursor + n -> is_Some (byte_at m o) /\ byte_at m o = d !! Z.to_nat (o - start)) ->
  filled m start d (cursor + n) fresh.
Proof.
  intros [F1 F2 F3 F4] Hc Hn Hp. split; try done.
  - intros a b H. destruct (F2 _ _ H) as (? & ? & ?). split; [done|lia].
  - intros o Ho. destruct (Z.lt_ge_cases o cursor) as [Hlt|Hge]; [apply F4; lia|].
    destruct (Hp o ltac:(lia)) as [[x Hx] He]. rewrite Hx in *. done.
Qed.

(** Where the loop is: the gaps up to [cursor], and the pieces from there. *)
Record at_cursor (m : list (Z * Piece)) (start : Z) (d : list Z) (inside : list (Z * Z))
    (fresh : list (Z * list Z)) (cursor : Z) : Prop := mk_at_cursor {
  ac_bounds : 0 <= start <= cursor /\ cursor <= start + len d;
  ac_filled : filled m start d cursor fresh;
  ac_ends : forall a b, (a, b) ∈ fresh -> a + len b < cursor;
  ac_before : forall a p, (a, p) ∈ m -> a < cursor -> a + len (data p) <= cursor \/ cursor = start + len d;
  ac_sorted : sorted inside;
  ac_inside : forall a n, (a, n) ∈ inside <-> exists p, (a, p) ∈ m /\ n = len (data p) /\ cursor <= a < start + len d;
}.

(** No piece has a byte from [cursor] to the next piece inside. *)
Lemma at_cursor_hole m start d inside fresh cursor o e :
  apart (spans m) -> at_cursor m start d inside fresh cursor -> cursor <= o < e -> e <= start + len d ->
  (forall a n, (a, n) ∈ inside -> e <= a) -> byte_at m o = None.
Proof.
  intros Hm [_ _ _ Hb _ Hi] Ho He Hlow. apply byte_at_none; [done|]. intros (a & e' & Hin & Hv).
  apply me_in in Hin as (p & Hin & ->). destruct (Z.lt_ge_cases a cursor) as [Hlt|Hge].
  - destruct (Hb _ _ Hin Hlt); lia.
  - assert (Hin' : (a, len (data p)) ∈ inside) by (apply Hi; exists p; split; [done|split; [done|lia]]). specialize (Hlow _ _ Hin'). lia.
Qed.

(** The gap before the next piece, when there is one. *)
Lemma gap_step m start d inside fresh cursor e :
  apart (spans m) -> at_cursor m start d inside fresh cursor -> cursor <= e <= start + len d ->
  (forall a n, (a, n) ∈ inside -> e <= a) ->
  exists fresh', (if cursor <? e then x ← sliced 0 (e - cursor) (drop (Z.to_nat (cursor - start)) d); Ok (fresh ++ [(cursor, x)]) else Ok fresh) = Ok fresh' /\
    filled m start d e fresh' /\ (forall a b, (a, b) ∈ fresh' -> a + len b <= e).
Proof.
  intros Hm Hc He Hlow. assert (Hb := ac_bounds _ _ _ _ _ _ Hc). destruct (Z.ltb_spec cursor e) as [Hlt|Hge].
  - set (rest := drop (Z.to_nat (cursor - start)) d). assert (Hr : len rest = start + len d - cursor) by (unfold rest; rewrite len_drop; lia).
    destruct (slice_some 0 (e - cursor) rest) as (x & Hx & Lx & Ex); [lia|lia|]. unfold sliced. rewrite Hx. cbn [mbind result_bind].
    exists (fresh ++ [(cursor, x)]). split; [done|]. split.
    + replace e with (cursor + len x) by lia. apply filled_gap; [apply Hc|lia| |by apply Hc|].
      * intros ->. change (len (@nil Z)) with 0 in Lx. lia.
      * intros o Ho. split; [by eapply (at_cursor_hole _ _ _ _ _ _ o e Hm Hc); [lia|lia|]|].
        rewrite Ex by lia. unfold rest. rewrite lookup_drop. f_equal. lia.
    + intros a b [H|[= -> ->]%list_elem_of_singleton]%elem_of_app; [|lia]. assert (H' := ac_ends _ _ _ _ _ _ Hc _ _ H). lia.
  - assert (e = cursor) as -> by lia. exists fresh. split; [done|]. split; [apply Hc|]. intros a b H.
    assert (H' := ac_ends _ _ _ _ _ _ Hc _ _ H). lia.
Qed.

Lemma gaps_ok m start d inside fresh cursor :
  apart (spans m) -> at_cursor m start d inside fresh cursor ->
  match gaps m start d inside fresh cursor (drop (Z.to_nat (cursor - start)) d) with
  | Ok (fresh', cursor', rest') => at_cursor m start d [] fresh' cursor' /\ rest' = drop (Z.to_nat (cursor' - start)) d
  | Err e => e = Inconsistent /\ conflict m start d
  end.
Proof.
  intros Hm. revert fresh cursor. induction inside as [|[a n] inside IH]; intros fresh cursor Hc; [done|]. cbn [gaps].
  assert (Hb := ac_bounds _ _ _ _ _ _ Hc). apply (ac_sorted _ _ _ _ _ _) in Hc as Hs. apply sorted_cons in Hs as [Hf Hs]. rewrite Forall_forall in Hf.
  destruct (proj1 (ac_inside _ _ _ _ _ _ Hc a n) ltac:(left)) as (p & Hin & -> & Ha). assert (Hpb := piece_bounds _ _ _ Hm Hin).
  destruct (gap_step m start d ((a, len (data p)) :: inside) fresh cursor a Hm Hc ltac:(lia)) as (fresh' & Hg & Hfill & Hends).
  { intros a' n' [[= -> ->]|H]%elem_of_cons; [lia|]. apply Hf in H. unfold key_lt in H. simpl in H. lia. }
  rewrite Hg. cbn [mbind result_bind]. rewrite (proj2 (get_in a p m (pieces_sorted _ Hm)) Hin).
  set (tk := Z.min (a + len (data p)) (start + len d) - a).
  destruct (compare_ok m start d a p 0 tk (a - start)) as (x & y & Hx & Hy & Hsame & Hdiff); try done; try lia.
  change (0 + tk) with tk in Hx. rewrite Hx, Hy. cbn [mbind result_bind].
  destruct (bool_decide_reflect (x = y)) as [He|He]; cbn [negb]; [|split; [done|by apply Hdiff]].
  unfold sliced at 1. rewrite slice_end by lia. cbn [mbind result_bind]. apply IH.
  assert (Hnext : forall a' p', (a', p') ∈ m -> a < a' -> a + len (data p) < a').
  { intros a' p' Hin' Hlt. exact (ap_gap _ Hm _ _ _ _ (span_in _ _ _ Hin) (span_in _ _ _ Hin') Hlt). }
  split; [lia| | | |done|].
  - apply filled_piece; [done|lia|lia|]. intros o Ho. specialize (Hsame He o ltac:(lia)). split; [|done]. rewrite Hsame. apply lookup_len; lia.
  - intros a' b' H. specialize (Hends _ _ H). lia.
  - intros a' p' Hin' Hlt. destruct (Z.lt_trichotomy a' a) as [H|[->|H]].
    + assert (Hg' := ap_gap _ Hm _ _ _ _ (span_in _ _ _ Hin') (span_in _ _ _ Hin) H). lia.
    + rewrite (key_unique _ _ _ _ (pieces_sorted _ Hm) Hin' Hin). lia.
    + specialize (Hnext _ _ Hin' H). lia.
  - intros a' n'. split.
    + intros H. destruct (proj1 (ac_inside _ _ _ _ _ _ Hc a' n') ltac:(by right)) as (p' & Hin' & -> & Ha'). exists p'.
      split; [done|]. split; [done|]. apply Hf in H. unfold key_lt in H. simpl in H. specialize (Hnext _ _ Hin' H). lia.
    + intros (p' & Hin' & -> & Ha'). assert (H : (a', len (data p')) ∈ (a, len (data p)) :: inside) by (apply (ac_inside _ _ _ _ _ _ Hc); exists p'; split; [done|split; [done|lia]]).
      apply elem_of_cons in H as [[= -> _]|H]; [lia|done].
Qed.

(** ** Adding the gaps *)

(** The gaps are holes of the buffer, and no two touch. *)
Record addable (m : list (Z * Piece)) (rd : Z) (fresh : list (Z * list Z)) : Prop := mk_addable {
  ad_sep : StronglySorted (fun x y => fst x + len (snd x) < fst y) fresh;
  ad_seg : forall a b, (a, b) ∈ fresh -> b <> [] /\ rd <= a /\ a + len b <= U64_MAX;
  ad_hole : forall a b, (a, b) ∈ fresh -> forall o, a <= o < a + len b -> byte_at m o = None;
}.

Lemma add_all m0 fresh r :
  apart (spans m0) -> wf r -> addable m0 (read_off r) fresh ->
  (forall a b, (a, b) ∈ fresh -> forall o, a - 1 <= o -> byte_at (pieces r) o = byte_at m0 o) ->
  let r' := fold_left (fun r x => add (fst x) (snd x) r) fresh r in
  wf r' /\ read_off r' = read_off r /\
  (forall a b, (a, b) ∈ fresh -> forall o, a <= o < a + len b -> byte_at (pieces r') o = b !! Z.to_nat (o - a)) /\
  (forall o, (forall a b, (a, b) ∈ fresh -> ~ a <= o < a + len b) -> byte_at (pieces r') o = byte_at (pieces r) o) /\
  len (pieces r') = fold_left (fun n x => n + joins (joins_left m0 (fst x)) (contains_key (fst x + len (snd x)) m0)) fresh (len (pieces r)).
Proof.
  intros Hm0. revert r. induction fresh as [|[a b] fresh IH]; intros r Hr [Hsep Hseg Hhole] Hsame; cbn zeta.
  { split; [done|]. split; [done|]. split; [intros a b H; by apply elem_of_nil in H|]. done. }
  apply StronglySorted_inv in Hsep as [Hsep Hf]. rewrite Forall_forall in Hf.
  destruct (Hseg a b ltac:(left)) as (Hb & Hrd & He). assert (Hlb := len_pos _ Hb).
  assert (Hin0 := fun o H => Hsame a b ltac:(left) o H). assert (Hh0 := Hhole a b ltac:(left)).
  destruct (ra_add_ok a b r Hr Hb Hrd He) as (W & R & B & C).
  { intros o Ho. rewrite Hin0 by lia. by apply Hh0. }
  rewrite joins_left_byte, joins_right_byte in C by (try apply Hr; rewrite Hin0 by lia; apply Hh0; lia).
  rewrite !Hin0 in C by lia. rewrite <- joins_left_byte, <- joins_right_byte in C by (try done; apply Hh0; lia).
  cbn [fold_left fst snd]. assert (Hafter : forall a' b', (a', b') ∈ fresh -> a + len b < a').
  { intros a' b' H. apply Hf in H. simpl in H. lia. }
  destruct (IH (add a b r) W) as (W' & R' & B1 & B2 & C').
  { rewrite R. split; [done| |]; intros a' b' H; [by apply Hseg; right|apply Hhole; by right]. }
  { intros a' b' H o Ho. specialize (Hafter _ _ H). rewrite B, decide_False by lia. apply (Hsame a' b'); [by right|done]. }
  split; [done|]. split; [congruence|]. split; [|split; [|by rewrite C', C]].
  - intros a' b' [[= -> ->]|H]%elem_of_cons o Ho; [|by apply B1].
    rewrite B2; [by rewrite B, decide_True by lia|]. intros a' b' H. specialize (Hafter _ _ H). lia.
  - intros o Ho. rewrite B2 by (intros a' b' H; apply Ho; by right). rewrite B, decide_False; [done|]. apply Ho. left.
Qed.

Lemma count_after_joins m fresh :
  count_after m fresh = fold_left (fun n x => n + joins (joins_left m (fst x)) (contains_key (fst x + len (snd x)) m)) fresh (len m).
Proof. done. Qed.

(** ** The whole of [insert] *)

Lemma conflict_shift m start d n :
  0 <= n <= len d -> conflict m (start + n) (drop (Z.to_nat n) d) -> conflict m start d.
Proof.
  intros Hn (o & b & b' & Ho & Hb & Hb' & Hne). rewrite len_drop in Ho by done. exists o, b, b'. split; [lia|]. split; [done|]. split; [|done].
  rewrite lookup_drop in Hb'. rewrite <- Hb'. f_equal. lia.
Qed.

Lemma filled_shift m start d n fresh :
  0 <= n <= len d -> (forall o, start <= o < start + n -> is_Some (byte_at m o) /\ byte_at m o = d !! Z.to_nat (o - start)) ->
  filled m (start + n) (drop (Z.to_nat n) d) (start + len d) fresh -> filled m start d (start + len d) fresh.
Proof.
  intros Hn Hsame [F1 F2 F3 F4].
  assert (Hd : forall o, start + n <= o -> drop (Z.to_nat n) d !! Z.to_nat (o - (start + n)) = d !! Z.to_nat (o - start)).
  { intros o Ho. rewrite lookup_drop. f_equal. lia. }
  split; [done| | |].
  - intros a b H. destruct (F2 _ _ H) as (? & ? & ?). split; [done|lia].
  - intros a b H o Ho. destruct (F3 _ _ H o Ho) as [? He]. split; [done|]. rewrite <- He. symmetry. apply Hd. destruct (F2 _ _ H). lia.
  - intros o Ho. destruct (Z.lt_ge_cases o (start + n)) as [Hlt|Hge].
    + destruct (Hsame o ltac:(lia)) as [[x Hx] He]. rewrite Hx in *. done.
    + specialize (F4 o ltac:(lia)). rewrite Hd in F4 by done. done.
Qed.

Lemma new_ranges_ok m start d :
  apart (spans m) -> 0 <= start ->
  match new_ranges m start d with
  | Ok fresh => filled m start d (start + len d) fresh
  | Err e => e = Inconsistent /\ conflict m start d
  end.
Proof.
  intros Hm H0. unfold new_ranges. assert (Hsf := skip_front_ok m start d Hm H0).
  destruct (skip_front m start d) as [[start' d']|e]; cbn [mbind result_bind]; [|done].
  destruct Hsf as (Hle & He & -> & Hsame & Hhole). set (n := start' - start) in *. replace start' with (start + n) in * by lia. clearbody n.
  assert (Hn := len_nonneg (drop (Z.to_nat n) d)). set (d' := drop (Z.to_nat n) d) in *.
  set (inside := List.map _ _). assert (Hc : at_cursor m (start + n) d' inside [] (start + n)).
  { split; [lia| |intros a b H; by apply elem_of_nil in H| | |].
    - split; [constructor|intros a b H; by apply elem_of_nil in H|intros a b H; by apply elem_of_nil in H|intros; lia].
    - intros a p Hin Hlt. destruct (decide (d' = [])) as [->|Hne]; [right; change (len (@nil Z)) with 0; lia|left].
      specialize (Hhole Hne). apply byte_at_none in Hhole; [|done]. destruct (Z.le_gt_cases (a + len (data p)) (start + n)); [done|].
      destruct Hhole. exists a, (a + len (data p)). split; [by apply span_in|lia].
    - apply (me_sorted (fun _ p => len (data p))), filter_sorted. by apply pieces_sorted.
    - intros a k. unfold inside. etransitivity; [apply (me_in (fun _ p => len (data p)))|]. apply exist_proper. intros p.
      rewrite range_in. cbn [fst]. tauto. }
  assert (Hg := gaps_ok m (start + n) d' inside [] (start + n) Hm Hc). rewrite Z.sub_diag, drop_0 in Hg.
  destruct (gaps m (start + n) d' inside [] (start + n) d') as [[[fresh cursor] rest]|e]; cbn [mbind result_bind].
  - destruct Hg as [Hac Hrest]. assert (Hb := ac_bounds _ _ _ _ _ _ Hac). apply (filled_shift m start d n); [lia|done|]. fold d'.
    destruct rest as [|x rest].
    + assert (cursor = start + len d) as <- by (apply (f_equal len) in Hrest; rewrite len_drop in Hrest by lia; change (len (@nil Z)) with 0 in Hrest; lia).
      apply Hac.
    + assert (Hl : len (x :: rest) = start + len d - cursor) by (rewrite Hrest, len_drop; lia).
      replace (start + len d) with (cursor + len (x :: rest)) by lia. apply filled_gap; [apply Hac|lia|done|by apply Hac|].
      intros o Ho. split; [by eapply (at_cursor_hole _ _ _ _ _ _ o (start + len d) Hm Hac); [lia|lia|intros a k H; by apply elem_of_nil in H]|].
      rewrite Hrest, lookup_drop. f_equal. lia.
  - destruct Hg as [-> Hcf]. split; [done|]. apply (conflict_shift m start d n); [lia|done].
Qed.

(** What the buffer holds once a range is in. *)
Definition merged (r : Reassembler) (offset : Z) (d : list Z) (r' : Reassembler) : Prop :=
  wf r' /\ read_off r' = read_off r /\
  forall o, read_off r <= o -> byte_at (pieces r') o =
    if decide (offset <= o < offset + len d) then d !! Z.to_nat (o - offset) else byte_at (pieces r) o.

Lemma add_ranges_ok r start d fresh :
  wf r -> read_off r <= start -> start + len d <= U64_MAX -> filled (pieces r) start d (start + len d) fresh ->
  let r' := fold_left (fun r x => add (fst x) (snd x) r) fresh r in
  merged r start d r' /\ len (pieces r') = count_after (pieces r) fresh.
Proof.
  intros Hr Hst He [F1 F2 F3 F4]. assert (Hn := len_nonneg d). cbn zeta.
  destruct (add_all (pieces r) fresh r (wf_apart _ Hr) Hr) as (W & R & B1 & B2 & C); [|done|].
  { split; [done| |intros a b H o Ho; by eapply F3]. intros a b H. destruct (F2 _ _ H) as (? & ? & ?). split; [done|lia]. }
  split; [|by rewrite count_after_joins]. split; [done|]. split; [done|]. intros o Ho. case_decide as Hd.
  - specialize (F4 o Hd). destruct (byte_at (pieces r) o) as [x|] eqn:Hx.
    + rewrite F4, <- Hx. apply B2. intros a b H Hin. destruct (F3 _ _ H o Hin) as [H' _]. congruence.
    + destruct F4 as (a & b & H & Hin). destruct (F3 _ _ H o Hin) as [_ ->]. by apply B1.
  - apply B2. intros a b H Hin. destruct (F2 _ _ H) as (_ & ? & ?). lia.
Qed.

(** The bytes of the range that were not read say what is held. *)
Definition agrees (r : Reassembler) (offset : Z) (d : list Z) : Prop :=
  forall o, read_off r <= o -> offset <= o < offset + len d ->
    byte_at (pieces r) o = None \/ byte_at (pieces r) o = d !! Z.to_nat (o - offset).

Lemma filled_agrees m start d fresh o :
  filled m start d (start + len d) fresh -> start <= o < start + len d -> byte_at m o = None \/ byte_at m o = d !! Z.to_nat (o - start).
Proof. intros Hf Ho. assert (H := fl_all _ _ _ _ _ Hf o Ho). destruct (byte_at m o); [by right|by left]. Qed.

(** [insert] past the checks of the window, on the part that was not read. *)
Lemma insert_tail r start d fresh :
  wf r -> read_off r <= start -> start + len d <= U64_MAX -> new_ranges (pieces r) start d = Ok fresh ->
  agrees r start d /\ exists r', merged r start d r' /\ len (pieces r') = count_after (pieces r) fresh /\
    r' = fold_left (fun r x => add (fst x) (snd x) r) fresh r.
Proof.
  intros Hr Hst He Hn. assert (Hok := new_ranges_ok (pieces r) start d (wf_apart _ Hr) ltac:(destruct (wf_read _ Hr); lia)).
  rewrite Hn in Hok. split; [intros o _ Ho; by eapply filled_agrees|]. destruct (add_ranges_ok r start d fresh Hr Hst He Hok). by eexists.
Qed.

Lemma merged_trim r offset d r' :
  offset <= read_off r <= offset + len d -> merged r (read_off r) (drop (Z.to_nat (read_off r - offset)) d) r' -> merged r offset d r'.
Proof.
  intros Ho (W & R & B). split; [done|]. split; [done|]. intros o Hr. rewrite B by done. rewrite len_drop by lia. rewrite lookup_drop.
  destruct (decide (read_off r <= o < read_off r + (len d - (read_off r - offset)))), (decide (offset <= o < offset + len d)); [f_equal; lia|lia|lia|done].
Qed.

Lemma agrees_trim r offset d :
  offset <= read_off r <= offset + len d -> agrees r (read_off r) (drop (Z.to_nat (read_off r - offset)) d) -> agrees r offset d.
Proof.
  intros Ho Ha o Hr Hin. assert (H := Ha o Hr). rewrite len_drop in H by lia. rewrite lookup_drop in H.
  destruct (H ltac:(lia)) as [|H']; [by left|right]. rewrite H'. f_equal. lia.
Qed.

(** What [insert] does, on every branch. *)
Definition inserted (r : Reassembler) (offset : Z) (d : list Z) (window : Z) (x : res Reassembler) : Prop :=
  let end_ := offset + len d in
  match x with
  | Ok r' => end_ <= U64_MAX /\ end_ <= read_off r + window /\ agrees r offset d /\ merged r offset d r' /\
      (within_limit r -> within_limit r')
  | Err Exceeded => U64_MAX < end_ \/ read_off r + window < end_ \/
      exists r', merged r offset d r' /\ ~ within_limit r'
  | Err Inconsistent => conflict (pieces r) offset d
  | Err (Fault _) => False
  end.

Lemma ra_insert_ok r offset d window :
  wf r -> 0 <= offset -> 0 <= window -> inserted r offset d window (insert offset d window r).
Proof.
  intros Hr H0 Hw. unfold insert, inserted. assert (Hrd := wf_read _ Hr). assert (Hn := len_nonneg d). unfold checked_add.
  destruct (Z.leb_spec (offset + len d) U64_MAX) as [He|He]; [|by left].
  unfold sat_add. destruct (Z.ltb_spec (Z.min U64_MAX (read_off r + window)) (offset + len d)) as [Hx|Hx]; [right; left; lia|].
  destruct (Z.leb_spec (offset + len d) (read_off r)) as [Hdone|Hnew].
  { split; [done|]. split; [lia|]. split; [intros o Ho Hin; lia|]. split; [|done]. split; [done|]. split; [done|].
    intros o Ho. by rewrite decide_False by lia. }
  set (n := Z.max 0 (read_off r - offset)).
  assert (Hsd : (if offset <? read_off r then d' ← sliced (read_off r - offset) (len d) d; Ok (read_off r, d') else Ok (offset, d))
    = (Ok (offset + n, drop (Z.to_nat n) d) : res _)).
  { destruct (Z.ltb_spec offset (read_off r)) as [Hlt|Hge].
    - unfold sliced. rewrite slice_end by lia. unfold n. rewrite Z.max_r by lia. cbn [mbind result_bind]. do 2 f_equal. lia.
    - unfold n. rewrite Z.max_l by lia. change (Z.to_nat 0) with 0%nat. rewrite drop_0. do 2 f_equal. lia. }
  rewrite Hsd. cbn [mbind result_bind fst snd]. clear Hsd.
  assert (Hln : len (drop (Z.to_nat n) d) = len d - n) by (apply len_drop; lia).
    assert (Hnv : n = Z.max 0 (read_off r - offset)) by done. clearbody n.
  assert (Hmerged : forall r', merged r (offset + n) (drop (Z.to_nat n) d) r' -> merged r offset d r').
  { intros r'. destruct (Z.lt_ge_cases offset (read_off r)) as [Hlt|Hge].
    - replace (offset + n) with (read_off r) by lia. replace n with (read_off r - offset) by lia. apply merged_trim. lia.
    - replace n with 0 by lia. by rewrite Z.add_0_r, drop_0. }
  assert (Hagrees : agrees r (offset + n) (drop (Z.to_nat n) d) -> agrees r offset d).
  { destruct (Z.lt_ge_cases offset (read_off r)) as [Hlt|Hge].
    - replace (offset + n) with (read_off r) by lia. replace n with (read_off r - offset) by lia. apply agrees_trim. lia.
    - replace n with 0 by lia. by rewrite Z.add_0_r, drop_0. }
  destruct (new_ranges (pieces r) (offset + n) (drop (Z.to_nat n) d)) as [fresh|e] eqn:Hnr; cbn [mbind result_bind].
  - destruct (insert_tail r (offset + n) (drop (Z.to_nat n) d) fresh Hr ltac:(lia) ltac:(lia) Hnr) as (Ha & r' & Hm & Hc & ->).
    rewrite <- Hc. destruct (Z.ltb_spec (Z.of_nat MAX_PIECES) (len (pieces (fold_left (fun r x => add (fst x) (snd x) r) fresh r)))) as [Hmany|Hfew].
    + right. right. eexists. split; [by apply Hmerged|]. unfold within_limit, len in *. lia.
    + split; [done|]. split; [lia|]. split; [by apply Hagrees|]. split; [by apply Hmerged|]. intros _. unfold within_limit, len in *. lia.
  - assert (Hok := new_ranges_ok (pieces r) (offset + n) (drop (Z.to_nat n) d) (wf_apart _ Hr) ltac:(lia)). rewrite Hnr in Hok. destruct Hok as [-> Hcf].
    apply (conflict_shift (pieces r) offset d n); [lia|done].
Qed.

Lemma wf_new : wf new.
Proof.
  split; [apply apart_nil|intros a p H; by apply elem_of_nil in H|unfold new, U64_MAX; simpl; lia|done].
Qed.

(** ** [read], [discard] and [take] *)

(** The bytes from an offset to the first hole. *)
Definition run_at (m : list (Z * Piece)) (o : Z) (out : list Z) : Prop :=
  forall i, (i < length out)%nat -> byte_at m (o + Z.of_nat i) = out !! i.

Lemma byte_low r o : wf r -> o < read_off r -> byte_at (pieces r) o = None.
Proof.
  intros Hr Ho. apply byte_at_none; [apply Hr|]. intros (a & e & Hin & Hv). apply me_in in Hin as (p & Hin & ->).
  assert (H := wf_low _ Hr _ _ Hin). lia.
Qed.

Lemma ra_remove_head k p (m : list (Z * Piece)) : sorted ((k, p) :: m) -> BTree.remove k ((k, p) :: m) = m.
Proof.
  intros Hs. apply sorted_ext; [by apply remove_sorted| |]; apply sorted_cons in Hs as Hs'; destruct Hs' as [Hf Hs']; [done|].
  rewrite Forall_forall in Hf. intros e. rewrite remove_in, elem_of_cons. split; [by intros [[->|H] Hne]|]. intros H. split; [by right|].
  apply Hf in H. unfold key_lt in H. simpl in H. lia.
Qed.

(** The first piece begins at the read offset; [k] bytes of it are taken. *)
Lemma ra_advance_ok r at_ p rest k :
  wf r -> pieces r = (at_, p) :: rest -> at_ = read_off r -> (k <= length (data p))%nat ->
  let p' := mk_piece (bytes p) (pos p + k) in
  let r' := mk_reassembler (read_off r + Z.of_nat k)
    (match data p' with [] => rest | _ => BTree.insert (at_ + Z.of_nat k) p' rest end) (held r - Z.of_nat k) in
  wf r' /\ run_at (pieces r) (read_off r) (take k (data p)) /\ byte_at (pieces r) (read_off r + len (data p)) = None /\
  (forall o, byte_at (pieces r') o = if decide (o < read_off r') then None else byte_at (pieces r) o) /\
  (within_limit r -> within_limit r').
Proof.
  intros Hr Hp Hat Hk. destruct r as [rd m h]. destruct Hr as [Hm Hlow Hrd Hheld]. cbn [pieces read_off held] in *. subst m. subst at_. cbn zeta.
  assert (Hin : (rd, p) ∈ (rd, p) :: rest) by left. assert (Hpb := piece_bounds _ _ _ Hm Hin). assert (Hs := pieces_sorted _ Hm).
  assert (Hbr := fun o => byte_at_remove _ rd p o Hm Hin). rewrite ra_remove_head in Hbr by done.
  assert (Hmr : apart (spans rest)) by (rewrite <- (ra_remove_head rd p rest Hs), me_remove; by apply apart_remove).
  assert (Hrest : forall a q, (a, q) ∈ rest -> rd + len (data p) < a).
  { intros a q H. apply (ap_gap _ Hm _ _ _ _ (span_in _ _ _ Hin) (span_in _ a q ltac:(by right))).
    apply sorted_cons in Hs as [Hf _]. rewrite Forall_forall in Hf. exact (Hf _ H). }
  assert (Hbytes : forall o, rd <= o < rd + len (data p) -> byte_at ((rd, p) :: rest) o = data p !! Z.to_nat (o - rd)).
  { intros o Ho. destruct (proj2 (lookup_len (data p) (o - rd) ltac:(lia)) ltac:(lia)) as [b Hb]. rewrite Hb. apply byte_at_in; [done|].
    exists rd, p. split; [done|]. split; [lia|done]. }
  set (p' := mk_piece (bytes p) (pos p + k)). assert (Hd' : data p' = drop k (data p)) by (unfold data, p'; simpl; by rewrite drop_drop).
  assert (Hl' : len (data p') = len (data p) - Z.of_nat k) by (rewrite Hd'; unfold len in *; rewrite length_drop; lia).
  cbn [foldr snd] in Hheld. fold (total rest) in Hheld.
  assert (Hrun : run_at ((rd, p) :: rest) rd (take k (data p))).
  { intros i Hi. rewrite length_take in Hi. rewrite lookup_take_lt by lia. unfold len in *. rewrite Hbytes by lia. f_equal. lia. }
  assert (Hend : byte_at ((rd, p) :: rest) (rd + len (data p)) = None).
  { assert (H := Hbr (rd + len (data p))). rewrite decide_False in H by lia. rewrite <- H. apply byte_at_none; [done|].
    intros (a & e & H1 & Hv). apply me_in in H1 as (q & H1 & ->). specialize (Hrest _ _ H1). lia. }
  clearbody p'. destruct (data p') as [|x l] eqn:Hdp.
  - change (len (@nil Z)) with 0 in Hl'. split; [|split; [done|split; [done|split]]].
    + split; cbn [pieces read_off held]; [done| |lia|change (foldr _ 0 ?x) with (total x); lia]. intros a q H. specialize (Hrest _ _ H). lia.
    + intros o. cbn [pieces read_off]. rewrite Hbr. destruct (Z.lt_ge_cases o rd) as [Hlt|Hge].
      * rewrite decide_False by lia. rewrite decide_True by lia. by apply (byte_low (mk_reassembler rd ((rd, p) :: rest) h)).
      * destruct (decide (rd <= o < rd + len (data p))), (decide (o < rd + Z.of_nat k)); (done || lia).
    + unfold within_limit. simpl. lia.
  - rewrite <- Hdp in Hl'. assert (Hpos : 0 < len (data p')) by (apply len_pos; by rewrite Hdp).
    destruct (put_joined rest (rd + Z.of_nat k) p' 0 Hmr) as (A & _ & T & L); [lia|lia|lia|intros a q H; specialize (Hrest _ _ H); lia|].
    split; [|split; [done|split; [done|split]]].
    + split; cbn [pieces read_off held]; [done| |lia|change (foldr _ 0 ?x) with (total x); lia].
      intros a q [[= -> ->]|[_ H]]%insert_in; [lia| |by apply pieces_sorted]. specialize (Hrest _ _ H). lia.
    + intros o. cbn [pieces read_off]. rewrite (byte_at_insert rest (rd + Z.of_nat k) p' o A Hmr) by (intros q H; specialize (Hrest _ _ H); lia).
      rewrite Hbr. destruct (Z.lt_ge_cases o rd) as [Hlt|Hge].
      * rewrite decide_False by lia. rewrite decide_False by lia. rewrite decide_True by lia. by apply (byte_low (mk_reassembler rd ((rd, p) :: rest) h)).
      * case_decide as H1; [rewrite decide_False by lia; rewrite Hbytes by lia; rewrite Hdp, Hd', lookup_drop; f_equal; lia|].
        destruct (decide (rd <= o < rd + len (data p))), (decide (o < rd + Z.of_nat k)); (done || lia).
    + unfold within_limit, len in *. cbn [pieces length]. lia.
Qed.

(** What the calls that take from the front do: [n] bytes go, [out] is what
    they were. *)
Definition advanced (r : Reassembler) (out : list Z) (r' : Reassembler) : Prop :=
  wf r' /\ read_off r' = read_off r + len out /\ run_at (pieces r) (read_off r) out /\
  (forall o, byte_at (pieces r') o = if decide (o < read_off r') then None else byte_at (pieces r) o) /\
  (within_limit r -> within_limit r').

Lemma advanced_refl r : wf r -> advanced r [] r.
Proof.
  intros Hr. split; [done|]. split; [change (len (@nil Z)) with 0; lia|]. split; [intros i Hi; simpl in Hi; lia|]. split; [|done].
  intros o. case_decide; [by apply byte_low|done].
Qed.

(** Nothing at the read offset. *)
Lemma head_hole r : wf r -> (forall at_ p rest, pieces r = (at_, p) :: rest -> at_ <> read_off r) -> byte_at (pieces r) (read_off r) = None.
Proof.
  intros Hr Hne. apply byte_at_none; [apply Hr|]. intros (a & e & Hin & Hv). apply me_in in Hin as (p & Hin & ->).
  assert (Hs := pieces_sorted _ (wf_apart _ Hr)). destruct (pieces r) as [|[at_ q] rest] eqn:Hp; [by apply elem_of_nil in Hin|].
  assert (Hl := wf_low _ Hr at_ q ltac:(rewrite Hp; left)). assert (Hh := head_least _ _ _ Hs Hin). simpl in Hh.
  apply (Hne at_ q rest); [done|lia].
Qed.

Lemma read_ok cap r :
  wf r -> let '(out, r') := read cap r in
  advanced r out r' /\ (length out <= cap)%nat /\
  ((length out < cap)%nat -> byte_at (pieces r) (read_off r + len out) = None).
Proof.
  intros Hr. unfold read. assert (Hnone : (forall at_ p rest, pieces r = (at_, p) :: rest -> at_ <> read_off r) ->
    advanced r [] r /\ (0 <= cap)%nat /\ ((0 < cap)%nat -> byte_at (pieces r) (read_off r + len (@nil Z)) = None)).
  { intros H. split; [by apply advanced_refl|]. split; [lia|]. intros _. change (len (@nil Z)) with 0. rewrite Z.add_0_r. by apply head_hole. }
  destruct (pieces r) as [|[at_ p] rest] eqn:Hp; [by apply Hnone|]. rewrite <- Hp in *.
  destruct (Z.eqb_spec at_ (read_off r)) as [Hat|Hne]; cbn [negb]; [|apply Hnone; rewrite Hp; intros a q l [= <- <- <-]; done].
  set (k := Nat.min (length (data p)) cap). destruct (ra_advance_ok r at_ p rest k Hr Hp Hat ltac:(lia)) as (W & Hrun & Hend & Hb & Hlim).
  assert (Hlt : length (take k (data p)) = k) by (rewrite length_take; lia).
  split; [|split; [lia|]].
  - split; [done|]. split; [cbn [read_off]; unfold len; lia|done].
  - intros Hlc. replace (len (take k (data p))) with (len (data p)) by (unfold len; lia). done.
Qed.

Lemma readable_len r : readable r = match pieces r with (at_, p) :: _ => if at_ =? read_off r then len (data p) else 0 | [] => 0 end.
Proof. unfold readable. destruct (pieces r) as [|[at_ p] rest]; done. Qed.

Lemma take_all_ok r :
  wf r -> let '(out, r') := take_all r in
  advanced r out r' /\ len out = readable r /\ byte_at (pieces r) (read_off r + len out) = None.
Proof.
  intros Hr. unfold take_all. rewrite readable_len. unfold read. destruct (pieces r) as [|[at_ p] rest] eqn:Hp.
  - split; [by apply advanced_refl|]. split; [done|]. change (len (@nil Z)) with 0. rewrite <- Hp, Z.add_0_r. apply head_hole; [done|]. by rewrite Hp.
  - rewrite <- Hp. destruct (Z.eqb_spec at_ (read_off r)) as [Hat|Hne]; cbn [negb].
    + replace (Nat.min (length (data p)) (Z.to_nat (len (data p)))) with (length (data p)) by (unfold len; lia).
      destruct (ra_advance_ok r at_ p rest (length (data p)) Hr Hp Hat ltac:(lia)) as (W & Hrun & Hend & Hb & Hlim).
      rewrite take_ge in Hrun |- * by lia. split; [|split; done]. split; [done|]. split; [done|]. split; [done|]. split; [done|]. exact Hlim.
    + split; [by apply advanced_refl|]. split; [done|]. change (len (@nil Z)) with 0. rewrite Z.add_0_r. apply head_hole; [done|].
      rewrite Hp. by intros a q l [= <- <- <-].
Qed.

(** [discard] leaves what reading everything leaves. *)
Lemma discard_take r : let '(n, r') := discard r in let '(out, r'') := take_all r in n = len out /\ r' = r''.
Proof.
  unfold discard, take_all. rewrite readable_len. unfold read. destruct (pieces r) as [|[at_ p] rest]; [done|].
  destruct (at_ =? read_off r); cbn [negb]; [|done]. replace (Nat.min (length (data p)) (Z.to_nat (len (data p)))) with (length (data p)) by (unfold len; lia).
  rewrite take_ge by lia. split; [done|].
  unfold len. f_equal. unfold data at 1. cbn [pos bytes]. rewrite drop_ge; [done|]. unfold data. rewrite length_drop. lia.
Qed.

Lemma end_offset_ok r o : wf r -> is_Some (byte_at (pieces r) o) -> o < end_offset r.
Proof.
  intros Hr [b Hb]. apply byte_at_in in Hb as (a & p & Hin & Hle & Hb); [|apply Hr].
  assert (Hl : o - a < len (data p)) by (apply lookup_len; [lia|by eexists]). assert (Hs := pieces_sorted _ (wf_apart _ Hr)). unfold end_offset.
  destruct (last (pieces r)) as [[a' p']|] eqn:Hlast.
  - destruct (last_greatest _ _ Hs Hlast) as [Hin' Hg]. specialize (Hg _ Hin). simpl in Hg. destruct (Z.eq_dec a a') as [<-|Hne].
    + rewrite (key_unique _ _ _ _ Hs Hin' Hin). lia.
    + assert (H := ap_gap _ (wf_apart _ Hr) _ _ _ _ (span_in _ _ _ Hin) (span_in _ _ _ Hin') ltac:(lia)).
      assert (H' := piece_bounds _ _ _ (wf_apart _ Hr) Hin'). lia.
  - apply last_none in Hlast. rewrite Hlast in Hin. by apply elem_of_nil in Hin.
Qed.

(** The end of what is held: the read offset, or just past a byte. *)
Lemma end_offset_held r : wf r -> end_offset r = read_off r \/ is_Some (byte_at (pieces r) (end_offset r - 1)).
Proof.
  intros Hr. assert (Hs := pieces_sorted _ (wf_apart _ Hr)). unfold end_offset. destruct (last (pieces r)) as [[a p]|] eqn:Hl; [|left; lia].
  destruct (last_greatest _ _ Hs Hl) as [Hin _]. assert (Hb := piece_bounds _ _ _ (wf_apart _ Hr) Hin). assert (Hlow := wf_low _ Hr _ _ Hin).
  right. rewrite Z.max_l by lia. destruct (proj2 (lookup_len (data p) (len (data p) - 1) ltac:(lia)) ltac:(lia)) as [b Hb'].
  exists b. apply byte_at_in; [apply Hr|]. exists a, p. split; [done|]. split; [lia|]. rewrite <- Hb'. f_equal. lia.
Qed.

Lemma end_offset_low r : read_off r <= end_offset r.
Proof. unfold end_offset. lia. Qed.

(** What an insertion and a reading leave of it. *)
Lemma end_offset_merged r offset d r' : wf r -> merged r offset d r' -> end_offset r' <= Z.max (end_offset r) (offset + len d).
Proof.
  intros Hr (Hr' & Hrd & Hb). assert (Hlow := end_offset_low r). destruct (end_offset_held r' Hr') as [H|H]; [lia|].
  destruct (Z.lt_ge_cases (end_offset r' - 1) (read_off r)) as [Hlt|Hge]; [lia|]. rewrite Hb in H by done. case_decide; [lia|].
  apply (end_offset_ok r _ Hr) in H. lia.
Qed.

Lemma end_offset_advanced r out r' : wf r -> advanced r out r' -> read_off r <= read_off r' <= end_offset r /\ end_offset r' <= end_offset r.
Proof.
  intros Hr (Hr' & Hrd & Hrun & Hb & _). assert (Hlow := end_offset_low r). assert (Hn := len_nonneg out).
  assert (Hle : read_off r' <= end_offset r).
  { destruct (Z.eq_dec (len out) 0) as [Hz|Hz]; [lia|]. assert (Hi : (length out - 1 < length out)%nat) by (unfold len in *; lia).
    assert (Hlt : is_Some (byte_at (pieces r) (read_off r + Z.of_nat (length out - 1)))) by (rewrite (Hrun _ Hi); by apply lookup_lt_is_Some).
    apply (end_offset_ok r _ Hr) in Hlt. unfold len in *. lia. }
  split; [lia|]. destruct (end_offset_held r' Hr') as [H|H]; [lia|]. rewrite Hb in H. case_decide; [by destruct H|]. apply (end_offset_ok r _ Hr) in H. lia.
Qed.

(** Reading nothing changes nothing. *)
Lemma read_none cap r b : wf r -> read cap r = ([], b) -> b = r.
Proof.
  intros Hr. unfold read. destruct r as [rd m h]. cbn [pieces read_off held]. destruct m as [|[a p] rest] eqn:Hm; [by intros [= <-]|].
  destruct (Z.eqb_spec a rd) as [->|]; cbn [negb]; [|by intros [= <-]].
  destruct (piece_bounds _ _ _ (wf_apart _ Hr) ltac:(left)) as (_ & Hpos & _). intros H. injection H as Ht <-.
  assert (Hz : Nat.min (length (data p)) cap = 0%nat) by (apply (f_equal length) in Ht; rewrite length_take in Ht; cbn in Ht; lia). rewrite Hz, Nat.add_0_r, Z.add_0_r, Z.sub_0_r.
  destruct p as [bs ps]. cbn [Reassembly.bytes pos]. destruct (data (mk_piece bs ps)) eqn:Hd; [done|]. f_equal.
  assert (Hs := pieces_sorted _ (wf_apart _ Hr)). cbn [pieces] in Hs. apply sorted_above in Hs as [Hs _]. destruct rest as [|[a' p'] rest]; [done|]. cbn [BTree.insert].
  specialize (Hs (a', p') ltac:(left)). cbn in Hs. by rewrite (proj2 (Z.ltb_lt _ _)).
Qed.

(** No more is held than lies between the two. *)
Lemma total_bound m lo : apart (spans m) -> (forall a p, (a, p) ∈ m -> lo <= a) ->
  total m <= match last m with Some (a, p) => a + len (data p) - lo | None => 0 end.
Proof.
  revert lo. induction m as [|[a p] m IH]; intros lo Hm Hlo; [done|]. change (total ((a, p) :: m)) with (len (data p) + total m).
  change (spans ((a, p) :: m)) with ((a, a + len (data p)) :: spans m) in Hm. apply apart_cons in Hm as (_ & _ & Hm & Hg). assert (Hap := Hlo a p ltac:(left)).
  specialize (IH (a + len (data p)) Hm). destruct m as [|[a1 p1] m]; [cbn; lia|]. change (last ((a, p) :: (a1, p1) :: m)) with (last ((a1, p1) :: m)).
  assert (H : forall a' p', (a', p') ∈ (a1, p1) :: m -> a + len (data p) <= a') by (intros a' p' Hin; specialize (Hg _ _ (span_in _ _ _ Hin)); lia). specialize (IH H).
  destruct (last ((a1, p1) :: m)) as [[a2 p2]|] eqn:Hl; [lia|by apply last_none in Hl].
Qed.

Lemma held_bound r : wf r -> 0 <= held r <= end_offset r - read_off r.
Proof.
  intros Hr. assert (Ht := total_bound (pieces r) (read_off r) (wf_apart _ Hr) (fun a p => wf_low _ Hr a p)). assert (Hn := total_nonneg (pieces r)).
  rewrite (wf_held _ Hr). fold (total (pieces r)). unfold end_offset. destruct (last (pieces r)) as [[a p]|]; lia.
Qed.

(** ** The properties *)

(** C24: what [insert] does on every branch.  It takes the range when it ends
    within the window and says again what is held: the buffer then holds just
    what it held and the bytes of the range that have not been read, its
    pieces are merged and their number within the bound.  It refuses with
    [Exceeded] only when the range ends past the window (or past [u64]) or
    would leave more than [MAX_PIECES] pieces, with [Inconsistent] only when
    a byte of the range differs from one that is held, and none of its slices
    panics. *)
Theorem insert_stream :
  wf new /\ within_limit new /\
  forall r offset d window, wf r -> 0 <= offset -> 0 <= window -> inserted r offset d window (insert offset d window r).
Proof.
  split; [exact wf_new|]. split; [unfold within_limit; simpl; lia|]. exact ra_insert_ok.
Qed.

Definition one_piece : Reassembler := mk_reassembler 0 [(2, mk_piece [7; 8] 0)] 2.

Lemma one_piece_wf : wf one_piece.
Proof. assert (H := ra_insert_ok new 2 [7; 8] 10 wf_new ltac:(lia) ltac:(lia)). vm_compute in H. apply H. Qed.

Lemma insert_stream_witness :
  inserted one_piece 1 [6; 7; 8; 9] 10 (insert 1 [6; 7; 8; 9] 10 one_piece) /\
  insert 1 [6; 7; 8; 9] 10 one_piece = Ok (mk_reassembler 0 [(1, mk_piece [6; 7; 8; 9] 0)] 4) /\
  insert 1 [6; 5] 10 one_piece = Err Inconsistent.
Proof.
  split; [|split; vm_compute; reflexivity]. destruct insert_stream as (_ & _ & H). apply H; [exact one_piece_wf|lia|lia].
Defined.

(** [read] and [take] give the bytes at the read offset, in order and
    without a gap, and stop only at the end of the buffer they fill or at a
    hole; they leave the rest of what is held as it was, and [discard] leaves
    what [take] leaves.  No byte that is held lies at or past
    [end_offset]. *)
Theorem read_stream r cap :
  wf r ->
  (let '(out, r') := read cap r in
   advanced r out r' /\ (length out <= cap)%nat /\
   ((length out < cap)%nat -> byte_at (pieces r) (read_off r + len out) = None)) /\
  (let '(out, r') := take_all r in
   advanced r out r' /\ len out = readable r /\ byte_at (pieces r) (read_off r + len out) = None) /\
  (let '(n, r') := discard r in let '(out, r'') := take_all r in n = len out /\ r' = r'') /\
  (forall o, is_Some (byte_at (pieces r) o) -> o < end_offset r).
Proof.
  intros Hr. split; [by apply read_ok|]. split; [by apply take_all_ok|]. split; [apply discard_take|]. intros o. by apply end_offset_ok.
Qed.

Lemma read_stream_witness :
  let r := mk_reassembler 0 [(0, mk_piece [5; 6; 7; 8] 0)] 4 in
  read 3 r = ([5; 6; 7], mk_reassembler 3 [(3, mk_piece [5; 6; 7; 8] 3)] 1) /\
  byte_at (pieces r) 4 = None.
Proof.
  assert (Hr : wf (mk_reassembler 0 [(0, mk_piece [5; 6; 7; 8] 0)] 4)).
  { assert (H := ra_insert_ok one_piece 0 [5; 6; 7; 8] 10 one_piece_wf ltac:(lia) ltac:(lia)). vm_compute in H. apply H. }
  split; [done|]. destruct (read_stream _ 5 Hr) as ((_ & _ & H) & _). apply H. simpl. lia.
Defined.
