(* ===== verification/SendBuf.v ===== *)
(** What is to be sent of a stream: [pratique/src/quic/sendbuf.rs].

    A [SendBuf] keeps the bytes written until they are acknowledged.  Its
    abstract state is the stream written ([wf] names it) and what became of
    each position of it ([status]: never sent, in flight, lost, acknowledged;
    the end of the stream is the position after the last byte).  Each
    operation changes the statuses it names and no other, a chunk carries the
    bytes of the stream at its range, and no position that is acknowledged is
    ever given out again. *)

From Stdlib Require Import ZArith Lia.
From stdpp Require Import base option sorting numbers list_numbers sets list.
From S2P Require Import Prelude BTree Slice RangeSet.

#[local] Open Scope Z_scope.

(** ** The operations *)

Record Chunk := mk_chunk { ck_offset : Z; ck_len : Z; ck_fin : bool; ck_new : Z }.

Record SendBuf := mk_sendbuf {
  data : list Z;
  base : Z;
  fin : bool;
  next : Z;
  acked : RangeSet;
  lost : RangeSet;
}.

Definition new : SendBuf := mk_sendbuf [] 0 false 0 RangeSet.new RangeSet.new.

Definition set_lost (l : RangeSet) (s : SendBuf) : SendBuf := mk_sendbuf (data s) (base s) (fin s) (next s) (acked s) l.

Abbreviation res := (result fault).

(** The set of an insertion. *)
Definition put (r : Z * Z) (s : RangeSet) : res RangeSet :=
  match RangeSet.insert r s with Some (_, s') => Ok s' | None => Err NoFuel end.

Definition written (s : SendBuf) : Z := u64 (base s + len (data s)).

Definition end_ (s : SendBuf) : Z := u64 (written s + b2z (fin s)).

Definition buffered (s : SendBuf) : Z := len (data s).

Definition is_finished (s : SendBuf) : bool := fin s.

Definition write (d : list Z) (s : SendBuf) : res SendBuf :=
  if fin s then Err Panic else Ok (mk_sendbuf (data s ++ d) (base s) (fin s) (next s) (acked s) (lost s)).

Definition finish (s : SendBuf) : SendBuf := mk_sendbuf (data s) (base s) true (next s) (acked s) (lost s).

Definition has_pending (s : SendBuf) : bool := negb (is_empty (lost s)) || (next s <? end_ s).

Definition has_pending_within (limit : Z) (s : SendBuf) : bool :=
  negb (is_empty (lost s)) || (next s <? Z.min (written s) limit) || (fin s && (next s =? written s)).

Definition is_fully_acked (s : SendBuf) : bool :=
  fin s && (base s =? written s) && contains (acked s) (written s).

Definition next_offset (s : SendBuf) : option Z :=
  match RangeSet.min (lost s) with
  | Some l => Some l
  | None => if next s <? end_ s then Some (next s) else None
  end.

Definition sent (s : SendBuf) : Z := Z.min (next s) (written s).

Definition peek_len (limit : Z) (s : SendBuf) : Z :=
  match RangeSet.first (lost s) with
  | Some (a, e) => if a <? written s then u64 (Z.min e (written s) - a) else 0
  | None => sat_sub (Z.min (written s) limit) (next s)
  end.

(** [next_chunk] when something is lost; [first] is the lowest lost
    position. *)
Definition lost_chunk (max_len first : Z) (s : SendBuf) : res (option Chunk * SendBuf) :=
  let w := written s in
  '(end_of_data, n) ← (if first <? w
    then
      match RangeSet.first (lost s) with
      | None => Err Panic
      | Some (a, e) => let end_of_data := Z.min (Z.min e w) (u64 (a + max_len)) in Ok (end_of_data, u64 (end_of_data - a))
      end
    else Ok (Z.min first w, 0));
  let f := fin s && (end_of_data =? w) && contains (lost s) w in
  let l := if f then RangeSet.remove (w, u64 (w + 1)) (lost s) else lost s in
  if (n =? 0) && negb f then Ok (None, s)
  else Ok (Some (mk_chunk first n f 0), set_lost (RangeSet.remove (first, u64 (first + n)) l) s).

Definition next_chunk (max_len limit : Z) (s : SendBuf) : res (option Chunk * SendBuf) :=
  match RangeSet.min (lost s) with
  | Some first => lost_chunk max_len first s
  | None =>
      let w := written s in
      let offset := next s in
      let room := sat_sub (Z.min w limit) offset in
      let n := Z.min room max_len in
      let f := fin s && (u64 (offset + n) =? w) in
      if (n =? 0) && negb f then Ok (None, s)
      else Ok (Some (mk_chunk offset n f n),
               mk_sendbuf (data s) (base s) (fin s) (u64 (u64 (offset + n) + b2z f)) (acked s) (lost s))
  end.

(** The bytes that go to [out]; [(a, b)] is what [as_slices] gives. *)
Definition copy (offset n : Z) (a b : list Z) (s : SendBuf) : res (list Z) :=
  if n =? 0 then Ok []
  else if negb ((base s <=? offset) && (u64 (offset + n) <=? written s)) then Err Panic
  else
    let from := offset - base s in
    if from <? len a
    then
      let tk := Z.min n (len a - from) in
      match slice from (from + tk) a, slice 0 (n - tk) b with
      | Some x, Some y => Ok (x ++ y)
      | _, _ => Err Panic
      end
    else match slice (from - len a) (from - len a + n) b with Some y => Ok y | None => Err Panic end.

(** [on_acked]: forgetting what is acknowledged from the bottom. *)
Definition forget (s : SendBuf) : res SendBuf :=
  match RangeSet.first (acked s) with
  | Some (a, e) =>
      if a <=? base s
      then
        let new_base := Z.min e (written s) in
        let n := u64 (new_base - base s) in
        if len (data s) <? n then Err Panic
        else Ok (mk_sendbuf (drop (Z.to_nat n) (data s)) new_base (fin s) (next s) (RangeSet.remove_below new_base (acked s)) (lost s))
      else Ok s
  | None => Ok s
  end.

Definition on_acked (offset n : Z) (f : bool) (s : SendBuf) : res SendBuf :=
  let r := (Z.max offset (base s), u64 (u64 (offset + n) + b2z f)) in
  if snd r <=? fst r then Ok s
  else
    let l := RangeSet.remove r (lost s) in
    a ← put r (acked s);
    s ← forget (mk_sendbuf (data s) (base s) (fin s) (next s) a l);
    Ok (set_lost (RangeSet.remove_below (base s) (lost s)) s).

Definition on_lost (offset n : Z) (f : bool) (s : SendBuf) : res SendBuf :=
  let r := (Z.max offset (base s), Z.min (u64 (u64 (offset + n) + b2z f)) (next s)) in
  if snd r <=? fst r then Ok s
  else
    l ← put r (lost s);
    Ok (set_lost (fold_left (fun l a => RangeSet.remove a l) (within (acked s) r) l) s).

Definition mark_all_lost (s : SendBuf) : res SendBuf := on_lost (base s) (u64 (next s - base s)) false s.

Definition clear (s : SendBuf) : SendBuf :=
  mk_sendbuf [] (written s) false (written s) RangeSet.new RangeSet.new.

Definition lost_ranges (s : SendBuf) : list (Z * Z) := iter (lost s).

(** ** What a buffer means *)

Inductive status : Type := Unsent | InFlight | Lost | Acked.

#[export] Instance status_eq_dec : EqDecision status.
Proof. solve_decision. Defined.

Definition status_of (s : SendBuf) (p : Z) : status :=
  if (p <? base s) || contains (acked s) p then Acked
  else if contains (lost s) p then Lost
  else if p <? next s then InFlight else Unsent.

(** [w] is all that was written. *)
Record wf (w : list Z) (s : SendBuf) : Prop := mk_wf {
  wf_data : data s = drop (Z.to_nat (base s)) w;
  wf_base : 0 <= base s <= len w;
  wf_next : base s <= next s <= len w + b2z (fin s);
  wf_len : len w < U64_MAX;
  wf_acked : rs_wf (acked s);
  wf_lost : rs_wf (lost s);
  wf_acked_in : forall p, p ∈ acked s -> base s <= p < next s;
  wf_lost_in : forall p, p ∈ lost s -> base s <= p < next s;
  wf_apart : forall p, p ∈ lost s -> p ∉ acked s;
  wf_low : base s < len w -> base s ∉ acked s;
}.

(** The statuses, by the sets. *)
Definition is_status (s : SendBuf) (p : Z) (st : status) : Prop :=
  match st with
  | Acked => p < base s \/ p ∈ acked s
  | Lost => p ∈ lost s
  | InFlight => base s <= p < next s /\ p ∉ acked s /\ p ∉ lost s
  | Unsent => next s <= p
  end.

Lemma status_is w s p st : wf w s -> status_of s p = st <-> is_status s p st.
Proof.
  intros Hs. unfold status_of. assert (Hn := wf_next _ _ Hs). assert (Ha := wf_acked_in _ _ Hs p). assert (Hl := wf_lost_in _ _ Hs p).
  assert (Hd := wf_apart _ _ Hs p). assert (Hca := contains_elem _ p (wf_acked _ _ Hs)). assert (Hcl := contains_elem _ p (wf_lost _ _ Hs)).
  destruct (Z.ltb_spec p (base s)), (contains (acked s) p), (contains (lost s) p), (Z.ltb_spec p (next s)); cbn [orb];
    destruct st; cbn [is_status]; (split; [intros Hx; (discriminate || naive_solver lia)|intros Hx; (done || exfalso; naive_solver lia)]).
Qed.

Lemma wf_written w s : wf w s -> written s = len w.
Proof.
  intros Hs. unfold written. rewrite (wf_data _ _ Hs). assert (Hb := wf_base _ _ Hs). assert (Hl := wf_len _ _ Hs). rewrite len_drop by lia.
  rewrite u64_small by lia. lia.
Qed.

Lemma wf_end w s : wf w s -> end_ s = len w + b2z (fin s).
Proof.
  intros Hs. unfold end_. rewrite (wf_written _ _ Hs). assert (Hb := b2z_range (fin s)). assert (Hl := wf_len _ _ Hs). assert (Hn := len_nonneg w).
  by rewrite u64_small by lia.
Qed.

Lemma first_ok s : rs_wf s ->
  match first s with
  | Some (a, e) => RangeSet.min s = Some a /\ 0 <= a < e /\ e <= U64_MAX /\ (forall v, a <= v < e -> v ∈ s) /\ (forall v, v ∈ s -> a <= v) /\ e ∉ s
  | None => RangeSet.min s = None /\ is_empty s = true /\ forall v, v ∉ s
  end.
Proof.
  intros Hs. assert (Hmin := min_ok s Hs). unfold first, RangeSet.min, is_empty, rs_wf in *. destruct (ranges s) as [|[a e] m] eqn:Hr; cbn in *; [done|].
  apply apart_cons in Hs as (H1 & H2 & _ & Hg). destruct Hmin as [_ Hlow]. split; [done|]. split; [done|]. split; [done|]. split; [|split; [done|]].
  - intros v Hv. exists a, e. rewrite Hr. split; [left|done].
  - intros (a' & e' & Hin & Hv). rewrite Hr in Hin. apply elem_of_cons in Hin as [[= -> ->]|Hin]; [lia|]. specialize (Hg _ _ Hin). lia.
Qed.

(** The empty set. *)
Lemma new_elem v : v ∉ RangeSet.new.
Proof. intros (a & e & H & _). by apply elem_of_nil in H. Qed.

Lemma put_ok r s : rs_wf s -> in_u64 r -> exists s', put r s = Ok s' /\ rs_wf s' /\ forall v, v ∈ s' <-> v ∈ s \/ fst r <= v < snd r.
Proof.
  intros Hs Hr. destruct (rs_insert_ok r s Hs Hr) as (s' & Hi & Hw & He). exists s'. unfold put. by rewrite Hi.
Qed.

Lemma remove_below_ok v s : rs_wf s -> 0 <= v <= U64_MAX -> rs_wf (remove_below v s) /\ forall x, x ∈ remove_below v s <-> x ∈ s /\ v <= x.
Proof.
  intros Hs Hv. destruct (rs_remove_ok (0, v) s Hs) as [Hw He]; [split; simpl; unfold U64_MAX in *; lia|]. split; [done|]. intros x. unfold remove_below.
  rewrite He. cbn [fst snd]. split; intros [H H']; (split; [done|]); [|lia].
  destruct H as (a & e & Hin & Hx). assert (H := ap_bounds _ Hs _ _ Hin). lia.
Qed.

Lemma remove_all_within l s :
  rs_wf s -> (forall r, r ∈ l -> in_u64 r) ->
  rs_wf (fold_left (fun l a => RangeSet.remove a l) l s) /\
  forall v, v ∈ fold_left (fun l a => RangeSet.remove a l) l s <-> v ∈ s /\ ~ (holds l v).
Proof.
  revert s. induction l as [|[a e] l IH]; intros s Hs Hl; cbn [fold_left].
  { split; [done|]. intros v. split; [|by intros [? _]]. intros H. split; [done|]. intros (a & e & H' & _). by apply elem_of_nil in H'. }
  destruct (rs_remove_ok (a, e) s Hs (Hl _ ltac:(left))) as [Hw He]. destruct (IH _ Hw) as [Hw' He']; [intros r H; apply Hl; by right|].
  split; [done|]. intros v. rewrite He', He, holds_cons. cbn [fst snd]. tauto.
Qed.

(** ** [next_chunk] *)

(** The positions of a chunk. *)
Definition carries (c : Chunk) (p : Z) : Prop := ck_offset c <= p < ck_offset c + ck_len c + b2z (ck_fin c).

(** A chunk that [next_chunk] may choose. *)
Record chosen (w : list Z) (s : SendBuf) (max_len limit : Z) (c : Chunk) : Prop := mk_chosen {
  ch_len : 0 <= ck_len c <= max_len /\ ck_len c = Z.min (peek_len limit s) max_len;
  ch_some : 0 < ck_len c \/ ck_fin c = true;
  ch_in : base s <= ck_offset c /\ ck_offset c + ck_len c <= len w;
  ch_fin : ck_fin c = true -> fin s = true /\ ck_offset c + ck_len c = len w;
  ch_kind :
    (next_offset s = Some (ck_offset c) /\ ck_new c = 0 /\ forall p, carries c p -> status_of s p = Lost) \/
    ((forall p, status_of s p <> Lost) /\ ck_offset c = next s /\ ck_new c = ck_len c /\
     (0 < ck_len c -> ck_offset c + ck_len c <= limit) /\ forall p, carries c p -> status_of s p = Unsent);
}.

(** What it leaves. *)
Record given_out (w : list Z) (s : SendBuf) (c : Chunk) (s' : SendBuf) : Prop := mk_given_out {
  go_wf : wf w s';
  go_same : base s' = base s /\ data s' = data s /\ fin s' = fin s;
  go_in : forall p, carries c p -> status_of s' p = InFlight;
  go_out : forall p, ~ carries c p -> status_of s' p = status_of s p;
}.

Lemma status_eq w s w' s' p : wf w s -> wf w' s' -> (forall st, is_status s p st -> is_status s' p st) -> status_of s' p = status_of s p.
Proof. intros Hs Hs' H. eapply status_is; [exact Hs'|]. apply H. by eapply status_is. Qed.

(** Taking lost positions to send them again. *)
Lemma resend_ok w s l c :
  wf w s -> rs_wf l -> (forall p, p ∈ l <-> p ∈ lost s /\ ~ carries c p) -> (forall p, carries c p -> p ∈ lost s) ->
  given_out w s c (set_lost l s).
Proof.
  intros Hs Hl Hin Hc. assert (Hw : wf w (set_lost l s)).
  { destruct Hs. split; cbn; try done; intros p Hp; apply Hin in Hp as [Hp _]; auto. }
  split; [done|done| |].
  - intros p Hp. eapply status_is; [exact Hw|]. specialize (Hc _ Hp). cbn. split; [by eapply wf_lost_in|]. split; [by eapply wf_apart|].
    rewrite Hin. tauto.
  - intros p Hp. eapply status_eq; [exact Hs|exact Hw|]. intros []; cbn; rewrite ?Hin; tauto.
Qed.

Lemma take_chunk l a n (f : bool) w :
  rs_wf l -> 0 <= a -> 0 <= n -> a + n <= w < U64_MAX ->
  let l' := RangeSet.remove (a, u64 (a + n)) (if f then RangeSet.remove (w, u64 (w + 1)) l else l) in
  rs_wf l' /\ forall p, p ∈ l' <-> p ∈ l /\ ~ (a <= p < a + n) /\ ~ (f = true /\ p = w).
Proof.
  intros Hl Ha Hn Hw. cbn zeta. rewrite !u64_small by lia.
  assert (H1 : rs_wf (if f then RangeSet.remove (w, w + 1) l else l) /\
    forall p, p ∈ (if f then RangeSet.remove (w, w + 1) l else l) <-> p ∈ l /\ ~ (f = true /\ p = w)).
  { destruct f; [|split; [done|]; intros p; naive_solver]. destruct (rs_remove_ok (w, w + 1) l Hl) as [H1 H2]; [split; simpl; lia|].
    split; [done|]. intros p. rewrite H2. cbn [fst snd]. split; intros [? Hx]; (split; [done|]); lia. }
  destruct H1 as [H1 H2]. destruct (rs_remove_ok (a, a + n) _ H1) as [H3 H4]; [split; simpl; lia|]. split; [done|].
  intros p. rewrite H4, H2. cbn [fst snd]. tauto.
Qed.

Lemma lost_chunk_ok w s max_len limit first_ :
  wf w s -> 0 <= max_len -> len w + max_len <= U64_MAX -> RangeSet.min (lost s) = Some first_ ->
  exists oc s', lost_chunk max_len first_ s = Ok (oc, s') /\
    match oc with None => s' = s /\ max_len = 0 | Some c => chosen w s max_len limit c /\ given_out w s c s' end.
Proof.
  intros Hs Hm0 Hm Hmin. unfold lost_chunk. rewrite (wf_written _ _ Hs). assert (Hf := first_ok _ (wf_lost _ _ Hs)).
  assert (Hlen := wf_len _ _ Hs). assert (Hn := wf_next _ _ Hs). assert (Hb := wf_base _ _ Hs). assert (Hbf := b2z_range (fin s)).
  destruct (first (lost s)) as [[a e]|] eqn:Hfirst; [|destruct Hf; congruence]. destruct Hf as (Hmin' & Hae & Heu & Hin & Hlow & _).
  rewrite Hmin' in Hmin. injection Hmin as <-. assert (Ha := Hin a ltac:(lia)). assert (Hain := wf_lost_in _ _ Hs a Ha).
  set (eod := if a <? len w then Z.min (Z.min e (len w)) (a + max_len) else len w).
  set (n := eod - a).
  assert (Hst : (if a <? len w
    then Ok (Z.min (Z.min e (len w)) (u64 (a + max_len)), u64 (Z.min (Z.min e (len w)) (u64 (a + max_len)) - a))
    else Ok (Z.min a (len w), 0)) = (Ok (eod, n) : res _)).
  { unfold n, eod. destruct (Z.ltb_spec a (len w)); [|do 2 f_equal; lia]. rewrite !u64_small by (rewrite ?u64_small; lia). done. }
  cbn zeta. rewrite Hst. cbn [mbind result_bind]. clear Hst.
  set (f := fin s && (eod =? len w) && contains (lost s) (len w)).
  assert (Hff : f = true <-> fin s = true /\ eod = len w /\ len w ∈ lost s).
  { unfold f. rewrite !andb_true_iff, Z.eqb_eq, contains_elem by apply Hs. tauto. }
  assert (Hn0 : 0 <= n <= max_len /\ a + n = eod /\ eod <= len w /\ (forall p, a <= p < eod -> p ∈ lost s) /\ (n = 0 -> f = false -> max_len = 0)).
  { unfold n, eod in *. destruct (Z.ltb_spec a (len w)).
    - split; [lia|]. split; [lia|]. split; [lia|]. split; [intros p Hp; apply Hin; lia|]. intros; lia.
    - assert (a = len w) as -> by lia. split; [lia|]. split; [lia|]. split; [lia|]. split; [intros; lia|]. intros _ Hff'. exfalso.
      assert (f = true); [|congruence]. apply Hff. split; [|done]. destruct (fin s); [done|]. simpl in *. lia. }
  assert (Hpeek : n = Z.min (peek_len limit s) max_len).
  { unfold peek_len. rewrite Hfirst, (wf_written _ _ Hs). unfold n, eod. destruct (Z.ltb_spec a (len w)); [|lia]. rewrite u64_small by lia. lia. }
  destruct Hn0 as (Hnm & Han & Hew & Hlost & Hzero). clearbody n f. cbn zeta.
  destruct ((n =? 0) && negb f) eqn:Hnone; cleanb; [eexists _, _; split; [done|]; split; [done|by apply Hzero]|].
  eexists _, _. split; [done|]. destruct (take_chunk (lost s) a n f (len w)) as [Hl Hle]; [apply Hs|lia|lia|lia|].
  assert (Hcar : forall p, carries (mk_chunk a n f 0) p <-> a <= p < a + n \/ (f = true /\ p = len w)).
  { intros p. unfold carries. cbn. destruct f; simpl; [destruct (proj1 Hff eq_refl) as (_ & ? & _)|]; naive_solver lia. }
  assert (Hcl : forall p, carries (mk_chunk a n f 0) p -> p ∈ lost s).
  { intros p [H|[Hft ->]]%Hcar; [apply Hlost; lia|by apply Hff]. }
  split.
  - split; cbn; [lia| |lia|intros H; apply Hff in H; split; [tauto|lia]|].
    + apply andb_false_iff in Hnone as [H|H]; cleanb; [left; lia|by right; destruct f].
    + left. unfold next_offset. rewrite Hmin'. split; [done|]. split; [done|]. intros p Hp. eapply status_is; [exact Hs|]. by apply Hcl.
  - apply resend_ok; [done|done| |done]. intros p. rewrite Hle, Hcar. tauto.
Qed.

Lemma no_lost w s p : wf w s -> (forall v, v ∉ lost s) -> status_of s p <> Lost.
Proof. intros Hs Hn H. apply (status_is w) in H; [|done]. by apply (Hn p). Qed.

(** Taking positions never sent. *)
Lemma sb_advance_ok w s n f :
  wf w s -> 0 <= n -> next s + n <= len w -> (f = true -> fin s = true /\ next s + n = len w) -> (0 < n \/ f = true) ->
  let s' := mk_sendbuf (data s) (base s) (fin s) (u64 (u64 (next s + n) + b2z f)) (acked s) (lost s) in
  given_out w s (mk_chunk (next s) n f n) s'.
Proof.
  intros Hs Hn Hnw Hf Hsome. cbn zeta. assert (Hlen := wf_len _ _ Hs). assert (Hnx := wf_next _ _ Hs). assert (Hb := wf_base _ _ Hs). assert (Hbf := b2z_range f).
  rewrite (u64_small (next s + n)) by lia. rewrite u64_small by lia. set (s' := mk_sendbuf _ _ _ _ _ _).
  assert (Hw : wf w s').
  { destruct Hs. split; cbn; try done.
    - destruct f; [destruct (Hf eq_refl) as [-> ?]; simpl in *; lia|]. assert (H := b2z_range (fin s)). simpl in *. lia.
    - intros p Hp. specialize (wf_acked_in0 p Hp). lia.
    - intros p Hp. specialize (wf_lost_in0 p Hp). lia. }
  split; [done|done| |]; unfold carries; cbn [ck_offset ck_len ck_fin].
  - intros p Hp. eapply status_is; [exact Hw|]. cbn. split; [lia|]. split; intros H; [apply (wf_acked_in _ _ Hs) in H|apply (wf_lost_in _ _ Hs) in H]; lia.
  - intros p Hp. eapply status_eq; [exact Hs|exact Hw|]. intros []; cbn; (done || lia || tauto || idtac).
    intros H. split; [lia|tauto].
Qed.

Lemma next_chunk_ok w s max_len limit :
  wf w s -> 0 <= max_len -> len w + max_len <= U64_MAX ->
  exists oc s', next_chunk max_len limit s = Ok (oc, s') /\
    match oc with
    | Some c => chosen w s max_len limit c /\ given_out w s c s'
    | None => s' = s /\ (0 < max_len -> has_pending_within limit s = false)
    end.
Proof.
  intros Hs Hm0 Hm. unfold next_chunk. assert (Hf := first_ok _ (wf_lost _ _ Hs)). destruct (RangeSet.min (lost s)) as [first_|] eqn:Hmin.
  { destruct (lost_chunk_ok w s max_len limit first_ Hs Hm0 Hm Hmin) as (oc & s' & He & Hr). exists oc, s'. split; [done|].
    destruct oc; [done|]. destruct Hr as [-> ->]. split; [done|lia]. }
  destruct (first (lost s)) as [[a e]|] eqn:Hfirst; [destruct Hf; congruence|]. destruct Hf as (_ & Hemp & Hnone).
  rewrite (wf_written _ _ Hs). set (room := sat_sub (Z.min (len w) limit) (next s)). set (n := Z.min room max_len).
  assert (Hlen := wf_len _ _ Hs). assert (Hnx := wf_next _ _ Hs). assert (Hb := wf_base _ _ Hs). assert (Hbf := b2z_range (fin s)).
  assert (Hn : 0 <= n <= max_len /\ (0 < n -> next s + n <= len w /\ next s + n <= limit) /\ (n = 0 -> max_len = 0 \/ Z.min (len w) limit <= next s)).
  { unfold n, room, sat_sub. lia. }
  assert (Hpeek : n = Z.min (peek_len limit s) max_len) by (unfold peek_len; by rewrite Hfirst, (wf_written _ _ Hs)).
  destruct Hn as (Hn0 & Hnp & Hnz). clearbody n. rewrite (u64_small (next s + n)) by lia.
  set (f := fin s && (next s + n =? len w)). assert (Hff : f = true <-> fin s = true /\ next s + n = len w) by (unfold f; by rewrite andb_true_iff, Z.eqb_eq).
  clearbody f. destruct ((n =? 0) && negb f) eqn:Hx.
  - exists None, s. split; [done|]. split; [done|]. intros Hmp. unfold has_pending_within. rewrite Hemp, (wf_written _ _ Hs). cleanb. cbn [negb orb].
    clear Hpeek. subst n. rewrite Z.add_0_r in Hff. destruct (Z.ltb_spec (next s) (Z.min (len w) limit)); [lia|]. cbn [orb].
    destruct (fin s); [|done]. destruct (Z.eqb_spec (next s) (len w)); [|done]. subst f. naive_solver.
  - assert (Hsome : 0 < n \/ f = true) by (apply andb_false_iff in Hx as [H|H]; cleanb; [left; lia|by right; destruct f]).
    assert (Hnw : next s + n <= len w) by (destruct Hsome as [H|H]; [by apply Hnp|apply Hff in H; lia]).
    eexists _, _. split; [rewrite <- (u64_small (next s + n)) by lia; done|]. split; [|apply sb_advance_ok; try done; [lia|by apply Hff]].
    split; cbn; [lia|tauto|lia|by intros H; apply Hff in H|]. right. split; [intros p; by eapply no_lost|]. split; [done|]. split; [done|].
    split; [intros; by apply Hnp|]. intros p Hp. eapply status_is; [exact Hs|]. unfold carries in Hp. cbn in *. lia.
Qed.

(** ** [on_acked] and [on_lost] *)

(** What forgetting leaves. *)
Record forgot (w : list Z) (s s' : SendBuf) : Prop := mk_forgot {
  fg_data : data s' = drop (Z.to_nat (base s')) w;
  fg_base : base s <= base s' <= len w /\ base s' <= next s';
  fg_same : fin s' = fin s /\ next s' = next s /\ lost s' = lost s;
  fg_wf : rs_wf (acked s');
  fg_acked : forall p, p ∈ acked s' <-> p ∈ acked s /\ base s' <= p;
  fg_gone : forall p, base s <= p < base s' -> p ∈ acked s;
  fg_low : base s' < len w -> base s' ∉ acked s';
}.

Lemma forget_ok w s :
  data s = drop (Z.to_nat (base s)) w -> 0 <= base s <= len w -> base s <= next s <= len w + b2z (fin s) -> len w < U64_MAX ->
  rs_wf (acked s) -> (forall p, p ∈ acked s -> base s <= p < next s) -> exists s', forget s = Ok s' /\ forgot w s s'.
Proof.
  intros Hd Hb Hn Hl Ha Hin. assert (Hbf := b2z_range (fin s)).
  assert (Hw : written s = len w) by (unfold written; rewrite Hd, len_drop, u64_small by lia; lia).
  assert (Hsame : base s ∉ acked s -> forgot w s s).
  { intros Hno. split; [done|lia|done|done| |intros; lia|done]. intros p. split; [|by intros [? _]]. intros H. split; [done|]. by apply Hin. }
  unfold forget. rewrite Hw. assert (Hf := first_ok _ Ha).
  destruct (first (acked s)) as [[a e]|]; [|exists s; split; [done|]; apply Hsame; by destruct Hf as (_ & _ & ?)].
  destruct Hf as (_ & Hae & Heu & Hrange & Hlow & Hend). destruct (Z.leb_spec a (base s)) as [Hab|Hab].
  - assert (Hai := Hin a (Hrange a ltac:(lia))). assert (a = base s) as -> by lia. assert (He := Hin (e - 1) (Hrange (e - 1) ltac:(lia))).
    set (nb := Z.min e (len w)). rewrite (u64_small (nb - base s)) by lia. rewrite Hd, len_drop by lia.
    destruct (Z.ltb_spec (len w - base s) (nb - base s)); [lia|]. destruct (remove_below_ok nb (acked s) Ha ltac:(lia)) as [Hra Hre].
    eexists. split; [reflexivity|]. split; cbn [data base fin next acked lost]; [rewrite drop_drop; f_equal; lia|lia|done|done|done|intros p Hp; apply Hrange; lia|].
    intros Hlt [Hx _]%Hre. by replace nb with e in Hx by lia.
  - exists s. split; [done|]. apply Hsame. intros H. specialize (Hlow _ H). lia.
Qed.

Lemma on_acked_ok w s offset n f :
  wf w s -> 0 <= offset -> 0 <= n -> offset + n + b2z f <= next s ->
  exists s', on_acked offset n f s = Ok s' /\ wf w s' /\ fin s' = fin s /\ next s' = next s /\
    forall p, status_of s' p = if decide (offset <= p < offset + n + b2z f) then Acked else status_of s p.
Proof.
  intros Hs Ho Hn Hr. unfold on_acked. assert (Hlen := wf_len _ _ Hs). assert (Hnx := wf_next _ _ Hs). assert (Hb := wf_base _ _ Hs).
  assert (Hbf := b2z_range f). assert (Hbs := b2z_range (fin s)). rewrite (u64_small (offset + n)) by lia. rewrite u64_small by lia. cbn [fst snd].
  set (b := Z.max offset (base s)). set (c := offset + n + b2z f) in *. destruct (Z.leb_spec c b) as [Hcb|Hcb].
  { exists s. do 4 (split; [done|]). intros p. case_decide as Hp; [|done]. eapply status_is; [exact Hs|]. cbn. lia. }
  destruct (put_ok (b, c) (acked s) (wf_acked _ _ Hs)) as (a & Hpa & Hwa & Hea); [split; simpl; lia|]. rewrite Hpa. cbn [mbind result_bind fst snd] in *.
  destruct (rs_remove_ok (b, c) (lost s) (wf_lost _ _ Hs)) as [Hwl Hel]; [split; simpl; lia|]. set (l := RangeSet.remove (b, c) (lost s)) in *. cbn [fst snd] in Hel.
  destruct (forget_ok w (mk_sendbuf (data s) (base s) (fin s) (next s) a l)) as (s1 & Hf & [Fd Fb (Ff & Fn & Fl) Fw Fa Fg Flow]);
    cbn [data base fin next acked lost] in *; [apply Hs|done|done|done|done|intros p [H|H]%Hea; [by apply (wf_acked_in _ _ Hs)|lia]|].
  rewrite Hf. cbn [mbind result_bind]. rewrite Fl. destruct (remove_below_ok (base s1) l Hwl ltac:(lia)) as [Hwl2 Hel2].
  eexists. split; [reflexivity|].
  assert (Hlost : forall p, p ∈ remove_below (base s1) l <-> p ∈ lost s /\ ~ (b <= p < c)).
  { intros p. rewrite Hel2, Hel. split; [tauto|]. intros [H1 H2]. split; [done|]. destruct (Z.le_gt_cases (base s1) p); [done|].
    assert (Hin := wf_lost_in _ _ Hs p H1). assert (Hg := Fg p ltac:(lia)). apply Hea in Hg as [Hg|Hg]; [|lia]. by apply (wf_apart _ _ Hs) in H1. }
  assert (Hw : wf w (set_lost (remove_below (base s1) l) s1)).
  { split; cbn; try done; [lia|rewrite Ff; lia| | |].
    - intros p [H1 H2]%Fa. split; [done|]. rewrite Fn. apply Hea in H1 as [H1|H1]; [by apply (wf_acked_in _ _ Hs)|lia].
    - intros p Hp. assert (Hp' := Hp). apply Hel2 in Hp as [_ Hp]. apply Hlost in Hp' as [Hp' _]. rewrite Fn. apply (wf_lost_in _ _ Hs) in Hp'. lia.
    - intros p [H1 H2]%Hlost [H3 _]%Fa. apply Hea in H3 as [H3|H3]; [by apply (wf_apart _ _ Hs) in H1|done]. }
  split; [done|]. split; [done|]. split; [done|]. intros p. case_decide as Hp.
  - eapply status_is; [exact Hw|]. cbn. rewrite Fa, Hea. lia.
  - eapply status_eq; [exact Hs|exact Hw|]. intros []; cbn; rewrite ?Fa, ?Hlost, ?Hea, ?Fn; [done| | |].
    + intros (H1 & H2 & H3). assert (~ p < base s1).
      { intros H. assert (Hg := Fg p ltac:(lia)). apply Hea in Hg as [Hg|Hg]; [done|lia]. }
      split; [lia|]. split; [intros [[H'|H'] _]; [done|lia]|tauto].
    + intros H. split; [done|]. apply (wf_lost_in _ _ Hs) in H. lia.
    + intros [H|H]; [left; lia|]. destruct (Z.lt_ge_cases p (base s1)); [by left|right; tauto].
Qed.

Lemma on_lost_ok w s offset n f :
  wf w s -> 0 <= offset -> 0 <= n -> offset + n + b2z f <= U64_MAX ->
  exists s', on_lost offset n f s = Ok s' /\ wf w s' /\ fin s' = fin s /\ next s' = next s /\
    forall p, status_of s' p = if decide (offset <= p < offset + n + b2z f /\ status_of s p = InFlight) then Lost else status_of s p.
Proof.
  intros Hs Ho Hn Hr. unfold on_lost. assert (Hlen := wf_len _ _ Hs). assert (Hnx := wf_next _ _ Hs). assert (Hb := wf_base _ _ Hs).
  assert (Hbf := b2z_range f). assert (Hbs := b2z_range (fin s)). rewrite (u64_small (offset + n)) by lia. rewrite u64_small by lia. cbn [fst snd].
  set (b := Z.max offset (base s)). set (c := Z.min (offset + n + b2z f) (next s)) in *. destruct (Z.leb_spec c b) as [Hcb|Hcb].
  { exists s. do 4 (split; [done|]). intros p. case_decide as Hp; [|done]. destruct Hp as [Hp Hst]. apply (status_is w) in Hst; [|done]. cbn in Hst. lia. }
  destruct (put_ok (b, c) (lost s) (wf_lost _ _ Hs)) as (l & Hpl & Hwl & Hel); [split; simpl; lia|]. rewrite Hpl. cbn [mbind result_bind fst snd] in *.
  destruct (remove_all_within (within (acked s) (b, c)) l Hwl) as [Hw2 He2].
  { intros [x y] Hin. apply within_elem in Hin as (a0 & e0 & Hin & -> & -> & Hlt); [|apply Hs]. cbn [fst snd] in *.
    destruct (ap_bounds _ (wf_acked _ _ Hs) _ _ Hin). split; simpl; lia. }
  set (l2 := fold_left _ _ l) in *.
  assert (Hlost : forall p, p ∈ l2 <-> p ∈ lost s \/ (b <= p < c /\ p ∉ acked s)).
  { intros p. rewrite He2, Hel, within_holds by apply Hs. cbn [fst snd]. assert (H := wf_apart _ _ Hs p).
    split; [intros [[H1|H1] H2]; [by left|right; split; [done|tauto]]|intros [H1|[H1 H2]]; split; tauto]. }
  eexists. split; [reflexivity|]. assert (Hw : wf w (set_lost l2 s)).
  { assert (Hi := wf_lost_in _ _ Hs). assert (Hap := wf_apart _ _ Hs).
    destruct Hs. split; cbn; try done; intros p [H|[H1 H2]]%Hlost; [by apply Hi|lia|by apply Hap|done]. }
  split; [done|]. split; [done|]. split; [done|]. intros p. case_decide as Hp.
  - destruct Hp as [Hp Hst]. apply (status_is w) in Hst; [|done]. eapply status_is; [exact Hw|]. cbn in *. rewrite Hlost. right. split; [lia|tauto].
  - assert (Hp' : ~ (offset <= p < offset + n + b2z f /\ is_status s p InFlight)) by (by rewrite <- (status_is w s p InFlight Hs)).
    eapply status_eq; [exact Hs|exact Hw|]. cbn in Hp'. intros []; cbn; rewrite ?Hlost; [done| |by left|done].
    intros (H1 & H2 & H3). split; [done|]. split; [done|]. intros [H|[H _]]; [done|]. apply Hp'. split; [lia|done].
Qed.

(** ** The other operations *)

Lemma sb_wf_new : wf [] new.
Proof.
  assert (Hn := new_elem). split; try done; try (unfold new, U64_MAX, b2z, len; simpl; lia); try apply apart_nil.
  all: intros p Hp; destruct (Hn p Hp).
Qed.

Lemma write_ok w d s :
  wf w s -> fin s = false -> len w + len d < U64_MAX ->
  exists s', write d s = Ok s' /\ wf (w ++ d) s' /\ forall p, status_of s' p = status_of s p.
Proof.
  intros Hs Hf Hl. unfold write. rewrite Hf. eexists. split; [done|]. split; [|done]. assert (Hb := wf_base _ _ Hs). assert (Hd := len_nonneg d).
  assert (Hn := wf_next _ _ Hs). rewrite Hf in Hn. simpl in Hn.
  destruct Hs. split; cbn; rewrite ?len_app; try done; try lia.
  - rewrite drop_app_le by (unfold len in *; lia). by rewrite wf_data0.
  - intros Hlt Hin. assert (H := wf_acked_in0 _ Hin). apply wf_low0; [lia|done].
Qed.

Lemma finish_ok w s : wf w s -> wf w (finish s) /\ forall p, status_of (finish s) p = status_of s p.
Proof.
  intros Hs. split; [|done]. assert (H := b2z_range (fin s)). destruct Hs. split; cbn; try done. lia.
Qed.

Lemma sb_clear_ok w s :
  wf w s -> wf w (clear s) /\ fin (clear s) = false /\ forall p, status_of (clear s) p = if decide (p < len w) then Acked else Unsent.
Proof.
  intros Hs. assert (Hl := wf_len _ _ Hs). assert (Hn := len_nonneg w). assert (Hw : wf w (clear s)).
  { assert (Hnew := new_elem). split; unfold clear; cbn; rewrite ?(wf_written _ _ Hs); try done; try lia; try apply apart_nil.
    all: try (intros p Hp; destruct (Hnew p Hp)). rewrite drop_ge by (unfold len; lia). done. }
  split; [done|]. split; [done|]. intros p. eapply status_is; [exact Hw|]. unfold clear. case_decide; cbn; rewrite (wf_written _ _ Hs); [by left|lia].
Qed.

(** What everything sent and not acknowledged becomes. *)
Lemma mark_all_lost_ok w s :
  wf w s -> exists s', mark_all_lost s = Ok s' /\ wf w s' /\ fin s' = fin s /\ next s' = next s /\
    forall p, status_of s' p = match status_of s p with InFlight => Lost | st => st end.
Proof.
  intros Hs. unfold mark_all_lost. assert (Hlen := wf_len _ _ Hs). assert (Hnx := wf_next _ _ Hs). assert (Hb := wf_base _ _ Hs). assert (Hbs := b2z_range (fin s)).
  rewrite u64_small by lia. destruct (on_lost_ok w s (base s) (next s - base s) false Hs) as (s' & He & Hw & Hf & Hn & Hst); [lia|lia|simpl; lia|].
  exists s'. do 4 (split; [done|]). intros p. rewrite Hst. case_decide as Hp; [by destruct Hp as [_ ->]|].
  destruct (status_of s p) eqn:Hsp; try done. destruct Hp. split; [|done]. apply (status_is w) in Hsp; [|done]. cbn in Hsp. simpl. lia.
Qed.

(** The bytes of a stream at a range. *)
Definition bytes_at (w : list Z) (offset n : Z) : list Z := take (Z.to_nat n) (drop (Z.to_nat offset) w).

Lemma bytes_at_len w offset n : 0 <= offset -> 0 <= n -> offset + n <= len w -> len (bytes_at w offset n) = n.
Proof. intros Ho Hn Hw. unfold bytes_at, len in *. rewrite length_take, length_drop. lia. Qed.

Lemma bytes_at_lookup w offset n o : 0 <= offset -> offset <= o < offset + n -> bytes_at w offset n !! Z.to_nat (o - offset) = w !! Z.to_nat o.
Proof. intros Ho Hin. unfold bytes_at. rewrite lookup_take_lt by lia. rewrite lookup_drop. f_equal. lia. Qed.

Lemma copy_ok w s offset n a b :
  wf w s -> data s = a ++ b -> base s <= offset -> 0 <= n -> offset + n <= len w -> copy offset n a b s = Ok (bytes_at w offset n).
Proof.
  intros Hs Hab Ho Hn Hon. unfold copy. assert (Hb := wf_base _ _ Hs). assert (Hl := wf_len _ _ Hs).
  assert (Hbytes : bytes_at w offset n = take (Z.to_nat n) (drop (Z.to_nat (offset - base s)) (a ++ b))).
  { rewrite <- Hab, (wf_data _ _ Hs). unfold bytes_at. rewrite drop_drop. do 2 f_equal. lia. }
  assert (Hlab : len a + len b = len w - base s) by (rewrite <- len_app, <- Hab, (wf_data _ _ Hs), len_drop; lia).
  assert (Hla := len_nonneg a). assert (Hlb := len_nonneg b).
  destruct (Z.eqb_spec n 0) as [->|Hn0]; [done|]. rewrite (wf_written _ _ Hs), u64_small by lia.
  rewrite !(proj2 (Z.leb_le _ _)) by lia. cbn [andb negb]. rewrite Hbytes. set (from := offset - base s) in *.
  destruct (Z.ltb_spec from (len a)) as [Hf|Hf].
  - set (tk := Z.min n (len a - from)). rewrite !slice_eq by lia. f_equal. rewrite drop_app_le by (unfold len in *; lia).
    rewrite take_app. rewrite Z.sub_0_r. change (Z.to_nat 0) with 0%nat. rewrite drop_0. f_equal.
    + destruct (Z.le_gt_cases n (len a - from)) as [H|H]; [f_equal; lia|]. rewrite !take_ge; [done|..]; unfold len in *; rewrite length_drop; lia.
    + f_equal. rewrite length_drop. unfold len in *. lia.
  - rewrite slice_eq by lia. f_equal. rewrite drop_app_ge by (unfold len in *; lia). f_equal; [lia|]. f_equal. unfold len in *. lia.
Qed.

(** ** The questions *)

Lemma is_fully_acked_ok w s : wf w s -> is_fully_acked s = true <-> fin s = true /\ forall p, 0 <= p <= len w -> status_of s p = Acked.
Proof.
  intros Hs. unfold is_fully_acked. rewrite !andb_true_iff, Z.eqb_eq, (wf_written _ _ Hs), contains_elem by apply Hs.
  assert (Hb := wf_base _ _ Hs). split.
  - intros [[Hf He] Hin]. split; [done|]. intros p Hp. eapply status_is; [exact Hs|]. cbn. destruct (Z.eq_dec p (len w)) as [->|]; [by right|left; lia].
  - intros [Hf Hall]. split; [split; [done|]|].
    + assert (H := Hall (base s) ltac:(lia)). apply (status_is w) in H; [|done]. destruct H as [H|H]; [lia|].
      destruct (Z.eq_dec (base s) (len w)); [done|]. destruct (wf_low _ _ Hs); [lia|done].
    + assert (H := Hall (len w) ltac:(lia)). apply (status_is w) in H; [|done]. destruct H as [H|H]; [lia|done].
Qed.

Lemma is_empty_elem s : rs_wf s -> is_empty s = true <-> forall v, v ∉ s.
Proof.
  intros Hs. assert (H := first_ok s Hs). destruct (first s) as [[a e]|] eqn:Hf.
  - unfold is_empty, first in *. destruct (ranges s); [done|]. split; [done|]. intros Hn. destruct (Hn a). apply H. lia.
  - destruct H as (_ & H1 & H2). done.
Qed.

(** A chunk is chosen only when something is pending. *)
Lemma chosen_pending w s max_len limit c : wf w s -> chosen w s max_len limit c -> has_pending_within limit s = true.
Proof.
  intros Hs [Hl Hsome Hin Hfin Hkind]. unfold has_pending_within. rewrite (wf_written _ _ Hs), !orb_true_iff, negb_true_iff, andb_true_iff, Z.ltb_lt, Z.eqb_eq.
  assert (Hc : carries c (ck_offset c)) by (unfold carries; assert (H := b2z_range (ck_fin c)); destruct Hsome as [H'|H']; [lia|rewrite H'; simpl; lia]).
  destruct Hkind as [(_ & _ & Hk)|(Hno & Ho & _ & Hlim & _)].
  - left. left. apply not_true_is_false. rewrite is_empty_elem by apply Hs. intros Hn. specialize (Hk _ Hc). apply (status_is w) in Hk; [|done]. by destruct (Hn _ Hk).
  - destruct (Z.eq_dec (ck_len c) 0) as [Hz|Hz].
    + right. destruct Hsome as [?|Hf]; [lia|]. apply Hfin in Hf as [? ?]. split; [done|lia].
    + left. right. specialize (Hlim ltac:(lia)). lia.
Qed.

Lemma next_offset_ok w s : wf w s ->
  match next_offset s with
  | Some o => has_pending s = true /\
      ((status_of s o = Lost /\ forall p, status_of s p = Lost -> o <= p) \/ ((forall p, status_of s p <> Lost) /\ o = next s /\ o < end_ s))
  | None => has_pending s = false /\ (forall p, status_of s p <> Lost) /\ next s = end_ s
  end.
Proof.
  intros Hs. unfold next_offset, has_pending. assert (Hf := first_ok _ (wf_lost _ _ Hs)). destruct (first (lost s)) as [[a e]|] eqn:Hfirst.
  - destruct Hf as (-> & Hae & _ & Hin & Hlow & _). split.
    + apply orb_true_iff. left. apply negb_true_iff, not_true_is_false. rewrite is_empty_elem by apply Hs. intros Hn. destruct (Hn a). apply Hin. lia.
    + left. split; [eapply status_is; [exact Hs|]; apply Hin; lia|]. intros p Hp. apply (status_is w) in Hp; [|done]. by apply Hlow.
  - destruct Hf as (-> & -> & Hn). assert (Hno : forall p, status_of s p <> Lost) by (intros p; by apply (no_lost w)).
    assert (Hx := wf_next _ _ Hs). rewrite <- (wf_end _ _ Hs) in Hx. destruct (Z.ltb_spec (next s) (end_ s)); cbn [negb orb]; [split; [done|]; right; done|].
    split; [done|]. split; [done|lia].
Qed.

(** ** The properties *)

(** What [next_chunk] chooses.  It never panics; a chunk has at most
    [max_len] bytes and is not empty; it is either lost data, the lowest
    first, which does not count as new, or, when nothing is lost, positions
    never sent, with no byte at [limit] or above; it ends the stream exactly
    when it reaches the end of a finished one.  Its positions become in flight
    and no other changes, so what is acknowledged is never sent again, and
    [copy] gives the bytes of the stream at its range wherever the ring
    buffer wraps.  It gives nothing only when, as [has_pending_within] says,
    there is nothing it could give. *)
Theorem sendbuf_next_chunk w s max_len limit :
  wf w s -> 0 <= max_len -> len w + max_len <= U64_MAX ->
  exists oc s', next_chunk max_len limit s = Ok (oc, s') /\
    match oc with
    | Some c => chosen w s max_len limit c /\ given_out w s c s' /\ has_pending_within limit s = true /\
        (forall p, carries c p -> status_of s p <> Acked) /\
        forall a b, data s' = a ++ b -> copy (ck_offset c) (ck_len c) a b s' = Ok (bytes_at w (ck_offset c) (ck_len c))
    | None => s' = s /\ (0 < max_len -> has_pending_within limit s = false)
    end.
Proof.
  intros Hs Hm0 Hm. destruct (next_chunk_ok w s max_len limit Hs Hm0 Hm) as ([c|] & s' & He & Hr); exists (Some c), s' || exists None, s'; (split; [done|]); [|done].
  destruct Hr as [Hc Hg]. split; [done|]. split; [done|]. split; [by eapply chosen_pending|]. destruct Hc as [Hl Hsome Hin Hfin Hkind].
  split.
  - intros p Hp. destruct Hkind as [(_ & _ & H)|(_ & _ & _ & _ & H)]; by rewrite H.
  - intros a b Hab. destruct Hg as [Hw (Hb & _ & _) _ _]. apply copy_ok; [done|done|lia|lia|lia].
Qed.

(** Four bytes and the end sent in two chunks; the first is lost. *)
Definition sample : SendBuf := mk_sendbuf [10; 11; 12; 13] 0 true 5 RangeSet.new (mk_rangeset [(0, 2)]).

Lemma sample_holds p : p ∈ mk_rangeset [(0, 2)] <-> 0 <= p < 2.
Proof.
  split; [intros (a & e & [= -> ->]%list_elem_of_singleton & H); lia|]. intros H. exists 0, 2. split; [left|done].
Qed.

Lemma sb_sample_wf : wf [10; 11; 12; 13] sample.
Proof.
  assert (Hn := new_elem). split; try done; try (unfold sample, U64_MAX, b2z, len; simpl; lia).
  - apply apart_nil.
  - by apply (apartb_apart 0).
  - intros p Hp. destruct (Hn p Hp).
  - intros p Hp%sample_holds. unfold sample. simpl. lia.
Qed.

Lemma sendbuf_next_chunk_witness :
  next_chunk 1 3 sample = Ok (Some (mk_chunk 0 1 false 0), set_lost (mk_rangeset [(1, 2)]) sample) /\
  wf [10; 11; 12; 13] (set_lost (mk_rangeset [(1, 2)]) sample).
Proof.
  split; [done|]. destruct (sendbuf_next_chunk _ _ 1 3 sb_sample_wf ltac:(lia) ltac:(vm_compute; done)) as (oc & s' & He & Hr).
  assert (H : next_chunk 1 3 sample = Ok (Some (mk_chunk 0 1 false 0), set_lost (mk_rangeset [(1, 2)]) sample)) by done.
  rewrite H in He. injection He as <- <-. destruct Hr as (_ & Hg & _). apply Hg.
Defined.

(** What a buffer says of itself is so, and what the other operations
    do to the stream and to each position of it.  Everything is acknowledged
    when it says so and only then; the next offset is the lowest lost
    position, or else the first never sent; [has_pending] says whether there
    is one.  Writing extends the stream and panics only after its end; of a frame
    that arrived every position becomes acknowledged and no other changes; of
    one that was lost the positions in flight become lost, and what was
    acknowledged in another frame in the meantime stays so; starting over
    makes all that is in flight lost; clearing leaves nothing to send.  The
    buffer forgets exactly what is acknowledged from the bottom, and no
    operation panics or leaves the invariant. *)
Theorem sendbuf_feedback w s offset n f :
  wf w s -> 0 <= offset -> 0 <= n -> offset + n + b2z f <= next s ->
  (written s = len w /\ end_ s = len w + b2z (fin s) /\ sent s = Z.min (next s) (len w) /\ data s = drop (Z.to_nat (base s)) w) /\
  (is_fully_acked s = true <-> fin s = true /\ forall p, 0 <= p <= len w -> status_of s p = Acked) /\
  (forall v, (exists a e, (a, e) ∈ lost_ranges s /\ a <= v < e) <-> status_of s v = Lost) /\
  match next_offset s with
  | Some o => has_pending s = true /\
      ((status_of s o = Lost /\ forall p, status_of s p = Lost -> o <= p) \/ ((forall p, status_of s p <> Lost) /\ o = next s /\ o < end_ s))
  | None => has_pending s = false /\ (forall p, status_of s p <> Lost) /\ next s = end_ s
  end /\
  (exists s', on_acked offset n f s = Ok s' /\ wf w s' /\ fin s' = fin s /\ next s' = next s /\
     forall p, status_of s' p = if decide (offset <= p < offset + n + b2z f) then Acked else status_of s p) /\
  (exists s', on_lost offset n f s = Ok s' /\ wf w s' /\ fin s' = fin s /\ next s' = next s /\
     forall p, status_of s' p = if decide (offset <= p < offset + n + b2z f /\ status_of s p = InFlight) then Lost else status_of s p) /\
  (exists s', mark_all_lost s = Ok s' /\ wf w s' /\ fin s' = fin s /\ next s' = next s /\
     forall p, status_of s' p = match status_of s p with InFlight => Lost | st => st end) /\
  (forall d, if fin s then write d s = Err Panic
     else len w + len d < U64_MAX -> exists s', write d s = Ok s' /\ wf (w ++ d) s' /\ forall p, status_of s' p = status_of s p) /\
  (wf w (finish s) /\ fin (finish s) = true /\ forall p, status_of (finish s) p = status_of s p) /\
  (wf w (clear s) /\ is_fully_acked (clear s) = false /\ has_pending (clear s) = false /\ buffered (clear s) = 0).
Proof.
  intros Hs Ho Hn Hr. assert (Hlen := wf_len _ _ Hs). assert (Hnx := wf_next _ _ Hs). assert (Hbs := b2z_range (fin s)).
  split; [split; [by apply wf_written|]; split; [by apply wf_end|]; split; [unfold sent; by rewrite (wf_written _ _ Hs)|apply Hs]|].
  split; [by apply is_fully_acked_ok|]. split; [intros v; by rewrite (status_is w s v Lost Hs)|]. split; [by apply (next_offset_ok w)|].
  split; [by apply on_acked_ok|]. split; [apply on_lost_ok; (done || lia)|]. split; [by apply mark_all_lost_ok|]. split; [|split].
  - intros d. destruct (fin s) eqn:Hf; [unfold write; by rewrite Hf|]. by apply write_ok.
  - destruct (finish_ok w s Hs) as [H1 H2]. done.
  - destruct (sb_clear_ok w s Hs) as (H1 & H2 & _). split; [done|]. split; [unfold is_fully_acked; by rewrite H2|]. split; [|done].
    unfold has_pending. rewrite (wf_end _ _ H1), H2. unfold clear. cbn. rewrite (wf_written _ _ Hs). simpl. apply Z.ltb_ge. lia.
Qed.

Lemma sendbuf_feedback_witness :
  on_acked 2 2 true sample = Ok (mk_sendbuf [10; 11; 12; 13] 0 true 5 (mk_rangeset [(2, 5)]) (mk_rangeset [(0, 2)])) /\
  exists s', mark_all_lost sample = Ok s' /\ status_of s' 3 = Lost.
Proof.
  split; [done|]. destruct (sendbuf_feedback _ _ 2 2 true sb_sample_wf) as (_ & _ & _ & _ & _ & _ & (s' & He & _ & _ & _ & H) & _); [lia|lia|vm_compute; done|].
  exists s'. split; [done|]. by rewrite H.
Defined.
