(* ===== verification/Stream.v ===== *)
(** A stream from end to end: [SendBuf] and [Reassembler] over a network.

    The sender's buffer gives out chunks ([pratique/src/quic/sendbuf.rs]), the
    network loses, repeats and reorders them as it likes, and the receiver's
    buffer ([pratique/src/quic/reassembly.rs]) takes what arrives.  The steps
    are a relation on the state of both ends; the theorems, by induction on
    its runs, are what a stream promises to those who use it. *)

From Stdlib Require Import ZArith Lia.
From stdpp Require Import base option sorting numbers list_numbers sets list relations.
From S2P Require Import Prelude BTree Slice RangeSet Reassembly SendBuf.

#[local] Open Scope Z_scope.

(** ** The system *)

(** A chunk on the wire, with its bytes. *)
Record Frame := mk_frame { chunk : Chunk; payload : list Z }.

Record World := mk_world {
  sender : SendBuf;
  receiver : Reassembler;
  (** all that was written *)
  stream : list Z;
  (** all that was sent: any of it may arrive, at any time, more than once *)
  network : list Frame;
  (** what arrived *)
  arrived : list Frame;
  (** all that was read *)
  output : list Z;
}.

Definition init : World := mk_world SendBuf.new Reassembly.new [] [] [] [].

Inductive step : World -> World -> Prop :=
| step_write d s' s r w n a o :
    len w + len d < U64_MAX -> write d s = Ok s' ->
    step (mk_world s r w n a o) (mk_world s' r (w ++ d) n a o)
| step_finish s r w n a o : step (mk_world s r w n a o) (mk_world (finish s) r w n a o)
| step_send max_len limit c s' xs ys b s r w n a o :
    0 <= max_len -> len w + max_len <= U64_MAX -> next_chunk max_len limit s = Ok (Some c, s') ->
    SendBuf.data s' = xs ++ ys -> copy (ck_offset c) (ck_len c) xs ys s' = Ok b ->
    step (mk_world s r w n a o) (mk_world s' r w (mk_frame c b :: n) a o)
| step_deliver f window r' s r w n a o :
    f ∈ n -> 0 <= window -> Reassembly.insert (ck_offset (chunk f)) (payload f) window r = Ok r' ->
    step (mk_world s r w n a o) (mk_world s r' w n (f :: a) o)
| step_ack f s' s r w n a o :
    f ∈ a -> on_acked (ck_offset (chunk f)) (ck_len (chunk f)) (ck_fin (chunk f)) s = Ok s' ->
    step (mk_world s r w n a o) (mk_world s' r w n a o)
| step_lost f s' s r w n a o :
    f ∈ n -> on_lost (ck_offset (chunk f)) (ck_len (chunk f)) (ck_fin (chunk f)) s = Ok s' ->
    step (mk_world s r w n a o) (mk_world s' r w n a o)
| step_restart s' s r w n a o :
    mark_all_lost s = Ok s' -> step (mk_world s r w n a o) (mk_world s' r w n a o)
| step_read cap out r' s r w n a o :
    Reassembly.read cap r = (out, r') -> step (mk_world s r w n a o) (mk_world s r' w n a (o ++ out)).

Definition reachable (x : World) : Prop := rtc step init x.

(** ** The invariant *)

(** A frame says the bytes of the stream at its range. *)
Record frame_ok (w : list Z) (s : SendBuf) (f : Frame) : Prop := mk_frame_ok {
  fr_range : 0 <= ck_offset (chunk f) /\ 0 <= ck_len (chunk f) /\ ck_offset (chunk f) + ck_len (chunk f) <= len w;
  fr_sent : ck_offset (chunk f) + ck_len (chunk f) + b2z (ck_fin (chunk f)) <= next s;
  fr_end : ck_fin (chunk f) = true -> fin s = true /\ ck_offset (chunk f) + ck_len (chunk f) = len w;
  fr_bytes : payload f = bytes_at w (ck_offset (chunk f)) (ck_len (chunk f));
}.

(** The receiver has had the byte at [p]. *)
Definition had (r : Reassembler) (p : Z) : Prop := p < read_off r \/ is_Some (byte_at (pieces r) p).

Record good (x : World) : Prop := mk_good {
  gd_sender : SendBuf.wf (stream x) (sender x);
  gd_receiver : Reassembly.wf (receiver x) /\ within_limit (receiver x);
  gd_network : forall f, f ∈ network x -> frame_ok (stream x) (sender x) f;
  gd_arrived : forall f, f ∈ arrived x -> f ∈ network x /\
    forall p, ck_offset (chunk f) <= p < ck_offset (chunk f) + ck_len (chunk f) -> had (receiver x) p;
  gd_bytes : forall p b, byte_at (pieces (receiver x)) p = Some b -> stream x !! Z.to_nat p = Some b;
  gd_read : output x = take (Z.to_nat (read_off (receiver x))) (stream x) /\ read_off (receiver x) <= len (stream x);
  gd_acked : forall p, 0 <= p < len (stream x) -> status_of (sender x) p = Acked -> had (receiver x) p;
}.

Lemma byte_at_nonneg r p : Reassembly.wf r -> is_Some (byte_at (pieces r) p) -> read_off r <= p.
Proof. intros Hr Hp. destruct (Z.le_gt_cases (read_off r) p); [done|]. rewrite (byte_low r p Hr) in Hp by lia. by destruct Hp. Qed.

Lemma good_init : good init.
Proof.
  split; cbn; try done.
  - apply sb_wf_new.
  - split; [apply wf_new|unfold within_limit; simpl; lia].
  - intros f H. by apply elem_of_nil in H.
  - intros f H. by apply elem_of_nil in H.
  - intros p Hp. change (len (@nil Z)) with 0 in Hp. lia.
Qed.

Lemma frame_ok_mono w d s s' f : frame_ok w s f -> next s <= next s' -> (fin s = true -> d = [] /\ fin s' = true) -> frame_ok (w ++ d) s' f.
Proof.
  intros [H1 H2 He H3] Hn Hf. assert (Hd := len_nonneg d). split; [rewrite len_app; lia|lia| |].
  { intros Hc. apply He in Hc as [Hc ?]. destruct (Hf Hc) as [-> ?]. by rewrite app_nil_r. }
  rewrite H3. unfold bytes_at.
  unfold len in *. rewrite drop_app_le by lia. rewrite take_app_le; [done|]. rewrite length_drop. lia.
Qed.

(** A step of the sender alone: the stream may grow, what is acknowledged
    may not. *)
Lemma good_sender s s' r w d n a o :
  good (mk_world s r w n a o) -> SendBuf.wf (w ++ d) s' -> next s <= next s' -> (fin s = true -> d = [] /\ fin s' = true) ->
  (forall p, 0 <= p < len w -> status_of s' p = Acked -> status_of s p = Acked \/ had r p) ->
  (forall p, len w <= p < len (w ++ d) -> status_of s' p <> Acked) ->
  good (mk_world s' r (w ++ d) n a o).
Proof.
  intros [G1 G2 G3 G4 G5 [G6 G6'] G7] Hw Hn Hfin Hold Hnew. cbn in *. assert (Hd := len_nonneg d). assert (Hr := wf_read _ (proj1 G2)). split; cbn; try done.
  - intros f Hf. eapply frame_ok_mono; [by apply G3|done|done].
  - intros p b Hb. apply lookup_app_l_Some. by apply G5.
  - rewrite len_app. split; [|lia]. unfold len in *. rewrite take_app_le by lia. done.
  - intros p Hp Hst. destruct (Z.lt_ge_cases p (len w)) as [Hlt|Hge]; [|by destruct (Hnew p ltac:(lia))].
    destruct (Hold p ltac:(lia) Hst) as [H|H]; [apply G7; [lia|done]|done].
Qed.

(** Bytes the receiver takes or gives. *)
Lemma good_deliver f window r' s r w n a o :
  good (mk_world s r w n a o) -> f ∈ n -> 0 <= window -> Reassembly.insert (ck_offset (chunk f)) (payload f) window r = Ok r' ->
  good (mk_world s r' w n (f :: a) o).
Proof.
  intros [G1 [G2 G2'] G3 G4 G5 [G6 G6'] G7] Hf Hwin Hi. cbn in *. destruct (G3 f Hf) as [F1 F2 _ F3].
  assert (Hok := ra_insert_ok r (ck_offset (chunk f)) (payload f) window G2 ltac:(lia) Hwin). rewrite Hi in Hok.
  destruct Hok as (_ & _ & _ & (W & R & B) & L). assert (Hlen : len (payload f) = ck_len (chunk f)) by (rewrite F3; apply bytes_at_len; lia).
  rewrite Hlen in B. assert (Hhad : forall p, had r p -> had r' p).
  { intros p [Hp|Hp]; [left; lia|right]. assert (H := byte_at_nonneg _ _ G2 Hp). rewrite B by done. case_decide; [|done].
    rewrite F3, bytes_at_lookup by lia. apply lookup_lt_is_Some. unfold len in *. lia. }
  split; cbn; try done.
  - split; [done|by apply L].
  - intros g [->|Hg]%elem_of_cons.
    + split; [done|]. intros p Hp. destruct (Z.lt_ge_cases p (read_off r)); [left; lia|right]. rewrite B, decide_True by done.
      rewrite F3, bytes_at_lookup by lia. apply lookup_lt_is_Some. unfold len in *. lia.
    + destruct (G4 g Hg) as [H1 H2]. split; [done|]. intros p Hp. by apply Hhad, H2.
  - intros p b Hb. assert (Hp := byte_at_nonneg _ p W ltac:(by eexists)). rewrite B in Hb by lia. case_decide; [|by apply G5].
    rewrite F3, bytes_at_lookup in Hb by lia. done.
  - rewrite R. done.
  - intros p Hp Hst. by apply Hhad, G7.
Qed.

Lemma good_read cap out r' s r w n a o :
  good (mk_world s r w n a o) -> Reassembly.read cap r = (out, r') -> good (mk_world s r' w n a (o ++ out)).
Proof.
  intros [G1 [G2 G2'] G3 G4 G5 [G6 G6'] G7] Hi. cbn in *. assert (Hok := read_ok cap r G2). rewrite Hi in Hok. destruct Hok as ((W & R & Hrun & B & L) & _ & _).
  assert (Hr := wf_read _ G2). assert (Ho := len_nonneg out).
  assert (Hout : forall i, (i < length out)%nat -> w !! (Z.to_nat (read_off r) + i)%nat = out !! i).
  { intros i Hlt. specialize (Hrun i Hlt). destruct (lookup_lt_is_Some_2 out i Hlt) as [b Hb]. rewrite Hb in Hrun |- *. apply G5 in Hrun.
    rewrite <- Hrun. f_equal. lia. }
  assert (Hhad : forall p, had r p -> had r' p).
  { intros p [Hp|Hp]; [left; lia|]. destruct (Z.lt_ge_cases p (read_off r')); [by left|right]. by rewrite B, decide_False by lia. }
  assert (Hend : read_off r' <= len w).
  { rewrite R. destruct (decide (out = [])) as [->|Hne]; [change (len (@nil Z)) with 0; lia|]. assert (Hp := len_pos _ Hne).
    assert (H := Hout (length out - 1)%nat ltac:(unfold len in *; lia)). destruct (lookup_lt_is_Some_2 out (length out - 1)%nat ltac:(unfold len in *; lia)) as [b Hb].
    rewrite Hb in H. apply lookup_lt_Some in H. unfold len in *. lia. }
  split; cbn; try done.
  - split; [done|by apply L].
  - intros f Hf. destruct (G4 f Hf) as [H1 H2]. split; [done|]. intros p Hp. by apply Hhad, H2.
  - intros p b Hb. rewrite B in Hb. case_decide; [done|]. by apply G5.
  - split; [|done]. rewrite G6, R. rewrite Z2Nat.inj_add by lia. rewrite <- take_take_drop. f_equal.
    apply list_eq. intros i. destruct (Nat.lt_ge_cases i (length out)) as [Hlt|Hge].
    + rewrite lookup_take_lt by (unfold len in *; lia). rewrite lookup_drop. symmetry. by apply Hout.
    + rewrite lookup_ge_None_2 by done. rewrite lookup_take_ge; [done|]. unfold len in *. lia.
  - intros p Hp Hst. by apply Hhad, G7.
Qed.

Lemma good_step x y : good x -> step x y -> good y.
Proof.
  intros Hg Hst. destruct Hst as [d s' s r w n a o Hl Hwr|s r w n a o|max_len limit c s' xs ys b s r w n a o Hm0 Hm Hc Hxy Hcp|f window r' s r w n a o Hf Hwin Hi
    |f s' s r w n a o Hf Hk|f s' s r w n a o Hf Hk|s' s r w n a o Hk|cap out r' s r w n a o Hrd].
  - assert (Hs := gd_sender _ Hg). cbn in Hs. destruct (fin s) eqn:Hfin; [unfold write in Hwr; by rewrite Hfin in Hwr|].
    destruct (write_ok w d s Hs Hfin Hl) as (s1 & He & Hw & Hst). rewrite Hwr in He. injection He as <-.
    assert (Hnx : next s' = next s) by (unfold write in Hwr; rewrite Hfin in Hwr; by injection Hwr as <-).
    eapply good_sender; [exact Hg|done|lia|by rewrite Hfin|intros p _; rewrite Hst; by left|]. intros p Hp Ha. apply (status_is (w ++ d)) in Ha; [|done].
    assert (Hx := wf_next _ _ Hs). rewrite Hfin in Hx. simpl in Hx. destruct Ha as [Ha|Ha].
    + assert (Hb := wf_next _ _ Hw). lia.
    + apply (wf_acked_in _ _ Hw) in Ha. lia.
  - assert (Hs := gd_sender _ Hg). cbn in Hs. destruct (finish_ok w s Hs) as [Hw Hst]. rewrite <- (app_nil_r w).
    eapply good_sender; [exact Hg|by rewrite app_nil_r|done|done|intros p _; rewrite Hst; by left|rewrite app_nil_r; intros; lia].
  - assert (Hs := gd_sender _ Hg). cbn in Hs. destruct (next_chunk_ok w s max_len limit Hs Hm0 Hm) as (oc & s1 & He & Hr). rewrite Hc in He. injection He as <- <-.
    destruct Hr as [[Hl Hsome Hin Hfin Hkind] [Hw (Hb & Hd & Hf) Hcin Hcout]].
    assert (Hcar : carries c (ck_offset c + ck_len c + b2z (ck_fin c) - 1)).
    { unfold carries. assert (H := b2z_range (ck_fin c)). destruct Hsome as [H'|H']; [lia|]. rewrite H' in *. simpl in *. lia. }
    assert (Hnext : next s <= next s' /\ ck_offset c + ck_len c + b2z (ck_fin c) <= next s').
    { assert (Hlast := Hcin _ Hcar). apply (status_is w) in Hlast; [|done]. cbn in Hlast. split; [|lia].
      destruct (Z.le_gt_cases (next s) (next s')); [done|]. exfalso. assert (Hu : status_of s' (next s') = Unsent) by (eapply status_is; [exact Hw|]; cbn; lia).
      destruct (decide (ck_offset c <= next s' < ck_offset c + ck_len c + b2z (ck_fin c))) as [Hd'|Hd'].
      - rewrite (Hcin _ Hd') in Hu. done.
      - rewrite (Hcout _ Hd') in Hu. apply (status_is w) in Hu; [|done]. cbn in Hu. lia. }
    assert (G : good (mk_world s' r w n a o)).
    { rewrite <- (app_nil_r w). eapply good_sender; [exact Hg|by rewrite app_nil_r|lia|split; congruence| |rewrite app_nil_r; intros; lia].
      intros p _ Hp. left. destruct (decide (ck_offset c <= p < ck_offset c + ck_len c + b2z (ck_fin c))) as [Hd'|Hd'].
      - by rewrite (Hcin _ Hd') in Hp.
      - by rewrite (Hcout _ Hd') in Hp. }
    destruct G as [G1 G2 G3 G4 G5 G6 G7]. split; cbn in *; try done.
    + intros f [->|Hin']%elem_of_cons; [|by apply G3]. assert (Hbs := wf_base _ _ Hs).
      rewrite (copy_ok w s' _ _ xs ys Hw Hxy) in Hcp by lia. injection Hcp as <-. split; cbn; [lia|lia|rewrite Hf; apply Hfin|done].
    + intros f Hin'. destruct (G4 f Hin') as [H1 H2]. split; [by right|done].
  - by eapply good_deliver.
  - assert (Hs := gd_sender _ Hg). cbn in Hs. destruct (gd_arrived _ Hg f Hf) as [Hfn Hhad]. destruct (gd_network _ Hg f Hfn) as [F1 F2 F4 F3]. cbn in *.
    destruct (on_acked_ok w s _ _ _ Hs (proj1 F1) (proj1 (proj2 F1)) F2) as (s1 & He & Hw & Hfi & Hn & Hst). rewrite Hk in He. injection He as <-.
    rewrite <- (app_nil_r w). eapply good_sender; [exact Hg|by rewrite app_nil_r|lia|split; congruence| |rewrite app_nil_r; intros; lia].
    intros p Hp Ha. rewrite Hst in Ha. case_decide as Hd; [|by left]. right. apply Hhad.
    destruct (ck_fin (chunk f)) eqn:Hfin; simpl in *; [|lia]. destruct (F4 eq_refl) as [_ Hend]. lia.
  - assert (Hs := gd_sender _ Hg). cbn in Hs. destruct (gd_network _ Hg f Hf) as [F1 F2 F4 F3]. cbn in *. assert (Hx := wf_next _ _ Hs). assert (Hlw := wf_len _ _ Hs).
    assert (Hbf := b2z_range (fin s)).
    destruct (on_lost_ok w s (ck_offset (chunk f)) (ck_len (chunk f)) (ck_fin (chunk f)) Hs (proj1 F1) (proj1 (proj2 F1)) ltac:(lia)) as (s1 & He & Hw & Hfi & Hn & Hst). rewrite Hk in He. injection He as <-.
    rewrite <- (app_nil_r w). eapply good_sender; [exact Hg|by rewrite app_nil_r|lia|split; congruence| |rewrite app_nil_r; intros; lia].
    intros p Hp Ha. rewrite Hst in Ha. case_decide as Hd; [done|by left].
  - assert (Hs := gd_sender _ Hg). cbn in Hs. destruct (mark_all_lost_ok w s Hs) as (s1 & He & Hw & Hfi & Hn & Hst). rewrite Hk in He. injection He as <-.
    rewrite <- (app_nil_r w). eapply good_sender; [exact Hg|by rewrite app_nil_r|lia|split; congruence| |rewrite app_nil_r; intros; lia].
    intros p Hp Ha. rewrite Hst in Ha. left. by destruct (status_of s p).
  - by eapply good_read.
Qed.

Lemma good_reachable x : reachable x -> good x.
Proof.
  intros H. assert (G := good_init). unfold reachable in H. induction H as [|x y z Hs _ IH]; [done|]. apply IH. by eapply good_step.
Qed.

(** ** Everything is sent in the end *)

(** The positions that wait to be sent. *)
Definition waits (s : SendBuf) (p : Z) : Prop := status_of s p = Lost \/ status_of s p = Unsent.

#[export] Instance waits_dec s p : Decision (waits s p).
Proof. unfold waits. apply _. Defined.

Definition waiting (s : SendBuf) : list Z := filter (waits s) (seqZ 0 (end_ s)).

Lemma filter_shorter {A} (P Q : A -> Prop) `{!forall x, Decision (P x)} `{!forall x, Decision (Q x)} (l : list A) :
  (forall x, x ∈ l -> P x -> Q x) -> (exists x, x ∈ l /\ Q x /\ ~ P x) -> (length (filter P l) < length (filter Q l))%nat.
Proof.
  intros HPQ. assert (Hle : forall l', (forall x, x ∈ l' -> P x -> Q x) -> (length (filter P l') <= length (filter Q l'))%nat).
  { induction l' as [|x l' IH]; intros Hx; [done|]. specialize (IH (fun y Hy => Hx y (list_elem_of_further _ _ _ Hy))).
    rewrite !filter_cons. destruct (decide (P x)), (decide (Q x)); cbn [length]; try lia. destruct n. apply Hx; [left|done]. }
  induction l as [|x l IH]; intros (y & Hy & HQ & HP); [by apply elem_of_nil in Hy|].
  specialize (Hle l (fun z Hz => HPQ z (list_elem_of_further _ _ _ Hz))). rewrite !filter_cons. apply elem_of_cons in Hy as [->|Hy].
  - rewrite decide_False by done. rewrite decide_True by done. cbn [length]. lia.
  - specialize (IH (fun z Hz => HPQ z (list_elem_of_further _ _ _ Hz)) (ex_intro _ y (conj Hy (conj HQ HP)))).
    destruct (decide (P x)) as [Hp|], (decide (Q x)) as [|Hq]; cbn [length]; try lia. destruct Hq. apply HPQ; [left|done].
Qed.

(** A chunk takes positions that wait. *)
Lemma chosen_waits w s c max_len limit :
  SendBuf.wf w s -> chosen w s max_len limit c -> forall p, carries c p -> 0 <= p < end_ s /\ waits s p.
Proof.
  intros Hs [Hl Hsome Hin Hfin Hkind] p Hp. assert (Hb0 := wf_base _ _ Hs). split.
  - unfold carries in Hp. rewrite (wf_end _ _ Hs). destruct (ck_fin c) eqn:Hfc; [destruct (Hfin eq_refl) as [-> ?]|]; simpl in *; [lia|]. assert (H := b2z_range (fin s)). lia.
  - destruct Hkind as [(_ & _ & H)|(_ & _ & _ & _ & H)]; specialize (H p Hp); [by left|by right].
Qed.

Lemma waits_pending w s p : SendBuf.wf w s -> 0 <= p < end_ s -> waits s p -> has_pending s = true.
Proof.
  intros Hs Hp Hw. assert (Hno := next_offset_ok _ _ Hs). destruct (next_offset s); [by apply Hno|]. destruct Hno as (_ & Hnl & Hne). destruct Hw as [Hw|Hw]; [by destruct (Hnl p)|].
  apply (status_is w) in Hw; [|done]. cbn in Hw. lia.
Qed.

Lemma nothing_pending w s : SendBuf.wf w s -> has_pending_within U64_MAX s = false -> has_pending s = false.
Proof.
  intros Hs Hr. assert (Hlen := wf_len _ _ Hs). unfold has_pending_within, has_pending in *. apply orb_false_iff in Hr as [Hr Hfin]. apply orb_false_iff in Hr as [Hem Hlt]. rewrite Hem. cbn [orb].
  rewrite (wf_end _ _ Hs). rewrite (wf_written _ _ Hs) in *. assert (Hx := wf_next _ _ Hs). cleanb. apply Z.ltb_ge. destruct (fin s); simpl in *; [cleanb|]; lia.
Qed.

(** A chunk given out leaves fewer that wait. *)
Lemma given_out_waiting w s c s' max_len limit :
  SendBuf.wf w s -> chosen w s max_len limit c -> given_out w s c s' -> (length (waiting s') < length (waiting s))%nat.
Proof.
  intros Hs Hch [Hw (Hb & Hd & Hf) Hcin Hcout]. assert (Hall := chosen_waits _ _ _ _ _ Hs Hch). destruct Hch as [Hl Hsome Hin Hfin Hkind].
  assert (He : end_ s' = end_ s) by (by rewrite (wf_end _ _ Hs), (wf_end _ _ Hw), Hf).
  assert (Hbf := b2z_range (ck_fin c)). assert (Hb0 := wf_base _ _ Hs).
  assert (Hc : carries c (ck_offset c)) by (unfold carries; destruct Hsome as [H'|H']; [lia|rewrite H'; simpl; lia]).
  unfold waiting. rewrite He. apply filter_shorter.
  - intros p _ Hp. destruct (decide (ck_offset c <= p < ck_offset c + ck_len c + b2z (ck_fin c))) as [Hd'|Hd']; [by apply Hall|].
    unfold waits in *. by rewrite (Hcout _ Hd') in Hp.
  - exists (ck_offset c). split; [apply elem_of_seqZ; destruct (Hall _ Hc) as [Hr _]; lia|]. split; [by apply Hall|]. unfold waits. rewrite (Hcin _ Hc). by intros [?|?].
Qed.

(** A step that sends a frame. *)
Definition sends (x y : World) : Prop := step x y /\ exists f, network y = f :: network x.

Lemma sends_steps x y : rtc sends x y -> rtc step x y.
Proof. intros H. induction H as [|x y z [Hs _] _ IH]; [done|]. by eapply rtc_l. Qed.

Lemma send_all x :
  good x -> exists y, rtc sends x y /\ good y /\ has_pending (sender y) = false /\ fin (sender y) = fin (sender x) /\
    receiver y = receiver x /\ stream y = stream x /\ output y = output x /\ arrived y = arrived x.
Proof.
  remember (length (waiting (sender x))) as k eqn:Hk. revert x Hk. induction (lt_wf k) as [k _ IH]. intros x -> Hg.
  assert (Hs := gd_sender _ Hg). assert (Hlen := wf_len _ _ Hs). destruct x as [s r w n a o]. cbn [sender receiver stream output arrived] in *.
  destruct (next_chunk_ok w s 1 U64_MAX Hs ltac:(lia) ltac:(lia)) as (oc & s' & He & Hr). destruct oc as [c|].
  - destruct Hr as [Hc Hgo]. assert (Hcopy : copy (ck_offset c) (ck_len c) [] (SendBuf.data s') s' = Ok (bytes_at w (ck_offset c) (ck_len c))).
    { destruct Hgo as [Hw (Hb & _ & _) _ _]. destruct Hc as [Hl _ Hin _ _]. apply copy_ok; [done|done|lia|lia|lia]. }
    assert (Hst : step (mk_world s r w n a o) (mk_world s' r w (mk_frame c (bytes_at w (ck_offset c) (ck_len c)) :: n) a o)).
    { eapply step_send; [| |exact He| |exact Hcopy]; [lia|lia|done]. }
    destruct (IH (length (waiting s')) ltac:(by eapply given_out_waiting)
      (mk_world s' r w (mk_frame c (bytes_at w (ck_offset c) (ck_len c)) :: n) a o) eq_refl (good_step _ _ Hg Hst)) as (y & Hy & Hgy & Hp & Hf & Hr').
    exists y. split; [eapply rtc_l; [split; [exact Hst|by eexists]|exact Hy]|]. split; [done|]. split; [done|]. split; [|done]. rewrite Hf. apply Hgo.
  - exists (mk_world s r w n a o). split; [done|]. split; [done|]. split; [|done]. cbn [sender]. destruct Hr as [_ Hr]. by apply (nothing_pending w), Hr.
Qed.

(** ** Every position in flight is in a frame *)

Definition tracked (x : World) : Prop :=
  forall p, status_of (sender x) p = InFlight -> exists f, f ∈ network x /\ carries (chunk f) p.

Lemma tracked_step x y : good x -> tracked x -> step x y -> tracked y.
Proof.
  intros Hg Ht Hst. unfold tracked in *. assert (Hs := gd_sender _ Hg).
  destruct Hst as [d s' s r w n a o Hl Hwr|s r w n a o|max_len limit c s' xs ys b s r w n a o Hm0 Hm Hc Hxy Hcp|f window r' s r w n a o Hf Hwin Hi
    |f s' s r w n a o Hf Hk|f s' s r w n a o Hf Hk|s' s r w n a o Hk|cap out r' s r w n a o Hrd]; cbn in *; intros p Hp; try (by apply Ht).
  - apply Ht. rewrite <- Hp. unfold write in Hwr. destruct (fin s); [done|]. by injection Hwr as <-.
  - destruct (next_chunk_ok w s max_len limit Hs Hm0 Hm) as (oc & s1 & He & Hr). rewrite Hc in He. injection He as <- <-.
    destruct Hr as [_ [_ _ Hcin Hcout]]. destruct (decide (ck_offset c <= p < ck_offset c + ck_len c + b2z (ck_fin c))) as [Hd'|Hd'].
    + exists (mk_frame c b). split; [left|done].
    + rewrite (Hcout _ Hd') in Hp. destruct (Ht p Hp) as (f & Hf & Hfc). exists f. split; [by right|done].
  - destruct (gd_arrived _ Hg f Hf) as [Hfn _]. destruct (gd_network _ Hg f Hfn) as [F1 F2 F4 F3]. cbn in *.
    destruct (on_acked_ok w s _ _ _ Hs (proj1 F1) (proj1 (proj2 F1)) F2) as (s1 & He & Hw & Hfi & Hn & Hst). rewrite Hk in He. injection He as <-.
    rewrite Hst in Hp. case_decide; [done|]. by apply Ht.
  - destruct (gd_network _ Hg f Hf) as [F1 F2 F4 F3]. cbn in *. assert (Hx := wf_next _ _ Hs). assert (Hlw := wf_len _ _ Hs). assert (Hbf := b2z_range (fin s)).
    destruct (on_lost_ok w s (ck_offset (chunk f)) (ck_len (chunk f)) (ck_fin (chunk f)) Hs (proj1 F1) (proj1 (proj2 F1)) ltac:(lia)) as (s1 & He & Hw & Hfi & Hn & Hst). rewrite Hk in He. injection He as <-.
    rewrite Hst in Hp. case_decide; [done|]. by apply Ht.
  - destruct (mark_all_lost_ok w s Hs) as (s1 & He & Hw & Hfi & Hn & Hst). rewrite Hk in He. injection He as <-.
    rewrite Hst in Hp. destruct (status_of s p) eqn:E; done.
Qed.

Lemma tracked_reachable x : reachable x -> tracked x.
Proof.
  intros H. assert (G := good_init). assert (T : tracked init).
  { intros p Hp. apply (status_is []) in Hp; [|apply sb_wf_new]. cbn in Hp. lia. }
  unfold reachable in H. induction H as [|x y z Hs _ IH]; [done|]. apply IH; [by eapply good_step|by eapply tracked_step].
Qed.

(** Acknowledging frames, one after the other. *)
Fixpoint ack_frames (fs : list Frame) (s : SendBuf) : result fault SendBuf :=
  match fs with
  | [] => Ok s
  | f :: fs => s ← on_acked (ck_offset (chunk f)) (ck_len (chunk f)) (ck_fin (chunk f)) s; ack_frames fs s
  end.

Lemma ack_all fs x :
  good x -> (forall f, f ∈ fs -> f ∈ arrived x) ->
  exists s', ack_frames fs (sender x) = Ok s' /\ good (mk_world s' (receiver x) (stream x) (network x) (arrived x) (output x)) /\
    fin s' = fin (sender x) /\ next s' = next (sender x) /\
    forall p, status_of s' p = if decide (Exists (fun f => carries (chunk f) p) fs) then Acked else status_of (sender x) p.
Proof.
  revert x. induction fs as [|f fs IH]; intros x Hg Hfs.
  { exists (sender x). destruct x as [s r w n a o]. cbn. split; [done|]. split; [done|]. split; [done|]. split; [done|]. intros p. rewrite decide_False; [done|]. by intros H%Exists_nil. }
  assert (Hs := gd_sender _ Hg). destruct x as [s r w n a o]. cbn in *. assert (Hf := Hfs f ltac:(left)). destruct (gd_arrived _ Hg f Hf) as [Hfn _].
  destruct (gd_network _ Hg f Hfn) as [F1 F2 F4 F3]. cbn in *.
  destruct (on_acked_ok w s _ _ _ Hs (proj1 F1) (proj1 (proj2 F1)) F2) as (s1 & He & Hw & Hfi & Hn & Hst).
  assert (Hstep : step (mk_world s r w n a o) (mk_world s1 r w n a o)) by (by eapply step_ack).
  destruct (IH _ (good_step _ _ Hg Hstep)) as (s' & Hy & Hgy & Hfi' & Hn' & Hst'); [intros g Hin; apply Hfs; by right|]. cbn in *.
  exists s'. rewrite He. cbn [mbind result_bind]. split; [exact Hy|]. split; [done|]. split; [congruence|]. split; [congruence|]. intros p. rewrite Hst', Hst. unfold carries in *.
  repeat case_decide; rewrite ?Exists_cons in *; (done || exfalso; tauto).
Qed.

Lemma take_all_rest w r : Reassembly.wf r -> read_off r <= len w ->
  (forall p b, byte_at (pieces r) p = Some b -> w !! Z.to_nat p = Some b) -> (forall p, 0 <= p < len w -> had r p) ->
  fst (take_all r) = drop (Z.to_nat (read_off r)) w.
Proof.
  intros Hr Hle Hb Hall. assert (Hok := take_all_ok r Hr). assert (Hr0 := wf_read _ Hr). destruct (take_all r) as [out r']. cbn [fst].
  destruct Hok as ((_ & _ & Hrun & _) & _ & Hend). assert (Hn := len_nonneg out).
  assert (Hout : forall i, (i < length out)%nat -> w !! (Z.to_nat (read_off r) + i)%nat = out !! i).
  { intros i Hlt. specialize (Hrun i Hlt). destruct (lookup_lt_is_Some_2 out i Hlt) as [b Hb']. rewrite Hb' in Hrun |- *. apply Hb in Hrun.
    rewrite <- Hrun. f_equal. lia. }
  assert (Hge : len w <= read_off r + len out).
  { destruct (Z.le_gt_cases (len w) (read_off r + len out)); [done|]. destruct (Hall (read_off r + len out) ltac:(lia)) as [H'|[b H']]; [lia|]. congruence. }
  apply list_eq. intros i. rewrite lookup_drop. destruct (Nat.lt_ge_cases i (length out)) as [Hlt|Hge']; [by rewrite Hout|].
  rewrite lookup_ge_None_2 by done. symmetry. apply lookup_ge_None_2. unfold len in *. lia.
Qed.

(** ** The properties *)

(** C7: whatever the network does (loses, repeats, delays and reorders
    frames) and however the calls at both ends interleave, what has been read
    is the front of what was written, a frame that arrives is never
    inconsistent with what came before (so an honest peer is never closed for
    it) and breaks no slice.  No call of the sender's buffer panics but
    [write] after the end of the stream: a chunk is given out with the bytes of
    the stream at its range, wherever the ring buffer wraps; what was sent can
    be declared lost, what arrived acknowledged, and everything sent lost. *)
Theorem stream_safe x :
  reachable x ->
  (exists rest, stream x = output x ++ rest) /\
  (forall f window, f ∈ network x -> 0 <= window ->
     match Reassembly.insert (ck_offset (chunk f)) (payload f) window (receiver x) with
     | Ok r' => within_limit r' | Err e => e = Exceeded end) /\
  (forall f, f ∈ network x -> is_Ok (on_lost (ck_offset (chunk f)) (ck_len (chunk f)) (ck_fin (chunk f)) (sender x))) /\
  (forall f, f ∈ arrived x -> is_Ok (on_acked (ck_offset (chunk f)) (ck_len (chunk f)) (ck_fin (chunk f)) (sender x))) /\
  is_Ok (mark_all_lost (sender x)) /\
  (forall max_len limit, 0 <= max_len -> len (stream x) + max_len <= U64_MAX ->
     match next_chunk max_len limit (sender x) with
     | Ok (Some c, s') => forall xs ys, SendBuf.data s' = xs ++ ys -> copy (ck_offset c) (ck_len c) xs ys s' = Ok (bytes_at (stream x) (ck_offset c) (ck_len c))
     | Ok (None, _) => True
     | Err _ => False
     end) /\
  (forall d, len (stream x) + len d < U64_MAX -> if fin (sender x) then write d (sender x) = Err Panic else is_Ok (write d (sender x))) /\
  fin (finish (sender x)) = true.
Proof.
  intros Hx. assert (Hg := good_reachable x Hx). assert (Hs := gd_sender _ Hg). destruct (gd_receiver _ Hg) as [Hr Hlim]. split; [|split; [|split; [|split; [|split; [|split; [|split]]]]]].
  - exists (drop (Z.to_nat (read_off (receiver x))) (stream x)). destruct (gd_read _ Hg) as [-> _]. by rewrite take_drop.
  - intros f window Hf Hwin. destruct (gd_network _ Hg f Hf) as [F1 F2 F4 F3].
    assert (Hok := ra_insert_ok (receiver x) (ck_offset (chunk f)) (payload f) window Hr (proj1 F1) Hwin).
    destruct (Reassembly.insert _ _ _ _) as [r'|[| |]]; [by apply Hok|done| |done]. exfalso. destruct Hok as (o & b & b' & Ho & Hb & Hb' & Hne). apply (gd_bytes _ Hg) in Hb.
    rewrite F3 in Hb', Ho. rewrite bytes_at_len in Ho by lia. rewrite bytes_at_lookup in Hb' by lia. congruence.
  - intros f Hf. destruct (gd_network _ Hg f Hf) as [F1 F2 F4 F3]. assert (Hnx := wf_next _ _ Hs). assert (Hlw := wf_len _ _ Hs). assert (Hbf := b2z_range (fin (sender x))).
    destruct (on_lost_ok _ _ (ck_offset (chunk f)) (ck_len (chunk f)) (ck_fin (chunk f)) Hs (proj1 F1) (proj1 (proj2 F1)) ltac:(lia)) as (s1 & -> & _). done.
  - intros f Hf. destruct (gd_arrived _ Hg f Hf) as [Hfn _]. destruct (gd_network _ Hg f Hfn) as [F1 F2 F4 F3].
    destruct (on_acked_ok _ _ _ _ _ Hs (proj1 F1) (proj1 (proj2 F1)) F2) as (s1 & -> & _). done.
  - destruct (mark_all_lost_ok _ _ Hs) as (s' & -> & _). done.
  - intros max_len limit H0 Hm. destruct (next_chunk_ok _ _ max_len limit Hs H0 Hm) as ([c|] & s' & -> & Hr'); [|done]. destruct Hr' as [[Hl _ Hin _ _] [Hw (Hb & _ & _) _ _]]. intros xs ys Hxy. apply copy_ok; [done|done|lia|lia|lia].
  - intros d Hd. destruct (fin (sender x)) eqn:Hf; [unfold write; by rewrite Hf|]. destruct (write_ok _ d _ Hs Hf Hd) as (s' & -> & _). done.
  - done.
Qed.

(** C8: the sender forgets only what has come: a byte it has forgotten, or
    counts as acknowledged, is at the receiver, and once everything is
    acknowledged, reading what is there completes the stream. *)
Theorem stream_complete x :
  reachable x ->
  (forall p, 0 <= p < len (stream x) -> p < base (sender x) \/ p ∈ acked (sender x) -> had (receiver x) p) /\
  (is_fully_acked (sender x) = true -> output x ++ fst (take_all (receiver x)) = stream x).
Proof.
  intros Hx. assert (Hg := good_reachable x Hx). assert (Hs := gd_sender _ Hg). destruct (gd_receiver _ Hg) as [Hr Hlim]. destruct (gd_read _ Hg) as [Hout Hle]. split.
  - intros p Hp Ha. apply (gd_acked _ Hg); [done|]. by eapply status_is.
  - intros Hf. apply (is_fully_acked_ok (stream x)) in Hf as [_ Hf]; [|done]. rewrite Hout, (take_all_rest (stream x)); [by rewrite take_drop|done|done|apply Hg|].
    intros p Hp. apply (gd_acked _ Hg); [done|]. apply Hf. lia.
Qed.

(** C9: a stream gets through, and nothing in flight is forgotten on the way.
    Whenever something is pending, [next_chunk] gives a chunk of any size
    allowed; exactly its positions, which waited (lost or never sent), become
    in flight, so fewer wait; and it gives nothing only if nothing waits.  Of
    each position of the stream and its end at any time: it waits and the
    sender says so; or it is in flight, and a frame that was sent carries it
    with the bytes of the stream; or it is acknowledged, and the receiver has it.
    So sending alone leads to nothing pending; and when nothing is pending and
    all that was sent has arrived, acknowledging the frames in any order leaves
    everything acknowledged, if the stream was finished, and reading gives the
    rest of the stream. *)
Theorem stream_live x :
  reachable x ->
  (forall max_len, 0 < max_len -> len (stream x) + max_len <= U64_MAX ->
   match next_chunk max_len U64_MAX (sender x) with
   | Ok (Some c, s') => (0 < ck_len c \/ ck_fin c = true) /\ ck_len c <= max_len /\
       (forall p, carries c p -> 0 <= p < end_ (sender x) /\ waits (sender x) p /\ status_of s' p = InFlight) /\
       (forall p, ~ carries c p -> status_of s' p = status_of (sender x) p)
   | Ok (None, s') => s' = sender x /\ has_pending (sender x) = false
   | Err _ => False
   end) /\
  (forall p, 0 <= p < end_ (sender x) ->
   match status_of (sender x) p with
   | Lost | Unsent => has_pending (sender x) = true
   | InFlight => exists f, f ∈ network x /\ carries (chunk f) p /\ payload f = bytes_at (stream x) (ck_offset (chunk f)) (ck_len (chunk f))
   | Acked => p < len (stream x) -> had (receiver x) p
   end) /\
  (exists y, rtc sends x y /\ has_pending (sender y) = false /\ stream y = stream x /\ fin (sender y) = fin (sender x)) /\
  (has_pending (sender x) = false -> forall fs, (forall f, f ∈ network x -> f ∈ arrived x /\ f ∈ fs) -> (forall f, f ∈ fs -> f ∈ network x) ->
   exists s', ack_frames fs (sender x) = Ok s' /\ is_fully_acked s' = fin (sender x) /\ output x ++ fst (take_all (receiver x)) = stream x).
Proof.
  intros Hx. assert (Hg := good_reachable x Hx). assert (Hs := gd_sender _ Hg). assert (Ht := tracked_reachable x Hx). assert (Hw0 := wf_len _ _ Hs). split; [|split; [|split]].
  - intros max_len Hm0 Hm. destruct (next_chunk_ok _ _ max_len U64_MAX Hs ltac:(lia) Hm) as ([c|] & s' & -> & Hr).
    + destruct Hr as [Hc Hgo]. assert (Hin := chosen_waits _ _ _ _ _ Hs Hc). destruct Hc as [Hl Hsome _ _ _]. destruct Hgo as [_ _ Hci Hco]. split; [done|]. split; [lia|]. split; [|done].
      intros p Hp. destruct (Hin p Hp) as [H1 H2]. split; [done|]. split; [done|by apply Hci].
    + destruct Hr as [-> Hr]. split; [done|]. by apply (nothing_pending (stream x)), Hr.
  - intros p Hp. destruct (status_of (sender x) p) eqn:E.
    + by apply (waits_pending (stream x) _ p Hs Hp); right.
    + destruct (Ht p E) as (f & Hf & Hc). exists f. split; [done|]. split; [done|]. by apply (gd_network _ Hg f Hf).
    + by apply (waits_pending (stream x) _ p Hs Hp); left.
    + intros Hlt. apply (gd_acked _ Hg); [lia|done].
  - destruct (send_all x Hg) as (y & H1 & _ & H2 & H3 & _ & H4 & _). by exists y.
  - intros Hpend fs Hall Hfs. destruct (ack_all fs x Hg ltac:(intros f Hf; by apply Hall, Hfs)) as (s' & Hy & Hgy & Hfi & Hn & Hst). assert (Hsy := gd_sender _ Hgy). cbn in Hsy.
    assert (Hacked : forall p, 0 <= p < len (stream x) + b2z (fin (sender x)) -> status_of s' p = Acked).
    { intros p Hp. rewrite <- (wf_end _ _ Hs) in Hp. rewrite Hst. case_decide as He; [done|]. destruct (status_of (sender x) p) eqn:E; [| | |done].
      - rewrite (waits_pending (stream x) _ p Hs Hp) in Hpend; [done|by right].
      - destruct (Ht p E) as (f & Hf & Hc). destruct He. apply Exists_exists. exists f. split; [by apply Hall|done].
      - rewrite (waits_pending (stream x) _ p Hs Hp) in Hpend; [done|by left]. }
    assert (Hbf := b2z_range (fin (sender x))). exists s'. split; [done|]. split.
    + apply Bool.eq_iff_eq_true. rewrite (is_fully_acked_ok (stream x)) by done. rewrite Hfi. split; [by intros [? _]|]. intros Hf. split; [done|]. intros p Hp. apply Hacked. rewrite Hf. simpl. lia.
    + rewrite (take_all_rest (stream x) (receiver x) (proj1 (gd_receiver _ Hg)) (proj2 (gd_read _ Hg)) (gd_bytes _ Hg)); [destruct (gd_read _ Hg) as [-> _]; by rewrite take_drop|].
      intros p Hp. apply (gd_acked _ Hgy p Hp), Hacked. lia.
Qed.

(** Two frames that arrive in the wrong order. *)
Definition demo : World :=
  mk_world (SendBuf.mk_sendbuf [7; 8; 9] 0 true 4 RangeSet.new RangeSet.new)
    (mk_reassembler 0 [(2, mk_piece [9] 0)] 1) [7; 8; 9]
    [mk_frame (mk_chunk 2 1 true 1) [9]; mk_frame (mk_chunk 0 2 false 2) [7; 8]] [mk_frame (mk_chunk 2 1 true 1) [9]] [].

Lemma demo_reachable : reachable demo.
Proof.
  eapply rtc_l; [apply (step_write [7; 8; 9]); [unfold U64_MAX, len; simpl; lia|reflexivity]|].
  eapply rtc_l; [apply step_finish|].
  eapply rtc_l; [apply (step_send 2 100) with (xs := []) (ys := [7; 8; 9]); [lia|unfold U64_MAX, len; simpl; lia|reflexivity..]|].
  eapply rtc_l; [apply (step_send 2 100) with (xs := [7]) (ys := [8; 9]); [lia|unfold U64_MAX, len; simpl; lia|reflexivity..]|].
  eapply rtc_l; [apply (step_deliver (mk_frame (mk_chunk 2 1 true 1) [9]) 100); [left|lia|reflexivity]|].
  apply rtc_refl.
Qed.

Lemma stream_safe_witness :
  exists r', Reassembly.insert 0 [7; 8] 100 (receiver demo) = Ok r' /\ within_limit r'.
Proof.
  destruct (stream_safe demo demo_reachable) as (_ & H & _). specialize (H (mk_frame (mk_chunk 0 2 false 2) [7; 8]) 100 ltac:(right; left) ltac:(lia)).
  eexists. split; [reflexivity|]. exact H.
Defined.

(** The other frame arrives, and both are acknowledged. *)
Definition demo_acked : World :=
  mk_world (SendBuf.mk_sendbuf [] 3 true 4 (mk_rangeset [(3, 4)]) RangeSet.new)
    (mk_reassembler 0 [(0, mk_piece [7; 8; 9] 0)] 3) [7; 8; 9] (network demo)
    [mk_frame (mk_chunk 0 2 false 2) [7; 8]; mk_frame (mk_chunk 2 1 true 1) [9]] [].

Lemma demo_acked_reachable : reachable demo_acked.
Proof.
  unfold reachable. etransitivity; [exact demo_reachable|].
  eapply rtc_l; [apply (step_deliver (mk_frame (mk_chunk 0 2 false 2) [7; 8]) 100); [right; left|lia|reflexivity]|].
  eapply rtc_l; [apply (step_ack (mk_frame (mk_chunk 2 1 true 1) [9])); [right; left|reflexivity]|].
  eapply rtc_l; [apply (step_ack (mk_frame (mk_chunk 0 2 false 2) [7; 8])); [left|reflexivity]|].
  apply rtc_refl.
Qed.

Lemma stream_complete_witness : fst (take_all (receiver demo_acked)) = [7; 8; 9].
Proof. destruct (stream_complete demo_acked demo_acked_reachable) as [_ H]. exact (H eq_refl). Defined.

Lemma stream_live_witness : exists s', ack_frames (network demo_acked) (sender demo_acked) = Ok s' /\ is_fully_acked s' = true /\ [] ++ fst (take_all (receiver demo_acked)) = [7; 8; 9].
Proof.
  destruct (stream_live demo_acked demo_acked_reachable) as (_ & _ & _ & H). apply H; [done| |done].
  intros f Hf. split; [|done]. revert f Hf. intros f [->|[->|H']%elem_of_cons]%elem_of_cons; [right; left|left|by apply elem_of_nil in H'].
Defined.
