(* ===== verification/Wire.v ===== *)
(** The lowest level of the wire format: [pratique/src/quic/wire.rs].

    Variable-length integers, a cursor that reads them, and packet numbers,
    which are sent truncated.  What is written is read back, whatever follows
    it; what is read is what would be written; a read that fails reads
    nothing; a truncated packet number is recovered as long as packets are
    reordered by less than the window it was sent for. *)

From Stdlib Require Import ZArith Lia.
From stdpp Require Import base option numbers list_numbers list.
From S2P Require Import Prelude Slice.

#[local] Open Scope Z_scope.

(** ** Words as bytes *)

(** The low [n] bytes of a word, the highest first ([to_be_bytes]). *)
Fixpoint be_bytes (n : nat) (w : Z) : list Z :=
  match n with
  | O => []
  | S n' => be_bytes n' (Z.shiftr w 8) ++ [Z.land w 255]
  end.

Definition byte (b : Z) : Prop := 0 <= b < 256.

(** ** Variable-length integers *)

Definition MAX_VARINT : Z := Z.shiftl 1 62 - 1.

(** [None]: a panic. *)
Definition varint_len (v : Z) : option Z :=
  if MAX_VARINT <? v then None
  else Some (if v <=? 63 then 1 else if v <=? 16383 then 2 else if v <=? 1073741823 then 4 else 8).

Definition put_varint_len (out : list Z) (v n : Z) : option (list Z) :=
  if negb ((n =? 1) || (n =? 2) || (n =? 4) || (n =? 8)) then None
  else
    need ← varint_len v;
    if negb (need <=? n) then None
    else
      let tag := if n =? 1 then 0 else if n =? 2 then 1 else if n =? 4 then 2 else 3 in
      let word := Z.lor v (u64 (Z.shiftl tag (n * 8 - 2))) in
      Some (out ++ drop (Z.to_nat (8 - n)) (be_bytes 8 word)).

Definition put_varint (out : list Z) (v : Z) : option (list Z) :=
  n ← varint_len v; put_varint_len out v n.

Definition patch_length (buf : list Z) (at_ : nat) (v : Z) : option (list Z) :=
  if 16383 <? v then None
  else if (length buf <=? at_)%nat then None
  else
    let buf := <[at_ := Z.lor 64 (Z.land (Z.shiftr v 8) 255)]> buf in
    if (length buf <=? S at_)%nat then None
    else Some (<[S at_ := Z.land v 255]> buf).

Definition get_varint (buf : list Z) : option (Z * Z) :=
  match buf with
  | [] => None
  | first :: _ =>
      let n := Z.shiftl 1 (Z.shiftr first 6) in
      if len buf <? n then None
      else
        Some (fold_left (fun v b => Z.lor (u64 (Z.shiftl v 8)) b) (take (Z.to_nat (n - 1)) (drop 1 buf)) (Z.land first 63), n)
  end.

(** ** The cursor *)

Record Reader := mk_reader { buf : list Z; pos : Z }.

Inductive error : Type := Truncated | Fault (f : fault).

(** A read: its value, and the reader it leaves, also when it fails. *)
Abbreviation reads := (stx Reader error).

Definition new_reader (b : list Z) : Reader := mk_reader b 0.

Definition rest (r : Reader) : option (list Z) := slice (pos r) (len (buf r)) (buf r).

Definition at_end (r : Reader) : bool := len (buf r) <=? pos r.

Definition forward (n : Z) : reads unit := xmod (fun r => mk_reader (buf r) (u64 (pos r + n))).

Definition read_u8 : reads Z :=
  r ← xget;
  b ← xsome Truncated (buf r !! Z.to_nat (pos r));
  _ ← forward 1;
  mret b.

Definition read_bytes (n : Z) : reads (list Z) :=
  r ← xget;
  if u64 (len (buf r) - pos r) <? n then xfail Truncated
  else
    s ← xsome (Fault Panic) (slice (pos r) (u64 (pos r + n)) (buf r));
    _ ← forward n;
    mret s.

(** [u32::from_be_bytes]. *)
Definition from_be (l : list Z) : Z := fold_left (fun v b => v * 256 + b) l 0.

Definition read_u32 : reads Z :=
  b ← read_bytes 4;
  b ← xsome (Fault Panic) (slice 0 4 b);
  mret (from_be b).

Definition read_get : reads (Z * Z) :=
  r ← xget;
  t ← xsome (Fault Panic) (rest r);
  x ← xsome Truncated (get_varint t);
  _ ← forward (snd x);
  mret x.

Definition read_varint : reads Z := x ← read_get; mret (fst x).

Definition read_varint_minimal : reads (Z * bool) :=
  x ← read_get;
  need ← xsome (Fault Panic) (varint_len (fst x));
  mret (fst x, need =? snd x).

Definition read_length_prefixed : reads (list Z) :=
  r ← xget;
  n ← read_varint;
  r' ← xget;
  if u64 (len (buf r') - pos r') <? n
  then _ ← xmod (fun r' => mk_reader (buf r') (pos r)); xfail Truncated
  else read_bytes n.

(** ** Packet numbers *)

Definition MAX_PACKET_NUMBER_LEN : Z := 4.

Definition packet_number_len (pn : Z) (largest_acked : option Z) : option Z :=
  let unacked := match largest_acked with Some acked => sat_sub pn acked | None => sat_add U64_MAX pn 1 end in
  let range := sat_mul U64_MAX unacked 2 in
  List.find (fun n => range <? Z.shiftl 1 (8 * n)) (seqZ 1 MAX_PACKET_NUMBER_LEN).

(** [!x] of a [u64]. *)
Definition not64 (x : Z) : Z := Z.land (Z.lnot x) U64_MAX.

(** [None]: a panic. *)
Definition decode_packet_number (largest : option Z) (truncated nbytes : Z) : option Z :=
  if negb ((1 <=? nbytes) && (nbytes <=? MAX_PACKET_NUMBER_LEN)) then None
  else
    let expected := match largest with Some l => sat_add U64_MAX l 1 | None => 0 end in
    let win := Z.shiftl 1 (8 * nbytes) in
    let half := win / 2 in
    let mask := win - 1 in
    let candidate := Z.lor (Z.land expected (not64 mask)) (Z.land truncated mask) in
    Some (if (sat_add U64_MAX candidate half <=? expected) && (candidate <? Z.shiftl 1 62 - win) then u64 (candidate + win)
      else if (sat_add U64_MAX expected half <? candidate) && (win <=? candidate) then candidate - win
      else candidate).

(** ** Lemmas on words *)

Lemma lor_shift v t k : 0 <= k -> 0 <= v < 2 ^ k -> Z.lor v (Z.shiftl t k) = v + t * 2 ^ k.
Proof.
  intros Hk Hv. rewrite <- Z.add_nocarry_lor, Z.shiftl_mul_pow2; [done|done|]. apply Z.bits_inj'. intros i Hi. rewrite Z.land_spec, Z.bits_0.
  destruct (Z.lt_ge_cases i k) as [Hlt|Hge].
  - rewrite Z.shiftl_spec_low by done. apply andb_false_r.
  - destruct (Z.eq_dec v 0) as [->|Hv0]; [by rewrite Z.bits_0|]. rewrite Z.bits_above_log2; [done|lia|].
    apply Z.log2_lt_pow2; [lia|]. apply Z.lt_le_trans with (2 ^ k); [lia|]. apply Z.pow_le_mono_r; lia.
Qed.

Lemma land_low a n : 0 <= n -> Z.land a (2 ^ n - 1) = a mod 2 ^ n.
Proof. intros Hn. by rewrite <- Z.land_ones, Z.ones_equiv, Z.sub_1_r. Qed.

Lemma land_255 a : Z.land a 255 = a mod 256.
Proof. exact (land_low a 8 ltac:(lia)). Qed.

Lemma land_63 a : Z.land a 63 = a mod 64.
Proof. exact (land_low a 6 ltac:(lia)). Qed.

Lemma be_bytes_length n w : length (be_bytes n w) = n.
Proof. revert w. induction n as [|n IH]; intros w; [done|]. simpl. rewrite length_app, IH. simpl. lia. Qed.

Lemma pow256 n : 0 < 256 ^ Z.of_nat n.
Proof. apply Z.pow_pos_nonneg; lia. Qed.

Lemma be_bytes_head n w : 0 <= w -> be_bytes (S n) w = (w / 256 ^ Z.of_nat n) mod 256 :: be_bytes n w.
Proof.
  revert w. induction n as [|n IH]; intros w Hw; [simpl; by rewrite land_255, Z.div_1_r|].
  change (be_bytes (S (S n)) w) with (be_bytes (S n) (Z.shiftr w 8) ++ [Z.land w 255]). rewrite IH by (by apply Z.shiftr_nonneg).
  change (be_bytes (S n) w) with (be_bytes n (Z.shiftr w 8) ++ [Z.land w 255]). cbn [app]. f_equal.
  rewrite Z.shiftr_div_pow2 by lia. change (2 ^ 8) with 256. rewrite Nat2Z.inj_succ, Z.pow_succ_r by lia.
  assert (H := pow256 n). rewrite <- Z.div_div by lia. done.
Qed.

Lemma be_bytes_drop k n w : 0 <= w -> drop k (be_bytes (k + n) w) = be_bytes n w.
Proof. intros Hw. induction k as [|k IH]; [done|]. change (S k + n)%nat with (S (k + n)). by rewrite be_bytes_head. Qed.

Lemma be_bytes_byte n w b : b ∈ be_bytes n w -> byte b.
Proof.
  revert w. induction n as [|n IH]; intros w; simpl; [intros H; by apply elem_of_nil in H|].
  intros [H|H]%elem_of_app; [by eapply IH|]. apply list_elem_of_singleton in H as ->. rewrite land_255. unfold byte. apply Z.mod_pos_bound. lia.
Qed.

(** The bytes of a number shift it in below what is there. *)
Lemma fold_be_bytes n w a : 0 <= w -> fold_left (fun v b => v * 256 + b) (be_bytes n w) a = a * 256 ^ Z.of_nat n + w mod 256 ^ Z.of_nat n.
Proof.
  revert w. induction n as [|n IH]; intros w Hw; [simpl; rewrite Z.mod_1_r; lia|].
  change (be_bytes (S n) w) with (be_bytes n (Z.shiftr w 8) ++ [Z.land w 255]). rewrite fold_left_app, IH by (by apply Z.shiftr_nonneg).
  simpl fold_left. rewrite land_255, Z.shiftr_div_pow2 by lia. change (2 ^ 8) with 256. rewrite Nat2Z.inj_succ, Z.pow_succ_r by lia.
  assert (H := pow256 n). rewrite (Z.rem_mul_r w 256 (256 ^ Z.of_nat n)) by lia. lia.
Qed.

(** And the other way: bytes are the bytes of the number they make. *)
Lemma be_bytes_fold l a : 0 <= a -> (forall b, b ∈ l -> byte b) -> be_bytes (length l) (fold_left (fun v b => v * 256 + b) l a) = l.
Proof.
  revert a. induction l as [|b l IH] using rev_ind; intros a Ha Hl; [done|]. rewrite length_app, Nat.add_1_r, fold_left_app. simpl.
  assert (Hb : byte b) by (apply Hl, elem_of_app; right; left). unfold byte in Hb. set (x := fold_left _ l a).
  assert (Hx : Z.shiftr (x * 256 + b) 8 = x) by (rewrite Z.shiftr_div_pow2 by lia; change (2 ^ 8) with 256; rewrite Z.div_add_l by lia; rewrite Z.div_small by lia; lia).
  rewrite Hx. unfold x. rewrite IH; [|done|intros c Hc; apply Hl, elem_of_app; by left].
  f_equal. f_equal. rewrite land_255, Z.add_comm, Z.mod_add by lia. apply Z.mod_small. lia.
Qed.

Lemma fold_bytes_bound l a : 0 <= a -> (forall b, b ∈ l -> byte b) ->
  0 <= fold_left (fun v b => v * 256 + b) l a < (a + 1) * 256 ^ len l.
Proof.
  revert a. induction l as [|b l IH]; intros a Ha Hl; [simpl; change (len (@nil Z)) with 0; rewrite Z.pow_0_r; lia|].
  assert (Hb : byte b) by (apply Hl; left). unfold byte in Hb. simpl. destruct (IH (a * 256 + b) ltac:(lia)) as [H1 H2]; [intros c Hc; apply Hl; by right|].
  split; [done|]. eapply Z.lt_le_trans; [exact H2|]. assert (Hn := len_nonneg l). assert (Hlen : len (b :: l) = Z.succ (len l)) by (unfold len; simpl; lia).
  rewrite Hlen, Z.pow_succ_r by done. assert (Hp : 0 < 256 ^ len l) by (apply Z.pow_pos_nonneg; lia). nia.
Qed.

(** The shifts of [get_varint] do not overflow. *)
Lemma fold_shift l a : 0 <= a -> (forall b, b ∈ l -> byte b) -> (a + 1) * 256 ^ len l <= U64_MAX ->
  fold_left (fun v b => Z.lor (u64 (Z.shiftl v 8)) b) l a = fold_left (fun v b => v * 256 + b) l a.
Proof.
  revert a. induction l as [|b l IH]; intros a Ha Hl Hu; [done|]. simpl. assert (Hb : byte b) by (apply Hl; left). unfold byte in Hb.
  assert (Hn := len_nonneg l). assert (Hlen : len (b :: l) = Z.succ (len l)) by (unfold len; simpl; lia). rewrite Hlen, Z.pow_succ_r in Hu by done.
  assert (Hp : 0 < 256 ^ len l) by (apply Z.pow_pos_nonneg; lia).
  assert (Hs : Z.shiftl a 8 = a * 256) by (rewrite Z.shiftl_mul_pow2 by lia; done).
  assert (He : Z.lor (u64 (Z.shiftl a 8)) b = a * 256 + b).
  { rewrite u64_small by nia. rewrite Z.lor_comm, lor_shift; [change (2 ^ 8) with 256; lia|lia|done]. }
  rewrite He. apply IH; [lia|intros c Hc; apply Hl; by right|nia].
Qed.

(** ** Lemmas on variable-length integers *)

(** [n] bytes with the tag [t]. *)
Definition size_of_tag (t n : Z) : Prop := (t = 0 /\ n = 1) \/ (t = 1 /\ n = 2) \/ (t = 2 /\ n = 4) \/ (t = 3 /\ n = 8).

(** What an [n]-byte integer holds. *)
Definition room (n : Z) : Z := 2 ^ (n * 8 - 2).

Lemma varint_len_ok v : 0 <= v -> match varint_len v with
  | Some n => (exists t, size_of_tag t n) /\ v < room n /\ v <= MAX_VARINT /\ forall t n', size_of_tag t n' -> v < room n' -> n <= n'
  | None => MAX_VARINT < v
  end.
Proof.
  intros Hv. unfold varint_len. change MAX_VARINT with 4611686018427387903. destruct (Z.ltb_spec 4611686018427387903 v); [done|].
  assert (Hleast : forall n, (forall t n', size_of_tag t n' -> v < room n' -> n <= n') <-> (v < room 1 -> n <= 1) /\ (v < room 2 -> n <= 2) /\ (v < room 4 -> n <= 4) /\ (v < room 8 -> n <= 8)).
  { intros n. split.
    - intros H'. split; [|split; [|split]]; [apply (H' 0)|apply (H' 1)|apply (H' 2)|apply (H' 3)]; unfold size_of_tag; lia.
    - intros (H1 & H2 & H3 & H4) t n' [[_ ->]|[[_ ->]|[[_ ->]|[_ ->]]]]; done. }
  rewrite Hleast. change (room 1) with 64. change (room 2) with 16384. change (room 4) with 1073741824. change (room 8) with 4611686018427387904.
  unfold size_of_tag. destruct (Z.leb_spec v 63); [|destruct (Z.leb_spec v 16383); [|destruct (Z.leb_spec v 1073741823)]].
  - change (room 1) with 64. split; [exists 0; lia|lia].
  - change (room 2) with 16384. split; [exists 1; lia|lia].
  - change (room 4) with 1073741824. split; [exists 2; lia|lia].
  - change (room 8) with 4611686018427387904. split; [exists 3; lia|lia].
Qed.

Lemma put_varint_len_ok out v t n :
  size_of_tag t n -> 0 <= v < room n -> put_varint_len out v n = Some (out ++ be_bytes (Z.to_nat n) (v + t * room n)).
Proof.
  intros Ht Hv. assert (Hr : room n <= room 8) by (destruct Ht as [[_ ->]|[[_ ->]|[[_ ->]|[_ ->]]]]; by vm_compute).
  assert (Hl := varint_len_ok v ltac:(lia)). unfold put_varint_len. destruct (varint_len v) as [need|].
  2: { change (room 8) with 4611686018427387904 in Hr. change MAX_VARINT with 4611686018427387903 in Hl. lia. }
  destruct Hl as (_ & _ & _ & Hl). specialize (Hl t n Ht ltac:(lia)).
  assert (Hk : Z.lor v (u64 (Z.shiftl t (n * 8 - 2))) = v + t * room n).
  { unfold room in *. rewrite u64_small.
    - apply lor_shift; [destruct Ht as [[_ ->]|[[_ ->]|[[_ ->]|[_ ->]]]]; lia|done].
    - destruct Ht as [[-> ->]|[[-> ->]|[[-> ->]|[-> ->]]]]; vm_compute; done. }
  assert (Hnn : exists k, Z.to_nat (8 - n) = k /\ (k + Z.to_nat n = 8)%nat) by (eexists; split; [done|]; destruct Ht as [[_ ->]|[[_ ->]|[[_ ->]|[_ ->]]]]; done).
  destruct Hnn as (k & Hk1 & Hk2). assert (Hw : 0 <= v + t * room n) by (destruct Ht as [[-> ->]|[[-> ->]|[[-> ->]|[-> ->]]]]; unfold room in *; lia).
  assert (Hd := be_bytes_drop k (Z.to_nat n) (v + t * room n) Hw). rewrite Hk2 in Hd.
  assert (Htag : (if n =? 1 then 0 else if n =? 2 then 1 else if n =? 4 then 2 else 3) = t /\ ((n =? 1) || (n =? 2) || (n =? 4) || (n =? 8)) = true)
    by (destruct Ht as [[-> ->]|[[-> ->]|[[-> ->]|[-> ->]]]]; done).
  destruct Htag as [Htag Hval]. rewrite Htag, Hval. cbn [negb mbind option_bind]. rewrite (proj2 (Z.leb_le _ _) Hl). cbn [negb]. by rewrite Hk, Hk1, Hd.
Qed.

(** A word of [n] bytes, read. *)
Lemma get_be t n v tail :
  size_of_tag t n -> 0 <= v < room n -> get_varint (be_bytes (Z.to_nat n) (v + t * room n) ++ tail) = Some (v, n).
Proof.
  intros Ht Hv. set (w := v + t * room n). assert (Hw : 0 <= w) by (unfold w; destruct Ht as [[-> ->]|[[-> ->]|[[-> ->]|[-> ->]]]]; unfold room in *; lia).
  assert (Hn : exists m, Z.to_nat n = S m /\ n = Z.of_nat (S m)) by (destruct Ht as [[_ ->]|[[_ ->]|[[_ ->]|[_ ->]]]]; by eexists).
  destruct Hn as (m & Hm & Hm'). rewrite Hm, be_bytes_head by done. cbn [app]. unfold get_varint. set (first := (w / 256 ^ Z.of_nat m) mod 256).
  assert (Hp := pow256 m). assert (Hroom : room n = 64 * 256 ^ Z.of_nat m).
  { unfold room. rewrite Hm', Nat2Z.inj_succ. change 256 with (2 ^ 8). change 64 with (2 ^ 6). rewrite <- Z.pow_mul_r, <- Z.pow_add_r by lia. f_equal. lia. }
  assert (Hdiv : w / 256 ^ Z.of_nat m = v / 256 ^ Z.of_nat m + t * 64).
  { unfold w. rewrite Hroom. replace (v + t * (64 * 256 ^ Z.of_nat m)) with (v + (t * 64) * 256 ^ Z.of_nat m) by lia. by rewrite Z.div_add by lia. }
  assert (Hvd : 0 <= v / 256 ^ Z.of_nat m < 64) by (split; [apply Z.div_pos; lia|apply Z.div_lt_upper_bound; lia]).
  assert (Ht3 : 0 <= t <= 3) by (destruct Ht as [[-> _]|[[-> _]|[[-> _]|[-> _]]]]; lia).
  assert (Hfirst : first = v / 256 ^ Z.of_nat m + t * 64) by (unfold first; rewrite Hdiv; apply Z.mod_small; lia).
  assert (Hsz : Z.shiftl 1 (Z.shiftr first 6) = n).
  { rewrite Z.shiftr_div_pow2 by lia. change (2 ^ 6) with 64. rewrite Hfirst, Z.div_add, Z.div_small by lia. destruct Ht as [[-> ->]|[[-> ->]|[[-> ->]|[-> ->]]]]; done. }
  rewrite Hsz. assert (Hlen : len (first :: be_bytes m w ++ tail) = n + len tail).
  { unfold len. cbn [length]. rewrite length_app, be_bytes_length. lia. }
  rewrite Hlen. assert (Hlt := len_nonneg tail). destruct (Z.ltb_spec (n + len tail) n); [lia|]. f_equal. f_equal.
  change (drop 1 (first :: be_bytes m w ++ tail)) with (be_bytes m w ++ tail). replace (Z.to_nat (n - 1)) with m by lia. rewrite take_app_le by (rewrite be_bytes_length; lia). rewrite take_ge by (rewrite be_bytes_length; lia).
  rewrite land_63, Hfirst, Z.mod_add, Z.mod_small by lia. assert (Hlb : len (be_bytes m w) = Z.of_nat m) by (unfold len; by rewrite be_bytes_length).
  rewrite fold_shift; [|lia|intros b; apply be_bytes_byte|].
  - rewrite fold_be_bytes by done. replace (w mod 256 ^ Z.of_nat m) with (v mod 256 ^ Z.of_nat m).
    + assert (Hdm := Z.div_mod v (256 ^ Z.of_nat m) ltac:(lia)). lia.
    + unfold w. rewrite Hroom. replace (v + t * (64 * 256 ^ Z.of_nat m)) with (v + (t * 64) * 256 ^ Z.of_nat m) by lia. by rewrite Z.mod_add by lia.
  - rewrite Hlb. assert (Hr8 : room n <= room 8) by (destruct Ht as [[_ ->]|[[_ ->]|[[_ ->]|[_ ->]]]]; by vm_compute).
    change (room 8) with 4611686018427387904 in Hr8. unfold U64_MAX. nia.
Qed.

(** What is read is what would be written with as many bytes. *)
Lemma get_varint_ok b :
  (forall x, x ∈ b -> byte x) ->
  match get_varint b with
  | Some (v, n) => exists t, size_of_tag t n /\ 0 <= v < room n /\ n <= len b /\ take (Z.to_nat n) b = be_bytes (Z.to_nat n) (v + t * room n)
  | None => b = [] \/ exists first, head b = Some first /\ len b < Z.shiftl 1 (Z.shiftr first 6)
  end.
Proof.
  intros Hb. unfold get_varint. destruct b as [|first b]; [by left|]. assert (Hf : byte first) by (apply Hb; left). unfold byte in Hf.
  set (t := Z.shiftr first 6). assert (Ht : t = first / 64) by (unfold t; by rewrite Z.shiftr_div_pow2 by lia).
  assert (Ht3 : 0 <= t <= 3) by (rewrite Ht; split; [apply Z.div_pos; lia|]; assert (first / 64 < 4) by (apply Z.div_lt_upper_bound; lia); lia).
  assert (Hsz : size_of_tag t (Z.shiftl 1 t)) by (assert (t = 0 \/ t = 1 \/ t = 2 \/ t = 3) as [-> | [-> | [-> | -> ]]] by lia; unfold size_of_tag; vm_compute; tauto).
  set (n := Z.shiftl 1 t) in *. destruct (Z.ltb_spec (len (first :: b)) n) as [Hlt|Hge]; [right; by exists first|]. exists t. split; [done|].
  assert (Hm : exists m, Z.to_nat n = S m /\ n = Z.of_nat (S m)) by (clearbody n; destruct Hsz as [[_ ->]|[[_ ->]|[[_ ->]|[_ ->]]]]; by eexists).
  destruct Hm as (m & Hm & Hm'). rewrite Hm. change (drop 1 (first :: b)) with b. cbn [take]. replace (Z.to_nat (n - 1)) with m by lia.
  assert (Hlb : (m <= length b)%nat) by (unfold len in Hge; cbn [length] in Hge; lia). set (l := take m b).
  assert (Hll : length l = m) by (unfold l; rewrite length_take; lia). assert (Hlen : len l = Z.of_nat m) by (unfold len; lia).
  assert (Hbl : forall x, x ∈ l -> byte x) by (intros x Hx; apply Hb; right; rewrite <- (take_drop m b); apply elem_of_app; by left).
  assert (Hp := pow256 m). assert (Hroom : room n = 64 * 256 ^ Z.of_nat m).
  { unfold room. rewrite Hm', Nat2Z.inj_succ. change 256 with (2 ^ 8). change 64 with (2 ^ 6). rewrite <- Z.pow_mul_r, <- Z.pow_add_r by lia. f_equal. lia. }
  rewrite land_63. assert (Hmod := Z.mod_pos_bound first 64 ltac:(lia)).
  assert (Hr8 : room n <= room 8) by (clearbody n; destruct Hsz as [[_ ->]|[[_ ->]|[[_ ->]|[_ ->]]]]; by vm_compute).
  change (room 8) with 4611686018427387904 in Hr8. rewrite fold_shift; [|lia|done|rewrite Hlen; unfold U64_MAX; nia].
  assert (Hbound := fold_bytes_bound l (first mod 64) ltac:(lia) Hbl). rewrite Hlen in Hbound. split; [rewrite Hroom; nia|]. split; [done|].
  assert (Hfold : fold_left (fun v b => v * 256 + b) l (first mod 64) + t * room n = fold_left (fun v b => v * 256 + b) (first :: l) 0).
  { simpl. assert (Hlin : forall l a c, fold_left (fun v b => v * 256 + b) l (a + c) = fold_left (fun v b => v * 256 + b) l a + c * 256 ^ len l).
    { clear. induction l as [|x l IH]; intros a c; [change (len (@nil Z)) with 0; rewrite Z.pow_0_r; simpl; lia|]. simpl.
      replace ((a + c) * 256 + x) with ((a * 256 + x) + c * 256) by lia. rewrite IH. assert (H := len_nonneg l).
      assert (Hl : len (x :: l) = Z.succ (len l)) by (unfold len; simpl; lia). rewrite Hl, Z.pow_succ_r by done. ring. }
    assert (Hdm := Z.div_mod first 64 ltac:(lia)). rewrite <- Ht in Hdm. replace (0 * 256 + first) with (first mod 64 + 64 * t) by lia. rewrite Hlin, Hlen, Hroom. ring. }
  rewrite Hfold. replace (S m) with (length (first :: l)) by (cbn [length]; lia). symmetry. apply be_bytes_fold; [lia|].
  intros x [->|Hx]%elem_of_cons; [done|by apply Hbl].
Qed.

Lemma patch_length_ok out tail v :
  0 <= v <= 16383 ->
  patch_length (out ++ be_bytes 2 (0 + 1 * room 2) ++ tail) (length out) v = Some (out ++ be_bytes 2 (v + 1 * room 2) ++ tail).
Proof.
  intros Hv. unfold patch_length. rewrite (proj2 (Z.ltb_ge _ _)) by lia. change (room 2) with 16384. change (be_bytes 2 (0 + 1 * 16384)) with [64; 0].
  rewrite length_insert, !length_app. cbn [length app]. rewrite !(proj2 (Nat.leb_gt _ _)) by lia. f_equal.
  rewrite insert_app_r_alt, Nat.sub_diag by lia. rewrite insert_app_r_alt by lia. replace (S (length out) - length out)%nat with 1%nat by lia. cbn. f_equal.
  rewrite !land_255, !Z.shiftr_div_pow2 by lia. change (2 ^ 8) with 256. assert (Hd : 0 <= v / 256 < 64) by (split; [apply Z.div_pos; lia|apply Z.div_lt_upper_bound; lia]).
  rewrite (Z.mod_small (v / 256)) by lia. rewrite Z.lor_comm. change 64 with (Z.shiftl 1 6). rewrite lor_shift by lia. change (1 * 2 ^ 6) with 64. f_equal; [|f_equal].
  - replace (v + 1 * 16384) with (v + 64 * 256) by lia. rewrite Z.div_add by lia. rewrite Z.mod_small by lia. done.
  - replace (v + 1 * 16384) with (v + 64 * 256) by lia. by rewrite Z.mod_add by lia.
Qed.

(** ** Lemmas on the cursor *)

Record reader_ok (r : Reader) : Prop := mk_reader_ok {
  rd_pos : 0 <= pos r <= len (buf r);
  rd_len : len (buf r) <= U64_MAX;
  rd_bytes : forall b, b ∈ buf r -> byte b;
}.

(** What has not been read. *)
Definition left_ (r : Reader) : list Z := drop (Z.to_nat (pos r)) (buf r).

Definition advance (n : Z) (r : Reader) : Reader := mk_reader (buf r) (pos r + n).

Lemma left_len r : reader_ok r -> len (left_ r) = len (buf r) - pos r.
Proof. intros Hr. apply len_drop, Hr. Qed.

Lemma rest_ok r : reader_ok r -> rest r = Some (left_ r).
Proof. intros [H _ _]. unfold rest. by rewrite slice_end. Qed.

Lemma rd_advance_ok n r : reader_ok r -> 0 <= n <= len (left_ r) -> reader_ok (advance n r) /\ left_ (advance n r) = drop (Z.to_nat n) (left_ r).
Proof.
  intros Hr Hn. rewrite left_len in Hn by done. destruct Hr as [H1 H2 H3]. split; [split; cbn; [lia|done|done]|]. unfold left_. cbn. rewrite drop_drop. f_equal. lia.
Qed.

Lemma forward_ok n r : reader_ok r -> 0 <= n <= len (left_ r) -> forward n r = (Ok tt, advance n r).
Proof. intros Hr Hn. rewrite left_len in Hn by done. destruct Hr. unfold forward, xmod, advance. by rewrite u64_small by lia. Qed.

Lemma read_bytes_ok n r : reader_ok r -> 0 <= n ->
  read_bytes n r = if decide (n <= len (left_ r)) then (Ok (take (Z.to_nat n) (left_ r)), advance n r) else (Err Truncated, r).
Proof.
  intros Hr Hn. assert (Hl := left_len r Hr). assert (H1 := rd_pos _ Hr). assert (H2 := rd_len _ Hr).
  unfold read_bytes, mbind, stx_bind, xget. rewrite u64_small by lia. destruct (Z.ltb_spec (len (buf r) - pos r) n) as [Hlt|Hge].
  - by rewrite decide_False by lia.
  - rewrite decide_True by lia. rewrite u64_small by lia. unfold slice. rewrite !(proj2 (Z.leb_le _ _)) by lia. cbn [andb xsome].
    rewrite forward_ok by (done || lia). unfold mret, stx_ret, left_. do 3 f_equal. lia.
Qed.

Lemma left_bytes r b : reader_ok r -> b ∈ left_ r -> byte b.
Proof. intros Hr Hb. apply (rd_bytes _ Hr). rewrite <- (take_drop (Z.to_nat (pos r)) (buf r)). apply elem_of_app. by right. Qed.

Lemma read_get_ok r : reader_ok r ->
  read_get r = match get_varint (left_ r) with Some (v, n) => (Ok (v, n), advance n r) | None => (Err Truncated, r) end.
Proof.
  intros Hr. unfold read_get, mbind, stx_bind, xget. rewrite rest_ok by done. cbn [xsome]. assert (Hg := get_varint_ok (left_ r) (fun b => left_bytes r b Hr)).
  destruct (get_varint (left_ r)) as [[v n]|]; [|done]. destruct Hg as (t & Ht & _ & Hn & _). cbn [xsome snd]. rewrite forward_ok; [done|done|].
  destruct Ht as [[_ ->]|[[_ ->]|[[_ ->]|[_ ->]]]]; lia.
Qed.

Lemma read_length_prefixed_ok r : reader_ok r ->
  read_length_prefixed r = match get_varint (left_ r) with
    | Some (v, n) => if decide (n + v <= len (left_ r)) then (Ok (take (Z.to_nat v) (drop (Z.to_nat n) (left_ r))), advance (n + v) r) else (Err Truncated, r)
    | None => (Err Truncated, r)
    end.
Proof.
  intros Hr. unfold read_length_prefixed, read_varint, mbind, stx_bind, xget. rewrite read_get_ok by done.
  assert (Hg := get_varint_ok (left_ r) (fun b => left_bytes r b Hr)). destruct (get_varint (left_ r)) as [[v n]|]; [|done].
  destruct Hg as (t & Ht & Hv & Hn & _). cbn [mret stx_ret fst].
  assert (Hn0 : 0 <= n) by (destruct Ht as [[_ ->]|[[_ ->]|[[_ ->]|[_ ->]]]]; lia). destruct (rd_advance_ok n r Hr ltac:(lia)) as [Ha Hla].
  assert (Hll := left_len _ Ha). rewrite Hla, len_drop in Hll by lia. unfold mret, stx_ret. cbn [fst]. rewrite u64_small by (destruct Ha; cbn in *; lia). rewrite <- Hll.
  destruct (Z.ltb_spec (len (left_ r) - n) v) as [Hlt|Hge].
  - rewrite decide_False by lia. unfold xmod, xfail. by destruct r.
  - rewrite decide_True by lia. rewrite read_bytes_ok by (done || lia). rewrite Hla, len_drop by lia. rewrite decide_True by lia. unfold advance. cbn. do 2 f_equal. lia.
Qed.

(** ** Lemmas on packet numbers *)

Lemma not64_land e k : 0 <= e <= U64_MAX -> 0 <= k -> Z.land e (not64 (2 ^ k - 1)) = e / 2 ^ k * 2 ^ k.
Proof.
  intros He Hk. unfold not64. rewrite Z.land_assoc, (Z.land_comm _ U64_MAX), Z.land_assoc, (Z.land_comm U64_MAX e).
  assert (Hu : Z.land e U64_MAX = e) by (change U64_MAX with (2 ^ 64 - 1); rewrite land_low by lia; apply Z.mod_small; unfold U64_MAX in He; lia).
  rewrite Hu, <- Z.ldiff_land. replace (2 ^ k - 1) with (Z.ones k) by (rewrite Z.ones_equiv; lia). rewrite Z.ldiff_ones_r by done.
  by rewrite Z.shiftl_mul_pow2, Z.shiftr_div_pow2.
Qed.

(** The number nearest to the one expected. *)
Lemma decode_near largest pn n :
  1 <= n <= 4 -> 0 <= pn < 2 ^ 62 -> (forall l, largest = Some l -> 0 <= l < 2 ^ 62) ->
  let expected := match largest with Some l => l + 1 | None => 0 end in
  expected - 2 ^ (8 * n) / 2 < pn <= expected + 2 ^ (8 * n) / 2 ->
  decode_packet_number largest (pn mod 2 ^ (8 * n)) n = Some pn.
Proof.
  intros Hn Hpn Hl expected Hnear. unfold decode_packet_number, MAX_PACKET_NUMBER_LEN. rewrite !(proj2 (Z.leb_le _ _)) by lia. cbn [andb negb].
  assert (He : match largest with Some l => sat_add U64_MAX l 1 | None => 0 end = expected).
  { unfold expected, sat_add. destruct largest as [l|]; [|done]. specialize (Hl l eq_refl). unfold U64_MAX. lia. }
  assert (He0 : 0 <= expected <= 2 ^ 62) by (unfold expected; destruct largest as [l|]; [specialize (Hl l eq_refl)|]; lia).
  rewrite He. clear He Hl. clearbody expected. rewrite !Z.shiftl_mul_pow2, !Z.mul_1_l by lia. f_equal.
  assert (Hw : exists win, 2 ^ (8 * n) = 2 * win /\ 0 < win <= 2147483648).
  { assert (n = 1 \/ n = 2 \/ n = 3 \/ n = 4) as [-> | [-> | [-> | -> ]]] by lia; [exists 128|exists 32768|exists 8388608|exists 2147483648]; (split; [reflexivity|lia]). }
  destruct Hw as (half & Hw & Hhalf). assert (Hcand : Z.lor (Z.land expected (not64 (2 ^ (8 * n) - 1))) (Z.land (pn mod 2 ^ (8 * n)) (2 ^ (8 * n) - 1))
     = expected / (2 * half) * (2 * half) + pn mod (2 * half)).
  { rewrite not64_land, land_low by (unfold U64_MAX; lia). rewrite Z.mod_mod by lia. rewrite Z.lor_comm, <- Z.shiftl_mul_pow2 by lia.
    rewrite lor_shift; [rewrite Hw; lia|lia|apply Z.mod_pos_bound; lia]. }
  rewrite Hcand. clear Hcand. rewrite Hw in *. replace (2 * half / 2) with half in * by (rewrite Z.mul_comm, Z.div_mul; lia).
  assert (H1 := Z.div_mod expected (2 * half) ltac:(lia)). assert (H2 := Z.mod_pos_bound expected (2 * half) ltac:(lia)).
  assert (H3 := Z.div_mod pn (2 * half) ltac:(lia)). assert (H4 := Z.mod_pos_bound pn (2 * half) ltac:(lia)).
  set (c := expected / (2 * half) * (2 * half) + pn mod (2 * half)). assert (Hc : 0 <= c) by (unfold c; assert (0 <= expected / (2 * half)) by (apply Z.div_pos; lia); lia).
  assert (Hk : exists k, pn = c + k * (2 * half)) by (exists (pn / (2 * half) - expected / (2 * half)); unfold c; lia).
  destruct Hk as (k & Hk). assert (Hce : expected - 2 * half < c < expected + 2 * half) by (unfold c; lia).
  assert (Hk1 : k = -1 \/ k = 0 \/ k = 1) by nia. clearbody c. clear H1 H2 H3 H4. unfold sat_add.
  assert (2 ^ 62 = 4611686018427387904) as H62 by done. rewrite H62 in *. unfold U64_MAX.
  rewrite !Z.min_r by lia.
  destruct (Z.leb_spec (c + half) expected), (Z.ltb_spec c (4611686018427387904 - 2 * half)), (Z.ltb_spec (expected + half) c), (Z.leb_spec (2 * half) c); cbn [andb];
    rewrite ?u64_small by (unfold U64_MAX; lia); destruct Hk1 as [-> | [-> | -> ]]; lia.
Qed.

Lemma packet_number_len_ok pn acked :
  0 <= pn < 2 ^ 62 -> (forall a, acked = Some a -> 0 <= a) ->
  let unacked := match acked with Some a => sat_sub pn a | None => pn + 1 end in
  match packet_number_len pn acked with
  | Some n => 1 <= n <= 4 /\ 2 * unacked < 2 ^ (8 * n) /\ forall n', 1 <= n' -> 2 * unacked < 2 ^ (8 * n') -> n <= n'
  | None => 2 ^ 32 <= 2 * unacked
  end.
Proof.
  intros Hpn Ha unacked. unfold packet_number_len. assert (H62 : 2 ^ 62 = 4611686018427387904) by done. rewrite H62 in Hpn.
  assert (Hr : sat_mul U64_MAX (match acked with Some a => sat_sub pn a | None => sat_add U64_MAX pn 1 end) 2 = 2 * unacked).
  { unfold unacked, sat_mul, sat_add, sat_sub, U64_MAX. destruct acked as [a|]; [specialize (Ha a eq_refl)|]; lia. }
  rewrite Hr. assert (Hu : 0 <= unacked) by (unfold unacked, sat_sub; destruct acked; lia). clearbody unacked. clear Hr Ha.
  change (seqZ 1 MAX_PACKET_NUMBER_LEN) with [1; 2; 3; 4]. cbn [List.find]. change (Z.shiftl 1 (8 * 1)) with 256. change (Z.shiftl 1 (8 * 2)) with 65536.
  change (Z.shiftl 1 (8 * 3)) with 16777216. change (Z.shiftl 1 (8 * 4)) with 4294967296.
  assert (Hmin : forall n, 1 <= n <= 4 -> (n = 1 \/ 2 ^ (8 * (n - 1)) <= 2 * unacked) -> forall n', 1 <= n' -> 2 * unacked < 2 ^ (8 * n') -> n <= n').
  { intros n Hn Hlow n' Hn' Hlt. destruct Hlow as [->|Hlow]; [lia|]. destruct (Z.le_gt_cases n n'); [done|]. exfalso.
    assert (2 ^ (8 * n') <= 2 ^ (8 * (n - 1))) by (apply Z.pow_le_mono_r; lia). lia. }
  destruct (Z.ltb_spec (2 * unacked) 256); [split; [lia|split; [done|apply Hmin; [lia|by left]]]|].
  destruct (Z.ltb_spec (2 * unacked) 65536); [split; [lia|split; [done|apply Hmin; [lia|right; done]]]|].
  destruct (Z.ltb_spec (2 * unacked) 16777216); [split; [lia|split; [done|apply Hmin; [lia|right; done]]]|].
  destruct (Z.ltb_spec (2 * unacked) 4294967296); [split; [lia|split; [done|apply Hmin; [lia|right; done]]]|]. done.
Qed.

(** ** The properties *)

(** Variable-length integers go both ways.  A value up to [MAX_VARINT] is
    written in the fewest of 1, 2, 4 and 8 bytes that hold it, or in any of
    these that does, and is read back with its length whatever follows;
    a larger one panics.  Bytes that are read are those that their value is
    written in at that length.  A length written as zero with two bytes and
    filled in later is the bytes of the length. *)
Theorem varint_roundtrip v out tail :
  0 <= v ->
  match varint_len v with
  | Some n => exists b, put_varint out v = Some (out ++ b) /\ len b = n /\ get_varint (b ++ tail) = Some (v, n) /\
      forall t n', size_of_tag t n' -> v < room n' -> n <= n' /\
        exists b', put_varint_len out v n' = Some (out ++ b') /\ len b' = n' /\ get_varint (b' ++ tail) = Some (v, n')
  | None => MAX_VARINT < v /\ put_varint out v = None
  end /\
  (forall buf n w, (forall x, x ∈ buf -> byte x) -> get_varint buf = Some (w, n) ->
     0 <= w <= MAX_VARINT /\ put_varint_len [] w n = Some (take (Z.to_nat n) buf)) /\
  (v <= 16383 -> exists b0 b1, put_varint_len out 0 2 = Some (out ++ b0) /\ put_varint_len out v 2 = Some (out ++ b1) /\
     patch_length (out ++ b0 ++ tail) (length out) v = Some (out ++ b1 ++ tail)).
Proof.
  intros Hv. assert (Hlen : forall t n w, size_of_tag t n -> len (be_bytes (Z.to_nat n) w) = n).
  { intros t n w Ht. unfold len. rewrite be_bytes_length. destruct Ht as [[_ ->]|[[_ ->]|[[_ ->]|[_ ->]]]]; done. }
  split; [|split].
  - assert (Hl := varint_len_ok v Hv). unfold put_varint. destruct (varint_len v) as [n|]; [|done]. destruct Hl as ((t & Ht) & Hr & _ & Hleast). cbn [mbind option_bind].
    eexists. split; [by apply (put_varint_len_ok out v t n)|]. split; [by eapply Hlen|]. split; [by apply get_be|].
    intros t' n' Ht' Hr'. split; [by eapply Hleast|]. eexists. split; [by apply (put_varint_len_ok out v t' n')|]. split; [by eapply Hlen|by apply get_be].
  - intros buf n w Hb Hg. assert (H := get_varint_ok buf Hb). rewrite Hg in H. destruct H as (t & Ht & Hr & _ & ->). split.
    + assert (room n <= room 8) by (destruct Ht as [[_ ->]|[[_ ->]|[[_ ->]|[_ ->]]]]; by vm_compute). change (room 8) with (MAX_VARINT + 1) in *. lia.
    + by apply (put_varint_len_ok [] w t n).
  - intros H. exists (be_bytes 2 (0 + 1 * room 2)), (be_bytes 2 (v + 1 * room 2)). assert (Hs : size_of_tag 1 2) by (unfold size_of_tag; lia).
    split; [by apply (put_varint_len_ok out 0 1 2)|]. split; [apply (put_varint_len_ok out v 1 2); [done|change (room 2) with 16384; lia]|]. by apply patch_length_ok.
Qed.

Lemma varint_roundtrip_witness :
  put_varint [] 494878333 = Some [157; 127; 62; 125] /\ get_varint ([157; 127; 62; 125] ++ [9]) = Some (494878333, 4).
Proof.
  destruct (varint_roundtrip 494878333 [] [9] ltac:(lia)) as [H _]. assert (Hl : varint_len 494878333 = Some 4) by done. rewrite Hl in H.
  destruct H as (b & Hp & _ & Hg & _). assert (He : put_varint [] 494878333 = Some [157; 127; 62; 125]) by done. rewrite He in Hp. injection Hp as <-. done.
Defined.

(** Every read of the cursor, on any input: it never panics; it gives the
    bytes, the byte, the number or the prefixed bytes at the front of what is
    left and moves past them, or it says [Truncated] exactly when they do not
    fit in what is left, and then it has read nothing. *)
Theorem reader_reads r n :
  reader_ok r -> 0 <= n ->
  let l := left_ r in
  (rest r = Some l /\ (at_end r = true <-> l = [])) /\
  read_u8 r = match l with b :: _ => (Ok b, advance 1 r) | [] => (Err Truncated, r) end /\
  read_bytes n r = (if decide (n <= len l) then (Ok (take (Z.to_nat n) l), advance n r) else (Err Truncated, r)) /\
  read_u32 r = (if decide (4 <= len l) then (Ok (from_be (take 4 l)), advance 4 r) else (Err Truncated, r)) /\
  read_varint r = match get_varint l with Some (v, k) => (Ok v, advance k r) | None => (Err Truncated, r) end /\
  read_varint_minimal r = match get_varint l with
    | Some (v, k) => (Ok (v, bool_decide (varint_len v = Some k)), advance k r) | None => (Err Truncated, r) end /\
  read_length_prefixed r = match get_varint l with
    | Some (v, k) => if decide (k + v <= len l) then (Ok (take (Z.to_nat v) (drop (Z.to_nat k) l)), advance (k + v) r) else (Err Truncated, r)
    | None => (Err Truncated, r)
    end /\
  (forall k, 0 <= k <= len l -> reader_ok (advance k r) /\ left_ (advance k r) = drop (Z.to_nat k) l).
Proof.
  intros Hr Hn l. assert (Hl := left_len r Hr). fold l in Hl. assert (H1 := rd_pos _ Hr). assert (H2 := rd_len _ Hr).
  split; [split; [by apply rest_ok|unfold at_end; rewrite Z.leb_le, <- len_nil; lia]|].
  split; [|split; [by apply read_bytes_ok|split; [|split; [|split; [|split; [by apply read_length_prefixed_ok|intros k Hk; by apply rd_advance_ok]]]]]].
  - unfold read_u8, mbind, stx_bind, xget. assert (Hh : buf r !! Z.to_nat (pos r) = head l) by (unfold l, left_; rewrite <- (Nat.add_0_r (Z.to_nat (pos r))) at 1; rewrite <- lookup_drop; by destruct (drop _ _)).
    rewrite Hh. destruct l as [|b l'] eqn:El; [done|]. cbn [head xsome]. assert (Hp : 1 <= len (left_ r)) by (fold l; rewrite El; unfold len; cbn [length]; lia).
    rewrite forward_ok by (done || lia). done.
  - unfold read_u32, mbind, stx_bind. rewrite read_bytes_ok by (done || lia). fold l. case_decide; [|done].
    rewrite slice_eq by (unfold len in *; rewrite ?length_take; lia). change (Z.to_nat (4 - 0)) with 4%nat. change (Z.to_nat 0) with 0%nat. change (Z.to_nat 4) with 4%nat. rewrite drop_0, take_take. done.
  - unfold read_varint, mbind, stx_bind. rewrite read_get_ok by done. fold l. destruct (get_varint l) as [[v k]|]; done.
  - unfold read_varint_minimal, mbind, stx_bind. rewrite read_get_ok by done. assert (Hg := get_varint_ok l (fun b => left_bytes r b Hr)). fold l.
    destruct (get_varint l) as [[v k]|]; [|done]. destruct Hg as (t & Ht & Hv & _). cbn [fst snd].
    assert (Hr8 : room k <= room 8) by (destruct Ht as [[_ ->]|[[_ ->]|[[_ ->]|[_ ->]]]]; by vm_compute). change (room 8) with (MAX_VARINT + 1) in Hr8.
    assert (Hvl := varint_len_ok v ltac:(lia)). destruct (varint_len v) as [need|]; [|lia]. cbn [xsome]. unfold mret, stx_ret. do 3 f_equal.
    destruct (Z.eqb_spec need k) as [->|Hne]; [by rewrite bool_decide_eq_true_2|]. rewrite bool_decide_eq_false_2; [done|]. congruence.
Qed.

Lemma reader_reads_witness :
  let r := new_reader [2; 7; 8; 64; 5] in
  read_length_prefixed r = (Ok [7; 8], mk_reader [2; 7; 8; 64; 5] 3) /\
  read_varint_minimal (mk_reader [2; 7; 8; 64; 5] 3) = (Ok (5, false), mk_reader [2; 7; 8; 64; 5] 5) /\
  read_bytes 6 r = (Err Truncated, r).
Proof.
  assert (Hr : reader_ok (new_reader [2; 7; 8; 64; 5])).
  { split; [unfold len; simpl; lia|unfold len, U64_MAX; simpl; lia|]. intros b Hb. unfold byte. cbn in Hb.
    repeat (apply elem_of_cons in Hb as [->|Hb]; [lia|]). by apply elem_of_nil in Hb. }
  split; [done|]. split; [done|]. destruct (reader_reads _ 6 Hr ltac:(lia)) as (_ & _ & H & _). rewrite H. done.
Defined.

(** Packet numbers.  The length chosen is the fewest bytes, up to four,
    that tell the number from any within the window of twice what is not
    acknowledged, or none when four are not enough.  A receiver that has
    received at least what was acknowledged, and is not ahead of the packet
    by as much as half the window of its length, recovers the number from its
    low bytes; and in general the number decoded is the one sent whenever it
    is within half a window of the one expected. *)
Theorem packet_numbers pn acked largest :
  0 <= pn < 2 ^ 62 -> (forall a, acked = Some a -> 0 <= a) -> (forall l, largest = Some l -> 0 <= l < 2 ^ 62) ->
  let unacked := match acked with Some a => sat_sub pn a | None => pn + 1 end in
  let expected := match largest with Some l => l + 1 | None => 0 end in
  match packet_number_len pn acked with
  | Some n => 1 <= n <= 4 /\ 2 * unacked < 2 ^ (8 * n) /\ (forall n', 1 <= n' -> 2 * unacked < 2 ^ (8 * n') -> n <= n') /\
      ((forall a, acked = Some a -> a + 1 <= expected) -> expected < pn + 2 ^ (8 * n) / 2 ->
       decode_packet_number largest (pn mod 2 ^ (8 * n)) n = Some pn)
  | None => 2 ^ 32 <= 2 * unacked
  end /\
  forall n, 1 <= n <= 4 -> expected - 2 ^ (8 * n) / 2 < pn <= expected + 2 ^ (8 * n) / 2 ->
    decode_packet_number largest (pn mod 2 ^ (8 * n)) n = Some pn.
Proof.
  intros Hpn Ha Hl unacked expected. split; [|intros n Hn Hnear; by apply decode_near]. assert (Hp := packet_number_len_ok pn acked Hpn Ha). cbn zeta in Hp. fold unacked in Hp.
  destruct (packet_number_len pn acked) as [n|]; [|done]. destruct Hp as (Hn & Hu & Hmin). do 3 (split; [done|]). intros Hge Hahead. apply decode_near; [done|done|done|].
  cbn zeta. fold expected. assert (Hw : 2 * unacked <= 2 * (2 ^ (8 * n) / 2)).
  { assert (Hp2 : 2 ^ (8 * n) = 2 ^ (8 * n - 1) * 2) by (replace (8 * n) with (Z.succ (8 * n - 1)) at 1 by lia; rewrite Z.pow_succ_r by lia; lia).
    rewrite Hp2, Z.div_mul by lia. lia. }
  assert (He0 : 0 <= expected) by (unfold expected; destruct largest as [l|]; [specialize (Hl l eq_refl)|]; lia).
  unfold unacked, sat_sub in Hw. destruct acked as [a|]; [specialize (Hge a eq_refl)|]; lia.
Qed.

Lemma packet_numbers_witness : packet_number_len 11267714 (Some 11237328) = Some 2 /\ decode_packet_number (Some 11267713) (11267714 mod 2 ^ 16) 2 = Some 11267714.
Proof.
  assert (Hl : packet_number_len 11267714 (Some 11237328) = Some 2) by done. split; [done|].
  destruct (packet_numbers 11267714 (Some 11237328) (Some 11267713)) as [H _]; [vm_compute; done|intros a [= <-]; lia|intros l [= <-]; vm_compute; done|].
  rewrite Hl in H. destruct H as (_ & _ & _ & H). apply H; [intros a [= <-]; lia|vm_compute; done].
Defined.
