(* ===== verification/Congestion.v ===== *)
(** How much may be in flight: [NewReno] of [pratique/src/quic/congestion.rs].

    The window is cut at most once for what was sent before a cut, unless
    persistent congestion ends the recovery, and is never below two packets;
    past slow start it grows by one packet for each window of bytes
    acknowledged.  Times ([Instant]) are numbers; [usize] arithmetic
    wraps at 64 bits as in a release build. *)

From Stdlib Require Import ZArith Lia.
From stdpp Require Import base option numbers list_numbers list relations.
From S2P Require Import Prelude Slice.

#[local] Open Scope Z_scope.

(** ** The operations *)

Definition initial_window (mds : Z) : Z := Z.min (u64 (10 * mds)) (Z.max (u64 (2 * mds)) 14720).

Definition minimum_window (mds : Z) : Z := u64 (2 * mds).

Definition LIMITED_BY_PACKETS : Z := 3.
Definition LOSS_REDUCTION_NUM : Z := 1.
Definition LOSS_REDUCTION_DEN : Z := 2.

Record NewReno := mk_newreno {
  max_datagram_size : Z;
  window : Z;
  ssthresh : Z;
  in_flight : Z;
  recovery_start : option Z;
  acked_in_avoidance : Z;
}.

Definition new (mds : Z) : NewReno := mk_newreno mds (initial_window mds) U64_MAX 0 None 0.

Definition in_slow_start (c : NewReno) : bool := window c <? ssthresh c.

Definition available (c : NewReno) : Z := sat_sub (window c) (in_flight c).

Definition blocked (c : NewReno) : bool := window c <=? in_flight c.

Definition set_max_datagram_size (size : Z) (c : NewReno) : NewReno :=
  mk_newreno size (Z.max (window c) (minimum_window size)) (ssthresh c) (in_flight c) (recovery_start c) (acked_in_avoidance c).

Definition on_sent (n : Z) (c : NewReno) : NewReno :=
  mk_newreno (max_datagram_size c) (window c) (ssthresh c) (u64 (in_flight c + n)) (recovery_start c) (acked_in_avoidance c).

Definition is_limited (before : Z) (c : NewReno) : bool :=
  if window c <=? before then true
  else (in_slow_start c && (window c / 2 <? before)) || (window c - before <=? u64 (LIMITED_BY_PACKETS * max_datagram_size c)).

Definition in_recovery (sent : Z) (c : NewReno) : bool :=
  match recovery_start c with Some start => sent <=? start | None => false end.

(** [on_lost], [on_discarded], and what [on_acked] does first. *)
Definition on_lost (n : Z) (c : NewReno) : NewReno :=
  mk_newreno (max_datagram_size c) (window c) (ssthresh c) (sat_sub (in_flight c) n) (recovery_start c) (acked_in_avoidance c).

Definition on_discarded (n : Z) (c : NewReno) : NewReno :=
  mk_newreno (max_datagram_size c) (window c) (ssthresh c) (sat_sub (in_flight c) n) (recovery_start c) (acked_in_avoidance c).

Definition on_acked (n sent before : Z) (c : NewReno) : NewReno :=
  let c := mk_newreno (max_datagram_size c) (window c) (ssthresh c) (sat_sub (in_flight c) n) (recovery_start c) (acked_in_avoidance c) in
  if negb (is_limited before c) || in_recovery sent c then c
  else if in_slow_start c
  then mk_newreno (max_datagram_size c) (u64 (window c + n)) (ssthresh c) (in_flight c) (recovery_start c) (acked_in_avoidance c)
  else
    let a := u64 (acked_in_avoidance c + n) in
    if window c <=? a
    then mk_newreno (max_datagram_size c) (u64 (window c + max_datagram_size c)) (ssthresh c) (in_flight c) (recovery_start c) (a - window c)
    else mk_newreno (max_datagram_size c) (window c) (ssthresh c) (in_flight c) (recovery_start c) a.

Definition on_congestion_event (now sent : Z) (c : NewReno) : bool * NewReno :=
  if in_recovery sent c then (false, c)
  else
    let s := Z.max (window c / LOSS_REDUCTION_DEN * LOSS_REDUCTION_NUM) (minimum_window (max_datagram_size c)) in
    (true, mk_newreno (max_datagram_size c) s s (in_flight c) (Some now) 0).

Definition on_persistent_congestion (c : NewReno) : NewReno :=
  mk_newreno (max_datagram_size c) (minimum_window (max_datagram_size c)) (ssthresh c) (in_flight c) None 0.

(** ** A connection's events *)

Inductive event : Type :=
| Sent (n : Z)
| AckedAt (n sent before : Z)
| LostPacket (n : Z)
| Discarded (n : Z)
| Congestion (now sent : Z)
| Persistent
| Datagram (size : Z).

Definition apply (c : NewReno) (e : event) : NewReno :=
  match e with
  | Sent n => on_sent n c
  | AckedAt n sent before => on_acked n sent before c
  | LostPacket n => on_lost n c
  | Discarded n => on_discarded n c
  | Congestion now sent => snd (on_congestion_event now sent c)
  | Persistent => on_persistent_congestion c
  | Datagram size => set_max_datagram_size size c
  end.

(** The sizes and totals a connection has: no sum of bytes reaches
    [limit]. *)
Definition limit : Z := 2 ^ 62.

Definition fits (c : NewReno) (e : event) : Prop :=
  match e with
  | Sent n => 0 <= n /\ in_flight c + n <= limit
  | AckedAt n sent before => 0 <= n <= window c /\ window c + n + max_datagram_size c <= limit
  | LostPacket n | Discarded n => 0 <= n
  | Congestion now sent => sent <= now
  | Persistent => True
  | Datagram size => 1200 <= size <= 65535
  end.

Record ok (c : NewReno) : Prop := mk_ok {
  ok_mds : 1200 <= max_datagram_size c <= 65535;
  ok_window : 2 * max_datagram_size c <= window c <= limit;
  ok_flight : 0 <= in_flight c <= limit;
  ok_avoidance : 0 <= acked_in_avoidance c < window c;
}.

Definition run (c : NewReno) (es : list event) : NewReno := fold_left apply es c.

Fixpoint fits_all (c : NewReno) (es : list event) : Prop :=
  match es with [] => True | e :: es' => fits c e /\ fits_all (apply c e) es' end.

(** ** Lemmas *)

Lemma limit_u64 x : 0 <= x <= limit -> u64 x = x.
Proof. intros H. apply u64_small. unfold limit, U64_MAX in *. lia. Qed.

Lemma minimum_window_ok mds : 1200 <= mds <= 65535 -> minimum_window mds = 2 * mds.
Proof. intros H. apply limit_u64. unfold limit. lia. Qed.

Lemma nr_new_ok mds : 1200 <= mds <= 65535 -> ok (new mds) /\ window (new mds) = Z.min (10 * mds) (Z.max (2 * mds) 14720).
Proof.
  intros H. unfold new, initial_window. rewrite !limit_u64 by (unfold limit; lia). split; [|done]. split; cbn; unfold limit; lia.
Qed.

Lemma half_window c : ok c -> window c / 2 * 1 <= window c /\ 0 <= window c / 2.
Proof.
  intros [Hm Hw _ _]. assert (H := Z.div_mod (window c) 2 ltac:(lia)). assert (H' := Z.mod_pos_bound (window c) 2 ltac:(lia)).
  assert (0 <= window c / 2) by (apply Z.div_pos; lia). lia.
Qed.

(** What one acknowledgment does to the window. *)
Inductive grown (c : NewReno) (n : Z) (c' : NewReno) : Prop :=
| grown_not : window c' = window c -> acked_in_avoidance c' = acked_in_avoidance c -> grown c n c'
| grown_slow : in_slow_start c = true -> window c' = window c + n -> acked_in_avoidance c' = acked_in_avoidance c -> grown c n c'
| grown_some : in_slow_start c = false -> window c' = window c -> acked_in_avoidance c' = acked_in_avoidance c + n -> grown c n c'
| grown_packet : in_slow_start c = false -> window c' = window c + max_datagram_size c ->
    acked_in_avoidance c' = acked_in_avoidance c + n - window c -> window c <= acked_in_avoidance c + n -> grown c n c'.

Lemma nr_on_acked_ok c n sent before :
  ok c -> fits c (AckedAt n sent before) ->
  let c' := on_acked n sent before c in
  ok c' /\ grown c n c' /\ ssthresh c' = ssthresh c /\ max_datagram_size c' = max_datagram_size c /\ recovery_start c' = recovery_start c /\
  in_flight c' = Z.max 0 (in_flight c - n) /\
  (in_recovery sent c = true \/ is_limited before c = false -> window c' = window c).
Proof.
  intros [Hm Hw Hf Ha] [Hn Hlim]. unfold on_acked. cbn zeta. set (c0 := mk_newreno _ _ _ (sat_sub _ _) _ _).
  assert (Hl : is_limited before c0 = is_limited before c /\ in_recovery sent c0 = in_recovery sent c /\ in_slow_start c0 = in_slow_start c) by done.
  destruct Hl as (Hl & Hr & Hs). rewrite Hl, Hr, Hs. destruct (negb (is_limited before c) || in_recovery sent c) eqn:Hx.
  { split; [split; cbn; unfold sat_sub; lia|]. split; [by apply grown_not|]. done. }
  apply orb_false_iff in Hx as [Hx1 Hx2]. cleanb. assert (Hno : in_recovery sent c = true \/ is_limited before c = false -> False) by (intros [H|H]; congruence).
  destruct (in_slow_start c) eqn:Hss.
  - cbn. rewrite limit_u64 by lia. split; [split; cbn; unfold sat_sub; lia|]. split; [by apply grown_slow|]. do 4 (split; [done|]). intros H. destruct (Hno H).
  - cbn. rewrite limit_u64 by lia. destruct (Z.leb_spec (window c) (acked_in_avoidance c + n)).
    + rewrite limit_u64 by lia. split; [split; cbn; unfold sat_sub; lia|]. split; [by apply grown_packet|]. do 4 (split; [done|]). intros H'. destruct (Hno H').
    + split; [split; cbn; unfold sat_sub; lia|]. split; [by apply grown_some|]. done.
Qed.

Lemma apply_ok c e : ok c -> fits c e -> ok (apply c e).
Proof.
  intros Hc He. destruct e as [n|n sent before|n|n|now sent| |size]; cbn [apply].
  - destruct Hc, He. split; cbn; try done. rewrite limit_u64 by lia. lia.
  - by apply nr_on_acked_ok.
  - destruct Hc. cbn in He. split; cbn; unfold sat_sub; (done || lia).
  - destruct Hc. cbn in He. split; cbn; unfold sat_sub; (done || lia).
  - unfold on_congestion_event, LOSS_REDUCTION_DEN, LOSS_REDUCTION_NUM. destruct (in_recovery sent c); [done|]. assert (H := half_window c Hc). destruct Hc.
    rewrite minimum_window_ok by done. split; cbn [snd max_datagram_size window in_flight acked_in_avoidance]; (done || lia).
  - destruct Hc. unfold on_persistent_congestion. rewrite minimum_window_ok by done. split; cbn; (done || lia).
  - destruct Hc. cbn in He. unfold set_max_datagram_size. rewrite minimum_window_ok by done. split; cbn; unfold limit in *; (done || lia).
Qed.

Lemma nr_run_ok c es : ok c -> fits_all c es -> ok (run c es).
Proof.
  revert c. induction es as [|e es IH]; intros c Hc Hf; [done|]. destruct Hf as [He Hf]. unfold run in *. cbn [fold_left]. apply IH; [by apply apply_ok|done].
Qed.

(** *** Recovery *)

(** Persistent congestion, which alone ends a recovery. *)
Definition persistent (e : event) : bool := match e with Persistent => true | _ => false end.

(** Without it a recovery that began goes on, or a later one follows. *)
Lemma recovery_step c t e : fits c e -> persistent e = false -> (exists t', recovery_start c = Some t' /\ t <= t') ->
  exists t', recovery_start (apply c e) = Some t' /\ t <= t'.
Proof.
  intros He Hp (t' & Ht & Hle). destruct e as [n|n sent before|n|n|now sent| |size]; cbn [apply]; try done; try (exists t'; by cbn).
  - exists t'. split; [|done]. unfold on_acked. cbn zeta. repeat case_match; done.
  - unfold on_congestion_event, in_recovery. rewrite Ht. cbn in He. destruct (Z.leb_spec sent t'); cbn [snd]; [by exists t'|]. exists now. split; [done|lia].
Qed.

Lemma recovery_run t es : forall c, fits_all c es -> Forall (fun e => persistent e = false) es -> (exists t', recovery_start c = Some t' /\ t <= t') ->
  exists t', recovery_start (run c es) = Some t' /\ t <= t'.
Proof.
  unfold run. induction es as [|e es IH]; intros c Hf Hp Ht; [done|]. destruct Hf as [He Hf]. apply Forall_cons in Hp as [Hpe Hp]. cbn [fold_left].
  apply IH; [done|done|by apply recovery_step].
Qed.

Lemma covered c t sent : (exists t', recovery_start c = Some t' /\ t <= t') -> sent <= t -> in_recovery sent c = true.
Proof. intros (t' & Ht & Hle) Hs. unfold in_recovery. rewrite Ht. apply Z.leb_le. lia. Qed.

(** The events of a recovery period that began at [t]: what they tell of was
    sent by then. *)
Definition in_period (t : Z) (e : event) : Prop :=
  match e with AckedAt _ sent _ | Congestion _ sent => sent <= t | Persistent => False | _ => True end.

(** A greater datagram lifts the window to two of its packets. *)
Definition lifted (w : Z) (e : event) : Z := match e with Datagram size => Z.max w (2 * size) | _ => w end.

Lemma period_step c t e : ok c -> fits c e -> recovery_start c = Some t -> in_period t e ->
  window (apply c e) = lifted (window c) e /\ ssthresh (apply c e) = ssthresh c /\ recovery_start (apply c e) = Some t.
Proof.
  intros Hc He Ht Hp. assert (Hr : forall sent, sent <= t -> in_recovery sent c = true) by (intros sent Hs; unfold in_recovery; rewrite Ht; by apply Z.leb_le).
  destruct e as [n|n sent before|n|n|now sent| |size]; cbn [apply in_period lifted] in *; try done.
  - destruct (nr_on_acked_ok c n sent before Hc He) as (_ & _ & Hs & _ & Hrs & _ & Hw). rewrite Hw by (left; by apply Hr). by rewrite Hs, Hrs.
  - unfold on_congestion_event. by rewrite Hr.
  - unfold set_max_datagram_size. cbn. by rewrite minimum_window_ok.
Qed.

Lemma period_run c t es : ok c -> fits_all c es -> recovery_start c = Some t -> Forall (in_period t) es ->
  window (run c es) = fold_left lifted es (window c) /\ ssthresh (run c es) = ssthresh c.
Proof.
  revert c. induction es as [|e es IH]; intros c Hc Hf Ht Hp; [done|]. destruct Hf as [He Hf]. apply Forall_cons in Hp as [Hpe Hp].
  destruct (period_step c t e Hc He Ht Hpe) as (H1 & H2 & H3). unfold run in *. cbn [fold_left]. destruct (IH _ (apply_ok _ _ Hc He) Hf H3 Hp) as [H4 H5]. by rewrite H4, H5, H1.
Qed.

(** *** Growth *)

(** The bytes that a run's acknowledgments tell of. *)
Definition acked_bytes (es : list event) : Z := foldr (fun e s => match e with AckedAt n _ _ => n + s | _ => s end) 0 es.

(** Losses and cuts, without persistent congestion and at one datagram size;
    and without cuts. *)
Definition steady (e : event) : bool := match e with Persistent | Datagram _ => false | _ => true end.
Definition uncut (e : event) : bool := match e with Persistent | Datagram _ | Congestion _ _ => false | _ => true end.

Definition acked_of (e : event) : Z := match e with AckedAt n _ _ => n | _ => 0 end.

(** What an event adds to the window and to what has not yet added up. *)
Lemma steady_step c e w : ok c -> fits c e -> steady e = true -> in_slow_start c = false -> 0 <= w <= window c ->
  in_slow_start (apply c e) = false /\ max_datagram_size (apply c e) = max_datagram_size c /\ (uncut e = true -> window c <= window (apply c e)) /\
  (window (apply c e) - window c) * w + max_datagram_size c * acked_in_avoidance (apply c e) <= max_datagram_size c * (acked_in_avoidance c + acked_of e).
Proof.
  intros Hc He Hst Hss Hw. assert (Hm := ok_mds _ Hc). assert (Ha := ok_avoidance _ Hc). assert (Hwin := ok_window _ Hc).
  destruct e as [n|n sent before|n|n|now sent| |size]; cbn [apply acked_of uncut] in *; try done; try (cbn; split; [done|]; split; [done|]; split; lia).
  - destruct (nr_on_acked_ok c n sent before Hc He) as (_ & Hg & Hs & Hmd & _). cbn zeta in *. set (c1 := on_acked n sent before c) in *.
    assert (Hn : 0 <= n) by apply He. assert (Hw1 : window c <= window c1) by (destruct Hg as [H _|H0 H _|_ H _|_ H _ _]; lia).
    split; [unfold in_slow_start in *; rewrite Hs; cleanb; apply Z.ltb_ge; lia|]. split; [done|]. split; [done|].
    destruct Hg as [Hg1 Hg2|Hg0 Hg1 Hg2|Hg0 Hg1 Hg2|Hg0 Hg1 Hg2 Hg3]; [rewrite Hg1, Hg2; nia|congruence|nia|nia].
  - unfold on_congestion_event, LOSS_REDUCTION_DEN, LOSS_REDUCTION_NUM. destruct (in_recovery sent c); cbn [snd]; [split; [done|]; split; [done|]; split; lia|].
    assert (Hh := half_window c Hc). rewrite minimum_window_ok by done. cbn [window max_datagram_size acked_in_avoidance]. split; [unfold in_slow_start; cbn; apply Z.ltb_irrefl|]. split; [done|].
    split; [done|]. nia.
Qed.

(** Past slow start, the window grows by a packet for as many bytes as it has
    at least. *)
Lemma steady_growth es : forall c w, ok c -> in_slow_start c = false -> fits_all c es -> Forall (fun e => steady e = true) es ->
  0 <= w -> (forall k, w <= window (run c (take k es))) ->
  (window (run c es) - window c) * w + max_datagram_size c * acked_in_avoidance (run c es) <= max_datagram_size c * (acked_in_avoidance c + acked_bytes es).
Proof.
  unfold run. induction es as [|e es IH]; intros c w Hc Hss Hf Hst Hw Hall; [cbn; lia|]. destruct Hf as [He Hf]. apply Forall_cons in Hst as [Hs Hst]. cbn [fold_left].
  destruct (steady_step c e w Hc He Hs Hss) as (H1 & H2 & _ & H3); [split; [done|]; exact (Hall 0%nat)|].
  assert (H4 := IH (apply c e) w (apply_ok _ _ Hc He) H1 Hf Hst Hw (fun k => Hall (S k))). rewrite H2 in H4.
  assert (E : acked_bytes (e :: es) = acked_of e + acked_bytes es) by (by destruct e). rewrite E. nia.
Qed.

Lemma uncut_steady e : uncut e = true -> steady e = true.
Proof. by destruct e. Qed.

Lemma uncut_grows es : forall c, ok c -> in_slow_start c = false -> fits_all c es -> Forall (fun e => uncut e = true) es -> window c <= window (run c es).
Proof.
  unfold run. induction es as [|e es IH]; intros c Hc Hss Hf Hst; [done|]. destruct Hf as [He Hf]. apply Forall_cons in Hst as [Hs Hst]. cbn [fold_left].
  assert (Hwin := ok_window _ Hc). assert (Hm := ok_mds _ Hc). destruct (steady_step c e 0 Hc He (uncut_steady _ Hs) Hss) as (H1 & _ & H2 & _); [lia|]. specialize (H2 Hs). assert (H := IH _ (apply_ok _ _ Hc He) H1 Hf Hst). lia.
Qed.

Lemma fits_take k es : forall c, fits_all c es -> fits_all c (take k es).
Proof. revert k. induction es as [|e es IH]; intros [|k] c; cbn; try done. intros [H1 H2]. auto. Qed.

(** ** The property *)

(** C25: the controller keeps its promises over every run of events.  The
    window starts at the size of RFC 9002 and is never below two packets.  A
    congestion event cuts it, to half or to two packets, just when its packets
    were sent after the last cut's recovery began; any other changes nothing.
    From a cut on, over any run without persistent congestion (later losses
    and cuts, acknowledgments, changes of the datagram size), nothing that was
    sent before that cut cuts the window again or grows it; and while all that
    the events tell of was sent before it, the window stays as the cut made it
    (but for a greater datagram, which lifts it to two packets).  Persistent
    congestion takes the window to two packets and ends the recovery: the next
    congestion event is one whenever its packets were sent.  Past slow start,
    over any run at one datagram size without persistent congestion, the
    window grows by no more than a packet for as many bytes acknowledged as it
    had at its least; without a cut that is a packet for each window of
    bytes. *)
Theorem newreno_window mds es :
  1200 <= mds <= 65535 -> fits_all (new mds) es ->
  let c := run (new mds) es in
  window (new mds) = Z.min (10 * mds) (Z.max (2 * mds) 14720) /\
  2 * max_datagram_size c <= window c /\
  (forall now sent, sent <= now -> let '(cut, c') := on_congestion_event now sent c in
     (cut = true <-> in_recovery sent c = false) /\ (cut = false -> c' = c) /\
     (cut = true -> window c' = Z.max (window c / 2) (2 * max_datagram_size c) /\ window c' <= window c /\ in_slow_start c' = false /\
        forall es', fits_all c' es' ->
          (Forall (fun e => persistent e = false) es' -> let c2 := run c' es' in
             forall sent', sent' <= now -> (forall now', on_congestion_event now' sent' c2 = (false, c2)) /\ forall n before, window (on_acked n sent' before c2) = window c2) /\
          (Forall (in_period now) es' -> window (run c' es') = fold_left lifted es' (window c')))) /\
  (let c' := on_persistent_congestion c in window c' = 2 * max_datagram_size c /\ ssthresh c' = ssthresh c /\ in_flight c' = in_flight c /\
     forall now sent, fst (on_congestion_event now sent c') = true) /\
  (forall es', in_slow_start c = false -> fits_all c es' ->
     (forall w, Forall (fun e => steady e = true) es' -> 0 <= w -> (forall k, w <= window (run c (take k es'))) ->
        (window (run c es') - window c) * w <= max_datagram_size c * (acked_in_avoidance c + acked_bytes es')) /\
     (Forall (fun e => uncut e = true) es' -> window c <= window (run c es') /\
        (window (run c es') - window c) * window c <= max_datagram_size c * (acked_in_avoidance c + acked_bytes es'))).
Proof.
  intros Hm Hf c. destruct (nr_new_ok mds Hm) as [Hn Hw]. assert (Hc : ok c) by (by apply nr_run_ok). clearbody c. assert (Hmd := ok_mds _ Hc). split; [done|]. split; [apply Hc|]. split; [|split].
  - intros now sent Hsent. assert (Hh := half_window c Hc). set (s := Z.max (window c / 2) (2 * max_datagram_size c)).
    assert (E : on_congestion_event now sent c = if in_recovery sent c then (false, c) else (true, mk_newreno (max_datagram_size c) s s (in_flight c) (Some now) 0)).
    { unfold on_congestion_event, LOSS_REDUCTION_DEN, LOSS_REDUCTION_NUM. by rewrite minimum_window_ok, Z.mul_1_r. }
    rewrite E. clear E. destruct (in_recovery sent c) eqn:Hr; [done|]. split; [done|]. split; [done|]. intros _. cbn [window]. split; [done|]. split; [destruct Hc; lia|].
    split; [unfold in_slow_start; cbn; apply Z.ltb_irrefl|]. intros es' Hf'. split; [|intros Hp; eapply (fun H => proj1 (period_run _ now es' H Hf' eq_refl Hp)); destruct Hc; split; cbn; (done || lia)].
    intros Hp sent' Hs'. set (c2 := run _ es'). assert (Hin : in_recovery sent' c2 = true) by (apply (covered _ now); [apply (recovery_run now es' _ Hf' Hp); by exists now|done]).
    split; [intros now'; unfold on_congestion_event; by rewrite Hin|]. intros n before. unfold on_acked. cbn zeta. unfold in_recovery in *. cbn [recovery_start]. by rewrite Hin, orb_true_r.
  - unfold on_persistent_congestion. cbn. by rewrite minimum_window_ok.
  - intros es' Hss Hfa. assert (Hlow := fun w Hst => steady_growth es' c w Hc Hss Hfa Hst). split.
    + intros w Hst H0 Hall. specialize (Hlow w Hst H0 Hall).
      assert (Hend : ok (run c es')) by by apply nr_run_ok. assert (H := ok_avoidance _ Hend). nia.
    + intros Hu. assert (Hst : Forall (fun e => steady e = true) es') by (eapply Forall_impl; [exact Hu|apply uncut_steady]). split; [by apply uncut_grows|].
      assert (Hwin := ok_window _ Hc). specialize (Hlow (window c) Hst ltac:(lia)). assert (Hend : ok (run c es')) by by apply nr_run_ok. assert (H := ok_avoidance _ Hend).
      assert (Hall : forall k, window c <= window (run c (take k es'))) by (intros k; apply uncut_grows; [done|done|by apply fits_take|by apply Forall_take]). specialize (Hlow Hall). nia.
Qed.

(** A window cut once, and grown by a packet. *)
Lemma newreno_window_witness :
  let c := run (new 1200) [Sent 12000; Congestion 7 5] in
  window c = 6000 /\ window (run c [AckedAt 5000 8 12000; AckedAt 1200 9 12000]) = 7200 /\ 2400 <= window c.
Proof.
  split; [done|]. split; [done|]. destruct (newreno_window 1200 [Sent 12000; Congestion 7 5]) as (_ & H & _); [lia|vm_compute; done|exact H].
Defined.
