(* ===== verification/Float.v ===== *)
(** [f64]: the binary64 arithmetic the pacer computes with.

    The operations are those of the Standard Library's [SpecFloat] (IEEE 754
    with rounding to nearest, ties to even) at 53 bits of precision and
    exponents below 1024.  What [std] adds is here: conversions of integers,
    [max], [min] and [clamp] with their treatment of NaN, and the conversions
    between seconds and durations ([Duration], a number of nanoseconds).  The
    lemmas bound the magnitude of results, so that the clients can show that
    nothing overflows, underflows or is NaN. *)

From Stdlib Require Import ZArith Lia SpecFloat.
From stdpp Require Import base option numbers.
From S2P Require Import Prelude.

#[local] Open Scope Z_scope.

(** ** The operations *)

Abbreviation f64 := spec_float.
Abbreviation prec := 53.
Abbreviation emax := 1024.

Definition fadd : f64 -> f64 -> f64 := SFadd prec emax.
Definition fsub : f64 -> f64 -> f64 := SFsub prec emax.
Definition fmul : f64 -> f64 -> f64 := SFmul prec emax.
Definition fdiv : f64 -> f64 -> f64 := SFdiv prec emax.

(** [n as f64]. *)
Definition f64_of (n : Z) : f64 := binary_normalize prec emax n 0 false.

(** The literal [n/d]: the number nearest to it. *)
Definition literal (n d : Z) : f64 := fdiv (f64_of n) (f64_of d).

Definition is_nan (x : f64) : bool := match x with S754_nan => true | _ => false end.

(** [x.max(y)], [x.min(y)]: the other number where one is NaN. *)
Definition fmax (x y : f64) : f64 := if is_nan x then y else if is_nan y then x else if SFltb x y then y else x.
Definition fmin (x y : f64) : f64 := if is_nan x then y else if is_nan y then x else if SFltb y x then y else x.

(** [x.clamp(lo, hi)]: NaN stays. *)
Definition clamp (lo hi x : f64) : f64 :=
  let x := if SFltb x lo then lo else x in if SFltb hi x then hi else x.

Definition NANOS : Z := 1000000000.

(** [Duration::as_secs_f64]. *)
Definition as_secs_f64 (d : Z) : f64 := fadd (f64_of (d / NANOS)) (fdiv (f64_of (d mod NANOS)) (f64_of NANOS)).

(** [n/d] to the nearest integer, ties to even. *)
Definition round_half_even (n d : Z) : Z :=
  let q := n / d in
  match 2 * (n mod d) ?= d with Lt => q | Gt => q + 1 | Eq => if Z.even q then q else q + 1 end.

(** [Duration::from_secs_f64]: a panic if it is negative, NaN, or too large. *)
Definition from_secs_f64 (x : f64) : option Z :=
  match x with
  | S754_zero _ => Some 0
  | S754_finite false m e =>
      let ns := if 0 <=? e then Zpos m * NANOS * 2 ^ e else round_half_even (Zpos m * NANOS) (2 ^ (- e)) in
      if ns <? (U64_MAX + 1) * NANOS then Some ns else None
  | _ => None
  end.

Example literal_milli : literal 1 1000 = S754_finite false 4611686018427388%positive (-62).
Proof. vm_compute. reflexivity. Qed.
Example secs_of : (as_secs_f64 1500000000, from_secs_f64 (literal 1 1000), from_secs_f64 (literal 1 3)) =
  (literal 3 2, Some 1000000, Some 333333333).
Proof. vm_compute. reflexivity. Qed.

(** ** Digits and shifts *)

Abbreviation digits := Zdigits2.

Lemma digits_bound m : 0 < m -> 1 <= digits m /\ 2 ^ (digits m - 1) <= m < 2 ^ digits m.
Proof.
  destruct m as [|m|m]; try lia. intros _. cbn [digits Zdigits2]. induction m as [m IH|m IH|]; cbn [digits2_pos].
  - rewrite Pos2Z.inj_succ. destruct IH as (H1 & H2 & H3). replace (Z.succ (Zpos (digits2_pos m)) - 1) with (Z.succ (Zpos (digits2_pos m) - 1)) by lia.
    rewrite !Z.pow_succ_r by lia. lia.
  - rewrite Pos2Z.inj_succ. destruct IH as (H1 & H2 & H3). replace (Z.succ (Zpos (digits2_pos m)) - 1) with (Z.succ (Zpos (digits2_pos m) - 1)) by lia.
    rewrite !Z.pow_succ_r by lia. lia.
  - cbn. lia.
Qed.

Lemma digits_nonneg m : 0 <= digits m.
Proof. destruct m; cbn; lia. Qed.

(** The number of digits is the one whose powers of two enclose the number. *)
Lemma digits_le m d : 0 <= m -> 0 <= d -> m < 2 ^ d -> digits m <= d.
Proof.
  intros Hm Hd Hlt. destruct (decide (m = 0)) as [->|]; [done|]. destruct (digits_bound m) as (H1 & H2 & H3); [lia|].
  destruct (Z.le_gt_cases (digits m) d); [done|]. assert (2 ^ d <= 2 ^ (digits m - 1)) by (apply Z.pow_le_mono_r; lia). lia.
Qed.

Lemma digits_ge m d : 0 <= d -> 2 ^ d <= m -> d + 1 <= digits m.
Proof.
  intros Hd Hle. assert (0 < 2 ^ d) by (apply Z.pow_pos_nonneg; lia). destruct (digits_bound m) as (H1 & H2 & H3); [lia|].
  destruct (Z.le_gt_cases (d + 1) (digits m)); [done|]. assert (2 ^ digits m <= 2 ^ d) by (apply Z.pow_le_mono_r; lia). lia.
Qed.

Lemma digits_is m d : 1 <= d -> 2 ^ (d - 1) <= m < 2 ^ d -> digits m = d.
Proof. intros Hd [H1 H2]. assert (0 < 2 ^ (d - 1)) by (apply Z.pow_pos_nonneg; lia). apply Z.le_antisymm; [apply digits_le; lia|]. apply digits_ge in H1; lia. Qed.

Lemma digits_shift m k : 0 < m -> 0 <= k -> digits (m * 2 ^ k) = digits m + k.
Proof.
  intros Hm Hk. destruct (digits_bound m Hm) as (H1 & H2 & H3). apply digits_is; [lia|]. replace (digits m + k - 1) with (digits m - 1 + k) by lia.
  rewrite !Z.pow_add_r by lia. assert (0 < 2 ^ k) by (apply Z.pow_pos_nonneg; lia). nia.
Qed.

Lemma digits_mul m n : 0 < m -> 0 < n -> digits m + digits n - 1 <= digits (m * n) <= digits m + digits n.
Proof.
  intros Hm Hn. destruct (digits_bound m Hm) as (H1 & H2 & H3), (digits_bound n Hn) as (H4 & H5 & H6). split.
  - cut (digits m - 1 + (digits n - 1) + 1 <= digits (m * n)); [lia|]. apply digits_ge; [lia|]. rewrite Z.pow_add_r by lia. nia.
  - apply digits_le; [nia|lia|]. rewrite Z.pow_add_r by lia. nia.
Qed.

Lemma digits_div m n : 0 <= m -> 0 < n -> digits m - digits n <= digits (m / n) /\ (0 < m / n -> digits (m / n) <= digits m - digits n + 1).
Proof.
  intros Hm Hn. destruct (digits_bound n Hn) as (H4 & H5 & H6). destruct (decide (m = 0)) as [->|Hm0].
  { rewrite Z.div_0_l by lia. cbn [digits Zdigits2]. lia. }
  destruct (digits_bound m) as (H1 & H2 & H3); [lia|]. split.
  - destruct (Z.le_gt_cases (digits m) (digits n)) as [Hd|Hd]; [assert (H := digits_nonneg (m / n)); lia|].
    assert (H := digits_ge (m / n) (digits m - 1 - digits n) ltac:(lia)). cut (2 ^ (digits m - 1 - digits n) <= m / n); [lia|].
    apply Z.div_le_lower_bound; [done|]. assert (He : 2 ^ digits n * 2 ^ (digits m - 1 - digits n) = 2 ^ (digits m - 1)) by (rewrite <- Z.pow_add_r by lia; f_equal; lia).
    assert (0 < 2 ^ (digits m - 1 - digits n)) by (apply Z.pow_pos_nonneg; lia). nia.
  - intros Hq. assert (Hle : n <= m) by (destruct (Z.le_gt_cases n m); [done|]; rewrite Z.div_small in Hq by lia; lia).
    assert (Hdd : digits n <= digits m) by (apply digits_le; [lia|lia|]; lia).
    apply digits_le; [lia|lia|]. apply Z.div_lt_upper_bound; [done|].
    assert (He : 2 ^ (digits n - 1) * 2 ^ (digits m - digits n + 1) = 2 ^ digits m) by (rewrite <- Z.pow_add_r by lia; f_equal; lia).
    assert (0 < 2 ^ (digits m - digits n + 1)) by (apply Z.pow_pos_nonneg; lia). nia.
Qed.

Lemma shr_1_m r : 0 <= shr_m r -> shr_m (shr_1 r) = shr_m r / 2.
Proof.
  destruct r as [[|[m|m|]|m] r s]; cbn [shr_m]; try done; intros _; cbn [shr_1 shr_m].
  - apply (Z.div_unique _ _ _ 1); lia.
  - apply (Z.div_unique _ _ _ 0); lia.
Qed.

Lemma iter_shr p r : 0 <= shr_m r -> shr_m (SpecFloat.iter_pos shr_1 p r) = shr_m r / 2 ^ Zpos p.
Proof.
  revert r. induction p as [p IH|p IH|]; intros r Hr; cbn [SpecFloat.iter_pos].
  - assert (H0 : 0 <= shr_m (shr_1 r)) by (rewrite shr_1_m by done; apply Z.div_pos; lia).
    assert (H1 : 0 <= shr_m (SpecFloat.iter_pos shr_1 p (shr_1 r))) by (rewrite IH by done; apply Z.div_pos; [done|apply Z.pow_pos_nonneg; lia]).
    rewrite IH by done. rewrite IH by done. rewrite shr_1_m by done. assert (0 < 2 ^ Zpos p) by (apply Z.pow_pos_nonneg; lia). rewrite !Z.div_div by lia.
    f_equal. replace (Zpos p~1) with (1 + Zpos p + Zpos p) by lia. rewrite !Z.pow_add_r by lia. lia.
  - assert (H1 : 0 <= shr_m (SpecFloat.iter_pos shr_1 p r)) by (rewrite IH by done; apply Z.div_pos; [done|apply Z.pow_pos_nonneg; lia]).
    rewrite IH by done. rewrite IH by done. assert (0 < 2 ^ Zpos p) by (apply Z.pow_pos_nonneg; lia). rewrite !Z.div_div by lia.
    f_equal. replace (Zpos p~0) with (Zpos p + Zpos p) by lia. by rewrite Z.pow_add_r by lia.
  - by rewrite shr_1_m, Z.pow_1_r by done.
Qed.

Lemma shr_fexp_spec m e l : 0 <= m ->
  let k := Z.max 0 (fexp prec emax (digits m + e) - e) in
  shr_m (fst (shr_fexp prec emax m e l)) = m / 2 ^ k /\ snd (shr_fexp prec emax m e l) = e + k.
Proof.
  intros Hm. cbn zeta. unfold shr_fexp. assert (Hl : shr_m (shr_record_of_loc m l) = m) by (by destruct l as [|[]]).
  destruct (fexp prec emax (digits m + e) - e) as [|p|p] eqn:Hk; cbn [shr fst snd]; rewrite ?Hl.
  - rewrite Z.max_id. by rewrite Z.div_1_r, Z.add_0_r.
  - rewrite iter_shr by (by rewrite Hl). by rewrite Hl.
  - rewrite Z.max_l by lia. by rewrite Z.div_1_r, Z.add_0_r.
Qed.

Lemma fexp_is d : fexp prec emax d = Z.max (d - 53) (-1074).
Proof. done. Qed.

Lemma round_nearest_even_cases m l : round_nearest_even m l = m \/ round_nearest_even m l = m + 1.
Proof. destruct l as [|[]]; cbn; auto. destruct (Z.even m); auto. Qed.

(** ** Rounding *)

(** The sign and the range of a rounded number. *)
Inductive rounded (s : bool) (d : Z) : f64 -> Prop :=
| rounded_zero : d < -1073 -> rounded s d (S754_zero s)
| rounded_inf : 1024 <= d -> rounded s d (S754_infinity s)
| rounded_finite m e : bounded prec emax m e = true -> (-1073 <= d -> d <= Zpos (digits2_pos m) + e <= d + 1) -> rounded s d (S754_finite s m e).

Lemma round_never_nan s m e l : 0 <= m -> is_nan (binary_round_aux prec emax s m e l) = false.
Proof.
  intros Hm. unfold binary_round_aux. destruct (shr_fexp prec emax m e l) as [r1 e1] eqn:H1. destruct (shr_fexp_spec m e l Hm) as [Hr1 He1]. rewrite H1 in Hr1, He1. cbn [fst snd] in *.
  assert (Hp1 : 0 <= shr_m r1) by (rewrite Hr1; apply Z.div_pos; [done|apply Z.pow_pos_nonneg; lia]).
  set (m2 := round_nearest_even _ _). assert (Hp2 : 0 <= m2) by (destruct (round_nearest_even_cases (shr_m r1) (loc_of_shr_record r1)); unfold m2; lia).
  destruct (shr_fexp prec emax m2 e1 loc_Exact) as [r2 e2] eqn:H2. destruct (shr_fexp_spec m2 e1 loc_Exact Hp2) as [Hr2 _]. rewrite H2 in Hr2. cbn [fst] in Hr2.
  assert (Hp3 : 0 <= shr_m r2) by (rewrite Hr2; apply Z.div_pos; [done|apply Z.pow_pos_nonneg; lia]).
  destruct (shr_m r2); [done| |lia]. by destruct (_ <=? _).
Qed.

Lemma round_spec s m e l : 0 <= m -> e <= fexp prec emax (digits m + e) -> rounded s (digits m + e) (binary_round_aux prec emax s m e l).
Proof.
  intros Hm He. unfold binary_round_aux. destruct (shr_fexp prec emax m e l) as [r1 e1] eqn:H1. destruct (shr_fexp_spec m e l Hm) as [Hr1 He1]. rewrite H1 in Hr1, He1. cbn [fst snd] in *.
  rewrite fexp_is in *. rewrite Z.max_r in Hr1, He1 by lia. set (k := Z.max (digits m + e - 53) (-1074) - e) in *.
  set (d1 := Z.max 0 (digits m - k)).
  assert (Hm1 : 0 <= shr_m r1 < 2 ^ d1 /\ (1 <= digits m - k -> 0 < m -> 2 ^ (d1 - 1) <= shr_m r1)).
  { rewrite Hr1. assert (H0 : 0 < 2 ^ k) by (apply Z.pow_pos_nonneg; lia). split; [split; [by apply Z.div_pos; lia|]|].
    - apply Z.div_lt_upper_bound; [done|]. destruct (decide (m = 0)) as [->|]; [assert (0 < 2 ^ d1) by (apply Z.pow_pos_nonneg; lia); nia|].
      destruct (digits_bound m) as (_ & _ & Hb); [lia|]. rewrite <- Z.pow_add_r by lia. assert (2 ^ digits m <= 2 ^ (k + d1)) by (apply Z.pow_le_mono_r; lia). lia.
    - intros Hd Hm0. apply Z.div_le_lower_bound; [done|]. destruct (digits_bound m Hm0) as (_ & Hb & _). rewrite <- Z.pow_add_r by lia. replace (k + (d1 - 1)) with (digits m - 1) by lia. done. }
  destruct Hm1 as [Hm1 Hm1']. set (m2 := round_nearest_even _ _).
  assert (Hm2 : 0 <= m2 <= 2 ^ d1 /\ shr_m r1 <= m2) by (destruct (round_nearest_even_cases (shr_m r1) (loc_of_shr_record r1)); unfold m2; lia). destruct Hm2 as [Hm2 Hm12].
  destruct (shr_fexp prec emax m2 e1 loc_Exact) as [r2 e2] eqn:H2. destruct (shr_fexp_spec m2 e1 loc_Exact ltac:(lia)) as [Hr2 He2]. rewrite H2 in Hr2, He2. cbn [fst snd] in *. rewrite fexp_is in *.
  set (e1' := Z.max (digits m + e - 53) (-1074)) in *. assert (Hm0 : m = 0 -> digits m + e <= -1074) by (intros ->; cbn [digits Zdigits2] in *; lia).
  assert (Hk : d1 <= 53 /\ (-1073 <= digits m + e -> digits m - k = d1 /\ 1 <= d1 /\ 2 ^ (d1 - 1) <= m2)) by (split; [lia|]; intros; destruct (decide (m = 0)); [lia|]; split; [lia|]; split; [lia|]; transitivity (shr_m r1); [apply Hm1'; lia|done]).
  destruct Hk as [Hd1 Hk]. assert (Hcase : (shr_m r2 = 0 /\ digits m + e < -1073) \/
    (0 < shr_m r2 /\ Z.max (digits (shr_m r2) + e2 - 53) (-1074) = e2 /\ (971 < e2 -> 1024 <= digits m + e) /\ (-1073 <= digits m + e -> digits m + e <= digits (shr_m r2) + e2 <= digits m + e + 1))).
  { destruct (decide (m2 = 0)) as [Hz|Hnz].
    { left. rewrite Hr2, Hz. rewrite Z.div_0_l by (apply Z.pow_nonzero; lia). split; [done|]. destruct (Z.le_gt_cases (-1073) (digits m + e)) as [Hd|]; [|done].
      destruct (Hk Hd) as (_ & Hd' & Hb). assert (0 < 2 ^ (d1 - 1)) by (apply Z.pow_pos_nonneg; lia). lia. }
    right. destruct (decide (m2 = 2 ^ d1)) as [Htop|Hlow].
    - assert (Hdig : digits m2 = d1 + 1) by (rewrite Htop; apply digits_is; [lia|]; rewrite Z.add_simpl_r; split; [done|]; apply Z.pow_lt_mono_r; lia).
      rewrite Hdig in *. destruct (decide (d1 = 53 /\ -1074 <= e1 + 1)) as [[H53 _]|].
      + assert (Hk2 : Z.max 0 (Z.max (d1 + 1 + e1 - 53) (-1074) - e1) = 1) by lia. rewrite Hk2 in *. rewrite H53 in Htop. assert (Hr : shr_m r2 = 2 ^ 52) by (rewrite Hr2, Htop; reflexivity).
        rewrite Hr. replace (digits (2 ^ 52)) with 53 by reflexivity. lia.
      + assert (Hk2 : Z.max 0 (Z.max (d1 + 1 + e1 - 53) (-1074) - e1) = 0) by lia. rewrite Hk2 in *. rewrite Z.pow_0_r, Z.div_1_r in Hr2. rewrite Hr2, Hdig. lia.
    - assert (Hdig : digits m2 <= d1) by (apply digits_le; lia). assert (Hdig' : -1073 <= digits m + e -> d1 <= digits m2).
      { intros Hd. destruct (Hk Hd) as (_ & Hd' & Hb). apply digits_ge in Hb; lia. }
      assert (Hk2 : Z.max 0 (Z.max (digits m2 + e1 - 53) (-1074) - e1) = 0) by lia. rewrite Hk2 in *. rewrite Z.pow_0_r, Z.div_1_r in Hr2. rewrite Hr2. lia. }
  clear -Hcase. destruct Hcase as [[H0 Hd]|(Hp & Hc & Hi & Hd)].
  - rewrite H0. by apply rounded_zero.
  - destruct (shr_m r2) as [|p|p]; try lia. cbn [digits Zdigits2] in *. destruct (Z.leb_spec e2 (emax - prec)); [|apply rounded_inf; lia].
    apply rounded_finite; [|done]. unfold bounded, canonical_mantissa. rewrite fexp_is. apply andb_true_intro. split; [by apply Z.eqb_eq|by apply Z.leb_le].
Qed.

(** ** Magnitudes *)

(** A positive number of at least [2^(lo-1)], less than [2^hi]. *)
Definition pos_in (lo hi : Z) (x : f64) : Prop :=
  match x with S754_finite false m e => bounded prec emax m e = true /\ lo <= Zpos (digits2_pos m) + e <= hi | _ => False end.

(** Zero, or a positive number less than [2^hi]. *)
Definition nonneg_to (hi : Z) (x : f64) : Prop := x = S754_zero false \/ pos_in (-1073) hi x.

Lemma pos_in_weaken lo hi lo' hi' x : pos_in lo hi x -> lo' <= lo -> hi <= hi' -> pos_in lo' hi' x.
Proof. destruct x as [| | |[] m e]; cbn; try done. intros [H1 H2] Hl Hh. split; [done|lia]. Qed.

Lemma bounded_is m e : bounded prec emax m e = true -> Z.max (Zpos (digits2_pos m) + e - 53) (-1074) = e /\ e <= 971.
Proof. unfold bounded, canonical_mantissa. rewrite fexp_is. intros H. apply andb_true_iff in H as [H1 H2]. apply Z.eqb_eq in H1. apply Z.leb_le in H2. done. Qed.

Lemma rounded_pos d x : rounded false d x -> -1073 <= d < 1024 -> pos_in d (d + 1) x.
Proof. intros [H|H|m e Hb Hd] Hr; [lia|lia|]. split; [done|]. apply Hd. lia. Qed.

Lemma rounded_not_nan s d x : rounded s d x -> is_nan x = false.
Proof. by intros []. Qed.

Lemma shl_align_spec m e e' : exists j, 0 <= j /\ Zpos (fst (shl_align m e e')) = Zpos m * 2 ^ j /\ snd (shl_align m e e') = e - j /\ e - j <= e' /\ (e' <= e -> j = e - e').
Proof.
  unfold shl_align. destruct (e' - e) as [|p|p] eqn:Hd; cbn [fst snd].
  - exists 0. rewrite Z.pow_0_r. lia.
  - exists 0. rewrite Z.pow_0_r. lia.
  - exists (Zpos p). split; [lia|]. split; [|lia]. clear. induction p as [|p IH] using Pos.peano_ind; [cbn; lia|].
    rewrite Pos.iter_succ, Pos2Z.inj_succ, Z.pow_succ_r by lia. lia.
Qed.

Lemma binary_round_spec s m e : rounded s (Zpos (digits2_pos m) + e) (binary_round prec emax s m e).
Proof.
  unfold binary_round. destruct (shl_align_spec m e (fexp prec emax (Zpos (digits2_pos m) + e))) as (j & Hj & Hm & He & Hle & _).
  destruct (shl_align _ _ _) as [m' e']. cbn [fst snd] in *.
  assert (Hd : digits (Zpos m') + e' = Zpos (digits2_pos m) + e) by (rewrite Hm, digits_shift by lia; cbn [digits Zdigits2]; lia).
  rewrite <- Hd. apply round_spec; [lia|]. rewrite Hd. lia.
Qed.

Lemma f64_of_pos n k : 1 <= n < 2 ^ k -> 0 <= k < 1024 -> pos_in 1 (k + 1) (f64_of n).
Proof.
  intros Hn Hk. unfold f64_of, binary_normalize. destruct n as [|m|m]; try lia. assert (H := binary_round_spec false m 0).
  assert (Hd : digits (Zpos m) <= k) by (apply digits_le; lia). destruct (digits_bound (Zpos m)) as (Hd1 & _); [lia|]. cbn [digits Zdigits2] in *.
  apply rounded_pos in H; [|lia]. eapply pos_in_weaken; [exact H|lia|lia].
Qed.

Lemma f64_of_nonneg n k : 0 <= n < 2 ^ k -> 0 <= k < 1024 -> nonneg_to (k + 1) (f64_of n).
Proof. intros Hn Hk. destruct (decide (n = 0)) as [->|]; [by left|]. right. eapply pos_in_weaken; [apply (f64_of_pos n k); lia|lia|lia]. Qed.

Lemma fmul_pos a b c d x y :
  pos_in a b x -> pos_in c d y -> -1073 <= a + c - 1 -> b + d < 1024 -> pos_in (a + c - 1) (b + d + 1) (fmul x y).
Proof.
  destruct x as [| | |[] m1 e1], y as [| | |[] m2 e2]; try done. intros [Hb1 H1] [Hb2 H2] Hl Hh. apply bounded_is in Hb1, Hb2.
  unfold fmul, SFmul. cbn [xorb]. destruct (digits_mul (Zpos m1) (Zpos m2)) as [Hd1 Hd2]; try lia. change (Zpos m1 * Zpos m2) with (Zpos (m1 * m2)) in *.
  destruct (digits_bound (Zpos m1)) as (Hm1 & _); [lia|]. destruct (digits_bound (Zpos m2)) as (Hm2 & _); [lia|]. cbn [digits Zdigits2] in *.
  assert (H := round_spec false (Zpos (m1 * m2)) (e1 + e2) loc_Exact ltac:(lia)). rewrite fexp_is in H. cbn [digits Zdigits2] in H.
  specialize (H ltac:(lia)). apply rounded_pos in H; [|lia]. eapply pos_in_weaken; [exact H|lia|lia].
Qed.

Lemma div_core m1 e1 m2 e2 : let '(q, e, l) := SFdiv_core_binary prec emax (Zpos m1) e1 (Zpos m2) e2 in
  let d := Zpos (digits2_pos m1) + e1 - (Zpos (digits2_pos m2) + e2) in
  0 <= q /\ e <= fexp prec emax (digits q + e) /\ d <= digits q + e /\ (0 < q -> digits q + e <= d + 1).
Proof.
  unfold SFdiv_core_binary. cbn [digits Zdigits2]. set (d1 := Zpos (digits2_pos m1)). set (d2 := Zpos (digits2_pos m2)). set (e := Z.min _ _).
  assert (He : e = Z.min (Z.max (d1 + e1 - (d2 + e2) - 53) (-1074)) (e1 - e2)) by reflexivity. clearbody e. remember (e1 - e2 - e) as s eqn:Hse. assert (Hs : 0 <= s) by lia. set (m' := match s with Z0 => _ | _ => _ end).
  assert (Hm' : m' = Zpos m1 * 2 ^ s) by (unfold m'; destruct s; [lia|by rewrite Z.shiftl_mul_pow2|lia]).
  assert (Hd' : digits m' = d1 + s) by (rewrite Hm', digits_shift by lia; done).
  assert (H := digits_div m' (Zpos m2) ltac:(lia) ltac:(lia)). unfold Z.div in H. assert (Hq : 0 <= fst (Z.div_eucl m' (Zpos m2))) by (change (0 <= m' / Zpos m2); apply Z.div_pos; lia).
  destruct (Z.div_eucl m' (Zpos m2)) as [q r]. cbn [fst] in *. rewrite Hd' in H. cbn [digits Zdigits2] in H. fold d2 in H. rewrite fexp_is in *. destruct H as [H1 H2].
  split; [done|]. split; [lia|]. split; [lia|]. intros Hp. specialize (H2 Hp). lia.
Qed.

Lemma fdiv_rounded s1 m1 e1 s2 m2 e2 : exists d, rounded (xorb s1 s2) d (fdiv (S754_finite s1 m1 e1) (S754_finite s2 m2 e2)) /\
  Zpos (digits2_pos m1) + e1 - (Zpos (digits2_pos m2) + e2) <= d /\ (-1073 <= d -> d <= Zpos (digits2_pos m1) + e1 - (Zpos (digits2_pos m2) + e2) + 1).
Proof.
  unfold fdiv, SFdiv. assert (H := div_core m1 e1 m2 e2). destruct (SFdiv_core_binary _ _ _ _ _ _) as [[q e] l]. destruct H as (Hq & He & Hd & Hd').
  exists (digits q + e). split; [by apply round_spec|]. split; [done|]. intros Hn. apply Hd'. destruct (decide (q = 0)) as [->|]; [|lia]. rewrite fexp_is in He. cbn [digits Zdigits2] in *. lia.
Qed.

Lemma fdiv_pos a b c d x y :
  pos_in a b x -> pos_in c d y -> -1073 <= a - d -> b - c + 1 < 1024 -> pos_in (a - d) (b - c + 2) (fdiv x y).
Proof.
  destruct x as [| | |[] m1 e1], y as [| | |[] m2 e2]; try done. intros [Hb1 H1] [Hb2 H2] Hl Hh.
  destruct (fdiv_rounded false m1 e1 false m2 e2) as (k & Hk & Hk1 & Hk2). cbn [xorb] in Hk. specialize (Hk2 ltac:(lia)).
  apply rounded_pos in Hk; [|lia]. eapply pos_in_weaken; [exact Hk|lia|lia].
Qed.

Lemma fadd_nonneg b d x y : nonneg_to b x -> nonneg_to d y -> Z.max b d + 1 < 1024 -> nonneg_to (Z.max b d + 2) (fadd x y).
Proof.
  intros [->|Hx] [->|Hy] Hb.
  - by left.
  - right. destruct y as [| | |[] m e]; try done. eapply pos_in_weaken; [exact Hy|lia|lia].
  - right. destruct x as [| | |[] m e]; try done. eapply pos_in_weaken; [exact Hx|lia|lia].
  - destruct x as [| | |[] m1 e1], y as [| | |[] m2 e2]; try done. destruct Hx as [Hb1 H1], Hy as [Hb2 H2]. right.
    unfold fadd, SFadd. cbn [cond_Zopp]. destruct (shl_align_spec m1 e1 (Z.min e1 e2)) as (j1 & Hj1 & Hm1 & _ & _ & Hj1'), (shl_align_spec m2 e2 (Z.min e1 e2)) as (j2 & Hj2 & Hm2 & _ & _ & Hj2').
    specialize (Hj1' ltac:(lia)). specialize (Hj2' ltac:(lia)). set (s1 := fst (shl_align m1 e1 (Z.min e1 e2))) in *. set (s2 := fst (shl_align m2 e2 (Z.min e1 e2))) in *.
    change (Zpos s1 + Zpos s2) with (Zpos (s1 + s2)). unfold binary_normalize. assert (H := binary_round_spec false (s1 + s2) (Z.min e1 e2)).
    change (Zpos (digits2_pos (s1 + s2))) with (digits (Zpos (s1 + s2))) in H. rewrite Pos2Z.inj_add in H.
    assert (Hs1 : digits (Zpos s1) = Zpos (digits2_pos m1) + j1) by (rewrite Hm1; by apply digits_shift). assert (Hs2 : digits (Zpos s2) = Zpos (digits2_pos m2) + j2) by (rewrite Hm2; by apply digits_shift).
    destruct (digits_bound (Zpos s1)) as (_ & Hl1 & Hu1); [lia|]. destruct (digits_bound (Zpos s2)) as (Hp2 & Hl2 & Hu2); [lia|].
    assert (Hlo : digits (Zpos s1) <= digits (Zpos s1 + Zpos s2)) by (cut (digits (Zpos s1) - 1 + 1 <= digits (Zpos s1 + Zpos s2)); [lia|]; apply digits_ge; lia).
    assert (Hhi : digits (Zpos s1 + Zpos s2) <= Z.max (digits (Zpos s1)) (digits (Zpos s2)) + 1).
    { apply digits_le; [lia|lia|]. rewrite Z.add_1_r, Z.pow_succ_r by lia. set (mx := Z.max _ _).
      assert (2 ^ digits (Zpos s1) <= 2 ^ mx) by (apply Z.pow_le_mono_r; lia). assert (2 ^ digits (Zpos s2) <= 2 ^ mx) by (apply Z.pow_le_mono_r; lia). lia. }
    apply rounded_pos in H; [|lia]. eapply pos_in_weaken; [exact H|lia|lia].
Qed.

(** ** What is not NaN *)

Lemma fadd_not_nan x y : is_nan x = false -> (exists hi, nonneg_to hi y) -> is_nan (fadd x y) = false.
Proof.
  intros Hx (hi & [->|Hy]); [by destruct x as [[]|[]| |]|]. destruct y as [| | |[] m2 e2]; try done. destruct x as [|[]| |s m1 e1]; try done.
  unfold fadd, SFadd, binary_normalize. destruct (_ + _)%Z; [done|eapply rounded_not_nan, binary_round_spec..].
Qed.

Lemma fsub_not_nan x y : is_nan x = false -> (exists hi, nonneg_to hi y) -> is_nan (fsub x y) = false.
Proof.
  intros Hx (hi & [->|Hy]); [by destruct x as [[]|[]| |]|]. destruct y as [| | |[] m2 e2]; try done. destruct x as [|[]| |s m1 e1]; try done.
  unfold fsub, SFsub, binary_normalize. destruct (_ - _)%Z; [done|eapply rounded_not_nan, binary_round_spec..].
Qed.

Lemma fmin_not_nan x y : is_nan y = false -> is_nan (fmin x y) = false.
Proof. intros Hy. unfold fmin. destruct (is_nan x) eqn:Hx; [done|]. rewrite Hy. by destruct (SFltb y x). Qed.
