(* ===== verification/Pacer.v ===== *)
(** When the next packet may go: [Pacer] of [pratique/src/quic/congestion.rs].

    A bucket of bytes ([f64]) fills at the rate the window allows and gives a
    packet its size.  The code computes with floating point, so does the
    model ([Float]); what matters is that no rate, however extreme the window
    and the round trip, makes it wait for ever, or panic. *)

From Stdlib Require Import ZArith Lia SpecFloat.
From stdpp Require Import base option numbers list.
From S2P Require Import Prelude Float.

#[local] Open Scope Z_scope.

(** [Duration::MAX], in nanoseconds. *)
Definition DURATION_MAX : Z := (U64_MAX + 1) * NANOS - 1.

(** [now.saturating_duration_since(earlier)]. *)
Definition since (now earlier : Z) : Z := Z.max 0 (now - earlier).

(** ** The operations *)

Definition BURST_PACKETS : f64 := literal 10 1.
Definition GRANULARITY : f64 := literal 1 1000.

Record Pacer := mk_pacer {
  tokens : f64;
  last : option Z;
  max_datagram_size : Z;
}.

Definition burst (mds : Z) : f64 := fmul BURST_PACKETS (f64_of mds).

Definition new (mds : Z) : Pacer := mk_pacer (burst mds) None mds.

Definition set_max_datagram_size (size : Z) (p : Pacer) : Pacer := mk_pacer (tokens p) (last p) size.

Definition rate (window rtt : Z) (slow_start : bool) : f64 :=
  let factor := if slow_start then literal 2 1 else literal 5 4 in
  fdiv (fmul factor (f64_of window)) (fmax (as_secs_f64 rtt) (literal 1 1000000)).

Definition refill (now : Z) (r : f64) (p : Pacer) : Pacer :=
  mk_pacer
    match last p with
    | Some l => fmin (fadd (tokens p) (fmul (as_secs_f64 (since now l)) r)) (burst (max_datagram_size p))
    | None => tokens p
    end (Some now) (max_datagram_size p).

Section instants.
(** The furthest [Instant]: [now + d] panics beyond it. *)
Context (instant_max : Z).

Definition next_send_time (now : Z) (r : f64) (p : Pacer) : option (option Z * Pacer) :=
  let p := refill now r p in
  let floor := fmul (SFopp r) GRANULARITY in
  if SFleb floor (tokens p) then Some (None, p)
  else
    let wait := clamp (literal 1 1000000) (literal 1 1) (fdiv (fsub floor (tokens p)) r) in
    match from_secs_f64 wait with
    | Some d => if now + d <=? instant_max then Some (Some (now + d), p) else None
    | None => None
    end.
End instants.

Definition on_sent (now bytes : Z) (r : f64) (p : Pacer) : Pacer :=
  let p := refill now r p in mk_pacer (fsub (tokens p) (f64_of bytes)) (last p) (max_datagram_size p).

(** ** Lemmas *)

Lemma micro : literal 1 1000000 = S754_finite false 4722366482869645 (-72).
Proof. vm_compute. reflexivity. Qed.

Lemma one : literal 1 1 = S754_finite false 4503599627370496 (-52).
Proof. vm_compute. reflexivity. Qed.

(** A rate a window can have. *)
Definition good_rate (r : f64) : Prop := pos_in (-100) 150 r.

Lemma literal_pos_in : pos_in 2 2 (literal 2 1) /\ pos_in 1 1 (literal 5 4) /\ pos_in (-19) (-19) (literal 1 1000000) /\ pos_in 4 4 BURST_PACKETS /\ pos_in (-9) (-9) GRANULARITY.
Proof. repeat split; vm_compute; done. Qed.

Lemma as_secs_nonneg d : 0 <= d <= DURATION_MAX -> nonneg_to 67 (as_secs_f64 d).
Proof.
  intros Hd. unfold as_secs_f64, DURATION_MAX, NANOS in *. assert (Hn : pos_in 30 30 (f64_of 1000000000)) by (vm_compute; done).
  assert (Hm := Z.mod_pos_bound d 1000000000 ltac:(lia)).
  assert (H1 : nonneg_to 65 (f64_of (d / 1000000000))).
  { apply (f64_of_nonneg _ 64); [|lia]. split; [apply Z.div_pos; lia|]. apply Z.div_lt_upper_bound; [lia|]. unfold U64_MAX in *. lia. }
  apply (fadd_nonneg 65 5); [done| |lia]. destruct (decide (d mod 1000000000 = 0)) as [->|]; [by left; vm_compute|].
  right. eapply pos_in_weaken; [apply (fdiv_pos 1 31 30 30); [apply (f64_of_pos _ 30); lia|done|lia|lia]|lia|lia].
Qed.

Lemma compare_exponents m1 e1 m2 e2 : SFltb (S754_finite false m1 e1) (S754_finite false m2 e2) = false -> e2 < e1 \/ (e1 = e2 /\ Zpos m2 <= Zpos m1).
Proof.
  unfold SFltb. cbn [SFcompare]. destruct (Z.compare_spec e1 e2) as [->|He|He]; [|done|by left]. change (Pos.compare_cont Eq m1 m2) with (m1 ?= m2)%positive.
  destruct (Pos.compare_spec m1 m2) as [->|Hm|Hm]; [|done|]; intros _; right; (split; [done|]); lia.
Qed.

(** At least [literal 1 1000000], so far from zero. *)
Lemma fmax_pos hi x : nonneg_to hi x -> -19 <= hi -> pos_in (-71) hi (fmax x (literal 1 1000000)).
Proof.
  destruct literal_pos_in as (_ & _ & Hl & _). rewrite micro in *.
  intros Hx Hh. unfold fmax. cbn [is_nan]. destruct Hx as [->|Hx]; [cbn [is_nan]; change (SFltb (S754_zero false) _) with true; cbn iota; eapply pos_in_weaken; [exact Hl|lia|lia]|].
  destruct x as [| | |[] m e]; try done. cbn [is_nan]. destruct (SFltb _ _) eqn:Hlt; [eapply pos_in_weaken; [exact Hl|lia|lia]|].
  apply compare_exponents in Hlt. destruct Hx as [Hb Hd]. split; [done|]. assert (1 <= Zpos (digits2_pos m)) by lia. lia.
Qed.

Lemma rate_good window rtt ss : 1 <= window <= U64_MAX -> 0 <= rtt <= DURATION_MAX -> good_rate (rate window rtt ss).
Proof.
  intros Hw Hr. unfold rate, good_rate. destruct literal_pos_in as (H2 & H5 & _).
  assert (Hx : pos_in 1 68 (fmul (if ss then literal 2 1 else literal 5 4) (f64_of window))).
  { assert (Hf : pos_in 1 65 (f64_of window)) by (apply (f64_of_pos _ 64); unfold U64_MAX in *; lia). destruct ss; eapply pos_in_weaken; [apply (fmul_pos 2 2 1 65); [done..|lia|lia]|lia|lia|apply (fmul_pos 1 1 1 65); [done..|lia|lia]|lia|lia]. }
  assert (Hy := fmax_pos 67 _ (as_secs_nonneg rtt Hr) ltac:(lia)).
  assert (Hq := fdiv_pos _ _ _ _ _ _ Hx Hy ltac:(lia) ltac:(lia)). eapply pos_in_weaken; [exact Hq|lia|lia].
Qed.

Lemma since_range now l instant_max : 0 <= l -> 0 <= now <= instant_max -> 0 <= since now l <= instant_max.
Proof. unfold since. lia. Qed.

Lemma burst_not_nan mds : 0 <= mds <= U64_MAX -> is_nan (burst mds) = false.
Proof.
  intros Hm. unfold burst. destruct (decide (mds = 0)) as [->|]; [by vm_compute|]. destruct literal_pos_in as (_ & _ & _ & Hb & _).
  assert (H := fmul_pos 4 4 1 65 _ _ Hb (f64_of_pos mds 64 ltac:(unfold U64_MAX in *; lia) ltac:(lia)) ltac:(lia) ltac:(lia)). by destruct (fmul _ _).
Qed.

(** What holds between calls. *)
Definition ok (p : Pacer) : Prop := is_nan (tokens p) = false /\ 0 <= max_datagram_size p <= U64_MAX.

Lemma pacer_new_ok mds : 0 <= mds <= U64_MAX -> ok (new mds).
Proof. intros Hm. split; [by apply burst_not_nan|done]. Qed.

Lemma refill_ok now r p : ok p -> ok (refill now r p).
Proof.
  intros [Hn Hm]. split; [|done]. cbn [refill tokens]. destruct (last p); [|done]. by apply fmin_not_nan, burst_not_nan.
Qed.

Lemma on_sent_ok now bytes r p : 0 <= bytes <= U64_MAX -> ok p -> ok (on_sent now bytes r p).
Proof.
  intros Hb Hp. apply (refill_ok now r) in Hp as [Hn Hm]. split; [|done]. cbn [on_sent tokens]. apply fsub_not_nan; [done|]. exists 65.
  apply (f64_of_nonneg _ 64); unfold U64_MAX in *; lia.
Qed.

(** *** Rounding a wait to nanoseconds *)

Lemma round_half_even_le n d b : 0 < d -> n <= b * d -> round_half_even n d <= b.
Proof.
  intros Hd Hn. unfold round_half_even. assert (H := Z.div_mod n d ltac:(lia)). assert (H' := Z.mod_pos_bound n d Hd). set (q := n / d) in *. set (r := n mod d) in *.
  destruct (Z.compare_spec (2 * r) d); [destruct (Z.even q)|..]; nia.
Qed.

Lemma round_half_even_ge n d a : 0 < d -> (2 * a - 1) * d < 2 * n -> a <= round_half_even n d.
Proof.
  intros Hd Hn. unfold round_half_even. assert (H := Z.div_mod n d ltac:(lia)). assert (H' := Z.mod_pos_bound n d Hd). set (q := n / d) in *. set (r := n mod d) in *.
  destruct (Z.compare_spec (2 * r) d); [destruct (Z.even q)|..]; nia.
Qed.

Lemma wait_nanos m e : bounded prec emax m e = true ->
  SFltb (S754_finite false m e) (literal 1 1000000) = false -> SFltb (literal 1 1) (S754_finite false m e) = false ->
  exists d, from_secs_f64 (S754_finite false m e) = Some d /\ 1000 <= d <= 1000000000.
Proof.
  intros Hb Hlo Hhi. rewrite micro in Hlo. rewrite one in Hhi. apply compare_exponents in Hlo, Hhi. apply bounded_is in Hb as [Hb _].
  assert (He : -72 <= e <= -52) by lia. assert (Hd : Zpos (digits2_pos m) = 53) by lia.
  destruct (digits_bound (Zpos m) eq_refl) as (_ & Hm1 & Hm2). cbn [Zdigits2] in Hm1, Hm2. rewrite Hd in Hm1, Hm2.
  unfold from_secs_f64. rewrite (proj2 (Z.leb_gt 0 e)) by lia. set (ns := round_half_even _ _). assert (Hp : 0 < 2 ^ (- e)) by (apply Z.pow_pos_nonneg; lia).
  assert (Hns : 1000 <= ns <= 1000000000).
  { unfold ns, NANOS. split.
    - apply round_half_even_ge; [done|]. destruct Hlo as [Hlo|[-> Hlo]]; [|change (2 ^ (- -72)) with 4722366482869645213696; lia].
      assert (H71 : 2 ^ (- e) <= 2 ^ 71) by (apply Z.pow_le_mono_r; lia). change (2 ^ 71) with 2361183241434822606848 in H71. change (2 ^ (53 - 1)) with 4503599627370496 in Hm1. lia.
    - apply round_half_even_le; [done|]. destruct Hhi as [Hhi|[<- Hhi]]; [|change (2 ^ (- -52)) with 4503599627370496; lia].
      assert (H53 : 2 ^ 53 <= 2 ^ (- e)) by (apply Z.pow_le_mono_r; lia). lia. }
  exists ns. split; [|done]. rewrite (proj2 (Z.ltb_lt _ _)); [done|]. unfold U64_MAX, NANOS. lia.
Qed.

Lemma clamp_nanos x s d : rounded s d x \/ x = S754_infinity s -> exists ns, from_secs_f64 (clamp (literal 1 1000000) (literal 1 1) x) = Some ns /\ 1000 <= ns <= 1000000000.
Proof.
  intros Hx. unfold clamp. destruct (SFltb x (literal 1 1000000)) eqn:Hlo.
  { exists 1000. split; [by vm_compute|lia]. }
  destruct (SFltb (literal 1 1) x) eqn:Hhi; [exists 1000000000; split; [by vm_compute|lia]|].
  rewrite micro in Hlo. rewrite one in Hhi. destruct Hx as [Hx| ->]; [revert Hlo Hhi; destruct Hx as [H|H|m e Hb _]; intros Hlo Hhi|].
  - cbn in Hlo. discriminate.
  - destruct s; cbn in Hlo, Hhi; discriminate.
  - destruct s; [cbn in Hlo; discriminate|]. apply wait_nanos; [done|by rewrite micro|by rewrite one].
  - destruct s; cbn in Hlo, Hhi; discriminate.
Qed.

Lemma wait_rounded r floor t : good_rate r -> is_nan floor = false -> is_nan t = false -> SFleb floor t = false ->
  exists s d, rounded s d (fdiv (fsub floor t) r) \/ fdiv (fsub floor t) r = S754_infinity s.
Proof.
  intros Hr Hf Ht Hlt. destruct r as [| | |[] mr er]; try done.
  assert (Hsub : is_nan (fsub floor t) = false).
  { unfold fsub, SFsub. destruct floor as [[]|[]| |s1 m1 e1], t as [[]|[]| |s2 m2 e2]; try done. unfold binary_normalize. destruct (_ - _)%Z; [done|eapply rounded_not_nan, binary_round_spec..]. }
  destruct (fsub floor t) as [s|s| |s m e]; [exists (xorb s false), (-2000); left; by apply rounded_zero|exists (xorb s false), 0; by right|done|].
  destruct (fdiv_rounded s m e false mr er) as (d & Hd & _). exists (xorb s false), d. by left.
Qed.

Lemma floor_not_nan r : good_rate r -> is_nan (fmul (SFopp r) GRANULARITY) = false.
Proof. destruct r as [| | |[] m e]; try done. intros _. unfold fmul, SFmul, GRANULARITY. assert (Hg : literal 1 1000 = S754_finite false 4611686018427388 (-62)) by (by vm_compute). rewrite Hg. cbn [SFopp negb]. apply round_never_nan. lia. Qed.

(** The next packet goes now or at most a second from now, and nothing
    panics. *)
Lemma next_send_time_ok instant_max now r p : ok p -> good_rate r -> now + NANOS <= instant_max ->
  exists w, next_send_time instant_max now r p = Some (w, refill now r p) /\
    (w = None <-> SFleb (fmul (SFopp r) GRANULARITY) (tokens (refill now r p)) = true) /\
    (forall t, w = Some t -> now + 1000 <= t <= now + NANOS).
Proof.
  intros Hp Hr Hi. unfold next_send_time. destruct (refill_ok now r p Hp) as [Hn _]. set (q := refill now r p) in *. destruct (SFleb _ _) eqn:Hle; [by exists None|].
  destruct (wait_rounded r _ _ Hr (floor_not_nan r Hr) Hn Hle) as (s & d & Hx). destruct (clamp_nanos _ _ _ Hx) as (ns & -> & Hns). unfold NANOS in *.
  rewrite (proj2 (Z.leb_le _ _)) by lia. exists (Some (now + ns)). split; [done|]. split; [done|]. intros t [= <-]. lia.
Qed.

(** After a refill the bucket holds no more than a burst. *)
Lemma refill_burst now r p l : ok p -> last p = Some l -> SFltb (burst (max_datagram_size p)) (tokens (refill now r p)) = false.
Proof.
  intros [Hn Hm] Hl. unfold refill. rewrite Hl. cbn [tokens]. set (x := fadd _ _). assert (Hb := burst_not_nan _ Hm). set (y := burst _) in *. unfold fmin.
  assert (Hself : SFltb y y = false). { unfold SFltb. destruct y as [| [] | |[] m e]; try done; cbn [SFcompare]; rewrite Z.compare_refl; change (Pos.compare_cont Eq m m) with (m ?= m)%positive; by rewrite Pos.compare_refl. }
  destruct (is_nan x); [done|]. rewrite Hb. by destruct (SFltb y x) eqn:Hx.
Qed.

(** ** What a connection does with a pacer *)

Inductive event : Type :=
| SentAt (now bytes window rtt : Z) (slow_start : bool)
| Asked (now window rtt : Z) (slow_start : bool)
| Datagram (size : Z).

Definition apply (p : Pacer) (e : event) : Pacer :=
  match e with
  | SentAt now bytes window rtt ss => on_sent now bytes (rate window rtt ss) p
  | Asked now window rtt ss => refill now (rate window rtt ss) p
  | Datagram size => set_max_datagram_size size p
  end.

Definition fits (e : event) : Prop :=
  match e with SentAt _ bytes _ _ _ => 0 <= bytes <= U64_MAX | Asked _ _ _ _ => True | Datagram size => 0 <= size <= U64_MAX end.

Definition run (p : Pacer) (es : list event) : Pacer := fold_left apply es p.

Lemma pacer_run_ok p es : ok p -> Forall fits es -> ok (run p es).
Proof.
  revert p. induction es as [|e es IH]; intros p Hp Hf; [done|]. apply Forall_cons in Hf as [He Hf]. apply IH; [|done].
  destruct e as [now bytes w rtt ss|now w rtt ss|size]; cbn [apply fits] in *; [by apply on_sent_ok|by apply refill_ok|]. by split; [apply Hp|].
Qed.


(** Eleven packets at once, at 1200 bytes per 100 ms: the next goes later. *)
Definition pacer_example : list event := repeat (SentAt 0 1200 1200 100000000 false) 11.

