(* ===== verification/Recovery.v ===== *)
(** Loss detection: [pratique/src/quic/recovery.rs].

    What was sent in each packet number space is kept until an acknowledgment
    or a loss settles it.  Times ([Instant]) and durations ([Duration]) are
    numbers of nanoseconds; the arithmetic of durations panics where [std]'s
    does, or saturates where the code says so, and an [Instant] goes no
    further than [instant_max].  What the connection stores with a packet is
    of any type [T]. *)

From Stdlib Require Import ZArith Lia SpecFloat.
From stdpp Require Import base option numbers list.
From S2P Require Import Prelude BTree Slice Float Congestion Pacer.

#[local] Open Scope Z_scope.

(** ** Durations and instants *)

(** [a + b] and [a * n] on durations: a panic past [Duration::MAX]. *)
Definition dur_add (a b : Z) : result fault Z := if a + b <=? DURATION_MAX then Ok (a + b) else Err Panic.
Definition dur_mul (a n : Z) : result fault Z := if a * n <=? DURATION_MAX then Ok (a * n) else Err Panic.

(** [a - b]: a panic below zero. *)
Definition dur_sub (a b : Z) : result fault Z := if b <=? a then Ok (a - b) else Err Panic.

Definition millis (n : Z) : Z := n * 1000000.
Definition secs (n : Z) : Z := n * NANOS.

(** The low 32 bits. *)
Definition u32 (x : Z) : Z := x mod (U32_MAX + 1).

Definition PACKET_THRESHOLD : Z := 3.
Definition GRANULARITY : Z := millis 1.
Definition INITIAL_RTT : Z := millis 333.
Definition PERSISTENT_CONGESTION_THRESHOLD : Z := 3.
Definition MAX_RTT : Z := secs 60.

(** ** Packet number spaces *)

Inductive Space : Type := Initial | Handshake | Application.

#[export] Instance space_eq_dec : EqDecision Space.
Proof. solve_decision. Defined.

Definition ALL : list Space := [Initial; Handshake; Application].

Section recovery.
(** The furthest [Instant], and what the connection stores with a packet. *)
Context (instant_max : Z) {T : Type}.

Definition later (t d : Z) : Z :=
  if t + d <=? instant_max then t + d
  else if t + secs (2 ^ 32) <=? instant_max then t + secs (2 ^ 32)
  else t.

Record Sent := mk_sent {
  pn : Z;
  time : Z;
  size : Z;
  ack_eliciting : bool;
  in_flight : bool;
  payload : T;
}.

Record SpaceState := mk_space {
  sent : list (Z * Sent);
  largest_acked : option Z;
  loss_time : option Z;
  last_ack_eliciting : option Z;
  ack_eliciting_in_flight : Z;
}.

Definition new_space : SpaceState := mk_space [] None None None 0.

(** [[SpaceState<T>; 3]]. *)
Record Spaces := mk_spaces { sp_initial : SpaceState; sp_handshake : SpaceState; sp_application : SpaceState }.

Definition at_space (ss : Spaces) (sp : Space) : SpaceState :=
  match sp with Initial => sp_initial ss | Handshake => sp_handshake ss | Application => sp_application ss end.

Definition put_space (sp : Space) (s : SpaceState) (ss : Spaces) : Spaces :=
  match sp with
  | Initial => mk_spaces s (sp_handshake ss) (sp_application ss)
  | Handshake => mk_spaces (sp_initial ss) s (sp_application ss)
  | Application => mk_spaces (sp_initial ss) (sp_handshake ss) s
  end.

Record Rtt := mk_rtt {
  latest_rtt : Z;
  smoothed_rtt : Z;
  rttvar : Z;
  min_rtt : Z;
  first_rtt_sample : option Z;
}.

(** The fields of [Recovery], those of the estimate in a record of their own. *)
Record Recovery := mk_recovery {
  rtt : Rtt;
  max_ack_delay : Z;
  handshake_confirmed : bool;
  handshake_acked : bool;
  handshake_keys : bool;
  pto_count : Z;
  timer : option Z;
  spaces : Spaces;
  cc : NewReno;
  pacer : Pacer;
}.

Definition with_rtt v r := mk_recovery v (max_ack_delay r) (handshake_confirmed r) (handshake_acked r) (handshake_keys r) (pto_count r) (timer r) (spaces r) (cc r) (pacer r).
Definition with_delay v r := mk_recovery (rtt r) v (handshake_confirmed r) (handshake_acked r) (handshake_keys r) (pto_count r) (timer r) (spaces r) (cc r) (pacer r).
Definition with_confirmed v r := mk_recovery (rtt r) (max_ack_delay r) v (handshake_acked r) (handshake_keys r) (pto_count r) (timer r) (spaces r) (cc r) (pacer r).
Definition with_acked v r := mk_recovery (rtt r) (max_ack_delay r) (handshake_confirmed r) v (handshake_keys r) (pto_count r) (timer r) (spaces r) (cc r) (pacer r).
Definition with_keys v r := mk_recovery (rtt r) (max_ack_delay r) (handshake_confirmed r) (handshake_acked r) v (pto_count r) (timer r) (spaces r) (cc r) (pacer r).
Definition with_pto v r := mk_recovery (rtt r) (max_ack_delay r) (handshake_confirmed r) (handshake_acked r) (handshake_keys r) v (timer r) (spaces r) (cc r) (pacer r).
Definition with_timer v r := mk_recovery (rtt r) (max_ack_delay r) (handshake_confirmed r) (handshake_acked r) (handshake_keys r) (pto_count r) v (spaces r) (cc r) (pacer r).
Definition with_spaces v r := mk_recovery (rtt r) (max_ack_delay r) (handshake_confirmed r) (handshake_acked r) (handshake_keys r) (pto_count r) (timer r) v (cc r) (pacer r).
Definition with_cc v r := mk_recovery (rtt r) (max_ack_delay r) (handshake_confirmed r) (handshake_acked r) (handshake_keys r) (pto_count r) (timer r) (spaces r) v (pacer r).
Definition with_pacer v r := mk_recovery (rtt r) (max_ack_delay r) (handshake_confirmed r) (handshake_acked r) (handshake_keys r) (pto_count r) (timer r) (spaces r) (cc r) v.

(** [self.spaces[space.index()]], and what a method makes of it. *)
Definition space_of (r : Recovery) (sp : Space) : SpaceState := at_space (spaces r) sp.
Definition with_space (sp : Space) (s : SpaceState) (r : Recovery) : Recovery := with_spaces (put_space sp s (spaces r)) r.

Definition new (mds : Z) : Recovery :=
  mk_recovery (mk_rtt 0 INITIAL_RTT (INITIAL_RTT / 2) 0 None) (millis 25) false false false 0 None
    (mk_spaces new_space new_space new_space) (Congestion.new mds) (Pacer.new mds).

(** ** What is known *)

Definition pto_period (sp : Space) (r : Recovery) : result fault Z :=
  v ← dur_mul (rttvar (rtt r)) 4;
  base ← dur_add (smoothed_rtt (rtt r)) (Z.max v GRANULARITY);
  if decide (sp = Application) then dur_add base (max_ack_delay r) else Ok base.

Definition outstanding (sp : Space) (r : Recovery) : list Sent := List.map snd (sent (space_of r sp)).

(** ** The timer *)

Definition loss_time_and_space (r : Recovery) : option (Z * Space) :=
  fold_left (fun best sp =>
    match loss_time (space_of r sp) with
    | Some t => match best with Some (b, _) => if t <? b then Some (t, sp) else best | None => Some (t, sp) end
    | None => best
    end) ALL None.

Definition any_ack_eliciting_in_flight (r : Recovery) : bool :=
  existsb (fun sp => 0 <? ack_eliciting_in_flight (space_of r sp)) ALL.

Definition peer_completed_address_validation (r : Recovery) : bool := handshake_confirmed r || handshake_acked r.

Definition backoff (r : Recovery) : Z := 2 ^ Z.min (pto_count r) 20.

(** The base of the probe timeout, its sums saturating. *)
Definition pto_base (r : Recovery) : Z :=
  sat_add DURATION_MAX (smoothed_rtt (rtt r)) (Z.max (sat_mul DURATION_MAX (rttvar (rtt r)) 4) GRANULARITY).

(** The space of a probe with nothing in flight. *)
Definition probe_space (r : Recovery) : Space := if handshake_keys r then Handshake else Initial.

(** The loop of [pto_time_and_space], which returns early at Application Data. *)
Fixpoint pto_loop (r : Recovery) (sps : list Space) (best : option (Z * Space)) : option (Z * Space) :=
  match sps with
  | [] => best
  | sp :: sps' =>
      let s := space_of r sp in
      if ack_eliciting_in_flight s =? 0 then pto_loop r sps' best
      else if bool_decide (sp = Application) && negb (handshake_confirmed r) then best
      else
        let d := sat_mul DURATION_MAX (pto_base r) (backoff r) in
        let d := if decide (sp = Application) then sat_add DURATION_MAX d (sat_mul DURATION_MAX (max_ack_delay r) (backoff r)) else d in
        match last_ack_eliciting s with
        | None => pto_loop r sps' best
        | Some l =>
            let t := later l d in
            pto_loop r sps' match best with Some (b, _) => if t <? b then Some (t, sp) else best | None => Some (t, sp) end
        end
  end.

Definition pto_time_and_space (now : Z) (r : Recovery) : option (Z * Space) :=
  if negb (any_ack_eliciting_in_flight r)
  then Some (later now (sat_mul DURATION_MAX (pto_base r) (backoff r)), probe_space r)
  else pto_loop r ALL None.

Definition set_timer (now : Z) (r : Recovery) : Recovery :=
  match loss_time_and_space r with
  | Some (t, _) => with_timer (Some t) r
  | None =>
      if negb (any_ack_eliciting_in_flight r) && peer_completed_address_validation r then with_timer None r
      else with_timer (fst <$> pto_time_and_space now r) r
  end.

(** ** What the connection tells *)

Definition set_max_ack_delay (d : Z) (r : Recovery) : Recovery := with_delay d r.
Definition set_handshake_keys (have : bool) (r : Recovery) : Recovery := with_keys have r.
Definition on_handshake_confirmed (now : Z) (r : Recovery) : Recovery := set_timer now (with_confirmed true r).

Definition set_max_datagram_size (n : Z) (r : Recovery) : Recovery :=
  with_pacer (Pacer.set_max_datagram_size n (pacer r)) (with_cc (Congestion.set_max_datagram_size n (cc r)) r).

Definition pacing_rate (r : Recovery) : spec_float := Pacer.rate (window (cc r)) (smoothed_rtt (rtt r)) (in_slow_start (cc r)).

Definition on_packet_sent (now : Z) (sp : Space) (p : Sent) (r : Recovery) : Recovery :=
  let s := space_of r sp in
  if in_flight p then
    let s := if ack_eliciting p
             then mk_space (sent s) (largest_acked s) (loss_time s) (Some now) (u64 (ack_eliciting_in_flight s + 1)) else s in
    let s := mk_space (BTree.insert (pn p) p (sent s)) (largest_acked s) (loss_time s) (last_ack_eliciting s) (ack_eliciting_in_flight s) in
    let r := with_space sp s r in
    let r := with_cc (Congestion.on_sent (size p) (cc r)) r in
    let r := with_pacer (Pacer.on_sent now (size p) (pacing_rate r) (pacer r)) r in
    set_timer now r
  else with_space sp (mk_space (BTree.insert (pn p) p (sent s)) (largest_acked s) (loss_time s) (last_ack_eliciting s) (ack_eliciting_in_flight s)) r.

Definition next_send_time (now : Z) (r : Recovery) : result fault (option Z * Recovery) :=
  match Pacer.next_send_time instant_max now (pacing_rate r) (pacer r) with
  | Some (w, p) => Ok (w, with_pacer p r)
  | None => Err Panic
  end.

(** ** The estimate of the round trip *)

Definition update_rtt (now delay : Z) (r : Recovery) : result fault Recovery :=
  let e := rtt r in
  match first_rtt_sample e with
  | None => Ok (with_rtt (mk_rtt (latest_rtt e) (latest_rtt e) (latest_rtt e / 2) (latest_rtt e) (Some now)) r)
  | Some first =>
      let min_rtt := Z.min (min_rtt e) (latest_rtt e) in
      let delay := if handshake_confirmed r then Z.min delay (max_ack_delay r) else delay in
      limit ← dur_add min_rtt delay;
      adjusted ← if limit <=? latest_rtt e then dur_sub (latest_rtt e) delay else Ok (latest_rtt e);
      deviation ← if adjusted <? smoothed_rtt e then dur_sub (smoothed_rtt e) adjusted else dur_sub adjusted (smoothed_rtt e);
      v3 ← dur_mul (rttvar e) 3;
      v ← dur_add (v3 / 4) (deviation / 4);
      s7 ← dur_mul (smoothed_rtt e) 7;
      s ← dur_add (s7 / 8) (adjusted / 8);
      Ok (with_rtt (mk_rtt (latest_rtt e) s v min_rtt (Some first)) r)
  end.

(** ** Loss *)

(** How long ago a packet may have been sent before it is lost. *)
Definition loss_delay (e : Rtt) : result fault Z :=
  d ← dur_mul (Z.max (latest_rtt e) (smoothed_rtt e)) 9; Ok (Z.max (d / 8) GRANULARITY).

Definition is_lost (now delay largest : Z) (k : Z) (p : Sent) : bool :=
  (delay <=? since now (time p)) || (u64 (k + PACKET_THRESHOLD) <=? largest).

(** The loop of [detect_lost]: the packet numbers that are lost, and the
    earliest time at which one of the others is. *)
Definition scan_lost (now delay largest : Z) (es : list (Z * Sent)) : list Z * option Z :=
  fold_left (fun '(pns, t) '(k, p) =>
    if is_lost now delay largest k p then (pns ++ [k], t)
    else (pns, Some match t with Some l => Z.min l (later (time p) delay) | None => later (time p) delay end)) es ([], None).

(** Removes listed packets: a panic if one is not there. *)
Fixpoint remove_all (ks : list Z) (m : list (Z * Sent)) : result fault (list Sent * list (Z * Sent)) :=
  match ks with
  | [] => Ok ([], m)
  | k :: ks' =>
      match BTree.get k m with
      | None => Err Panic
      | Some p => '(ps, m') ← remove_all ks' (BTree.remove k m); Ok (p :: ps, m')
      end
  end.

Definition detect_lost (now : Z) (sp : Space) (r : Recovery) : result fault (list Sent * Recovery) :=
  let s := space_of r sp in
  match largest_acked s with
  | None => Ok ([], with_space sp (mk_space (sent s) None None (last_ack_eliciting s) (ack_eliciting_in_flight s)) r)
  | Some largest =>
      delay ← loss_delay (rtt r);
      let '(pns, t) := scan_lost now delay largest (List.filter (fun e => fst e <=? largest) (sent s)) in
      '(lost, m) ← remove_all pns (sent s);
      let n := Z.of_nat (length (List.filter (fun p => in_flight p && ack_eliciting p) lost)) in
      Ok (lost, with_space sp (mk_space m (Some largest) t (last_ack_eliciting s) (u64 (ack_eliciting_in_flight s - n))) r)
  end.

(** The loop of [in_persistent_congestion], from a packet on. *)
Fixpoint persistent_loop (first_sample duration : Z) (run_start last_pn : option Z) (lost : list Sent) : bool :=
  match lost with
  | [] => false
  | p :: lost' =>
      let run_start := if match last_pn with Some l => negb (pn p =? u64 (l + 1)) | None => false end then None else run_start in
      if ack_eliciting p && (first_sample <? time p) then
        match run_start with
        | None => persistent_loop first_sample duration (Some (time p)) (Some (pn p)) lost'
        | Some start =>
            if duration <? since (time p) start then true
            else persistent_loop first_sample duration (Some start) (Some (pn p)) lost'
        end
      else persistent_loop first_sample duration run_start (Some (pn p)) lost'
  end.

Definition persistent_duration (r : Recovery) : result fault Z :=
  v ← dur_mul (rttvar (rtt r)) 4;
  a ← dur_add (smoothed_rtt (rtt r)) (Z.max v GRANULARITY);
  b ← dur_add a (max_ack_delay r);
  dur_mul b PERSISTENT_CONGESTION_THRESHOLD.

Definition in_persistent_congestion (lost : list Sent) (r : Recovery) : result fault bool :=
  match first_rtt_sample (rtt r) with
  | None => Ok false
  | Some first_sample => d ← persistent_duration r; Ok (persistent_loop first_sample d None None lost)
  end.

Definition on_packets_lost (now : Z) (lost : list Sent) (r : Recovery) : result fault Recovery :=
  let '(c, last_sent) := fold_left (fun '(c, l) p =>
    if in_flight p then (Congestion.on_lost (size p) c, Some match l with Some l => Z.max l (time p) | None => time p end) else (c, l)) lost (cc r, None) in
  let c := match last_sent with Some t => snd (on_congestion_event now t c) | None => c end in
  let r := with_cc c r in
  persistent ← in_persistent_congestion lost r;
  Ok (if persistent : bool then with_cc (on_persistent_congestion (cc r)) r else r).

(** ** Acknowledgments *)

(** [sort_by_key(|p| p.pn)], which is stable. *)
Fixpoint insert_by_pn (p : Sent) (l : list Sent) : list Sent :=
  match l with
  | [] => [p]
  | q :: l' => if pn p <=? pn q then p :: l else q :: insert_by_pn p l'
  end.

Definition sort_by_pn (l : list Sent) : list Sent := foldr insert_by_pn [] l.

(** Takes the packets of the ranges out of the map; [BTreeMap::range] panics
    at a range that ends before it starts. *)
Fixpoint take_ranges (ranges : list (Z * Z)) (m : list (Z * Sent)) : result fault (list Sent * list (Z * Sent)) :=
  match ranges with
  | [] => Ok ([], m)
  | (a, b) :: rs =>
      if b <? a then Err Panic
      else
        '(ps, m) ← remove_all (List.map fst (BTree.range_incl a b m)) m;
        '(qs, m) ← take_ranges rs m;
        Ok (ps ++ qs, m)
  end.

(** The loop over the acknowledged packets. *)
Definition ack_counted (sp : Space) (before : Z) (r : Recovery) (p : Sent) : Recovery :=
  if in_flight p then
    let r := with_cc (Congestion.on_acked (size p) (time p) before (cc r)) r in
    if ack_eliciting p then
      let s := space_of r sp in
      with_space sp (mk_space (sent s) (largest_acked s) (loss_time s) (last_ack_eliciting s) (u64 (ack_eliciting_in_flight s - 1))) r
    else r
  else r.

Definition sample_rtt (now : Z) (sp : Space) (largest delay : Z) (acked : list Sent) (newest : Sent) (r : Recovery) : result fault Recovery :=
  if (pn newest =? largest) && existsb ack_eliciting acked then
    let e := rtt r in
    let r := with_rtt (mk_rtt (Z.min (since now (time newest)) MAX_RTT) (smoothed_rtt e) (rttvar e) (min_rtt e) (first_rtt_sample e)) r in
    update_rtt now (if decide (sp = Initial) then 0 else delay) r
  else Ok r.

Definition on_ack_received (now : Z) (sp : Space) (largest delay : Z) (ranges : list (Z * Z)) (r : Recovery)
    : result fault (list Sent * list Sent * Recovery) :=
  let s := space_of r sp in
  let largest' := match largest_acked s with Some p => Z.max p largest | None => largest end in
  '(acked, m) ← take_ranges ranges (sent s);
  let r := with_space sp (mk_space m (Some largest') (loss_time s) (last_ack_eliciting s) (ack_eliciting_in_flight s)) r in
  let acked := sort_by_pn acked in
  match list.last acked with
  | None => Ok ([], [], r)
  | Some newest =>
      r ← sample_rtt now sp largest delay acked newest r;
      let r := if decide (sp = Handshake) then with_acked true r else r in
      let before := Congestion.in_flight (cc r) in
      '(lost, r) ← detect_lost now sp r;
      r ← on_packets_lost now lost r;
      let r := fold_left (ack_counted sp before) acked r in
      let r := if peer_completed_address_validation r then with_pto 0 r else r in
      Ok (acked, lost, set_timer now r)
  end.

(** ** Timeouts, and giving up *)

Record Probe := mk_probe { space : Space; anti_deadlock : bool }.

Record Timeout := mk_timeout { lost_space : Space; timeout_lost : list Sent; probe : option Probe }.

Definition on_timeout (now : Z) (r : Recovery) : result fault (Timeout * Recovery) :=
  match loss_time_and_space r with
  | Some (_, sp) =>
      '(lost, r) ← detect_lost now sp r;
      r ← on_packets_lost now lost r;
      Ok (mk_timeout sp lost None, set_timer now r)
  | None =>
      let deadlock := negb (any_ack_eliciting_in_flight r) in
      (* [debug_assert!] *)
      _ ← if deadlock && peer_completed_address_validation r then Err Panic else Ok tt;
      let p := if deadlock then mk_probe (probe_space r) true
               else mk_probe match pto_time_and_space now r with Some (_, sp) => sp | None => Application end false in
      let r := with_pto (u32 (pto_count r + 1)) r in
      Ok (mk_timeout (space p) [] (Some p), set_timer now r)
  end.

Definition discard_space (now : Z) (sp : Space) (r : Recovery) : list Sent * Recovery :=
  let gone := outstanding sp r in
  let bytes := fold_left (fun n p => u64 (n + size p)) (List.filter in_flight gone) 0 in
  let r := with_cc (Congestion.on_discarded bytes (cc r)) (with_space sp new_space r) in
  let r := if decide (sp = Handshake) then with_keys false r else r in
  (gone, set_timer now (with_pto 0 r)).

Definition reset (first : option Z) (r : Recovery) : list Sent * Recovery :=
  let mds := Congestion.max_datagram_size (cc r) in
  let gone := List.concat (List.map (fun sp => outstanding sp r) ALL) in
  let e := rtt r in
  let e := match first with
           | Some f => let f := Z.min f MAX_RTT in mk_rtt (latest_rtt e) f (f / 2) (min_rtt e) (first_rtt_sample e)
           | None => e
           end in
  (gone, mk_recovery e (max_ack_delay r) (handshake_confirmed r) (handshake_acked r) (handshake_keys r) 0 None
           (mk_spaces new_space new_space new_space) (Congestion.new mds) (Pacer.new mds)).
End recovery.

(** The tests of the source, run. *)
Section examples.
#[local] Definition ms : Z -> Z := millis.
#[local] Definition pkt (n t : Z) : Sent := mk_sent n t 1200 true true tt.
#[local] Notation max := (2 ^ 80).

#[local] Definition sends (t : Z) (ns : list Z) (r : Recovery) : Recovery := fold_left (fun r n => on_packet_sent max t Application (pkt n t) r) ns r.

#[local] Definition established : result fault Recovery :=
  let r := on_handshake_confirmed max 0 (on_packet_sent max 0 Application (pkt 0 0) (new 1200)) in
  '(_, _, r) ← on_ack_received max (ms 100) Application 0 0 [(0, 0)] r; Ok r.

(** [a_packet_three_behind_the_largest_acknowledged_is_lost]. *)
Example three_behind :
  (r ← established;
   let r := sends (ms 200) [1; 2; 3; 4; 5; 6] r in
   '(acked, lost, r) ← on_ack_received max (ms 300) Application 5 0 [(5, 5)] r;
   let t := default 0 (timer r) in
   '(o, r') ← on_timeout max t r;
   Ok (List.map pn acked, List.map pn lost, t, List.map pn (timeout_lost o), ack_eliciting_in_flight (space_of r' Application)))
  = Ok ([5], [1; 2], 312500000, [3; 4], 1).
Proof. vm_compute. reflexivity. Qed.

(** [later_samples_are_smoothed_and_the_peers_delay_is_taken_off]. *)
Example smoothed :
  (r ← established;
   let r := sends (ms 200) [1] r in
   '(_, _, r) ← on_ack_received max (ms 380) Application 1 (ms 20) [(1, 1)] r;
   Ok (rtt r, pto_period Application r)) = Ok (mk_rtt (ms 180) 107500000 52500000 (ms 100) (Some (ms 100)), Ok 342500000).
Proof. vm_compute. reflexivity. Qed.
End examples.
