(* ===== verification/RecoveryOk.v ===== *)
(** What [Recovery] promises: every packet is settled once, losses are
    exactly those of the thresholds, the accounting matches what is
    outstanding, the timer is set when something waits for it, and nothing
    panics or overflows.

    [inv] is the invariant, [step] the calls a connection makes; the lemmas
    say what each call does to a state that satisfies it. *)

From Stdlib Require Import ZArith Lia SpecFloat.
From stdpp Require Import base option numbers list sorting.
From S2P Require Import Prelude BTree Slice Float Congestion Pacer Recovery.

#[local] Open Scope Z_scope.

(** ** Lists *)

Lemma lfilter_app {A} (P : A -> bool) l l' : List.filter P (l ++ l') = List.filter P l ++ List.filter P l'.
Proof. apply List.filter_app. Qed.

Lemma filter_filter {A} (P Q : A -> bool) l : List.filter P (List.filter Q l) = List.filter (fun x => Q x && P x) l.
Proof. induction l as [|x l IH]; [done|]. cbn [List.filter]. destruct (Q x); cbn [List.filter andb]; [destruct (P x); by rewrite IH|done]. Qed.

Lemma filter_ext_eq {A} (P Q : A -> bool) l : (forall x, x ∈ l -> P x = Q x) -> List.filter P l = List.filter Q l.
Proof. intros H. apply List.filter_ext_in. intros x Hx. apply H. by apply list_elem_of_In. Qed.

Lemma filter_all {A} (P : A -> bool) l : (forall x, x ∈ l -> P x = true) -> List.filter P l = l.
Proof.
  induction l as [|x l IH]; intros H; [done|]. cbn [List.filter]. rewrite (H x) by left. f_equal. apply IH. intros y Hy. apply H. by right.
Qed.

(** A map whose keys are in [a..n) has no more entries than there are keys. *)
Lemma sorted_length {V} (m : list (Z * V)) a n : sorted m -> (forall e, e ∈ m -> a <= fst e < n) -> a <= n -> Z.of_nat (length m) <= n - a.
Proof.
  revert a. induction m as [|e m IH]; intros a Hs Hk Han; cbn [length]; [lia|]. apply sorted_cons in Hs as [Hf Hs]. assert (He := Hk e ltac:(left)).
  rewrite Forall_forall in Hf. unfold key_lt in Hf. assert (H := IH (fst e + 1) Hs). cut (Z.of_nat (length m) <= n - (fst e + 1)); [lia|]. apply H; [|lia].
  intros e' He'. specialize (Hf e' He'). specialize (Hk e' ltac:(by right)). lia.
Qed.

Section recovery.
Context {T : Type}.
Implicit Types (m : list (Z * Sent (T:=T))) (ps l : list (Sent (T:=T))).

(** ** Taking packets out of the map *)

Lemma remove_all_filter (P : Z * Sent (T:=T) -> bool) pre m : sorted (pre ++ m) ->
  remove_all (List.map fst (List.filter P m)) (pre ++ m) = Ok (List.map snd (List.filter P m), pre ++ List.filter (fun e => negb (P e)) m).
Proof.
  revert pre. induction m as [|[k p] m IH]; intros pre Hs; [done|]. cbn [List.filter]. destruct (P (k, p)) eqn:HP; cbn [negb].
  - cbn [List.map remove_all fst]. rewrite (proj2 (get_in k p _ Hs)) by (apply elem_of_app; right; left).
    assert (Hr : BTree.remove k (pre ++ (k, p) :: m) = pre ++ m).
    { unfold BTree.remove. unfold sorted in Hs. apply StronglySorted_app in Hs as (Hpre & Hs1 & Hs2). apply sorted_cons in Hs2 as [Hf _]. rewrite Forall_forall in Hf.
      rewrite lfilter_app. cbn [List.filter fst]. rewrite Z.eqb_refl. cbn [negb]. f_equal; apply filter_all; intros e He; apply negb_true_iff, Z.eqb_neq.
      - specialize (Hpre e (k, p) He ltac:(left)). unfold key_lt in Hpre. cbn in Hpre. lia.
      - specialize (Hf e He). unfold key_lt in Hf. cbn in Hf. lia. }
    rewrite Hr. rewrite IH; [done|]. rewrite <- Hr. by apply remove_sorted.
  - specialize (IH (pre ++ [(k, p)])). rewrite <- !app_assoc in IH. apply IH. done.
Qed.

Lemma remove_listed (P : Z * Sent (T:=T) -> bool) m : sorted m ->
  remove_all (List.map fst (List.filter P m)) m = Ok (List.map snd (List.filter P m), List.filter (fun e => negb (P e)) m).
Proof. intros Hs. by apply (remove_all_filter P []). Qed.

Definition covered (ranges : list (Z * Z)) (k : Z) : bool := existsb (fun ab => (fst ab <=? k) && (k <=? snd ab)) ranges.

Lemma take_ranges_ok ranges m : sorted m -> Forall (fun ab => fst ab <= snd ab) ranges ->
  exists ps, take_ranges ranges m = Ok (ps, List.filter (fun e => negb (covered ranges (fst e))) m) /\
    ps ≡ₚ List.map snd (List.filter (fun e => covered ranges (fst e)) m).
Proof.
  revert m. induction ranges as [|[a b] rs IH]; intros m Hs Hf.
  - exists []. cbn [take_ranges covered existsb negb]. rewrite (filter_all (fun _ => true)) by done. by rewrite (filter_none (fun _ => false)) by done.
  - apply Forall_cons in Hf as [Hab Hf]. cbn [fst snd] in Hab. cbn [take_ranges]. rewrite (proj2 (Z.ltb_ge b a)) by lia. set (P := fun e : Z * Sent (T:=T) => (a <=? fst e) && (fst e <=? b)).
    change (range_incl a b m) with (List.filter P m). rewrite (remove_listed P) by done. cbn [mbind result_bind]. destruct (IH (List.filter (fun e => negb (P e)) m) (filter_sorted _ _ Hs) Hf) as (qs & -> & Hqs).
    cbn [mbind result_bind]. eexists. split; [|].
    + f_equal. f_equal. rewrite filter_filter. apply filter_ext_eq. intros e _. cbn [covered existsb fst snd]. fold (covered rs (fst e)). unfold P. by rewrite negb_orb.
    + rewrite Hqs. rewrite <- map_app. apply Permutation_map. rewrite filter_filter. rewrite <- (filter_split P (List.filter (fun e => covered ((a, b) :: rs) (fst e)) m)). rewrite !filter_filter. apply Permutation_app.
      * erewrite filter_ext_eq; [done|]. intros e _. cbn [covered existsb fst snd]. fold (covered rs (fst e)). unfold P. by destruct ((a <=? fst e) && (fst e <=? b)), (covered rs (fst e)).
      * erewrite filter_ext_eq; [done|]. intros e _. cbn [covered existsb fst snd]. fold (covered rs (fst e)). unfold P. by destruct ((a <=? fst e) && (fst e <=? b)), (covered rs (fst e)).
Qed.

(** *** Sorting by packet number *)

Definition pn_lt (p q : Sent (T:=T)) : Prop := pn p < pn q.

Lemma insert_by_pn_perm p l : insert_by_pn p l ≡ₚ p :: l.
Proof. induction l as [|q l IH]; [done|]. cbn [insert_by_pn]. destruct (_ <=? _); [done|]. rewrite IH. apply Permutation_swap. Qed.

Lemma sort_by_pn_perm l : sort_by_pn l ≡ₚ l.
Proof. induction l as [|p l IH]; [done|]. cbn [sort_by_pn foldr]. fold (sort_by_pn l). by rewrite insert_by_pn_perm, IH. Qed.

Lemma sort_by_pn_sorted l : StronglySorted (fun p q : Sent => pn p <= pn q) (sort_by_pn l).
Proof.
  induction l as [|p l IH]; [constructor|]. cbn [sort_by_pn foldr]. fold (sort_by_pn l). induction IH as [|q l' Hs IH Hf]; [repeat constructor|]. cbn [insert_by_pn]. destruct (Z.leb_spec (pn p) (pn q)).
  - constructor; [by constructor|]. constructor; [done|]. eapply Forall_impl; [exact Hf|]. cbn. intros. lia.
  - constructor; [done|]. apply Forall_forall. intros x Hx. rewrite insert_by_pn_perm in Hx. apply elem_of_cons in Hx as [->|Hx]; [lia|]. rewrite Forall_forall in Hf. by apply Hf.
Qed.

(** Sorting gives the only list of the same packets that is in order. *)
Lemma sort_by_pn_unique l l' : StronglySorted pn_lt l' -> l ≡ₚ l' -> sort_by_pn l = l'.
Proof.
  intros Hs Hp. assert (H := sort_by_pn_sorted l). rewrite <- (sort_by_pn_perm l) in Hp. revert l' Hs Hp. generalize dependent (sort_by_pn l). clear l. induction l as [|p l IH]; intros Hl l' Hs Hp.
  { by apply Permutation_nil_l in Hp. }
  destruct l' as [|q l']; [by apply Permutation_nil_r in Hp|]. apply StronglySorted_inv in Hl as [Hl Hfl], Hs as [Hs Hfs]. rewrite Forall_forall in Hfl, Hfs. unfold pn_lt in Hfs.
  assert (Heq : p = q).
  { assert (H1 : p ∈ q :: l') by (rewrite <- Hp; left). assert (H2 : q ∈ p :: l) by (rewrite Hp; left). apply elem_of_cons in H1 as [->|H1]; [done|]. apply elem_of_cons in H2 as [->|H2]; [done|].
    specialize (Hfl q H2). specialize (Hfs p H1). cbn in Hfl. lia. }
  subst q. f_equal. apply IH; [done..|]. by apply Permutation_cons_inv in Hp.
Qed.

(** ** The congestion controller *)

(** The controller with [out] bytes in flight, its window and what it
    gathers within a budget [B] that no sum overflows. *)
Record cc_ok (B out : Z) (c : NewReno) : Prop := mk_cc_ok {
  cco_mds : 1200 <= Congestion.max_datagram_size c <= 65535;
  cco_window : 2 * Congestion.max_datagram_size c <= window c;
  cco_avoidance : 0 <= acked_in_avoidance c;
  cco_budget : window c + acked_in_avoidance c + out <= B <= limit;
  cco_flight : Congestion.in_flight c = out;
  cco_out : 0 <= out;
}.

Lemma cc_new mds : 1200 <= mds <= 65535 -> cc_ok (2 ^ 18) 0 (Congestion.new mds).
Proof. intros H. destruct (nr_new_ok mds H) as [[H1 H2 H3 H4] Hw]. split; cbn in *; unfold limit in *; lia. Qed.

Lemma cc_sent B out n c : 0 <= n -> B + n <= limit -> cc_ok B out c -> cc_ok (B + n) (out + n) (Congestion.on_sent n c).
Proof. intros Hn HB [H1 H2 H3 H4 H5 H6]. split; cbn; try done; [lia| |lia]. rewrite H5. apply limit_u64. unfold limit in *. lia. Qed.

Lemma cc_lost B out n c : 0 <= n <= out -> cc_ok B out c -> cc_ok B (out - n) (Congestion.on_lost n c).
Proof. intros Hn [H1 H2 H3 H4 H5 H6]. split; cbn; try done; unfold sat_sub; lia. Qed.

Lemma cc_discarded B out n c : 0 <= n <= out -> cc_ok B out c -> cc_ok B (out - n) (on_discarded n c).
Proof. intros Hn [H1 H2 H3 H4 H5 H6]. split; cbn; try done; unfold sat_sub; lia. Qed.

Lemma cc_acked B out n sent before c : 0 <= n <= out -> cc_ok B out c -> cc_ok B (out - n) (on_acked n sent before c).
Proof.
  intros Hn [H1 H2 H3 H4 H5 H6]. unfold on_acked. set (c0 := mk_newreno _ _ _ _ _ _). destruct (_ || _); [split; cbn; try done; unfold sat_sub; lia|].
  destruct (in_slow_start c0); [|cbn [acked_in_avoidance c0]; destruct (_ <=? _) eqn:Hle; cleanb]; (split; cbn in *; try done; rewrite ?limit_u64 in * by (unfold limit in *; lia); unfold sat_sub; lia).
Qed.

Lemma cc_congestion B out now sent c : cc_ok B out c -> cc_ok B out (snd (on_congestion_event now sent c)).
Proof.
  intros [H1 H2 H3 H4 H5 H6]. unfold on_congestion_event, LOSS_REDUCTION_DEN, LOSS_REDUCTION_NUM. destruct (in_recovery sent c); [done|]. rewrite minimum_window_ok by done.
  assert (H := Z.div_mod (window c) 2 ltac:(lia)). assert (H' := Z.mod_pos_bound (window c) 2 ltac:(lia)). split; cbn; try done; lia.
Qed.

Lemma cc_persistent B out c : cc_ok B out c -> cc_ok B out (on_persistent_congestion c).
Proof. intros [H1 H2 H3 H4 H5 H6]. unfold on_persistent_congestion. rewrite minimum_window_ok by done. split; cbn; try done; lia. Qed.

Lemma cc_datagram B out n c : 1200 <= n <= 65535 -> B + 2 ^ 17 <= limit -> cc_ok B out c -> cc_ok (B + 2 ^ 17) out (Congestion.set_max_datagram_size n c).
Proof. intros Hn HB [H1 H2 H3 H4 H5 H6]. unfold Congestion.set_max_datagram_size. rewrite minimum_window_ok by done. split; cbn; try done; lia. Qed.

(** ** The state *)

Implicit Types (r : Recovery (T:=T)) (s : SpaceState (T:=T)).

Definition bytes_of (p : Sent (T:=T)) : Z := if in_flight p then size p else 0.
Definition eliciting (p : Sent (T:=T)) : bool := in_flight p && ack_eliciting p.
Definition bytes_in m : Z := total bytes_of (List.map snd m).
Definition eliciting_in m : Z := total (fun p => b2z (eliciting p)) (List.map snd m).

(** What is kept of a space: a packet is under its number, sizes are those of
    datagrams. *)
Definition packets_ok m : Prop := sorted m /\ forall k p, (k, p) ∈ m -> pn p = k /\ 0 <= k < 2 ^ 62 /\ 0 <= size p <= 65535.

Record space_ok s : Prop := mk_space_ok {
  so_packets : packets_ok (sent s);
  so_count : ack_eliciting_in_flight s = eliciting_in (sent s);
  so_last : 0 < ack_eliciting_in_flight s -> is_Some (last_ack_eliciting s);
  so_largest : forall n, largest_acked s = Some n -> 0 <= n < 2 ^ 62;
  so_loss : is_Some (loss_time s) -> is_Some (largest_acked s);
}.

Record rtt_ok (e : Rtt) : Prop := mk_rtt_ok {
  ro_latest : 0 <= latest_rtt e <= MAX_RTT;
  ro_smoothed : 0 <= smoothed_rtt e <= MAX_RTT;
  ro_var : 0 <= rttvar e <= MAX_RTT;
  ro_min : 0 <= min_rtt e <= MAX_RTT;
}.

Definition flight r : Z := total (fun sp => bytes_in (sent (space_of r sp))) ALL.

(** Something is in flight that has a probe timeout. *)
Definition probing r : bool :=
  (0 <? ack_eliciting_in_flight (space_of r Initial)) || (0 <? ack_eliciting_in_flight (space_of r Handshake)) ||
  (handshake_confirmed r && (0 <? ack_eliciting_in_flight (space_of r Application))).

Definition timer_ok r : Prop :=
  match loss_time_and_space r with
  | Some (t, _) => timer r = Some t
  | None =>
      (is_Some (timer r) -> any_ack_eliciting_in_flight r = true \/ peer_completed_address_validation r = false) /\
      (probing r = true -> is_Some (timer r))
  end.

Record core (B out : Z) r : Prop := mk_core {
  co_rtt : rtt_ok (rtt r);
  co_delay : 0 <= max_ack_delay r <= millis (2 ^ 14);
  co_pto : 0 <= pto_count r <= U32_MAX;
  co_cc : cc_ok B out (cc r);
  co_pacer : Pacer.ok (pacer r);
}.

Record inv (B : Z) r : Prop := mk_inv {
  inv_core : core B (flight r) r;
  inv_spaces : forall sp, space_ok (space_of r sp);
  inv_timer : timer_ok r;
}.

(** *** Reading and writing the state *)

Lemma space_of_same sp s r : space_of (with_space sp s r) sp = s.
Proof. by destruct sp. Qed.

Lemma space_of_other sp sp' s r : sp <> sp' -> space_of (with_space sp s r) sp' = space_of r sp'.
Proof. by destruct sp, sp'. Qed.

Lemma with_space_twice sp s s' r : with_space sp s (with_space sp s' r) = with_space sp s r.
Proof. by destruct sp. Qed.

Lemma with_space_eta sp r : with_space sp (space_of r sp) r = r.
Proof. destruct r as [? ? ? ? ? ? ? [] ? ?]. by destruct sp. Qed.

Lemma with_cc_eta r : with_cc (cc r) r = r.
Proof. by destruct r. Qed.

Lemma flight_with sp s r : flight (with_space sp s r) = flight r - bytes_in (sent (space_of r sp)) + bytes_in (sent s).
Proof. unfold flight. cbn [total foldr ALL]. destruct sp; unfold space_of, with_space; cbn; lia. Qed.

Lemma flight_same r r' : (forall sp, space_of r' sp = space_of r sp) -> flight r' = flight r.
Proof. intros H. unfold flight. cbn [total foldr ALL]. by rewrite !H. Qed.

Lemma bytes_split (P : Z * Sent (T:=T) -> bool) m : bytes_in m = total bytes_of (List.map snd (List.filter P m)) + bytes_in (List.filter (fun e => negb (P e)) m).
Proof. unfold bytes_in. rewrite <- total_app, <- map_app. apply total_perm, Permutation_map. by rewrite filter_split. Qed.

Lemma eliciting_split (P : Z * Sent (T:=T) -> bool) m :
  eliciting_in m = total (fun p => b2z (eliciting p)) (List.map snd (List.filter P m)) + eliciting_in (List.filter (fun e => negb (P e)) m).
Proof. unfold eliciting_in. rewrite <- total_app, <- map_app. apply total_perm, Permutation_map. by rewrite filter_split. Qed.

Lemma packets_filter P m : packets_ok m -> packets_ok (List.filter P m).
Proof. intros [Hs Hp]. split; [by apply filter_sorted|]. intros k p Hin. apply filter_in in Hin as [Hin _]. by apply Hp. Qed.

Lemma packets_sizes m p : packets_ok m -> p ∈ List.map snd m -> 0 <= bytes_of p <= 65535.
Proof.
  intros [_ Hp] Hin. apply list_elem_of_In, in_map_iff in Hin as ([k q] & <- & Hin). apply list_elem_of_In in Hin. destruct (Hp k q Hin) as (_ & _ & Hq). cbn. unfold bytes_of. destruct (in_flight q); lia.
Qed.

Lemma bytes_nonneg m : packets_ok m -> 0 <= bytes_in m.
Proof. intros Hm. apply measure_nonneg. intros p Hp. by apply (packets_sizes m). Qed.

Lemma eliciting_bound m : packets_ok m -> 0 <= eliciting_in m <= 2 ^ 62.
Proof.
  intros [Hs Hp]. split.
  - apply measure_nonneg. intros p _. assert (H := b2z_range (eliciting p)). lia.
  - unfold eliciting_in. assert (H := total_le_length eliciting (List.map snd m)). rewrite length_map in H.
    assert (Hl := sorted_length m 0 (2 ^ 62) Hs). etransitivity; [exact H|]. rewrite Z.sub_0_r in Hl. apply Hl; [|lia]. intros [k p] Hin. by apply (Hp k p).
Qed.

Lemma packets_pns m : packets_ok m -> StronglySorted pn_lt (List.map snd m).
Proof.
  intros [Hs Hp]. induction m as [|[k p] m IH]; [constructor|]. apply sorted_cons in Hs as [Hf Hs]. cbn [List.map snd]. constructor.
  - apply IH; [done|]. intros k' p' Hin. apply Hp. by right.
  - apply Forall_forall. intros q Hq. pose proof (proj1 (Forall_forall _ _) Hf) as Hf'. apply list_elem_of_In, in_map_iff in Hq as ([k' q'] & <- & Hq). apply list_elem_of_In in Hq.
    specialize (Hf' _ Hq). unfold key_lt in Hf'. cbn in Hf'. unfold pn_lt. cbn. destruct (Hp k p) as (-> & _); [left|]. destruct (Hp k' q') as (-> & _); [by right|]. done.
Qed.
End recovery.

Section operations.
Context (instant_max : Z) {T : Type}.
Implicit Types (m : list (Z * Sent (T:=T))) (r : Recovery (T:=T)) (s : SpaceState (T:=T)).

(** ** The timer *)

Lemma set_timer_eq now r : exists t, set_timer instant_max now r = with_timer t r.
Proof. unfold set_timer. destruct (loss_time_and_space r) as [[t sp]|]; [by exists (Some t)|]. destruct (_ && _); by eexists. Qed.

Lemma core_timer B out t r : core B out r -> core B out (with_timer t r).
Proof. by intros []. Qed.

Lemma pto_loop_some r sps best :
  (forall sp, 0 < ack_eliciting_in_flight (space_of r sp) -> is_Some (last_ack_eliciting (space_of r sp))) ->
  (forall sp, 0 <= ack_eliciting_in_flight (space_of r sp)) ->
  is_Some best -> is_Some (pto_loop instant_max r sps best).
Proof.
  intros Hl Hn. revert best. induction sps as [|sp sps IH]; intros best Hb; [done|]. cbn [pto_loop]. destruct (_ =? 0) eqn:E; [by apply IH|].
  destruct (_ && _); [done|]. destruct (last_ack_eliciting (space_of r sp)); [|by apply IH]. apply IH. destruct best as [[b ?]|]; [|done]. by destruct (_ <? b).
Qed.

Lemma pto_probing r :
  (forall sp, 0 < ack_eliciting_in_flight (space_of r sp) -> is_Some (last_ack_eliciting (space_of r sp))) ->
  (forall sp, 0 <= ack_eliciting_in_flight (space_of r sp)) ->
  probing r = true -> is_Some (pto_loop instant_max r ALL None).
Proof.
  intros Hl Hn Hp. unfold ALL. unfold probing in Hp.
  assert (Hstep : forall sp sps, 0 < ack_eliciting_in_flight (space_of r sp) -> bool_decide (sp = Application) && negb (handshake_confirmed r) = false -> is_Some (pto_loop instant_max r (sp :: sps) None)).
  { intros sp sps H0 Hb. cbn [pto_loop]. rewrite (proj2 (Z.eqb_neq _ 0)) by lia. rewrite Hb. destruct (Hl sp H0) as [l ->]. by apply pto_loop_some. }
  assert (Hskip : forall sp sps, 0 = ack_eliciting_in_flight (space_of r sp) -> pto_loop instant_max r (sp :: sps) None = pto_loop instant_max r sps None).
  { intros sp sps H0. cbn [pto_loop]. by rewrite <- H0. }
  destruct (Z.eq_dec (ack_eliciting_in_flight (space_of r Initial)) 0) as [H1|H1]; [|apply Hstep; [specialize (Hn Initial); lia|done]].
  rewrite Hskip by done. destruct (Z.eq_dec (ack_eliciting_in_flight (space_of r Handshake)) 0) as [H2|H2]; [|apply Hstep; [specialize (Hn Handshake); lia|done]].
  rewrite Hskip by done. rewrite H1, H2 in Hp. cbn in Hp. apply andb_true_iff in Hp as [Hc Hp]. cleanb. apply Hstep; [done|]. by rewrite Hc.
Qed.

Lemma loss_time_with_timer t r : loss_time_and_space (with_timer t r) = loss_time_and_space r.
Proof. done. Qed.

Lemma set_timer_inv B now r : core B (flight r) r -> (forall sp, space_ok (space_of r sp)) -> inv B (set_timer instant_max now r).
Proof.
  intros Hc Hs. assert (Hl : forall sp, 0 < ack_eliciting_in_flight (space_of r sp) -> is_Some (last_ack_eliciting (space_of r sp))) by (intros sp; apply (Hs sp)).
  assert (Hn : forall sp, 0 <= ack_eliciting_in_flight (space_of r sp)) by (intros sp; rewrite (so_count _ (Hs sp)); apply eliciting_bound, (Hs sp)).
  destruct (set_timer_eq now r) as [t Ht]. split; [rewrite Ht; by apply core_timer|by rewrite Ht|]. unfold timer_ok. rewrite Ht, loss_time_with_timer, <- Ht. unfold set_timer.
  destruct (loss_time_and_space r) as [[t' sp]|] eqn:Hlt; [done|].
  destruct (any_ack_eliciting_in_flight r) eqn:Ha; cbn [negb andb].
  - split; [intros _; left; exact Ha|]. intros Hp. unfold pto_time_and_space. rewrite Ha. cbn [negb timer with_timer]. destruct (pto_probing r Hl Hn Hp) as [x ->]. by eexists.
  - destruct (peer_completed_address_validation r) eqn:Hv.
    + split; [by intros []|]. intros Hp. exfalso. unfold any_ack_eliciting_in_flight, ALL in Ha. cbn [existsb] in Ha. change (probing r = true) in Hp. unfold probing in Hp.
      apply orb_false_iff in Ha as [H1 Ha], Ha as [H2 Ha], Ha as [H3 _]. rewrite H1, H2, H3, andb_false_r in Hp. done.
    + split; [intros _; right; exact Hv|]. intros _. unfold pto_time_and_space. rewrite Ha. by eexists.
Qed.

(** ** The estimate *)

Lemma dur_le x n : x <= DURATION_MAX -> x = n -> (if x <=? DURATION_MAX then Ok x else Err Panic) = Ok n :> result fault Z.
Proof. intros H <-. by rewrite (proj2 (Z.leb_le _ _)). Qed.

Lemma dur_add_ok a b : a + b <= DURATION_MAX -> dur_add a b = Ok (a + b).
Proof. intros H. by apply dur_le. Qed.

Lemma dur_mul_ok a n : a * n <= DURATION_MAX -> dur_mul a n = Ok (a * n).
Proof. intros H. by apply dur_le. Qed.

Lemma dur_sub_ok a b : b <= a -> dur_sub a b = Ok (a - b).
Proof. intros H. unfold dur_sub. by rewrite (proj2 (Z.leb_le _ _)). Qed.

(** A step of the moving averages. *)
Definition smooth (old new k : Z) : Z := old * (k - 1) / k + new / k.

Lemma smooth_bound old new k M : 2 <= k -> 0 <= old <= M -> 0 <= new <= M -> 0 <= smooth old new k <= M.
Proof.
  intros Hk Ho Hn. unfold smooth. assert (H1 : 0 <= old * (k - 1) / k) by (apply Z.div_pos; nia). assert (H2 : 0 <= new / k) by (apply Z.div_pos; lia).
  split; [lia|]. assert (Ha := Z.div_mod (old * (k - 1)) k ltac:(lia)). assert (Hb := Z.mod_pos_bound (old * (k - 1)) k ltac:(lia)).
  assert (Hc := Z.div_mod new k ltac:(lia)). assert (Hd := Z.mod_pos_bound new k ltac:(lia)). nia.
Qed.

(** What one sample makes of the estimate: the delay is taken off if that
    leaves no less than the smallest round trip seen. *)
Definition adjusted (delay : Z) (e : Rtt) : Z :=
  if Z.min (min_rtt e) (latest_rtt e) + delay <=? latest_rtt e then latest_rtt e - delay else latest_rtt e.

Definition updated (now delay : Z) (e : Rtt) : Rtt :=
  match first_rtt_sample e with
  | None => mk_rtt (latest_rtt e) (latest_rtt e) (latest_rtt e / 2) (latest_rtt e) (Some now)
  | Some first =>
      mk_rtt (latest_rtt e) (smooth (smoothed_rtt e) (adjusted delay e) 8) (smooth (rttvar e) (Z.abs (smoothed_rtt e - adjusted delay e)) 4)
        (Z.min (min_rtt e) (latest_rtt e)) (Some first)
  end.

(** The delay that counts: the peer's bound cuts it once the handshake is
    confirmed. *)
Definition counted_delay (delay : Z) r : Z := if handshake_confirmed r then Z.min delay (max_ack_delay r) else delay.

Lemma updated_ok now delay e : 0 <= delay -> rtt_ok e -> rtt_ok (updated now delay e) /\ 0 <= adjusted delay e <= MAX_RTT.
Proof.
  intros Hd [H1 H2 H3 H4]. assert (Ha : 0 <= adjusted delay e <= MAX_RTT) by (unfold adjusted; case_if; lia). split; [|done].
  unfold updated. destruct (first_rtt_sample e); [|split; cbn; try done; split; [apply Z.div_pos; lia|apply Z.div_le_upper_bound; lia]].
  split; cbn [latest_rtt smoothed_rtt rttvar min_rtt]; try lia; apply smooth_bound; lia.
Qed.

Lemma update_rtt_ok now delay r : rtt_ok (rtt r) -> 0 <= max_ack_delay r -> 0 <= delay <= DURATION_MAX - MAX_RTT ->
  update_rtt now delay r = Ok (with_rtt (updated now (counted_delay delay r) (rtt r)) r).
Proof.
  intros He Hm Hd. unfold update_rtt, updated. destruct (first_rtt_sample (rtt r)) as [f|] eqn:Hf; [|done]. fold (counted_delay delay r).
  assert (Hc : 0 <= counted_delay delay r <= DURATION_MAX - MAX_RTT) by (unfold counted_delay; destruct (handshake_confirmed r); lia). set (d := counted_delay delay r) in *.
  destruct (updated_ok now d _ ltac:(lia) He) as [_ Ha]. destruct He as [H1 H2 H3 H4]. rewrite dur_add_ok by lia. cbn [mbind result_bind].
  assert (Hadj : (if Z.min (min_rtt (rtt r)) (latest_rtt (rtt r)) + d <=? latest_rtt (rtt r) then dur_sub (latest_rtt (rtt r)) d else Ok (latest_rtt (rtt r))) = Ok (adjusted d (rtt r))).
  { unfold adjusted. case_if; [|done]. apply dur_sub_ok. lia. }
  rewrite Hadj. cbn [mbind result_bind]. set (a := adjusted d (rtt r)) in *.
  assert (Hdev : (if a <? smoothed_rtt (rtt r) then dur_sub (smoothed_rtt (rtt r)) a else dur_sub a (smoothed_rtt (rtt r))) = Ok (Z.abs (smoothed_rtt (rtt r) - a))).
  { case_if; rewrite dur_sub_ok by lia; f_equal; lia. }
  assert (Hbig : MAX_RTT * 9 <= DURATION_MAX) by (vm_compute; discriminate).
  rewrite Hdev. cbn [mbind result_bind]. set (dev := Z.abs _) in *. assert (Hdv : 0 <= dev <= MAX_RTT) by lia.
  rewrite (dur_mul_ok (rttvar (rtt r))) by lia. cbn [mbind result_bind]. assert (Hs := smooth_bound (rttvar (rtt r)) dev 4 MAX_RTT ltac:(lia) H3 Hdv). unfold smooth in Hs. change (4 - 1) with 3 in Hs.
  rewrite (dur_add_ok (rttvar (rtt r) * 3 / 4)) by lia. cbn [mbind result_bind]. rewrite (dur_mul_ok (smoothed_rtt (rtt r))) by lia. cbn [mbind result_bind].
  assert (Hs8 := smooth_bound (smoothed_rtt (rtt r)) a 8 MAX_RTT ltac:(lia) H2 Ha). unfold smooth in Hs8. change (8 - 1) with 7 in Hs8. by rewrite dur_add_ok by lia.
Qed.

(** The estimate after an acknowledgment. *)
Definition sampled (now : Z) (sp : Space) (largest delay : Z) (acked : list (Sent (T:=T))) (newest : Sent (T:=T)) r : Rtt :=
  let e := rtt r in
  if (pn newest =? largest) && existsb ack_eliciting acked
  then updated now (counted_delay (if decide (sp = Initial) then 0 else delay) r) (mk_rtt (Z.min (since now (time newest)) MAX_RTT) (smoothed_rtt e) (rttvar e) (min_rtt e) (first_rtt_sample e))
  else e.

Lemma sample_rtt_ok now sp largest delay acked newest r : rtt_ok (rtt r) -> 0 <= max_ack_delay r -> 0 <= delay <= DURATION_MAX - MAX_RTT ->
  sample_rtt now sp largest delay acked newest r = Ok (with_rtt (sampled now sp largest delay acked newest r) r) /\ rtt_ok (sampled now sp largest delay acked newest r).
Proof.
  intros He Hm Hd. unfold sample_rtt, sampled. destruct (_ && _); [|by destruct r].
  assert (Hmax : 0 <= MAX_RTT) by (vm_compute; discriminate). assert (Hx : 0 <= since now (time newest)) by (unfold since; lia).
  assert (Hd' : 0 <= (if decide (sp = Initial) then 0 else delay) <= DURATION_MAX - MAX_RTT) by (destruct (decide _); [vm_compute; split; discriminate|done]).
  set (e' := mk_rtt _ _ _ _ _). assert (He' : rtt_ok e') by (destruct He; split; cbn; try done; lia).
  rewrite update_rtt_ok; [|done..]. split; [done|]. apply updated_ok; [|done]. unfold counted_delay. destruct (handshake_confirmed r); lia.
Qed.

(** ** Loss *)

(** The least of a list. *)
Definition earliest (l : list Z) : option Z := foldr (fun x acc => Some match acc with Some y => Z.min x y | None => x end) None l.

Lemma earliest_snoc l x : earliest (l ++ [x]) = Some match earliest l with Some y => Z.min y x | None => x end.
Proof.
  induction l as [|y l IH]; [done|]. cbn [app earliest foldr]. fold (earliest (l ++ [x])) (earliest l). rewrite IH. destruct (earliest l); [|done]. by rewrite Z.min_assoc.
Qed.

Lemma earliest_spec l : match earliest l with Some t => t ∈ l /\ forall x, x ∈ l -> t <= x | None => l = [] end.
Proof.
  induction l as [|y l IH]; [done|]. cbn [earliest foldr]. fold (earliest l). destruct (earliest l) as [t|].
  - destruct IH as [Hin Hle]. split; [destruct (Z.min_spec y t) as [[_ ->]|[_ ->]]; [left|by right]|]. intros x Hx. apply elem_of_cons in Hx as [->|Hx]; [lia|]. specialize (Hle x Hx). lia.
  - subst l. split; [left|]. intros x Hx. apply list_elem_of_singleton in Hx as ->. lia.
Qed.

Lemma scan_lost_ok now d L m :
  scan_lost instant_max now d L m =
  (List.map fst (List.filter (fun e => is_lost now d L (fst e) (snd e)) m),
   earliest (List.map (fun e => later instant_max (time (snd e)) d) (List.filter (fun e => negb (is_lost now d L (fst e) (snd e))) m))).
Proof.
  unfold scan_lost. induction m as [|[k p] m IH] using rev_ind; [done|]. rewrite fold_left_app, IH. cbn [fold_left]. rewrite !lfilter_app, !map_app. cbn [List.filter fst snd].
  destruct (is_lost now d L k p); cbn [List.map negb fst snd]; [by rewrite app_nil_r|]. by rewrite app_nil_r, earliest_snoc.
Qed.

(** The time threshold. *)
Definition delay_of (e : Rtt) : Z := Z.max (Z.max (latest_rtt e) (smoothed_rtt e) * 9 / 8) GRANULARITY.

Lemma loss_delay_ok e : rtt_ok e -> loss_delay e = Ok (delay_of e).
Proof.
  intros [H1 H2 _ _]. unfold loss_delay. assert (Hbig : MAX_RTT * 9 <= DURATION_MAX) by (vm_compute; discriminate). by rewrite dur_mul_ok by lia.
Qed.

(** The packets of a map that are lost. *)
Definition lost_entry (now d L : Z) (e : Z * Sent (T:=T)) : bool := (fst e <=? L) && is_lost now d L (fst e) (snd e).

(** When the next of the others will be. *)
Definition next_loss (now d L : Z) m : option Z :=
  earliest (List.map (fun e => later instant_max (time (snd e)) d) (List.filter (fun e => (fst e <=? L) && negb (lost_entry now d L e)) m)).

Lemma detect_lost_ok now sp r L : let s := space_of r sp in
  rtt_ok (rtt r) -> packets_ok (sent s) -> largest_acked s = Some L ->
  let d := delay_of (rtt r) in let lost := List.map snd (List.filter (lost_entry now d L) (sent s)) in
  detect_lost instant_max now sp r = Ok (lost,
    with_space sp (mk_space (List.filter (fun e => negb (lost_entry now d L e)) (sent s)) (Some L) (next_loss now d L (sent s)) (last_ack_eliciting s)
      (u64 (ack_eliciting_in_flight s - total (fun p => b2z (eliciting p)) lost))) r).
Proof.
  intros s He Hp HL d lost. unfold detect_lost. fold s. rewrite HL, loss_delay_ok by done. cbn [mbind result_bind]. fold d. rewrite scan_lost_ok. rewrite !filter_filter.
  change (List.filter (fun x => (fst x <=? L) && is_lost now d L (fst x) (snd x)) (sent s)) with (List.filter (lost_entry now d L) (sent s)). rewrite remove_listed by apply Hp. cbn [mbind result_bind].
  do 2 f_equal. f_equal. f_equal.
  - unfold next_loss. f_equal. f_equal. apply filter_ext_eq. intros e _. unfold lost_entry. by destruct (fst e <=? L).
  - by rewrite total_count.
Qed.

Lemma persistent_duration_ok r : rtt_ok (rtt r) -> 0 <= max_ack_delay r <= millis (2 ^ 14) ->
  persistent_duration r = Ok ((smoothed_rtt (rtt r) + Z.max (rttvar (rtt r) * 4) GRANULARITY + max_ack_delay r) * 3).
Proof.
  intros [H1 H2 H3 H4] Hd. assert (Hbig : (MAX_RTT * 5 + GRANULARITY + millis (2 ^ 14)) * 3 <= DURATION_MAX) by (vm_compute; discriminate).
  assert (Hg : 0 <= GRANULARITY) by (vm_compute; discriminate). unfold persistent_duration, PERSISTENT_CONGESTION_THRESHOLD.
  rewrite (dur_mul_ok (rttvar (rtt r))) by lia. cbn [mbind result_bind]. rewrite (dur_add_ok (smoothed_rtt (rtt r))) by lia. cbn [mbind result_bind].
  rewrite (dur_add_ok _ (max_ack_delay r)) by lia. cbn [mbind result_bind]. by rewrite dur_mul_ok by lia.
Qed.

Lemma lost_fold B out (l : list (Sent (T:=T))) c t : (forall p, p ∈ l -> 0 <= bytes_of p) -> total bytes_of l <= out -> cc_ok B out c ->
  exists c' t', fold_left (fun '(c, l) p => if in_flight p then (Congestion.on_lost (size p) c, Some match l with Some l => Z.max l (time p) | None => time p end) else (c, l)) l (c, t) = (c', t') /\
    cc_ok B (out - total bytes_of l) c'.
Proof.
  revert out c t. induction l as [|p l IH]; intros out c t Hb Ht Hc; cbn [fold_left total foldr]; [exists c, t; rewrite Z.sub_0_r; done|]. fold (total bytes_of l). cbn [total foldr] in Ht. fold (total bytes_of l) in Ht.
  assert (Hp := Hb p ltac:(left)). assert (Hl : 0 <= total bytes_of l) by (apply measure_nonneg; intros q Hq; apply Hb; by right).
  assert (Hb' : forall q, q ∈ l -> 0 <= bytes_of q) by (intros q Hq; apply Hb; by right). rewrite Z.sub_add_distr. change (bytes_of p) with (if in_flight p then size p else 0) in *. destruct (in_flight p).
  - apply IH; [done|lia|]. apply cc_lost; [lia|done].
  - rewrite Z.sub_0_r. apply IH; [done|lia|done].
Qed.

Lemma on_packets_lost_ok B out now l r : core B out r -> (forall p, p ∈ l -> 0 <= bytes_of p) -> total bytes_of l <= out ->
  exists c, on_packets_lost now l r = Ok (with_cc c r) /\ cc_ok B (out - total bytes_of l) c.
Proof.
  intros [H1 H2 H3 H4 H5] Hb Ht. unfold on_packets_lost. destruct (lost_fold B out l (cc r) None Hb Ht H4) as (c & t & -> & Hc).
  set (c2 := match t with Some t => _ | None => c end). assert (Hc2 : cc_ok B (out - total bytes_of l) c2) by (unfold c2; destruct t; [by apply cc_congestion|done]).
  assert (Hx : exists b : bool, in_persistent_congestion l (with_cc c2 r) = Ok b).
  { unfold in_persistent_congestion. change (rtt (with_cc c2 r)) with (rtt r). destruct (first_rtt_sample (rtt r)); [|by exists false]. rewrite persistent_duration_ok by done. by eexists. }
  destruct Hx as [b ->]. cbn [mbind result_bind]. destruct b; [|by exists c2]. exists (on_persistent_congestion c2). split; [done|by apply cc_persistent].
Qed.

Lemma ack_fold B out sp before l r : (forall p, p ∈ l -> 0 <= bytes_of p) -> total bytes_of l <= out -> cc_ok B out (cc r) ->
  let s := space_of r sp in let n := total (fun p => b2z (eliciting p)) l in
  n <= ack_eliciting_in_flight s <= 2 ^ 62 ->
  exists c, fold_left (ack_counted sp before) l r =
      with_cc c (with_space sp (mk_space (sent s) (largest_acked s) (loss_time s) (last_ack_eliciting s) (ack_eliciting_in_flight s - n)) r) /\
    cc_ok B (out - total bytes_of l) c.
Proof.
  revert out r. induction l as [|p l IH]; intros out r Hb Ht Hc; cbn zeta; cbn [fold_left total foldr].
  { intros _. exists (cc r). rewrite !Z.sub_0_r. split; [|done]. destruct (space_of r sp) eqn:E. cbn. rewrite <- E, with_space_eta. by rewrite with_cc_eta. }
  fold (total bytes_of l) (total (fun p => b2z (eliciting p)) l) in *. cbn [total foldr] in Ht. fold (total bytes_of l) in Ht. set (n := total (fun p => b2z (eliciting p)) l) in *. intros Hn.
  assert (Hp := Hb p ltac:(left)). assert (Hl : 0 <= total bytes_of l) by (apply measure_nonneg; intros q Hq; apply Hb; by right).
  assert (Hn0 : 0 <= n) by (apply measure_nonneg; intros q _; assert (H := b2z_range (eliciting q)); lia).
  assert (Hb' : forall q, q ∈ l -> 0 <= bytes_of q) by (intros q Hq; apply Hb; by right). rewrite !Z.sub_add_distr. unfold ack_counted at 2. change (bytes_of p) with (if in_flight p then size p else 0) in *. change (eliciting p) with (in_flight p && ack_eliciting p) in *. destruct (in_flight p); cbn [andb] in *.
  - set (c1 := on_acked _ _ _ _). assert (Hc1 : cc_ok B (out - size p) c1) by (apply cc_acked; [lia|done]). destruct (ack_eliciting p); cbn [b2z] in *.
    + rewrite u64_small by (change (space_of (with_cc c1 r)) with (space_of r); unfold U64_MAX; lia).
      destruct (IH (out - size p) (with_space sp (mk_space (sent (space_of r sp)) (largest_acked (space_of r sp)) (loss_time (space_of r sp)) (last_ack_eliciting (space_of r sp)) (ack_eliciting_in_flight (space_of r sp) - 1)) (with_cc c1 r)) Hb' ltac:(lia) Hc1) as (c & Hf & Hcc).
      { rewrite space_of_same. cbn. lia. }
      exists c. split; [|done]. change (space_of (with_cc c1 r)) with (space_of r). rewrite Hf. rewrite space_of_same. cbn [sent largest_acked loss_time last_ack_eliciting ack_eliciting_in_flight].
      rewrite with_space_twice. by destruct sp.
    + destruct (IH (out - size p) (with_cc c1 r) Hb' ltac:(lia) Hc1) as (c & Hf & Hcc); [change (space_of (with_cc c1 r)) with (space_of r); lia|]. exists c. split; [|done]. rewrite Hf. change (space_of (with_cc c1 r)) with (space_of r). rewrite !Z.sub_0_r. by destruct sp.
  - cbn [b2z] in *. rewrite !Z.sub_0_r. apply IH; [done|lia|done|lia].
Qed.
End operations.
