(* ===== verification/RecoveryRun.v ===== *)
(** What each call of [Recovery] does to a state that satisfies the
    invariant, the runs of a connection, and the properties of loss detection
    over them. *)

From Stdlib Require Import ZArith Lia SpecFloat.
From stdpp Require Import base option numbers list sorting.
From S2P Require Import Prelude BTree Slice Float Congestion Pacer Recovery RecoveryOk.

#[local] Open Scope Z_scope.

Section calls.
Context (instant_max : Z) {T : Type}.
Implicit Types (m : list (Z * Sent (T:=T))) (r : Recovery (T:=T)) (s : SpaceState (T:=T)) (l : list (Sent (T:=T))).

(** ** Losses *)

(** The state of a space once its lost packets are taken out. *)
Definition after_loss (now d L : Z) s : SpaceState (T:=T) :=
  mk_space (List.filter (fun e => negb (lost_entry now d L e)) (sent s)) (Some L) (next_loss instant_max now d L (sent s)) (last_ack_eliciting s)
    (ack_eliciting_in_flight s - total (fun p => b2z (eliciting p)) (List.map snd (List.filter (lost_entry now d L) (sent s)))).

Definition lost_of (now d L : Z) s : list (Sent (T:=T)) := List.map snd (List.filter (lost_entry now d L) (sent s)).

Lemma part_bytes (P : Z * Sent (T:=T) -> bool) m : packets_ok m -> (forall p, p ∈ List.map snd (List.filter P m) -> 0 <= bytes_of p) /\ 0 <= total bytes_of (List.map snd (List.filter P m)) <= bytes_in m.
Proof.
  intros Hm. assert (H : forall p, p ∈ List.map snd (List.filter P m) -> 0 <= bytes_of p) by (intros p Hp; by apply (packets_sizes _ _ (packets_filter P m Hm))).
  split; [done|]. split; [by apply measure_nonneg|]. rewrite (bytes_split P m). assert (Hb := bytes_nonneg _ (packets_filter (fun e => negb (P e)) m Hm)). lia.
Qed.

Lemma part_eliciting (P : Z * Sent (T:=T) -> bool) m : packets_ok m -> 0 <= total (fun p => b2z (eliciting p)) (List.map snd (List.filter P m)) <= eliciting_in m.
Proof. intros Hm. split; [apply (eliciting_bound _ (packets_filter P m Hm))|]. rewrite (eliciting_split P m). assert (Hb := eliciting_bound _ (packets_filter (fun e => negb (P e)) m Hm)). lia. Qed.

(** What a space holds is part of what is in flight. *)
Lemma flight_space r sp : (forall sp, space_ok (space_of r sp)) -> bytes_in (sent (space_of r sp)) <= flight r.
Proof.
  intros Hs. unfold flight. cbn [total foldr ALL]. assert (H1 := bytes_nonneg _ (so_packets _ (Hs Initial))). assert (H2 := bytes_nonneg _ (so_packets _ (Hs Handshake))).
  assert (H3 := bytes_nonneg _ (so_packets _ (Hs Application))). destruct sp; lia.
Qed.

(** Detecting losses and telling the controller. *)
Lemma lose_ok B out now sp L r : let s := space_of r sp in let d := delay_of (rtt r) in
  core B out r -> packets_ok (sent s) -> largest_acked s = Some L -> bytes_in (sent s) <= out -> eliciting_in (sent s) <= ack_eliciting_in_flight s <= 2 ^ 62 ->
  exists c, let r' := with_space sp (after_loss now d L s) r in
    detect_lost instant_max now sp r = Ok (lost_of now d L s, r') /\
    on_packets_lost now (lost_of now d L s) r' = Ok (with_cc c r') /\
    cc_ok B (out - total bytes_of (lost_of now d L s)) c.
Proof.
  intros s d Hc Hp HL Hb Hn. destruct (part_bytes (lost_entry now d L) _ Hp) as [H1 H2]. assert (H3 := part_eliciting (lost_entry now d L) _ Hp). fold (lost_of now d L s) in H1, H2, H3.
  assert (Hd := detect_lost_ok instant_max now sp r L (co_rtt _ _ _ Hc) Hp HL). cbn zeta in Hd. fold s d (lost_of now d L s) in Hd. rewrite u64_small in Hd by (unfold U64_MAX; lia).
  destruct (on_packets_lost_ok B out now (lost_of now d L s) (with_space sp (after_loss now d L s) r)) as (c & Hc1 & Hc2); [by destruct Hc|done|lia|].
  exists c. cbn zeta. split; [exact Hd|]. by split.
Qed.

(** ** Acknowledgments *)

Definition acked_of (ranges : list (Z * Z)) s : list (Sent (T:=T)) := List.map snd (List.filter (fun e => covered ranges (fst e)) (sent s)).

(** The state of a space once the packets of the ranges are taken out. *)
Definition after_ack (ranges : list (Z * Z)) (largest : Z) s : SpaceState (T:=T) :=
  mk_space (List.filter (fun e => negb (covered ranges (fst e))) (sent s))
    (Some match largest_acked s with Some p => Z.max p largest | None => largest end) (loss_time s) (last_ack_eliciting s)
    (ack_eliciting_in_flight s).

(** The bookkeeping of what was acknowledged. *)
Definition uncount l s : SpaceState (T:=T) :=
  mk_space (sent s) (largest_acked s) (loss_time s) (last_ack_eliciting s) (ack_eliciting_in_flight s - total (fun p => b2z (eliciting p)) l).

Lemma acked_sorted ranges s ps : packets_ok (sent s) -> ps ≡ₚ acked_of ranges s -> sort_by_pn ps = acked_of ranges s.
Proof. intros Hp. apply sort_by_pn_unique. by apply packets_pns, packets_filter. Qed.

Lemma ack_nothing now sp largest delay ranges r :
  packets_ok (sent (space_of r sp)) -> Forall (fun ab => fst ab <= snd ab) ranges -> acked_of ranges (space_of r sp) = [] ->
  on_ack_received instant_max now sp largest delay ranges r = Ok ([], [], with_space sp (after_ack ranges largest (space_of r sp)) r) /\
  sent (after_ack ranges largest (space_of r sp)) = sent (space_of r sp).
Proof.
  intros Hp Hf He. destruct (take_ranges_ok ranges _ (proj1 Hp) Hf) as (ps & Ht & Hps). split.
  - unfold on_ack_received. rewrite Ht. cbn [mbind result_bind]. change (ps ≡ₚ acked_of ranges (space_of r sp)) in Hps. rewrite (acked_sorted _ _ _ Hp Hps), He. done.
  - cbn. apply filter_all. intros e Hin. apply negb_true_iff. destruct (covered ranges (fst e)) eqn:Hcov; [|done]. exfalso.
    assert (H : snd e ∈ acked_of ranges (space_of r sp)) by (apply list_elem_of_In, in_map, List.filter_In; by rewrite <- list_elem_of_In). rewrite He in H. by apply elem_of_nil in H.
Qed.

(** What an acknowledgment that tells something new leaves. *)
Lemma ack_something B now sp largest delay ranges r newest :
  let s := space_of r sp in let acked := acked_of ranges s in
  inv B r -> 0 <= largest < 2 ^ 62 -> Forall (fun ab => fst ab <= snd ab) ranges -> 0 <= delay <= DURATION_MAX - MAX_RTT ->
  list.last acked = Some newest ->
  let s1 := after_ack ranges largest s in let e := sampled now sp largest delay acked newest r in
  let L := default 0 (largest_acked s1) in
  exists r', on_ack_received instant_max now sp largest delay ranges r = Ok (acked, lost_of now (delay_of e) L s1, r') /\
    inv B r' /\ rtt r' = e /\ space_of r' sp = uncount acked (after_loss now (delay_of e) L s1) /\
    (forall sp', sp' <> sp -> space_of r' sp' = space_of r sp').
Proof.
  intros s acked [Hc Hs Ht] HL Hf Hd Hn s1 e L. set (d := delay_of e) in *. assert (Hp := so_packets _ (Hs sp)). fold s in Hp.
  destruct (part_bytes (fun e => covered ranges (fst e)) _ Hp) as [Hb1 Hb2]. assert (He1 := part_eliciting (fun e => covered ranges (fst e)) _ Hp). change (List.map snd _) with acked in Hb1, Hb2, He1.
  destruct (take_ranges_ok ranges _ (proj1 Hp) Hf) as (ps & Htake & Hps). change (ps ≡ₚ acked) in Hps.
  unfold on_ack_received. fold s. rewrite Htake. cbn [mbind result_bind]. rewrite (acked_sorted ranges s ps Hp Hps). fold acked. rewrite Hn.
  change (with_space sp _ r) with (with_space sp s1 r). set (r1 := with_space sp s1 r).
  destruct (sample_rtt_ok now sp largest delay acked newest r1 (co_rtt _ _ _ Hc) (proj1 (co_delay _ _ _ Hc)) Hd) as [Hsamp He]. change (sampled now sp largest delay acked newest r1) with e in Hsamp, He.
  rewrite Hsamp. cbn [mbind result_bind]. set (r2 := if decide (sp = Handshake) then _ else _).
  assert (Hr2 : space_of r2 = space_of r1 /\ rtt r2 = e /\ max_ack_delay r2 = max_ack_delay r /\ pto_count r2 = pto_count r /\ cc r2 = cc r /\ pacer r2 = pacer r) by (unfold r2; by destruct (decide (sp = Handshake))).
  destruct Hr2 as (Hsp2 & Hrtt2 & Hdel2 & Hpto2 & Hcc2 & Hpac2). assert (Hs2 : space_of r2 sp = s1) by (rewrite Hsp2; apply space_of_same).
  assert (Hcore2 : core B (flight r) r2) by (destruct Hc; split; congruence). assert (Hp1 : packets_ok (sent s1)) by (by apply packets_filter).
  assert (Hsplit := bytes_split (fun e => covered ranges (fst e)) (sent s)). assert (Hsplit' := eliciting_split (fun e => covered ranges (fst e)) (sent s)). change (List.map snd _) with acked in Hsplit, Hsplit'. change (List.filter (fun x => negb _) (sent s)) with (sent s1) in Hsplit, Hsplit'.
  assert (Hcount := so_count _ (Hs sp)). fold s in Hcount. assert (Hmax := eliciting_bound _ Hp).
  assert (Hfl := flight_space r sp Hs). fold s in Hfl.
  assert (HL1 : largest_acked s1 = Some L) by done. assert (Hb0 := bytes_nonneg _ Hp1).
  destruct (lose_ok B (flight r) now sp L r2 Hcore2) as (c & Hdet & Hlost & Hcc); [by rewrite Hs2|by rewrite Hs2|rewrite Hs2; lia|rewrite Hs2; cbn [s1 after_ack ack_eliciting_in_flight]; lia|].
  rewrite Hs2, Hrtt2 in Hdet, Hlost, Hcc. fold d in Hdet, Hlost, Hcc. rewrite Hdet. cbn [mbind result_bind]. rewrite Hlost. cbn [mbind result_bind].
  destruct (part_bytes (lost_entry now d L) _ Hp1) as [Hb3 Hb4]. assert (He3 := part_eliciting (lost_entry now d L) _ Hp1). change (List.map snd _) with (lost_of now d L s1) in Hb3, Hb4, He3.
  set (r4 := with_cc c (with_space sp (after_loss now d L s1) r2)). assert (Hs4 : space_of r4 sp = after_loss now d L s1) by apply space_of_same.
  destruct (ack_fold B (flight r - total bytes_of (lost_of now d L s1)) sp (Congestion.in_flight (cc r2)) acked r4 Hb1 ltac:(lia) Hcc) as (c' & Hfold & Hcc').
  { rewrite Hs4. cbn [after_loss ack_eliciting_in_flight s1 after_ack]. change (List.map snd _) with (lost_of now d L s1). lia. }
  cbn zeta in Hfold. rewrite Hfold. rewrite Hs4. change (mk_space _ _ _ _ _) with (uncount acked (after_loss now d L s1)). set (s4 := uncount _ _).
  set (r6 := if peer_completed_address_validation _ then _ else _).
  assert (Hr6 : space_of r6 sp = s4 /\ (forall sp', sp' <> sp -> space_of r6 sp' = space_of r sp') /\ rtt r6 = e /\ max_ack_delay r6 = max_ack_delay r /\ 0 <= pto_count r6 <= U32_MAX /\ cc r6 = c' /\ pacer r6 = pacer r).
  { assert (Hpto := co_pto _ _ _ Hc). unfold r6. destruct (peer_completed_address_validation _); (split; [apply space_of_same|]; split; [|cbn; rewrite ?Hrtt2, ?Hdel2, ?Hpto2, ?Hpac2; unfold U32_MAX in *; (repeat split); try done; lia]);
      intros sp' Hne; (transitivity (space_of r2 sp'); [destruct sp, sp'; done|]); rewrite Hsp2; by apply space_of_other. }
  destruct Hr6 as (Hs6 & Hother & Hrtt6 & Hdel6 & Hpto6 & Hcc6 & Hpac6).
  exists (set_timer instant_max now r6). split; [done|]. destruct (set_timer_eq instant_max now r6) as [t Htm].
  split; [|rewrite Htm; split; [done|]; split; [by rewrite <- Hs6|done]]. clearbody r6.
  assert (Hsplit2 := bytes_split (lost_entry now d L) (sent s1)). assert (Hsplit2' := eliciting_split (lost_entry now d L) (sent s1)). change (List.map snd _) with (lost_of now d L s1) in Hsplit2, Hsplit2'. change (List.filter (fun x => negb _) (sent s1)) with (sent s4) in Hsplit2, Hsplit2'.
  assert (Hfl6 : flight r6 = flight r - total bytes_of (lost_of now d L s1) - total bytes_of acked).
  { transitivity (flight (with_space sp s4 r)).
    - apply flight_same. intros sp'. destruct (decide (sp' = sp)) as [->|Hne]; [by rewrite space_of_same|]. by rewrite (space_of_other sp) by done; apply Hother.
    - rewrite flight_with. fold s. lia. }
  apply set_timer_inv.
  - split; [by rewrite Hrtt6|rewrite Hdel6; apply Hc|done| |rewrite Hpac6; apply Hc]. by rewrite Hfl6, Hcc6.
  - intros sp'. destruct (decide (sp' = sp)) as [->|Hne]; [|rewrite Hother by done; apply Hs]. rewrite Hs6. split.
    + by apply packets_filter.
    + change (ack_eliciting_in_flight s - total (fun p => b2z (eliciting p)) (lost_of now d L s1) - total (fun p => b2z (eliciting p)) acked = eliciting_in (sent s4)). lia.
    + intros Hpos. change (0 < ack_eliciting_in_flight s - total (fun p => b2z (eliciting p)) (lost_of now d L s1) - total (fun p => b2z (eliciting p)) acked) in Hpos.
      apply (so_last _ (Hs sp)). fold s. lia.
    + intros n [= <-]. unfold s1. cbn. destruct (largest_acked s) as [p|] eqn:Hla; [|done]. assert (H := so_largest _ (Hs sp) p Hla). lia.
    + done.
Qed.

(** ** Sending *)

Lemma insert_packets k p m : packets_ok m -> BTree.get k m = None -> pn p = k -> 0 <= k < 2 ^ 62 -> 0 <= size p <= 65535 -> packets_ok (BTree.insert k p m).
Proof.
  intros [Hs Hp] Hg Hk Hr Hz. split; [by apply insert_sorted|]. intros k' p' Hin. apply insert_in in Hin as [[= -> ->]|[_ Hin]]; [done|by apply Hp|done].
Qed.

Lemma insert_total (f : Sent (T:=T) -> Z) k p m : sorted m -> BTree.get k m = None -> total f (List.map snd (BTree.insert k p m)) = f p + total f (List.map snd m).
Proof. intros Hs Hg. rewrite (total_perm f _ (p :: List.map snd m)); [done|]. change (p :: List.map snd m) with (List.map snd ((k, p) :: m)). by apply Permutation_map, insert_perm. Qed.

(** The timer stays right where nothing it depends on changes. *)
Lemma timer_ok_same r r' :
  (forall sp, loss_time (space_of r' sp) = loss_time (space_of r sp) /\ ack_eliciting_in_flight (space_of r' sp) = ack_eliciting_in_flight (space_of r sp)) ->
  timer r' = timer r -> handshake_confirmed r' = handshake_confirmed r -> handshake_acked r' = handshake_acked r -> timer_ok r -> timer_ok r'.
Proof.
  intros Hsp Ht Hc Ha. unfold timer_ok, loss_time_and_space, any_ack_eliciting_in_flight, probing, peer_completed_address_validation, ALL. cbn [fold_left existsb].
  destruct (Hsp Initial) as [-> ->], (Hsp Handshake) as [-> ->], (Hsp Application) as [-> ->]. by rewrite Ht, Hc, Ha.
Qed.

Lemma core_flight B r : core B (flight r) r -> 0 <= flight r <= limit.
Proof. intros Hc. assert (H := co_cc _ _ _ Hc). destruct H. lia. Qed.

Lemma sent_ok B now sp p r : inv B r -> 0 <= pn p < 2 ^ 62 -> 0 <= size p <= 65535 -> BTree.get (pn p) (sent (space_of r sp)) = None -> B + size p <= limit ->
  let r' := on_packet_sent instant_max now sp p r in
  inv (B + size p) r' /\ sent (space_of r' sp) = BTree.insert (pn p) p (sent (space_of r sp)) /\ (forall sp', sp' <> sp -> space_of r' sp' = space_of r sp').
Proof.
  intros [Hc Hs Ht] Hpn Hz Hg HB. cbn zeta. set (s := space_of r sp) in *. assert (Hok := Hs sp). fold s in Hok. assert (Hp := so_packets _ Hok).
  assert (Hins := insert_packets _ p _ Hp Hg eq_refl Hpn Hz). assert (Htb := insert_total bytes_of _ p _ (proj1 Hp) Hg). assert (Hte := insert_total (fun p => b2z (eliciting p)) _ p _ (proj1 Hp) Hg).
  fold (bytes_in (sent s)) (bytes_in (BTree.insert (pn p) p (sent s))) in Htb. fold (eliciting_in (sent s)) (eliciting_in (BTree.insert (pn p) p (sent s))) in Hte.
  assert (Hmax := eliciting_bound _ Hp). assert (Hcount := so_count _ Hok). unfold on_packet_sent. fold s.
  change (bytes_of p) with (if in_flight p then size p else 0) in Htb. cbn beta in Hte. change (eliciting p) with (in_flight p && ack_eliciting p) in Hte. destruct (in_flight p) eqn:Hfl; cbn [andb] in *.
  - set (s1 := if ack_eliciting p then _ else s). set (s2 := mk_space _ _ _ _ _). set (r1 := with_pacer _ _).
    assert (Hs1 : sent s1 = sent s /\ largest_acked s1 = largest_acked s /\ loss_time s1 = loss_time s /\ ack_eliciting_in_flight s1 = ack_eliciting_in_flight s + b2z (ack_eliciting p) /\
      (0 < ack_eliciting_in_flight s1 -> is_Some (last_ack_eliciting s1))).
    { unfold s1. destruct (ack_eliciting p); cbn [b2z]; [|rewrite Z.add_0_r; repeat (split; [done|]); apply Hok]. cbn. rewrite u64_small by (unfold U64_MAX; lia). done. }
    destruct Hs1 as (Hs1a & Hs1b & Hs1c & Hs1d & Hs1e).
    assert (Hsp1 : space_of r1 sp = s2) by (apply space_of_same). assert (Hsp1' : forall sp', sp' <> sp -> space_of r1 sp' = space_of r sp') by (intros sp' Hne; transitivity (space_of (with_space sp s2 r) sp'); [done|]; apply space_of_other; done).
    assert (Hflr : flight r1 = flight r + size p).
    { transitivity (flight (with_space sp s2 r)); [by apply flight_same|]. rewrite flight_with. fold s. unfold s2. cbn [sent]. rewrite Hs1a. lia. }
    destruct (set_timer_eq instant_max now r1) as [t Htm]. split; [|rewrite Htm; change (space_of (with_timer t r1)) with (space_of r1); split; [rewrite Hsp1; unfold s2; cbn [sent]; by rewrite Hs1a|done]].
    apply set_timer_inv.
    + rewrite Hflr. destruct Hc as [C1 C2 C3 C4 C5]. split; [done|done|done| |].
      * apply cc_sent; [lia|done|done].
      * apply on_sent_ok; [unfold U64_MAX; lia|done].
    + intros sp'. destruct (decide (sp' = sp)) as [->|Hne]; [|rewrite Hsp1' by done; apply Hs]. rewrite Hsp1. unfold s2. rewrite Hs1a. destruct Hok as [K1 K2 K3 K4 K5]. split; cbn [sent ack_eliciting_in_flight last_ack_eliciting largest_acked loss_time]; [done|lia|done| |].
      * by rewrite Hs1b.
      * by rewrite Hs1b, Hs1c.
  - set (s2 := mk_space _ _ _ _ _). split; [|split; [by rewrite space_of_same|intros sp' Hne; by apply space_of_other]].
    assert (Hflr : flight (with_space sp s2 r) = flight r) by (rewrite flight_with; fold s; unfold s2; cbn [sent]; lia).
    split.
    + rewrite Hflr. destruct Hc as [C1 C2 C3 [D1 D2 D3 D4 D5 D6] C5]. split; try done. split; try done. change (window (cc r) + acked_in_avoidance (cc r) + flight r <= B + size p <= limit). lia.
    + intros sp'. destruct (decide (sp' = sp)) as [->|Hne]; [|rewrite space_of_other by done; apply Hs]. rewrite space_of_same. destruct Hok as [K1 K2 K3 K4 K5]. split; cbn [s2 sent ack_eliciting_in_flight last_ack_eliciting largest_acked loss_time]; [done|cbn [b2z] in Hte; lia|done|done|done].
    + apply (timer_ok_same r); try done. intros sp'. destruct (decide (sp' = sp)) as [->|Hne]; [by rewrite space_of_same|by rewrite space_of_other].
Qed.

(** ** Timeouts *)

Lemma loss_time_space_spec r t sp : loss_time_and_space r = Some (t, sp) -> loss_time (space_of r sp) = Some t /\ forall sp' t', loss_time (space_of r sp') = Some t' -> t <= t'.
Proof.
  unfold loss_time_and_space, ALL. cbn [fold_left].
  destruct (loss_time (space_of r Initial)) as [t1|] eqn:E1, (loss_time (space_of r Handshake)) as [t2|] eqn:E2, (loss_time (space_of r Application)) as [t3|] eqn:E3; repeat case_if; intros [= <- <-];
    (split; [done|]); intros [] t' Ht'; rewrite ?E1, ?E2, ?E3 in Ht'; try done; injection Ht' as <-; lia.
Qed.

Lemma lose_space_ok now d L s : space_ok s -> 0 <= L < 2 ^ 62 -> space_ok (after_loss now d L s).
Proof.
  intros [K1 K2 K3 K4 K5] HL. assert (Hsp := eliciting_split (lost_entry now d L) (sent s)). change (List.filter (fun x => negb _) (sent s)) with (sent (after_loss now d L s)) in Hsp.
  assert (He := part_eliciting (lost_entry now d L) _ K1). set (n := total _ (List.map snd _)) in *. split.
  - by apply packets_filter.
  - change (ack_eliciting_in_flight s - n = eliciting_in (sent (after_loss now d L s))). lia.
  - intros Hpos. change (0 < ack_eliciting_in_flight s - n) in Hpos. apply K3. lia.
  - intros x [= <-]. done.
  - done.
Qed.

(** The loss timer expired: exactly the lost packets of its space go. *)
Lemma timeout_loss B now t sp r : inv B r -> loss_time_and_space r = Some (t, sp) ->
  exists L r', largest_acked (space_of r sp) = Some L /\
    on_timeout instant_max now r = Ok (mk_timeout sp (lost_of now (delay_of (rtt r)) L (space_of r sp)) None, r') /\ inv B r' /\ rtt r' = rtt r /\
    space_of r' sp = after_loss now (delay_of (rtt r)) L (space_of r sp) /\ (forall sp', sp' <> sp -> space_of r' sp' = space_of r sp').
Proof.
  intros [Hc Hs Ht] Hl. destruct (loss_time_space_spec _ _ _ Hl) as [Hlt _]. assert (Hok := Hs sp). destruct (so_loss _ Hok) as [L HL]; [by rewrite Hlt|]. assert (Hp := so_packets _ Hok).
  assert (Hfl := flight_space r sp Hs).
  assert (Hmax := eliciting_bound _ Hp). assert (Hcount := so_count _ Hok).
  destruct (lose_ok B (flight r) now sp L r Hc Hp HL Hfl ltac:(lia)) as (c & Hdet & Hlost & Hcc). cbn zeta in *. set (s := space_of r sp) in *. set (d := delay_of (rtt r)) in *.
  unfold on_timeout. rewrite Hl, Hdet. cbn [mbind result_bind]. rewrite Hlost. cbn [mbind result_bind]. set (r1 := with_cc c _). destruct (set_timer_eq instant_max now r1) as [t' Htm].
  assert (Hsp1 : space_of r1 sp = after_loss now d L s) by apply space_of_same. assert (Hsp1' : forall sp', sp' <> sp -> space_of r1 sp' = space_of r sp') by (intros sp' Hne; transitivity (space_of (with_space sp (after_loss now d L s) r) sp'); [done|]; by apply space_of_other).
  exists L, (set_timer instant_max now r1). split; [done|]. split; [done|]. split; [|rewrite Htm; split; [done|]; split; [by rewrite <- Hsp1|done]].
  apply set_timer_inv.
  - assert (Hflr : flight r1 = flight r - total bytes_of (lost_of now d L s)).
    { transitivity (flight (with_space sp (after_loss now d L s) r)); [by apply flight_same|]. rewrite flight_with. fold s. assert (Hb := bytes_split (lost_entry now d L) (sent s)). change (List.filter (fun x => negb _) (sent s)) with (sent (after_loss now d L s)) in Hb. unfold lost_of. lia. }
    rewrite Hflr. by destruct Hc.
  - intros sp'. destruct (decide (sp' = sp)) as [->|Hne]; [|rewrite Hsp1' by done; apply Hs]. rewrite Hsp1. apply lose_space_ok; [done|]. by apply (so_largest _ Hok).
Qed.

(** Any other timeout asks for a probe, and nothing is lost. *)
Lemma timeout_probe B now r : inv B r -> loss_time_and_space r = None -> is_Some (timer r) ->
  exists p r', on_timeout instant_max now r = Ok (mk_timeout (space p) [] (Some p), r') /\ inv B r' /\ spaces r' = spaces r /\
    anti_deadlock p = negb (any_ack_eliciting_in_flight r) /\ pto_count r' = u32 (pto_count r + 1) /\ handshake_confirmed r' = handshake_confirmed r.
Proof.
  intros [Hc Hs Ht] Hl Htim. unfold on_timeout. rewrite Hl. unfold timer_ok in Ht. rewrite Hl in Ht. destruct Ht as [Ht _]. specialize (Ht Htim).
  assert (Hassert : negb (any_ack_eliciting_in_flight r) && peer_completed_address_validation r = false) by (destruct Ht as [-> | ->]; [done|by rewrite andb_false_r]). rewrite Hassert. cbn [mbind result_bind].
  set (r1 := with_pto _ r). destruct (set_timer_eq instant_max now r1) as [t Htm]. set (p := if negb _ then _ else _). exists p, (set_timer instant_max now r1). split; [done|]. split; [|].
  - apply set_timer_inv; [|done]. change (flight r1) with (flight r). destruct Hc as [C1 C2 C3 C4 C5]. split; try done. change (0 <= u32 (pto_count r + 1) <= U32_MAX). unfold u32.
    assert (H := Z.mod_pos_bound (pto_count r + 1) (U32_MAX + 1) ltac:(unfold U32_MAX; lia)). lia.
  - rewrite Htm. split; [done|]. split; [|done]. unfold p. by destruct (any_ack_eliciting_in_flight r).
Qed.

(** ** Giving up *)

Lemma new_space_ok : space_ok (T:=T) new_space.
Proof. split; cbn; try done; try lia. split; [constructor|]. intros k p H. by apply elem_of_nil in H. Qed.

Lemma bytes_sum l n : (forall p, p ∈ l -> 0 <= bytes_of p) -> 0 <= n -> n + total bytes_of l <= limit ->
  fold_left (fun n p => u64 (n + size p)) (List.filter in_flight l) n = n + total bytes_of l.
Proof.
  revert n. induction l as [|p l IH]; intros n Hb Hn Hl; [cbn; lia|]. cbn [total foldr] in Hl |- *. fold (total bytes_of l) in *. assert (Hp := Hb p ltac:(left)).
  assert (H0 : 0 <= total bytes_of l) by (apply measure_nonneg; intros q Hq; apply Hb; by right). assert (Hb' : forall q, q ∈ l -> 0 <= bytes_of q) by (intros q Hq; apply Hb; by right).
  change (bytes_of p) with (if in_flight p then size p else 0) in *. cbn [List.filter]. destruct (in_flight p); [|rewrite IH by (done || lia); lia].
  cbn [fold_left]. rewrite limit_u64 by lia. rewrite IH by (done || lia). lia.
Qed.

Lemma discard_ok B now sp r : inv B r ->
  let '(gone, r') := discard_space instant_max now sp r in
  gone = outstanding sp r /\ inv B r' /\ space_of r' sp = new_space /\ (forall sp', sp' <> sp -> space_of r' sp' = space_of r sp').
Proof.
  intros [Hc Hs Ht]. unfold discard_space. assert (Hp := so_packets _ (Hs sp)). set (s := space_of r sp) in *.
  destruct (part_bytes (fun _ => true) _ Hp) as [Hb1 Hb2]. rewrite filter_all in Hb1, Hb2 by done.
  assert (Hfl := flight_space r sp Hs). fold s in Hfl.
  assert (Hlim := core_flight _ _ Hc). change (total bytes_of (List.map snd (sent s))) with (bytes_in (sent s)) in Hb2.
  rewrite bytes_sum; [|done|done|change (total bytes_of (outstanding sp r)) with (bytes_in (sent s)); lia]. change (total bytes_of (outstanding sp r)) with (bytes_in (sent s)). rewrite Z.add_0_l.
  set (r1 := with_pto 0 _). assert (Hr1 : (forall sp', space_of r1 sp' = space_of (with_space sp new_space r) sp') /\ rtt r1 = rtt r /\ max_ack_delay r1 = max_ack_delay r /\ pto_count r1 = 0 /\ cc r1 = on_discarded (bytes_in (sent s)) (cc r) /\ pacer r1 = pacer r) by (unfold r1; by destruct (decide (sp = Handshake))).
  destruct Hr1 as (Hsp1 & Hr1 & Hd1 & Hp1 & Hc1 & Hpa1). destruct (set_timer_eq instant_max now r1) as [t Htm]. split; [done|]. split; [|rewrite Htm; split; [transitivity (space_of r1 sp); [done|]; rewrite Hsp1; apply space_of_same|intros sp' Hne; transitivity (space_of r1 sp'); [done|]; rewrite Hsp1; by apply space_of_other]].
  apply set_timer_inv.
  - rewrite (flight_same _ _ Hsp1), flight_with. fold s. change (bytes_in (sent new_space)) with 0. rewrite Z.add_0_r. destruct Hc as [C1 C2 C3 C4 C5].
    split; [by rewrite Hr1|by rewrite Hd1|rewrite Hp1; unfold U32_MAX; lia|rewrite Hc1; apply cc_discarded; [lia|done]|by rewrite Hpa1].
  - intros sp'. rewrite Hsp1. destruct (decide (sp' = sp)) as [->|Hne]; [rewrite space_of_same; apply new_space_ok|rewrite space_of_other by done; apply Hs].
Qed.

Definition all_outstanding r : list (Sent (T:=T)) := List.concat (List.map (fun sp => outstanding sp r) ALL).

Lemma retry_ok B first r : inv B r -> 2 ^ 18 <= B -> (forall f, first = Some f -> 0 <= f) ->
  let '(gone, r') := reset first r in
  gone = all_outstanding r /\ inv B r' /\ (forall sp, space_of r' sp = new_space) /\ timer r' = None.
Proof.
  intros [Hc Hs Ht] HB Hf. unfold reset. split; [done|]. split; [|by split; [intros []|]]. destruct Hc as [[R1 R2 R3 R4] C2 C3 C4 C5]. split.
  - assert (Hcc := cc_new (Congestion.max_datagram_size (cc r)) (cco_mds _ _ _ C4)). destruct Hcc as [D1 D2 D3 D4 D5 D6]. split; [|done|cbn; unfold U32_MAX; lia| |].
    + cbn [rtt]. destruct first as [f|]; [|done]. specialize (Hf f eq_refl). assert (Hm : 0 <= MAX_RTT) by (vm_compute; discriminate). split; cbn; try done; try lia. split; [apply Z.div_pos; lia|apply Z.div_le_upper_bound; lia].
    + split; try done. change (flight _) with 0. destruct C4 as [_ _ _ [_ HBl] _ _]. cbn [cc]. lia.
    + apply pacer_new_ok. destruct C4. unfold U64_MAX. cbn. lia.
  - intros []; apply new_space_ok.
  - split; [by intros []|]. unfold probing. cbn. by rewrite andb_false_r.
Qed.

(** ** What a connection does *)

Inductive call : Type :=
| Send (now : Z) (sp : Space) (p : Sent (T:=T))
| Ack (now : Z) (sp : Space) (largest delay : Z) (ranges : list (Z * Z))
| Expired (now : Z)
| Discard (now : Z) (sp : Space)
| Retry (first : option Z)
| Confirm (now : Z)
| HaveKeys (have : bool)
| MaxDelay (d : Z)
| DatagramSize (n : Z)
| AskSend (now : Z).

(** A call, and the packets it hands back: acknowledged, lost or given up. *)
Definition step (c : call) r : result fault (list (Sent (T:=T)) * Recovery (T:=T)) :=
  match c with
  | Send now sp p => Ok ([], on_packet_sent instant_max now sp p r)
  | Ack now sp largest delay ranges => '(acked, lost, r) ← on_ack_received instant_max now sp largest delay ranges r; Ok (acked ++ lost, r)
  | Expired now => '(o, r) ← on_timeout instant_max now r; Ok (timeout_lost o, r)
  | Discard now sp => Ok (discard_space instant_max now sp r)
  | Retry first => Ok (reset first r)
  | Confirm now => Ok ([], on_handshake_confirmed instant_max now r)
  | HaveKeys have => Ok ([], set_handshake_keys have r)
  | MaxDelay d => Ok ([], Recovery.set_max_ack_delay d r)
  | DatagramSize n => Ok ([], Recovery.set_max_datagram_size n r)
  | AskSend now => '(_, r) ← Recovery.next_send_time instant_max now r; Ok ([], r)
  end.

(** What the connection keeps to: packet numbers are not used twice, ranges
    end after they start, the timer is only said to expire when it is set,
    delays and sizes are those the protocol allows. *)
Definition fits r (c : call) : Prop :=
  match c with
  | Send _ sp p => 0 <= pn p < 2 ^ 62 /\ 0 <= size p <= 65535 /\ Forall (fun q => pn q <> pn p) (outstanding sp r)
  | Ack _ _ largest delay ranges => 0 <= largest < 2 ^ 62 /\ 0 <= delay <= DURATION_MAX - MAX_RTT /\ Forall (fun ab => fst ab <= snd ab) ranges
  | Expired _ => is_Some (timer r)
  | Retry first => forall f, first = Some f -> 0 <= f
  | MaxDelay d => 0 <= d <= millis (2 ^ 14)
  | DatagramSize n => 1200 <= n <= 65535
  | AskSend now => now + NANOS <= instant_max
  | Discard _ _ | Confirm _ | HaveKeys _ => True
  end.

Definition sent_by (c : call) : list (Sent (T:=T)) := match c with Send _ _ p => [p] | _ => [] end.

(** What a call takes from the budget that bounds every sum of bytes. *)
Definition cost (c : call) : Z := match c with Send _ _ p => size p | DatagramSize _ => 2 ^ 17 | _ => 0 end.

(** The states a connection reaches, with what was sent and what was settled
    on the way. *)
Inductive reached : Z -> list (Sent (T:=T)) -> list (Sent (T:=T)) -> Recovery (T:=T) -> Prop :=
| reached_new mds : 1200 <= mds <= 65535 -> reached (2 ^ 18) [] [] (Recovery.new mds)
| reached_step B all settled r c o r' :
    reached B all settled r -> fits r c -> B + cost c <= limit -> step c r = Ok (o, r') ->
    reached (B + cost c) (all ++ sent_by c) (settled ++ o) r'.

(** *** The invariant holds *)

Lemma outstanding_split (P : Z * Sent (T:=T) -> bool) m : List.map snd m ≡ₚ List.map snd (List.filter P m) ++ List.map snd (List.filter (fun e => negb (P e)) m).
Proof. rewrite <- map_app. apply Permutation_map. by rewrite filter_split. Qed.

(** Replacing one space. *)
Lemma all_replace r r' sp l : (forall sp', sp' <> sp -> outstanding sp' r' = outstanding sp' r) -> outstanding sp r ≡ₚ l ++ outstanding sp r' ->
  all_outstanding r ≡ₚ l ++ all_outstanding r'.
Proof.
  intros Hother Hsp. unfold all_outstanding, ALL. cbn [List.map List.concat]. rewrite !app_nil_r. destruct sp.
  - rewrite Hsp, (Hother Handshake), (Hother Application) by done. by rewrite <- app_assoc.
  - rewrite Hsp, (Hother Initial), (Hother Application) by done. rewrite <- app_assoc. rewrite (Permutation_app_swap_app _ l). done.
  - rewrite Hsp, (Hother Initial), (Hother Handshake) by done. rewrite (app_assoc (outstanding Initial r)), (Permutation_app_swap_app _ l), <- app_assoc. done.
Qed.

Lemma new_inv mds : 1200 <= mds <= 65535 -> inv (T:=T) (2 ^ 18) (Recovery.new mds).
Proof.
  intros Hm. split.
  - split; [split|..]; cbn [rtt max_ack_delay pto_count cc pacer Recovery.new latest_rtt smoothed_rtt rttvar min_rtt]; [vm_compute; split; discriminate..| |].
    + by apply cc_new.
    + apply pacer_new_ok. unfold U64_MAX. lia.
  - intros []; apply new_space_ok.
  - split; [by intros []|done].
Qed.

Lemma get_fresh sp k r : packets_ok (sent (space_of r sp)) -> Forall (fun q => pn q <> k) (outstanding sp r) -> BTree.get k (sent (space_of r sp)) = None.
Proof.
  intros [Hs Hp] Hf. apply get_none. intros p Hin. destruct (Hp k p Hin) as [Hk _]. rewrite Forall_forall in Hf. destruct (Hf p); [|done].
  apply list_elem_of_In. change p with (snd (k, p)). apply in_map. by apply list_elem_of_In.
Qed.

Lemma ack_nothing_inv B sp largest ranges r : inv B r -> 0 <= largest < 2 ^ 62 -> sent (after_ack ranges largest (space_of r sp)) = sent (space_of r sp) ->
  inv B (with_space sp (after_ack ranges largest (space_of r sp)) r).
Proof.
  intros [Hc Hs Ht] HL Hsame. set (s := space_of r sp) in *. split.
  - assert (Hfl : flight (with_space sp (after_ack ranges largest s) r) = flight r) by (rewrite flight_with, Hsame; fold s; lia). rewrite Hfl. by destruct Hc.
  - intros sp'. destruct (decide (sp' = sp)) as [->|Hne]; [|rewrite space_of_other by done; apply Hs]. rewrite space_of_same. destruct (Hs sp) as [K1 K2 K3 K4 K5]. fold s in K1, K2, K3, K4, K5. split; rewrite ?Hsame; try done.
    intros n [= <-]. destruct (largest_acked s) as [p|]; [|done]. specialize (K4 p eq_refl). lia.
  - apply (timer_ok_same r); try done. intros sp'. destruct (decide (sp' = sp)) as [->|Hne]; [by rewrite space_of_same|by rewrite space_of_other].
Qed.

(** A call that fits goes through, keeps the invariant, and hands each packet
    back once. *)
Lemma step_ok B r c : inv B r -> 2 ^ 18 <= B -> fits r c -> B + cost c <= limit ->
  exists o r', step c r = Ok (o, r') /\ inv (B + cost c) r' /\ sent_by c ++ all_outstanding r ≡ₚ o ++ all_outstanding r'.
Proof.
  intros Hi HB Hf Hl. assert (Hid : forall r', spaces r' = spaces r -> all_outstanding r ≡ₚ all_outstanding r') by (intros r' Hr; unfold all_outstanding, outstanding, space_of; by rewrite Hr).
  destruct c as [now sp p|now sp largest delay ranges|now|now sp|first|now|have|d|n|now]; cbn [step fits cost sent_by] in *; rewrite ?Z.add_0_r in *; cbn [app].
  - destruct Hf as (Hpn & Hz & Hfr). assert (Hp := so_packets _ (inv_spaces _ _ Hi sp)). assert (Hg := get_fresh sp _ r Hp Hfr).
    destruct (sent_ok B now sp p r Hi Hpn Hz Hg Hl) as (Hi' & Hs & Ho). eexists _, _. split; [done|]. split; [done|]. cbn [app].
    symmetry. apply (all_replace _ _ sp [p]); [intros sp' Hne; unfold outstanding; by rewrite Ho|]. unfold outstanding. rewrite Hs. change ([p] ++ ?l) with (List.map snd [(pn p, p)] ++ l). rewrite <- map_app. by apply Permutation_map, insert_perm, Hg; apply Hp.
  - destruct Hf as (HL & Hd & Hr). assert (Hp := so_packets _ (inv_spaces _ _ Hi sp)). destruct (list.last (acked_of ranges (space_of r sp))) as [newest|] eqn:Hlast.
    + destruct (ack_something B now sp largest delay ranges r newest Hi HL Hr Hd Hlast) as (r' & -> & Hi' & Hrtt & Hsp & Ho). cbn [mbind result_bind]. eexists _, _. split; [done|]. split; [done|].
      apply (all_replace _ _ sp); [intros sp' Hne; unfold outstanding; by rewrite Ho|]. unfold outstanding. rewrite Hsp. rewrite <- app_assoc. unfold acked_of, lost_of. rewrite <- outstanding_split. apply outstanding_split.
    + apply last_None in Hlast. destruct (ack_nothing now sp largest delay ranges r Hp Hr Hlast) as [-> Hsame]. cbn [mbind result_bind]. eexists _, _. split; [done|]. split.
      * by apply ack_nothing_inv.
      * apply (all_replace _ _ sp); [intros sp' Hne; unfold outstanding; by rewrite space_of_other|]. unfold outstanding. by rewrite space_of_same, Hsame.
  - destruct (loss_time_and_space r) as [[t sp]|] eqn:Hlt.
    + destruct (timeout_loss B now t sp r Hi Hlt) as (L & r' & HL & -> & Hi' & Hrtt & Hsp & Ho). cbn [mbind result_bind timeout_lost]. eexists _, _. split; [done|]. split; [done|].
      apply (all_replace _ _ sp); [intros sp' Hne; unfold outstanding; by rewrite Ho|]. unfold outstanding. rewrite Hsp. apply outstanding_split.
    + destruct (timeout_probe B now r Hi Hlt Hf) as (p & r' & -> & Hi' & Hsp & _). cbn [mbind result_bind timeout_lost]. eexists _, _. split; [done|]. split; [done|]. by apply Hid.
  - assert (H := discard_ok B now sp r Hi). destruct (discard_space instant_max now sp r) as [gone r']. destruct H as (-> & Hi' & Hsp & Ho). eexists _, _. split; [done|]. split; [done|].
    apply (all_replace _ _ sp); [intros sp' Hne; unfold outstanding; by rewrite Ho|]. unfold outstanding at 3. rewrite Hsp. by rewrite app_nil_r.
  - assert (H := retry_ok B first r Hi HB Hf). destruct (reset first r) as [gone r']. destruct H as (-> & Hi' & Hsp & _). eexists _, _. split; [done|]. split; [done|].
    unfold all_outstanding at 3, outstanding, ALL. cbn [List.map List.concat]. rewrite !Hsp. by rewrite app_nil_r.
  - eexists _, _. split; [done|]. destruct (set_timer_eq instant_max now (with_confirmed true r)) as [t Ht]. split; [|unfold on_handshake_confirmed; rewrite Ht; by apply Hid]. apply set_timer_inv; [by destruct Hi as [[] _ _]|apply Hi].
  - eexists _, _. split; [done|]. split; [|by apply Hid]. destruct Hi as [[] H2 H3]. split; [done|done|by apply (timer_ok_same r)].
  - eexists _, _. split; [done|]. split; [|by apply Hid]. destruct Hi as [[] H2 H3]. split; [done|done|by apply (timer_ok_same r)].
  - eexists _, _. split; [done|]. split; [|by apply Hid]. destruct Hi as [[C1 C2 C3 C4 C5] H2 H3]. split; [|done|by apply (timer_ok_same r)]. split; try done.
    + by apply cc_datagram.
    + split; [apply C5|]. unfold U64_MAX. cbn. lia.
  - destruct Hi as [[C1 C2 C3 C4 C5] H2 H3]. unfold Recovery.next_send_time.
    assert (Hg : good_rate (pacing_rate r)).
    { apply rate_good; [destruct C4; unfold limit, U64_MAX in *; lia|]. destruct C1. assert (MAX_RTT <= DURATION_MAX) by (vm_compute; discriminate). lia. }
    destruct (next_send_time_ok instant_max now _ _ C5 Hg Hf) as (w & -> & _). cbn [mbind result_bind]. eexists _, _. split; [done|]. split; [|by apply Hid].
    split; [|done|by apply (timer_ok_same r)]. split; try done. by apply (refill_ok now (pacing_rate r)).
Qed.
End calls.
