(* ===== verification/LossDetection.v ===== *)
(** The properties of loss detection ([recovery.rs]) over everything a
    connection can do: packets are settled once and the accounting is exact,
    losses are those of the thresholds, the timer is set when something waits
    for it, the estimates stay bounded, and persistent congestion is what its
    comment says. *)

From Stdlib Require Import ZArith Lia SpecFloat.
From stdpp Require Import base option numbers list sorting.
From S2P Require Import Prelude BTree Slice Float Congestion Pacer Recovery RecoveryOk RecoveryRun.

#[local] Open Scope Z_scope.

Section properties.
Context (instant_max : Z) {T : Type}.
Implicit Types (m : list (Z * Sent (T:=T))) (r : Recovery (T:=T)) (l lost : list (Sent (T:=T))).

Lemma reached_inv B all settled r : reached instant_max B all settled r -> inv B r /\ 2 ^ 18 <= B /\ all ≡ₚ settled ++ all_outstanding r.
Proof.
  induction 1 as [mds Hm|B all settled r c o r' Hr (Hi & HB & Hp) Hf Hl Hs].
  - split; [by apply new_inv|]. split; [done|]. done.
  - destruct (step_ok instant_max B r c Hi HB Hf Hl) as (o1 & r1 & Hs1 & Hi1 & Hp1). rewrite Hs in Hs1. injection Hs1 as <- <-. split; [done|]. split; [destruct c; cbn in *; lia|].
    rewrite Hp. rewrite <- !app_assoc. rewrite <- Hp1. by rewrite (Permutation_app_comm (sent_by c)).
Qed.

Lemma bytes_all r : total bytes_of (all_outstanding r) = flight r.
Proof. unfold all_outstanding, flight, ALL. cbn [List.map List.concat]. rewrite !total_app. unfold bytes_in, outstanding. cbn [total foldr]. lia. Qed.

(** Packets by what they say of themselves, not by their key. *)
Lemma filter_values (P : Z * Sent (T:=T) -> bool) (Q : Sent (T:=T) -> bool) m : (forall k p, (k, p) ∈ m -> P (k, p) = Q p) ->
  List.map snd (List.filter P m) = List.filter Q (List.map snd m).
Proof.
  induction m as [|[k p] m IH]; intros H; [done|]. cbn [List.filter List.map snd]. rewrite (H k p) by left. assert (IH' : forall k p, (k, p) ∈ m -> P (k, p) = Q p) by (intros; apply H; by right).
  destruct (Q p); cbn [List.map snd]; by rewrite IH.
Qed.

(** Lost: as old as the time threshold, or as far behind as the packet
    threshold, of the largest acknowledged. *)
Definition lost_at (now d L : Z) (p : Sent (T:=T)) : bool := (pn p <=? L) && ((d <=? now - time p) || (pn p + 3 <=? L)).

Lemma granularity_pos : 0 < Recovery.GRANULARITY.
Proof. by vm_compute. Qed.

Lemma lost_entry_at now e L m k p : packets_ok m -> (k, p) ∈ m -> lost_entry now (delay_of e) L (k, p) = lost_at now (delay_of e) L p.
Proof.
  intros [_ Hp] Hin. destruct (Hp k p Hin) as (<- & Hk & _). unfold lost_entry, is_lost, lost_at, PACKET_THRESHOLD. cbn [fst snd]. rewrite u64_small by (unfold U64_MAX; lia). f_equal. f_equal.
  assert (Hd : 0 < delay_of e) by (assert (H := granularity_pos); unfold delay_of; lia). unfold since. destruct (Z.leb_spec (delay_of e) (now - time p)), (Z.leb_spec (delay_of e) (Z.max 0 (now - time p))); (done || lia).
Qed.

(** The packets that are left, and when the next of them is lost. *)
Definition kept (now d L : Z) l : list (Sent (T:=T)) := List.filter (fun p => negb (lost_at now d L p)) l.

Definition next_of (d L : Z) l : option Z := earliest (List.map (fun p => later instant_max (time p) d) (List.filter (fun p => pn p <=? L) l)).

Lemma lost_values now e L s : packets_ok (sent s) -> let l := List.map snd (sent s) in let d := delay_of e in
  lost_of now d L s = List.filter (lost_at now d L) l /\ List.map snd (sent (after_loss instant_max now d L s)) = kept now d L l /\
  loss_time (after_loss instant_max now d L s) = next_of d L (kept now d L l).
Proof.
  intros Hp l d. split; [|split].
  - apply filter_values. intros k p Hin. by apply (lost_entry_at _ _ _ (sent s)).
  - apply filter_values. intros k p Hin. f_equal. by apply (lost_entry_at _ _ _ (sent s)).
  - cbn [after_loss loss_time]. unfold next_loss, next_of, kept. rewrite filter_filter. f_equal. unfold l. clear l. destruct Hp as [_ Hp].
    assert (Hx : forall e', e' ∈ sent s -> (fst e' <=? L) && negb (lost_entry now d L e') = negb (lost_at now d L (snd e')) && (pn (snd e') <=? L)).
    { intros [k p] Hin. destruct (Hp k p Hin) as (<- & Hk & _). rewrite (lost_entry_at now e L [(pn p, p)]); [cbn [fst snd]; apply andb_comm| |left].
      split; [repeat constructor|]. intros k' p' H. apply list_elem_of_singleton in H as [= -> ->]. by destruct (Hp _ _ Hin). }
    clear Hp. induction (sent s) as [|e' m IH]; [done|]. cbn [List.filter List.map]. rewrite (Hx e') by left. assert (IH' := IH ltac:(intros x H; apply Hx; by right)). destruct (_ && _); cbn [List.map]; by rewrite IH'.
Qed.

(** ** The properties *)

(** C33: loss detection settles every packet exactly once.  In every state a
    connection can reach, what it sent is what was handed back (acknowledged,
    lost or given up) together with what is outstanding; the bytes in flight
    and the counts of ack-eliciting packets are those of the packets
    outstanding; and the next call goes through, whatever it is: no
    arithmetic of durations overflows, no listed packet is missing, no
    assertion fails. *)
Theorem recovery_settles B all settled r : reached instant_max B all settled r ->
  all ≡ₚ settled ++ all_outstanding r /\
  Congestion.in_flight (cc r) = total bytes_of (all_outstanding r) /\
  (forall sp, ack_eliciting_in_flight (space_of r sp) = len (List.filter eliciting (outstanding sp r))) /\
  (forall c, fits instant_max r c -> B + cost c <= limit -> exists o r', step instant_max c r = Ok (o, r')).
Proof.
  intros Hr. destruct (reached_inv _ _ _ _ Hr) as (Hi & HB & Hp). split; [done|]. split; [|split].
  - rewrite bytes_all. apply (co_cc _ _ _ (inv_core _ _ Hi)).
  - intros sp. rewrite (so_count _ (inv_spaces _ _ Hi sp)). unfold len. by rewrite total_count.
  - intros c Hf Hl. destruct (step_ok instant_max B r c Hi HB Hf Hl) as (o & r' & Hs & _). by exists o, r'.
Qed.

(** C34: an acknowledgment hands back the outstanding packets of its ranges,
    in order, and declares lost, of the rest, exactly those that a time or a
    packet threshold says, with the estimate as this acknowledgment leaves it
    (a sample is taken if its largest packet is new and something it
    acknowledges needed an acknowledgment).  The packets of other spaces, and
    an acknowledgment that tells nothing new, settle nothing.  The space's
    loss time is when the next of the remaining packets is lost.  The timer
    for that loses packets by the same rule. *)
Theorem loss_detection B all settled r sp : reached instant_max B all settled r ->
  let out := outstanding sp r in
  (forall now largest delay ranges, fits instant_max r (Ack now sp largest delay ranges) ->
   let acked := List.filter (fun p => covered ranges (pn p)) out in let rest := List.filter (fun p => negb (covered ranges (pn p))) out in
   exists lost r', on_ack_received instant_max now sp largest delay ranges r = Ok (acked, lost, r') /\
     (forall sp', sp' <> sp -> space_of r' sp' = space_of r sp') /\
     match list.last acked with
     | None => lost = [] /\ outstanding sp r' = out /\ rtt r' = rtt r
     | Some newest =>
         let e := sampled now sp largest delay acked newest r in let d := delay_of e in
         let L := match largest_acked (space_of r sp) with Some p => Z.max p largest | None => largest end in
         rtt r' = e /\ lost = List.filter (lost_at now d L) rest /\ outstanding sp r' = kept now d L rest /\
         largest_acked (space_of r' sp) = Some L /\ loss_time (space_of r' sp) = next_of d L (kept now d L rest)
     end) /\
  (forall now t, loss_time_and_space r = Some (t, sp) ->
   exists L r', largest_acked (space_of r sp) = Some L /\ let d := delay_of (rtt r) in
     on_timeout instant_max now r = Ok (mk_timeout sp (List.filter (lost_at now d L) out) None, r') /\
     (forall sp', sp' <> sp -> space_of r' sp' = space_of r sp') /\
     outstanding sp r' = kept now d L out /\ loss_time (space_of r' sp) = next_of d L (kept now d L out)).
Proof.
  intros Hr out. destruct (reached_inv _ _ _ _ Hr) as (Hi & HB & _). assert (Hp := so_packets _ (inv_spaces _ _ Hi sp)). set (s := space_of r sp) in *. split.
  - intros now largest delay ranges (HL & Hd & Hf) acked rest.
    assert (Ha : acked_of ranges s = acked) by (apply filter_values; intros k p Hin; by destruct (proj2 Hp k p Hin) as (-> & _)).
    assert (Hrest : List.map snd (sent (after_ack ranges largest s)) = rest) by (apply filter_values; intros k p Hin; by destruct (proj2 Hp k p Hin) as (-> & _)).
    destruct (list.last acked) as [newest|] eqn:Hlast.
    + rewrite <- Ha in Hlast. destruct (ack_something instant_max B now sp largest delay ranges r newest Hi HL Hf Hd Hlast) as (r' & Hack & Hi' & Hrtt & Hsp & Ho). fold s in Hack, Hrtt, Hsp. rewrite Ha in Hack, Hrtt, Hsp.
      destruct (lost_values now (sampled now sp largest delay acked newest r) (match largest_acked s with Some p => Z.max p largest | None => largest end) (after_ack ranges largest s) (packets_filter _ _ Hp)) as (Hv1 & Hv2 & Hv3).
      rewrite Hrest in Hv1, Hv2, Hv3. eexists _, r'. split; [exact Hack|]. split; [done|]. split; [done|]. split; [exact Hv1|]. unfold outstanding. rewrite Hsp. split; [exact Hv2|]. split; [done|exact Hv3].
    + apply last_None in Hlast. assert (Hnil : acked_of ranges s = []) by congruence. destruct (ack_nothing instant_max now sp largest delay ranges r Hp Hf Hnil) as [Hack Hsame]. rewrite Hlast.
      eexists _, _. split; [exact Hack|]. split; [intros sp' Hne; by apply space_of_other|]. split; [done|]. split; [|done]. unfold outstanding. rewrite space_of_same. by rewrite Hsame.
  - intros now t Hlt. destruct (timeout_loss instant_max B now t sp r Hi Hlt) as (L & r' & HL & Hto & _ & _ & Hsp & Ho). fold s in HL, Hto, Hsp.
    destruct (lost_values now (rtt r) L s Hp) as (Hv1 & Hv2 & Hv3). exists L, r'. split; [done|]. cbn zeta. split; [by rewrite Hto, Hv1|]. split; [done|]. unfold outstanding. rewrite Hsp. done.
Qed.

(** *** Probe timeouts *)

(** The probe timeout of a space, without saturation: twice as long after
    each one in a row, up to 2^20 times. *)
Definition pto_length r sp : Z :=
  (smoothed_rtt (rtt r) + Z.max (rttvar (rtt r) * 4) Recovery.GRANULARITY + if decide (sp = Application) then max_ack_delay r else 0) * 2 ^ Z.min (pto_count r) 20.

Definition eligible r sp : Prop := 0 < ack_eliciting_in_flight (space_of r sp) /\ (sp = Application -> handshake_confirmed r = true).

Lemma backoff_bound r : 0 <= pto_count r -> 1 <= backoff r <= 2 ^ 20.
Proof.
  intros H. unfold backoff. split; [|apply Z.pow_le_mono_r; lia]. change 1 with (2 ^ 0) at 1. apply Z.pow_le_mono_r; lia.
Qed.

Lemma pto_bounds B out r : core B out r ->
  let base := smoothed_rtt (rtt r) + Z.max (rttvar (rtt r) * 4) Recovery.GRANULARITY in
  0 <= base <= MAX_RTT * 5 /\ pto_base r = base /\ sat_mul DURATION_MAX (pto_base r) (backoff r) = base * backoff r /\
  sat_add DURATION_MAX (base * backoff r) (sat_mul DURATION_MAX (max_ack_delay r) (backoff r)) = (base + max_ack_delay r) * backoff r.
Proof.
  intros Hc base. destruct (co_rtt _ _ _ Hc) as [H1 H2 H3 H4]. assert (Hd := co_delay _ _ _ Hc). assert (Hb := backoff_bound r (proj1 (co_pto _ _ _ Hc))).
  assert (Hg : 0 < Recovery.GRANULARITY /\ Recovery.GRANULARITY <= MAX_RTT) by (vm_compute; split; [done|discriminate]). assert (Hbase : 0 <= base <= MAX_RTT * 5) by (unfold base; lia).
  assert (Hbig : MAX_RTT * 5 * 2 ^ 20 + millis (2 ^ 14) * 2 ^ 20 <= DURATION_MAX) by (vm_compute; discriminate).
  assert (Hpb : pto_base r = base) by (unfold pto_base, base, sat_add, sat_mul in *; lia). split; [done|]. split; [done|]. rewrite Hpb. unfold sat_add, sat_mul.
  assert (base * backoff r <= MAX_RTT * 5 * 2 ^ 20) by nia. assert (0 <= max_ack_delay r * backoff r <= millis (2 ^ 14) * 2 ^ 20) by nia. lia.
Qed.

(** What a space offers the loop of [pto_time_and_space]. *)
Definition offer r sp : option Z :=
  if (ack_eliciting_in_flight (space_of r sp) =? 0) || (bool_decide (sp = Application) && negb (handshake_confirmed r)) then None
  else (fun k => later instant_max k (pto_length r sp)) <$> last_ack_eliciting (space_of r sp).

Definition pick r (best : option (Z * Space)) sp : option (Z * Space) :=
  match offer r sp with
  | Some t => match best with Some (b, _) => if t <? b then Some (t, sp) else best | None => Some (t, sp) end
  | None => best
  end.

Lemma pto_length_sat B out r sp : core B out r ->
  (let d := sat_mul DURATION_MAX (pto_base r) (backoff r) in
   if decide (sp = Application) then sat_add DURATION_MAX d (sat_mul DURATION_MAX (max_ack_delay r) (backoff r)) else d) = pto_length r sp.
Proof.
  intros Hc. destruct (pto_bounds _ _ _ Hc) as (_ & _ & Hm & Ha). cbn zeta. rewrite Hm. unfold pto_length. fold (backoff r). destruct (decide _); [done|]. by rewrite Z.add_0_r.
Qed.

Lemma pto_loop_pick B out r : core B out r -> pto_loop instant_max r ALL None = fold_left (pick r) ALL None.
Proof.
  intros Hc. assert (Hstep : forall sp sps best, sp <> Application \/ sps = [] -> pto_loop instant_max r (sp :: sps) best = pto_loop instant_max r sps (pick r best sp)).
  { intros sp sps best Hs. cbn [pto_loop]. assert (Hl := pto_length_sat _ _ r sp Hc). cbn zeta in Hl. rewrite Hl. unfold pick, offer. destruct (_ =? 0); [done|]. cbn [orb].
    destruct (bool_decide (sp = Application)) eqn:Hb; cbn [andb]; [|by destruct (last_ack_eliciting (space_of r sp))].
    apply bool_decide_eq_true in Hb. destruct Hs as [Hs| ->]; [done|]. destruct (handshake_confirmed r); cbn [negb]; [|done]. by destruct (last_ack_eliciting (space_of r sp)). }
  unfold ALL. rewrite Hstep by (by left). rewrite Hstep by (by left). rewrite Hstep by (by right). done.
Qed.

Lemma pick_least r best t sp sps : fold_left (pick r) sps best = Some (t, sp) ->
  (best = Some (t, sp) \/ (sp ∈ sps /\ offer r sp = Some t)) /\ (forall b sp', best = Some (b, sp') -> t <= b) /\ (forall sp' t', sp' ∈ sps -> offer r sp' = Some t' -> t <= t').
Proof.
  revert best. induction sps as [|sp0 sps IH]; intros best H; cbn [fold_left] in H.
  { subst best. split; [by left|]. split; [intros b sp' [= <- _]; lia|]. intros sp' t' Hin. by apply elem_of_nil in Hin. }
  destruct (IH _ H) as (H1 & H2 & H3). unfold pick in H1, H2. destruct (offer r sp0) as [t0|] eqn:E0.
  - destruct best as [[b spb]|].
    + destruct (Z.ltb_spec t0 b).
      * assert (Ht := H2 _ _ eq_refl). split; [|split].
        -- right. destruct H1 as [[= <- <-]|[H1 H1']]; [split; [left|done]|split; [by right|done]].
        -- intros b' sp' [= <- _]. lia.
        -- intros sp' t' Hin Ho. apply elem_of_cons in Hin as [->|Hin]; [rewrite E0 in Ho; injection Ho as <-; lia|by eapply H3].
      * assert (Ht := H2 _ _ eq_refl). split; [|split].
        -- destruct H1 as [H1|[H1 H1']]; [by left|right; split; [by right|done]].
        -- intros b' sp' [= <- _]. lia.
        -- intros sp' t' Hin Ho. apply elem_of_cons in Hin as [->|Hin]; [rewrite E0 in Ho; injection Ho as <-; lia|by eapply H3].
    + assert (Ht := H2 _ _ eq_refl). split; [|split; [done|]].
      * right. destruct H1 as [[= <- <-]|[H1 H1']]; [split; [left|done]|split; [by right|done]].
      * intros sp' t' Hin Ho. apply elem_of_cons in Hin as [->|Hin]; [rewrite E0 in Ho; injection Ho as <-; lia|by eapply H3].
  - split; [|split; [done|]].
    + destruct H1 as [H1|[H1 H1']]; [by left|right; split; [by right|done]].
    + intros sp' t' Hin Ho. apply elem_of_cons in Hin as [->|Hin]; [congruence|by eapply H3].
Qed.

Lemma offer_eligible r sp k : eligible r sp -> last_ack_eliciting (space_of r sp) = Some k -> offer r sp = Some (later instant_max k (pto_length r sp)).
Proof.
  intros [Hpos Hc] Hk. unfold offer. rewrite (proj2 (Z.eqb_neq _ 0)) by lia. cbn [orb]. rewrite Hk. case_bool_decide as Ha; cbn [andb]; [|done]. by rewrite Hc.
Qed.

Lemma offer_some r sp t : 0 <= ack_eliciting_in_flight (space_of r sp) -> offer r sp = Some t ->
  eligible r sp /\ exists k, last_ack_eliciting (space_of r sp) = Some k /\ t = later instant_max k (pto_length r sp).
Proof.
  intros Hn. unfold offer. destruct (_ =? 0) eqn:E; [done|]. cleanb. cbn [orb]. destruct (bool_decide _ && _) eqn:E2; [done|]. destruct (last_ack_eliciting _) as [k|]; [|done]. intros [= <-].
  split; [|by exists k]. split; [lia|]. intros ->. cbn in E2. by apply negb_false_iff in E2.
Qed.

Lemma loss_time_none r : loss_time_and_space r = None <-> forall sp, loss_time (space_of r sp) = None.
Proof.
  unfold loss_time_and_space, ALL. cbn [fold_left]. split.
  - destruct (loss_time (space_of r Initial)) as [t1|] eqn:E1, (loss_time (space_of r Handshake)) as [t2|] eqn:E2, (loss_time (space_of r Application)) as [t3|] eqn:E3; repeat case_if; try done. by intros _ [].
  - intros H. by rewrite !H.
Qed.

Lemma eligible_probing r : (exists sp, eligible r sp) -> probing r = true.
Proof.
  intros ([] & Hpos & Hc); unfold probing; rewrite (proj2 (Z.ltb_lt 0 _) Hpos); cbn [orb]; [done|by rewrite orb_true_r|]. by rewrite Hc, orb_true_r.
Qed.

Lemma eligible_any r sp : eligible r sp -> any_ack_eliciting_in_flight r = true.
Proof. intros [Hpos _]. unfold any_ack_eliciting_in_flight, ALL. cbn [existsb]. apply Z.ltb_lt in Hpos. destruct sp; rewrite Hpos; by rewrite ?orb_true_r. Qed.

Lemma any_some r : any_ack_eliciting_in_flight r = true -> exists sp, 0 < ack_eliciting_in_flight (space_of r sp).
Proof.
  unfold any_ack_eliciting_in_flight, ALL. cbn [existsb]. intros H. repeat (apply orb_true_iff in H as [H|H]); try done; apply Z.ltb_lt in H; by eexists.
Qed.

(** C35: the one timer is set when something waits for it.  In every state a
    connection can reach: if a space has a loss time, the timer is at the
    earliest of them.  Otherwise it is set if an ack-eliciting packet is in
    flight that has a probe timeout (in Application Data, only once the
    handshake is confirmed), and it is set only if something is in flight or
    the server may wait for the client (so the assertion of [on_timeout]
    holds).  A probe timeout is the earliest, over those spaces, of the last
    ack-eliciting packet plus the timeout doubled for each one before, and
    when it expires a probe is asked for, nothing is lost, and the timer is
    set again if a packet still needs it. *)
Theorem recovery_timer B all settled r : reached instant_max B all settled r ->
  (forall sp t, loss_time (space_of r sp) = Some t -> exists t' sp', timer r = Some t' /\ t' <= t /\ loss_time (space_of r sp') = Some t') /\
  ((forall sp, loss_time (space_of r sp) = None) ->
     ((exists sp, eligible r sp) -> is_Some (timer r)) /\
     (is_Some (timer r) -> (exists sp, 0 < ack_eliciting_in_flight (space_of r sp)) \/ peer_completed_address_validation r = false) /\
     (forall now, is_Some (timer r) -> exists p r', on_timeout instant_max now r = Ok (mk_timeout (space p) [] (Some p), r') /\ spaces r' = spaces r /\ ((exists sp, eligible r sp) -> is_Some (timer r')))) /\
  (forall now sp, eligible r sp -> exists t sp' k, pto_time_and_space instant_max now r = Some (t, sp') /\ eligible r sp' /\
     last_ack_eliciting (space_of r sp') = Some k /\ t = later instant_max k (pto_length r sp') /\
     forall sp'' k', eligible r sp'' -> last_ack_eliciting (space_of r sp'') = Some k' -> t <= later instant_max k' (pto_length r sp'')).
Proof.
  intros Hr. destruct (reached_inv _ _ _ _ Hr) as (Hi & _ & _). assert (Ht := inv_timer _ _ Hi). split; [|split].
  - intros sp t Hlt. destruct (loss_time_and_space r) as [[t' sp']|] eqn:Hl; [|by rewrite (proj1 (loss_time_none r) Hl) in Hlt]. destruct (loss_time_space_spec _ _ _ Hl) as [H1 H2].
    unfold timer_ok in Ht. rewrite Hl in Ht. exists t', sp'. split; [done|]. split; [by eapply H2|done].
  - intros Hno. apply loss_time_none in Hno. unfold timer_ok in Ht. rewrite Hno in Ht. destruct Ht as [Ht1 Ht2]. split; [intros He; by apply Ht2, eligible_probing|]. split.
    + intros Hs. destruct (Ht1 Hs) as [Ha|Hv]; [left; by apply any_some|by right].
    + intros now Hs. destruct (timeout_probe instant_max B now r Hi Hno Hs) as (p & r' & Hto & Hi' & Hsp & _ & _ & Hcf). exists p, r'. split; [done|]. split; [done|]. intros [sp He].
      assert (Ht' := inv_timer _ _ Hi'). unfold timer_ok in Ht'. assert (Hno' : loss_time_and_space r' = None) by (apply loss_time_none; intros sp'; unfold space_of; rewrite Hsp; by apply (proj1 (loss_time_none r) Hno)).
      rewrite Hno' in Ht'. apply Ht', eligible_probing. exists sp. unfold eligible, space_of in *. by rewrite Hsp, Hcf.
  - intros now sp He. unfold pto_time_and_space. rewrite (eligible_any _ _ He). cbn [negb].
    assert (Hl : forall sp, 0 < ack_eliciting_in_flight (space_of r sp) -> is_Some (last_ack_eliciting (space_of r sp))) by (intros sp'; apply (inv_spaces _ _ Hi sp')).
    assert (Hn : forall sp, 0 <= ack_eliciting_in_flight (space_of r sp)) by (intros sp'; rewrite (so_count _ (inv_spaces _ _ Hi sp')); apply eliciting_bound, (inv_spaces _ _ Hi sp')).
    destruct (pto_probing instant_max r Hl Hn (eligible_probing r ltac:(by exists sp))) as [[t sp'] Hp]. rewrite (pto_loop_pick _ _ _ (inv_core _ _ Hi)) in Hp. rewrite (pto_loop_pick _ _ _ (inv_core _ _ Hi)), Hp.
    destruct (pick_least _ _ _ _ _ Hp) as ([H1|[_ H1]] & _ & H3); [done|]. destruct (offer_some _ _ _ (Hn sp') H1) as (He' & k & Hk & Htk). exists t, sp', k. do 4 (split; [done|]).
    intros sp'' k' He'' Hk'. apply (H3 sp''); [|by apply offer_eligible]. unfold ALL. destruct sp''; rewrite !elem_of_cons; auto.
Qed.

(** C36: nothing that is computed of the estimate can overflow.  Whatever the
    times of acknowledgments and the delays the peer reports, the estimates
    stay within a minute, the time threshold is between a millisecond and nine
    eighths of a minute, the sums of durations do not panic, and a probe
    timeout backed off as far as it goes (2^20 times) never saturates.  The
    congestion window stays above two packets and, with the bytes in flight,
    within the budget of what was sent. *)
Theorem recovery_bounds B all settled r : reached instant_max B all settled r ->
  let e := rtt r in let base := smoothed_rtt e + Z.max (rttvar e * 4) Recovery.GRANULARITY in
  (0 <= latest_rtt e <= secs 60 /\ 0 <= smoothed_rtt e <= secs 60 /\ 0 <= rttvar e <= secs 60 /\ 0 <= min_rtt e <= secs 60) /\
  (exists d, loss_delay e = Ok d /\ millis 1 <= d <= secs 60 * 9 / 8) /\
  (forall sp, pto_period sp r = Ok (base + if decide (sp = Application) then max_ack_delay r else 0)) /\
  persistent_duration r = Ok ((base + max_ack_delay r) * 3) /\
  (forall sp, (let d := sat_mul DURATION_MAX (pto_base r) (backoff r) in
               if decide (sp = Application) then sat_add DURATION_MAX d (sat_mul DURATION_MAX (max_ack_delay r) (backoff r)) else d) = pto_length r sp /\
     0 <= pto_length r sp <= (secs 300 + millis (2 ^ 14)) * 2 ^ 20) /\
  2 * Congestion.max_datagram_size (cc r) <= window (cc r) /\ window (cc r) + Congestion.in_flight (cc r) <= B.
Proof.
  intros Hr e base. destruct (reached_inv _ _ _ _ Hr) as (Hi & _ & _). assert (Hc := inv_core _ _ Hi). destruct (co_rtt _ _ _ Hc) as [H1 H2 H3 H4]. assert (Hd := co_delay _ _ _ Hc).
  destruct (pto_bounds _ _ _ Hc) as (Hb1 & Hb2 & Hb3 & Hb4). fold e in H1, H2, H3, H4, Hb1, Hb3, Hb4. fold base in Hb1, Hb2, Hb3, Hb4.
  assert (Hg : 0 < Recovery.GRANULARITY /\ Recovery.GRANULARITY <= MAX_RTT * 9 / 8) by (vm_compute; split; [done|discriminate]).
  split; [done|]. split; [|split; [|split; [|split; [|]]]].
  - exists (delay_of e). split; [by apply loss_delay_ok|]. change (millis 1) with Recovery.GRANULARITY. unfold delay_of. change (secs 60) with MAX_RTT.
    assert (Z.max (latest_rtt e) (smoothed_rtt e) * 9 / 8 <= MAX_RTT * 9 / 8) by (apply Z.div_le_mono; lia). lia.
  - assert (Hbig : MAX_RTT * 5 + millis (2 ^ 14) <= DURATION_MAX) by (vm_compute; discriminate). intros sp. unfold pto_period. fold e. rewrite (dur_mul_ok (rttvar e)) by lia. cbn [mbind result_bind].
    rewrite (dur_add_ok (smoothed_rtt e)) by (unfold base in *; lia). cbn [mbind result_bind]. fold base. destruct (decide _); [|by rewrite Z.add_0_r]. by rewrite dur_add_ok by lia.
  - by apply persistent_duration_ok.
  - intros sp. split; [by apply (pto_length_sat _ _ _ _ Hc)|]. unfold pto_length. fold e base. fold (backoff r). assert (Hbk := backoff_bound r (proj1 (co_pto _ _ _ Hc))).
    assert (0 <= (if decide (sp = Application) then max_ack_delay r else 0) <= millis (2 ^ 14)) by (destruct (decide _); lia). change (secs 300) with (MAX_RTT * 5). nia.
  - destruct (co_cc _ _ _ Hc). split; [done|lia].
Qed.

(** *** Persistent congestion *)

(** A notable packet: it is ack-eliciting and was sent after the first
    sample. *)
Definition notable (first_sample : Z) (p : Sent (T:=T)) : bool := ack_eliciting p && (first_sample <? time p).

(** A notable packet later in a run that began at packet number [n], long after
    [start]. *)
Definition far_after (first_sample duration start n : Z) lost : Prop :=
  exists pre q post, lost = pre ++ q :: post /\ notable first_sample q = true /\ pn q = n + 1 + len pre /\ duration < time q - start.

(** Two packets that count, of one run of packet numbers all lost, further
    apart than the duration. *)
Definition far_apart (first_sample duration : Z) lost : Prop :=
  exists pre p mid q post, lost = pre ++ p :: mid ++ q :: post /\ notable first_sample p = true /\ notable first_sample q = true /\
    pn q = pn p + 1 + len mid /\ duration < time q - time p.

Lemma far_apart_cons fs d p l : far_apart fs d (p :: l) <-> (notable fs p = true /\ far_after fs d (time p) (pn p) l) \/ far_apart fs d l.
Proof.
  split.
  - intros (pre & p' & mid & q & post & Heq & Hp & Hq & Hn & Ht). destruct pre as [|x pre]; injection Heq as -> ->; [left; split; [done|]; by exists mid, q, post|right; by exists pre, p', mid, q, post].
  - intros [[Hp (pre & q & post & -> & Hq & Hn & Ht)]|(pre & p' & mid & q & post & -> & Hp & Hq & Hn & Ht)]; [by exists [], p, pre, q, post|by exists (p :: pre), p', mid, q, post].
Qed.

(** In the order of packet numbers, times going up with them. *)
Definition in_order (p q : Sent (T:=T)) : Prop := pn p < pn q /\ time p <= time q.

Lemma order_pn l n pre q post : StronglySorted in_order l -> Forall (fun p => n < pn p) l -> l = pre ++ q :: post -> n + 1 + len pre <= pn q.
Proof.
  revert n pre. induction l as [|p l IH]; intros n pre Hs Hf Heq; [by destruct pre|]. apply StronglySorted_inv in Hs as [Hs Hall]. apply Forall_cons in Hf as [Hn Hf].
  destruct pre as [|x pre]; injection Heq as -> ->; [unfold len; cbn [length]; lia|]. assert (H := IH (pn x) pre Hs). unfold len in *. cbn [length]. cut (pn x + 1 + Z.of_nat (length pre) <= pn q); [lia|]. apply H; [|done].
  eapply Forall_impl; [exact Hall|]. intros y [Hy _]. done.
Qed.

Lemma far_after_cons fs d start n p l : StronglySorted in_order (p :: l) -> n < pn p ->
  far_after fs d start n (p :: l) <-> pn p = n + 1 /\ ((notable fs p = true /\ d < time p - start) \/ far_after fs d start (pn p) l).
Proof.
  intros Hs Hn. apply StronglySorted_inv in Hs as [Hs Hall]. split.
  - intros (pre & q & post & Heq & Hq & Hpn & Ht). destruct pre as [|x pre]; injection Heq as -> ->; [unfold len in Hpn; cbn [length] in Hpn; split; [lia|by left]|]. unfold len in Hpn. cbn [length] in Hpn.
    assert (H := order_pn (pre ++ q :: post) (pn x) pre q post Hs). assert (Hle : pn x + 1 + len pre <= pn q) by (apply H; [|done]; eapply Forall_impl; [exact Hall|]; by intros y [Hy _]).
    unfold len in *. split; [lia|]. right. exists pre, q, post. unfold len. split; [done|]. split; [done|]. split; [lia|done].
  - intros [Hp [[Hc Ht]|(pre & q & post & -> & Hq & Hpn & Ht)]]; [exists [], p, l; unfold len; cbn [length]; split; [done|]; split; [done|]; split; [lia|done]|].
    exists (p :: pre), q, post. split; [done|]. split; [done|]. split; [|done]. unfold len in *. cbn [length]. lia.
Qed.

Lemma far_after_earlier fs d start start' n l : start <= start' -> far_after fs d start' n l -> far_after fs d start n l.
Proof. intros Hs (pre & q & post & H1 & H2 & H3 & H4). exists pre, q, post. do 3 (split; [done|]). lia. Qed.

(** The loop from a packet on: [run_start] is the first notable packet of
    the run under way. *)
Lemma persistent_loop_spec fs d lost run_start last_pn : 0 <= d -> StronglySorted in_order lost -> Forall (fun p => 0 <= pn p < 2 ^ 62) lost ->
  (forall n, last_pn = Some n -> 0 <= n < 2 ^ 62 /\ Forall (fun p => n < pn p) lost) ->
  (forall start, run_start = Some start -> is_Some last_pn /\ Forall (fun p => start <= time p) lost) ->
  persistent_loop fs d run_start last_pn lost = true <->
  (exists start n, run_start = Some start /\ last_pn = Some n /\ far_after fs d start n lost) \/ far_apart fs d lost.
Proof.
  intros Hd. revert run_start last_pn. induction lost as [|p lost IH]; intros rs lp Hs Hr Hlp Hrs.
  { split; [done|]. intros [(start & n & _ & _ & (pre & q & post & H & _))|(pre & p & mid & q & post & H & _)]; by destruct pre. }
  assert (Hs0 := Hs). apply StronglySorted_inv in Hs as [Hs Hall]. apply Forall_cons in Hr as [Hp Hr]. cbn [persistent_loop].
  assert (Hnext : forall n, Some (pn p) = Some n -> 0 <= n < 2 ^ 62 /\ Forall (fun q => n < pn q) lost) by (intros n [= <-]; split; [done|]; eapply Forall_impl; [exact Hall|]; by intros y [Hy _]).
  assert (Htime : Forall (fun q => time p <= time q) lost) by (eapply Forall_impl; [exact Hall|]; by intros y [_ Hy]).
  set (rs' := if match lp with Some l => _ | None => false end then None else rs).
  (* the run goes on *)
  assert (Hcase : (exists start n, rs = Some start /\ lp = Some n /\ pn p = n + 1 /\ rs' = Some start) \/
     (rs' = None /\ forall start n, rs = Some start -> lp = Some n -> pn p <> n + 1)).
  { unfold rs'. destruct lp as [n|].
    - destruct (Hlp n eq_refl) as [Hn _]. rewrite u64_small by (unfold U64_MAX; lia). destruct (Z.eqb_spec (pn p) (n + 1)); cbn [negb].
      + destruct rs as [start|]; [left; by exists start, n|right; split; [done|]; by intros].
      + right. split; [done|]. by intros start m _ [= <-].
    - destruct rs as [start|]; [destruct (Hrs start eq_refl) as [[x Hx] _]; done|right; split; [done|by intros]]. }
  fold (notable fs p). rewrite far_apart_cons. destruct Hcase as [(start & n & -> & -> & Hpn & ->)|[-> Hno]].
  - destruct (Hlp n eq_refl) as [Hn Hlt]. destruct (Hrs start eq_refl) as [_ Hst]. apply Forall_cons in Hst as [Hstp Hst].
    assert (Hiff : (exists start0 n0, Some start = Some start0 /\ Some n = Some n0 /\ far_after fs d start0 n0 (p :: lost)) <-> (notable fs p = true /\ d < time p - start) \/ far_after fs d start (pn p) lost).
    { split; [intros (a & b & [= <-] & [= <-] & H); by apply far_after_cons in H as [_ H]; [|done|lia]|]. intros H. exists start, n. do 2 (split; [done|]). apply far_after_cons; [done|lia|done]. }
    rewrite Hiff. destruct (notable fs p) eqn:Hc.
    + unfold since. destruct (Z.ltb_spec d (Z.max 0 (time p - start))) as [Hfar|Hnear]; [split; [intros _; left; left; split; [done|lia]|done]|].
      rewrite IH; [|done|done|done|intros s [= <-]; by split]. split.
      * intros [(a & b & [= <-] & [= <-] & H)|H]; [left; by right|right; by right].
      * intros [[[_ H]|H]|[[_ H]|H]]; [lia|left; by exists start, (pn p)| |by right]. left. exists start, (pn p). do 2 (split; [done|]). by apply (far_after_earlier _ _ _ (time p)).
    + rewrite IH; [|done|done|done|intros s [= <-]; by split]. split.
      * intros [(a & b & [= <-] & [= <-] & H)|H]; [left; by right|right; by right].
      * intros [[[H _]|H]|[[H _]|H]]; [done|left; by exists start, (pn p)|done|by right].
  - assert (Hnone : (exists start n, rs = Some start /\ lp = Some n /\ far_after fs d start n (p :: lost)) <-> False).
    { split; [|done]. intros (a & b & Ha & Hb & H). destruct (Hlp b Hb) as [_ Hlt]. apply Forall_cons in Hlt as [Hlt _]. apply far_after_cons in H as [H _]; [|done|done]. by apply (Hno a b). }
    rewrite Hnone. destruct (notable fs p) eqn:Hc.
    + rewrite IH; [|done|done|done|intros s [= <-]; by split]. split.
      * intros [(a & b & [= <-] & [= <-] & H)|H]; [right; left; by split|right; by right].
      * intros [[]|[[_ H]|H]]; [left; by exists (time p), (pn p)|by right].
    + rewrite IH; [|done|done|done|done]. split.
      * intros [(a & b & H & _)|H]; [done|right; by right].
      * intros [[]|[[H _]|H]]; [done|by right].
Qed.

(** *** What a loss does to the window *)

(** A packet in flight was lost that was sent after the present recovery began. *)
Definition fresh_loss (c : NewReno) lost : bool := existsb (fun p => in_flight p && negb (in_recovery (time p) c)) lost.

Definition newer_loss (c : NewReno) (t : option Z) : bool := match t with Some t => negb (in_recovery t c) | None => false end.

Lemma in_recovery_max c t t' : in_recovery (Z.max t t') c = in_recovery t c && in_recovery t' c.
Proof. unfold in_recovery. destruct (recovery_start c); [|done]. apply eq_true_iff_eq. rewrite andb_true_iff, !Z.leb_le. lia. Qed.

(** The bytes of the lost packets leave the count, and nothing else changes. *)
Lemma lost_fold_exact lost : forall (c : NewReno) (t : option Z), (forall p, p ∈ lost -> 0 <= bytes_of p) -> total bytes_of lost <= Congestion.in_flight c ->
  exists t', fold_left (fun '(c, l) p => if in_flight p then (Congestion.on_lost (size p) c, Some match l with Some l => Z.max l (time p) | None => time p end) else (c, l)) lost (c, t) =
    (mk_newreno (Congestion.max_datagram_size c) (window c) (ssthresh c) (Congestion.in_flight c - total bytes_of lost) (recovery_start c) (acked_in_avoidance c), t') /\
    newer_loss c t' = newer_loss c t || fresh_loss c lost.
Proof.
  induction lost as [|p lost IH]; intros c t Hb Ht; cbn [fold_left total foldr fresh_loss existsb]; [exists t; rewrite Z.sub_0_r, orb_false_r; by destruct c|].
  change (foldr (fun q n => bytes_of q + n) 0 lost) with (total bytes_of lost).
  assert (Hp := Hb p ltac:(left)). assert (Hl : 0 <= total bytes_of lost) by (apply measure_nonneg; intros q Hq; apply Hb; by right).
  assert (Hb' : forall q, q ∈ lost -> 0 <= bytes_of q) by (intros q Hq; apply Hb; by right). change (total bytes_of (p :: lost)) with (bytes_of p + total bytes_of lost) in Ht.
  assert (Ep : bytes_of p = if in_flight p then size p else 0) by done. destruct (in_flight p); cbn [andb].
  - assert (E : Congestion.on_lost (size p) c = mk_newreno (Congestion.max_datagram_size c) (window c) (ssthresh c) (Congestion.in_flight c - size p) (recovery_start c) (acked_in_avoidance c))
      by (unfold Congestion.on_lost, sat_sub; f_equal; lia).
    rewrite E. destruct (IH (mk_newreno (Congestion.max_datagram_size c) (window c) (ssthresh c) (Congestion.in_flight c - size p) (recovery_start c) (acked_in_avoidance c))
      (Some match t with Some t => Z.max t (time p) | None => time p end) Hb' ltac:(cbn; lia)) as (t' & -> & H).
    exists t'. cbn [Congestion.max_datagram_size window ssthresh Congestion.in_flight recovery_start acked_in_avoidance]. split; [do 2 f_equal; lia|].
    change (newer_loss c t' = newer_loss c (Some match t with Some t => Z.max t (time p) | None => time p end) || fresh_loss c lost) in H. rewrite H, orb_assoc. f_equal.
    destruct t as [t|]; cbn; [|done]. by rewrite in_recovery_max, negb_andb.
  - rewrite Ep, Z.add_0_l. cbn [orb]. destruct (IH c t Hb') as (t' & H1 & H2); [lia|]. by exists t'.
Qed.

(** C37: persistent congestion is what its comment says, in one pass over the
    lost packets, and the window is what it and the loss make it.  For packets
    in order whose times go up with their numbers, the answer is yes exactly
    if two of them, ack-eliciting and sent after the first sample, are further
    apart than three probe timeouts, with every packet number between them
    lost too.  What the loss leaves of the controller is given whole: the
    bytes of the lost packets are out of the count; with persistent congestion
    the window is two packets, the recovery is ended and the count towards the
    next packet of growth starts over; without it the window is cut to half
    (or two packets), and a recovery begins now, exactly if a packet in flight
    was lost that was sent after the present recovery began, and is as it was
    otherwise. *)
Theorem persistent_congestion B all settled r now lost : reached instant_max B all settled r ->
  StronglySorted in_order lost -> Forall (fun p => 0 <= pn p < 2 ^ 62) lost -> Forall (fun p => 0 <= bytes_of p) lost -> total bytes_of lost <= flight r ->
  exists b, in_persistent_congestion lost r = Ok b /\
    (b = true <-> exists fs, first_rtt_sample (rtt r) = Some fs /\
       far_apart fs ((smoothed_rtt (rtt r) + Z.max (rttvar (rtt r) * 4) (millis 1) + max_ack_delay r) * 3) lost) /\
    let c := cc r in
    let mds := Congestion.max_datagram_size c in
    let struck := fresh_loss c lost in
    let half := Z.max (window c / 2) (2 * mds) in
    on_packets_lost now lost r = Ok (with_cc (mk_newreno mds
      (if b then 2 * mds else if struck then half else window c)
      (if struck then half else ssthresh c)
      (flight r - total bytes_of lost)
      (if b then None else if struck then Some now else recovery_start c)
      (if b || struck then 0 else acked_in_avoidance c)) r).
Proof.
  intros Hr Hs Hp Hb Ht. destruct (reached_inv _ _ _ _ Hr) as (Hi & _ & _). assert (Hc := inv_core _ _ Hi). rewrite Forall_forall in Hb.
  assert (Hdur := persistent_duration_ok r (co_rtt _ _ _ Hc) (co_delay _ _ _ Hc)). change Recovery.GRANULARITY with (millis 1) in Hdur. set (d := (_ * 3)%Z) in *.
  assert (Hd : 0 <= d). { destruct (co_rtt _ _ _ Hc). assert (H := co_delay _ _ _ Hc). unfold d. assert (0 <= millis 1) by (vm_compute; discriminate). lia. }
  assert (Hpers : exists b, (forall c, in_persistent_congestion lost (with_cc c r) = Ok b) /\ (b = true <-> exists fs, first_rtt_sample (rtt r) = Some fs /\ far_apart fs d lost)).
  { unfold in_persistent_congestion. destruct (first_rtt_sample (rtt r)) as [fs|] eqn:Hfs.
    - exists (persistent_loop fs d None None lost). split.
      + intros c. change (rtt (with_cc c r)) with (rtt r). change (persistent_duration (with_cc c r)) with (persistent_duration r). by rewrite Hfs, Hdur.
      + rewrite persistent_loop_spec; [|done..]. split; [intros [(a & b & H & _)|H]; [done|by exists fs]|intros (fs' & [= <-] & H); by right].
    - exists false. split; [intros c; change (rtt (with_cc c r)) with (rtt r); by rewrite Hfs|]. split; [done|]. by intros (fs & H & _). }
  destruct Hpers as (b & Hb1 & Hb2). exists b. split; [by rewrite <- (Hb1 (cc r)), with_cc_eta|]. split; [done|]. cbn zeta.
  destruct (co_cc _ _ _ Hc) as [C1 C2 C3 C4 C5 C6]. destruct (lost_fold_exact lost (cc r) None Hb) as (t & Hfold & Hnew); [lia|]. cbn [newer_loss orb] in Hnew.
  unfold on_packets_lost. rewrite Hfold, C5, <- Hnew. set (c0 := mk_newreno _ _ _ _ _ _).
  assert (Hcut : match t with Some t => snd (on_congestion_event now t c0) | None => c0 end =
    if newer_loss (cc r) t then mk_newreno (Congestion.max_datagram_size (cc r)) (Z.max (window (cc r) / 2) (2 * Congestion.max_datagram_size (cc r))) (Z.max (window (cc r) / 2) (2 * Congestion.max_datagram_size (cc r)))
      (flight r - total bytes_of lost) (Some now) 0 else c0).
  { destruct t as [t|]; [|done]. unfold on_congestion_event, LOSS_REDUCTION_DEN, LOSS_REDUCTION_NUM. cbn [newer_loss]. change (in_recovery t c0) with (in_recovery t (cc r)). destruct (in_recovery t (cc r)); [done|].
    cbn [snd negb]. change (Congestion.max_datagram_size c0) with (Congestion.max_datagram_size (cc r)). by rewrite minimum_window_ok, Z.mul_1_r. }
  rewrite Hcut, Hb1. cbn [mbind result_bind]. unfold on_persistent_congestion, c0. destruct (newer_loss (cc r) t), b; try done; cbn; by rewrite minimum_window_ok.
Qed.
End properties.

(** ** A connection that loses packets *)

Section example.
#[local] Notation max := (2 ^ 80).
#[local] Notation R := (Recovery (T:=unit)).

(** A run of calls, and what they need on the way. *)
#[local] Fixpoint play (cs : list (call (T:=unit))) (r : R) : R :=
  match cs with [] => r | c :: cs' => match step max c r with Ok (_, r') => play cs' r' | Err _ => r end end.

#[local] Fixpoint fits_along (cs : list (call (T:=unit))) (B : Z) (r : R) : Prop :=
  match cs with
  | [] => True
  | c :: cs' => fits max r c /\ B + cost c <= limit /\ match step max c r with Ok (_, r') => fits_along cs' (B + cost c) r' | Err _ => False end
  end.

Lemma play_reached cs B all settled r : reached max B all settled r -> fits_along cs B r -> exists B' all' settled', reached max B' all' settled' (play cs r).
Proof.
  revert B all settled r. induction cs as [|c cs IH]; intros B all settled r Hr Hf; [by exists B, all, settled|]. destruct Hf as (H1 & H2 & H3). cbn [play].
  destruct (step max c r) as [[o r']|] eqn:Hs; [|done]. eapply IH; [|exact H3]. by eapply reached_step.
Qed.

#[local] Definition packet (n t : Z) : Sent (T:=unit) := mk_sent n t 1200 true true tt.

(** Packet 0 gives a sample of 100 ms; of six sent at 200 ms, the fifth is
    acknowledged. *)
#[local] Definition example_calls : list (call (T:=unit)) :=
  [Confirm 0; Send 0 Application (packet 0 0); Ack (millis 100) Application 0 0 [(0, 0)]] ++
  List.map (fun n => Send (millis 200) Application (packet n (millis 200))) [1; 2; 3; 4; 5; 6] ++
  [Ack (millis 300) Application 5 0 [(5, 5)]].

#[local] Definition example_state : R := play example_calls (Recovery.new 1200).

Lemma example_reached : exists B all settled, reached max B all settled example_state.
Proof.
  apply (play_reached example_calls (2 ^ 18) [] []); [by apply reached_new|]. vm_compute. repeat (split || constructor || discriminate || done || intros).
Qed.

Lemma recovery_settles_witness : exists B all settled, reached max B all settled example_state /\ all ≡ₚ settled ++ all_outstanding example_state /\ length (all_outstanding example_state) = 3%nat.
Proof.
  destruct example_reached as (B & all & settled & Hr). exists B, all, settled. split; [exact Hr|]. split; [apply (recovery_settles max B all settled example_state Hr)|]. vm_compute. reflexivity.
Defined.

Lemma loss_detection_witness : exists r', on_timeout max (millis 312) example_state = Ok (mk_timeout Application [] None, r') /\ List.map pn (outstanding Application r') = [3; 4; 6].
Proof.
  destruct example_reached as (B & all & settled & Hr). destruct (proj2 (loss_detection max B all settled example_state Application Hr) (millis 312) 312500000) as (L & r' & HL & Hto & _ & Hout & _); [vm_compute; reflexivity|].
  vm_compute in HL. injection HL as <-. exists r'. rewrite Hto, Hout. vm_compute. split; reflexivity.
Defined.

Lemma recovery_timer_witness : exists t' sp', timer example_state = Some t' /\ t' <= 312500000 /\ loss_time (space_of example_state sp') = Some t'.
Proof.
  destruct example_reached as (B & all & settled & Hr). apply (proj1 (recovery_timer max B all settled example_state Hr) Application). vm_compute. reflexivity.
Defined.

Lemma recovery_bounds_witness : exists d, loss_delay (rtt example_state) = Ok d /\ millis 1 <= d <= secs 60 * 9 / 8.
Proof. destruct example_reached as (B & all & settled & Hr). exact (proj1 (proj2 (recovery_bounds max B all settled example_state Hr))). Defined.

Lemma persistent_congestion_witness :
  in_persistent_congestion [packet 3 (secs 1); packet 4 (secs 100)] example_state = Ok true /\
  exists r, on_packets_lost (secs 101) [packet 3 (secs 1); packet 4 (secs 100)] example_state = Ok r /\ window (cc r) = 2 * Congestion.max_datagram_size (cc r) /\ recovery_start (cc r) = None.
Proof.
  destruct example_reached as (B & all & settled & Hr).
  destruct (persistent_congestion max B all settled example_state (secs 101) [packet 3 (secs 1); packet 4 (secs 100)] Hr) as (b & H1 & _ & H2).
  - repeat constructor; vm_compute; (reflexivity || discriminate).
  - repeat constructor; vm_compute; (reflexivity || discriminate).
  - repeat constructor; vm_compute; discriminate.
  - vm_compute. discriminate.
  - assert (Hb : b = true) by (vm_compute in H1; congruence). clear Hr. subst b. split; [exact H1|]. clear H1. revert H2. generalize example_state. intros r0 H2. cbn zeta in H2.
    eexists. split; [exact H2|]. split; reflexivity.
Defined.
End example.
