(* ===== verification/Frames.v ===== *)
(** QUIC frames: [pratique/src/quic/frame.rs].

    Reading the payload of a packet as frames, and writing them.  The reader
    is the cursor of [Wire]; a frame is a value of [Frame] with the code's
    constructors.  [frame_bytes] is the abstract format: what [write] appends
    and what [read] takes for the frame, whatever follows; [frame_wf] says
    which frames there are, and [read] gives no other. *)

From Stdlib Require Import ZArith Lia String.
From stdpp Require Import base option numbers list_numbers list.
From S2P Require Import Prelude Slice Wire.

#[local] Open Scope Z_scope.

(** ** Types and constants *)

Definition FRAME_ENCODING_ERROR : Z := 7.
Definition PROTOCOL_VIOLATION : Z := 10.
Definition MAX_STREAMS_LIMIT : Z := Z.shiftl 1 60.
Definition MAX_CID_LEN : Z := 20.

Inductive PacketType : Type := Initial | ZeroRtt | Handshake | Retry | VersionNegotiation | OneRtt.

#[export] Instance packet_type_eq_dec : EqDecision PacketType.
Proof. solve_decision. Defined.

Inductive FrameErrorKind : Type :=
| Empty | TruncatedFrame | UnknownType | TypeNotMinimal | NotAllowed | Invalid (what : string).

Record FrameError := mk_frame_error { kind : FrameErrorKind; error_type : Z }.

Definition transport_error (e : FrameError) : Z :=
  match kind e with
  | Empty | TypeNotMinimal | NotAllowed => PROTOCOL_VIOLATION
  | TruncatedFrame | UnknownType | Invalid _ => FRAME_ENCODING_ERROR
  end.

Record EcnCounts := mk_ecn { ect0 : Z; ect1 : Z; ce : Z }.

Record Ack := mk_ack {
  largest : Z;
  delay : Z;
  first_range : Z;
  range_count : Z;
  ranges : list Z;
  ecn : option EcnCounts;
}.

Inductive Frame : Type :=
| Padding (n : Z)
| Ping
| AckFrame (a : Ack)
| ResetStream (id error final_size : Z)
| StopSending (id error : Z)
| Crypto (offset : Z) (data : list Z)
| NewToken (token : list Z)
| StreamFrame (id offset : Z) (data : list Z) (fin : bool)
| MaxData (m : Z)
| MaxStreamData (id m : Z)
| MaxStreams (bidirectional : bool) (m : Z)
| DataBlocked (m : Z)
| StreamDataBlocked (id l : Z)
| StreamsBlocked (bidirectional : bool) (l : Z)
| NewConnectionId (sequence retire_prior_to : Z) (cid reset_token : list Z)
| RetireConnectionId (m : Z)
| PathChallenge (d : list Z)
| PathResponse (d : list Z)
| ConnectionClose (code : Z) (frame_type : option Z) (reason : list Z)
| HandshakeDone.

Module types.
Definition PADDING := 0.
Definition PING := 1.
Definition ACK := 2.
Definition ACK_ECN := 3.
Definition RESET_STREAM := 4.
Definition STOP_SENDING := 5.
Definition CRYPTO := 6.
Definition NEW_TOKEN := 7.
Definition STREAM := 8.
Definition STREAM_FIN := 1.
Definition STREAM_LEN := 2.
Definition STREAM_OFF := 4.
Definition MAX_DATA := 16.
Definition MAX_STREAM_DATA := 17.
Definition MAX_STREAMS_BIDI := 18.
Definition MAX_STREAMS_UNI := 19.
Definition DATA_BLOCKED := 20.
Definition STREAM_DATA_BLOCKED := 21.
Definition STREAMS_BLOCKED_BIDI := 22.
Definition STREAMS_BLOCKED_UNI := 23.
Definition NEW_CONNECTION_ID := 24.
Definition RETIRE_CONNECTION_ID := 25.
Definition PATH_CHALLENGE := 26.
Definition PATH_RESPONSE := 27.
Definition CONNECTION_CLOSE := 28.
Definition CONNECTION_CLOSE_APP := 29.
Definition HANDSHAKE_DONE := 30.
End types.
Import types.

Definition allowed_in (ft : Z) (ty : PacketType) : bool :=
  let initial := bool_decide (ty = Initial) in
  let handshake := bool_decide (ty = Handshake) in
  let zero_rtt := bool_decide (ty = ZeroRtt) in
  let one_rtt := bool_decide (ty = OneRtt) in
  if (ft =? PADDING) || (ft =? PING) || (ft =? CONNECTION_CLOSE) then initial || handshake || zero_rtt || one_rtt
  else if (ft =? ACK) || (ft =? ACK_ECN) || (ft =? CRYPTO) then initial || handshake || one_rtt
  else if (ft =? NEW_TOKEN) || (ft =? PATH_RESPONSE) || (ft =? HANDSHAKE_DONE) then one_rtt
  else if (ft =? RESET_STREAM) || (ft =? STOP_SENDING) || ((8 <=? ft) && (ft <=? 15)) || ((MAX_DATA <=? ft) && (ft <=? PATH_CHALLENGE)) || (ft =? CONNECTION_CLOSE_APP)
  then zero_rtt || one_rtt
  else false.

(** ** Reading *)

(** [a.checked_sub(b)]. *)
Definition checked_sub (a b : Z) : option Z := if a <? b then None else Some (a - b).

Definition map_err {S E E' A} (g : E -> E') (m : stx S E A) : stx S E' A := fun s =>
  match m s with (Ok a, s') => (Ok a, s') | (Err e, s') => (Err (g e), s') end.

Inductive bad : Type := Short | BadInvalid (what : string) | BadFault (f : fault).

Abbreviation body_reads := (stx Reader bad).

(** [From<Truncated>]: what [?] does. *)
Definition q {A} (m : reads A) : body_reads A :=
  map_err (fun e => match e with Truncated => Short | Fault f => BadFault f end) m.

Definition rest_of : body_reads (list Z) := r ← xget; xsome (BadFault Panic) (rest r).

Definition check_end (offset n : Z) : body_reads unit :=
  match checked_add U64_MAX offset n with
  | Some e => if MAX_VARINT <? e then xfail (BadInvalid "offset and length go past 2^62 - 1") else mret tt
  | None => xfail (BadInvalid "offset and length go past 2^62 - 1")
  end.

Fixpoint padding_loop (fuel : nat) (n : Z) : body_reads Z :=
  match fuel with
  | O => xfail (BadFault NoFuel)
  | S fuel' =>
      t ← rest_of;
      if bool_decide (head t = Some 0) then _ ← q read_u8; padding_loop fuel' (n + 1) else mret n
  end.

Definition body_padding : body_reads Frame := r ← xget; n ← padding_loop (S (length (buf r))) 1; mret (Padding n).

(** The ranges of an ACK after the first, checked. *)
Fixpoint ack_loop (k : nat) (smallest : Z) : body_reads unit :=
  match k with
  | O => mret tt
  | S k' =>
      gap ← q read_varint;
      n ← q read_varint;
      match (next_largest ← (v ← checked_sub smallest gap; checked_sub v 2); checked_sub next_largest n) with
      | None => xfail (BadInvalid "a range of an ACK goes below packet number 0")
      | Some smallest => ack_loop k' smallest
      end
  end.

Definition body_ack (ft : Z) : body_reads Frame :=
  largest ← q read_varint;
  delay ← q read_varint;
  count ← q read_varint;
  first_range ← q read_varint;
  if largest <? first_range then xfail (BadInvalid "the first range of an ACK goes below packet number 0")
  else
    t ← rest_of;
    if len t / 2 <? count then xfail Short
    else
      start ← rest_of;
      _ ← ack_loop (Z.to_nat count) (largest - first_range);
      t ← rest_of;
      ranges ← xsome (BadFault Panic) (slice 0 (u64 (len start - len t)) start);
      ecn ← (if ft =? ACK_ECN then a ← q read_varint; b ← q read_varint; c ← q read_varint; mret (Some (mk_ecn a b c)) else mret None);
      mret (AckFrame (mk_ack largest delay first_range count ranges ecn)).

Definition body_stream (ft : Z) : body_reads Frame :=
  id ← q read_varint;
  offset ← (if negb (Z.land ft STREAM_OFF =? 0) then q read_varint else mret 0);
  data ← (if negb (Z.land ft STREAM_LEN =? 0) then q read_length_prefixed else t ← rest_of; q (read_bytes (len t)));
  _ ← check_end offset (len data);
  mret (StreamFrame id offset data (negb (Z.land ft STREAM_FIN =? 0))).

Definition body_crypto : body_reads Frame :=
  offset ← q read_varint;
  data ← q read_length_prefixed;
  _ ← check_end offset (len data);
  mret (Crypto offset data).

Definition body_new_token : body_reads Frame :=
  token ← q read_length_prefixed;
  if len token =? 0 then xfail (BadInvalid "an empty token") else mret (NewToken token).

(** A limit on the number of streams. *)
Definition body_streams : body_reads Z :=
  m ← q read_varint;
  if MAX_STREAMS_LIMIT <? m then xfail (BadInvalid "more than 2^60 streams") else mret m.

(** [r.bytes(n)?.try_into()]: as an array of [n]. *)
Definition array (n : Z) : body_reads (list Z) :=
  b ← q (read_bytes n);
  if len b =? n then mret b else xfail Short.

Definition body_new_connection_id : body_reads Frame :=
  sequence ← q read_varint;
  retire ← q read_varint;
  n ← q read_u8;
  if (n =? 0) || (MAX_CID_LEN <? n) then xfail (BadInvalid "a connection id that is not of 1 to 20 bytes")
  else if sequence <? retire then xfail (BadInvalid "retire_prior_to is more than the sequence number")
  else
    cid ← q (read_bytes n);
    token ← array 16;
    mret (NewConnectionId sequence retire cid token).

Definition body_close (app : bool) : body_reads Frame :=
  code ← q read_varint;
  ft ← (if app then mret None else t ← q read_varint; mret (Some t));
  reason ← q read_length_prefixed;
  mret (ConnectionClose code ft reason).

Definition body1 (k : Z -> Frame) : body_reads Frame := a ← q read_varint; mret (k a).
Definition body2 (k : Z -> Z -> Frame) : body_reads Frame := a ← q read_varint; b ← q read_varint; mret (k a b).

Definition body (ft : Z) : body_reads Frame :=
  if ft =? PADDING then body_padding
  else if ft =? PING then mret Ping
  else if (ft =? ACK) || (ft =? ACK_ECN) then body_ack ft
  else if ft =? RESET_STREAM then a ← q read_varint; b ← q read_varint; c ← q read_varint; mret (ResetStream a b c)
  else if ft =? STOP_SENDING then body2 StopSending
  else if ft =? CRYPTO then body_crypto
  else if ft =? NEW_TOKEN then body_new_token
  else if (8 <=? ft) && (ft <=? 15) then body_stream ft
  else if ft =? MAX_DATA then body1 MaxData
  else if ft =? MAX_STREAM_DATA then body2 MaxStreamData
  else if (ft =? MAX_STREAMS_BIDI) || (ft =? MAX_STREAMS_UNI) then m ← body_streams; mret (MaxStreams (ft =? MAX_STREAMS_BIDI) m)
  else if ft =? DATA_BLOCKED then body1 DataBlocked
  else if ft =? STREAM_DATA_BLOCKED then body2 StreamDataBlocked
  else if (ft =? STREAMS_BLOCKED_BIDI) || (ft =? STREAMS_BLOCKED_UNI) then m ← body_streams; mret (StreamsBlocked (ft =? STREAMS_BLOCKED_BIDI) m)
  else if ft =? NEW_CONNECTION_ID then body_new_connection_id
  else if ft =? RETIRE_CONNECTION_ID then body1 RetireConnectionId
  else if ft =? PATH_CHALLENGE then d ← array 8; mret (PathChallenge d)
  else if ft =? PATH_RESPONSE then d ← array 8; mret (PathResponse d)
  else if ft =? CONNECTION_CLOSE then body_close false
  else if ft =? CONNECTION_CLOSE_APP then body_close true
  else if ft =? HANDSHAKE_DONE then mret HandshakeDone
  else xfail (BadFault Panic).

(** A [FrameError], or a fault of the model. *)
Inductive read_error : Type := FrameErr (e : FrameError) | ReadFault (f : fault).

Definition read (ty : PacketType) : stx Reader read_error Frame :=
  let err k ft := FrameErr (mk_frame_error k ft) in
  x ← map_err (fun e => match e with Truncated => err TruncatedFrame 0 | Fault f => ReadFault f end) read_varint_minimal;
  let '(ft, minimal) := x in
  if negb minimal then xfail (err TypeNotMinimal ft)
  else if HANDSHAKE_DONE <? ft then xfail (err UnknownType ft)
  else if negb (allowed_in ft ty) then xfail (err NotAllowed ft)
  else map_err (fun b => match b with Short => err TruncatedFrame ft | BadInvalid w => err (Invalid w) ft | BadFault f => ReadFault f end) (body ft).

(** ** Writing *)

Definition ack_eliciting (f : Frame) : bool :=
  match f with Padding _ | AckFrame _ | ConnectionClose _ _ _ => false | _ => true end.

Definition frame_type (f : Frame) : Z :=
  match f with
  | Padding _ => PADDING
  | Ping => PING
  | AckFrame a => match ecn a with Some _ => ACK_ECN | None => ACK end
  | ResetStream _ _ _ => RESET_STREAM
  | StopSending _ _ => STOP_SENDING
  | Crypto _ _ => CRYPTO
  | NewToken _ => NEW_TOKEN
  | StreamFrame _ offset _ fin => Z.lor (Z.lor (Z.lor STREAM STREAM_LEN) (if offset =? 0 then 0 else STREAM_OFF)) (b2z fin)
  | MaxData _ => MAX_DATA
  | MaxStreamData _ _ => MAX_STREAM_DATA
  | MaxStreams bidirectional _ => if bidirectional then MAX_STREAMS_BIDI else MAX_STREAMS_UNI
  | DataBlocked _ => DATA_BLOCKED
  | StreamDataBlocked _ _ => STREAM_DATA_BLOCKED
  | StreamsBlocked bidirectional _ => if bidirectional then STREAMS_BLOCKED_BIDI else STREAMS_BLOCKED_UNI
  | NewConnectionId _ _ _ _ => NEW_CONNECTION_ID
  | RetireConnectionId _ => RETIRE_CONNECTION_ID
  | PathChallenge _ => PATH_CHALLENGE
  | PathResponse _ => PATH_RESPONSE
  | ConnectionClose _ (Some _) _ => CONNECTION_CLOSE
  | ConnectionClose _ None _ => CONNECTION_CLOSE_APP
  | HandshakeDone => HANDSHAKE_DONE
  end.

(** A sum of lengths ([None]: a panic). *)
Fixpoint total_len (l : list (option Z)) : option Z :=
  match l with [] => Some 0 | x :: l' => a ← x; b ← total_len l'; Some (a + b) end.

Definition frame_len (f : Frame) : option Z :=
  let v := varint_len in
  n ← match f with
  | Padding n => Some (n - 1)
  | Ping | HandshakeDone => Some 0
  | AckFrame a =>
      total_len [v (largest a); v (delay a); v (range_count a); v (first_range a); Some (len (ranges a));
        match ecn a with Some e => total_len [v (ect0 e); v (ect1 e); v (ce e)] | None => Some 0 end]
  | ResetStream id error final_size => total_len [v id; v error; v final_size]
  | StopSending id error => total_len [v id; v error]
  | Crypto offset data => total_len [v offset; v (len data); Some (len data)]
  | NewToken token => total_len [v (len token); Some (len token)]
  | StreamFrame id offset data _ => total_len [v id; (if offset =? 0 then Some 0 else v offset); v (len data); Some (len data)]
  | MaxData m | DataBlocked m | RetireConnectionId m => v m
  | MaxStreamData id n | StreamDataBlocked id n => total_len [v id; v n]
  | MaxStreams _ n | StreamsBlocked _ n => v n
  | NewConnectionId sequence retire cid _ => total_len [v sequence; v retire; Some 1; Some (len cid); Some 16]
  | PathChallenge _ | PathResponse _ => Some 8
  | ConnectionClose code ft reason =>
      total_len [v code; match ft with Some t => v t | None => Some 0 end; v (len reason); Some (len reason)]
  end;
  Some (1 + n).

(** [out.resize(n, 0)]. *)
Definition resize0 (n : Z) (l : list Z) : list Z :=
  if n <=? len l then take (Z.to_nat n) l else l ++ replicate (Z.to_nat (n - len l)) 0.

Definition put_ecn (out : list Z) (e : option EcnCounts) : option (list Z) :=
  match e with
  | Some e => out ← put_varint out (ect0 e); out ← put_varint out (ect1 e); put_varint out (ce e)
  | None => Some out
  end.

(** The numbers, one after the other. *)
Definition put_varints (out : list Z) (vs : list Z) : option (list Z) :=
  foldl (fun out v => out ← out; put_varint out v) (Some out) vs.

(** A byte string after its length. *)
Definition put_prefixed (out d : list Z) : option (list Z) := out ← put_varint out (len d); Some (out ++ d).

Definition write (f : Frame) (out : list Z) : option (list Z) :=
  let start := len out in
  let out := out ++ [Z.land (frame_type f) 255] in
  match f with
  | Padding n => Some (resize0 (start + n) out)
  | Ping | HandshakeDone => Some out
  | AckFrame a =>
      out ← put_varints out [largest a; delay a; range_count a; first_range a];
      put_ecn (out ++ ranges a) (ecn a)
  | ResetStream id error final_size => put_varints out [id; error; final_size]
  | StopSending id error => put_varints out [id; error]
  | Crypto offset data => out ← put_varint out offset; put_prefixed out data
  | NewToken token => put_prefixed out token
  | StreamFrame id offset data _ =>
      out ← put_varint out id;
      out ← (if offset =? 0 then Some out else put_varint out offset);
      put_prefixed out data
  | MaxData m | DataBlocked m | RetireConnectionId m => put_varint out m
  | MaxStreamData id n | StreamDataBlocked id n => put_varints out [id; n]
  | MaxStreams _ n | StreamsBlocked _ n => put_varint out n
  | NewConnectionId sequence retire cid token =>
      if negb ((1 <=? len cid) && (len cid <=? MAX_CID_LEN) && (retire <=? sequence)) then None
      else
        out ← put_varints out [sequence; retire];
        Some (out ++ [Z.land (len cid) 255] ++ cid ++ token)
  | PathChallenge d | PathResponse d => Some (out ++ d)
  | ConnectionClose code ft reason =>
      out ← put_varint out code;
      out ← match ft with Some t => put_varint out t | None => Some out end;
      put_prefixed out reason
  end.

(** ** The frames of a payload *)

Record Frames := mk_frames { fr_reader : Reader; fr_ty : PacketType; started : bool; failed : bool }.

Definition frames (payload : list Z) (ty : PacketType) : Frames := mk_frames (new_reader payload) ty false false.

Definition frames_next (s : Frames) : option (result read_error Frame) * Frames :=
  if failed s then (None, s)
  else if at_end (fr_reader s)
  then
    if started s then (None, s)
    else (Some (Err (FrameErr (mk_frame_error Empty 0))), mk_frames (fr_reader s) (fr_ty s) true true)
  else
    let '(f, r) := read (fr_ty s) (fr_reader s) in
    (Some f, mk_frames r (fr_ty s) true (match f with Ok _ => false | Err _ => true end)).

(** All that it gives ([None]: out of fuel). *)
Fixpoint collect (fuel : nat) (s : Frames) : option (list (result read_error Frame)) :=
  match fuel with
  | O => None
  | S fuel' =>
      match frames_next s with
      | (None, _) => Some []
      | (Some f, s') => l ← collect fuel' s'; Some (f :: l)
      end
  end.

(** ** The ranges of an ACK *)

Definition delay_micros (a : Ack) (exponent : Z) : Z := sat_mul U64_MAX (delay a) (Z.shiftl 1 (Z.min exponent 20)).

Record AckRanges := mk_ack_ranges { ar_next : option (Z * Z); ar_rest : Reader; ar_left : Z }.

Definition ack_ranges (a : Ack) : AckRanges :=
  mk_ack_ranges (Some (u64 (largest a - first_range a), largest a)) (new_reader (ranges a)) (range_count a).

Definition additional_ranges (a : Ack) : Z := range_count a.

(** The range after [this], and the reader it leaves. *)
Definition following (this : Z * Z) (r : Reader) : option (Z * Z) * Reader :=
  match read_varint r with
  | (Ok gap, r) =>
      match read_varint r with
      | (Ok n, r) => (top ← (v ← checked_sub (fst this) gap; checked_sub v 2); low ← checked_sub top n; Some (low, top), r)
      | (Err _, r) => (None, r)
      end
  | (Err _, r) => (None, r)
  end.

Definition ranges_next (s : AckRanges) : option (Z * Z) * AckRanges :=
  match ar_next s with
  | None => (None, s)
  | Some this =>
      if 0 <? ar_left s
      then let '(nx, r) := following this (ar_rest s) in (Some this, mk_ack_ranges nx r (ar_left s - 1))
      else (Some this, mk_ack_ranges None (ar_rest s) (ar_left s))
  end.

Fixpoint ranges_list (fuel : nat) (s : AckRanges) : option (list (Z * Z)) :=
  match fuel with
  | O => None
  | S fuel' =>
      match ranges_next s with
      | (None, _) => Some []
      | (Some r, s') => l ← ranges_list fuel' s'; Some (r :: l)
      end
  end.

Fixpoint acknowledges_loop (fuel : nat) (pn : Z) (s : AckRanges) : option bool :=
  match fuel with
  | O => None
  | S fuel' =>
      match ranges_next s with
      | (None, _) => Some false
      | (Some r, s') => if snd r <? pn then Some false else if fst r <=? pn then Some true else acknowledges_loop fuel' pn s'
      end
  end.

Definition acknowledges (a : Ack) (pn : Z) : option bool := acknowledges_loop (Z.to_nat (range_count a) + 2) pn (ack_ranges a).

(** The ranges after the first, each as the gap to the one before and its
    length. *)
Fixpoint put_ranges (out : list Z) (smallest : Z) (rs : list (Z * Z)) : option (list Z) :=
  match rs with
  | [] => Some out
  | r :: rs' =>
      out ← put_varint out (u64 (smallest - snd r - 2));
      out ← put_varint out (u64 (snd r - fst r));
      put_ranges out (fst r) rs'
  end.

Definition write_ack (out : list Z) (delay : Z) (rs : list (Z * Z)) (e : option EcnCounts) : option (list Z) :=
  match rs with
  | [] => None
  | first :: rs' =>
      let out := out ++ [match e with Some _ => ACK_ECN | None => ACK end] in
      out ← put_varint out (snd first);
      out ← put_varint out delay;
      out ← put_varint out (len rs - 1);
      out ← put_varint out (u64 (snd first - fst first));
      out ← put_ranges out (fst first) rs';
      put_ecn out e
  end.

(** ** Parts of STREAM and CRYPTO frames *)

Definition write_stream_to_end (out : list Z) (id offset : Z) (data : list Z) (fin : bool) : option (list Z) :=
  let out := out ++ [Z.land (Z.lor (Z.lor STREAM (if offset =? 0 then 0 else STREAM_OFF)) (b2z fin)) 255] in
  out ← put_varint out id;
  out ← (if offset =? 0 then Some out else put_varint out offset);
  Some (out ++ data).

Definition write_stream_header (out : list Z) (id offset : Z) (n : option Z) (fin : bool) : option (list Z) :=
  let out := out ++ [Z.land (Z.lor (Z.lor (Z.lor STREAM (if offset =? 0 then 0 else STREAM_OFF))
    (match n with Some _ => STREAM_LEN | None => 0 end)) (b2z fin)) 255] in
  out ← put_varint out id;
  out ← (if offset =? 0 then Some out else put_varint out offset);
  match n with Some l => put_varint out l | None => Some out end.

Definition stream_header_len (id offset : Z) (n : option Z) : option Z :=
  total_len [Some 1; varint_len id; (if offset =? 0 then Some 0 else varint_len offset); match n with Some l => varint_len l | None => Some 0 end].

Definition crypto_header_len (offset n : Z) : option Z := total_len [Some 1; varint_len offset; varint_len n].

(** ** The format *)

(** A number of a frame; a string of bytes. *)
Definition field (v : Z) : Prop := 0 <= v <= MAX_VARINT.
Definition octets (d : list Z) : Prop := (forall b, b ∈ d -> byte b) /\ len d <= MAX_VARINT.

(** The bytes of a number. *)
Definition venc (v : Z) : list Z := match put_varint [] v with Some b => b | None => [] end.

Definition prefixed (d : list Z) : list Z := venc (len d) ++ d.

(** The ranges of an ACK after the first, in bytes: what follows them, if
    none reaches below 0. *)
Fixpoint parse_ranges (k : nat) (smallest : Z) (l : list Z) : option (list Z) :=
  match k with
  | O => Some l
  | S k' =>
      x ← get_varint l;
      let l := drop (Z.to_nat (snd x)) l in
      y ← get_varint l;
      let l := drop (Z.to_nat (snd y)) l in
      top ← checked_sub smallest (fst x);
      top ← checked_sub top 2;
      low ← checked_sub top (fst y);
      parse_ranges k' low l
  end.

Definition ecn_wf (e : option EcnCounts) : Prop := match e with Some e => field (ect0 e) /\ field (ect1 e) /\ field (ce e) | None => True end.

Record ack_wf (a : Ack) : Prop := mk_ack_wf {
  aw_largest : field (largest a);
  aw_delay : field (delay a);
  aw_first : 0 <= first_range a <= largest a;
  aw_count : field (range_count a);
  aw_bytes : forall b, b ∈ ranges a -> byte b;
  aw_ranges : parse_ranges (Z.to_nat (range_count a)) (largest a - first_range a) (ranges a) = Some [];
  aw_ecn : ecn_wf (ecn a);
}.

(** The frames there are. *)
Definition frame_wf (f : Frame) : Prop :=
  match f with
  | Padding n => 1 <= n
  | Ping | HandshakeDone => True
  | AckFrame a => ack_wf a
  | ResetStream a b c => field a /\ field b /\ field c
  | StopSending a b | MaxStreamData a b | StreamDataBlocked a b => field a /\ field b
  | Crypto offset d => octets d /\ 0 <= offset /\ offset + len d <= MAX_VARINT
  | NewToken d => octets d /\ d <> []
  | StreamFrame id offset d fin => field id /\ octets d /\ 0 <= offset /\ offset + len d <= MAX_VARINT
  | MaxData a | DataBlocked a | RetireConnectionId a => field a
  | MaxStreams _ m | StreamsBlocked _ m => 0 <= m <= MAX_STREAMS_LIMIT
  | NewConnectionId s r cid token => field s /\ 0 <= r <= s /\ octets cid /\ 1 <= len cid <= MAX_CID_LEN /\ octets token /\ len token = 16
  | PathChallenge d | PathResponse d => octets d /\ len d = 8
  | ConnectionClose code ft reason => field code /\ octets reason /\ match ft with Some t => field t | None => True end
  end.

Definition ecn_bytes (e : option EcnCounts) : list Z :=
  match e with Some e => venc (ect0 e) ++ venc (ect1 e) ++ venc (ce e) | None => [] end.

(** What comes after the type. *)
Definition body_bytes (f : Frame) : list Z :=
  match f with
  | Padding n => replicate (Z.to_nat (n - 1)) 0
  | Ping | HandshakeDone => []
  | AckFrame a => venc (largest a) ++ venc (delay a) ++ venc (range_count a) ++ venc (first_range a) ++ ranges a ++ ecn_bytes (ecn a)
  | ResetStream a b c => venc a ++ venc b ++ venc c
  | StopSending a b | MaxStreamData a b | StreamDataBlocked a b => venc a ++ venc b
  | Crypto offset d => venc offset ++ prefixed d
  | NewToken d => prefixed d
  | StreamFrame id offset d _ => venc id ++ (if offset =? 0 then [] else venc offset) ++ prefixed d
  | MaxData a | DataBlocked a | RetireConnectionId a => venc a
  | MaxStreams _ a | StreamsBlocked _ a => venc a
  | NewConnectionId s r cid token => venc s ++ venc r ++ [len cid] ++ cid ++ token
  | PathChallenge d | PathResponse d => d
  | ConnectionClose code ft reason => venc code ++ match ft with Some t => venc t | None => [] end ++ prefixed reason
  end.

Definition frame_bytes (f : Frame) : list Z := frame_type f :: body_bytes f.

(** ** Writing gives the format *)

Lemma venc_ok v : field v -> exists n, varint_len v = Some n /\ len (venc v) = n /\ 1 <= n <= 8 /\
  (forall out, put_varint out v = Some (out ++ venc v)) /\ (forall tail, get_varint (venc v ++ tail) = Some (v, n)) /\ (forall b, b ∈ venc v -> byte b).
Proof.
  intros [H0 Hv]. assert (Hl := varint_len_ok v H0). destruct (varint_len v) as [n|] eqn:Hn; [|lia]. destruct Hl as ((t & Ht) & Hr & _ & _). exists n.
  assert (Hput : forall out, put_varint out v = Some (out ++ be_bytes (Z.to_nat n) (v + t * room n))).
  { intros out. unfold put_varint. rewrite Hn. cbn [mbind option_bind]. by apply put_varint_len_ok. }
  assert (He : venc v = be_bytes (Z.to_nat n) (v + t * room n)) by (unfold venc; by rewrite Hput).
  rewrite He. split; [done|]. split; [unfold len; rewrite be_bytes_length|split; [|split; [done|split; [intros tail; by apply get_be|intros b; apply be_bytes_byte]]]];
    destruct Ht as [[_ ->]|[[_ ->]|[[_ ->]|[_ ->]]]]; (done || lia).
Qed.

Lemma put_venc out v : field v -> put_varint out v = Some (out ++ venc v).
Proof. intros Hv. by destruct (venc_ok v Hv) as (n & _ & _ & _ & H & _). Qed.

Lemma varint_len_venc v : field v -> varint_len v = Some (len (venc v)).
Proof. intros Hv. destruct (venc_ok v Hv) as (n & -> & -> & _). done. Qed.

Lemma len_field d : octets d -> field (len d).
Proof. intros [_ H]. assert (Hn := len_nonneg d). split; done. Qed.

Lemma put_prefixed_ok out d : octets d -> put_prefixed out d = Some (out ++ prefixed d).
Proof. intros Hd. unfold put_prefixed, prefixed. rewrite put_venc by (by apply len_field). cbn [mbind option_bind]. by rewrite <- app_assoc. Qed.

Lemma put_ecn_ok out e : ecn_wf e -> put_ecn out e = Some (out ++ ecn_bytes e).
Proof.
  destruct e as [e|]; cbn; [|by rewrite app_nil_r]. intros (H1 & H2 & H3). rewrite put_venc by done. cbn [mbind option_bind]. rewrite put_venc by done.
  cbn [mbind option_bind]. rewrite put_venc by done. by rewrite <- !app_assoc.
Qed.

Lemma type_byte f : 0 <= frame_type f < 64.
Proof.
  destruct f; cbn [frame_type]; unfold PADDING, PING, ACK_ECN, ACK, RESET_STREAM, STOP_SENDING, CRYPTO, NEW_TOKEN, MAX_DATA, MAX_STREAM_DATA, MAX_STREAMS_BIDI, MAX_STREAMS_UNI,
    DATA_BLOCKED, STREAM_DATA_BLOCKED, STREAMS_BLOCKED_BIDI, STREAMS_BLOCKED_UNI, NEW_CONNECTION_ID, RETIRE_CONNECTION_ID, PATH_CHALLENGE, PATH_RESPONSE, CONNECTION_CLOSE,
    CONNECTION_CLOSE_APP, HANDSHAKE_DONE; try lia; try (destruct bidirectional; lia).
  - destruct (ecn a); lia.
  - destruct (offset =? 0), fin; vm_compute; done.
  - destruct frame_type0; lia.
Qed.

Lemma streams_field m : 0 <= m <= MAX_STREAMS_LIMIT -> field m.
Proof. intros H. split; [lia|]. change MAX_STREAMS_LIMIT with 1152921504606846976 in H. change MAX_VARINT with 4611686018427387903. lia. Qed.

Lemma offset_field o (d : list Z) : 0 <= o -> o + len d <= MAX_VARINT -> field o.
Proof. intros H1 H2. assert (Hn := len_nonneg d). split; lia. Qed.

#[local] Hint Resolve len_field streams_field offset_field : core.

Lemma small_field m : 0 <= m <= 64 -> field m.
Proof. intros H. split; [lia|]. change MAX_VARINT with 4611686018427387903. lia. Qed.

(** [field] goals, from [frame_wf]. *)
Ltac fields := repeat match goal with H : _ /\ _ |- _ => destruct H end; eauto.

Lemma ack_fields a : ack_wf a -> field (first_range a).
Proof. intros H. destruct (aw_first _ H), (aw_largest _ H). split; lia. Qed.

(** A step of writing. *)
Ltac put := rewrite put_venc by fields; cbn [mbind option_bind].

Lemma fr_write_ok f out : frame_wf f -> write f out = Some (out ++ frame_bytes f).
Proof.
  intros Hf. assert (Ht := type_byte f). unfold write. cbn zeta. rewrite land_255, Z.mod_small by lia. unfold frame_bytes.
  replace (out ++ frame_type f :: body_bytes f) with ((out ++ [frame_type f]) ++ body_bytes f) by (by rewrite <- app_assoc).
  assert (Hlen : len (out ++ [frame_type f]) = len out + 1) by (rewrite len_app; done).
  set (o := out ++ [frame_type f]) in *. clearbody o.
  destruct f; cbn [frame_wf body_bytes] in *; unfold put_varints; cbn [foldl mbind option_bind].
  all: try (rewrite ?app_nil_r; done).
  all: try (by rewrite put_venc by fields).
  all: try (repeat put; rewrite <- ?app_assoc; reflexivity).
  - unfold resize0. destruct (Z.leb_spec (len out + n) (len o)) as [Hle|Hgt].
    + assert (n = 1) as -> by lia. rewrite app_nil_r. rewrite take_ge; [done|]. unfold len in *. lia.
    + do 3 f_equal. lia.
  - assert (Ha := ack_fields _ Hf). destruct Hf. repeat put. rewrite put_ecn_ok by done. by rewrite <- !app_assoc.
  - put. rewrite put_prefixed_ok by fields. by rewrite <- !app_assoc.
  - by rewrite put_prefixed_ok by fields.
  - put. destruct (Z.eqb_spec offset 0); cbn [mbind option_bind]; [|put]; rewrite put_prefixed_ok by fields; by rewrite <- !app_assoc.
  - destruct Hf as (H1 & H2 & H3 & H4 & H5 & H6). rewrite !(proj2 (Z.leb_le _ _)) by lia. cbn [andb negb]. unfold MAX_CID_LEN in H4.
    assert (Hr : field retire_prior_to) by (destruct H1; split; lia). repeat put. rewrite land_255, Z.mod_small by lia. by rewrite <- !app_assoc.
  - put. destruct frame_type0 as [t|]; cbn [mbind option_bind]; [put|]; rewrite put_prefixed_ok by fields; by rewrite <- !app_assoc.
Qed.

Lemma frame_len_ok f : frame_wf f -> frame_len f = Some (len (frame_bytes f)).
Proof.
  intros Hf. unfold frame_len, frame_bytes. assert (Hlen : len (frame_type f :: body_bytes f) = 1 + len (body_bytes f)) by (unfold len; cbn [length]; lia). rewrite Hlen.
  assert (He : forall e, ecn_wf e -> (match e with Some e => total_len [varint_len (ect0 e); varint_len (ect1 e); varint_len (ce e)] | None => Some 0 end) = Some (len (ecn_bytes e))).
  { intros [e|]; [|done]. intros (H1 & H2 & H3). cbn [total_len ecn_bytes]. rewrite !varint_len_venc by done. cbn [mbind option_bind]. rewrite !len_app. f_equal. lia. }
  assert (Hp : forall d, octets d -> varint_len (len d) = Some (len (venc (len d)))) by (intros d Hd; apply varint_len_venc; fields).
  destruct f; cbn [frame_wf body_bytes total_len] in *; unfold prefixed.
  all: try done.
  all: try (rewrite !varint_len_venc by fields; cbn [mbind option_bind]; rewrite ?len_app; do 2 f_equal; lia).
  - cbn [mbind option_bind]. do 2 f_equal. unfold len. rewrite length_replicate. lia.
  - assert (Ha := ack_fields _ Hf). destruct Hf. rewrite !varint_len_venc by fields. rewrite He by done. cbn [mbind option_bind]. rewrite !len_app. do 2 f_equal. lia.
  - assert (Hoff : (if offset =? 0 then Some 0 else varint_len offset) = Some (len (if offset =? 0 then [] else venc offset))).
    { destruct (Z.eqb_spec offset 0); [done|]. apply varint_len_venc. fields. }
    rewrite Hoff, !varint_len_venc by fields. cbn [mbind option_bind]. rewrite !len_app. do 2 f_equal. lia.
  - destruct Hf as (H1 & H2 & H3 & H4 & H5 & H6). assert (Hr : field retire_prior_to) by (destruct H1; split; lia).
    rewrite !varint_len_venc by fields. cbn [mbind option_bind]. rewrite !len_app. change (len [len cid]) with 1. do 2 f_equal. lia.
  - destruct Hf as [_ ->]. done.
  - destruct Hf as [_ ->]. done.
  - destruct frame_type0 as [t|]; rewrite !varint_len_venc by fields; cbn [mbind option_bind]; rewrite !len_app; do 2 f_equal; [|change (len (@nil Z)) with 0]; lia.
Qed.

(** ** Reading takes the format *)

(** [m] reads [b] at the front and gives [a], when what follows is [P]. *)
Definition takes {E A} (P : list Z -> Prop) (m : stx Reader E A) (b : list Z) (a : A) : Prop :=
  forall r tail, reader_ok r -> left_ r = b ++ tail -> P tail -> m r = (Ok a, advance (len b) r).

Definition anything (tail : list Z) : Prop := True.

Lemma advance_app r (b1 b2 : list Z) : advance (len b2) (advance (len b1) r) = advance (len (b1 ++ b2)) r.
Proof. unfold advance. cbn. rewrite len_app. f_equal. lia. Qed.

Lemma left_app r b tail : reader_ok r -> left_ r = b ++ tail -> reader_ok (advance (len b) r) /\ left_ (advance (len b) r) = tail.
Proof.
  intros Hr Hl. assert (Hn := len_nonneg b). assert (Ht := len_nonneg tail). destruct (rd_advance_ok (len b) r Hr) as [H1 H2]; [rewrite Hl, len_app; lia|].
  split; [done|]. rewrite H2, Hl. unfold len. rewrite Nat2Z.id. apply drop_app_length.
Qed.

Lemma takes_bind {E A B} P (m : stx Reader E A) (k : A -> stx Reader E B) b1 b2 a c :
  takes anything m b1 a -> takes P (k a) b2 c -> takes P (m ≫= k) (b1 ++ b2) c.
Proof.
  intros Hm Hk r tail Hr Hl HP. rewrite <- app_assoc in Hl. unfold mbind, stx_bind. rewrite (Hm r (b2 ++ tail) Hr Hl I).
  destruct (left_app r b1 (b2 ++ tail) Hr Hl) as [Hr' Hl']. by rewrite (Hk _ tail Hr' Hl' HP), advance_app.
Qed.

Lemma takes_ret {E A} P (a : A) : takes P (mret a : stx Reader E A) [] a.
Proof. intros r tail Hr Hl HP. unfold mret, stx_ret, advance. change (len (@nil Z)) with 0. rewrite Z.add_0_r. by destruct r. Qed.

Lemma takes_q {A} P (m : reads A) b a : takes P m b a -> takes P (q m) b a.
Proof. intros Hm r tail Hr Hl HP. unfold q, map_err. by rewrite (Hm r tail Hr Hl HP). Qed.

Lemma takes_varint v : field v -> takes anything read_varint (venc v) v.
Proof.
  intros Hv r tail Hr Hl _. destruct (venc_ok v Hv) as (n & _ & Hlen & _ & _ & Hg & _). unfold read_varint, mbind, stx_bind.
  rewrite read_get_ok by done. rewrite Hl, Hg, Hlen. done.
Qed.

Lemma takes_bytes n d : len d = n -> takes anything (read_bytes n) d d.
Proof.
  intros <- r tail Hr Hl _. rewrite read_bytes_ok by (done || apply len_nonneg). rewrite Hl, len_app. assert (Ht := len_nonneg tail).
  rewrite decide_True by lia. do 2 f_equal. unfold len. rewrite Nat2Z.id. apply take_app_length.
Qed.

Lemma takes_prefixed d : octets d -> takes anything read_length_prefixed (prefixed d) d.
Proof.
  intros Hd r tail Hr Hl _. unfold prefixed in *. rewrite <- app_assoc in Hl. destruct (venc_ok (len d) (len_field d Hd)) as (n & _ & Hlen & Hn & _ & Hg & _).
  rewrite read_length_prefixed_ok by done. rewrite Hl, Hg. assert (Ht := len_nonneg tail). rewrite !len_app, Hlen. rewrite decide_True by lia.
  rewrite <- Hlen. replace (Z.to_nat (len (venc (len d)))) with (length (venc (len d))) by (unfold len; lia). rewrite drop_app_length.
  replace (Z.to_nat (len d)) with (length d) by (unfold len; lia). by rewrite take_app_length.
Qed.

Lemma takes_u8 b : takes anything read_u8 [b] b.
Proof.
  intros r tail Hr Hl _. unfold read_u8, mbind, stx_bind, xget.
  assert (Hh : buf r !! Z.to_nat (pos r) = Some b).
  { assert (H : left_ r !! 0%nat = Some b) by by rewrite Hl. unfold left_ in H. by rewrite lookup_drop, Nat.add_0_r in H. }
  rewrite Hh. cbn [xsome]. rewrite forward_ok; [done|done|]. rewrite Hl, len_app. assert (Ht := len_nonneg tail). change (len [b]) with 1. lia.
Qed.

Lemma takes_run {E A B} (m : stx Reader E A) (k : A -> stx Reader E B) b a r tail :
  takes anything m b a -> reader_ok r -> left_ r = b ++ tail -> (m ≫= k) r = k a (advance (len b) r).
Proof. intros Hm Hr Hl. unfold mbind, stx_bind. by rewrite (Hm r tail Hr Hl I). Qed.

Lemma rest_of_run {A} (k : list Z -> body_reads A) r : reader_ok r -> (rest_of ≫= k) r = k (left_ r) r.
Proof. intros Hr. unfold rest_of, mbind, stx_bind, xget. rewrite rest_ok by done. done. Qed.

Lemma takes_check_end offset n : 0 <= offset -> 0 <= n -> offset + n <= MAX_VARINT -> takes anything (check_end offset n) [] tt.
Proof.
  intros H0 Hn Hm. unfold check_end, checked_add. change MAX_VARINT with 4611686018427387903 in *. rewrite (proj2 (Z.leb_le _ _)) by (unfold U64_MAX; lia).
  rewrite (proj2 (Z.ltb_ge _ _)) by lia. apply takes_ret.
Qed.

(** A read at the end of a body. *)
Lemma takes_last {E A B} (m : stx Reader E A) (g : A -> B) b a : takes anything m b a -> takes anything (x ← m; mret (g x)) b (g a).
Proof. intros Hm. rewrite <- (app_nil_r b). eapply takes_bind; [exact Hm|apply takes_ret]. Qed.

Lemma takes_body1 k a : field a -> takes anything (body1 k) (venc a) (k a).
Proof. intros Ha. apply takes_last, takes_q. by apply takes_varint. Qed.

Lemma takes_body2 k a b : field a -> field b -> takes anything (body2 k) (venc a ++ venc b) (k a b).
Proof. intros Ha Hb. eapply takes_bind; [by apply takes_q, takes_varint|]. by apply (takes_last (q read_varint) (fun b => k a b)), takes_q, takes_varint. Qed.

Lemma takes_streams g m : 0 <= m <= MAX_STREAMS_LIMIT -> takes anything (m ← body_streams; mret (g m : Frame)) (venc m) (g m).
Proof.
  intros Hm. apply takes_last. unfold body_streams. rewrite <- (app_nil_r (venc m)). eapply takes_bind; [apply takes_q, takes_varint; eauto|].
  rewrite (proj2 (Z.ltb_ge _ _)) by lia. apply takes_ret.
Qed.

Lemma takes_array n d : len d = n -> takes anything (array n) d d.
Proof.
  intros Hn. unfold array. rewrite <- (app_nil_r d) at 1. eapply takes_bind; [by apply takes_q, takes_bytes|]. rewrite (proj2 (Z.eqb_eq _ _)) by done. apply takes_ret.
Qed.

(** A frame's body, read in order. *)
Ltac take_next := eapply takes_bind; [apply takes_q; (apply takes_varint || apply takes_prefixed); fields|].

Lemma takes_crypto offset d : octets d -> 0 <= offset -> offset + len d <= MAX_VARINT -> takes anything body_crypto (venc offset ++ prefixed d) (Crypto offset d).
Proof.
  intros Hd H0 Hm. unfold body_crypto. take_next. rewrite <- (app_nil_r (prefixed d)). take_next. rewrite <- (app_nil_l []).
  eapply takes_bind; [apply takes_check_end; [done|apply len_nonneg|done]|]. apply takes_ret.
Qed.

Lemma takes_new_token d : octets d -> d <> [] -> takes anything body_new_token (prefixed d) (NewToken d).
Proof.
  intros Hd Hne. unfold body_new_token. rewrite <- (app_nil_r (prefixed d)). take_next. assert (Hp := len_pos d Hne). rewrite (proj2 (Z.eqb_neq _ _)) by lia. apply takes_ret.
Qed.

Lemma takes_new_connection_id s r cid token : frame_wf (NewConnectionId s r cid token) ->
  takes anything body_new_connection_id (body_bytes (NewConnectionId s r cid token)) (NewConnectionId s r cid token).
Proof.
  intros (H1 & H2 & H3 & H4 & H5 & H6). assert (Hr : field r) by (destruct H1; split; lia). unfold body_new_connection_id, body_bytes.
  take_next. take_next. eapply takes_bind; [apply takes_q, takes_u8|]. destruct (Z.eqb_spec (len cid) 0); [lia|]. cbn [orb].
  rewrite (proj2 (Z.ltb_ge _ _)) by lia. rewrite (proj2 (Z.ltb_ge _ _)) by lia. eapply takes_bind; [by apply takes_q, takes_bytes|].
  by apply (takes_last (array 16) (fun token => NewConnectionId s r cid token)), takes_array.
Qed.

Lemma takes_close code ft reason : frame_wf (ConnectionClose code ft reason) ->
  takes anything (body_close (match ft with Some _ => false | None => true end)) (body_bytes (ConnectionClose code ft reason)) (ConnectionClose code ft reason).
Proof.
  intros (H1 & H2 & H3). unfold body_close, body_bytes. take_next. eapply takes_bind.
  - destruct ft as [t|]; [|apply takes_ret]. apply (takes_last (q read_varint) Some). by apply takes_q, takes_varint.
  - apply (takes_last (q read_length_prefixed) (fun reason => ConnectionClose code ft reason)). by apply takes_q, takes_prefixed.
Qed.

Lemma takes_stream id offset d fin : frame_wf (StreamFrame id offset d fin) ->
  takes anything (body_stream (frame_type (StreamFrame id offset d fin))) (body_bytes (StreamFrame id offset d fin)) (StreamFrame id offset d fin).
Proof.
  intros (H1 & H2 & H3 & H4). assert (Hbits : forall f : bool, Z.land (Z.lor (Z.lor (Z.lor STREAM STREAM_LEN) (if offset =? 0 then 0 else STREAM_OFF)) (b2z f)) STREAM_OFF = (if offset =? 0 then 0 else STREAM_OFF) /\
    Z.land (Z.lor (Z.lor (Z.lor STREAM STREAM_LEN) (if offset =? 0 then 0 else STREAM_OFF)) (b2z f)) STREAM_LEN = STREAM_LEN /\
    Z.land (Z.lor (Z.lor (Z.lor STREAM STREAM_LEN) (if offset =? 0 then 0 else STREAM_OFF)) (b2z f)) STREAM_FIN = b2z f) by (intros []; by destruct (offset =? 0)).
  destruct (Hbits fin) as (B1 & B2 & B3). unfold body_stream. cbn [frame_type body_bytes]. rewrite B1, B2, B3. take_next. cbn [negb Z.eqb]. 
  apply takes_bind with (a := offset).
  - destruct (Z.eqb_spec offset 0) as [->|Hne]; [apply takes_ret|]. apply takes_q, takes_varint. fields.
  - rewrite <- (app_nil_r (prefixed d)). take_next. rewrite <- (app_nil_l []).
    eapply takes_bind; [apply takes_check_end; [done|apply len_nonneg|done]|]. destruct fin; apply takes_ret.
Qed.

(** *** PADDING *)

Definition not_zero (tail : list Z) : Prop := head tail <> Some 0.

Lemma padding_loop_ok k fuel n r tail :
  reader_ok r -> left_ r = replicate k 0 ++ tail -> not_zero tail -> (k < fuel)%nat ->
  padding_loop fuel n r = (Ok (n + Z.of_nat k), advance (Z.of_nat k) r).
Proof.
  revert fuel n r. induction k as [|k IH]; intros [|fuel] n r Hr Hl Ht Hf; try lia; cbn [padding_loop]; rewrite rest_of_run by done; rewrite Hl.
  - cbn [replicate app]. rewrite bool_decide_eq_false_2 by done. cbn. rewrite Z.add_0_r. unfold mret, stx_ret, advance. rewrite Z.add_0_r. by destruct r.
  - cbn [replicate app head]. rewrite bool_decide_eq_true_2 by done. change (replicate (S k) 0 ++ tail) with ([0] ++ (replicate k 0 ++ tail)) in Hl.
    rewrite (takes_run (q read_u8) _ [0] 0 r (replicate k 0 ++ tail)) by (done || apply takes_q, takes_u8). destruct (left_app r [0] _ Hr Hl) as [Hr' Hl'].
    rewrite (IH fuel (n + 1) _ Hr' Hl' Ht) by lia. unfold advance. cbn [pos buf]. change (len [0]) with 1. do 2 f_equal; lia.
Qed.

Lemma buf_left r : reader_ok r -> len (left_ r) <= len (buf r).
Proof. intros Hr. rewrite left_len by done. destruct (rd_pos _ Hr). lia. Qed.

Lemma takes_padding n : 1 <= n -> takes not_zero body_padding (replicate (Z.to_nat (n - 1)) 0) (Padding n).
Proof.
  intros Hn r tail Hr Hl Ht. unfold body_padding, mbind, stx_bind, xget. assert (Hb := buf_left r Hr).
  rewrite (padding_loop_ok (Z.to_nat (n - 1)) _ 1 r tail Hr Hl Ht).
  - unfold mret, stx_ret, advance, len. rewrite length_replicate. do 2 f_equal. f_equal. lia.
  - rewrite Hl, len_app in Hb. unfold len in Hb. rewrite length_replicate in Hb. lia.
Qed.

(** *** ACK *)

(** A number is read from its own bytes only. *)
Lemma get_varint_front l v n tail :
  (forall b, b ∈ l -> byte b) -> get_varint l = Some (v, n) ->
  1 <= n <= len l /\ field v /\ get_varint (take (Z.to_nat n) l ++ tail) = Some (v, n).
Proof.
  intros Hb Hg. assert (H := get_varint_ok l Hb). rewrite Hg in H. destruct H as (t & Ht & Hv & Hn & He). split; [destruct Ht as [[_ ->]|[[_ ->]|[[_ ->]|[_ ->]]]]; lia|].
  split; [|rewrite He; by apply get_be]. assert (room n <= room 8) by (destruct Ht as [[_ ->]|[[_ ->]|[[_ ->]|[_ ->]]]]; by vm_compute).
  change (room 8) with (MAX_VARINT + 1) in *. split; lia.
Qed.

Lemma drop_bytes n (l : list Z) : (forall b, b ∈ l -> byte b) -> forall b, b ∈ drop n l -> byte b.
Proof. intros Hl b Hb. apply Hl. rewrite <- (take_drop n l). apply elem_of_app. by right. Qed.

(** The ranges are a front of the bytes, two at least for each. *)
Lemma parse_ranges_front k s l l' :
  (forall b, b ∈ l -> byte b) -> parse_ranges k s l = Some l' ->
  exists p, l = p ++ l' /\ 2 * Z.of_nat k <= len p /\ forall tail, parse_ranges k s (p ++ tail) = Some tail.
Proof.
  revert s l. induction k as [|k IH]; intros s l Hb Hp; cbn [parse_ranges] in Hp.
  { injection Hp as <-. exists []. split; [done|]. split; [change (len (@nil Z)) with 0; lia|done]. }
  destruct (get_varint l) as [[v1 n1]|] eqn:Hg1; [|done]. cbn [mbind option_bind fst snd] in Hp.
  destruct (get_varint (drop (Z.to_nat n1) l)) as [[v2 n2]|] eqn:Hg2; [|done]. cbn [mbind option_bind fst snd] in Hp.
  destruct (checked_sub s v1) as [t1|] eqn:E1; [|done]. cbn [mbind option_bind] in Hp. destruct (checked_sub t1 2) as [t2|] eqn:E2; [|done]. cbn [mbind option_bind] in Hp.
  destruct (checked_sub t2 v2) as [t3|] eqn:E3; [|done]. cbn [mbind option_bind] in Hp. assert (Hb1 := drop_bytes (Z.to_nat n1) l Hb).
  assert (Hb2 := drop_bytes (Z.to_nat n2) _ Hb1). destruct (IH _ _ Hb2 Hp) as (p & Hl & Hlen & Hpp).
  set (l1 := take (Z.to_nat n1) l). set (l2 := take (Z.to_nat n2) (drop (Z.to_nat n1) l)).
  assert (Hn1 := proj1 (get_varint_front l v1 n1 [] Hb Hg1)). assert (Hn2 := proj1 (get_varint_front _ v2 n2 [] Hb1 Hg2)).
  assert (L1 : length l1 = Z.to_nat n1) by (unfold l1; rewrite length_take; unfold len in *; lia).
  assert (L2 : length l2 = Z.to_nat n2) by (unfold l2; rewrite length_take; unfold len in *; lia).
  exists (l1 ++ l2 ++ p). split; [rewrite <- !app_assoc, <- Hl; unfold l1, l2; by rewrite !take_drop|]. split; [rewrite !len_app; unfold len in *; lia|].
  intros tail. cbn [parse_ranges]. rewrite <- !app_assoc. destruct (get_varint_front l v1 n1 (l2 ++ p ++ tail) Hb Hg1) as (_ & _ & G1). fold l1 in G1. rewrite G1.
  cbn [mbind option_bind fst snd]. rewrite <- L1, drop_app_length. destruct (get_varint_front _ v2 n2 (p ++ tail) Hb1 Hg2) as (_ & _ & G2). fold l2 in G2. rewrite G2.
  cbn [mbind option_bind fst snd]. rewrite <- L2, drop_app_length, E1. cbn [mbind option_bind]. rewrite E2. cbn [mbind option_bind]. rewrite E3. cbn [mbind option_bind]. apply Hpp.
Qed.

Lemma q_varint_run r : reader_ok r -> q read_varint r =
  match get_varint (left_ r) with Some (v, n) => (Ok v, advance n r) | None => (Err Short, r) end.
Proof.
  intros Hr. unfold q, map_err, read_varint, mbind, stx_bind. rewrite read_get_ok by done. by destruct (get_varint (left_ r)) as [[v n]|].
Qed.

Lemma stx_ok {S E A B} (m : stx S E A) (k : A -> stx S E B) s a s' : m s = (Ok a, s') -> (m ≫= k) s = k a s'.
Proof. unfold mbind, stx_bind. by intros ->. Qed.

Lemma stx_err {S E A B} (m : stx S E A) (k : A -> stx S E B) s e s' : m s = (Err e, s') -> (m ≫= k) s = (Err e, s').
Proof. unfold mbind, stx_bind. by intros ->. Qed.

(** The next range below [s]. *)
Definition below (s gap n : Z) : option Z := top ← (v ← checked_sub s gap; checked_sub v 2); checked_sub top n.

Lemma parse_ranges_step k s l :
  parse_ranges (S k) s l = match get_varint l with
    | Some (v1, n1) => let l1 := drop (Z.to_nat n1) l in
        match get_varint l1 with
        | Some (v2, n2) => match below s v1 v2 with Some low => parse_ranges k low (drop (Z.to_nat n2) l1) | None => None end
        | None => None
        end
    | None => None
    end.
Proof.
  cbn [parse_ranges]. destruct (get_varint l) as [[v1 n1]|]; [|done]. cbn [mbind option_bind fst snd]. destruct (get_varint _) as [[v2 n2]|]; [|done].
  cbn [mbind option_bind fst snd]. unfold below. destruct (checked_sub s v1) as [t1|]; [|done]. cbn [mbind option_bind]. destruct (checked_sub t1 2) as [t2|]; [|done].
  cbn [mbind option_bind]. by destruct (checked_sub t2 v2).
Qed.

(** The loop reads them. *)
Lemma ack_loop_ok k s r : reader_ok r ->
  match parse_ranges k s (left_ r) with
  | Some l' => exists p, left_ r = p ++ l' /\ ack_loop k s r = (Ok tt, advance (len p) r)
  | None => exists e r', ack_loop k s r = (Err e, r') /\ (e = Short \/ exists w, e = BadInvalid w) /\ reader_ok r'
  end.
Proof.
  revert s r. induction k as [|k IH]; intros s r Hr.
  { exists []. split; [done|]. unfold ack_loop, mret, stx_ret, advance. change (len (@nil Z)) with 0. rewrite Z.add_0_r. by destruct r. }
  rewrite parse_ranges_step. cbn [ack_loop]. assert (Hb := fun b => left_bytes r b Hr). assert (Hq := q_varint_run r Hr).
  destruct (get_varint (left_ r)) as [[v1 n1]|] eqn:Hg1; [|exists Short, r; split; [by apply stx_err|split; [by left|done]]]. cbn zeta. rewrite (stx_ok _ _ _ _ _ Hq). clear Hq.
  assert (Hn1 := proj1 (get_varint_front _ v1 n1 [] Hb Hg1)). destruct (rd_advance_ok n1 r Hr ltac:(lia)) as [Hr1 Hl1].
  assert (Hq := q_varint_run _ Hr1). rewrite Hl1 in Hq. assert (Hb1 := drop_bytes (Z.to_nat n1) _ Hb).
  destruct (get_varint (drop (Z.to_nat n1) (left_ r))) as [[v2 n2]|] eqn:Hg2; [|exists Short, (advance n1 r); split; [by apply stx_err|split; [by left|done]]].
  rewrite (stx_ok _ _ _ _ _ Hq). clear Hq. assert (Hn2 := proj1 (get_varint_front _ v2 n2 [] Hb1 Hg2)).
  destruct (rd_advance_ok n2 _ Hr1 ltac:(rewrite Hl1; lia)) as [Hr2 Hl2]. rewrite Hl1 in Hl2. fold (below s v1 v2).
  destruct (below s v1 v2) as [t3|]; [|eexists _, _; split; [done|]; split; [right; by eexists|done]]. specialize (IH t3 _ Hr2). rewrite Hl2 in IH.
  destruct (parse_ranges k t3 _) as [l'|]; [|exact IH]. destruct IH as (p & Hp & ->).
  exists (take (Z.to_nat n1) (left_ r) ++ take (Z.to_nat n2) (drop (Z.to_nat n1) (left_ r)) ++ p). split; [rewrite <- !app_assoc, <- Hp; by rewrite !take_drop|].
  unfold advance. cbn [pos buf]. rewrite !len_app. do 2 f_equal. unfold len. rewrite !length_take. unfold len in *. lia.
Qed.

Lemma takes_ecn (ft : Z) e : ecn_wf e -> (ft =? ACK_ECN) = (match e with Some _ => true | None => false end) ->
  takes anything (if ft =? ACK_ECN then a ← q read_varint; b ← q read_varint; c ← q read_varint; mret (Some (mk_ecn a b c)) else mret None) (ecn_bytes e) e.
Proof.
  intros He ->. destruct e as [[a b c]|]; [|apply takes_ret]. destruct He as (H1 & H2 & H3). cbn in *. take_next. take_next.
  apply (takes_last (q read_varint) (fun c => Some (mk_ecn a b c))). by apply takes_q, takes_varint.
Qed.

Lemma takes_ack a : ack_wf a -> takes anything (body_ack (frame_type (AckFrame a))) (body_bytes (AckFrame a)) (AckFrame a).
Proof.
  intros Ha. assert (Hf := ack_fields a Ha). destruct Ha as [H1 H2 H3 H4 H5 H6 H7]. unfold body_ack. cbn [body_bytes].
  take_next. take_next. take_next. take_next. rewrite (proj2 (Z.ltb_ge _ _)) by lia.
  intros r tail Hr Hl _. rewrite rest_of_run by done. rewrite <- app_assoc in Hl.
  destruct (parse_ranges_front _ _ _ _ H5 H6) as (p & Hp & Hlen & Hpp). rewrite app_nil_r in Hp. subst p.
  assert (Hdiv : (len (left_ r) / 2 <? range_count a) = false).
  { apply Z.ltb_ge. apply Z.div_le_lower_bound; [lia|]. rewrite Hl, len_app. assert (Hn := len_nonneg (ecn_bytes (ecn a) ++ tail)). destruct H4. lia. }
  rewrite Hdiv. rewrite rest_of_run by done. assert (Hloop := ack_loop_ok (Z.to_nat (range_count a)) (largest a - first_range a) r Hr).
  rewrite Hl in Hloop. rewrite Hpp in Hloop. destruct Hloop as (p & Hp & Hrun). apply app_inv_tail in Hp. subst p.
  rewrite (stx_ok _ _ _ _ _ Hrun). destruct (left_app r (ranges a) _ Hr Hl) as [Hr1 Hl1]. rewrite rest_of_run by done. rewrite Hl1, Hl.
  assert (Hlenr := left_len r Hr). rewrite Hl in Hlenr. assert (Hrl := rd_len _ Hr). assert (Hrp := rd_pos _ Hr). assert (Hn1 := len_nonneg (ranges a)). assert (Hn2 := len_nonneg (ecn_bytes (ecn a) ++ tail)).
  assert (Hsl : slice 0 (u64 (len (ranges a ++ ecn_bytes (ecn a) ++ tail) - len (ecn_bytes (ecn a) ++ tail))) (ranges a ++ ecn_bytes (ecn a) ++ tail) = Some (ranges a)).
  { rewrite (len_app (ranges a)) in *. rewrite u64_small by lia. rewrite slice_eq by (rewrite ?(len_app (ranges a)); lia). rewrite Z.sub_0_r. change (Z.to_nat 0) with 0%nat. rewrite drop_0.
    f_equal. replace (Z.to_nat _) with (length (ranges a)) by (unfold len; lia). apply take_app_length. }
  rewrite Hsl. rewrite (stx_ok (xsome (BadFault Panic) (Some (ranges a))) _ _ (ranges a) (advance (len (ranges a)) r) eq_refl). rewrite (takes_run _ _ (ecn_bytes (ecn a)) (ecn a) _ tail); [|apply takes_ecn; [done|cbn; by destruct (ecn a)]|done|done].
  rewrite advance_app. unfold mret, stx_ret. destruct a; done.
Qed.

(** *** A frame *)

(** What may follow: PADDING runs on over zeros. *)
Definition after (f : Frame) : list Z -> Prop := match f with Padding _ => not_zero | _ => anything end.

Lemma body_stream_type ft : 8 <= ft <= 15 -> body ft = body_stream ft.
Proof.
  intros H. unfold body. unfold PADDING, PING, ACK, ACK_ECN, RESET_STREAM, STOP_SENDING, CRYPTO, NEW_TOKEN.
  rewrite !(proj2 (Z.eqb_neq ft _)) by lia. rewrite !(proj2 (Z.leb_le _ _)) by lia. done.
Qed.

Lemma stream_type id offset d fin : 8 <= frame_type (StreamFrame id offset d fin) <= 15.
Proof. cbn [frame_type]. destruct (offset =? 0), fin; vm_compute; done. Qed.

Lemma takes_body f : frame_wf f -> takes (after f) (body (frame_type f)) (body_bytes f) f.
Proof.
  intros Hf. destruct f; cbn [after]; try (cbn [frame_type]; unfold body; cbn; apply takes_ret).
  - by apply takes_padding.
  - replace (body _) with (body_ack (frame_type (AckFrame a))) by (cbn [frame_type]; by destruct (ecn a)). by apply takes_ack.
  - destruct Hf as (H1 & H2 & H3). cbn [frame_type body_bytes]. change (body RESET_STREAM) with (a ← q read_varint; b ← q read_varint; c ← q read_varint; mret (ResetStream a b c)).
    take_next. take_next. apply (takes_last (q read_varint) (fun c => ResetStream id error c)). by apply takes_q, takes_varint.
  - apply takes_body2; apply Hf.
  - apply takes_crypto; apply Hf.
  - apply takes_new_token; apply Hf.
  - rewrite body_stream_type by apply stream_type. by apply takes_stream.
  - apply takes_body1, Hf.
  - apply takes_body2; apply Hf.
  - destruct bidirectional; [apply (takes_streams (MaxStreams true))|apply (takes_streams (MaxStreams false))]; apply Hf.
  - apply takes_body1, Hf.
  - apply takes_body2; apply Hf.
  - destruct bidirectional; [apply (takes_streams (StreamsBlocked true))|apply (takes_streams (StreamsBlocked false))]; apply Hf.
  - by apply takes_new_connection_id.
  - apply takes_body1, Hf.
  - apply (takes_last (array 8) PathChallenge), takes_array, Hf.
  - apply (takes_last (array 8) PathResponse), takes_array, Hf.
  - assert (Hc := takes_close code frame_type0 reason Hf). destruct frame_type0; exact Hc.
Qed.

Lemma get_small ft tail : 0 <= ft < 64 -> get_varint (ft :: tail) = Some (ft, 1).
Proof.
  intros Hf. assert (H := get_be 0 1 ft tail ltac:(unfold size_of_tag; lia) Hf). change (Z.to_nat 1) with 1%nat in H. cbn [be_bytes app] in H.
  rewrite Z.mul_0_l, Z.add_0_r, land_255, Z.mod_small in H by lia. exact H.
Qed.

Lemma takes_type ft : 0 <= ft < 64 -> takes anything read_varint_minimal [ft] (ft, true).
Proof.
  intros Hf r tail Hr Hl _. assert (Hg := read_get_ok r Hr). rewrite Hl in Hg. cbn [app] in Hg. rewrite get_small in Hg by done. unfold read_varint_minimal.
  rewrite (stx_ok _ _ _ _ _ Hg). cbn [fst snd]. assert (Hv : varint_len ft = Some 1).
  { unfold varint_len. change MAX_VARINT with 4611686018427387903. rewrite (proj2 (Z.ltb_ge _ _)) by lia. by rewrite (proj2 (Z.leb_le _ _)) by lia. }
  rewrite Hv. done.
Qed.

Lemma takes_map_err {E E' A} (g : E -> E') P (m : stx Reader E A) b a : takes P m b a -> takes P (map_err g m) b a.
Proof. intros Hm r tail Hr Hl HP. unfold map_err. by rewrite (Hm r tail Hr Hl HP). Qed.

Lemma known_type f : frame_type f <= HANDSHAKE_DONE.
Proof.
  assert (Hs := stream_type). unfold HANDSHAKE_DONE. destruct f; try (vm_compute; done).
  - cbn. destruct (ecn a); vm_compute; done.
  - specialize (Hs id offset data fin). lia.
  - destruct bidirectional; vm_compute; done.
  - destruct bidirectional; vm_compute; done.
  - destruct frame_type0; vm_compute; done.
Qed.

Lemma takes_frame f ty : frame_wf f -> allowed_in (frame_type f) ty = true -> takes (after f) (read ty) (frame_bytes f) f.
Proof.
  intros Hf Ha. unfold read, frame_bytes. change (frame_type f :: body_bytes f) with ([frame_type f] ++ body_bytes f).
  eapply takes_bind; [apply takes_map_err, takes_type, type_byte|]. cbn [negb]. rewrite (proj2 (Z.ltb_ge _ _)) by apply known_type. rewrite Ha. cbn [negb].
  apply takes_map_err. by apply takes_body.
Qed.

(** *** A payload *)

(** Frames one after another: no two runs of PADDING touch. *)
Fixpoint padding_apart (fs : list Frame) : Prop :=
  match fs with
  | Padding _ :: ((Padding _ :: _) as fs') => False
  | _ :: fs' => padding_apart fs'
  | [] => True
  end.

Definition payload_bytes (fs : list Frame) : list Z := concat (List.map frame_bytes fs).

Lemma after_ok f fs : padding_apart (f :: fs) -> after f (payload_bytes fs).
Proof.
  intros Hp. destruct f; try done. destruct fs as [|g fs]; [done|]. unfold after, not_zero, payload_bytes. cbn [List.map concat app frame_bytes head].
  destruct g; try done; cbn [frame_type]; try (vm_compute; done).
  - destruct (ecn a); vm_compute; done.
  - assert (H := stream_type id offset data fin). cbn [frame_type] in H. intros [= H']. lia.
  - destruct bidirectional; vm_compute; done.
  - destruct bidirectional; vm_compute; done.
  - destruct frame_type0; vm_compute; done.
Qed.

Lemma padding_apart_tail f fs : padding_apart (f :: fs) -> padding_apart fs.
Proof. destruct f; try done. destruct fs as [|[] fs]; done. Qed.

Lemma collect_ok fs ty r st fuel :
  Forall frame_wf fs -> Forall (fun f => allowed_in (frame_type f) ty = true) fs -> padding_apart fs -> reader_ok r -> left_ r = payload_bytes fs ->
  (st = true \/ fs <> []) -> (length fs < fuel)%nat ->
  collect fuel (mk_frames r ty st false) = Some (List.map Ok fs).
Proof.
  revert r st fuel. induction fs as [|f fs IH]; intros r st [|fuel] Hw Ha Hp Hr Hl Hst Hf; try (cbn [length] in Hf; lia); cbn [collect]; unfold frames_next; cbn [failed fr_reader started fr_ty].
  - assert (Hend : at_end r = true) by (apply Z.leb_le; assert (H := left_len r Hr); rewrite Hl in H; change (len (payload_bytes [])) with 0 in H; lia).
    rewrite Hend. destruct Hst as [->|]; done.
  - apply Forall_cons in Hw as [Hwf Hw], Ha as [Haf Ha]. change (payload_bytes (f :: fs)) with (frame_bytes f ++ payload_bytes fs) in Hl.
    assert (Hne : 0 < len (frame_bytes f)) by (by apply len_pos). assert (Hn := len_nonneg (payload_bytes fs)).
    assert (Hend : at_end r = false) by (apply Z.leb_gt; assert (H := left_len r Hr); rewrite Hl, len_app in H; lia). rewrite Hend.
    rewrite (takes_frame f ty Hwf Haf r _ Hr Hl (after_ok _ _ Hp)). destruct (left_app r _ _ Hr Hl) as [Hr' Hl'].
    rewrite (IH _ true fuel Hw Ha (padding_apart_tail _ _ Hp) Hr' Hl' ltac:(by left)) by (cbn [length] in Hf; lia). done.
Qed.

(** ** Reading any input *)

(** The cursor has moved on. *)
Definition moved (r r' : Reader) : Prop := reader_ok r' /\ exists k, 0 <= k /\ r' = advance k r.

Definition benign (e : bad) : Prop := match e with BadFault _ => False | _ => True end.

(** On any input [m] gives a value that is [Q], or an error that the input
    is to blame for. *)
Definition safe {A} (m : body_reads A) (Q : A -> Prop) : Prop :=
  forall r, reader_ok r -> match m r with (Ok a, r') => Q a /\ moved r r' | (Err e, r') => benign e /\ reader_ok r' end.

Lemma moved_refl r : reader_ok r -> moved r r.
Proof. intros Hr. split; [done|]. exists 0. split; [done|]. unfold advance. rewrite Z.add_0_r. by destruct r. Qed.

Lemma moved_trans r r1 r2 : moved r r1 -> moved r1 r2 -> moved r r2.
Proof. intros [_ (k & Hk & ->)] [H (k' & Hk' & ->)]. split; [done|]. exists (k + k'). split; [lia|]. unfold advance. cbn. f_equal. lia. Qed.

Lemma moved_advance n r : reader_ok r -> 0 <= n <= len (left_ r) -> moved r (advance n r).
Proof. intros Hr Hn. split; [by apply rd_advance_ok|]. exists n. split; [lia|done]. Qed.

Lemma safe_bind {A B} (m : body_reads A) (k : A -> body_reads B) Q Q' : safe m Q -> (forall a, Q a -> safe (k a) Q') -> safe (m ≫= k) Q'.
Proof.
  intros Hm Hk r Hr. specialize (Hm r Hr). unfold mbind, stx_bind. destruct (m r) as [[a|e] r1]; [|done]. destruct Hm as [HQ Hmv].
  specialize (Hk a HQ r1 (proj1 Hmv)). destruct (k a r1) as [[b|e] r2]; [|done]. destruct Hk as [HQ' Hmv']. split; [done|]. by eapply moved_trans.
Qed.

Lemma safe_ret {A} (a : A) (Q : A -> Prop) : Q a -> safe (mret a) Q.
Proof. intros HQ r Hr. cbn. split; [done|by apply moved_refl]. Qed.

Lemma safe_fail {A} e (Q : A -> Prop) : benign e -> safe (xfail e) Q.
Proof. intros He r Hr. cbn. done. Qed.

Lemma safe_mono {A} (m : body_reads A) (Q Q' : A -> Prop) : safe m Q -> (forall a, Q a -> Q' a) -> safe m Q'.
Proof. intros Hm H r Hr. specialize (Hm r Hr). destruct (m r) as [[a|e] r']; [|done]. destruct Hm. auto. Qed.

Lemma safe_varint : safe (q read_varint) field.
Proof.
  intros r Hr. rewrite q_varint_run by done. destruct (get_varint (left_ r)) as [[v n]|] eqn:Hg; [|done].
  destruct (get_varint_front _ v n [] (fun b => left_bytes r b Hr) Hg) as (Hn & Hv & _). split; [done|]. apply moved_advance; [done|lia].
Qed.

Lemma safe_bytes n : 0 <= n -> safe (q (read_bytes n)) (fun d => (forall b, b ∈ d -> byte b) /\ len d = n).
Proof.
  intros Hn r Hr. unfold q, map_err. rewrite read_bytes_ok by done. case_decide as Hd; [|done]. split; [|by apply moved_advance].
  split; [|unfold len in *; rewrite length_take; lia]. intros b Hb. apply (left_bytes r b Hr). rewrite <- (take_drop (Z.to_nat n) (left_ r)). apply elem_of_app. by left.
Qed.

Lemma safe_prefixed : safe (q read_length_prefixed) octets.
Proof.
  intros r Hr. unfold q, map_err. rewrite read_length_prefixed_ok by done. destruct (get_varint (left_ r)) as [[v n]|] eqn:Hg; [|done]. case_decide as Hd; [|done].
  destruct (get_varint_front _ v n [] (fun b => left_bytes r b Hr) Hg) as (Hn & [Hv0 Hv] & _). split; [|apply moved_advance; [done|lia]]. split.
  - intros b Hb. apply (left_bytes r b Hr). rewrite <- (take_drop (Z.to_nat n) (left_ r)). apply elem_of_app. right.
    rewrite <- (take_drop (Z.to_nat v) (drop (Z.to_nat n) (left_ r))). apply elem_of_app. by left.
  - unfold len in *. rewrite length_take, length_drop. lia.
Qed.

Lemma read_u8_run r : reader_ok r -> read_u8 r = match left_ r with b :: _ => (Ok b, advance 1 r) | [] => (Err Truncated, r) end.
Proof.
  intros Hr. destruct (left_ r) as [|b l] eqn:Hl; [|by apply (takes_u8 b r l)]. assert (H := left_len r Hr). rewrite Hl in H. change (len (@nil Z)) with 0 in H.
  unfold read_u8. rewrite (stx_ok xget _ _ r r eq_refl). apply stx_err. unfold xsome. rewrite lookup_ge_None_2; [done|]. destruct (rd_pos _ Hr). unfold len in *. lia.
Qed.

Lemma safe_u8 : safe (q read_u8) byte.
Proof.
  intros r Hr. unfold q, map_err. rewrite read_u8_run by done. assert (Hb := fun b => left_bytes r b Hr). destruct (left_ r) as [|b l] eqn:Hl; [done|].
  split; [apply Hb; left|]. apply moved_advance; [done|]. rewrite Hl. unfold len. cbn [length]. lia.
Qed.

Lemma safe_check_end o n : 0 <= o -> 0 <= n -> safe (check_end o n) (fun _ => o + n <= MAX_VARINT).
Proof.
  intros Ho Hn. unfold check_end, checked_add. destruct (Z.leb_spec (o + n) U64_MAX); [|by apply safe_fail]. destruct (Z.ltb_spec MAX_VARINT (o + n)); [by apply safe_fail|]. by apply safe_ret.
Qed.

Lemma safe_array n : 0 <= n <= 64 -> safe (array n) (fun d => octets d /\ len d = n).
Proof.
  intros Hn. eapply safe_bind; [apply safe_bytes; lia|]. intros d [Hd Hl]. rewrite Hl, Z.eqb_refl. apply safe_ret. split; [|done]. split; [done|]. destruct (small_field n Hn). lia.
Qed.

Lemma safe_padding_loop fuel n r :
  reader_ok r -> len (left_ r) < Z.of_nat fuel ->
  match padding_loop fuel n r with (Ok m, r') => n <= m /\ moved r r' | (Err e, r') => benign e /\ reader_ok r' end.
Proof.
  revert n r. induction fuel as [|fuel IH]; intros n r Hr Hf; [assert (H := len_nonneg (left_ r)); lia|]. cbn [padding_loop]. rewrite rest_of_run by done.
  case_bool_decide as Hz; [|split; [lia|by apply moved_refl]]. destruct (left_ r) as [|b l] eqn:Hl; [done|]. injection Hz as ->.
  rewrite (takes_run (q read_u8) _ [0] 0 r l) by (done || apply takes_q, takes_u8). destruct (left_app r [0] l Hr Hl) as [Hr' Hl'].
  assert (Hm : moved r (advance (len [0]) r)) by (apply moved_advance; [done|rewrite Hl; unfold len; cbn [length]; lia]).
  specialize (IH (n + 1) _ Hr'). rewrite Hl' in IH. specialize (IH ltac:(unfold len in *; cbn [length] in *; lia)). destruct (padding_loop _ _ _) as [[m|e] r']; [|done].
  destruct IH as [H1 H2]. split; [lia|]. by eapply moved_trans.
Qed.

Lemma safe_padding : safe body_padding frame_wf.
Proof.
  intros r Hr. unfold body_padding. rewrite (stx_ok xget _ _ r r eq_refl). assert (Hp := safe_padding_loop (S (length (buf r))) 1 r Hr).
  assert (Hb := buf_left r Hr). specialize (Hp ltac:(unfold len in *; lia)). destruct (padding_loop _ _ _) as [[m|e] r'] eqn:E.
  - rewrite (stx_ok _ _ _ _ _ E). cbn. destruct Hp. split; [lia|done].
  - by rewrite (stx_err _ _ _ _ _ E).
Qed.

Lemma safe_body1 k : (forall a, field a -> frame_wf (k a)) -> safe (body1 k) frame_wf.
Proof. intros Hk. eapply safe_bind; [apply safe_varint|]. intros a Ha. by apply safe_ret, Hk. Qed.

Lemma safe_body2 k : (forall a b, field a -> field b -> frame_wf (k a b)) -> safe (body2 k) frame_wf.
Proof. intros Hk. eapply safe_bind; [apply safe_varint|]. intros a Ha. eapply safe_bind; [apply safe_varint|]. intros b Hb. apply safe_ret. auto. Qed.

Lemma safe_streams k : (forall m, 0 <= m <= MAX_STREAMS_LIMIT -> frame_wf (k m)) -> safe (m ← body_streams; mret (k m)) frame_wf.
Proof.
  intros Hk. eapply (safe_bind _ _ (fun m => 0 <= m <= MAX_STREAMS_LIMIT)); [|intros m Hm; by apply safe_ret, Hk]. eapply safe_bind; [apply safe_varint|]. intros m [Hm _].
  destruct (Z.ltb_spec MAX_STREAMS_LIMIT m); [by apply safe_fail|]. by apply safe_ret.
Qed.

Lemma safe_rest_bytes : safe (t ← rest_of; q (read_bytes (len t))) (fun d => forall b, b ∈ d -> byte b).
Proof.
  intros r Hr. rewrite rest_of_run by done. assert (H := safe_bytes (len (left_ r)) (len_nonneg _) r Hr).
  destruct (q (read_bytes (len (left_ r))) r) as [[d|e] r']; [|done]. destruct H as [[H _] H']. done.
Qed.

Lemma safe_stream ft : safe (body_stream ft) frame_wf.
Proof.
  unfold body_stream. eapply safe_bind; [apply safe_varint|]. intros id Hid. eapply (safe_bind _ _ field).
  { destruct (negb _); [apply safe_varint|]. apply safe_ret, small_field. lia. }
  intros offset [Ho _]. eapply (safe_bind _ _ (fun d => forall b, b ∈ d -> byte b)).
  { destruct (negb _); [eapply safe_mono; [apply safe_prefixed|by intros d [H _]]|apply safe_rest_bytes]. }
  intros d Hd. eapply safe_bind; [apply safe_check_end; [done|apply len_nonneg]|]. intros u Hm. cbn beta in Hm. apply safe_ret. cbn [frame_wf]. assert (Hn := len_nonneg d).
  split; [done|]. split; [|lia]. split; [done|lia].
Qed.

Lemma safe_crypto : safe body_crypto frame_wf.
Proof.
  unfold body_crypto. eapply safe_bind; [apply safe_varint|]. intros offset [Ho _]. eapply safe_bind; [apply safe_prefixed|]. intros d Hd.
  eapply safe_bind; [apply safe_check_end; [done|apply len_nonneg]|]. intros u Hm. cbn beta in Hm. apply safe_ret. cbn. done.
Qed.

Lemma safe_new_token : safe body_new_token frame_wf.
Proof.
  unfold body_new_token. eapply safe_bind; [apply safe_prefixed|]. intros d Hd. destruct (Z.eqb_spec (len d) 0) as [|Hne]; [by apply safe_fail|]. apply safe_ret. split; [done|].
  intros ->. by apply Hne.
Qed.

Lemma safe_new_connection_id : safe body_new_connection_id frame_wf.
Proof.
  unfold body_new_connection_id. eapply safe_bind; [apply safe_varint|]. intros s Hs. eapply safe_bind; [apply safe_varint|]. intros rt [Hrt _]. eapply safe_bind; [apply safe_u8|].
  intros n [Hn0 Hn]. destruct ((n =? 0) || (MAX_CID_LEN <? n)) eqn:Hx; [by apply safe_fail|]. apply orb_false_iff in Hx as [H1 H2]. cleanb.
  destruct (Z.ltb_spec s rt); [by apply safe_fail|]. unfold MAX_CID_LEN in *. eapply safe_bind; [apply safe_bytes; lia|]. intros cid [Hc Hcl].
  eapply safe_bind; [apply safe_array; lia|]. intros token [Ht Htl]. apply safe_ret. cbn. split; [done|]. split; [lia|]. split; [|split; [unfold MAX_CID_LEN; lia|done]].
  split; [done|]. destruct (small_field n ltac:(lia)). lia.
Qed.

Lemma safe_close app : safe (body_close app) frame_wf.
Proof.
  unfold body_close. eapply safe_bind; [apply safe_varint|]. intros code Hc. eapply (safe_bind _ _ (fun ft => match ft with Some t => field t | None => True end)).
  { destruct app; [by apply safe_ret|]. eapply safe_bind; [apply safe_varint|]. intros t Ht. by apply safe_ret. }
  intros ft Hft. eapply safe_bind; [apply safe_prefixed|]. intros d Hd. by apply safe_ret.
Qed.

Lemma safe_ecn (b : bool) : safe (if b then a ← q read_varint; b ← q read_varint; c ← q read_varint; mret (Some (mk_ecn a b c)) else mret None) (fun e => ecn_wf e /\ (b = true <-> is_Some e)).
Proof.
  destruct b; [|apply safe_ret; split; [done|]; split; [done|by intros [? ?]]]. eapply safe_bind; [apply safe_varint|]. intros a Ha. eapply safe_bind; [apply safe_varint|]. intros b Hb.
  eapply safe_bind; [apply safe_varint|]. intros c Hc. apply safe_ret. split; [done|]. split; [by eexists|done].
Qed.

Lemma front_len_div n c : 0 <= c -> n / 2 < c \/ 2 * c <= n.
Proof. intros Hc. assert (H := Z.div_mod n 2 ltac:(lia)). assert (H' := Z.mod_pos_bound n 2 ltac:(lia)). lia. Qed.

Lemma safe_ack ft : safe (body_ack ft) (fun f => exists a, f = AckFrame a /\ ack_wf a /\ ((ft =? ACK_ECN) = true <-> is_Some (ecn a))).
Proof.
  unfold body_ack. eapply safe_bind; [apply safe_varint|]. intros lg Hlg. eapply safe_bind; [apply safe_varint|]. intros dl Hdl. eapply safe_bind; [apply safe_varint|]. intros cnt Hcnt.
  eapply safe_bind; [apply safe_varint|]. intros fr Hfr. destruct (Z.ltb_spec lg fr); [by apply safe_fail|]. intros r Hr. rewrite rest_of_run by done.
  destruct (len (left_ r) / 2 <? cnt); [done|]. rewrite rest_of_run by done. assert (Hloop := ack_loop_ok (Z.to_nat cnt) (lg - fr) r Hr).
  assert (Hb := fun b => left_bytes r b Hr). destruct (parse_ranges (Z.to_nat cnt) (lg - fr) (left_ r)) as [l'|] eqn:Hp.
  2: { destruct Hloop as (e & r' & He & Hben & Hr'). rewrite (stx_err _ _ _ _ _ He). split; [|done]. by destruct Hben as [->|[w ->]]. }
  destruct Hloop as (p & Hl & Hrun). rewrite (stx_ok _ _ _ _ _ Hrun). destruct (left_app r p l' Hr Hl) as [Hr1 Hl1]. rewrite rest_of_run by done. rewrite Hl1, Hl.
  assert (Hlenr := left_len r Hr). rewrite Hl, len_app in Hlenr. assert (Hrl := rd_len _ Hr). assert (Hrp := rd_pos _ Hr). assert (Hn1 := len_nonneg p). assert (Hn2 := len_nonneg l').
  assert (Hsl : slice 0 (u64 (len (p ++ l') - len l')) (p ++ l') = Some p).
  { rewrite len_app, u64_small by lia. rewrite slice_eq by (rewrite ?len_app; lia). rewrite Z.sub_0_r. change (Z.to_nat 0) with 0%nat. rewrite drop_0.
    f_equal. replace (Z.to_nat _) with (length p) by (unfold len; lia). apply take_app_length. }
  rewrite Hsl. rewrite (stx_ok (xsome (BadFault Panic) (Some p)) _ _ p (advance (len p) r) eq_refl).
  destruct (parse_ranges_front _ _ _ _ Hb Hp) as (p' & Hp' & _ & Hpp). rewrite Hl in Hp'. apply app_inv_tail in Hp'. subst p'.
  assert (Hmv : moved r (advance (len p) r)) by (apply moved_advance; [done|rewrite Hl, len_app; lia]).
  assert (He := safe_bind _ (fun e => mret (AckFrame (mk_ack lg dl fr cnt p e))) _ (fun f => exists a, f = AckFrame a /\ ack_wf a /\ ((ft =? ACK_ECN) = true <-> is_Some (ecn a))) (safe_ecn (ft =? ACK_ECN))).
  specialize (He ltac:(intros e [Hew Hes]; apply safe_ret; eexists; split; [done|]; split; [|done]; split; cbn; try done; [destruct Hfr; lia|
    intros b Hbp; apply Hb; rewrite Hl; apply elem_of_app; by left|specialize (Hpp []); by rewrite app_nil_r in Hpp]) _ Hr1).
  match goal with |- match ?m with _ => _ end => destruct m as [[f|e] r'] end; [|done]. destruct He as [HQ Hm']. split; [done|]. by eapply moved_trans.
Qed.

(** A frame of the type that was read, up to the flags of STREAM. *)
Definition same_type (ft : Z) (f : Frame) : Prop := frame_type f = ft \/ (8 <= ft <= 15 /\ 8 <= frame_type f <= 15).

Lemma safe_typed ft m : safe m frame_wf -> (forall r f r', m r = (Ok f, r') -> same_type ft f) -> safe m (fun f => frame_wf f /\ same_type ft f).
Proof.
  intros Hm Ht r Hr. specialize (Hm r Hr). specialize (Ht r). destruct (m r) as [[f|e] r'] eqn:E; [|done]. destruct Hm. split; [|done]. split; [done|]. by eapply Ht.
Qed.

Lemma stx_inv {S E A B} (m : stx S E A) (k : A -> stx S E B) s b s' : (m ≫= k) s = (Ok b, s') -> exists a s1, m s = (Ok a, s1) /\ k a s1 = (Ok b, s').
Proof. unfold mbind, stx_bind. destruct (m s) as [[a|e] s1]; [|done]. intros H. by exists a, s1. Qed.

(** The constructor at the end of a body says its type. *)
Ltac type_of :=
  intros r f r' H; repeat (apply stx_inv in H as (? & ? & _ & H)); injection H as <- <-; (by left || (left; cbn; by case_match)).

Lemma safe_body ft : 0 <= ft <= 30 -> safe (body ft) (fun f => frame_wf f /\ same_type ft f).
Proof.
  intros Hft. destruct (decide (8 <= ft <= 15)) as [Hs|Hs].
  { rewrite body_stream_type by done. apply safe_typed; [apply safe_stream|]. intros r f r' H. unfold body_stream in H. repeat (apply stx_inv in H as (? & ? & _ & H)).
    injection H as <- <-. right. split; [done|apply stream_type]. }
  assert (Hcase : ft = 0 \/ ft = 1 \/ ft = 2 \/ ft = 3 \/ ft = 4 \/ ft = 5 \/ ft = 6 \/ ft = 7 \/ ft = 16 \/ ft = 17 \/ ft = 18 \/ ft = 19 \/ ft = 20 \/ ft = 21 \/ ft = 22 \/ ft = 23 \/ ft = 24
    \/ ft = 25 \/ ft = 26 \/ ft = 27 \/ ft = 28 \/ ft = 29 \/ ft = 30) by lia.
  assert (Hack : forall e, safe (body_ack e) (fun f => frame_wf f /\ frame_type f = if e =? ACK_ECN then ACK_ECN else ACK)).
  { intros e. eapply safe_mono; [apply safe_ack|]. intros f (a & -> & Ha & He). split; [done|]. cbn. destruct (ecn a), (e =? ACK_ECN); try done; [by destruct He as [_ He]; specialize (He ltac:(by eexists))|].
    destruct He as [He _]. by destruct (He eq_refl). }
  repeat destruct Hcase as [->|Hcase]; try (subst ft).
  - apply safe_typed; [apply safe_padding|]. type_of.
  - apply safe_ret. split; [done|by left].
  - eapply safe_mono; [apply Hack|]. intros f [H1 H2]. split; [done|by left].
  - eapply safe_mono; [apply Hack|]. intros f [H1 H2]. split; [done|by left].
  - apply safe_typed; [|type_of]. eapply safe_bind; [apply safe_varint|]. intros a Ha. eapply safe_bind; [apply safe_varint|]. intros b Hb. eapply safe_bind; [apply safe_varint|]. intros c Hc.
    by apply safe_ret.
  - apply safe_typed; [by apply safe_body2|type_of].
  - apply safe_typed; [by apply safe_crypto|type_of].
  - apply safe_typed; [by apply safe_new_token|]. intros r f r' H. apply stx_inv in H as (d & r1 & _ & H). destruct (len d =? 0); [done|]. injection H as <- <-. by left.
  - apply safe_typed; [by apply safe_body1|type_of].
  - apply safe_typed; [by apply safe_body2|type_of].
  - apply safe_typed; [by apply (safe_streams (MaxStreams true))|type_of].
  - apply safe_typed; [by apply (safe_streams (MaxStreams false))|type_of].
  - apply safe_typed; [by apply safe_body1|type_of].
  - apply safe_typed; [by apply safe_body2|type_of].
  - apply safe_typed; [by apply (safe_streams (StreamsBlocked true))|type_of].
  - apply safe_typed; [by apply (safe_streams (StreamsBlocked false))|type_of].
  - apply safe_typed; [by apply safe_new_connection_id|]. intros r f r' H. do 3 apply stx_inv in H as (? & ? & _ & H). destruct (_ || _); [done|]. destruct (_ <? _); [done|].
    do 2 apply stx_inv in H as (? & ? & _ & H). injection H as <- <-. by left.
  - apply safe_typed; [by apply safe_body1|type_of].
  - apply safe_typed; [|type_of]. eapply safe_bind; [apply safe_array; lia|]. intros d Hd. by apply safe_ret.
  - apply safe_typed; [|type_of]. eapply safe_bind; [apply safe_array; lia|]. intros d Hd. by apply safe_ret.
  - apply safe_typed; [by apply safe_close|]. intros r f r' H. unfold body in H. cbn in H. apply stx_inv in H as (? & ? & _ & H). apply stx_inv in H as (t & ? & Ht & H).
    apply stx_inv in H as (? & ? & _ & H). injection H as <- <-. apply stx_inv in Ht as (? & ? & _ & Ht). injection Ht as <- <-. by left.
  - apply safe_typed; [by apply safe_close|]. intros r f r' H. apply stx_inv in H as (? & ? & _ & H). apply stx_inv in H as (t & ? & Ht & H).
    apply stx_inv in H as (? & ? & _ & H). injection H as <- <-. injection Ht as <- <-. by left.
  - apply safe_ret. split; [done|by left].
Qed.

Lemma allowed_stream ft ty : 8 <= ft <= 15 -> allowed_in ft ty = bool_decide (ty = ZeroRtt) || bool_decide (ty = OneRtt).
Proof.
  intros H. unfold allowed_in. cbn zeta. unfold PADDING, PING, CONNECTION_CLOSE, ACK, ACK_ECN, CRYPTO, NEW_TOKEN, PATH_RESPONSE, HANDSHAKE_DONE.
  rewrite !(proj2 (Z.eqb_neq ft _)) by lia. rewrite (proj2 (Z.leb_le 8 ft)), (proj2 (Z.leb_le ft 15)) by lia. cbn [orb andb]. by rewrite !orb_true_r.
Qed.

(** What [read] gives on any input. *)
Definition read_spec (ty : PacketType) (r : Reader) (x : result read_error Frame) (r' : Reader) : Prop :=
  match x with
  | Ok f => frame_wf f /\ allowed_in (frame_type f) ty = true /\ reader_ok r' /\ exists k, 1 <= k /\ r' = advance k r
  | Err (FrameErr e) => reader_ok r'
  | Err (ReadFault _) => False
  end.

Lemma read_any ty r : reader_ok r -> read_spec ty r (fst (read ty r)) (snd (read ty r)).
Proof.
  intros Hr. unfold read. set (m1 := map_err _ read_varint_minimal).
  assert (Hm : m1 r = match get_varint (left_ r) with Some (v, n) => (Ok (v, bool_decide (varint_len v = Some n)), advance n r) | None => (Err (FrameErr (mk_frame_error TruncatedFrame 0)), r) end).
  { unfold m1, map_err, read_varint_minimal. assert (Hg := read_get_ok r Hr). assert (Hb := fun b => left_bytes r b Hr). destruct (get_varint (left_ r)) as [[v n]|] eqn:E.
    - rewrite (stx_ok _ _ _ _ _ Hg). cbn [fst snd]. destruct (get_varint_front _ v n [] Hb E) as (_ & Hv & _). destruct (venc_ok v Hv) as (need & Hn & _). rewrite Hn.
      rewrite (stx_ok (xsome (Fault Panic) (Some need)) _ _ need _ eq_refl). unfold mret, stx_ret. do 3 f_equal. destruct (Z.eqb_spec need n) as [->|Hne]; [by rewrite bool_decide_eq_true_2|].
      rewrite bool_decide_eq_false_2; [done|congruence].
    - by rewrite (stx_err _ _ _ _ _ Hg). }
  clearbody m1. assert (Hb := fun b => left_bytes r b Hr). destruct (get_varint (left_ r)) as [[ft n]|] eqn:E; [|by rewrite (stx_err _ _ _ _ _ Hm)]. rewrite (stx_ok _ _ _ _ _ Hm).
  destruct (get_varint_front _ ft n [] Hb E) as (Hn & Hft & _). assert (Hmv : moved r (advance n r)) by (apply moved_advance; [done|lia]). assert (Hr1 := proj1 Hmv).
  destruct (negb (bool_decide _)); [done|]. unfold HANDSHAKE_DONE. destruct (Z.ltb_spec 30 ft); [done|]. destruct (allowed_in ft ty) eqn:Hal; cbn [negb]; [|done].
  assert (Hs := safe_body ft ltac:(destruct Hft; lia) _ Hr1). unfold map_err. destruct (body ft (advance n r)) as [[f|e] r'].
  - destruct Hs as [[Hw Ht] [Hr' (k & Hk & ->)]]. cbn. split; [done|]. split; [|split; [done|exists (n + k); split; [lia|unfold advance; cbn; f_equal; lia]]].
    destruct Ht as [->|[H1 H2]]; [done|]. by rewrite allowed_stream in Hal |- * by done.
  - destruct Hs as [Hben Hr']. destruct e; done.
Qed.

Lemma collect_any fuel r ty st :
  reader_ok r -> (length (left_ r) + 1 < fuel)%nat ->
  exists fs e, collect fuel (mk_frames r ty st false) = Some (List.map Ok fs ++ e) /\
    Forall (fun f => frame_wf f /\ allowed_in (frame_type f) ty = true) fs /\
    (e = [] \/ exists x, e = [Err (FrameErr x)]) /\ (st = false -> fs <> [] \/ e <> []).
Proof.
  revert r st. induction fuel as [|fuel IH]; intros r st Hr Hf; [lia|]. cbn [collect]. unfold frames_next. cbn [failed fr_reader started fr_ty].
  destruct (at_end r) eqn:Hend.
  - destruct st; [exists [], []; split; [done|]; split; [done|]; split; [by left|done]|]. destruct fuel as [|fuel]; [lia|]. exists [], [Err (FrameErr (mk_frame_error Empty 0))]. split; [done|]. split; [done|]. split; [right; by eexists|by right].
  - assert (Hra := read_any ty r Hr). destruct (read ty r) as [[f|e] r']; cbn [fst snd] in Hra.
    + destruct Hra as (Hw & Ha & Hr' & k & Hk & ->). destruct (IH _ true Hr') as (fs & e & -> & Hfs & He & _).
      { assert (H1 := left_len _ Hr'). assert (H2 := left_len _ Hr). cbn in H1. unfold len in *. lia. }
      exists (f :: fs), e. split; [done|]. split; [by constructor|]. split; [done|]. intros _. by left.
    + destruct e as [e|]; [|done]. destruct fuel as [|fuel]; [lia|]. exists [], [Err (FrameErr e)]. split; [done|]. split; [done|]. split; [right; by eexists|by right].
Qed.

(** ** The ranges of an ACK *)

(** Ranges from the highest down, with a number between one and the next. *)
Fixpoint ranges_ok (top : Z) (rs : list (Z * Z)) : Prop :=
  match rs with
  | [] => True
  | (low, high) :: rs' => 0 <= low <= high /\ high <= top /\ ranges_ok (low - 2) rs'
  end.

(** The ranges that the bytes say, below [s]. *)
Fixpoint ranges_of (k : nat) (s : Z) (l : list Z) : list (Z * Z) :=
  match k with
  | O => []
  | S k' =>
      match get_varint l with
      | Some (gap, n1) =>
          let l1 := drop (Z.to_nat n1) l in
          match get_varint l1 with
          | Some (w, n2) => (s - gap - 2 - w, s - gap - 2) :: ranges_of k' (s - gap - 2 - w) (drop (Z.to_nat n2) l1)
          | None => []
          end
      | None => []
      end
  end.

Lemma below_some s gap n low : below s gap n = Some low <-> gap + 2 + n <= s /\ low = s - gap - 2 - n /\ gap <= s /\ gap + 2 <= s.
Proof.
  unfold below, checked_sub. destruct (Z.ltb_spec s gap); cbn [mbind option_bind]; [split; [done|lia]|]. destruct (Z.ltb_spec (s - gap) 2); cbn [mbind option_bind]; [split; [done|lia]|].
  destruct (Z.ltb_spec (s - gap - 2) n); [split; [done|lia]|]. split; [intros [= <-]; lia|intros (_ & -> & _); f_equal; lia].
Qed.

Lemma ranges_of_ok k s l l' :
  (forall b, b ∈ l -> byte b) -> 0 <= s -> parse_ranges k s l = Some l' -> ranges_ok (s - 2) (ranges_of k s l) /\ length (ranges_of k s l) = k.
Proof.
  revert s l. induction k as [|k IH]; intros s l Hb Hs Hp; [done|]. rewrite parse_ranges_step in Hp. cbn [ranges_of].
  destruct (get_varint l) as [[v1 n1]|] eqn:G1; [|done]. cbn zeta in *. destruct (get_varint_front _ v1 n1 [] Hb G1) as (_ & [V1 _] & _). assert (Hb1 := drop_bytes (Z.to_nat n1) l Hb).
  destruct (get_varint (drop (Z.to_nat n1) l)) as [[v2 n2]|] eqn:G2; [|done]. destruct (get_varint_front _ v2 n2 [] Hb1 G2) as (_ & [V2 _] & _).
  destruct (below s v1 v2) as [low|] eqn:B; [|done]. apply below_some in B as (H1 & -> & H2 & H3). assert (Hb2 := drop_bytes (Z.to_nat n2) _ Hb1).
  destruct (IH (s - v1 - 2 - v2) _ Hb2 ltac:(lia) Hp) as [H4 H5]. cbn [ranges_ok length]. split; [split; [lia|split; [lia|done]]|by f_equal].
Qed.

(** The iterator gives them. *)
Lemma ranges_list_ok k this r fuel :
  reader_ok r -> 0 <= fst this -> (k + 1 < fuel)%nat -> parse_ranges k (fst this) (left_ r) = Some [] ->
  ranges_list fuel (mk_ack_ranges (Some this) r (Z.of_nat k)) = Some (this :: ranges_of k (fst this) (left_ r)).
Proof.
  revert this r fuel. induction k as [|k IH]; intros this r [|fuel] Hr H0 Hf Hp; try lia; cbn [ranges_list]; unfold ranges_next; cbn [ar_next ar_left ar_rest].
  - rewrite (proj2 (Z.ltb_ge _ _)) by lia. destruct fuel; [lia|]. done.
  - rewrite (proj2 (Z.ltb_lt _ _)) by lia. rewrite parse_ranges_step in Hp. cbn [ranges_of]. unfold following.
    assert (Hb := fun b => left_bytes r b Hr). assert (Hv := q_varint_run r Hr). unfold q, map_err in Hv.
    destruct (get_varint (left_ r)) as [[v1 n1]|] eqn:G1; [|done]. cbn zeta in *. destruct (get_varint_front _ v1 n1 [] Hb G1) as (N1 & [V1 _] & _).
    assert (Hread : read_varint r = (Ok v1, advance n1 r)) by (unfold read_varint; rewrite (stx_ok _ _ _ _ _ (read_get_ok r Hr)) || (unfold read_varint, mbind, stx_bind; rewrite read_get_ok by done; by rewrite G1)).
    rewrite Hread. destruct (rd_advance_ok n1 r Hr ltac:(lia)) as [Hr1 Hl1]. assert (Hb1 := drop_bytes (Z.to_nat n1) _ Hb).
    destruct (get_varint (drop (Z.to_nat n1) (left_ r))) as [[v2 n2]|] eqn:G2; [|done]. destruct (get_varint_front _ v2 n2 [] Hb1 G2) as (N2 & [V2 _] & _).
    assert (Hread2 : read_varint (advance n1 r) = (Ok v2, advance n2 (advance n1 r))) by (unfold read_varint, mbind, stx_bind; rewrite read_get_ok by done; by rewrite Hl1, G2).
    rewrite Hread2. destruct (rd_advance_ok n2 _ Hr1 ltac:(rewrite Hl1; lia)) as [Hr2 Hl2]. rewrite Hl1 in Hl2.
    destruct (below (fst this) v1 v2) as [low|] eqn:B; [|done]. apply below_some in B as (H1 & -> & H2 & H3).
    assert (Hnext : (top ← (v ← checked_sub (fst this) v1; checked_sub v 2); low ← checked_sub top v2; Some (low, top)) = Some (fst this - v1 - 2 - v2, fst this - v1 - 2)).
    { unfold checked_sub. rewrite (proj2 (Z.ltb_ge _ _)) by lia. cbn [mbind option_bind]. rewrite (proj2 (Z.ltb_ge _ _)) by lia. cbn [mbind option_bind].
      rewrite (proj2 (Z.ltb_ge _ _)) by lia. done. }
    rewrite Hnext. replace (Z.of_nat (S k) - 1) with (Z.of_nat k) by lia.
    rewrite (IH (fst this - v1 - 2 - v2, fst this - v1 - 2) _ fuel Hr2) by (cbn [fst]; rewrite ?Hl2; (done || lia)). cbn [fst]. by rewrite Hl2.
Qed.

Lemma acknowledges_list fuel pn s rs top :
  ranges_list fuel s = Some rs -> ranges_ok top rs ->
  exists b, acknowledges_loop fuel pn s = Some b /\ (b = true <-> exists low high, (low, high) ∈ rs /\ low <= pn <= high).
Proof.
  revert s rs top. induction fuel as [|fuel IH]; intros s rs top Hl Hok; [done|]. cbn [ranges_list acknowledges_loop] in *. destruct (ranges_next s) as [[[low high]|] s'].
  2: { injection Hl as <-. exists false. split; [done|]. split; [done|]. intros (l & h & H & _). by apply elem_of_nil in H. }
  destruct (ranges_list fuel s') as [rs'|] eqn:Hl'; [|done]. cbn [mbind option_bind] in Hl. injection Hl as <-. destruct Hok as (H1 & H2 & Hok). cbn [fst snd].
  assert (Hbelow : forall t l, ranges_ok t l -> forall a b, (a, b) ∈ l -> b <= t).
  { clear. intros t l. revert t. induction l as [|[x y] l IH]; intros t Hok a b Hin; [by apply elem_of_nil in Hin|]. destruct Hok as (H1 & H2 & Hok).
    apply elem_of_cons in Hin as [[= -> ->]|Hin]; [done|]. specialize (IH _ Hok _ _ Hin). lia. }
  destruct (Z.ltb_spec high pn).
  - exists false. split; [done|]. split; [done|]. intros (a & b & [[= -> ->]|Hin]%elem_of_cons & Hv); [lia|]. specialize (Hbelow _ _ Hok _ _ Hin). lia.
  - destruct (Z.leb_spec low pn).
    + exists true. split; [done|]. split; [|done]. intros _. exists low, high. split; [left|done].
    + destruct (IH s' rs' _ Hl' Hok) as (b & Hb & Hiff). exists b. split; [done|]. rewrite Hiff. split; intros (x & y & Hin & Hv); exists x, y; (split; [|done]); [by right|].
      apply elem_of_cons in Hin as [[= -> ->]|Hin]; [lia|done].
Qed.

(** The bytes of the ranges below [s]. *)
Fixpoint ranges_bytes (s : Z) (rs : list (Z * Z)) : list Z :=
  match rs with [] => [] | (low, high) :: rs' => venc (s - high - 2) ++ venc (high - low) ++ ranges_bytes low rs' end.

Lemma range_fields s low high : s <= MAX_VARINT -> 0 <= low <= high -> high <= s - 2 -> field (s - high - 2) /\ field (high - low).
Proof. intros H1 H2 H3. split; split; lia. Qed.

Lemma put_ranges_ok out s rs : s <= MAX_VARINT -> ranges_ok (s - 2) rs -> put_ranges out s rs = Some (out ++ ranges_bytes s rs).
Proof.
  revert out s. induction rs as [|[low high] rs IH]; intros out s Hs Hok; cbn [put_ranges ranges_bytes]; [by rewrite app_nil_r|]. destruct Hok as (H1 & H2 & Hok). cbn [fst snd].
  destruct (range_fields s low high Hs H1 H2) as [F1 F2]. assert (Hu : MAX_VARINT <= U64_MAX) by (vm_compute; done).
  rewrite !u64_small by lia. rewrite put_venc by done. cbn [mbind option_bind]. rewrite put_venc by done. cbn [mbind option_bind]. rewrite IH by (done || lia). by rewrite <- !app_assoc.
Qed.

Lemma ranges_bytes_ok s rs : s <= MAX_VARINT -> ranges_ok (s - 2) rs ->
  parse_ranges (length rs) s (ranges_bytes s rs) = Some [] /\ ranges_of (length rs) s (ranges_bytes s rs) = rs /\ (forall b, b ∈ ranges_bytes s rs -> byte b).
Proof.
  revert s. induction rs as [|[low high] rs IH]; intros s Hs Hok; [split; [done|split; [done|intros b H; by apply elem_of_nil in H]]|]. destruct Hok as (H1 & H2 & Hok).
  destruct (range_fields s low high Hs H1 H2) as [F1 F2]. destruct (IH low ltac:(lia) Hok) as (IH1 & IH2 & IH3). cbn [length ranges_bytes].
  destruct (venc_ok _ F1) as (n1 & _ & L1 & N1 & _ & G1 & B1). destruct (venc_ok _ F2) as (n2 & _ & L2 & N2 & _ & G2 & B2).
  assert (D1 : forall t, drop (Z.to_nat n1) (venc (s - high - 2) ++ t) = t) by (intros t; replace (Z.to_nat n1) with (length (venc (s - high - 2))) by (unfold len in L1; lia); apply drop_app_length).
  assert (D2 : forall t, drop (Z.to_nat n2) (venc (high - low) ++ t) = t) by (intros t; replace (Z.to_nat n2) with (length (venc (high - low))) by (unfold len in L2; lia); apply drop_app_length).
  split; [|split].
  - rewrite parse_ranges_step, G1. cbn zeta. rewrite D1, G2. assert (Hb : below s (s - high - 2) (high - low) = Some low) by (apply below_some; lia). by rewrite Hb, D2.
  - cbn [ranges_of]. rewrite G1. cbn zeta. rewrite D1, G2, D2. replace (s - (s - high - 2) - 2 - (high - low)) with low by lia. replace (s - (s - high - 2) - 2) with high by lia.
    by rewrite IH2.
  - intros b [H|[H|H]%elem_of_app]%elem_of_app; auto.
Qed.

(** All the ranges of an ACK. *)
Lemma ack_ranges_all a : ack_wf a -> len (ranges a) <= U64_MAX ->
  let rs := (largest a - first_range a, largest a) :: ranges_of (Z.to_nat (range_count a)) (largest a - first_range a) (ranges a) in
  ranges_list (Z.to_nat (range_count a) + 2) (ack_ranges a) = Some rs /\ ranges_ok (largest a) rs /\ len rs = range_count a + 1.
Proof.
  intros Ha Hlen. assert (H4 := aw_count _ Ha). assert (H3 := aw_first _ Ha). assert (H1 := aw_largest _ Ha). assert (Hu : MAX_VARINT <= U64_MAX) by (vm_compute; done).
  assert (Hr : reader_ok (new_reader (ranges a))) by (split; cbn; [assert (H := len_nonneg (ranges a)); lia|done|apply Ha]).
  assert (Hl : left_ (new_reader (ranges a)) = ranges a) by (unfold left_; cbn; by rewrite drop_0).
  destruct (ranges_of_ok (Z.to_nat (range_count a)) (largest a - first_range a) (ranges a) [] (aw_bytes _ Ha) ltac:(lia) (aw_ranges _ Ha)) as [Hok Hn]. cbn zeta. unfold ack_ranges. destruct H1. rewrite u64_small by lia. split; [|split].
  - assert (Hk := ranges_list_ok (Z.to_nat (range_count a)) (largest a - first_range a, largest a) (new_reader (ranges a)) (Z.to_nat (range_count a) + 2) Hr ltac:(cbn [fst]; lia) ltac:(lia)).
    rewrite Hl in Hk. cbn [fst] in Hk. rewrite Z2Nat.id in Hk by apply H4. apply Hk, Ha.
  - cbn [ranges_ok]. split; [lia|]. split; [lia|done].
  - unfold len. cbn [length]. rewrite Hn. destruct H4. lia.
Qed.

(** ** Parts of STREAM frames *)

Lemma venc_mono a b : 0 <= a <= b -> field b -> 1 <= len (venc a) <= len (venc b).
Proof.
  intros Ha Hb. assert (Ha' : field a) by (destruct Hb; split; lia). destruct (venc_ok a Ha') as (n & Hn & Hl & Hn1 & _). destruct (venc_ok b Hb) as (m & Hm & Hl' & Hm1 & _).
  rewrite Hl, Hl'. unfold varint_len in Hn, Hm. destruct Hb. rewrite (proj2 (Z.ltb_ge _ _)) in Hn by lia. rewrite (proj2 (Z.ltb_ge _ _)) in Hm by lia. injection Hn as <-. injection Hm as <-.
  repeat match goal with |- context [?x <=? ?y] => destruct (Z.leb_spec x y) end; lia.
Qed.

(** The header of a STREAM frame, with its length and without it. *)
Lemma stream_heads out id offset d fin : field id -> field offset -> field (len d) -> exists h,
  2 <= len h /\ stream_header_len id offset None = Some (len h) /\ (forall n, field n -> stream_header_len id offset (Some n) = Some (len h + len (venc n))) /\
  (exists hl, write_stream_header out id offset (Some (len d)) fin = Some (out ++ hl) /\ frame_bytes (StreamFrame id offset d fin) = hl ++ d /\ len hl = len h + len (venc (len d))) /\
  write_stream_header out id offset None fin = Some (out ++ h) /\ forall out', write_stream_to_end out' id offset d fin = Some (out' ++ h ++ d).
Proof.
  intros H1 Ho Hd. set (eo := if offset =? 0 then [] else venc offset). set (ft := Z.lor (Z.lor STREAM (if offset =? 0 then 0 else STREAM_OFF)) (b2z fin)).
  assert (Hput : forall o, (if offset =? 0 then Some o else put_varint o offset) = Some (o ++ eo)) by (intros o; unfold eo; destruct (offset =? 0); [by rewrite app_nil_r|by apply put_venc]).
  assert (B1 : ft mod 256 = ft) by (unfold ft; destruct (offset =? 0), fin; vm_compute; done).
  assert (He : (if offset =? 0 then Some 0 else varint_len offset) = Some (len eo)) by (unfold eo; destruct (offset =? 0); [done|by apply varint_len_venc]).
  exists ([ft] ++ venc id ++ eo). split; [|split; [|split; [|split; [|split]]]].
  - rewrite !len_app. change (len [ft]) with 1. assert (H := venc_mono id id ltac:(destruct H1; lia) H1). assert (H' := len_nonneg eo). lia.
  - unfold stream_header_len. cbn [total_len]. rewrite He, varint_len_venc by done. cbn [mbind option_bind]. rewrite !len_app. f_equal. change (len [_]) with 1. lia.
  - intros n Hn. unfold stream_header_len. cbn [total_len]. rewrite He, !varint_len_venc by done. cbn [mbind option_bind]. rewrite !len_app. f_equal. change (len [_]) with 1. lia.
  - exists ([frame_type (StreamFrame id offset d fin)] ++ venc id ++ eo ++ venc (len d)). split; [|split].
    + unfold write_stream_header. cbn zeta. rewrite put_venc by done. cbn [mbind option_bind]. rewrite Hput. cbn [mbind option_bind]. rewrite put_venc by done. rewrite <- !app_assoc.
      do 3 f_equal. cbn [frame_type app]. destruct (offset =? 0), fin; vm_compute; done.
    + unfold frame_bytes, body_bytes, prefixed. fold eo. by rewrite <- !app_assoc.
    + rewrite !len_app. change (len [_]) with 1. change (len [ft]) with 1. lia.
  - unfold write_stream_header. cbn zeta. rewrite Z.lor_0_r. fold ft. rewrite land_255, B1, put_venc by done. cbn [mbind option_bind]. rewrite Hput. by rewrite <- !app_assoc.
  - intros out'. unfold write_stream_to_end. cbn zeta. fold ft. rewrite land_255, B1, put_venc by done. cbn [mbind option_bind]. rewrite Hput. cbn [mbind option_bind]. by rewrite <- !app_assoc.
Qed.

Lemma stream_parts out id offset d fin : frame_wf (StreamFrame id offset d fin) ->
  (exists h, write_stream_header out id offset (Some (len d)) fin = Some (out ++ h) /\ write (StreamFrame id offset d fin) out = Some (out ++ h ++ d) /\
     stream_header_len id offset (Some (len d)) = Some (len h)) /\
  (exists b, write_stream_to_end out id offset d fin = Some (out ++ b) /\
     write_stream_header out id offset None fin = Some (out ++ take (length b - length d) b) /\
     forall ty, allowed_in 8 ty = true -> takes (fun tail => tail = []) (read ty) b (StreamFrame id offset d fin)).
Proof.
  intros Hf. assert (Hw := fr_write_ok _ out Hf). destruct Hf as (H1 & H2 & H3 & H4). assert (Ho : field offset) by eauto. assert (Hd := len_field d H2).
  set (eo := if offset =? 0 then [] else venc offset). set (ft := Z.lor (Z.lor STREAM (if offset =? 0 then 0 else STREAM_OFF)) (b2z fin)).
  assert (Hput : forall o, (if offset =? 0 then Some o else put_varint o offset) = Some (o ++ eo)) by (intros o; unfold eo; destruct (offset =? 0); [by rewrite app_nil_r|by apply put_venc]).
  assert (Hbits : 8 <= ft <= 15 /\ ft mod 256 = ft /\ Z.land ft STREAM_OFF = (if offset =? 0 then 0 else STREAM_OFF) /\ Z.land ft STREAM_LEN = 0 /\ Z.land ft STREAM_FIN = b2z fin)
    by (unfold ft; destruct (offset =? 0), fin; vm_compute; done).
  destruct Hbits as (B0 & B1 & B2 & B3 & B4). split.
  - destruct (stream_heads out id offset d fin H1 Ho Hd) as (h & _ & _ & Hlen & (hl & E1 & E2 & E3) & _). exists hl. split; [done|]. split; [by rewrite Hw, E2|by rewrite Hlen, E3].
  - exists ([ft] ++ venc id ++ eo ++ d). split; [|split].
    + unfold write_stream_to_end. cbn zeta. fold ft. rewrite land_255, B1, put_venc by done. cbn [mbind option_bind]. rewrite Hput. cbn [mbind option_bind]. by rewrite <- !app_assoc.
    + unfold write_stream_header. cbn zeta. rewrite Z.lor_0_r. fold ft. rewrite land_255, B1, put_venc by done. cbn [mbind option_bind]. rewrite Hput. f_equal.
      rewrite !length_app. replace (_ - length d)%nat with (length ([ft] ++ venc id ++ eo)) by (rewrite !length_app; lia).
      rewrite !app_assoc, take_app_length. by rewrite <- !app_assoc.
    + intros ty Hty. unfold read. eapply takes_bind; [apply takes_map_err, takes_type; lia|]. cbn [negb]. unfold HANDSHAKE_DONE. rewrite (proj2 (Z.ltb_ge _ _)) by lia.
      rewrite allowed_stream in Hty |- * by lia. rewrite Hty. cbn [negb]. apply takes_map_err. rewrite body_stream_type by done. unfold body_stream. rewrite B2, B3, B4.
      eapply takes_bind; [by apply takes_q, takes_varint|]. eapply takes_bind with (a := offset).
      * unfold eo. destruct (Z.eqb_spec offset 0) as [->|Hne]; [apply takes_ret|]. by apply takes_q, takes_varint.
      * intros r tail Hr Hl ->. rewrite app_nil_r in Hl. cbn [negb Z.eqb].
        assert (Hrd : (t ← rest_of; q (read_bytes (len t))) r = (Ok d, advance (len d) r)).
        { rewrite rest_of_run by done. rewrite Hl. apply (takes_q anything (read_bytes (len d)) d d (takes_bytes (len d) d eq_refl) r []); [done|by rewrite app_nil_r|done]. }
        rewrite (stx_ok _ _ _ _ _ Hrd). destruct (left_app r d [] Hr ltac:(by rewrite app_nil_r)) as [Hr1 Hl1].
        rewrite (takes_run (check_end offset (len d)) _ [] tt _ []); [|apply takes_check_end; [done|apply len_nonneg|done]|done|done].
        unfold mret, stx_ret, advance. cbn. change (len (@nil Z)) with 0. rewrite Z.add_0_r. by destruct fin.
Qed.

(** All the frames, written one after another. *)
Definition write_all (fs : list Frame) : option (list Z) := foldl (fun out f => out ← out; write f out) (Some []) fs.

Lemma write_all_ok fs : Forall frame_wf fs -> write_all fs = Some (payload_bytes fs).
Proof.
  unfold write_all, payload_bytes. intros Hf. assert (Hgen : forall out, foldl (fun out f => out ← out; write f out) (Some out) fs = Some (out ++ concat (List.map frame_bytes fs))); [|exact (Hgen [])].
  induction Hf as [|f fs Hf _ IH]; intros out; cbn [foldl List.map concat]; [by rewrite app_nil_r|]. cbn [mbind option_bind]. rewrite fr_write_ok by done. by rewrite IH, <- app_assoc.
Qed.

Lemma frame_octets f b : frame_wf f -> b ∈ frame_bytes f -> byte b.
Proof.
  intros Hf. assert (Hv : forall v, field v -> forall b, b ∈ venc v -> byte b) by (intros v Hv; by destruct (venc_ok v Hv) as (n & _ & _ & _ & _ & _ & H)).
  assert (Hp : forall d, octets d -> forall b, b ∈ prefixed d -> byte b) by (intros d Hd x [H|H]%elem_of_app; [by eapply Hv, H; apply len_field|by apply Hd]).
  assert (Ht := type_byte f). intros [->|H]%elem_of_cons; [unfold byte; lia|].
  destruct f; cbn [frame_wf body_bytes] in *; rewrite ?elem_of_app in H; try (by apply elem_of_nil in H); try (by eapply Hv, H; fields); try (by apply Hp in H; fields).
  - apply elem_of_replicate in H as [-> _]. done.
  - assert (Ha := ack_fields _ Hf). destruct Hf. destruct H as [H|[H|[H|[H|[H|H]]]]]; [by eapply Hv, H|by eapply Hv, H|by eapply Hv, H|by eapply Hv, H|auto|].
    destruct (ecn a) as [e|]; [|by apply elem_of_nil in H]. destruct aw_ecn0 as (E1 & E2 & E3). cbn in H. rewrite !elem_of_app in H. destruct H as [H|[H|H]]; [by eapply Hv, H|by eapply Hv, H|by eapply Hv, H].
  - destruct Hf as (F1 & F2 & F3). destruct H as [H|[H|H]]; [by eapply Hv, H|by eapply Hv, H|by eapply Hv, H].
  - destruct Hf as (F1 & F2). destruct H as [H|H]; [by eapply Hv, H|by eapply Hv, H].
  - destruct Hf as (F1 & F2 & F3). destruct H as [H|H]; [eapply Hv, H; eauto|by eapply Hp, H].
  - destruct Hf as (F1 & F2 & F3 & F4). destruct H as [H|[H|H]]; [by eapply Hv, H| |by eapply Hp, H]. destruct (offset =? 0); [by apply elem_of_nil in H|]. eapply Hv, H; eauto.
  - destruct Hf as (F1 & F2). destruct H as [H|H]; [by eapply Hv, H|by eapply Hv, H].
  - destruct Hf as (F1 & F2). destruct H as [H|H]; [by eapply Hv, H|by eapply Hv, H].
  - destruct Hf as (F1 & F2 & F3 & F4 & F5 & F6). assert (Hr : field retire_prior_to) by (destruct F1; split; lia). unfold MAX_CID_LEN in F4.
    destruct H as [H|[H|[H|[H|H]]]]; [by eapply Hv, H|by eapply Hv, H| |by apply F3|by apply F5]. apply list_elem_of_singleton in H as ->. unfold byte. lia.
  - by apply Hf.
  - by apply Hf.
  - destruct Hf as (F1 & F2 & F3). destruct H as [H|[H|H]]; [by eapply Hv, H| |by eapply Hp, H]. destruct frame_type0; [by eapply Hv, H|by apply elem_of_nil in H].
Qed.

Lemma payload_octets fs b : Forall frame_wf fs -> b ∈ payload_bytes fs -> byte b.
Proof.
  unfold payload_bytes. intros Hf. induction Hf as [|f fs Hf _ IH]; cbn [List.map concat]; [intros H; by apply elem_of_nil in H|]. intros [H|H]%elem_of_app; [by eapply frame_octets|by apply IH].
Qed.

Lemma new_reader_ok payload : (forall b, b ∈ payload -> byte b) -> len payload <= U64_MAX -> reader_ok (new_reader payload) /\ left_ (new_reader payload) = payload.
Proof. intros Hb Hl. assert (H := len_nonneg payload). split; [split; cbn; (done || lia)|]. unfold left_. cbn. by rewrite drop_0. Qed.

(** ** The properties *)

(** C30: frames go both ways.  The frames of a packet, each with values that
    its fields may have and each allowed in the packet, no two runs of
    PADDING touching, are written without a panic, one after another, each
    in as many bytes as its length says, and reading the payload gives just
    those frames and no error.  A STREAM frame written as header and data is
    the frame: with its length, the header and the data are what [write] puts;
    without it, they are what [write_stream_to_end] puts, and reading them to
    the end of the packet gives the frame; and [stream_header_len] is the
    length of either header. *)
Theorem frames_roundtrip fs ty :
  Forall frame_wf fs -> Forall (fun f => allowed_in (frame_type f) ty = true) fs -> padding_apart fs -> fs <> [] -> len (payload_bytes fs) <= U64_MAX ->
  write_all fs = Some (payload_bytes fs) /\
  (forall fuel, (length fs < fuel)%nat -> collect fuel (frames (payload_bytes fs) ty) = Some (List.map Ok fs)) /\
  Forall (fun f => frame_len f = Some (len (frame_bytes f)) /\ forall out, write f out = Some (out ++ frame_bytes f)) fs /\
  forall id offset d fin out, frame_wf (StreamFrame id offset d fin) ->
    (exists h, write_stream_header out id offset (Some (len d)) fin = Some (out ++ h) /\ write (StreamFrame id offset d fin) out = Some (out ++ h ++ d) /\
       stream_header_len id offset (Some (len d)) = Some (len h)) /\
    (exists h, write_stream_header out id offset None fin = Some (out ++ h) /\ stream_header_len id offset None = Some (len h) /\
       write_stream_to_end out id offset d fin = Some (out ++ h ++ d) /\
       forall r ty, allowed_in 8 ty = true -> reader_ok r -> left_ r = h ++ d -> fst (read ty r) = Ok (StreamFrame id offset d fin)).
Proof.
  intros Hw Ha Hp Hne Hl. split; [by apply write_all_ok|]. split; [|split].
  - intros fuel Hf. destruct (new_reader_ok (payload_bytes fs) (fun b => payload_octets fs b Hw) Hl) as [Hr Hleft]. apply collect_ok; (done || by right).
  - apply Forall_forall. intros f Hin. rewrite Forall_forall in Hw. split; [by apply frame_len_ok, Hw|]. intros out. by apply fr_write_ok, Hw.
  - intros id offset d fin out Hf. destruct (stream_parts out id offset d fin Hf) as [H1 (b & H2 & _ & H3)]. split; [done|]. destruct Hf as (F1 & F2 & F3 & F4).
    destruct (stream_heads out id offset d fin F1) as (h & _ & E1 & _ & _ & E2 & E3); [by eauto|by apply len_field|]. rewrite E3 in H2. assert (Hb : b = h ++ d) by (injection H2 as H2; by apply app_inv_head in H2). subst b.
    exists h. split; [done|]. split; [done|]. split; [done|].
    intros r ty' Hty Hr Hleft. by rewrite (H3 ty' Hty r [] Hr ltac:(by rewrite app_nil_r) eq_refl).
Qed.

Lemma frames_roundtrip_witness :
  collect 4 (frames (payload_bytes [Padding 3; MaxStreams true 7; StreamFrame 4 9 [1; 2] true]) OneRtt)
  = Some [Ok (Padding 3); Ok (MaxStreams true 7); Ok (StreamFrame 4 9 [1; 2] true)] /\
  payload_bytes [Padding 3; MaxStreams true 7; StreamFrame 4 9 [1; 2] true] = [0; 0; 0; 18; 7; 15; 4; 9; 2; 1; 2].
Proof.
  split; [|done]. assert (Hoct : octets [1; 2]) by (split; [intros b Hb; repeat (apply elem_of_cons in Hb as [->|Hb]; [unfold byte; lia|]); by apply elem_of_nil in Hb|vm_compute; done]).
  destruct (frames_roundtrip [Padding 3; MaxStreams true 7; StreamFrame 4 9 [1; 2] true] OneRtt) as (_ & H & _); [| |done|done|vm_compute; done|apply H; simpl; lia].
  - repeat constructor; try apply Hoct; vm_compute; done.
  - repeat constructor.
Defined.

(** C31: reading any payload ends, without a panic, in frames and at most one
    error, which is the last; an empty payload is an error.  Every frame that
    is given has values that its fields may have (so it can be written) and
    is allowed in the packet; and a single read consumes at least a byte. *)
Theorem frames_any payload ty :
  (forall b, b ∈ payload -> byte b) -> len payload <= U64_MAX ->
  (exists fs e, collect (length payload + 2) (frames payload ty) = Some (List.map Ok fs ++ e) /\
    Forall (fun f => frame_wf f /\ allowed_in (frame_type f) ty = true) fs /\
    (e = [] \/ exists x, e = [Err (FrameErr x)]) /\ (fs <> [] \/ e <> [])) /\
  match read ty (new_reader payload) with
  | (Ok f, r) => frame_wf f /\ allowed_in (frame_type f) ty = true /\ reader_ok r /\ 1 <= pos r
  | (Err (FrameErr e), r) => reader_ok r /\ (transport_error e = FRAME_ENCODING_ERROR \/ transport_error e = PROTOCOL_VIOLATION)
  | (Err (ReadFault _), _) => False
  end.
Proof.
  intros Hb Hl. destruct (new_reader_ok payload Hb Hl) as [Hr Hleft]. split.
  - destruct (collect_any (length payload + 2) (new_reader payload) ty false Hr) as (fs & e & H1 & H2 & H3 & H4); [rewrite Hleft; lia|].
    exists fs, e. split; [done|]. split; [done|]. split; [done|]. by apply H4.
  - assert (H := read_any ty _ Hr). destruct (read ty (new_reader payload)) as [[f|e] r]; cbn [fst snd read_spec] in H.
    + destruct H as (H1 & H2 & H3 & k & Hk & ->). split; [done|]. split; [done|]. split; [done|]. unfold advance, new_reader. cbn. lia.
    + destruct e as [e|]; [|done]. split; [done|]. destruct (kind e) eqn:E; unfold transport_error; rewrite E; auto.
Qed.

Lemma frames_any_witness :
  read OneRtt (new_reader [31]) = (Err (FrameErr (mk_frame_error UnknownType 31)), mk_reader [31] 1) /\
  exists fs e, collect 4 (frames [1; 31] OneRtt) = Some (List.map Ok fs ++ e) /\ Forall (fun f => frame_wf f /\ allowed_in (frame_type f) OneRtt = true) fs.
Proof.
  split; [done|]. destruct (frames_any [1; 31] OneRtt) as [(fs & e & H1 & H2 & _) _].
  - intros b Hb. repeat (apply elem_of_cons in Hb as [->|Hb]; [unfold byte; lia|]). by apply elem_of_nil in Hb.
  - vm_compute. done.
  - by exists fs, e.
Defined.

(** C32: the ranges of an ACK.  Those of a frame that was read are one more
    than it says, go down from the largest, are apart and above 0, and
    [acknowledges] says whether a number is in one; [write_ack] of any such
    ranges gives a frame that reads back as just those ranges, with the delay
    and the ECN counts. *)
Theorem ack_ranges_roundtrip a rs d e out :
  ack_wf a -> len (ranges a) <= U64_MAX -> rs <> [] -> ranges_ok MAX_VARINT rs -> len rs <= MAX_VARINT -> field d -> ecn_wf e ->
  (exists l, ranges_list (Z.to_nat (range_count a) + 2) (ack_ranges a) = Some l /\ len l = additional_ranges a + 1 /\ ranges_ok (largest a) l /\
     head l = Some (largest a - first_range a, largest a) /\
     forall pn, exists b, acknowledges a pn = Some b /\ (b = true <-> exists low high, (low, high) ∈ l /\ low <= pn <= high)) /\
  (exists a', write_ack out d rs e = Some (out ++ frame_bytes (AckFrame a')) /\ ack_wf a' /\ delay a' = d /\ ecn a' = e /\ range_count a' = len rs - 1 /\
     (len (ranges a') <= U64_MAX -> ranges_list (length rs + 1) (ack_ranges a') = Some rs)).
Proof.
  intros Ha Hla Hne Hok Hlr Hd He. split.
  - destruct (ack_ranges_all a Ha Hla) as (H1 & H2 & H3). eexists. split; [exact H1|]. split; [exact H3|]. split; [exact H2|]. split; [done|]. intros pn.
    exact (acknowledges_list _ pn _ _ _ H1 H2).
  - destruct rs as [|[low high] rs]; [done|]. destruct Hok as (H1 & H2 & Hok). destruct (ranges_bytes_ok low rs ltac:(lia) Hok) as (P1 & P2 & P3).
    assert (Hlen : len ((low, high) :: rs) - 1 = Z.of_nat (length rs)) by (unfold len; cbn [length]; lia). rewrite Hlen in *.
    set (a' := mk_ack high d (high - low) (Z.of_nat (length rs)) (ranges_bytes low rs) e). assert (Hf : field high /\ field (high - low) /\ field (Z.of_nat (length rs))) by (unfold field; lia).
    destruct Hf as (F1 & F2 & F3). assert (Hw : ack_wf a').
    { split; cbn; try done; [lia|]. rewrite Nat2Z.id. by replace (high - (high - low)) with low by lia. }
    exists a'. split; [|split; [done|split; [done|split; [done|split; [done|]]]]].
    + unfold write_ack. cbn zeta. cbn [fst snd]. rewrite Hlen. assert (Hu : MAX_VARINT <= U64_MAX) by (vm_compute; done). rewrite (u64_small (high - low)) by lia.
      repeat put. rewrite put_ranges_ok by (done || lia). cbn [mbind option_bind]. rewrite put_ecn_ok by done. rewrite <- !app_assoc. unfold frame_bytes, body_bytes, a'. cbn [largest delay range_count first_range ranges ecn frame_type].
      by destruct e.
    + intros Hla'. destruct (ack_ranges_all a' Hw Hla') as (Hr & _ & _).
      assert (Hc : (largest a' - first_range a', largest a') :: ranges_of (Z.to_nat (range_count a')) (largest a' - first_range a') (ranges a') = (low, high) :: rs).
      { unfold a'. cbn [largest first_range range_count ranges]. rewrite Nat2Z.id. replace (high - (high - low)) with low by lia. by rewrite P2. }
      rewrite Hc in Hr. rewrite <- Hr. f_equal. cbn [length]. unfold a'. cbn [range_count]. lia.
Qed.

Lemma ack_ranges_roundtrip_witness :
  write_ack [] 3 [(90, 100); (80, 85)] None = Some [2; 64; 100; 3; 1; 10; 3; 5] /\
  acknowledges (mk_ack 100 3 10 1 [3; 5] None) 84 = Some true /\
  exists l, ranges_list 3 (ack_ranges (mk_ack 100 3 10 1 [3; 5] None)) = Some l /\ len l = 2 /\ ranges_ok 100 l.
Proof.
  split; [done|]. split; [done|]. assert (Hf : forall v, 0 <= v <= 64 -> field v) by exact small_field.
  assert (Hw : ack_wf (mk_ack 100 3 10 1 [3; 5] None)).
  { split; cbn; try done; try lia. intros b Hb. repeat (apply elem_of_cons in Hb as [->|Hb]; [unfold byte; lia|]). by apply elem_of_nil in Hb. }
  destruct (ack_ranges_roundtrip (mk_ack 100 3 10 1 [3; 5] None) [(90, 100); (80, 85)] 3 None [] Hw) as [(l & H1 & H2 & H3 & _) _]; [vm_compute; done|done|vm_compute; done|vm_compute; done|vm_compute; done|done|].
  exists l. split; [exact H1|]. split; [exact H2|exact H3].
Defined.
