(* ===== verification/Reads.v ===== *)
(** Reading a format: lemmas on the cursor of [Wire] that the parsers above it
    share.  [recast] is the conversion of a read's error that [?] and
    [map_err] do; [reads_as] says what a read takes and that it fails only
    where there is too little. *)

From Stdlib Require Import ZArith Lia.
From stdpp Require Import base option numbers list_numbers list.
From S2P Require Import Prelude Slice Wire Frames.

#[local] Open Scope Z_scope.

(** A read whose [Truncated] is [t] (a panic stays one). *)
Definition recast {E A} (t : E) (g : fault -> E) (m : reads A) : stx Reader E A :=
  map_err (fun e => match e with Truncated => t | Fault f => g f end) m.

Lemma xsome_ok {S E A B} (e : E) (a : A) (k : A -> stx S E B) s : (xsome e (Some a) ≫= k) s = k a s.
Proof. done. Qed.

(** The bytes of a variable-length integer, in any of its lengths. *)
Definition varint_of (e : list Z) (v : Z) : Prop :=
  exists t, size_of_tag t (len e) /\ 0 <= v < room (len e) /\ e = be_bytes (Z.to_nat (len e)) (v + t * room (len e)).

(** Lists of bytes. *)
Definition bytes (l : list Z) : Prop := forall b, b ∈ l -> byte b.

Lemma bytes_app l1 l2 : bytes (l1 ++ l2) <-> bytes l1 /\ bytes l2.
Proof. unfold bytes. setoid_rewrite elem_of_app. naive_solver. Qed.

Lemma bytes_one b : byte b -> bytes [b].
Proof. intros Hb x ->%list_elem_of_singleton. done. Qed.

Lemma bytes_be n w : bytes (be_bytes n w).
Proof. intros b. apply be_bytes_byte. Qed.

(** [m] reads what [Q] relates its value to, or says that there is too little. *)
Record reads_as {E A} (t : E) (m : stx Reader E A) (Q : list Z -> A -> Prop) : Prop := mk_reads_as {
  ra_takes : forall b a, Q b a -> takes anything m b a;
  ra_or : forall r, reader_ok r ->
    (exists b a l, left_ r = b ++ l /\ Q b a /\ m r = (Ok a, advance (len b) r)) \/ exists r', m r = (Err t, r');
}.

Lemma takes_recast {E A} (t : E) g (m : reads A) b a : takes anything m b a -> takes anything (recast t g m) b a.
Proof. intros Hm r tail Hr Hl HP. unfold recast, map_err. by rewrite (Hm r tail Hr Hl HP). Qed.

Lemma recast_ok {E A} (t : E) g (m : reads A) r a r' : m r = (Ok a, r') -> recast t g m r = (Ok a, r').
Proof. unfold recast, map_err. by intros ->. Qed.

Lemma recast_err {E A} (t : E) g (m : reads A) r r' : m r = (Err Truncated, r') -> recast t g m r = (Err t, r').
Proof. unfold recast, map_err. by intros ->. Qed.

Lemma reads_u8 {E} (t : E) g : reads_as t (recast t g read_u8) (fun b a => b = [a]).
Proof.
  split; [intros b a ->; apply takes_recast, takes_u8|]. intros r Hr. assert (H := read_u8_run r Hr). destruct (left_ r) as [|b l].
  - right. exists r. by apply recast_err.
  - left. exists [b], b, l. split; [done|]. split; [done|]. by apply recast_ok.
Qed.

Lemma reads_bytes {E} (t : E) g n : 0 <= n -> reads_as t (recast t g (read_bytes n)) (fun b a => b = a /\ len a = n).
Proof.
  intros Hn. split; [intros b a [-> Ha]; by apply takes_recast, takes_bytes|]. intros r Hr. assert (H := read_bytes_ok n r Hr Hn). case_decide as Hd.
  - left. eexists _, _, (drop (Z.to_nat n) (left_ r)). split; [symmetry; apply take_drop|].
    assert (Hl : len (take (Z.to_nat n) (left_ r)) = n) by (unfold len in *; rewrite length_take; lia). split; [by split|]. apply recast_ok. by rewrite H, Hl.
  - right. exists r. by apply recast_err.
Qed.

Lemma be_from_be d : (forall b, b ∈ d -> byte b) -> len d = 4 -> d = be_bytes 4 (from_be d) /\ 0 <= from_be d < 2 ^ 32.
Proof.
  intros Hb Hl. unfold from_be. assert (H := be_bytes_fold d 0 ltac:(lia) Hb). assert (Hn : length d = 4%nat) by (unfold len in Hl; lia). rewrite Hn in H. split; [done|].
  assert (Hbd := fold_bytes_bound d 0 ltac:(lia) Hb). rewrite Hl in Hbd. exact Hbd.
Qed.

Lemma from_be_be n w : 0 <= w -> from_be (be_bytes n w) = w mod 256 ^ Z.of_nat n.
Proof. intros Hw. unfold from_be. rewrite fold_be_bytes by done. lia. Qed.

Lemma read_u32_of r d l : reader_ok r -> left_ r = d ++ l -> len d = 4 -> read_u32 r = (Ok (from_be d), advance 4 r).
Proof.
  intros Hr Hl Hd. unfold read_u32. rewrite (stx_ok (read_bytes 4) _ r d (advance 4 r)).
  - rewrite (stx_ok (xsome (Fault Panic) (slice 0 4 d)) _ _ d (advance 4 r)); [done|]. rewrite <- Hd. by rewrite slice_end by lia.
  - rewrite <- Hd. by apply (takes_bytes (len d) d eq_refl r l).
Qed.

Lemma reads_u32 {E} (t : E) g : reads_as t (recast t g read_u32) (fun b a => b = be_bytes 4 a /\ 0 <= a < 2 ^ 32).
Proof.
  split.
  - intros b a [-> Ha] r tail Hr Hl _. apply recast_ok. rewrite (read_u32_of r (be_bytes 4 a) tail Hr Hl) by (unfold len; by rewrite be_bytes_length).
    rewrite from_be_be by lia. unfold len. rewrite be_bytes_length. by rewrite Z.mod_small.
  - intros r Hr. destruct (decide (4 <= len (left_ r))) as [Hd|Hd].
    + set (d := take 4 (left_ r)). assert (Hl : len d = 4) by (unfold d, len in *; rewrite length_take; lia).
      assert (Hsplit : left_ r = d ++ drop 4 (left_ r)) by (symmetry; apply take_drop).
      destruct (be_from_be d) as [He Hr32]; [intros b Hb; apply (left_bytes r b Hr); rewrite Hsplit; apply elem_of_app; by left|done|].
      left. exists d, (from_be d), (drop 4 (left_ r)). do 2 (split; [done|]). apply recast_ok. rewrite Hl. by apply (read_u32_of r d (drop 4 (left_ r))).
    + right. exists r. apply recast_err. unfold read_u32. apply stx_err. rewrite read_bytes_ok by (done || lia). by rewrite decide_False.
Qed.

Lemma varint_of_get e v tail : varint_of e v -> get_varint (e ++ tail) = Some (v, len e).
Proof. intros (t & Ht & Hv & He). rewrite He at 1. by apply get_be. Qed.

Lemma get_varint_of l v n : (forall b, b ∈ l -> byte b) -> get_varint l = Some (v, n) -> 0 <= n <= len l /\ varint_of (take (Z.to_nat n) l) v /\ len (take (Z.to_nat n) l) = n.
Proof.
  intros Hb Hg. assert (H := get_varint_ok l Hb). rewrite Hg in H. destruct H as (t & Ht & Hv & Hn & He).
  assert (Hl : len (take (Z.to_nat n) l) = n) by (unfold len in *; rewrite length_take; destruct Ht as [[_ ->]|[[_ ->]|[[_ ->]|[_ ->]]]]; lia).
  split; [destruct Ht as [[_ ->]|[[_ ->]|[[_ ->]|[_ ->]]]]; lia|]. split; [|done]. exists t. by rewrite Hl.
Qed.

Lemma varint_of_venc v : field v -> varint_of (venc v) v.
Proof.
  intros Hv. destruct (venc_ok v Hv) as (n & _ & Hl & Hn & _ & Hg & Hb). specialize (Hg []). rewrite app_nil_r in Hg.
  destruct (get_varint_of _ v n Hb Hg) as (_ & H & _). rewrite take_ge in H; [done|]. unfold len in Hl. lia.
Qed.

Lemma reads_varint {E} (t : E) g : reads_as t (recast t g read_varint) varint_of.
Proof.
  assert (Hrun : forall r, reader_ok r -> read_varint r = match get_varint (left_ r) with Some (v, n) => (Ok v, advance n r) | None => (Err Truncated, r) end).
  { intros r Hr. unfold read_varint, mbind, stx_bind. rewrite read_get_ok by done. by destruct (get_varint (left_ r)) as [[v n]|]. }
  split.
  - intros b a Hv r tail Hr Hl _. apply recast_ok. rewrite Hrun by done. by rewrite Hl, (varint_of_get b a).
  - intros r Hr. specialize (Hrun r Hr). destruct (get_varint (left_ r)) as [[v n]|] eqn:Hg; [|right; exists r; by apply recast_err].
    destruct (get_varint_of _ v n (fun b => left_bytes r b Hr) Hg) as (_ & Hv & Hl). left. eexists _, v, _. split; [symmetry; apply take_drop|]. split; [exact Hv|].
    apply recast_ok. by rewrite Hl.
Qed.

Lemma reads_prefixed {E} (t : E) g : reads_as t (recast t g read_length_prefixed) (fun b a => exists e, varint_of e (len a) /\ b = e ++ a).
Proof.
  split.
  - intros b a (e & He & ->) r tail Hr Hl _. apply recast_ok. rewrite read_length_prefixed_ok by done. rewrite <- app_assoc in Hl.
    rewrite Hl, (varint_of_get e (len a)) by done. assert (Ht := len_nonneg tail). rewrite !len_app, decide_True by lia.
    unfold len. by rewrite !Nat2Z.id, drop_app_length, take_app_length.
  - intros r Hr. assert (H := read_length_prefixed_ok r Hr). destruct (get_varint (left_ r)) as [[v n]|] eqn:Hg; [|right; exists r; by apply recast_err].
    destruct (get_varint_of _ v n (fun b => left_bytes r b Hr) Hg) as (Hn & Hv & Hl). case_decide as Hd; [|right; exists r; by apply recast_err].
    assert (Hv0 : 0 <= v) by (destruct Hv as (u & _ & Hv & _); lia).
    set (e := take (Z.to_nat n) (left_ r)) in *. set (l := drop (Z.to_nat n) (left_ r)) in *. left. exists (e ++ take (Z.to_nat v) l), (take (Z.to_nat v) l), (drop (Z.to_nat v) l).
    assert (Hlv : len (take (Z.to_nat v) l) = v) by (unfold l, len in *; rewrite length_take, length_drop; lia).
    split; [unfold e, l; by rewrite <- app_assoc, !take_drop|]. split; [exists e; by rewrite Hlv|]. apply recast_ok. rewrite len_app, Hlv, Hl. exact H.
Qed.

(** A read and what follows it: what holds of every way to go on holds. *)
Lemma walk {E A B} (t : E) (m : stx Reader E A) (k : A -> stx Reader E B) Q (V : result E B * Reader -> Prop) r :
  reads_as t m Q -> reader_ok r -> (forall r', V (Err t, r')) ->
  (forall b a, left_ r = b ++ left_ (advance (len b) r) -> Q b a -> reader_ok (advance (len b) r) -> V (k a (advance (len b) r))) ->
  V ((m ≫= k) r).
Proof.
  intros Hm Hr Ht Hk. destruct (ra_or _ _ _ Hm r Hr) as [(b & a & l & Hl & HQ & Hrun)|(r' & Hrun)].
  - rewrite (stx_ok _ _ _ _ _ Hrun). destruct (left_app r b l Hr Hl) as [Hr' Hl']. apply Hk; [by rewrite Hl'|done|done].
  - by rewrite (stx_err _ _ _ _ _ Hrun).
Qed.

(** The reader moves over what [m] reads next. *)
Ltac run_next m b a Q :=
  match goal with Hr : reader_ok ?r, Hl : left_ ?r = b ++ ?tail |- _ =>
    rewrite (takes_run m _ b a r tail); [|apply (ra_takes _ _ _ Q); (done || by split)|exact Hr|exact Hl];
    let Hr' := fresh Hr in let Hl' := fresh Hl in destruct (left_app r b tail Hr Hl) as [Hr' Hl']; rewrite ?advance_app in *; clear Hr Hl
  end.

