(* ===== verification/Packet.v ===== *)
(** QUIC packet headers: [pratique/src/quic/packet.rs].

    What a packet in a datagram is without any key, and the headers of the
    packets that are sent.  [is_packet] is the format of RFC 9000 section 17
    as byte strings, [refused] says why a datagram has no packet at its
    front; [parse] decides them.  A packet that is written, with its Length
    filled in, is parsed back with its ids, token and extent, also with other
    packets after it in the datagram, and its number is recovered. *)

From Stdlib Require Import ZArith Lia String.
From stdpp Require Import base option numbers list_numbers list.
From S2P Require Import Prelude Slice Wire Frames Reads.

#[local] Open Scope Z_scope.

(** ** Types and constants *)

Definition VERSION_1 : Z := 1.
Definition RETRY_TAG_LEN : Z := 16.

Record Packet := mk_packet {
  ty : PacketType;
  version : Z;
  dcid : list Z;
  scid : list Z;
  token : list Z;
  version_list : list Z;
  retry_tag : option (list Z);
  pn_offset : Z;
  pk_len : Z;
}.

(** [PacketFault]: a panic of the code. *)
Inductive ParseError : Type :=
| PacketTruncated | FixedBitClear | ConnectionIdTooLong | UnsupportedVersion (v : Z) | PacketInvalid (what : string) | PacketFault (f : fault).

(** ** Reading *)

Definition is_long (first : Z) : bool := negb (Z.land first 128 =? 0).

(** [From<Truncated>]: what [?] does. *)
Definition pq {A} (m : reads A) : stx Reader ParseError A :=
  recast PacketTruncated PacketFault m.

Definition left_over : stx Reader ParseError (list Z) := r ← xget; xsome (PacketFault Panic) (rest r).

Definition parse_short (datagram : list Z) (short_dcid_len first : Z) : stx Reader ParseError Packet :=
  if Z.land first 64 =? 0 then xfail FixedBitClear
  else
    dcid ← pq (read_bytes short_dcid_len);
    r ← xget;
    if len datagram <=? pos r then xfail PacketTruncated
    else mret (mk_packet OneRtt 0 dcid [] [] [] None (pos r) (len datagram)).

Definition parse_negotiation (datagram : list Z) (version : Z) (dcid scid : list Z) : stx Reader ParseError Packet :=
  versions ← left_over;
  if (len versions =? 0) || negb (len versions mod 4 =? 0)
  then xfail (PacketInvalid "a Version Negotiation packet lists whole versions")
  else mret (mk_packet VersionNegotiation version dcid scid [] versions None 0 (len datagram)).

Definition parse_retry (datagram : list Z) (version : Z) (dcid scid : list Z) : stx Reader ParseError Packet :=
  rest ← left_over;
  if len rest <? RETRY_TAG_LEN then xfail PacketTruncated
  else
    token ← xsome (PacketFault Panic) (slice 0 (u64 (len rest - RETRY_TAG_LEN)) rest);
    tag ← xsome (PacketFault Panic) (slice (u64 (len rest - RETRY_TAG_LEN)) (len rest) rest);
    if negb (len tag =? RETRY_TAG_LEN) then xfail (PacketFault Panic)
    else mret (mk_packet Retry version dcid scid token [] (Some tag) 0 (len datagram)).

Definition long_type (first : Z) : PacketType :=
  let bits := Z.land (Z.shiftr first 4) 3 in
  if bits =? 0 then Initial else if bits =? 1 then ZeroRtt else if bits =? 2 then Handshake else Retry.

(** What is read after the connection ids of a long header. *)
Definition parse_after_ids (datagram : list Z) (first version : Z) (dcid scid : list Z) : stx Reader ParseError Packet :=
  if version =? 0 then parse_negotiation datagram version dcid scid
  else if negb (version =? VERSION_1) then xfail (UnsupportedVersion version)
  else if Z.land first 64 =? 0 then xfail FixedBitClear
  else
    let ty := long_type first in
    if bool_decide (ty = Retry) then parse_retry datagram version dcid scid
    else
      token ← (if bool_decide (ty = Initial) then pq read_length_prefixed else mret []);
      length ← pq read_varint;
      rest ← left_over;
      if len rest <? length then xfail PacketTruncated
      else if length =? 0 then xfail (PacketInvalid "a packet with no packet number")
      else
        r ← xget;
        mret (mk_packet ty version dcid scid token [] None (pos r) (u64 (pos r + length))).

Definition parse_long (datagram : list Z) (first : Z) : stx Reader ParseError Packet :=
  version ← pq read_u32;
  dcid_len ← pq read_u8;
  if (version =? VERSION_1) && (MAX_CID_LEN <? dcid_len) then xfail ConnectionIdTooLong
  else
    dcid ← pq (read_bytes dcid_len);
    scid_len ← pq read_u8;
    if (version =? VERSION_1) && (MAX_CID_LEN <? scid_len) then xfail ConnectionIdTooLong
    else
      scid ← pq (read_bytes scid_len);
      parse_after_ids datagram first version dcid scid.

Definition parse_reads (datagram : list Z) (short_dcid_len : Z) : stx Reader ParseError Packet :=
  first ← pq read_u8;
  if negb (is_long first) then parse_short datagram short_dcid_len first else parse_long datagram first.

Definition parse (datagram : list Z) (short_dcid_len : Z) : result ParseError Packet :=
  fst (parse_reads datagram short_dcid_len (new_reader datagram)).

(** [chunks_exact(4)], each read as a word. *)
Fixpoint versions (l : list Z) : list Z :=
  match l with
  | a :: b :: c :: d :: l' => from_be [a; b; c; d] :: versions l'
  | _ => []
  end.

(** ** Writing; [None] is a panic *)

Record LongHeader := mk_long_header { length_at : Z; h_pn_offset : Z }.

(** [&pn.to_be_bytes()[8 - pn_len..]]. *)
Definition pn_bytes (pn pn_len : Z) : list Z := drop (Z.to_nat (8 - pn_len)) (be_bytes 8 pn).

Definition type_bits (ty : PacketType) : option Z :=
  match ty with Initial => Some 0 | ZeroRtt => Some 1 | Handshake => Some 2 | _ => None end.

(** [x as u8]. *)
Definition u8 (x : Z) : Z := Z.land x 255.

Definition write_long_header (out : list Z) (ty : PacketType) (dcid scid token : list Z) (pn pn_len : Z) : option (list Z * LongHeader) :=
  if negb ((1 <=? pn_len) && (pn_len <=? 4)) then None
  else if negb ((len dcid <=? MAX_CID_LEN) && (len scid <=? MAX_CID_LEN)) then None
  else
    bits ← type_bits ty;
    if negb (bool_decide (ty = Initial) || (len token =? 0)) then None
    else
      let out := out ++ [Z.lor (Z.lor 192 (u8 (Z.shiftl bits 4))) (u8 pn_len - 1)] in
      let out := out ++ be_bytes 4 VERSION_1 in
      let out := out ++ [u8 (len dcid)] ++ dcid in
      let out := out ++ [u8 (len scid)] ++ scid in
      out ← (if bool_decide (ty = Initial) then out ← put_varint out (len token); Some (out ++ token) else Some out);
      let length_at := len out in
      out ← put_varint_len out 0 2;
      let pn_offset := len out in
      Some (out ++ pn_bytes pn pn_len, mk_long_header length_at pn_offset).

Definition finish_long (out : list Z) (header : LongHeader) (tag_len : Z) : option (list Z) :=
  let length := u64 (u64 (len out - h_pn_offset header) + tag_len) in
  patch_length out (Z.to_nat (length_at header)) length.

Definition write_short_header (out dcid : list Z) (spin key_phase : bool) (pn pn_len : Z) : option (list Z * Z) :=
  if negb ((1 <=? pn_len) && (pn_len <=? 4)) then None
  else
    let out := out ++ [Z.lor (Z.lor (Z.lor 64 (Z.shiftl (b2z spin) 5)) (Z.shiftl (b2z key_phase) 2)) (u8 pn_len - 1)] in
    let out := out ++ dcid in
    Some (out ++ pn_bytes pn pn_len, len out).

Definition length_field (after_token : list Z) : option (Z * Z) := get_varint after_token.

(** ** The format *)

(** The bits of the first byte: 7 says that the header is long, 6 is fixed,
    5 and 4 are the type of a long header. *)
Definition form (first : Z) : bool := Z.testbit first 7.
Definition fixed (first : Z) : bool := Z.testbit first 6.
Definition type_of (first : Z) : Z := first / 16 mod 4.

(** A long header up to its connection ids. *)
Definition ids (first version : Z) (dcid scid : list Z) : list Z :=
  [first] ++ be_bytes 4 version ++ [len dcid] ++ dcid ++ [len scid] ++ scid.

(** The token of an Initial packet, and nothing in the others. *)
Definition token_bytes (ty : PacketType) (tb token : list Z) : Prop :=
  if bool_decide (ty = Initial) then exists e, varint_of e (len token) /\ tb = e ++ token else tb = [] /\ token = [].

Inductive is_packet (n : Z) : list Z -> Packet -> Prop :=
| is_short first dcid l :
    form first = false -> fixed first = true -> len dcid = n -> l <> [] ->
    is_packet n ([first] ++ dcid ++ l) (mk_packet OneRtt 0 dcid [] [] [] None (1 + n) (len ([first] ++ dcid ++ l)))
| is_negotiation first dcid scid vs :
    form first = true -> vs <> [] -> (forall v, v ∈ vs -> 0 <= v < 2 ^ 32) ->
    let d := ids first 0 dcid scid ++ concat (be_bytes 4 <$> vs) in
    is_packet n d (mk_packet VersionNegotiation 0 dcid scid [] (concat (be_bytes 4 <$> vs)) None 0 (len d))
| is_retry first dcid scid token tag :
    form first = true -> fixed first = true -> type_of first = 3 -> len dcid <= MAX_CID_LEN -> len scid <= MAX_CID_LEN -> len tag = 16 ->
    let d := ids first 1 dcid scid ++ token ++ tag in
    is_packet n d (mk_packet Retry 1 dcid scid token [] (Some tag) 0 (len d))
| is_numbered first ty dcid scid tb token le payload more :
    form first = true -> fixed first = true -> type_bits ty = Some (type_of first) -> len dcid <= MAX_CID_LEN -> len scid <= MAX_CID_LEN ->
    token_bytes ty tb token -> varint_of le (len payload) -> payload <> [] ->
    let head := ids first 1 dcid scid ++ tb ++ le in
    is_packet n (head ++ payload ++ more) (mk_packet ty 1 dcid scid token [] None (len head) (len head + len payload)).

(** Why there is none, when the datagram does not just end too soon. *)
Inductive refused : list Z -> ParseError -> Prop :=
| refused_short first l : form first = false -> fixed first = false -> refused ([first] ++ l) FixedBitClear
| refused_dcid first n l : form first = true -> MAX_CID_LEN < n -> refused ([first] ++ be_bytes 4 1 ++ [n] ++ l) ConnectionIdTooLong
| refused_scid first dcid n l : form first = true -> len dcid <= MAX_CID_LEN -> MAX_CID_LEN < n ->
    refused ([first] ++ be_bytes 4 1 ++ [len dcid] ++ dcid ++ [n] ++ l) ConnectionIdTooLong
| refused_negotiation first dcid scid l : form first = true -> (l = [] \/ len l mod 4 <> 0) ->
    refused (ids first 0 dcid scid ++ l) (PacketInvalid "a Version Negotiation packet lists whole versions")
| refused_version first v dcid scid l : form first = true -> v <> 0 -> v <> 1 -> 0 <= v < 2 ^ 32 ->
    refused (ids first v dcid scid ++ l) (UnsupportedVersion v)
| refused_long first dcid scid l : form first = true -> len dcid <= MAX_CID_LEN -> len scid <= MAX_CID_LEN -> fixed first = false ->
    refused (ids first 1 dcid scid ++ l) FixedBitClear
| refused_number first ty dcid scid tb token le l :
    form first = true -> fixed first = true -> type_bits ty = Some (type_of first) -> len dcid <= MAX_CID_LEN -> len scid <= MAX_CID_LEN ->
    token_bytes ty tb token -> varint_of le 0 ->
    refused (ids first 1 dcid scid ++ tb ++ le ++ l) (PacketInvalid "a packet with no packet number").

(** ** Lemmas on bits *)

(** What holds of every byte by evaluation. *)
Lemma byte_ind (P : Z -> bool) : forallb P (seqZ 0 256) = true -> forall b, byte b -> P b = true.
Proof. intros H b Hb. rewrite forallb_forall in H. apply H, list_elem_of_In, elem_of_seqZ. unfold byte in Hb. lia. Qed.

Definition first_bits (b : Z) : bool :=
  bool_decide (is_long b = form b) && bool_decide ((Z.land b 64 =? 0) = negb (fixed b)) &&
  match type_bits (long_type b) with Some t => bool_decide (type_of b = t) | None => bool_decide (type_of b = 3 /\ long_type b = Retry) end.

Lemma first_bits_ok b : byte b ->
  is_long b = form b /\ (Z.land b 64 =? 0) = negb (fixed b) /\
  (type_bits (long_type b) = Some (type_of b) \/ (type_bits (long_type b) = None /\ type_of b = 3 /\ long_type b = Retry)).
Proof.
  intros Hb. assert (H := byte_ind first_bits eq_refl b Hb). unfold first_bits in H. apply andb_true_iff in H as [[H1 H2]%andb_true_iff H3].
  apply bool_decide_eq_true in H1, H2. do 2 (split; [done|]). destruct (type_bits (long_type b)) as [t|]; apply bool_decide_eq_true in H3; [left; by f_equal|by right].
Qed.

Lemma long_type_of b ty : byte b -> type_bits ty = Some (type_of b) -> long_type b = ty.
Proof.
  intros Hb Hty. destruct (first_bits_ok b Hb) as (_ & _ & [H|(H & H3 & _)]).
  - rewrite <- H in Hty. destruct ty, (long_type b); simpl in *; congruence.
  - rewrite H3 in Hty. by destruct ty.
Qed.

Lemma long_type_retry b : byte b -> type_of b = 3 -> long_type b = Retry.
Proof.
  intros Hb H3. destruct (first_bits_ok b Hb) as (_ & _ & [H|(_ & _ & H)]); [|done]. rewrite H3 in H. by destruct (long_type b).
Qed.

Lemma left_over_run {A} (k : list Z -> stx Reader ParseError A) r : reader_ok r -> (left_over ≫= k) r = k (left_ r) r.
Proof. intros Hr. unfold left_over, mbind, stx_bind, xget. rewrite rest_ok by done. done. Qed.

(** ** Reading gives what the format says *)

Definition verdict (n : Z) (d : list Z) (x : result ParseError Packet * Reader) : Prop :=
  match fst x with Ok p => is_packet n d p | Err PacketTruncated => True | Err e => refused d e end.

Lemma verdict_walk {A} n d (m : stx Reader ParseError A) k Q r :
  reads_as PacketTruncated m Q -> reader_ok r ->
  (forall b a, left_ r = b ++ left_ (advance (len b) r) -> Q b a -> reader_ok (advance (len b) r) -> verdict n d (k a (advance (len b) r))) ->
  verdict n d ((m ≫= k) r).
Proof. intros Hm Hr Hk. by apply (walk PacketTruncated m k Q (verdict n d)). Qed.

Lemma versions_ok vs : (forall v, v ∈ vs -> 0 <= v < 2 ^ 32) -> versions (concat (be_bytes 4 <$> vs)) = vs.
Proof.
  induction vs as [|v vs IH]; intros Hv; [done|]. rewrite fmap_cons. cbn [concat]. assert (Hb := be_bytes_length 4 v).
  assert (Hf := from_be_be 4 v (proj1 (Hv v ltac:(left)))). destruct (be_bytes 4 v) as [|a [|b [|c [|e [|]]]]]; try done.
  cbn [app versions]. rewrite Hf, IH by (intros w Hw; apply Hv; by right). rewrite Z.mod_small; [done|]. apply (Hv v). left.
Qed.

Lemma versions_bytes l : (forall b, b ∈ l -> byte b) -> len l mod 4 = 0 ->
  l = concat (be_bytes 4 <$> versions l) /\ (forall v, v ∈ versions l -> 0 <= v < 2 ^ 32).
Proof.
  remember (length l) as k eqn:Hk. revert l Hk. induction k as [k IH] using lt_wf_ind. intros l -> Hb Hm.
  destruct l as [|a [|b [|c [|e l]]]]; try (unfold len in Hm; discriminate); [split; [done|intros v Hv; by apply elem_of_nil in Hv]|].
  assert (Hl4 : len (a :: b :: c :: e :: l) = len l + 1 * 4) by (unfold len; cbn [length]; lia). rewrite Hl4, Z.mod_add in Hm by lia.
  destruct (IH (length l) ltac:(cbn [length]; lia) l eq_refl) as [H1 H2]; [intros x Hx; apply Hb; by do 4 right|done|].
  destruct (be_from_be [a; b; c; e]) as [He Hr]; [intros x Hx; apply Hb, (elem_of_app [a; b; c; e] l x); by left|done|].
  cbn [versions]. rewrite fmap_cons. cbn [concat]. split; [rewrite <- He, <- H1; done|]. intros v [->|Hv]%elem_of_cons; [done|by apply H2].
Qed.

Lemma concat_versions_len vs : len (concat (be_bytes 4 <$> vs)) = 4 * len vs.
Proof.
  induction vs as [|v vs IH]; [done|]. rewrite fmap_cons. cbn [concat]. rewrite len_app, IH. unfold len. rewrite be_bytes_length. cbn [length]. lia.
Qed.

Lemma negotiation_walk n d first dcid scid r :
  reader_ok r -> d = ids first 0 dcid scid ++ left_ r -> form first = true -> verdict n d (parse_negotiation d 0 dcid scid r).
Proof.
  intros Hr Hd Hf. unfold parse_negotiation. rewrite left_over_run by done. assert (Hb := fun b => left_bytes r b Hr).
  destruct (Z.eqb_spec (len (left_ r)) 0) as [H0|H0]; [rewrite Hd; apply refused_negotiation; [done|left; by apply len_nil]|].
  destruct (Z.eqb_spec (len (left_ r) mod 4) 0) as [H4|H4]; [|rewrite Hd; apply refused_negotiation; [done|by right]].
  destruct (versions_bytes (left_ r) Hb H4) as [H1 H2]. cbn. rewrite H1 in Hd. rewrite H1, Hd. apply is_negotiation; [done| |done].
  intros Hv. rewrite Hv in H1. by rewrite H1 in H0.
Qed.

Lemma retry_walk n d first dcid scid r :
  reader_ok r -> len d <= U64_MAX -> d = ids first 1 dcid scid ++ left_ r -> form first = true -> fixed first = true -> type_of first = 3 ->
  len dcid <= MAX_CID_LEN -> len scid <= MAX_CID_LEN -> verdict n d (parse_retry d 1 dcid scid r).
Proof.
  intros Hr Hu Hd Hf Hx Ht Hdc Hsc. unfold parse_retry. rewrite left_over_run by done. set (l := left_ r) in *.
  assert (Hll : len l <= U64_MAX) by (rewrite Hd, len_app in Hu; assert (H := len_nonneg (ids first 1 dcid scid)); lia).
  destruct (Z.ltb_spec (len l) RETRY_TAG_LEN) as [Hlt|Hge]; [done|]. unfold RETRY_TAG_LEN in *. rewrite u64_small by lia.
  assert (Hs : slice 0 (len l - 16) l = Some (take (Z.to_nat (len l - 16)) l)) by (rewrite slice_eq by lia; by rewrite Z.sub_0_r).
  rewrite Hs, slice_end by lia. rewrite !xsome_ok, len_drop by lia.
  replace (len l - (len l - 16)) with 16 by lia. cbn. rewrite <- (take_drop (Z.to_nat (len l - 16)) l) in Hd. rewrite Hd. apply is_retry; try done.
  rewrite len_drop by lia. lia.
Qed.

Lemma ids_len first v dcid scid : len (ids first v dcid scid) = 7 + len dcid + len scid.
Proof. unfold ids. rewrite !len_app. assert (H : len (be_bytes 4 v) = 4) by done. rewrite H. change (len [first]) with 1. change (len [len dcid]) with 1. change (len [len scid]) with 1. lia. Qed.

(** The token and the length of a long header. *)
Lemma numbered_walk n d first ty dcid scid r :
  reader_ok r -> len d <= U64_MAX -> d = ids first 1 dcid scid ++ left_ r -> pos r = len (ids first 1 dcid scid) ->
  form first = true -> fixed first = true -> type_bits ty = Some (type_of first) -> len dcid <= MAX_CID_LEN -> len scid <= MAX_CID_LEN ->
  verdict n d ((token ← (if bool_decide (ty = Initial) then pq read_length_prefixed else mret []);
      length ← pq read_varint;
      rest ← left_over;
      if len rest <? length then xfail PacketTruncated
      else if length =? 0 then xfail (PacketInvalid "a packet with no packet number")
      else r ← xget; mret (mk_packet ty 1 dcid scid token [] None (pos r) (u64 (pos r + length)))) r).
Proof.
  intros Hr Hu Hd Hp Hf Hx Ht Hdc Hsc. apply verdict_walk with (Q := fun tb token => token_bytes ty tb token); [|done|].
  { unfold token_bytes. destruct (bool_decide (ty = Initial)); [apply reads_prefixed|]. split; [intros b a [-> ->]; apply takes_ret|].
    intros r1 Hr1. left. exists [], [], (left_ r1). do 2 (split; [done|]). unfold mret, stx_ret, advance. change (len (@nil Z)) with 0. rewrite Z.add_0_r. by destruct r1. }
  intros tb token Hl Htb Hr1. apply (verdict_walk _ _ _ _ _ _ (reads_varint PacketTruncated PacketFault) Hr1). intros le v Hl1 Hv Hr2. rewrite advance_app in *. rewrite left_over_run by done.
  rewrite Hl1, app_assoc in Hl. rewrite Hl in Hd. assert (Hv0 : 0 <= v) by (destruct Hv as (t & _ & Hv & _); lia).
  set (l := left_ (advance (len (tb ++ le)) r)) in *. destruct (Z.ltb_spec (len l) v) as [Hlt|Hge]; [done|].
  destruct (Z.eqb_spec v 0) as [->|Hv1]; [cbn; rewrite Hd, <- app_assoc; by eapply refused_number|].
  rewrite (stx_ok xget _ _ (advance (len (tb ++ le)) r) _ eq_refl). cbn.
  set (payload := take (Z.to_nat v) l). assert (Hpl : len payload = v) by (unfold payload, len in *; rewrite length_take; lia).
  assert (Hd2 : d = (ids first 1 dcid scid ++ tb ++ le) ++ payload ++ drop (Z.to_nat v) l) by (unfold payload; by rewrite take_drop, Hd, !app_assoc).
  assert (Hpos : pos r + len (tb ++ le) = len (ids first 1 dcid scid ++ tb ++ le)) by (rewrite Hp, (len_app (ids _ _ _ _)); lia). rewrite Hpos.
  rewrite u64_small; [|rewrite Hd2, !len_app in Hu; rewrite !len_app; pose proof (len_nonneg tb); pose proof (len_nonneg le); pose proof (len_nonneg (drop (Z.to_nat v) l)); pose proof (len_nonneg (ids first 1 dcid scid)); lia].
  rewrite Hd2, <- Hpl. apply is_numbered; try done; [by rewrite Hpl|]. intros ->. unfold len in Hpl. simpl in Hpl. lia.
Qed.

Lemma after_ids_walk n d first v dcid scid r :
  reader_ok r -> len d <= U64_MAX -> byte first -> 0 <= v < 2 ^ 32 -> d = ids first v dcid scid ++ left_ r -> pos r = len (ids first v dcid scid) ->
  form first = true -> (v = 1 -> len dcid <= MAX_CID_LEN /\ len scid <= MAX_CID_LEN) -> verdict n d (parse_after_ids d first v dcid scid r).
Proof.
  intros Hr Hu Hb Hv Hd Hp Hf H20. unfold parse_after_ids, VERSION_1. destruct (Z.eqb_spec v 0) as [->|H0]; [by eapply negotiation_walk|].
  destruct (Z.eqb_spec v 1) as [->|H1]; [|cbn; rewrite Hd; by apply refused_version]. destruct (H20 eq_refl) as [Hdc Hsc]. cbn [negb].
  destruct (first_bits_ok first Hb) as (_ & Hx & Ht). rewrite Hx. destruct (fixed first) eqn:Hfix; [|cbn; rewrite Hd; by apply refused_long]. cbn [negb].
  destruct Ht as [Ht|(_ & Ht3 & ->)]; [|by eapply retry_walk]. rewrite (bool_decide_eq_false_2 (long_type first = Retry)) by (intros E; by rewrite E in Ht).
  by eapply numbered_walk.
Qed.

Record datagram_ok (d : list Z) : Prop := mk_datagram_ok { dg_bytes : forall b, b ∈ d -> byte b; dg_len : len d <= U64_MAX }.

Lemma datagram_reader_ok d : datagram_ok d -> reader_ok (new_reader d) /\ left_ (new_reader d) = d.
Proof. intros [Hb Hl]. split; [|done]. split; [cbn; split; [lia|apply len_nonneg]|done|done]. Qed.

Lemma short_walk n d first r :
  reader_ok r -> 0 <= n -> d = [first] ++ left_ r -> pos r = 1 -> form first = false -> byte first -> verdict n d (parse_short d n first r).
Proof.
  intros Hr Hn Hd Hp Hf Hb. unfold parse_short. destruct (first_bits_ok first Hb) as (_ & Hx & _). rewrite Hx. destruct (fixed first) eqn:Hfix; [cbn [negb]|cbn; rewrite Hd; by apply refused_short].
  apply (verdict_walk _ _ _ _ _ _ (reads_bytes PacketTruncated PacketFault n Hn) Hr). intros b dcid Hl [-> Hdc] Hr1. rewrite (stx_ok xget _ _ (advance (len dcid) r) _ eq_refl). cbn [pos advance].
  rewrite Hp, Hdc in *. destruct (Z.leb_spec (len d) (1 + n)) as [Hle|Hgt]; [done|]. cbn. rewrite Hl in Hd. set (l := left_ (advance n r)) in *. rewrite Hd. apply is_short; try done.
  intros E. rewrite Hd, E, !len_app in Hgt. change (len [first]) with 1 in Hgt. change (len (@nil Z)) with 0 in Hgt. lia.
Qed.

Lemma cid_limit v l : (v =? VERSION_1) && (MAX_CID_LEN <? l) = bool_decide (v = 1 /\ MAX_CID_LEN < l).
Proof. unfold VERSION_1. symmetry. destruct (Z.eqb_spec v 1), (Z.ltb_spec MAX_CID_LEN l); [apply bool_decide_eq_true_2; lia|apply bool_decide_eq_false_2; lia..]. Qed.

Lemma parse_walk n d : datagram_ok d -> 0 <= n -> verdict n d (parse_reads d n (new_reader d)).
Proof.
  intros Hd Hn. destruct (datagram_reader_ok d Hd) as [Hr Hl]. destruct Hd as [Hbytes Hu]. unfold parse_reads.
  apply (verdict_walk _ _ _ _ _ _ (reads_u8 PacketTruncated PacketFault) Hr). intros b first Hl1 -> Hr1. rewrite Hl in Hl1. assert (Hbf : byte first) by (apply Hbytes; rewrite Hl1; left).
  destruct (first_bits_ok first Hbf) as (Hlong & _ & _). rewrite Hlong. destruct (form first) eqn:Hf; cbn [negb]; [|by apply short_walk].
  apply (verdict_walk _ _ _ _ _ _ (reads_u32 PacketTruncated PacketFault) Hr1). intros b v Hl2 [-> Hv] Hr2. apply (verdict_walk _ _ _ _ _ _ (reads_u8 PacketTruncated PacketFault) Hr2). intros b dl Hl3 -> Hr3.
  rewrite Hl3 in Hl2. rewrite Hl2 in Hl1. assert (Hdl : byte dl) by (apply Hbytes; rewrite Hl1; right; apply elem_of_app; right; left). unfold byte in Hdl.
  rewrite !advance_app in *. rewrite cid_limit. case_bool_decide as H1; [destruct H1 as [-> H1]; cbn; rewrite Hl1; by apply refused_dcid|].
  apply (verdict_walk _ _ _ _ _ _ (reads_bytes PacketTruncated PacketFault dl (proj1 Hdl)) Hr3). intros b dc Hl4 [-> Hdc] Hr4. rewrite advance_app in *. apply (verdict_walk _ _ _ _ _ _ (reads_u8 PacketTruncated PacketFault) Hr4). intros b sl Hl5 -> Hr5.
  rewrite Hl5 in Hl4. rewrite Hl4 in Hl1. assert (Hsl : byte sl) by (apply Hbytes; rewrite Hl1; right; rewrite !elem_of_app; right; right; right; left; left). unfold byte in Hsl.
  rewrite !advance_app in *. rewrite cid_limit. rewrite <- Hdc in *. case_bool_decide as H2; [destruct H2 as [-> H2]; cbn; rewrite Hl1; apply refused_scid; [done|lia|done]|].
  apply (verdict_walk _ _ _ _ _ _ (reads_bytes PacketTruncated PacketFault sl (proj1 Hsl)) Hr5). intros b sc Hl6 [-> Hsc] Hr6. rewrite advance_app in *. rewrite Hl6, <- Hsc in Hl1.
  apply after_ids_walk; [done|done|done|done| | |done|intros ->; rewrite Hsc; lia].
  - subst sl. set (tail := left_ (advance _ _)) in Hl1 |- *. clearbody tail. rewrite Hl1. unfold ids. by rewrite <- !app_assoc.
  - cbn [pos advance new_reader]. rewrite ids_len, !len_app. change (len [first]) with 1. change (len [len dc]) with 1. change (len [sl]) with 1.
    assert (H4 : len (be_bytes 4 v) = 4) by done. lia.
Qed.

(** ** And the other way *)

Lemma parse_first d n first l : datagram_ok d -> d = [first] ++ l -> byte first ->
  exists r, reader_ok r /\ r = advance (len [first]) (new_reader d) /\ left_ r = l /\
  parse_reads d n (new_reader d) = (if negb (form first) then parse_short d n first r else parse_long d first r).
Proof.
  intros Hd -> Hb. destruct (datagram_reader_ok _ Hd) as [Hr Hl]. destruct (left_app _ [first] l Hr Hl) as [Hr1 Hl1]. eexists. split; [exact Hr1|]. do 2 (split; [done|]).
  unfold parse_reads. rewrite (takes_run (pq read_u8) _ [first] first _ l); [|by apply (ra_takes _ _ _ (reads_u8 PacketTruncated PacketFault))|done|done].
  destruct (first_bits_ok first Hb) as (-> & _ & _). by destruct (form first).
Qed.

(** A header is read up to its ids. *)
Lemma parse_ids d n first v dcid scid l :
  datagram_ok d -> d = ids first v dcid scid ++ l -> form first = true -> 0 <= v < 2 ^ 32 -> (v = 1 -> len dcid <= MAX_CID_LEN /\ len scid <= MAX_CID_LEN) ->
  exists r, reader_ok r /\ left_ r = l /\ pos r = len (ids first v dcid scid) /\ parse_reads d n (new_reader d) = parse_after_ids d first v dcid scid r.
Proof.
  intros Hd He Hf Hv H20. assert (Hb : byte first) by (apply (dg_bytes _ Hd); rewrite He; left).
  destruct (parse_first d n first (be_bytes 4 v ++ [len dcid] ++ dcid ++ [len scid] ++ scid ++ l) Hd) as (r & Hr & Hr1 & Hl & ->); [rewrite He; unfold ids; by rewrite <- !app_assoc|done|].
  rewrite Hf. cbn [negb]. unfold parse_long. run_next (pq read_u32) (be_bytes 4 v) v (reads_u32 PacketTruncated PacketFault). run_next (pq read_u8) [len dcid] (len dcid) (reads_u8 PacketTruncated PacketFault).
  rewrite cid_limit, bool_decide_eq_false_2 by lia. run_next (pq (read_bytes (len dcid))) dcid dcid (reads_bytes PacketTruncated PacketFault (len dcid) (len_nonneg dcid)).
  run_next (pq read_u8) [len scid] (len scid) (reads_u8 PacketTruncated PacketFault). rewrite cid_limit, bool_decide_eq_false_2 by lia.
  run_next (pq (read_bytes (len scid))) scid scid (reads_bytes PacketTruncated PacketFault (len scid) (len_nonneg scid)). eexists. do 2 (split; [eassumption|]). split; [|done].
  rewrite Hr1. cbn [pos advance new_reader]. rewrite ids_len, !len_app. change (len [first]) with 1. change (len [len dcid]) with 1. change (len [len scid]) with 1.
  assert (H4 : len (be_bytes 4 v) = 4) by done. lia.
Qed.

Lemma after_ids_run d n first dcid scid l :
  datagram_ok d -> d = ids first 1 dcid scid ++ l -> form first = true -> fixed first = true -> len dcid <= MAX_CID_LEN -> len scid <= MAX_CID_LEN ->
  exists r, reader_ok r /\ left_ r = l /\ pos r = len (ids first 1 dcid scid) /\ byte first /\
  parse_reads d n (new_reader d) =
    (if bool_decide (long_type first = Retry) then parse_retry d 1 dcid scid
     else
      token ← (if bool_decide (long_type first = Initial) then pq read_length_prefixed else mret []);
      length ← pq read_varint;
      rest ← left_over;
      if len rest <? length then xfail PacketTruncated
      else if length =? 0 then xfail (PacketInvalid "a packet with no packet number")
      else r ← xget; mret (mk_packet (long_type first) 1 dcid scid token [] None (pos r) (u64 (pos r + length)))) r.
Proof.
  intros Hd He Hf Hx Hdc Hsc. assert (Hb : byte first) by (apply (dg_bytes _ Hd); rewrite He; left).
  destruct (parse_ids d n first 1 dcid scid l Hd He Hf ltac:(lia) ltac:(done)) as (r & Hr & Hl & Hp & ->). exists r. do 4 (split; [done|]).
  unfold parse_after_ids. cbn [Z.eqb Pos.eqb negb VERSION_1]. destruct (first_bits_ok first Hb) as (_ & -> & _). by rewrite Hx.
Qed.

Lemma parse_numbered d n first ty dcid scid tb token le v l :
  datagram_ok d -> d = ids first 1 dcid scid ++ tb ++ le ++ l ->
  form first = true -> fixed first = true -> type_bits ty = Some (type_of first) -> len dcid <= MAX_CID_LEN -> len scid <= MAX_CID_LEN ->
  token_bytes ty tb token -> varint_of le v -> v <= len l ->
  let head := len (ids first 1 dcid scid ++ tb ++ le) in
  parse d n = if decide (v = 0) then Err (PacketInvalid "a packet with no packet number") else Ok (mk_packet ty 1 dcid scid token [] None head (head + v)).
Proof.
  intros Hd He Hf Hx Ht Hdc Hsc Htb Hle Hv head. unfold parse. destruct (after_ids_run d n first dcid scid _ Hd He Hf Hx Hdc Hsc) as (r & Hr & Hl & Hp & Hb & ->).
  rewrite (long_type_of first ty Hb Ht). rewrite (bool_decide_eq_false_2 (ty = Retry)) by (intros ->; done).
  assert (Htok : takes anything (if bool_decide (ty = Initial) then pq read_length_prefixed else mret []) tb token).
  { unfold token_bytes in Htb. destruct (bool_decide (ty = Initial)); [by apply (ra_takes _ _ _ (reads_prefixed PacketTruncated PacketFault))|]. destruct Htb as [-> ->]. apply takes_ret. }
  rewrite (takes_run _ _ tb token r _ Htok Hr Hl). destruct (left_app r tb _ Hr Hl) as [Hr1 Hl1].
  rewrite (takes_run (pq read_varint) _ le v _ l (ra_takes _ _ _ (reads_varint PacketTruncated PacketFault) _ _ Hle) Hr1 Hl1). destruct (left_app _ le _ Hr1 Hl1) as [Hr2 Hl2]. rewrite advance_app in *.
  rewrite left_over_run by done. rewrite Hl2. rewrite (proj2 (Z.ltb_ge _ _)) by lia. assert (Hv0 : 0 <= v) by (destruct Hle as (t & _ & Hle & _); lia).
  destruct (Z.eqb_spec v 0) as [H0|H0]; [by rewrite decide_True|]. rewrite decide_False by done.
  rewrite (stx_ok xget _ _ (advance (len (tb ++ le)) r) _ eq_refl). cbn [pos advance mret stx_ret fst]. unfold head. rewrite Hp. rewrite (len_app (ids first 1 dcid scid)). do 2 f_equal.
  apply u64_small. assert (Hu := dg_len _ Hd). rewrite He, !len_app in Hu. rewrite !len_app. pose proof (len_nonneg tb). pose proof (len_nonneg le). pose proof (len_nonneg (ids first 1 dcid scid)). lia.
Qed.

Lemma first_byte d first l : datagram_ok d -> d = [first] ++ l -> byte first.
Proof. intros Hd ->. apply (dg_bytes _ Hd). left. Qed.

Lemma parse_is_packet d n p : datagram_ok d -> 0 <= n -> is_packet n d p -> parse d n = Ok p.
Proof.
  intros Hd Hn Hp. destruct Hp as [first dcid l Hf Hx Hdc Hl|first dcid scid vs Hf Hne Hvs d0|first dcid scid token tag Hf Hx H3 Hdc Hsc Ht d0|first ty dcid scid tb token le payload more Hf Hx Ht Hdc Hsc Htb Hle Hp head].
  - assert (Hb := first_byte _ _ _ Hd eq_refl). unfold parse. destruct (parse_first _ n first (dcid ++ l) Hd eq_refl Hb) as (r & Hr & Hr1 & Hlr & ->). rewrite Hf. cbn [negb].
    unfold parse_short. destruct (first_bits_ok first Hb) as (_ & -> & _). rewrite Hx. cbn [negb]. run_next (pq (read_bytes n)) dcid dcid (reads_bytes PacketTruncated PacketFault n Hn).
    rewrite (stx_ok xget _ _ (advance (len dcid) r) _ eq_refl). rewrite Hr1. cbn [pos advance new_reader]. assert (Hpl := len_pos l Hl). rewrite !len_app. change (len [first]) with 1.
    rewrite (proj2 (Z.leb_gt _ _)) by lia. cbn. do 2 f_equal. lia.
  - unfold parse. destruct (parse_ids _ n first 0 dcid scid _ Hd eq_refl Hf ltac:(done) ltac:(done)) as (r & Hr & Hl & _ & ->). unfold parse_after_ids, parse_negotiation. cbn [Z.eqb].
    rewrite left_over_run by done. rewrite Hl, concat_versions_len. assert (Hpl := len_pos vs Hne). rewrite (proj2 (Z.eqb_neq _ _)) by lia.
    replace (4 * len vs) with (0 + len vs * 4) by lia. rewrite Z.mod_add by lia. done.
  - unfold parse. destruct (after_ids_run _ n first dcid scid _ Hd eq_refl Hf Hx Hdc Hsc) as (r & Hr & Hl & Hp & Hb & ->).
    rewrite (long_type_retry first Hb H3), bool_decide_eq_true_2 by done. unfold parse_retry. rewrite left_over_run by done. rewrite Hl, !len_app, Ht. unfold RETRY_TAG_LEN.
    assert (Hu := dg_len _ Hd). unfold d0 in Hu. rewrite !len_app in Hu. assert (Hn1 := len_nonneg token). assert (Hn2 := len_nonneg (ids first 1 dcid scid)). rewrite (proj2 (Z.ltb_ge _ _)) by lia.
    rewrite u64_small by lia. replace (len token + 16 - 16) with (len token) by lia.
    assert (Hs1 : slice 0 (len token) (token ++ tag) = Some token).
    { rewrite slice_eq by (rewrite ?len_app; lia). unfold len. by rewrite Z.sub_0_r, Nat2Z.id, drop_0, take_app_length. }
    assert (Hs2 : slice (len token) (len token + 16) (token ++ tag) = Some tag).
    { replace (len token + 16) with (len (token ++ tag)) by (rewrite len_app; lia). rewrite slice_end by (rewrite ?len_app; lia). unfold len. by rewrite Nat2Z.id, drop_app_length. }
    rewrite Hs1, xsome_ok, Hs2, xsome_ok. by rewrite Ht.
  - rewrite (parse_numbered _ n first ty dcid scid tb token le (len payload) (payload ++ more) Hd); [|unfold head; by rewrite <- !app_assoc|done..|].
    + rewrite decide_False by (intros E; by apply len_nil in E). done.
    + rewrite len_app. assert (Hn1 := len_nonneg more). lia.
Qed.

Lemma parse_refused d n e : datagram_ok d -> 0 <= n -> refused d e -> parse d n = Err e.
Proof.
  intros Hd Hn He. unfold parse. destruct He as [first l Hf Hx|first m l Hf Hm|first dcid m l Hf Hdc Hm|first dcid scid l Hf Hl|first v dcid scid l Hf H0 H1 Hv|first dcid scid l Hf Hdc Hsc Hx|first ty dcid scid tb token le l Hf Hx Ht Hdc Hsc Htb Hle].
  - assert (Hb := first_byte _ _ _ Hd eq_refl). destruct (parse_first _ n first l Hd eq_refl Hb) as (r & _ & _ & _ & ->). rewrite Hf. cbn [negb].
    unfold parse_short. destruct (first_bits_ok first Hb) as (_ & -> & _). by rewrite Hx.
  - assert (Hb := first_byte _ _ _ Hd eq_refl). destruct (parse_first _ n first _ Hd eq_refl Hb) as (r & Hr & _ & Hl & ->). rewrite Hf. cbn [negb].
    unfold parse_long. run_next (pq read_u32) (be_bytes 4 1) 1 (reads_u32 PacketTruncated PacketFault). run_next (pq read_u8) [m] m (reads_u8 PacketTruncated PacketFault). rewrite cid_limit, bool_decide_eq_true_2 by done. done.
  - assert (Hb := first_byte _ _ _ Hd eq_refl). destruct (parse_first _ n first _ Hd eq_refl Hb) as (r & Hr & _ & Hl & ->). rewrite Hf. cbn [negb].
    unfold parse_long. run_next (pq read_u32) (be_bytes 4 1) 1 (reads_u32 PacketTruncated PacketFault). run_next (pq read_u8) [len dcid] (len dcid) (reads_u8 PacketTruncated PacketFault). rewrite cid_limit, bool_decide_eq_false_2 by lia.
    run_next (pq (read_bytes (len dcid))) dcid dcid (reads_bytes PacketTruncated PacketFault (len dcid) (len_nonneg dcid)). run_next (pq read_u8) [m] m (reads_u8 PacketTruncated PacketFault). rewrite cid_limit, bool_decide_eq_true_2 by done. done.
  - destruct (parse_ids _ n first 0 dcid scid l Hd eq_refl Hf ltac:(done) ltac:(done)) as (r & Hr & Hlr & _ & ->). unfold parse_after_ids, parse_negotiation. cbn [Z.eqb].
    rewrite left_over_run by done. rewrite Hlr. destruct Hl as [->|Hl]; [done|]. rewrite (proj2 (Z.eqb_neq (len l mod 4) 0)) by done. by rewrite orb_true_r.
  - destruct (parse_ids _ n first v dcid scid l Hd eq_refl Hf Hv ltac:(done)) as (r & _ & _ & _ & ->). unfold parse_after_ids, VERSION_1. rewrite !(proj2 (Z.eqb_neq _ _)) by done. done.
  - assert (Hb : byte first) by (apply (dg_bytes _ Hd); left). destruct (parse_ids _ n first 1 dcid scid l Hd eq_refl Hf ltac:(done) ltac:(done)) as (r & _ & _ & _ & ->). unfold parse_after_ids.
    cbn [Z.eqb Pos.eqb negb VERSION_1]. destruct (first_bits_ok first Hb) as (_ & -> & _). by rewrite Hx.
  - apply (parse_numbered _ n first ty dcid scid tb token le 0 l Hd eq_refl); try done. apply len_nonneg.
Qed.

(** What the format says, the parser says, and nothing else. *)
Lemma parse_exact d n : datagram_ok d -> 0 <= n ->
  (forall p, parse d n = Ok p <-> is_packet n d p) /\ (forall e, parse d n = Err e <-> refused d e \/ (e = PacketTruncated /\ (forall p, ~ is_packet n d p) /\ forall e', ~ refused d e')).
Proof.
  intros Hd Hn. assert (H := parse_walk n d Hd Hn). fold (parse d n) in H. unfold verdict in H. fold (parse d n) in H.
  assert (Hp := fun p => parse_is_packet d n p Hd Hn). assert (He := fun e => parse_refused d n e Hd Hn).
  split; [intros p; split; [intros E; by rewrite E in H|apply Hp]|]. intros e. split.
  - intros E. rewrite E in H. assert (Hno : e = PacketTruncated -> (forall p, ~ is_packet n d p) /\ forall e', ~ refused d e').
    { intros ->. split; [intros p Hq%Hp; congruence|]. intros e' Hq. assert (Hq' := He _ Hq). rewrite E in Hq'. injection Hq' as <-. by inversion Hq. }
    destruct e; [right; split; [done|by apply Hno]|by left..].
  - intros [Hr|(-> & Hno & Hnr)]; [by apply He|]. destruct (parse d n) as [p|e]; [by destruct (Hno p)|]. destruct e; try done; by destruct (Hnr _ H).
Qed.

(** ** Lemmas on writing *)

Lemma bytes_ids first v dcid scid : byte first -> bytes dcid -> bytes scid -> len dcid <= MAX_CID_LEN -> len scid <= MAX_CID_LEN -> bytes (ids first v dcid scid).
Proof.
  intros Hf Hd Hs Hld Hls. unfold ids, MAX_CID_LEN in *. pose proof (len_nonneg dcid). pose proof (len_nonneg scid).
  rewrite !bytes_app. assert (Hone : forall x, 0 <= x <= 20 -> bytes [x]) by (intros x Hx; apply bytes_one; unfold byte; lia).
  split; [by apply bytes_one|]. split; [apply bytes_be|]. split; [apply Hone; lia|]. split; [done|]. split; [apply Hone; lia|done].
Qed.

Lemma u8_small x : byte x -> u8 x = x.
Proof. intros Hx. unfold u8. rewrite land_255. by apply Z.mod_small. Qed.

Lemma pn_bytes_be pn k : 1 <= k <= 4 -> 0 <= pn -> pn_bytes pn k = be_bytes (Z.to_nat k) pn.
Proof.
  intros Hk Hp. unfold pn_bytes. replace 8%nat with (Z.to_nat (8 - k) + Z.to_nat k)%nat at 1 by lia. by apply be_bytes_drop.
Qed.

Lemma pn_bytes_len pn k : 1 <= k <= 4 -> 0 <= pn -> len (pn_bytes pn k) = k.
Proof. intros Hk Hp. rewrite pn_bytes_be by done. unfold len. rewrite be_bytes_length. lia. Qed.

(** The first byte of a long and of a short header. *)
Lemma long_first_ok bits k : 0 <= bits <= 2 -> 1 <= k <= 4 ->
  let first := Z.lor (Z.lor 192 (u8 (Z.shiftl bits 4))) (u8 k - 1) in
  byte first /\ form first = true /\ fixed first = true /\ type_of first = bits /\ first mod 4 + 1 = k.
Proof.
  intros Hb Hk. assert (bits = 0 \/ bits = 1 \/ bits = 2) as [-> | [-> | -> ]] by lia;
    (assert (k = 1 \/ k = 2 \/ k = 3 \/ k = 4) as [-> | [-> | [-> | -> ]]] by lia); by vm_compute.
Qed.

Lemma short_first_ok spin key_phase k : 1 <= k <= 4 ->
  let first := Z.lor (Z.lor (Z.lor 64 (Z.shiftl (b2z spin) 5)) (Z.shiftl (b2z key_phase) 2)) (u8 k - 1) in
  byte first /\ form first = false /\ fixed first = true /\ Z.testbit first 5 = spin /\ Z.testbit first 2 = key_phase /\ first mod 4 + 1 = k.
Proof.
  intros Hk. destruct spin, key_phase; (assert (k = 1 \/ k = 2 \/ k = 3 \/ k = 4) as [-> | [-> | [-> | -> ]]] by lia); by vm_compute.
Qed.

(** What [write_long_header] takes without a panic. *)
Definition long_args (ty : PacketType) (dcid scid token : list Z) (pn_len : Z) : Prop :=
  1 <= pn_len <= 4 /\ len dcid <= MAX_CID_LEN /\ len scid <= MAX_CID_LEN /\ is_Some (type_bits ty) /\ (ty = Initial \/ token = []).

Definition token_field (ty : PacketType) (token : list Z) : list Z := if bool_decide (ty = Initial) then prefixed token else [].

Lemma token_field_ok ty token : octets token -> (ty = Initial \/ token = []) -> token_bytes ty (token_field ty token) token /\ bytes (token_field ty token).
Proof.
  intros Ht Hi. unfold token_bytes, token_field. case_bool_decide as E; [|destruct Hi as [Hi| ->]; [done|]; split; [done|intros b Hb; by apply elem_of_nil in Hb]].
  assert (Hf := len_field token Ht). split; [exists (venc (len token)); split; [by apply varint_of_venc|done]|]. unfold prefixed. apply bytes_app.
  split; [|exact (proj1 Ht)]. destruct (venc_ok _ Hf) as (_ & _ & _ & _ & _ & _ & Hb). exact Hb.
Qed.

Lemma write_long_ok out ty dcid scid token pn k :
  octets token -> long_args ty dcid scid token k ->
  exists first, byte first /\ form first = true /\ fixed first = true /\ type_bits ty = Some (type_of first) /\ first mod 4 + 1 = k /\
  let head := ids first 1 dcid scid ++ token_field ty token in
  write_long_header out ty dcid scid token pn k =
    Some (out ++ head ++ be_bytes 2 (0 + 1 * room 2) ++ pn_bytes pn k, mk_long_header (len (out ++ head)) (len (out ++ head) + 2)).
Proof.
  intros Htok (Hk & Hd & Hs & [bits Hty] & Hi). assert (Hb2 : 0 <= bits <= 2) by (destruct ty; simpl in Hty; (discriminate || injection Hty as <-; lia)).
  destruct (long_first_ok bits k Hb2 Hk) as (F1 & F2 & F3 & F4 & F5). set (first := Z.lor _ _) in *. exists first. rewrite F4. do 5 (split; [done|]). intros head.
  unfold write_long_header. rewrite !(proj2 (Z.leb_le _ _)) by lia. cbn [andb negb]. rewrite Hty. cbn [mbind option_bind].
  assert (Hg : bool_decide (ty = Initial) || (len token =? 0) = true) by (destruct Hi as [-> | -> ]; [done|by rewrite orb_true_r]). rewrite Hg. cbn [negb]. fold first.
  unfold MAX_CID_LEN in *. pose proof (len_nonneg dcid). pose proof (len_nonneg scid). rewrite !u8_small by (unfold byte; lia). unfold VERSION_1.
  set (o := (((out ++ [first]) ++ be_bytes 4 1) ++ [len dcid] ++ dcid) ++ [len scid] ++ scid).
  assert (Ho : o = out ++ ids first 1 dcid scid) by (unfold o, ids; by rewrite <- !app_assoc).
  assert (Htf : (if bool_decide (ty = Initial) then out0 ← put_varint o (len token); Some (out0 ++ token) else Some o) = Some (out ++ head)).
  { unfold head, token_field, prefixed. rewrite Ho. destruct (venc_ok _ (len_field token Htok)) as (_ & _ & _ & _ & Hput & _). case_bool_decide; [|by rewrite app_nil_r].
    rewrite Hput. cbn [mbind option_bind]. by rewrite <- !app_assoc. }
  rewrite Htf. cbn [mbind option_bind]. rewrite (put_varint_len_ok _ 0 1 2) by (unfold size_of_tag; by (split || lia) || (right; left; done)). cbn [mbind option_bind].
  rewrite <- !app_assoc. do 2 f_equal. f_equal. rewrite !(len_app out), !(len_app head). assert (H2 : len (be_bytes (Z.to_nat 2) (0 + 1 * room 2)) = 2) by done. lia.
Qed.

(** The packet number is in [packet]: its length in the low bits of the first
    byte, its low bytes at [off]; and it is decoded by a receiver that
    expects a number within half a window. *)
Definition carries (packet : list Z) (off k pn : Z) : Prop :=
  exists first b, head packet = Some first /\ first mod 4 + 1 = k /\ slice off (off + k) packet = Some b /\
  forall largest, (forall l, largest = Some l -> 0 <= l < 2 ^ 62) ->
    let expected := match largest with Some l => l + 1 | None => 0 end in
    expected - 2 ^ (8 * k) / 2 < pn <= expected + 2 ^ (8 * k) / 2 ->
    decode_packet_number largest (from_be b) k = Some pn.

Lemma carries_ok first h pn k body :
  1 <= k <= 4 -> 0 <= pn < 2 ^ 62 -> first mod 4 + 1 = k -> carries (([first] ++ h) ++ pn_bytes pn k ++ body) (len ([first] ++ h)) k pn.
Proof.
  intros Hk Hp Hf. exists first, (pn_bytes pn k). split; [done|]. split; [done|]. assert (Hl := pn_bytes_len pn k Hk ltac:(lia)). split.
  - set (p := [first] ++ h). clearbody p. pose proof (len_nonneg p). pose proof (len_nonneg body). rewrite slice_eq by (rewrite ?len_app; lia).
    replace (len p + k - len p) with (len (pn_bytes pn k)) by lia. unfold len. by rewrite !Nat2Z.id, drop_app_length, take_app_length.
  - intros largest Hla expected Hnear. rewrite pn_bytes_be, from_be_be by lia. rewrite Z2Nat.id by lia.
    replace (256 ^ k) with (2 ^ (8 * k)) by (rewrite Z.pow_mul_r by lia; done). apply decode_near; [lia|done|done|exact Hnear].
Qed.

Lemma finish_long_ok out head pnb body h tag_len :
  let done_ := out ++ head ++ be_bytes 2 (0 + 1 * room 2) ++ pnb ++ body in
  let v := len pnb + len body + tag_len in
  length_at h = len (out ++ head) -> h_pn_offset h = len (out ++ head) + 2 -> 0 <= tag_len -> len done_ + tag_len <= U64_MAX ->
  finish_long done_ h tag_len = if decide (v <= 16383) then Some (out ++ head ++ be_bytes 2 (v + 1 * room 2) ++ pnb ++ body) else None.
Proof.
  intros dn v Ha Ho Ht Hu. unfold finish_long. pose proof (len_nonneg pnb). pose proof (len_nonneg body). pose proof (len_nonneg (out ++ head)).
  assert (Hl : len dn = len (out ++ head) + 2 + len pnb + len body).
  { unfold dn. rewrite !len_app. assert (H2 : len (be_bytes 2 (0 + 1 * room 2)) = 2) by done. lia. }
  rewrite Ho, Hl. rewrite (u64_small (len (out ++ head) + 2 + len pnb + len body - (len (out ++ head) + 2))) by lia. rewrite u64_small by lia.
  replace (len (out ++ head) + 2 + len pnb + len body - (len (out ++ head) + 2) + tag_len) with v by (unfold v; lia). rewrite Ha.
  unfold len at 1. rewrite Nat2Z.id. case_decide as Hv.
  - unfold dn. rewrite (app_assoc out head). rewrite patch_length_ok by (unfold v; lia). by rewrite <- app_assoc.
  - unfold patch_length. by rewrite (proj2 (Z.ltb_lt _ _)) by lia.
Qed.

(** A length of two bytes. *)
Lemma two_byte_length v : 0 <= v <= 16383 -> varint_of (be_bytes 2 (v + 1 * room 2)) v.
Proof.
  intros Hv. exists 1. assert (H2 : len (be_bytes 2 (v + 1 * room 2)) = 2) by done. rewrite H2. split; [unfold size_of_tag; lia|]. split; [change (room 2) with 16384; lia|done].
Qed.

(** A long header packet, complete, at the front of a datagram. *)
Lemma long_parsed first ty dcid scid token pn k body tag more n :
  byte first -> form first = true -> fixed first = true -> type_bits ty = Some (type_of first) -> first mod 4 + 1 = k ->
  bytes dcid -> bytes scid -> octets token -> long_args ty dcid scid token k -> 0 <= pn < 2 ^ 62 -> 0 <= n ->
  let v := k + len body + len tag in
  let head := ids first 1 dcid scid ++ token_field ty token in
  let packet := head ++ be_bytes 2 (v + 1 * room 2) ++ pn_bytes pn k ++ body in
  v <= 16383 -> bytes (body ++ tag ++ more) -> len (packet ++ tag ++ more) <= U64_MAX ->
  parse (packet ++ tag ++ more) n = Ok (mk_packet ty 1 dcid scid token [] None (len head + 2) (len (packet ++ tag))) /\
  carries packet (len head + 2) k pn /\ drop (Z.to_nat (len head + 2 + k)) packet = body.
Proof.
  intros Hb Hf Hx Hty Hmod Hdb Hsb Htok (Hk & Hdl & Hsl & _ & Hi) Hpn Hn v head packet Hv Hbytes Hu. set (le := be_bytes 2 (v + 1 * room 2)) in *.
  pose proof (len_nonneg body). pose proof (len_nonneg tag). destruct (token_field_ok ty token Htok Hi) as [Htb Htby]. assert (Hpl := pn_bytes_len pn k Hk ltac:(lia)).
  assert (Hle2 : len le = 2) by done. assert (Hhl : len (head ++ le) = len head + 2) by (rewrite len_app; lia).
  rewrite !bytes_app in Hbytes. destruct Hbytes as (Hby & Htg & Hmo).
  assert (Hpv : len (pn_bytes pn k ++ body ++ tag) = v) by (rewrite !len_app; unfold v; lia).
  assert (He : packet ++ tag ++ more = (ids first 1 dcid scid ++ token_field ty token ++ le) ++ (pn_bytes pn k ++ body ++ tag) ++ more) by (unfold packet, head; by rewrite <- !app_assoc).
  split; [|split].
  - apply parse_is_packet; [split; [|done]|done|].
    + intros b. revert b. change (bytes (packet ++ tag ++ more)). rewrite He, !bytes_app. assert (Hpb : bytes (pn_bytes pn k)) by (rewrite pn_bytes_be by lia; apply bytes_be).
      assert (Hleb : bytes le) by apply bytes_be. assert (Hid := bytes_ids first 1 dcid scid Hb Hdb Hsb Hdl Hsl). tauto.
    + rewrite He. replace (len head + 2) with (len (ids first 1 dcid scid ++ token_field ty token ++ le)) by (rewrite <- Hhl; unfold head; by rewrite <- app_assoc).
      replace (len (packet ++ tag)) with (len (ids first 1 dcid scid ++ token_field ty token ++ le) + len (pn_bytes pn k ++ body ++ tag)) by (unfold packet, head; rewrite !len_app; lia).
      apply is_numbered; try done; [rewrite Hpv; apply two_byte_length; unfold v; lia|]. intros E. rewrite E in Hpv. unfold len in Hpv at 1. simpl in Hpv. unfold v in Hpv. lia.
  - assert (Hc := carries_ok first (be_bytes 4 1 ++ [len dcid] ++ dcid ++ [len scid] ++ scid ++ token_field ty token ++ le) pn k body Hk Hpn Hmod).
    assert (Hh : [first] ++ be_bytes 4 1 ++ [len dcid] ++ dcid ++ [len scid] ++ scid ++ token_field ty token ++ le = head ++ le) by (unfold head, ids; by rewrite <- !app_assoc).
    rewrite Hh, Hhl in Hc. unfold packet. by rewrite app_assoc.
  - replace (len head + 2 + k) with (len ((head ++ le) ++ pn_bytes pn k)) by (rewrite !len_app in *; lia). unfold packet. rewrite (app_assoc head le), (app_assoc (head ++ le) (pn_bytes pn k)).
    unfold len. rewrite Nat2Z.id. apply drop_app_length.
Qed.

Lemma short_parsed out dcid spin key_phase pn k body :
  1 <= k <= 4 -> 0 <= pn < 2 ^ 62 -> bytes dcid -> bytes body -> len (out ++ dcid ++ body) + 5 <= U64_MAX ->
  exists first header, let off := 1 + len dcid in let packet := header ++ body in
    write_short_header out dcid spin key_phase pn k = Some (out ++ header, len out + off) /\
    parse packet (len dcid) = Ok (mk_packet OneRtt 0 dcid [] [] [] None off (len packet)) /\
    carries packet off k pn /\ drop (Z.to_nat (off + k)) packet = body /\
    head packet = Some first /\ Z.testbit first 5 = spin /\ Z.testbit first 2 = key_phase.
Proof.
  intros Hk Hpn Hd Hb Hu. destruct (short_first_ok spin key_phase k Hk) as (F1 & F2 & F3 & F4 & F5 & F6). set (first := Z.lor _ _) in *.
  exists first, (([first] ++ dcid) ++ pn_bytes pn k). intros off packet. assert (Hpl := pn_bytes_len pn k Hk ltac:(lia)).
  assert (He : packet = [first] ++ dcid ++ pn_bytes pn k ++ body) by (unfold packet; by rewrite <- !app_assoc).
  assert (Hoff : len ([first] ++ dcid) = off) by (rewrite len_app; done). split; [|split; [|split; [|split]]].
  - unfold write_short_header. rewrite !(proj2 (Z.leb_le _ _)) by lia. cbn [andb negb]. fold first. rewrite <- !app_assoc. do 2 f_equal. rewrite len_app, Hoff. done.
  - apply parse_is_packet; [split|apply len_nonneg|].
    + change (bytes packet). rewrite He, !bytes_app. assert (Hpb : bytes (pn_bytes pn k)) by (rewrite pn_bytes_be by lia; apply bytes_be). assert (Hfb := bytes_one first F1). tauto.
    + rewrite He. rewrite !len_app in *. change (len [first]) with 1. pose proof (len_nonneg out). lia.
    + rewrite He. apply is_short; try done. intros E. assert (H0 := len_app (pn_bytes pn k) body). rewrite E in H0. change (len (@nil Z)) with 0 in H0. pose proof (len_nonneg body). lia.
  - rewrite <- Hoff. unfold packet. rewrite <- app_assoc. by apply carries_ok.
  - unfold packet. replace (off + k) with (len (([first] ++ dcid) ++ pn_bytes pn k)) by (rewrite len_app; lia). unfold len. rewrite Nat2Z.id. apply drop_app_length.
  - done.
Qed.

(** What a parsed packet takes of its datagram. *)
Lemma packet_extent n d p : is_packet n d p -> 0 <= n ->
  0 < pk_len p <= len d /\
  (ty p <> Retry -> ty p <> VersionNegotiation -> 0 < pn_offset p < pk_len p) /\
  (is_Some (type_bits (ty p)) -> forall more, is_packet n (take (Z.to_nat (pk_len p)) d ++ more) p) /\
  (ty p = VersionNegotiation -> versions (version_list p) <> [] /\ version_list p = concat (be_bytes 4 <$> versions (version_list p))).
Proof.
  intros Hp Hn. destruct Hp as [first dcid l Hf Hx Hdc Hl|first dcid scid vs Hf Hne Hvs d0|first dcid scid token tag Hf Hx H3 Hdc Hsc Ht d0|first ty dcid scid tb token le payload more Hf Hx Ht Hdc Hsc Htb Hle Hp head]; cbn [pk_len Packet.ty pn_offset version_list].
  - assert (Hpl := len_pos l Hl). rewrite !len_app. change (len [first]) with 1. split; [lia|]. split; [lia|]. split; [by intros [? ?]|done].
  - assert (Hd : 0 < len d0) by (unfold d0; rewrite len_app, ids_len; pose proof (len_nonneg dcid); pose proof (len_nonneg scid); pose proof (len_nonneg (concat (be_bytes 4 <$> vs))); lia).
    split; [lia|]. split; [done|]. split; [by intros [? ?]|]. intros _. by rewrite versions_ok.
  - assert (Hd : 0 < len d0) by (unfold d0; rewrite !len_app, ids_len; pose proof (len_nonneg dcid); pose proof (len_nonneg scid); pose proof (len_nonneg token); lia).
    split; [lia|]. split; [done|]. split; [by intros [? ?]|done].
  - assert (Hpl := len_pos payload Hp). assert (Hh : 0 < len head) by (unfold head; rewrite !len_app, ids_len; pose proof (len_nonneg dcid); pose proof (len_nonneg scid); pose proof (len_nonneg tb); pose proof (len_nonneg le); lia).
    pose proof (len_nonneg more). split; [rewrite !len_app; lia|]. split; [lia|]. split; [|intros ->; done]. intros _ more'.
    assert (Htk : take (Z.to_nat (len head + len payload)) (head ++ payload ++ more) = head ++ payload).
    { rewrite app_assoc. replace (Z.to_nat (len head + len payload)) with (length (head ++ payload)) by (rewrite length_app; unfold len; lia). apply take_app_length. }
    rewrite Htk, <- app_assoc. by apply is_numbered.
Qed.

(** ** The properties *)

(** C27: [parse] decides the format.  It gives a packet exactly when the
    datagram begins with one, and then that one; it says why not exactly as
    the format does, and [PacketTruncated] exactly when there is neither a
    packet nor another reason; it never panics.  A packet has at least a byte
    and ends within the datagram; its packet number begins within it; what
    follows a packet with a Length does not change what is read; the versions
    of a Version Negotiation packet are at least one and are the words its
    bytes make. *)
Theorem packet_parse d n :
  datagram_ok d -> 0 <= n ->
  (forall p, parse d n = Ok p <-> is_packet n d p) /\
  (forall e, parse d n = Err e <-> refused d e \/ (e = PacketTruncated /\ (forall p, ~ is_packet n d p) /\ forall e', ~ refused d e')) /\
  (forall f, parse d n <> Err (PacketFault f)) /\
  (forall p, parse d n = Ok p ->
    0 < pk_len p <= len d /\
    (ty p <> Retry -> ty p <> VersionNegotiation -> 0 < pn_offset p < pk_len p) /\
    (is_Some (type_bits (ty p)) -> forall more, datagram_ok (take (Z.to_nat (pk_len p)) d ++ more) -> parse (take (Z.to_nat (pk_len p)) d ++ more) n = Ok p) /\
    (ty p = VersionNegotiation -> versions (version_list p) <> [] /\ version_list p = concat (be_bytes 4 <$> versions (version_list p)))).
Proof.
  intros Hd Hn. destruct (parse_exact d n Hd Hn) as [H1 H2]. do 2 (split; [done|]). split.
  - intros f Hf. apply H2 in Hf as [Hr|[Hf _]]; [by inversion Hr|done].
  - intros p Hp. apply H1 in Hp. destruct (packet_extent n d p Hp Hn) as (E1 & E2 & E3 & E4). do 2 (split; [done|]). split; [|done].
    intros Hty more Hm. apply parse_is_packet; [done|done|]. by apply E3.
Qed.

Definition an_initial : list Z := [192; 0; 0; 0; 1; 2; 7; 8; 0; 1; 99; 3; 0; 1; 2].

Lemma packet_parse_witness :
  parse an_initial 0 = Ok (mk_packet Initial 1 [7; 8] [] [99] [] None 12 15) /\
  parse (an_initial ++ [64; 1]) 0 = Ok (mk_packet Initial 1 [7; 8] [] [99] [] None 12 15) /\
  parse (take 14 an_initial) 0 = Err PacketTruncated.
Proof.
  assert (Hok : forall l, forallb (fun b => (0 <=? b) && (b <? 256)) l = true -> (len l <=? 100) = true -> datagram_ok l).
  { intros l Hb Hl. apply Z.leb_le in Hl. split; [|unfold U64_MAX; lia]. rewrite forallb_forall in Hb. intros b Hin%list_elem_of_In. apply Hb in Hin.
    apply andb_true_iff in Hin as [H1%Z.leb_le H2%Z.ltb_lt]. done. }
  assert (Hp : parse an_initial 0 = Ok (mk_packet Initial 1 [7; 8] [] [99] [] None 12 15)) by reflexivity. split; [done|].
  destruct (packet_parse an_initial 0 (Hok an_initial eq_refl eq_refl) ltac:(done)) as (_ & _ & _ & H). destruct (H _ Hp) as (_ & _ & Hm & _).
  split; [|reflexivity]. apply (Hm ltac:(by eexists) [64; 1]). by apply Hok.
Defined.

(** C26: headers go both ways.  [write_long_header] panics exactly for a type
    without a packet number, a token outside an Initial packet, an id that is
    too long or a packet number length that is not 1 to 4.  Otherwise, for
    any payload and authentication tag whose length fits, [finish_long] fills
    in the Length, and whatever else follows in the datagram, [parse] gives
    the type, the ids and the token that were written, where the packet
    number begins and where the packet ends; the payload is after the number,
    and a receiver that expects one within half a window decodes the number.
    A length that does not fit two bytes panics.  A short header likewise,
    with its spin and key phase bits. *)
Theorem headers_roundtrip out ty dcid scid token pn k :
  bytes dcid -> bytes scid -> octets token -> 0 <= pn < 2 ^ 62 ->
  (~ long_args ty dcid scid token k -> write_long_header out ty dcid scid token pn k = None) /\
  (long_args ty dcid scid token k -> exists header h, write_long_header out ty dcid scid token pn k = Some (out ++ header, h) /\
    forall body tag more n, 0 <= n -> bytes (body ++ tag ++ more) -> len (out ++ header ++ body ++ tag ++ more) <= U64_MAX ->
      if decide (k + len body + len tag <= 16383)
      then exists packet, finish_long (out ++ header ++ body) h (len tag) = Some (out ++ packet) /\
        let off := h_pn_offset h - len out in
        parse (packet ++ tag ++ more) n = Ok (mk_packet ty 1 dcid scid token [] None off (len (packet ++ tag))) /\
        carries packet off k pn /\ drop (Z.to_nat (off + k)) packet = body
      else finish_long (out ++ header ++ body) h (len tag) = None) /\
  (forall spin key_phase, if decide (1 <= k <= 4)
    then forall body, bytes body -> len (out ++ dcid ++ body) + 5 <= U64_MAX ->
      exists first header, let off := 1 + len dcid in let packet := header ++ body in
        write_short_header out dcid spin key_phase pn k = Some (out ++ header, len out + off) /\
        parse packet (len dcid) = Ok (mk_packet OneRtt 0 dcid [] [] [] None off (len packet)) /\
        carries packet off k pn /\ drop (Z.to_nat (off + k)) packet = body /\
        head packet = Some first /\ Z.testbit first 5 = spin /\ Z.testbit first 2 = key_phase
    else write_short_header out dcid spin key_phase pn k = None).
Proof.
  intros Hd Hs Ht Hpn. split; [|split].
  - intros Hno. unfold write_long_header. destruct (Z.leb_spec 1 k), (Z.leb_spec k 4); cbn [andb negb]; try done.
    destruct (Z.leb_spec (len dcid) MAX_CID_LEN), (Z.leb_spec (len scid) MAX_CID_LEN); cbn [andb negb]; try done.
    destruct (type_bits ty) as [bits|] eqn:Hb; cbn [mbind option_bind]; [|done]. destruct (_ || _) eqn:Hi; [|done]. exfalso. apply Hno. split; [done|]. do 2 (split; [done|]).
    split; [by rewrite Hb|]. apply orb_true_iff in Hi as [Hi%bool_decide_eq_true|Hi%Z.eqb_eq]; [by left|right; by apply len_nil].
  - intros Ha. destruct (write_long_ok out ty dcid scid token pn k Ht Ha) as (first & Hb & Hf & Hx & Hty & Hmod & Hw). set (hd := ids first 1 dcid scid ++ token_field ty token) in *.
    eexists _, _. split; [exact Hw|]. intros body tag more n Hn Hby Hu. assert (Hk : 1 <= k <= 4) by apply Ha. assert (Hpl := pn_bytes_len pn k Hk ltac:(lia)).
    assert (H2 : len (be_bytes 2 (0 + 1 * room 2)) = 2) by done. pose proof (len_nonneg tag). pose proof (len_nonneg more). pose proof (len_nonneg out).
    rewrite <- !app_assoc in *. rewrite (finish_long_ok out hd (pn_bytes pn k) body) by (done || (rewrite !len_app in *; lia)). rewrite Hpl. case_decide as Hv; [|done].
    eexists. split; [done|]. cbn [h_pn_offset]. replace (len (out ++ hd) + 2 - len out) with (len hd + 2) by (rewrite len_app; lia).
    rewrite <- !app_assoc. assert (Hq := long_parsed first ty dcid scid token pn k body tag more n Hb Hf Hx Hty Hmod Hd Hs Ht Ha Hpn Hn). cbn zeta in Hq. fold hd in Hq.
    rewrite <- !app_assoc in Hq. apply Hq; [done|done|]. assert (H3 : forall w, len (be_bytes 2 w) = 2) by done. rewrite !len_app in *. rewrite H3. lia.
  - intros spin key_phase. case_decide as Hk; [intros body Hb Hu; by apply short_parsed|]. unfold write_short_header.
    destruct (Z.leb_spec 1 k), (Z.leb_spec k 4); cbn [andb negb]; (done || lia).
Qed.

Lemma headers_roundtrip_witness :
  exists header h packet, write_long_header [5] Initial [7; 8] [] [99] 300 2 = Some ([5] ++ header, h) /\ finish_long ([5] ++ header ++ [1; 2; 3]) h 2 = Some ([5] ++ packet) /\
    parse (packet ++ [9; 9] ++ [4]) 0 = Ok (mk_packet Initial 1 [7; 8] [] [99] [] None (h_pn_offset h - 1) (len (packet ++ [9; 9]))) /\ carries packet (h_pn_offset h - 1) 2 300.
Proof.
  assert (Hok : forall l, forallb (fun b => (0 <=? b) && (b <? 256)) l = true -> bytes l).
  { intros l Hb b Hin%list_elem_of_In. rewrite forallb_forall in Hb. apply Hb in Hin. apply andb_true_iff in Hin as [H1%Z.leb_le H2%Z.ltb_lt]. done. }
  destruct (headers_roundtrip [5] Initial [7; 8] [] [99] 300 2) as (_ & H & _); [by apply Hok|by apply Hok|split; [by apply Hok|by vm_compute]|lia|].
  assert (Hw : exists header h, write_long_header [5] Initial [7; 8] [] [99] 300 2 = Some ([5] ++ header, h) /\ len header = 15) by (by eexists (_ :: _), _).
  destruct Hw as (hd & hh & Hw & Hlen).
  destruct H as (header & h & Hw2 & H); [split; [lia|]; split; [by vm_compute|]; split; [by vm_compute|]; split; [by eexists|by left]|].
  rewrite Hw2 in Hw. injection Hw as <- <-. specialize (H [1; 2; 3] [9; 9] [4] 0 ltac:(lia) (Hok ([1; 2; 3] ++ [9; 9] ++ [4]) eq_refl)). rewrite !len_app, Hlen in H. specialize (H ltac:(by vm_compute)).
  rewrite decide_True in H by (by vm_compute). destruct H as (packet & Hf & Hp & Hc & _). exists header, h, packet. done.
Defined.
