(* ===== verification/Params.v ===== *)
(** QUIC transport parameters: [pratique/src/quic/transport_params.rs].

    The list of parameters in a TLS extension: reading the ones a peer sent,
    with the checks of what a parameter says of itself, and writing ours.
    [apply] is what one parameter does; a list of them in bytes is read as the
    fold of [apply] over the list, whatever their order, and what is written
    is read back. *)

From Stdlib Require Import ZArith Lia String.
From stdpp Require Import base option numbers list_numbers list sorting.
From S2P Require Import Prelude Slice Wire Frames Reads.

#[local] Open Scope Z_scope.

(** ** Types and constants *)

Definition TRANSPORT_PARAMETER_ERROR : Z := 8.
Definition MIN_UDP_PAYLOAD_SIZE : Z := 1200.
Definition DEFAULT_MAX_UDP_PAYLOAD_SIZE : Z := 65527.
Definition DEFAULT_ACK_DELAY_EXPONENT : Z := 3.
Definition DEFAULT_MAX_ACK_DELAY : Z := 25.
Definition DEFAULT_ACTIVE_CONNECTION_ID_LIMIT : Z := 2.
Definition MAX_ACK_DELAY_EXPONENT : Z := 20.
Definition MAX_ACK_DELAY_LIMIT : Z := Z.shiftl 1 14.

Module id.
Definition ORIGINAL_DESTINATION_CONNECTION_ID : Z := 0.
Definition MAX_IDLE_TIMEOUT : Z := 1.
Definition STATELESS_RESET_TOKEN : Z := 2.
Definition MAX_UDP_PAYLOAD_SIZE : Z := 3.
Definition INITIAL_MAX_DATA : Z := 4.
Definition INITIAL_MAX_STREAM_DATA_BIDI_LOCAL : Z := 5.
Definition INITIAL_MAX_STREAM_DATA_BIDI_REMOTE : Z := 6.
Definition INITIAL_MAX_STREAM_DATA_UNI : Z := 7.
Definition INITIAL_MAX_STREAMS_BIDI : Z := 8.
Definition INITIAL_MAX_STREAMS_UNI : Z := 9.
Definition ACK_DELAY_EXPONENT : Z := 10.
Definition MAX_ACK_DELAY : Z := 11.
Definition DISABLE_ACTIVE_MIGRATION : Z := 12.
Definition PREFERRED_ADDRESS : Z := 13.
Definition ACTIVE_CONNECTION_ID_LIMIT : Z := 14.
Definition INITIAL_SOURCE_CONNECTION_ID : Z := 15.
Definition RETRY_SOURCE_CONNECTION_ID : Z := 16.
Definition MAX_DATAGRAM_FRAME_SIZE : Z := 32.

End id.

Inductive Sender : Type := Client | Server.

(** [TpFault]: a panic of the code. *)
Inductive Error : Type := TpError (what : string) | TpFault (f : fault).

Definition transport_error (e : Error) : Z := TRANSPORT_PARAMETER_ERROR.

Record PreferredAddress := mk_address {
  ipv4 : list Z * Z;
  ipv6 : list Z * Z;
  pa_connection_id : list Z;
  pa_stateless_reset_token : list Z;
}.

Definition ipv4_address (pa : PreferredAddress) : option (list Z * Z) :=
  if negb (snd (ipv4 pa) =? 0) && negb (bool_decide (fst (ipv4 pa) = replicate 4 0)) then Some (ipv4 pa) else None.

Definition ipv6_address (pa : PreferredAddress) : option (list Z * Z) :=
  if negb (snd (ipv6 pa) =? 0) && negb (bool_decide (fst (ipv6 pa) = replicate 16 0)) then Some (ipv6 pa) else None.

Record TransportParameters := mk_params {
  original_destination_connection_id : option (list Z);
  max_idle_timeout : Z;
  stateless_reset_token : option (list Z);
  max_udp_payload_size : Z;
  initial_max_data : Z;
  initial_max_stream_data_bidi_local : Z;
  initial_max_stream_data_bidi_remote : Z;
  initial_max_stream_data_uni : Z;
  initial_max_streams_bidi : Z;
  initial_max_streams_uni : Z;
  ack_delay_exponent : Z;
  max_ack_delay : Z;
  disable_active_migration : bool;
  preferred_address : option PreferredAddress;
  active_connection_id_limit : Z;
  initial_source_connection_id : option (list Z);
  retry_source_connection_id : option (list Z);
  max_datagram_frame_size : option Z;
  unknown : list (Z * list Z);
}.

Definition default : TransportParameters :=
  mk_params None 0 None DEFAULT_MAX_UDP_PAYLOAD_SIZE 0 0 0 0 0 0 DEFAULT_ACK_DELAY_EXPONENT DEFAULT_MAX_ACK_DELAY false None DEFAULT_ACTIVE_CONNECTION_ID_LIMIT None None None [].

(** *** Assignments of a field *)

Definition set_original_destination_connection_id (v : option (list Z)) (p : TransportParameters) : TransportParameters :=
  mk_params v (max_idle_timeout p) (stateless_reset_token p) (max_udp_payload_size p) (initial_max_data p) (initial_max_stream_data_bidi_local p) (initial_max_stream_data_bidi_remote p) (initial_max_stream_data_uni p) (initial_max_streams_bidi p) (initial_max_streams_uni p) (ack_delay_exponent p) (max_ack_delay p) (disable_active_migration p) (preferred_address p) (active_connection_id_limit p) (initial_source_connection_id p) (retry_source_connection_id p) (max_datagram_frame_size p) (unknown p).

Definition set_max_idle_timeout (v : Z) (p : TransportParameters) : TransportParameters :=
  mk_params (original_destination_connection_id p) v (stateless_reset_token p) (max_udp_payload_size p) (initial_max_data p) (initial_max_stream_data_bidi_local p) (initial_max_stream_data_bidi_remote p) (initial_max_stream_data_uni p) (initial_max_streams_bidi p) (initial_max_streams_uni p) (ack_delay_exponent p) (max_ack_delay p) (disable_active_migration p) (preferred_address p) (active_connection_id_limit p) (initial_source_connection_id p) (retry_source_connection_id p) (max_datagram_frame_size p) (unknown p).

Definition set_stateless_reset_token (v : option (list Z)) (p : TransportParameters) : TransportParameters :=
  mk_params (original_destination_connection_id p) (max_idle_timeout p) v (max_udp_payload_size p) (initial_max_data p) (initial_max_stream_data_bidi_local p) (initial_max_stream_data_bidi_remote p) (initial_max_stream_data_uni p) (initial_max_streams_bidi p) (initial_max_streams_uni p) (ack_delay_exponent p) (max_ack_delay p) (disable_active_migration p) (preferred_address p) (active_connection_id_limit p) (initial_source_connection_id p) (retry_source_connection_id p) (max_datagram_frame_size p) (unknown p).

Definition set_max_udp_payload_size (v : Z) (p : TransportParameters) : TransportParameters :=
  mk_params (original_destination_connection_id p) (max_idle_timeout p) (stateless_reset_token p) v (initial_max_data p) (initial_max_stream_data_bidi_local p) (initial_max_stream_data_bidi_remote p) (initial_max_stream_data_uni p) (initial_max_streams_bidi p) (initial_max_streams_uni p) (ack_delay_exponent p) (max_ack_delay p) (disable_active_migration p) (preferred_address p) (active_connection_id_limit p) (initial_source_connection_id p) (retry_source_connection_id p) (max_datagram_frame_size p) (unknown p).

Definition set_initial_max_data (v : Z) (p : TransportParameters) : TransportParameters :=
  mk_params (original_destination_connection_id p) (max_idle_timeout p) (stateless_reset_token p) (max_udp_payload_size p) v (initial_max_stream_data_bidi_local p) (initial_max_stream_data_bidi_remote p) (initial_max_stream_data_uni p) (initial_max_streams_bidi p) (initial_max_streams_uni p) (ack_delay_exponent p) (max_ack_delay p) (disable_active_migration p) (preferred_address p) (active_connection_id_limit p) (initial_source_connection_id p) (retry_source_connection_id p) (max_datagram_frame_size p) (unknown p).

Definition set_initial_max_stream_data_bidi_local (v : Z) (p : TransportParameters) : TransportParameters :=
  mk_params (original_destination_connection_id p) (max_idle_timeout p) (stateless_reset_token p) (max_udp_payload_size p) (initial_max_data p) v (initial_max_stream_data_bidi_remote p) (initial_max_stream_data_uni p) (initial_max_streams_bidi p) (initial_max_streams_uni p) (ack_delay_exponent p) (max_ack_delay p) (disable_active_migration p) (preferred_address p) (active_connection_id_limit p) (initial_source_connection_id p) (retry_source_connection_id p) (max_datagram_frame_size p) (unknown p).

Definition set_initial_max_stream_data_bidi_remote (v : Z) (p : TransportParameters) : TransportParameters :=
  mk_params (original_destination_connection_id p) (max_idle_timeout p) (stateless_reset_token p) (max_udp_payload_size p) (initial_max_data p) (initial_max_stream_data_bidi_local p) v (initial_max_stream_data_uni p) (initial_max_streams_bidi p) (initial_max_streams_uni p) (ack_delay_exponent p) (max_ack_delay p) (disable_active_migration p) (preferred_address p) (active_connection_id_limit p) (initial_source_connection_id p) (retry_source_connection_id p) (max_datagram_frame_size p) (unknown p).

Definition set_initial_max_stream_data_uni (v : Z) (p : TransportParameters) : TransportParameters :=
  mk_params (original_destination_connection_id p) (max_idle_timeout p) (stateless_reset_token p) (max_udp_payload_size p) (initial_max_data p) (initial_max_stream_data_bidi_local p) (initial_max_stream_data_bidi_remote p) v (initial_max_streams_bidi p) (initial_max_streams_uni p) (ack_delay_exponent p) (max_ack_delay p) (disable_active_migration p) (preferred_address p) (active_connection_id_limit p) (initial_source_connection_id p) (retry_source_connection_id p) (max_datagram_frame_size p) (unknown p).

Definition set_initial_max_streams_bidi (v : Z) (p : TransportParameters) : TransportParameters :=
  mk_params (original_destination_connection_id p) (max_idle_timeout p) (stateless_reset_token p) (max_udp_payload_size p) (initial_max_data p) (initial_max_stream_data_bidi_local p) (initial_max_stream_data_bidi_remote p) (initial_max_stream_data_uni p) v (initial_max_streams_uni p) (ack_delay_exponent p) (max_ack_delay p) (disable_active_migration p) (preferred_address p) (active_connection_id_limit p) (initial_source_connection_id p) (retry_source_connection_id p) (max_datagram_frame_size p) (unknown p).

Definition set_initial_max_streams_uni (v : Z) (p : TransportParameters) : TransportParameters :=
  mk_params (original_destination_connection_id p) (max_idle_timeout p) (stateless_reset_token p) (max_udp_payload_size p) (initial_max_data p) (initial_max_stream_data_bidi_local p) (initial_max_stream_data_bidi_remote p) (initial_max_stream_data_uni p) (initial_max_streams_bidi p) v (ack_delay_exponent p) (max_ack_delay p) (disable_active_migration p) (preferred_address p) (active_connection_id_limit p) (initial_source_connection_id p) (retry_source_connection_id p) (max_datagram_frame_size p) (unknown p).

Definition set_ack_delay_exponent (v : Z) (p : TransportParameters) : TransportParameters :=
  mk_params (original_destination_connection_id p) (max_idle_timeout p) (stateless_reset_token p) (max_udp_payload_size p) (initial_max_data p) (initial_max_stream_data_bidi_local p) (initial_max_stream_data_bidi_remote p) (initial_max_stream_data_uni p) (initial_max_streams_bidi p) (initial_max_streams_uni p) v (max_ack_delay p) (disable_active_migration p) (preferred_address p) (active_connection_id_limit p) (initial_source_connection_id p) (retry_source_connection_id p) (max_datagram_frame_size p) (unknown p).

Definition set_max_ack_delay (v : Z) (p : TransportParameters) : TransportParameters :=
  mk_params (original_destination_connection_id p) (max_idle_timeout p) (stateless_reset_token p) (max_udp_payload_size p) (initial_max_data p) (initial_max_stream_data_bidi_local p) (initial_max_stream_data_bidi_remote p) (initial_max_stream_data_uni p) (initial_max_streams_bidi p) (initial_max_streams_uni p) (ack_delay_exponent p) v (disable_active_migration p) (preferred_address p) (active_connection_id_limit p) (initial_source_connection_id p) (retry_source_connection_id p) (max_datagram_frame_size p) (unknown p).

Definition set_disable_active_migration (v : bool) (p : TransportParameters) : TransportParameters :=
  mk_params (original_destination_connection_id p) (max_idle_timeout p) (stateless_reset_token p) (max_udp_payload_size p) (initial_max_data p) (initial_max_stream_data_bidi_local p) (initial_max_stream_data_bidi_remote p) (initial_max_stream_data_uni p) (initial_max_streams_bidi p) (initial_max_streams_uni p) (ack_delay_exponent p) (max_ack_delay p) v (preferred_address p) (active_connection_id_limit p) (initial_source_connection_id p) (retry_source_connection_id p) (max_datagram_frame_size p) (unknown p).

Definition set_preferred_address (v : option PreferredAddress) (p : TransportParameters) : TransportParameters :=
  mk_params (original_destination_connection_id p) (max_idle_timeout p) (stateless_reset_token p) (max_udp_payload_size p) (initial_max_data p) (initial_max_stream_data_bidi_local p) (initial_max_stream_data_bidi_remote p) (initial_max_stream_data_uni p) (initial_max_streams_bidi p) (initial_max_streams_uni p) (ack_delay_exponent p) (max_ack_delay p) (disable_active_migration p) v (active_connection_id_limit p) (initial_source_connection_id p) (retry_source_connection_id p) (max_datagram_frame_size p) (unknown p).

Definition set_active_connection_id_limit (v : Z) (p : TransportParameters) : TransportParameters :=
  mk_params (original_destination_connection_id p) (max_idle_timeout p) (stateless_reset_token p) (max_udp_payload_size p) (initial_max_data p) (initial_max_stream_data_bidi_local p) (initial_max_stream_data_bidi_remote p) (initial_max_stream_data_uni p) (initial_max_streams_bidi p) (initial_max_streams_uni p) (ack_delay_exponent p) (max_ack_delay p) (disable_active_migration p) (preferred_address p) v (initial_source_connection_id p) (retry_source_connection_id p) (max_datagram_frame_size p) (unknown p).

Definition set_initial_source_connection_id (v : option (list Z)) (p : TransportParameters) : TransportParameters :=
  mk_params (original_destination_connection_id p) (max_idle_timeout p) (stateless_reset_token p) (max_udp_payload_size p) (initial_max_data p) (initial_max_stream_data_bidi_local p) (initial_max_stream_data_bidi_remote p) (initial_max_stream_data_uni p) (initial_max_streams_bidi p) (initial_max_streams_uni p) (ack_delay_exponent p) (max_ack_delay p) (disable_active_migration p) (preferred_address p) (active_connection_id_limit p) v (retry_source_connection_id p) (max_datagram_frame_size p) (unknown p).

Definition set_retry_source_connection_id (v : option (list Z)) (p : TransportParameters) : TransportParameters :=
  mk_params (original_destination_connection_id p) (max_idle_timeout p) (stateless_reset_token p) (max_udp_payload_size p) (initial_max_data p) (initial_max_stream_data_bidi_local p) (initial_max_stream_data_bidi_remote p) (initial_max_stream_data_uni p) (initial_max_streams_bidi p) (initial_max_streams_uni p) (ack_delay_exponent p) (max_ack_delay p) (disable_active_migration p) (preferred_address p) (active_connection_id_limit p) (initial_source_connection_id p) v (max_datagram_frame_size p) (unknown p).

Definition set_max_datagram_frame_size (v : option Z) (p : TransportParameters) : TransportParameters :=
  mk_params (original_destination_connection_id p) (max_idle_timeout p) (stateless_reset_token p) (max_udp_payload_size p) (initial_max_data p) (initial_max_stream_data_bidi_local p) (initial_max_stream_data_bidi_remote p) (initial_max_stream_data_uni p) (initial_max_streams_bidi p) (initial_max_streams_uni p) (ack_delay_exponent p) (max_ack_delay p) (disable_active_migration p) (preferred_address p) (active_connection_id_limit p) (initial_source_connection_id p) (retry_source_connection_id p) v (unknown p).

Definition set_unknown (v : list (Z * list Z)) (p : TransportParameters) : TransportParameters :=
  mk_params (original_destination_connection_id p) (max_idle_timeout p) (stateless_reset_token p) (max_udp_payload_size p) (initial_max_data p) (initial_max_stream_data_bidi_local p) (initial_max_stream_data_bidi_remote p) (initial_max_stream_data_uni p) (initial_max_streams_bidi p) (initial_max_streams_uni p) (ack_delay_exponent p) (max_ack_delay p) (disable_active_migration p) (preferred_address p) (active_connection_id_limit p) (initial_source_connection_id p) (retry_source_connection_id p) (max_datagram_frame_size p) v.

(** ** Reading *)

Definition connection_id (value : list Z) : result Error (list Z) :=
  if MAX_CID_LEN <? len value then Err (TpError "a connection id is longer than 20 bytes") else Ok value.

(** [.or(err(..))] and [.map_err(..)]. *)
Definition or_err {A} (what : string) (m : reads A) : stx Reader Error A := recast (TpError what) TpFault m.

Definition number_reads : stx Reader Error Z :=
  v ← or_err "a number that is cut short" read_varint;
  r ← xget;
  if negb (at_end r) then xfail (TpError "a number with more bytes than its length says") else mret v.

Definition number (value : list Z) : result Error Z := fst (number_reads (new_reader value)).

(** The bytes of an array: [try_into] and [copy_from_slice] panic for
    another length. *)
Definition exactly (n : Z) (d : list Z) : stx Reader Error (list Z) :=
  if len d =? n then mret d else xfail (TpFault Panic).

Definition short {A} (m : reads A) : stx Reader Error A := or_err "preferred_address is cut short" m.

Definition address_reads : stx Reader Error PreferredAddress :=
  b ← short (read_bytes 4);
  v4 ← exactly 4 b;
  b ← short (read_bytes 2);
  p4 ← exactly 2 b;
  b ← short (read_bytes 16);
  v6 ← exactly 16 b;
  b ← short (read_bytes 2);
  p6 ← exactly 2 b;
  cid_len ← short read_u8;
  if (cid_len =? 0) || (MAX_CID_LEN <? cid_len)
  then xfail (TpError "preferred_address has a connection id that is not 1 to 20 bytes")
  else
    connection_id ← short (read_bytes cid_len);
    b ← short (read_bytes 16);
    token ← exactly 16 b;
    r ← xget;
    if negb (at_end r) then xfail (TpError "preferred_address is longer than what it holds")
    else mret (mk_address (v4, from_be p4) (v6, from_be p6) connection_id token).

Definition read_address (value : list Z) : result Error PreferredAddress := fst (address_reads (new_reader value)).

Definition server_only (sender : Sender) : result Error unit :=
  match sender with
  | Client => Err (TpError "a client sent a parameter that only a server sends")
  | Server => Ok tt
  end.

(** What a parameter does to those read before it. *)
Definition apply (sender : Sender) (p : TransportParameters) (pid : Z) (value : list Z) : result Error TransportParameters :=
  if pid =? id.ORIGINAL_DESTINATION_CONNECTION_ID then
    _ ← server_only sender; c ← connection_id value; mret (set_original_destination_connection_id (Some c) p)
  else if pid =? id.MAX_IDLE_TIMEOUT then v ← number value; mret (set_max_idle_timeout v p)
  else if pid =? id.STATELESS_RESET_TOKEN then
    _ ← server_only sender;
    if negb (len value =? 16) then Err (TpError "a stateless_reset_token that is not 16 bytes")
    else mret (set_stateless_reset_token (Some value) p)
  else if pid =? id.MAX_UDP_PAYLOAD_SIZE then
    v ← number value;
    if v <? MIN_UDP_PAYLOAD_SIZE then Err (TpError "max_udp_payload_size below 1200") else mret (set_max_udp_payload_size v p)
  else if pid =? id.INITIAL_MAX_DATA then v ← number value; mret (set_initial_max_data v p)
  else if pid =? id.INITIAL_MAX_STREAM_DATA_BIDI_LOCAL then v ← number value; mret (set_initial_max_stream_data_bidi_local v p)
  else if pid =? id.INITIAL_MAX_STREAM_DATA_BIDI_REMOTE then v ← number value; mret (set_initial_max_stream_data_bidi_remote v p)
  else if pid =? id.INITIAL_MAX_STREAM_DATA_UNI then v ← number value; mret (set_initial_max_stream_data_uni v p)
  else if pid =? id.INITIAL_MAX_STREAMS_BIDI then
    v ← number value;
    if MAX_STREAMS_LIMIT <? v then Err (TpError "initial_max_streams_bidi above 2^60") else mret (set_initial_max_streams_bidi v p)
  else if pid =? id.INITIAL_MAX_STREAMS_UNI then
    v ← number value;
    if MAX_STREAMS_LIMIT <? v then Err (TpError "initial_max_streams_uni above 2^60") else mret (set_initial_max_streams_uni v p)
  else if pid =? id.ACK_DELAY_EXPONENT then
    v ← number value;
    if MAX_ACK_DELAY_EXPONENT <? v then Err (TpError "ack_delay_exponent above 20") else mret (set_ack_delay_exponent (Z.land v 255) p)
  else if pid =? id.MAX_ACK_DELAY then
    v ← number value;
    if MAX_ACK_DELAY_LIMIT <=? v then Err (TpError "max_ack_delay of 2^14 or more") else mret (set_max_ack_delay v p)
  else if pid =? id.DISABLE_ACTIVE_MIGRATION then
    if negb (len value =? 0) then Err (TpError "disable_active_migration with a value") else mret (set_disable_active_migration true p)
  else if pid =? id.PREFERRED_ADDRESS then
    _ ← server_only sender; a ← read_address value; mret (set_preferred_address (Some a) p)
  else if pid =? id.ACTIVE_CONNECTION_ID_LIMIT then
    v ← number value;
    if v <? 2 then Err (TpError "active_connection_id_limit below 2") else mret (set_active_connection_id_limit v p)
  else if pid =? id.INITIAL_SOURCE_CONNECTION_ID then c ← connection_id value; mret (set_initial_source_connection_id (Some c) p)
  else if pid =? id.RETRY_SOURCE_CONNECTION_ID then
    _ ← server_only sender; c ← connection_id value; mret (set_retry_source_connection_id (Some c) p)
  else if pid =? id.MAX_DATAGRAM_FRAME_SIZE then v ← number value; mret (set_max_datagram_frame_size (Some v) p)
  else mret (set_unknown (unknown p ++ [(pid, value)]) p).

Definition xres {S E A} (m : result E A) : stx S E A := fun s => (m, s).

(** The loop of [decode], with the ids seen. *)
Fixpoint decode_loop (fuel : nat) (sender : Sender) (p : TransportParameters) (ids : list Z) : stx Reader Error (TransportParameters * list Z) :=
  match fuel with
  | O => xfail (TpFault NoFuel)
  | S fuel =>
      r ← xget;
      if at_end r then mret (p, ids)
      else
        pid ← or_err "an id that is cut short" read_varint;
        n ← or_err "a length that is cut short" read_varint;
        value ← or_err "a parameter longer than what is left" (read_bytes n);
        p ← xres (apply sender p pid value);
        decode_loop fuel sender p (ids ++ [pid])
  end.

(** [windows(2).any(|w| w[0] == w[1])]. *)
Fixpoint any_equal (l : list Z) : bool :=
  match l with
  | a :: (b :: _) as l' => (a =? b) || any_equal l'
  | _ => false
  end.

(** The checks after the loop. *)
Definition decode_checks (sender : Sender) (p : TransportParameters) (ids : list Z) : result Error TransportParameters :=
  if (match sender with Server => true | Client => false end) && negb (bool_decide (is_Some (original_destination_connection_id p)))
  then Err (TpError "no original_destination_connection_id")
  else if negb (bool_decide (is_Some (initial_source_connection_id p))) then Err (TpError "no initial_source_connection_id")
  else if any_equal (merge_sort Z.le ids) then Err (TpError "a parameter that is sent twice")
  else mret p.

Definition decode (data : list Z) (sender : Sender) : result Error TransportParameters :=
  x ← fst (decode_loop (S (length data)) sender default [] (new_reader data));
  decode_checks sender (fst x) (snd x).

(** ** Writing; [None] is a panic *)

Definition put_number (out : list Z) (id v : Z) : option (list Z) :=
  out ← put_varint out id; n ← varint_len v; out ← put_varint out n; put_varint out v.

Definition put_bytes (out : list Z) (id : Z) (v : list Z) : option (list Z) :=
  out ← put_varint out id; out ← put_varint out (len v); Some (out ++ v).

Definition address_value (pa : PreferredAddress) : list Z :=
  fst (ipv4 pa) ++ be_bytes 2 (snd (ipv4 pa)) ++ fst (ipv6 pa) ++ be_bytes 2 (snd (ipv6 pa)) ++ [Z.land (len (pa_connection_id pa)) 255] ++ pa_connection_id pa ++ pa_stateless_reset_token pa.

Definition put_if {A} (put : list Z -> A -> option (list Z)) (o : option A) (out : list Z) : option (list Z) :=
  match o with Some a => put out a | None => Some out end.

Definition unless (b : bool) {A} (a : A) : option A := if b then None else Some a.

Definition encode (p : TransportParameters) (sender : Sender) : option (list Z) :=
  let server {A} (o : option A) := match sender with Server => o | Client => None end in
  let bytes_ id out v := put_bytes out id v in
  let number_ id out v := put_number out id v in
  out ← put_if (bytes_ id.ORIGINAL_DESTINATION_CONNECTION_ID) (server (original_destination_connection_id p)) [];
  out ← put_if (number_ id.MAX_IDLE_TIMEOUT) (unless (max_idle_timeout p =? 0) (max_idle_timeout p)) out;
  out ← put_if (bytes_ id.STATELESS_RESET_TOKEN) (server (stateless_reset_token p)) out;
  out ← put_if (number_ id.MAX_UDP_PAYLOAD_SIZE) (unless (max_udp_payload_size p =? DEFAULT_MAX_UDP_PAYLOAD_SIZE) (max_udp_payload_size p)) out;
  out ← foldl (fun out x => out ← out; put_if (number_ (fst x)) (unless (snd x =? 0) (snd x)) out) (Some out)
    [(id.INITIAL_MAX_DATA, initial_max_data p);
     (id.INITIAL_MAX_STREAM_DATA_BIDI_LOCAL, initial_max_stream_data_bidi_local p);
     (id.INITIAL_MAX_STREAM_DATA_BIDI_REMOTE, initial_max_stream_data_bidi_remote p);
     (id.INITIAL_MAX_STREAM_DATA_UNI, initial_max_stream_data_uni p);
     (id.INITIAL_MAX_STREAMS_BIDI, initial_max_streams_bidi p);
     (id.INITIAL_MAX_STREAMS_UNI, initial_max_streams_uni p)];
  out ← put_if (number_ id.ACK_DELAY_EXPONENT) (unless (ack_delay_exponent p =? DEFAULT_ACK_DELAY_EXPONENT) (ack_delay_exponent p)) out;
  out ← put_if (number_ id.MAX_ACK_DELAY) (unless (max_ack_delay p =? DEFAULT_MAX_ACK_DELAY) (max_ack_delay p)) out;
  out ← put_if (bytes_ id.DISABLE_ACTIVE_MIGRATION) (unless (negb (disable_active_migration p)) []) out;
  out ← put_if (fun out pa => put_bytes out id.PREFERRED_ADDRESS (address_value pa)) (server (preferred_address p)) out;
  out ← put_if (number_ id.ACTIVE_CONNECTION_ID_LIMIT) (unless (active_connection_id_limit p =? DEFAULT_ACTIVE_CONNECTION_ID_LIMIT) (active_connection_id_limit p)) out;
  out ← put_if (bytes_ id.INITIAL_SOURCE_CONNECTION_ID) (initial_source_connection_id p) out;
  out ← put_if (bytes_ id.RETRY_SOURCE_CONNECTION_ID) (server (retry_source_connection_id p)) out;
  out ← put_if (number_ id.MAX_DATAGRAM_FRAME_SIZE) (max_datagram_frame_size p) out;
  foldl (fun out x => out ← out; put_bytes out (fst x) (snd x)) (Some out) (unknown p).

Definition is_grease (id : Z) : bool := (27 <=? id) && ((id - 27) mod 31 =? 0) && (id <=? MAX_VARINT).

(** ** What a list of parameters says *)

(** A list of parameters in bytes, each with its id, length and value. *)
Inductive is_params : list Z -> list (Z * list Z) -> Prop :=
| no_params : is_params [] []
| more_params e1 e2 pid v rest l :
    varint_of e1 pid -> varint_of e2 (len v) -> is_params rest l -> is_params (e1 ++ e2 ++ v ++ rest) ((pid, v) :: l).

(** The kinds of values: a number within bounds, a connection id (sent only
    by servers or not), a token, an address, a flag. *)
Inductive kind : Type := KNumber (lo hi : Z) | KId (server : bool) | KToken | KAddress | KFlag | KUnknown.

Definition kind_of (pid : Z) : kind :=
  if (pid =? 0) || (pid =? 16) then KId true
  else if pid =? 15 then KId false
  else if pid =? 2 then KToken
  else if pid =? 3 then KNumber 1200 MAX_VARINT
  else if (pid =? 8) || (pid =? 9) then KNumber 0 (2 ^ 60)
  else if pid =? 10 then KNumber 0 20
  else if pid =? 11 then KNumber 0 (2 ^ 14 - 1)
  else if pid =? 12 then KFlag
  else if pid =? 13 then KAddress
  else if pid =? 14 then KNumber 2 MAX_VARINT
  else if (pid =? 1) || ((4 <=? pid) && (pid <=? 7)) || (pid =? 32) then KNumber 0 MAX_VARINT
  else KUnknown.

Record address_wf (pa : PreferredAddress) : Prop := mk_address_wf {
  aw_ipv4 : bytes (fst (ipv4 pa)) /\ len (fst (ipv4 pa)) = 4;
  aw_port4 : 0 <= snd (ipv4 pa) < 2 ^ 16;
  aw_ipv6 : bytes (fst (ipv6 pa)) /\ len (fst (ipv6 pa)) = 16;
  aw_port6 : 0 <= snd (ipv6 pa) < 2 ^ 16;
  aw_id : bytes (pa_connection_id pa) /\ 1 <= len (pa_connection_id pa) <= MAX_CID_LEN;
  aw_token : bytes (pa_stateless_reset_token pa) /\ len (pa_stateless_reset_token pa) = 16;
}.

(** The values that a sender's parameter may have. *)
Definition acceptable (sender : Sender) (x : Z * list Z) : Prop :=
  let v := snd x in
  match kind_of (fst x) with
  | KNumber lo hi => exists n, varint_of v n /\ lo <= n <= hi
  | KId server => (server = true -> sender = Server) /\ len v <= MAX_CID_LEN
  | KToken => sender = Server /\ len v = 16
  | KAddress => sender = Server /\ exists pa, address_wf pa /\ v = address_value pa
  | KFlag => v = []
  | KUnknown => True
  end.

Definition unknown_id (x : Z * list Z) : bool := match kind_of (fst x) with KUnknown => true | _ => false end.

(** The last value given to an id. *)
Definition given (pid : Z) (l : list (Z * list Z)) : option (list Z) := snd <$> List.find (fun x => fst x =? pid) (rev l).

Definition num_of (v : list Z) : Z := match get_varint v with Some (n, _) => n | None => 0 end.

Definition num (pid d : Z) (l : list (Z * list Z)) : Z := match given pid l with Some v => num_of v | None => d end.

Definition address_of (v : list Z) : PreferredAddress :=
  mk_address (take 4 v, from_be (take 2 (drop 4 v))) (take 16 (drop 6 v), from_be (take 2 (drop 22 v))) (take (length v - 41) (drop 25 v)) (drop (length v - 16) v).

Definition meaning (l : list (Z * list Z)) : TransportParameters :=
  mk_params (given 0 l) (num 1 0 l) (given 2 l) (num 3 DEFAULT_MAX_UDP_PAYLOAD_SIZE l) (num 4 0 l) (num 5 0 l) (num 6 0 l) (num 7 0 l) (num 8 0 l) (num 9 0 l)
    (num 10 DEFAULT_ACK_DELAY_EXPONENT l) (num 11 DEFAULT_MAX_ACK_DELAY l) (bool_decide (is_Some (given 12 l))) (address_of <$> given 13 l)
    (num 14 DEFAULT_ACTIVE_CONNECTION_ID_LIMIT l) (given 15 l) (given 16 l) (num_of <$> given 32 l) (List.filter unknown_id l).

Lemma given_snoc pid l k v : given pid (l ++ [(k, v)]) = if k =? pid then Some v else given pid l.
Proof. unfold given. rewrite rev_app_distr. cbn. by destruct (k =? pid). Qed.

Lemma meaning_nil : meaning [] = default.
Proof. done. Qed.

(** ** Numbers and addresses *)

Lemma bytes_reader_ok v : bytes v -> len v <= U64_MAX -> reader_ok (new_reader v) /\ left_ (new_reader v) = v.
Proof. intros Hb Hl. split; [|done]. split; [cbn; split; [lia|apply len_nonneg]|done|done]. Qed.

Lemma at_end_left r : reader_ok r -> at_end r = bool_decide (left_ r = []).
Proof.
  intros Hr. assert (H := left_len r Hr). unfold at_end. destruct (Z.leb_spec (len (buf r)) (pos r)) as [Hle|Hgt]; symmetry.
  - apply bool_decide_eq_true. apply len_nil. destruct (rd_pos _ Hr). lia.
  - apply bool_decide_eq_false. intros E. rewrite E in H. change (len (@nil Z)) with 0 in H. lia.
Qed.

(** A reader of a whole value: what it gives and what it takes, and no fault. *)
Definition reads_whole {A} (P : list Z -> A -> Prop) (v : list Z) (x : result Error A * Reader) : Prop :=
  match fst x with Ok a => P v a | Err (TpError _) => True | Err (TpFault _) => False end.

Lemma number_walk v : bytes v -> len v <= U64_MAX -> reads_whole varint_of v (number_reads (new_reader v)).
Proof.
  intros Hb Hu. destruct (bytes_reader_ok v Hb Hu) as [Hr Hl]. unfold number_reads.
  apply (walk (TpError "a number that is cut short") _ _ varint_of (reads_whole varint_of v)); [apply reads_varint|done|done|]. intros e n He Hn Hr1.
  rewrite (stx_ok xget _ _ (advance (len e) (new_reader v)) _ eq_refl). rewrite at_end_left by done. case_bool_decide as E; [|done]. cbn.
  rewrite Hl, E, app_nil_r in He. by rewrite He.
Qed.

Lemma number_ok v n : bytes v -> len v <= U64_MAX -> number v = Ok n <-> varint_of v n.
Proof.
  intros Hb Hu. split.
  - intros H. assert (Hw := number_walk v Hb Hu). unfold reads_whole in Hw. fold (number v) in Hw. by rewrite H in Hw.
  - intros Hv. destruct (bytes_reader_ok v Hb Hu) as [Hr Hl]. unfold number, number_reads. rewrite <- (app_nil_r v) in Hl at 2.
    rewrite (takes_run (or_err _ read_varint) _ v n _ [] (ra_takes _ _ _ (reads_varint _ _) _ _ Hv) Hr Hl). destruct (left_app _ v [] Hr Hl) as [Hr1 Hl1].
    rewrite (stx_ok xget _ _ (advance (len v) (new_reader v)) _ eq_refl). by rewrite at_end_left, Hl1 by done.
Qed.

Lemma number_cases v : bytes v -> len v <= U64_MAX ->
  (exists n, number v = Ok n /\ varint_of v n /\ num_of v = n /\ 0 <= n <= MAX_VARINT) \/ (exists w, number v = Err (TpError w)) /\ forall n, ~ varint_of v n.
Proof.
  intros Hb Hu. assert (H := fun n => number_ok v n Hb Hu). assert (Hw := number_walk v Hb Hu). unfold reads_whole in Hw. fold (number v) in Hw.
  destruct (number v) as [n|e]; [left|right].
  - exists n. split; [done|]. split; [done|]. assert (Hg := varint_of_get v n [] Hw). rewrite app_nil_r in Hg. unfold num_of. rewrite Hg. split; [done|].
    assert (Hf := get_varint_front v n _ [] Hb Hg). apply Hf.
  - split; [destruct e; [by eexists|done]|]. intros n Hn%H. done.
Qed.

Lemma array_run {B} n d (k : list Z -> stx Reader Error B) r : len d = n -> (exactly n d ≫= k) r = k d r.
Proof. intros <-. unfold exactly. by rewrite Z.eqb_refl. Qed.

Lemma port_bytes d : bytes d -> len d = 2 -> be_bytes 2 (from_be d) = d /\ 0 <= from_be d < 2 ^ 16.
Proof.
  intros Hb Hl. unfold from_be. assert (H := be_bytes_fold d 0 ltac:(lia) Hb). assert (Hn : length d = 2%nat) by (unfold len in Hl; lia). rewrite Hn in H. split; [done|].
  assert (Hbd := fold_bytes_bound d 0 ltac:(lia) Hb). rewrite Hl in Hbd. exact Hbd.
Qed.

Definition is_address (v : list Z) (pa : PreferredAddress) : Prop := address_wf pa /\ v = address_value pa.

Lemma address_walk v : bytes v -> len v <= U64_MAX -> reads_whole is_address v (address_reads (new_reader v)).
Proof.
  intros Hb Hu. destruct (bytes_reader_ok v Hb Hu) as [Hr Hl]. unfold address_reads. set (t := TpError "preferred_address is cut short"). set (V := reads_whole is_address v).
  apply (walk t _ _ _ V _ (reads_bytes t TpFault 4 ltac:(lia)) Hr); [done|]. intros ? v4 H1 [-> L1] Hr1. rewrite array_run by done. rewrite Hl in H1.
  apply (walk t _ _ _ V _ (reads_bytes t TpFault 2 ltac:(lia)) Hr1); [done|]. intros ? p4 H2 [-> L2] Hr2. rewrite array_run by done. rewrite H2 in H1.
  apply (walk t _ _ _ V _ (reads_bytes t TpFault 16 ltac:(lia)) Hr2); [done|]. intros ? v6 H3 [-> L3] Hr3. rewrite array_run by done. rewrite H3 in H1.
  apply (walk t _ _ _ V _ (reads_bytes t TpFault 2 ltac:(lia)) Hr3); [done|]. intros ? p6 H4 [-> L4] Hr4. rewrite array_run by done. rewrite H4 in H1.
  apply (walk t _ _ _ V _ (reads_u8 t TpFault) Hr4); [done|]. intros ? n H5 -> Hr5. rewrite H5 in H1. assert (Hv := Hb). rewrite H1, !bytes_app in Hv. destruct Hv as (B1 & B2 & B3 & B4 & B5 & B6).
  assert (Hn : byte n) by (apply B5; left). unfold byte in Hn. destruct ((n =? 0) || (MAX_CID_LEN <? n)) eqn:Hg; [done|].
  apply orb_false_iff in Hg as [Hg1%Z.eqb_neq Hg2%Z.ltb_ge].
  apply (walk t _ _ _ V _ (reads_bytes t TpFault n (proj1 Hn)) Hr5); [done|]. intros ? c H6 [-> L6] Hr6. rewrite H6 in H1, B6. apply bytes_app in B6 as [B6 B7].
  apply (walk t _ _ _ V _ (reads_bytes t TpFault 16 ltac:(lia)) Hr6); [done|]. intros ? tk H7 [-> L7] Hr7. rewrite array_run by done. rewrite H7 in H1, B7. apply bytes_app in B7 as [B7 _].
  rewrite (stx_ok xget _ _ _ _ eq_refl). rewrite at_end_left by done. case_bool_decide as E; [|done]. cbn. rewrite E, app_nil_r in H1.
  destruct (port_bytes p4 B2 L2) as [P2 R2]. destruct (port_bytes p6 B4 L4) as [P4 R4]. split.
  - split; cbn; try done. split; [done|lia].
  - unfold address_value. cbn [fst snd ipv4 ipv6 pa_connection_id pa_stateless_reset_token]. rewrite P2, P4, land_255, L6, Z.mod_small by lia. exact H1.
Qed.

Lemma read_address_ok v pa : bytes v -> len v <= U64_MAX -> read_address v = Ok pa <-> is_address v pa.
Proof.
  intros Hb Hu. split.
  - intros H. assert (Hw := address_walk v Hb Hu). unfold reads_whole in Hw. fold (read_address v) in Hw. by rewrite H in Hw.
  - intros [Hpa Hv]. destruct (bytes_reader_ok v Hb Hu) as [Hr Hl]. destruct Hpa as [[_ L4] P4 [_ L6] P6 [_ LI] [_ LT]]. rewrite Hv in Hl at 2. unfold address_value in Hl.
    assert (Hi : Z.land (len (pa_connection_id pa)) 255 = len (pa_connection_id pa)) by (rewrite land_255; unfold MAX_CID_LEN in LI; apply Z.mod_small; lia). rewrite Hi in Hl.
    rewrite <- (app_nil_r (pa_stateless_reset_token pa)) in Hl. unfold read_address, address_reads. set (t := TpError "preferred_address is cut short").
    run_next (short (read_bytes 4)) (fst (ipv4 pa)) (fst (ipv4 pa)) (reads_bytes t TpFault 4 ltac:(lia)). rewrite array_run by done.
    run_next (short (read_bytes 2)) (be_bytes 2 (snd (ipv4 pa))) (be_bytes 2 (snd (ipv4 pa))) (reads_bytes t TpFault 2 ltac:(lia)). rewrite array_run by done.
    run_next (short (read_bytes 16)) (fst (ipv6 pa)) (fst (ipv6 pa)) (reads_bytes t TpFault 16 ltac:(lia)). rewrite array_run by done.
    run_next (short (read_bytes 2)) (be_bytes 2 (snd (ipv6 pa))) (be_bytes 2 (snd (ipv6 pa))) (reads_bytes t TpFault 2 ltac:(lia)). rewrite array_run by done.
    run_next (short read_u8) [len (pa_connection_id pa)] (len (pa_connection_id pa)) (reads_u8 t TpFault).
    rewrite (proj2 (Z.eqb_neq _ _)), (proj2 (Z.ltb_ge _ _)) by lia. cbn [orb].
    run_next (short (read_bytes (len (pa_connection_id pa)))) (pa_connection_id pa) (pa_connection_id pa) (reads_bytes t TpFault (len (pa_connection_id pa)) (len_nonneg _)).
    run_next (short (read_bytes 16)) (pa_stateless_reset_token pa) (pa_stateless_reset_token pa) (reads_bytes t TpFault 16 ltac:(lia)). rewrite array_run by done.
    rewrite (stx_ok xget _ _ _ _ eq_refl). rewrite at_end_left by done. rewrite Hl0, !from_be_be by lia. cbn [negb]. rewrite bool_decide_eq_true_2 by done. cbn [negb]. destruct pa as [[a p] [a' p'] c tk]. cbn in *.
    rewrite !Z.mod_small by lia. done.
Qed.

Lemma address_of_value pa : address_wf pa -> address_of (address_value pa) = pa.
Proof.
  intros [[_ L4] P4 [_ L6] P6 [_ LI] [_ LT]]. destruct pa as [[a p] [a' p'] c tk]. cbn in L4, P4, L6, P6, LI, LT. unfold address_of, address_value. cbn [fst snd ipv4 ipv6 pa_connection_id pa_stateless_reset_token].
  assert (La : length a = 4%nat) by (unfold len in L4; lia). assert (La' : length a' = 16%nat) by (unfold len in L6; lia). assert (Lt : length tk = 16%nat) by (unfold len in LT; lia).
  do 4 (destruct a as [|? a]; [done|]). destruct a; [|done]. do 16 (destruct a' as [|? a']; [done|]). destruct a'; [|done].
  assert (Hp : forall q, 0 <= q < 2 ^ 16 -> exists x y, be_bytes 2 q = [x; y] /\ from_be [x; y] = q).
  { intros q Hq. assert (Hf := from_be_be 2 q ltac:(lia)). eexists _, _. split; [reflexivity|]. rewrite Z.mod_small in Hf by lia. exact Hf. }
  destruct (Hp p P4) as (x & y & -> & Hxy), (Hp p' P6) as (x' & y' & -> & Hxy'). cbn [app take drop length]. rewrite Hxy, Hxy'.
  rewrite length_app, Lt. f_equal.
  - replace (_ - 41)%nat with (length c) by lia. apply take_app_length.
  - replace (_ - 16)%nat with (25 + length c)%nat by lia. apply drop_app_length.
Qed.

(** ** What one parameter does *)

Lemma filter_snoc (f : Z * list Z -> bool) l x : List.filter f (l ++ [x]) = List.filter f l ++ (if f x then [x] else []).
Proof. induction l as [|y l IH]; simpl; [done|]. rewrite IH. by destruct (f y). Qed.

(** The fields after one more parameter, its id known by evaluation. *)
Ltac one_more :=
  unfold meaning, num; rewrite ?given_snoc, ?filter_snoc; cbn; rewrite ?app_nil_r; repeat match goal with H : num_of _ = _ |- _ => rewrite H; clear H end; try reflexivity.

(** What [apply] should do for a parameter of the list. *)
Definition applies (sender : Sender) (l : list (Z * list Z)) (x : Z * list Z) (res : result Error TransportParameters) : Prop :=
  match res with
  | Ok p => acceptable sender x /\ p = meaning (l ++ [x])
  | Err (TpError _) => ~ acceptable sender x
  | Err (TpFault _) => False
  end.

Section Apply.
Context (sender : Sender) (l : list (Z * list Z)) (pid : Z) (v : list Z).
Hypothesis (Hb : bytes v) (Hu : len v <= U64_MAX).

(** A number within bounds. *)
Lemma applies_number lo hi (bad : Z -> bool) what set_ :
  kind_of pid = KNumber lo hi ->
  (forall n, 0 <= n <= MAX_VARINT -> bad n = false <-> lo <= n <= hi) ->
  (forall n, num_of v = n -> lo <= n <= hi -> set_ n (meaning l) = meaning (l ++ [(pid, v)])) ->
  applies sender l (pid, v) (n ← number v; if bad n then Err (TpError what) else mret (set_ n (meaning l))).
Proof.
  intros Hk Hbad Hset. unfold applies, acceptable. cbn [fst snd]. rewrite Hk. destruct (number_cases v Hb Hu) as [(n & -> & Hv & Hn & Hr)|[[w ->] Hno]].
  - cbn. specialize (Hbad n Hr). destruct (bad n) eqn:E.
    + intros (n' & Hv' & Hn'). assert (n' = n) as ->; [|by apply Hbad in Hn'].
      assert (G := varint_of_get v n [] Hv). rewrite (varint_of_get v n' [] Hv') in G. by injection G.
    + assert (lo <= n <= hi) by by apply Hbad. split; [by exists n|]. by apply Hset.
  - cbn. intros (n & Hn & _). by destruct (Hno n).
Qed.

(** The same where any number will do. *)
Lemma applies_any set_ :
  kind_of pid = KNumber 0 MAX_VARINT -> (forall n, num_of v = n -> 0 <= n <= MAX_VARINT -> set_ n (meaning l) = meaning (l ++ [(pid, v)])) ->
  applies sender l (pid, v) (n ← number v; mret (set_ n (meaning l))).
Proof. intros Hk Hset. apply (applies_number 0 MAX_VARINT (fun _ => false) "" set_); [done|intros n Hn; tauto|done]. Qed.

Lemma applies_id server set_ :
  kind_of pid = KId server -> set_ v (meaning l) = meaning (l ++ [(pid, v)]) ->
  applies sender l (pid, v) (_ ← (if server then server_only sender else mret tt); c ← connection_id v; mret (set_ c (meaning l))).
Proof.
  intros Hk Hset. unfold applies, acceptable, connection_id. cbn [fst snd]. rewrite Hk. destruct server, sender; cbn; try (intros [H _]; discriminate (H eq_refl));
    (destruct (Z.ltb_spec MAX_CID_LEN (len v)); cbn; [intros [_ H']; lia|done]).
Qed.
End Apply.

Lemma applies_apply sender l pid v : bytes v -> len v <= U64_MAX -> applies sender l (pid, v) (apply sender (meaning l) pid v).
Proof.
  intros Hb Hu. unfold apply.
  destruct (Z.eqb_spec pid id.ORIGINAL_DESTINATION_CONNECTION_ID) as [->|H0]; [apply (applies_id sender l _ v true (fun c => set_original_destination_connection_id (Some c))); [done|one_more]|].
  destruct (Z.eqb_spec pid id.MAX_IDLE_TIMEOUT) as [->|H1]; [apply applies_any; try done; intros n Hn _; one_more|].
  destruct (Z.eqb_spec pid id.STATELESS_RESET_TOKEN) as [->|H2].
  { unfold applies, acceptable. cbn. destruct sender; cbn; [by intros [? _]|]. destruct (Z.eqb_spec (len v) 16); cbn; [|by intros [_ ?]]. split; [done|one_more]. }
  destruct (Z.eqb_spec pid id.MAX_UDP_PAYLOAD_SIZE) as [->|H3]; [eapply applies_number; try done; [intros n Hn; cbn beta; rewrite Z.ltb_ge; unfold MIN_UDP_PAYLOAD_SIZE; lia|intros n Hn _; one_more]|].
  destruct (Z.eqb_spec pid id.INITIAL_MAX_DATA) as [->|H4]; [apply applies_any; try done; intros n Hn _; one_more|].
  destruct (Z.eqb_spec pid id.INITIAL_MAX_STREAM_DATA_BIDI_LOCAL) as [->|H5]; [apply applies_any; try done; intros n Hn _; one_more|].
  destruct (Z.eqb_spec pid id.INITIAL_MAX_STREAM_DATA_BIDI_REMOTE) as [->|H6]; [apply applies_any; try done; intros n Hn _; one_more|].
  destruct (Z.eqb_spec pid id.INITIAL_MAX_STREAM_DATA_UNI) as [->|H7]; [apply applies_any; try done; intros n Hn _; one_more|].
  destruct (Z.eqb_spec pid id.INITIAL_MAX_STREAMS_BIDI) as [->|H8]; [eapply applies_number; try done; [intros n Hn; cbn beta; rewrite Z.ltb_ge; change MAX_STREAMS_LIMIT with (2 ^ 60); lia|intros n Hn _; one_more]|].
  destruct (Z.eqb_spec pid id.INITIAL_MAX_STREAMS_UNI) as [->|H9]; [eapply applies_number; try done; [intros n Hn; cbn beta; rewrite Z.ltb_ge; change MAX_STREAMS_LIMIT with (2 ^ 60); lia|intros n Hn _; one_more]|].
  destruct (Z.eqb_spec pid id.ACK_DELAY_EXPONENT) as [->|H10].
  { apply (applies_number sender l _ v Hb Hu 0 20 (fun n => MAX_ACK_DELAY_EXPONENT <? n) _ (fun n => set_ack_delay_exponent (Z.land n 255))); [done|intros n Hn; rewrite Z.ltb_ge; unfold MAX_ACK_DELAY_EXPONENT; lia|].
    intros n Hn H20. rewrite land_255, Z.mod_small by lia. one_more. }
  destruct (Z.eqb_spec pid id.MAX_ACK_DELAY) as [->|H11]; [eapply applies_number; try done; [intros n Hn; cbn beta; rewrite Z.leb_gt; change MAX_ACK_DELAY_LIMIT with (2 ^ 14); lia|intros n Hn _; one_more]|].
  destruct (Z.eqb_spec pid id.DISABLE_ACTIVE_MIGRATION) as [->|H12].
  { unfold applies, acceptable. cbn. destruct (Z.eqb_spec (len v) 0) as [E|E]; cbn; [|intros ->; done]. split; [by apply len_nil|]. apply len_nil in E as ->. one_more. }
  destruct (Z.eqb_spec pid id.PREFERRED_ADDRESS) as [->|H13].
  { unfold applies, acceptable. cbn. destruct sender; cbn; [by intros [? _]|]. assert (Hr := fun pa => read_address_ok v pa Hb Hu). assert (Hw := address_walk v Hb Hu).
    unfold reads_whole in Hw. fold (read_address v) in Hw. destruct (read_address v) as [pa|[w|f]]; cbn; [| |done].
    - split; [split; [done|by exists pa]|]. destruct Hw as [Hw ->]. unfold meaning, num. rewrite !given_snoc, filter_snoc. cbn. rewrite app_nil_r, address_of_value by done. done.
    - intros [_ (pa & Hpa)]. apply Hr in Hpa. done. }
  destruct (Z.eqb_spec pid id.ACTIVE_CONNECTION_ID_LIMIT) as [->|H14]; [eapply applies_number; try done; [intros n Hn; cbn beta; rewrite Z.ltb_ge; lia|intros n Hn _; one_more]|].
  destruct (Z.eqb_spec pid id.INITIAL_SOURCE_CONNECTION_ID) as [->|H15]; [apply (applies_id sender l _ v false (fun c => set_initial_source_connection_id (Some c))); [done|one_more]|].
  destruct (Z.eqb_spec pid id.RETRY_SOURCE_CONNECTION_ID) as [->|H16]; [apply (applies_id sender l _ v true (fun c => set_retry_source_connection_id (Some c))); [done|one_more]|].
  destruct (Z.eqb_spec pid id.MAX_DATAGRAM_FRAME_SIZE) as [->|H17]; [apply (applies_any sender l _ v Hb Hu (fun n => set_max_datagram_frame_size (Some n))); [done|intros n Hn _; one_more]|].
  assert (Hk : kind_of pid = KUnknown).
  { unfold kind_of. rewrite !(proj2 (Z.eqb_neq pid _)) by assumption. destruct (Z.leb_spec 4 pid) as [Hlo|], (Z.leb_spec pid 7) as [Hhi|]; try done. exfalso.
    assert (pid = 4 \/ pid = 5 \/ pid = 6 \/ pid = 7) as [E|[E|[E|E]]] by (clear -Hlo Hhi; lia); [by apply H4|by apply H5|by apply H6|by apply H7]. }
  unfold applies, acceptable. cbn [mret result_ret fst snd]. rewrite Hk. split; [done|]. assert (Hx : unknown_id (pid, v) = true) by (unfold unknown_id; cbn [fst]; by rewrite Hk).
  unfold meaning, num. rewrite !given_snoc, filter_snoc, Hx.
  rewrite !(proj2 (Z.eqb_neq pid _)) by assumption. done.
Qed.

(** ** The loop *)

(** What the loop gives, after the parameters [l0]. *)
Definition loop_spec (sender : Sender) (l0 : list (Z * list Z)) (b : list Z) (x : result Error (TransportParameters * list Z) * Reader) : Prop :=
  match fst x with
  | Ok q => exists l, is_params b l /\ Forall (acceptable sender) l /\ q = (meaning (l0 ++ l), (l0 ++ l).*1)
  | Err (TpError _) => True
  | Err (TpFault _) => False
  end.

Lemma left_whole r v rest : reader_ok r -> left_ r = v ++ rest -> bytes v /\ len v <= U64_MAX.
Proof.
  intros Hr Hl. split; [intros b Hb; apply (left_bytes r b Hr); rewrite Hl; apply elem_of_app; by left|].
  assert (H := left_len r Hr). rewrite Hl, len_app in H. pose proof (len_nonneg rest). destruct (rd_pos _ Hr). pose proof (rd_len _ Hr). lia.
Qed.

Lemma varint_of_pos e v : varint_of e v -> 1 <= len e.
Proof. intros (t & [[_ H]|[[_ H]|[[_ H]|[_ H]]]] & _); rewrite H; lia. Qed.

Lemma xres_ok {E A B} (a : A) (k : A -> stx Reader E B) r : (xres (Ok a) ≫= k) r = k a r.
Proof. done. Qed.

Lemma loop_walk sender fuel : forall l0 r, reader_ok r -> (length (left_ r) < fuel)%nat ->
  loop_spec sender l0 (left_ r) (decode_loop fuel sender (meaning l0) (l0.*1) r).
Proof.
  induction fuel as [|fuel IH]; intros l0 r Hr Hf; [lia|]. cbn [decode_loop]. rewrite (stx_ok xget _ _ r _ eq_refl). rewrite at_end_left by done.
  set (V := loop_spec sender l0 (left_ r)). case_bool_decide as E.
  { unfold V, loop_spec. cbn. exists []. rewrite E, app_nil_r. split; [constructor|done]. }
  apply (walk (TpError "an id that is cut short") _ _ _ V _ (reads_varint _ TpFault) Hr); [done|]. intros e1 pid H1 Hpid Hr1.
  apply (walk (TpError "a length that is cut short") _ _ _ V _ (reads_varint _ TpFault) Hr1); [done|]. intros e2 n H2 Hn Hr2.
  assert (Hn0 : 0 <= n) by (destruct Hn as (t & _ & Hn & _); lia).
  apply (walk (TpError "a parameter longer than what is left") _ _ _ V _ (reads_bytes _ TpFault n Hn0) Hr2); [done|]. intros ? v H3 [-> Lv] Hr3.
  rewrite H3 in H2. rewrite H2 in H1. destruct (left_whole _ v _ Hr2 H3) as [Hb Hu]. assert (Ha := applies_apply sender l0 pid v Hb Hu). unfold applies in Ha.
  destruct (apply sender (meaning l0) pid v) as [p|[w|f]]; [|done|done]. destruct Ha as [Ha ->]. rewrite xres_ok.
  specialize (IH (l0 ++ [(pid, v)]) _ Hr3). rewrite fmap_app in IH. cbn [fmap list_fmap fst] in IH.
  match type of IH with ?A -> _ => assert A as Hlen end.
  { apply (f_equal length) in H1. rewrite !length_app in H1. apply varint_of_pos in Hpid. unfold len in Hpid. lia. }
  specialize (IH Hlen). unfold loop_spec in IH. unfold V, loop_spec. destruct (fst _) as [q|e]; [|done]. destruct IH as (l & Hl & Hacc & ->).
  exists ((pid, v) :: l). rewrite <- app_assoc. split; [|split; [by constructor|done]]. rewrite H1. constructor; [done|by rewrite Lv|done].
Qed.

Lemma loop_run sender l : forall fuel l0 r, reader_ok r -> (length (left_ r) < fuel)%nat -> is_params (left_ r) l -> Forall (acceptable sender) l ->
  fst (decode_loop fuel sender (meaning l0) (l0.*1) r) = Ok (meaning (l0 ++ l), (l0 ++ l).*1).
Proof.
  induction l as [|[pid v] l IH]; intros fuel l0 r Hr Hf Hp Ha; destruct fuel as [|fuel]; [lia| |lia|];
    cbn [decode_loop]; rewrite (stx_ok xget _ _ r _ eq_refl); rewrite at_end_left by done; inversion Hp as [Hl|e1 e2 ? ? rest ? H1 H2 H3 Hl]; subst.
  { case_bool_decide as E; [cbn; by rewrite app_nil_r|by destruct E]. }
  symmetry in Hl. pose proof (varint_of_pos _ _ H1) as H0. case_bool_decide as E; [apply (f_equal length) in E; rewrite length_app in E; unfold len in H0; simpl in E; lia|].
  rewrite (takes_run (or_err _ read_varint) _ e1 pid r _ (ra_takes _ _ _ (reads_varint _ _) _ _ H1) Hr Hl). destruct (left_app r e1 _ Hr Hl) as [Hr1 Hl1].
  rewrite (takes_run (or_err _ read_varint) _ e2 (len v) _ _ (ra_takes _ _ _ (reads_varint _ _) _ _ H2) Hr1 Hl1). destruct (left_app _ e2 _ Hr1 Hl1) as [Hr2 Hl2].
  rewrite (takes_run (or_err _ (read_bytes (len v))) _ v v _ _ (ra_takes _ _ _ (reads_bytes _ _ _ (len_nonneg v)) _ _ (conj eq_refl eq_refl)) Hr2 Hl2). destruct (left_app _ v _ Hr2 Hl2) as [Hr3 Hl3].
  destruct (left_whole _ v _ Hr2 Hl2) as [Hb Hu]. assert (Hap := applies_apply sender l0 pid v Hb Hu). unfold applies in Hap. apply Forall_cons in Ha as [Ha1 Ha2].
  destruct (apply sender (meaning l0) pid v) as [p|[w|f]]; [|done|done]. destruct Hap as [_ ->]. rewrite xres_ok.
  specialize (IH fuel (l0 ++ [(pid, v)]) _ Hr3). rewrite fmap_app, Hl3, <- app_assoc in IH. apply IH; [|done|done].
  apply (f_equal length) in Hl. rewrite !length_app in Hl. unfold len in H0. lia.
Qed.

(** ** The whole *)

Lemma any_equal_sorted l : Sorted Z.le l -> any_equal l = false <-> NoDup l.
Proof.
  intros Hs. apply Sorted_StronglySorted in Hs; [|intros ? ? ?; lia]. induction Hs as [|a l Hs IH Hall]; [split; [constructor|done]|].
  destruct l as [|b l]; [split; [intros _; apply NoDup_singleton|done]|]. change (any_equal (a :: b :: l)) with ((a =? b) || any_equal (b :: l)).
  rewrite orb_false_iff, IH, (NoDup_cons a), Z.eqb_neq. apply Forall_cons in Hall as [Hab Hall]. split.
  - intros [Hne Hnd]. split; [|done]. intros [E|Hin]%elem_of_cons; [done|]. inversion Hs as [|? ? _ Hb]. subst. rewrite Forall_forall in Hb. specialize (Hb a Hin). lia.
  - intros [Hni Hnd]. split; [|done]. intros ->. apply Hni. left.
Qed.

Lemma sort_any_equal l : any_equal (merge_sort Z.le l) = false <-> NoDup l.
Proof.
  assert (Total Z.le) by (intros x y; lia). rewrite any_equal_sorted by (apply Sorted_merge_sort; done). by rewrite merge_sort_Permutation.
Qed.

Lemma given_in pid l : is_Some (given pid l) <-> pid ∈ l.*1.
Proof.
  induction l as [|[k v] l IH] using rev_ind; [split; [by intros [? ?]|intros H; by apply elem_of_nil in H]|]. rewrite given_snoc, fmap_app, elem_of_app. cbn.
  rewrite list_elem_of_singleton. destruct (Z.eqb_spec k pid) as [->|Hne]; [split; [by right|by eexists]|]. rewrite IH. split; [by left|]. intros [?|?]; [done|congruence].
Qed.

(** The parameters of a sender as RFC 9000 has them. *)
Definition proper (sender : Sender) (l : list (Z * list Z)) : Prop :=
  NoDup l.*1 /\ Forall (acceptable sender) l /\ (sender = Server -> 0 ∈ l.*1) /\ 15 ∈ l.*1.

Lemma checks_exact sender l :
  (forall p, decode_checks sender (meaning l) l.*1 = Ok p <-> p = meaning l /\ (sender = Server -> 0 ∈ l.*1) /\ 15 ∈ l.*1 /\ NoDup l.*1) /\
  (forall f, decode_checks sender (meaning l) l.*1 <> Err (TpFault f)).
Proof.
  unfold decode_checks. assert (H0 := given_in 0 l). assert (H15 := given_in 15 l). assert (Hd := sort_any_equal l.*1).
  change (original_destination_connection_id (meaning l)) with (given 0 l). change (initial_source_connection_id (meaning l)) with (given 15 l).
  destruct sender; cbn [andb]; repeat case_bool_decide; cbn [negb]; destruct (any_equal _) eqn:E; unfold mret, result_ret; (split; intros p; [|congruence]); naive_solver.
Qed.

Lemma decode_exact data sender : bytes data -> len data <= U64_MAX ->
  (forall p, decode data sender = Ok p <-> exists l, is_params data l /\ proper sender l /\ p = meaning l) /\ (forall f, decode data sender <> Err (TpFault f)).
Proof.
  intros Hb Hu. destruct (bytes_reader_ok data Hb Hu) as [Hr Hl]. assert (Hlen : (length (left_ (new_reader data)) < S (length data))%nat) by (rewrite Hl; lia).
  assert (Hw := loop_walk sender (S (length data)) [] (new_reader data) Hr Hlen). assert (Hrun := fun l => loop_run sender l (S (length data)) [] (new_reader data) Hr Hlen).
  rewrite Hl in Hw, Hrun. unfold loop_spec in Hw. cbn [fmap list_fmap app] in Hw, Hrun. rewrite meaning_nil in Hw, Hrun. unfold decode. split.
  - intros p. split.
    + intros H. destruct (fst (decode_loop _ _ _ _ _)) as [q|e]; [|done]. destruct Hw as (l & Hp & Ha & ->). cbn in H. apply checks_exact in H as (-> & H1 & H2 & H3). by exists l.
    + intros (l & Hp & (Hn & Ha & H0 & H15) & ->). rewrite (Hrun l Hp Ha). cbn. by apply checks_exact.
  - intros f. destruct (fst (decode_loop _ _ _ _ _)) as [q|[w|g]]; [|done|done]. destruct Hw as (l & _ & _ & ->). cbn. apply checks_exact.
Qed.

(** ** Writing *)

Definition server_side {A} (sender : Sender) (o : option A) : option A := match sender with Server => o | Client => None end.

(** A number, unless it is the default. *)
Definition not_default (d v : Z) : option (list Z) := unless (v =? d) (venc v).

(** The parameters that [encode] writes, but the unknown ones. *)
Definition table (sender : Sender) (p : TransportParameters) : list (Z * option (list Z)) :=
  [(0, server_side sender (original_destination_connection_id p)); (1, not_default 0 (max_idle_timeout p)); (2, server_side sender (stateless_reset_token p));
   (3, not_default DEFAULT_MAX_UDP_PAYLOAD_SIZE (max_udp_payload_size p)); (4, not_default 0 (initial_max_data p)); (5, not_default 0 (initial_max_stream_data_bidi_local p));
   (6, not_default 0 (initial_max_stream_data_bidi_remote p)); (7, not_default 0 (initial_max_stream_data_uni p)); (8, not_default 0 (initial_max_streams_bidi p));
   (9, not_default 0 (initial_max_streams_uni p)); (10, not_default DEFAULT_ACK_DELAY_EXPONENT (ack_delay_exponent p)); (11, not_default DEFAULT_MAX_ACK_DELAY (max_ack_delay p));
   (12, unless (negb (disable_active_migration p)) []); (13, address_value <$> server_side sender (preferred_address p));
   (14, not_default DEFAULT_ACTIVE_CONNECTION_ID_LIMIT (active_connection_id_limit p)); (15, initial_source_connection_id p);
   (16, server_side sender (retry_source_connection_id p)); (32, venc <$> max_datagram_frame_size p)].

Definition present (t : list (Z * option (list Z))) : list (Z * list Z) := omap (fun x => pair (fst x) <$> snd x) t.

Definition params_of (sender : Sender) (p : TransportParameters) : list (Z * list Z) := present (table sender p) ++ unknown p.

Definition param_bytes (x : Z * list Z) : list Z := venc (fst x) ++ prefixed (snd x).

Definition params_bytes (l : list (Z * list Z)) : list Z := concat (param_bytes <$> l).

Definition id_ok (o : option (list Z)) : Prop := forall v, o = Some v -> bytes v /\ len v <= MAX_CID_LEN.

(** The parameters that may be sent. *)
Record params_wf (sender : Sender) (p : TransportParameters) : Prop := mk_params_wf {
  pw_original : id_ok (original_destination_connection_id p);
  pw_idle : field (max_idle_timeout p);
  pw_token : forall v, stateless_reset_token p = Some v -> bytes v /\ len v = 16;
  pw_udp : 1200 <= max_udp_payload_size p <= MAX_VARINT;
  pw_data : field (initial_max_data p);
  pw_local : field (initial_max_stream_data_bidi_local p);
  pw_remote : field (initial_max_stream_data_bidi_remote p);
  pw_uni : field (initial_max_stream_data_uni p);
  pw_streams_bidi : 0 <= initial_max_streams_bidi p <= 2 ^ 60;
  pw_streams_uni : 0 <= initial_max_streams_uni p <= 2 ^ 60;
  pw_exponent : 0 <= ack_delay_exponent p <= 20;
  pw_delay : 0 <= max_ack_delay p < 2 ^ 14;
  pw_address : forall pa, preferred_address p = Some pa -> address_wf pa;
  pw_limit : 2 <= active_connection_id_limit p <= MAX_VARINT;
  pw_source : id_ok (initial_source_connection_id p);
  pw_retry : id_ok (retry_source_connection_id p);
  pw_datagram : forall n, max_datagram_frame_size p = Some n -> field n;
  pw_unknown : Forall (fun x => field (fst x) /\ octets (snd x) /\ unknown_id x = true) (unknown p) /\ NoDup (unknown p).*1;
  pw_required : is_Some (initial_source_connection_id p) /\ (sender = Server -> is_Some (original_destination_connection_id p));
}.

(** What the peer sees of them: a client sends none of a server's. *)
Definition visible (sender : Sender) (p : TransportParameters) : TransportParameters :=
  match sender with
  | Server => p
  | Client => set_original_destination_connection_id None (set_stateless_reset_token None (set_preferred_address None (set_retry_source_connection_id None p)))
  end.

Lemma params_bytes_app l1 l2 : params_bytes (l1 ++ l2) = params_bytes l1 ++ params_bytes l2.
Proof. unfold params_bytes. by rewrite fmap_app, concat_app. Qed.

Lemma put_varint_venc out v : field v -> put_varint out v = Some (out ++ venc v).
Proof. intros Hv. destruct (venc_ok v Hv) as (n & _ & _ & _ & Hp & _). apply Hp. Qed.

Lemma venc_octets v : field v -> octets (venc v).
Proof. intros Hv. destruct (venc_ok v Hv) as (n & _ & Hl & Hn & _ & _ & Hb). split; [exact Hb|]. unfold MAX_VARINT. rewrite Hl. change (Z.shiftl 1 62) with 4611686018427387904. lia. Qed.

Lemma put_bytes_ok out pid v : field pid -> octets v -> put_bytes out pid v = Some (out ++ param_bytes (pid, v)).
Proof.
  intros Hp Hv. unfold put_bytes, param_bytes, prefixed. rewrite put_varint_venc by done. cbn [mbind option_bind]. rewrite put_varint_venc by by apply len_field.
  cbn [mbind option_bind fst snd]. by rewrite <- !app_assoc.
Qed.

Lemma put_number_ok out pid v : field pid -> field v -> put_number out pid v = Some (out ++ param_bytes (pid, venc v)).
Proof.
  intros Hp Hv. rewrite <- put_bytes_ok by (done || by apply venc_octets). unfold put_number, put_bytes. rewrite !put_varint_venc by done. cbn [mbind option_bind].
  rewrite varint_len_venc by done. cbn [mbind option_bind]. rewrite !put_varint_venc by (try apply len_field, venc_octets; done). cbn [mbind option_bind]. by rewrite put_varint_venc.
Qed.

(** One optional parameter. *)
Definition opt (pid : Z) (o : option (list Z)) : list (Z * list Z) := match o with Some v => [(pid, v)] | None => [] end.

Lemma params_bytes_opt out pid o : out ++ params_bytes (opt pid o) = match o with Some v => out ++ param_bytes (pid, v) | None => out end.
Proof. destruct o; cbn; by rewrite ?app_nil_r. Qed.

Lemma put_if_bytes out pid o : field pid -> (forall v, o = Some v -> octets v) -> put_if (fun out v => put_bytes out pid v) o out = Some (out ++ params_bytes (opt pid o)).
Proof. intros Hp Hv. rewrite params_bytes_opt. destruct o as [v|]; [|done]. cbn. by apply put_bytes_ok; [|apply Hv]. Qed.

Lemma put_if_number out pid d v : field pid -> field v -> put_if (fun out v => put_number out pid v) (unless (v =? d) v) out = Some (out ++ params_bytes (opt pid (not_default d v))).
Proof. intros Hp Hv. rewrite params_bytes_opt. unfold not_default, unless. destruct (v =? d); [done|]. cbn. by apply put_number_ok. Qed.

Lemma put_unknown l : forall out, Forall (fun x => field (fst x) /\ octets (snd x) /\ unknown_id x = true) l ->
  foldl (fun out x => out ← out; put_bytes out (fst x) (snd x)) (Some out) l = Some (out ++ params_bytes l).
Proof.
  induction l as [|x l IH]; intros out Hl; [cbn; by rewrite app_nil_r|]. apply Forall_cons in Hl as [(H1 & H2 & _) Hl]. cbn [foldl mbind option_bind].
  rewrite put_bytes_ok by done. rewrite IH by done. unfold params_bytes. rewrite fmap_cons. cbn [concat]. rewrite <- app_assoc. by destruct x.
Qed.

Lemma id_octets sender o v : id_ok o -> server_side sender o = Some v -> octets v.
Proof. intros Ho. destruct sender; cbn; [done|]. intros Hv. destruct (Ho v Hv) as [Hb Hl]. split; [done|]. change MAX_VARINT with 4611686018427387903. unfold MAX_CID_LEN in Hl. lia. Qed.

Lemma address_octets pa : address_wf pa -> octets (address_value pa).
Proof.
  intros [[B1 L1] _ [B2 L2] _ [B3 L3] [B4 L4]]. unfold address_value. split.
  - change (bytes (fst (ipv4 pa) ++ be_bytes 2 (snd (ipv4 pa)) ++ fst (ipv6 pa) ++ be_bytes 2 (snd (ipv6 pa)) ++ [Z.land (len (pa_connection_id pa)) 255] ++ pa_connection_id pa ++ pa_stateless_reset_token pa)).
    rewrite !bytes_app. assert (H1 := bytes_be 2 (snd (ipv4 pa))). assert (H2 := bytes_be 2 (snd (ipv6 pa))).
    assert (H3 : bytes [Z.land (len (pa_connection_id pa)) 255]) by (apply bytes_one; unfold byte; rewrite land_255; apply Z.mod_pos_bound; lia). tauto.
  - rewrite !len_app. assert (Hp : forall q, len (be_bytes 2 q) = 2) by done. rewrite !Hp. change (len [_]) with 1. change MAX_VARINT with 4611686018427387903. unfold MAX_CID_LEN in L3. lia.
Qed.

Lemma field_small n : 0 <= n <= 1152921504606846976 -> field n.
Proof. unfold field. change MAX_VARINT with 4611686018427387903. lia. Qed.

Lemma present_cons pid o t : present ((pid, o) :: t) = opt pid o ++ present t.
Proof. unfold present. cbn. by destruct o. Qed.

Lemma encode_ok sender p : params_wf sender p -> encode p sender = Some (params_bytes (params_of sender p)).
Proof.
  intros [W0 W1 W2 W3 W4 W5 W6 W7 W8 W9 W10 W11 W13 W14 W15 W16 W32 [WU _] _]. unfold encode. cbn zeta. fold (@server_side (list Z) sender). fold (@server_side PreferredAddress sender).
  assert (Hf : forall n, 0 <= n <= 32 -> field n) by (intros n Hn; apply field_small; lia). cbn [foldl fst snd].
  rewrite put_if_bytes by (try (apply Hf; by vm_compute); intros v; by apply id_octets). cbn [mbind option_bind].
  rewrite put_if_number by (done || (apply Hf; by vm_compute)). cbn [mbind option_bind].
  rewrite put_if_bytes; [|apply Hf; by vm_compute|]. 2: { intros v Hv. destruct sender; [done|]. destruct (W2 v Hv) as [Hb Hl]. split; [done|]. rewrite Hl. by vm_compute. }
  cbn [mbind option_bind]. rewrite put_if_number by ((apply Hf; by vm_compute) || (split; lia)). cbn [mbind option_bind].
  do 6 (rewrite put_if_number by ((apply Hf; by vm_compute) || done || (apply field_small; lia)); cbn [mbind option_bind]).
  do 2 (rewrite put_if_number by ((apply Hf; by vm_compute) || (apply field_small; lia)); cbn [mbind option_bind]).
  rewrite put_if_bytes; [|apply Hf; by vm_compute|]. 2: { intros v Hv. unfold unless in Hv. destruct (negb _); [done|]. injection Hv as <-. split; [intros b Hb; by apply elem_of_nil in Hb|by vm_compute]. }
  cbn [mbind option_bind].
  assert (Ha : forall out, put_if (fun out pa => put_bytes out id.PREFERRED_ADDRESS (address_value pa)) (server_side sender (preferred_address p)) out =
    Some (out ++ params_bytes (opt 13 (address_value <$> server_side sender (preferred_address p))))).
  { intros out. rewrite params_bytes_opt. destruct sender; [done|]. cbn [server_side]. destruct (preferred_address p) as [pa|]; [|done]. cbn. apply put_bytes_ok; [apply Hf; lia|by apply address_octets, W13]. }
  rewrite Ha. cbn [mbind option_bind]. rewrite put_if_number by ((apply Hf; by vm_compute) || (split; lia)). cbn [mbind option_bind].
  rewrite put_if_bytes by (try (apply Hf; by vm_compute); intros v; by apply (id_octets Server)). cbn [mbind option_bind].
  rewrite put_if_bytes by (try (apply Hf; by vm_compute); intros v; by apply id_octets). cbn [mbind option_bind].
  assert (Hd : forall out, put_if (fun out v => put_number out id.MAX_DATAGRAM_FRAME_SIZE v) (max_datagram_frame_size p) out = Some (out ++ params_bytes (opt 32 (venc <$> max_datagram_frame_size p)))).
  { intros out. rewrite params_bytes_opt. destruct (max_datagram_frame_size p) as [n|]; [|done]. cbn. apply put_number_ok; [apply Hf; lia|by apply W32]. }
  rewrite Hd. cbn [mbind option_bind]. rewrite put_unknown by done. f_equal. unfold params_of, table. rewrite !present_cons, !params_bytes_app. cbn [app].
  rewrite <- !app_assoc. done.
Qed.

(** ** What is written is proper and means what it was *)

Lemma find_none (pid : Z) l : ~ pid ∈ l.*1 -> given pid l = None.
Proof. intros Hn. destruct (given pid l) eqn:E; [|done]. exfalso. apply Hn, given_in. by rewrite E. Qed.

Lemma given_app pid l1 l2 : given pid (l1 ++ l2) = match given pid l2 with Some v => Some v | None => given pid l1 end.
Proof.
  induction l2 as [|[k v] l2 IH] using rev_ind; [by rewrite app_nil_r|]. rewrite app_assoc, !given_snoc. by destruct (k =? pid).
Qed.

Lemma present_ids t : sublist (present t).*1 t.*1.
Proof. induction t as [|[k o] t IH]; [constructor|]. rewrite present_cons. destruct o; cbn; by constructor. Qed.

Lemma given_present pid t : NoDup t.*1 -> given pid (present t) = match List.find (fun x => fst x =? pid) t with Some x => snd x | None => None end.
Proof.
  induction t as [|[k o] t IH]; intros Hn; [done|]. apply NoDup_cons in Hn as [Hni Hn]. rewrite present_cons, given_app, IH by done. cbn [List.find fst snd].
  assert (Hopt : given pid (opt k o) = if k =? pid then o else None) by (destruct o as [v|]; cbn; [unfold given; cbn; by destruct (k =? pid)|by destruct (k =? pid)]).
  rewrite Hopt. destruct (Z.eqb_spec k pid) as [->|Hne]; [|by destruct (match _ with Some _ => _ | None => None end)].
  destruct (List.find (fun x => fst x =? pid) t) as [[k' o']|] eqn:E; [|done]. exfalso. apply find_some in E as [Hin%list_elem_of_In E%Z.eqb_eq]. cbn in E. subst k'.
  apply Hni. apply list_elem_of_fmap. by exists (pid, o').
Qed.

Lemma table_ids sender p : (table sender p).*1 = [0; 1; 2; 3; 4; 5; 6; 7; 8; 9; 10; 11; 12; 13; 14; 15; 16; 32].
Proof. done. Qed.

Lemma table_nodup sender p : NoDup (table sender p).*1.
Proof. rewrite table_ids. apply (bool_decide_eq_true_1 _). by vm_compute. Qed.

Lemma unknown_not_known pid l : Forall (fun x => unknown_id x = true) l -> kind_of pid <> KUnknown -> ~ pid ∈ l.*1.
Proof.
  intros Hl Hk (x & -> & Hx)%list_elem_of_fmap. rewrite Forall_forall in Hl. specialize (Hl x Hx). unfold unknown_id in Hl. by destruct (kind_of x.1).
Qed.

Lemma num_of_venc v : field v -> num_of (venc v) = v.
Proof. intros Hv. destruct (venc_ok v Hv) as (n & _ & _ & _ & _ & Hg & _). specialize (Hg []). rewrite app_nil_r in Hg. unfold num_of. by rewrite Hg. Qed.

(** A number that is not sent has its default. *)
Lemma not_default_num d v : field v -> match not_default d v with Some e => num_of e | None => d end = v.
Proof. intros Hv. unfold not_default, unless. destruct (Z.eqb_spec v d) as [->|]; [done|by apply num_of_venc]. Qed.

Lemma is_params_bytes l : Forall (fun x => field (fst x) /\ octets (snd x)) l -> is_params (params_bytes l) l /\ bytes (params_bytes l).
Proof.
  induction l as [|[pid v] l IH]; intros Hl; [split; [constructor|intros b Hb; by apply elem_of_nil in Hb]|]. apply Forall_cons in Hl as [[H1 H2] Hl]. destruct (IH Hl) as [I1 I2]. cbn [fst snd] in *.
  assert (He : params_bytes ((pid, v) :: l) = venc pid ++ venc (len v) ++ v ++ params_bytes l) by (unfold params_bytes; rewrite fmap_cons; cbn [concat]; unfold param_bytes, prefixed; cbn [fst snd]; by rewrite <- !app_assoc).
  rewrite He. assert (Hv := len_field v H2). split; [constructor; [by apply varint_of_venc|by apply varint_of_venc|done]|]. rewrite !bytes_app.
  assert (B1 := proj1 (venc_octets pid H1)). assert (B2 := proj1 (venc_octets _ Hv)). split; [exact B1|]. split; [exact B2|]. split; [exact (proj1 H2)|done].
Qed.

Section Written.
Context (sender : Sender) (p : TransportParameters) (W : params_wf sender p).

Lemma unknown_ok : Forall (fun x => unknown_id x = true) (unknown p).
Proof. eapply Forall_impl; [exact (proj1 (pw_unknown _ _ W))|]. by intros y (_ & _ & ?). Qed.

Lemma given_written pid : kind_of pid <> KUnknown ->
  given pid (params_of sender p) = match List.find (fun x => fst x =? pid) (table sender p) with Some x => snd x | None => None end.
Proof.
  intros Hk. unfold params_of. rewrite given_app, (find_none pid (unknown p)) by (apply unknown_not_known; [apply unknown_ok|done]). apply given_present, table_nodup.
Qed.

Lemma written_meaning : meaning (params_of sender p) = visible sender p.
Proof.
  destruct W as [W0 W1 W2 W3 W4 W5 W6 W7 W8 W9 W10 W11 W13 W14 W15 W16 W32 [WU _] _]. unfold meaning, num. rewrite !given_written by done. cbn [List.find table fst snd Z.eqb Pos.eqb].
  rewrite !not_default_num by (done || (apply field_small; lia) || (split; lia)).
  assert (Hfl : bool_decide (is_Some (unless (negb (disable_active_migration p)) ([] : list Z))) = disable_active_migration p) by (destruct (disable_active_migration p); done).
  assert (Had : address_of <$> (address_value <$> server_side sender (preferred_address p)) = server_side sender (preferred_address p)).
  { destruct sender; [done|]. cbn. destruct (preferred_address p) as [pa|]; [|done]. cbn. by rewrite address_of_value by by apply W13. }
  assert (Hdg : num_of <$> (venc <$> max_datagram_frame_size p) = max_datagram_frame_size p).
  { destruct (max_datagram_frame_size p) as [n|]; [|done]. cbn. by rewrite num_of_venc by by apply W32. }
  assert (Hun : List.filter unknown_id (params_of sender p) = unknown p).
  { unfold params_of. rewrite List.filter_app. assert (H1 : forall l, Forall (fun x => unknown_id x = true) l -> List.filter unknown_id l = l).
    { intros l. induction 1 as [|x l Hx _ IH]; cbn; [done|]. by rewrite Hx, IH. }
    rewrite (H1 _ unknown_ok). assert (H2 : forall t, Forall (fun x => kind_of (fst x) <> KUnknown) t -> List.filter unknown_id (present t) = []).
    { intros t. induction 1 as [|[k o] t Hx _ IH]; [done|]. rewrite present_cons, List.filter_app, IH, app_nil_r. destruct o; [|done]. cbn. cbn in Hx. unfold unknown_id. cbn. by destruct (kind_of k). }
    rewrite H2; [done|]. repeat constructor; cbn; discriminate. }
  rewrite Hfl, Had, Hdg, Hun. destruct sender; cbn; [done|]. by destruct p.
Qed.
(** A value that the table has may be written and is accepted. *)
Definition entry_ok (x : Z * option (list Z)) : Prop :=
  forall v, snd x = Some v -> octets v /\ acceptable sender (fst x, v).

Lemma number_entry k d n lo hi : kind_of k = KNumber lo hi -> field n -> lo <= n <= hi -> entry_ok (k, not_default d n).
Proof.
  intros Hk Hn Hr v Hv. cbn in Hv. unfold not_default, unless in Hv. destruct (n =? d); [done|]. injection Hv as <-. split; [by apply venc_octets|].
  unfold acceptable. cbn [fst snd]. rewrite Hk. exists n. split; [by apply varint_of_venc|done].
Qed.

Lemma id_entry k server o : kind_of k = KId server -> id_ok o -> entry_ok (k, if server then server_side sender o else o).
Proof.
  intros Hk Ho v Hv. cbn [fst snd] in *. unfold acceptable. cbn [fst snd]. rewrite Hk. destruct server.
  - split; [by apply (id_octets sender o)|]. destruct sender; [done|]. split; [done|]. by apply Ho.
  - split; [by apply (id_octets Server o)|]. split; [done|]. by apply Ho.
Qed.

Lemma table_ok : Forall entry_ok (table sender p).
Proof.
  destruct W as [W0 W1 W2 W3 W4 W5 W6 W7 W8 W9 W10 W11 W13 W14 W15 W16 W32 _ _]. unfold table.
  assert (Hs : forall v, 0 <= v <= 2 ^ 60 -> field v) by (intros v Hv; by apply field_small). repeat (apply Forall_cons; split).
  1: exact (id_entry 0 true _ eq_refl W0).
  15: exact (id_entry 15 false _ eq_refl W15).
  15: exact (id_entry 16 true _ eq_refl W16).
  16: constructor.
  all: try (eapply number_entry; [reflexivity|(done || (apply Hs; lia) || (split; lia))|(done || lia)]).
  - intros v Hv. cbn in Hv. destruct sender; [done|]. destruct (W2 v Hv) as [Hb Hl]. split; [|done]. split; [done|]. rewrite Hl. by vm_compute.
  - intros v Hv. cbn in Hv. unfold unless in Hv. destruct (negb _); [done|]. injection Hv as <-. split; [|done]. split; [intros b Hb; by apply elem_of_nil in Hb|by vm_compute].
  - intros v Hv. cbn in Hv. destruct sender; [done|]. cbn in Hv. destruct (preferred_address p) as [pa|]; [|done]. injection Hv as <-.
    split; [by apply address_octets, W13|]. split; [done|]. exists pa. split; [by apply W13|done].
  - intros v Hv. cbn in Hv. destruct (max_datagram_frame_size p) as [n|]; [|done]. injection Hv as <-. assert (Hn := W32 n eq_refl). split; [by apply venc_octets|].
    exists n. split; [by apply varint_of_venc|exact Hn].
Qed.

Lemma present_forall (P : Z * list Z -> Prop) t : Forall (fun x => forall v, snd x = Some v -> P (fst x, v)) t -> Forall P (present t).
Proof. induction 1 as [|[k o] t Hx _ IH]; [constructor|]. rewrite present_cons. apply Forall_app. split; [|done]. destruct o; cbn; [|constructor]. constructor; [by apply Hx|constructor]. Qed.

Lemma written_ok : Forall (fun x => field (fst x) /\ octets (snd x)) (params_of sender p).
Proof.
  unfold params_of. apply Forall_app. split; [|eapply Forall_impl; [exact (proj1 (pw_unknown _ _ W))|by intros x (? & ? & _)]].
  apply present_forall. assert (Hids : Forall (fun x => field (fst x)) (table sender p)) by (unfold table; repeat (apply Forall_cons; split; [apply field_small; cbn; lia|]); constructor).
  assert (Ht := table_ok). rewrite Forall_forall in Ht, Hids. apply Forall_forall. intros x Hx v Hv. split; [by apply Hids|]. by apply (Ht x Hx v).
Qed.

Lemma written_proper : proper sender (params_of sender p).
Proof.
  destruct (pw_unknown _ _ W) as [HU Hnd]. split; [|split; [|split]].
  - unfold params_of. rewrite fmap_app. apply NoDup_app. split; [by eapply sublist_NoDup, present_ids; apply table_nodup|]. split; [|done].
    intros k Hk. apply unknown_not_known; [apply unknown_ok|]. assert (Hin : k ∈ (table sender p).*1) by (eapply elem_of_submseteq; [exact Hk|apply sublist_submseteq, present_ids]). rewrite table_ids in Hin.
    assert (Hall : Forall (fun k => kind_of k <> KUnknown) [0; 1; 2; 3; 4; 5; 6; 7; 8; 9; 10; 11; 12; 13; 14; 15; 16; 32]) by (repeat constructor; discriminate).
    rewrite Forall_forall in Hall. by apply Hall.
  - unfold params_of. apply Forall_app. split; [apply present_forall; eapply Forall_impl; [exact table_ok|]; intros x Hx v Hv; by apply Hx|].
    eapply Forall_impl; [exact unknown_ok|]. intros x Hx. unfold acceptable. unfold unknown_id in Hx. by destruct (kind_of x.1).
  - intros Hs. apply given_in. rewrite given_written by done. cbn. rewrite Hs. cbn. by apply (pw_required _ _ W).
  - apply given_in. rewrite given_written by done. cbn. by apply (pw_required _ _ W).
Qed.
End Written.

(** ** The properties *)

(** C28: [decode] reads exactly the lists of parameters that RFC 9000 allows,
    in any order: ids and lengths in any encoding, no id twice, each value
    one that its sender may give, the source connection id there and, from a
    server, the original one.  It gives what the list says: the number, id,
    token, address or flag of each parameter that is there, the default of
    each that is not, the unknown ones in order.  Anything else is an error,
    all of one transport error code, and never a panic. *)
Theorem params_decode data sender :
  bytes data -> len data <= U64_MAX ->
  (forall p, decode data sender = Ok p <-> exists l, is_params data l /\ proper sender l /\ p = meaning l) /\
  (forall f, decode data sender <> Err (TpFault f)) /\
  (forall e, decode data sender = Err e -> transport_error e = TRANSPORT_PARAMETER_ERROR).
Proof. intros Hb Hu. destruct (decode_exact data sender Hb Hu) as [H1 H2]. by do 2 (split; [done|]). Qed.

Lemma params_decode_witness :
  exists l, is_params [15; 1; 7; 4; 2; 64; 9] l /\ proper Client l /\ set_initial_max_data 9 (set_initial_source_connection_id (Some [7]) default) = meaning l.
Proof.
  destruct (params_decode [15; 1; 7; 4; 2; 64; 9] Client) as [H _]; [|by vm_compute|].
  - intros b Hb. unfold byte. repeat (apply elem_of_cons in Hb as [->|Hb]; [lia|]). by apply elem_of_nil in Hb.
  - apply H. vm_compute. reflexivity.
Defined.

(** C29: what [encode] writes [decode] reads back: for parameters that may be
    sent, written in full from a server and without a server's own from a
    client, the parameters that the peer sees are those written.  Grease ids
    are among the unknown ones, so they may be sent and are kept. *)
Theorem params_roundtrip sender p :
  params_wf sender p ->
  exists data, encode p sender = Some data /\ (len data <= U64_MAX -> decode data sender = Ok (visible sender p)) /\
  forall i, is_grease i = true -> unknown_id (i, []) = true /\ field i.
Proof.
  intros W. eexists. split; [by apply encode_ok|]. split.
  - intros Hu. destruct (is_params_bytes _ (written_ok sender p W)) as [Hp Hb]. apply (decode_exact _ sender Hb Hu). exists (params_of sender p).
    split; [done|]. split; [by apply written_proper|]. by rewrite written_meaning.
  - intros i Hi. unfold is_grease in Hi. apply andb_true_iff in Hi as [[H1%Z.leb_le H2%Z.eqb_eq]%andb_true_iff H3%Z.leb_le]. split; [|split; lia].
    assert (Hm := Z.div_mod (i - 27) 31 ltac:(lia)). unfold unknown_id, kind_of. cbn [fst]. assert (Hi : i <> 32) by (intros ->; done).
    rewrite !(proj2 (Z.eqb_neq i _)) by lia. rewrite (proj2 (Z.leb_gt i 7)) by lia. by rewrite andb_false_r.
Qed.

Definition example_params : TransportParameters := set_initial_max_data 1000 (set_initial_source_connection_id (Some [1; 2]) (set_unknown [(27, [5])] default)).

Lemma example_params_wf : params_wf Client example_params.
Proof.
  assert (Hb : forall b, 0 <= b <= 100 -> byte b) by (intros b; unfold byte; lia).
  assert (Ho : bytes [1; 2]) by (apply (bytes_app [1] [2]); split; apply bytes_one, Hb; lia). assert (H5 : bytes [5]) by (apply bytes_one, Hb; lia).
  assert (Hn : forall o : option (list Z), o = None -> id_ok o) by (intros o -> v; discriminate).
  split; try (apply field_small; cbn [example_params set_initial_max_data initial_max_data max_idle_timeout initial_max_stream_data_bidi_local initial_max_stream_data_bidi_remote initial_max_stream_data_uni]; by vm_compute).
  - by apply Hn.
  - by intros v [=].
  - by vm_compute.
  - by vm_compute.
  - by intros v [=].
  - by vm_compute.
  - intros v [= <-]. split; [done|by vm_compute].
  - by apply Hn.
  - by intros v [=].
  - change (unknown example_params) with [(27, [5])]. split; [|by apply NoDup_singleton]. constructor; [|constructor]. split; [apply field_small; cbn [fst]; lia|]. split; [split; [done|by vm_compute]|done].
  - split; [by eexists|done].
Qed.

Lemma params_roundtrip_witness : exists data, encode example_params Client = Some data /\ decode data Client = Ok example_params.
Proof.
  destruct (params_roundtrip Client example_params example_params_wf) as (data & He & Hd & _). exists data. split; [exact He|]. apply Hd.
  assert (Hx : encode example_params Client = Some [4; 2; 67; 232; 15; 2; 1; 2; 27; 1; 5]) by (vm_compute; reflexivity).
  rewrite Hx in He. injection He as <-. by vm_compute.
Defined.
