(* ===== verification/Fips.v ===== *)
(** SHA-256, SHA-384 and SHA-512 as FIPS 180-4 defines them, on whole
    messages: the specification that [Sha2] is compared with.

    Nothing here is taken from the code.  The functions of section 4.1 are
    given bit by bit; the constants of sections 4.2 and 5.3 are computed from
    what the standard says they are, the first bits of the fractional parts of
    square and cube roots of primes; the padding of section 5.1 is the least
    number of zeros that the congruence asks for; and the message schedule and
    the rounds of section 6 are those of the text, with one reduction modulo
    [2 ^ w] for each sum. *)

From Stdlib Require Import ZArith Lia.
From stdpp Require Import base option numbers list_numbers list.
From S2P Require Import Prelude Slice.

#[local] Open Scope Z_scope.

(** ** Words *)

(** The word of [n] bits whose bit [i] is [f i]. *)
Fixpoint of_bits (n : nat) (f : Z -> bool) : Z :=
  match n with
  | O => 0
  | S n => if f (Z.of_nat n) then Z.setbit (of_bits n f) (Z.of_nat n) else of_bits n f
  end.

(** The number that bytes stand for, and its bytes, the highest first. *)
Fixpoint be_word (l : list Z) : Z := match l with [] => 0 | b :: l => b * 256 ^ Z.of_nat (length l) + be_word l end.

Definition be_bytes (n : nat) (x : Z) : list Z := map (fun i => (x / 256 ^ Z.of_nat (n - 1 - i)) mod 256) (seq 0 n).

(** ** Constants *)

(** The root is found bit by bit: the greatest [r] with [r ^ k <= n]. *)
Fixpoint root_from (m : nat) (k n r : Z) : Z :=
  match m with
  | O => r
  | S m => root_from m k n (if (r + 2 ^ Z.of_nat m) ^ k <=? n then r + 2 ^ Z.of_nat m else r)
  end.

(** [w] bits of the fraction of the [k]-th root of [p] (the root is below
    [2 ^ 16]). *)
Definition frac_root (w k p : Z) : Z := root_from (Z.to_nat (w + 16)) k (p * 2 ^ (k * w)) 0 mod 2 ^ w.

Definition is_prime (n : Z) : bool := forallb (fun d => negb (n mod d =? 0)) (seqZ 2 (n - 2)).

(** The primes up to 409, of which there are 80. *)
Definition primes : list Z := List.filter is_prime (seqZ 2 408).

(** ** The algorithms *)

(** The width of a word, the number of rounds, and the rotations of the four
    functions (the last number of the small ones is a shift). *)
Record Standard := mk_standard {
  width : nat;
  rounds : nat;
  Sigma0 : Z * Z * Z;
  Sigma1 : Z * Z * Z;
  sigma0 : Z * Z * Z;
  sigma1 : Z * Z * Z;
  initial : list Z;
  size : nat;
}.

Definition sqrt_fractions (w : Z) (ps : list Z) : list Z := map (frac_root w 2) ps.

Definition sha256 : Standard := mk_standard 32 64 (2, 13, 22) (6, 11, 25) (7, 18, 3) (17, 19, 10) (sqrt_fractions 32 (take 8 primes)) 32.
Definition sha384 : Standard := mk_standard 64 80 (28, 34, 39) (14, 18, 41) (1, 8, 7) (19, 61, 6) (sqrt_fractions 64 (take 8 (drop 8 primes))) 48.
Definition sha512 : Standard := mk_standard 64 80 (28, 34, 39) (14, 18, 41) (1, 8, 7) (19, 61, 6) (sqrt_fractions 64 (take 8 primes)) 64.

Section standard.
Context (S : Standard).

#[local] Abbreviation w := (Z.of_nat (width S)).
#[local] Abbreviation bit := Z.testbit.

Definition word (x : Z) : Prop := 0 <= x < 2 ^ w.

Definition K : list Z := map (frac_root w 3) (take (rounds S) primes).

(** Section 4.1. *)
Definition Ch (x y z : Z) : Z := of_bits (width S) (fun i => if bit x i then bit y i else bit z i).
Definition Maj (x y z : Z) : Z := of_bits (width S) (fun i => (bit x i && bit y i) || (bit x i && bit z i) || (bit y i && bit z i)).

(** Bit [i] of the sum of three rotations to the right. *)
Definition big (r : Z * Z * Z) (x : Z) : Z :=
  let '(a, b, c) := r in of_bits (width S) (fun i => xorb (xorb (bit x ((i + a) mod w)) (bit x ((i + b) mod w))) (bit x ((i + c) mod w))).

(** And of two and a shift. *)
Definition small (r : Z * Z * Z) (x : Z) : Z :=
  let '(a, b, c) := r in of_bits (width S) (fun i => xorb (xorb (bit x ((i + a) mod w)) (bit x ((i + b) mod w))) ((i + c <? w) && bit x (i + c))).

(** Section 5.1: a one bit, zeros, and the length in bits in two words; the
    bits before it are 14 words modulo a block of 16. *)
Definition zeros (m : list Z) : Z := (14 * w - (8 * len m + 8)) mod (16 * w).

Definition pad (m : list Z) : list Z := m ++ 128 :: replicate (Z.to_nat (zeros m / 8)) 0 ++ be_bytes (width S / 4) (8 * len m).

(** Section 6: the words of the schedule, the newest first. *)
Definition next_word (ws : list Z) : Z :=
  let W k := nth (k - 1) ws 0 in (small (sigma1 S) (W 2%nat) + W 7%nat + small (sigma0 S) (W 15%nat) + W 16%nat) mod 2 ^ w.

Fixpoint expand (n : nat) (ws : list Z) : list Z := match n with O => ws | Datatypes.S n => expand n (next_word ws :: ws) end.

Definition block_bytes : nat := 2 * width S.

Definition message_words (M : list Z) : list Z := map (fun t => be_word (take (width S / 8) (drop (t * (width S / 8)) M))) (seq 0 16).

Definition schedule (M : list Z) : list Z := rev (expand (rounds S - 16) (rev (message_words M))).

Definition round (v : list Z) (kw : Z * Z) : list Z :=
  match v with
  | [a; b; c; d; e; f; g; h] =>
      let t1 := h + big (Sigma1 S) e + Ch e f g + fst kw + snd kw in
      let t2 := big (Sigma0 S) a + Maj a b c in
      [(t1 + t2) mod 2 ^ w; a; b; c; (d + t1) mod 2 ^ w; e; f; g]
  | _ => v
  end.

Definition step (H M : list Z) : list Z := zip_with (fun x y => (x + y) mod 2 ^ w) H (fold_left round (zip K (schedule M)) H).

(** The block [i] of a padded message. *)
Definition block (p : list Z) (i : nat) : list Z := take block_bytes (drop (i * block_bytes) p).

Definition hash (m : list Z) : list Z :=
  let p := pad m in
  take (size S) (concat (map (be_bytes (width S / 8)) (fold_left (fun H i => step H (block p i)) (seq 0 (length p / block_bytes)) (initial S)))).

End standard.

(** ** That these are what they say *)

Lemma of_bits_bit n f i : 0 <= i -> Z.testbit (of_bits n f) i = (i <? Z.of_nat n) && f i.
Proof.
  intros Hi. induction n as [|n IH]; cbn [of_bits]; [rewrite Z.bits_0; by rewrite (proj2 (Z.ltb_ge _ _)) by lia|].
  assert (Hlast : (i <? Z.of_nat (S n)) = (i =? Z.of_nat n) || (i <? Z.of_nat n)) by (apply eq_true_iff_eq; rewrite orb_true_iff, Z.eqb_eq, !Z.ltb_lt; lia). rewrite Hlast. clear Hlast.
  destruct (f (Z.of_nat n)) eqn:Hf.
  - rewrite Z.setbit_eqb, IH by lia. rewrite (Z.eqb_sym (Z.of_nat n)). destruct (Z.eqb_spec i (Z.of_nat n)) as [->|]; [by rewrite Hf|done].
  - rewrite IH. destruct (Z.eqb_spec i (Z.of_nat n)) as [->|]; [by rewrite Hf, andb_false_r|done].
Qed.

Lemma of_bits_pos n f : 0 <= of_bits n f.
Proof. induction n as [|n IH]; cbn [of_bits]; [lia|]. case_match; [|done]. rewrite Z.setbit_spec'. apply Z.lor_nonneg. split; [done|]. apply Z.pow_nonneg. lia. Qed.

(** A number with no bit from [w] on. *)
Lemma bits_range w x : 0 <= w -> 0 <= x -> (forall i, w <= i -> Z.testbit x i = false) -> x < 2 ^ w.
Proof.
  intros Hw Hx Hb. assert (E : x = x mod 2 ^ w).
  { apply Z.bits_inj'. intros i Hi. destruct (Z.lt_ge_cases i w); [by rewrite Z.mod_pow2_bits_low by lia|]. rewrite Z.mod_pow2_bits_high by lia. by apply Hb. }
  rewrite E. apply Z.mod_pos_bound. by apply Z.pow_pos_nonneg.
Qed.

Lemma range_bits w x i : 0 <= w -> 0 <= x < 2 ^ w -> w <= i -> Z.testbit x i = false.
Proof. intros Hw Hx Hi. rewrite <- (Z.mod_small x (2 ^ w)) by done. apply Z.mod_pow2_bits_high. lia. Qed.

Lemma of_bits_range n f : 0 <= of_bits n f < 2 ^ Z.of_nat n.
Proof. split; [apply of_bits_pos|]. apply bits_range; [lia|apply of_bits_pos|]. intros i Hi. rewrite of_bits_bit by lia. by rewrite (proj2 (Z.ltb_ge _ _)). Qed.

(** The word with given bits. *)
Lemma of_bits_eq n f x : 0 <= x < 2 ^ Z.of_nat n -> (forall i, 0 <= i < Z.of_nat n -> Z.testbit x i = f i) -> x = of_bits n f.
Proof.
  intros Hx Hb. apply Z.bits_inj'. intros i Hi. rewrite of_bits_bit by done. destruct (Z.ltb_spec i (Z.of_nat n)); [by apply Hb|]. apply (range_bits (Z.of_nat n)); [lia|done|done].
Qed.

Lemma root_from_ok m k n : 0 < k -> forall r, 0 <= r -> r ^ k <= n < (r + 2 ^ Z.of_nat m) ^ k -> let x := root_from m k n r in 0 <= x /\ x ^ k <= n < (x + 1) ^ k.
Proof.
  intros Hk. induction m as [|m IH]; intros r Hr Hn; cbn [root_from]; [done|]. assert (Hp : 0 < 2 ^ Z.of_nat m) by (apply Z.pow_pos_nonneg; lia).
  replace (2 ^ Z.of_nat (S m)) with (2 ^ Z.of_nat m + 2 ^ Z.of_nat m) in Hn by (rewrite Nat2Z.inj_succ, Z.pow_succ_r by lia; lia).
  destruct (Z.leb_spec ((r + 2 ^ Z.of_nat m) ^ k) n); apply IH; [lia|rewrite <- Z.add_assoc; lia|lia|lia].
Qed.

(** The constants are the fractions of the roots: [w] bits after the point. *)
Lemma frac_root_ok w k p : 0 <= w -> 0 < k -> 0 < p < 2 ^ 16 -> exists r, frac_root w k p = r mod 2 ^ w /\ r ^ k <= p * 2 ^ (k * w) < (r + 1) ^ k.
Proof.
  intros Hw Hk Hp. unfold frac_root. set (n := p * 2 ^ (k * w)). assert (Hpow : 0 < 2 ^ (k * w)) by (apply Z.pow_pos_nonneg; nia).
  destruct (root_from_ok (Z.to_nat (w + 16)) k n Hk 0 ltac:(lia)) as [_ H]; [|by eexists]. rewrite Z.pow_0_l by lia. rewrite Z.add_0_l, Z2Nat.id by lia. split; [unfold n; lia|].
  rewrite <- Z.pow_mul_r by lia. replace ((w + 16) * k) with (16 * k + k * w) by lia. rewrite Z.pow_add_r by nia. unfold n. apply Z.mul_lt_mono_pos_r; [done|].
  apply Z.lt_le_trans with (2 ^ 16); [lia|]. apply Z.pow_le_mono_r; lia.
Qed.

Lemma primes_80 : length primes = 80%nat /\ last primes = Some 409.
Proof. by vm_compute. Qed.

Lemma big_endian_length n x : length (be_bytes n x) = n.
Proof. unfold be_bytes. by rewrite length_map, length_seq. Qed.
