(* ===== verification/Sha2.v ===== *)
(** SHA-2: [pratique/src/crypto/sha2.rs].

    The code has the two block functions and the two streaming interfaces
    written out, with 32-bit and with 64-bit words; they differ in their
    constants, which are a record here ([Algo]).  A word is a number below
    [2 ^ bits], bytes are numbers below 256.  A CPU's own instructions, which
    the code uses where they are and checks against its portable functions,
    are not modelled.

    The property: feeding a message in pieces, whatever they are, gives the
    hash that FIPS 180-4 defines of the whole message ([Fips.hash], which
    takes nothing from the code). *)

From Stdlib Require Import ZArith Lia.
From stdpp Require Import base option numbers list_numbers list.
From S2P Require Import Prelude Slice Fips.

#[local] Open Scope Z_scope.

(** ** The constants *)

Definition K256 : list Z :=
  [1116352408; 1899447441; 3049323471; 3921009573; 961987163; 1508970993; 2453635748; 2870763221;
   3624381080; 310598401; 607225278; 1426881987; 1925078388; 2162078206; 2614888103; 3248222580;
   3835390401; 4022224774; 264347078; 604807628; 770255983; 1249150122; 1555081692; 1996064986;
   2554220882; 2821834349; 2952996808; 3210313671; 3336571891; 3584528711; 113926993; 338241895;
   666307205; 773529912; 1294757372; 1396182291; 1695183700; 1986661051; 2177026350; 2456956037;
   2730485921; 2820302411; 3259730800; 3345764771; 3516065817; 3600352804; 4094571909; 275423344;
   430227734; 506948616; 659060556; 883997877; 958139571; 1322822218; 1537002063; 1747873779;
   1955562222; 2024104815; 2227730452; 2361852424; 2428436474; 2756734187; 3204031479; 3329325298].

Definition K512 : list Z :=
  [4794697086780616226; 8158064640168781261; 13096744586834688815; 16840607885511220156; 4131703408338449720;
   6480981068601479193; 10538285296894168987; 12329834152419229976; 15566598209576043074; 1334009975649890238;
   2608012711638119052; 6128411473006802146; 8268148722764581231; 9286055187155687089; 11230858885718282805;
   13951009754708518548; 16472876342353939154; 17275323862435702243; 1135362057144423861; 2597628984639134821;
   3308224258029322869; 5365058923640841347; 6679025012923562964; 8573033837759648693; 10970295158949994411;
   12119686244451234320; 12683024718118986047; 13788192230050041572; 14330467153632333762; 15395433587784984357;
   489312712824947311; 1452737877330783856; 2861767655752347644; 3322285676063803686; 5560940570517711597;
   5996557281743188959; 7280758554555802590; 8532644243296465576; 9350256976987008742; 10552545826968843579;
   11727347734174303076; 12113106623233404929; 14000437183269869457; 14369950271660146224; 15101387698204529176;
   15463397548674623760; 17586052441742319658; 1182934255886127544; 1847814050463011016; 2177327727835720531;
   2830643537854262169; 3796741975233480872; 4115178125766777443; 5681478168544905931; 6601373596472566643;
   7507060721942968483; 8399075790359081724; 8693463985226723168; 9568029438360202098; 10144078919501101548;
   10430055236837252648; 11840083180663258601; 13761210420658862357; 14299343276471374635; 14566680578165727644;
   15097957966210449927; 16922976911328602910; 17689382322260857208; 500013540394364858; 748580250866718886;
   1242879168328830382; 1977374033974150939; 2944078676154940804; 3659926193048069267; 4368137639120453308;
   4836135668995329356; 5532061633213252278; 6448918945643986474; 6902733635092675308; 7801388544844847127].

Definition H256 : list Z :=
  [1779033703; 3144134277; 1013904242; 2773480762; 1359893119; 2600822924; 528734635; 1541459225].

Definition H384 : list Z :=
  [14680500436340154072; 7105036623409894663; 10473403895298186519; 1526699215303891257; 7436329637833083697;
   10282925794625328401; 15784041429090275239; 5167115440072839076].

Definition H512 : list Z :=
  [7640891576956012808; 13503953896175478587; 4354685564936845355; 11912009170470909681; 5840696475078001361;
   11170449401992604703; 2270897969802886507; 6620516959819538809].

(** ** The block functions *)

(** What the two functions differ in: the width of a word, the number of
    bytes of the length field, the constants of the rounds, and the rotations
    of the four functions of FIPS 180-4 sections 4.1.2 and 4.1.3 (in the last
    two the third number is a shift). *)
Record Algo := mk_algo {
  bits : Z;
  len_bytes : nat;
  ks : list Z;
  big0 : Z * Z * Z;
  big1 : Z * Z * Z;
  small0 : Z * Z * Z;
  small1 : Z * Z * Z;
}.

Definition algo256 : Algo := mk_algo 32 8 K256 (2, 13, 22) (6, 11, 25) (7, 18, 3) (17, 19, 10).
Definition algo512 : Algo := mk_algo 64 16 K512 (28, 34, 39) (14, 18, 41) (1, 8, 7) (19, 61, 6).

(** The state of the block functions, eight words. *)
Record Regs := mk_regs { ra : Z; rb : Z; rc : Z; rd : Z; re : Z; rf : Z; rg : Z; rh : Z }.

Definition regs_of (l : list Z) : Regs :=
  let at_ i := nth i l 0 in mk_regs (at_ 0%nat) (at_ 1%nat) (at_ 2%nat) (at_ 3%nat) (at_ 4%nat) (at_ 5%nat) (at_ 6%nat) (at_ 7%nat).

Definition regs_list (r : Regs) : list Z := [ra r; rb r; rc r; rd r; re r; rf r; rg r; rh r].

(** A number whose bytes, the highest first, are given; and its bytes. *)
Definition from_be_bytes (b : list Z) : Z := fold_left (fun n x => 256 * n + x) b 0.

Fixpoint to_be_bytes (n : nat) (x : Z) : list Z :=
  match n with O => [] | S n => to_be_bytes n (x / 256) ++ [x mod 256] end.

Section algo.
Context (A : Algo).

Definition word_bytes : nat := Z.to_nat (bits A / 8).
Definition block_len : nat := 16 * word_bytes.

Definition modulo (x : Z) : Z := x mod 2 ^ bits A.
Definition wrapping_add (x y : Z) : Z := modulo (x + y).
Definition rotate_right (x n : Z) : Z := Z.lor (Z.shiftr x n) (modulo (Z.shiftl x (bits A - n))).

Definition sum3 (r : Z * Z * Z) (x : Z) : Z :=
  let '(a, b, c) := r in Z.lxor (Z.lxor (rotate_right x a) (rotate_right x b)) (rotate_right x c).
Definition mix3 (r : Z * Z * Z) (x : Z) : Z :=
  let '(a, b, c) := r in Z.lxor (Z.lxor (rotate_right x a) (rotate_right x b)) (Z.shiftr x c).

(** The words of the block, and then those that are made of them. *)
Definition block_words (block : list Z) : list Z :=
  map (fun i => from_be_bytes (take word_bytes (drop (word_bytes * i) block))) (seq 0 16).

Definition extend (w : list Z) (i : nat) : list Z :=
  let at_ k := nth (i - k) w 0 in
  w ++ [wrapping_add (wrapping_add (wrapping_add (at_ 16%nat) (mix3 (small0 A) (at_ 15%nat))) (at_ 7%nat)) (mix3 (small1 A) (at_ 2%nat))].

Definition schedule (block : list Z) : list Z := fold_left extend (seq 16 (length (ks A) - 16)) (block_words block).

Definition round (r : Regs) (kw : Z * Z) : Regs :=
  let (k, w) := kw in
  let ch := Z.lxor (Z.land (re r) (rf r)) (Z.land (Z.lxor (re r) (2 ^ bits A - 1)) (rg r)) in
  let t1 := wrapping_add (wrapping_add (wrapping_add (wrapping_add (rh r) (sum3 (big1 A) (re r))) ch) k) w in
  let maj := Z.lxor (Z.lxor (Z.land (ra r) (rb r)) (Z.land (ra r) (rc r))) (Z.land (rb r) (rc r)) in
  let t2 := wrapping_add (sum3 (big0 A) (ra r)) maj in
  mk_regs (wrapping_add t1 t2) (ra r) (rb r) (rc r) (wrapping_add (rd r) t1) (re r) (rf r) (rg r).

Definition compress (state : Regs) (block : list Z) : Regs :=
  let v := fold_left round (zip (ks A) (schedule block)) state in
  regs_of (zip_with wrapping_add (regs_list state) (regs_list v)).

(** [blocks.chunks_exact(block_len)], [n] of them. *)
Fixpoint fold_blocks (n : nat) (state : Regs) (blocks : list Z) : Regs :=
  match n with
  | O => state
  | S n => fold_blocks n (compress state (take block_len blocks)) (drop block_len blocks)
  end.

Definition portable_blocks (state : Regs) (blocks : list Z) : Regs := fold_blocks (length blocks / block_len) state blocks.

(** ** Streaming *)

Record Hasher := mk_hasher { h_state : Regs; h_buf : list Z; h_buf_len : nat; h_total : Z }.

Definition new (iv : list Z) : Hasher := mk_hasher (regs_of iv) (replicate block_len 0) 0 0.

(** [total] counts as far as the length field goes. *)
Definition wrap_total (x : Z) : Z := x mod 2 ^ (8 * Z.of_nat (len_bytes A)).

(** [buf[at..at + d.len()].copy_from_slice(d)]. *)
Definition copy_at (at_ : nat) (d buf : list Z) : list Z := take at_ buf ++ d ++ drop (at_ + length d) buf.

(** [update] when the buffer is full or empty: the whole blocks of what is
    left, and the rest to the buffer. *)
Definition absorb (state : Regs) (buf : list Z) (buf_len : nat) (d : list Z) (total : Z) : Hasher :=
  let whole := (length d / block_len * block_len)%nat in
  let '(state, d) := if (0 <? whole)%nat then (portable_blocks state (take whole d), drop whole d) else (state, d) in
  match d with
  | [] => mk_hasher state buf buf_len total
  | _ => mk_hasher state (copy_at 0 d buf) (length d) total
  end.

Definition update (d : list Z) (h : Hasher) : Hasher :=
  let total := wrap_total (h_total h + len d) in
  if (0 <? h_buf_len h)%nat then
    let n := Nat.min (block_len - h_buf_len h) (length d) in
    let buf := copy_at (h_buf_len h) (take n d) (h_buf h) in
    let buf_len := (h_buf_len h + n)%nat in
    if (buf_len =? block_len)%nat then absorb (portable_blocks (h_state h) buf) buf 0 (drop n d) total
    else absorb (h_state h) buf buf_len (drop n d) total
  else absorb (h_state h) (h_buf h) (h_buf_len h) d total.

(** The words of the state, as bytes, cut to [out_len]. *)
Definition output (out_len : nat) (state : Regs) : list Z := take out_len (concat (map (to_be_bytes word_bytes) (regs_list state))).

Definition padding (h : Hasher) : list Z :=
  let limit := (block_len - len_bytes A)%nat in
  let rem := ((h_buf_len h + 1) mod block_len)%nat in
  let zeros := (if rem <=? limit then limit - rem else block_len + limit - rem)%nat in
  128 :: replicate zeros 0 ++ to_be_bytes (len_bytes A) (wrap_total (8 * h_total h)).

Definition finish (out_len : nat) (h : Hasher) : list Z := output out_len (h_state (update (padding h) h)).

End algo.

(** ** The variants *)

Inductive HashAlg : Type := Sha256 | Sha384 | Sha512.

Definition output_len (a : HashAlg) : nat := match a with Sha256 => 32 | Sha384 => 48 | Sha512 => 64 end.

Definition algo_of (a : HashAlg) : Algo := match a with Sha256 => algo256 | Sha384 | Sha512 => algo512 end.

Definition iv_of (a : HashAlg) : list Z := match a with Sha256 => H256 | Sha384 => H384 | Sha512 => H512 end.

Definition start (a : HashAlg) : Hasher := new (algo_of a) (iv_of a).
Definition feed (a : HashAlg) (d : list Z) (h : Hasher) : Hasher := update (algo_of a) d h.
Definition finalize (a : HashAlg) (h : Hasher) : list Z := finish (algo_of a) (output_len a) h.

Definition digest (a : HashAlg) (d : list Z) : list Z := finalize a (feed a d (start a)).

(** ** Streaming, and the whole message *)

(** The message with its padding, and the code's block function over it: what
    streaming comes to.  That this is the hash of FIPS 180-4 is shown below. *)
Definition padded (A : Algo) (m : list Z) : list Z :=
  let room := Z.of_nat (block_len A) in
  m ++ 128 :: replicate (Z.to_nat ((room - Z.of_nat (len_bytes A) - 1 - len m) mod room)) 0 ++ to_be_bytes (len_bytes A) (8 * len m).

Definition block_hash (A : Algo) (iv : list Z) (out_len : nat) (m : list Z) : list Z :=
  output A out_len (portable_blocks A (regs_of iv) (padded A m)).

Lemma to_be_bytes_length n x : length (to_be_bytes n x) = n.
Proof. revert x. induction n as [|n IH]; intros x; cbn; [done|]. rewrite length_app, IH. cbn. lia. Qed.

Lemma to_be_bytes_mod n x : to_be_bytes n (x mod 2 ^ (8 * Z.of_nat n)) = to_be_bytes n x.
Proof.
  revert x. induction n as [|n IH]; intros x; [done|]. cbn [to_be_bytes]. replace (8 * Z.of_nat (S n)) with (8 + 8 * Z.of_nat n) by lia. rewrite Z.pow_add_r by lia. change (2 ^ 8) with 256.
  rewrite Z.rem_mul_r by lia. f_equal.
  - rewrite <- (IH (x / 256)), (Z.mul_comm 256), Z.div_add by lia. rewrite (Z.div_small (x mod 256)) by (apply Z.mod_pos_bound; lia). by rewrite Z.add_0_l.
  - f_equal. rewrite (Z.mul_comm 256), Z.mod_add by lia. apply Z.mod_mod. lia.
Qed.

Section streaming.
Context (A : Algo) (iv : list Z).
Hypothesis algo_ok : (0 < word_bytes A /\ 0 < len_bytes A < block_len A)%nat.

#[local] Abbreviation B := (block_len A).

Lemma block_pos : (0 < B)%nat.
Proof. unfold block_len. destruct algo_ok. lia. Qed.

Lemma fold_blocks_add a b s m : fold_blocks A (a + b) s m = fold_blocks A b (fold_blocks A a s m) (drop (a * B) m).
Proof. revert s m. induction a as [|a IH]; intros s m; [by rewrite drop_0|]. cbn [Nat.add fold_blocks]. rewrite IH, drop_drop. do 2 f_equal. Qed.

Lemma fold_blocks_app n s m d : (n * B <= length m)%nat -> fold_blocks A n s (m ++ d) = fold_blocks A n s m.
Proof.
  revert s m. induction n as [|n IH]; intros s m H; [done|]. cbn [fold_blocks]. rewrite take_app_le, drop_app_le by lia. apply IH. rewrite length_drop. lia.
Qed.

(** [h] was fed [m], in whatever pieces. *)
Record fed (m : list Z) (h : Hasher) : Prop := mk_fed {
  fd_state : h_state h = fold_blocks A (length m / B) (regs_of iv) m;
  fd_len : length (h_buf h) = B;
  fd_buf_len : h_buf_len h = (length m mod B)%nat;
  fd_buf : take (h_buf_len h) (h_buf h) = drop (length m / B * B) m;
  fd_total : h_total h = wrap_total A (len m);
}.

Lemma fed_new : fed [] (new A iv).
Proof.
  assert (H := block_pos). split; cbn [length]; rewrite ?Nat.Div0.div_0_l, ?Nat.Div0.mod_0_l; try done. cbn. by rewrite length_replicate.
Qed.

Lemma copy_at_length at_ (d buf : list Z) : (at_ + length d <= length buf)%nat -> length (copy_at at_ d buf) = length buf.
Proof. intros H. unfold copy_at. rewrite !length_app, length_take, length_drop. lia. Qed.

Lemma copy_at_take at_ (d buf : list Z) : (at_ + length d <= length buf)%nat -> take (at_ + length d) (copy_at at_ d buf) = take at_ buf ++ d.
Proof.
  intros H. unfold copy_at. rewrite app_assoc, take_app_le by (rewrite length_app, length_take; lia). apply take_ge. rewrite length_app, length_take. lia.
Qed.

(** Blocks after whole blocks. *)
Lemma blocks_after s m d : (length m mod B = 0)%nat ->
  fold_blocks A (length (m ++ d) / B) s (m ++ d) = portable_blocks A (fold_blocks A (length m / B) s m) d /\
  drop (length (m ++ d) / B * B) (m ++ d) = drop (length d / B * B) d /\ (length (m ++ d) mod B = length d mod B)%nat.
Proof.
  intros Hm. assert (Hp := block_pos). set (q := (length m / B)%nat) in *. assert (Hl : length m = (q * B)%nat) by (assert (H := Nat.div_mod (length m) B ltac:(lia)); fold q in H; lia).
  assert (Hlen : length (m ++ d) = (length d + q * B)%nat) by (rewrite length_app; lia).
  assert (Hq : (length (m ++ d) / B = q + length d / B)%nat) by (rewrite Hlen, Nat.div_add by lia; lia).
  rewrite Hq. split; [|split; [|by rewrite Hlen, Nat.Div0.mod_add]].
  - rewrite fold_blocks_add, fold_blocks_app by lia. rewrite drop_app_le by lia. by rewrite (drop_ge m) by lia.
  - rewrite drop_app_ge by lia. f_equal. lia.
Qed.

Lemma blocks_prefix s (d : list Z) : let whole := (length d / B * B)%nat in portable_blocks A s (take whole d) = portable_blocks A s d.
Proof.
  intros whole. assert (Hp := block_pos). assert (Hw : (whole <= length d)%nat) by (unfold whole; assert (H := Nat.Div0.mul_div_le (length d) B); lia).
  unfold portable_blocks. rewrite length_take, Nat.min_l by done. unfold whole at 1. rewrite Nat.div_mul by lia. assert (Hf : fold_blocks A (length d / B) s (take whole d ++ drop whole d) = fold_blocks A (length d / B) s (take whole d)) by (apply fold_blocks_app; rewrite length_take; unfold whole in *; lia).
  by rewrite take_drop in Hf.
Qed.

Lemma fed_absorb m state buf d :
  state = fold_blocks A (length m / B) (regs_of iv) m -> length buf = B -> (length m mod B = 0)%nat ->
  fed (m ++ d) (absorb A state buf 0 d (wrap_total A (len (m ++ d)))).
Proof.
  intros -> Hb Hm. assert (Hp := block_pos). destruct (blocks_after (regs_of iv) m d Hm) as (E1 & E2 & E3). unfold absorb. set (whole := (length d / B * B)%nat) in *. set (s := fold_blocks A _ _ m) in *.
  assert (Hw : (if (0 <? whole)%nat then (portable_blocks A s (take whole d), drop whole d) else (s, d)) = (portable_blocks A s d, drop whole d)).
  { destruct (Nat.ltb_spec 0 whole); [unfold whole at 1; by rewrite blocks_prefix|]. assert (H0 : whole = 0%nat) by lia. rewrite H0, drop_0. unfold portable_blocks. unfold whole in H0. by replace (length d / B)%nat with 0%nat by lia. }
  rewrite Hw. clear Hw. assert (Hr : length (drop whole d) = (length d mod B)%nat) by (rewrite length_drop; assert (H := Nat.div_mod (length d) B ltac:(lia)); unfold whole; lia).
  assert (Hlt := Nat.mod_upper_bound (length d) B ltac:(lia)). rewrite <- Hr in *. destruct (drop whole d) as [|x r] eqn:He; split; cbn [h_state h_buf h_buf_len h_total]; try done.
  - by rewrite copy_at_length by (rewrite Hb; lia).
  - rewrite E2. assert (Ht := copy_at_take 0 (x :: r) buf). rewrite Nat.add_0_l, take_0 in Ht. apply Ht. rewrite Hb. lia.
Qed.

Lemma fed_update m h d : fed m h -> fed (m ++ d) (update A d h).
Proof.
  intros [F1 F2 F3 F4 F5]. assert (Hp := block_pos). unfold update.
  assert (Ht : wrap_total A (h_total h + len d) = wrap_total A (len (m ++ d))) by (rewrite F5, len_app; unfold wrap_total; by rewrite Z.add_mod_idemp_l by (apply Z.pow_nonzero; lia)).
  rewrite Ht. clear Ht. assert (Hlt : (h_buf_len h < B)%nat) by (rewrite F3; apply Nat.mod_upper_bound; lia).
  assert (Hdm := Nat.div_mod (length m) B ltac:(lia)). destruct (Nat.ltb_spec 0 (h_buf_len h)) as [Hpos|Hz].
  - set (n := Nat.min (B - h_buf_len h) (length d)). assert (Hn : length (take n d) = n) by (rewrite length_take; lia).
    assert (Hbuf : length (copy_at (h_buf_len h) (take n d) (h_buf h)) = B) by (rewrite copy_at_length by (rewrite F2, Hn; lia); done).
    assert (Htk : take (h_buf_len h + n) (copy_at (h_buf_len h) (take n d) (h_buf h)) = drop (length m / B * B) (m ++ take n d)).
    { rewrite <- Hn at 1. rewrite copy_at_take by (rewrite F2, Hn; lia). rewrite F4, drop_app_le by lia. done. }
    destruct (Nat.eqb_spec (h_buf_len h + n) B) as [Hfull|Hnot].
    + rewrite <- (take_drop n d) at 1. rewrite app_assoc. replace (len (m ++ d)) with (len ((m ++ take n d) ++ drop n d)) by (by rewrite <- app_assoc, take_drop).
      assert (Hl : length (m ++ take n d) = ((length m / B + 1) * B)%nat) by (rewrite length_app, Hn; lia).
      apply fed_absorb; [|done|by rewrite Hl, Nat.Div0.mod_mul].
      rewrite Hl, Nat.div_mul by lia. rewrite fold_blocks_add, fold_blocks_app, <- F1 by lia. rewrite Hfull, take_ge in Htk by lia. rewrite <- Htk.
      unfold portable_blocks. by rewrite Hbuf, Nat.div_same by lia.
    + assert (Hall : n = length d) by lia. unfold absorb. rewrite Hall, drop_all. cbn [length]. rewrite Nat.Div0.div_0_l. cbn [Nat.mul Nat.ltb Nat.leb].
      assert (Hq : (length (m ++ d) / B = length m / B)%nat) by (symmetry; apply (Nat.div_unique _ B _ (h_buf_len h + length d)); rewrite ?length_app; lia).
      rewrite Hall, firstn_all in *. split; cbn [h_state h_buf h_buf_len h_total]; try done.
      * rewrite Hq, F1. symmetry. apply fold_blocks_app. lia.
      * apply (Nat.mod_unique _ B (length m / B)); [lia|]. rewrite length_app. lia.
      * by rewrite Htk, Hq.
  - assert (H0 : h_buf_len h = 0%nat) by lia. rewrite H0 in *. by apply fed_absorb.
Qed.

(** Any pieces. *)
Lemma fed_pieces pieces m h : fed m h -> fed (m ++ concat pieces) (fold_left (fun h d => update A d h) pieces h).
Proof.
  revert m h. induction pieces as [|d pieces IH]; intros m h Hf; cbn [fold_left concat]; [by rewrite app_nil_r|]. rewrite app_assoc. by apply IH, fed_update.
Qed.

Lemma padding_is m h : fed m h -> m ++ padding A h = padded A m.
Proof.
  intros [_ _ F3 _ F5]. assert (Hp := block_pos). destruct algo_ok as [_ Hl]. unfold padded, padding. do 2 f_equal. rewrite F3, F5. set (L := len_bytes A) in *.
  assert (Hwt : to_be_bytes L (wrap_total A (8 * wrap_total A (len m))) = to_be_bytes L (8 * len m)).
  { unfold wrap_total. fold L. rewrite Z.mul_mod_idemp_r by (apply Z.pow_nonzero; lia). apply to_be_bytes_mod. }
  rewrite Hwt. f_equal. f_equal. apply Nat2Z.inj. unfold len.
  assert (Hz : 0 <= (Z.of_nat B - Z.of_nat L - 1 - Z.of_nat (length m)) mod Z.of_nat B < Z.of_nat B) by (apply Z.mod_pos_bound; lia). rewrite Z2Nat.id by lia.
  set (r := (length m mod B)%nat). assert (Hr : (r < B)%nat) by (apply Nat.mod_upper_bound; lia).
  set (q := (length m / B)%nat). assert (Hm : length m = (B * q + r)%nat) by (apply Nat.div_mod; lia).
  assert (HmZ : Z.of_nat (length m) = Z.of_nat B * Z.of_nat q + Z.of_nat r) by (rewrite Hm, Nat2Z.inj_add, Nat2Z.inj_mul; done). rewrite HmZ in *. clear HmZ Hm. clearbody r q.
  assert (H1 : ((r + 1) mod B = if r + 1 =? B then 0 else r + 1)%nat) by (destruct (Nat.eqb_spec (r + 1) B) as [->|]; [by rewrite Nat.Div0.mod_same|by rewrite Nat.mod_small by lia]).
  rewrite H1. clear H1.
  assert (Hgoal : forall z t, 0 <= z < Z.of_nat B -> Z.of_nat B - Z.of_nat L - 1 - (Z.of_nat B * Z.of_nat q + Z.of_nat r) = Z.of_nat B * t + z -> z = (Z.of_nat B - Z.of_nat L - 1 - (Z.of_nat B * Z.of_nat q + Z.of_nat r)) mod Z.of_nat B) by (intros z t Hz' He; by apply (Z.mod_unique_pos _ _ t)).
  destruct (Nat.eqb_spec (r + 1) B) as [He|He].
  - cbn [Nat.leb]. apply (Hgoal _ (- Z.of_nat q - 1)); [lia|]. nia.
  - destruct (Nat.leb_spec (r + 1) (B - L)) as [Hle|Hgt].
    + apply (Hgoal _ (- Z.of_nat q)); [lia|]. nia.
    + apply (Hgoal _ (- Z.of_nat q - 1)); [lia|]. nia.
Qed.

Lemma finish_is m h out_len : fed m h -> finish A out_len h = block_hash A iv out_len m.
Proof.
  intros Hf. unfold finish, block_hash. destruct (fed_update m h (padding A h) Hf) as [F1 _ _ _ _]. by rewrite F1, (padding_is m h Hf).
Qed.

End streaming.

Lemma algos_ok a : (0 < word_bytes (algo_of a) /\ 0 < len_bytes (algo_of a) < block_len (algo_of a))%nat.
Proof. destruct a; vm_compute; lia. Qed.

Lemma finalize_length a h : length (finalize a h) = output_len a.
Proof.
  unfold finalize, finish, output. generalize (h_state (update (algo_of a) (padding (algo_of a) h) h)). intros s. rewrite length_take. cbn [regs_list map concat]. rewrite !length_app, !to_be_bytes_length. by destruct a; vm_compute.
Qed.

(** ** The block functions are those of FIPS 180-4 *)

(** The parameters of the code are those of the standard. *)
Record agrees (A : Algo) (F : Standard) : Prop := mk_agrees {
  ag_bits : bits A = Z.of_nat (width F) /\ (0 < width F)%nat;
  ag_ks : ks A = K F /\ length (ks A) = rounds F /\ (16 <= rounds F)%nat;
  ag_big : big0 A = Sigma0 F /\ big1 A = Sigma1 F /\ small0 A = sigma0 F /\ small1 A = sigma1 F;
  ag_rotations : Forall (fun r => let '(a, b, c) := r in 0 < a < bits A /\ 0 < b < bits A /\ 0 < c < bits A) [big0 A; big1 A; small0 A; small1 A];
  ag_bytes : (word_bytes A = width F / 8 /\ block_len A = block_bytes F /\ len_bytes A = width F / 4 /\ 8 * word_bytes A = width F /\ 4 * len_bytes A = width F)%nat;
  ag_k : Forall (word F) (ks A);
}.

Section fips.
Context (A : Algo) (F : Standard) (Hag : agrees A F).

#[local] Abbreviation w := (Z.of_nat (width F)).

Lemma width_pos : 0 < w.
Proof. destruct (ag_bits _ _ Hag). lia. Qed.

Lemma word_modulo x : word F (x mod 2 ^ w).
Proof. apply Z.mod_pos_bound. apply Z.pow_pos_nonneg; assert (H := width_pos); lia. Qed.

Lemma word_bit x i : word F x -> w <= i -> Z.testbit x i = false.
Proof. intros Hx Hi. apply (range_bits w); [lia|exact Hx|done]. Qed.

Lemma word_of_bits n x : n = width F -> 0 <= x -> (forall i, w <= i -> Z.testbit x i = false) -> word F x.
Proof. intros -> Hx Hb. split; [done|]. apply bits_range; [lia|done|done]. Qed.

Lemma rotate_pos x n : word F x -> 0 <= rotate_right A x n.
Proof.
  intros [Hx _]. unfold rotate_right, modulo. rewrite (proj1 (ag_bits _ _ Hag)). apply Z.lor_nonneg. split; [by apply Z.shiftr_nonneg|]. apply word_modulo.
Qed.

Lemma rotate_bit x n i : word F x -> 0 < n < bits A -> 0 <= i -> Z.testbit (rotate_right A x n) i = (i <? w) && Z.testbit x ((i + n) mod w).
Proof.
  intros Hx Hn Hi. assert (Hw := width_pos). unfold rotate_right, modulo. rewrite (proj1 (ag_bits _ _ Hag)) in *. rewrite Z.lor_spec, Z.shiftr_spec by done.
  destruct (Z.ltb_spec i w) as [Hlt|Hge]; cbn [andb].
  - rewrite Z.mod_pow2_bits_low, Z.shiftl_spec by lia. destruct (Z.lt_ge_cases (i + n) w) as [H|H].
    + rewrite (Z.testbit_neg_r x (i - _)) by lia. by rewrite orb_false_r, Z.mod_small by lia.
    + rewrite (word_bit x (i + n)) by (done || lia). cbn [orb]. f_equal. apply (Z.mod_unique _ _ 1); lia.
  - rewrite Z.mod_pow2_bits_high by lia. by rewrite orb_false_r, (word_bit x) by (done || lia).
Qed.

Lemma sum3_is r x : (let '(a, b, c) := r in 0 < a < bits A /\ 0 < b < bits A /\ 0 < c < bits A) -> word F x -> sum3 A r x = big F r x.
Proof.
  destruct r as [[a b] c]. intros (Ha & Hb & Hc) Hx. unfold sum3, big. assert (Hw := width_pos).
  assert (Hbit : forall i, 0 <= i -> Z.testbit (Z.lxor (Z.lxor (rotate_right A x a) (rotate_right A x b)) (rotate_right A x c)) i =
    (i <? w) && xorb (xorb (Z.testbit x ((i + a) mod w)) (Z.testbit x ((i + b) mod w))) (Z.testbit x ((i + c) mod w))).
  { intros i Hi. rewrite !Z.lxor_spec, !rotate_bit by done. by destruct (i <? w). }
  apply of_bits_eq.
  - apply (word_of_bits (width F)); [done|apply Z.lxor_nonneg; split; intros _; [by apply rotate_pos|apply Z.lxor_nonneg; split; intros _; by apply rotate_pos]|].
    intros i Hi. rewrite Hbit by lia. by rewrite (proj2 (Z.ltb_ge _ _)).
  - intros i Hi. rewrite Hbit by lia. by rewrite (proj2 (Z.ltb_lt _ _)) by lia.
Qed.

Lemma mix3_is r x : (let '(a, b, c) := r in 0 < a < bits A /\ 0 < b < bits A /\ 0 < c < bits A) -> word F x -> mix3 A r x = small F r x.
Proof.
  destruct r as [[a b] c]. intros (Ha & Hb & Hc) Hx. unfold mix3, small. assert (Hw := width_pos). assert (Hx0 := proj1 Hx).
  assert (Hbit : forall i, 0 <= i -> Z.testbit (Z.lxor (Z.lxor (rotate_right A x a) (rotate_right A x b)) (Z.shiftr x c)) i =
    (i <? w) && xorb (xorb (Z.testbit x ((i + a) mod w)) (Z.testbit x ((i + b) mod w))) ((i + c <? w) && Z.testbit x (i + c))).
  { intros i Hi. rewrite !Z.lxor_spec, !rotate_bit, Z.shiftr_spec by done. assert (Hlast : Z.testbit x (i + c) = (i + c <? w) && Z.testbit x (i + c)).
    { destruct (Z.ltb_spec (i + c) w); [done|]. cbn. by apply word_bit. }
    rewrite Hlast at 1. destruct (Z.ltb_spec i w); [done|]. by rewrite (proj2 (Z.ltb_ge (i + c) w)) by lia. }
  apply of_bits_eq.
  - apply (word_of_bits (width F)); [done|apply Z.lxor_nonneg; split; intros _; [by apply Z.shiftr_nonneg|apply Z.lxor_nonneg; split; intros _; by apply rotate_pos]|].
    intros i Hi. rewrite Hbit by lia. by rewrite (proj2 (Z.ltb_ge _ _)).
  - intros i Hi. rewrite Hbit by lia. by rewrite (proj2 (Z.ltb_lt _ _)) by lia.
Qed.

Lemma ch_is x y z : word F x -> word F y -> word F z ->
  Z.lxor (Z.land x y) (Z.land (Z.lxor x (2 ^ bits A - 1)) z) = Ch F x y z.
Proof.
  intros Hx Hy Hz. assert (Hw := width_pos). rewrite (proj1 (ag_bits _ _ Hag)). replace (2 ^ w - 1) with (Z.ones w) by (rewrite Z.ones_equiv; lia).
  assert (Hbit : forall i, 0 <= i -> Z.testbit (Z.lxor (Z.land x y) (Z.land (Z.lxor x (Z.ones w)) z)) i = (i <? w) && if Z.testbit x i then Z.testbit y i else Z.testbit z i).
  { intros i Hi. rewrite Z.lxor_spec, !Z.land_spec, Z.lxor_spec. destruct (Z.ltb_spec i w).
    - rewrite Z.ones_spec_low by lia. by destruct (Z.testbit x i), (Z.testbit y i), (Z.testbit z i).
    - by rewrite (word_bit x), (word_bit z), andb_false_r by done. }
  apply of_bits_eq.
  - apply (word_of_bits (width F)); [done| |intros i Hi; rewrite Hbit by lia; by rewrite (proj2 (Z.ltb_ge _ _))]. destruct Hx, Hy, Hz.
    apply Z.lxor_nonneg. split; intros _; apply Z.land_nonneg; auto.
  - intros i Hi. rewrite Hbit by lia. by rewrite (proj2 (Z.ltb_lt _ _)) by lia.
Qed.

Lemma maj_is x y z : word F x -> word F y -> word F z -> Z.lxor (Z.lxor (Z.land x y) (Z.land x z)) (Z.land y z) = Maj F x y z.
Proof.
  intros Hx Hy Hz. assert (Hbit : forall i, 0 <= i -> Z.testbit (Z.lxor (Z.lxor (Z.land x y) (Z.land x z)) (Z.land y z)) i =
    (Z.testbit x i && Z.testbit y i) || (Z.testbit x i && Z.testbit z i) || (Z.testbit y i && Z.testbit z i)).
  { intros i Hi. rewrite !Z.lxor_spec, !Z.land_spec. by destruct (Z.testbit x i), (Z.testbit y i), (Z.testbit z i). }
  apply of_bits_eq; [|intros i Hi; apply Hbit; lia]. assert (Hw := width_pos). apply (word_of_bits (width F)); [done| |].
  - destruct Hx, Hy, Hz. rewrite !Z.lxor_nonneg, !Z.land_nonneg. tauto.
  - intros i Hi. rewrite Hbit by lia. by rewrite (word_bit x), (word_bit y), (word_bit z) by done.
Qed.

(** *** Rounds *)

Lemma round_is r k x : Forall (word F) (regs_list r) -> word F k -> word F x ->
  regs_list (round A r (k, x)) = Fips.round F (regs_list r) (k, x) /\ Forall (word F) (regs_list (round A r (k, x))).
Proof.
  intros Hregs Hk Hx. destruct r as [a b c d e f g h]. unfold regs_list in *. cbn [ra rb rc rd re rf rg rh] in *.
  repeat match goal with H : Forall _ (_ :: _) |- _ => apply Forall_cons in H as [? H] end.
  destruct (ag_big _ _ Hag) as (B0 & B1 & _ & _). assert (Hrot := ag_rotations _ _ Hag). repeat match goal with H : Forall _ (_ :: _) |- _ => apply Forall_cons in H as [? H] end.
  assert (Hm : forall x y, wrapping_add A x y = (x + y) mod 2 ^ w) by (intros; unfold wrapping_add, modulo; by rewrite (proj1 (ag_bits _ _ Hag))).
  assert (Hl : forall x y, wrapping_add A (x mod 2 ^ w) y = (x + y) mod 2 ^ w) by (intros; rewrite Hm; apply Z.add_mod_idemp_l, Z.pow_nonzero; lia).
  assert (Hr : forall x y, wrapping_add A x (y mod 2 ^ w) = (x + y) mod 2 ^ w) by (intros; rewrite Hm; apply Z.add_mod_idemp_r, Z.pow_nonzero; lia).
  unfold round, Fips.round. cbn [ra rb rc rd re rf rg rh fst snd]. rewrite !sum3_is, ch_is, maj_is by (rewrite ?B0, ?B1 in *; done).
  split.
  - rewrite <- B0, <- B1. rewrite (Hm h), !Hl. rewrite (Hm (big F (big0 A) a)), Z.add_mod_idemp_r by (apply Z.pow_nonzero; lia). by rewrite Hr.
  - rewrite !Hm. repeat apply Forall_cons_2; try done; apply word_modulo.
Qed.

Lemma rounds_is kws : Forall (fun kw => word F (fst kw) /\ word F (snd kw)) kws -> forall r, Forall (word F) (regs_list r) ->
  regs_list (fold_left (round A) kws r) = fold_left (Fips.round F) kws (regs_list r) /\ Forall (word F) (regs_list (fold_left (round A) kws r)).
Proof.
  induction 1 as [|[k x] kws [Hk Hx] _ IH]; intros r Hr; [done|]. cbn [fold_left fst snd] in *. destruct (round_is r k x Hr Hk Hx) as [E Hr']. rewrite <- E. by apply IH.
Qed.

(** *** Bytes and words *)

Lemma from_be_bytes_acc b n : fold_left (fun n x => 256 * n + x) b n = n * 256 ^ Z.of_nat (length b) + be_word b.
Proof.
  revert n. induction b as [|x b IH]; intros n; cbn [fold_left length be_word]; [cbn; lia|]. rewrite IH, Nat2Z.inj_succ, Z.pow_succ_r by lia. lia.
Qed.

Lemma from_be_bytes_is b : from_be_bytes b = be_word b.
Proof. unfold from_be_bytes. by rewrite from_be_bytes_acc. Qed.

Lemma be_word_range b : Forall (fun x => 0 <= x < 256) b -> 0 <= be_word b < 256 ^ Z.of_nat (length b).
Proof.
  induction 1 as [|x b Hx _ IH]; cbn [be_word length]; [by cbn|]. rewrite Nat2Z.inj_succ, Z.pow_succ_r by lia. nia.
Qed.

Lemma to_be_bytes_is n : forall x, to_be_bytes n x = be_bytes n x.
Proof.
  induction n as [|n IH]; intros x; [done|]. cbn [to_be_bytes]. rewrite IH. unfold be_bytes. rewrite seq_S, List.map_app. cbn [map]. f_equal.
  - apply List.map_ext_in. intros i Hi. apply in_seq in Hi. f_equal. rewrite Z.div_div by (lia || apply Z.pow_pos_nonneg; lia). f_equal. replace (S n - 1 - i)%nat with (S (n - 1 - i)) by lia.
    by rewrite Nat2Z.inj_succ, Z.pow_succ_r by lia.
  - replace (S n - 1 - (0 + n))%nat with 0%nat by lia. by rewrite Z.div_1_r.
Qed.

(** *** The schedule *)

Lemma block_words_is block : length block = block_len A -> Forall (fun x => 0 <= x < 256) block ->
  block_words A block = message_words F block /\ Forall (word F) (block_words A block) /\ length (block_words A block) = 16%nat.
Proof.
  intros Hl Hb. destruct (ag_bytes _ _ Hag) as (E1 & E2 & _ & E3 & _). assert (Heq : block_words A block = message_words F block).
  { unfold block_words, message_words. apply List.map_ext. intros t. rewrite <- E1, Nat.mul_comm. apply from_be_bytes_is. }
  split; [done|]. split; [|unfold block_words; by rewrite length_map, length_seq]. unfold block_words. apply Forall_map, Forall_forall. intros t Ht. cbn. rewrite from_be_bytes_is.
  set (b := take (word_bytes A) _). assert (Hlen : (length b <= word_bytes A)%nat) by (unfold b; rewrite length_take; lia). assert (H := be_word_range b ltac:(by apply Forall_take, Forall_drop)).
  split; [apply H|]. apply Z.lt_le_trans with (256 ^ Z.of_nat (length b)); [apply H|]. change 256 with (2 ^ 8). rewrite <- Z.pow_mul_r by lia. apply Z.pow_le_mono_r; lia.
Qed.

Lemma nth_word l k : Forall (word F) l -> word F (nth k l 0).
Proof. intros H. destruct (nth_in_or_default k l 0) as [Hin| ->]; [rewrite Forall_forall in H; apply H; by apply list_elem_of_In|]. split; [lia|]. apply Z.pow_pos_nonneg; lia. Qed.

Lemma extend_is ws : (16 <= length ws)%nat -> Forall (word F) ws ->
  rev (extend A ws (length ws)) = next_word F (rev ws) :: rev ws /\ Forall (word F) (extend A ws (length ws)).
Proof.
  intros Hl Hw. unfold extend, next_word. destruct (ag_big _ _ Hag) as (_ & _ & S0 & S1). assert (Hrot := ag_rotations _ _ Hag). repeat match goal with H : Forall _ (_ :: _) |- _ => apply Forall_cons in H as [? H] end.
  assert (Hn : forall k, (1 <= k <= 16)%nat -> nth (k - 1) (rev ws) 0 = nth (length ws - k) ws 0) by (intros k Hk; rewrite rev_nth by lia; f_equal; lia).
  rewrite !Hn by lia. rewrite !mix3_is by (done || by apply nth_word). rewrite S0, S1. unfold wrapping_add, modulo. rewrite (proj1 (ag_bits _ _ Hag)).
  set (x0 := nth (length ws - 16) ws 0). set (x1 := small F (sigma0 F) _). set (x2 := nth (length ws - 7) ws 0). set (x3 := small F (sigma1 F) _).
  assert (E : (((x0 + x1) mod 2 ^ w + x2) mod 2 ^ w + x3) mod 2 ^ w = (x3 + x2 + x1 + x0) mod 2 ^ w).
  { rewrite Z.add_mod_idemp_l by (apply Z.pow_nonzero; lia). replace ((x0 + x1) mod 2 ^ w + x2 + x3) with ((x0 + x1) mod 2 ^ w + (x2 + x3)) by lia.
    rewrite Z.add_mod_idemp_l by (apply Z.pow_nonzero; lia). f_equal. lia. }
  rewrite E. split; [by rewrite rev_app_distr|]. apply Forall_app. split; [done|]. constructor; [apply word_modulo|constructor].
Qed.

Lemma extends_is n : forall ws, (16 <= length ws)%nat -> Forall (word F) ws ->
  let ws' := fold_left (extend A) (seq (length ws) n) ws in rev ws' = expand F n (rev ws) /\ Forall (word F) ws' /\ length ws' = (length ws + n)%nat.
Proof.
  induction n as [|n IH]; intros ws Hl Hw; cbn [seq fold_left expand]; [split; [done|]; split; [done|lia]|]. destruct (extend_is ws Hl Hw) as [E Hw']. rewrite <- E.
  assert (Hlen : length (extend A ws (length ws)) = S (length ws)) by (unfold extend; rewrite length_app; cbn; lia). rewrite <- Hlen.
  destruct (IH (extend A ws (length ws)) ltac:(lia) Hw') as (H1 & H2 & H3). split; [done|]. split; [done|]. rewrite H3, Hlen. lia.
Qed.

Lemma schedule_is block : length block = block_len A -> Forall (fun x => 0 <= x < 256) block ->
  schedule A block = Fips.schedule F block /\ Forall (word F) (schedule A block).
Proof.
  intros Hl Hb. destruct (block_words_is block Hl Hb) as (E & Hw & H16). destruct (ag_ks _ _ Hag) as (_ & Hk & _). unfold schedule. rewrite <- H16 at 1.
  destruct (extends_is (length (ks A) - 16) (block_words A block) ltac:(lia) Hw) as (H1 & H2 & _). split; [|done].
  unfold Fips.schedule. rewrite <- Hk, <- E, <- H1. by rewrite rev_involutive.
Qed.

(** *** Blocks *)

Lemma compress_is r block : length block = block_len A -> Forall (fun x => 0 <= x < 256) block -> Forall (word F) (regs_list r) ->
  regs_list (compress A r block) = step F (regs_list r) block /\ Forall (word F) (regs_list (compress A r block)).
Proof.
  intros Hl Hb Hr. destruct (schedule_is block Hl Hb) as [Es Hs]. assert (Hks := ag_k _ _ Hag). unfold compress, step. rewrite <- Es, <- (proj1 (ag_ks _ _ Hag)).
  destruct (rounds_is (zip (ks A) (schedule A block))) with (r := r) as [Ev Hv]; [|done|].
  { apply Forall_forall. intros [k x] Hin. rewrite Forall_forall in Hks, Hs. split; cbn; [apply Hks; by eapply elem_of_zip_l|apply Hs; by eapply elem_of_zip_r]. }
  rewrite <- Ev. set (v := fold_left (round A) _ r). destruct r as [a b c d e f g h], v as [a' b' c' d' e' f' g' h']. cbn [regs_list ra rb rc rd re rf rg rh zip_with regs_of nth].
  assert (Hm : forall x y, wrapping_add A x y = (x + y) mod 2 ^ w) by (intros; unfold wrapping_add, modulo; by rewrite (proj1 (ag_bits _ _ Hag))).
  rewrite !Hm. split; [done|]. repeat apply Forall_cons_2; try done; apply word_modulo.
Qed.

Lemma blocks_is p : Forall (fun x => 0 <= x < 256) p -> forall n k r, ((k + n) * block_len A <= length p)%nat -> Forall (word F) (regs_list r) ->
  regs_list (fold_blocks A n r (drop (k * block_len A) p)) = fold_left (fun H i => step F H (Fips.block F p i)) (seq k n) (regs_list r).
Proof.
  intros Hb. destruct (ag_bytes _ _ Hag) as (_ & E & _). induction n as [|n IH]; intros k r Hp Hr; [done|]. cbn [fold_blocks seq fold_left]. unfold Fips.block at 2. rewrite <- E.
  destruct (compress_is r (take (block_len A) (drop (k * block_len A) p))) as [H1 H2]; [rewrite length_take, length_drop; lia|by apply Forall_take, Forall_drop|done|].
  rewrite drop_drop, <- H1. replace (k * block_len A + block_len A)%nat with (S k * block_len A)%nat by lia. apply IH; [lia|done].
Qed.

(** *** Padding *)

Lemma padded_is m : padded A m = pad F m.
Proof.
  destruct (ag_bytes _ _ Hag) as (_ & E2 & E3 & _ & E4). unfold padded, pad, zeros. rewrite to_be_bytes_is, <- E3. do 4 f_equal. rewrite E2. unfold block_bytes.
  assert (Hw := width_pos). assert (El : w = 4 * Z.of_nat (len_bytes A)) by lia. rewrite Nat2Z.inj_mul. change (Z.of_nat 2) with 2. set (L := Z.of_nat (len_bytes A)) in *. rewrite El.
  replace (14 * (4 * L) - (8 * len m + 8)) with (8 * (7 * L - 1 - len m)) by lia. replace (16 * (4 * L)) with (8 * (8 * L)) by lia. rewrite Z.mul_mod_distr_l by lia.
  rewrite (Z.mul_comm 8 (_ mod _)), Z.div_mul by lia. replace (2 * (4 * L) - L - 1 - len m) with (7 * L - 1 - len m) by lia. by replace (2 * (4 * L)) with (8 * L) by lia.
Qed.

Lemma padded_bytes m : Forall (fun x => 0 <= x < 256) m -> Forall (fun x => 0 <= x < 256) (padded A m).
Proof.
  intros Hm. unfold padded. apply Forall_app. split; [done|]. constructor; [lia|]. apply Forall_app. split; [apply Forall_forall; intros x [-> _]%elem_of_replicate; lia|].
  rewrite to_be_bytes_is. unfold be_bytes. apply Forall_map, Forall_forall. intros i _. cbn. apply Z.mod_pos_bound. lia.
Qed.

(** The hash of the code's block function is the standard's. *)
Lemma block_hash_is iv out_len m : iv = initial F -> out_len = size F -> length iv = 8%nat -> Forall (word F) iv -> Forall (fun x => 0 <= x < 256) m ->
  block_hash A iv out_len m = hash F m.
Proof.
  intros Eiv -> H8 Hiv Hm. destruct (ag_bytes _ _ Hag) as (E1 & E2 & _). unfold block_hash, hash, output, portable_blocks. cbn zeta. rewrite padded_is, E2, <- E1, <- Eiv.
  assert (Hregs : regs_list (regs_of iv) = iv) by (do 9 (destruct iv as [|? iv]; [done|]); done).
  set (n := (length (pad F m) / block_bytes F)%nat). assert (Hn : (n * block_len A <= length (pad F m))%nat) by (rewrite E2; unfold n; rewrite Nat.mul_comm; apply Nat.Div0.mul_div_le).
  assert (H := blocks_is (pad F m)). rewrite <- padded_is in H at 1. specialize (H (padded_bytes m Hm) n 0%nat (regs_of iv) ltac:(done)). rewrite Hregs in H. cbn [Nat.mul] in H. rewrite drop_0 in H.
  rewrite (H Hiv). do 2 f_equal. apply List.map_ext. intros x. apply to_be_bytes_is.
Qed.
End fips.

Definition standard_of (a : HashAlg) : Standard := match a with Sha256 => sha256 | Sha384 => sha384 | Sha512 => sha512 end.

Definition wordb (F : Standard) (x : Z) : bool := (0 <=? x) && (x <? 2 ^ Z.of_nat (width F)).

Lemma wordb_all F l : forallb (wordb F) l = true -> Forall (word F) l.
Proof.
  rewrite List.forallb_forall, Forall_forall. intros H x Hx%list_elem_of_In%H. apply andb_true_iff in Hx as [H1 H2]. unfold word. lia.
Qed.

(** The constants of the code are those of the standard, which are computed
    from the primes. *)
Lemma algos_agree a : agrees (algo_of a) (standard_of a).
Proof.
  assert (Hk : ks (algo_of a) = K (standard_of a)) by (destruct a; vm_compute; done).
  assert (Hn : (length (ks (algo_of a)) = rounds (standard_of a) /\ 16 <= rounds (standard_of a))%nat) by (destruct a; vm_compute; lia).
  split; [destruct a; vm_compute; lia|exact (conj Hk Hn)|destruct a; repeat split| |destruct a; vm_compute; lia|].
  - destruct a; vm_compute; repeat constructor.
  - destruct a; apply wordb_all; vm_compute; done.
Qed.

Lemma iv_is a : iv_of a = initial (standard_of a) /\ length (iv_of a) = 8%nat /\ Forall (word (standard_of a)) (iv_of a) /\ output_len a = size (standard_of a).
Proof. destruct a; (split; [vm_compute; done|split; [done|split; [apply wordb_all; vm_compute; done|done]]]). Qed.

(** C23: a SHA-2 hash is that of the message, however it is fed.  A running
    hash of any of the three variants that was fed a message of bytes in
    pieces, whatever they are (empty ones, parts of blocks, many blocks at
    once), gives the digest that FIPS 180-4 defines of the whole message: the
    standard's functions bit by bit, its constants computed from the primes,
    its padding and its rounds ([Fips]), none of them taken from the code.
    That is what hashing the message at once gives, and it has the length the
    variant says. *)
Theorem sha2_streaming a pieces : Forall (Forall (fun x => 0 <= x < 256)) pieces ->
  let h := fold_left (fun h d => feed a d h) pieces (start a) in
  finalize a h = Fips.hash (standard_of a) (concat pieces) /\
  digest a (concat pieces) = finalize a h /\ length (finalize a h) = output_len a.
Proof.
  intros Hb h. assert (Hf : fed (algo_of a) (iv_of a) (concat pieces) h) by (apply (fed_pieces _ _ (algos_ok a) pieces []), fed_new, algos_ok).
  assert (He := finish_is _ _ (algos_ok a) _ _ (output_len a) Hf). destruct (iv_is a) as (I1 & I2 & I3 & I4).
  rewrite (block_hash_is _ _ (algos_agree a) _ _ _ I1 I4 I2 I3) in He by by apply Forall_concat. split; [exact He|]. split.
  - unfold digest. unfold finalize at 2. rewrite He. rewrite <- (block_hash_is _ _ (algos_agree a) _ _ _ I1 I4 I2 I3) by by apply Forall_concat.
    apply (finish_is _ _ (algos_ok a)). apply (fed_update _ _ (algos_ok a) []), fed_new, algos_ok.
  - apply finalize_length.
Qed.

(** "abc", in three pieces of which one is empty. *)
Lemma sha2_streaming_witness :
  let h := feed Sha512 [98; 99] (feed Sha512 [] (feed Sha512 [97] (start Sha512))) in
  finalize Sha512 h = Fips.hash sha512 [97; 98; 99] /\ length (finalize Sha512 h) = 64%nat.
Proof.
  assert (Hb : Forall (Forall (fun x => 0 <= x < 256)) [[97]; []; [98; 99]]) by (repeat constructor; lia).
  destruct (sha2_streaming Sha512 [[97]; []; [98; 99]] Hb) as (H1 & _ & H2). split; [exact H1|exact H2].
Defined.

(** The hash of nothing, the message "abc", and a message of two blocks in
    pieces. *)
Example known_digests :
  from_be_bytes (digest Sha256 []) = 0xe3b0c44298fc1c149afbf4c8996fb92427ae41e4649b934ca495991b7852b855 /\
  from_be_bytes (digest Sha256 [97; 98; 99]) = 0xba7816bf8f01cfea414140de5dae2223b00361a396177a9cb410ff61f20015ad /\
  from_be_bytes (digest Sha384 [97; 98; 99]) = 0xcb00753f45a35e8bb5a03d699ac65007272c32ab0eded1631a8b605a43ff5bed8086072ba1e7cc2358baeca134c825a7.
Proof. by vm_compute. Qed.
