(* ===== verification/Tlog.v ===== *)
(** Transparency logs: [pratique/src/tlog.rs].

    Merkle tree hashes, the checks of inclusion and consistency proofs, and
    tiles of hashes: which tiles say what, and reading from them what they
    prove.  A hash is a list of 32 bytes, a size or an index a [Z]; the maps
    from tiles are stdpp's [gmap] (their order is never looked at).  A panic,
    or a recursion that does not end, is [Fault]. *)

From Stdlib Require Import ZArith Lia String.
From stdpp Require Import base option numbers list_numbers list gmap.
From S2P Require Import Prelude Slice Wire Sha2.

#[local] Open Scope Z_scope.

(** ** Hashes *)

Definition HASH_SIZE : Z := 32.

Abbreviation Hash := (list Z).

Definition EMPTY_ROOT : Hash :=
  [227; 176; 196; 66; 152; 252; 28; 20; 154; 251; 244; 200; 153; 111; 185; 36;
   39; 174; 65; 228; 100; 155; 147; 76; 164; 149; 153; 27; 120; 82; 184; 85].

Definition MAX_TREE_SIZE : Z := Z.shiftl 1 62.
Definition MAX_TILE_HEIGHT : Z := 30.

Record Tile := mk_tile { height : Z; t_level : Z; t_index : Z; width : Z }.

#[export] Instance tile_eq_dec : EqDecision Tile.
Proof. solve_decision. Defined.

#[export] Instance tile_countable : Countable Tile.
Proof.
  apply (inj_countable' (fun t => (height t, t_level t, t_index t, width t)) (fun '(h, l, i, w) => mk_tile h l i w)). by intros [].
Defined.

Inductive Error : Type :=
| Invalid (why : string)
| BadProof
| MissingTile (t : Tile)
| TilesDoNotMatchRoot
| TileDoesNotMatchParent (t : Tile)
| RecordMismatch
| Fork (size : Z) (expected computed : Hash)
| Fault (f : fault).

Abbreviation res := (result Error).

(** [sha256_of(prefix, a, b)]: three pieces fed to the hash. *)
Definition sha256_of (prefix : Z) (a b : list Z) : Hash :=
  finalize Sha256 (feed Sha256 b (feed Sha256 a (feed Sha256 [prefix] (start Sha256)))).

Definition record_hash (record : list Z) : Hash := sha256_of 0 record [].

Definition node_hash (left right : Hash) : Hash := sha256_of 1 left right.

Record Tree := mk_tree { size : Z; root : Hash }.

Record Node := mk_node { level : Z; index : Z }.

(** ** Proofs *)

Definition odd (f : Z) : bool := Z.land f 1 =? 1.

(** [while f & 1 == 0 && f != 0 { f >>= 1; s >>= 1 }]. *)
Fixpoint skip_even (fuel : nat) (f s : Z) : res (Z * Z) :=
  match fuel with
  | O => Err (Fault NoFuel)
  | S fuel => if negb (odd f) && negb (f =? 0) then skip_even fuel (Z.shiftr f 1) (Z.shiftr s 1) else Ok (f, s)
  end.

Fixpoint inclusion_loop (proof : list Hash) (f s : Z) (r : Hash) : res (Z * Hash) :=
  match proof with
  | [] => Ok (s, r)
  | p :: proof =>
      if s =? 0 then Err BadProof
      else if odd f || (f =? s) then
        '(f, s) ← (if negb (odd f) then skip_even 65 f s else Ok (f, s));
        inclusion_loop proof (Z.shiftr f 1) (Z.shiftr s 1) (node_hash p r)
      else inclusion_loop proof (Z.shiftr f 1) (Z.shiftr s 1) (node_hash r p)
  end.

Definition verify_inclusion (proof : list Hash) (size : Z) (root : Hash) (index : Z) (leaf : Hash) : res unit :=
  if MAX_TREE_SIZE <? size then Err (Invalid "tree is too large")
  else if size <=? index then Err (Invalid "leaf index is not inside the tree")
  else
    '(s, r) ← inclusion_loop proof index (size - 1) leaf;
    if negb (s =? 0) || negb (bool_decide (r = root)) then Err BadProof else Ok tt.

Definition is_power_of_two (n : Z) : bool := (0 <? n) && (2 ^ Z.log2 n =? n).

(** [while f & 1 == 1 { f >>= 1; s >>= 1 }]. *)
Fixpoint skip_odd (fuel : nat) (f s : Z) : res (Z * Z) :=
  match fuel with
  | O => Err (Fault NoFuel)
  | S fuel => if odd f then skip_odd fuel (Z.shiftr f 1) (Z.shiftr s 1) else Ok (f, s)
  end.

Fixpoint consistency_loop (path : list Hash) (f s : Z) (fr sr : Hash) : res (Z * Hash * Hash) :=
  match path with
  | [] => Ok (s, fr, sr)
  | c :: path =>
      if s =? 0 then Err BadProof
      else if odd f || (f =? s) then
        '(f, s) ← (if negb (odd f) then skip_even 65 f s else Ok (f, s));
        consistency_loop path (Z.shiftr f 1) (Z.shiftr s 1) (node_hash c fr) (node_hash c sr)
      else consistency_loop path (Z.shiftr f 1) (Z.shiftr s 1) fr (node_hash sr c)
  end.

Definition verify_consistency (proof : list Hash) (old_size : Z) (old_root : Hash) (new_size : Z) (new_root : Hash) : res unit :=
  if (old_size =? 0) || (new_size <? old_size) || (MAX_TREE_SIZE <? new_size)
  then Err (Invalid "consistency needs 1 <= old size <= new size <= the largest tree")
  else if old_size =? new_size then
    if bool_decide (proof = []) && bool_decide (old_root = new_root) then Ok tt else Err BadProof
  else
    match (if is_power_of_two old_size then [old_root] else []) ++ proof with
    | [] => Err BadProof
    | first :: path =>
        '(f, s) ← skip_odd 65 (old_size - 1) (new_size - 1);
        '(s, fr, sr) ← consistency_loop path f s first first;
        if negb (s =? 0) || negb (bool_decide (fr = old_root)) || negb (bool_decide (sr = new_root)) then Err BadProof else Ok tt
    end.

(** ** Tiles *)

Definition full_width (t : Tile) : option Z := if (0 <=? height t) && (height t <? 32) then Some (Z.shiftl 1 (height t)) else None.

Definition is_full (t : Tile) : bool := bool_decide (full_width t = Some (width t)).

Definition full (t : Tile) : Tile := mk_tile (height t) (t_level t) (t_index t) (default (width t) (full_width t)).

Definition data_len (t : Tile) : Z := width t * HASH_SIZE.

Definition validate (t : Tile) : res unit :=
  if (height t <? 1) || (MAX_TILE_HEIGHT <? height t) then Err (Invalid "tile height must be 1 to 30")
  else if (width t <? 1) || (Z.shiftl 1 (height t) <? width t) then Err (Invalid "tile width must be 1 to 2^height")
  else
    let lh := t_level t * height t in
    if (62 <? lh) || (Z.shiftl 1 (62 - lh) <=? Z.shiftl (t_index t) (height t)) then Err (Invalid "tile is outside the largest tree")
    else Ok tt.

(** A [TileSet]. *)
Abbreviation TileSet := (gmap Tile (list Z)).

Definition ts_insert (t : Tile) (data : list Z) (set : TileSet) : res TileSet :=
  _ ← validate t;
  if negb (len data =? data_len t) then Err (Invalid "tile data is not width * 32 bytes") else Ok (<[t := data]> set).

Definition ts_get (t : Tile) (set : TileSet) : option (list Z) :=
  match set !! t with
  | Some d => Some d
  | None =>
      match set !! full t with
      | Some d => if data_len t <=? len d then Some (take (Z.to_nat (data_len t)) d) else None
      | None => None
      end
  end.

Definition ts_len (set : TileSet) : Z := Z.of_nat (base.size set).

(** The halves of the entries, until there is one. *)
Fixpoint subtree_loop (fuel : nat) (entries : list Z) : res Hash :=
  match fuel with
  | O => Err (Fault NoFuel)
  | S fuel =>
      if len entries =? HASH_SIZE then Ok entries
      else
        let mid := (length entries / 2)%nat in
        l ← subtree_loop fuel (take mid entries);
        r ← subtree_loop fuel (drop mid entries);
        Ok (node_hash l r)
  end.

Definition subtree_hash (entries : list Z) : res Hash := subtree_loop (S (length entries)) entries.

(** The loop of [subtrees], over the levels from the highest. *)
Fixpoint subtrees_loop (levels : list Z) (size at_ : Z) : list Node :=
  match levels with
  | [] => []
  | l :: levels =>
      if odd (Z.shiftr size l) then mk_node l (Z.shiftr at_ l) :: subtrees_loop levels size (u64 (at_ + Z.shiftl 1 l))
      else subtrees_loop levels size at_
  end.

Definition subtrees (size : Z) : list Node := subtrees_loop (rev (map Z.of_nat (seq 0 63))) size 0.

Definition fold_subtrees (hashes : list Hash) : Hash :=
  match rev hashes with [] => EMPTY_ROOT | h :: hs => fold_left (fun h x => node_hash x h) hs h end.

(** The tile, and the entries of it under the node. *)
Definition node_tile (height : Z) (n : Node) : Tile * Z * Z :=
  let tl := level n / height in
  let sub := level n - tl * height in
  let i := Z.shiftr (u64 (Z.shiftl (index n) sub)) height in
  let within := u64 (index n - Z.shiftr (u64 (Z.shiftl i height)) sub) in
  let end_ := u64 (Z.shiftl (u64 (within + 1)) sub) in
  (mk_tile height tl i (end_ mod (U32_MAX + 1)), u64 (Z.shiftl within sub), end_).

Definition tile_ancestor (t : Tile) (k size : Z) : option Tile :=
  if U32_MAX <? t_level t + k then None
  else
    let level := t_level t + k in
    let lh := level * height t in
    if 62 <? lh then None
    else
      let index := Z.shiftr (t_index t) (Z.min (k * height t) 63) in
      let max := Z.shiftr size lh in
      let start := Z.shiftl index (height t) in
      let width := Z.shiftl 1 (height t) in
      if max <=? start + width then
        if max <=? start then None else Some (mk_tile (height t) level index ((max - start) mod (U32_MAX + 1)))
      else Some (mk_tile (height t) level index (width mod (U32_MAX + 1))).

(** ** Planning *)

Record Plan := mk_plan { tiles : list Tile; edge : list (Node * Z); edge_tiles : Z; node_at : list Z }.

(** The tiles that are planned, and the place of each. *)
Record Planned := mk_planned { p_tiles : list Tile; p_order : gmap Tile Z }.

Definition add_tile (t : Tile) (p : Planned) : Planned := mk_planned (p_tiles p ++ [t]) (<[t := len (p_tiles p)]> (p_order p)).

Fixpoint plan_edge (height size : Z) (xs : list Node) (p : Planned) : res (list (Node * Z) * Planned) :=
  match xs with
  | [] => Ok ([], p)
  | x :: xs =>
      match tile_ancestor (fst (fst (node_tile height x))) 0 size with
      | None => Err (Invalid "no tile for a right-edge node")
      | Some t =>
          let '(at_, p) := match p_order p !! t with Some j => (j, p) | None => (len (p_tiles p), add_tile t p) end in
          '(edge, p) ← plan_edge height size xs p;
          Ok ((x, at_) :: edge, p)
      end
  end.

(** The loop up to a tile that is planned. *)
Fixpoint find_ancestor (fuel : nat) (t : Tile) (k size : Z) (p : Planned) : res (Z * Z) :=
  match fuel with
  | O => Err (Fault NoFuel)
  | S fuel =>
      match tile_ancestor t k size with
      | None => Err (Invalid "no parent tile")
      | Some a =>
          match p_order p !! a with
          | Some j => Ok (k, j)
          | None => if 64 <? k + 1 then Err (Invalid "no parent tile") else find_ancestor fuel t (k + 1) size p
          end
      end
  end.

(** The loop back down: [for k in (0..top).rev()]. *)
Fixpoint plan_down (t : Tile) (size : Z) (n : nat) (p : Planned) : res Planned :=
  match n with
  | O => Ok p
  | S k =>
      match tile_ancestor t (Z.of_nat k) size with
      | None => Err (Invalid "no parent tile")
      | Some a => if negb (is_full a) then Err (Invalid "a partial tile has a parent") else plan_down t size k (add_tile a p)
      end
  end.

Fixpoint plan_nodes (height size : Z) (xs : list Node) (p : Planned) : res (list Z * Planned) :=
  match xs with
  | [] => Ok ([], p)
  | x :: xs =>
      let t := fst (fst (node_tile height x)) in
      '(top, j) ← find_ancestor 66 t 0 size p;
      '(mine, p) ← (if top =? 0 then Ok (j, p) else p' ← plan_down t size (Z.to_nat top) p; Ok (len (p_tiles p') - 1, p'));
      '(at_, p) ← plan_nodes height size xs p;
      Ok (mine :: at_, p)
  end.

Definition plan (size height : Z) (nodes : list Node) : res Plan :=
  if (height <? 1) || (MAX_TILE_HEIGHT <? height) then Err (Invalid "tile height must be 1 to 30")
  else if MAX_TREE_SIZE <? size then Err (Invalid "tree is larger than 2^62 leaves")
  else if existsb (fun n => (62 <? level n) || (size <? Z.shiftl (index n + 1) (level n))) nodes then Err (Invalid "node is not inside the tree")
  else
    '(edge, p) ← plan_edge height size (subtrees size) (mk_planned [] ∅);
    let edge_tiles := len (p_tiles p) in
    '(at_, p) ← plan_nodes height size nodes p;
    Ok (mk_plan (p_tiles p) edge edge_tiles at_).

Definition tiles_for (size height : Z) (nodes : list Node) : res (list Tile) := p ← plan size height nodes; Ok (tiles p).

(** ** Reading *)

Definition hash_from_tile (t : Tile) (data : list Z) (n : Node) : res Hash :=
  _ ← validate t;
  if len data <? data_len t then Err (Invalid "tile data is too short")
  else
    let '(need, start, end_) := node_tile (height t) n in
    if negb (t_level t =? t_level need) || negb (t_index t =? t_index need) || (width t <? width need) then Err (Invalid "the node is not in this tile")
    else
      match slice (start * HASH_SIZE) (end_ * HASH_SIZE) data with
      | None => Err (Fault Panic)
      | Some entries => subtree_hash entries
      end.

Fixpoint get_tiles (ts : list Tile) (set : TileSet) : res (list (list Z)) :=
  match ts with
  | [] => Ok []
  | t :: ts =>
      match ts_get t set with
      | None => Err (MissingTile t)
      | Some d =>
          if negb (len d =? data_len t) then Err (Invalid "tile data is not width * 32 bytes")
          else ds ← get_tiles ts set; Ok (d :: ds)
      end
  end.

(** [v[i]]: a panic out of range. *)
Definition at_ {A} (i : Z) (v : list A) : res A := match v !! Z.to_nat i with Some x => Ok x | None => Err (Fault Panic) end.

Definition node_hash_at (ts : list Tile) (data : list (list Z)) (n : Node) (i : Z) : res Hash :=
  t ← at_ i ts; d ← at_ i data; hash_from_tile t d n.

Fixpoint hashes_at (ts : list Tile) (data : list (list Z)) (ns : list (Node * Z)) : res (list Hash) :=
  match ns with
  | [] => Ok []
  | (n, i) :: ns => h ← node_hash_at ts data n i; hs ← hashes_at ts data ns; Ok (h :: hs)
  end.

(** The place of a tile in the list ([position]: the last, as the map that is
    collected has it). *)
Definition position (ts : list Tile) : gmap Tile Z := list_to_map (rev (zip ts (map Z.of_nat (seq 0 (length ts))))).

(** The check of tile [i] against the entry of its parent. *)
Definition check_child (size height : Z) (ts : list Tile) (data : list (list Z)) (i : Z) : res unit :=
  t ← at_ i ts;
  match tile_ancestor t 1 size with
  | None => Err (Invalid "no parent tile")
  | Some parent =>
      match position ts !! parent with
      | None => Err (Invalid "a tile was planned before its parent")
      | Some pj =>
          if i <=? pj then Err (Invalid "a tile was planned before its parent")
          else
            pd ← at_ pj data;
            h ← hash_from_tile parent pd (mk_node (t_level parent * height) (t_index t));
            d ← at_ i data;
            mine ← subtree_hash d;
            if bool_decide (h = mine) then Ok tt else Err (TileDoesNotMatchParent t)
      end
  end.

Fixpoint check_children (size height : Z) (ts : list Tile) (data : list (list Z)) (is_ : list Z) : res unit :=
  match is_ with
  | [] => Ok tt
  | i :: is_ => _ ← check_child size height ts data i; check_children size height ts data is_
  end.

Definition read_nodes (tree : Tree) (height : Z) (nodes : list Node) (set : TileSet) : res (list Hash) :=
  p ← plan (size tree) height nodes;
  data ← get_tiles (tiles p) set;
  if bool_decide (edge p = []) then Ok []
  else
    edge_hashes ← hashes_at (tiles p) data (edge p);
    if negb (bool_decide (fold_subtrees edge_hashes = root tree)) then Err TilesDoNotMatchRoot
    else
      let n := Z.to_nat (edge_tiles p) in
      _ ← check_children (size tree) height (tiles p) data (map Z.of_nat (seq n (length (tiles p) - n)));
      hashes_at (tiles p) data (zip nodes (node_at p)).

(** ** Records and prefixes *)

Definition tiles_for_record (size height index : Z) : res (list Tile) :=
  if size <=? index then Err (Invalid "record index is not inside the tree") else tiles_for size height [mk_node 0 index].

Definition check_record (tree : Tree) (height index : Z) (leaf : Hash) (set : TileSet) : res unit :=
  if size tree <=? index then Err (Invalid "record index is not inside the tree")
  else
    got ← read_nodes tree height [mk_node 0 index] set;
    if bool_decide (head got = Some leaf) then Ok tt else Err RecordMismatch.

Definition tiles_for_prefix (newer_size height older_size : Z) : res (list Tile) :=
  if MAX_TREE_SIZE <? newer_size then Err (Invalid "tree is larger than 2^62 leaves")
  else if newer_size <? older_size then Err (Invalid "the older tree is larger than the newer one")
  else if (older_size =? 0) || (older_size =? newer_size) then Ok []
  else tiles_for newer_size height (subtrees older_size).

Definition check_prefix (older newer : Tree) (height : Z) (set : TileSet) : res unit :=
  if MAX_TREE_SIZE <? size newer then Err (Invalid "tree is larger than 2^62 leaves")
  else if size newer <? size older then Err (Invalid "the older tree is larger than the newer one")
  else
    computed ← (if size older =? 0 then Ok EMPTY_ROOT
                else if size older =? size newer then Ok (root newer)
                else hashes ← read_nodes newer height (subtrees (size older)) set; Ok (fold_subtrees hashes));
    if negb (bool_decide (computed = root older)) then Err (Fork (size older) (root older) computed) else Ok tt.
