(* ===== verification/Merkle.v ===== *)
(** Merkle trees as RFC 6962 defines them, and what the checks of proofs in
    [Tlog] decide about them.

    A tree is the list of its leaf hashes.  [mth], [audit_path] and [subproof]
    are the definitions of RFC 6962 section 2.1, which split a list at the
    largest power of two below its length.  The checks go up the tree level by
    level, so the proofs do too: [up] makes the next level, where a last node
    without a sibling moves up as it is. *)

From Stdlib Require Import ZArith Lia.
From stdpp Require Import base option numbers list_numbers list.
From S2P Require Import Prelude Slice Sha2 Tlog.

#[local] Opaque node_hash.

(** ** RFC 6962 *)

(** The largest power of two below [n]. *)
Definition split_at (n : nat) : nat := 2 ^ Nat.log2 (n - 1).

Fixpoint mth_of (fuel : nat) (l : list Hash) : Hash :=
  match fuel, l with
  | _, [] => EMPTY_ROOT
  | _, [x] => x
  | O, _ => EMPTY_ROOT
  | S fuel, _ => let k := split_at (length l) in node_hash (mth_of fuel (take k l)) (mth_of fuel (drop k l))
  end.

Definition mth (l : list Hash) : Hash := mth_of (length l) l.

(** PATH(m, D[n]). *)
Fixpoint audit_of (fuel m : nat) (l : list Hash) : list Hash :=
  match fuel, l with
  | _, [] | _, [_] | O, _ => []
  | S fuel, _ =>
      let k := split_at (length l) in
      if m <? k then audit_of fuel m (take k l) ++ [mth (drop k l)] else audit_of fuel (m - k) (drop k l) ++ [mth (take k l)]
  end.

Definition audit_path (m : nat) (l : list Hash) : list Hash := audit_of (length l) m l.

(** SUBPROOF(m, D[n], b), and PROOF(m, D[n]). *)
Fixpoint subproof (fuel m : nat) (l : list Hash) (b : bool) : list Hash :=
  match fuel with
  | O => []
  | S fuel =>
      if m =? length l then if b then [] else [mth l]
      else
        let k := split_at (length l) in
        if m <=? k then subproof fuel m (take k l) b ++ [mth (drop k l)] else subproof fuel (m - k) (drop k l) false ++ [mth (take k l)]
  end.

Definition consistency_proof (m : nat) (l : list Hash) : list Hash := subproof (length l) m l true.

(** ** Levels *)

Fixpoint up (l : list Hash) : list Hash :=
  match l with a :: b :: r => node_hash a b :: up r | _ => l end.

(** The pairs that are hashed to make the next level, and all levels. *)
Fixpoint pairs (l : list Hash) : list (Hash * Hash) :=
  match l with a :: b :: r => (a, b) :: pairs r | _ => [] end.

Fixpoint level_of (n : nat) (l : list Hash) : list Hash := match n with O => l | S n => level_of n (up l) end.

(** Every pair that is hashed to make the tree. *)
Fixpoint tree_pairs_of (fuel : nat) (l : list Hash) : list (Hash * Hash) :=
  match fuel with
  | O => []
  | S fuel => pairs l ++ tree_pairs_of fuel (up l)
  end.

Definition tree_pairs (l : list Hash) : list (Hash * Hash) := tree_pairs_of (length l) l.

(** Two different pairs, one of each list, with the same hash. *)
Definition collision (P Q : list (Hash * Hash)) : Prop :=
  exists p q, p ∈ P /\ q ∈ Q /\ p <> q /\ node_hash (fst p) (snd p) = node_hash (fst q) (snd q).

Lemma collision_mono P P' Q Q' : P ⊆ P' -> Q ⊆ Q' -> collision P Q -> collision P' Q'.
Proof. intros HP HQ (p & q & H1 & H2 & H). exists p, q. auto. Qed.

(** ** The levels make the tree *)

Lemma two_step {A} (P : list A -> Prop) : P [] -> (forall x, P [x]) -> (forall x y l, P l -> P (x :: y :: l)) -> forall l, P l.
Proof. intros H0 H1 H2 l. assert (H : P l /\ forall x, P (x :: l)); [|apply H]. induction l as [|x l [IH1 IH2]]; auto. Qed.

Lemma up_length l : length (up l) = ((length l + 1) / 2)%nat.
Proof.
  induction l as [|x|x y l IH] using two_step; [done|done|]. cbn [up length]. rewrite IH. replace (S (S (length l)) + 1)%nat with (length l + 1 + 1 * 2)%nat by lia. rewrite Nat.div_add by lia. lia.
Qed.

Lemma up_shorter l : (2 <= length l)%nat -> (length (up l) < length l /\ 1 <= length (up l))%nat.
Proof. intros H. rewrite up_length. split; [apply Nat.Div0.div_lt_upper_bound; lia|apply Nat.div_le_lower_bound; lia]. Qed.

Lemma up_app l l' : Nat.Even (length l) -> up (l ++ l') = up l ++ up l'.
Proof.
  induction l as [|x|x y l IH] using two_step; intros He; [done|by destruct He; cbn in *; lia|]. cbn [app up]. rewrite IH; [done|]. destruct He as [k Hk]. exists (k - 1)%nat. cbn in Hk. lia.
Qed.

Lemma pairs_app l l' : Nat.Even (length l) -> pairs (l ++ l') = pairs l ++ pairs l'.
Proof.
  induction l as [|x|x y l IH] using two_step; intros He; [done|by destruct He; cbn in *; lia|]. cbn [app pairs]. rewrite IH; [done|]. destruct He as [k Hk]. exists (k - 1)%nat. cbn in Hk. lia.
Qed.

(** The split of a list of two or more. *)
Lemma split_at_spec n : (2 <= n)%nat -> (1 <= split_at n < n /\ n <= 2 * split_at n)%nat.
Proof.
  intros H. unfold split_at. destruct (Nat.log2_spec (n - 1)) as [H1 H2]; [lia|]. cbn [Nat.pow] in H2. lia.
Qed.

Lemma split_at_half n : (3 <= n)%nat -> split_at n = (2 * split_at ((n + 1) / 2))%nat.
Proof.
  intros H. unfold split_at. assert (Hh : ((n - 1) / 2 = (n + 1) / 2 - 1)%nat).
  { replace (n + 1)%nat with (n - 1 + 1 * 2)%nat by lia. rewrite Nat.div_add by lia. lia. }
  rewrite <- Hh. set (m := (n - 1)%nat) in *. assert (Hm : (2 <= m)%nat) by lia. clearbody m. rewrite <- Nat.pow_succ_r'. f_equal.
  assert (H1 := Nat.log2_spec m ltac:(lia)). assert (Hpos : (1 <= m / 2)%nat) by (apply Nat.div_le_lower_bound; lia). apply Nat.log2_unique; [lia|].
  assert (H2 := Nat.log2_spec (m / 2) ltac:(lia)). assert (Hd := Nat.div_mod m 2 ltac:(lia)). assert (Hr := Nat.mod_upper_bound m 2 ltac:(lia)). cbn [Nat.pow] in *. lia.
Qed.

Lemma mth_of_enough n n' l : (length l <= n)%nat -> (length l <= n')%nat -> mth_of n l = mth_of n' l.
Proof.
  revert n' l. induction n as [|n IH]; intros n' l Hn Hn'; destruct l as [|x [|y l]]; try (by destruct n'); try (cbn in Hn; lia). destruct n' as [|n']; [cbn in Hn'; lia|].
  cbn [mth_of]. set (l' := x :: y :: l) in *. destruct (split_at_spec (length l')) as [[H1 H2] _]; [cbn; lia|]. f_equal; apply IH; rewrite ?length_take, ?length_drop; lia.
Qed.

Lemma mth_of_fuel n l : (length l <= n)%nat -> mth_of n l = mth l.
Proof. intros H. by apply mth_of_enough. Qed.

Lemma mth_of_S n l : (2 <= length l)%nat -> mth_of (S n) l = node_hash (mth_of n (take (split_at (length l)) l)) (mth_of n (drop (split_at (length l)) l)).
Proof. by destruct l as [|x [|y l]]; cbn; try lia. Qed.

Lemma mth_split l : (2 <= length l)%nat -> mth l = node_hash (mth (take (split_at (length l)) l)) (mth (drop (split_at (length l)) l)).
Proof.
  intros Hl. destruct (split_at_spec (length l) Hl) as [[H1 H2] _]. rewrite <- (mth_of_fuel (S (length l)) l) by lia. rewrite mth_of_S by done.
  f_equal; apply mth_of_fuel; rewrite ?length_take, ?length_drop; lia.
Qed.

Lemma mth_one x : mth [x] = x.
Proof. done. Qed.

Lemma mth_two x y : mth [x; y] = node_hash x y.
Proof. done. Qed.

(** The next level has the same root. *)
Lemma mth_up l : mth (up l) = mth l.
Proof.
  remember (length l) as k eqn:Hk. revert l Hk. induction k as [k IH] using lt_wf_ind. intros l ->. destruct (le_lt_dec (length l) 2) as [Hs|Hs].
  - by destruct l as [|x [|y [|z l]]]; cbn in Hs; try lia.
  - destruct (split_at_spec (length l) ltac:(lia)) as [[H1 H2] H3]. assert (Hh := split_at_half (length l) ltac:(lia)). rewrite <- up_length in Hh. set (s := split_at (length (up l))) in *.
    assert (Hul : (2 <= length (up l))%nat) by (rewrite up_length; apply Nat.div_le_lower_bound; lia).
    rewrite (mth_split l), (mth_split (up l)) by lia. fold s. rewrite Hh in *.
    assert (Htl : length (take (2 * s) l) = (2 * s)%nat) by (rewrite length_take; lia).
    assert (Hu : up l = up (take (2 * s) l) ++ up (drop (2 * s) l)) by (rewrite <- up_app, take_drop; [done|exists s; lia]).
    assert (Hus : length (up (take (2 * s) l)) = s) by (rewrite up_length, Htl, Nat.mul_comm, Nat.div_add_l by lia; cbn; lia).
    rewrite Hu, take_app_le, take_ge, drop_app_ge, Hus, Nat.sub_diag, drop_0 by lia. f_equal; [apply (IH (2 * s)%nat); [lia|done]|]. apply (IH (length l - 2 * s)%nat); [lia|]. by rewrite length_drop.
Qed.

(** A property of the root can be shown going up. *)
Lemma up_ind (P : list Hash -> Prop) : (forall x, P [x]) -> (forall l, (2 <= length l)%nat -> P (up l) -> P l) -> forall l, l <> [] -> P l.
Proof.
  intros H1 H2 l. remember (length l) as k eqn:Hk. revert l Hk. induction k as [k IH] using lt_wf_ind. intros l -> Hl. destruct l as [|x [|y l]]; [done|done|]. apply H2; [cbn; lia|].
  destruct (up_shorter (x :: y :: l)) as [Hs Hs']; [cbn; lia|]. apply (IH _ Hs); [done|]. intros He. rewrite He in Hs'. cbn in Hs'. lia.
Qed.

(** ** Indices on the levels *)

Lemma odd_nat i : odd (Z.of_nat i) = Nat.odd i.
Proof.
  unfold odd. change 1%Z with (Z.ones 1) at 1. rewrite Z.land_ones by done. change (2 ^ 1)%Z with (Z.of_nat 2). rewrite <- Nat2Z.inj_mod. rewrite <- Nat.bit0_odd, Nat.bit0_eqb.
  destruct (Nat.eqb_spec (i mod 2) 1), (Z.eqb_spec (Z.of_nat (i mod 2)) 1); (done || lia).
Qed.

Lemma half_nat i : Z.shiftr (Z.of_nat i) 1 = Z.of_nat (i / 2).
Proof. rewrite Z.shiftr_div_pow2 by done. change (2 ^ 1)%Z with (Z.of_nat 2). by rewrite <- Nat2Z.inj_div. Qed.

(** The last index of a level, halved, is that of the next. *)
Lemma half_last l : l <> [] -> Z.shiftr (Z.of_nat (length l - 1)) 1 = Z.of_nat (length (up l) - 1).
Proof.
  intros Hl. rewrite half_nat, up_length. f_equal. destruct l as [|x l]; [done|]. cbn [length]. replace (S (length l) + 1)%nat with (length l + 1 * 2)%nat by lia. rewrite Nat.div_add by lia. replace (S (length l) - 1)%nat with (length l) by lia. lia.
Qed.

Lemma half_inside i n : (i < n)%nat -> (i / 2 < (n + 1) / 2)%nat.
Proof.
  intros H. assert (H1 := Nat.div_mod i 2 ltac:(lia)). assert (H2 := Nat.div_mod (n + 1) 2 ltac:(lia)). assert (H3 := Nat.mod_upper_bound i 2 ltac:(lia)). assert (H4 := Nat.mod_upper_bound (n + 1) 2 ltac:(lia)). lia.
Qed.

Lemma even_odd i : Nat.odd i = false -> exists j, i = (2 * j)%nat.
Proof. intros H. assert (He : Nat.Even i) by (apply Nat.even_spec; rewrite <- Nat.negb_odd, H; done). destruct He as [j ->]. by exists j. Qed.

Lemma odd_odd i : Nat.odd i = true -> exists j, i = (2 * j + 1)%nat.
Proof. intros H%Nat.odd_spec. destruct H as [j ->]. by exists j. Qed.

Lemma up_lookup l j : up l !! j = match l !! (2 * j)%nat, l !! (2 * j + 1)%nat with Some a, Some b => Some (node_hash a b) | x, _ => x end.
Proof.
  revert j. induction l as [|x|x y l IH] using two_step; intros j.
  - by rewrite !lookup_nil.
  - destruct j as [|j]; [done|]. cbn [up]. by rewrite !lookup_ge_None_2 by (cbn; lia).
  - cbn [up]. destruct j as [|j]; [done|]. replace (2 * S j)%nat with (S (S (2 * j))) by lia. replace (S (S (2 * j)) + 1)%nat with (S (S (2 * j + 1))) by lia. cbn [lookup list_lookup]. apply IH.
Qed.

Lemma pairs_elem l j a b : l !! (2 * j)%nat = Some a -> l !! (2 * j + 1)%nat = Some b -> (a, b) ∈ pairs l.
Proof.
  revert j. induction l as [|x|x y l IH] using two_step; intros j Ha Hb; [by rewrite lookup_nil in Ha|by rewrite (lookup_ge_None_2 _ (2 * j + 1)) in Hb by (cbn; lia)|].
  cbn [pairs]. destruct j as [|j]; [injection Ha as <-; injection Hb as <-; left|]. right. apply (IH j).
  - by replace (2 * S j)%nat with (S (S (2 * j))) in Ha by lia.
  - by replace (2 * S j + 1)%nat with (S (S (2 * j + 1))) in Hb by lia.
Qed.

Lemma up_take j l : up (take (2 * j) l) = take j (up l).
Proof.
  revert j. induction l as [|x|x y l IH] using two_step; intros j; [by cbn [up]; rewrite !take_nil|by destruct j; [done|]; rewrite !take_ge by (cbn; lia)|]. destruct j as [|j]; [done|].
  replace (2 * S j)%nat with (S (S (2 * j))) by lia. cbn [take up]. by rewrite IH.
Qed.

Lemma up_drop j l : up (drop (2 * j) l) = drop j (up l).
Proof.
  revert j. induction l as [|x|x y l IH] using two_step; intros j; [by cbn [up]; rewrite !drop_nil|by destruct j; [done|]; rewrite !drop_ge by (cbn; lia)|]. destruct j as [|j]; [done|].
  replace (2 * S j)%nat with (S (S (2 * j))) by lia. cbn [drop up]. by rewrite IH.
Qed.

Lemma tree_pairs_of_mono m n l : (m <= n)%nat -> tree_pairs_of m l ⊆ tree_pairs_of n l.
Proof.
  revert n l. induction m as [|m IH]; intros n l H; [intros x Hx; by apply elem_of_nil in Hx|]. destruct n as [|n]; [lia|]. cbn [tree_pairs_of].
  intros x [Hx|Hx]%elem_of_app; apply elem_of_app; [by left|right]. by apply (IH n); [lia|].
Qed.

Lemma tree_pairs_up l : (2 <= length l)%nat -> pairs l ⊆ tree_pairs l /\ tree_pairs (up l) ⊆ tree_pairs l.
Proof.
  intros Hl. unfold tree_pairs. destruct (up_shorter l Hl) as [H1 H2]. destruct (length l) as [|n] eqn:He; [lia|]. cbn [tree_pairs_of]. split; intros x Hx; apply elem_of_app; [by left|right].
  revert Hx. apply tree_pairs_of_mono. lia.
Qed.

(** ** Audit paths, level by level *)

(** The sibling of a node, if it has one. *)
Definition sibling (i : nat) (l : list Hash) : list Hash :=
  if Nat.odd i then option_list (l !! (i - 1)%nat) else option_list (l !! (i + 1)%nat).

Lemma audit_of_enough n n' m l : (length l <= n)%nat -> (length l <= n')%nat -> audit_of n m l = audit_of n' m l.
Proof.
  revert n' m l. induction n as [|n IH]; intros n' m l Hn Hn'; destruct l as [|x [|y l]]; try (by destruct n'); try (cbn in Hn; lia). destruct n' as [|n']; [cbn in Hn'; lia|].
  cbn [audit_of]. set (l' := x :: y :: l) in *. destruct (split_at_spec (length l')) as [[H1 H2] _]; [cbn; lia|]. destruct (m <? split_at (length l'))%nat; f_equal; apply IH; rewrite ?length_take, ?length_drop; lia.
Qed.

Lemma audit_split m l : (2 <= length l)%nat -> let k := split_at (length l) in
  audit_path m l = if (m <? k)%nat then audit_path m (take k l) ++ [mth (drop k l)] else audit_path (m - k) (drop k l) ++ [mth (take k l)].
Proof.
  intros Hl k. destruct (split_at_spec (length l) Hl) as [[H1 H2] _]. unfold audit_path at 1. rewrite (audit_of_enough _ (S (length l))) by lia. destruct l as [|x [|y l]]; [cbn in Hl; lia|cbn in Hl; lia|]. set (l' := x :: y :: l) in *.
  change (audit_of (S (length l')) m l') with (if (m <? k)%nat then audit_of (length l') m (take k l') ++ [mth (drop k l')] else audit_of (length l') (m - k) (drop k l') ++ [mth (take k l')]).
  destruct (m <? k)%nat; f_equal; apply audit_of_enough; rewrite ?length_take, ?length_drop; lia.
Qed.

Lemma audit_nonempty m l : (2 <= length l)%nat -> audit_path m l <> [].
Proof. intros Hl. rewrite audit_split by done. destruct (m <? _)%nat; intros H; by apply app_nil in H as [_ H]. Qed.

Lemma sibling_take i j l : (i < 2 * j)%nat -> sibling i (take (2 * j) l) = sibling i l.
Proof.
  intros H. unfold sibling. destruct (Nat.odd i) eqn:Ho; [by rewrite lookup_take_lt by lia|]. destruct (even_odd _ Ho) as [k ->]. by rewrite lookup_take_lt by lia.
Qed.

Lemma sibling_drop i j l : (2 * j <= i)%nat -> sibling (i - 2 * j) (drop (2 * j) l) = sibling i l.
Proof.
  intros H. unfold sibling. assert (Ho : Nat.odd (i - 2 * j) = Nat.odd i) by (rewrite Nat.odd_sub, Nat.odd_mul by lia; cbn; by rewrite xorb_false_r). rewrite Ho, !lookup_drop.
  destruct (Nat.odd i) eqn:Hi; f_equal; f_equal; [|lia]. destruct (odd_odd _ Hi) as [k ->]. lia.
Qed.

Lemma audit_up i l : (i < length l)%nat -> audit_path i l = sibling i l ++ audit_path (i / 2) (up l).
Proof.
  remember (length l) as k eqn:Hk. revert i l Hk. induction k as [k IH] using lt_wf_ind. intros i l -> Hi. destruct (le_lt_dec (length l) 2) as [Hs|Hs].
  - destruct l as [|x [|y [|z l]]]; cbn in Hs, Hi; try lia; [by replace i with 0%nat by lia|]. destruct i as [|[|i]]; [done|done|lia].
  - destruct (split_at_spec (length l) ltac:(lia)) as [[H1 H2] H3]. assert (Hh := split_at_half (length l) ltac:(lia)). rewrite <- up_length in Hh. assert (Hul : (2 <= length (up l))%nat) by (rewrite up_length; apply Nat.div_le_lower_bound; lia).
    rewrite (audit_split i l), (audit_split (i / 2) (up l)) by lia. set (s := split_at (length (up l))) in *. rewrite Hh in *. rewrite <- up_take, <- up_drop, !mth_up.
    destruct (Nat.ltb_spec i (2 * s)) as [Hlt|Hge].
    + rewrite (proj2 (Nat.ltb_lt (i / 2) s)) by (apply Nat.Div0.div_lt_upper_bound; lia). rewrite (IH (2 * s)%nat) by (try lia; rewrite length_take; lia). by rewrite sibling_take, app_assoc by done.
    + assert (Hhalf : (s <= i / 2)%nat) by (apply Nat.div_le_lower_bound; lia). rewrite (proj2 (Nat.ltb_ge (i / 2) s)) by done.
      rewrite (IH (length l - 2 * s)%nat) by (try lia; rewrite length_drop; lia). rewrite sibling_drop, app_assoc by done. do 3 f_equal.
      replace i with (i - 2 * s + s * 2)%nat at 2 by lia. rewrite Nat.div_add by lia. lia.
Qed.

(** ** The loops, level by level *)

Lemma skip_even_fuel n n' f s x : skip_even n f s = Ok x -> (n <= n')%nat -> skip_even n' f s = Ok x.
Proof.
  revert n' f s. induction n as [|n IH]; intros n' f s H Hn; [done|]. destruct n' as [|n']; [lia|]. cbn [skip_even] in *. destruct (negb (odd f) && negb (f =? 0)%Z); [|done]. by apply IH; [|lia].
Qed.

Lemma skip_even_S n f s : skip_even (S n) f s = if negb (odd f) && negb (f =? 0)%Z then skip_even n (Z.shiftr f 1) (Z.shiftr s 1) else Ok (f, s).
Proof. done. Qed.

Lemma half_double j : Z.shiftr (Z.of_nat (2 * j)) 1 = Z.of_nat j.
Proof. by rewrite half_nat, (Nat.mul_comm 2), Nat.div_mul by lia. Qed.

Lemma odd_double j : Nat.odd (2 * j) = false.
Proof. by rewrite Nat.odd_mul. Qed.

Lemma skip_even_ok n i s : (0 < i)%nat -> (Z.of_nat i < 2 ^ Z.of_nat n)%Z -> exists x, skip_even (S n) (Z.of_nat i) s = Ok x.
Proof.
  revert i s. induction n as [|n IH]; intros i s Hi Hn; [cbn in Hn; lia|]. rewrite Nat2Z.inj_succ, Z.pow_succ_r in Hn by lia. rewrite skip_even_S, odd_nat, (proj2 (Z.eqb_neq _ _)) by lia. destruct (Nat.odd i) eqn:Ho; [by eexists|].
  destruct (even_odd _ Ho) as [j ->]. cbn [negb andb]. rewrite half_double. apply IH; lia.
Qed.

(** A last node with an even number goes up without a sibling. *)
Lemma skip_even_up n j : (0 < j)%nat -> (Z.of_nat (2 * j) < 2 ^ Z.of_nat n)%Z ->
  skip_even (S n) (Z.of_nat (2 * j)) (Z.of_nat (2 * j)) = if Nat.odd j then Ok (Z.of_nat j, Z.of_nat j) else skip_even (S n) (Z.of_nat j) (Z.of_nat j).
Proof.
  intros Hj Hn. destruct n as [|n]; [cbn in Hn; lia|]. rewrite Nat2Z.inj_succ, Z.pow_succ_r in Hn by lia. rewrite skip_even_S, odd_nat, odd_double, (proj2 (Z.eqb_neq _ _)), half_double by lia. cbn [negb andb].
  destruct (Nat.odd j) eqn:Ho; [by rewrite skip_even_S, odd_nat, Ho|]. destruct (skip_even_ok n j (Z.of_nat j)) as [x Hx]; [done|lia|]. rewrite Hx. symmetry. by apply (skip_even_fuel (S n)); [|lia].
Qed.

(** What the loops may be given, so that their fuel is enough. *)
Definition small_tree (l : list Hash) : Prop := (len l <= MAX_TREE_SIZE)%Z.

Lemma small_up l : small_tree l -> small_tree (up l).
Proof.
  unfold small_tree, len. intros H. destruct (le_lt_dec 2 (length l)) as [H2|H2]; [destruct (up_shorter l H2); lia|]. by destruct l as [|x [|y l]]; cbn in H2; try lia.
Qed.

(** Where a loop goes from node [f] of a level with last node [s]: to the
    parent, of which the node is the right child or the left. *)
Definition turn (f s : Z) : res (bool * Z * Z) :=
  if odd f || (f =? s)%Z then
    '(f, s) ← (if negb (odd f) then skip_even 65 f s else Ok (f, s));
    Ok (true, Z.shiftr f 1, Z.shiftr s 1)
  else Ok (false, Z.shiftr f 1, Z.shiftr s 1).

Lemma turn_level i l : (2 <= length l)%nat -> (i < length l)%nat -> small_tree l ->
  turn (Z.of_nat i) (Z.of_nat (length l - 1)) =
    if Nat.odd i then Ok (true, Z.of_nat (i / 2), Z.of_nat (length (up l) - 1))
    else if (i + 1 <? length l)%nat then Ok (false, Z.of_nat (i / 2), Z.of_nat (length (up l) - 1))
    else turn (Z.of_nat (i / 2)) (Z.of_nat (length (up l) - 1)).
Proof.
  intros Hl Hi Hs. assert (Hne : l <> []) by (by destruct l; [cbn in Hl; lia|]). unfold turn. rewrite !odd_nat. destruct (Nat.odd i) eqn:Ho; cbn [orb negb mbind result_bind].
  { by rewrite half_nat, half_last. }
  destruct (Nat.ltb_spec (i + 1) (length l)) as [Hlt|Hge].
  { rewrite (proj2 (Z.eqb_neq _ _)) by lia. by rewrite half_nat, half_last. }
  destruct (even_odd _ Ho) as [j ->]. assert (Hlast : (length l - 1 = 2 * j)%nat) by lia. rewrite <- half_last by done. rewrite Hlast, half_double, !Z.eqb_refl.
  replace (2 * j / 2)%nat with j by (rewrite Nat.mul_comm, Nat.div_mul by lia; done). rewrite Z.eqb_refl, orb_true_r.
  assert (Hn : (Z.of_nat (2 * j) < 2 ^ Z.of_nat 64)%Z) by (unfold small_tree, len in Hs; change MAX_TREE_SIZE with (2 ^ 62)%Z in Hs; change (2 ^ Z.of_nat 64)%Z with (4 * 2 ^ 62)%Z; lia).
  rewrite (skip_even_up 64) by (done || lia). by destruct (Nat.odd j).
Qed.

Lemma inclusion_turn p proof f s r : inclusion_loop (p :: proof) f s r =
  if (s =? 0)%Z then Err BadProof else '(onleft, f, s) ← turn f s; inclusion_loop proof f s (if onleft : bool then node_hash p r else node_hash r p).
Proof.
  cbn [inclusion_loop]. destruct (s =? 0)%Z; [done|]. unfold turn. destruct (odd f || (f =? s)%Z); [|done]. by destruct (if negb (odd f) then _ else _) as [[f' s']|e].
Qed.

Lemma consistency_turn c path f s fr sr : consistency_loop (c :: path) f s fr sr =
  if (s =? 0)%Z then Err BadProof
  else '(onleft, f, s) ← turn f s; consistency_loop path f s (if onleft : bool then node_hash c fr else fr) (if onleft then node_hash c sr else node_hash sr c).
Proof.
  cbn [consistency_loop]. destruct (s =? 0)%Z; [done|]. unfold turn. destruct (odd f || (f =? s)%Z); [|done]. by destruct (if negb (odd f) then _ else _) as [[f' s']|e].
Qed.

(** The pairs that a check hashes. *)
Fixpoint inclusion_pairs (proof : list Hash) (f s : Z) (r : Hash) : list (Hash * Hash) :=
  match proof with
  | [] => []
  | p :: proof =>
      match turn f s with
      | Ok (onleft, f, s) => let q := if onleft : bool then (p, r) else (r, p) in q :: inclusion_pairs proof f s (node_hash (fst q) (snd q))
      | Err _ => []
      end
  end.

(** ** Inclusion *)

Lemma inclusion_complete l : l <> [] -> forall i r, small_tree l -> l !! i = Some r ->
  inclusion_loop (audit_path i l) (Z.of_nat i) (Z.of_nat (length l - 1)) r = Ok (0%Z, mth l).
Proof.
  apply (up_ind (fun l => forall i r, small_tree l -> l !! i = Some r -> inclusion_loop (audit_path i l) (Z.of_nat i) (Z.of_nat (length l - 1)) r = Ok (0%Z, mth l))); clear l.
  { intros x [|i] r _ H; [by injection H as ->|done]. }
  intros l Hl IH i r Hs Hr. assert (Hi := lookup_lt_Some _ _ _ Hr). assert (Ht := turn_level i l Hl Hi Hs). assert (Hz : (Z.of_nat (length l - 1) =? 0)%Z = false) by (apply Z.eqb_neq; lia).
  destruct (up_shorter l Hl) as [_ Hu]. rewrite (audit_up i l Hi). unfold sibling. destruct (Nat.odd i) eqn:Ho.
  - destruct (odd_odd _ Ho) as [j ->]. replace (2 * j + 1 - 1)%nat with (2 * j)%nat by lia. destruct (lookup_lt_is_Some_2 l (2 * j)) as [a Ha]; [lia|]. rewrite Ha. cbn [option_list option_rect app].
    rewrite inclusion_turn, Hz, Ht. cbn [mbind result_bind]. rewrite <- (mth_up l). apply IH; [by apply small_up|]. rewrite up_lookup.
    replace ((2 * j + 1) / 2)%nat with j by (rewrite Nat.mul_comm, Nat.div_add_l by lia; cbn; lia). by rewrite Ha, Hr.
  - destruct (even_odd _ Ho) as [j ->]. assert (Hj : (2 * j / 2 = j)%nat) by (rewrite Nat.mul_comm, Nat.div_mul; lia). rewrite Hj in *.
    destruct (Nat.ltb_spec (2 * j + 1) (length l)) as [Hlt|Hge].
    + destruct (lookup_lt_is_Some_2 l (2 * j + 1) Hlt) as [b Hb]. rewrite Hb. cbn [option_list option_rect app]. rewrite inclusion_turn, Hz, Ht. cbn [mbind result_bind]. rewrite <- (mth_up l).
      apply IH; [by apply small_up|]. by rewrite up_lookup, Hr, Hb.
    + rewrite (lookup_ge_None_2 l (2 * j + 1)) by done. cbn [option_list option_rect app]. rewrite <- (mth_up l). rewrite <- (IH j r) by (try (by apply small_up); rewrite up_lookup, Hr, (lookup_ge_None_2 l (2 * j + 1)) by done; done).
      assert (Hul : (2 <= length (up l))%nat) by (rewrite up_length; apply Nat.div_le_lower_bound; lia). assert (Hne := audit_nonempty j (up l) Hul). destruct (audit_path j (up l)) as [|p proof]; [done|].
      rewrite !inclusion_turn, Hz, Ht. by rewrite (proj2 (Z.eqb_neq (Z.of_nat (length (up l) - 1)) 0)) by lia.
Qed.

Lemma Some_inj {A} (x y : A) : Some x = Some y -> x = y.
Proof. apply (inj Some). Qed.

(** A pair that hashes to a node of the next level. *)
Lemma hash_step l c d a b j : (2 <= length l)%nat -> l !! (2 * j)%nat = Some a -> l !! (2 * j + 1)%nat = Some b -> node_hash c d = node_hash a b ->
  c = a /\ d = b \/ (forall rest, collision ((c, d) :: rest) (tree_pairs l)).
Proof.
  intros Hl Ha Hb He. destruct (decide ((c, d) = (a, b))) as [[= -> ->]|Hne]; [by left|]. right. intros rest. destruct (tree_pairs_up l Hl) as [Hp _]. exists (c, d), (a, b). repeat split; [left|by apply Hp, (pairs_elem l j)|exact Hne|exact He].
Qed.

Lemma inclusion_sound l : l <> [] -> forall proof i r, small_tree l -> (i < length l)%nat ->
  inclusion_loop proof (Z.of_nat i) (Z.of_nat (length l - 1)) r = Ok (0%Z, mth l) ->
  l !! i = Some r /\ proof = audit_path i l \/ collision (inclusion_pairs proof (Z.of_nat i) (Z.of_nat (length l - 1)) r) (tree_pairs l).
Proof.
  apply (up_ind (fun l => forall proof i r, small_tree l -> (i < length l)%nat -> inclusion_loop proof (Z.of_nat i) (Z.of_nat (length l - 1)) r = Ok (0%Z, mth l) ->
    l !! i = Some r /\ proof = audit_path i l \/ collision (inclusion_pairs proof (Z.of_nat i) (Z.of_nat (length l - 1)) r) (tree_pairs l))); clear l.
  { intros x proof i r _ Hi. cbn in Hi. replace i with 0%nat by lia. destruct proof; [|done]. intros [= ->]. by left. }
  intros l Hl IH proof i r Hs Hi. assert (Ht := turn_level i l Hl Hi Hs). assert (Hz : (Z.of_nat (length l - 1) =? 0)%Z = false) by (apply Z.eqb_neq; lia).
  destruct proof as [|p proof]; [intros [= H _]; lia|]. destruct (up_shorter l Hl) as [_ Hu]. destruct (tree_pairs_up l Hl) as [Hp1 Hp2].
  rewrite inclusion_turn, Hz, Ht, (audit_up i l Hi). cbn [inclusion_pairs]. rewrite Ht. unfold sibling. assert (Hsu := small_up l Hs). destruct (Nat.odd i) eqn:Ho.
  - destruct (odd_odd _ Ho) as [j ->]. replace ((2 * j + 1) / 2)%nat with j by (rewrite Nat.mul_comm, Nat.div_add_l by lia; cbn; lia). replace (2 * j + 1 - 1)%nat with (2 * j)%nat by lia.
    destruct (lookup_lt_is_Some_2 l (2 * j)) as [a Ha]; [lia|]. destruct (lookup_lt_is_Some_2 l (2 * j + 1)) as [b Hb]; [lia|]. rewrite Ha, Hb. cbn [mbind result_bind option_list option_rect app fst snd]. rewrite <- (mth_up l). intros H.
    apply IH in H as [[H ->]|H]; [| |done|rewrite up_length; apply Nat.div_le_lower_bound; lia].
    + rewrite up_lookup, Ha, Hb in H. apply Some_inj in H. destruct (hash_step l p r a b j Hl Ha Hb (eq_sym H)) as [[-> ->]|Hc]; [by left|right; apply Hc].
    + right. eapply collision_mono; [|exact Hp2|exact H]. intros x Hx. by right.
  - destruct (even_odd _ Ho) as [j ->]. assert (Hj : (2 * j / 2 = j)%nat) by (rewrite Nat.mul_comm, Nat.div_mul; lia). rewrite Hj in *. destruct (lookup_lt_is_Some_2 l (2 * j)) as [a Ha]; [lia|]. rewrite Ha.
    destruct (Nat.ltb_spec (2 * j + 1) (length l)) as [Hlt|Hge].
    + destruct (lookup_lt_is_Some_2 l (2 * j + 1) Hlt) as [b Hb]. rewrite Hb. cbn [mbind result_bind option_list option_rect app fst snd]. rewrite <- (mth_up l). intros H.
      apply IH in H as [[H ->]|H]; [| |done|rewrite up_length; apply Nat.div_le_lower_bound; lia].
      * rewrite up_lookup, Ha, Hb in H. apply Some_inj in H. destruct (hash_step l r p a b j Hl Ha Hb (eq_sym H)) as [[-> ->]|Hc]; [by left|right; apply Hc].
      * right. eapply collision_mono; [|exact Hp2|exact H]. intros x Hx. by right.
    + rewrite (lookup_ge_None_2 l (2 * j + 1)) by done. cbn [option_list option_rect app]. rewrite <- (mth_up l). intros H.
      assert (H' : inclusion_loop (p :: proof) (Z.of_nat j) (Z.of_nat (length (up l) - 1)) r = Ok (0%Z, mth (up l))).
      { rewrite inclusion_turn. destruct (Z.eqb_spec (Z.of_nat (length (up l) - 1)) 0) as [He|_]; [|done]. rewrite up_length in He. assert (Hj1 : (length l + 1 = 2 * (j + 1))%nat) by lia. rewrite Hj1, Nat.mul_comm, Nat.div_mul in He by lia. lia. }
      apply IH in H' as [[H1 H2]|H1]; [| |done|rewrite up_length; apply Nat.div_le_lower_bound; lia].
      * left. split; [|done]. rewrite up_lookup, Ha, (lookup_ge_None_2 l (2 * j + 1)) in H1 by done. done.
      * right. cbn [inclusion_pairs] in H1. eapply collision_mono; [|exact Hp2|exact H1]. done.
Qed.

(** A check goes through, or the proof is bad: the fuel is enough. *)
Lemma inclusion_total l : l <> [] -> forall proof i r, small_tree l -> (i < length l)%nat ->
  (exists x, inclusion_loop proof (Z.of_nat i) (Z.of_nat (length l - 1)) r = Ok x) \/ inclusion_loop proof (Z.of_nat i) (Z.of_nat (length l - 1)) r = Err BadProof.
Proof.
  apply (up_ind (fun l => forall proof i r, small_tree l -> (i < length l)%nat ->
    (exists x, inclusion_loop proof (Z.of_nat i) (Z.of_nat (length l - 1)) r = Ok x) \/ inclusion_loop proof (Z.of_nat i) (Z.of_nat (length l - 1)) r = Err BadProof)); clear l.
  { intros x [|p proof] i r _ Hi; [left; by eexists|right; done]. }
  intros l Hl IH proof i r Hs Hi. assert (Ht := turn_level i l Hl Hi Hs). assert (Hz : (Z.of_nat (length l - 1) =? 0)%Z = false) by (apply Z.eqb_neq; lia).
  destruct proof as [|p proof]; [left; by eexists|]. assert (Hsu := small_up l Hs). assert (Hj : (i / 2 < length (up l))%nat) by (rewrite up_length; apply half_inside; lia).
  rewrite inclusion_turn, Hz, Ht. destruct (Nat.odd i) eqn:Ho; [by apply IH|]. destruct (Nat.ltb_spec (i + 1) (length l)) as [Hlt|Hge]; [by apply IH|].
  destruct (IH (p :: proof) (i / 2)%nat r Hsu Hj) as [[x H]|H]; rewrite inclusion_turn in H; (destruct (Z.of_nat (length (up l) - 1) =? 0)%Z eqn:He; [|rewrite H]).
  - done.
  - left. by eexists.
  - exfalso. destruct (even_odd _ Ho) as [k ->]. apply Z.eqb_eq in He. rewrite up_length in He. assert (Hk : (length l + 1 = 2 * (k + 1))%nat) by lia. rewrite Hk, Nat.mul_comm, Nat.div_mul in He by lia. lia.
  - by right.
Qed.
