(* ===== verification/LogProofs.v ===== *)
(** What the checks of inclusion and consistency proofs in [Tlog] decide: they
    accept the proofs of RFC 6962, and a proof they accept is that proof, or
    two different pairs of hashes with the same hash have been found. *)

From Stdlib Require Import ZArith Lia.
From stdpp Require Import base option numbers list_numbers list.
From S2P Require Import Prelude Slice Sha2 Tlog Merkle.

#[local] Opaque node_hash.

(** ** A check of consistency contains a check of inclusion *)

Lemma consistency_inclusion path f s fr sr : inclusion_loop path f s sr = ('(s, _, y) ← consistency_loop path f s fr sr; Ok (s, y)).
Proof.
  revert f s fr sr. induction path as [|c path IH]; intros f s fr sr; [done|]. rewrite inclusion_turn, consistency_turn. destruct (s =? 0)%Z; [done|].
  destruct (turn f s) as [[[[|] f'] s']|e]; cbn [mbind result_bind]; [apply IH|apply IH|done].
Qed.

(** ** The old tree, level by level *)

(** The tree that ends with node [i], whose hash is [fr]. *)
Definition upto (i : nat) (fr : Hash) (l : list Hash) : list Hash := take i l ++ [fr].

Lemma upto_up_right j c fr l : l !! (2 * j)%nat = Some c -> up (upto (2 * j + 1) fr l) = upto j (node_hash c fr) (up l).
Proof.
  intros Hc. unfold upto. replace (2 * j + 1)%nat with (S (2 * j)) by lia. rewrite (take_S_r _ _ c) by done. rewrite <- app_assoc, up_app, up_take; [done|].
  exists j. rewrite length_take. apply lookup_lt_Some in Hc. lia.
Qed.

Lemma upto_up_left j fr l : (2 * j < length l)%nat -> up (upto (2 * j) fr l) = upto j fr (up l).
Proof. intros Hj. unfold upto. rewrite up_app, up_take; [done|]. exists j. rewrite length_take. lia. Qed.

Lemma upto_take i x l : l !! i = Some x -> upto i x l = take (S i) l.
Proof. intros H. unfold upto. by rewrite (take_S_r _ _ x). Qed.

Lemma consistency_complete l : l <> [] -> forall i fr sr, small_tree l -> l !! i = Some sr ->
  consistency_loop (audit_path i l) (Z.of_nat i) (Z.of_nat (length l - 1)) fr sr = Ok (0%Z, mth (upto i fr l), mth l).
Proof.
  apply (up_ind (fun l => forall i fr sr, small_tree l -> l !! i = Some sr ->
    consistency_loop (audit_path i l) (Z.of_nat i) (Z.of_nat (length l - 1)) fr sr = Ok (0%Z, mth (upto i fr l), mth l))); clear l.
  { intros x [|i] fr sr _ H; [by injection H as ->|done]. }
  intros l Hl IH i fr sr Hs Hr. assert (Hi := lookup_lt_Some _ _ _ Hr). assert (Ht := turn_level i l Hl Hi Hs). assert (Hz : (Z.of_nat (length l - 1) =? 0)%Z = false) by (apply Z.eqb_neq; lia).
  assert (Hsu := small_up l Hs). rewrite (audit_up i l Hi), <- (mth_up l), <- (mth_up (upto i fr l)). unfold sibling. destruct (Nat.odd i) eqn:Ho.
  - destruct (odd_odd _ Ho) as [j ->]. replace (2 * j + 1 - 1)%nat with (2 * j)%nat by lia. destruct (lookup_lt_is_Some_2 l (2 * j)) as [a Ha]; [lia|]. rewrite Ha. cbn [option_list option_rect app].
    rewrite consistency_turn, Hz, Ht. cbn [mbind result_bind]. replace ((2 * j + 1) / 2)%nat with j by (rewrite Nat.mul_comm, Nat.div_add_l by lia; cbn; lia).
    rewrite (upto_up_right j a) by done. apply IH; [done|]. by rewrite up_lookup, Ha, Hr.
  - destruct (even_odd _ Ho) as [j ->]. assert (Hj : (2 * j / 2 = j)%nat) by (rewrite Nat.mul_comm, Nat.div_mul; lia). rewrite Hj in *. rewrite upto_up_left by done.
    destruct (Nat.ltb_spec (2 * j + 1) (length l)) as [Hlt|Hge].
    + destruct (lookup_lt_is_Some_2 l (2 * j + 1) Hlt) as [b Hb]. rewrite Hb. cbn [option_list option_rect app]. rewrite consistency_turn, Hz, Ht. cbn [mbind result_bind].
      apply IH; [done|]. by rewrite up_lookup, Hr, Hb.
    + rewrite (lookup_ge_None_2 l (2 * j + 1)) by done. cbn [option_list option_rect app]. rewrite <- (IH j fr sr Hsu) by (rewrite up_lookup, Hr, (lookup_ge_None_2 l (2 * j + 1)) by done; done).
      assert (Hul : (2 <= length (up l))%nat) by (rewrite up_length; apply Nat.div_le_lower_bound; lia). assert (Hne := audit_nonempty j (up l) Hul). destruct (audit_path j (up l)) as [|p proof]; [done|].
      rewrite !consistency_turn, Hz, Ht. by rewrite (proj2 (Z.eqb_neq (Z.of_nat (length (up l) - 1)) 0)) by lia.
Qed.

(** ** Where a proof of consistency starts *)

(** The highest node that ends the old tree, and its audit path. *)
Fixpoint start_of (fuel m : nat) (l : list Hash) : list Hash :=
  match fuel with
  | O => []
  | S fuel => if Nat.odd m then option_list (l !! (m - 1)%nat) ++ audit_path (m - 1) l else start_of fuel (m / 2) (up l)
  end.

Lemma start_S fuel m l : start_of (S fuel) m l = if Nat.odd m then option_list (l !! (m - 1)%nat) ++ audit_path (m - 1) l else start_of fuel (m / 2) (up l).
Proof. done. Qed.

Definition is_power (m : nat) : Prop := exists a, m = (2 ^ a)%nat.

Lemma power_iff m : is_power_of_two (Z.of_nat m) = true <-> is_power m.
Proof.
  unfold is_power_of_two, is_power. rewrite andb_true_iff, Z.ltb_lt, Z.eqb_eq. split.
  - intros [H1 H2]. exists (Z.to_nat (Z.log2 (Z.of_nat m))). apply Nat2Z.inj. rewrite Nat2Z.inj_pow, Z2Nat.id by apply Z.log2_nonneg. done.
  - intros [a ->]. rewrite Nat2Z.inj_pow. change (Z.of_nat 2) with 2%Z. rewrite Z.log2_pow2 by lia. split; [|done]. apply Z.pow_pos_nonneg; lia.
Qed.

Lemma split_power n : is_power (split_at n).
Proof. by exists (Nat.log2 (n - 1)). Qed.

Lemma between_powers m k : is_power k -> (k < m < 2 * k)%nat -> ~ is_power m.
Proof.
  intros [p ->] H [a ->]. rewrite <- Nat.pow_succ_r' in H. destruct H as [H1%Nat.pow_lt_mono_r_iff H2%Nat.pow_lt_mono_r_iff]; lia.
Qed.

Lemma start_full a fuel l : length l = (2 ^ a)%nat -> (a < fuel)%nat -> start_of fuel (2 ^ a) l = [mth l].
Proof.
  revert fuel l. induction a as [|a IH]; intros fuel l Hl Hf; (destruct fuel as [|fuel]; [lia|]); rewrite start_S.
  - by destruct l as [|x [|]].
  - rewrite Nat.pow_succ_r', odd_double, (Nat.mul_comm 2), Nat.div_mul by lia. rewrite IH, mth_up; [done| |lia].
    rewrite up_length, Hl, Nat.pow_succ_r', Nat.mul_comm, Nat.div_add_l by lia. cbn; lia.
Qed.

(** It splits as the tree does. *)
Lemma start_split fuel m l : (1 <= m < length l)%nat -> (m <= fuel)%nat -> let k := split_at (length l) in
  start_of fuel m l = if (m <=? k)%nat then start_of fuel m (take k l) ++ [mth (drop k l)] else start_of fuel (m - k) (drop k l) ++ [mth (take k l)].
Proof.
  revert m l. induction fuel as [|fuel IH]; intros m l Hm Hf k; [lia|]. destruct (split_at_spec (length l)) as [[H1 H2] H3]; [lia|]. fold k in H1, H2, H3. rewrite !start_S. destruct (Nat.odd m) eqn:Ho.
  - rewrite (audit_split (m - 1) l) by lia. fold k. destruct (Nat.leb_spec m k) as [Hle|Hgt].
    + rewrite (proj2 (Nat.ltb_lt (m - 1) k)), lookup_take_lt by lia. by rewrite app_assoc.
    + rewrite (proj2 (Nat.ltb_ge (m - 1) k)) by lia. assert (Hok : Nat.odd (m - k) = true).
      { rewrite Nat.odd_sub, Ho by lia. unfold k, split_at. destruct (Nat.log2 (length l - 1)) as [|a] eqn:He; [|by rewrite Nat.pow_succ_r', odd_double]. exfalso. unfold k, split_at in H3, Hgt. rewrite He in H3, Hgt. cbn in *. lia. }
      rewrite Hok, lookup_drop. replace (k + (m - k - 1))%nat with (m - 1)%nat by lia. replace (m - 1 - k)%nat with (m - k - 1)%nat by lia. by rewrite app_assoc.
  - destruct (even_odd _ Ho) as [j ->]. assert (Hk := split_at_half (length l) ltac:(lia)). rewrite <- up_length in Hk. fold k in Hk. set (s := split_at (length (up l))) in *.
    assert (Hj : (2 * j / 2 = j)%nat) by (rewrite Nat.mul_comm, Nat.div_mul; lia). rewrite Hj. rewrite (IH j (up l)); [|split; [lia|]|lia].
    + fold s. rewrite Hk. replace (2 * j - 2 * s)%nat with (2 * (j - s))%nat by lia. rewrite odd_double. replace (2 * (j - s) / 2)%nat with (j - s)%nat by (rewrite Nat.mul_comm, Nat.div_mul; lia).
      rewrite up_take, up_drop, <- (mth_up (take _ l)), <- (mth_up (drop _ l)), up_take, up_drop. destruct (Nat.leb_spec j s), (Nat.leb_spec (2 * j) (2 * s)); (done || lia).
    + rewrite up_length. apply Nat.div_le_lower_bound; lia.
Qed.

(** SUBPROOF is that list, without the first node where the verifier has it. *)
Definition known_root (m : nat) (old_root : Hash) : list Hash := if is_power_of_two (Z.of_nat m) then [old_root] else [].

Lemma subproof_start fuel F m l b : (length l <= fuel)%nat -> (length l <= F)%nat -> (1 <= m <= length l)%nat -> (m < length l)%nat \/ is_power (length l) ->
  (if b : bool then known_root m (mth (take m l)) else []) ++ subproof fuel m l b = start_of F m l.
Proof.
  revert m l b. induction fuel as [|fuel IH]; intros m l b Hl HF Hm Hp; [lia|]. cbn [subproof]. destruct (Nat.eqb_spec m (length l)) as [He|Hne].
  - destruct Hp as [Hp|[a Ha]]; [lia|]. rewrite He, Ha, start_full by (done || (assert (Hlt := Nat.pow_gt_lin_r 2 a); lia)). rewrite take_ge by lia.
    destruct b; [|done]. unfold known_root. rewrite (proj2 (power_iff _)) by (by exists a). done.
  - destruct (split_at_spec (length l)) as [[H1 H2] H3]; [lia|]. rewrite (start_split F m l) by lia. set (k := split_at (length l)) in *. assert (Hk : is_power k) by apply split_power.
    assert (Htk : length (take k l) = k) by (rewrite length_take; lia). destruct (Nat.leb_spec m k) as [Hle|Hgt].
    + rewrite app_assoc. f_equal. rewrite <- (IH m (take k l) b) by (rewrite ?Htk; (lia || by right)). by rewrite take_take, Nat.min_l by lia.
    + assert (Hnp : known_root m (mth (take m l)) = []).
      { unfold known_root. destruct (is_power_of_two (Z.of_nat m)) eqn:E; [|done]. apply power_iff in E. exfalso. apply (between_powers m k Hk); [lia|done]. }
      rewrite Hnp. assert (Hdk : length (drop k l) = (length l - k)%nat) by (rewrite length_drop; lia). rewrite <- (IH (m - k)%nat (drop k l) false) by (rewrite ?Hdk; lia). by destruct b.
Qed.

Lemma consistency_start m l : (1 <= m < length l)%nat -> known_root m (mth (take m l)) ++ consistency_proof m l = start_of (length l) m l.
Proof. intros H. apply (subproof_start (length l) (length l) m l true); lia. Qed.

(** ** Where the check starts *)

Lemma skip_odd_S n f s : skip_odd (S n) f s = if odd f then skip_odd n (Z.shiftr f 1) (Z.shiftr s 1) else Ok (f, s).
Proof. done. Qed.

(** Node [i] of a level [l'] ends the old tree of [m] leaves. *)
Definition starts_at (m : nat) (l : list Hash) (proof : list Hash) (i : nat) (l' : list Hash) : Prop :=
  exists x, l' !! i = Some x /\ small_tree l' /\ proof = x :: audit_path i l' /\ mth l' = mth l /\ mth (take (S i) l') = mth (take m l) /\ tree_pairs l' ⊆ tree_pairs l.

Lemma starts_here m l : (1 <= m <= length l)%nat -> small_tree l -> starts_at m l (option_list (l !! (m - 1)%nat) ++ audit_path (m - 1) l) (m - 1) l.
Proof. intros Hm Hs. destruct (lookup_lt_is_Some_2 l (m - 1)) as [x Hx]; [lia|]. exists x. rewrite Hx. replace (S (m - 1)) with m by lia. by repeat split. Qed.

(** The check goes up to the level of the first node of the proof. *)
Lemma skip_odd_start n m l F : (1 <= m < length l)%nat -> (m <= F)%nat -> small_tree l -> (Z.of_nat m <= 2 ^ Z.of_nat n)%Z ->
  exists i l', skip_odd (S n) (Z.of_nat (m - 1)) (Z.of_nat (length l - 1)) = Ok (Z.of_nat i, Z.of_nat (length l' - 1)) /\ starts_at m l (start_of F m l) i l'.
Proof.
  revert m l F. induction n as [|n IH]; intros m l F Hm HF Hs Hn; (destruct F as [|F]; [lia|]); rewrite skip_odd_S, odd_nat, start_S.
  - replace m with 1%nat in * by lia. exists 0%nat, l. split; [done|]. apply (starts_here 1 l); [lia|done].
  - destruct (Nat.odd m) eqn:Ho.
    + destruct (odd_odd _ Ho) as [j Hj]. assert (Hev : Nat.odd (m - 1) = false) by (replace (m - 1)%nat with (2 * j)%nat by lia; apply odd_double). rewrite Hev. exists (m - 1)%nat, l. split; [done|]. apply starts_here; [lia|done].
    + destruct (even_odd _ Ho) as [j ->]. replace (2 * j - 1)%nat with (2 * (j - 1) + 1)%nat by lia. assert (Hodd : Nat.odd (2 * (j - 1) + 1) = true) by (apply Nat.odd_spec; by exists (j - 1)%nat). rewrite Hodd.
      rewrite half_last by (destruct l; [cbn in Hm; lia|done]). rewrite half_nat, Nat.mul_comm, Nat.div_add_l by lia. replace (j - 1 + 1 / 2)%nat with (j - 1)%nat by (cbn; lia). rewrite (Nat.mul_comm 2), Nat.div_mul by lia.
      rewrite Nat2Z.inj_succ, Z.pow_succ_r in Hn by lia. assert (Hju : (1 <= j < length (up l))%nat) by (split; [lia|]; rewrite up_length; apply Nat.div_le_lower_bound; lia).
      destruct (IH j (up l) F Hju ltac:(lia) (small_up l Hs) ltac:(lia)) as (i & l' & H0 & x & H1 & H2 & H3 & H4 & H5 & H6). exists i, l'. split; [done|]. exists x. repeat split; try done.
      * by rewrite H4, mth_up.
      * by rewrite H5, (Nat.mul_comm j), <- up_take, mth_up.
      * destruct (tree_pairs_up l) as [_ Hp]; [lia|]. by etrans.
Qed.

(** ** The checks *)

(** What a check of consistency hashes for the new root. *)
Definition consistency_pairs (proof : list Hash) (old_size : Z) (old_root : Hash) (new_size : Z) : list (Hash * Hash) :=
  match (if is_power_of_two old_size then [old_root] else []) ++ proof, skip_odd 65 (old_size - 1) (new_size - 1) with
  | first :: path, Ok (f, s) => inclusion_pairs path f s first
  | _, _ => []
  end.

Definition checked (r : res unit) : Prop := r = Ok tt \/ r = Err BadProof.

Lemma last_index (l : list Hash) : l <> [] -> (len l - 1)%Z = Z.of_nat (length l - 1).
Proof. destruct l; [done|]. unfold len. cbn [length]. lia. Qed.

Lemma verify_inclusion_in proof l i leaf root : small_tree l -> (i < length l)%nat -> verify_inclusion proof (len l) root (Z.of_nat i) leaf =
  '(s, r) ← inclusion_loop proof (Z.of_nat i) (Z.of_nat (length l - 1)) leaf;
  if negb (s =? 0)%Z || negb (bool_decide (r = root)) then Err BadProof else Ok tt.
Proof.
  intros Hs Hi. unfold verify_inclusion. unfold small_tree in Hs. rewrite (proj2 (Z.ltb_ge _ _)) by done. rewrite (proj2 (Z.leb_gt _ _)) by (unfold len; lia). rewrite last_index; [done|]. by intros ->; cbn in Hi; lia.
Qed.

(** The last test of a check. *)
Lemma accepted (s : Z) (b : bool) : (if negb (s =? 0)%Z || negb b then Err (E := Error) BadProof else Ok tt) = Ok tt <-> s = 0%Z /\ b = true.
Proof. destruct (Z.eqb_spec s 0), b; cbn; naive_solver. Qed.

Lemma accepted_two (s : Z) (b c : bool) : (if negb (s =? 0)%Z || negb b || negb c then Err (E := Error) BadProof else Ok tt) = Ok tt <-> s = 0%Z /\ b = true /\ c = true.
Proof. destruct (Z.eqb_spec s 0), b, c; cbn; naive_solver. Qed.

Definition consistency_rest (path : list Hash) (i : nat) (l : list Hash) (first old_root root : Hash) : res unit :=
  '(s, fr, sr) ← consistency_loop path (Z.of_nat i) (Z.of_nat (length l - 1)) first first;
  if negb (s =? 0)%Z || negb (bool_decide (fr = old_root)) || negb (bool_decide (sr = root)) then Err BadProof else Ok tt.

Lemma consistency_sound path i l first old_root : small_tree l -> (i < length l)%nat -> consistency_rest path i l first old_root (mth l) = Ok tt ->
  (l !! i = Some first /\ path = audit_path i l /\ old_root = mth (upto i first l)) \/ collision (inclusion_pairs path (Z.of_nat i) (Z.of_nat (length l - 1)) first) (tree_pairs l).
Proof.
  intros Hs Hi H. assert (Hne : l <> []) by (by intros ->; cbn in Hi; lia). assert (Hinc := consistency_inclusion path (Z.of_nat i) (Z.of_nat (length l - 1)) first first). unfold consistency_rest in H.
  destruct (consistency_loop _ _ _ _ _) as [[[s fr] sr]|e] eqn:He; [|done]. cbn [mbind result_bind] in H, Hinc. apply accepted_two in H as (-> & Hf%bool_decide_eq_true & Hr%bool_decide_eq_true). rewrite Hr in Hinc.
  destruct (inclusion_sound l Hne path i first Hs Hi Hinc) as [[H1 H2]|Hc]; [left|by right]. split; [done|]. split; [done|]. rewrite H2, consistency_complete in He by done. by injection He as -> _.
Qed.

Lemma consistency_checked path i l first old_root root : small_tree l -> (i < length l)%nat -> checked (consistency_rest path i l first old_root root).
Proof.
  intros Hs Hi. assert (Hne : l <> []) by (by intros ->; cbn in Hi; lia). assert (Ht := inclusion_total l Hne path i first Hs Hi). rewrite (consistency_inclusion _ _ _ first) in Ht. unfold consistency_rest, checked.
  destruct (consistency_loop _ _ _ _ _) as [[[s fr] sr]|e]; cbn [mbind result_bind] in *; [destruct (negb _ || _ || _); auto|]. destruct Ht as [[x Hx]|[= ->]]; [done|by right].
Qed.

(** Trees of one size. *)
Lemma consistency_same l : small_tree l -> (1 <= length l)%nat ->
  verify_consistency (consistency_proof (length l) l) (len l) (mth (take (length l) l)) (len l) (mth l) = Ok tt /\
  (forall proof old_root, verify_consistency proof (len l) old_root (len l) (mth l) = Ok tt ->
    old_root = mth (take (length l) l) /\ proof = consistency_proof (length l) l \/ collision (consistency_pairs proof (len l) old_root (len l)) (tree_pairs l)) /\
  (forall proof old_root root, checked (verify_consistency proof (len l) old_root (len l) root)).
Proof.
  intros Hs Hl. assert (Hp : consistency_proof (length l) l = []) by (unfold consistency_proof; destruct (length l) as [|n] eqn:E; [done|]; cbn [subproof]; by rewrite E, Nat.eqb_refl).
  assert (Hv : forall proof old_root root, verify_consistency proof (len l) old_root (len l) root = if bool_decide (proof = []) && bool_decide (old_root = root) then Ok tt else Err BadProof).
  { intros proof old_root root. unfold verify_consistency, small_tree in *. rewrite (proj2 (Z.eqb_neq (len l) 0)), Z.ltb_irrefl, (proj2 (Z.ltb_ge MAX_TREE_SIZE _)), Z.eqb_refl by (unfold len in *; lia). done. }
  rewrite Hp, take_ge by done. split; [|split].
  - rewrite Hv. by rewrite !bool_decide_eq_true_2.
  - intros proof old_root. rewrite Hv. destruct (bool_decide_reflect (proof = [])), (bool_decide_reflect (old_root = mth l)); cbn [andb]; (done || by left).
  - intros proof old_root root. rewrite Hv. unfold checked. destruct (_ && _); auto.
Qed.

(** A check of consistency, from the node the proof starts at. *)
Lemma verify_consistency_in proof m l old_root root : small_tree l -> (1 <= m < length l)%nat -> exists i l', starts_at m l (start_of (length l) m l) i l' /\
  verify_consistency proof (Z.of_nat m) old_root (len l) root =
    match known_root m old_root ++ proof with
    | [] => Err BadProof
    | first :: path => consistency_rest path i l' first old_root root
    end /\
  consistency_pairs proof (Z.of_nat m) old_root (len l) =
    match known_root m old_root ++ proof with [] => [] | first :: path => inclusion_pairs path (Z.of_nat i) (Z.of_nat (length l' - 1)) first end.
Proof.
  intros Hs Hm. destruct (skip_odd_start 64 m l (length l)) as (i & l' & Hk & Hst); [done|lia|done| |].
  { unfold small_tree, len in Hs. change MAX_TREE_SIZE with (2 ^ 62)%Z in Hs. change (2 ^ Z.of_nat 64)%Z with (4 * 2 ^ 62)%Z. lia. }
  exists i, l'. split; [done|]. unfold verify_consistency, consistency_pairs. fold (known_root m old_root). assert (Hne : l <> []) by (destruct l; [cbn in Hm; lia|done]).
  replace (Z.of_nat m - 1)%Z with (Z.of_nat (m - 1)) by lia. rewrite last_index, Hk by done. unfold small_tree in Hs.
  rewrite (proj2 (Z.eqb_neq (Z.of_nat m) 0)), (proj2 (Z.ltb_ge (len l) _)), (proj2 (Z.ltb_ge MAX_TREE_SIZE _)), (proj2 (Z.eqb_neq _ (len l))) by (unfold len in *; lia).
  split; [done|]. by destruct (known_root m old_root ++ proof).
Qed.

(** C21: for a tree of at most 2^62 leaves and a leaf of it: the audit path of
    RFC 6962 is accepted for the leaf's hash; a proof that is accepted is that
    audit path and the leaf is the one at that index, or the check and the tree
    have hashed two different pairs to the same hash; and a proof, whatever
    it holds, is accepted or refused as bad. *)
Theorem inclusion_proofs (l : list Hash) (i : nat) (Hs : small_tree l) (Hi : (i < length l)%nat) :
  (forall leaf, l !! i = Some leaf -> verify_inclusion (audit_path i l) (len l) (mth l) (Z.of_nat i) leaf = Ok tt) /\
  (forall proof leaf, verify_inclusion proof (len l) (mth l) (Z.of_nat i) leaf = Ok tt ->
    l !! i = Some leaf /\ proof = audit_path i l \/ collision (inclusion_pairs proof (Z.of_nat i) (len l - 1) leaf) (tree_pairs l)) /\
  (forall proof root leaf, checked (verify_inclusion proof (len l) root (Z.of_nat i) leaf)).
Proof.
  assert (Hne : l <> []) by (by intros ->; cbn in Hi; lia). split; [|split].
  - intros leaf Hl. rewrite verify_inclusion_in, inclusion_complete by done. cbn [mbind result_bind]. by apply accepted, conj, bool_decide_eq_true.
  - intros proof leaf. rewrite verify_inclusion_in, last_index by done. destruct (inclusion_loop _ _ _ _) as [[s r]|e] eqn:He; [|done]. cbn [mbind result_bind].
    intros [-> ->%bool_decide_eq_true]%accepted. by apply inclusion_sound.
  - intros proof root leaf. rewrite verify_inclusion_in by done. destruct (inclusion_total l Hne proof i leaf Hs Hi) as [[[s r] ->]| ->]; [|by right]. cbn [mbind result_bind]. unfold checked. destruct (negb _ || _); auto.
Qed.

(** C22: for a tree of at most 2^62 leaves and an older one of its first [m]
    leaves: the proof of RFC 6962 is accepted for the older root; a proof that
    is accepted is that proof and the older root is the root of the first [m]
    leaves, or the check and the tree have hashed two different pairs to the
    same hash; and any proof is accepted or refused as bad. *)
Theorem consistency_proofs (l : list Hash) (m : nat) (Hs : small_tree l) (Hm : (1 <= m <= length l)%nat) :
  verify_consistency (consistency_proof m l) (Z.of_nat m) (mth (take m l)) (len l) (mth l) = Ok tt /\
  (forall proof old_root, verify_consistency proof (Z.of_nat m) old_root (len l) (mth l) = Ok tt ->
    old_root = mth (take m l) /\ proof = consistency_proof m l \/ collision (consistency_pairs proof (Z.of_nat m) old_root (len l)) (tree_pairs l)) /\
  (forall proof old_root root, checked (verify_consistency proof (Z.of_nat m) old_root (len l) root)).
Proof.
  destruct (decide (m = length l)) as [->|Hlt]; [apply consistency_same; [done|lia]|]. assert (Hm' : (1 <= m < length l)%nat) by lia. assert (Hr := consistency_start m l Hm'). split; [|split].
  - destruct (verify_consistency_in (consistency_proof m l) m l (mth (take m l)) (mth l) Hs Hm') as (i & l' & (x & Hx & Hs' & Hp & Ht & Hold & _) & -> & _). rewrite Hr, Hp.
    unfold consistency_rest. rewrite consistency_complete by (done || by intros ->; rewrite lookup_nil in Hx). cbn [mbind result_bind]. rewrite (upto_take _ _ _ Hx), Ht, Hold. by rewrite !bool_decide_eq_true_2.
  - intros proof old_root. destruct (verify_consistency_in proof m l old_root (mth l) Hs Hm') as (i & l' & (x & Hx & Hs' & Hp & Ht & Hold & Hpairs) & -> & ->). destruct (known_root m old_root ++ proof) as [|first path] eqn:Hk; [done|].
    intros H. destruct (consistency_sound path i l' first old_root Hs' (lookup_lt_Some _ _ _ Hx)) as [(H1 & H2 & H3)|Hc]; [by rewrite Ht| |right; by eapply collision_mono].
    left. rewrite H1 in Hx. injection Hx as ->. assert (Ho : old_root = mth (take m l)) by (rewrite <- Hold, H3; by rewrite (upto_take _ _ _ H1)). split; [done|].
    rewrite Hp, <- H2, <- Hk, Ho in Hr. by apply app_inv_head in Hr.
  - intros proof old_root root. destruct (verify_consistency_in proof m l old_root root Hs Hm') as (i & l' & (x & Hx & Hs' & _) & -> & _). destruct (known_root m old_root ++ proof) as [|first path]; [by right|]. apply consistency_checked; [done|by apply lookup_lt_Some in Hx].
Qed.

(** A tree of three records. *)
Definition small_leaves : list Hash := map record_hash [[97]; [98]; [99]]%Z.

Lemma inclusion_proofs_witness :
  verify_inclusion (audit_path 2 small_leaves) 3 (mth small_leaves) 2 (record_hash [99%Z]) = Ok tt /\
  verify_inclusion (audit_path 1 small_leaves) 3 (mth small_leaves) 2 (record_hash [99%Z]) = Err BadProof.
Proof.
  split; [|by vm_compute]. assert (Hs : small_tree small_leaves) by (by vm_compute). destruct (inclusion_proofs small_leaves 2 Hs ltac:(vm_compute; lia)) as (H & _ & _). apply (H (record_hash [99%Z])). by vm_compute.
Defined.

Lemma consistency_proofs_witness :
  verify_consistency (consistency_proof 2 small_leaves) 2 (mth (take 2 small_leaves)) 3 (mth small_leaves) = Ok tt /\
  verify_consistency (consistency_proof 2 small_leaves) 2 (mth (drop 1 small_leaves)) 3 (mth small_leaves) = Err BadProof.
Proof.
  split; [|by vm_compute]. assert (Hs : small_tree small_leaves) by (by vm_compute). destruct (consistency_proofs small_leaves 2 Hs ltac:(vm_compute; lia)) as (H & _ & _). exact H.
Defined.
