(* ===== verification/TileTree.v ===== *)
(** The parts of a Merkle tree that tiles hold: nodes as blocks of leaves, the
    perfect subtrees of the right edge and the root they fold to, the entries
    of a tile, and the hash that is computed from them. *)

From Stdlib Require Import ZArith Lia.
From stdpp Require Import base option numbers list_numbers list gmap.
From S2P Require Import Prelude Slice Sha2 Tlog Merkle.

#[local] Opaque node_hash.

(** ** Blocks *)

(** The leaves (or the nodes of a level) under node [i] of [k] levels up. *)
Definition block (k i : nat) (l : list Hash) : list Hash := take (2 ^ k) (drop (i * 2 ^ k) l).

Lemma up_block k i l : up (block (S k) i l) = block k i (up l).
Proof. unfold block. rewrite Nat.pow_succ_r', up_take. f_equal. replace (i * (2 * 2 ^ k))%nat with (2 * (i * 2 ^ k))%nat by lia. apply up_drop. Qed.

Lemma block_zero i l x : l !! i = Some x -> block 0 i l = [x].
Proof. intros H. unfold block. cbn [Nat.pow]. rewrite Nat.mul_1_r. by rewrite (drop_S _ x) by done. Qed.

Lemma level_lookup k i l : (i * 2 ^ k < length l)%nat -> level_of k l !! i = Some (mth (block k i l)).
Proof.
  revert i l. induction k as [|k IH]; intros i l Hi; cbn [level_of].
  - cbn [Nat.pow] in Hi. destruct (lookup_lt_is_Some_2 l i) as [x Hx]; [lia|]. by rewrite (block_zero _ _ x), mth_one.
  - rewrite IH, <- up_block, mth_up; [done|]. rewrite up_length. rewrite Nat.pow_succ_r' in Hi. apply Nat.div_le_lower_bound; lia.
Qed.

Lemma mth_block_level a b i l : mth (block a i (level_of b l)) = mth (block (a + b) i l).
Proof. revert l. induction b as [|b IH]; intros l; cbn [level_of]; [by rewrite Nat.add_0_r|]. by rewrite IH, <- up_block, mth_up, Nat.add_succ_r. Qed.

Lemma level_length_le k l n : (n * 2 ^ k <= length l)%nat -> (n <= length (level_of k l))%nat.
Proof.
  revert l. induction k as [|k IH]; intros l H; cbn [level_of]; [cbn in H; lia|]. apply IH. rewrite up_length, Nat.pow_succ_r' in *. apply Nat.div_le_lower_bound; lia.
Qed.

Lemma tree_pairs_up' l : tree_pairs (up l) ⊆ tree_pairs l.
Proof. destruct (le_lt_dec 2 (length l)) as [H|H]; [by apply tree_pairs_up|]. by destruct l as [|x [|y l]]; cbn in H; try lia. Qed.

Lemma tree_pairs_level k l : tree_pairs (level_of k l) ⊆ tree_pairs l.
Proof. revert l. induction k as [|k IH]; intros l; cbn [level_of]; [done|]. etrans; [apply IH|apply tree_pairs_up']. Qed.

Lemma pairs_sub i j l : pairs (take (2 * j) (drop (2 * i) l)) ⊆ pairs l.
Proof.
  assert (Hd : pairs (drop (2 * i) l) ⊆ pairs l).
  { destruct (le_lt_dec (2 * i) (length l)) as [H|H]; [|rewrite drop_ge by lia; intros x Hx; by apply elem_of_nil in Hx].
    rewrite <- (take_drop (2 * i) l) at 2. rewrite pairs_app by (exists i; rewrite length_take; lia). intros x Hx. apply elem_of_app. by right. }
  etrans; [|exact Hd]. set (r := drop (2 * i) l). destruct (le_lt_dec (2 * j) (length r)) as [H|H]; [|by rewrite take_ge by lia].
  rewrite <- (take_drop (2 * j) r) at 2. rewrite pairs_app by (exists j; rewrite length_take; lia). intros x Hx. apply elem_of_app. by left.
Qed.

Lemma tree_pairs_of_enough n l : (length l <= n)%nat -> tree_pairs_of n l ⊆ tree_pairs l.
Proof.
  unfold tree_pairs. remember (length l) as k eqn:Hk. revert n l Hk. induction k as [k IH] using lt_wf_ind. intros n l -> Hn. destruct n as [|n]; [intros x Hx; by apply elem_of_nil in Hx|]. destruct l as [|a [|b l]].
  - cbn [tree_pairs_of pairs app up]. intros x Hx. exfalso. clear -Hx. induction n as [|n IH]; [by apply elem_of_nil in Hx|by apply IH].
  - cbn [tree_pairs_of pairs app up length]. intros x Hx. exfalso. clear -Hx. induction n as [|n IH]; [by apply elem_of_nil in Hx|by apply IH].
  - set (l' := a :: b :: l) in *. destruct (up_shorter l') as [Hu _]; [cbn; lia|]. cbn [tree_pairs_of]. intros x [Hx|Hx]%elem_of_app.
    + destruct (length l') eqn:E; [done|]. cbn [tree_pairs_of]. apply elem_of_app. by left.
    + apply (IH (length (up l')) Hu n (up l') eq_refl) in Hx; [|lia]. by apply (proj2 (tree_pairs_up l' ltac:(cbn; lia))).
Qed.

(** The pairs of a tree, in two parts. *)
Lemma tree_pairs_split l x : x ∈ tree_pairs l -> x ∈ pairs l \/ (2 <= length l)%nat /\ x ∈ tree_pairs (up l).
Proof.
  destruct (le_lt_dec 2 (length l)) as [H2|H2].
  - destruct (up_shorter l H2) as [Hu _]. unfold tree_pairs at 1. destruct (length l) as [|n]; [lia|]. cbn [tree_pairs_of]. intros [H|H]%elem_of_app; [by left|right].
    split; [done|]. revert H. apply tree_pairs_of_enough. lia.
  - by destruct l as [|a [|b l]]; cbn in H2; try lia; intros ?%elem_of_nil.
Qed.

Lemma tree_pairs_block k i l : tree_pairs (block k i l) ⊆ tree_pairs l.
Proof.
  revert i l. induction k as [|k IH]; intros i l x Hx.
  - assert (Hl : (length (block 0 i l) <= 1)%nat) by (unfold block; rewrite length_take; change (2 ^ 0)%nat with 1%nat; lia). destruct (block 0 i l) as [|a [|]]; cbn in Hl; try lia; by apply elem_of_nil in Hx.
  - apply tree_pairs_split in Hx as [Hx|[_ Hx]].
    + unfold block in Hx. replace (i * 2 ^ S k)%nat with (2 * (i * 2 ^ k))%nat in Hx by (rewrite Nat.pow_succ_r'; lia). rewrite Nat.pow_succ_r' in Hx. apply pairs_sub in Hx.
      destruct (le_lt_dec 2 (length l)) as [H|H]; [by apply (proj1 (tree_pairs_up l H))|]. destruct l as [|a [|b l]]; cbn in H; try lia; by apply elem_of_nil in Hx.
    + rewrite up_block in Hx. by apply IH, tree_pairs_up' in Hx.
Qed.

(** Equal hashes are of equal pairs, or a collision is found. *)
Lemma hash_pair a b c d P Q : (a, b) ∈ P -> (c, d) ∈ Q -> node_hash a b = node_hash c d -> a = c /\ b = d \/ collision P Q.
Proof.
  intros HP HQ He. destruct (decide ((a, b) = (c, d))) as [[= -> ->]|Hne]; [by left|]. right. exists (a, b), (c, d). repeat split; done.
Qed.

(** Two trees of one length have one root: they are one, or a collision. *)
Lemma up_inj xs ys : length xs = length ys -> up xs = up ys -> xs = ys \/ collision (pairs xs) (pairs ys).
Proof.
  revert ys. induction xs as [|x|x x' xs IH] using two_step; intros ys Hl He.
  - by destruct ys; [left|].
  - destruct ys as [|y [|]]; (done || by left).
  - destruct ys as [|y [|y' ys]]; [done|done|]. cbn [up] in He. injection Hl as Hl. assert (He1 := f_equal (hd []) He); assert (He2 := f_equal (@tl Hash) He); cbn [hd tl] in He1, He2. destruct (IH ys Hl He2) as [->|Hc].
    + destruct (hash_pair x x' y y' (pairs (x :: x' :: ys)) (pairs (y :: y' :: ys))) as [[-> ->]|Hc]; [left|left|done|by left|by right].
    + right. eapply collision_mono; [| |exact Hc]; intros p Hp; by right.
Qed.

Lemma mth_inj xs ys : length xs = length ys -> mth xs = mth ys -> xs = ys \/ collision (tree_pairs xs) (tree_pairs ys).
Proof.
  remember (length xs) as k eqn:Hk. revert xs ys Hk. induction k as [k IH] using lt_wf_ind. intros xs ys -> Hl He. destruct (le_lt_dec 2 (length xs)) as [H2|H2].
  - destruct (up_shorter xs H2) as [Hu _]. destruct (tree_pairs_up xs H2) as [Hx1 Hx2], (tree_pairs_up ys ltac:(lia)) as [Hy1 Hy2]. rewrite <- (mth_up xs), <- (mth_up ys) in He.
    assert (Hul : length (up xs) = length (up ys)) by (by rewrite !up_length, Hl).
    destruct (IH _ Hu (up xs) (up ys) eq_refl Hul He) as [Heq|Hc]; [|right; exact (collision_mono _ _ _ _ Hx2 Hy2 Hc)].
    destruct (up_inj xs ys Hl Heq) as [->|Hc]; [by left|right; exact (collision_mono _ _ _ _ Hx1 Hy1 Hc)].
  - left. destruct xs as [|x [|]], ys as [|y [|]]; cbn in *; try done; try lia. by subst.
Qed.

(** The pair of the root. *)
Lemma root_pair l : (2 <= length l)%nat -> let k := split_at (length l) in (mth (take k l), mth (drop k l)) ∈ tree_pairs l.
Proof.
  remember (length l) as n eqn:Hn. revert l Hn. induction n as [n IH] using lt_wf_ind. intros l -> Hl k. destruct (tree_pairs_up l Hl) as [Hp1 Hp2]. destruct (le_lt_dec (length l) 2) as [Hs|Hs].
  - destruct l as [|x [|y [|z l]]]; cbn in Hl, Hs; try lia. apply Hp1. left.
  - assert (Hh := split_at_half (length l) ltac:(lia)). rewrite <- up_length in Hh. fold k in Hh. destruct (up_shorter l Hl) as [Hu _]. assert (Hul : (2 <= length (up l))%nat) by (rewrite up_length; apply Nat.div_le_lower_bound; lia).
    assert (H := IH _ Hu (up l) eq_refl Hul). cbn zeta in H. rewrite Hh, <- (mth_up (take _ l)), <- (mth_up (drop _ l)), up_take, up_drop. by apply Hp2.
Qed.

(** ** The fold of the right edge *)

Fixpoint fold1 (hs : list Hash) : Hash :=
  match hs with [] => EMPTY_ROOT | [h] => h | h :: hs => node_hash h (fold1 hs) end.

Fixpoint fold_pairs (hs : list Hash) : list (Hash * Hash) :=
  match hs with [] | [_] => [] | h :: hs => (h, fold1 hs) :: fold_pairs hs end.

Lemma fold1_cons h hs : hs <> [] -> fold1 (h :: hs) = node_hash h (fold1 hs) /\ fold_pairs (h :: hs) = (h, fold1 hs) :: fold_pairs hs.
Proof. by destruct hs. Qed.

Lemma fold_subtrees_fold1 hs : fold_subtrees hs = fold1 hs.
Proof.
  induction hs as [|h hs IH]; [done|]. destruct (decide (hs = [])) as [->|Hne]; [done|]. rewrite (proj1 (fold1_cons h hs Hne)), <- IH. unfold fold_subtrees. cbn [rev].
  destruct (rev hs) as [|x r] eqn:He; [apply (f_equal (@rev _)) in He; rewrite rev_involutive in He; done|]. cbn [app]. by rewrite fold_left_app.
Qed.

Lemma fold1_inj xs ys : length xs = length ys -> fold1 xs = fold1 ys -> xs = ys \/ collision (fold_pairs xs) (fold_pairs ys).
Proof.
  revert ys. induction xs as [|x xs IH]; intros [|y ys] Hl He; try done; [by left|]. injection Hl as Hl. destruct (decide (xs = [])) as [->|Hx]; [destruct ys; [cbn in He; left; by subst|done]|].
  assert (Hy : ys <> []) by (intros ->; by destruct xs). destruct (fold1_cons x xs Hx) as [E1 P1], (fold1_cons y ys Hy) as [E2 P2]. rewrite E1, E2 in He. rewrite P1, P2.
  destruct (hash_pair x (fold1 xs) y (fold1 ys) ((x, fold1 xs) :: fold_pairs xs) ((y, fold1 ys) :: fold_pairs ys)) as [[-> He']|Hc]; [left|left|done| |by right].
  destruct (IH ys Hl He') as [->|Hc]; [by left|]. right. eapply collision_mono; [| |exact Hc]; intros p Hp; by right.
Qed.

(** ** The right edge *)

(** The hash of a node of the tree of [l]. *)
Definition node_of (l : list Hash) (n : Node) : Hash := mth (block (Z.to_nat (level n)) (Z.to_nat (index n)) l).

Definition levels (k : nat) : list Z := rev (map Z.of_nat (seq 0 k)).

Lemma levels_S k : levels (S k) = Z.of_nat k :: levels k.
Proof. unfold levels. rewrite seq_S, map_app, rev_app_distr. done. Qed.

(** The perfect subtrees of what is left of [n] leaves below level [k]. *)
Definition parts (k n : nat) : list Node := subtrees_loop (levels k) (Z.of_nat n) (Z.of_nat (n / 2 ^ k * 2 ^ k)).

Lemma shiftr_nat n k : Z.shiftr (Z.of_nat n) (Z.of_nat k) = Z.of_nat (n / 2 ^ k).
Proof. rewrite Z.shiftr_div_pow2 by lia. change 2%Z with (Z.of_nat 2). by rewrite <- Nat2Z.inj_pow, <- Nat2Z.inj_div. Qed.

Lemma shiftl_nat n k : Z.shiftl (Z.of_nat n) (Z.of_nat k) = Z.of_nat (n * 2 ^ k).
Proof. rewrite Z.shiftl_mul_pow2 by lia. change 2%Z with (Z.of_nat 2). by rewrite <- Nat2Z.inj_pow, <- Nat2Z.inj_mul. Qed.

(** The quotients of two levels. *)
Lemma quotient_step n k : (n / 2 ^ k = 2 * (n / 2 ^ S k) + Nat.b2n (Nat.odd (n / 2 ^ k)))%nat.
Proof.
  rewrite Nat.pow_succ_r', (Nat.mul_comm 2 (2 ^ k)), <- Nat.Div0.div_div. rewrite (Nat.div_mod_eq (n / 2 ^ k) 2) at 1. f_equal. rewrite <- Nat.bit0_odd, Nat.bit0_eqb.
  assert (H := Nat.mod_upper_bound (n / 2 ^ k) 2 ltac:(lia)). destruct (Nat.eqb_spec (n / 2 ^ k mod 2) 1); cbn [Nat.b2n]; lia.
Qed.

Lemma quotient_le n k : (n / 2 ^ k * 2 ^ k <= n)%nat.
Proof. rewrite Nat.mul_comm. apply Nat.Div0.mul_div_le. Qed.

Lemma double_step q k : (q * 2 ^ S k / 2 ^ k = 2 * q)%nat.
Proof. rewrite Nat.pow_succ_r'. replace (q * (2 * 2 ^ k))%nat with (2 * q * 2 ^ k)%nat by lia. apply Nat.div_mul, Nat.pow_nonzero. lia. Qed.

Lemma parts_S k n : (Z.of_nat n <= MAX_TREE_SIZE)%Z ->
  parts (S k) n = (if Nat.odd (n / 2 ^ k) then [mk_node (Z.of_nat k) (Z.of_nat (n / 2 ^ k - 1))] else []) ++ parts k n.
Proof.
  intros Hn. unfold parts. rewrite levels_S. cbn [subtrees_loop]. rewrite shiftr_nat, odd_nat, shiftr_nat. assert (Hq := quotient_step n k). assert (Hle := quotient_le n k). destruct (Nat.odd (n / 2 ^ k)); cbn [Nat.b2n app] in *.
  - f_equal.
    + f_equal. f_equal. rewrite double_step. lia.
    + f_equal. change (Z.shiftl 1 (Z.of_nat k)) with (Z.shiftl (Z.of_nat 1) (Z.of_nat k)). rewrite shiftl_nat, <- Nat2Z.inj_add.
      replace (n / 2 ^ S k * 2 ^ S k + 1 * 2 ^ k)%nat with (n / 2 ^ k * 2 ^ k)%nat by (rewrite Hq at 1; rewrite Nat.pow_succ_r'; lia).
      apply u64_small. change MAX_TREE_SIZE with (2 ^ 62)%Z in Hn. unfold U64_MAX. lia.
  - f_equal. f_equal. rewrite Hq, Nat.pow_succ_r'. lia.
Qed.

Lemma parts_top k n : (Z.of_nat n < 2 ^ Z.of_nat k)%Z -> parts k n = subtrees_loop (levels k) (Z.of_nat n) 0.
Proof.
  intros Hn. unfold parts. assert (H0 : (n / 2 ^ k = 0)%nat); [|by rewrite H0]. apply Nat.div_small. apply Nat2Z.inj_lt. by rewrite Nat2Z.inj_pow.
Qed.

Lemma subtrees_parts n : (Z.of_nat n <= MAX_TREE_SIZE)%Z -> subtrees (Z.of_nat n) = parts 63 n.
Proof.
  intros Hn. rewrite parts_top; [done|]. change MAX_TREE_SIZE with (2 ^ 62)%Z in Hn. change (2 ^ Z.of_nat 63)%Z with (2 * 2 ^ 62)%Z. lia.
Qed.

Lemma rest_length {A} (k q : nat) (l : list A) : q = (length l / 2 ^ S k)%nat -> (length l / 2 ^ k = 2 * q + 1)%nat -> (2 ^ k <= length (drop (q * 2 ^ S k) l) < 2 ^ S k)%nat.
Proof.
  intros Hq Hk. rewrite length_drop, Hq. assert (H1 := Nat.div_mod_eq (length l) (2 ^ S k)). assert (H2 := Nat.mod_upper_bound (length l) (2 ^ S k) ltac:(apply Nat.pow_nonzero; lia)).
  assert (H3 := quotient_le (length l) k). rewrite Hk, Hq, Nat.pow_succ_r' in *. lia.
Qed.

Lemma split_is n k : (2 ^ k < n <= 2 ^ S k)%nat -> split_at n = (2 ^ k)%nat.
Proof. intros H. unfold split_at. f_equal. apply Nat.log2_unique; lia. Qed.

(** The subtrees below level [k] hold what is left of the leaves. *)
Lemma parts_fold k l : small_tree l -> let r := drop (length l / 2 ^ k * 2 ^ k) l in let hs := map (node_of l) (parts k (length l)) in
  (hs = [] <-> r = []) /\ fold1 hs = mth r /\ fold_pairs hs ⊆ tree_pairs l.
Proof.
  intros Hs. unfold small_tree, len in Hs. induction k as [|k IH]; cbn zeta in *.
  - cbn [Nat.pow]. rewrite Nat.div_1_r, Nat.mul_1_r, drop_ge by done. split; [done|]. split; [done|]. intros x Hx. by apply elem_of_nil in Hx.
  - rewrite parts_S by done. set (n := length l) in *. assert (Hq := quotient_step n k). assert (Hle := quotient_le n k). destruct IH as (IH1 & IH2 & IH3). destruct (Nat.odd (n / 2 ^ k)); cbn [Nat.b2n app map] in *.
    + set (q := (n / 2 ^ S k)%nat) in *. assert (Hr : drop (n / 2 ^ k * 2 ^ k) l = drop (2 ^ k) (drop (q * 2 ^ S k) l)) by (rewrite drop_drop, Hq, Nat.pow_succ_r'; f_equal; lia).
      set (r := drop (q * 2 ^ S k) l) in *. rewrite Hr in *. assert (Hx : node_of l (mk_node (Z.of_nat k) (Z.of_nat (n / 2 ^ k - 1))) = mth (take (2 ^ k) r)).
      { unfold node_of, block, r. cbn [level index]. rewrite !Nat2Z.id. do 3 f_equal. rewrite Hq, Nat.pow_succ_r'. lia. }
      rewrite Hx. assert (Hlr : (2 ^ k <= length r < 2 ^ S k)%nat) by (apply rest_length; [done|]; unfold q, n in *; lia).
      split; [split; [done|]; intros E; rewrite E in Hlr; cbn in Hlr; assert (H := Nat.pow_nonzero 2 k ltac:(lia)); lia|].
      destruct (decide (drop (2 ^ k) r = [])) as [Hd|Hd].
      * rewrite (proj2 IH1 Hd). cbn [fold1 fold_pairs]. rewrite take_ge; [|apply (f_equal length) in Hd; rewrite length_drop in Hd; cbn in Hd; lia]. split; [done|]. intros x Hy. by apply elem_of_nil in Hy.
      * assert (Hh : map (node_of l) (parts k n) <> []) by (intros E; by apply Hd, IH1). destruct (fold1_cons (mth (take (2 ^ k) r)) _ Hh) as [-> ->]. rewrite IH2.
        assert (Hlt : (2 ^ k < length r)%nat) by (destruct (le_lt_dec (length r) (2 ^ k)); [by rewrite drop_ge in Hd|done]). assert (Hsp : split_at (length r) = (2 ^ k)%nat) by (apply split_is; lia).
        assert (H1k := Nat.pow_nonzero 2 k ltac:(lia)). split; [rewrite (mth_split r), Hsp by lia; done|]. intros x [->|Hy]%elem_of_cons; [|by apply IH3].
        assert (Hp := root_pair r ltac:(lia)). cbn zeta in Hp. rewrite Hsp in Hp. apply (tree_pairs_block (S k) q l). unfold block. fold r. rewrite (take_ge r (2 ^ S k)) by lia. exact Hp.
    + replace (n / 2 ^ S k * 2 ^ S k)%nat with (n / 2 ^ k * 2 ^ k)%nat by (rewrite Hq, Nat.pow_succ_r'; lia). done.
Qed.

Lemma subtrees_root l : small_tree l -> let hs := map (node_of l) (subtrees (len l)) in fold_subtrees hs = mth l /\ fold_pairs hs ⊆ tree_pairs l.
Proof.
  intros Hs hs. rewrite fold_subtrees_fold1. unfold hs, len. rewrite subtrees_parts by done. destruct (parts_fold 63 l Hs) as (_ & H1 & H2). split; [|exact H2]. rewrite H1. f_equal.
  assert (H0 : (length l / 2 ^ 63 = 0)%nat); [|by rewrite H0]. apply Nat.div_small, Nat2Z.inj_lt. rewrite Nat2Z.inj_pow. unfold small_tree, len in Hs. change MAX_TREE_SIZE with (2 ^ 62)%Z in Hs. change (Z.of_nat 2 ^ Z.of_nat 63)%Z with (2 * 2 ^ 62)%Z. lia.
Qed.

(** A node of a tree of [n] leaves. *)
Definition node_in (n : Z) (x : Node) : Prop := (0 <= level x <= 62 /\ 0 <= index x /\ (index x + 1) * 2 ^ level x <= n)%Z.

(** The nodes of the right edge: one for each bit of the size. *)
Lemma parts_elem k n x : (Z.of_nat n <= MAX_TREE_SIZE)%Z ->
  x ∈ parts k n <-> exists j, (j < k)%nat /\ Nat.odd (n / 2 ^ j) = true /\ x = mk_node (Z.of_nat j) (Z.of_nat (n / 2 ^ j - 1)).
Proof.
  intros Hn. induction k as [|k IH].
  - split; [by intros ?%elem_of_nil|]. intros (j & Hj & _). lia.
  - rewrite parts_S, elem_of_app, IH by done. split.
    + intros [H|(j & Hj & H)]; [|exists j; split; [lia|done]]. destruct (Nat.odd (n / 2 ^ k)) eqn:Ho; [|by apply elem_of_nil in H]. apply list_elem_of_singleton in H as ->. exists k. split; [lia|done].
    + intros (j & Hj & Ho & ->). destruct (decide (j = k)) as [->|Hne]; [left|right; exists j; split; [lia|done]]. rewrite Ho. left.
Qed.

Lemma subtrees_elem n x : (0 <= n <= MAX_TREE_SIZE)%Z ->
  x ∈ subtrees n <-> (0 <= level x <= 62 /\ odd (n / 2 ^ level x) = true /\ index x = n / 2 ^ level x - 1)%Z.
Proof.
  intros Hn. rewrite <- (Z2Nat.id n) by lia. set (m := Z.to_nat n). rewrite subtrees_parts, parts_elem by (unfold m; lia).
  assert (Hd : forall j, (0 <= j)%Z -> (Z.of_nat m / 2 ^ j)%Z = Z.of_nat (m / 2 ^ Z.to_nat j)) by (intros j Hj; rewrite <- shiftr_nat, Z2Nat.id, Z.shiftr_div_pow2 by done; done). split.
  - intros (j & Hj & Ho & ->). cbn [level index]. rewrite Hd, Nat2Z.id, odd_nat by lia. destruct (m / 2 ^ j)%nat as [|q]; [done|]. split; [lia|]. split; [done|lia].
  - intros (Hl & Ho & Hi). rewrite Hd in Ho, Hi by lia. rewrite odd_nat in Ho. exists (Z.to_nat (level x)). split; [lia|]. split; [done|]. destruct x as [lv ix]. cbn [level index] in *. rewrite Z2Nat.id by lia. f_equal.
    destruct (m / 2 ^ Z.to_nat lv)%nat as [|q]; [done|]. lia.
Qed.

Lemma subtrees_in n x : (0 <= n <= MAX_TREE_SIZE)%Z -> x ∈ subtrees n -> node_in n x.
Proof.
  intros Hn (Hl & Ho & Hi)%subtrees_elem; [|done]. assert (Hp : (0 < 2 ^ level x)%Z) by (apply Z.pow_pos_nonneg; lia). assert (Hd := Z.mul_div_le n (2 ^ level x) Hp). assert (H0 : (0 <= n / 2 ^ level x)%Z) by (apply Z.div_pos; lia).
  unfold node_in. rewrite Hi. split; [done|]. split; [|nia]. destruct (Z.eq_dec (n / 2 ^ level x)%Z 0%Z) as [E|]; [by rewrite E in Ho|lia].
Qed.

(** A node of the first leaves is one of all. *)
Lemma node_of_take l m x : node_in (Z.of_nat m) x -> node_of (take m l) x = node_of l x.
Proof.
  intros (Hl & Hi & Hx). unfold node_of, block. f_equal. rewrite skipn_firstn_comm, take_take. f_equal.
  assert (Hz : ((Z.to_nat (index x) + 1) * 2 ^ Z.to_nat (level x) <= m)%nat) by (apply Nat2Z.inj_le; rewrite Nat2Z.inj_mul, Nat2Z.inj_pow, Nat2Z.inj_add, !Z2Nat.id by lia; exact Hx). lia.
Qed.
