(* ===== verification/TileData.v ===== *)
(** Tiles as parts of a tree: where [node_tile] and [tile_ancestor] of [Tlog]
    find a node, the entries a tile of a tree has, the bytes that hold them,
    and the hash that is read from them. *)

From Stdlib Require Import ZArith Lia String.
From stdpp Require Import base option numbers list_numbers list gmap.
From S2P Require Import Prelude Slice Sha2 Tlog Merkle TileTree.

#[local] Open Scope Z_scope.
#[local] Opaque node_hash.

(** ** Powers of two *)

Lemma pow_pos k : 0 <= k -> 0 < 2 ^ k.
Proof. intros H. by apply Z.pow_pos_nonneg. Qed.

Lemma pow_split a b : 0 <= a <= b -> 2 ^ b = 2 ^ (b - a) * 2 ^ a.
Proof. intros H. rewrite <- Z.pow_add_r by lia. f_equal. lia. Qed.

Lemma pow_le a b : 0 <= a <= b -> 2 ^ a <= 2 ^ b.
Proof. intros H. apply Z.pow_le_mono_r; lia. Qed.

Lemma max_tree : MAX_TREE_SIZE = 2 ^ 62.
Proof. done. Qed.

Lemma u64_of x : 0 <= x <= 2 ^ 63 -> u64 x = x.
Proof. intros H. apply u64_small. unfold U64_MAX. lia. Qed.

(** ** Nodes and their tiles *)

(** A height that tiles can have. *)
Definition height_ok (h : Z) : Prop := 1 <= h <= MAX_TILE_HEIGHT.

(** The level of a node in its tile, the tile's number, and the node's place
    among the nodes of its level in the tile. *)
Definition sub_of (h : Z) (x : Node) : Z := level x mod h.
Definition tile_index (h : Z) (x : Node) : Z := index x / 2 ^ (h - sub_of h x).
Definition place (h : Z) (x : Node) : Z := index x mod 2 ^ (h - sub_of h x).
Definition end_of (h : Z) (x : Node) : Z := (place h x + 1) * 2 ^ sub_of h x.

Section node.
Context (h : Z) (x : Node) (Hh : height_ok h) (Hx : node_in MAX_TREE_SIZE x).

Lemma sub_range : 0 <= sub_of h x < h.
Proof. unfold sub_of. apply Z.mod_pos_bound. unfold height_ok in Hh. lia. Qed.

Lemma place_range : 0 <= place h x < 2 ^ (h - sub_of h x).
Proof. apply Z.mod_pos_bound, pow_pos. assert (H := sub_range). lia. Qed.

Lemma end_range : 0 < end_of h x <= 2 ^ h.
Proof.
  assert (H := sub_range). assert (Hp := place_range). unfold end_of. rewrite (pow_split (sub_of h x) h) by lia. assert (H1 := pow_pos (sub_of h x)). nia.
Qed.

Lemma index_small : index x * 2 ^ sub_of h x <= 2 ^ 62.
Proof.
  destruct Hx as (Hl & Hi & Hn). rewrite max_tree in Hn. assert (H := sub_range). assert (Hs : sub_of h x <= level x) by (unfold sub_of; apply Z.mod_le; unfold height_ok in Hh; lia). assert (Hp := pow_le (sub_of h x) (level x)). nia.
Qed.

Lemma node_tile_is : node_tile h x = (mk_tile h (level x / h) (tile_index h x) (end_of h x), place h x * 2 ^ sub_of h x, end_of h x).
Proof.
  assert (Hs := sub_range). assert (Hp := place_range). assert (He := end_range). assert (Hi := index_small). assert (Hhh := pow_le h MAX_TILE_HEIGHT). unfold height_ok in Hh. change MAX_TILE_HEIGHT with 30 in *.
  destruct Hx as (Hl & Hi0 & _). unfold node_tile. assert (Hsub : level x - level x / h * h = sub_of h x) by (unfold sub_of; rewrite Z.mod_eq by lia; lia). rewrite Hsub. assert (H1 := pow_pos (sub_of h x)). assert (H2 := pow_pos (h - sub_of h x)).
  rewrite (Z.shiftl_mul_pow2 (index x)) by lia. rewrite (u64_of (index x * _)) by lia. rewrite (Z.shiftr_div_pow2 _ h) by lia.
  assert (Hti : index x * 2 ^ sub_of h x / 2 ^ h = tile_index h x) by (rewrite (pow_split (sub_of h x) h), Z.div_mul_cancel_r by lia; done). rewrite Hti.
  assert (Hdm : index x = 2 ^ (h - sub_of h x) * tile_index h x + place h x) by (apply Z.div_mod; lia). assert (Ht0 : 0 <= tile_index h x) by (apply Z.div_pos; lia).
  assert (Hsm : tile_index h x * 2 ^ h <= 2 ^ 62) by (rewrite (pow_split (sub_of h x) h) by lia; nia).
  rewrite (Z.shiftl_mul_pow2 (tile_index h x)), (u64_of (tile_index h x * _)), (Z.shiftr_div_pow2 _ (sub_of h x)) by lia.
  assert (Hback : tile_index h x * 2 ^ h / 2 ^ sub_of h x = tile_index h x * 2 ^ (h - sub_of h x)) by (rewrite (pow_split (sub_of h x) h), Z.mul_assoc, Z.div_mul by lia; done).
  assert (Hw : index x - tile_index h x * 2 ^ h / 2 ^ sub_of h x = place h x) by lia. rewrite Hw. assert (Hps : place h x * 2 ^ sub_of h x <= 2 ^ h) by (unfold end_of in He; lia). assert (Hple : place h x + 1 <= 2 ^ h) by (unfold end_of in He; nia).
  change (2 ^ 30) with 1073741824 in *. rewrite (u64_of (place h x)), (u64_of (place h x + 1)) by lia. rewrite !Z.shiftl_mul_pow2 by lia. fold (end_of h x). rewrite (u64_of (end_of h x)), (u64_of (place h x * _)) by lia.
  rewrite Z.mod_small by (unfold U32_MAX; lia). done.
Qed.

End node.

(** ** Tiles of a tree *)

(** The level of the tree that a tile lists. *)
Definition base_level (t : Tile) : Z := t_level t * height t.

(** A place that a tile of the largest tree can have. *)
Definition tile_ok (t : Tile) : Prop := height_ok (height t) /\ 0 <= t_level t <= 62 /\ 0 <= t_index t <= 2 ^ 62.

(** A tile of a tree of [n] leaves. *)
Record tile_in (n : Z) (t : Tile) : Prop := mk_tile_in {
  ti_ok : tile_ok t;
  ti_level : base_level t <= 62;
  ti_width : 1 <= width t <= 2 ^ height t;
  ti_end : t_index t * 2 ^ height t + width t <= n / 2 ^ base_level t;
}.

(** What [tile_ancestor] gives. *)
Lemma tile_ancestor_is t k n : tile_ok t -> 0 <= k <= 66 -> 0 <= n <= MAX_TREE_SIZE ->
  tile_ancestor t k n =
    (let lh := (t_level t + k) * height t in
     if 62 <? lh then None
     else
       let i := t_index t / 2 ^ (k * height t) in
       let c := n / 2 ^ lh in
       if c <=? i * 2 ^ height t then None else Some (mk_tile (height t) (t_level t + k) i (Z.min (2 ^ height t) (c - i * 2 ^ height t)))).
Proof.
  intros (Hh & Hl & Hi) Hk Hn. rewrite max_tree in Hn. unfold height_ok in Hh. change MAX_TILE_HEIGHT with 30 in Hh. unfold tile_ancestor. rewrite (proj2 (Z.ltb_ge U32_MAX _)) by (unfold U32_MAX; lia).
  cbn zeta. set (lh := (t_level t + k) * height t). destruct (Z.ltb_spec 62 lh) as [Hlh|Hlh]; [done|]. assert (Hlh0 : 0 <= lh) by (unfold lh; nia). assert (Hkh : 0 <= k * height t) by nia. assert (Hkl : k * height t <= lh) by (unfold lh; nia).
  rewrite Z.min_l by lia. rewrite !Z.shiftr_div_pow2, !Z.shiftl_mul_pow2, Z.mul_1_l by lia. set (i := t_index t / 2 ^ (k * height t)). set (c := n / 2 ^ lh). assert (Hp := pow_pos (height t)). assert (Hp30 := pow_le (height t) 30). change (2 ^ 30) with 1073741824 in Hp30.
  assert (Hsm : forall w, 0 <= w <= 2 ^ height t -> w mod (U32_MAX + 1) = w) by (intros w Hw; apply Z.mod_small; unfold U32_MAX; lia).
  destruct (Z.leb_spec c (i * 2 ^ height t + 2 ^ height t)) as [Hc|Hc], (Z.leb_spec c (i * 2 ^ height t)) as [Hc'|Hc']; try done; try lia; rewrite Hsm by lia; do 2 f_equal; lia.
Qed.

Lemma tile_ancestor_in t k n a : tile_ok t -> 0 <= k <= 66 -> 0 <= n <= MAX_TREE_SIZE -> tile_ancestor t k n = Some a -> tile_in n a /\ height a = height t.
Proof.
  intros Ht Hk Hn H. rewrite tile_ancestor_is in H by done. destruct Ht as (Hh & Hl & Hi). assert (Hh' := Hh). unfold height_ok in Hh'. cbn zeta in H. destruct (Z.ltb_spec 62 ((t_level t + k) * height t)) as [|Hlh]; [done|].
  set (i := t_index t / _) in *. set (c := n / _) in *. destruct (Z.leb_spec c (i * 2 ^ height t)) as [|Hc]; [done|]. injection H as <-. split; [|done].
  assert (Hp := pow_pos (height t) ltac:(lia)). assert (Hpk : 0 < 2 ^ (k * height t)) by (apply pow_pos; nia).
  assert (Hi0 : 0 <= i <= t_index t). { unfold i. split; [apply Z.div_pos; lia|]. apply Z.div_le_upper_bound; nia. }
  split; cbn [height t_level t_index width base_level]; [|exact Hlh|lia|unfold base_level; cbn [height t_level]; fold c; lia]. split; [done|]. cbn [t_level t_index]. split; [nia|lia].
Qed.

(** The tile of a node. *)
Lemma node_tile_ok h x : height_ok h -> node_in MAX_TREE_SIZE x -> tile_ok (fst (fst (node_tile h x))).
Proof.
  intros Hh Hx. rewrite node_tile_is by done. cbn [fst]. assert (Hs := sub_range h x Hh). assert (Hi := index_small h x Hh Hx). destruct Hx as (Hl & Hi0 & Hn). unfold height_ok in Hh.
  split; [done|]. cbn [t_level t_index]. assert (H1 := pow_pos (sub_of h x)). assert (H2 := pow_pos (h - sub_of h x)). split; [split; [apply Z.div_pos; lia|apply Z.div_le_upper_bound; nia]|].
  unfold tile_index. split; [apply Z.div_pos; lia|apply Z.div_le_upper_bound; nia].
Qed.

Lemma validate_in n t : n <= MAX_TREE_SIZE -> tile_in n t -> validate t = Ok tt.
Proof.
  intros Hn [(Hh & Hl & Hi) Hb Hw He]. rewrite max_tree in Hn. unfold height_ok in Hh. unfold base_level in *. unfold validate. change MAX_TILE_HEIGHT with 30 in *. rewrite !(proj2 (Z.ltb_ge _ _)) by lia. cbn [orb].
  rewrite Z.shiftl_mul_pow2, Z.mul_1_l, (proj2 (Z.ltb_ge (2 ^ height t) _)) by lia. rewrite !Z.shiftl_mul_pow2, Z.mul_1_l by nia.
  assert (H0 : 0 <= t_level t * height t) by nia. assert (Hd : n / 2 ^ (t_level t * height t) <= 2 ^ (62 - t_level t * height t)).
  { apply Z.div_le_upper_bound; [by apply pow_pos|]. rewrite Z.mul_comm, <- pow_split by lia. lia. }
  rewrite (proj2 (Z.ltb_ge 62 _)), (proj2 (Z.leb_gt _ _)) by lia. done.
Qed.

(** ** Entries *)

Definition entries (l : list Hash) (t : Tile) : list Hash :=
  take (Z.to_nat (width t)) (drop (Z.to_nat (t_index t * 2 ^ height t)) (level_of (Z.to_nat (base_level t)) l)).

Lemma to_nat_pow k : 0 <= k -> Z.to_nat (2 ^ k) = (2 ^ Z.to_nat k)%nat.
Proof. intros H. apply Nat2Z.inj. rewrite Z2Nat.id, Nat2Z.inj_pow, Z2Nat.id by (done || apply Z.pow_nonneg; lia). done. Qed.

Lemma entries_length l t : tile_in (len l) t -> length (entries l t) = Z.to_nat (width t).
Proof.
  intros [(Hh & Hl & Hi) Hb Hw He]. unfold height_ok in Hh. unfold entries. rewrite length_take, length_drop. assert (Hp := pow_pos (height t)). assert (Hb0 : 0 <= base_level t) by (unfold base_level; nia). assert (Hpb := pow_pos (base_level t) Hb0).
  assert (Hlen : (Z.to_nat (t_index t * 2 ^ height t + width t) <= length (level_of (Z.to_nat (base_level t)) l))%nat); [|lia].
  apply level_length_le. rewrite <- to_nat_pow, <- Z2Nat.inj_mul by lia. assert (Hd := Z.mul_div_le (len l) (2 ^ base_level t) Hpb). unfold len in *. nia.
Qed.

(** A node that a tile holds. *)
Definition placed (t : Tile) (x : Node) : Prop :=
  t_level t = level x / height t /\ t_index t = tile_index (height t) x /\ end_of (height t) x <= width t.

#[export] Instance placed_dec t x : Decision (placed t x).
Proof. unfold placed. apply _. Defined.

(** The entries under the node. *)
Definition under (t : Tile) (x : Node) (xs : list Hash) : list Hash := block (Z.to_nat (sub_of (height t) x)) (Z.to_nat (place (height t) x)) xs.

(** They are a block of the level that the tile lists. *)
Lemma under_entries l t x : tile_in (len l) t -> node_in MAX_TREE_SIZE x -> placed t x ->
  under t x (entries l t) = block (Z.to_nat (sub_of (height t) x)) (Z.to_nat (index x)) (level_of (Z.to_nat (base_level t)) l).
Proof.
  intros [(Hh & Hl & Hi) Hb Hw He] Hx (P1 & P2 & P3). assert (Hs := sub_range (height t) x Hh). assert (Hp := place_range (height t) x Hh). assert (Hh' := Hh). unfold height_ok in Hh'. destruct Hx as (Hlx & Hix & _).
  set (s := sub_of (height t) x) in *. set (p := place (height t) x) in *. assert (H1 := pow_pos s). assert (H2 := pow_pos (height t - s)).
  assert (Hix' : index x = 2 ^ (height t - s) * t_index t + p) by (rewrite P2; apply Z.div_mod; lia). unfold end_of in P3. fold s p in P3.
  unfold under, entries, block. fold s p. rewrite <- to_nat_pow by lia. rewrite skipn_firstn_comm, take_take, drop_drop. rewrite <- Z2Nat.inj_mul, <- Z2Nat.inj_add by nia.
  rewrite Nat.min_l by nia. f_equal. f_equal. rewrite <- Z2Nat.inj_mul by nia. f_equal. rewrite Hix', (pow_split s (height t)) by lia. ring.
Qed.

Lemma level_parts t x : height_ok (height t) -> 0 <= level x -> t_level t = level x / height t -> (Z.to_nat (sub_of (height t) x) + Z.to_nat (base_level t))%nat = Z.to_nat (level x).
Proof.
  intros Hh Hl P1. unfold height_ok in Hh. unfold base_level. rewrite P1. unfold sub_of. rewrite <- Z2Nat.inj_add; [|apply Z.mod_pos_bound; lia|]. { f_equal. rewrite Z.mod_eq by lia. lia. }
  apply Z.mul_nonneg_nonneg; [apply Z.div_pos; lia|lia].
Qed.

Lemma under_node l t x : tile_in (len l) t -> node_in MAX_TREE_SIZE x -> placed t x -> mth (under t x (entries l t)) = node_of l x.
Proof.
  intros Ht Hx Hp. rewrite under_entries by done. rewrite mth_block_level, level_parts; [done|apply Ht|destruct Hx; lia|apply Hp].
Qed.

Lemma under_pairs l t x : tile_in (len l) t -> node_in MAX_TREE_SIZE x -> placed t x -> tree_pairs (under t x (entries l t)) ⊆ tree_pairs l.
Proof. intros Ht Hx Hp. rewrite under_entries by done. etrans; [apply tree_pairs_block|apply tree_pairs_level]. Qed.

(** ** Bytes *)

(** Hashes of 32 bytes. *)
Definition hashes (xs : list Hash) : Prop := Forall (fun x => length x = 32%nat) xs.

Lemma node_hash_length a b : length (node_hash a b) = 32%nat.
Proof. apply (finalize_length Sha256). Qed.

Lemma hashes_up xs : hashes xs -> hashes (up xs).
Proof.
  unfold hashes. induction xs as [|x|x y xs IH] using two_step; intros H; [done|done|]. cbn [up]. constructor; [apply node_hash_length|]. apply IH. by inversion H as [|? ? _ H2]; inversion H2.
Qed.

Lemma hashes_level k xs : hashes xs -> hashes (level_of k xs).
Proof. revert xs. induction k as [|k IH]; intros xs H; [done|]. by apply IH, hashes_up. Qed.

Lemma concat_length xs : hashes xs -> length (concat xs) = (32 * length xs)%nat.
Proof. induction 1 as [|x xs Hx _ IH]; [done|]. cbn [concat length]. rewrite length_app, Hx, IH. lia. Qed.

Lemma drop_concat a xs : hashes xs -> drop (32 * a) (concat xs) = concat (drop a xs).
Proof.
  intros H. revert a. induction H as [|x xs Hx _ IH]; intros a; [cbn [concat]; by rewrite !drop_nil|]. destruct a as [|a]; [done|]. cbn [concat drop].
  rewrite drop_app_ge, Hx by lia. replace (32 * S a - 32)%nat with (32 * a)%nat by lia. apply IH.
Qed.

Lemma take_concat a xs : hashes xs -> take (32 * a) (concat xs) = concat (take a xs).
Proof.
  intros H. revert a. induction H as [|x xs Hx _ IH]; intros a; [cbn [concat]; rewrite (take_nil a); apply take_nil|]. destruct a as [|a]; [done|]. cbn [concat take].
  rewrite take_app_ge, Hx by lia. replace (32 * S a - 32)%nat with (32 * a)%nat by lia. by rewrite IH.
Qed.

Lemma hashes_take a xs : hashes xs -> hashes (take a xs).
Proof. apply Forall_take. Qed.

Lemma hashes_drop a xs : hashes xs -> hashes (drop a xs).
Proof. apply Forall_drop. Qed.

(** The hashes that bytes hold. *)
Fixpoint chunks (n : nat) (d : list Z) : list Hash := match n with O => [] | S n => take 32 d :: chunks n (drop 32 d) end.

Lemma chunks_spec n d : length d = (32 * n)%nat -> concat (chunks n d) = d /\ hashes (chunks n d) /\ length (chunks n d) = n.
Proof.
  revert d. induction n as [|n IH]; intros d Hd.
  { destruct d; [|cbn in Hd; lia]. repeat split. constructor. }
  destruct (IH (drop 32 d)) as (H1 & H2 & H3); [rewrite length_drop; lia|]. cbn [chunks concat length]. rewrite H1, H3, take_drop. split; [done|]. split; [|done].
  constructor; [rewrite length_take; lia|done].
Qed.

Lemma chunks_concat xs : hashes xs -> chunks (length xs) (concat xs) = xs.
Proof.
  induction 1 as [|x xs Hx _ IH]; [done|]. cbn [length chunks concat]. rewrite take_app_le, take_ge by lia. f_equal. rewrite drop_app_ge, Hx, Nat.sub_diag, drop_0 by lia. exact IH.
Qed.

Lemma slice_concat a b xs : hashes xs -> 0 <= a <= b -> b <= len xs ->
  slice (a * HASH_SIZE) (b * HASH_SIZE) (concat xs) = Some (concat (take (Z.to_nat (b - a)) (drop (Z.to_nat a) xs))).
Proof.
  intros H Ha Hb. unfold HASH_SIZE. rewrite slice_eq by (unfold len in *; rewrite ?concat_length by done; lia). f_equal.
  replace (Z.to_nat (a * 32)) with (32 * Z.to_nat a)%nat by lia. replace (Z.to_nat (b * 32 - a * 32)) with (32 * Z.to_nat (b - a))%nat by lia. by rewrite drop_concat, take_concat by (try apply hashes_drop; done).
Qed.

(** The hash of a perfect subtree. *)
Lemma subtree_loop_mth k fuel xs : hashes xs -> length xs = (2 ^ k)%nat -> (k < fuel)%nat -> subtree_loop fuel (concat xs) = Ok (mth xs).
Proof.
  revert fuel xs. induction k as [|k IH]; intros fuel xs Hx Hl Hf; (destruct fuel as [|fuel]; [lia|]); cbn [subtree_loop]; unfold HASH_SIZE, len; rewrite concat_length by done.
  - rewrite Hl. cbn [Nat.pow Nat.mul]. destruct xs as [|x [|]]; try done. cbn [concat]. by rewrite app_nil_r.
  - assert (H1 := Nat.pow_nonzero 2 k ltac:(lia)). rewrite Nat.pow_succ_r' in Hl. rewrite (proj2 (Z.eqb_neq _ _)) by lia. replace (32 * length xs / 2)%nat with (32 * 2 ^ k)%nat by (rewrite Hl; replace (32 * (2 * 2 ^ k))%nat with (32 * 2 ^ k * 2)%nat by lia; by rewrite Nat.div_mul).
    rewrite take_concat, drop_concat by done. rewrite !IH; try (apply hashes_take || apply hashes_drop); try done; try lia; rewrite ?length_drop, ?length_take; try lia.
    cbn [mbind result_bind]. rewrite (mth_split xs) by lia. assert (Hs : split_at (length xs) = (2 ^ k)%nat) by (apply split_is; rewrite Nat.pow_succ_r'; lia). by rewrite Hs.
Qed.

Lemma subtree_hash_mth k xs : hashes xs -> length xs = (2 ^ k)%nat -> subtree_hash (concat xs) = Ok (mth xs).
Proof.
  intros Hx Hl. apply (subtree_loop_mth k); [done|done|]. rewrite concat_length, Hl by done. assert (H := Nat.pow_gt_lin_r 2 k). lia.
Qed.

Lemma under_length t x xs : height_ok (height t) -> placed t x -> length xs = Z.to_nat (width t) -> length (under t x xs) = (2 ^ Z.to_nat (sub_of (height t) x))%nat.
Proof.
  intros Hh (_ & _ & P) Hl. assert (Hs := sub_range (height t) x Hh). assert (Hp := place_range (height t) x Hh). assert (H1 := pow_pos (sub_of (height t) x)). unfold under, block. rewrite length_take, length_drop, Hl, <- to_nat_pow by lia. unfold end_of in P. nia.
Qed.

(** What is read from a tile: the hash of the entries under the node. *)
Lemma hash_from_tile_is t xs x : validate t = Ok tt -> height_ok (height t) -> hashes xs -> len xs = width t -> node_in MAX_TREE_SIZE x ->
  hash_from_tile t (concat xs) x = if decide (placed t x) then Ok (mth (under t x xs)) else Err (Invalid "the node is not in this tile"%string).
Proof.
  intros Hv Hh Hx Hl Hn. unfold hash_from_tile. rewrite Hv. cbn [mbind result_bind]. unfold data_len, HASH_SIZE. assert (Hc : len (concat xs) = width t * 32) by (rewrite <- Hl; unfold len; rewrite concat_length by done; lia).
  rewrite Hc, Z.ltb_irrefl, node_tile_is by done. cbn [fst snd t_level t_index width].
  destruct (decide (placed t x)) as [(P1 & P2 & P3)|Hnp].
  - assert (Hpl : placed t x) by done. rewrite P1 at 1. rewrite P2 at 1. rewrite !Z.eqb_refl, (proj2 (Z.ltb_ge _ _)) by done. cbn [negb orb]. assert (Hs := sub_range (height t) x Hh). assert (Hp := place_range (height t) x Hh). assert (H1 := pow_pos (sub_of (height t) x)).
    rewrite (slice_concat (place (height t) x * 2 ^ sub_of (height t) x) (end_of (height t) x)); [|done|unfold end_of; nia|lia].
    assert (Hu : take (Z.to_nat (end_of (height t) x - place (height t) x * 2 ^ sub_of (height t) x)) (drop (Z.to_nat (place (height t) x * 2 ^ sub_of (height t) x)) xs) = under t x xs).
    { unfold under, block, end_of. rewrite <- to_nat_pow, <- Z2Nat.inj_mul by lia. do 2 f_equal. lia. }
    rewrite Hu. apply (subtree_hash_mth (Z.to_nat (sub_of (height t) x))); [by apply hashes_take, hashes_drop|]. apply under_length; [done|done|]. rewrite <- Hl. unfold len. lia.
  - destruct (Z.eqb_spec (t_level t) (level x / height t)) as [P1|], (Z.eqb_spec (t_index t) (tile_index (height t) x)) as [P2|], (Z.ltb_spec (width t) (end_of (height t) x)) as [|P3]; try done. by destruct Hnp.
Qed.
