(* ===== verification/TilePlan.v ===== *)
(** What [plan] of [Tlog] plans: the tiles of the right edge, which are partial
    and which the nodes of the right edge cover; then full tiles, each after its
    parent; and for each node that was asked for the tile that holds it. *)

From Stdlib Require Import ZArith Lia String.
From stdpp Require Import base option numbers list_numbers list gmap.
From S2P Require Import Prelude Slice Sha2 Tlog Merkle TileTree TileData.

#[local] Open Scope Z_scope.

(** ** The tile of a node, and the right edge *)

(** A tile of a place in a tree of [n] leaves, as wide as the tree has it. *)
Definition tile_at (h n L i : Z) : Tile := mk_tile h L i (Z.min (2 ^ h) (n / 2 ^ (L * h) - i * 2 ^ h)).

Definition own_tile (h n : Z) (x : Node) : Tile := tile_at h n (level x / h) (tile_index h x).

Lemma odd_Z z : odd z = Z.odd z.
Proof.
  unfold odd. change 1 with (Z.ones 1) at 1. rewrite Z.land_ones by done. change (2 ^ 1) with 2. rewrite Zmod_odd. by destruct (Z.odd z).
Qed.

Lemma div_pow_add n a b : 0 <= a -> 0 <= b -> n / 2 ^ (a + b) = n / 2 ^ a / 2 ^ b.
Proof. intros Ha Hb. rewrite Z.pow_add_r by done. symmetry. apply Z.div_div; [|by apply pow_pos]. assert (H := pow_pos a Ha). lia. Qed.

(** An odd number and the even one before it have one half. *)
Lemma odd_pred c k : Z.odd c = true -> 1 <= k -> (c - 1) / 2 ^ k = c / 2 ^ k.
Proof.
  intros Ho Hk. apply Z.odd_spec in Ho as [q ->]. replace k with (1 + (k - 1)) by lia. rewrite !div_pow_add by lia. change (2 ^ 1) with 2. f_equal.
  rewrite Z.add_simpl_r, (Z.mul_comm 2), Z.div_mul by lia. rewrite Z.div_add_l by lia. change (1 / 2) with 0; lia.
Qed.

(** The bits of a number cover what is below it. *)
Lemma cover (h : nat) w p : 0 <= p < w -> w < 2 ^ Z.of_nat h -> exists b, 0 <= b < Z.of_nat h /\ Z.odd (w / 2 ^ b) = true /\ p / 2 ^ b = w / 2 ^ b - 1.
Proof.
  revert w p. induction h as [|h IH]; intros w p Hp Hw; [cbn in Hw; lia|]. rewrite Nat2Z.inj_succ, Z.pow_succ_r in Hw by lia.
  assert (Hdw := Z.div_mod w 2 ltac:(lia)). assert (Hdp := Z.div_mod p 2 ltac:(lia)). assert (Hmw := Z.mod_pos_bound w 2 ltac:(lia)). assert (Hmp := Z.mod_pos_bound p 2 ltac:(lia)).
  destruct (Z.ltb_spec (p / 2) (w / 2)) as [Hlt|Hge].
  - destruct (IH (w / 2) (p / 2)) as (b & Hb & Ho & He); [lia|lia|]. exists (1 + b). rewrite !div_pow_add by lia. change (2 ^ 1) with 2. split; [lia|done].
  - exists 0. change (2 ^ 0) with 1. rewrite !Z.div_1_r. split; [lia|]. split; [|lia]. rewrite (Zmod_odd w) in Hdw, Hmw. destruct (Z.odd w); [done|lia].
Qed.

Lemma node_in_mono m n x : m <= n -> node_in m x -> node_in n x.
Proof. intros Hmn (H1 & H2 & H3). split; [done|]. split; [done|lia]. Qed.

Section tree.
Context (h n : Z) (Hh : height_ok h) (Hn : 0 <= n <= MAX_TREE_SIZE).

Lemma node_in_max x : node_in n x -> node_in MAX_TREE_SIZE x.
Proof. intros (H1 & H2 & H3). split; [done|]. split; [done|lia]. Qed.

Lemma level_split x : 0 <= level x -> level x = level x / h * h + sub_of h x.
Proof. intros H. unfold sub_of. rewrite Z.mod_eq by (unfold height_ok in Hh; lia). lia. Qed.

(** The tree has the entries under a node of it. *)
Lemma end_inside x : node_in n x -> tile_index h x * 2 ^ h + end_of h x <= n / 2 ^ (level x / h * h).
Proof.
  intros (Hl & Hi & Hx). assert (Hs := sub_range h x Hh). assert (Hls := level_split x ltac:(lia)). assert (Hhh := Hh). unfold height_ok in Hhh. assert (Hq : 0 <= level x / h) by (apply Z.div_pos; lia). set (q := level x / h) in *. set (s := sub_of h x) in *.
  assert (H1 := pow_pos s ltac:(lia)). assert (H2 := pow_pos (h - s) ltac:(lia)). assert (Hqh : 0 <= q * h) by nia. assert (H3 := pow_pos (q * h) Hqh).
  assert (Hdm : index x = 2 ^ (h - s) * tile_index h x + place h x) by (apply Z.div_mod; lia). unfold end_of. fold s.
  replace (tile_index h x * 2 ^ h + (place h x + 1) * 2 ^ s) with ((index x + 1) * 2 ^ s) by (rewrite Hdm, (pow_split s h) by lia; ring).
  apply Z.div_le_lower_bound; [done|]. rewrite Hls, Z.pow_add_r in Hx by lia. nia.
Qed.

Lemma own_tile_is x : node_in n x -> tile_ancestor (fst (fst (node_tile h x))) 0 n = Some (own_tile h n x) /\ tile_in n (own_tile h n x) /\ placed (own_tile h n x) x.
Proof.
  intros Hx. assert (Hm := node_in_max x Hx). assert (Hok := node_tile_ok h x Hh Hm). assert (He := end_inside x Hx). assert (Her := end_range h x Hh). assert (Hls := level_split x ltac:(destruct Hx; lia)). assert (Hs := sub_range h x Hh).
  assert (Ha : tile_ancestor (fst (fst (node_tile h x))) 0 n = Some (own_tile h n x)).
  { rewrite tile_ancestor_is by (done || lia). rewrite node_tile_is by done. cbn [fst t_level t_index height]. rewrite Z.add_0_r, Z.mul_0_l. change (2 ^ 0) with 1. rewrite Z.div_1_r.
    rewrite (proj2 (Z.ltb_ge 62 _)) by (destruct Hx; lia). cbn zeta. by rewrite (proj2 (Z.leb_gt _ _)) by lia. }
  split; [done|]. apply tile_ancestor_in in Ha as [Ha _]; [|done|lia|done]. split; [done|]. split; [done|]. split; [done|]. cbn [own_tile tile_at height width]. lia.
Qed.

(** The tile of a level on the right edge, if the tree ends in it. *)
Definition edge_tile (L : Z) : Tile := tile_at h n L (n / 2 ^ (L * h) / 2 ^ h).

Lemma edge_width L : width (edge_tile L) = (n / 2 ^ (L * h)) mod 2 ^ h.
Proof.
  assert (Hhh := Hh). unfold height_ok in Hhh. assert (Hp := pow_pos h ltac:(lia)). cbn [edge_tile tile_at width]. set (c := n / 2 ^ (L * h)). assert (H1 := Z.mod_pos_bound c (2 ^ h) Hp). assert (H2 := Z.div_mod c (2 ^ h) ltac:(lia)). lia.
Qed.

(** The node of the right edge for bit [b] of a level's tile. *)
Definition edge_node (L b : Z) : Node := mk_node (L * h + b) (n / 2 ^ (L * h + b) - 1).

Lemma edge_node_is L b : 0 <= L -> L * h <= 62 -> 0 <= b < h -> Z.odd (width (edge_tile L) / 2 ^ b) = true ->
  edge_node L b ∈ subtrees n /\ own_tile h n (edge_node L b) = edge_tile L /\ sub_of h (edge_node L b) = b /\ place h (edge_node L b) = width (edge_tile L) / 2 ^ b - 1.
Proof.
  intros HL HLh Hb Ho. assert (Hhh := Hh). unfold height_ok in Hhh. rewrite edge_width in *. assert (HL0 : 0 <= L * h) by nia. set (c := n / 2 ^ (L * h)) in *. assert (Hpb := pow_pos b ltac:(lia)). assert (Hph := pow_pos (h - b) ltac:(lia)).
  assert (Hc0 : 0 <= c) by (apply Z.div_pos; [lia|by apply pow_pos]). assert (Hw : c mod 2 ^ h / 2 ^ b = (c / 2 ^ b) mod 2 ^ (h - b)).
  { rewrite (pow_split b h), (Z.mul_comm (2 ^ (h - b))), Z.rem_mul_r by lia. rewrite (Z.mul_comm (2 ^ b)), Z.div_add by lia. rewrite (Z.div_small (c mod 2 ^ b)) by (apply Z.mod_pos_bound; lia). lia. }
  rewrite Hw in *. set (e := c / 2 ^ b) in *. assert (He : n / 2 ^ (L * h + b) = e) by (rewrite div_pow_add by lia; done).
  assert (Heo : Z.odd e = true). { rewrite (Z.div_mod e (2 ^ (h - b))) by lia. rewrite Z.odd_add, Ho, Z.odd_mul. replace (h - b) with (Z.succ (h - b - 1)) by lia. rewrite Z.pow_succ_r, Z.odd_mul by lia. done. }
  assert (Hm := Z.div_mod e (2 ^ (h - b)) ltac:(lia)). assert (Hmr := Z.mod_pos_bound e (2 ^ (h - b)) ltac:(lia)). assert (Hm1 : 1 <= e mod 2 ^ (h - b)) by (destruct (Z.eq_dec (e mod 2 ^ (h - b)) 0) as [E|]; [by rewrite E in Ho|lia]).
  assert (Hsub : sub_of h (edge_node L b) = b) by (unfold sub_of; cbn [edge_node level]; rewrite Z.add_comm, Z.mod_add, Z.mod_small by lia; done).
  assert (Hdiv : (L * h + b) / h = L) by (rewrite Z.div_add_l, (Z.div_small b) by lia; lia).
  assert (Hti : tile_index h (edge_node L b) = c / 2 ^ h).
  { unfold tile_index. rewrite Hsub. cbn [edge_node index]. rewrite He, odd_pred by (done || lia). unfold e. rewrite <- div_pow_add by lia. f_equal. f_equal. lia. }
  split; [|split; [|split; [done|]]].
  - apply subtrees_elem; [done|]. cbn [edge_node level index]. rewrite He, odd_Z. split; [|done]. split; [lia|]. destruct (Z.le_gt_cases (L * h + b) 62) as [|Hgt]; [done|]. exfalso.
    assert (E0 : e = 0); [|by rewrite E0 in Heo]. rewrite <- He. apply Z.div_small. rewrite max_tree in Hn. assert (H63 := pow_le 63 (L * h + b) ltac:(lia)). change (2 ^ 63) with (2 * 2 ^ 62) in H63. lia.
  - unfold own_tile, edge_tile. rewrite Hti. cbn [edge_node level]. by rewrite Hdiv.
  - unfold place. rewrite Hsub. cbn [edge_node index]. rewrite He. symmetry. apply (Z.mod_unique_pos _ _ (e / 2 ^ (h - b))); lia.
Qed.

(** The tile of a node of the right edge is the edge tile of its level. *)
Lemma own_edge x : x ∈ subtrees n -> own_tile h n x = edge_tile (level x / h) /\ 0 <= level x / h /\ level x / h * h <= 62.
Proof.
  intros Hx. assert (Hin := subtrees_in n x Hn Hx). apply subtrees_elem in Hx as (Hl & Ho & Hi); [|done]. rewrite odd_Z in Ho. assert (Hs := sub_range h x Hh). assert (Hls := level_split x ltac:(lia)). assert (Hhh := Hh). unfold height_ok in Hhh.
  assert (Hq : 0 <= level x / h) by (apply Z.div_pos; lia). split; [|split; [done|lia]]. unfold own_tile, edge_tile. f_equal. unfold tile_index. rewrite Hi, odd_pred by (done || lia). rewrite <- !div_pow_add by (nia || lia). f_equal. f_equal. lia.
Qed.

(** ** Ancestors *)

Lemma is_full_iff a : height_ok (height a) -> is_full a = true <-> width a = 2 ^ height a.
Proof.
  intros Ha. unfold height_ok in Ha. change MAX_TILE_HEIGHT with 30 in Ha. unfold is_full, full_width. rewrite (proj2 (Z.leb_le 0 _)), (proj2 (Z.ltb_lt _ 32)) by lia. cbn [andb]. rewrite Z.shiftl_mul_pow2, Z.mul_1_l, bool_decide_eq_true by lia.
  split; [by intros [= ->]|by intros ->].
Qed.

(** An ancestor, by its place. *)
Lemma ancestor_at t k a : tile_ok t -> height t = h -> 0 <= k <= 66 -> tile_ancestor t k n = Some a ->
  let lh := (t_level t + k) * h in let i := t_index t / 2 ^ (k * h) in a = tile_at h n (t_level t + k) i /\ lh <= 62 /\ 0 <= i /\ i * 2 ^ h < n / 2 ^ lh.
Proof.
  intros Ht <- Hk Ha. rewrite tile_ancestor_is in Ha by done. cbn zeta in *. destruct (Z.ltb_spec 62 ((t_level t + k) * height t)) as [|Hl]; [done|]. destruct (Z.leb_spec (n / 2 ^ ((t_level t + k) * height t)) (t_index t / 2 ^ (k * height t) * 2 ^ height t)) as [|Hc]; [done|].
  injection Ha as <-. split; [done|]. split; [done|]. split; [|done]. destruct Ht as (H1 & H2 & H3). unfold height_ok in H1. apply Z.div_pos; [lia|]. apply pow_pos. nia.
Qed.

(** A full tile has a parent. *)
Lemma full_parent t k a : tile_ok t -> height t = h -> 0 <= k <= 65 -> tile_ancestor t k n = Some a -> is_full a = true ->
  exists a', tile_ancestor t (k + 1) n = Some a' /\ tile_ancestor a 1 n = Some a'.
Proof.
  intros Ht Hth Hk Ha Hf. assert (Hin := proj1 (tile_ancestor_in t k n a Ht ltac:(lia) Hn Ha)). destruct (ancestor_at t k a Ht Hth ltac:(lia) Ha) as (-> & Hl & Hi & Hc). assert (Hhh := Hh). unfold height_ok in Hhh.
  apply is_full_iff in Hf; [|done]. cbn [tile_at width height] in Hf. set (L := t_level t + k) in *. set (i := t_index t / 2 ^ (k * h)) in *. set (c := n / 2 ^ (L * h)) in *. destruct Ht as (_ & Htl & Hti).
  assert (HL : 0 <= L) by lia. assert (HLh : 0 <= L * h) by nia. assert (Hph := pow_pos h ltac:(lia)). assert (Hpl := pow_pos (L * h) HLh). assert (Hc' : n / 2 ^ ((L + 1) * h) = c / 2 ^ h) by (rewrite Z.mul_add_distr_r, Z.mul_1_l, div_pow_add by lia; done).
  assert (Hbig : (L + 1) * h <= 62).
  { destruct (Z.le_gt_cases ((L + 1) * h) 62) as [|Hgt]; [done|]. exfalso. assert (E0 : c / 2 ^ h = 0). { rewrite <- Hc'. apply Z.div_small. rewrite max_tree in Hn. assert (H63 := pow_le 63 ((L + 1) * h) ltac:(lia)). change (2 ^ 63) with (2 * 2 ^ 62) in H63. lia. }
    assert (H1 : 1 <= c / 2 ^ h) by (apply Z.div_le_lower_bound; nia). lia. }
  assert (Hi' : t_index t / 2 ^ ((k + 1) * h) = i / 2 ^ h) by (rewrite Z.mul_add_distr_r, Z.mul_1_l, div_pow_add by nia; done).
  assert (Hlow : i / 2 ^ h * 2 ^ h < c / 2 ^ h). { assert (H1 := Z.mul_div_le i (2 ^ h) Hph). assert (H2 : i + 1 <= c / 2 ^ h) by (apply Z.div_le_lower_bound; nia). lia. }
  exists (tile_at h n (L + 1) (i / 2 ^ h)). split.
  - rewrite tile_ancestor_is by (split; [by rewrite Hth|done] || lia || done). cbn zeta. rewrite Hth, (Z.add_assoc (t_level t)). fold L. rewrite (proj2 (Z.ltb_ge 62 _)), Hi', Hc', (proj2 (Z.leb_gt _ _)) by done. unfold tile_at. by rewrite Hc'.
  - rewrite tile_ancestor_is by (apply Hin || lia || done). cbn [tile_at t_level t_index height]. cbn zeta. rewrite (proj2 (Z.ltb_ge 62 _)), Z.mul_1_l, Hc', (proj2 (Z.leb_gt _ _)) by done. unfold tile_at. by rewrite Hc'.
Qed.

(** A partial one is on the right edge. *)
Lemma partial_edge t k a : tile_ok t -> height t = h -> 0 <= k <= 66 -> tile_ancestor t k n = Some a -> is_full a = false -> exists x, x ∈ subtrees n /\ a = own_tile h n x.
Proof.
  intros Ht Hth Hk Ha Hf. destruct (ancestor_at t k a Ht Hth ltac:(lia) Ha) as (-> & Hl & Hi & Hc). assert (Hhh := Hh). unfold height_ok in Hhh. destruct Ht as (_ & Htl & Hti). set (L := t_level t + k) in *. set (i := t_index t / 2 ^ (k * h)) in *.
  set (c := n / 2 ^ (L * h)) in *. assert (Hph := pow_pos h ltac:(lia)). assert (Hw : c - i * 2 ^ h < 2 ^ h).
  { destruct (Z.lt_ge_cases (c - i * 2 ^ h) (2 ^ h)) as [|Hge]; [done|]. exfalso. apply Bool.not_true_iff_false in Hf. apply Hf, is_full_iff; [done|]. cbn [tile_at width height]. fold c. lia. }
  assert (Hic : i = c / 2 ^ h) by (apply (Z.div_unique_pos _ _ _ (c - i * 2 ^ h)); lia). assert (He : tile_at h n L i = edge_tile L) by (unfold edge_tile; fold c; by rewrite Hic). rewrite He.
  assert (Hm : width (edge_tile L) = c - i * 2 ^ h) by (rewrite edge_width; fold c; rewrite Z.mod_eq, <- Hic by lia; lia).
  destruct (cover (Z.to_nat h) (width (edge_tile L)) 0) as (b & Hb & Ho & _); [lia|rewrite Z2Nat.id by lia; lia|]. destruct (edge_node_is L b) as (H1 & H2 & _); [lia|lia|lia|done|]. exists (edge_node L b). by rewrite H2.
Qed.

(** ** Planning *)

(** The order has the places of the tiles. *)
Definition order_ok (p : Planned) : Prop := forall t j, p_order p !! t = Some j <-> exists i : nat, j = Z.of_nat i /\ p_tiles p !! i = Some t.

Lemma order_find p t : order_ok p -> (exists i : nat, p_order p !! t = Some (Z.of_nat i) /\ p_tiles p !! i = Some t) \/ p_order p !! t = None /\ t ∉ p_tiles p.
Proof.
  intros Ho. destruct (p_order p !! t) as [j|] eqn:E; [left|right; split; [done|]].
  - apply Ho in E as (i & -> & Hi). by exists i.
  - intros [i Hi]%list_elem_of_lookup_1. assert (H : p_order p !! t = Some (Z.of_nat i)) by (apply Ho; by exists i). by rewrite H in E.
Qed.

Lemma add_tile_order p t : order_ok p -> p_order p !! t = None -> order_ok (add_tile t p).
Proof.
  intros Ho Hn' u j. unfold add_tile. cbn [p_order p_tiles]. destruct (decide (t = u)) as [<-|Hne].
  - rewrite lookup_insert_eq. split.
    + intros [= <-]. exists (length (p_tiles p)). split; [done|]. by rewrite lookup_app_r, Nat.sub_diag.
    + intros (i & -> & Hi). apply lookup_app_Some in Hi as [Hi|[Hi1 Hi2]]; [exfalso; assert (H : p_order p !! t = Some (Z.of_nat i)) by (apply Ho; by exists i); by rewrite H in Hn'|].
      apply list_lookup_singleton_Some in Hi2 as [Hi2 _]. unfold len. do 2 f_equal. lia.
  - rewrite lookup_insert_ne, (Ho u j) by done. split; intros (i & -> & Hi); exists i; (split; [done|]).
    + by apply lookup_app_l_Some.
    + apply lookup_app_Some in Hi as [Hi|[Hi1 Hi2]]; [done|]. by apply list_lookup_singleton_Some in Hi2 as [_ ->].
Qed.

(** Every tile is an edge tile. *)
Definition all_edges (p : Planned) : Prop := forall t, t ∈ p_tiles p -> exists x, x ∈ subtrees n /\ t = own_tile h n x.

Lemma lookup_prefix {A} (l l' : list A) i x : l `prefix_of` l' -> l !! i = Some x -> l' !! i = Some x.
Proof. intros [k ->] H. by apply lookup_app_l_Some. Qed.

(** The tile of each edge node is planned, and no other tile. *)
Lemma plan_edge_ok xs p : (forall x, x ∈ xs -> x ∈ subtrees n) -> order_ok p -> all_edges p ->
  exists js p', plan_edge h n xs p = Ok (zip xs (map Z.of_nat js), p') /\ order_ok p' /\ all_edges p' /\ p_tiles p `prefix_of` p_tiles p' /\
    Forall2 (fun x j => p_tiles p' !! j = Some (own_tile h n x)) xs js.
Proof.
  revert p. induction xs as [|x xs IH]; intros p Hxs Ho Ha; cbn [plan_edge].
  - exists [], p. split; [done|]. split; [done|]. split; [done|]. split; [done|constructor].
  - assert (Hx : x ∈ subtrees n) by (apply Hxs; left). destruct (own_tile_is x (subtrees_in n x Hn Hx)) as (-> & _ & _).
    assert (Hstep : exists j p1, (match p_order p !! own_tile h n x with Some j => (j, p) | None => (len (p_tiles p), add_tile (own_tile h n x) p) end) = (Z.of_nat j, p1) /\
      order_ok p1 /\ all_edges p1 /\ p_tiles p `prefix_of` p_tiles p1 /\ p_tiles p1 !! j = Some (own_tile h n x)).
    { destruct (order_find p (own_tile h n x) Ho) as [(i & -> & Hi)|[Hno _]]; [by exists i, p|]. rewrite Hno. exists (length (p_tiles p)), (add_tile (own_tile h n x) p). split; [done|]. split; [by apply add_tile_order|]. cbn [add_tile p_tiles]. split; [|split].
      - intros t [Ht|Ht%list_elem_of_singleton]%elem_of_app; [by apply Ha|subst t; by exists x].
      - by apply prefix_app_r.
      - by rewrite lookup_app_r, Nat.sub_diag by done. }
    destruct Hstep as (j & p1 & -> & Ho1 & Ha1 & Hp1 & Hj). destruct (IH p1) as (js & p' & -> & Ho' & Ha' & Hp' & Hf); [intros y Hy; apply Hxs; by right|done|done|]. cbn [mbind result_bind].
    exists (j :: js), p'. split; [done|]. split; [done|]. split; [done|]. split; [by etrans|]. constructor; [|done]. by apply (lookup_prefix (p_tiles p1)).
Qed.

(** What is planned when the first [E] tiles are those of the right edge: the
    others are full, and each hangs off one before it. *)
Definition hung (ts : list Tile) (i : nat) (t : Tile) : Prop :=
  is_full t = true /\ exists a j, tile_ancestor t 1 n = Some a /\ ts !! j = Some a /\ (j < i)%nat.

Record planned_ok (E : nat) (p : Planned) : Prop := mk_planned_ok {
  po_order : order_ok p;
  po_all : forall t, t ∈ p_tiles p -> tile_in n t /\ height t = h;
  po_edges : forall x, x ∈ subtrees n -> own_tile h n x ∈ p_tiles p;
  po_edge : forall i t, p_tiles p !! i = Some t -> (i < E)%nat -> exists x, x ∈ subtrees n /\ t = own_tile h n x;
  po_hung : forall i t, p_tiles p !! i = Some t -> (E <= i)%nat -> hung (p_tiles p) i t;
  po_E : (E <= length (p_tiles p))%nat;
}.

Lemma add_tile_planned E p t : planned_ok E p -> p_order p !! t = None -> tile_in n t -> height t = h -> hung (p_tiles p) (length (p_tiles p)) t -> planned_ok E (add_tile t p).
Proof.
  intros [P1 P2 P3 P4 P5 P6] Hno Ht Hth Hh'. split; cbn [add_tile p_tiles].
  - by apply add_tile_order.
  - intros u [Hu|Hu%list_elem_of_singleton]%elem_of_app; [by apply P2|by subst u].
  - intros x Hx. apply elem_of_app. left. by apply P3.
  - intros i u [Hu|[Hi Hu]]%lookup_app_Some HE; [by apply (P4 i)|lia].
  - assert (Hmono : forall i u, hung (p_tiles p) i u -> hung (p_tiles p ++ [t]) i u) by (intros i u (H1 & a & j & H2 & H3 & H4); split; [done|]; exists a, j; split; [done|]; split; [by apply lookup_app_l_Some|done]).
    intros i u [Hu|[Hi Hu]]%lookup_app_Some HE; apply Hmono; [by apply P5|]. apply list_lookup_singleton_Some in Hu as [Hi' <-]. by replace i with (length (p_tiles p)) by lia.
  - rewrite length_app. lia.
Qed.

Lemma find_ancestor_ok E p t k fuel a : planned_ok E p -> tile_ok t -> height t = h -> (Z.of_nat k + Z.of_nat fuel = 66)%Z -> tile_ancestor t (Z.of_nat k) n = Some a ->
  exists K i, find_ancestor fuel t (Z.of_nat k) n p = Ok (Z.of_nat K, Z.of_nat i) /\ (k <= K <= 62)%nat /\
    (exists b, tile_ancestor t (Z.of_nat K) n = Some b /\ p_tiles p !! i = Some b) /\
    forall m, (k <= m < K)%nat -> exists b, tile_ancestor t (Z.of_nat m) n = Some b /\ is_full b = true /\ p_order p !! b = None.
Proof.
  intros Hp Ht Hth. revert k a. induction fuel as [|fuel IH]; intros k a Hk Ha.
  all: assert (Hk62 : (k <= 62)%nat).
  1,3: destruct (ancestor_at t (Z.of_nat k) a Ht Hth ltac:(lia) Ha) as (_ & Hl & _); destruct Ht as (_ & H2 & _); unfold height_ok in Hh; nia.
  1: lia.
  cbn [find_ancestor]. rewrite Ha. destruct (order_find p a (po_order _ _ Hp)) as [(i & -> & Hi)|[Hno Hnot]].
  - exists k, i. split; [done|]. split; [lia|]. split; [by exists a|]. intros m Hm. lia.
  - rewrite Hno. assert (Hfull : is_full a = true).
    { destruct (is_full a) eqn:Hf; [done|]. destruct (partial_edge t (Z.of_nat k) a Ht Hth ltac:(lia) Ha Hf) as (x & Hx & ->). exfalso. by apply Hnot, (po_edges _ _ Hp). }
    destruct (full_parent t (Z.of_nat k) a Ht Hth ltac:(lia) Ha Hfull) as (a' & Ha' & _). rewrite (proj2 (Z.ltb_ge 64 _)) by lia. replace (Z.of_nat k + 1) with (Z.of_nat (S k)) in * by lia.
    destruct (IH (S k) a') as (K & i & -> & HK & Hb & Hm); [lia|done|]. exists K, i. split; [done|]. split; [lia|]. split; [done|]. intros m Hm'. destruct (decide (m = k)) as [->|]; [by exists a|]. apply Hm. lia.
Qed.

Lemma plan_down_ok E t K p : planned_ok E p -> tile_ok t -> height t = h -> (K <= 62)%nat -> (exists b, tile_ancestor t (Z.of_nat K) n = Some b /\ b ∈ p_tiles p) ->
  (forall m, (m < K)%nat -> exists b, tile_ancestor t (Z.of_nat m) n = Some b /\ is_full b = true /\ p_order p !! b = None) ->
  exists p', plan_down t n K p = Ok p' /\ planned_ok E p' /\ p_tiles p `prefix_of` p_tiles p' /\ (K = 0%nat -> p' = p) /\
    ((0 < K)%nat -> exists a, tile_ancestor t 0 n = Some a /\ p_tiles p' !! (length (p_tiles p') - 1)%nat = Some a).
Proof.
  intros Hp Ht Hth. revert p Hp. induction K as [|k IH]; intros p Hp HK Hb Hm; cbn [plan_down]; [exists p; split; [done|]; split; [done|]; split; [done|]; split; [done|lia]|].
  destruct (Hm k) as (b & Hanc & Hfull & Hno); [lia|]. rewrite Hanc, Hfull. cbn [negb]. assert (Hin := proj1 (tile_ancestor_in t (Z.of_nat k) n b Ht ltac:(lia) Hn Hanc)). assert (Hbh := proj2 (tile_ancestor_in t (Z.of_nat k) n b Ht ltac:(lia) Hn Hanc)). rewrite Hth in Hbh.
  assert (Hp1 : planned_ok E (add_tile b p)).
  { apply add_tile_planned; [done|done|done|done|]. split; [done|]. destruct (full_parent t (Z.of_nat k) b Ht Hth ltac:(lia) Hanc Hfull) as (a & Ha1 & Ha2). destruct Hb as (b' & Hb1 & Hb2). replace (Z.of_nat (S k)) with (Z.of_nat k + 1) in Hb1 by lia.
    rewrite Ha1 in Hb1. injection Hb1 as <-. apply list_elem_of_lookup_1 in Hb2 as [j Hj]. exists a, j. split; [done|]. split; [done|]. by apply lookup_lt_Some in Hj. }
  destruct (IH (add_tile b p) Hp1) as (p' & -> & Hp' & Hpre & Hzero & Hlast); [lia| | |].
  - exists b. split; [done|]. cbn [add_tile p_tiles]. apply elem_of_app. right. left.
  - intros m Hmk. destruct (Hm m) as (c & Hc1 & Hc2 & Hc3); [lia|]. exists c. split; [done|]. split; [done|]. cbn [add_tile p_order]. rewrite lookup_insert_ne; [done|]. intros ->.
    destruct (ancestor_at t (Z.of_nat k) c Ht Hth ltac:(lia) Hanc) as (E1 & _). destruct (ancestor_at t (Z.of_nat m) c Ht Hth ltac:(lia) Hc1) as (E2 & _). rewrite E1 in E2. unfold tile_at in E2. injection E2. lia.
  - exists p'. split; [done|]. split; [done|]. split; [etrans; [|exact Hpre]; cbn [add_tile p_tiles]; by apply prefix_app_r|]. split; [done|]. intros _. destruct k as [|k]; [|apply Hlast; lia].
    exists b. split; [done|]. rewrite (Hzero eq_refl). cbn [add_tile p_tiles]. rewrite length_app. by rewrite lookup_app_r, Nat.add_sub, Nat.sub_diag by (cbn; lia).
Qed.

Lemma plan_nodes_ok E xs p : (forall x, x ∈ xs -> node_in n x) -> planned_ok E p ->
  exists js p', plan_nodes h n xs p = Ok (map Z.of_nat js, p') /\ planned_ok E p' /\ p_tiles p `prefix_of` p_tiles p' /\ Forall2 (fun x j => p_tiles p' !! j = Some (own_tile h n x)) xs js.
Proof.
  revert p. induction xs as [|x xs IH]; intros p Hxs Hp; cbn [plan_nodes].
  - exists [], p. split; [done|]. split; [done|]. split; [done|constructor].
  - assert (Hx : node_in n x) by (apply Hxs; left). destruct (own_tile_is x Hx) as (Hown & _ & _). assert (Ht := node_tile_ok h x Hh (node_in_max x Hx)). assert (Hth : height (fst (fst (node_tile h x))) = h) by (rewrite node_tile_is by (done || by apply node_in_max); done). set (t := fst (fst (node_tile h x))) in *.
    destruct (find_ancestor_ok E p t 0 66 _ Hp Ht Hth eq_refl Hown) as (K & i & Hf & HK & (b & Hb1 & Hb2) & Hm). change (Z.of_nat 0) with 0 in Hf. rewrite Hf. cbn [mbind result_bind].
    assert (Hstep : exists j p1, (if Z.of_nat K =? 0 then Ok (Z.of_nat i, p) else p' ← plan_down t n (Z.to_nat (Z.of_nat K)) p; Ok (len (p_tiles p') - 1, p')) = Ok (Z.of_nat j, p1) /\
      planned_ok E p1 /\ p_tiles p `prefix_of` p_tiles p1 /\ p_tiles p1 !! j = Some (own_tile h n x)).
    { destruct K as [|K]; [rewrite Z.eqb_refl; exists i, p; change (Z.of_nat 0) with 0 in Hb1; rewrite Hown in Hb1; by injection Hb1 as <-|]. rewrite (proj2 (Z.eqb_neq _ _)), Nat2Z.id by lia.
      destruct (plan_down_ok E t (S K) p Hp Ht Hth) as (p1 & -> & Hp1 & Hpre & _ & Hlast); [lia|exists b; split; [done|by apply list_elem_of_lookup_2 in Hb2]|intros m Hm'; apply Hm; lia|].
      destruct Hlast as (a & Ha & Hl); [lia|]. rewrite Hown in Ha. injection Ha as <-. exists (length (p_tiles p1) - 1)%nat, p1. cbn [mbind result_bind]. split; [|done]. apply lookup_lt_Some in Hl. unfold len. do 2 f_equal. lia. }
    destruct Hstep as (j & p1 & -> & Hp1 & Hpre1 & Hj). cbn [mbind result_bind]. destruct (IH p1) as (js & p' & -> & Hp' & Hpre & Hfa); [intros y Hy; apply Hxs; by right|done|]. cbn [mbind result_bind].
    exists (j :: js), p'. split; [done|]. split; [done|]. split; [by etrans|]. constructor; [|done]. by apply (lookup_prefix (p_tiles p1)).
Qed.

(** What is planned for nodes of the tree. *)
Record plan_ok (nodes : list Node) (p : Plan) (E : nat) (ejs js : list nat) : Prop := mk_plan_ok {
  pl_edge : edge p = zip (subtrees n) (map Z.of_nat ejs);
  pl_ejs : Forall2 (fun x j => tiles p !! j = Some (own_tile h n x) /\ (j < E)%nat) (subtrees n) ejs;
  pl_E : edge_tiles p = Z.of_nat E;
  pl_le : (E <= length (tiles p))%nat;
  pl_node : node_at p = map Z.of_nat js;
  pl_js : Forall2 (fun x j => tiles p !! j = Some (own_tile h n x)) nodes js;
  pl_in : forall t, t ∈ tiles p -> tile_in n t /\ height t = h;
  pl_edges : forall i t, tiles p !! i = Some t -> (i < E)%nat -> exists x, x ∈ subtrees n /\ t = own_tile h n x;
  pl_hung : forall i t, tiles p !! i = Some t -> (E <= i)%nat -> hung (tiles p) i t;
  pl_once : NoDup (tiles p);
}.

Lemma order_once p : order_ok p -> NoDup (p_tiles p).
Proof.
  intros Ho. apply NoDup_alt. intros i j t Hi Hj. assert (H1 : p_order p !! t = Some (Z.of_nat i)) by (apply Ho; by exists i). assert (H2 : p_order p !! t = Some (Z.of_nat j)) by (apply Ho; by exists j). rewrite H1 in H2. injection H2. lia.
Qed.

Lemma plan_is nodes : (forall x, x ∈ nodes -> node_in n x) -> exists p E ejs js, plan n h nodes = Ok p /\ plan_ok nodes p E ejs js.
Proof.
  intros Hx. assert (Hhh := Hh). unfold height_ok in Hhh. unfold plan. rewrite !(proj2 (Z.ltb_ge _ _)) by lia. cbn [orb].
  assert (Hg : existsb (fun x => (62 <? level x) || (n <? Z.shiftl (index x + 1) (level x))) nodes = false).
  { apply Bool.not_true_iff_false. intros (x & Hin%list_elem_of_In & Hb)%existsb_exists. destruct (Hx x Hin) as (H1 & H2 & H3). rewrite Z.shiftl_mul_pow2, !(proj2 (Z.ltb_ge _ _)) in Hb by lia. done. }
  rewrite Hg. destruct (plan_edge_ok (subtrees n) (mk_planned [] ∅)) as (ejs & p1 & -> & Ho & Ha & _ & Hf); [done| |intros t Ht; by apply elem_of_nil in Ht|].
  { intros t j. cbn [p_order p_tiles]. rewrite lookup_empty. split; [done|]. intros (i & _ & Hi). by rewrite lookup_nil in Hi. }
  cbn [mbind result_bind]. assert (Hp1 : planned_ok (length (p_tiles p1)) p1).
  { split; [done| | | |intros i t Hi HE; apply lookup_lt_Some in Hi; lia|done].
    - intros t (x & Hxs & ->)%Ha. split; [|done]. by apply own_tile_is, subtrees_in.
    - intros x [i Hi]%list_elem_of_lookup_1. destruct (Forall2_lookup_l _ _ _ _ _ Hf Hi) as (j & _ & Hj). by apply list_elem_of_lookup_2 in Hj.
    - intros i t Hi _. by apply Ha, (list_elem_of_lookup_2 _ i). }
  destruct (plan_nodes_ok _ nodes p1 Hx Hp1) as (js & p2 & -> & Hp2 & Hpre & Hjs). cbn [mbind result_bind]. do 4 eexists. split; [done|]. destruct Hp2 as [Q1 Q2 Q3 Q4 Q5 Q6]. split; cbn [edge tiles edge_tiles node_at]; try done.
  - eapply Forall2_impl; [exact Hf|]. intros x j Hj. split; [by apply (lookup_prefix (p_tiles p1))|by apply lookup_lt_Some in Hj].
  - by apply order_once.
Qed.

End tree.
