(* ===== verification/Tiles.v ===== *)
(** What is read from tiles, and what [check_record] and [check_prefix] of
    [Tlog] decide.

    Tiles that fit the root of a tree are the tiles of that tree: else two
    different pairs of hashes with one hash are among those that the tiles and
    the tree make ([read_pairs] and [tree_pairs]). *)

From Stdlib Require Import ZArith Lia String.
From stdpp Require Import base option numbers list_numbers list gmap.
From S2P Require Import Prelude Slice Sha2 Tlog Merkle TileTree TileData TilePlan.

#[local] Open Scope Z_scope.
#[local] Opaque node_hash.

(** ** The data of the tiles *)

(** The hashes that the data of a tile holds. *)
Definition held (t : Tile) (d : list Z) : list Hash := chunks (Z.to_nat (width t)) d.

(** The pairs that the data of tiles make, and those that the right edge
    makes. *)
Definition read_pairs (tree : Tree) (height : Z) (nodes : list Node) (set : TileSet) : list (Hash * Hash) :=
  match plan (size tree) height nodes with
  | Ok p =>
      match get_tiles (tiles p) set with
      | Ok data =>
          concat (zip_with (fun t d => tree_pairs (held t d)) (tiles p) data) ++
          match hashes_at (tiles p) data (edge p) with Ok hs => fold_pairs hs | Err _ => [] end
      | Err _ => []
      end
  | Err _ => []
  end.

(** Data of the right length. *)
Definition data_ok (t : Tile) (d : list Z) : Prop := len d = data_len t.

Lemma get_tiles_ok ts set data : get_tiles ts set = Ok data -> Forall2 data_ok ts data.
Proof.
  revert data. induction ts as [|t ts IH]; intros data H; cbn [get_tiles] in H; [injection H as <-; constructor|]. destruct (ts_get t set) as [d|]; [|done]. destruct (Z.eqb_spec (len d) (data_len t)) as [Hd|]; [|done]. cbn [negb] in H.
  destruct (get_tiles ts set) as [ds|]; [|done]. injection H as <-. constructor; [done|]. by apply IH.
Qed.

Lemma held_ok t d : 1 <= width t -> data_ok t d -> d = concat (held t d) /\ hashes (held t d) /\ len (held t d) = width t.
Proof.
  intros Hw Hd. unfold data_ok, data_len, HASH_SIZE, len in Hd. destruct (chunks_spec (Z.to_nat (width t)) d) as (H1 & H2 & H3); [lia|]. split; [by symmetry|]. split; [done|]. unfold held, len. rewrite H3. lia.
Qed.

(** One of many fails, or none. *)
Lemma all_or {A} (P : A -> Prop) (Q : Prop) (xs : list A) : (forall x, x ∈ xs -> P x \/ Q) -> (forall x, x ∈ xs -> P x) \/ Q.
Proof.
  induction xs as [|x xs IH]; intros H; [left; by intros x ?%elem_of_nil|]. destruct (H x) as [Hx|Hq]; [left| |by right]. destruct IH as [Hxs|Hq]; [intros y Hy; apply H; by right| |by right].
  left. intros y [->|Hy]%elem_of_cons; [done|by apply Hxs].
Qed.

Lemma map_lookup {A B} (f : A -> B) xs i x : xs !! i = Some x -> map f xs !! i = Some (f x).
Proof. intros H. change (map f xs) with (f <$> xs). by rewrite list_lookup_fmap, H. Qed.

Lemma Forall2_weaken {A B} (P Q : A -> B -> Prop) xs ys : Forall2 P xs ys -> (forall x y, x ∈ xs -> P x y -> Q x y) -> Forall2 Q xs ys.
Proof. induction 1 as [|x y xs ys Hxy _ IH]; intros H; constructor; [apply H; [left|done]|apply IH; intros u v Hu; apply H; by right]. Qed.

(** Hashes read at places of the list. *)
Lemma hashes_at_inv ts data xs js hs : length xs = length js -> hashes_at ts data (zip xs (map Z.of_nat js)) = Ok hs ->
  length hs = length xs /\ forall i x j, xs !! i = Some x -> js !! i = Some j -> exists t d r, ts !! j = Some t /\ data !! j = Some d /\ hash_from_tile t d x = Ok r /\ hs !! i = Some r.
Proof.
  revert js hs. induction xs as [|x xs IH]; intros [|j js] hs Hl H; try done; cbn [zip zip_with map hashes_at] in H.
  - injection H as <-. split; [done|]. by intros i.
  - unfold node_hash_at, at_ in H. rewrite Nat2Z.id in H. destruct (ts !! j) as [t|] eqn:Ht; [|done]. destruct (data !! j) as [d|] eqn:Hd; [|done]. cbn [mbind result_bind] in H. destruct (hash_from_tile t d x) as [r|] eqn:Hr; [|done].
    fold (zip xs (map Z.of_nat js)) in H. destruct (hashes_at ts data _) as [rs|] eqn:Hrs; [|done]. injection H as <-. injection Hl as Hl. destruct (IH js rs Hl Hrs) as [H1 H2]. split; [cbn; lia|].
    intros [|i] y k Hy Hk; [injection Hy as <-; injection Hk as <-; by exists t, d, r|]. by apply (H2 i).
Qed.

Lemma hashes_at_is ts data xs js (f : Node -> Hash) : Forall2 (fun x j => exists t d, ts !! j = Some t /\ data !! j = Some d /\ hash_from_tile t d x = Ok (f x)) xs js ->
  hashes_at ts data (zip xs (map Z.of_nat js)) = Ok (map f xs).
Proof.
  induction 1 as [|x j xs js (t & d & Ht & Hd & Hf) _ IH]; [done|]. cbn [zip zip_with map hashes_at]. unfold node_hash_at, at_. rewrite Nat2Z.id, Ht, Hd. cbn [mbind result_bind]. rewrite Hf. cbn [mbind result_bind]. fold (zip xs (map Z.of_nat js)). by rewrite IH.
Qed.

(** ** Tiles that fit the root *)

Section read.
Context (l : list Hash) (Hs : small_tree l) (h : Z) (Hh : height_ok h).

#[local] Abbreviation n := (len l).

Lemma size_ok : 0 <= n <= MAX_TREE_SIZE.
Proof. unfold small_tree in Hs. split; [apply len_nonneg|done]. Qed.

(** The data is that of the tree. *)
Definition genuine (t : Tile) (d : list Z) : Prop := held t d = entries l t.

(** The read hash is right when the data is. *)
Lemma read_genuine t d x : tile_in n t -> height t = h -> data_ok t d -> node_in n x ->
  hash_from_tile t d x = if decide (placed t x) then Ok (mth (under t x (held t d))) else Err (Invalid "the node is not in this tile"%string).
Proof.
  intros Ht Hth Hd Hx. destruct (held_ok t d) as (E1 & E2 & E3); [by apply Ht|done|]. rewrite E1 at 1. apply hash_from_tile_is; [apply (validate_in n); [apply size_ok|done]|by rewrite Hth|done|done|]. apply (node_in_max n); [apply size_ok|done].
Qed.

Lemma genuine_node t d x : tile_in n t -> height t = h -> node_in n x -> placed t x -> genuine t d -> mth (under t x (held t d)) = node_of l x.
Proof. intros Ht Hth Hx Hp ->. apply under_node; [done|apply (node_in_max n); [apply size_ok|done]|done]. Qed.

(** Equal hashes under a node are of equal entries. *)
Lemma under_equal t d x : tile_in n t -> height t = h -> data_ok t d -> node_in n x -> placed t x -> mth (under t x (held t d)) = node_of l x ->
  under t x (held t d) = under t x (entries l t) \/ collision (tree_pairs (held t d)) (tree_pairs l).
Proof.
  intros Ht Hth Hd Hx Hp He. assert (Hw : 1 <= width t) by apply Ht. destruct (held_ok t d Hw Hd) as (E1 & E2 & E3). assert (Hel := entries_length l t Ht). assert (Hhl : length (held t d) = Z.to_nat (width t)) by (unfold len in E3; lia).
  assert (Hx' : node_in MAX_TREE_SIZE x) by (apply (node_in_max n); [apply size_ok|done]). assert (Hht : height_ok (height t)) by by rewrite Hth.
  assert (Hpe := under_pairs l t x Ht Hx' Hp). destruct (mth_inj (under t x (held t d)) (under t x (entries l t))) as [Heq|Hc]; [by rewrite !under_length by done|by rewrite He, under_node by done|by left|right].
  eapply collision_mono; [|exact Hpe|exact Hc]. apply tree_pairs_block.
Qed.

(** The nodes of the right edge cover their tiles. *)
Lemma edge_covered L xs ys : 0 <= L -> L * h <= 62 -> length xs = Z.to_nat (width (edge_tile h n L)) -> length ys = Z.to_nat (width (edge_tile h n L)) ->
  (forall x, x ∈ subtrees n -> own_tile h n x = edge_tile h n L -> under (edge_tile h n L) x xs = under (edge_tile h n L) x ys) -> xs = ys.
Proof.
  intros HL HLh Hxs Hys Hu. apply (list_eq_same_length _ _ (length xs)); [by rewrite Hys, Hxs|done|]. intros p a b Hp Ha Hb. assert (Hhh := Hh). unfold height_ok in Hhh. assert (Hph := pow_pos h ltac:(lia)).
  set (w := width (edge_tile h n L)) in *. assert (Hw : w < 2 ^ Z.of_nat (Z.to_nat h)) by (unfold w; rewrite Z2Nat.id, edge_width by (done || lia); apply Z.mod_pos_bound; lia).
  destruct (cover (Z.to_nat h) w (Z.of_nat p)) as (k & Hk & Ho & He); [lia|done|]. rewrite Z2Nat.id in Hk by lia. destruct (edge_node_is h n Hh size_ok L k) as (H1 & H2 & H3 & H4); [done|done|done|done|].
  specialize (Hu _ H1 H2). unfold under in Hu. cbn [edge_tile tile_at height] in Hu. rewrite H3, H4 in Hu. fold w in Hu. rewrite <- He in Hu. assert (Hpk := pow_pos k ltac:(lia)).
  assert (Hdm := Z.div_mod (Z.of_nat p) (2 ^ k) ltac:(lia)). assert (Hmr := Z.mod_pos_bound (Z.of_nat p) (2 ^ k) Hpk). assert (Hq0 : 0 <= Z.of_nat p / 2 ^ k) by (apply Z.div_pos; lia).
  assert (Hb' : forall zs : list Hash, zs !! p = block (Z.to_nat k) (Z.to_nat (Z.of_nat p / 2 ^ k)) zs !! Z.to_nat (Z.of_nat p mod 2 ^ k)).
  { intros zs. unfold block. rewrite <- to_nat_pow by lia. rewrite lookup_take_lt by lia. rewrite lookup_drop. f_equal. nia. }
  rewrite (Hb' xs), Hu, <- (Hb' ys), Hb in Ha. by injection Ha.
Qed.

(** All that is hashed. *)
Definition made_pairs (ts : list Tile) (data : list (list Z)) (hs : list Hash) : list (Hash * Hash) :=
  concat (zip_with (fun t d => tree_pairs (held t d)) ts data) ++ fold_pairs hs.

Lemma made_tile ts data hs (i : nat) t d : ts !! i = Some t -> data !! i = Some d -> tree_pairs (held t d) ⊆ made_pairs ts data hs.
Proof.
  intros Ht Hd x Hx. apply elem_of_app. left. apply list_elem_of_In, in_concat. exists (tree_pairs (held t d)). split; [|by apply list_elem_of_In]. apply list_elem_of_In, (list_elem_of_lookup_2 _ i). by rewrite lookup_zip_with, Ht, Hd.
Qed.

(** The data of the first [k] tiles. *)
Definition genuine_below (k : nat) (ts : list Tile) (data : list (list Z)) : Prop := forall i t d, (i < k)%nat -> ts !! i = Some t -> data !! i = Some d -> genuine t d.

(** The hashes of the right edge are those of the tree. *)
Lemma edge_hashes_right ts data xs js hs : length xs = length js -> hashes_at ts data (zip xs (map Z.of_nat js)) = Ok hs -> xs = subtrees n -> fold_subtrees hs = mth l ->
  hs = map (node_of l) xs \/ collision (made_pairs ts data hs) (tree_pairs l).
Proof.
  intros Hlen Hhs -> Hroot. destruct (hashes_at_inv _ _ _ _ _ Hlen Hhs) as [Hl1 _]. destruct (subtrees_root l Hs) as [Hr1 Hr2]. rewrite <- Hr1, !fold_subtrees_fold1 in Hroot.
  assert (Hl2 : length hs = length (map (node_of l) (subtrees n))) by (by rewrite length_map). destruct (fold1_inj hs _ Hl2 Hroot) as [Heq|Hc]; [by left|right].
  eapply collision_mono; [|exact Hr2|exact Hc]. intros q Hq. apply elem_of_app. by right.
Qed.

(** So are the entries under its nodes. *)
Lemma edge_entries_right ts data hs x (j : nat) : tile_in n (own_tile h n x) -> node_in n x -> Forall2 data_ok ts data -> NoDup ts -> ts !! j = Some (own_tile h n x) ->
  (exists t d, ts !! j = Some t /\ data !! j = Some d /\ hash_from_tile t d x = Ok (node_of l x)) ->
  (forall j' d, ts !! j' = Some (own_tile h n x) -> data !! j' = Some d -> under (own_tile h n x) x (held (own_tile h n x) d) = under (own_tile h n x) x (entries l (own_tile h n x))) \/
  collision (made_pairs ts data hs) (tree_pairs l).
Proof.
  intros Htin Hin Hdata Honce Ht (t' & d & Ht' & Hd & Hr). rewrite Ht in Ht'. injection Ht' as <-. destruct (own_tile_is h n Hh size_ok x Hin) as (_ & _ & Hplaced). remember (own_tile h n x) as t eqn:Hown. assert (Hth : height t = h) by by rewrite Hown.
  assert (Hdok : data_ok t d) by (by apply (Forall2_lookup_lr _ _ _ j _ _ Hdata)). rewrite (read_genuine t d x), decide_True in Hr by done. apply (f_equal (fun r => match r with Ok a => a | Err _ => [] end)) in Hr.
  destruct (under_equal t d x Htin Hth Hdok Hin Hplaced Hr) as [He|Hc]; [left|right].
  - intros j' d' Ht' Hd'. rewrite (NoDup_lookup _ _ _ t Honce Ht' Ht), Hd in Hd'. injection Hd' as <-. exact He.
  - eapply collision_mono; [by eapply made_tile| |exact Hc]. done.
Qed.

Lemma edges_genuine nodes p E ejs js data hs : plan_ok h n nodes p E ejs js -> Forall2 data_ok (tiles p) data -> hashes_at (tiles p) data (edge p) = Ok hs -> fold_subtrees hs = mth l ->
  genuine_below E (tiles p) data \/ collision (made_pairs (tiles p) data hs) (tree_pairs l).
Proof.
  intros [L1 L2 L3 L4 L5 L6 L7 L8 L9 L10] Hdata Hhs Hroot. rewrite L1 in Hhs. assert (Hlen := Forall2_length _ _ _ L2). destruct (hashes_at_inv _ _ _ _ _ Hlen Hhs) as [Hl1 Hread].
  destruct (edge_hashes_right _ _ _ _ _ Hlen Hhs eq_refl Hroot) as [Heq|Hc]; [|by right].
  assert (Hnode : forall x, x ∈ subtrees n -> (forall j' d, tiles p !! j' = Some (own_tile h n x) -> data !! j' = Some d -> under (own_tile h n x) x (held (own_tile h n x) d) = under (own_tile h n x) x (entries l (own_tile h n x))) \/
    collision (made_pairs (tiles p) data hs) (tree_pairs l)).
  { intros x [i Hi]%list_elem_of_lookup_1. assert (Hx := list_elem_of_lookup_2 _ _ _ Hi). destruct (Forall2_lookup_l _ _ _ _ _ L2 Hi) as (j & Hj & Ht & HjE). destruct (Hread i x j Hi Hj) as (t & d & r & Ht' & Hd & Hr & Hri).
    rewrite Heq, (map_lookup _ _ _ _ Hi) in Hri. apply Some_inj in Hri as <-. apply (edge_entries_right _ _ _ x j); [|by apply subtrees_in, Hx; apply size_ok|done|done|done|by exists t, d].
    apply L7. by apply list_elem_of_lookup_2 in Ht. }
  apply all_or in Hnode as [Hnode|Hc]; [left|by right]. intros i t d HiE Ht Hd. destruct (L8 i t Ht HiE) as (x & Hx & Hown). destruct (L7 t) as [Htin Hth]; [by apply list_elem_of_lookup_2 in Ht|].
  destruct (own_edge h n Hh size_ok x Hx) as (He & HL & HLh). rewrite <- Hown in He. assert (Hdok : data_ok t d) by (by apply (Forall2_lookup_lr _ _ _ i _ _ Hdata)). destruct (held_ok t d ltac:(apply Htin) Hdok) as (_ & _ & Hhl).
  apply (edge_covered (level x / h)); [done|done|rewrite <- He; unfold len in Hhl; lia|rewrite <- He; by apply entries_length|]. intros y Hy Hye. rewrite <- He in Hye |- *. rewrite <- Hye. rewrite <- Hye in Ht. by apply (Hnode y Hy i).
Qed.

(** A full tile is a perfect subtree, of which the parent has the hash. *)
Lemma full_block t : tile_in n t -> height t = h -> is_full t = true -> entries l t = block (Z.to_nat h) (Z.to_nat (t_index t)) (level_of (Z.to_nat (base_level t)) l).
Proof.
  intros Ht Hth Hf. apply is_full_iff in Hf; [|by rewrite Hth]. destruct Ht as [(H1 & H2 & H3) Hb Hw He]. unfold height_ok in Hh. unfold entries, block. rewrite Hth in Hf |- *. rewrite Hf.
  by rewrite Z2Nat.inj_mul, to_nat_pow by (try apply Z.pow_nonneg; lia).
Qed.

(** The node whose hash the parent has. *)
Definition root_node (t : Tile) : Node := mk_node ((t_level t + 1) * h) (t_index t).

Lemma root_node_in t : tile_in n t -> height t = h -> is_full t = true -> node_in n (root_node t) /\ mth (entries l t) = node_of l (root_node t).
Proof.
  intros Ht Hth Hf. assert (Hfb := full_block t Ht Hth Hf). apply is_full_iff in Hf; [|by rewrite Hth]. destruct Ht as [(H1 & H2 & H3) Hb Hw He]. assert (Hhh := Hh). unfold height_ok in Hhh. unfold base_level in *. rewrite Hth in *. assert (Hl0 : 0 <= t_level t * h) by nia.
  assert (Hph := pow_pos h ltac:(lia)). assert (Hpl := pow_pos _ Hl0). assert (Hd := Z.mul_div_le n _ Hpl). assert (Hfit : (t_index t + 1) * 2 ^ ((t_level t + 1) * h) <= n) by (replace ((t_level t + 1) * h) with (t_level t * h + h) by ring; rewrite Z.pow_add_r by lia; nia). split.
  - split; cbn [root_node level index]; [|split; [lia|exact Hfit]]. split; [nia|]. destruct (Z.le_gt_cases ((t_level t + 1) * h) 62) as [|Hgt]; [done|]. exfalso. assert (Hsz := size_ok). rewrite max_tree in Hsz.
    assert (H63 := pow_le 63 ((t_level t + 1) * h) ltac:(lia)). change (2 ^ 63) with (2 * 2 ^ 62) in H63. nia.
  - rewrite Hfb, mth_block_level. unfold node_of, root_node. cbn [level index]. unfold base_level in *. rewrite ?Hth. rewrite <- Z2Nat.inj_add by lia. do 3 f_equal. lia.
Qed.

Lemma full_pairs t : tile_in n t -> height t = h -> is_full t = true -> tree_pairs (entries l t) ⊆ tree_pairs l.
Proof. intros Ht Hth Hf. rewrite full_block by done. etrans; [apply tree_pairs_block|apply tree_pairs_level]. Qed.

(** The parent holds it. *)
Lemma parent_holds a t : tile_in n a -> node_in n (root_node t) -> a = tile_at h n (t_level t + 1) (t_index t / 2 ^ h) -> placed a (root_node t).
Proof.
  intros Ha Hx ->. assert (Hhh := Hh). unfold height_ok in Hhh. assert (Hlev : (t_level t + 1) * h / h = t_level t + 1) by (apply Z.div_mul; lia). assert (Hsub : sub_of h (root_node t) = 0) by (unfold sub_of; cbn [root_node level]; apply Z.mod_mul; lia).
  assert (Hti : tile_index h (root_node t) = t_index t / 2 ^ h) by (unfold tile_index; by rewrite Hsub, Z.sub_0_r). assert (He := end_inside h n Hh (root_node t) Hx). assert (Her := end_range h (root_node t) Hh). cbn [root_node level] in He. rewrite Hlev, Hti in He.
  split; [|split]; cbn [tile_at t_level t_index height width root_node level]; [by rewrite Hlev|by rewrite Hti|lia].
Qed.

(** The data of a full tile hashes to the root of what it holds. *)
Lemma full_hash t d : tile_in n t -> height t = h -> is_full t = true -> data_ok t d -> subtree_hash d = Ok (mth (held t d)).
Proof.
  intros Ht Hth Hf Hd. destruct (held_ok t d ltac:(apply Ht) Hd) as (E1 & E2 & E3). rewrite E1 at 1. apply (subtree_hash_mth (Z.to_nat h)); [done|]. apply is_full_iff in Hf; [|by rewrite Hth]. unfold height_ok in Hh. rewrite Hth in Hf. rewrite <- to_nat_pow, <- Hf, <- E3 by lia. unfold len. lia.
Qed.

(** The place of a tile. *)
Lemma position_iff ts t j : NoDup ts -> position ts !! t = Some j <-> exists i : nat, j = Z.of_nat i /\ ts !! i = Some t.
Proof.
  intros Hn. unfold position. assert (Hlen : length ts = length (map Z.of_nat (seq 0 (length ts)))) by (by rewrite length_map, length_seq).
  rewrite <- elem_of_list_to_map.
  - rewrite <- Permutation_rev, list_elem_of_lookup. split.
    + intros (i & Hi). apply lookup_zip_with_Some in Hi as (t' & j' & [= <- <-] & Ht & Hj). exists i. split; [|done]. change (map Z.of_nat (seq 0 (length ts))) with (Z.of_nat <$> seq 0 (length ts)) in Hj. apply list_lookup_fmap_Some in Hj as (k & -> & Hk). apply lookup_seq in Hk as [-> _]. done.
    + intros (i & -> & Hi). exists i. apply lookup_zip_with_Some. exists t, (Z.of_nat i). split; [done|]. split; [done|]. apply (map_lookup Z.of_nat _ i i). apply lookup_seq. split; [done|]. by apply lookup_lt_Some in Hi.
  - rewrite <- Permutation_rev. rewrite fst_zip; [done|]. lia.
Qed.

(** A tile that passes its check against genuine data is genuine. *)
Lemma child_genuine ts data hs (i : nat) t d : Forall2 data_ok ts data -> NoDup ts -> (forall u, u ∈ ts -> tile_in n u /\ height u = h) -> ts !! i = Some t -> data !! i = Some d -> is_full t = true ->
  check_child n h ts data (Z.of_nat i) = Ok tt -> genuine_below i ts data -> genuine t d \/ collision (made_pairs ts data hs) (tree_pairs l).
Proof.
  intros Hdata Honce Hall Ht Hd Hf Hc Hbelow. destruct (Hall t) as [Htin Hth]; [by apply list_elem_of_lookup_2 in Ht|]. assert (Hdok : data_ok t d) by (by apply (Forall2_lookup_lr _ _ _ i _ _ Hdata)).
  unfold check_child, at_ in Hc. rewrite Nat2Z.id, Ht in Hc. cbn [mbind result_bind] in Hc. destruct (tile_ancestor t 1 n) as [a|] eqn:Ha; [|done]. destruct (position ts !! a) as [j|] eqn:Hj; [|done]. apply position_iff in Hj as (k & -> & Hk); [|done].
  destruct (Z.leb_spec (Z.of_nat i) (Z.of_nat k)) as [|Hki]; [done|]. rewrite Nat2Z.id in Hc. destruct (data !! k) as [pd|] eqn:Hpd; [|done]. cbn [mbind result_bind] in Hc. destruct (Hall a) as [Hain Hah]; [by apply list_elem_of_lookup_2 in Hk|].
  assert (Hal : t_level a = t_level t + 1) by (destruct (ancestor_at h n Hh size_ok t 1 a) as (-> & _); [apply Htin|done|lia|done|done]).
  rewrite Hal in Hc. fold (root_node t) in Hc. destruct (root_node_in t Htin Hth Hf) as [Hxin Hroot]. rewrite (read_genuine a pd) in Hc by (done || by apply (Forall2_lookup_lr _ _ _ k a pd Hdata)). destruct (decide (placed a (root_node t))) as [Hpl|]; [|done]. cbn [mbind result_bind] in Hc.
  assert (Hga : genuine a pd) by (apply (Hbelow k a pd); [lia|done|done]). rewrite Hd, (genuine_node a pd) in Hc by done. cbn [mbind result_bind] in Hc. rewrite (full_hash t d) in Hc by done. cbn [mbind result_bind] in Hc. destruct (bool_decide_reflect (node_of l (root_node t) = mth (held t d))) as [He|]; [|done]. rewrite <- Hroot in He.
  destruct (held_ok t d ltac:(apply Htin) Hdok) as (_ & _ & Hhl). destruct (mth_inj (held t d) (entries l t)) as [Heq|Hcol]; [rewrite entries_length by done; unfold len in Hhl; lia|done|by left|right].
  eapply collision_mono; [exact (made_tile ts data hs i t d Ht Hd)|exact (full_pairs t Htin Hth Hf)|exact Hcol].
Qed.

Lemma children_genuine ts data hs E m : Forall2 data_ok ts data -> NoDup ts -> (forall u, u ∈ ts -> tile_in n u /\ height u = h) -> (forall i t, ts !! i = Some t -> (E <= i)%nat -> hung n ts i t) ->
  check_children n h ts data (map Z.of_nat (seq E m)) = Ok tt -> genuine_below E ts data -> genuine_below (E + m) ts data \/ collision (made_pairs ts data hs) (tree_pairs l).
Proof.
  intros Hdata Honce Hall Hhung. revert E Hhung. induction m as [|m IH]; intros E Hhung Hc Hbelow; [left; by rewrite Nat.add_0_r|]. cbn [seq map check_children] in Hc. destruct (check_child n h ts data (Z.of_nat E)) as [[]|] eqn:Hck; [|done]. cbn [mbind result_bind] in Hc.
  assert (HS : genuine_below (S E) ts data \/ collision (made_pairs ts data hs) (tree_pairs l)).
  { destruct (ts !! E) as [t|] eqn:Ht; [destruct (data !! E) as [d|] eqn:Hd|].
    - destruct (child_genuine ts data hs E t d Hdata Honce Hall Ht Hd) as [Hg|Hcol]; [by apply (Hhung E)|done|done| |by right]. left. intros i u e Hi Hu He. destruct (decide (i = E)) as [->|]; [|by apply (Hbelow i); [lia| |]]. rewrite Ht in Hu. rewrite Hd in He. by injection Hu as <-; injection He as <-.
    - left. intros i u e Hi Hu He. destruct (decide (i = E)) as [->|]; [by rewrite Hd in He|by apply (Hbelow i); [lia| |]].
    - left. intros i u e Hi Hu He. destruct (decide (i = E)) as [->|]; [by rewrite Ht in Hu|by apply (Hbelow i); [lia| |]]. }
  destruct HS as [HS|]; [|by right]. replace (E + S m)%nat with (S E + m)%nat by lia. apply IH; [|done|done]. intros i t Ht Hi. apply Hhung; [done|lia].
Qed.

Lemma plan_inv nodes p : (forall x, x ∈ nodes -> 0 <= level x /\ 0 <= index x) -> plan n h nodes = Ok p -> forall x, x ∈ nodes -> node_in n x.
Proof.
  intros Hpos Hp x Hx. unfold plan in Hp. destruct (_ || _); [done|]. destruct (MAX_TREE_SIZE <? n); [done|]. destruct (existsb _ nodes) eqn:He; [done|]. destruct (Hpos x Hx) as [H1 H2].
  destruct (Z.leb_spec (level x) 62) as [H3|H3].
  - destruct (Z.leb_spec ((index x + 1) * 2 ^ level x) n) as [H4|H4]; [done|]. exfalso. apply Bool.not_true_iff_false in He. apply He, existsb_exists. exists x. split; [by apply list_elem_of_In|]. rewrite Z.shiftl_mul_pow2, orb_true_iff, !Z.ltb_lt by done. by right.
  - exfalso. apply Bool.not_true_iff_false in He. apply He, existsb_exists. exists x. split; [by apply list_elem_of_In|]. rewrite orb_true_iff, Z.ltb_lt. by left.
Qed.

Lemma no_edge : subtrees n = [] -> n = 0.
Proof.
  intros He. destruct (subtrees_root l Hs) as [Hr _]. assert (Hf := parts_fold 63 l Hs). cbn zeta in Hf. destruct Hf as [Hf _]. unfold len in He. rewrite subtrees_parts in He by exact Hs. rewrite He in Hf. destruct Hf as [Hf _]. specialize (Hf eq_refl).
  assert (H0 : (length l / 2 ^ 63 = 0)%nat); [|rewrite H0, drop_0 in Hf; by rewrite Hf]. apply Nat.div_small, Nat2Z.inj_lt. rewrite Nat2Z.inj_pow. unfold small_tree, len in Hs. rewrite max_tree in Hs. change (Z.of_nat 2 ^ Z.of_nat 63) with (2 * 2 ^ 62). lia.
Qed.

(** Without leaves there is no node. *)
Lemma no_nodes nodes : n = 0 -> (forall x, x ∈ nodes -> node_in n x) -> nodes = [].
Proof. intros Hz Hx. destruct nodes as [|x nodes]; [done|]. destruct (Hx x) as (H1 & H2 & H3); [left|]. assert (H4 := pow_pos (level x) ltac:(lia)). nia. Qed.

Lemma read_right nodes p E ejs js data hs : plan_ok h n nodes p E ejs js -> (forall x, x ∈ nodes -> node_in n x) -> Forall2 data_ok (tiles p) data -> genuine_below (length (tiles p)) (tiles p) data ->
  hashes_at (tiles p) data (zip nodes (node_at p)) = Ok hs -> hs = map (node_of l) nodes.
Proof.
  intros Hp Hx Hdata Hg Hhs. rewrite (pl_node _ _ _ _ _ _ _ Hp) in Hhs. assert (Hf := pl_js _ _ _ _ _ _ _ Hp). destruct (hashes_at_inv _ _ _ _ _ (Forall2_length _ _ _ Hf) Hhs) as [Hl Hr]. apply (list_eq_same_length _ _ (length nodes)); [by rewrite length_map|done|].
  intros i a b Hi Ha Hb. destruct (lookup_lt_is_Some_2 nodes i) as [x Hxi]; [lia|]. destruct (Forall2_lookup_l _ _ _ _ _ Hf Hxi) as (j & Hj & Ht). destruct (Hr i x j Hxi Hj) as (t & d & r & Ht' & Hd & He & Hri). rewrite Hri in Ha. injection Ha as <-. rewrite (map_lookup _ _ _ _ Hxi) in Hb. apply Some_inj in Hb as <-.
  assert (Hxin : node_in n x) by (apply Hx; by apply list_elem_of_lookup_2 in Hxi). destruct (pl_in _ _ _ _ _ _ _ Hp t) as [Htin Hth]; [by apply list_elem_of_lookup_2 in Ht'|].
  rewrite (read_genuine t d) in He by (done || by apply (Forall2_lookup_lr _ _ _ j t d Hdata)). destruct (decide (placed t x)); [|done]. rewrite (genuine_node t d) in He; [by injection He|done|done|done|done|]. apply (Hg j); [by apply lookup_lt_Some in Ht'|done|done].
Qed.

Lemma read_sound nodes set hs : (forall x, x ∈ nodes -> 0 <= level x /\ 0 <= index x) -> read_nodes (mk_tree n (mth l)) h nodes set = Ok hs ->
  (hs = map (node_of l) nodes /\ forall x, x ∈ nodes -> node_in n x) \/ collision (read_pairs (mk_tree n (mth l)) h nodes set) (tree_pairs l).
Proof.
  intros Hpos H. unfold read_nodes, read_pairs in *. cbn [size root] in *. destruct (plan n h nodes) as [p|] eqn:Hplan; [|done]. assert (Hx := plan_inv nodes p Hpos Hplan). destruct (plan_is h n Hh size_ok nodes Hx) as (p' & E & ejs & js & Hp' & Hp). rewrite Hplan in Hp'. injection Hp' as <-.
  cbn [mbind result_bind] in H. destruct (get_tiles (tiles p) set) as [data|] eqn:Hget; [|done]. assert (Hdata := get_tiles_ok _ _ _ Hget). cbn [mbind result_bind] in H. destruct (bool_decide_reflect (edge p = [])) as [He|He].
  - left. injection H as <-. split; [|done]. rewrite (no_nodes nodes); [done| |done]. rewrite (pl_edge _ _ _ _ _ _ _ Hp) in He. assert (Hl := Forall2_length _ _ _ (pl_ejs _ _ _ _ _ _ _ Hp)). apply no_edge. destruct (subtrees n); [done|]. by destruct ejs.
  - destruct (hashes_at (tiles p) data (edge p)) as [ehs|] eqn:Hehs; [|done]. cbn [mbind result_bind] in H. destruct (bool_decide_reflect (fold_subtrees ehs = mth l)) as [Hroot|]; [|done]. cbn [negb] in H. destruct (check_children _ _ _ _ _) as [[]|] eqn:Hck; [|done]. cbn [mbind result_bind] in H.
    change (concat _ ++ fold_pairs ehs) with (made_pairs (tiles p) data ehs). destruct (edges_genuine nodes p E ejs js data ehs Hp Hdata Hehs Hroot) as [Hg|]; [|by right]. rewrite (pl_E _ _ _ _ _ _ _ Hp), Nat2Z.id in Hck.
    destruct (children_genuine (tiles p) data ehs E (length (tiles p) - E) Hdata (pl_once _ _ _ _ _ _ _ Hp) (pl_in _ _ _ _ _ _ _ Hp) (pl_hung _ _ _ _ _ _ _ Hp) Hck Hg) as [Hall|]; [left|by right]. replace (E + (length (tiles p) - E))%nat with (length (tiles p)) in Hall by (assert (Hle := pl_le _ _ _ _ _ _ _ Hp); lia).
    split; [|done]. by apply (read_right nodes p E ejs js data).
Qed.

(** ** The tiles of the tree itself *)

Definition tree_data (t : Tile) : list Z := concat (entries l t).

(** The set has the tiles of the tree, as far as they are asked for. *)
Definition honest (ts : list Tile) (set : TileSet) : Prop := forall t, t ∈ ts -> ts_get t set = Some (tree_data t).

Lemma entries_data t : hashes l -> tile_in n t -> data_ok t (tree_data t) /\ genuine t (tree_data t).
Proof.
  intros Hl Ht. assert (He : hashes (entries l t)) by (by apply hashes_take, hashes_drop, hashes_level). assert (Hlen := entries_length l t Ht). assert (Hw := ti_width _ _ Ht). split.
  - unfold data_ok, tree_data, data_len, HASH_SIZE, len. rewrite concat_length, Hlen by done. lia.
  - unfold genuine, tree_data, held. rewrite <- Hlen. by apply chunks_concat.
Qed.

Lemma get_tiles_honest ts set : hashes l -> (forall t, t ∈ ts -> tile_in n t) -> honest ts set -> get_tiles ts set = Ok (map tree_data ts).
Proof.
  intros Hl. induction ts as [|t ts IH]; intros Hin Hh'; [done|]. cbn [get_tiles map]. rewrite (Hh' t) by left. destruct (entries_data t Hl) as [Hd _]; [apply Hin; left|]. unfold data_ok in Hd. rewrite Hd, Z.eqb_refl. cbn [negb].
  rewrite IH; [done|intros u Hu; apply Hin; by right|intros u Hu; apply Hh'; by right].
Qed.

(** A node is read from its tile. *)
Lemma own_read ts x (j : nat) : hashes l -> node_in n x -> ts !! j = Some (own_tile h n x) ->
  exists t d, ts !! j = Some t /\ map tree_data ts !! j = Some d /\ hash_from_tile t d x = Ok (node_of l x).
Proof.
  intros Hl Hx Ht. destruct (own_tile_is h n Hh size_ok x Hx) as (_ & Hin & Hp). exists (own_tile h n x), (tree_data (own_tile h n x)). split; [done|]. split; [exact (map_lookup tree_data ts j _ Ht)|].
  destruct (entries_data _ Hl Hin) as [Hd Hg]. rewrite read_genuine, decide_True by done. f_equal. by apply genuine_node.
Qed.

Lemma child_passes ts (i : nat) t : hashes l -> NoDup ts -> (forall u, u ∈ ts -> tile_in n u /\ height u = h) -> ts !! i = Some t -> hung n ts i t ->
  check_child n h ts (map tree_data ts) (Z.of_nat i) = Ok tt.
Proof.
  intros Hl Honce Hall Ht (Hf & a & j & Ha & Hj & Hji). destruct (Hall t) as [Htin Hth]; [by apply list_elem_of_lookup_2 in Ht|]. destruct (Hall a) as [Hain Hah]; [by apply list_elem_of_lookup_2 in Hj|].
  unfold check_child, at_. rewrite Nat2Z.id, Ht. cbn [mbind result_bind]. rewrite Ha, (proj2 (position_iff ts a (Z.of_nat j) Honce)) by (by exists j). rewrite (proj2 (Z.leb_gt _ _)), Nat2Z.id by lia.
  rewrite (map_lookup tree_data ts j a Hj), (map_lookup tree_data ts i t Ht). cbn [mbind result_bind]. destruct (entries_data _ Hl Hain) as [Hda Hga]. destruct (entries_data _ Hl Htin) as [Hdt Hgt].
  destruct (ancestor_at h n Hh size_ok t 1 a) as (Hat & Hlh & Hi0 & Hic); [apply Htin|done|lia|done|]. assert (Hal : t_level a = t_level t + 1) by by rewrite Hat. rewrite Hal. fold (root_node t). destruct (root_node_in t Htin Hth Hf) as [Hxin Hroot].
  assert (Hpl : placed a (root_node t)).
  { rewrite Z.mul_1_l in Hat. by apply parent_holds. }
  rewrite read_genuine, decide_True by done. cbn [mbind result_bind]. rewrite genuine_node by done. cbn [mbind result_bind]. rewrite (full_hash t) by done. cbn [mbind result_bind]. rewrite Hgt, Hroot. by rewrite bool_decide_eq_true_2.
Qed.

Lemma children_pass ts E m : hashes l -> NoDup ts -> (forall u, u ∈ ts -> tile_in n u /\ height u = h) -> (E + m <= length ts)%nat -> (forall i t, ts !! i = Some t -> (E <= i)%nat -> hung n ts i t) ->
  check_children n h ts (map tree_data ts) (map Z.of_nat (seq E m)) = Ok tt.
Proof.
  intros Hl Honce Hall. revert E. induction m as [|m IH]; intros E Hm Hhung; [done|]. cbn [seq map check_children]. destruct (lookup_lt_is_Some_2 ts E) as [t Ht]; [lia|]. rewrite (child_passes ts E t) by (done || by apply Hhung). cbn [mbind result_bind].
  apply IH; [lia|]. intros i u Hu Hi. apply Hhung; [done|lia].
Qed.

Lemma read_complete nodes set : hashes l -> (forall x, x ∈ nodes -> node_in n x) -> (forall ts, tiles_for n h nodes = Ok ts -> honest ts set) ->
  read_nodes (mk_tree n (mth l)) h nodes set = Ok (map (node_of l) nodes).
Proof.
  intros Hl Hx Hset. destruct (plan_is h n Hh size_ok nodes Hx) as (p & E & ejs & js & Hplan & Hp). unfold tiles_for in Hset. rewrite Hplan in Hset. specialize (Hset _ eq_refl). unfold read_nodes. cbn [size root]. rewrite Hplan. cbn [mbind result_bind].
  rewrite get_tiles_honest by (done || by intros t Ht; apply (pl_in _ _ _ _ _ _ _ Hp)). cbn [mbind result_bind]. destruct (bool_decide_reflect (edge p = [])) as [He|He].
  - rewrite (no_nodes nodes); [done| |done]. rewrite (pl_edge _ _ _ _ _ _ _ Hp) in He. assert (Hle := Forall2_length _ _ _ (pl_ejs _ _ _ _ _ _ _ Hp)). apply no_edge. destruct (subtrees n); [done|]. by destruct ejs.
  - rewrite (pl_edge _ _ _ _ _ _ _ Hp), (hashes_at_is _ _ _ _ (node_of l)).
    2: { eapply Forall2_weaken; [exact (pl_ejs _ _ _ _ _ _ _ Hp)|]. intros x j Hxs [Hj _]. apply own_read; [done|apply subtrees_in; [apply size_ok|done]|done]. }
    cbn [mbind result_bind]. rewrite (proj1 (subtrees_root l Hs)), bool_decide_eq_true_2 by done. cbn [negb]. rewrite (pl_E _ _ _ _ _ _ _ Hp), Nat2Z.id.
    rewrite children_pass; [|done|exact (pl_once _ _ _ _ _ _ _ Hp)|exact (pl_in _ _ _ _ _ _ _ Hp)|assert (Hle := pl_le _ _ _ _ _ _ _ Hp); lia|exact (pl_hung _ _ _ _ _ _ _ Hp)]. cbn [mbind result_bind].
    rewrite (pl_node _ _ _ _ _ _ _ Hp). apply hashes_at_is. eapply Forall2_weaken; [exact (pl_js _ _ _ _ _ _ _ Hp)|]. intros x j Hxs Hj. by apply own_read; [|apply Hx|].
Qed.

End read.

(** ** What is decided *)

(** Reading tells neither that a record differs nor of a fork. *)
Definition no_verdict {A} (r : res A) : Prop := match r with Err RecordMismatch | Err (Fork _ _ _) => False | _ => True end.

Lemma no_verdict_bind {A B} (m : res A) (f : A -> res B) : no_verdict m -> (forall x, no_verdict (f x)) -> no_verdict (m ≫= f).
Proof. destruct m as [x|e]; intros H Hf; [apply Hf|exact H]. Qed.

#[local] Ltac quiet :=
  repeat first [ exact I | assumption | match goal with IH : context [no_verdict] |- no_verdict _ => apply IH end | apply no_verdict_bind; [|intros]
               | match goal with |- no_verdict (match ?x with _ => _ end) => destruct x end ].

Lemma validate_quiet t : no_verdict (validate t).
Proof. unfold validate. quiet. Qed.

Lemma subtree_quiet fuel d : no_verdict (subtree_loop fuel d).
Proof. revert d. induction fuel as [|fuel IH]; intros d; cbn [subtree_loop]; quiet. Qed.

Lemma hash_quiet t d x : no_verdict (hash_from_tile t d x).
Proof. unfold hash_from_tile, subtree_hash. assert (Hv := validate_quiet t). assert (Hs := subtree_quiet). quiet. Qed.

Lemma get_quiet ts set : no_verdict (get_tiles ts set).
Proof. induction ts as [|t ts IH]; cbn [get_tiles]; quiet. Qed.

Lemma hashes_at_quiet ts data xs : no_verdict (hashes_at ts data xs).
Proof. induction xs as [|[x i] xs IH]; cbn [hashes_at]; [quiet|]. unfold node_hash_at, at_. assert (Hh := hash_quiet). quiet. Qed.

Lemma plan_edge_quiet h n xs p : no_verdict (plan_edge h n xs p).
Proof. revert p. induction xs as [|x xs IH]; intros p; cbn [plan_edge]; [quiet|]. destruct (tile_ancestor _ _ _) as [t|]; [|quiet]. destruct (match p_order p !! t with Some _ => _ | None => _ end). quiet. Qed.

Lemma find_quiet fuel t k n p : no_verdict (find_ancestor fuel t k n p).
Proof. revert k. induction fuel as [|fuel IH]; intros k; cbn [find_ancestor]; quiet. Qed.

Lemma down_quiet t n k p : no_verdict (plan_down t n k p).
Proof. revert p. induction k as [|k IH]; intros p; cbn [plan_down]; quiet. Qed.

Lemma plan_nodes_quiet h n xs p : no_verdict (plan_nodes h n xs p).
Proof. revert p. induction xs as [|x xs IH]; intros p; cbn [plan_nodes]; [quiet|]. assert (Hf := find_quiet). assert (Hd := down_quiet). quiet. Qed.

Lemma check_child_quiet n h ts data i : no_verdict (check_child n h ts data i).
Proof. unfold check_child, at_, subtree_hash. assert (Hh := hash_quiet). assert (Hs := subtree_quiet). quiet. Qed.

Lemma check_children_quiet n h ts data is_ : no_verdict (check_children n h ts data is_).
Proof. induction is_ as [|i is_ IH]; cbn [check_children]; [quiet|]. assert (Hc := check_child_quiet). quiet. Qed.

Lemma plan_quiet n h nodes : no_verdict (plan n h nodes).
Proof.
  unfold plan. destruct (_ || _); [done|]. destruct (_ <? _); [done|]. destruct (existsb _ _); [done|]. apply no_verdict_bind; [apply plan_edge_quiet|]. intros [e p]. apply no_verdict_bind; [apply plan_nodes_quiet|]. by intros [at_ q].
Qed.

Lemma read_quiet tree h nodes set : no_verdict (read_nodes tree h nodes set).
Proof.
  unfold read_nodes. apply no_verdict_bind; [apply plan_quiet|]. intros p. apply no_verdict_bind; [apply get_quiet|]. intros data. destruct (bool_decide _); [done|]. apply no_verdict_bind; [apply hashes_at_quiet|]. intros hs.
  destruct (negb _); [done|]. apply no_verdict_bind; [apply check_children_quiet|]. intros _. apply hashes_at_quiet.
Qed.

(** A node as the code has it: of unsigned numbers. *)
Definition unsigned_node (x : Node) : Prop := 0 <= level x /\ 0 <= index x.

Lemma read_height tree h nodes set hs : read_nodes tree h nodes set = Ok hs -> height_ok h.
Proof.
  unfold read_nodes, plan. destruct (Z.ltb_spec h 1) as [|H1]; [done|]. destruct (Z.ltb_spec MAX_TILE_HEIGHT h) as [|H2]; [done|]. by split.
Qed.

Lemma record_node (l : list Hash) i : 0 <= i < len l -> exists leaf, l !! Z.to_nat i = Some leaf /\ node_of l (mk_node 0 i) = leaf.
Proof.
  intros Hi. unfold len in Hi. destruct (lookup_lt_is_Some_2 l (Z.to_nat i)) as [leaf Hl]; [lia|]. exists leaf. split; [done|]. unfold node_of. cbn [level index]. change (Z.to_nat 0) with 0%nat. by rewrite (block_zero _ _ leaf).
Qed.

Lemma record_node_in (l : list Hash) i : 0 <= i < len l -> node_in (len l) (mk_node 0 i).
Proof. intros Hi. split; cbn [level index]; [lia|]. change (2 ^ 0) with 1. lia. Qed.

(** The root of the first leaves, from nodes of the whole tree. *)
Lemma prefix_root l m : small_tree l -> 0 <= m <= len l -> fold_subtrees (map (node_of l) (subtrees m)) = mth (take (Z.to_nat m) l).
Proof.
  intros Hs Hm. assert (Hl : len (take (Z.to_nat m) l) = m) by (unfold len in *; rewrite length_take; lia). assert (Hs' : small_tree (take (Z.to_nat m) l)) by (unfold small_tree in *; rewrite Hl; lia).
  destruct (subtrees_root _ Hs') as [<- _]. rewrite Hl. f_equal. apply map_ext_in. intros x Hx%list_elem_of_In. symmetry. apply node_of_take. rewrite Z2Nat.id by lia. apply subtrees_in; [|done]. unfold small_tree in Hs. lia.
Qed.

Lemma tiles_sound l h nodes set hs (Hs : small_tree l) (Hn : forall x, x ∈ nodes -> unsigned_node x) :
  read_nodes (mk_tree (len l) (mth l)) h nodes set = Ok hs ->
  (hs = map (node_of l) nodes /\ forall x, x ∈ nodes -> node_in (len l) x) \/ collision (read_pairs (mk_tree (len l) (mth l)) h nodes set) (tree_pairs l).
Proof. intros H. by apply (read_sound l Hs h (read_height _ _ _ _ _ H)). Qed.

Lemma tiles_enough l h nodes set (Hs : small_tree l) (Hl : hashes l) (Hh : height_ok h) (Hn : forall x, x ∈ nodes -> node_in (len l) x) :
  exists ts, tiles_for (len l) h nodes = Ok ts /\ (forall t, t ∈ ts -> tile_in (len l) t /\ height t = h) /\
    (honest l ts set -> read_nodes (mk_tree (len l) (mth l)) h nodes set = Ok (map (node_of l) nodes)).
Proof.
  destruct (plan_is h (len l) Hh (size_ok l Hs) nodes Hn) as (p & E & ejs & js & Hplan & Hp). assert (Ht : tiles_for (len l) h nodes = Ok (tiles p)) by (unfold tiles_for; by rewrite Hplan).
  exists (tiles p). split; [done|]. split; [exact (pl_in _ _ _ _ _ _ _ Hp)|]. intros Hset. apply read_complete; try done. intros ts Hts. rewrite Ht in Hts. by injection Hts as <-.
Qed.

(** C18: what is read from tiles is the tree's, and the tiles of the log are
    enough.  Whatever data is supplied for tiles of a tree head that is the
    head of a log of at most 2^62 leaves, if reading nodes from it succeeds then
    the hashes that are returned are those of the nodes in the log's tree (and
    the nodes are in it), or two different pairs of hashes have one hash, the
    one pair made by the data that was supplied, the other by the log's tree.
    For nodes of the tree and a height of 1 to 30 the tiles to fetch can be
    planned, and when the set has the tree's data for them (as wide as asked
    for, or as full tiles), reading succeeds. *)
Theorem tiles_read l h nodes set (Hs : small_tree l) :
  let tree := mk_tree (len l) (mth l) in
  (forall hs, (forall x, x ∈ nodes -> unsigned_node x) -> read_nodes tree h nodes set = Ok hs ->
    (hs = map (node_of l) nodes /\ forall x, x ∈ nodes -> node_in (len l) x) \/ collision (read_pairs tree h nodes set) (tree_pairs l)) /\
  (hashes l -> height_ok h -> (forall x, x ∈ nodes -> node_in (len l) x) ->
    exists ts, tiles_for (len l) h nodes = Ok ts /\ (forall t, t ∈ ts -> tile_in (len l) t /\ height t = h) /\
      (honest l ts set -> read_nodes tree h nodes set = Ok (map (node_of l) nodes))).
Proof. split; [intros hs Hn H; by apply (tiles_sound l h nodes set hs Hs Hn)|intros Hl Hh Hn; by apply tiles_enough]. Qed.

(** What [check_record] reads. *)
Lemma check_record_is l h i leaf set : 0 <= i < len l -> let tree := mk_tree (len l) (mth l) in
  check_record tree h i leaf set = (got ← read_nodes tree h [mk_node 0 i] set; if bool_decide (head got = Some leaf) then Ok tt else Err RecordMismatch).
Proof. intros Hi tree. unfold check_record. cbn [size tree]. by rewrite (proj2 (Z.leb_gt _ _)) by lia. Qed.

(** C19: [check_record] decides whether a record is in the log at an index.
    For an index inside the log: if it accepts a leaf hash, that is the hash
    the log has there, and if it says that the record does not match, the log
    has another, unless a collision was found; and with the tiles of the log
    it does accept the right hash and refuse every other. *)
Theorem records_checked l h i leaf set (Hs : small_tree l) (Hi : 0 <= i < len l) :
  let tree := mk_tree (len l) (mth l) in let found := collision (read_pairs tree h [mk_node 0 i] set) (tree_pairs l) in
  (check_record tree h i leaf set = Ok tt -> l !! Z.to_nat i = Some leaf \/ found) /\
  (check_record tree h i leaf set = Err RecordMismatch -> l !! Z.to_nat i <> Some leaf \/ found) /\
  (height_ok h -> hashes l -> exists ts, tiles_for_record (len l) h i = Ok ts /\
    (honest l ts set -> check_record tree h i leaf set = if decide (l !! Z.to_nat i = Some leaf) then Ok tt else Err RecordMismatch)).
Proof.
  intros tree found. unfold tree. rewrite check_record_is by done. destruct (record_node l i Hi) as (x & Hx & Hnode). assert (Hu : forall y, y ∈ [mk_node 0 i] -> unsigned_node y) by (intros y ->%list_elem_of_singleton; split; cbn; lia).
  assert (Hone : forall got, got = map (node_of l) [mk_node 0 i] -> bool_decide (head got = Some leaf) = bool_decide (l !! Z.to_nat i = Some leaf)) by (intros got ->; cbn [map head]; by rewrite Hnode, Hx).
  split; [|split].
  - destruct (read_nodes _ _ _ _) as [got|] eqn:Hr; [|done]. cbn [mbind result_bind]. intros H. destruct (tiles_sound l h _ set got Hs Hu Hr) as [[Hg _]|]; [left|by right]. rewrite (Hone got Hg) in H. by destruct (bool_decide_reflect (l !! Z.to_nat i = Some leaf)).
  - destruct (read_nodes _ _ _ _) as [got|] eqn:Hr; [|assert (Hq := read_quiet (mk_tree (len l) (mth l)) h [mk_node 0 i] set); rewrite Hr in Hq; intros [= ->]; by destruct Hq]. cbn [mbind result_bind]. intros H. destruct (tiles_sound l h _ set got Hs Hu Hr) as [[Hg _]|]; [left|by right]. rewrite (Hone got Hg) in H. by destruct (bool_decide_reflect (l !! Z.to_nat i = Some leaf)).
  - intros Hh Hl. destruct (tiles_enough l h [mk_node 0 i] set Hs Hl Hh) as (ts & Hts & _ & Hread); [intros y ->%list_elem_of_singleton; by apply record_node_in|]. exists ts. unfold tiles_for_record. rewrite (proj2 (Z.leb_gt _ _)) by lia. split; [done|]. intros Hset.
    rewrite (Hread Hset). cbn [mbind result_bind]. rewrite (Hone _ eq_refl). by destruct (decide (l !! Z.to_nat i = Some leaf)), (bool_decide_reflect (l !! Z.to_nat i = Some leaf)).
Qed.

(** What [check_prefix] computes for the root of the older tree. *)
Definition prefix_computed (l : list Hash) (h m : Z) (set : TileSet) : res Hash :=
  if m =? 0 then Ok EMPTY_ROOT
  else if m =? len l then Ok (mth l)
  else hashes ← read_nodes (mk_tree (len l) (mth l)) h (subtrees m) set; Ok (fold_subtrees hashes).

Lemma check_prefix_is l h m r set : small_tree l -> 0 <= m <= len l ->
  check_prefix (mk_tree m r) (mk_tree (len l) (mth l)) h set = (computed ← prefix_computed l h m set; if bool_decide (computed = r) then Ok tt else Err (Fork m r computed)).
Proof.
  intros Hs Hm. unfold small_tree in Hs. unfold check_prefix, prefix_computed. cbn [size root]. rewrite !(proj2 (Z.ltb_ge _ _)) by lia. destruct (m =? 0), (m =? len l); cbn [mbind result_bind]; try (by destruct (bool_decide _)).
  all: destruct (read_nodes _ _ _ _); cbn [mbind result_bind]; by try destruct (bool_decide _).
Qed.

Lemma prefix_trivial l m : m = 0 \/ m = len l -> (if m =? 0 then EMPTY_ROOT else mth l) = mth (take (Z.to_nat m) l).
Proof. intros [->| ->]; [done|]. destruct (Z.eqb_spec (len l) 0) as [Hz|Hz]; [apply len_nil in Hz; by rewrite Hz|]. unfold len. by rewrite Nat2Z.id, take_ge. Qed.

Lemma subtrees_unsigned m : 0 <= m <= MAX_TREE_SIZE -> forall x, x ∈ subtrees m -> unsigned_node x.
Proof. intros Hm x Hx. destruct (subtrees_in m x Hm Hx) as (H1 & H2 & _). split; lia. Qed.

Lemma prefix_sound l h m set c : small_tree l -> 0 <= m <= len l -> prefix_computed l h m set = Ok c ->
  c = mth (take (Z.to_nat m) l) \/ collision (read_pairs (mk_tree (len l) (mth l)) h (subtrees m) set) (tree_pairs l).
Proof.
  intros Hs Hm. assert (Ht := prefix_trivial l m). unfold prefix_computed. destruct (Z.eqb_spec m 0) as [|Hz]; [intros [= <-]; left; by apply Ht; left|]. destruct (Z.eqb_spec m (len l)) as [|Hl]; [intros [= <-]; left; by apply Ht; right|].
  destruct (read_nodes _ _ _ _) as [hs|] eqn:Hr; [|done]. cbn [mbind result_bind]. intros [= <-]. apply tiles_sound in Hr as [[-> _]|Hc]; [left; by apply prefix_root|by right|done|].
  apply subtrees_unsigned. unfold small_tree in Hs. lia.
Qed.

Lemma prefix_complete l h m : small_tree l -> hashes l -> height_ok h -> 0 <= m <= len l ->
  exists ts, tiles_for_prefix (len l) h m = Ok ts /\ forall set, honest l ts set -> prefix_computed l h m set = Ok (mth (take (Z.to_nat m) l)).
Proof.
  intros Hs Hl Hh Hm. assert (Ht := prefix_trivial l m). unfold tiles_for_prefix, prefix_computed. assert (Hs' := Hs). unfold small_tree in Hs'. rewrite !(proj2 (Z.ltb_ge _ _)) by lia.
  destruct (Z.eqb_spec m 0) as [|Hz]; [exists []; split; [done|]; intros set _; rewrite <- Ht; [done|by left]|]. destruct (Z.eqb_spec m (len l)) as [|Hm']; [exists []; split; [done|]; intros set _; rewrite <- Ht; [done|by right]|]. cbn [orb].
  assert (Hin : forall x, x ∈ subtrees m -> node_in (len l) x) by (intros x Hx; apply (node_in_mono m); [lia|]; apply subtrees_in; [lia|done]).
  destruct (tiles_enough l h (subtrees m) ∅ Hs Hl Hh Hin) as (ts & Hts & _). exists ts. split; [done|]. intros set Hset. destruct (tiles_enough l h (subtrees m) set Hs Hl Hh Hin) as (ts' & Hts' & _ & Hread).
  rewrite Hts in Hts'. injection Hts' as <-. rewrite (Hread Hset). cbn [mbind result_bind]. by rewrite prefix_root.
Qed.

(** C20: [check_prefix] decides whether an older tree is a prefix of the log.
    For an older size of at most the log's: if it accepts an older root, that
    is the root of the log's first leaves, and if it reports a fork, the older
    root is another and the report has both, unless a collision was found; and
    with the tiles of the log it does accept the right root and reports every
    other as a fork. *)
Theorem prefixes_checked l h m r set (Hs : small_tree l) (Hm : 0 <= m <= len l) :
  let newer := mk_tree (len l) (mth l) in let truth := mth (take (Z.to_nat m) l) in let found := collision (read_pairs newer h (subtrees m) set) (tree_pairs l) in
  (check_prefix (mk_tree m r) newer h set = Ok tt -> r = truth \/ found) /\
  (forall s e c, check_prefix (mk_tree m r) newer h set = Err (Fork s e c) -> s = m /\ e = r /\ c = truth /\ r <> truth \/ found) /\
  (height_ok h -> hashes l -> exists ts, tiles_for_prefix (len l) h m = Ok ts /\
    (honest l ts set -> check_prefix (mk_tree m r) newer h set = if decide (r = truth) then Ok tt else Err (Fork m r truth))).
Proof.
  intros newer truth found. unfold newer. rewrite check_prefix_is by done. split; [|split].
  - destruct (prefix_computed l h m set) as [c|] eqn:Hc; [|done]. cbn [mbind result_bind]. destruct (bool_decide_reflect (c = r)) as [<-|]; [|done]. intros _. by apply (prefix_sound l h m set c).
  - intros s e c. destruct (prefix_computed l h m set) as [c'|] eqn:Hc; cbn [mbind result_bind].
    + destruct (bool_decide_reflect (c' = r)) as [|Hne]; [done|]. intros [= <- <- <-]. destruct (prefix_sound l h m set c' Hs Hm Hc) as [->|]; [left|by right]. repeat split. intros ->. by apply Hne.
    + intros [= ->]. exfalso. assert (Hq : no_verdict (prefix_computed l h m set)); [|by rewrite Hc in Hq]. unfold prefix_computed. destruct (m =? 0); [done|]. destruct (m =? len l); [done|]. apply no_verdict_bind; [apply read_quiet|done].
  - intros Hh Hl. destruct (prefix_complete l h m Hs Hl Hh Hm) as (ts & Hts & Hall). exists ts. split; [done|]. intros Hset. rewrite (Hall set Hset). cbn [mbind result_bind]. fold truth.
    destruct (decide (r = truth)) as [->|Hne]; [by rewrite bool_decide_eq_true_2|]. by rewrite bool_decide_eq_false_2 by congruence.
Qed.

(** ** A small log *)

(** Three leaves, and the tiles of height 1 that are asked for. *)
Definition three_leaves : list Hash := map (replicate 32) [1; 2; 3].

Definition log_set (ts : list Tile) : TileSet := list_to_map (map (fun t => (t, tree_data three_leaves t)) ts).

Definition asked (r : res (list Tile)) : list Tile := match r with Ok ts => ts | Err _ => [] end.

#[local] Abbreviation three_tree := (mk_tree (len three_leaves) (mth three_leaves)).

Lemma three_ok : small_tree three_leaves /\ hashes three_leaves /\ height_ok 1.
Proof. split; [by vm_compute|]. split; [repeat constructor|by vm_compute]. Qed.

Definition honestb (ts : list Tile) (set : TileSet) : bool := forallb (fun t => bool_decide (ts_get t set = Some (tree_data three_leaves t))) ts.

Lemma honestb_honest ts set : honestb ts set = true -> honest three_leaves ts set.
Proof. intros H t Ht. unfold honestb in H. rewrite forallb_forall in H. apply list_elem_of_In, H, bool_decide_eq_true in Ht. exact Ht. Qed.

#[local] Abbreviation three_node := (mk_node 0 1).
#[local] Abbreviation node_set := (log_set (asked (tiles_for 3 1 [three_node]))).

(** The tiles that were asked for are in the set. *)
Lemma asked_honest (r r' : res (list Tile)) ts : r = Ok ts -> r = r' -> honestb (asked r') (log_set (asked r')) = true -> honest three_leaves ts (log_set (asked r')).
Proof. intros -> <-. apply honestb_honest. Qed.

Lemma tiles_read_witness : read_nodes three_tree 1 [three_node] node_set = Ok [node_of three_leaves three_node].
Proof.
  destruct three_ok as (Hs & Hl & Hh). destruct (tiles_read three_leaves 1 [three_node] node_set Hs) as [_ H]. destruct (H Hl Hh) as (ts & Hts & _ & Hread); [intros x ->%list_elem_of_singleton; by vm_compute|].
  apply Hread. apply (asked_honest _ _ ts Hts); [done|]. by vm_compute.
Defined.

#[local] Abbreviation record_set := (log_set (asked (tiles_for_record 3 1 1))).

Lemma records_checked_witness : check_record three_tree 1 1 (replicate 32 2) record_set = Ok tt.
Proof.
  destruct three_ok as (Hs & Hl & Hh). destruct (records_checked three_leaves 1 1 (replicate 32 2) record_set Hs) as (_ & _ & H); [by vm_compute|]. destruct (H Hh Hl) as (ts & Hts & Hc).
  assert (Hhon : honest three_leaves ts record_set) by (apply (asked_honest _ _ ts Hts); [done|]; by vm_compute). exact (Hc Hhon).
Defined.

#[local] Abbreviation prefix_set := (log_set (asked (tiles_for_prefix 3 1 2))).

Lemma prefixes_checked_witness : check_prefix (mk_tree 2 (mth (take (Z.to_nat 2) three_leaves))) three_tree 1 prefix_set = Ok tt.
Proof.
  destruct three_ok as (Hs & Hl & Hh). destruct (prefixes_checked three_leaves 1 2 (mth (take (Z.to_nat 2) three_leaves)) prefix_set Hs) as (_ & _ & H); [by vm_compute|]. destruct (H Hh Hl) as (ts & Hts & Hc).
  assert (Hhon : honest three_leaves ts prefix_set) by (apply (asked_honest _ _ ts Hts); [done|]; by vm_compute). rewrite (Hc Hhon). apply decide_True. reflexivity.
Defined.

(** Data that is not the log's is found out: on the right edge by the root,
    elsewhere by the parent; a tile that is missing is named; and a full tile
    serves where a part of it is asked for. *)
Example tampered :
  let bad t := <[t := replicate (Z.to_nat (data_len t)) 0]> record_set in
  let edge := mk_tile 1 0 1 1 in let leaf := mk_tile 1 0 0 2 in
  check_record three_tree 1 1 (replicate 32 2) (bad edge) = Err TilesDoNotMatchRoot /\
  check_record three_tree 1 1 (replicate 32 2) (bad leaf) = Err (TileDoesNotMatchParent leaf) /\
  check_record three_tree 1 1 (replicate 32 2) (delete leaf record_set) = Err (MissingTile leaf) /\
  check_record three_tree 1 1 (replicate 32 2) (<[full edge := replicate 32 3 ++ replicate 32 0]> (delete edge record_set)) = Ok tt /\
  check_record three_tree 1 1 (replicate 32 3) record_set = Err RecordMismatch.
Proof. vm_compute. repeat split. Qed.
