(* ===== verification/Huffman.v ===== *)
(** The Huffman code of HPACK: [pratique/src/http/h2/huffman.rs].

    The code is given by its lengths; the codes and the tables that decode them
    are computed from those, as in the source.  A byte or a bit count is a [Z],
    an array a list that is read out of range with a panic.

    The property: decoding accepts just what encoding gives, and never panics
    (no run of bits gets longer than the longest code). *)

From Stdlib Require Import ZArith Lia.
From stdpp Require Import base option numbers list_numbers list.
From S2P Require Import Prelude Slice Wire.

#[local] Open Scope Z_scope.

Definition LENGTHS : list Z :=
  [13; 23; 28; 28; 28; 28; 28; 28; 28; 24; 30; 28; 28; 30; 28; 28; 28; 28; 28; 28; 28; 28; 30; 28;
   28; 28; 28; 28; 28; 28; 28; 28; 6; 10; 10; 12; 13; 6; 8; 11; 10; 10; 8; 11; 8; 6; 6; 6;
   5; 5; 5; 6; 6; 6; 6; 6; 6; 6; 7; 8; 15; 6; 12; 10; 13; 6; 7; 7; 7; 7; 7; 7;
   7; 7; 7; 7; 7; 7; 7; 7; 7; 7; 7; 7; 7; 7; 7; 7; 8; 7; 8; 13; 19; 13; 14; 6;
   15; 5; 6; 5; 6; 5; 6; 6; 6; 5; 7; 7; 6; 6; 6; 5; 6; 7; 6; 5; 5; 6; 7; 7;
   7; 7; 7; 15; 11; 14; 13; 28; 20; 22; 20; 20; 22; 22; 22; 23; 22; 23; 23; 23; 23; 23; 24; 23;
   24; 24; 22; 23; 24; 23; 23; 23; 23; 21; 22; 23; 22; 23; 23; 24; 22; 21; 20; 22; 22; 23; 23; 21;
   23; 22; 22; 24; 21; 22; 23; 23; 21; 21; 22; 21; 23; 22; 23; 23; 20; 22; 22; 22; 23; 22; 22; 23;
   26; 26; 20; 19; 22; 23; 22; 25; 26; 26; 26; 27; 27; 26; 24; 25; 19; 21; 26; 27; 27; 26; 27; 24;
   21; 21; 26; 26; 28; 27; 27; 27; 20; 24; 20; 21; 22; 21; 21; 23; 22; 22; 25; 25; 24; 24; 26; 23;
   26; 27; 26; 26; 27; 27; 27; 27; 27; 28; 27; 27; 27; 27; 27; 26; 30].

Definition MAX_LEN : nat := 30.

Record Tables := mk_tables { codes : list Z; first_code : list Z; count : list Z; first_index : list Z; sorted : list Z }.

(** [v[i]] of an array of the build, which is evaluated when the crate is
    compiled. *)
Definition nth_of (i : Z) (v : list Z) : Z := nth (Z.to_nat i) v 0.

(** [v[i] += x] and [v[i] = x]. *)
Definition set_at (i x : Z) (v : list Z) : list Z := <[Z.to_nat i := x]> v.
Definition add_at (i x : Z) (v : list Z) : list Z := set_at i (nth_of i v + x) v.

Definition count_lengths : list Z := fold_left (fun count l => add_at l 1 count) LENGTHS (replicate (MAX_LEN + 1) 0).

(** The loop over the lengths: where the codes of each begin. *)
Definition first_step (count : list Z) (st : list Z * list Z * Z * Z) (len : nat) : list Z * list Z * Z * Z :=
  let '(first_code, first_index, code, index) := st in
  let code := Z.shiftl code 1 in
  let c := nth_of (Z.of_nat len) count in
  (set_at (Z.of_nat len) code first_code, set_at (Z.of_nat len) index first_index, code + c, index + c).

(** The loop over the symbols: the code of each. *)
Definition code_step (first_code first_index : list Z) (st : list Z * list Z * list Z) (s : nat) : list Z * list Z * list Z :=
  let '(codes, sorted, used) := st in
  let len := nth_of (Z.of_nat s) LENGTHS in
  let u := nth_of len used in
  (set_at (Z.of_nat s) (nth_of len first_code + u) codes, set_at (nth_of len first_index + u) (Z.of_nat s) sorted, add_at len 1 used).

Definition build : Tables :=
  let count := count_lengths in
  let zeros := replicate (MAX_LEN + 1) 0 in
  let '(first_code, first_index, _, _) := fold_left (first_step count) (seq 1 MAX_LEN) (zeros, zeros, 0, 0) in
  let '(codes, sorted, _) := fold_left (code_step first_code first_index) (seq 0 257) (replicate 257 0, replicate 257 0, zeros) in
  mk_tables codes first_code count first_index sorted.

Definition TABLES : Tables := Eval vm_compute in build.

Inductive Error : Type := Eos | Padding | TooLong | Fault (f : fault).

Abbreviation res := (result Error).

(** ** Encoding *)

Definition length_of (b : Z) : Z := nth_of b LENGTHS.
Definition code_of (b : Z) : Z := nth_of b (codes TABLES).

Definition encoded_len (src : list Z) : Z := (total length_of src + 7) / 8.

(** [while bits >= 8]: whole bytes go out. *)
Fixpoint flush (fuel : nat) (acc bits : Z) (out : list Z) : Z * list Z :=
  match fuel with
  | O => (bits, out)
  | S fuel => if 8 <=? bits then flush fuel acc (bits - 8) (out ++ [Z.shiftr acc (bits - 8) mod 256]) else (bits, out)
  end.

Definition encode_step (st : Z * Z * list Z) (b : Z) : Z * Z * list Z :=
  let '(acc, bits, out) := st in
  let acc := Z.lor (u64 (Z.shiftl acc (length_of b))) (code_of b) in
  let '(bits, out) := flush 5 acc (bits + length_of b) out in
  (Z.land acc (Z.shiftl 1 bits - 1), bits, out).

Definition encode (src out : list Z) : list Z :=
  let '(acc, bits, out) := fold_left encode_step src (0, 0, out) in
  if 0 <? bits then out ++ [Z.lor (Z.shiftl acc (8 - bits) mod 256) (Z.shiftr 255 bits)] else out.

(** ** Decoding *)

(** The decoder's state: the bits since the last symbol, how many, and what
    was decoded. *)
Record State := mk_state { code : Z; st_len : nat; decoded : list Z }.

(** [v[i]] in decoding. *)
Definition get (i : Z) (v : list Z) : res Z := match v !! Z.to_nat i with Some x => Ok x | None => Err (Fault Panic) end.

(** The symbol whose code is the [len] bits [c], if they are one. *)
Definition find_symbol (len : nat) (c : Z) : res (option Z) :=
  n ← get (Z.of_nat len) (count TABLES);
  if 0 <? n then
    f ← get (Z.of_nat len) (first_code TABLES);
    if (f <=? c) && (c - f <? n) then
      i ← get (Z.of_nat len) (first_index TABLES);
      symbol ← get (i + (c - f)) (sorted TABLES);
      Ok (Some symbol)
    else Ok None
  else Ok None.

Definition decode_bit (limit : Z) (bit : Z) (st : State) : res State :=
  let c := Z.lor (Z.shiftl (code st) 1 mod (U32_MAX + 1)) bit in
  let len := S (st_len st) in
  found ← find_symbol len c;
  match found with
  | Some symbol =>
      if symbol =? 256 then Err Eos
      else if limit <=? Slice.len (decoded st) then Err TooLong
      else Ok (mk_state 0 0 (decoded st ++ [symbol mod 256]))
  | None => Ok (mk_state c len (decoded st))
  end.

Fixpoint decode_bits (limit byte : Z) (shifts : list Z) (st : State) : res State :=
  match shifts with
  | [] => Ok st
  | shift :: shifts => st ← decode_bit limit (Z.land (Z.shiftr byte shift) 1) st; decode_bits limit byte shifts st
  end.

Fixpoint decode_bytes (limit : Z) (src : list Z) (st : State) : res State :=
  match src with
  | [] => Ok st
  | byte :: src => st ← decode_bits limit byte [7; 6; 5; 4; 3; 2; 1; 0] st; decode_bytes limit src st
  end.

Definition decode (src out : list Z) (limit : Z) : res (list Z) :=
  st ← decode_bytes limit src (mk_state 0 0 []);
  if (7 <? Z.of_nat (st_len st)) || negb (code st =? Z.shiftl 1 (Z.of_nat (st_len st)) - 1) then Err Padding
  else Ok (out ++ decoded st).

(** ** The code as a tree *)

Inductive tree : Type := Leaf (s : Z) | Fork (l r : tree).

(** The tree of all codes that begin with the [len] bits [c]. *)
Fixpoint grow (fuel len : nat) (c : Z) : tree :=
  match fuel with
  | O => Leaf 0
  | S fuel =>
      match (if (len =? 0)%nat then Ok None else find_symbol len c) with
      | Ok (Some s) => Leaf s
      | _ => Fork (grow fuel (S len) (2 * c)) (grow fuel (S len) (2 * c + 1))
      end
  end.

Definition root : tree := Eval vm_compute in grow 31 0 0.

(** It is the code: [find_symbol] finds nothing at a fork, and at a leaf the
    symbol whose code leads to it; and no code is longer than [MAX_LEN]. *)
Fixpoint is_code (t : tree) (len : nat) (c : Z) : bool :=
  match t with
  | Leaf s =>
      match find_symbol len c with Ok (Some s') => s =? s' | _ => false end && (code_of s =? c) && (length_of s =? Z.of_nat len) && (0 <=? s) && (s <=? 256) && (0 <? len)%nat
  | Fork l r =>
      ((len =? 0)%nat || match find_symbol len c with Ok None => true | _ => false end) && (len <? MAX_LEN)%nat && is_code l (S len) (2 * c) && is_code r (S len) (2 * c + 1)
  end.

Lemma root_is_code : is_code root 0 0 = true.
Proof. by vm_compute. Qed.

Lemma TABLES_built : TABLES = build.
Proof. by vm_compute. Qed.

(** The [n] low bits of [x], the highest first. *)
Fixpoint bits (n : nat) (x : Z) : list bool :=
  match n with O => [] | S n => Z.testbit x (Z.of_nat n) :: bits n x end.

Definition code_bits (s : Z) : list bool := bits (Z.to_nat (length_of s)) (code_of s).

(** Where bits lead from a node; nowhere past a leaf. *)
Fixpoint follow (t : tree) (bs : list bool) {struct bs} : option tree :=
  match bs, t with
  | [], _ => Some t
  | b :: bs, Fork l r => follow (if b : bool then r else l) bs
  | _ :: _, Leaf _ => None
  end.

Lemma codes_lead : forallb (fun s => match follow root (code_bits (Z.of_nat s)) with Some (Leaf s') => s' =? Z.of_nat s | _ => false end) (seq 0 257) = true.
Proof. by vm_compute. Qed.

Lemma code_leads s : 0 <= s <= 256 -> follow root (code_bits s) = Some (Leaf s).
Proof.
  intros Hs. assert (H := proj1 (forallb_forall _ _) codes_lead (Z.to_nat s)). cbn beta in H. rewrite Z2Nat.id in H by lia. specialize (H ltac:(apply in_seq; lia)).
  destruct (follow root (code_bits s)) as [[s'|]|]; try done. by apply Z.eqb_eq in H as ->.
Qed.

(** ** Bits *)

(** The number whose bits are given. *)
Definition val (p : list bool) : Z := fold_left (fun v b => 2 * v + b2z b) p 0.

Lemma val_from p v : fold_left (fun v b => 2 * v + b2z b) p v = v * 2 ^ Z.of_nat (length p) + val p.
Proof.
  unfold val. revert v. induction p as [|b p IH]; intros v; cbn [fold_left length]; [change (2 ^ Z.of_nat 0) with 1; lia|]. rewrite IH, (IH (2 * 0 + b2z b)), Nat2Z.inj_succ, Z.pow_succ_r by lia. lia.
Qed.

Lemma val_app p q : val (p ++ q) = val p * 2 ^ Z.of_nat (length q) + val q.
Proof. unfold val at 1. rewrite fold_left_app. apply val_from. Qed.

Lemma val_snoc p b : val (p ++ [b]) = 2 * val p + b2z b.
Proof. rewrite val_app. change (2 ^ Z.of_nat (length [b])) with 2. destruct b; unfold val at 2; cbn; lia. Qed.

Lemma val_range p : 0 <= val p < 2 ^ Z.of_nat (length p).
Proof.
  induction p as [|b p IH] using rev_ind; [by vm_compute|]. rewrite val_snoc, length_app. cbn [length]. rewrite Nat.add_1_r, Nat2Z.inj_succ, Z.pow_succ_r by lia. assert (H := b2z_range b). lia.
Qed.

Lemma bits_length n x : length (bits n x) = n.
Proof. induction n as [|n IH]; [done|]. cbn [bits length]. by rewrite IH. Qed.

Lemma bits_low n x y : bits n (x * 2 ^ Z.of_nat n + y) = bits n y.
Proof.
  assert (H : forall m, (m <= n)%nat -> bits m (x * 2 ^ Z.of_nat n + y) = bits m y); [|by apply H]. induction m as [|m IH]; intros Hm; [done|]. cbn [bits]. rewrite IH by lia. f_equal.
  rewrite <- (Z.mod_pow2_bits_low _ (Z.of_nat n)) by lia. rewrite Z.add_comm, Z.mod_add by (apply Z.pow_nonzero; lia). rewrite Z.mod_pow2_bits_low by lia. done.
Qed.

Lemma bits_val p : bits (length p) (val p) = p.
Proof.
  induction p as [|b p IH]; [done|]. cbn [length bits]. rewrite (val_app [b] p : val (b :: p) = _). f_equal; [|rewrite bits_low; exact IH].
  assert (Hr := val_range p). rewrite Z.testbit_eqb, Z.div_add_l, Z.div_small by lia. by destruct b.
Qed.

Lemma val_bits n x : 0 <= x < 2 ^ Z.of_nat n -> val (bits n x) = x.
Proof.
  revert x. induction n as [|n IH]; intros x Hx; [cbn in Hx; cbn; lia|]. cbn [bits]. change (Z.testbit x (Z.of_nat n) :: bits n x) with ([Z.testbit x (Z.of_nat n)] ++ bits n x). rewrite val_app, bits_length. rewrite Nat2Z.inj_succ, Z.pow_succ_r in Hx by lia.
  assert (Hp := Z.pow_pos_nonneg 2 (Z.of_nat n) ltac:(lia) ltac:(lia)). assert (Hd := Z.div_mod x (2 ^ Z.of_nat n) ltac:(lia)). assert (Hm := Z.mod_pos_bound x (2 ^ Z.of_nat n) Hp).
  assert (Hq : 0 <= x / 2 ^ Z.of_nat n < 2) by (split; [apply Z.div_pos; lia|apply Z.div_lt_upper_bound; lia]).
  assert (Hb : val [Z.testbit x (Z.of_nat n)] = x / 2 ^ Z.of_nat n) by (rewrite Z.testbit_eqb by lia; rewrite (Z.mod_small (x / _)) by lia; destruct (Z.eqb_spec (x / 2 ^ Z.of_nat n) 1); cbn; lia).
  rewrite Hb. assert (Hl : bits n x = bits n (x mod 2 ^ Z.of_nat n)) by (rewrite Hd at 1; rewrite Z.mul_comm; apply bits_low). rewrite Hl, IH by done. lia.
Qed.

Definition byte_bits (src : list Z) : list bool := concat (map (bits 8) src).

Lemma byte_bits_app a b : byte_bits (a ++ b) = byte_bits a ++ byte_bits b.
Proof. unfold byte_bits. by rewrite map_app, concat_app. Qed.

Lemma byte_bits_length src : length (byte_bits src) = (8 * length src)%nat.
Proof. induction src as [|x src IH]; [done|]. unfold byte_bits in *. cbn [map concat length]. rewrite length_app, bits_length, IH. lia. Qed.

(** Bytes are determined by their bits. *)
Lemma byte_bits_inj a b : (forall x, x ∈ a -> byte x) -> (forall x, x ∈ b -> byte x) -> byte_bits a = byte_bits b -> a = b.
Proof.
  revert b. induction a as [|x a IH]; intros [|y b] Ha Hb He; try (apply (f_equal length) in He; rewrite !byte_bits_length in He; cbn in He; lia); [done|].
  change (byte_bits (x :: a)) with (bits 8 x ++ byte_bits a) in He. change (byte_bits (y :: b)) with (bits 8 y ++ byte_bits b) in He. assert (Hlen : length (bits 8 x) = length (bits 8 y)) by (by rewrite !bits_length). destruct (app_inj_1 _ _ _ _ Hlen He) as [Hx He2]. clear He. rename He2 into He. f_equal.
  - assert (Hbx : byte x) by (apply Ha; left). assert (Hby : byte y) by (apply Hb; left). rewrite <- (val_bits 8 x Hbx), Hx. exact (val_bits 8 y Hby).
  - apply IH; [intros z Hz; apply Ha; by right|intros z Hz; apply Hb; by right|done].
Qed.

(** ** Walking the tree *)

Lemma follow_app p q t : follow t (p ++ q) = (u ← follow t p; follow u q).
Proof. revert t. induction p as [|b p IH]; intros [s|l r]; cbn [app follow]; done. Qed.

Lemma follow_code p t : follow root p = Some t -> is_code t (length p) (val p) = true.
Proof.
  revert t. induction p as [|b p IH] using rev_ind; intros t H; [injection H as <-; exact root_is_code|]. rewrite follow_app in H. destruct (follow root p) as [[s|l r]|] eqn:He; cbn in H; try done. specialize (IH _ eq_refl). cbn [is_code] in IH.
  rewrite length_app, Nat.add_1_r, val_snoc. injection H as <-. apply andb_true_iff in IH as [IH Hr]. apply andb_true_iff in IH as [_ Hl]. destruct b; cbn [b2z]; [done|by rewrite Z.add_0_r].
Qed.

Lemma leaf_code p s : follow root p = Some (Leaf s) -> p = code_bits s /\ 0 <= s <= 256 /\ find_symbol (length p) (val p) = Ok (Some s) /\ p <> [].
Proof.
  intros H%follow_code. cbn [is_code] in H. rewrite !andb_true_iff in H. destruct H as (((((H1 & H2%Z.eqb_eq) & H3%Z.eqb_eq) & H4%Z.leb_le) & H5%Z.leb_le) & H6%Nat.ltb_lt).
  split; [unfold code_bits; rewrite H2, H3, Nat2Z.id; symmetry; apply bits_val|]. split; [done|]. split; [|intros ->; cbn in H6; lia]. destruct (find_symbol _ _) as [[s'|]|]; try done. by apply Z.eqb_eq in H1 as ->.
Qed.

Lemma fork_code p l r : follow root p = Some (Fork l r) -> p <> [] -> find_symbol (length p) (val p) = Ok None.
Proof.
  intros H%follow_code Hne. cbn [is_code] in H. rewrite !andb_true_iff in H. destruct H as (((H1 & _) & _) & _). rewrite (proj2 (Nat.eqb_neq (length p) 0)) in H1 by (by destruct p). cbn [orb] in H1. by destruct (find_symbol _ _) as [[s'|]|].
Qed.

Lemma fork_short p l r : follow root p = Some (Fork l r) -> (length p < MAX_LEN)%nat.
Proof. intros H%follow_code. cbn [is_code] in H. rewrite !andb_true_iff in H. destruct H as (((_ & H) & _) & _). by apply Nat.ltb_lt in H. Qed.

(** ** Decoding, bit by bit *)

Fixpoint run (limit : Z) (bs : list bool) (st : State) : res State :=
  match bs with [] => Ok st | b :: bs => st ← decode_bit limit (b2z b) st; run limit bs st end.

Lemma run_app limit p q st : run limit (p ++ q) st = (st ← run limit p st; run limit q st).
Proof. revert st. induction p as [|b p IH]; intros st; [done|]. cbn [app run]. destruct (decode_bit _ _ _); [apply IH|done]. Qed.

Lemma land_one x k : 0 <= k -> Z.land (Z.shiftr x k) 1 = b2z (Z.testbit x k).
Proof.
  intros Hk. change 1 with (Z.ones 1). rewrite Z.land_ones, Z.shiftr_div_pow2 by lia. change (2 ^ 1) with 2. rewrite <- Z.testbit_spec' by lia. by destruct (Z.testbit x k).
Qed.

Lemma decode_byte_run limit x st : decode_bits limit x [7; 6; 5; 4; 3; 2; 1; 0] st = run limit (bits 8 x) st.
Proof.
  cbn [decode_bits bits run]. rewrite !land_one by lia. reflexivity.
Qed.

Lemma decode_bytes_run limit src st : decode_bytes limit src st = run limit (byte_bits src) st.
Proof.
  revert st. induction src as [|x src IH]; intros st; [done|]. change (byte_bits (x :: src)) with (bits 8 x ++ byte_bits src). rewrite run_app. cbn [decode_bytes]. rewrite decode_byte_run. destruct (run _ _ _); [apply IH|done].
Qed.

(** The bits since the last symbol. *)
Definition at_node (p : list bool) (out : list Z) : State := mk_state (val p) (length p) out.

Lemma next_code p b : (length p < MAX_LEN)%nat -> Z.lor (Z.shiftl (val p) 1 mod (U32_MAX + 1)) (b2z b) = val (p ++ [b]).
Proof.
  intros Hp. assert (Hr := val_range p). assert (Hle : 2 ^ Z.of_nat (length p) <= 2 ^ 30) by (apply Z.pow_le_mono_r; unfold MAX_LEN in Hp; lia). change (2 ^ 30) with 1073741824 in Hle.
  rewrite Z.shiftl_mul_pow2, Z.mod_small by (unfold U32_MAX; change (2 ^ 1) with 2; lia). rewrite val_snoc, <- Z.shiftl_mul_pow2, Z.lor_comm, lor_shift by (destruct b; cbn; lia). change (2 ^ 1) with 2. lia.
Qed.

(** A bit at a fork. *)
Lemma bit_at_fork limit p b l r out : follow root p = Some (Fork l r) ->
  decode_bit limit (b2z b) (at_node p out) =
    match (if b then r else l) with
    | Leaf s => if s =? 256 then Err Eos else if limit <=? Slice.len out then Err TooLong else Ok (at_node [] (out ++ [s mod 256]))
    | Fork _ _ => Ok (at_node (p ++ [b]) out)
    end.
Proof.
  intros H. assert (Hf : follow root (p ++ [b]) = Some (if b then r else l)) by (rewrite follow_app, H; done). unfold decode_bit, at_node. cbn [code st_len decoded]. rewrite next_code by (by eapply fork_short).
  replace (S (length p)) with (length (p ++ [b])) by (rewrite length_app; cbn; lia). destruct (if b then r else l) as [s|l' r'].
  - destruct (leaf_code _ _ Hf) as (_ & _ & Hs & _). rewrite Hs. done.
  - assert (Hne : p ++ [b] <> []) by (by destruct p). rewrite (fork_code _ _ _ Hf Hne). done.
Qed.

(** Bits that lead to a leaf give its symbol. *)
Lemma run_path limit q p l r s rest out : follow root p = Some (Fork l r) -> follow (Fork l r) q = Some (Leaf s) ->
  run limit (q ++ rest) (at_node p out) = if s =? 256 then Err Eos else if limit <=? Slice.len out then Err TooLong else run limit rest (at_node [] (out ++ [s mod 256])).
Proof.
  revert p l r. induction q as [|b q IH]; intros p l r Hp Hq; [done|]. cbn [app run]. rewrite (bit_at_fork limit p b l r out Hp). cbn [follow] in Hq. destruct (if b then r else l) as [s'|l' r'] eqn:Hb.
  - destruct q; [|done]. injection Hq as ->. destruct (s =? 256); [done|]. by destruct (limit <=? _).
  - cbn [mbind result_bind]. apply (IH _ l' r'); [|done]. rewrite follow_app, Hp. cbn [mbind option_bind]. change (follow (Fork l r) [b]) with (Some (if b then r else l)). by rewrite Hb.
Qed.

Lemma run_symbol limit s rest out : 0 <= s < 256 -> run limit (code_bits s ++ rest) (at_node [] out) = if limit <=? Slice.len out then Err TooLong else run limit rest (at_node [] (out ++ [s])).
Proof.
  intros Hs. assert (Hl := code_leads s ltac:(lia)). destruct root as [?|l r] eqn:Hr; [done|]. rewrite (run_path limit (code_bits s) [] l r s) by (by rewrite ?Hr). rewrite (proj2 (Z.eqb_neq s 256)), Z.mod_small by lia. done.
Qed.

(** The bits of a string, without its padding. *)
Definition string_bits (src : list Z) : list bool := concat (map code_bits src).

Lemma run_string limit src rest out : (forall x, x ∈ src -> byte x) -> Slice.len out + Slice.len src <= limit -> run limit (string_bits src ++ rest) (at_node [] out) = run limit rest (at_node [] (out ++ src)).
Proof.
  revert out. induction src as [|x src IH]; intros out Hb Hl; [by rewrite app_nil_r|]. unfold string_bits. cbn [map concat]. rewrite <- app_assoc, run_symbol by (apply Hb; left). rewrite (proj2 (Z.leb_gt _ _)) by (unfold Slice.len in *; cbn [length] in Hl; lia).
  fold (string_bits src). rewrite IH, <- app_assoc; [done|intros y Hy; apply Hb; by right|]. rewrite len_app. unfold Slice.len in *. cbn [length] in *. lia.
Qed.

(** Bits that stay inside the tree are only collected. *)
Lemma run_fork limit q p l r out : follow root (p ++ q) = Some (Fork l r) -> run limit q (at_node p out) = Ok (at_node (p ++ q) out).
Proof.
  revert p. induction q as [|b q IH]; intros p Hq; [by rewrite app_nil_r|]. rewrite follow_app in Hq. destruct (follow root p) as [[s|l' r']|] eqn:Hp; cbn [mbind option_bind] in Hq; [done| |done].
  cbn [run]. rewrite (bit_at_fork limit p b l' r' out Hp). assert (Hb : follow root (p ++ [b]) = Some (if b then r' else l')) by (rewrite follow_app, Hp; done).
  cbn [follow] in Hq. assert (Hpq : follow root ((p ++ [b]) ++ q) = Some (Fork l r)) by (rewrite follow_app, Hb; exact Hq). rewrite <- app_assoc in Hpq. destruct (if b then r' else l') as [s|l2 r2]; [by destruct q|].
  cbn [mbind result_bind]. rewrite (IH (p ++ [b])) by (rewrite <- app_assoc; exact Hpq). by rewrite <- app_assoc.
Qed.

(** What a run can be: whole codes, then bits inside the tree; and the only
    errors are [Eos] and [TooLong]. *)
Lemma run_inv limit q p l r out : follow root p = Some (Fork l r) -> Slice.len out <= limit ->
  match run limit q (at_node p out) with
  | Ok st => exists s pad l' r', p ++ q = string_bits s ++ pad /\ st = at_node pad (out ++ s) /\ follow root pad = Some (Fork l' r') /\ (forall x, x ∈ s -> byte x) /\ Slice.len (out ++ s) <= limit
  | Err e => e = Eos \/ e = TooLong
  end.
Proof.
  revert p l r out. induction q as [|b q IH]; intros p l r out Hp Hl.
  { cbn [run]. exists [], p, l, r. rewrite !app_nil_r. split; [done|]. split; [done|]. split; [done|]. split; [intros x Hx; by apply not_elem_of_nil in Hx|done]. }
  cbn [run]. rewrite (bit_at_fork limit p b l r out Hp). assert (Hb : follow root (p ++ [b]) = Some (if b then r else l)) by (rewrite follow_app, Hp; done). destruct (if b then r else l) as [s|l2 r2].
  - destruct (Z.eqb_spec s 256) as [|Hs]; [by left|]. destruct (Z.leb_spec limit (Slice.len out)) as [|Hlim]; [by right|]. cbn [mbind result_bind].
    destruct (leaf_code _ _ Hb) as (Hc & Hr & _). rewrite (Z.mod_small s) by lia. assert (Hl2 : Slice.len (out ++ [s]) <= limit) by (rewrite len_app; change (Slice.len [s]) with 1; lia).
    destruct root as [?|l0 r0] eqn:Hroot; [done|]. rewrite <- Hroot in *. assert (H := IH [] l0 r0 (out ++ [s]) ltac:(by rewrite Hroot) Hl2). destruct (run _ _ _) as [st|e]; [|done].
    destruct H as (s' & pad & l' & r' & He & -> & Hf & Hby & Hlen). exists (s :: s'), pad, l', r'. rewrite <- app_assoc in *. cbn [app] in *. split; [|split; [done|split; [done|split; [|done]]]].
    + rewrite He. change (p ++ b :: string_bits s' ++ pad) with (p ++ [b] ++ (string_bits s' ++ pad)). rewrite app_assoc, Hc. unfold string_bits. cbn [map concat]. by rewrite app_assoc.
    + intros x [->|Hx]%elem_of_cons; [unfold byte; lia|by apply Hby].
  - cbn [mbind result_bind]. assert (H := IH (p ++ [b]) l2 r2 out Hb Hl). destruct (run _ _ _) as [st|e]; [|done]. by rewrite <- app_assoc in H.
Qed.

(** ** Padding *)

Lemma ones_inside k : (k <= 7)%nat -> exists l r, follow root (replicate k true) = Some (Fork l r).
Proof. intros Hk. do 8 (destruct k as [|k]; [eexists _, _; vm_compute; reflexivity|]). lia. Qed.

Lemma val_ones k : val (replicate k true) = 2 ^ Z.of_nat k - 1.
Proof.
  induction k as [|k IH]; [by vm_compute|]. rewrite replicate_S_end, val_snoc, IH, Nat2Z.inj_succ, Z.pow_succ_r by lia. cbn [b2z]. lia.
Qed.

Lemma ones_val p : val p = 2 ^ Z.of_nat (length p) - 1 -> p = replicate (length p) true.
Proof.
  intros H. rewrite <- (bits_val p) at 1. rewrite H, <- val_ones. assert (Hl : length (replicate (length p) true) = length p) by apply length_replicate. rewrite <- Hl at 1. apply bits_val.
Qed.

(** What the end of a string may be. *)
Lemma padded pad out : (7 <? Z.of_nat (st_len (at_node pad out))) || negb (code (at_node pad out) =? Z.shiftl 1 (Z.of_nat (st_len (at_node pad out))) - 1) = false <-> exists k, (k <= 7)%nat /\ pad = replicate k true.
Proof.
  cbn [st_len code at_node]. rewrite Z.shiftl_1_l, orb_false_iff, Z.ltb_ge, negb_false_iff, Z.eqb_eq. split.
  - intros (Hl & Hv). exists (length pad). split; [lia|by apply ones_val].
  - intros (k & Hk & ->). rewrite length_replicate, val_ones. lia.
Qed.

(** ** Encoding, bit by bit *)

Lemma codes_fit : forallb (fun s => (0 <=? code_of (Z.of_nat s)) && (code_of (Z.of_nat s) <? 2 ^ length_of (Z.of_nat s)) && (5 <=? length_of (Z.of_nat s)) && (length_of (Z.of_nat s) <=? 30)) (seq 0 257) = true.
Proof. by vm_compute. Qed.

Lemma code_fits b : byte b -> 0 <= code_of b < 2 ^ length_of b /\ 5 <= length_of b <= 30.
Proof.
  intros Hb. unfold byte in Hb. assert (H := proj1 (forallb_forall _ _) codes_fit (Z.to_nat b) ltac:(apply in_seq; lia)). cbn beta in H. rewrite Z2Nat.id in H by lia. rewrite !andb_true_iff, !Z.leb_le, Z.ltb_lt in H. lia.
Qed.

Lemma code_bits_length b : byte b -> length (code_bits b) = Z.to_nat (length_of b).
Proof. intros _. apply bits_length. Qed.

Lemma val_code_bits b : byte b -> val (code_bits b) = code_of b.
Proof. intros Hb. destruct (code_fits b Hb) as (Hc & Hl). apply val_bits. rewrite Z2Nat.id by lia. done. Qed.

Lemma val_low p q : Z.land (val (p ++ q)) (Z.shiftl 1 (Z.of_nat (length q)) - 1) = val q.
Proof.
  rewrite Z.shiftl_1_l, <- (Z.ones_equiv (Z.of_nat (length q)) : Z.ones _ = 2 ^ _ - 1), Z.land_ones by lia. rewrite val_app, Z.add_comm, Z.mod_add by (apply Z.pow_nonzero; lia). apply Z.mod_small, val_range.
Qed.

Lemma val_high p q : Z.shiftr (val (p ++ q)) (Z.of_nat (length q)) = val p.
Proof. rewrite Z.shiftr_div_pow2, val_app, Z.div_add_l, Z.div_small by (apply val_range || lia || (apply Z.pow_nonzero; lia)). lia. Qed.

Lemma val_byte h : length h = 8%nat -> byte (val h) /\ bits 8 (val h) = h.
Proof. intros H. assert (Hr := val_range h). assert (Hv := bits_val h). rewrite H in Hr, Hv. done. Qed.

(** The whole bytes of the pending bits go out, and less than a byte stays. *)
Lemma flush_out fuel gone p out : (length p < 8 * S fuel)%nat ->
  exists new q, flush fuel (val (gone ++ p)) (Z.of_nat (length p)) out = (Z.of_nat (length q), out ++ new) /\ p = byte_bits new ++ q /\ (length q < 8)%nat /\ forall x, x ∈ new -> byte x.
Proof.
  revert gone p out. induction fuel as [|fuel IH]; intros gone p out Hp.
  { exists [], p. rewrite app_nil_r. split; [done|]. split; [done|]. split; [lia|]. intros x Hx. by apply not_elem_of_nil in Hx. }
  cbn [flush]. destruct (Z.leb_spec 8 (Z.of_nat (length p))) as [H8|H8].
  - assert (Hd := take_drop 8 p). assert (Ht : length (take 8 p) = 8%nat) by (rewrite length_take; lia). assert (Hl : length (drop 8 p) = (length p - 8)%nat) by apply length_drop. set (h := take 8 p) in *. set (t := drop 8 p) in *.
    assert (Hz : Z.of_nat (length p) - 8 = Z.of_nat (length t)) by lia. destruct (val_byte h Ht) as (Hb & Hbits).
    assert (Hout : Z.shiftr (val (gone ++ p)) (Z.of_nat (length t)) mod 256 = val h) by (rewrite <- Hd, app_assoc, val_high, val_app, Ht, Z.add_comm; change (2 ^ Z.of_nat 8) with 256; rewrite Z.mod_add by lia; apply Z.mod_small; exact Hb).
    rewrite Hz, Hout. assert (Hlt : (length t < 8 * S fuel)%nat) by lia. assert (H := IH (gone ++ h) t (out ++ [val h]) Hlt). rewrite <- app_assoc, Hd in H. destruct H as (new & q & Hf & Hp2 & Hq & Hbn). exists (val h :: new), q.
    rewrite <- app_assoc in Hf. cbn [app] in Hf. split; [|split; [|split; [done|]]].
    + exact Hf.
    + change (byte_bits (val h :: new)) with (bits 8 (val h) ++ byte_bits new). rewrite Hbits, <- app_assoc, <- Hp2. by symmetry.
    + intros x [->|Hx]%elem_of_cons; [done|by apply Hbn].
  - exists [], p. rewrite app_nil_r. split; [done|]. split; [done|]. split; [lia|]. intros x Hx. by apply not_elem_of_nil in Hx.
Qed.

Lemma encode_step_out p b out : (length p < 8)%nat -> byte b ->
  exists new q, encode_step (val p, Z.of_nat (length p), out) b = (val q, Z.of_nat (length q), out ++ new) /\ p ++ code_bits b = byte_bits new ++ q /\ (length q < 8)%nat /\ forall x, x ∈ new -> byte x.
Proof.
  intros Hp Hb. destruct (code_fits b Hb) as (Hc & Hl). assert (Hcl := code_bits_length b Hb). unfold encode_step.
  assert (Hacc : Z.lor (u64 (Z.shiftl (val p) (length_of b))) (code_of b) = val (p ++ code_bits b)).
  { assert (Hv := val_range p). assert (H7 : 2 ^ Z.of_nat (length p) <= 2 ^ 7) by (apply Z.pow_le_mono_r; lia). assert (H30 : 2 ^ length_of b <= 2 ^ 30) by (apply Z.pow_le_mono_r; lia). change (2 ^ 7) with 128 in H7. change (2 ^ 30) with 1073741824 in H30.
    rewrite u64_small by (rewrite Z.shiftl_mul_pow2 by lia; unfold U64_MAX; nia). rewrite Z.lor_comm, lor_shift by lia. rewrite val_app, val_code_bits, Hcl, Z2Nat.id by (done || lia). lia. }
  rewrite Hacc. assert (Hn : Z.of_nat (length p) + length_of b = Z.of_nat (length (p ++ code_bits b))) by (rewrite length_app; lia). rewrite Hn.
  destruct (flush_out 5 [] (p ++ code_bits b) out) as (new & q & Hf & Hq & Hlq & Hbn); [rewrite length_app; lia|]. cbn [app] in Hf. rewrite Hf. exists new, q. split; [|done]. by rewrite Hq, val_low.
Qed.

Lemma encode_run src : forall p out, (length p < 8)%nat -> (forall x, x ∈ src -> byte x) ->
  exists new q, fold_left encode_step src (val p, Z.of_nat (length p), out) = (val q, Z.of_nat (length q), out ++ new) /\ p ++ string_bits src = byte_bits new ++ q /\ (length q < 8)%nat /\ forall x, x ∈ new -> byte x.
Proof.
  induction src as [|b src IH]; intros p out Hp Hb.
  { exists [], p. rewrite !app_nil_r. split; [done|]. split; [done|]. split; [done|]. intros x Hx. by apply not_elem_of_nil in Hx. }
  cbn [fold_left]. destruct (encode_step_out p b out Hp) as (n1 & q1 & -> & Hq1 & Hl1 & Hb1); [apply Hb; left|]. destruct (IH q1 (out ++ n1) Hl1) as (n2 & q2 & -> & Hq2 & Hl2 & Hb2); [intros x Hx; apply Hb; by right|].
  exists (n1 ++ n2), q2. rewrite <- app_assoc. split; [done|]. unfold string_bits in *. cbn [map concat]. rewrite byte_bits_app, app_assoc, Hq1, <- !app_assoc, Hq2. split; [done|]. split; [done|]. intros x [Hx|Hx]%elem_of_app; [by apply Hb1|by apply Hb2].
Qed.

Lemma shiftr_255 k : (0 < k < 8)%nat -> Z.shiftr 255 (Z.of_nat k) = val (replicate (8 - k) true) /\ 0 <= val (replicate (8 - k) true) < 2 ^ Z.of_nat (8 - k).
Proof. intros Hk. do 8 (destruct k as [|k]; [first [lia|clear; by vm_compute]|]). lia. Qed.

(** What encoding writes: the codes, and ones up to a whole byte. *)
Lemma encode_bits src out : (forall x, x ∈ src -> byte x) ->
  exists new k, encode src out = out ++ new /\ byte_bits new = string_bits src ++ replicate k true /\ (k <= 7)%nat /\ forall x, x ∈ new -> byte x.
Proof.
  intros Hb. unfold encode. destruct (encode_run src [] out ltac:(cbn; lia) Hb) as (new & q & He & Hq & Hl & Hbn). change (fold_left encode_step src (0, 0, out)) with (fold_left encode_step src (val [], Z.of_nat (length (@nil bool)), out)). rewrite He. cbn [app] in Hq. destruct (Z.ltb_spec 0 (Z.of_nat (length q))) as [Hpos|Hz].
  - destruct (shiftr_255 (length q) ltac:(lia)) as (Hs & Hr). assert (Hv := val_range q). set (k := (8 - length q)%nat) in *. assert (Hk : 8 - Z.of_nat (length q) = Z.of_nat k) by (subst k; lia).
    assert (Hlen : length (q ++ replicate k true) = 8%nat) by (rewrite length_app, length_replicate; subst k; lia). destruct (val_byte _ Hlen) as (Hby & Hbits).
    assert (Hlast : Z.lor (Z.shiftl (val q) (8 - Z.of_nat (length q)) mod 256) (Z.shiftr 255 (Z.of_nat (length q))) = val (q ++ replicate k true)).
    { rewrite Hs, Hk, Z.mod_small; [rewrite Z.lor_comm, lor_shift by lia; rewrite val_app, length_replicate; lia|]. unfold byte in Hby. rewrite val_app, length_replicate in Hby. rewrite Z.shiftl_mul_pow2 by lia. lia. }
    exists (new ++ [val (q ++ replicate k true)]), k. rewrite Hlast, byte_bits_app, <- app_assoc. split; [done|]. change (byte_bits [val (q ++ replicate k true)]) with (bits 8 (val (q ++ replicate k true)) ++ []). rewrite app_nil_r, Hbits, app_assoc, <- Hq. split; [done|]. split; [subst k; lia|].
    intros x [Hx|Hx]%elem_of_app; [by apply Hbn|]. by apply list_elem_of_singleton in Hx as ->.
  - destruct q; [|cbn in Hz; lia]. exists new, 0%nat. rewrite Hq. cbn [replicate]. rewrite !app_nil_r. split; [done|]. split; [done|]. split; [lia|done].
Qed.

(** ** Decoding accepts what encoding gives *)

Lemma string_bits_length src : (forall x, x ∈ src -> byte x) -> Z.of_nat (length (string_bits src)) = total length_of src.
Proof.
  induction src as [|b src IH]; intros Hb; [done|]. unfold string_bits, total in *. cbn [map concat foldr]. assert (Hbb : byte b) by (apply Hb; left). destruct (code_fits b Hbb) as (_ & Hl). rewrite length_app, (code_bits_length b Hbb), Nat2Z.inj_add, IH; [lia|intros x Hx; apply Hb; by right].
Qed.

(** Encoding appends, as many bytes as [encoded_len] says. *)
Lemma encode_appends src out : (forall x, x ∈ src -> byte x) ->
  encode src out = out ++ encode src [] /\ Slice.len (encode src []) = encoded_len src /\ forall x, x ∈ encode src [] -> byte x.
Proof.
  intros Hb. destruct (encode_bits src out Hb) as (n1 & k1 & -> & Hn1 & Hk1 & Hb1). destruct (encode_bits src [] Hb) as (n2 & k2 & -> & Hn2 & Hk2 & Hb2). cbn [app].
  assert (Hs := string_bits_length src Hb). assert (H1 := f_equal length Hn1). assert (H2 := f_equal length Hn2). rewrite byte_bits_length, length_app, length_replicate in H1, H2. assert (k1 = k2) as -> by lia. rewrite <- Hn2 in Hn1.
  split; [f_equal; by apply byte_bits_inj|]. split; [|done]. unfold encoded_len, Slice.len. apply (Z.div_unique _ 8 _ (7 - Z.of_nat k2)); lia.
Qed.

Lemma decode_coded s src out limit k : (forall x, x ∈ s -> byte x) -> Slice.len s <= limit -> (k <= 7)%nat -> byte_bits src = string_bits s ++ replicate k true -> decode src out limit = Ok (out ++ s).
Proof.
  intros Hs Hl Hk Hbits. unfold decode. rewrite decode_bytes_run, Hbits. change (mk_state 0 0 []) with (at_node [] []). rewrite run_string by done. destruct (ones_inside k Hk) as (l & r & Hf). rewrite (run_fork _ (replicate k true) [] l r) by exact Hf. cbn [mbind result_bind app].
  assert (Hp := proj2 (padded (replicate k true) s) (ex_intro _ k (conj Hk eq_refl))). by rewrite Hp.
Qed.

Lemma decode_encode s out limit : (forall x, x ∈ s -> byte x) -> Slice.len s <= limit -> decode (encode s []) out limit = Ok (out ++ s).
Proof. intros Hs Hl. destruct (encode_bits s [] Hs) as (new & k & -> & Hn & Hk & _). by apply decode_coded with k. Qed.

Lemma root_fork : exists l r, follow root [] = Some (Fork l r).
Proof. eexists _, _. reflexivity. Qed.

Lemma decode_ok src out limit o : 0 <= limit -> decode src out limit = Ok o ->
  exists s k, o = out ++ s /\ (forall x, x ∈ s -> byte x) /\ Slice.len s <= limit /\ (k <= 7)%nat /\ byte_bits src = string_bits s ++ replicate k true.
Proof.
  intros Hlim Hd. destruct root_fork as (l & r & Hr). assert (H := run_inv limit (byte_bits src) [] l r [] Hr Hlim). unfold decode in Hd. rewrite decode_bytes_run in Hd. change (mk_state 0 0 []) with (at_node [] []) in Hd. destruct (run _ _ _) as [st|e]; [|done]. cbn [mbind result_bind] in Hd.
  destruct H as (s & pad & l' & r' & Hbits & -> & _ & Hs & Hl). cbn [app] in *. destruct (_ || _) eqn:Hp in Hd; [done|]. injection Hd as <-. apply padded in Hp as (k & Hk & ->). by exists s, k.
Qed.

Lemma decode_err src out limit e : 0 <= limit -> decode src out limit = Err e -> e = Eos \/ e = TooLong \/ e = Padding.
Proof.
  intros Hlim Hd. destruct root_fork as (l & r & Hr). assert (H := run_inv limit (byte_bits src) [] l r [] Hr Hlim). unfold decode in Hd. rewrite decode_bytes_run in Hd. change (mk_state 0 0 []) with (at_node [] []) in Hd. destruct (run _ _ _) as [st|e']; cbn [mbind result_bind] in Hd.
  - destruct (_ || _) in Hd; [injection Hd as <-; auto|done].
  - injection Hd as <-. tauto.
Qed.

(** C17: the Huffman code of header strings is exact.  Decoding a byte string
    within a limit gives just the strings of at most that many bytes whose
    encoding it is: every string comes back from its encoding, and nothing else
    decodes (padding of a whole byte or of other bits than ones is refused, as
    is the end-of-string symbol).  What fails, fails with one of the three
    errors; no table is read out of range. *)
Theorem huffman_exact src out limit : (forall x, x ∈ src -> byte x) -> 0 <= limit ->
  match decode src out limit with
  | Ok o => exists s, o = out ++ s /\ (forall x, x ∈ s -> byte x) /\ Slice.len s <= limit /\ src = encode s []
  | Err e => (e = Eos \/ e = TooLong \/ e = Padding) /\ forall s, (forall x, x ∈ s -> byte x) -> Slice.len s <= limit -> src <> encode s []
  end.
Proof.
  intros Hb Hlim. assert (Hback : forall s, (forall x, x ∈ s -> byte x) -> Slice.len s <= limit -> src = encode s [] -> decode src out limit = Ok (out ++ s)) by (intros s Hs Hl ->; by apply decode_encode).
  destruct (decode src out limit) as [o|e] eqn:Hd.
  - destruct (decode_ok src out limit o Hlim Hd) as (s & k & -> & Hs & Hl & Hk & Hbits). exists s. split; [done|]. split; [done|]. split; [done|]. destruct (encode_bits s [] Hs) as (new & k' & -> & Hn & Hk' & Hbn). cbn [app].
    assert (H1 := f_equal length Hbits). assert (H2 := f_equal length Hn). rewrite byte_bits_length, length_app, length_replicate in H1, H2. assert (k = k') as -> by lia. rewrite <- Hn in Hbits. by apply byte_bits_inj.
  - split; [by apply (decode_err src out limit)|]. intros s Hs Hl He. discriminate (Hback s Hs Hl He).
Qed.

(** [0001_1111] is "a" padded with ones; a zero in the padding is refused. *)
Lemma huffman_exact_witness : decode [31] [] 1 = Ok [97] /\ decode [30] [] 1 = Err Padding /\ encode [97] [] = [31] /\ forall s, (forall x, x ∈ s -> byte x) -> Slice.len s <= 1 -> [30] <> encode s [].
Proof.
  split; [done|]. split; [done|]. split; [done|]. assert (Hb : forall x, x ∈ [30] -> byte x) by (intros x ->%list_elem_of_singleton; unfold byte; lia). exact (proj2 (huffman_exact [30] [] 1 Hb ltac:(lia))).
Defined.

(** The three ways to fail, and the examples of RFC 7541, Appendix C.4. *)
Example refusals : decode [255; 255; 255; 255] [] 100 = Err Eos /\ decode [31; 255] [] 100 = Err Padding /\ decode [31] [] 0 = Err TooLong.
Proof. by vm_compute. Qed.

Example no_cache : encode [110; 111; 45; 99; 97; 99; 104; 101] [] = [168; 235; 16; 100; 156; 191] /\ decode [168; 235; 16; 100; 156; 191] [107] 8 = Ok [107; 110; 111; 45; 99; 97; 99; 104; 101].
Proof. by vm_compute. Qed.
