(* ===== verification/Hpack.v ===== *)
(** Header compression of HTTP/2: [pratique/src/http/h2/hpack.rs].

    A byte is a [Z], a position in a block the bytes from it on.  An error of
    [decode] ends the connection, so the model does not keep the table and the
    fields of a block that did not decode.  The sums of the lengths of strings
    that are in memory are unbounded here ([usize] holds them); only the size
    of the list saturates as in the source.

    The properties: whatever a peer sends, the decoder keeps its table and the
    list within their limits and does not panic; and the decoder of a
    connection reads what its encoder wrote, block after block, whatever table
    sizes are announced in between. *)

From Stdlib Require Import ZArith Lia String Ascii.
From stdpp Require Import base option numbers list_numbers list.
From S2P Require Import Prelude Slice Wire Huffman.

#[local] Open Scope Z_scope.

Definition DEFAULT_TABLE_SIZE : Z := 4096.

Definition ENTRY_OVERHEAD : Z := 32.

(** [s.as_bytes()]. *)
Definition as_bytes (s : string) : list Z := map (fun c => Z.of_N (N_of_ascii c)) (list_ascii_of_string s).

(** A header of the static table that has no value there. *)
Definition bare (name : string) : list Z * list Z := (as_bytes name, []).
Definition valued (name value : string) : list Z * list Z := (as_bytes name, as_bytes value).

Definition STATIC : list (list Z * list Z) := Eval vm_compute in
  [bare ":authority"; valued ":method" "GET"; valued ":method" "POST"; valued ":path" "/"; valued ":path" "/index.html";
   valued ":scheme" "http"; valued ":scheme" "https"; valued ":status" "200"; valued ":status" "204"; valued ":status" "206";
   valued ":status" "304"; valued ":status" "400"; valued ":status" "404"; valued ":status" "500"; bare "accept-charset";
   valued "accept-encoding" "gzip, deflate"; bare "accept-language"; bare "accept-ranges"; bare "accept";
   bare "access-control-allow-origin"; bare "age"; bare "allow"; bare "authorization"; bare "cache-control";
   bare "content-disposition"; bare "content-encoding"; bare "content-language"; bare "content-length";
   bare "content-location"; bare "content-range"; bare "content-type"; bare "cookie"; bare "date"; bare "etag";
   bare "expect"; bare "expires"; bare "from"; bare "host"; bare "if-match"; bare "if-modified-since";
   bare "if-none-match"; bare "if-range"; bare "if-unmodified-since"; bare "last-modified"; bare "link";
   bare "location"; bare "max-forwards"; bare "proxy-authenticate"; bare "proxy-authorization"; bare "range";
   bare "referer"; bare "refresh"; bare "retry-after"; bare "server"; bare "set-cookie";
   bare "strict-transport-security"; bare "transfer-encoding"; bare "user-agent"; bare "vary"; bare "via";
   bare "www-authenticate"]%string.

Record Field := mk_field { name : list Z; value : list Z }.

Definition field_size (f : Field) : Z := len (name f) + len (value f) + ENTRY_OVERHEAD.

Inductive Error : Type :=
| Truncated
| Integer
| Index (i : Z)
| BadHuffman (e : Huffman.Error)
| StringTooLong
| SizeUpdateLate
| SizeUpdateTooLarge (n : Z)
| HpackFault (f : fault).

Abbreviation res := (result Error).

(** ** Integers and strings *)

(** The bytes after the prefix. *)
Fixpoint decode_more (fuel : nat) (value shift : Z) (buf : list Z) : res (Z * list Z) :=
  match fuel with
  | O => Err (HpackFault NoFuel)
  | S fuel =>
      match buf with
      | [] => Err Truncated
      | b :: buf =>
          let value := u64 (value + u64 (Z.shiftl (Z.land b 127) shift)) in
          if U32_MAX <? value then Err Integer
          else if Z.land b 128 =? 0 then Ok (value, buf)
          else if 28 <? shift + 7 then Err Integer
          else decode_more fuel value (shift + 7) buf
      end
  end.

Definition decode_int (buf : list Z) (prefix_bits : Z) : res (Z * list Z) :=
  let mask := Z.shiftl 1 prefix_bits - 1 in
  match buf with
  | [] => Err Truncated
  | first :: buf =>
      let value := Z.land first mask in
      if value <? mask then Ok (value, buf) else decode_more 5 value 0 buf
  end.

(** [while rest >= 128]. *)
Fixpoint encode_more (fuel : nat) (out : list Z) (rest : Z) : list Z :=
  match fuel with
  | O => out
  | S fuel => if 128 <=? rest then encode_more fuel (out ++ [Z.lor (Z.land rest 127) 128]) (Z.shiftr rest 7) else out ++ [rest mod 256]
  end.

Definition encode_int (out : list Z) (prefix_bits flags value : Z) : list Z :=
  let max := Z.shiftl 1 prefix_bits - 1 in
  if value <? max then out ++ [Z.lor flags (value mod 256)]
  else encode_more 10 (out ++ [Z.lor flags (max mod 256)]) (value - max).

Definition decode_string (buf : list Z) (limit : Z) (out : list Z) : res (list Z * list Z) :=
  match buf with
  | [] => Err Truncated
  | b :: _ =>
      let huffman_coded := negb (Z.land b 128 =? 0) in
      '(n, buf) ← decode_int buf 7;
      if len buf <? n then Err Truncated
      else
        let raw := take (Z.to_nat n) buf in
        let buf := drop (Z.to_nat n) buf in
        if huffman_coded then
          match Huffman.decode raw out limit with
          | Ok out => Ok (out, buf)
          | Err Huffman.TooLong => Err StringTooLong
          | Err e => Err (BadHuffman e)
          end
        else if limit <? len raw then Err StringTooLong
        else Ok (out ++ raw, buf)
  end.

Definition encode_string (out s : list Z) : list Z :=
  let coded := Huffman.encoded_len s in
  if coded <? len s then Huffman.encode s (encode_int out 7 128 coded) else encode_int out 7 0 (len s) ++ s.

(** ** The table *)

(** The newest entry is the first. *)
Record DynamicTable := mk_table { entries : list Field; size : Z; max : Z }.

Definition new_table (max : Z) : DynamicTable := mk_table [] 0 max.

(** [while self.size + size > self.max] of [insert]; the entries here are the
    oldest first, and the boolean tells whether room was made. *)
Fixpoint make_room (n max : Z) (back : list Field) (size : Z) : list Field * Z * bool :=
  if max <? size + n then
    match back with
    | old :: back => make_room n max back (size - field_size old)
    | [] => ([], size, false)
    end
  else (back, size, true).

Definition insert (f : Field) (t : DynamicTable) : DynamicTable :=
  let '(back, sz, room) := make_room (field_size f) (max t) (rev (entries t)) (size t) in
  if room then mk_table (f :: rev back) (sz + field_size f) (max t) else mk_table (rev back) sz (max t).

(** [while self.size > max] of [set_max]. *)
Fixpoint pop_oldest (max : Z) (back : list Field) (size : Z) : res (list Field * Z) :=
  if max <? size then
    match back with
    | old :: back => pop_oldest max back (size - field_size old)
    | [] => Err (HpackFault Panic)
    end
  else Ok (back, size).

Definition set_max (m : Z) (t : DynamicTable) : res DynamicTable :=
  '(back, sz) ← pop_oldest m (rev (entries t)) (size t);
  Ok (mk_table (rev back) sz m).

Definition get (index : Z) (t : DynamicTable) : option (list Z * list Z) :=
  if index =? 0 then None
  else if index <=? len STATIC then STATIC !! Z.to_nat (index - 1)
  else f ← entries t !! Z.to_nat (index - len STATIC - 1); Some (name f, value f).

(** ** Decoding *)

Record Decoder := mk_decoder { d_table : DynamicTable; allowed_table_size : Z; max_list_size : Z }.

Definition new_decoder (allowed_table_size max_list_size : Z) : Decoder := mk_decoder (new_table allowed_table_size) allowed_table_size max_list_size.

Definition literal (t : DynamicTable) (buf : list Z) (prefix_bits string_limit : Z) : res (Field * list Z) :=
  '(index, buf) ← decode_int buf prefix_bits;
  '(name, buf) ← (if index =? 0 then decode_string buf string_limit []
                  else match get index t with Some (n, _) => Ok (n, buf) | None => Err (Index index) end);
  '(value, buf) ← decode_string buf string_limit [];
  Ok (mk_field name value, buf).

(** The list being read: its size, whether it is within the limit, the fields
    kept of it. *)
Record Listing := mk_listing { list_size : Z; within : bool; out : list Field }.

Definition add_field (max_list_size : Z) (f : Field) (l : Listing) : Listing :=
  let size := Z.min U64_MAX (list_size l + field_size f) in
  if max_list_size <? size then mk_listing size false (out l) else mk_listing size (within l) (out l ++ [f]).

(** One round of the loop over the block: what is left of it, and the list, the
    table and [started] after it. *)
Definition decode_field (d : Decoder) (first : Z) (buf : list Z) (t : DynamicTable) (l : Listing) (started : bool) : res (list Z * DynamicTable * Listing * bool) :=
  let string_limit := Z.max (max_list_size d) (allowed_table_size d) in
  if negb (Z.land first 128 =? 0) then
    '(index, buf) ← decode_int buf 7;
    match get index t with
    | None => Err (Index index)
    | Some (n, v) => Ok (buf, t, add_field (max_list_size d) (mk_field n v) l, true)
    end
  else if negb (Z.land first 64 =? 0) then
    '(f, buf) ← literal t buf 6 string_limit;
    Ok (buf, insert f t, add_field (max_list_size d) f l, true)
  else if negb (Z.land first 32 =? 0) then
    if started then Err SizeUpdateLate
    else
      '(n, buf) ← decode_int buf 5;
      if allowed_table_size d <? n then Err (SizeUpdateTooLarge n)
      else t ← set_max n t; Ok (buf, t, l, started)
  else
    '(f, buf) ← literal t buf 4 string_limit;
    Ok (buf, t, add_field (max_list_size d) f l, true).

Fixpoint decode_block (fuel : nat) (d : Decoder) (buf : list Z) (t : DynamicTable) (l : Listing) (started : bool) : res (DynamicTable * Listing) :=
  match buf with
  | [] => Ok (t, l)
  | first :: _ =>
      match fuel with
      | O => Err (HpackFault NoFuel)
      | S fuel => '(buf, t, l, started) ← decode_field d first buf t l started; decode_block fuel d buf t l started
      end
  end.

Definition decode (d : Decoder) (block : list Z) (out : list Field) : res (Decoder * list Field * bool) :=
  '(t, l) ← decode_block (length block) d block (d_table d) (mk_listing 0 true out) false;
  Ok (mk_decoder t (allowed_table_size d) (max_list_size d), Hpack.out l, within l).

(** ** Encoding *)

Record FieldRef := mk_ref { r_name : list Z; r_value : list Z; sensitive : bool }.

Record Encoder := mk_encoder { e_table : DynamicTable; pending : option (Z * Z) }.

Definition new_encoder : Encoder := mk_encoder (new_table DEFAULT_TABLE_SIZE) None.

Definition set_peer_table_size (size : Z) (e : Encoder) : res Encoder :=
  let new := Z.min size DEFAULT_TABLE_SIZE in
  t ← set_max new (e_table e);
  Ok (mk_encoder t (Some match pending e with Some (smallest, _) => (Z.min smallest new, new) | None => (new, new) end)).

(** A loop of [find], from index [i] on: the index of the field if it is there,
    and the first one with its name ([named] if one was seen before). *)
Fixpoint scan_names (n v : list Z) (i : Z) (l : list (list Z * list Z)) (named : option Z) : option Z * option Z :=
  match l with
  | [] => (None, named)
  | (n', v') :: l =>
      if decide (n' = n) then
        if decide (v' = v) then (Some i, Some i)
        else scan_names n v (i + 1) l (match named with Some j => Some j | None => Some i end)
      else scan_names n v (i + 1) l named
  end.

Definition pair_of (f : Field) : list Z * list Z := (name f, value f).

Definition find (t : DynamicTable) (n v : list Z) : option Z * option Z :=
  match scan_names n v 1 STATIC None with
  | (Some i, named) => (Some i, named)
  | (None, named) => scan_names n v (len STATIC + 1) (map pair_of (entries t)) named
  end.

Definition encode_field (t : DynamicTable) (f : FieldRef) (out : list Z) : DynamicTable * list Z :=
  match find t (r_name f) (r_value f), sensitive f with
  | (Some index, _), false => (t, encode_int out 7 128 index)
  | (_, named), _ =>
      let size := len (r_name f) + len (r_value f) + ENTRY_OVERHEAD in
      let add := negb (sensitive f) && (size <=? max t / 2) in
      let '(prefix_bits, flags) := if sensitive f then (4, 16) else if add then (6, 64) else (4, 0) in
      let out := match named with
                 | Some index => encode_int out prefix_bits flags index
                 | None => encode_string (encode_int out prefix_bits flags 0) (r_name f)
                 end in
      let out := encode_string out (r_value f) in
      (if add then insert (mk_field (r_name f) (r_value f)) t else t, out)
  end.

Fixpoint encode_fields (t : DynamicTable) (fields : list FieldRef) (out : list Z) : DynamicTable * list Z :=
  match fields with
  | [] => (t, out)
  | f :: fields => let '(t, out) := encode_field t f out in encode_fields t fields out
  end.

Definition encode (e : Encoder) (fields : list FieldRef) (out : list Z) : res (Encoder * list Z) :=
  '(t, pending, out) ← match pending e with
                       | Some (smallest, last) =>
                           t ← set_max smallest (e_table e);
                           Ok (t, if last =? smallest then None else Some (last, last), encode_int out 5 32 smallest)
                       | None => Ok (e_table e, None, out)
                       end;
  let '(t, out) := encode_fields t fields out in
  Ok (mk_encoder t pending, out).

(** ** Integers come back *)

(** The prefixes of the encoder: how many bits, and the bits above them. *)
Definition prefixes : list (Z * Z) := [(7, 128); (7, 0); (6, 64); (5, 32); (4, 16); (4, 0)].

Definition mask (bits : Z) : Z := Z.shiftl 1 bits - 1.

Lemma masks_checked : forallb (fun p => (0 <? mask (fst p)) && (mask (fst p) <? 256)) prefixes = true.
Proof. by vm_compute. Qed.

Lemma mask_range bits flags : (bits, flags) ∈ prefixes -> 0 < mask bits < 256.
Proof. intros Hp%list_elem_of_In. assert (H := proj1 (forallb_forall _ _) masks_checked _ Hp). cbn [fst] in H. rewrite andb_true_iff, !Z.ltb_lt in H. done. Qed.

(** What the bits above the prefix say of a field. *)
Definition form_ok (bits flags first : Z) : bool :=
  (if flags =? 128 then negb (Z.land first 128 =? 0) else Z.land first 128 =? 0) &&
  (if bits =? 7 then true else if bits =? 6 then negb (Z.land first 64 =? 0) else (Z.land first 64 =? 0) && (if bits =? 5 then negb (Z.land first 32 =? 0) else Z.land first 32 =? 0)).

Lemma flags_checked :
  forallb (fun p => let '(bits, flags) := p in
    forallb (fun v => let v := Z.of_nat v in negb (v <=? mask bits) || ((Z.land (Z.lor flags v) (mask bits) =? v) && form_ok bits flags (Z.lor flags v) && (0 <=? Z.lor flags v) && (Z.lor flags v <? 256))) (seq 0 256)) prefixes = true.
Proof. by vm_compute. Qed.

Lemma prefix_first bits flags v : (bits, flags) ∈ prefixes -> 0 <= v <= mask bits ->
  Z.land (Z.lor flags v) (mask bits) = v /\ form_ok bits flags (Z.lor flags v) = true /\ byte (Z.lor flags v).
Proof.
  intros Hp%list_elem_of_In Hv. assert (H := proj1 (forallb_forall _ _) flags_checked _ Hp). cbn beta iota in H. assert (Hm := mask_range bits flags (proj2 (list_elem_of_In _ _) Hp)).
  assert (Hin : In (Z.to_nat v) (seq 0 256)) by (apply in_seq; lia). apply (proj1 (forallb_forall _ _) H) in Hin. cbn beta zeta in Hin. rewrite Z2Nat.id in Hin by lia. rewrite (proj2 (Z.leb_le v _)) in Hin by lia. cbn [negb orb] in Hin.
  rewrite !andb_true_iff, Z.eqb_eq, Z.leb_le, Z.ltb_lt in Hin. unfold byte. tauto.
Qed.

Lemma low_checked : forallb (fun x => let x := Z.of_nat x in (Z.land (Z.lor x 128) 127 =? x) && negb (Z.land (Z.lor x 128) 128 =? 0) && (Z.land x 127 =? x) && (Z.land x 128 =? 0) && (Z.lor x 128 =? x + 128)) (seq 0 128) = true.
Proof. by vm_compute. Qed.

Lemma low_bits x : 0 <= x < 128 -> Z.land (Z.lor x 128) 127 = x /\ (Z.land (Z.lor x 128) 128 =? 0) = false /\ Z.land x 127 = x /\ (Z.land x 128 =? 0) = true /\ Z.lor x 128 = x + 128.
Proof.
  intros Hx. assert (H := proj1 (forallb_forall _ _) low_checked (Z.to_nat x) ltac:(apply in_seq; lia)). cbn beta zeta in H. rewrite Z2Nat.id in H by lia. rewrite !andb_true_iff, negb_true_iff, !Z.eqb_eq in H. rewrite (Z.eqb_eq (Z.land x 128)). tauto.
Qed.

Lemma encode_more_out fuel out rest : encode_more fuel out rest = out ++ encode_more fuel [] rest.
Proof.
  revert out rest. induction fuel as [|fuel IH]; intros out rest; [by rewrite app_nil_r|]. cbn [encode_more]. destruct (128 <=? rest); [|done]. rewrite IH, (IH ([] ++ _)). by rewrite <- app_assoc.
Qed.

Lemma encode_int_out out bits flags v : encode_int out bits flags v = out ++ encode_int [] bits flags v.
Proof. unfold encode_int. cbv zeta. destruct (_ <? _); [done|]. rewrite encode_more_out, (encode_more_out _ ([] ++ _)). by rewrite <- app_assoc. Qed.

Lemma u64_shift value x shift : 0 <= value -> 0 <= x -> 0 <= shift -> value + x * 2 ^ shift <= U32_MAX -> u64 (value + u64 (Z.shiftl x shift)) = value + x * 2 ^ shift.
Proof.
  intros Hv Hx Hs Hu. assert (Hp := Z.pow_pos_nonneg 2 shift ltac:(lia) Hs). assert (Hn : 0 <= x * 2 ^ shift) by nia. unfold U32_MAX in Hu. rewrite Z.shiftl_mul_pow2 by done. rewrite (u64_small (x * _)), u64_small by (unfold U64_MAX; lia). done.
Qed.

(** The continuation bytes of the encoder, read from bit [shift] on. *)
Lemma more_back fuel : forall fuel' value shift rest tl, shift = 28 - 7 * Z.of_nat fuel -> 0 <= shift -> 0 <= value -> 0 <= rest < 128 ^ Z.of_nat (S fuel') -> value + rest * 2 ^ shift <= U32_MAX ->
  decode_more (S fuel) value shift (encode_more (S fuel') [] rest ++ tl) = Ok (value + rest * 2 ^ shift, tl).
Proof.
  induction fuel as [|fuel IH]; intros fuel' value shift rest tl Hs Hs0 Hv Hr Hu; cbn [encode_more]; assert (Hp := Z.pow_pos_nonneg 2 shift ltac:(lia) Hs0); destruct (Z.leb_spec 128 rest) as [Hge|Hlt].
  2, 4: destruct (low_bits rest ltac:(lia)) as (_ & _ & Hl & Hh & _); rewrite (Z.mod_small rest 256) by lia; cbn [decode_more app]; rewrite Hl, u64_shift by lia; cbv zeta; rewrite (proj2 (Z.ltb_ge _ _)) by done; by rewrite Hh.
  - exfalso. subst shift. change (2 ^ (28 - 7 * Z.of_nat 0)) with 268435456 in Hu. unfold U32_MAX in Hu. lia.
  - assert (Hd := Z.div_mod rest 128 ltac:(lia)). assert (Hm := Z.mod_pos_bound rest 128 ltac:(lia)). assert (H127 : Z.land rest 127 = rest mod 128) by (change 127 with (Z.ones 7); by rewrite Z.land_ones by lia).
    assert (Hq : Z.shiftr rest 7 = rest / 128) by (by rewrite Z.shiftr_div_pow2 by lia). rewrite H127, Hq, encode_more_out. destruct (low_bits (rest mod 128) Hm) as (Hl & Hh & _). assert (Hq0 : 0 <= rest / 128) by (apply Z.div_pos; lia). set (r := rest mod 128) in *. set (q := rest / 128) in *.
    assert (Hpow : 2 ^ (shift + 7) = 128 * 2 ^ shift) by (rewrite Z.pow_add_r by lia; change (2 ^ 7) with 128; lia). assert (Hqp : 0 <= q * 2 ^ shift) by (apply Z.mul_nonneg_nonneg; lia). assert (Hsum : value + r * 2 ^ shift + q * 2 ^ (shift + 7) = value + rest * 2 ^ shift) by (rewrite Hpow, Hd; ring). assert (Hpart : value + r * 2 ^ shift <= U32_MAX) by (rewrite Hpow in Hsum; lia).
    cbn [app]. remember (S fuel) as fuel1 eqn:Hf1. cbn [decode_more app]. rewrite Hl, u64_shift by lia. cbv zeta. rewrite (proj2 (Z.ltb_ge _ _)) by done. rewrite Hh, (proj2 (Z.ltb_ge _ _)) by lia. subst fuel1. destruct fuel' as [|fuel'].
    + change (128 ^ Z.of_nat 1) with 128 in Hr. lia.
    + rewrite IH, Hsum; [done|lia|lia| | |by rewrite Hsum]; [apply Z.add_nonneg_nonneg; [done|apply Z.mul_nonneg_nonneg; lia]|]. split; [done|]. subst q. apply Z.div_lt_upper_bound; [lia|]. rewrite Nat2Z.inj_succ, Z.pow_succ_r in Hr by lia. lia.
Qed.

(** [encode_int] and [decode_int] are inverse; the bits above the prefix are
    the flags. *)
Lemma int_back bits flags v : (bits, flags) ∈ prefixes -> 0 <= v <= U32_MAX ->
  exists first more, encode_int [] bits flags v = first :: more /\ form_ok bits flags first = true /\ forall rest, decode_int (first :: more ++ rest) bits = Ok (v, rest).
Proof.
  intros Hp Hv. assert (Hm := mask_range bits flags Hp). destruct (prefix_first bits flags (Z.min v (mask bits)) Hp ltac:(lia)) as (Hl & Hf & _). unfold encode_int, decode_int. cbv zeta. fold (mask bits). destruct (Z.ltb_spec v (mask bits)) as [Hlt|Hge].
  - rewrite Z.min_l in * by lia. rewrite (Z.mod_small v) by lia. exists (Z.lor flags v), []. split; [done|]. split; [done|]. intros rest. rewrite Hl, (proj2 (Z.ltb_lt _ _)) by done. done.
  - rewrite Z.min_r in * by lia. rewrite (Z.mod_small (mask bits)) by lia. rewrite encode_more_out. cbn [app]. eexists _, _. split; [done|]. split; [done|]. intros rest. rewrite Hl, Z.ltb_irrefl. unfold U32_MAX in Hv.
    rewrite (more_back 4 9); [f_equal; f_equal; change (2 ^ 0) with 1; lia|done|lia|lia|change (128 ^ Z.of_nat 10) with (2 ^ 70); change (2 ^ 70) with 1180591620717411303424; lia|change (2 ^ 0) with 1; unfold U32_MAX; lia].
Qed.

(** ** Strings come back *)

Definition is_bytes (s : list Z) : Prop := forall x, x ∈ s -> byte x.

Lemma encode_string_out out s : is_bytes s -> encode_string out s = out ++ encode_string [] s.
Proof.
  intros Hs. unfold encode_string. cbv zeta. destruct (_ <? _).
  - destruct (encode_appends s (encode_int out 7 128 (encoded_len s)) Hs) as (-> & _). destruct (encode_appends s (encode_int [] 7 128 (encoded_len s)) Hs) as (-> & _). rewrite encode_int_out. by rewrite <- app_assoc.
  - rewrite encode_int_out. by rewrite <- app_assoc.
Qed.

Lemma string_back s limit out rest : is_bytes s -> len s <= limit -> len s <= U32_MAX -> decode_string (encode_string [] s ++ rest) limit out = Ok (out ++ s, rest).
Proof.
  intros Hs Hl Hu. unfold encode_string. cbv zeta. destruct (encode_appends s (encode_int [] 7 128 (encoded_len s)) Hs) as (Happ & Hlen & _). assert (Hn := len_nonneg (Huffman.encode s [])). assert (Hn2 := len_nonneg s). destruct (Z.ltb_spec (encoded_len s) (len s)) as [Hlt|Hge].
  - destruct (int_back 7 128 (encoded_len s)) as (first & more & He & Hf & Hb); [by vm_compute; left|lia|]. rewrite Happ, He. cbn [app]. unfold form_ok in Hf. cbn in Hf. rewrite andb_true_r in Hf. unfold decode_string. rewrite Hf, <- app_assoc, Hb. cbn [mbind result_bind].
    rewrite (proj2 (Z.ltb_ge _ _)) by (rewrite len_app; assert (Hr := len_nonneg rest); lia). assert (Hz : Z.to_nat (encoded_len s) = length (Huffman.encode s [])) by (rewrite <- Hlen; unfold len; lia). rewrite Hz, take_app_length, drop_app_length, decode_encode by done. done.
  - destruct (int_back 7 0 (len s)) as (first & more & He & Hf & Hb); [by vm_compute; right; left|lia|]. rewrite He. cbn [app]. unfold form_ok in Hf. cbn in Hf. rewrite andb_true_r in Hf. unfold decode_string. rewrite Hf, <- app_assoc, Hb. cbn [mbind result_bind negb].
    rewrite (proj2 (Z.ltb_ge _ _)) by (rewrite len_app; assert (Hr := len_nonneg rest); lia). assert (Hz : Z.to_nat (len s) = length s) by (unfold len; lia). rewrite Hz, take_app_length, drop_app_length, (proj2 (Z.ltb_ge _ _)) by done. done.
Qed.

(** ** The table *)

(** What the table keeps when its entries have [room]: the newest, as many as
    fit. *)
Fixpoint keep (room : Z) (l : list Field) : list Field :=
  match l with [] => [] | f :: l => if field_size f <=? room then f :: keep (room - field_size f) l else [] end.

Definition table_ok (t : DynamicTable) : Prop := size t = total field_size (entries t) /\ size t <= max t.

Lemma field_size_pos f : 32 <= field_size f.
Proof. unfold field_size, ENTRY_OVERHEAD. assert (H := len_nonneg (name f)). assert (H2 := len_nonneg (value f)). lia. Qed.

Lemma total_size_nonneg l : 0 <= total field_size l.
Proof. unfold total. induction l as [|f l IH]; cbn [foldr]; [lia|]. assert (H := field_size_pos f). lia. Qed.

Lemma total_cons f l : total field_size (f :: l) = field_size f + total field_size l.
Proof. done. Qed.

Lemma keep_all room l : total field_size l <= room -> keep room l = l.
Proof.
  revert room. induction l as [|f l IH]; intros room H; [done|]. rewrite total_cons in H. assert (Hn := total_size_nonneg l). cbn [keep]. rewrite (proj2 (Z.leb_le _ _)), IH by lia. done.
Qed.

Lemma keep_drop room l f : room < total field_size (l ++ [f]) -> keep room (l ++ [f]) = keep room l.
Proof.
  revert room. induction l as [|g l IH]; intros room H; cbn [app keep].
  - cbn [app] in H. rewrite total_cons in H. change (total field_size []) with 0 in H. rewrite (proj2 (Z.leb_gt _ _)) by lia. done.
  - cbn [app] in H. rewrite total_cons in H. destruct (_ <=? _); [|done]. rewrite IH by lia. done.
Qed.

Lemma keep_total room l : 0 <= room -> total field_size (keep room l) <= room.
Proof.
  revert room. induction l as [|f l IH]; intros room H; [done|]. cbn [keep]. destruct (Z.leb_spec (field_size f) room); [|done]. rewrite total_cons. specialize (IH (room - field_size f) ltac:(lia)). lia.
Qed.

Lemma keep_neg room l : room <= 0 -> keep room l = [].
Proof. destruct l as [|f l]; intros H; [done|]. cbn [keep]. assert (Hf := field_size_pos f). by rewrite (proj2 (Z.leb_gt _ _)) by lia. Qed.

Lemma keep_prefix room l : keep room l `prefix_of` l.
Proof. revert room. induction l as [|f l IH]; intros room; [done|]. cbn [keep]. destruct (_ <=? _); [apply prefix_cons, IH|apply prefix_nil]. Qed.

Lemma keep_mono r1 r2 l1 l2 : r1 <= r2 -> l1 `prefix_of` l2 -> keep r1 l1 `prefix_of` keep r2 l2.
Proof.
  revert r1 r2 l2. induction l1 as [|f l1 IH]; intros r1 r2 l2 Hr Hl; [apply prefix_nil|]. destruct l2 as [|g l2]; [by apply prefix_nil_not in Hl|]. assert (f = g) as <- by (by eapply prefix_cons_inv_1). apply prefix_cons_inv_2 in Hl. cbn [keep].
  destruct (Z.leb_spec (field_size f) r1); [|apply prefix_nil]. rewrite (proj2 (Z.leb_le _ r2)) by lia. apply prefix_cons, IH; [lia|done].
Qed.

Lemma make_room_keep n m l : make_room n m (rev l) (total field_size l) = (rev (keep (m - n) l), total field_size (keep (m - n) l), 0 <=? m - n).
Proof.
  induction l as [|f l IH] using rev_ind.
  { cbn [rev make_room keep]. change (total field_size []) with 0. destruct (Z.ltb_spec m (0 + n)), (Z.leb_spec 0 (m - n)); (done || lia). }
  rewrite rev_app_distr. cbn [rev app make_room]. destruct (Z.ltb_spec m (total field_size (l ++ [f]) + n)) as [Hlt|Hge].
  - rewrite keep_drop by lia. replace (total field_size (l ++ [f]) - field_size f) with (total field_size l) by (rewrite total_app; cbn; lia). apply IH.
  - rewrite keep_all by lia. rewrite rev_app_distr. assert (Hn := total_size_nonneg (l ++ [f])). rewrite (proj2 (Z.leb_le 0 _)) by lia. done.
Qed.

Lemma pop_oldest_keep m l : 0 <= m -> pop_oldest m (rev l) (total field_size l) = Ok (rev (keep m l), total field_size (keep m l)).
Proof.
  intros Hm. induction l as [|f l IH] using rev_ind.
  { cbn [rev pop_oldest keep]. change (total field_size []) with 0. by rewrite (proj2 (Z.ltb_ge m 0)). }
  rewrite rev_app_distr. cbn [rev app pop_oldest]. destruct (Z.ltb_spec m (total field_size (l ++ [f]))) as [Hlt|Hge].
  - rewrite keep_drop by lia. replace (total field_size (l ++ [f]) - field_size f) with (total field_size l) by (rewrite total_app; cbn; lia). apply IH.
  - rewrite keep_all by lia. by rewrite rev_app_distr.
Qed.

(** Insertion keeps the newest entries that fit beside the new one; an entry
    larger than the table empties it. *)
Lemma insert_keeps f t : table_ok t -> table_ok (insert f t) /\ max (insert f t) = max t /\ entries (insert f t) = if field_size f <=? max t then f :: keep (max t - field_size f) (entries t) else [].
Proof.
  intros (Hs & Hm). unfold insert. rewrite Hs, make_room_keep. assert (Ht := total_size_nonneg (entries t)). destruct (Z.leb_spec 0 (max t - field_size f)) as [Hle|Hgt]; unfold table_ok; cbn [size entries max]; rewrite rev_involutive.
  - rewrite (proj2 (Z.leb_le (field_size f) _)) by lia. split; [|done]. rewrite total_cons. assert (Hk := keep_total _ (entries t) Hle). lia.
  - rewrite (proj2 (Z.leb_gt (field_size f) _)) by lia. rewrite keep_neg by lia. change (total field_size []) with 0. split; [split; [done|lia]|done].
Qed.

Lemma set_max_keeps m t : table_ok t -> 0 <= m -> exists t', set_max m t = Ok t' /\ table_ok t' /\ max t' = m /\ entries t' = keep m (entries t).
Proof.
  intros (Hs & _) Hm. unfold set_max. rewrite Hs, pop_oldest_keep by done. cbn [mbind result_bind]. eexists. split; [done|]. unfold table_ok. cbn [size entries max]. rewrite rev_involutive. split; [split; [done|by apply keep_total]|done].
Qed.

(** ** Looking a field up *)

Lemma scan_names_found n v l : forall i named full nm, scan_names n v i l named = (full, nm) ->
  (forall j, full = Some j -> i <= j < i + len l /\ l !! Z.to_nat (j - i) = Some (n, v)) /\
  (forall j, nm = Some j -> named = Some j \/ (i <= j < i + len l /\ exists v', l !! Z.to_nat (j - i) = Some (n, v'))).
Proof.
  induction l as [|[n' v'] l IH]; intros i named full nm H.
  { injection H as <- <-. split; [done|auto]. }
  assert (Hlen : len ((n', v') :: l) = 1 + len l) by (unfold len; cbn [length]; lia). assert (Hl0 := len_nonneg l). rewrite Hlen. cbn [scan_names] in H.
  assert (Hthere : i <= i < i + (1 + len l) /\ ((n', v') :: l) !! Z.to_nat (i - i) = Some (n', v')) by (rewrite Z.sub_diag; split; [lia|done]).
  assert (Hstep : forall j w, i + 1 <= j < i + 1 + len l /\ l !! Z.to_nat (j - (i + 1)) = Some w -> i <= j < i + (1 + len l) /\ ((n', v') :: l) !! Z.to_nat (j - i) = Some w).
  { intros j w (Hj & Hw). split; [lia|]. replace (Z.to_nat (j - i)) with (S (Z.to_nat (j - (i + 1)))) by lia. done. }
  destruct (decide (n' = n)) as [->|]; [destruct (decide (v' = v)) as [->|]|].
  - injection H as <- <-. split; intros j [= <-]; [done|]. right. split; [apply Hthere|]. exists v. apply Hthere.
  - destruct (IH _ _ _ _ H) as (H1 & H2). split; [intros j Hj; apply Hstep; by apply H1|]. intros j Hj. destruct (H2 j Hj) as [Hn|(Hr & w & Hw)].
    + destruct named as [k|]; [by left|]. injection Hn as <-. right. split; [apply Hthere|]. exists v'. apply Hthere.
    + right. destruct (Hstep j (n, w) (conj Hr Hw)) as (Ha & Hb). split; [done|]. by exists w.
  - destruct (IH _ _ _ _ H) as (H1 & H2). split; [intros j Hj; apply Hstep; by apply H1|]. intros j Hj. destruct (H2 j Hj) as [Hn|(Hr & w & Hw)]; [by left|]. right. destruct (Hstep j (n, w) (conj Hr Hw)) as (Ha & Hb). split; [done|]. by exists w.
Qed.

Lemma len_map {A B} (f : A -> B) l : len (map f l) = len l.
Proof. unfold len. by rewrite length_map. Qed.

Lemma get_static i t n v : 1 <= i < 1 + len STATIC -> STATIC !! Z.to_nat (i - 1) = Some (n, v) -> get i t = Some (n, v).
Proof. intros Hi H. unfold get. rewrite (proj2 (Z.eqb_neq i 0)), (proj2 (Z.leb_le i _)) by lia. done. Qed.

Lemma get_dynamic i t n v : len STATIC + 1 <= i -> map pair_of (entries t) !! Z.to_nat (i - (len STATIC + 1)) = Some (n, v) -> get i t = Some (n, v).
Proof.
  intros Hi H. assert (Hs := len_nonneg STATIC). unfold get. rewrite (proj2 (Z.eqb_neq i 0)), (proj2 (Z.leb_gt i _)) by lia. replace (i - len STATIC - 1) with (i - (len STATIC + 1)) by lia. apply list_lookup_fmap_Some in H as (f & Hp & Hf). rewrite Hf. cbn [mbind option_bind]. by injection Hp as -> ->.
Qed.

(** The indexes [find] gives are in the tables, and are of the field. *)
Lemma find_found t n v full named : find t n v = (full, named) ->
  (forall i, full = Some i -> 1 <= i <= len STATIC + len (entries t) /\ get i t = Some (n, v)) /\
  (forall i, named = Some i -> 1 <= i <= len STATIC + len (entries t) /\ exists v', get i t = Some (n, v')).
Proof.
  unfold find. assert (He := len_nonneg (entries t)). assert (Hs := len_nonneg STATIC). destruct (scan_names n v 1 STATIC None) as [f1 n1] eqn:H1. destruct (scan_names_found _ _ _ _ _ _ _ H1) as (Hf1 & Hn1).
  assert (Hname : forall i, n1 = Some i -> 1 <= i <= len STATIC + len (entries t) /\ exists v', get i t = Some (n, v')).
  { intros i Hi. destruct (Hn1 i Hi) as [?|(Hr & v' & Hv)]; [done|]. split; [lia|]. exists v'. by apply get_static. }
  destruct f1 as [i1|]; intros H.
  - injection H as <- <-. split; [|done]. intros i [= <-]. destruct (Hf1 i1 eq_refl) as (Hr & Hl). split; [lia|]. by apply get_static.
  - destruct (scan_names_found _ _ _ _ _ _ _ H) as (Hf2 & Hn2). rewrite len_map in *. split.
    + intros i Hi. destruct (Hf2 i Hi) as (Hr & Hl). split; [lia|]. apply get_dynamic; [lia|done].
    + intros i Hi. destruct (Hn2 i Hi) as [?|(Hr & v' & Hv)]; [by apply Hname|]. split; [lia|]. exists v'. apply get_dynamic; [lia|done].
Qed.

(** ** Two tables in step *)

(** What the encoder's table has, the decoder's has at the same index. *)
Definition in_step (e d : DynamicTable) : Prop := table_ok e /\ table_ok d /\ entries e `prefix_of` entries d /\ max e <= max d /\ max e <= DEFAULT_TABLE_SIZE.

Lemma get_in_step e d i x : entries e `prefix_of` entries d -> get i e = Some x -> get i d = Some x.
Proof.
  intros Hp. unfold get. destruct (i =? 0); [done|]. destruct (i <=? len STATIC); [done|]. destruct (entries e !! Z.to_nat (i - len STATIC - 1)) as [f|] eqn:Hf; [|done]. by rewrite (prefix_lookup_Some _ _ _ _ Hf Hp).
Qed.

Lemma entry_sizes l : 32 * len l <= total field_size l.
Proof. induction l as [|f l IH]; [by vm_compute|]. rewrite total_cons. assert (Hf := field_size_pos f). unfold len in *. cbn [length]. lia. Qed.

Lemma few_entries t : table_ok t -> 32 * len (entries t) <= max t.
Proof. intros (Hs & Hm). assert (H := entry_sizes (entries t)). lia. Qed.

Lemma insert_in_step e d f : in_step e d -> field_size f <= max e -> in_step (insert f e) (insert f d).
Proof.
  intros (He & Hd & Hp & Hm & Hdef) Hf. destruct (insert_keeps f e He) as (He' & Hme & Hee). destruct (insert_keeps f d Hd) as (Hd' & Hmd & Hed). split; [done|]. split; [done|]. rewrite Hme, Hmd, Hee, Hed, !(proj2 (Z.leb_le _ _)) by lia. split; [|done]. apply prefix_cons, keep_mono; [lia|done].
Qed.

(** ** Fields come back *)

Definition field_of (r : FieldRef) : Field := mk_field (r_name r) (r_value r).

Definition ref_ok (limit : Z) (r : FieldRef) : Prop := is_bytes (r_name r) /\ is_bytes (r_value r) /\ field_size (field_of r) <= limit.

(** What [encode_field] writes for a literal. *)
Definition literal_bytes (named : option Z) (bits flags : Z) (n v : list Z) : list Z :=
  encode_string (match named with Some i => encode_int [] bits flags i | None => encode_string (encode_int [] bits flags 0) n end) v.

Lemma literal_back t named bits flags n v limit : (bits, flags) ∈ prefixes -> is_bytes n -> is_bytes v -> len n <= limit -> len v <= limit -> len n <= U32_MAX -> len v <= U32_MAX ->
  (forall i, named = Some i -> 1 <= i <= U32_MAX /\ exists v', get i t = Some (n, v')) ->
  exists first more, literal_bytes named bits flags n v = first :: more /\ form_ok bits flags first = true /\ forall rest, literal t (first :: more ++ rest) bits limit = Ok (mk_field n v, rest).
Proof.
  intros Hp Hn Hv Hln Hlv Hun Huv Hnamed. unfold literal_bytes. rewrite encode_string_out by done. destruct named as [i|].
  - destruct (Hnamed i eq_refl) as (Hi & v' & Hg). destruct (int_back bits flags i Hp ltac:(lia)) as (first & more & -> & Hf & Hb). eexists _, _. cbn [app]. split; [done|]. split; [done|]. intros rest. unfold literal.
    rewrite <- app_assoc, Hb. cbn [mbind result_bind]. rewrite (proj2 (Z.eqb_neq i 0)) by lia. rewrite Hg. cbn [mbind result_bind]. by rewrite string_back.
  - destruct (int_back bits flags 0 Hp ltac:(unfold U32_MAX; lia)) as (first & more & -> & Hf & Hb). rewrite encode_string_out by done. eexists _, _. cbn [app]. split; [done|]. split; [done|]. intros rest. unfold literal.
    rewrite <- !app_assoc, Hb. cbn [mbind result_bind Z.eqb]. rewrite string_back by done. cbn [mbind result_bind app]. by rewrite string_back.
Qed.

Lemma literal_bytes_out out named bits flags n v : is_bytes n -> is_bytes v ->
  encode_string match named with Some index => encode_int out bits flags index | None => encode_string (encode_int out bits flags 0) n end v = out ++ literal_bytes named bits flags n v.
Proof.
  intros Hn Hv. unfold literal_bytes. destruct named as [i|].
  - rewrite (encode_string_out (encode_int out bits flags i)), (encode_string_out (encode_int [] bits flags i)), (encode_int_out out), <- app_assoc by exact Hv. reflexivity.
  - rewrite (encode_string_out (encode_int out bits flags 0)), (encode_string_out (encode_int [] bits flags 0)) by exact Hn.
    rewrite (encode_string_out (encode_int out bits flags 0 ++ _)), (encode_string_out (encode_int [] bits flags 0 ++ _)), (encode_int_out out), <- !app_assoc by exact Hv. reflexivity.
Qed.

Lemma encode_field_out t f out : is_bytes (r_name f) -> is_bytes (r_value f) -> encode_field t f out = (fst (encode_field t f []), out ++ snd (encode_field t f [])).
Proof.
  intros Hn Hv. unfold encode_field. destruct (find t (r_name f) (r_value f)) as [full named]. cbv zeta.
  assert (Hlit := fun out bits flags => literal_bytes_out out named bits flags _ _ Hn Hv). destruct full as [i|]; destruct (sensitive f); cbn [negb andb]; try destruct (_ <=? _); rewrite ?Hlit; cbn [fst snd app]; try reflexivity. by rewrite encode_int_out.
Qed.

Lemma prefix_elem (l k : list Field) g : l `prefix_of` k -> g ∈ l -> g ∈ k.
Proof. intros [r ->] Hg. apply elem_of_app. by left. Qed.

(** What is in the second table was in the first, or was sent for all to keep. *)
Definition grows_by (fs : list FieldRef) (t t' : DynamicTable) : Prop :=
  forall g, g ∈ entries t' -> g ∈ entries t \/ exists f, f ∈ fs /\ sensitive f = false /\ g = field_of f.

Lemma grows_refl fs t : grows_by fs t t.
Proof. intros g Hg. by left. Qed.

Lemma grows_insert f t : table_ok t -> sensitive f = false -> grows_by [f] t (insert (field_of f) t).
Proof.
  intros Ht Hs g. destruct (insert_keeps (field_of f) t Ht) as (_ & _ & ->). destruct (_ <=? _); [|intros Hg; by apply not_elem_of_nil in Hg]. intros [->|Hg]%elem_of_cons; [right; exists f; split; [by apply list_elem_of_singleton|done]|]. left. eapply prefix_elem; [apply keep_prefix|exact Hg].
Qed.

Lemma grows_trans fs gs t1 t2 t3 : grows_by fs t1 t2 -> grows_by gs t2 t3 -> grows_by (fs ++ gs) t1 t3.
Proof.
  intros H1 H2 g Hg. destruct (H2 g Hg) as [Hg2|(f & Hf & Hr)]; [destruct (H1 g Hg2) as [|(f & Hf & Hr)]; [by left|]|]; right; exists f; (split; [apply elem_of_app; auto|done]).
Qed.

(** The three forms of a field, told apart by their first byte. *)
Lemma decode_indexed D first buf t l started i rest x : form_ok 7 128 first = true -> decode_int buf 7 = Ok (i, rest) -> get i t = Some x ->
  decode_field D first buf t l started = Ok (rest, t, add_field (max_list_size D) (mk_field (fst x) (snd x)) l, true).
Proof.
  unfold form_ok. cbn. rewrite andb_true_r. intros Hf Hi Hg. unfold decode_field. rewrite Hf, Hi. cbn [mbind result_bind]. rewrite Hg. by destruct x.
Qed.

Lemma decode_added D first buf t l started f rest : form_ok 6 64 first = true -> literal t buf 6 (Z.max (max_list_size D) (allowed_table_size D)) = Ok (f, rest) ->
  decode_field D first buf t l started = Ok (rest, insert f t, add_field (max_list_size D) f l, true).
Proof.
  unfold form_ok. cbn [Z.eqb Pos.eqb]. rewrite andb_true_iff. intros (H1 & H2) Hl. unfold decode_field. rewrite H1, H2, Hl. reflexivity.
Qed.

Lemma decode_plain D first buf t l started flags f rest : form_ok 4 flags first = true -> flags <> 128 -> literal t buf 4 (Z.max (max_list_size D) (allowed_table_size D)) = Ok (f, rest) ->
  decode_field D first buf t l started = Ok (rest, t, add_field (max_list_size D) f l, true).
Proof.
  unfold form_ok. intros Hf Hne Hl. rewrite (proj2 (Z.eqb_neq _ _) Hne) in Hf. cbn [Z.eqb Pos.eqb] in Hf. rewrite !andb_true_iff in Hf. destruct Hf as (H1 & H2 & H3). unfold decode_field. rewrite H1, H2, H3, Hl. reflexivity.
Qed.

(** The decoder reads one field the encoder wrote, the tables stay in step, and
    a sensitive field is written as a literal that is never indexed. *)
Lemma field_back D e d f : in_step e d -> ref_ok (max_list_size D) f -> max_list_size D <= U32_MAX ->
  exists d' first more, snd (encode_field e f []) = first :: more /\ in_step (fst (encode_field e f [])) d' /\ max (fst (encode_field e f [])) = max e /\ grows_by [f] d d' /\
    (sensitive f = true -> fst (encode_field e f []) = e /\ form_ok 4 16 first = true) /\
    forall rest l started, decode_field D first (first :: more ++ rest) d l started = Ok (rest, d', add_field (max_list_size D) (field_of f) l, true).
Proof.
  intros Hin (Hn & Hv & Hsz) Hu. assert (Hin2 := Hin). destruct Hin2 as (He & Hd & Hpre & Hmax & Hdef). destruct (find e (r_name f) (r_value f)) as [full named] eqn:Hfind. destruct (find_found e _ _ _ _ Hfind) as (Hfull & Hnamed).
  assert (Hfew := few_entries e He). assert (Hidx : forall i, 1 <= i <= len STATIC + len (entries e) -> 1 <= i <= U32_MAX) by (intros i; change (len STATIC) with 61; unfold DEFAULT_TABLE_SIZE in Hdef; unfold U32_MAX; lia).
  assert (Hsz2 := Hsz). unfold field_size, field_of, ENTRY_OVERHEAD in Hsz2. cbn [name value] in Hsz2. assert (Hln := len_nonneg (r_name f)). assert (Hlv := len_nonneg (r_value f)).
  assert (Hback : forall bits flags, (bits, flags) ∈ prefixes -> exists first more, literal_bytes named bits flags (r_name f) (r_value f) = first :: more /\ form_ok bits flags first = true /\ forall rest, literal d (first :: more ++ rest) bits (Z.max (max_list_size D) (allowed_table_size D)) = Ok (field_of f, rest)).
  { intros bits flags Hp. apply literal_back; [exact Hp|exact Hn|exact Hv|lia|lia|lia|lia|]. intros i Hi. destruct (Hnamed i Hi) as (Hr & v' & Hg). split; [by apply Hidx|]. exists v'. by apply (get_in_step e). }
  assert (Hplain : forall flags, (4, flags) ∈ prefixes -> flags <> 128 -> exists first more, literal_bytes named 4 flags (r_name f) (r_value f) = first :: more /\ form_ok 4 flags first = true /\ forall rest l started, decode_field D first (first :: more ++ rest) d l started = Ok (rest, d, add_field (max_list_size D) (field_of f) l, true)).
  { intros flags Hp H128. destruct (Hback 4 flags Hp) as (first & more & Hb & Hf & Hdec). exists first, more. split; [exact Hb|]. split; [exact Hf|]. intros rest l started. by apply decode_plain with flags. }
  assert (H416 : (4, 16) ∈ prefixes) by (by repeat constructor). assert (H40 : (4, 0) ∈ prefixes) by (by repeat constructor). assert (H664 : (6, 64) ∈ prefixes) by (by repeat constructor).
  unfold encode_field. rewrite Hfind. cbv zeta. destruct (sensitive f) eqn:Hs.
  { destruct (Hplain 16 H416 ltac:(lia)) as (first & more & Hb & Hf & Hdec). exists d, first, more. destruct full; cbn [negb andb fst snd]; unfold literal_bytes in Hb; rewrite Hb; (split; [done|split; [done|split; [done|split; [apply grows_refl|split; [done|exact Hdec]]]]]). }
  destruct full as [i|].
  { destruct (Hfull i eq_refl) as (Hr & Hg). destruct (int_back 7 128 i) as (first & more & Hb & Hf & Hdec); [by repeat constructor|assert (Hi := Hidx i Hr); lia|]. exists d, first, more. cbn [fst snd]. rewrite Hb. split; [done|]. split; [exact Hin|]. split; [done|]. split; [apply grows_refl|]. split; [done|].
    intros rest l started. apply (decode_indexed D first _ d l started i rest (r_name f, r_value f) Hf (Hdec rest)). by apply (get_in_step e). }
  cbn [negb andb]. fold (field_size (field_of f)). destruct (Z.leb_spec (len (r_name f) + len (r_value f) + ENTRY_OVERHEAD) (max e / 2)) as [Hle|Hgt]; cbn [fst snd].
  - destruct (Hback 6 64 H664) as (first & more & Hb & Hf & Hdec). exists (insert (field_of f) d), first, more. unfold literal_bytes in Hb. rewrite Hb. destruct (insert_keeps (field_of f) e He) as (_ & Hme & _). assert (Hhalf : max e / 2 <= max e) by (apply Z.div_le_upper_bound; destruct He as (Hs1 & Hs2); assert (Hn0 := total_size_nonneg (entries e)); lia).
    split; [done|]. split; [apply insert_in_step; [exact Hin|]; unfold field_size; cbn [field_of name value]; lia|]. split; [exact Hme|]. split; [by apply grows_insert|]. split; [done|]. intros rest l started. by apply decode_added.
  - destruct (Hplain 0 H40 ltac:(lia)) as (first & more & Hb & Hf & Hdec). exists d, first, more. unfold literal_bytes in Hb. rewrite Hb. split; [done|]. split; [exact Hin|]. split; [done|]. split; [apply grows_refl|]. split; [done|exact Hdec].
Qed.

(** ** Blocks come back *)

Lemma add_field_fits m f l : list_size l + field_size f <= m -> m <= U32_MAX -> add_field m f l = mk_listing (list_size l + field_size f) (within l) (out l ++ [f]).
Proof. intros H Hm. unfold add_field. cbv zeta. rewrite Z.min_r by (unfold U32_MAX in Hm; unfold U64_MAX; lia). by rewrite (proj2 (Z.ltb_ge _ _)) by lia. Qed.

Lemma encode_fields_out fs : forall t out, Forall (fun f => is_bytes (r_name f) /\ is_bytes (r_value f)) fs -> encode_fields t fs out = (fst (encode_fields t fs []), out ++ snd (encode_fields t fs [])).
Proof.
  induction fs as [|f fs IH]; intros t out Hb; [cbn [encode_fields fst snd]; by rewrite app_nil_r|]. apply Forall_cons in Hb as ((Hn & Hv) & Hb). cbn [encode_fields]. rewrite (encode_field_out t f out Hn Hv). destruct (encode_field t f []) as [t1 o1]. cbn [fst snd]. rewrite (IH t1 (out ++ o1) Hb), (IH t1 o1 Hb). cbn [fst snd]. by rewrite <- app_assoc.
Qed.

Lemma refs_bytes limit fs : Forall (ref_ok limit) fs -> Forall (fun f => is_bytes (r_name f) /\ is_bytes (r_value f)) fs.
Proof. intros H. eapply Forall_impl; [exact H|]. intros f (Hn & Hv & _). done. Qed.

Lemma fields_back D fs : forall e d l started, in_step e d -> Forall (ref_ok (max_list_size D)) fs -> max_list_size D <= U32_MAX -> 0 <= list_size l -> list_size l + total field_size (map field_of fs) <= max_list_size D ->
  exists d', in_step (fst (encode_fields e fs [])) d' /\ max (fst (encode_fields e fs [])) = max e /\ grows_by fs d d' /\
    forall fuel, (length (snd (encode_fields e fs [])) <= fuel)%nat -> decode_block fuel D (snd (encode_fields e fs [])) d l started = Ok (d', mk_listing (list_size l + total field_size (map field_of fs)) (within l) (out l ++ map field_of fs)).
Proof.
  induction fs as [|f fs IH]; intros e d l started Hin Hok Hu Hl0 Hl.
  { cbn [encode_fields fst snd map] in *. exists d. split; [exact Hin|]. split; [done|]. split; [apply grows_refl|]. intros fuel _. rewrite app_nil_r. change (total field_size []) with 0. rewrite Z.add_0_r. destruct fuel, l; reflexivity. }
  assert (Hb := refs_bytes _ _ Hok). apply Forall_cons in Hok as (Hf & Hok). apply Forall_cons in Hb as (_ & Hb). cbn [map] in Hl |- *. rewrite total_cons in *. assert (Hn := total_size_nonneg (map field_of fs)). assert (Hp := field_size_pos (field_of f)).
  destruct (field_back D e d f Hin Hf Hu) as (d1 & first & more & Ho & Hin1 & Hm1 & Hg1 & _ & Hdec). cbn [encode_fields]. destruct (encode_field e f []) as [e1 o1]. cbn [fst snd] in Ho, Hin1, Hm1. subst o1. rewrite (encode_fields_out fs e1 (first :: more) Hb). cbn [fst snd].
  destruct (IH e1 d1 (mk_listing (list_size l + field_size (field_of f)) (within l) (out l ++ [field_of f])) true Hin1 Hok Hu) as (d' & Hin' & Hm' & Hg' & Hrun); [cbn [list_size]; lia|cbn [list_size]; lia|]. cbn [list_size within out] in Hrun.
  exists d'. split; [exact Hin'|]. split; [by rewrite Hm'|]. split; [exact (grows_trans [f] fs _ _ _ Hg1 Hg')|]. intros fuel Hfuel. cbn [app length] in *. rewrite length_app in Hfuel. destruct fuel as [|fuel]; [lia|]. cbn [decode_block]. rewrite Hdec, add_field_fits by lia. cbn [mbind result_bind]. rewrite Hrun by lia. rewrite <- app_assoc. cbn [app]. by rewrite Z.add_assoc.
Qed.

(** The two ends of a connection between blocks.  Sizes that were announced are
    written with the next block: until then the encoder's table already fits the
    smallest. *)
Definition synced (e : Encoder) (D : Decoder) : Prop :=
  table_ok (e_table e) /\ table_ok (d_table D) /\ entries (e_table e) `prefix_of` entries (d_table D) /\ max (e_table e) <= DEFAULT_TABLE_SIZE /\
  match pending e with
  | None => max (e_table e) <= max (d_table D)
  | Some (smallest, last) => 0 <= smallest <= last /\ last <= DEFAULT_TABLE_SIZE /\ total field_size (entries (e_table e)) <= smallest
  end.

Lemma synced_new allowed limit : DEFAULT_TABLE_SIZE <= allowed -> synced new_encoder (new_decoder allowed limit).
Proof.
  intros Ha. unfold DEFAULT_TABLE_SIZE in *. unfold synced, table_ok. cbn [new_encoder new_decoder e_table d_table pending new_table entries size max]. unfold DEFAULT_TABLE_SIZE. change (total field_size []) with 0. repeat split; (done || lia).
Qed.

Lemma synced_announce e D n : synced e D -> 0 <= n -> exists e', set_peer_table_size n e = Ok e' /\ synced e' D.
Proof.
  intros (He & Hd & Hp & Hm & Hpend) Hn. unfold set_peer_table_size. cbv zeta. set (new := Z.min n DEFAULT_TABLE_SIZE). assert (Hnew : 0 <= new <= DEFAULT_TABLE_SIZE) by (subst new; unfold DEFAULT_TABLE_SIZE; lia).
  destruct (set_max_keeps new (e_table e) He ltac:(lia)) as (t & -> & Ht & Hmt & Het). cbn [mbind result_bind]. eexists. split; [reflexivity|]. unfold synced. cbn [e_table pending]. assert (Hk := keep_prefix new (entries (e_table e))). rewrite <- Het in Hk.
  split; [exact Ht|]. split; [exact Hd|]. split; [by transitivity (entries (e_table e))|]. split; [lia|]. assert (Hsz : total field_size (entries t) <= new) by (destruct Ht; lia). destruct (pending e) as [[s l]|]; [|lia]. destruct Hpend as (Hs & Hl & Ht0).
  assert (Hle : total field_size (entries t) <= total field_size (entries (e_table e))) by (destruct Hk as [k ->]; rewrite total_app; assert (Hk := total_size_nonneg k); lia). lia.
Qed.

(** The block that opens with a size. *)
Lemma size_update_back D s t l rest : 0 <= s <= U32_MAX -> s <= allowed_table_size D ->
  exists first more, encode_int [] 5 32 s = first :: more /\ decode_field D first (first :: more ++ rest) t l false = (t ← set_max s t; Ok (rest, t, l, false)).
Proof.
  intros Hs Ha. destruct (int_back 5 32 s) as (first & more & He & Hf & Hb); [by repeat constructor|done|]. exists first, more. split; [exact He|]. unfold form_ok in Hf. cbn [Z.eqb Pos.eqb] in Hf. rewrite !andb_true_iff in Hf. destruct Hf as (H1 & H2 & H3).
  unfold decode_field. rewrite H1, H2, H3, Hb. cbn [negb mbind result_bind]. by rewrite (proj2 (Z.ltb_ge _ _)).
Qed.

(** A list of fields that the limits of a decoder let through. *)
Definition list_ok (limit : Z) (fs : list FieldRef) : Prop := Forall (fun f => is_bytes (r_name f) /\ is_bytes (r_value f)) fs /\ total field_size (map field_of fs) <= limit.

Lemma list_ok_refs limit fs : list_ok limit fs -> Forall (ref_ok limit) fs.
Proof.
  intros (Hb & Hl). revert limit Hl. induction Hb as [|f fs (Hn & Hv) Hb IH]; intros limit Hl; [constructor|]. cbn [map] in Hl. rewrite total_cons in Hl. assert (Hn0 := total_size_nonneg (map field_of fs)). assert (Hp := field_size_pos (field_of f)). constructor; [split; [done|split; [done|lia]]|apply IH; lia].
Qed.

Lemma block_back e D fs : synced e D -> DEFAULT_TABLE_SIZE <= allowed_table_size D -> max_list_size D <= U32_MAX -> list_ok (max_list_size D) fs ->
  exists e' block D', encode e fs [] = Ok (e', block) /\ decode D block [] = Ok (D', map field_of fs, true) /\ synced e' D' /\ grows_by fs (d_table D) (d_table D') /\ allowed_table_size D' = allowed_table_size D /\ max_list_size D' = max_list_size D.
Proof.
  intros (He & Hd & Hp & Hm & Hpend) Ha Hu Hok. assert (Hrefs := list_ok_refs _ _ Hok). destruct Hok as (Hbytes & Htot). unfold encode, decode. destruct (pending e) as [[s l]|].
  - destruct Hpend as (Hs & Hl & Hfit). destruct (set_max_keeps s (e_table e) He ltac:(lia)) as (t & -> & Ht & Hmt & Het). rewrite keep_all in Het by done. cbn [mbind result_bind]. destruct (set_max_keeps s (d_table D) Hd ltac:(lia)) as (d & Hsd & Hdt & Hmd & Hed).
    assert (Hin : in_step t d). { split; [done|]. split; [done|]. rewrite Het, Hed, Hmt, Hmd. split; [rewrite <- (keep_all s (entries (e_table e))) by done; by apply keep_mono|lia]. }
    destruct (fields_back D fs t d (mk_listing 0 true []) false Hin Hrefs Hu) as (d' & Hin' & Hm' & Hg & Hrun); [done|done|]. rewrite (encode_fields_out fs t (encode_int [] 5 32 s) Hbytes).
    destruct (encode_fields t fs []) as [t' o]. cbn [fst snd list_size within out app] in *. destruct (size_update_back D s (d_table D) (mk_listing 0 true []) o) as (first & more & Hint & Hdec); [unfold DEFAULT_TABLE_SIZE in *; unfold U32_MAX; lia|lia|].
    eexists _, _, _. split; [reflexivity|]. rewrite Hint. cbn [app length decode_block]. rewrite Hdec, Hsd. cbn [mbind result_bind]. rewrite Hrun by (rewrite length_app; lia). cbn [mbind result_bind]. split; [reflexivity|].
    split; [|split; [intros g Hg1; destruct (Hg g Hg1) as [Hg2|]; [left; rewrite Hed in Hg2; eapply prefix_elem; [apply keep_prefix|exact Hg2]|by right]|done]]. destruct Hin' as (Ht' & Hd' & Hp' & Hmm & Hdef). split; [done|]. split; [done|]. split; [done|]. split; [done|]. cbn [pending e_table]. destruct (Z.eqb_spec l s) as [->|Hne]; [done|]. destruct Ht' as (Hsz & Hle). lia.
  - destruct (fields_back D fs (e_table e) (d_table D) (mk_listing 0 true []) false) as (d' & Hin' & Hm' & Hg & Hrun); [done|done|done|done|done|]. cbn [mbind result_bind]. destruct (encode_fields (e_table e) fs []) as [t' o]. cbn [fst snd list_size within out app] in *.
    eexists _, _, _. split; [reflexivity|]. rewrite Hrun by lia. cbn [mbind result_bind]. split; [reflexivity|]. split; [|done]. destruct Hin' as (Ht' & Hd' & Hp' & Hmm & Hdef). done.
Qed.

(** ** Whatever a peer sends *)

(** The errors the source has. *)
Definition benign (e : Error) : Prop := match e with HpackFault _ | BadHuffman (Fault _) => False | _ => True end.

(** A part of a block that was read: some bytes went, and [P] holds of what
    they said. *)
Definition reads {A} (buf : list Z) (m : res (A * list Z)) (P : A -> Prop) : Prop :=
  match m with Ok (a, rest) => (length rest < length buf)%nat /\ P a | Err e => benign e end.

Lemma decode_more_reads fuel : forall v shift buf, shift = 28 - 7 * Z.of_nat fuel -> reads buf (decode_more (S fuel) v shift buf) (fun n => 0 <= n <= U32_MAX).
Proof.
  induction fuel as [|fuel IH]; intros v shift [|b buf] Hs; try done.
  - change (28 - 7 * Z.of_nat 0) with 28 in Hs. subst shift. cbn [decode_more]. cbv zeta. assert (Hr := u64_range (v + u64 (Z.shiftl (Z.land b 127) 28))). destruct (Z.ltb_spec U32_MAX (u64 (v + u64 (Z.shiftl (Z.land b 127) 28)))); [done|]. destruct (_ =? 0); [split; [cbn [length]; lia|lia]|done].
  - remember (S fuel) as fuel1 eqn:Hf. cbn [decode_more]. cbv zeta. assert (Hr := u64_range (v + u64 (Z.shiftl (Z.land b 127) shift))). destruct (Z.ltb_spec U32_MAX (u64 (v + u64 (Z.shiftl (Z.land b 127) shift)))); [done|]. destruct (_ =? 0); [split; [cbn [length]; lia|lia]|].
    destruct (_ <? _); [done|]. subst fuel1. assert (H1 := IH (u64 (v + u64 (Z.shiftl (Z.land b 127) shift))) (shift + 7) buf ltac:(lia)). unfold reads in *. destruct (decode_more _ _ _ _) as [[n rest]|e]; [|done]. cbn [length]. split; [lia|tauto].
Qed.

Lemma decode_int_reads buf bits flags : (bits, flags) ∈ prefixes -> reads buf (decode_int buf bits) (fun n => 0 <= n).
Proof.
  intros Hp. assert (Hm := mask_range bits flags Hp). destruct buf as [|b buf]; [done|]. unfold decode_int. cbv zeta. fold (mask bits). destruct (_ <? _).
  - split; [cbn [length]; lia|]. apply Z.land_nonneg. lia.
  - assert (H := decode_more_reads 4 (Z.land b (mask bits)) 0 buf eq_refl). unfold reads in *. destruct (decode_more _ _ _ _) as [[n rest]|e]; [|done]. cbn [length]. lia.
Qed.

Lemma decode_string_reads buf limit out : 0 <= limit -> reads buf (decode_string buf limit out) (fun o => exists s, o = out ++ s /\ len s <= limit).
Proof.
  intros Hl. destruct buf as [|b buf]; [done|]. unfold decode_string. assert (H := decode_int_reads (b :: buf) 7 0 ltac:(by repeat constructor)). unfold reads in *. destruct (decode_int _ _) as [[n rest]|e]; [|done]. cbn [mbind result_bind]. destruct H as (Hlen & Hn). cbv zeta. destruct (_ <? n); [done|].
  assert (Hd : (length (drop (Z.to_nat n) rest) < length (b :: buf))%nat) by (rewrite length_drop; lia). destruct (negb _).
  - destruct (Huffman.decode _ _ _) as [o|e] eqn:Hdec.
    + split; [exact Hd|]. destruct (decode_ok _ _ _ _ Hl Hdec) as (s & k & -> & _ & Hs & _). by exists s.
    + by destruct (decode_err _ _ _ _ Hl Hdec) as [->|[->| ->]].
  - destruct (Z.ltb_spec limit (len (take (Z.to_nat n) rest))); [done|]. split; [exact Hd|]. by exists (take (Z.to_nat n) rest).
Qed.

Lemma literal_reads t buf bits flags limit : (bits, flags) ∈ prefixes -> 0 <= limit -> reads buf (literal t buf bits limit) (fun f => len (value f) <= limit).
Proof.
  intros Hp Hl. unfold literal. assert (H := decode_int_reads buf bits flags Hp). unfold reads in *. destruct (decode_int _ _) as [[i rest]|e]; [|done]. cbn [mbind result_bind]. destruct H as (H1 & Hi).
  assert (Hname : match (if i =? 0 then decode_string rest limit [] else match get i t with Some (n, _) => Ok (n, rest) | None => Err (Index i) end) with Ok (_, rest') => (length rest' <= length rest)%nat | Err e => benign e end).
  { destruct (i =? 0); [|by destruct (get i t) as [[]|]]. assert (H := decode_string_reads rest limit [] Hl). unfold reads in H. destruct (decode_string _ _ _) as [[]|]; [lia|done]. }
  destruct (if i =? 0 then _ else _) as [[n rest']|e]; [|done]. cbn [mbind result_bind]. assert (H := decode_string_reads rest' limit [] Hl). unfold reads in H. destruct (decode_string _ _ _) as [[v rest2]|]; [|done]. cbn [mbind result_bind]. destruct H as (H2 & s & -> & Hs). split; [lia|exact Hs].
Qed.

(** The list so far: what is kept of it fits the limit. *)
Definition listing_ok (limit : Z) (before : list Field) (l : Listing) : Prop :=
  0 <= list_size l <= U64_MAX /\ within l = (list_size l <=? limit) /\ exists kept, out l = before ++ kept /\ total field_size kept <= Z.min limit (list_size l).

Lemma add_field_ok limit before f l : limit < U64_MAX -> listing_ok limit before l -> listing_ok limit before (add_field limit f l).
Proof.
  intros Hlim (Hr & Hw & kept & Ho & Ht). assert (Hf := field_size_pos f). unfold add_field, listing_ok. cbv zeta. destruct (Z.ltb_spec limit (Z.min U64_MAX (list_size l + field_size f))) as [Hlt|Hge]; cbn [list_size within out].
  - split; [lia|]. rewrite (proj2 (Z.leb_gt _ _)) by lia. split; [done|]. exists kept. split; [done|lia].
  - split; [lia|]. rewrite Hw, !(proj2 (Z.leb_le _ _)) by lia. split; [done|]. exists (kept ++ [f]). rewrite Ho, app_assoc. split; [done|]. rewrite total_app. change (total field_size [f]) with (field_size f + 0). lia.
Qed.

(** What a decoder keeps to. *)
Definition decoder_ok (D : Decoder) : Prop := table_ok (d_table D) /\ max (d_table D) <= allowed_table_size D /\ 0 <= max_list_size D < U64_MAX.

Definition within_limits (D : Decoder) (before : list Field) (t : DynamicTable) (l : Listing) : Prop := table_ok t /\ max t <= allowed_table_size D /\ listing_ok (max_list_size D) before l.

Lemma decode_field_ok D before first buf t l started : decoder_ok D -> within_limits D before t l ->
  match decode_field D first buf t l started with
  | Ok (rest, t', l', _) => (length rest < length buf)%nat /\ within_limits D before t' l'
  | Err e => benign e
  end.
Proof.
  intros (_ & _ & Hlim) (Ht & Hm & Hl). assert (Hadd : forall f, listing_ok (max_list_size D) before (add_field (max_list_size D) f l)) by (intros f; apply add_field_ok; [lia|exact Hl]).
  assert (Hsl : 0 <= Z.max (max_list_size D) (allowed_table_size D)) by lia. unfold decode_field. cbv zeta. destruct (negb (Z.land first 128 =? 0)); [|destruct (negb (Z.land first 64 =? 0)); [|destruct (negb (Z.land first 32 =? 0))]].
  - assert (H := decode_int_reads buf 7 0 ltac:(by repeat constructor)). unfold reads in H. destruct (decode_int _ _) as [[i rest]|e]; [|done]. cbn [mbind result_bind]. destruct (get i t) as [[n v]|]; [|done]. split; [tauto|]. split; [done|]. split; [done|apply Hadd].
  - assert (H := literal_reads t buf 6 64 _ ltac:(by repeat constructor) Hsl). unfold reads in H. destruct (literal _ _ _ _) as [[f rest]|e]; [|done]. cbn [mbind result_bind]. split; [tauto|]. destruct (insert_keeps f t Ht) as (Ht' & Hm' & _). split; [done|]. split; [by rewrite Hm'|apply Hadd].
  - destruct started; [done|]. assert (H := decode_int_reads buf 5 32 ltac:(by repeat constructor)). unfold reads in H. destruct (decode_int _ _) as [[n rest]|e]; [|done]. cbn [mbind result_bind]. destruct H as (Hr & Hn). destruct (Z.ltb_spec (allowed_table_size D) n); [done|].
    destruct (set_max_keeps n t Ht Hn) as (t' & -> & Ht' & Hm' & _). cbn [mbind result_bind]. split; [done|]. split; [done|]. split; [lia|done].
  - assert (H := literal_reads t buf 4 16 _ ltac:(by repeat constructor) Hsl). unfold reads in H. destruct (literal _ _ _ _) as [[f rest]|e]; [|done]. cbn [mbind result_bind]. split; [tauto|]. split; [done|]. split; [done|apply Hadd].
Qed.

Lemma decode_block_ok D before : decoder_ok D -> forall fuel buf t l started, (length buf <= fuel)%nat -> within_limits D before t l ->
  match decode_block fuel D buf t l started with Ok (t', l') => within_limits D before t' l' | Err e => benign e end.
Proof.
  intros HD. induction fuel as [|fuel IH]; intros [|b buf] t l started Hlen Hw; try (cbn in Hlen; lia); try exact Hw.
  cbn [decode_block]. assert (H := decode_field_ok D before b (b :: buf) t l started HD Hw). destruct (decode_field _ _ _ _ _ _) as [[[[rest t'] l'] st]|e]; [|done]. cbn [mbind result_bind]. destruct H as (Hr & Hw'). apply IH; [lia|done].
Qed.

(** C16: whatever a peer sends, a decoder keeps to its limits.  On any block
    from any state it can be in, decoding ends without a panic, in one of the
    errors of the source or with a table whose entries fit the size it has, and
    that is at most what was allowed; the fields kept of the list are together
    within the limit of the list. *)
Theorem decoder_within_limits D block before : decoder_ok D ->
  match decode D block before with
  | Ok (D', after, _) => decoder_ok D' /\ allowed_table_size D' = allowed_table_size D /\ max_list_size D' = max_list_size D /\ exists kept, after = before ++ kept /\ total field_size kept <= max_list_size D
  | Err e => benign e
  end.
Proof.
  intros HD. assert (HD2 := HD). destruct HD2 as (Ht & Hm & Hl). unfold decode. assert (Hw : within_limits D before (d_table D) (mk_listing 0 true before)).
  { split; [done|]. split; [done|]. unfold listing_ok. cbn [list_size within out]. split; [unfold U64_MAX; lia|]. rewrite (proj2 (Z.leb_le _ _)) by lia. split; [done|]. exists []. rewrite app_nil_r. split; [done|]. change (total field_size []) with 0. lia. }
  assert (H := decode_block_ok D before HD (length block) block _ _ false (le_n _) Hw). destruct (decode_block _ _ _ _ _ _) as [[t l]|e]; [|done]. cbn [mbind result_bind]. destruct H as (Ht' & Hm' & _ & _ & kept & Ho & Hk).
  split; [done|]. split; [done|]. split; [done|]. exists kept. split; [exact Ho|]. cbn [max_list_size]. lia.
Qed.

(** The first request of RFC 7541, Appendix C.4, and a string cut short. *)
Definition request : list Z := [130; 134; 132; 65; 140; 241; 227; 194; 229; 242; 58; 107; 160; 171; 144; 244; 255].

Example request_read :
  match decode (new_decoder 4096 65536) request [] with
  | Ok (D, fields, within) => map pair_of fields = [valued ":method" "GET"; valued ":scheme" "http"; valued ":path" "/"; valued ":authority" "www.example.com"]%string /\ size (d_table D) = 57 /\ within = true
  | Err _ => False
  end /\ decode (new_decoder 4096 65536) [130; 134; 132; 65; 140; 241] [] = Err Truncated.
Proof. by vm_compute. Qed.

Lemma decoder_within_limits_witness : decoder_ok (new_decoder 4096 100) /\
  match decode (new_decoder 4096 100) request [] with
  | Ok (D', after, _) => decoder_ok D' /\ allowed_table_size D' = 4096 /\ max_list_size D' = 100 /\ exists kept, after = [] ++ kept /\ total field_size kept <= 100
  | Err e => benign e
  end.
Proof.
  assert (H : decoder_ok (new_decoder 4096 100)). { unfold decoder_ok, table_ok. cbn [new_decoder d_table new_table entries size max allowed_table_size max_list_size]. change (total field_size []) with 0. unfold U64_MAX. lia. }
  split; [exact H|]. exact (decoder_within_limits (new_decoder 4096 100) request [] H).
Defined.

(** ** A connection *)

(** What happens on a connection, as its encoder sees it: the peer announces a
    table size, or a list of fields is sent. *)
Inductive Event : Type :=
| Announced (n : Z)
| Sent (fs : list FieldRef).

(** The lists the peer's decoder reads, each with the answer whether it was
    within the limit; and the two ends at the end. *)
Fixpoint session (events : list Event) (e : Encoder) (D : Decoder) : res (list (list Field * bool) * Encoder * Decoder) :=
  match events with
  | [] => Ok ([], e, D)
  | Announced n :: events => e ← set_peer_table_size n e; session events e D
  | Sent fs :: events =>
      '(e, block) ← encode e fs [];
      '(D, fields, ok) ← decode D block [];
      '(read, e, D) ← session events e D;
      Ok ((fields, ok) :: read, e, D)
  end.

Definition event_ok (limit : Z) (ev : Event) : Prop :=
  match ev with Announced n => 0 <= n | Sent fs => list_ok limit fs end.

(** What was sent. *)
Fixpoint sent (events : list Event) : list (list FieldRef) :=
  match events with [] => [] | Announced _ :: events => sent events | Sent fs :: events => fs :: sent events end.

Lemma session_back events : forall e D, synced e D -> DEFAULT_TABLE_SIZE <= allowed_table_size D -> max_list_size D <= U32_MAX -> Forall (event_ok (max_list_size D)) events ->
  exists e' D', session events e D = Ok (map (fun fs => (map field_of fs, true)) (sent events), e', D') /\ synced e' D' /\ grows_by (concat (sent events)) (d_table D) (d_table D').
Proof.
  induction events as [|[n|fs] events IH]; intros e D Hs Ha Hu Hok; [by exists e, D; repeat split; [apply Hs..|apply grows_refl]| |]; apply Forall_cons in Hok as (Hev & Hok); cbn [session sent map concat].
  - destruct (synced_announce e D n Hs Hev) as (e' & -> & Hs'). cbn [mbind result_bind]. by apply IH.
  - destruct (block_back e D fs Hs Ha Hu Hev) as (e1 & block & D1 & -> & Hd & Hs1 & Hg1 & Ha1 & Hl1). cbn [mbind result_bind]. rewrite Hd. cbn [mbind result_bind]. destruct (IH e1 D1) as (e' & D' & -> & Hs' & Hg'); [done|by rewrite Ha1|by rewrite Hl1|by rewrite Hl1|].
    exists e', D'. split; [reflexivity|]. split; [done|]. by eapply grows_trans.
Qed.

(** C15: the two ends of a connection stay in step.  However lists of fields
    and announcements of table sizes follow each other, encoding never panics,
    and the peer's decoder reads every block: it gives the fields that were
    sent, in their order, within its limit -- with indexed fields, fields added
    to the tables and evicted from them, Huffman coded strings and the size
    updates the announcements lead to.  And nothing gets into a table of either
    end that was only sent as sensitive. *)
Theorem session_in_step events allowed limit : DEFAULT_TABLE_SIZE <= allowed -> limit <= U32_MAX -> Forall (event_ok limit) events ->
  exists e D, session events new_encoder (new_decoder allowed limit) = Ok (map (fun fs => (map field_of fs, true)) (sent events), e, D) /\
    forall g, g ∈ entries (e_table e) \/ g ∈ entries (d_table D) -> exists fs f, fs ∈ sent events /\ f ∈ fs /\ sensitive f = false /\ g = field_of f.
Proof.
  intros Ha Hl Hok. destruct (session_back events _ (new_decoder allowed limit) (synced_new allowed limit Ha) Ha Hl Hok) as (e & D & He & (_ & _ & Hp & _) & Hg). exists e, D. split; [exact He|]. intros g Hin.
  assert (Hd : g ∈ entries (d_table D)) by (destruct Hin as [Hin|]; [by eapply prefix_elem|done]). destruct (Hg g Hd) as [Hn|(f & Hf & Hr)]; [by apply not_elem_of_nil in Hn|]. apply list_elem_of_In, in_concat in Hf as (fs & Hfs & Hf). exists fs, f. rewrite !list_elem_of_In. tauto.
Qed.

Definition bytesb (s : list Z) : bool := forallb (fun x => (0 <=? x) && (x <? 256)) s.

Lemma bytes_checked s : bytesb s = true -> is_bytes s.
Proof. intros H x Hx%list_elem_of_In. apply (proj1 (forallb_forall _ _) H) in Hx. unfold byte. rewrite andb_true_iff, Z.leb_le, Z.ltb_lt in Hx. done. Qed.

Lemma list_checked limit fs : forallb (fun f => bytesb (r_name f) && bytesb (r_value f)) fs && (total field_size (map field_of fs) <=? limit) = true -> list_ok limit fs.
Proof.
  intros (H & Hl%Z.leb_le)%andb_true_iff. split; [|done]. apply Forall_forall. intros f Hf%list_elem_of_In. apply (proj1 (forallb_forall _ _) H) in Hf as (Hn & Hv)%andb_true_iff. split; by apply bytes_checked.
Qed.

(** A field of the static table, one that is indexed and one that is secret;
    then the peer makes its table smaller and larger again, and the second
    block opens with the smaller size. *)
Definition token : FieldRef := mk_ref (as_bytes "token") (as_bytes "xyzzy") false.
Definition cookie : FieldRef := mk_ref (as_bytes "cookie") (as_bytes "secret") true.
Definition talk : list Event :=
  [Sent [mk_ref (as_bytes ":method") (as_bytes "GET") false; token; cookie]; Announced 0; Announced 4096; Sent [token; cookie]; Sent [token; token]]%string.

Lemma session_in_step_witness : Forall (event_ok 1000) talk /\
  exists e D, session talk new_encoder (new_decoder 4096 1000) = Ok (map (fun fs => (map field_of fs, true)) (sent talk), e, D) /\
    forall g, g ∈ entries (e_table e) \/ g ∈ entries (d_table D) -> exists fs f, fs ∈ sent talk /\ f ∈ fs /\ sensitive f = false /\ g = field_of f.
Proof.
  assert (H : Forall (event_ok 1000) talk).
  { repeat (apply Forall_cons; split); try apply Forall_nil_2; try (by apply list_checked; vm_compute); cbn [event_ok]; lia. }
  split; [exact H|]. apply session_in_step; [unfold DEFAULT_TABLE_SIZE; lia|unfold U32_MAX; lia|exact H].
Defined.

(** What is in the tables after it: the token, and not the cookie. *)
Example talk_tables :
  match session talk new_encoder (new_decoder 4096 1000) with
  | Ok (_, e, D) => map pair_of (entries (e_table e)) = [valued "token" "xyzzy"]%string /\ entries (d_table D) = entries (e_table e) /\ max (d_table D) = 4096
  | Err _ => False
  end.
Proof. by vm_compute. Qed.
