(* ===== verification/Streams.v ===== *)
(** The streams of a connection and their flow control:
    [pratique/src/quic/streams.rs].

    The state is the code's: the map of the streams that are kept, each with a
    sending side (a [SendBuf] and what the peer allows) and a receiving side
    (a [Reassembler] and what we allow), and the accounts of the connection.
    The fields of [Streams] that the source lists under one heading are a
    record here: [Sending] is what we may send, [Receiving] what we let the
    peer send, [Due] the frames of the connection that are to be sent.  A
    method of [&mut self] is a function on the state; one that can fail gives
    its error with the state it leaves ([outcome]). *)

From Stdlib Require Import ZArith Lia String.
From stdpp Require Import base option numbers list_numbers list.
From S2P Require Import Prelude BTree Slice Wire Frames Params Reassembly SendBuf.

#[local] Open Scope Z_scope.

(** ** Ids *)

Definition is_bidirectional (id : Z) : bool := Z.land id 2 =? 0.
Definition is_client_initiated (id : Z) : bool := Z.land id 1 =? 0.
Definition kind_of (id : Z) : Z := Z.land (Z.shiftr id 1) 1.
Definition index_of (id : Z) : Z := Z.shiftr id 2.

Definition make_id (index kind : Z) (client_initiated : bool) : Z :=
  Z.lor (Z.lor (u64 (Z.shiftl index 2)) (Z.shiftl kind 1)) (b2z (negb client_initiated)).

(** An array [[T; 2]], with an entry for each kind of stream. *)
Definition at_kind {A} (k : Z) (p : A * A) : A := if k =? 0 then fst p else snd p.
Definition put_kind {A} (k : Z) (a : A) (p : A * A) : A * A := if k =? 0 then (a, snd p) else (fst p, a).

(** ** Errors and events *)

Definition FLOW_CONTROL_ERROR : Z := 3.
Definition STREAM_LIMIT_ERROR : Z := 4.
Definition STREAM_STATE_ERROR : Z := 5.
Definition FINAL_SIZE_ERROR : Z := 6.

(** The error that a connection ends with; [frame_type] is set by the caller. *)
Record TransportError := mk_transport_error { code : Z; te_frame_type : Z; reason : string }.

Definition transport_error (code : Z) (reason : string) : TransportError := mk_transport_error code 0 reason.

Inductive StreamError : Type := Unknown | Blocked | ResetBy (code : Z) | StoppedBy (code : Z) | Closed.

Inductive StreamEvent : Type :=
| Readable (id : Z)
| Writable (id : Z)
| Stopped (id code : Z)
| Available (bidirectional : bool).

(** What was put in a packet. *)
Inductive StreamFrame : Type :=
| SfStream (id offset n : Z) (fin : bool)
| SfResetStream (id error final_size : Z)
| SfStopSending (id error : Z)
| SfMaxData (v : Z)
| SfMaxStreamData (id max : Z)
| SfMaxStreams (bidirectional : bool) (max : Z)
| SfDataBlocked (v : Z)
| SfStreamDataBlocked (id limit : Z)
| SfStreamsBlocked (bidirectional : bool) (limit : Z).

Record StreamsConfig := mk_config {
  client : bool;
  max_data : Z;
  bidi_local : Z;
  bidi_remote : Z;
  uni : Z;
  max_streams_bidi : Z;
  max_streams_uni : Z;
  send_buffer : Z;
}.

(** ** The sides of a stream *)

Record PeerLimits := mk_peer_limits { pl_bidi_local : Z; pl_bidi_remote : Z; pl_uni : Z }.

Inductive SendState : Type := SOpen | SFinished | SReset | SDone.

#[export] Instance send_state_eq_dec : EqDecision SendState.
Proof. solve_decision. Defined.

Record Reset := mk_reset { rs_error : Z; rs_final_size : Z; rs_pending : bool }.

Record Send := mk_send {
  s_buf : SendBuf;
  s_max_data : Z;
  s_state : SendState;
  s_reset : option Reset;
  s_stopped : option Z;
  s_blocked_sent : option Z;
  s_blocked_pending : bool;
  s_write_blocked : bool;
  s_queued : bool;
  s_parked : bool;
}.

Definition new_send (max : Z) : Send := mk_send SendBuf.new max SOpen None None None false false false false.

Definition s_with_buf v s := mk_send v (s_max_data s) (s_state s) (s_reset s) (s_stopped s) (s_blocked_sent s) (s_blocked_pending s) (s_write_blocked s) (s_queued s) (s_parked s).
Definition s_with_max v s := mk_send (s_buf s) v (s_state s) (s_reset s) (s_stopped s) (s_blocked_sent s) (s_blocked_pending s) (s_write_blocked s) (s_queued s) (s_parked s).
Definition s_with_state v s := mk_send (s_buf s) (s_max_data s) v (s_reset s) (s_stopped s) (s_blocked_sent s) (s_blocked_pending s) (s_write_blocked s) (s_queued s) (s_parked s).
Definition s_with_reset v s := mk_send (s_buf s) (s_max_data s) (s_state s) v (s_stopped s) (s_blocked_sent s) (s_blocked_pending s) (s_write_blocked s) (s_queued s) (s_parked s).
Definition s_with_stopped v s := mk_send (s_buf s) (s_max_data s) (s_state s) (s_reset s) v (s_blocked_sent s) (s_blocked_pending s) (s_write_blocked s) (s_queued s) (s_parked s).
Definition s_with_blocked sent pending s := mk_send (s_buf s) (s_max_data s) (s_state s) (s_reset s) (s_stopped s) sent pending (s_write_blocked s) (s_queued s) (s_parked s).
Definition s_with_write_blocked v s := mk_send (s_buf s) (s_max_data s) (s_state s) (s_reset s) (s_stopped s) (s_blocked_sent s) (s_blocked_pending s) v (s_queued s) (s_parked s).
Definition s_with_queued v s := mk_send (s_buf s) (s_max_data s) (s_state s) (s_reset s) (s_stopped s) (s_blocked_sent s) (s_blocked_pending s) (s_write_blocked s) v (s_parked s).
Definition s_with_parked v s := mk_send (s_buf s) (s_max_data s) (s_state s) (s_reset s) (s_stopped s) (s_blocked_sent s) (s_blocked_pending s) (s_write_blocked s) (s_queued s) v.

(** [matches!(s.state, SendState::Open | SendState::Finished)]. *)
Definition sending (s : Send) : bool := match s_state s with SOpen | SFinished => true | SReset | SDone => false end.

Inductive RecvState : Type := ROpen | RReset (code : Z) | RFin | RResetRead (code : Z).

#[export] Instance recv_state_eq_dec : EqDecision RecvState.
Proof. solve_decision. Defined.

Record Stop := mk_stop { st_error : Z; st_pending : bool }.

Record Recv := mk_recv {
  r_buf : Reassembler;
  r_max_data : Z;
  r_window : Z;
  r_high : Z;
  r_final_size : option Z;
  r_state : RecvState;
  r_discard : bool;
  r_stop : option Stop;
  r_max_data_pending : bool;
  r_queued : bool;
}.

Definition new_recv (window : Z) : Recv := mk_recv Reassembly.new window window 0 None ROpen false None false false.

Definition r_with_buf v r := mk_recv v (r_max_data r) (r_window r) (r_high r) (r_final_size r) (r_state r) (r_discard r) (r_stop r) (r_max_data_pending r) (r_queued r).
Definition r_with_max v r := mk_recv (r_buf r) v (r_window r) (r_high r) (r_final_size r) (r_state r) (r_discard r) (r_stop r) true (r_queued r).
Definition r_with_high v r := mk_recv (r_buf r) (r_max_data r) (r_window r) v (r_final_size r) (r_state r) (r_discard r) (r_stop r) (r_max_data_pending r) (r_queued r).
Definition r_with_final v r := mk_recv (r_buf r) (r_max_data r) (r_window r) (r_high r) v (r_state r) (r_discard r) (r_stop r) (r_max_data_pending r) (r_queued r).
Definition r_with_state v r := mk_recv (r_buf r) (r_max_data r) (r_window r) (r_high r) (r_final_size r) v (r_discard r) (r_stop r) (r_max_data_pending r) (r_queued r).
Definition r_with_discard v r := mk_recv (r_buf r) (r_max_data r) (r_window r) (r_high r) (r_final_size r) (r_state r) v (r_stop r) (r_max_data_pending r) (r_queued r).
Definition r_with_stop v r := mk_recv (r_buf r) (r_max_data r) (r_window r) (r_high r) (r_final_size r) (r_state r) (r_discard r) v (r_max_data_pending r) (r_queued r).
Definition r_with_pending v r := mk_recv (r_buf r) (r_max_data r) (r_window r) (r_high r) (r_final_size r) (r_state r) (r_discard r) (r_stop r) v (r_queued r).
Definition r_with_queued v r := mk_recv (r_buf r) (r_max_data r) (r_window r) (r_high r) (r_final_size r) (r_state r) (r_discard r) (r_stop r) (r_max_data_pending r) v.

Definition recv_readable (r : Recv) : bool :=
  match r_state r with
  | RReset _ => true
  | ROpen => negb (r_discard r) && ((0 <? Reassembly.readable (r_buf r)) || bool_decide (r_final_size r = Some (read_off (r_buf r))))
  | _ => false
  end.

Definition all_received (r : Recv) : bool :=
  match r_final_size r with
  | Some fs => u64 (read_off (r_buf r) + Reassembly.readable (r_buf r)) =? fs
  | None => false
  end.

(** [matches!(r.state, RecvState::Fin | RecvState::ResetRead(_))]. *)
Definition recv_over (r : Recv) : bool := match r_state r with RFin | RResetRead _ => true | ROpen | RReset _ => false end.

Record Stream := mk_stream { st_send : option Send; st_recv : option Recv }.

Inductive Gate : Type := Ready | StreamBlocked | ConnBlocked | Nothing.

Definition gate (s : Send) (conn_room : Z) : Gate :=
  if negb (sending s) || negb (SendBuf.has_pending (s_buf s)) then Nothing
  else
    let limit := Z.min (s_max_data s) (u64 (sent (s_buf s) + conn_room)) in
    if has_pending_within limit (s_buf s) then Ready
    else if s_max_data s <=? sent (s_buf s) then StreamBlocked
    else ConnBlocked.

(** ** The state *)

(** What we may send. *)
Record Sending := mk_sending {
  send_max_data : Z;
  sent_total : Z;
  peer_max_streams : Z * Z;
  opened : Z * Z;
  open_blocked : bool * bool;
}.

(** What we let the peer send. *)
Record Receiving := mk_receiving {
  recv_limit : Z;
  recv_total : Z;
  consumed : Z;
  max_streams : Z * Z;
  peer_opened : Z * Z;
  peer_closed : Z * Z;
}.

(** Frames to send, of the connection. *)
Record Due := mk_due {
  max_data_pending : bool;
  max_streams_pending : bool * bool;
  data_blocked_sent : option Z;
  data_blocked_pending : bool;
  streams_blocked_sent : option Z * option Z;
  streams_blocked_pending : bool * bool;
}.

(** A [BTreeSet]. *)
Abbreviation idset := (list (Z * unit)).

Record Streams := mk_streams {
  cfg : StreamsConfig;
  streams : list (Z * Stream);
  peer : option PeerLimits;
  tx : Sending;
  rx : Receiving;
  due : Due;
  control : idset;
  send_queue : list Z;
  parked : idset;
  events : list StreamEvent;
}.

Definition with_streams v s := mk_streams (cfg s) v (peer s) (tx s) (rx s) (due s) (control s) (send_queue s) (parked s) (events s).
Definition with_peer v s := mk_streams (cfg s) (streams s) v (tx s) (rx s) (due s) (control s) (send_queue s) (parked s) (events s).
Definition with_tx v s := mk_streams (cfg s) (streams s) (peer s) v (rx s) (due s) (control s) (send_queue s) (parked s) (events s).
Definition with_rx v s := mk_streams (cfg s) (streams s) (peer s) (tx s) v (due s) (control s) (send_queue s) (parked s) (events s).
Definition with_due v s := mk_streams (cfg s) (streams s) (peer s) (tx s) (rx s) v (control s) (send_queue s) (parked s) (events s).
Definition with_control v s := mk_streams (cfg s) (streams s) (peer s) (tx s) (rx s) (due s) v (send_queue s) (parked s) (events s).
Definition with_queue v s := mk_streams (cfg s) (streams s) (peer s) (tx s) (rx s) (due s) (control s) v (parked s) (events s).
Definition with_parked v s := mk_streams (cfg s) (streams s) (peer s) (tx s) (rx s) (due s) (control s) (send_queue s) v (events s).
Definition with_events v s := mk_streams (cfg s) (streams s) (peer s) (tx s) (rx s) (due s) (control s) (send_queue s) (parked s) v.

(** [self.control.insert(id)]. *)
Definition note (id : Z) (st : Streams) : Streams := with_control (BTree.insert id tt (control st)) st.

(** [self.events.push_back(e)]. *)
Definition tell (e : StreamEvent) (st : Streams) : Streams := with_events (events st ++ [e]) st.

(** [self.streams.get_mut(&id).and_then(|s| s.send.as_mut())], and the same
    for the receiving side; writing through them. *)
Definition send_of (id : Z) (st : Streams) : option Send := BTree.get id (streams st) ≫= st_send.
Definition recv_of (id : Z) (st : Streams) : option Recv := BTree.get id (streams st) ≫= st_recv.

Definition put_stream (id : Z) (x : Stream) (st : Streams) : Streams := with_streams (BTree.insert id x (streams st)) st.

Definition put_send (id : Z) (s : Send) (st : Streams) : Streams :=
  match BTree.get id (streams st) with Some x => put_stream id (mk_stream (Some s) (st_recv x)) st | None => st end.
Definition put_recv (id : Z) (r : Recv) (st : Streams) : Streams :=
  match BTree.get id (streams st) with Some x => put_stream id (mk_stream (st_send x) (Some r)) st | None => st end.

Definition new (c : StreamsConfig) : Streams :=
  mk_streams c [] None (mk_sending 0 0 (0, 0) (0, 0) (false, false))
    (mk_receiving (max_data c) 0 0 (max_streams_bidi c, max_streams_uni c) (0, 0) (0, 0))
    (mk_due false (false, false) None false (None, None) (false, false)) [] [] [] [].

Definition set_peer_params (p : TransportParameters) (st : Streams) : Streams :=
  let t := tx st in
  with_tx (mk_sending (initial_max_data p) (sent_total t)
             (Z.min (initial_max_streams_bidi p) MAX_STREAMS_LIMIT, Z.min (initial_max_streams_uni p) MAX_STREAMS_LIMIT) (opened t) (open_blocked t))
    (with_peer (Some (mk_peer_limits (initial_max_stream_data_bidi_local p) (initial_max_stream_data_bidi_remote p) (initial_max_stream_data_uni p))) st).

Definition poll_event (st : Streams) : option StreamEvent * Streams :=
  match events st with [] => (None, st) | e :: es => (Some e, with_events es st) end.

Definition stream_ids (st : Streams) : list Z := (streams st).*1.
Definition contains (id : Z) (st : Streams) : bool := contains_key id (streams st).

(** The credit of the connection that is left. *)
Definition conn_room (st : Streams) : Z := sat_sub (send_max_data (tx st)) (sent_total (tx st)).

(** ** What the others call *)

Definition grow_connection_window (st : Streams) : Streams :=
  let r := rx st in
  let d := due st in
  let new := u64 (consumed r + max_data (cfg st)) in
  if (recv_limit r <? new) && (max_data (cfg st) / 2 <=? new - recv_limit r)
  then with_due (mk_due true (max_streams_pending d) (data_blocked_sent d) (data_blocked_pending d) (streams_blocked_sent d) (streams_blocked_pending d))
         (with_rx (mk_receiving new (recv_total r) (consumed r) (max_streams r) (peer_opened r) (peer_closed r)) st)
  else st.

(** [self.consumed += n]. *)
Definition consume (n : Z) (st : Streams) : Streams :=
  let r := rx st in
  with_rx (mk_receiving (recv_limit r) (recv_total r) (u64 (consumed r + n)) (max_streams r) (peer_opened r) (peer_closed r)) st.

Definition after_consume (id n : Z) (st : Streams) : Streams :=
  let st := consume n st in
  let st := match recv_of id st with
    | Some r =>
        if bool_decide (r_final_size r = None) && bool_decide (r_state r = ROpen) then
          let new := u64 (read_off (r_buf r) + r_window r) in
          if (r_max_data r <? new) && (r_window r / 2 <=? new - r_max_data r)
          then note id (put_recv id (r_with_max new r) st) else st
        else st
    | None => st
    end in
  grow_connection_window st.

Definition grow_stream_limit (k : Z) (st : Streams) : Streams :=
  let r := rx st in
  let d := due st in
  let initial := if k =? 0 then max_streams_bidi (cfg st) else max_streams_uni (cfg st) in
  let new := Z.min (u64 (initial + at_kind k (peer_closed r))) MAX_STREAMS_LIMIT in
  if u64 (at_kind k (max_streams r) + Z.max (initial / 2) 1) <=? new
  then with_due (mk_due (max_data_pending d) (put_kind k true (max_streams_pending d)) (data_blocked_sent d) (data_blocked_pending d) (streams_blocked_sent d) (streams_blocked_pending d))
         (with_rx (mk_receiving (recv_limit r) (recv_total r) (consumed r) (put_kind k new (max_streams r)) (peer_opened r) (peer_closed r)) st)
  else st.

(** Whether nothing more can happen to a stream. *)
Definition over (x : Stream) : bool :=
  match st_send x with Some s => bool_decide (s_state s = SDone) | None => true end &&
  match st_recv x with Some r => recv_over r | None => true end.

Definition cleanup (id : Z) (st : Streams) : Streams :=
  match BTree.get id (streams st) with
  | None => st
  | Some x =>
      if negb (over x) then st
      else
        let st := with_parked (BTree.remove id (parked st)) (with_control (BTree.remove id (control st)) (with_streams (BTree.remove id (streams st)) st)) in
        if Bool.eqb (is_client_initiated id) (client (cfg st)) then st
        else
          let k := kind_of id in
          let r := rx st in
          grow_stream_limit k (with_rx (mk_receiving (recv_limit r) (recv_total r) (consumed r) (max_streams r) (peer_opened r)
            (put_kind k (u64 (at_kind k (peer_closed r) + 1)) (peer_closed r))) st)
  end.

(** [self.drain(id)]. *)
Definition drain (id : Z) (st : Streams) : Streams :=
  match recv_of id st with
  | None => st
  | Some r =>
      if negb (r_discard r) || negb (bool_decide (r_state r = ROpen)) then st
      else
        let '(n, b) := Reassembly.discard (r_buf r) in
        let r := r_with_buf b r in
        let done := bool_decide (r_final_size r = Some (read_off b)) in
        let r := if done then r_with_state RFin r else r in
        let st := after_consume id n (put_recv id r st) in
        if done then cleanup id st else st
  end.

Definition do_reset (id error : Z) (st : Streams) : Streams :=
  match send_of id st with
  | None => st
  | Some s =>
      let final_size := sent (s_buf s) in
      let s' := mk_send (SendBuf.clear (s_buf s)) (s_max_data s) SReset (Some (mk_reset error final_size true)) (s_stopped s) (s_blocked_sent s) false false false false in
      let st := put_send id s' st in
      let st := if s_queued s then with_queue (List.filter (fun q => negb (q =? id)) (send_queue st)) st else st in
      note id (with_parked (BTree.remove id (parked st)) st)
  end.

Definition schedule (id : Z) (st : Streams) : Streams :=
  match send_of id st with
  | None => st
  | Some s =>
      if s_queued s then st
      else
        let what := gate s (conn_room st) in
        let unpark := s_parked s && match what with ConnBlocked => false | _ => true end in
        let s := if unpark then s_with_parked false s else s in
        let st := if unpark then with_parked (BTree.remove id (parked st)) st else st in
        match what with
        | Ready => with_queue (send_queue st ++ [id]) (put_send id (s_with_queued true s) st)
        | ConnBlocked =>
            let st := if s_parked s then st else with_parked (BTree.insert id tt (parked st)) (put_send id (s_with_parked true s) st) in
            let d := due st in
            if bool_decide (data_blocked_sent d = Some (send_max_data (tx st))) then st
            else with_due (mk_due (max_data_pending d) (max_streams_pending d) (Some (send_max_data (tx st))) true (streams_blocked_sent d) (streams_blocked_pending d)) st
        | StreamBlocked =>
            if bool_decide (s_blocked_sent s = Some (s_max_data s)) then put_send id s st
            else note id (put_send id (s_with_blocked (Some (s_max_data s)) true s) st)
        | Nothing => put_send id s st
        end
  end.

(** ** The application *)

(** An error of a call, or a fault of the code. *)
Inductive failure (E : Type) : Type := Fails (f : fault) | Says (e : E).
Arguments Fails {E} f.
Arguments Says {E} e.

Abbreviation outcome E A := (result (failure E) A * Streams)%type.

Definition kind_index (bidirectional : bool) : Z := if bidirectional then 0 else 1.

Definition can_open (bidirectional : bool) (st : Streams) : bool :=
  let k := kind_index bidirectional in
  match peer st with Some _ => at_kind k (opened (tx st)) <? at_kind k (peer_max_streams (tx st)) | None => false end.

Definition open (bidirectional : bool) (st : Streams) : outcome StreamError Z :=
  match peer st with
  | None => (Err (Says Blocked), st)
  | Some p =>
      let k := kind_index bidirectional in
      let t := tx st in
      let limit := at_kind k (peer_max_streams t) in
      if limit <=? at_kind k (opened t) then
        let st := with_tx (mk_sending (send_max_data t) (sent_total t) (peer_max_streams t) (opened t) (put_kind k true (open_blocked t))) st in
        let d := due st in
        (Err (Says Blocked),
         if bool_decide (at_kind k (streams_blocked_sent d) = Some limit) then st
         else with_due (mk_due (max_data_pending d) (max_streams_pending d) (data_blocked_sent d) (data_blocked_pending d)
                (put_kind k (Some limit) (streams_blocked_sent d)) (put_kind k true (streams_blocked_pending d))) st)
      else
        let id := make_id (at_kind k (opened t)) k (client (cfg st)) in
        let st := with_tx (mk_sending (send_max_data t) (sent_total t) (peer_max_streams t) (put_kind k (u64 (at_kind k (opened t) + 1)) (opened t)) (open_blocked t)) st in
        let send := new_send (if bidirectional then pl_bidi_remote p else pl_uni p) in
        let recv := if bidirectional then Some (new_recv (bidi_local (cfg st))) else None in
        (Ok id, put_stream id (mk_stream (Some send) recv) st)
  end.

Definition write (id : Z) (d : list Z) (f : bool) (st : Streams) : outcome StreamError Z :=
  match send_of id st with
  | None => (Err (Says Unknown), st)
  | Some s =>
      if negb (bool_decide (s_state s = SOpen)) then
        (Err (Says match s_stopped s, s_state s with
                   | Some c, (SReset | SDone) => StoppedBy c
                   | _, _ => Closed
                   end), st)
      else
        let room := sat_sub (send_buffer (cfg st)) (buffered (s_buf s)) in
        let n := Z.min (len d) room in
        if (n =? 0) && negb (len d =? 0) then (Err (Says Blocked), put_send id (s_with_write_blocked true s) st)
        else
          match SendBuf.write (take (Z.to_nat n) d) (s_buf s) with
          | Err e => (Err (Fails e), st)
          | Ok b =>
              let s := s_with_buf b s in
              let s := if n <? len d then s_with_write_blocked true s
                       else if f then s_with_state SFinished (s_with_buf (finish b) s) else s in
              (Ok n, schedule id (put_send id s st))
          end
  end.

(** [read] into a buffer of [cap] bytes: those read, and whether the stream
    ends with them. *)
Definition read (id : Z) (cap : nat) (st : Streams) : outcome StreamError (list Z * bool) :=
  match recv_of id st with
  | None => (Err (Says Unknown), st)
  | Some r =>
      match r_state r with
      | RReset c => (Err (Says (ResetBy c)), cleanup id (put_recv id (r_with_queued false (r_with_state (RResetRead c) r)) st))
      | RResetRead c => (Err (Says (ResetBy c)), st)
      | RFin => (Ok ([], true), st)
      | ROpen =>
          if r_discard r then (Err (Says Closed), st)
          else
            let '(out, b) := Reassembly.read cap (r_buf r) in
            let r := r_with_buf b r in
            let fin := bool_decide (r_final_size r = Some (read_off b)) in
            if (len out =? 0) && negb fin then
              (if (cap =? 0)%nat then Ok ([], false) else Err (Says Blocked), put_recv id (r_with_queued false r) st)
            else
              let r := if fin then r_with_queued false (r_with_state RFin r)
                       else if Reassembly.readable b =? 0 then r_with_queued false r else r in
              let st := after_consume id (len out) (put_recv id r st) in
              (Ok (out, fin), if fin then cleanup id st else st)
      end
  end.

Definition reset (id error : Z) (st : Streams) : outcome StreamError unit :=
  match send_of id st with
  | None => (Err (Says Unknown), st)
  | Some s => (Ok tt, if sending s then do_reset id error st else st)
  end.

Definition stop_sending (id error : Z) (st : Streams) : outcome StreamError unit :=
  match recv_of id st with
  | None => (Err (Says Unknown), st)
  | Some r =>
      if negb (bool_decide (r_state r = ROpen)) || r_discard r then (Ok tt, st)
      else
        let r := r_with_queued false (r_with_discard true r) in
        (Ok tt, drain id
          (if all_received r then put_recv id r st
           else note id (put_recv id (r_with_stop (Some (mk_stop error true)) r) st)))
  end.

Definition send_room (id : Z) (st : Streams) : option Z :=
  s ← send_of id st; Some (sat_sub (send_buffer (cfg st)) (buffered (s_buf s))).

Definition stream_buffered (id : Z) (st : Streams) : option Z := s ← send_of id st; Some (buffered (s_buf s)).

(** ** What must hold of the accounts *)

Definition count {A} (f : A -> bool) (l : list A) : Z := len (List.filter f l).

(** Whether the sending side of a stream agrees with the queue and the set. *)
Definition check_send_side (st : Streams) (id : Z) (s : Send) : bool :=
  negb (sending s && (s_max_data s <? sent (s_buf s))) &&
  negb (s_queued s && s_parked s) &&
  Bool.eqb (s_queued s) (bool_decide (id ∈ send_queue st)) && Bool.eqb (s_parked s) (contains_key id (parked st)) &&
  negb (bool_decide (s_state s = SReset) && match s_reset s with None => true | Some _ => false end).

Definition check_recv_side (r : Recv) : bool :=
  negb ((r_high r <? read_off (r_buf r)) || (r_max_data r <? r_high r) || (r_high r <? end_offset (r_buf r))) &&
  negb match r_final_size r with Some f => f <? r_high r | None => false end.

Definition check_kind (st : Streams) (k : Z) : bool :=
  negb (at_kind k (peer_max_streams (tx st)) <? at_kind k (opened (tx st))) && negb (at_kind k (max_streams (rx st)) <? at_kind k (peer_opened (rx st))).

(** [check]: whether it answers [Ok]. *)
Definition check (st : Streams) : bool :=
  let flag (f : Send -> bool) (e : Z * Stream) := match st_send (snd e) with Some s => f s | None => false end in
  negb (send_max_data (tx st) <? sent_total (tx st)) &&
  negb ((recv_limit (rx st) <? recv_total (rx st)) || (recv_total (rx st) <? consumed (rx st))) &&
  check_kind st 0 && check_kind st 1 &&
  forallb (fun e => match st_send (snd e) with Some s => check_send_side st (fst e) s | None => true end &&
                    match st_recv (snd e) with Some r => check_recv_side r | None => true end) (streams st) &&
  (count (flag s_queued) (streams st) =? len (send_queue st)) && (count (flag s_parked) (streams st) =? len (parked st)).

(** ** Frames that arrive *)

(** The loop of [open_remote]. *)
Fixpoint open_loop (fuel : nat) (k index : Z) (st : Streams) : option Streams :=
  match fuel with
  | O => None
  | S fuel =>
      let r := rx st in
      let i := at_kind k (peer_opened r) in
      if i <=? index then
        let st := with_rx (mk_receiving (recv_limit r) (recv_total r) (consumed r) (max_streams r) (put_kind k (u64 (i + 1)) (peer_opened r)) (peer_closed r)) st in
        let sid := make_id i k (negb (client (cfg st))) in
        let bidirectional := k =? 0 in
        let send := if bidirectional then Some (new_send match peer st with Some p => pl_bidi_local p | None => 0 end) else None in
        let recv := new_recv (if bidirectional then bidi_remote (cfg st) else uni (cfg st)) in
        open_loop fuel k index (put_stream sid (mk_stream send (Some recv)) st)
      else Some st
  end.

Definition open_remote (id : Z) (st : Streams) : outcome TransportError unit :=
  let k := kind_of id in
  let index := index_of id in
  if at_kind k (max_streams (rx st)) <=? index
  then (Err (Says (transport_error STREAM_LIMIT_ERROR "a stream beyond the limit on the streams the peer may open")), st)
  else match open_loop (S (Z.to_nat (index + 1 - at_kind k (peer_opened (rx st))))) k index st with
       | Some st' => (Ok tt, st')
       | None => (Err (Fails NoFuel), st)
       end.

(** [open_remote(id)?], and whether the stream is kept. *)
Definition opened_remote (id : Z) (st : Streams) : outcome TransportError bool :=
  match open_remote id st with
  | (Ok _, st) => (Ok (contains id st), st)
  | (Err e, st) => (Err e, st)
  end.

Definition not_opened : TransportError := transport_error STREAM_STATE_ERROR "a frame for a stream of ours that was not opened".

Definition check_recv (id : Z) (st : Streams) : outcome TransportError bool :=
  if Bool.eqb (is_client_initiated id) (client (cfg st)) then
    if negb (is_bidirectional id) then (Err (Says (transport_error STREAM_STATE_ERROR "a frame for a stream that only we send on")), st)
    else if at_kind (kind_of id) (opened (tx st)) <=? index_of id then (Err (Says not_opened), st)
    else (Ok (contains id st), st)
  else opened_remote id st.

Definition check_send (id : Z) (st : Streams) : outcome TransportError bool :=
  if Bool.eqb (is_client_initiated id) (client (cfg st)) then
    if at_kind (kind_of id) (opened (tx st)) <=? index_of id then (Err (Says not_opened), st)
    else (Ok (contains id st), st)
  else if negb (is_bidirectional id) then (Err (Says (transport_error STREAM_STATE_ERROR "a frame for a stream that only the peer sends on")), st)
  else opened_remote id st.

(** [if !self.check_...(id)? { return Ok(()) }], and what comes after. *)
Definition when (c : outcome TransportError bool) (k : Streams -> outcome TransportError unit) : outcome TransportError unit :=
  match c with
  | (Ok true, st) => k st
  | (Ok false, st) => (Ok tt, st)
  | (Err e, st) => (Err e, st)
  end.

(** [self.recv_total += n]. *)
Definition received (n : Z) (st : Streams) : Streams :=
  let r := rx st in
  with_rx (mk_receiving (recv_limit r) (u64 (recv_total r + n)) (consumed r) (max_streams r) (peer_opened r) (peer_closed r)) st.

(** The final size that a STREAM frame contradicts. *)
Definition final_size_error (r : Recv) (end_ : Z) (fin : bool) : option string :=
  match r_final_size r with
  | Some fs => if (fs <? end_) || (fin && negb (end_ =? fs)) then Some "stream data that does not agree with the final size"%string else None
  | None => if fin && (end_ <? r_high r) then Some "the end of a stream below data that has come"%string else None
  end.

Definition on_stream (id offset : Z) (d : list Z) (fin : bool) (st : Streams) : outcome TransportError unit :=
  when (check_recv id st) (fun st =>
  match recv_of id st with
  | None => (Ok tt, st)
  | Some r =>
      if negb (bool_decide (r_state r = ROpen)) then (Ok tt, st)
      else
        let end_ := u64 (offset + len d) in
        match final_size_error r end_ fin with
        | Some what => (Err (Says (transport_error FINAL_SIZE_ERROR what)), st)
        | None =>
            if r_max_data r <? end_ then (Err (Says (transport_error FLOW_CONTROL_ERROR "stream data beyond the limit of the stream")), st)
            else
              let delta := sat_sub end_ (r_high r) in
              if recv_limit (rx st) <? u64 (recv_total (rx st) + delta)
              then (Err (Says (transport_error FLOW_CONTROL_ERROR "stream data beyond the limit of the connection")), st)
              else
                let window := u64 (r_max_data r - read_off (r_buf r)) in
                match Reassembly.insert offset d window (r_buf r) with
                | Err Exceeded => (Err (Says (transport_error FLOW_CONTROL_ERROR "stream data beyond the limit of the stream, or in too many pieces")), st)
                | Err Inconsistent => (Err (Says (transport_error PROTOCOL_VIOLATION "stream data that differs from what came before")), st)
                | Err (Reassembly.Fault f) => (Err (Fails f), st)
                | Ok b =>
                    let r := r_with_high (Z.max (r_high r) end_) (r_with_buf b r) in
                    let r := if fin then r_with_final (Some end_) r else r in
                    let st := received delta (put_recv id r st) in
                    (Ok tt,
                     if r_discard r then drain id st
                     else if recv_readable r && negb (r_queued r) then tell (Readable id) (put_recv id (r_with_queued true r) st)
                     else st)
                end
        end
  end).

Definition on_reset_stream (id error final_size : Z) (st : Streams) : outcome TransportError unit :=
  when (check_recv id st) (fun st =>
  match recv_of id st with
  | None => (Ok tt, st)
  | Some r =>
      if match r_final_size r with Some fs => negb (fs =? final_size) | None => false end || (final_size <? r_high r)
      then (Err (Says (transport_error FINAL_SIZE_ERROR "RESET_STREAM with a final size that does not agree with the data")), st)
      else if r_max_data r <? final_size
      then (Err (Says (transport_error FLOW_CONTROL_ERROR "RESET_STREAM with a final size beyond the limit of the stream")), st)
      else
        let delta := u64 (final_size - r_high r) in
        if recv_limit (rx st) <? u64 (recv_total (rx st) + delta)
        then (Err (Says (transport_error FLOW_CONTROL_ERROR "RESET_STREAM with a final size beyond the limit of the connection")), st)
        else if negb (bool_decide (r_state r = ROpen)) then (Ok tt, st)
        else
          let unread := u64 (final_size - read_off (r_buf r)) in
          let r' := r_with_stop None (r_with_buf Reassembly.new (r_with_high final_size (r_with_final (Some final_size) r))) in
          let st := received delta st in
          let st :=
            if negb (r_discard r) then
              let r' := r_with_state (RReset error) r' in
              if r_queued r then put_recv id r' st else tell (Readable id) (put_recv id (r_with_queued true r') st)
            else put_recv id (r_with_state (RResetRead error) r') st in
          let st := grow_connection_window (consume unread st) in
          (Ok tt, if r_discard r then cleanup id st else st)
  end).

Definition on_stop_sending (id error : Z) (st : Streams) : outcome TransportError unit :=
  when (check_send id st) (fun st =>
  match send_of id st with
  | None => (Ok tt, st)
  | Some s =>
      (Ok tt,
       if sending s then do_reset id error (tell (Stopped id error) (put_send id (s_with_stopped (Some error) s) st)) else st)
  end).

(** MAX_DATA: the streams that wait for the connection's credit are looked at
    again, in the order of their ids. *)
Definition on_max_data (max : Z) (st : Streams) : Streams :=
  let t := tx st in
  if send_max_data t <? max then
    let ids := (parked st).*1 in
    let st := with_parked [] (with_tx (mk_sending max (sent_total t) (peer_max_streams t) (opened t) (open_blocked t)) st) in
    fold_left (fun st id => schedule id match send_of id st with Some s => put_send id (s_with_parked false s) st | None => st end) ids st
  else st.

Definition on_max_stream_data (id max : Z) (st : Streams) : outcome TransportError unit :=
  when (check_send id st) (fun st =>
    (Ok tt,
     match send_of id st with
     | Some s => if s_max_data s <? max then schedule id (put_send id (s_with_blocked (s_blocked_sent s) false (s_with_max max s)) st) else st
     | None => st
     end)).

Definition on_max_streams (bidirectional : bool) (max : Z) (st : Streams) : Streams :=
  let k := kind_index bidirectional in
  let t := tx st in
  if at_kind k (peer_max_streams t) <? max then
    let st' := with_tx (mk_sending (send_max_data t) (sent_total t) (put_kind k max (peer_max_streams t)) (opened t) (put_kind k false (open_blocked t))) st in
    if at_kind k (open_blocked t) then tell (Available bidirectional) st' else st'
  else st.

Definition on_frame (f : Frame) (st : Streams) : outcome TransportError unit :=
  match f with
  | Frames.StreamFrame id offset d fin => on_stream id offset d fin st
  | ResetStream id error final_size => on_reset_stream id error final_size st
  | StopSending id error => on_stop_sending id error st
  | MaxData max => (Ok tt, on_max_data max st)
  | MaxStreamData id max => on_max_stream_data id max st
  | MaxStreams bidirectional max => (Ok tt, on_max_streams bidirectional max st)
  | StreamDataBlocked id _ => when (check_recv id st) (fun st => (Ok tt, st))
  | _ => (Ok tt, st)
  end.

(** ** Frames to send *)

Definition either (p : bool * bool) : bool := fst p || snd p.

Definition has_pending (st : Streams) : bool :=
  max_data_pending (due st) || either (max_streams_pending (due st)) || either (streams_blocked_pending (due st)) ||
  (data_blocked_pending (due st) && negb (bool_decide (parked st = []))) ||
  negb (bool_decide (control st = [])) || negb (bool_decide (send_queue st = [])).

(** The streams, the packet and the record of what it carries. *)
Record Writing := mk_writing { wr_streams : Streams; wr_out : list Z; wr_sent : list StreamFrame }.

Abbreviation writes := (stx Writing fault).

Definition on_streams (f : Streams -> Streams) : writes unit := xmod (fun w => mk_writing (f (wr_streams w)) (wr_out w) (wr_sent w)).
Definition record (f : StreamFrame) : writes unit := xmod (fun w => mk_writing (wr_streams w) (wr_out w) (wr_sent w ++ [f])).

(** The due frames of the connection, without one of them. *)
Definition clear_max_data (d : Due) : Due := mk_due false (max_streams_pending d) (data_blocked_sent d) (data_blocked_pending d) (streams_blocked_sent d) (streams_blocked_pending d).
Definition clear_max_streams (k : Z) (d : Due) : Due := mk_due (max_data_pending d) (put_kind k false (max_streams_pending d)) (data_blocked_sent d) (data_blocked_pending d) (streams_blocked_sent d) (streams_blocked_pending d).
Definition clear_data_blocked (d : Due) : Due := mk_due (max_data_pending d) (max_streams_pending d) (data_blocked_sent d) false (streams_blocked_sent d) (streams_blocked_pending d).
Definition clear_streams_blocked (k : Z) (d : Due) : Due := mk_due (max_data_pending d) (max_streams_pending d) (data_blocked_sent d) (data_blocked_pending d) (streams_blocked_sent d) (put_kind k false (streams_blocked_pending d)).
Definition on_due (f : Due -> Due) : writes unit := on_streams (fun st => with_due (f (due st)) st).

Section packet.
(** Where the frames start in [out], and how many bytes there may be. *)
Context (start budget : Z).

Definition put (f : Frame) : writes bool :=
  w ← xget;
  n ← xsome Panic (frame_len f);
  if budget <? len (wr_out w) - start + n then mret false
  else
    out ← xsome Panic (Frames.write f (wr_out w));
    _ ← xput (mk_writing (wr_streams w) out (wr_sent w));
    mret true.

(** A frame that is put if there is room: then [done] and the record. *)
Definition put_due (f : Frame) (sf : StreamFrame) (done : Due -> Due) : writes unit :=
  ok ← put f;
  if ok : bool then _ ← on_due done; record sf else mret tt.

Definition write_max_data : writes unit :=
  w ← xget;
  if max_data_pending (due (wr_streams w))
  then put_due (MaxData (recv_limit (rx (wr_streams w)))) (SfMaxData (recv_limit (rx (wr_streams w)))) clear_max_data
  else mret tt.

Definition write_max_streams (k : Z) : writes unit :=
  w ← xget;
  let st := wr_streams w in
  let max := at_kind k (max_streams (rx st)) in
  if at_kind k (max_streams_pending (due st)) then put_due (MaxStreams (k =? 0) max) (SfMaxStreams (k =? 0) max) (clear_max_streams k) else mret tt.

Definition write_streams_blocked (k : Z) : writes unit :=
  w ← xget;
  let st := wr_streams w in
  let limit := at_kind k (peer_max_streams (tx st)) in
  if at_kind k (streams_blocked_pending (due st)) then
    if negb (at_kind k (open_blocked (tx st))) then on_due (clear_streams_blocked k)
    else put_due (StreamsBlocked (k =? 0) limit) (SfStreamsBlocked (k =? 0) limit) (clear_streams_blocked k)
  else mret tt.

Definition write_data_blocked : writes unit :=
  w ← xget;
  let st := wr_streams w in
  if data_blocked_pending (due st) then
    if bool_decide (parked st = []) then on_due clear_data_blocked
    else put_due (DataBlocked (send_max_data (tx st))) (SfDataBlocked (send_max_data (tx st))) clear_data_blocked
  else mret tt.

(** The frames of a stream in [control]: each part gives the side it leaves,
    and whether there is more. *)
Definition put_side {A} (f : Frame) (sf : StreamFrame) (done kept : A) : writes (A * bool) :=
  ok ← put f;
  if ok : bool then _ ← record sf; mret (done, false) else mret (kept, true).

Definition write_reset (id : Z) (s : Send) : writes (Send * bool) :=
  match s_reset s with
  | Some (mk_reset error final_size true) =>
      put_side (ResetStream id error final_size) (SfResetStream id error final_size) (s_with_reset (Some (mk_reset error final_size false)) s) s
  | _ => mret (s, false)
  end.

Definition write_blocked (id : Z) (s : Send) : writes (Send * bool) :=
  if s_blocked_pending s then
    let limit := match s_blocked_sent s with Some l => l | None => s_max_data s end in
    put_side (StreamDataBlocked id limit) (SfStreamDataBlocked id limit) (s_with_blocked (s_blocked_sent s) false s) s
  else mret (s, false).

Definition write_stop (id : Z) (r : Recv) : writes (Recv * bool) :=
  match r_stop r with
  | Some (mk_stop error true) => put_side (StopSending id error) (SfStopSending id error) (r_with_stop (Some (mk_stop error false)) r) r
  | _ => mret (r, false)
  end.

Definition write_max_stream_data (id : Z) (r : Recv) : writes (Recv * bool) :=
  if r_max_data_pending r
  then put_side (MaxStreamData id (r_max_data r)) (SfMaxStreamData id (r_max_data r)) (r_with_pending false r) r
  else mret (r, false).

(** What is no longer to be said of a receiving side. *)
Definition settle (r : Recv) : Recv :=
  if bool_decide (r_state r = ROpen) then r else r_with_stop None (r_with_pending false r).

Definition write_send_side (id : Z) (o : option Send) : writes (option Send * bool) :=
  match o with
  | Some s =>
      '(s, m1) ← write_reset id s;
      '(s, m2) ← write_blocked id s;
      mret (Some s, m1 || m2)
  | None => mret (None, false)
  end.

Definition write_recv_side (id : Z) (o : option Recv) : writes (option Recv * bool) :=
  match o with
  | Some r =>
      '(r, m1) ← write_stop id (settle r);
      '(r, m2) ← write_max_stream_data id r;
      mret (Some r, m1 || m2)
  | None => mret (None, false)
  end.

Definition forget_control (id : Z) : writes unit := on_streams (fun st => with_control (BTree.remove id (control st)) st).

Definition write_control (id : Z) : writes unit :=
  w ← xget;
  match BTree.get id (streams (wr_streams w)) with
  | None => forget_control id
  | Some x =>
      '(s, m1) ← write_send_side id (st_send x);
      '(r, m2) ← write_recv_side id (st_recv x);
      _ ← on_streams (put_stream id (mk_stream s r));
      if m1 || m2 then mret tt else forget_control id
  end.

Fixpoint for_each (f : Z -> writes unit) (ids : list Z) : writes unit :=
  match ids with [] => mret tt | id :: ids => _ ← f id; for_each f ids end.

(** [while stream_header_len(id, offset, Some(n)) + n > room { n -= 1 }]. *)
Fixpoint shrink (fuel : nat) (id offset room n : Z) : result fault Z :=
  match fuel with
  | O => Err NoFuel
  | S fuel =>
      match stream_header_len id offset (Some n) with
      | None => Err Panic
      | Some h => if room <? h + n then shrink fuel id offset room (u64 (n - 1)) else Ok n
      end
  end.

(** [max_len] of [write_stream_frame]. *)
Definition frame_room (id offset room fill available : Z) : result fault Z :=
  if (fill <=? available) && (0 <? available) then Ok fill else shrink (S (Z.to_nat available)) id offset room available.

Definition lift {A} (r : result fault A) : writes A := fun w => (r, w).

Definition out_mod (f : list Z -> option (list Z)) : writes unit :=
  w ← xget; out ← xsome Panic (f (wr_out w)); xput (mk_writing (wr_streams w) out (wr_sent w)).

(** [self.sent_total += n]. *)
Definition sent_more (n : Z) (st : Streams) : Streams :=
  let t := tx st in
  with_tx (mk_sending (send_max_data t) (u64 (sent_total t + n)) (peer_max_streams t) (opened t) (open_blocked t)) st.

(** [write_stream_frame] once the offset is known, and the header of a frame
    without a Length field. *)
Definition write_chunk (id : Z) (s : Send) (limit offset header room : Z) : writes (option StreamFrame) :=
  let available := peek_len limit (s_buf s) in
  if room <? header + 1 then mret None
  else if (16 <? available) && (room - header <? 16) then mret None
  else
    let fill := room - header in
    max_len ← lift (frame_room id offset room fill available);
    cb ← lift (next_chunk max_len limit (s_buf s));
    match cb with
    | (None, _) => mret None
    | (Some c, b) =>
        let whole := (ck_len c =? fill) && (fill <=? available) in
        _ ← out_mod (fun out => write_stream_header out id (ck_offset c) (if whole then None else Some (ck_len c)) (ck_fin c));
        d ← lift (copy (ck_offset c) (ck_len c) (SendBuf.data b) [] b);
        _ ← out_mod (fun out => Some (out ++ d));
        _ ← on_streams (fun st => sent_more (ck_new c) (put_send id (s_with_buf b s) st));
        mret (Some (SfStream id (ck_offset c) (ck_len c) (ck_fin c)))
    end.

Definition write_stream_frame (id room : Z) : writes (option StreamFrame) :=
  w ← xget;
  match send_of id (wr_streams w) with
  | None => mret None
  | Some s =>
      let limit := Z.min (s_max_data s) (u64 (sent (s_buf s) + conn_room (wr_streams w))) in
      match next_offset (s_buf s) with
      | None => mret None
      | Some offset =>
          header ← xsome Panic (stream_header_len id offset None);
          write_chunk id s limit offset header room
      end
  end.

(** Takes the first stream out of the queue, and looks at it again. *)
Definition requeue (id : Z) (st : Streams) : Streams :=
  let st := with_queue (tail (send_queue st)) st in
  schedule id match send_of id st with Some s => put_send id (s_with_queued false s) st | None => st end.

Definition is_ready (g : Gate) : bool := match g with Ready => true | _ => false end.

(** The loop of [write_frames] over the streams with data. *)
Fixpoint write_data (fuel : nat) : writes unit :=
  match fuel with
  | O => xfail NoFuel
  | S fuel =>
      w ← xget;
      let room := sat_sub budget (len (wr_out w) - start) in
      if room <? 4 then mret tt
      else
        match send_queue (wr_streams w) with
        | [] => mret tt
        | id :: _ =>
            if match send_of id (wr_streams w) with Some s => is_ready (gate s (conn_room (wr_streams w))) | None => false end then
              f ← write_stream_frame id room;
              match f with
              | None => mret tt
              | Some f => _ ← record f; _ ← on_streams (requeue id); write_data fuel
              end
            else _ ← on_streams (requeue id); write_data fuel
        end
  end.

Definition write_all : writes unit :=
  _ ← write_max_data;
  _ ← write_max_streams 0; _ ← write_streams_blocked 0;
  _ ← write_max_streams 1; _ ← write_streams_blocked 1;
  _ ← write_data_blocked;
  w ← xget;
  _ ← for_each write_control (control (wr_streams w)).*1;
  w ← xget;
  write_data (S (Z.to_nat (sat_sub budget (len (wr_out w) - start)) + length (send_queue (wr_streams w)))).

End packet.

(** [write_frames]: the streams, the packet and what was sent. *)
Definition write_frames (out : list Z) (budget : Z) (sent : list StreamFrame) (st : Streams) : result fault unit * Writing :=
  write_all (len out) budget (mk_writing st out sent).

(** ** What became of the frames *)

Definition on_acked (f : StreamFrame) (st : Streams) : result fault Streams :=
  match f with
  | SfStream id offset n fin =>
      match send_of id st with
      | None => Ok st
      | Some s =>
          if negb (sending s) then Ok st
          else
            b ← SendBuf.on_acked offset n fin (s_buf s);
            let s := s_with_buf b s in
            let s := if bool_decide (s_state s = SFinished) && is_fully_acked b then s_with_state SDone s else s in
            let st := if s_write_blocked s && bool_decide (s_state s = SOpen) && (buffered b <=? send_buffer (cfg st) / 2)
                      then tell (Writable id) (put_send id (s_with_write_blocked false s) st) else put_send id s st in
            Ok (cleanup id st)
      end
  | SfResetStream id _ _ =>
      Ok (cleanup id match send_of id st with
        | Some s => if bool_decide (s_state s = SReset) then put_send id (s_with_reset None (s_with_state SDone s)) st else st
        | None => st
        end)
  | _ => Ok st
  end.

Definition due_max_data (d : Due) : Due := mk_due true (max_streams_pending d) (data_blocked_sent d) (data_blocked_pending d) (streams_blocked_sent d) (streams_blocked_pending d).
Definition due_max_streams (k : Z) (d : Due) : Due := mk_due (max_data_pending d) (put_kind k true (max_streams_pending d)) (data_blocked_sent d) (data_blocked_pending d) (streams_blocked_sent d) (streams_blocked_pending d).
Definition due_data_blocked (d : Due) : Due := mk_due (max_data_pending d) (max_streams_pending d) (data_blocked_sent d) true (streams_blocked_sent d) (streams_blocked_pending d).
Definition due_streams_blocked (k : Z) (d : Due) : Due := mk_due (max_data_pending d) (max_streams_pending d) (data_blocked_sent d) (data_blocked_pending d) (streams_blocked_sent d) (put_kind k true (streams_blocked_pending d)).

Definition on_lost (f : StreamFrame) (st : Streams) : result fault Streams :=
  match f with
  | SfStream id offset n fin =>
      match send_of id st with
      | None => Ok st
      | Some s =>
          if negb (sending s) then Ok st
          else b ← SendBuf.on_lost offset n fin (s_buf s); Ok (schedule id (put_send id (s_with_buf b s) st))
      end
  | SfResetStream id _ _ =>
      Ok match send_of id st with
      | Some s =>
          match s_reset s with
          | Some x => if bool_decide (s_state s = SReset)
                      then note id (put_send id (s_with_reset (Some (mk_reset (rs_error x) (rs_final_size x) true)) s) st) else st
          | None => st
          end
      | None => st
      end
  | SfStopSending id _ =>
      Ok match recv_of id st with
      | Some r =>
          match r_stop r with
          | Some x => if bool_decide (r_state r = ROpen) then note id (put_recv id (r_with_stop (Some (mk_stop (st_error x) true)) r) st) else st
          | None => st
          end
      | None => st
      end
  | SfMaxData v => Ok (if v =? recv_limit (rx st) then with_due (due_max_data (due st)) st else st)
  | SfMaxStreamData id max =>
      Ok match recv_of id st with
      | Some r => if bool_decide (r_state r = ROpen) && (r_max_data r =? max) then note id (put_recv id (r_with_pending true r) st) else st
      | None => st
      end
  | SfMaxStreams bidirectional max =>
      let k := kind_index bidirectional in
      Ok (if at_kind k (max_streams (rx st)) =? max then with_due (due_max_streams k (due st)) st else st)
  | SfDataBlocked v =>
      Ok (if (v =? send_max_data (tx st)) && negb (bool_decide (parked st = [])) then with_due (due_data_blocked (due st)) st else st)
  | SfStreamDataBlocked id limit =>
      Ok match send_of id st with
      | Some s => if (s_max_data s =? limit) && sending s then note id (put_send id (s_with_blocked (s_blocked_sent s) true s) st) else st
      | None => st
      end
  | SfStreamsBlocked bidirectional limit =>
      let k := kind_index bidirectional in
      Ok (if at_kind k (open_blocked (tx st)) && (at_kind k (peer_max_streams (tx st)) =? limit) then with_due (due_streams_blocked k (due st)) st else st)
  end.
