(* ===== verification/StreamsOk.v ===== *)
(** The invariant of the streams of a connection, and what each operation
    does to it.

    The invariant [inv] has a part for the sending sides ([send_ok], with
    [settled]: a stream that could send is in the queue, one that waits for
    the connection's credit is parked), one for the receiving sides
    ([recv_ok]), and the accounts ([credit_ok], [kinds_ok]).  A change of one
    side of one stream ([send_change], [recv_change]), of the set of streams
    ([cleanup_ok], [add_stream]) or of the connection's fields keeps it under
    the conditions of these lemmas, and the operations are made of those
    changes.  [evolves] says how the sending sides may move, which the frames
    in flight rely on. *)

From Stdlib Require Import ZArith Lia.
From stdpp Require Import base option numbers list_numbers list.
From S2P Require Import Prelude BTree Slice RangeSet Wire Frames Reassembly SendBuf Streams.

#[local] Open Scope Z_scope.

#[local] Abbreviation total := Slice.total.

(** ** Ids *)

Lemma land_1 a : Z.land a 1 = a mod 2.
Proof. exact (land_low a 1 ltac:(lia)). Qed.

Lemma kind_of_eq id : kind_of id = (id / 2) mod 2.
Proof. unfold kind_of. rewrite land_1, Z.shiftr_div_pow2 by lia. done. Qed.

Lemma index_of_eq id : index_of id = id / 4.
Proof. unfold index_of. by rewrite Z.shiftr_div_pow2 by lia. Qed.

Lemma client_eq id : is_client_initiated id = (id mod 2 =? 0).
Proof. unfold is_client_initiated. by rewrite land_1. Qed.

Lemma kind_range id : kind_of id = 0 \/ kind_of id = 1.
Proof. rewrite kind_of_eq. assert (H := Z.mod_pos_bound (id / 2) 2 ltac:(lia)). lia. Qed.

Lemma bidi_eq id : is_bidirectional id = (kind_of id =? 0).
Proof.
  unfold is_bidirectional, kind_of. rewrite !Z.eqb_compare. change 2 with (Z.shiftl 1 1) at 1. rewrite <- Z.eqb_compare, <- Z.eqb_compare.
  destruct (Z.eqb_spec (Z.land id (Z.shiftl 1 1)) 0) as [H|H], (Z.eqb_spec (Z.land (Z.shiftr id 1) 1) 0) as [H'|H']; try done; exfalso.
  - apply H'. change 1 with (Z.shiftr (Z.shiftl 1 1) 1) at 2. rewrite <- Z.shiftr_land, H. done.
  - apply H. rewrite <- (Z.shiftl_0_l 1), <- H', Z.shiftl_land. apply Z.bits_inj'. intros n Hn. rewrite !Z.land_spec, !Z.shiftl_spec by done.
    destruct (Z.eq_dec n 0) as [->|]; [by rewrite !andb_false_r|]. rewrite Z.shiftr_spec by lia. by replace (n - 1 + 1) with n by lia.
Qed.

Lemma make_id_eq i k c : 0 <= i <= MAX_STREAMS_LIMIT -> k = 0 \/ k = 1 -> make_id i k c = 4 * i + 2 * k + b2z (negb c).
Proof.
  intros Hi Hk. unfold make_id. change MAX_STREAMS_LIMIT with 1152921504606846976 in Hi. assert (Hb := b2z_range (negb c)).
  rewrite (Z.shiftl_mul_pow2 i) by lia. rewrite u64_small by (unfold U64_MAX; lia). rewrite (Z.shiftl_mul_pow2 k) by lia.
  rewrite (Z.lor_comm (i * 2 ^ 2)), <- (Z.shiftl_mul_pow2 i) by lia. rewrite lor_shift by lia. rewrite Z.lor_comm.
  replace (k * 2 ^ 1 + i * 2 ^ 2) with ((k + 2 * i) * 2 ^ 1) by lia. rewrite <- (Z.shiftl_mul_pow2 (k + 2 * i)) by lia. rewrite lor_shift by lia. lia.
Qed.

Lemma make_id_parts i k c : 0 <= i <= MAX_STREAMS_LIMIT -> k = 0 \/ k = 1 ->
  let id := make_id i k c in 0 <= id /\ kind_of id = k /\ index_of id = i /\ is_client_initiated id = c.
Proof.
  intros Hi Hk. cbn zeta. rewrite make_id_eq by done. rewrite kind_of_eq, index_of_eq, client_eq. assert (Hb := b2z_range (negb c)).
  split; [lia|]. split; [|split].
  - replace (4 * i + 2 * k + b2z (negb c)) with (b2z (negb c) + (2 * i + k) * 2) by lia. rewrite Z.div_add, (Z.div_small (b2z _)) by lia.
    replace (0 + (2 * i + k)) with (k + i * 2) by lia. rewrite Z.mod_add by lia. apply Z.mod_small. lia.
  - replace (4 * i + 2 * k + b2z (negb c)) with (2 * k + b2z (negb c) + i * 4) by lia. rewrite Z.div_add, Z.div_small by lia. lia.
  - replace (4 * i + 2 * k + b2z (negb c)) with (b2z (negb c) + (2 * i + k) * 2) by lia. rewrite Z.mod_add by lia. rewrite Z.mod_small by lia. by destruct c.
Qed.

Lemma id_parts id id' : is_client_initiated id = is_client_initiated id' -> kind_of id = kind_of id' -> index_of id = index_of id' -> id = id'.
Proof.
  rewrite !client_eq, !kind_of_eq, !index_of_eq. intros Hc Hk Hi.
  assert (H1 := Z.div_mod id 4 ltac:(lia)). assert (H2 := Z.div_mod id' 4 ltac:(lia)).
  assert (H3 : forall x, x mod 4 = 2 * ((x / 2) mod 2) + x mod 2) by (intros x; change 4 with (2 * 2) at 1; rewrite Z.rem_mul_r by lia; lia).
  rewrite !H3 in *. assert (Hm1 := Z.mod_pos_bound id 2 ltac:(lia)). assert (Hm2 := Z.mod_pos_bound id' 2 ltac:(lia)).
  destruct (Z.eqb_spec (id mod 2) 0), (Z.eqb_spec (id' mod 2) 0); (done || lia).
Qed.

Lemma at_put {A} k k' (a : A) p : k = 0 \/ k = 1 -> k' = 0 \/ k' = 1 -> at_kind k' (put_kind k a p) = if k' =? k then a else at_kind k' p.
Proof. by intros [-> | ->] [-> | ->]; destruct p. Qed.

(** ** The gate of a sending side *)

Lemma gate_sending s room : sending s = false -> gate s room = Nothing.
Proof. intros H. unfold gate. by rewrite H. Qed.

(** Without credit of the connection mattering, the answer is the same. *)
Lemma gate_room s room room' : gate s room = Nothing \/ gate s room = StreamBlocked -> gate s room' = gate s room.
Proof.
  unfold gate. destruct (negb (sending s) || negb (SendBuf.has_pending (s_buf s))) eqn:Hp; [done|].
  unfold has_pending_within. destruct (negb (is_empty (lost (s_buf s)))); cbn [orb]; [by intros [H|H]|].
  destruct (fin (s_buf s) && (next (s_buf s) =? written (s_buf s))); rewrite ?orb_true_r, ?orb_false_r; [by intros [H|H]|].
  destruct (Z.leb_spec (s_max_data s) (sent (s_buf s))) as [Hle|Hlt].
  - intros _. unfold sent in *. rewrite !(proj2 (Z.ltb_ge _ _)) by lia. done.
  - by destruct (_ <? _); intros [H|H].
Qed.

(** With less credit, what could not be sent still cannot. *)
Lemma gate_less s room room' : 0 <= room' <= room -> sent (s_buf s) + room <= U64_MAX -> 0 <= sent (s_buf s) -> gate s room <> Ready -> gate s room' = gate s room.
Proof.
  intros Hr Hu Hs. unfold gate. destruct (negb (sending s) || negb (SendBuf.has_pending (s_buf s))) eqn:Hp; [done|].
  rewrite !u64_small by lia. unfold has_pending_within. destruct (negb (is_empty (lost (s_buf s)))); cbn [orb]; [done|].
  destruct (fin (s_buf s) && (next (s_buf s) =? written (s_buf s))); rewrite ?orb_true_r, ?orb_false_r; [done|].
  set (a := next (s_buf s) <? Z.min (written (s_buf s)) (Z.min (s_max_data s) (sent (s_buf s) + room'))).
  destruct (Z.ltb_spec (next (s_buf s)) (Z.min (written (s_buf s)) (Z.min (s_max_data s) (sent (s_buf s) + room)))); [by intros []|].
  intros _. unfold a. by rewrite (proj2 (Z.ltb_ge _ _)) by lia.
Qed.

(** ** The map of the streams *)

Abbreviation smap := (list (Z * Stream)).

Definition snd_in (id : Z) (m : smap) : option Send := BTree.get id m ≫= st_send.
Definition rcv_in (id : Z) (m : smap) : option Recv := BTree.get id m ≫= st_recv.

Definition set_send (id : Z) (s : Send) (m : smap) : smap :=
  match BTree.get id m with Some x => BTree.insert id (mk_stream (Some s) (st_recv x)) m | None => m end.
Definition set_recv (id : Z) (r : Recv) (m : smap) : smap :=
  match BTree.get id m with Some x => BTree.insert id (mk_stream (st_send x) (Some r)) m | None => m end.

#[global] Arguments snd_in _ _ : simpl never.
#[global] Arguments rcv_in _ _ : simpl never.
#[global] Arguments set_send _ _ _ : simpl never.
#[global] Arguments set_recv _ _ _ : simpl never.

Lemma put_send_streams id s st : put_send id s st = with_streams (set_send id s (streams st)) st.
Proof. unfold put_send, set_send. destruct (BTree.get id (streams st)); [done|]. by destruct st. Qed.

Lemma put_recv_streams id r st : put_recv id r st = with_streams (set_recv id r (streams st)) st.
Proof. unfold put_recv, set_recv. destruct (BTree.get id (streams st)); [done|]. by destruct st. Qed.

Lemma snd_get id m s : snd_in id m = Some s -> exists x, BTree.get id m = Some x /\ st_send x = Some s.
Proof. unfold snd_in. destruct (BTree.get id m) as [x|]; [|done]. by exists x. Qed.

Lemma rcv_get id m r : rcv_in id m = Some r -> exists x, BTree.get id m = Some x /\ st_recv x = Some r.
Proof. unfold rcv_in. destruct (BTree.get id m) as [x|]; [|done]. by exists x. Qed.

Lemma snd_set_send id id' s m : is_Some (snd_in id m) -> snd_in id' (set_send id s m) = if id' =? id then Some s else snd_in id' m.
Proof.
  intros [s0 (x & Hx & _)%snd_get]. unfold snd_in, set_send. rewrite Hx, get_insert. by destruct (id' =? id).
Qed.

Lemma rcv_set_send id id' s m : rcv_in id' (set_send id s m) = rcv_in id' m.
Proof.
  unfold rcv_in, set_send. destruct (BTree.get id m) as [x|] eqn:Hx; [|done]. rewrite get_insert. destruct (Z.eqb_spec id' id) as [->|]; [by rewrite Hx|done].
Qed.

Lemma rcv_set_recv id id' r m : is_Some (rcv_in id m) -> rcv_in id' (set_recv id r m) = if id' =? id then Some r else rcv_in id' m.
Proof.
  intros [s0 (x & Hx & _)%rcv_get]. unfold rcv_in, set_recv. rewrite Hx, get_insert. by destruct (id' =? id).
Qed.

Lemma snd_set_recv id id' r m : snd_in id' (set_recv id r m) = snd_in id' m.
Proof.
  unfold snd_in, set_recv. destruct (BTree.get id m) as [x|] eqn:Hx; [|done]. rewrite get_insert. destruct (Z.eqb_spec id' id) as [->|]; [by rewrite Hx|done].
Qed.

Lemma set_send_sorted id s m : sorted m -> sorted (set_send id s m).
Proof. intros H. unfold set_send. destruct (BTree.get id m); [by apply insert_sorted|done]. Qed.

Lemma set_recv_sorted id r m : sorted m -> sorted (set_recv id r m).
Proof. intros H. unfold set_recv. destruct (BTree.get id m); [by apply insert_sorted|done]. Qed.

Lemma insert_insert {V} k (v v' : V) m : BTree.insert k v' (BTree.insert k v m) = BTree.insert k v' m.
Proof.
  induction m as [|[k0 v0] m IH]; cbn [BTree.insert]; [by rewrite Z.ltb_irrefl, Z.eqb_refl|]. destruct (Z.ltb_spec k k0); cbn [BTree.insert].
  - by rewrite Z.ltb_irrefl, Z.eqb_refl.
  - destruct (Z.eqb_spec k k0) as [->|]; cbn [BTree.insert]; [by rewrite Z.ltb_irrefl, Z.eqb_refl|].
    rewrite (proj2 (Z.ltb_ge _ _)), (proj2 (Z.eqb_neq _ _)) by lia. by f_equal.
Qed.

Lemma insert_get {V} k (v : V) m : sorted m -> BTree.get k m = Some v -> BTree.insert k v m = m.
Proof.
  intros Hs. induction m as [|[k0 v0] m IH]; intros Hg; [done|]. destruct (sorted_above _ _ _ Hs) as [Ha Hs']. cbn [BTree.insert BTree.get] in *.
  destruct (Z.eqb_spec k k0) as [->|Hne]; [injection Hg as ->; by rewrite Z.ltb_irrefl|]. assert (H := Hg). apply get_in in H; [|done]. apply Ha in H. simpl in H.
  rewrite (proj2 (Z.ltb_ge _ _)) by lia. f_equal. by apply IH.
Qed.

Lemma set_recv_recv id r r' m : set_recv id r' (set_recv id r m) = set_recv id r' m.
Proof. unfold set_recv. destruct (BTree.get id m) as [x|] eqn:Hx; [|by rewrite Hx]. rewrite get_insert, Z.eqb_refl. cbn [st_send]. apply insert_insert. Qed.

Lemma set_recv_same id r m : sorted m -> rcv_in id m = Some r -> set_recv id r m = m.
Proof. intros Hs (x & Hx & Hr)%rcv_get. unfold set_recv. rewrite Hx. apply insert_get; [done|]. rewrite Hx. destruct x. cbn in *. by subst. Qed.

Lemma set_send_send id s s' m : set_send id s' (set_send id s m) = set_send id s' m.
Proof. unfold set_send. destruct (BTree.get id m) as [x|] eqn:Hx; [|by rewrite Hx]. rewrite get_insert, Z.eqb_refl. cbn [st_recv]. apply insert_insert. Qed.

Lemma set_send_same id s m : sorted m -> snd_in id m = Some s -> set_send id s m = m.
Proof. intros Hs (x & Hx & Hr)%snd_get. unfold set_send. rewrite Hx. apply insert_get; [done|]. rewrite Hx. destruct x. cbn in *. by subst. Qed.

(** Sums over the map. *)
Lemma total_put (f : Z * Stream -> Z) id x x' m : sorted m -> BTree.get id m = Some x ->
  total f (BTree.insert id x' m) = total f m - f (id, x) + f (id, x').
Proof.
  intros Hs Hx. rewrite (total_perm f _ _ (replace_perm id x x' m Hs Hx)). rewrite (total_perm f m _ (remove_perm id x m Hs Hx)). cbn [total foldr]. fold (total f (BTree.remove id m)). lia.
Qed.

Lemma total_new (f : Z * Stream -> Z) id x m : sorted m -> BTree.get id m = None -> total f (BTree.insert id x m) = f (id, x) + total f m.
Proof. intros Hs Hx. by rewrite (total_perm f _ _ (insert_perm id x m Hs Hx)). Qed.

Lemma total_gone (f : Z * Stream -> Z) id x m : sorted m -> BTree.get id m = Some x -> total f (BTree.remove id m) = total f m - f (id, x).
Proof. intros Hs Hx. rewrite (total_perm f m _ (remove_perm id x m Hs Hx)). cbn [total foldr]. fold (total f (BTree.remove id m)). lia. Qed.

(** A sum that looks at the other side only, or at neither. *)
Lemma total_set_send (f : Z * Stream -> Z) id s m : sorted m -> (forall i x o, f (i, mk_stream o (st_recv x)) = f (i, x)) -> total f (set_send id s m) = total f m.
Proof. intros Hs Hf. unfold set_send. destruct (BTree.get id m) as [x|] eqn:Hx; [|done]. rewrite (total_put f id x) by done. rewrite (Hf id x). lia. Qed.

Lemma total_set_recv (f : Z * Stream -> Z) id r m : sorted m -> (forall i x o, f (i, mk_stream (st_send x) o) = f (i, x)) -> total f (set_recv id r m) = total f m.
Proof. intros Hs Hf. unfold set_recv. destruct (BTree.get id m) as [x|] eqn:Hx; [|done]. rewrite (total_put f id x) by done. rewrite (Hf id x). lia. Qed.

(** ** The invariant *)

Definition local (c : StreamsConfig) (id : Z) : bool := Bool.eqb (is_client_initiated id) (client c).

(** The stream was opened, by us or by the peer. *)
Definition issued (c : StreamsConfig) (t : Sending) (r : Receiving) (id : Z) : Prop :=
  0 <= id /\ index_of id < at_kind (kind_of id) (if local c id then opened t else peer_opened r).

(** How much a stream may be sent at a time. *)
Definition window_of (c : StreamsConfig) (id : Z) : Z :=
  if local c id then bidi_local c else if is_bidirectional id then bidi_remote c else uni c.

(** The sides a stream has, and its window. *)
Definition shape (c : StreamsConfig) (id : Z) (x : Stream) : Prop :=
  (is_Some (st_send x) <-> local c id = true \/ is_bidirectional id = true) /\
  (is_Some (st_recv x) <-> local c id = false \/ is_bidirectional id = true) /\
  forall r, st_recv x = Some r -> r_window r = window_of c id.

(** A sending side. *)
Record send_ok (queue : list Z) (park : idset) (id : Z) (s : Send) : Prop := mk_send_ok {
  so_buf : exists w, SendBuf.wf w (s_buf s);
  so_max : field (s_max_data s);
  so_state : match s_state s with SOpen => fin (s_buf s) = false | SFinished => fin (s_buf s) = true | SReset => is_Some (s_reset s) | SDone => True end;
  so_limit : sending s = true -> sent (s_buf s) <= s_max_data s;
  so_quiet : sending s = false -> s_parked s = false;
  so_reset : forall x, s_reset s = Some x -> field (rs_error x) /\ field (rs_final_size x);
  so_blocked : forall v, s_blocked_sent s = Some v -> field v;
  so_queued : s_queued s = true <-> id ∈ queue;
  so_parked : contains_key id park = true -> s_parked s = true;
}.

(** It waits where it should. *)
Record settled (room : Z) (park : idset) (id : Z) (s : Send) : Prop := mk_settled {
  sd_parked : s_parked s = contains_key id park;
  sd_queued : s_queued s = true -> s_parked s = false;
  sd_ready : s_queued s = false -> gate s room <> Ready;
  sd_conn : s_queued s = false -> gate s room = ConnBlocked <-> s_parked s = true;
  sd_stream : s_queued s = false -> gate s room = StreamBlocked -> s_blocked_sent s = Some (s_max_data s);
}.

(** A receiving side. *)
Definition unread (r : Recv) : Z := match r_state r with ROpen | RFin => r_high r - read_off (r_buf r) | _ => 0 end.

(** There is no credit to give: less than half of the window was used. *)
Definition topped_up (limit used window : Z) : Prop := ~ (limit < used + window /\ window / 2 <= used + window - limit).

Record recv_ok (r : Recv) : Prop := mk_recv_ok {
  ro_buf : Reassembly.wf (r_buf r) /\ within_limit (r_buf r);
  ro_end : end_offset (r_buf r) <= r_high r <= r_max_data r;
  ro_window : field (r_window r);
  ro_limit : r_max_data r <= match r_state r with ROpen | RFin => read_off (r_buf r) | _ => r_high r end + r_window r;
  ro_final : forall f, r_final_size r = Some f -> f = r_high r;
  ro_state : match r_state r with ROpen => True | RFin => r_final_size r = Some (read_off (r_buf r)) | _ => r_final_size r = Some (r_high r) /\ r_buf r = Reassembly.new end;
  ro_credit : r_state r = ROpen -> r_final_size r = None -> topped_up (r_max_data r) (read_off (r_buf r)) (r_window r);
  ro_stop : forall x, r_stop r = Some x -> field (st_error x);
}.

Definition unread_in (e : Z * Stream) : Z := match st_recv (snd e) with Some r => unread r | None => 0 end.

(** The accounts of the connection. *)
Record credit_ok (c : StreamsConfig) (r : Receiving) (m : smap) : Prop := mk_credit_ok {
  co_consumed : 0 <= consumed r;
  co_total : recv_total r = consumed r + total unread_in m;
  co_limit : recv_total r <= recv_limit r <= consumed r + max_data c;
  co_credit : topped_up (recv_limit r) (consumed r) (max_data c);
}.

Definition initial_streams (c : StreamsConfig) (k : Z) : Z := if k =? 0 then max_streams_bidi c else max_streams_uni c.

(** A stream of the peer's, of a kind. *)
Definition peers (c : StreamsConfig) (k : Z) (e : Z * Stream) : Z := b2z (negb (local c (fst e)) && (kind_of (fst e) =? k)).

Record kinds_ok (c : StreamsConfig) (r : Receiving) (m : smap) (k : Z) : Prop := mk_kinds_ok {
  ko_closed : 0 <= at_kind k (peer_closed r);
  ko_open : at_kind k (peer_opened r) = at_kind k (peer_closed r) + total (peers c k) m;
  ko_limit : at_kind k (peer_opened r) <= at_kind k (max_streams r) <= MAX_STREAMS_LIMIT;
  ko_most : at_kind k (max_streams r) <= initial_streams c k + at_kind k (peer_closed r);
  ko_credit : Z.min (initial_streams c k + at_kind k (peer_closed r)) MAX_STREAMS_LIMIT < at_kind k (max_streams r) + Z.max (initial_streams c k / 2) 1;
}.

Record sending_ok (t : Sending) (p : option PeerLimits) : Prop := mk_sending_ok {
  to_sent : 0 <= sent_total t <= send_max_data t;
  to_max : send_max_data t <= MAX_VARINT;
  to_opened : forall k, k = 0 \/ k = 1 -> 0 <= at_kind k (opened t) <= at_kind k (peer_max_streams t) /\ at_kind k (peer_max_streams t) <= MAX_STREAMS_LIMIT;
  to_peer : p = None -> opened t = (0, 0);
  to_limits : forall l, p = Some l -> field (pl_bidi_local l) /\ field (pl_bidi_remote l) /\ field (pl_uni l);
}.

Record config_ok (c : StreamsConfig) : Prop := mk_config_ok {
  cf_data : field (max_data c) /\ field (bidi_local c) /\ field (bidi_remote c) /\ field (uni c);
  cf_streams : 0 <= max_streams_bidi c <= MAX_STREAMS_LIMIT /\ 0 <= max_streams_uni c <= MAX_STREAMS_LIMIT;
  cf_buffer : 0 <= send_buffer c <= MAX_VARINT;
}.

(** The streams [ex] are not settled: they are about to be looked at. *)
Record inv (ex : list Z) (st : Streams) : Prop := mk_inv {
  iv_cfg : config_ok (cfg st);
  iv_sorted : sorted (streams st) /\ sorted (control st) /\ sorted (parked st);
  iv_ids : forall id x, BTree.get id (streams st) = Some x -> issued (cfg st) (tx st) (rx st) id /\ shape (cfg st) id x;
  iv_send : forall id s, snd_in id (streams st) = Some s ->
    send_ok (send_queue st) (parked st) id s /\ (id ∉ ex -> settled (conn_room st) (parked st) id s);
  iv_recv : forall id r, rcv_in id (streams st) = Some r -> recv_ok r;
  iv_queue : NoDup (send_queue st) /\ forall id, id ∈ send_queue st -> issued (cfg st) (tx st) (rx st) id;
  iv_parked : forall id, contains_key id (parked st) = true -> is_Some (snd_in id (streams st));
  iv_tx : sending_ok (tx st) (peer st);
  iv_credit : credit_ok (cfg st) (rx st) (streams st);
  iv_kinds : forall k, k = 0 \/ k = 1 -> kinds_ok (cfg st) (rx st) (streams st) k;
  iv_said : parked st <> [] -> data_blocked_sent (due st) = Some (send_max_data (tx st));
}.

(** The limits that are given are those a frame can say. *)
Record fits (st : Streams) : Prop := mk_fits {
  ft_limit : recv_limit (rx st) <= MAX_VARINT;
  ft_recv : forall id r, rcv_in id (streams st) = Some r -> r_max_data r <= MAX_VARINT;
  ft_send : forall id s, snd_in id (streams st) = Some s -> written (s_buf s) <= MAX_VARINT;
}.

(** What is written and not acknowledged is within the configured bound. *)
Definition small_send (c : StreamsConfig) (s : Send) : Prop := buffered (s_buf s) <= send_buffer c.
Definition small (st : Streams) : Prop := forall id s, snd_in id (streams st) = Some s -> small_send (cfg st) s.

(** What the state may become: what was sent of a stream stays sent. *)
Record evolves (st st' : Streams) : Prop := mk_evolves {
  ev_cfg : cfg st' = cfg st;
  ev_issued : forall id, issued (cfg st) (tx st) (rx st) id -> issued (cfg st') (tx st') (rx st') id;
  ev_sent : forall id s', issued (cfg st) (tx st) (rx st) id -> snd_in id (streams st') = Some s' -> sending s' = true ->
    exists s, snd_in id (streams st) = Some s /\ sending s = true /\ next (s_buf s) <= next (s_buf s');
  ev_small : small st -> small st';
}.

Lemma evolves_refl st : evolves st st.
Proof. split; try done. intros id s' _ Hs Hl. exists s'. split; [done|]. split; [done|lia]. Qed.

Lemma evolves_trans st1 st2 st3 : evolves st1 st2 -> evolves st2 st3 -> evolves st1 st3.
Proof.
  intros [C1 I1 E1 S1] [C2 I2 E2 S2]. split; [congruence|auto| |auto]. intros id s3 Hi Hs Hl. destruct (E2 id s3 (I1 _ Hi) Hs Hl) as (s2 & H2 & L2 & N2).
  destruct (E1 id s2 Hi H2 L2) as (s1 & H1 & L1 & N1). exists s1. split; [done|]. split; [done|lia].
Qed.

(** ** Changing one side *)

Lemma sent_range q p id s : send_ok q p id s -> 0 <= sent (s_buf s) <= written (s_buf s).
Proof. intros H. destruct (so_buf _ _ _ _ H) as [w Hw]. unfold sent. assert (Hn := wf_next _ _ Hw). assert (Hb := wf_base _ _ Hw). rewrite (wf_written _ _ Hw). lia. Qed.

Lemma gate_mono q p id s room room' : send_ok q p id s -> 0 <= room' <= room -> room <= MAX_VARINT -> gate s room <> Ready -> gate s room' = gate s room.
Proof.
  intros Hs Hr Hm Hg. destruct (sending s) eqn:Hl; [|by rewrite !gate_sending]. assert (H1 := sent_range _ _ _ _ Hs). assert (H2 := so_limit _ _ _ _ Hs Hl). assert (H3 := so_max _ _ _ _ Hs).
  apply gate_less; [done| |lia|done]. unfold field in H3. change MAX_VARINT with 4611686018427387903 in *. unfold U64_MAX. lia.
Qed.

Lemma settled_less q p p' id s room room' : send_ok q p id s -> 0 <= room' <= room -> room <= MAX_VARINT -> contains_key id p' = contains_key id p ->
  settled room p id s -> settled room' p' id s.
Proof.
  intros Hs Hr Hm Hp [H1 H2 H3 H4 H5]. assert (Hg : s_queued s = false -> gate s room' = gate s room) by (intros Hq; by eapply gate_mono; eauto).
  split; [by rewrite Hp|done| | |]; intros Hq; rewrite (Hg Hq); auto.
Qed.

Lemma send_ok_same q q' p p' id s : (id ∈ q' <-> id ∈ q) -> contains_key id p' = contains_key id p -> send_ok q p id s -> send_ok q' p' id s.
Proof. intros Hq Hp [H1 H2 H3 H4 H5 H6 H7 H8 H9]. split; try done; [by rewrite Hq|by rewrite Hp]. Qed.

Lemma room_range st : sending_ok (tx st) (peer st) -> 0 <= conn_room st <= MAX_VARINT /\ conn_room st = send_max_data (tx st) - sent_total (tx st).
Proof. intros [H1 H2 _ _ _]. unfold conn_room, sat_sub. lia. Qed.

Lemma set_send_get id s m id' x : BTree.get id' (set_send id s m) = Some x ->
  exists x0, BTree.get id' m = Some x0 /\ st_recv x = st_recv x0 /\ (if id' =? id then st_send x = Some s else st_send x = st_send x0).
Proof.
  unfold set_send. destruct (BTree.get id m) as [x0|] eqn:H0; [|intros H; exists x; split; [done|]; split; [done|]; destruct (Z.eqb_spec id' id); [congruence|done]].
  rewrite get_insert. destruct (Z.eqb_spec id' id) as [->|]; [intros [= <-]; by exists x0|intros H; by exists x].
Qed.

Lemma set_recv_get id r m id' x : BTree.get id' (set_recv id r m) = Some x ->
  exists x0, BTree.get id' m = Some x0 /\ st_send x = st_send x0 /\ (if id' =? id then st_recv x = Some r else st_recv x = st_recv x0).
Proof.
  unfold set_recv. destruct (BTree.get id m) as [x0|] eqn:H0; [|intros H; exists x; split; [done|]; split; [done|]; destruct (Z.eqb_spec id' id); [congruence|done]].
  rewrite get_insert. destruct (Z.eqb_spec id' id) as [->|]; [intros [= <-]; by exists x0|intros H; by exists x].
Qed.

Lemma kinds_same c r m m' k : total (peers c k) m' = total (peers c k) m -> kinds_ok c r m k -> kinds_ok c r m' k.
Proof. intros Ht [H1 H2 H3 H4 H5]. split; try done. by rewrite Ht. Qed.

(** A sending side changes, and the queues with it. *)
Lemma send_change ex ex' st st' id s s' :
  inv ex st -> snd_in id (streams st) = Some s ->
  cfg st' = cfg st /\ peer st' = peer st /\ rx st' = rx st /\ streams st' = set_send id s' (streams st) ->
  opened (tx st') = opened (tx st) /\ peer_max_streams (tx st') = peer_max_streams (tx st) /\ send_max_data (tx st') = send_max_data (tx st) /\
    sent_total (tx st) <= sent_total (tx st') <= send_max_data (tx st) ->
  sorted (control st') -> sorted (parked st') -> NoDup (send_queue st') ->
  (forall id', id' <> id -> (id' ∈ send_queue st' <-> id' ∈ send_queue st) /\ contains_key id' (parked st') = contains_key id' (parked st)) ->
  (forall id', id' ∉ ex' -> id' <> id -> id' ∉ ex) ->
  (parked st' <> [] -> data_blocked_sent (due st') = Some (send_max_data (tx st))) ->
  send_ok (send_queue st') (parked st') id s' ->
  (id ∉ ex' -> settled (conn_room st') (parked st') id s') ->
  inv ex' st'.
Proof.
  intros [V1 [V2 [V2' V2'']] V3 V4 V5 V6 V7 V8 V9 V10 V11] Hs (Hcfg & Hpeer & Hrx & Hst) (Ho & Hp & Hmx & Hsent) Hctl Hpk Hnd Hother Hex Hsaid Hok Hset.
  assert (Hroom := room_range st V8). assert (Hroom' : 0 <= conn_room st' <= conn_room st) by (rewrite (proj2 Hroom); unfold conn_room, sat_sub; rewrite Hmx; lia).
  assert (Hsome : is_Some (snd_in id (streams st))) by eauto.
  split; rewrite ?Hcfg, ?Hrx, ?Hpeer, ?Hst; try done.
  - split; [by apply set_send_sorted|done].
  - intros id' x (x0 & Hx0 & Hr & Hx)%set_send_get. destruct (V3 id' x0 Hx0) as [H1 [H2 H3]]. unfold issued in *. rewrite Ho. split; [done|].
    unfold shape. rewrite Hr. split; [|done]. destruct (Z.eqb_spec id' id) as [->|]; [|by rewrite Hx]. rewrite Hx. rewrite <- H2. unfold snd_in in Hs. rewrite Hx0 in Hs. cbn in Hs. by rewrite Hs.
  - intros id' s1. rewrite snd_set_send by done. destruct (Z.eqb_spec id' id) as [->|Hne]; [by intros [= <-]|]. intros Hs1. destruct (V4 id' s1 Hs1) as [K1 K2].
    destruct (Hother id' Hne) as [Hq Hp']. split; [by eapply send_ok_same|]. intros Hn. eapply settled_less; [exact K1|exact Hroom'|apply Hroom|done|]. apply K2. auto.
  - intros id' r1. rewrite rcv_set_send. apply V5.
  - split; [done|]. intros id' Hin. unfold issued. rewrite Ho. destruct (Z.eq_dec id' id) as [->|Hne]; [|by apply V6, Hother].
    apply snd_get in Hs as (x & Hx & _). by apply (V3 id x).
  - intros id' Hc. rewrite snd_set_send by done. destruct (Z.eqb_spec id' id) as [->|Hne]; [done|]. apply V7. by rewrite <- (proj2 (Hother id' Hne)).
  - destruct V8 as [T1 T2 T3 T4 T5]. split; rewrite ?Hmx, ?Hp, ?Ho; try done. lia.
  - destruct V9 as [C1 C2 C3 C4]. split; try done. by rewrite total_set_send.
  - intros k Hk. eapply kinds_same; [|by apply V10]. by apply total_set_send.
  - rewrite Hmx. done.
Qed.

Lemma set_send_evolves st st' id s s' :
  snd_in id (streams st) = Some s -> cfg st' = cfg st -> rx st' = rx st -> opened (tx st') = opened (tx st) -> streams st' = set_send id s' (streams st) ->
  (sending s' = true -> sending s = true /\ next (s_buf s) <= next (s_buf s')) -> (small_send (cfg st) s -> small_send (cfg st) s') -> evolves st st'.
Proof.
  intros Hs Hcfg Hrx Ho Hst Hn Hb. split; [done|intros id'; unfold issued; by rewrite Hcfg, Hrx, Ho| |].
  - intros id' s1 _. rewrite Hst, snd_set_send by eauto. destruct (Z.eqb_spec id' id) as [->|]; [|intros H1 H2; exists s1; split; [done|]; split; [done|lia]].
    intros [= <-] Hl. destruct (Hn Hl). by exists s.
  - intros Hsm id' s1. rewrite Hst, Hcfg, snd_set_send by eauto. destruct (Z.eqb_spec id' id) as [->|]; [intros [= <-]; by apply Hb, (Hsm id)|apply Hsm].
Qed.

(** Nothing but the queues moves. *)
Definition alike (s s' : Send) : Prop :=
  s_buf s' = s_buf s /\ s_max_data s' = s_max_data s /\ s_state s' = s_state s /\ s_reset s' = s_reset s /\
  (s_blocked_sent s' = s_blocked_sent s \/ s_blocked_sent s' = Some (s_max_data s)).

Lemma alike_refl s : alike s s.
Proof. repeat split. by left. Qed.

#[export] Hint Extern 0 (alike _ _) => solve [repeat split; auto] : core.

Lemma alike_trans s1 s2 s3 : alike s1 s2 -> alike s2 s3 -> alike s1 s3.
Proof. intros (A1 & A2 & A3 & A4 & A5) (B1 & B2 & B3 & B4 & B5). do 4 (split; [congruence|]). destruct B5 as [-> | ->]; [done|right; congruence]. Qed.

Record soft (st st' : Streams) : Prop := mk_soft {
  sf_cfg : cfg st' = cfg st /\ peer st' = peer st /\ tx st' = tx st /\ rx st' = rx st;
  sf_recv : forall id, rcv_in id (streams st') = rcv_in id (streams st);
  sf_send : forall id s', snd_in id (streams st') = Some s' -> exists s, snd_in id (streams st) = Some s /\ alike s s';
}.

Lemma soft_refl st : soft st st.
Proof. split; [done|done|]. intros id s H. exists s. split; [done|apply alike_refl]. Qed.

Lemma soft_trans st1 st2 st3 : soft st1 st2 -> soft st2 st3 -> soft st1 st3.
Proof.
  intros [(A1 & A2 & A3 & A4) B C] [(A1' & A2' & A3' & A4') B' C']. split; [split; [congruence|]; split; [congruence|]; split; congruence|intros id; by rewrite B'|].
  intros id s3 H. destruct (C' _ _ H) as (s2 & H2 & E). destruct (C _ _ H2) as (s1 & H1 & F). exists s1. split; [done|by eapply alike_trans].
Qed.

Lemma soft_evolves st st' : soft st st' -> evolves st st'.
Proof.
  intros [(Hc & _ & Ht & Hr) _ Hs]. split; [done|by rewrite Hc, Ht, Hr| |].
  - intros id s' _ H Hl. destruct (Hs _ _ H) as (s & H1 & E1 & _ & E3 & _). exists s. split; [done|]. split; [unfold sending in *; by rewrite <- E3|rewrite E1; lia].
  - intros Hsm id s' H. destruct (Hs _ _ H) as (s & H1 & E1 & _). unfold small_send. rewrite E1, Hc. by apply (Hsm id).
Qed.

Lemma soft_fits st st' : soft st st' -> fits st -> fits st'.
Proof.
  intros [(_ & _ & _ & Hr) Hv Hs] [F1 F2 F3]. split; [by rewrite Hr|intros id r; rewrite Hv; apply F2|]. intros id s' H. destruct (Hs _ _ H) as (s & H1 & E1 & _). rewrite E1. by eapply F3.
Qed.

Lemma set_send_soft st st' id s s' : snd_in id (streams st) = Some s -> alike s s' ->
  cfg st' = cfg st /\ peer st' = peer st /\ tx st' = tx st /\ rx st' = rx st /\ streams st' = set_send id s' (streams st) -> soft st st'.
Proof.
  intros Hs Ha (H1 & H2 & H3 & H4 & H5). split; [done|intros id'; by rewrite H5, rcv_set_send|]. intros id' s1. rewrite H5, snd_set_send by eauto.
  destruct (Z.eqb_spec id' id) as [->|]; [intros [= <-]; by exists s|]. intros H. exists s1. split; [done|apply alike_refl].
Qed.

Lemma contains_insert {V} k k' (v : V) m : contains_key k' (BTree.insert k v m) = (k' =? k) || contains_key k' m.
Proof. unfold contains_key. rewrite get_insert. by destruct (k' =? k). Qed.

Lemma contains_remove {V} k k' (m : list (Z * V)) : contains_key k' (BTree.remove k m) = negb (k' =? k) && contains_key k' m.
Proof. unfold contains_key. rewrite get_remove. by destruct (k' =? k). Qed.

Lemma contains_nil {V} k : contains_key k (@nil (Z * V)) = false.
Proof. done. Qed.

Lemma inv_weaken ex ex' st : inv ex st -> (forall id s, snd_in id (streams st) = Some s -> id ∉ ex' -> id ∉ ex \/ settled (conn_room st) (parked st) id s) -> inv ex' st.
Proof.
  intros [V1 V2 V3 V4 V5 V6 V7 V8 V9 V10 V11] Hw. split; try done. intros id s Hs. destruct (V4 id s Hs) as [K1 K2]. split; [done|].
  intros Hn. destruct (Hw id s Hs Hn); auto.
Qed.

(** ** [schedule] *)

Lemma not_cons (id id' : Z) ex : id' ∉ ex -> id' <> id -> id' ∉ id :: ex.
Proof. rewrite not_elem_of_cons. auto. Qed.

(** What the flags say of the queues. *)
Definition flags_ok (park : idset) (id : Z) (s : Send) : Prop := s_parked s = contains_key id park /\ (s_queued s = true -> s_parked s = false).

(** A side that was not queued is put where its gate says. *)
Lemma resettle ex st st' id s s' : let what := gate s (conn_room st) in
  inv (id :: ex) st -> snd_in id (streams st) = Some s -> s_queued s = false ->
  cfg st' = cfg st /\ peer st' = peer st /\ tx st' = tx st /\ rx st' = rx st /\ streams st' = set_send id s' (streams st) ->
  alike s s' ->
  sorted (control st') -> sorted (parked st') -> NoDup (send_queue st') ->
  (forall id', id' ∈ send_queue st' <-> if id' =? id then s_queued s' = true else id' ∈ send_queue st) ->
  (forall id', contains_key id' (parked st') = if id' =? id then s_parked s' else contains_key id' (parked st)) ->
  (parked st' <> [] -> data_blocked_sent (due st') = Some (send_max_data (tx st))) ->
  (s_queued s' = true <-> what = Ready) -> (s_parked s' = true <-> what = ConnBlocked) -> (what = StreamBlocked -> s_blocked_sent s' = Some (s_max_data s)) ->
  inv ex st' /\ soft st st'.
Proof.
  intros what Hinv Hs Hq (F1 & F2 & F3 & F4 & F5) Ha Hsc Hsp Hnd Hqu Hpk Hsaid Hready Hconn Hsb.
  split; [|eapply set_send_soft; eauto]. destruct (iv_send _ _ Hinv id s Hs) as [Hok _].
  assert (Hg : gate s' (conn_room st') = what) by (destruct Ha as (E1 & E2 & E3 & _); unfold what, gate, conn_room, sending; by rewrite E1, E2, E3, F3).
  assert (Hboth : s_queued s' = true -> s_parked s' = false) by (intros H; apply Hready in H; apply not_true_is_false; intros H'; apply Hconn in H'; congruence).
  eapply (send_change (id :: ex) ex st st' id s s'); try done.
  - rewrite F3. split; [done|]. split; [done|]. split; [done|]. assert (H := to_sent _ _ (iv_tx _ _ Hinv)). lia.
  - intros id' Hne. rewrite Hqu, Hpk. by rewrite (proj2 (Z.eqb_neq _ _)).
  - intros id' Hn Hne. by apply not_cons.
  - destruct Ha as (E1 & E2 & E3 & Hre & Hbl). destruct Hok as [K1 K2 K3 K4 K5 K6 K7 K8 K9]. split; unfold sending in *; rewrite ?E1, ?E2, ?E3, ?Hre; try done.
    + intros Hl. change (sending s = false) in Hl. assert (Hw : what = Nothing) by (unfold what; by apply gate_sending). rewrite Hw in *.
      apply not_true_is_false; intros H; by apply Hconn in H.
    + destruct Hbl as [-> | ->]; [done|]. by intros v [= <-].
    + rewrite Hqu, Z.eqb_refl. done.
    + rewrite Hpk, Z.eqb_refl. done.
  - intros _. split; rewrite ?Hg; [by rewrite Hpk, Z.eqb_refl|done| | |].
    + intros Hq' Hw. apply Hready in Hw. congruence.
    + intros _. by rewrite Hconn.
    + intros _ Hw. destruct Ha as (_ & -> & _). auto.
Qed.

Lemma queue_add (id : Z) (q : list Z) : id ∉ q -> NoDup q -> NoDup (q ++ [id]) /\ forall id', id' ∈ q ++ [id] <-> if id' =? id then true = true else id' ∈ q.
Proof.
  intros Hn Hd. split; [apply NoDup_app; split; [done|]; split; [|apply NoDup_singleton]; by intros x Hx ->%list_elem_of_singleton|].
  intros id'. rewrite elem_of_app, list_elem_of_singleton. destruct (Z.eqb_spec id' id); naive_solver.
Qed.

Lemma queue_keep (id : Z) (q : list Z) : id ∉ q -> forall id', id' ∈ q <-> if id' =? id then false = true else id' ∈ q.
Proof. intros Hn id'. destruct (Z.eqb_spec id' id) as [->|]; [|done]. split; [done|discriminate]. Qed.

Lemma park_add id (p : idset) id' : contains_key id' (BTree.insert id tt p) = if id' =? id then true else contains_key id' p.
Proof. rewrite contains_insert. by destruct (id' =? id). Qed.

Lemma park_drop id (p : idset) id' : contains_key id' (BTree.remove id p) = if id' =? id then false else contains_key id' p.
Proof. rewrite contains_remove. by destruct (id' =? id). Qed.

Lemma park_keep id (p : idset) b : b = contains_key id p -> forall id', contains_key id' p = if id' =? id then b else contains_key id' p.
Proof. intros -> id'. by destruct (Z.eqb_spec id' id) as [->|]. Qed.

Lemma remove_nonempty {V} k (m : list (Z * V)) : BTree.remove k m <> [] -> m <> [].
Proof. by intros H ->. Qed.

Lemma schedule_ok ex st id :
  inv (id :: ex) st -> (forall s, snd_in id (streams st) = Some s -> flags_ok (parked st) id s) ->
  inv ex (schedule id st) /\ soft st (schedule id st).
Proof.
  intros Hinv Hflags. unfold schedule. destruct (send_of id st) as [s|] eqn:Hs.
  2:{ split; [|apply soft_refl]. eapply inv_weaken; [exact Hinv|]. intros id' s Hs' Hn. left. apply not_cons; [done|]. intros ->. unfold send_of, snd_in in *. congruence. }
  change (send_of id st) with (snd_in id (streams st)) in Hs. destruct (Hflags s Hs) as [Hpk Hone]. destruct (iv_send _ _ Hinv id s Hs) as [Hok _].
  destruct (s_queued s) eqn:Hq.
  { split; [|apply soft_refl]. eapply inv_weaken; [exact Hinv|]. intros id' s0 Hs' Hn. destruct (Z.eq_dec id' id) as [->|]; [|left; by apply not_cons].
    right. rewrite Hs in Hs'. injection Hs' as <-. split; auto; intros; congruence. }
  destruct (iv_queue _ _ Hinv) as [Hnd _]. destruct (iv_sorted _ _ Hinv) as (_ & Hsc & Hsp). assert (Hsaid := iv_said _ _ Hinv).
  assert (Hnq : id ∉ send_queue st) by (rewrite <- (so_queued _ _ _ _ Hok); congruence). destruct (queue_add id _ Hnq Hnd) as [Hnd' Hqa].
  assert (Hqk := queue_keep id _ Hnq). assert (Hpd := park_drop id (parked st)). assert (Hsd := remove_sorted id _ Hsp).
  assert (Hsaid' : BTree.remove id (parked st) <> [] -> data_blocked_sent (due st) = Some (send_max_data (tx st))) by (intros H; by eapply Hsaid, remove_nonempty).
  assert (Hpk' := park_keep id (parked st) (s_parked s) Hpk).
  assert (Hpa := park_add id (parked st)). assert (Hsa := insert_sorted id tt (parked st) Hsp). assert (Hna := insert_sorted id tt (control st) Hsc).
  assert (Hsame := set_send_same id s (streams st) (proj1 (iv_sorted _ _ Hinv)) Hs).
  destruct (gate s (conn_room st)) eqn:Hw, (s_parked s) eqn:Hp; cbn [andb]; rewrite ?Hp, ?put_send_streams;
    try match goal with |- context [bool_decide ?P] => destruct (bool_decide_reflect P) as [Hd|Hd]; cbn in Hd end.
  all: eapply (resettle ex st _ id s); [exact Hinv|exact Hs|exact Hq|split; [done|]; split; [done|]; split; [done|]; split; [done|]; (reflexivity || exact (eq_sym Hsame))|done|..]; cbn; rewrite ?Hw, ?Hp, ?Hq.
  all: try done.
  all: auto.
Qed.

(** ** Changes of a sending side *)

(** A side that keeps its places in the queues, and is not settled yet. *)
Lemma unsettle ex st st' id s s' :
  inv ex st -> snd_in id (streams st) = Some s ->
  cfg st' = cfg st /\ peer st' = peer st /\ rx st' = rx st /\ streams st' = set_send id s' (streams st) ->
  tx st' = tx st -> send_queue st' = send_queue st -> parked st' = parked st -> sorted (control st') -> data_blocked_sent (due st') = data_blocked_sent (due st) ->
  send_ok (send_queue st) (parked st) id s' -> inv (id :: ex) st'.
Proof.
  intros Hinv Hs Hf Htx Hq Hp Hc Hd Hok. destruct (iv_sorted _ _ Hinv) as (_ & _ & Hsp).
  eapply (send_change ex (id :: ex)); [exact Hinv|exact Hs|exact Hf|..]; rewrite ?Hq, ?Hp, ?Hd; try done.
  - rewrite Htx. split; [done|]. split; [done|]. split; [done|]. assert (H := to_sent _ _ (iv_tx _ _ Hinv)). lia.
  - apply (iv_queue _ _ Hinv).
  - intros id' Hn _ Hin. apply Hn. by right.
  - apply (iv_said _ _ Hinv).
  - intros Hn. destruct Hn. left.
Qed.

Lemma settled_flags room p id s : settled room p id s -> flags_ok p id s.
Proof. by intros [H1 H2 _ _ _]. Qed.

(** ... and is then looked at. *)
Lemma rescheduled ex st id s s' :
  inv ex st -> id ∉ ex -> snd_in id (streams st) = Some s -> send_ok (send_queue st) (parked st) id s' -> s_queued s' = s_queued s -> s_parked s' = s_parked s ->
  let st' := schedule id (put_send id s' st) in
  inv ex st' /\ soft (put_send id s' st) st'.
Proof.
  intros Hinv Hex Hs Hok Hq Hp. rewrite put_send_streams. cbn zeta. apply schedule_ok.
  - eapply unsettle; [exact Hinv|exact Hs|done|done|done|done|apply (iv_sorted _ _ Hinv)|done|done].
  - cbn. intros s0. rewrite snd_set_send, Z.eqb_refl by eauto. intros [= <-]. unfold flags_ok. rewrite Hq, Hp. eapply settled_flags. by apply (iv_send _ _ Hinv).
Qed.

(** A side that keeps what the queues see of it. *)
Lemma unmoved ex st st' id s s' :
  inv ex st -> snd_in id (streams st) = Some s ->
  cfg st' = cfg st /\ peer st' = peer st /\ rx st' = rx st /\ streams st' = set_send id s' (streams st) ->
  tx st' = tx st -> send_queue st' = send_queue st -> parked st' = parked st -> sorted (control st') -> data_blocked_sent (due st') = data_blocked_sent (due st) ->
  send_ok (send_queue st) (parked st) id s' -> s_queued s' = s_queued s -> s_parked s' = s_parked s ->
  (s_queued s = false -> gate s' (conn_room st) = gate s (conn_room st)) -> s_max_data s' = s_max_data s -> s_blocked_sent s' = s_blocked_sent s ->
  inv ex st'.
Proof.
  intros Hinv Hs Hf Htx Hq Hp Hc Hd Hok Hsq Hsp Hg Hm Hb. eapply inv_weaken; [by eapply unsettle|]. destruct Hf as (_ & _ & _ & Hst).
  intros id' s0. rewrite Hst, snd_set_send by eauto. destruct (Z.eqb_spec id' id) as [->|Hne]; intros Hs0 Hn; [|left; by apply not_cons].
  injection Hs0 as <-. right. destruct (iv_send _ _ Hinv id s Hs) as [_ Hset]. destruct (Hset Hn) as [D1 D2 D3 D4 D5].
  assert (Hroom : conn_room st' = conn_room st) by (unfold conn_room; by rewrite Htx). rewrite Hroom, Hp. split; rewrite ?Hsq, ?Hsp, ?Hm, ?Hb; try done; intros H; rewrite (Hg H); auto.
Qed.

Lemma filter_other id q : (forall id', id' <> id -> id' ∈ List.filter (fun q => negb (q =? id)) q <-> id' ∈ q) /\ id ∉ List.filter (fun q => negb (q =? id)) q.
Proof.
  split; [intros id' Hne|]; rewrite !list_elem_of_In, List.filter_In.
  - rewrite (proj2 (Z.eqb_neq _ _)) by done. tauto.
  - rewrite Z.eqb_refl. by intros [_ ?].
Qed.

Lemma written_clear w b : SendBuf.wf w b -> written (clear b) = written b.
Proof. intros Hw. destruct (sb_clear_ok w b Hw) as (Hc & _ & _). by rewrite (wf_written _ _ Hc), (wf_written _ _ Hw). Qed.

Lemma do_reset_ok ex st id error s :
  inv ex st -> fits st -> field error -> snd_in id (streams st) = Some s -> sending s = true ->
  inv ex (do_reset id error st) /\ evolves st (do_reset id error st) /\ fits (do_reset id error st).
Proof.
  intros Hinv Hfit He Hs Hl. unfold do_reset. change (send_of id st) with (snd_in id (streams st)). rewrite Hs, put_send_streams.
  destruct (iv_send _ _ Hinv id s Hs) as [Hok _]. destruct (so_buf _ _ _ _ Hok) as [w Hw]. destruct (sb_clear_ok w _ Hw) as (Hwc & _).
  destruct (iv_sorted _ _ Hinv) as (Hss & Hsc & Hsp). destruct (iv_queue _ _ Hinv) as [Hnd _]. assert (Hsent := sent_range _ _ _ _ Hok). assert (Hwr := ft_send _ Hfit id s Hs).
  set (s' := mk_send _ _ _ _ _ _ _ _ _ _). set (st1 := with_streams _ st).
  set (q' := if s_queued s then List.filter (fun q => negb (q =? id)) (send_queue st) else send_queue st).
  assert (Heq : note id (with_parked (BTree.remove id (parked (if s_queued s then with_queue (List.filter (fun q => negb (q =? id)) (send_queue st1)) st1 else st1)))
     (if s_queued s then with_queue (List.filter (fun q => negb (q =? id)) (send_queue st1)) st1 else st1)) =
     mk_streams (cfg st) (set_send id s' (streams st)) (peer st) (tx st) (rx st) (due st) (BTree.insert id tt (control st)) q' (BTree.remove id (parked st)) (events st)).
  { unfold q'. by destruct (s_queued s). }
  rewrite Heq. clear Heq. destruct (filter_other id (send_queue st)) as [Hf1 Hf2].
  assert (Hq1 : forall id', id' <> id -> id' ∈ q' <-> id' ∈ send_queue st) by (unfold q'; destruct (s_queued s); [done|done]).
  assert (Hq2 : id ∉ q') by (unfold q'; destruct (s_queued s) eqn:Hq; [done|]; rewrite <- (so_queued _ _ _ _ Hok); congruence).
  assert (Hndq : NoDup q') by (unfold q'; destruct (s_queued s); [|done]; apply NoDup_ListNoDup, List.NoDup_filter; by apply NoDup_ListNoDup).
  assert (Hpd := park_drop id (parked st)).
  split; [|split].
  - eapply (send_change ex ex st _ id s s'); cbn; try done.
    + split; [done|]. split; [done|]. split; [done|]. assert (H := to_sent _ _ (iv_tx _ _ Hinv)). lia.
    + by apply insert_sorted.
    + by apply remove_sorted.
    + intros id' Hne. split; [by apply Hq1|]. rewrite Hpd. by rewrite (proj2 (Z.eqb_neq _ _)).
    + intros H. by eapply (iv_said _ _ Hinv), remove_nonempty.
    + split; cbn; [by exists w|apply Hok|by eexists|done|done| |apply Hok|done|].
      * intros x [= <-]. cbn. split; [done|]. unfold field. lia.
      * rewrite Hpd, Z.eqb_refl. done.
    + intros _. assert (Hg : forall room, gate s' room = Nothing) by (intros room; by apply gate_sending). split; rewrite ?Hg; try done. by rewrite Hpd, Z.eqb_refl.
  - eapply (set_send_evolves st _ id s s'); try done. intros _. apply (cf_buffer _ (iv_cfg _ _ Hinv)).
  - destruct Hfit as [F1 F2 F3]. split; cbn; [done|intros id' r; rewrite rcv_set_send; apply F2|]. intros id' s0. rewrite snd_set_send by eauto.
    destruct (Z.eqb_spec id' id) as [->|]; [|apply F3]. intros [= <-]. cbn. by rewrite (written_clear w).
Qed.

(** ** Changes of a receiving side *)

Lemma unread_set id r r' m : sorted m -> rcv_in id m = Some r -> total unread_in (set_recv id r' m) = total unread_in m - unread r + unread r'.
Proof.
  intros Hs (x & Hx & Hr)%rcv_get. unfold set_recv. rewrite Hx, (total_put _ id x) by done. unfold unread_in at 2 3. cbn. by rewrite Hr.
Qed.

Lemma unread_nonneg r : recv_ok r -> 0 <= unread r.
Proof.
  intros [_ [He _] _ _ _ _ _ _]. assert (H := end_offset_low (r_buf r)). unfold unread. destruct (r_state r); lia.
Qed.

Lemma unread_bound id r m : sorted m -> (forall id r, rcv_in id m = Some r -> recv_ok r) -> rcv_in id m = Some r -> 0 <= unread r <= total unread_in m.
Proof.
  intros Hs Hall Hr. assert (H0 := unread_nonneg r (Hall id r Hr)). split; [done|]. apply rcv_get in Hr as (x & Hx & Hr).
  rewrite (total_perm _ _ _ (remove_perm id x m Hs Hx)). cbn [total foldr]. fold (total unread_in (BTree.remove id m)).
  assert (H1 : 0 <= total unread_in (BTree.remove id m)).
  { apply measure_nonneg. intros [k y] Hin. unfold unread_in. cbn. destruct (st_recv y) as [r1|] eqn:Hr1; [|done]. apply unread_nonneg, (Hall k).
    unfold rcv_in. apply remove_in in Hin as [Hin _]. apply get_in in Hin; [|done]. by rewrite Hin. }
  unfold unread_in at 1. cbn. rewrite Hr. lia.
Qed.

Lemma recv_change ex st st' id r r' :
  inv ex st -> rcv_in id (streams st) = Some r ->
  cfg st' = cfg st /\ peer st' = peer st /\ tx st' = tx st /\ streams st' = set_recv id r' (streams st) ->
  send_queue st' = send_queue st -> parked st' = parked st -> sorted (control st') -> data_blocked_sent (due st') = data_blocked_sent (due st) ->
  max_streams (rx st') = max_streams (rx st) /\ peer_opened (rx st') = peer_opened (rx st) /\ peer_closed (rx st') = peer_closed (rx st) ->
  recv_ok r' -> r_window r' = r_window r -> credit_ok (cfg st) (rx st') (set_recv id r' (streams st)) -> inv ex st'.
Proof.
  intros [V1 [V2 [V2' V2'']] V3 V4 V5 V6 V7 V8 V9 V10 V11] Hr (Hcfg & Hpeer & Htx & Hst) Hq Hp Hctl Hd (R1 & R2 & R3) Hok Hwin Hcr.
  assert (Hroom : conn_room st' = conn_room st) by (unfold conn_room; by rewrite Htx).
  assert (Hiss : forall id', issued (cfg st) (tx st) (rx st') id' <-> issued (cfg st) (tx st) (rx st) id') by (intros id'; unfold issued; by rewrite R2).
  split; rewrite ?Hcfg, ?Hpeer, ?Htx, ?Hst, ?Hq, ?Hp, ?Hd, ?Hroom; try done.
  - split; [by apply set_recv_sorted|done].
  - intros id' x (x0 & Hx0 & Hs & Hx)%set_recv_get. destruct (V3 id' x0 Hx0) as [H1 (H2 & H3 & H4)]. split; [by apply Hiss|].
    split; [by rewrite Hs|]. destruct (Z.eqb_spec id' id) as [->|]; [|by rewrite Hx]. rewrite Hx, <- H3. unfold rcv_in in Hr. rewrite Hx0 in Hr. cbn in Hr. rewrite Hr.
    split; [done|]. intros r1 [= <-]. rewrite Hwin. by apply H4.
  - intros id' s. rewrite snd_set_recv. apply V4.
  - intros id' r1. rewrite rcv_set_recv by eauto. destruct (Z.eqb_spec id' id) as [->|]; [by intros [= <-]|apply V5].
  - split; [apply V6|]. intros id' Hin. by apply Hiss, V6.
  - intros id' Hc. rewrite snd_set_recv. by apply V7.
  - intros k Hk. destruct (V10 k Hk) as [K1 K2 K3 K4 K5]. split; rewrite ?R1, ?R2, ?R3; try done. by rewrite total_set_recv.
Qed.

(** The sending sides do not see it. *)
Lemma recv_evolves st st' :
  cfg st' = cfg st -> opened (tx st') = opened (tx st) -> peer_opened (rx st') = peer_opened (rx st) -> (forall id, snd_in id (streams st') = snd_in id (streams st)) -> evolves st st'.
Proof.
  intros Hc Ho Hp Hs. split; [done|intros id; unfold issued; by rewrite Hc, Ho, Hp| |intros Hsm id s'; rewrite Hs, Hc; apply Hsm].
  intros id s' _. rewrite Hs. intros H1 H2. exists s'. split; [done|]. split; [done|lia].
Qed.

(** *** Credit *)

(** The limit of a receiving side, topped up. *)
Definition topped (r : Recv) : Recv :=
  if bool_decide (r_final_size r = None) && bool_decide (r_state r = ROpen) then
    let new := read_off (r_buf r) + r_window r in
    if (r_max_data r <? new) && (r_window r / 2 <=? new - r_max_data r) then r_with_max new r else r
  else r.

(** The connection's. *)
Definition grown (c : StreamsConfig) (used limit : Z) : Z :=
  if (limit <? used + max_data c) && (max_data c / 2 <=? used + max_data c - limit) then used + max_data c else limit.

Lemma topped_up_all used w : topped_up (used + w) used w.
Proof. unfold topped_up. lia. Qed.

Lemma grown_ok c used limit : limit <= used + max_data c -> limit <= grown c used limit <= used + max_data c /\ topped_up (grown c used limit) used (max_data c).
Proof.
  intros Hl. unfold grown. destruct ((limit <? used + max_data c) && (max_data c / 2 <=? used + max_data c - limit)) eqn:Hb; [split; [lia|apply topped_up_all]|].
  split; [lia|]. intros [H1 H2]. apply andb_false_iff in Hb as [Hb|Hb]; cleanb; lia.
Qed.

Lemma topped_fields r : let r' := topped r in
  r_buf r' = r_buf r /\ r_window r' = r_window r /\ r_high r' = r_high r /\ r_final_size r' = r_final_size r /\ r_state r' = r_state r /\
  r_discard r' = r_discard r /\ r_stop r' = r_stop r /\ r_queued r' = r_queued r /\
  (r_max_data r' = r_max_data r \/ r_state r = ROpen /\ r_max_data r <= r_max_data r' /\ r_max_data r' = read_off (r_buf r) + r_window r).
Proof.
  cbn zeta. unfold topped. destruct (bool_decide_reflect (r_final_size r = None)), (bool_decide_reflect (r_state r = ROpen)); cbn [andb]; try (by repeat split; left).
  destruct (Z.ltb_spec (r_max_data r) (read_off (r_buf r) + r_window r)); cbn [andb]; [|by repeat split; left].
  destruct (_ <=? _); [|by repeat split; left]. repeat split. right. split; [done|]. cbn. lia.
Qed.

Lemma topped_credit r : r_state r = ROpen -> r_final_size r = None -> topped_up (r_max_data (topped r)) (read_off (r_buf r)) (r_window r).
Proof.
  intros Hst Hf. unfold topped. rewrite !bool_decide_eq_true_2 by done. cbn [andb].
  destruct ((r_max_data r <? read_off (r_buf r) + r_window r) && (r_window r / 2 <=? read_off (r_buf r) + r_window r - r_max_data r)) eqn:Hb; [apply topped_up_all|].
  intros [H1 H2]. apply andb_false_iff in Hb as [Hb|Hb]; cleanb; lia.
Qed.

Lemma after_consume_eq id n st r :
  sorted (streams st) -> rcv_in id (streams st) = Some r -> 0 <= consumed (rx st) -> 0 <= n -> consumed (rx st) + n + max_data (cfg st) <= U64_MAX -> 0 <= max_data (cfg st) ->
  0 <= read_off (r_buf r) -> 0 <= r_window r -> read_off (r_buf r) + r_window r <= U64_MAX ->
  exists d ctl, after_consume id n st =
      mk_streams (cfg st) (set_recv id (topped r) (streams st)) (peer st) (tx st)
        (mk_receiving (grown (cfg st) (consumed (rx st) + n) (recv_limit (rx st))) (recv_total (rx st)) (consumed (rx st) + n) (max_streams (rx st)) (peer_opened (rx st)) (peer_closed (rx st)))
        d ctl (send_queue st) (parked st) (events st) /\
    data_blocked_sent d = data_blocked_sent (due st) /\ (sorted (control st) -> sorted ctl).
Proof.
  intros Hs Hr H1 H2 H3 H4 H5 H6 H7. unfold after_consume. set (st1 := consume n st).
  assert (Hst1 : st1 = mk_streams (cfg st) (streams st) (peer st) (tx st) (mk_receiving (recv_limit (rx st)) (recv_total (rx st)) (consumed (rx st) + n) (max_streams (rx st)) (peer_opened (rx st)) (peer_closed (rx st))) (due st) (control st) (send_queue st) (parked st) (events st)).
  { unfold st1, consume. rewrite u64_small by lia. done. }
  change (recv_of id st1) with (rcv_in id (streams st1)). rewrite Hst1. cbn [streams]. rewrite Hr. rewrite (u64_small (read_off _ + _)) by lia.
  set (st2 := if _ && _ then _ else _). assert (H : exists ctl, st2 = mk_streams (cfg st) (set_recv id (topped r) (streams st)) (peer st) (tx st) (mk_receiving (recv_limit (rx st)) (recv_total (rx st)) (consumed (rx st) + n) (max_streams (rx st)) (peer_opened (rx st)) (peer_closed (rx st))) (due st) ctl (send_queue st) (parked st) (events st) /\ (sorted (control st) -> sorted ctl)).
  { unfold st2, topped. rewrite put_recv_streams. destruct (_ && _); cbn zeta; [destruct (_ && _)|]; eexists.
    - split; [reflexivity|]. intros Hc. by apply insert_sorted.
    - rewrite set_recv_same by done. by split.
    - rewrite set_recv_same by done. by split. }
  destruct H as (ctl & -> & Hctl). unfold grow_connection_window. cbn [rx consumed cfg recv_limit]. rewrite u64_small by lia. unfold grown.
  destruct (_ && _); eexists _, ctl; (split; [reflexivity|]; done).
Qed.

(** Bytes are taken from a receiving side: the buffer moves on, and the side
    may come to its end. *)
Record takes_from (r r1 : Recv) (n : Z) : Prop := mk_takes_from {
  tf_same : r_max_data r1 = r_max_data r /\ r_window r1 = r_window r /\ r_high r1 = r_high r /\ r_final_size r1 = r_final_size r /\ r_stop r1 = r_stop r;
  tf_state : r_state r = ROpen /\ (r_state r1 = ROpen \/ r_state r1 = RFin /\ r_final_size r1 = Some (read_off (r_buf r1)));
  tf_buf : Reassembly.wf (r_buf r1) /\ within_limit (r_buf r1);
  tf_moved : 0 <= n /\ read_off (r_buf r1) = read_off (r_buf r) + n /\ end_offset (r_buf r1) <= r_high r;
}.

Lemma consumed_ok ex st id r r1 n :
  inv ex st -> fits st -> rcv_in id (streams st) = Some r -> takes_from r r1 n ->
  let st' := after_consume id n (put_recv id r1 st) in
  inv ex st' /\ evolves st st' /\ rcv_in id (streams st') = Some (topped r1) /\ streams st' = set_recv id (topped r1) (streams st) /\ cfg st' = cfg st.
Proof.
  intros Hinv Hfit Hr [(S1 & S2 & S3 & S4 & S5) [S6 S7] [S8 S9] (S10 & S11 & S12)]. cbn zeta. rewrite put_recv_streams.
  destruct (iv_sorted _ _ Hinv) as (Hss & Hsc & _). assert (Hok := iv_recv _ _ Hinv id r Hr). destruct Hok as [[O1 O1'] [O2 O2'] O3 O4 O5 O6 O7 O8].
  destruct (iv_credit _ _ Hinv) as [C1 C2 C3 C4]. destruct (cf_data _ (iv_cfg _ _ Hinv)) as ([Hmd Hmd'] & _).
  destruct (unread_bound id r _ Hss (iv_recv _ _ Hinv) Hr) as [U1 U2]. assert (Hlow := end_offset_low (r_buf r1)). assert (Hrd := wf_read _ S8). assert (Hrd0 := wf_read _ O1).
  assert (Hun : unread r = r_high r - read_off (r_buf r)) by (unfold unread; by rewrite S6).
  assert (Hun1 : unread (topped r1) = unread r - n).
  { destruct (topped_fields r1) as (E1 & _ & E3 & _ & E5 & _). unfold unread. rewrite E1, E3, E5, S6, S3, S11. destruct S7 as [-> | [-> _]]; lia. }
  assert (Hfl := ft_limit _ Hfit). rewrite S6 in O4. assert (Hmx := ft_recv _ Hfit id r Hr). destruct O3 as [W1 W2]. change MAX_VARINT with 4611686018427387903 in *. change U64_MAX with 18446744073709551615 in *.
  destruct (after_consume_eq id n (with_streams (set_recv id r1 (streams st)) st) r1) as (d & ctl & Heq & Hd & Hctl); cbn [streams with_streams rx cfg control due]; rewrite ?S2;
    change U64_MAX with 18446744073709551615; try lia; [by apply set_recv_sorted|rewrite rcv_set_recv, Z.eqb_refl by eauto; done|].
  cbn [streams with_streams rx cfg control due peer tx send_queue parked events] in *. rewrite set_recv_recv in Heq. rewrite Heq.
  destruct (topped_fields r1) as (E1 & E2 & E3 & E4 & E5 & _ & E7 & _ & E9).
  assert (Hcred := topped_credit r1).
  assert (Hgrown := grown_ok (cfg st) (consumed (rx st) + n) (recv_limit (rx st)) ltac:(lia)).
  split; [|split; [|split; [cbn [streams]; rewrite rcv_set_recv, Z.eqb_refl by eauto; done|done]]].
  - eapply (recv_change ex st _ id r (topped r1)); cbn; try done; [by apply Hctl| |by rewrite E2|].
    + split; rewrite ?E1, ?E2, ?E3, ?E4, ?E5, ?E7; [done|lia|by rewrite S2| |by rewrite S4, S3| |done|by rewrite S5].
      * rewrite S2. destruct S7 as [S7 | [S7 _]]; rewrite S7; lia.
      * by destruct S7 as [-> | [-> ?]].
    + split; cbn; [lia| |lia|apply Hgrown]. rewrite (unread_set id r) by done. lia.
  - apply recv_evolves; try done. intros id'. cbn [streams]. by rewrite snd_set_recv.
Qed.

(** ** Streams that end *)

(** The limit on the streams of a kind, moved up. *)
Definition raised (c : StreamsConfig) (k closed max : Z) : Z :=
  let new := Z.min (initial_streams c k + closed) MAX_STREAMS_LIMIT in
  if max + Z.max (initial_streams c k / 2) 1 <=? new then new else max.

Lemma initial_range c k : config_ok c -> 0 <= initial_streams c k <= MAX_STREAMS_LIMIT.
Proof. intros Hc. destruct (cf_streams _ Hc). unfold initial_streams. by destruct (k =? 0). Qed.

Lemma grow_stream_limit_eq k st : k = 0 \/ k = 1 -> config_ok (cfg st) -> 0 <= at_kind k (peer_closed (rx st)) <= MAX_STREAMS_LIMIT -> 0 <= at_kind k (max_streams (rx st)) <= MAX_STREAMS_LIMIT ->
  exists d ms, grow_stream_limit k st =
      mk_streams (cfg st) (streams st) (peer st) (tx st)
        (mk_receiving (recv_limit (rx st)) (recv_total (rx st)) (consumed (rx st)) ms (peer_opened (rx st)) (peer_closed (rx st)))
        d (control st) (send_queue st) (parked st) (events st) /\
    data_blocked_sent d = data_blocked_sent (due st) /\
    (forall k', k' = 0 \/ k' = 1 -> at_kind k' ms = if k' =? k then raised (cfg st) k (at_kind k (peer_closed (rx st))) (at_kind k (max_streams (rx st))) else at_kind k' (max_streams (rx st))).
Proof.
  intros Hk Hc Hcl Hms. assert (Hi := initial_range _ k Hc). unfold grow_stream_limit. fold (initial_streams (cfg st) k).
  assert (Hh : 0 <= initial_streams (cfg st) k / 2 <= MAX_STREAMS_LIMIT) by (split; [apply Z.div_pos; lia|apply Z.div_le_upper_bound; lia]).
  change MAX_STREAMS_LIMIT with 1152921504606846976 in *. rewrite !u64_small by (unfold U64_MAX; lia). unfold raised. change MAX_STREAMS_LIMIT with 1152921504606846976.
  destruct (_ <=? _) eqn:Hb.
  - eexists _, _. split; [reflexivity|]. split; [done|]. intros k' Hk'. by rewrite at_put.
  - exists (due st), (max_streams (rx st)). split; [by destruct st as [? ? ? ? [] ? ? ? ? ?]|]. split; [done|]. intros k' Hk'. by destruct (Z.eqb_spec k' k) as [->|].
Qed.

Lemma over_unread x : (forall r, st_recv x = Some r -> recv_ok r) -> over x = true -> forall id, unread_in (id, x) = 0.
Proof.
  intros Hok [_ Ho]%andb_true_iff id. unfold unread_in. cbn. destruct (st_recv x) as [r|]; [|done]. destruct (Hok r eq_refl) as [_ _ _ _ Hf Hst _ _].
  unfold recv_over, unread in *. destruct (r_state r); try done. apply Hf in Hst. lia.
Qed.

Lemma total_peers_nonneg c k m : 0 <= total (peers c k) m.
Proof. apply measure_nonneg. intros e _. apply b2z_range. Qed.

(** A stream is forgotten: what is left of the invariant once the accounts
    [r'] say so. *)
Lemma forget_stream ex st st' id x :
  inv ex st -> BTree.get id (streams st) = Some x -> over x = true ->
  cfg st' = cfg st /\ peer st' = peer st /\ tx st' = tx st /\ streams st' = BTree.remove id (streams st) ->
  control st' = BTree.remove id (control st) -> parked st' = BTree.remove id (parked st) -> send_queue st' = send_queue st -> data_blocked_sent (due st') = data_blocked_sent (due st) ->
  recv_limit (rx st') = recv_limit (rx st) /\ recv_total (rx st') = recv_total (rx st) /\ consumed (rx st') = consumed (rx st) /\ peer_opened (rx st') = peer_opened (rx st) ->
  (forall k, k = 0 \/ k = 1 -> kinds_ok (cfg st) (rx st') (BTree.remove id (streams st)) k) -> inv ex st'.
Proof.
  intros [V1 [V2 [V2' V2'']] V3 V4 V5 V6 V7 V8 V9 V10 V11] Hx Hover (Hcfg & Hpeer & Htx & Hst) Hc Hp Hq Hd (R1 & R2 & R3 & R4) Hk.
  assert (Hroom : conn_room st' = conn_room st) by (unfold conn_room; by rewrite Htx).
  assert (Hsnd : forall id', snd_in id' (BTree.remove id (streams st)) = if id' =? id then None else snd_in id' (streams st)) by (intros id'; unfold snd_in; rewrite get_remove; by destruct (id' =? id)).
  assert (Hrcv : forall id', rcv_in id' (BTree.remove id (streams st)) = if id' =? id then None else rcv_in id' (streams st)) by (intros id'; unfold rcv_in; rewrite get_remove; by destruct (id' =? id)).
  assert (Hpk : forall id', id' <> id -> contains_key id' (parked st') = contains_key id' (parked st)) by (intros id' Hne; rewrite Hp, park_drop; by rewrite (proj2 (Z.eqb_neq _ _))).
  split; rewrite ?Hcfg, ?Hpeer, ?Htx, ?Hst, ?Hq, ?Hd, ?Hroom; try done.
  - rewrite Hc, Hp. auto using remove_sorted.
  - intros id' x'. rewrite get_remove. destruct (Z.eqb_spec id' id); [done|]. intros H. unfold issued. rewrite R4. by apply V3.
  - intros id' s. rewrite Hsnd. destruct (Z.eqb_spec id' id) as [->|Hne]; [done|]. intros Hs. destruct (V4 id' s Hs) as [K1 K2]. split.
    + eapply send_ok_same; [done|by apply Hpk|done].
    + intros Hn. destruct (K2 Hn) as [D1 D2 D3 D4 D5]. split; try done. by rewrite Hpk.
  - intros id' r. rewrite Hrcv. destruct (id' =? id); [done|apply V5].
  - split; [apply V6|]. intros id' Hin. unfold issued. rewrite R4. by apply V6.
  - intros id'. rewrite Hp, park_drop, Hsnd. destruct (id' =? id); [done|apply V7].
  - destruct V9 as [C1 C2 C3 C4]. split; rewrite ?R1, ?R2, ?R3; try done. rewrite (total_gone _ id x) by done. rewrite over_unread; [lia| |done].
    intros r Hr. apply (V5 id). unfold rcv_in. by rewrite Hx.
  - rewrite Hp. intros H. by eapply V11, remove_nonempty.
Qed.

Lemma peers_at c k id x : peers c k (id, x) = b2z (negb (local c id) && (kind_of id =? k)).
Proof. done. Qed.

Lemma kept_opened c r m k : kinds_ok c r m k -> 0 <= at_kind k (peer_closed r) <= at_kind k (peer_opened r).
Proof. intros [H1 H2 _ _ _]. assert (H := total_peers_nonneg c k m). lia. Qed.

(** A stream of the peer's of kind [k] is forgotten. *)
Lemma kinds_gone c r r' m m' k k' : kinds_ok c r m k' ->
  at_kind k' (peer_opened r') = at_kind k' (peer_opened r) ->
  at_kind k' (peer_closed r') = at_kind k' (peer_closed r) + b2z (k =? k') ->
  at_kind k' (max_streams r') = (if k' =? k then raised c k' (at_kind k' (peer_closed r')) (at_kind k' (max_streams r)) else at_kind k' (max_streams r)) ->
  total (peers c k') m' = total (peers c k') m - b2z (k =? k') -> kinds_ok c r' m' k'.
Proof.
  intros [L1 L2 L3 L4 L5] Ho Hc Hm Ht. assert (Hb := b2z_range (k =? k')). assert (H0 := total_peers_nonneg c k' m'). rewrite (Z.eqb_sym k' k) in Hm.
  destruct (k =? k'); cbn [b2z] in *.
  - unfold raised in Hm. split; rewrite ?Ho, ?Hm; [lia|lia|..]; destruct (Z.leb_spec (at_kind k' (max_streams r) + Z.max (initial_streams c k' / 2) 1) (Z.min (initial_streams c k' + at_kind k' (peer_closed r')) MAX_STREAMS_LIMIT)); lia.
  - split; rewrite ?Ho, ?Hm, ?Hc, ?Ht, ?Z.add_0_r, ?Z.sub_0_r; lia.
Qed.

Lemma cleanup_ok ex st id : inv ex st ->
  inv ex (cleanup id st) /\ evolves st (cleanup id st) /\ (fits st -> fits (cleanup id st)) /\ cfg (cleanup id st) = cfg st.
Proof.
  intros Hinv. unfold cleanup. assert (Hsame : inv ex st /\ evolves st st /\ (fits st -> fits st) /\ cfg st = cfg st) by (split; [done|]; split; [apply evolves_refl|done]).
  destruct (BTree.get id (streams st)) as [x|] eqn:Hx; [|done]. destruct (over x) eqn:Hov; cbn [negb]; [|done]. clear Hsame.
  set (st1 := with_parked _ _). destruct (iv_sorted _ _ Hinv) as (Hss & _ & _).
  assert (Hgone : forall k, total (peers (cfg st) k) (BTree.remove id (streams st)) = total (peers (cfg st) k) (streams st) - peers (cfg st) k (id, x)) by (intros k; by apply total_gone).
  assert (Hstep : forall st', inv ex st' -> cfg st' = cfg st /\ peer st' = peer st /\ tx st' = tx st /\ streams st' = BTree.remove id (streams st) ->
    recv_limit (rx st') = recv_limit (rx st) -> peer_opened (rx st') = peer_opened (rx st) -> inv ex st' /\ evolves st st' /\ (fits st -> fits st') /\ cfg st' = cfg st).
  { intros st' Hi (H1 & H2 & H3 & H4) Hl Hp. split; [done|].
    assert (Hs : forall id' s, snd_in id' (streams st') = Some s -> snd_in id' (streams st) = Some s) by (intros id' s; rewrite H4; unfold snd_in; rewrite get_remove; by destruct (id' =? id)).
    assert (Hr : forall id' r, rcv_in id' (streams st') = Some r -> rcv_in id' (streams st) = Some r) by (intros id' r; rewrite H4; unfold rcv_in; rewrite get_remove; by destruct (id' =? id)).
    split; [|split; [|done]].
    - split; [done|intros id'; unfold issued; by rewrite H1, H3, Hp| |intros Hsm id' s H; rewrite H1; by apply (Hsm id'), Hs].
      intros id' s _ Hs' Hl'. exists s. split; [by apply Hs|]. split; [done|lia].
    - intros [F1 F2 F3]. split; [by rewrite Hl|intros id' r H; by eapply F2, Hr|intros id' s H; by eapply F3, Hs]. }
  fold (local (cfg st1) id). change (local (cfg st1) id) with (local (cfg st) id). destruct (local (cfg st) id) eqn:Hloc.
  - apply Hstep; try done. eapply (forget_stream ex st st1 id x); try done. intros k Hk. eapply kinds_same; [|by apply (iv_kinds _ _ Hinv)].
    rewrite Hgone, peers_at, Hloc. cbn. lia.
  - set (k := kind_of id). assert (Hk : k = 0 \/ k = 1) by apply kind_range. assert (Hkind := iv_kinds _ _ Hinv k Hk).
    destruct (kept_opened _ _ _ _ Hkind) as [Hc1 Hc2]. destruct Hkind as [K1 K2 K3 K4 K5].
    assert (Hpos : at_kind k (peer_closed (rx st)) < at_kind k (peer_opened (rx st))).
    { assert (H := Hgone k). rewrite peers_at, Hloc in H. fold k in H. rewrite Z.eqb_refl in H. cbn in H. assert (H' := total_peers_nonneg (cfg st) k (BTree.remove id (streams st))). lia. }
    change (rx st1) with (rx st). rewrite u64_small by (change MAX_STREAMS_LIMIT with 1152921504606846976 in *; unfold U64_MAX; lia).
    set (st2 := with_rx _ _). destruct (grow_stream_limit_eq k st2 Hk (iv_cfg _ _ Hinv)) as (d & ms & Heq & Hd & Hms);
      [cbn [st2 with_rx rx peer_closed]; rewrite at_put, Z.eqb_refl by done; lia|cbn [st2 with_rx rx max_streams]; lia|].
    rewrite Heq. apply Hstep; try done. eapply (forget_stream ex st _ id x); try done. intros k' Hk'. eapply (kinds_gone _ (rx st) _ (streams st) _ k).
    + by apply (iv_kinds _ _ Hinv).
    + done.
    + cbn. rewrite at_put by done. rewrite (Z.eqb_sym k k'). destruct (Z.eqb_spec k' k) as [->|]; cbn; lia.
    + cbn [rx max_streams peer_closed]. rewrite Hms by done. destruct (Z.eqb_spec k' k) as [->|]; done.
    + rewrite Hgone, peers_at, Hloc. done.
Qed.

(** ** Reading *)

Lemma advanced_takes r r1 out : recv_ok r -> r_state r = ROpen -> advanced (r_buf r) out (r_buf r1) ->
  r_max_data r1 = r_max_data r /\ r_window r1 = r_window r /\ r_high r1 = r_high r /\ r_final_size r1 = r_final_size r /\ r_stop r1 = r_stop r ->
  r_state r1 = ROpen \/ r_state r1 = RFin /\ r_final_size r1 = Some (read_off (r_buf r1)) -> takes_from r r1 (len out).
Proof.
  intros [[O1 O1'] O2 _ _ _ _ _ _] Hst Hadv Hsame Hst1. destruct (end_offset_advanced _ _ _ O1 Hadv) as [_ He]. destruct Hadv as (A1 & A2 & _ & _ & A3).
  split; [done|done|auto|]. split; [apply len_nonneg|]. split; [done|lia].
Qed.

Lemma drain_ok ex st id : inv ex st -> fits st -> inv ex (drain id st) /\ evolves st (drain id st) /\ cfg (drain id st) = cfg st.
Proof.
  intros Hinv Hfit. unfold drain. change (recv_of id st) with (rcv_in id (streams st)). destruct (rcv_in id (streams st)) as [r|] eqn:Hr; [|split; [done|split; [apply evolves_refl|done]]].
  destruct (r_discard r) eqn:Hd; cbn [negb orb]; [|split; [done|split; [apply evolves_refl|done]]].
  destruct (bool_decide_reflect (r_state r = ROpen)) as [Hst|Hst]; cbn [negb]; [|split; [done|split; [apply evolves_refl|done]]].
  assert (Hok := iv_recv _ _ Hinv id r Hr). assert (Hdisc := discard_take (r_buf r)). assert (Htake := take_all_ok (r_buf r) (proj1 (ro_buf _ Hok))).
  destruct (Reassembly.discard (r_buf r)) as [n b]. destruct (take_all (r_buf r)) as [out b']. destruct Hdisc as [-> <-]. destruct Htake as (Hadv & _).
  cbn [r_final_size r_with_buf]. destruct (bool_decide_reflect (r_final_size r = Some (read_off b))) as [Hf|Hf].
  - set (r1 := r_with_state RFin (r_with_buf b r)). assert (Ht : takes_from r r1 (len out)) by (apply advanced_takes; cbn; auto).
    destruct (consumed_ok ex st id r r1 _ Hinv Hfit Hr Ht) as (H1 & H2 & _ & _ & H3). destruct (cleanup_ok ex _ id H1) as (H4 & H5 & _ & H6).
    split; [done|]. split; [by eapply evolves_trans|congruence].
  - set (r1 := r_with_buf b r). assert (Ht : takes_from r r1 (len out)) by (apply advanced_takes; cbn; auto).
    destruct (consumed_ok ex st id r r1 _ Hinv Hfit Hr Ht) as (H1 & H2 & _ & _ & H3). done.
Qed.

(** A receiving side whose flags alone change. *)
Lemma recv_flags ex st st' id r r' :
  inv ex st -> rcv_in id (streams st) = Some r ->
  cfg st' = cfg st /\ peer st' = peer st /\ tx st' = tx st /\ rx st' = rx st /\ streams st' = set_recv id r' (streams st) ->
  send_queue st' = send_queue st -> parked st' = parked st -> sorted (control st') -> data_blocked_sent (due st') = data_blocked_sent (due st) ->
  r_buf r' = r_buf r /\ r_max_data r' = r_max_data r /\ r_window r' = r_window r /\ r_high r' = r_high r /\ r_final_size r' = r_final_size r ->
  (r_state r' = r_state r \/ exists c, r_state r = RReset c /\ r_state r' = RResetRead c) -> (forall x, r_stop r' = Some x -> field (st_error x)) ->
  inv ex st' /\ evolves st st'.
Proof.
  intros Hinv Hr (H1 & H2 & H3 & H4 & H5) Hq Hp Hc Hd (E1 & E2 & E3 & E4 & E5) Hst Hstop. destruct (iv_sorted _ _ Hinv) as (Hss & _).
  assert (Hun : unread r' = unread r) by (unfold unread; rewrite E1, E4; destruct Hst as [-> |(c & -> & ->)]; done).
  split; [|apply recv_evolves; [done|by rewrite H3|by rewrite H4|intros id'; by rewrite H5, snd_set_recv]].
  eapply (recv_change ex st st' id r r'); try done; rewrite ?H4; try done.
  - destruct (iv_recv _ _ Hinv id r Hr) as [O1 O2 O3 O4 O5 O6 O7 O8]. split; rewrite ?E1, ?E2, ?E3, ?E4, ?E5; try done.
    + by destruct Hst as [-> |(c & Hc1 & ->)]; [|rewrite Hc1 in O4].
    + by destruct Hst as [-> |(c & Hc1 & ->)]; [|rewrite Hc1 in O6].
    + destruct Hst as [-> |(c & Hc1 & ->)]; done.
  - destruct (iv_credit _ _ Hinv) as [C1 C2 C3 C4]. split; try done. rewrite (unread_set id r), Hun by done. lia.
Qed.

Lemma stop_sending_ok ex st id error : inv ex st -> fits st -> field error ->
  let '(res, st') := stop_sending id error st in (forall f, res <> Err (Fails f)) /\ inv ex st' /\ evolves st st'.
Proof.
  intros Hinv Hfit He. unfold stop_sending. change (recv_of id st) with (rcv_in id (streams st)).
  destruct (rcv_in id (streams st)) as [r|] eqn:Hr; [|split; [done|split; [done|apply evolves_refl]]]. destruct (iv_sorted _ _ Hinv) as (_ & Hsc & _).
  destruct (_ || _); [split; [done|split; [done|apply evolves_refl]]|]. split; [done|]. assert (Hok := iv_recv _ _ Hinv id r Hr).
  set (r1 := r_with_queued false (r_with_discard true r)). rewrite !put_recv_streams. set (st1 := if all_received r1 then _ else _).
  assert (H1 : inv ex st1 /\ evolves st st1 /\ fits st1).
  { destruct Hfit as [F1 F2 F3]. unfold st1. destruct (all_received r1).
    - destruct (recv_flags ex st (with_streams (set_recv id r1 (streams st)) st) id r r1) as [G1 G2]; try done; [by left|apply Hok|]. split; [done|]. split; [done|].
      split; cbn; [done|intros id' r'; rewrite rcv_set_recv by eauto; destruct (Z.eqb_spec id' id) as [->|]; [intros [= <-]; by apply F2 in Hr|apply F2]|intros id' s; rewrite snd_set_recv; apply F3].
    - set (r2 := r_with_stop _ r1). destruct (recv_flags ex st (note id (with_streams (set_recv id r2 (streams st)) st)) id r r2) as [G1 G2]; try done; [by apply insert_sorted|by left|by intros x [= <-]|].
      split; [done|]. split; [done|].
      split; cbn; [done|intros id' r'; rewrite rcv_set_recv by eauto; destruct (Z.eqb_spec id' id) as [->|]; [intros [= <-]; by apply F2 in Hr|apply F2]|intros id' s; rewrite snd_set_recv; apply F3]. }
  destruct H1 as (G1 & G2 & G3). destruct (drain_ok ex st1 id G1 G3) as (G4 & G5 & _). split; [done|by eapply evolves_trans].
Qed.

Lemma read_stream_ok ex st id cap : inv ex st -> fits st ->
  let '(res, st') := Streams.read id cap st in (forall f, res <> Err (Fails f)) /\ inv ex st' /\ evolves st st'.
Proof.
  intros Hinv Hfit. unfold Streams.read. change (recv_of id st) with (rcv_in id (streams st)). assert (Hsame : inv ex st /\ evolves st st) by (split; [done|apply evolves_refl]).
  destruct (rcv_in id (streams st)) as [r|] eqn:Hr; [|done]. destruct (iv_sorted _ _ Hinv) as (_ & Hsc & _).
  assert (Hok := iv_recv _ _ Hinv id r Hr). destruct (r_state r) as [|c| |c] eqn:Hst; [|split; [done|]|done|done].
  2:{ rewrite put_recv_streams. set (r1 := r_with_queued _ _). destruct (recv_flags ex st (with_streams (set_recv id r1 (streams st)) st) id r r1) as [G1 G2]; try done; [right; by exists c|apply Hok|].
      destruct (cleanup_ok ex _ id G1) as (G3 & G4 & _). split; [done|by eapply evolves_trans]. }
  destruct (r_discard r); [done|]. assert (Hrd := read_ok cap (r_buf r) (proj1 (ro_buf _ Hok))). destruct (Reassembly.read cap (r_buf r)) as [out b] eqn:Hread. destruct Hrd as (Hadv & _).
  cbn [r_final_size r_with_buf]. destruct (bool_decide_reflect (r_final_size r = Some (read_off b))) as [Hf|Hf]; cbn [negb].
  - rewrite andb_false_r. split; [done|]. set (r1 := r_with_queued _ _). assert (Ht : takes_from r r1 (len out)) by (apply advanced_takes; cbn; auto).
    destruct (consumed_ok ex st id r r1 _ Hinv Hfit Hr Ht) as (H1 & H2 & _ & _ & H3). destruct (cleanup_ok ex _ id H1) as (H4 & H5 & _). split; [done|by eapply evolves_trans].
  - rewrite andb_true_r. destruct (Z.eqb_spec (len out) 0) as [Hz|Hz].
    + split; [by destruct (cap =? 0)%nat|]. rewrite put_recv_streams. set (r1 := r_with_queued _ _). apply (recv_flags ex st _ id r r1); try done; [|by left|apply Hok].
      cbn. split; [|done]. assert (out = []) as -> by by apply len_nil. apply (read_none cap); [apply Hok|done].
    + split; [done|]. set (r1 := if _ =? 0 then _ else _). assert (Ht : takes_from r r1 (len out)) by (apply advanced_takes; unfold r1; destruct (_ =? 0); cbn; auto).
      destruct (consumed_ok ex st id r r1 _ Hinv Hfit Hr Ht) as (H1 & H2 & _). done.
Qed.

(** ** Streams that are opened *)

Lemma new_send_ok q p id max : field max -> id ∉ q -> contains_key id p = false -> send_ok q p id (new_send max) /\ forall room, settled room p id (new_send max).
Proof.
  intros Hm Hq Hp. split.
  - split; try done; [exists []; apply sb_wf_new|intros _; exact (proj1 Hm)|by rewrite Hp].
  - intros room. split; try done; by rewrite Hp.
Qed.

Lemma new_recv_ok w : field w -> recv_ok (new_recv w).
Proof.
  intros [H1 H2]. split; try done; cbn; [split; [apply Reassembly.wf_new|unfold within_limit; cbn; lia]|]. intros _ _. apply (topped_up_all 0).
Qed.

Lemma add_stream ex st st' id x :
  inv ex st -> ~ issued (cfg st) (tx st) (rx st) id ->
  cfg st' = cfg st /\ peer st' = peer st /\ streams st' = BTree.insert id x (streams st) ->
  send_queue st' = send_queue st /\ parked st' = parked st /\ control st' = control st /\ data_blocked_sent (due st') = data_blocked_sent (due st) ->
  send_max_data (tx st') = send_max_data (tx st) /\ sent_total (tx st') = sent_total (tx st) ->
  recv_limit (rx st') = recv_limit (rx st) /\ recv_total (rx st') = recv_total (rx st) /\ consumed (rx st') = consumed (rx st) ->
  (forall id', issued (cfg st) (tx st) (rx st) id' -> issued (cfg st) (tx st') (rx st') id') -> issued (cfg st) (tx st') (rx st') id ->
  shape (cfg st) id x -> (forall s, st_send x = Some s -> exists max, s = new_send max /\ field max) -> (forall r, st_recv x = Some r -> exists w, r = new_recv w /\ field w) ->
  sending_ok (tx st') (peer st) -> (forall k, k = 0 \/ k = 1 -> kinds_ok (cfg st) (rx st') (BTree.insert id x (streams st)) k) ->
  inv ex st' /\ evolves st st' /\ (fits st -> fits st').
Proof.
  intros [V1 [V2 [V2' V2'']] V3 V4 V5 V6 V7 V8 V9 V10 V11] Hnew (Hcfg & Hpeer & Hst) (Hq & Hp & Hc & Hd) (T1 & T2) (R1 & R2 & R3) Hmono Hiss Hsh Hsnd Hrcv Htx Hk.
  assert (Hroom : conn_room st' = conn_room st) by (unfold conn_room; by rewrite T1, T2).
  assert (Hget : BTree.get id (streams st) = None) by (destruct (BTree.get id (streams st)) as [y|] eqn:Hy; [|done]; destruct Hnew; by apply (V3 id y)).
  assert (Hnq : id ∉ send_queue st) by (intros H; by apply Hnew, V6).
  assert (Hnp : contains_key id (parked st) = false) by (apply not_true_is_false; intros H; apply V7 in H as [s (y & Hy & _)%snd_get]; congruence).
  assert (Hs' : forall id', snd_in id' (BTree.insert id x (streams st)) = if id' =? id then st_send x else snd_in id' (streams st)) by (intros id'; unfold snd_in; rewrite get_insert; by destruct (id' =? id)).
  assert (Hr' : forall id', rcv_in id' (BTree.insert id x (streams st)) = if id' =? id then st_recv x else rcv_in id' (streams st)) by (intros id'; unfold rcv_in; rewrite get_insert; by destruct (id' =? id)).
  split; [|split].
  - split; rewrite ?Hcfg, ?Hpeer, ?Hst, ?Hq, ?Hp, ?Hc, ?Hd, ?Hroom, ?T1; try done.
    + split; [by apply insert_sorted|done].
    + intros id' y. rewrite get_insert. destruct (Z.eqb_spec id' id) as [->|]; [by intros [= <-]|]. intros Hy. destruct (V3 id' y Hy). auto.
    + intros id' s. rewrite Hs'. destruct (Z.eqb_spec id' id) as [->|]; [|apply V4]. intros Hs. destruct (Hsnd s Hs) as (max & -> & Hm).
      destruct (new_send_ok (send_queue st) (parked st) id max Hm Hnq Hnp) as [H1 H2]. by split.
    + intros id' r. rewrite Hr'. destruct (id' =? id); [|apply V5]. intros Hr. destruct (Hrcv r Hr) as (w & -> & Hw). by apply new_recv_ok.
    + split; [apply V6|]. intros id' Hin. by apply Hmono, V6.
    + intros id' Hin. rewrite Hs'. destruct (Z.eqb_spec id' id) as [->|]; [congruence|by apply V7].
    + destruct V9 as [C1 C2 C3 C4]. split; rewrite ?R1, ?R2, ?R3; try done. rewrite (total_new _ id x) by done. unfold unread_in at 1. cbn.
      destruct (st_recv x) as [r|] eqn:Hr; [destruct (Hrcv r eq_refl) as (w & -> & _)|]; cbn; lia.
  - split; [done|intros id'; rewrite Hcfg; apply Hmono| |].
    + intros id' s Hi. rewrite Hst, Hs'. destruct (Z.eqb_spec id' id) as [->|]; [done|]. intros Hs Hl. exists s. split; [done|]. split; [done|lia].
    + intros Hsm id' s. rewrite Hst, Hs', Hcfg. destruct (Z.eqb_spec id' id) as [->|]; [|apply Hsm]. intros Hs. destruct (Hsnd s Hs) as (max & -> & _). apply (cf_buffer _ V1).
  - intros [F1 F2 F3]. split; rewrite ?Hst, ?R1; [done|intros id' r; rewrite Hr'|intros id' s; rewrite Hs']; destruct (id' =? id); try apply F2; try apply F3.
    + intros Hr. destruct (Hrcv r Hr) as (w & -> & [_ Hw]). done.
    + intros Hs. destruct (Hsnd s Hs) as (max & -> & _). vm_compute. discriminate.
Qed.

Lemma kinds_new c r r' m id x k k' : sorted m -> BTree.get id m = None -> kinds_ok c r m k' ->
  at_kind k' (peer_closed r') = at_kind k' (peer_closed r) -> at_kind k' (max_streams r') = at_kind k' (max_streams r) ->
  peers c k' (id, x) = b2z (k' =? k) -> at_kind k' (peer_opened r') = at_kind k' (peer_opened r) + b2z (k' =? k) -> at_kind k' (peer_opened r') <= at_kind k' (max_streams r) ->
  kinds_ok c r' (BTree.insert id x m) k'.
Proof.
  intros Hs Hg [L1 L2 L3 L4 L5] Hc Hm Hp Ho Hle. split; rewrite ?Hc, ?Hm; try done; [|lia]. rewrite (total_new _ id x) by done. rewrite Hp. lia.
Qed.

Lemma local_make c i k b : 0 <= i <= MAX_STREAMS_LIMIT -> k = 0 \/ k = 1 -> local c (make_id i k b) = Bool.eqb b (client c).
Proof. intros Hi Hk. unfold local. by rewrite (proj2 (proj2 (proj2 (make_id_parts i k b Hi Hk)))). Qed.

Lemma kind_index_range b : kind_index b = 0 \/ kind_index b = 1.
Proof. destruct b; auto. Qed.

(** Nothing that the streams depend on changes. *)
Lemma other_change ex st st' :
  inv ex st -> cfg st' = cfg st /\ peer st' = peer st /\ streams st' = streams st /\ rx st' = rx st /\ send_queue st' = send_queue st /\ parked st' = parked st ->
  sorted (control st') -> data_blocked_sent (due st') = data_blocked_sent (due st) ->
  send_max_data (tx st') = send_max_data (tx st) /\ sent_total (tx st') = sent_total (tx st) /\ opened (tx st') = opened (tx st) ->
  sending_ok (tx st') (peer st) -> inv ex st' /\ evolves st st' /\ (fits st -> fits st').
Proof.
  intros [V1 [V2 [V2' V2'']] V3 V4 V5 V6 V7 V8 V9 V10 V11] (E1 & E2 & E3 & E4 & E5 & E6) Hc Hd (T1 & T2 & T3) Ht.
  assert (Hroom : conn_room st' = conn_room st) by (unfold conn_room; by rewrite T1, T2).
  split; [|split; [apply recv_evolves; [done|done|by rewrite E4|by rewrite E3]|intros [F1 F2 F3]; split; by rewrite ?E3, ?E4]].
  unfold issued in *. split; unfold issued; rewrite ?E1, ?E2, ?E3, ?E4, ?E5, ?E6, ?Hroom, ?T1, ?T3, ?Hd; done.
Qed.

Lemma open_ok ex st b : inv ex st ->
  let '(res, st') := open b st in (forall f, res <> Err (Fails f)) /\ inv ex st' /\ evolves st st' /\ (fits st -> fits st').
Proof.
  intros Hinv. unfold open. assert (Hsame : inv ex st /\ evolves st st /\ (fits st -> fits st)) by (split; [done|split; [apply evolves_refl|done]]).
  destruct (peer st) as [p|] eqn:Hp; [|done]. set (k := kind_index b). assert (Hk : k = 0 \/ k = 1) by apply kind_index_range. assert (Hkb : (k =? 0) = b) by (unfold k; by destruct b).
  destruct (iv_tx _ _ Hinv) as [T1 T2 T3 T4 T5]. destruct (T3 k Hk) as [T3' T3''].
  destruct (Z.leb_spec (at_kind k (peer_max_streams (tx st))) (at_kind k (opened (tx st)))) as [Hle|Hlt].
  - split; [done|]. destruct (iv_sorted _ _ Hinv) as (_ & Hsc & _). destruct (bool_decide _); (apply (other_change ex st); [done|done|done|done|done|by split]).
  - split; [done|]. rewrite u64_small by (change MAX_STREAMS_LIMIT with 1152921504606846976 in *; unfold U64_MAX; lia). set (id := make_id _ _ _).
    destruct (make_id_parts (at_kind k (opened (tx st))) k (client (cfg st)) ltac:(lia) Hk) as (P1 & P2 & P3 & P4). fold id in P1, P2, P3, P4.
    assert (Hloc : local (cfg st) id = true) by (unfold local; rewrite P4; by destruct (client (cfg st))).
    assert (Hinv0 := Hinv). destruct Hinv as [V1 V2 V3 V4 V5 V6 V7 V8 V9 V10 V11]. assert (Hbid : is_bidirectional id = b) by (by rewrite bidi_eq, P2).
    assert (Hnew : ~ issued (cfg st) (tx st) (rx st) id) by (intros [_ H]; rewrite Hloc, P2, P3 in H; lia).
    set (x := mk_stream (Some (new_send (if b then pl_bidi_remote p else pl_uni p))) (if b then Some (new_recv (bidi_local (cfg st))) else None)). set (st' := put_stream _ _ _).
    assert (Ho : forall k', k' = 0 \/ k' = 1 -> at_kind k' (opened (tx st')) = at_kind k' (opened (tx st)) + b2z (k' =? k)).
    { intros k' Hk'. cbn. rewrite at_put by done. destruct (Z.eqb_spec k' k) as [->|]; cbn; lia. }
    apply (add_stream ex st st' id x); try done.
    + intros id' [H1 H2]. split; [done|]. destruct (local (cfg st) id'); [|done]. rewrite Ho by apply kind_range. assert (H := b2z_range (kind_of id' =? k)). lia.
    + split; [done|]. rewrite Hloc, Ho, P2, P3, Z.eqb_refl by apply kind_range. cbn. lia.
    + unfold shape, window_of. rewrite Hloc, Hbid. cbn. split; [split; [by left|by eexists]|]. destruct b; cbn; (split; [split; intros H|intros r H]); [by right|by eexists|by injection H as <-|by destruct H|by destruct H|done].
    + intros s [= <-]. eexists. split; [done|]. destruct (T5 p Hp) as (? & ? & ?). by destruct b.
    + intros r. cbn. destruct b; intros H; [|done]. injection H as <-. eexists. split; [done|]. apply (cf_data _ V1).
    + split; cbn; try done; [|by rewrite Hp]. intros k' Hk'. rewrite at_put by done. destruct (T3 k' Hk') as [? ?]. destruct (Z.eqb_spec k' k) as [->|]; lia.
    + intros k' Hk'. assert (Hget : BTree.get id (streams st) = None) by (destruct (BTree.get id (streams st)) as [y|] eqn:Hy; [|done]; destruct Hnew; by apply (V3 id y)).
      destruct (V10 k' Hk') as [L1 L2 L3 L4 L5]. split; try done. change (rx st') with (rx st). rewrite (total_new _ id x), peers_at, Hloc by (done || apply V2). cbn. lia.
Qed.

(** A stream that the peer opened and nothing was said of yet. *)
Definition fresh (st : Streams) (k : Z) : Stream :=
  mk_stream (if k =? 0 then Some (new_send match peer st with Some p => pl_bidi_local p | None => 0 end) else None)
    (Some (new_recv (if k =? 0 then bidi_remote (cfg st) else uni (cfg st)))).

(** The streams of kind [k] from [i] to [index], of the peer. *)
Definition among (c : StreamsConfig) (k i index id : Z) : bool :=
  (0 <=? id) && negb (local c id) && (kind_of id =? k) && (i <=? index_of id) && (index_of id <=? index).

(** What opening the streams of the peer up to a number does. *)
Record opened_upto (st st' : Streams) (k index : Z) : Prop := mk_opened_upto {
  ou_same : cfg st' = cfg st /\ peer st' = peer st /\ tx st' = tx st /\ due st' = due st /\ control st' = control st /\ send_queue st' = send_queue st /\ parked st' = parked st /\ events st' = events st;
  ou_rx : recv_limit (rx st') = recv_limit (rx st) /\ recv_total (rx st') = recv_total (rx st) /\ consumed (rx st') = consumed (rx st) /\
    max_streams (rx st') = max_streams (rx st) /\ peer_closed (rx st') = peer_closed (rx st);
  ou_opened : forall k', k' = 0 \/ k' = 1 -> at_kind k' (peer_opened (rx st')) = if k' =? k then Z.max (at_kind k (peer_opened (rx st))) (index + 1) else at_kind k' (peer_opened (rx st));
  ou_streams : forall id, BTree.get id (streams st') = if among (cfg st) k (at_kind k (peer_opened (rx st))) index id then Some (fresh st k) else BTree.get id (streams st);
}.

Lemma among_none c k i index id : index < i -> among c k i index id = false.
Proof. intros H. unfold among. destruct (Z.leb_spec i (index_of id)), (Z.leb_spec (index_of id) index); rewrite ?andb_false_r; (done || lia). Qed.

(** The next of them, and those after it. *)
Lemma among_step c k i index id : k = 0 \/ k = 1 -> 0 <= i <= index -> index <= MAX_STREAMS_LIMIT ->
  let sid := make_id i k (negb (client c)) in
  among c k i index id = (id =? sid) || among c k (i + 1) index id.
Proof.
  intros Hk Hi Hx sid. destruct (make_id_parts i k (negb (client c)) ltac:(lia) Hk) as (P1 & P2 & P3 & P4). fold sid in P1, P2, P3, P4.
  unfold among. destruct (Z.eqb_spec id sid) as [->|Hne]; cbn [orb].
  - unfold local. rewrite P2, P3, P4, Z.eqb_refl. rewrite !(proj2 (Z.leb_le _ _)) by lia. by destruct (client c).
  - destruct (negb (local c id)) eqn:Hloc; rewrite ?andb_false_r; [|done]. destruct (Z.eqb_spec (kind_of id) k) as [Hkind|]; rewrite ?andb_false_r; [|done].
    destruct (Z.leb_spec i (index_of id)), (Z.leb_spec (i + 1) (index_of id)); rewrite ?andb_false_r; try done; try lia.
    exfalso. apply Hne. apply id_parts; [|congruence|lia]. rewrite P4. unfold local in Hloc. by destruct (is_client_initiated id), (client c).
Qed.

Lemma open_loop_ok ex k index fuel : k = 0 \/ k = 1 -> forall st,
  inv ex st -> index < at_kind k (max_streams (rx st)) -> (Z.to_nat (index + 1 - at_kind k (peer_opened (rx st))) < fuel)%nat ->
  exists st', open_loop fuel k index st = Some st' /\ inv ex st' /\ evolves st st' /\ (fits st -> fits st') /\ opened_upto st st' k index.
Proof.
  intros Hk. induction fuel as [|fuel IH]; intros st Hinv Hmax Hfuel; [lia|]. cbn [open_loop].
  assert (Hkind := iv_kinds _ _ Hinv k Hk). destruct (kept_opened _ _ _ _ Hkind) as [Hcl Hop]. destruct Hkind as [K1 K2 K3 K4 K5].
  remember (at_kind k (peer_opened (rx st))) as i eqn:Hi. destruct (Z.leb_spec i index) as [Hle|Hgt].
  2:{ exists st. split; [done|]. split; [done|]. split; [apply evolves_refl|]. split; [done|]. split; [done|done| |].
      - intros k' _. rewrite <- ?Hi. destruct (Z.eqb_spec k' k); [subst k'; rewrite <- ?Hi; lia|done].
      - intros id. rewrite <- ?Hi. by rewrite among_none. }
  rewrite u64_small by (change MAX_STREAMS_LIMIT with 1152921504606846976 in *; unfold U64_MAX; lia).
  set (sid := make_id i k (negb (client (cfg st)))). destruct (make_id_parts i k (negb (client (cfg st))) ltac:(lia) Hk) as (P1 & P2 & P3 & P4). fold sid in P1, P2, P3, P4.
  assert (Hloc : local (cfg st) sid = false) by (unfold local; rewrite P4; by destruct (client (cfg st))).
  change (put_stream _ _ _) with (put_stream sid (fresh st k) (with_rx (mk_receiving (recv_limit (rx st)) (recv_total (rx st)) (consumed (rx st)) (max_streams (rx st)) (put_kind k (i + 1) (peer_opened (rx st))) (peer_closed (rx st))) st)).
  set (st1 := put_stream _ _ _).
  assert (Hnew : ~ issued (cfg st) (tx st) (rx st) sid) by (intros [_ H]; rewrite Hloc, P2, P3 in H; rewrite <- Hi in H; lia).
  assert (Ho : forall k', k' = 0 \/ k' = 1 -> at_kind k' (peer_opened (rx st1)) = at_kind k' (peer_opened (rx st)) + b2z (k' =? k)).
  { intros k' Hk'. cbn. rewrite at_put by done. destruct (Z.eqb_spec k' k); [subst k'|]; cbn; rewrite <- ?Hi; lia. }
  assert (Hadd : inv ex st1 /\ evolves st st1 /\ (fits st -> fits st1)).
  { destruct (cf_data _ (iv_cfg _ _ Hinv)) as (_ & _ & Hcr & Hcu). apply (add_stream ex st st1 sid (fresh st k)); try done.
    - intros id' [H1 H2]. split; [done|]. destruct (local (cfg st) id'); [done|]. rewrite Ho by apply kind_range. assert (H := b2z_range (kind_of id' =? k)). lia.
    - split; [done|]. rewrite Hloc, Ho, P2, P3, Z.eqb_refl by apply kind_range. cbn. rewrite <- ?Hi. lia.
    - unfold shape, window_of. rewrite Hloc, bidi_eq, P2. cbn. split; [|split; [split; [by left|by eexists]|by intros r [= <-]]].
      destruct (k =? 0); cbn; (split; [intros H|intros H]); [by right|by eexists|by destruct H|by destruct H].
    - intros s. cbn. destruct (k =? 0); [|done]. intros [= <-]. eexists. split; [done|]. destruct (peer st) as [p|] eqn:Hp; [|unfold field; change MAX_VARINT with 4611686018427387903; lia].
      by destruct (to_limits _ _ (iv_tx _ _ Hinv) p Hp).
    - intros r [= <-]. eexists. split; [done|]. by destruct (k =? 0).
    - apply (iv_tx _ _ Hinv).
    - intros k' Hk'. assert (Hget : BTree.get sid (streams st) = None) by (destruct (BTree.get sid (streams st)) as [y|] eqn:Hy; [|done]; destruct Hnew; by apply (iv_ids _ _ Hinv sid y)).
      assert (Hkk := iv_kinds _ _ Hinv k' Hk'). apply (kinds_new _ (rx st) _ _ _ _ k); try done.
      + apply (iv_sorted _ _ Hinv).
      + rewrite peers_at, Hloc, P2. cbn. by rewrite Z.eqb_sym.
      + by rewrite Ho.
      + rewrite Ho by done. destruct Hkk as [_ _ L3 _ _]. destruct (Z.eqb_spec k' k); [subst k'|]; cbn; rewrite <- ?Hi in *; lia. }
  destruct Hadd as (H1 & H2 & H3). assert (Ho1 : at_kind k (peer_opened (rx st1)) = i + 1) by (rewrite Ho, Z.eqb_refl by done; by rewrite <- Hi).
  destruct (IH st1 H1) as (st' & He & H4 & H5 & H6 & [S1 S2 S3 S4]); [done|rewrite Ho1; lia|].
  exists st'. split; [exact He|]. split; [done|]. split; [by eapply evolves_trans|]. split; [auto|]. split; [done|done| |].
  - intros k' Hk'. rewrite S3, Ho1 by done. rewrite <- ?Hi. destruct (Z.eqb_spec k' k) as [Hkk|Hne]; [lia|]. rewrite Ho by done. rewrite (proj2 (Z.eqb_neq _ _)) by done. cbn. lia.
  - intros id. rewrite S4, Ho1. change (fresh st1 k) with (fresh st k). change (cfg st1) with (cfg st). rewrite <- ?Hi. rewrite (among_step _ k i) by (lia || done). fold sid.
    cbn [streams st1 put_stream with_streams with_rx]. rewrite get_insert. destruct (id =? sid), (among (cfg st) k (i + 1) index id); done.
Qed.

(** The outcome of a call that cannot fault. *)
Definition sound {E A} (st : Streams) (x : outcome E A) : Prop := (forall f, fst x <> Err (Fails f)) /\ inv [] (snd x) /\ evolves st (snd x).

Lemma open_remote_ok ex id st : inv ex st -> 0 <= id ->
  let k := kind_of id in
  match open_remote id st with
  | (Ok _, st') => index_of id < at_kind k (max_streams (rx st)) /\ inv ex st' /\ evolves st st' /\ (fits st -> fits st') /\ opened_upto st st' k (index_of id)
  | (Err (Says e), st') => at_kind k (max_streams (rx st)) <= index_of id /\ st' = st /\ code e = STREAM_LIMIT_ERROR
  | (Err (Fails _), _) => False
  end.
Proof.
  intros Hinv Hid k. unfold open_remote. fold k. destruct (Z.leb_spec (at_kind k (max_streams (rx st))) (index_of id)) as [Hle|Hlt]; [done|].
  destruct (open_loop_ok ex k (index_of id) (S (Z.to_nat (index_of id + 1 - at_kind k (peer_opened (rx st))))) (kind_range id) st Hinv Hlt ltac:(lia)) as (st' & -> & H). done.
Qed.

(** ** Frames that arrive *)

(** Why the peer may not send a frame about the receiving side of a stream,
    and about its sending side. *)
Definition not_ours (st : Streams) (id : Z) : option Z :=
  if at_kind (kind_of id) (max_streams (rx st)) <=? index_of id then Some STREAM_LIMIT_ERROR else None.

Definition recv_error (st : Streams) (id : Z) : option Z :=
  if local (cfg st) id then
    if negb (is_bidirectional id) || (at_kind (kind_of id) (opened (tx st)) <=? index_of id) then Some STREAM_STATE_ERROR else None
  else not_ours st id.

Definition send_error (st : Streams) (id : Z) : option Z :=
  if local (cfg st) id then
    if at_kind (kind_of id) (opened (tx st)) <=? index_of id then Some STREAM_STATE_ERROR else None
  else if negb (is_bidirectional id) then Some STREAM_STATE_ERROR else not_ours st id.

(** What a frame about stream [id] opens. *)
Definition opens (st st' : Streams) (id : Z) : Prop :=
  if local (cfg st) id then st' = st else opened_upto st st' (kind_of id) (index_of id).

Definition checked (st : Streams) (id : Z) (err : option Z) (x : outcome TransportError bool) : Prop :=
  match x with
  | (Ok kept, st') => err = None /\ inv [] st' /\ evolves st st' /\ (fits st -> fits st') /\ opens st st' id /\ kept = contains id st'
  | (Err (Says e), st') => err = Some (code e) /\ st' = st
  | (Err (Fails _), _) => False
  end.

Lemma opened_remote_ok id st : inv [] st -> 0 <= id -> local (cfg st) id = false -> checked st id (not_ours st id) (opened_remote id st).
Proof.
  intros Hinv Hid Hloc. unfold opened_remote, checked, not_ours, opens. rewrite Hloc. assert (H := open_remote_ok [] id st Hinv Hid). cbn zeta in H.
  destruct (open_remote id st) as [[[]|[f|e]] st'].
  - destruct H as (H & H1 & H2 & H3 & H4). by rewrite (proj2 (Z.leb_gt _ _)).
  - done.
  - destruct H as (H & -> & Hc). by rewrite (proj2 (Z.leb_le _ _)), Hc by done.
Qed.

Lemma checked_here st id kept : inv [] st -> local (cfg st) id = true -> kept = contains id st -> checked st id None (Ok kept, st).
Proof. intros Hinv Hl ->. split; [done|]. split; [done|]. split; [apply evolves_refl|]. split; [done|]. unfold opens. by rewrite Hl. Qed.

Lemma check_recv_ok id st : inv [] st -> 0 <= id -> checked st id (recv_error st id) (check_recv id st).
Proof.
  intros Hinv Hid. unfold check_recv, recv_error. fold (local (cfg st) id). destruct (local (cfg st) id) eqn:Hl; [|by apply opened_remote_ok].
  destruct (negb (is_bidirectional id)); cbn [orb]; [done|]. destruct (_ <=? _); [done|by apply checked_here].
Qed.

Lemma check_send_ok id st : inv [] st -> 0 <= id -> checked st id (send_error st id) (check_send id st).
Proof.
  intros Hinv Hid. unfold check_send, send_error. fold (local (cfg st) id). destruct (local (cfg st) id) eqn:Hl.
  - destruct (_ <=? _); [done|by apply checked_here].
  - destruct (negb (is_bidirectional id)); [done|by apply opened_remote_ok].
Qed.

(** A handler that runs after the check. *)
Lemma when_ok id st err x k : inv [] st -> fits st -> checked st id err x ->
  (forall st', inv [] st' -> fits st' -> sound st' (k st')) -> sound st (when x k).
Proof.
  intros Hinv Hfit Hx Hk. unfold when. destruct x as [[[]|[f|e]] st']; cbn in Hx.
  - destruct Hx as (_ & H1 & H2 & H3 & _). destruct (Hk st' H1 (H3 Hfit)) as (K1 & K2 & K3). split; [done|]. split; [done|by eapply evolves_trans].
  - destruct Hx as (_ & H1 & H2 & _). done.
  - done.
  - destruct Hx as (_ & ->). split; [done|]. split; [done|apply evolves_refl].
Qed.

Lemma tell_ok ex st e : inv ex st -> inv ex (tell e st) /\ evolves st (tell e st) /\ (fits st -> fits (tell e st)).
Proof. intros Hinv. apply (other_change ex st); try done; [apply (iv_sorted _ _ Hinv)|apply (iv_tx _ _ Hinv)]. Qed.

(** A receiving side when bytes have come. *)
Definition with_bytes (r : Recv) (b : Reassembler) (end_ : Z) (fin : bool) : Recv :=
  let r := r_with_high (Z.max (r_high r) end_) (r_with_buf b r) in if fin then r_with_final (Some end_) r else r.

Lemma final_agrees r end_ fin : recv_ok r -> final_size_error r end_ fin = None ->
  (forall f, r_final_size r = Some f -> end_ <= r_high r) /\ (fin = true -> r_high r <= end_).
Proof.
  intros Hok. unfold final_size_error. destruct (r_final_size r) as [fs|] eqn:Hf; [|destruct fin; cbn [andb]].
  - assert (fs = r_high r) as -> by by apply (ro_final _ Hok). destruct (Z.ltb_spec (r_high r) end_); cbn [orb]; [done|]. destruct fin; cbn [andb].
    + destruct (Z.eqb_spec end_ (r_high r)); [|done]. intros _. split; intros; lia.
    + intros _. split; [done|discriminate].
  - destruct (Z.ltb_spec end_ (r_high r)); [done|]. by intros _.
  - by intros _.
Qed.

Lemma with_bytes_ok r offset d fin b : let end_ := offset + len d in
  recv_ok r -> r_state r = ROpen -> final_size_error r end_ fin = None -> end_ <= r_max_data r ->
  merged (r_buf r) offset d b -> within_limit b ->
  recv_ok (with_bytes r b end_ fin) /\ unread (with_bytes r b end_ fin) = unread r + sat_sub end_ (r_high r).
Proof.
  intros end_ Hok Hst Hf Hmax Hm Hw. destruct (final_agrees r end_ fin Hok Hf) as [Hf1 Hf2]. destruct Hok as [[O1 O1'] [O2 O2'] O3 O4 O5 O6 O7 O8].
  assert (He := end_offset_merged _ _ _ _ O1 Hm). destruct Hm as (M1 & M2 & M3). rewrite Hst in O4. fold end_ in He.
  set (r1 := with_bytes r b end_ fin). assert (Hr1 : r_buf r1 = b /\ r_high r1 = Z.max (r_high r) end_ /\ r_max_data r1 = r_max_data r /\ r_window r1 = r_window r /\ r_state r1 = r_state r /\ r_stop r1 = r_stop r /\ r_final_size r1 = (if fin then Some end_ else r_final_size r)) by (unfold r1, with_bytes; by destruct fin).
  destruct Hr1 as (E1 & E2 & E3 & E4 & E5 & E6 & E7). split.
  - split; rewrite ?E1, ?E2, ?E3, ?E4, ?E5, ?E6, ?E7, ?Hst; try done; [lia|lia| |].
    + intros f. destruct fin; [intros [= <-]; specialize (Hf2 eq_refl); lia|]. intros Hfs. specialize (Hf1 f Hfs). apply O5 in Hfs. lia.
    + intros _ Hn. rewrite M2. apply O7; [done|]. by destruct fin.
  - unfold unread. rewrite E1, E2, E5, Hst, M2. unfold sat_sub. lia.
Qed.

Lemma received_eq n st : u64 (recv_total (rx st) + n) = recv_total (rx st) + n ->
  received n st = with_rx (mk_receiving (recv_limit (rx st)) (recv_total (rx st) + n) (consumed (rx st)) (max_streams (rx st)) (peer_opened (rx st)) (peer_closed (rx st))) st.
Proof. intros H. unfold received. by rewrite H. Qed.

Lemma fits_recv st st' id r' : fits st -> is_Some (rcv_in id (streams st)) -> streams st' = set_recv id r' (streams st) -> recv_limit (rx st') = recv_limit (rx st) -> r_max_data r' <= MAX_VARINT -> fits st'.
Proof.
  intros [F1 F2 F3] Hr Hs Hl Hm. split; rewrite ?Hl, ?Hs; [done|intros id' r; rewrite rcv_set_recv by done; destruct (id' =? id); [by intros [= <-]|apply F2]|intros id' s; rewrite snd_set_recv; apply F3].
Qed.

(** Bytes that were taken, on the connection's account. *)
Lemma deliver_ok ex st id r r1 delta : inv ex st -> fits st -> rcv_in id (streams st) = Some r -> recv_ok r1 -> unread r1 = unread r + delta -> 0 <= delta ->
  recv_total (rx st) + delta <= recv_limit (rx st) -> r_max_data r1 = r_max_data r /\ r_window r1 = r_window r ->
  let st1 := received delta (put_recv id r1 st) in
  inv ex st1 /\ evolves st st1 /\ fits st1 /\ rcv_in id (streams st1) = Some r1 /\ streams st1 = set_recv id r1 (streams st) /\ cfg st1 = cfg st.
Proof.
  intros Hinv Hfit Hr Hok Hun Hd Hlim [Hmax Hwin]. cbn zeta. destruct (iv_sorted _ _ Hinv) as (Hss & Hsc & _). destruct (iv_credit _ _ Hinv) as [C1 C2 C3 C4].
  assert (Htot : 0 <= recv_total (rx st)) by (destruct (unread_bound id r _ Hss (iv_recv _ _ Hinv) Hr); lia). assert (Hfl := ft_limit _ Hfit).
  rewrite put_recv_streams, received_eq by (cbn; apply u64_small; change MAX_VARINT with 4611686018427387903 in *; unfold U64_MAX; lia). cbn [rx with_streams].
  split; [|split; [|split; [|split; [|done]]]].
  - eapply (recv_change ex st _ id r r1); try done. split; cbn; [done| |lia|done]. rewrite (unread_set id r) by done. lia.
  - apply recv_evolves; try done. intros id'. cbn. by rewrite snd_set_recv.
  - eapply (fits_recv st _ id r1); [done|by eauto|done|done|]. rewrite Hmax. by apply (ft_recv _ Hfit id).
  - cbn. by rewrite rcv_set_recv, Z.eqb_refl by eauto.
Qed.

Lemma sound_same {E A} (st : Streams) (res : result (failure E) A) : inv [] st -> (forall f, res <> Err (Fails f)) -> sound st (res, st).
Proof. intros Hinv Hf. split; [done|]. split; [done|apply evolves_refl]. Qed.

Lemma unread_total ex st : inv ex st -> 0 <= total unread_in (streams st).
Proof.
  intros Hinv. destruct (iv_sorted _ _ Hinv) as (Hss & _). apply measure_nonneg. intros [id x] Hin. unfold unread_in. cbn. destruct (st_recv x) as [r|] eqn:Hr; [|done].
  apply unread_nonneg, (iv_recv _ _ Hinv id). unfold rcv_in. apply get_in in Hin; [|done]. by rewrite Hin.
Qed.

(** A limit, and the connection's, with [delta] more. *)
Lemma total_small ex st delta : inv ex st -> fits st -> 0 <= delta <= MAX_VARINT -> u64 (recv_total (rx st) + delta) = recv_total (rx st) + delta.
Proof.
  intros Hinv Hfit Hd. destruct (iv_credit _ _ Hinv) as [C1 C2 C3 C4]. assert (Hfl := ft_limit _ Hfit). assert (H0 := unread_total _ _ Hinv).
  apply u64_small. change MAX_VARINT with 4611686018427387903 in *. unfold U64_MAX. lia.
Qed.

Lemma on_stream_ok id offset d fin st : inv [] st -> fits st -> frame_wf (Frames.StreamFrame id offset d fin) -> sound st (on_stream id offset d fin st).
Proof.
  intros Hinv Hfit (Hid & _ & Ho & Hend). unfold on_stream. eapply when_ok; [done|done|apply check_recv_ok; [done|apply Hid]|]. clear st Hinv Hfit. intros st Hinv Hfit.
  change (recv_of id st) with (rcv_in id (streams st)). destruct (rcv_in id (streams st)) as [r|] eqn:Hr; [|by apply sound_same].
  destruct (bool_decide_reflect (r_state r = ROpen)) as [Hst|]; cbn [negb]; [|by apply sound_same]. assert (Hd := len_nonneg d).
  rewrite (u64_small (offset + len d)) by (change MAX_VARINT with 4611686018427387903 in *; unfold U64_MAX; lia). set (end_ := offset + len d) in *.
  destruct (final_size_error r end_ fin) eqn:Hf; [by apply sound_same|]. destruct (Z.ltb_spec (r_max_data r) end_) as [|Hmax]; [by apply sound_same|].
  assert (Hok := iv_recv _ _ Hinv id r Hr). assert (Hmx := ft_recv _ Hfit id r Hr). destruct (ro_buf _ Hok) as [Hb Hb']. assert (Hrd := wf_read _ Hb). destruct (ro_end _ Hok) as [He1 He2].
  assert (Hlow := end_offset_low (r_buf r)).
  set (delta := sat_sub end_ (r_high r)). assert (Hdelta : 0 <= delta <= MAX_VARINT) by (unfold delta, sat_sub; change MAX_VARINT with 4611686018427387903 in *; lia).
  rewrite (total_small [] st) by done. destruct (Z.ltb_spec (recv_limit (rx st)) (recv_total (rx st) + delta)) as [|Hlim]; [by apply sound_same|].
  rewrite u64_small by (change MAX_VARINT with 4611686018427387903 in *; unfold U64_MAX; lia).
  assert (Hins := ra_insert_ok (r_buf r) offset d (r_max_data r - read_off (r_buf r)) Hb Ho ltac:(lia)). unfold inserted in Hins.
  destruct (Reassembly.insert offset d _ (r_buf r)) as [b|[| |f]]; [|by apply sound_same|by apply sound_same|done].
  destruct Hins as (_ & _ & _ & Hm & Hw). fold (with_bytes r b end_ fin). set (r1 := with_bytes r b end_ fin).
  destruct (with_bytes_ok r offset d fin b Hok Hst Hf Hmax Hm (Hw Hb')) as [Hok1 Hun]. fold end_ r1 delta in Hok1, Hun.
  destruct (deliver_ok [] st id r r1 delta Hinv Hfit Hr Hok1 Hun) as (H1 & H2 & H3 & H4 & H5 & H6); [lia|lia|unfold r1, with_bytes; by destruct fin|].
  set (st1 := received _ _) in *. split; [done|]. cbn [snd]. destruct (r_discard r1).
  - destruct (drain_ok [] st1 id H1 H3) as (G1 & G2 & _). split; [done|by eapply evolves_trans].
  - destruct (recv_readable r1 && negb (r_queued r1)); [|done]. rewrite put_recv_streams. set (r2 := r_with_queued true r1).
    destruct (iv_sorted _ _ H1) as (_ & Hsc & _). destruct (recv_flags [] st1 (with_streams (set_recv id r2 (streams st1)) st1) id r1 r2) as [G1 G2]; try done; [by left|apply Hok1|].
    destruct (tell_ok [] _ (Readable id) G1) as (G3 & G4 & _). split; [done|]. eapply evolves_trans; [exact H2|]. by eapply evolves_trans.
Qed.

Lemma grow_connection_window_eq st : 0 <= consumed (rx st) -> 0 <= max_data (cfg st) -> consumed (rx st) + max_data (cfg st) <= U64_MAX ->
  exists d, grow_connection_window st =
    mk_streams (cfg st) (streams st) (peer st) (tx st)
      (mk_receiving (grown (cfg st) (consumed (rx st)) (recv_limit (rx st))) (recv_total (rx st)) (consumed (rx st)) (max_streams (rx st)) (peer_opened (rx st)) (peer_closed (rx st)))
      d (control st) (send_queue st) (parked st) (events st) /\ data_blocked_sent d = data_blocked_sent (due st).
Proof.
  intros H1 H2 H3. unfold grow_connection_window, grown. rewrite u64_small by lia. destruct (_ && _); [by eexists|]. exists (due st). split; [by destruct st as [? ? ? ? [] ? ? ? ? ?]|done].
Qed.

(** A receiving side when the peer has reset it. *)
Definition as_reset (r : Recv) (error final_size : Z) (state : RecvState) (queued : bool) : Recv :=
  mk_recv Reassembly.new (r_max_data r) (r_window r) final_size (Some final_size) state (r_discard r) None (r_max_data_pending r) queued.

Lemma as_reset_ok r error final_size state queued : recv_ok r -> r_state r = ROpen -> r_high r <= final_size <= r_max_data r ->
  state = RReset error \/ state = RResetRead error -> recv_ok (as_reset r error final_size state queued).
Proof.
  intros [[O1 O1'] [O2 O2'] O3 O4 O5 O6 O7 O8] Hst Hf Hs. rewrite Hst in O4. assert (Hlow := end_offset_low (r_buf r)). assert (Hrd := wf_read _ O1).
  split; cbn; try done.
  - split; [apply Reassembly.wf_new|unfold within_limit; cbn; lia].
  - change (end_offset Reassembly.new) with 0. lia.
  - destruct Hs as [-> | ->]; lia.
  - by intros f [= <-].
  - by destruct Hs as [-> | ->].
Qed.

Lemma on_reset_stream_ok id error final_size st : inv [] st -> fits st -> frame_wf (ResetStream id error final_size) -> sound st (on_reset_stream id error final_size st).
Proof.
  intros Hinv Hfit (Hid & He & Hfs). unfold on_reset_stream. eapply when_ok; [done|done|apply check_recv_ok; [done|apply Hid]|]. clear st Hinv Hfit. intros st Hinv Hfit.
  change (recv_of id st) with (rcv_in id (streams st)). destruct (rcv_in id (streams st)) as [r|] eqn:Hr; [|by apply sound_same].
  destruct (match r_final_size r with Some fs => negb (fs =? final_size) | None => false end); cbn [orb]; [by apply sound_same|].
  destruct (Z.ltb_spec final_size (r_high r)) as [|Hge]; [by apply sound_same|]. destruct (Z.ltb_spec (r_max_data r) final_size) as [|Hmax]; [by apply sound_same|].
  assert (Hok := iv_recv _ _ Hinv id r Hr). assert (Hmx := ft_recv _ Hfit id r Hr). destruct (ro_buf _ Hok) as [Hb Hb']. assert (Hrd := wf_read _ Hb). destruct (ro_end _ Hok) as [He1 He2]. assert (Hlow := end_offset_low (r_buf r)).
  assert (Hb62 : MAX_VARINT = 4611686018427387903) by done. destruct Hfs as [Hfs1 Hfs2].
  rewrite (u64_small (final_size - r_high r)) by (unfold U64_MAX; lia). set (delta := final_size - r_high r).
  rewrite (total_small [] st) by (done || unfold delta; lia). destruct (Z.ltb_spec (recv_limit (rx st)) (recv_total (rx st) + delta)) as [|Hlim]; [by apply sound_same|].
  destruct (bool_decide_reflect (r_state r = ROpen)) as [Hst|]; cbn [negb]; [|by apply sound_same].
  rewrite (u64_small (final_size - _)) by (unfold U64_MAX; lia). set (unr := final_size - read_off (r_buf r)).
  destruct (iv_sorted _ _ Hinv) as (Hss & Hsc & _). destruct (unread_bound id r _ Hss (iv_recv _ _ Hinv) Hr) as [U1 U2]. destruct (iv_credit _ _ Hinv) as [C1 C2 C3 C4]. assert (Hfl := ft_limit _ Hfit).
  destruct (cf_data _ (iv_cfg _ _ Hinv)) as ([Hmd Hmd'] & _). assert (Hun : unread r = r_high r - read_off (r_buf r)) by (unfold unread; by rewrite Hst).
  rewrite received_eq by (apply u64_small; unfold U64_MAX; lia).
  set (r' := if r_discard r then as_reset r error final_size (RResetRead error) (r_queued r) else as_reset r error final_size (RReset error) true).
  assert (Hok' : recv_ok r') by (unfold r'; destruct (r_discard r); apply as_reset_ok; auto; lia).
  assert (Hun' : unread r' = 0) by (unfold r'; by destruct (r_discard r)).
  split; [done|]. cbn [snd].
  (* the state before the credit of the connection moves *)
  set (st1 := if negb (r_discard r) then _ else _).
  assert (Hst1 : exists ev, st1 = mk_streams (cfg st) (set_recv id r' (streams st)) (peer st) (tx st) (mk_receiving (recv_limit (rx st)) (recv_total (rx st) + delta) (consumed (rx st)) (max_streams (rx st)) (peer_opened (rx st)) (peer_closed (rx st))) (due st) (control st) (send_queue st) (parked st) ev).
  { unfold st1, r'. rewrite !put_recv_streams. destruct (r_discard r); cbn [negb]; [by eexists|]. destruct (r_queued r) eqn:Hq; eexists; [|reflexivity]. unfold as_reset, r_with_state, r_with_stop, r_with_buf, r_with_high, r_with_final. cbn. by rewrite Hq. }
  destruct Hst1 as [ev Hst1]. rewrite Hst1. clear Hst1 st1. unfold consume. cbn [rx consumed]. rewrite (u64_small (consumed _ + _)) by (unfold U64_MAX, unr; lia).
  set (st2 := with_rx _ _). destruct (grow_connection_window_eq st2) as (d & Heq & Hd); cbn [st2 with_rx rx consumed cfg]; [unfold unr; lia|done|unfold U64_MAX, unr; lia|]. rewrite Heq. clear Heq.
  cbn [st2 with_rx rx consumed cfg streams peer tx recv_limit recv_total max_streams peer_opened peer_closed control send_queue parked events].
  assert (Hg := grown_ok (cfg st) (consumed (rx st) + unr) (recv_limit (rx st)) ltac:(unfold unr; lia)). set (st3 := mk_streams _ _ _ _ _ _ _ _ _ _).
  assert (H3 : inv [] st3 /\ evolves st st3).
  { split; [|apply recv_evolves; try done; intros id'; cbn; by rewrite snd_set_recv]. eapply (recv_change [] st st3 id r r'); try done; [unfold r'; by destruct (r_discard r)|].
    split; cbn; [unfold unr; lia| |split; [unfold delta, unr in *; lia|lia]|apply Hg]. rewrite (unread_set id r) by done. unfold delta, unr. lia. }
  destruct H3 as [H3 H3']. destruct (r_discard r); [|done]. destruct (cleanup_ok [] st3 id H3) as (G1 & G2 & _). split; [done|by eapply evolves_trans].
Qed.
