(* ===== verification/StreamsRun.v ===== *)
(** What the calls of the other end's news do to the invariant of [StreamsOk]:
    limits that the peer raises, frames that were acknowledged or lost.  Runs
    of the calls are in [FlowControl]. *)

From Stdlib Require Import ZArith Lia.
From stdpp Require Import base option numbers list_numbers list.
From S2P Require Import Prelude BTree Slice RangeSet Wire Frames Params Reassembly SendBuf Streams StreamsOk.

#[local] Open Scope Z_scope.

(** ** The sending side's frames *)

Lemma send_ok_moved q p id s s' :
  send_ok q p id s -> s_buf s' = s_buf s /\ s_state s' = s_state s /\ s_reset s' = s_reset s -> s_queued s' = s_queued s /\ s_parked s' = s_parked s ->
  field (s_max_data s') -> s_max_data s <= s_max_data s' -> (forall v, s_blocked_sent s' = Some v -> field v) -> send_ok q p id s'.
Proof.
  intros [K1 K2 K3 K4 K5 K6 K7 K8 K9] (E1 & E2 & E3) (E4 & E5) Hm Hle Hb. split; unfold sending in *; rewrite ?E1, ?E2, ?E3, ?E4, ?E5; try done. intros H. specialize (K4 H). lia.
Qed.

Lemma on_stop_sending_ok id error st : inv [] st -> fits st -> field id -> field error -> sound st (on_stop_sending id error st).
Proof.
  intros Hinv Hfit Hid He. unfold on_stop_sending. eapply when_ok; [done|done|apply check_send_ok; [done|apply Hid]|]. clear st Hinv Hfit. intros st Hinv Hfit.
  change (send_of id st) with (snd_in id (streams st)). destruct (snd_in id (streams st)) as [s|] eqn:Hs; [|by apply sound_same].
  destruct (sending s) eqn:Hl; [|by apply sound_same]. split; [done|]. cbn [snd]. rewrite put_send_streams. set (s1 := s_with_stopped (Some error) s).
  destruct (iv_sorted _ _ Hinv) as (_ & Hsc & _). destruct (iv_send _ _ Hinv id s Hs) as [Hok _]. set (st1 := with_streams (set_send id s1 (streams st)) st).
  assert (H1 : inv [] st1) by (eapply (unmoved [] st st1 id s s1); try done; try apply (send_ok_moved _ _ _ s); try done; apply Hok).
  assert (Hsoft : soft st st1) by (eapply (set_send_soft st st1 id s s1); done).
  destruct (tell_ok [] st1 (Stopped id error) H1) as (H2 & H3 & H4). assert (Hf1 := soft_fits _ _ Hsoft Hfit).
  destruct (do_reset_ok [] (tell (Stopped id error) st1) id error s1 H2 (H4 Hf1) He) as (H5 & H6 & _).
  - change (streams (tell (Stopped id error) st1)) with (set_send id s1 (streams st)). by rewrite snd_set_send, Z.eqb_refl by eauto.
  - done.
  - split; [done|]. eapply evolves_trans; [exact (soft_evolves _ _ Hsoft)|exact (evolves_trans _ _ _ H3 H6)].
Qed.

Lemma on_max_stream_data_ok id max st : inv [] st -> fits st -> field id -> field max -> sound st (on_max_stream_data id max st).
Proof.
  intros Hinv Hfit Hid Hm. unfold on_max_stream_data. eapply when_ok; [done|done|apply check_send_ok; [done|apply Hid]|]. clear st Hinv Hfit. intros st Hinv Hfit.
  change (send_of id st) with (snd_in id (streams st)). destruct (snd_in id (streams st)) as [s|] eqn:Hs; [|by apply sound_same].
  destruct (Z.ltb_spec (s_max_data s) max) as [Hlt|]; [|by apply sound_same]. split; [done|]. cbn [snd]. destruct (iv_send _ _ Hinv id s Hs) as [Hok _].
  set (s1 := s_with_blocked _ _ _). destruct (rescheduled [] st id s s1 Hinv) as [H1 H2]; try done; [by intros ?%elem_of_nil|eapply send_ok_moved; try done; [cbn; lia|apply Hok]|].
  split; [done|]. eapply evolves_trans; [|by apply soft_evolves]. rewrite put_send_streams. eapply (set_send_evolves st _ id s s1); try done.
Qed.

Lemma on_max_streams_ok b max st : inv [] st -> 0 <= max <= MAX_STREAMS_LIMIT -> inv [] (on_max_streams b max st) /\ evolves st (on_max_streams b max st).
Proof.
  intros Hinv Hm. unfold on_max_streams. set (k := kind_index b). assert (Hk : k = 0 \/ k = 1) by apply kind_index_range.
  destruct (Z.ltb_spec (at_kind k (peer_max_streams (tx st))) max) as [Hlt|]; [|split; [done|apply evolves_refl]]. cbn zeta. set (st1 := with_tx _ st).
  destruct (other_change [] st st1) as (H1 & H2 & _); try done; [apply (iv_sorted _ _ Hinv)| |].
  - destruct (iv_tx _ _ Hinv) as [T1 T2 T3 T4 T5]. split; try done. intros k' Hk'. cbn. rewrite at_put by done. destruct (T3 k' Hk'). destruct (Z.eqb_spec k' k) as [->|]; lia.
  - destruct (at_kind k (open_blocked (tx st))); [|done]. destruct (tell_ok [] st1 (Available b) H1) as (H3 & H4 & _). split; [done|by eapply evolves_trans].
Qed.

(** *** MAX_DATA *)

Lemma schedule_parked id id' st : id' <> id -> contains_key id' (parked (schedule id st)) = contains_key id' (parked st).
Proof.
  intros Hne. unfold schedule. destruct (send_of id st) as [s|]; [|done]. destruct (s_queued s); [done|]. rewrite !put_send_streams.
  assert (Hd := park_drop id (parked st) id'). assert (Ha := park_add id (parked st) id'). rewrite (proj2 (Z.eqb_neq id' id)) in Hd, Ha by done.
  destruct (gate s (conn_room st)), (s_parked s) eqn:Hp; cbn [andb]; rewrite ?Hp; try match goal with |- context [bool_decide ?P] => destruct (bool_decide P) end; done.
Qed.

(** The loop over the streams that were parked. *)
Lemma unpark_ok ids : NoDup ids -> forall st, inv ids st -> (forall id, id ∈ ids -> contains_key id (parked st) = false) ->
  let st' := fold_left (fun st id => schedule id match send_of id st with Some s => put_send id (s_with_parked false s) st | None => st end) ids st in
  inv [] st' /\ soft st st'.
Proof.
  induction 1 as [|id ids Hn Hnd IH]; intros st Hinv Hpk; cbn [fold_left]; [split; [done|apply soft_refl]|].
  set (st1 := match send_of id st with Some s => _ | None => st end).
  assert (H1 : inv (id :: ids) st1 /\ soft st st1 /\ parked st1 = parked st /\ forall s, snd_in id (streams st1) = Some s -> s_parked s = false).
  { unfold st1. change (send_of id st) with (snd_in id (streams st)). destruct (snd_in id (streams st)) as [s|] eqn:Hs.
    2:{ split; [done|]. split; [apply soft_refl|]. split; [done|]. intros s H. congruence. }
    rewrite put_send_streams. set (s1 := s_with_parked false s). destruct (iv_send _ _ Hinv id s Hs) as [Hok _]. destruct (iv_sorted _ _ Hinv) as (_ & Hsc & _).
    split; [|split; [by eapply (set_send_soft st _ id s s1)|]; split; [done|]; cbn; rewrite snd_set_send, Z.eqb_refl by eauto; by intros s0 [= <-]].
    eapply inv_weaken; [eapply (unsettle (id :: ids) st _ id s s1); try done|].
    - destruct Hok as [K1 K2 K3 K4 K5 K6 K7 K8 K9]. split; try done. rewrite Hpk by left. done.
    - intros id' s0 _ Hx. left. apply not_cons; [done|]. intros ->. apply Hx. left. }
  destruct H1 as (H1 & H2 & H3 & H4). assert (Hid : contains_key id (parked st1) = false) by (rewrite H3; apply Hpk; left).
  destruct (schedule_ok ids st1 id H1) as [H5 H6]; [intros s Hs; split; [by rewrite Hid, (H4 s)|intros _; by apply H4]|].
  destruct (IH (schedule id st1) H5) as [H7 H8].
  - intros id' Hin. rewrite schedule_parked by (intros ->; done). rewrite H3. apply Hpk. by right.
  - split; [done|]. eapply soft_trans; [exact H2|]. by eapply soft_trans.
Qed.

Lemma keys_nodup {V} (m : list (Z * V)) : sorted m -> NoDup m.*1.
Proof.
  induction m as [|[k v] m IH]; intros Hs; [constructor|]. apply sorted_above in Hs as [Ha Hs]. cbn. constructor; [|by apply IH].
  intros ([k' v'] & -> & Hin)%list_elem_of_fmap. apply Ha in Hin. cbn in Hin. lia.
Qed.

Lemma contains_keys {V} id (m : list (Z * V)) : contains_key id m = true <-> id ∈ m.*1.
Proof.
  unfold contains_key. induction m as [|[k v] m IH]; cbn [BTree.get fmap list_fmap]; [by rewrite elem_of_nil|]. rewrite elem_of_cons. cbn.
  destruct (Z.eqb_spec id k) as [->|]; [naive_solver|]. rewrite IH. naive_solver.
Qed.

Lemma on_max_data_ok max st : inv [] st -> field max -> inv [] (on_max_data max st) /\ evolves st (on_max_data max st).
Proof.
  intros Hinv [Hm1 Hm2]. unfold on_max_data. destruct (Z.ltb_spec (send_max_data (tx st)) max) as [Hlt|]; [|split; [done|apply evolves_refl]].
  set (st1 := with_parked [] _). assert (Hev : evolves st st1) by (by apply recv_evolves). destruct (iv_sorted _ _ Hinv) as (Hss & Hsc & Hsp).
  assert (Htx := iv_tx _ _ Hinv). assert (Hroom := room_range st Htx).
  destruct (unpark_ok (parked st).*1 (keys_nodup _ Hsp) st1) as [H1 H2].
  - destruct Hinv as [V1 V2 V3 V4 V5 V6 V7 V8 V9 V10 V11]. split; try done; [split; [done|split; [done|constructor]]| |destruct V8 as [T1 T2 T3 T4 T5]; split; try done; cbn; lia].
    intros id s Hs. destruct (V4 id s Hs) as [[K1 K2 K3 K4 K5 K6 K7 K8 K9] Hset]. split; [by split|]. intros Hn. destruct (Hset ltac:(by intros ?%elem_of_nil)) as [D1 D2 D3 D4 D5].
    assert (Hpk : s_parked s = false) by (rewrite D1; apply not_true_is_false; by rewrite contains_keys).
    assert (Hg : s_queued s = false -> gate s (conn_room st1) = gate s (conn_room st)).
    { intros Hq. apply gate_room. specialize (D3 Hq). specialize (D4 Hq). destruct (gate s (conn_room st)); [by destruct D3|by right| |by left]. assert (H := proj1 D4 eq_refl). congruence. }
    split; [done|by intros _| | |]; intros Hq; rewrite (Hg Hq); auto.
  - done.
  - split; [done|]. eapply evolves_trans; [exact Hev|]. by apply soft_evolves.
Qed.

Lemma on_frame_ok f st : inv [] st -> fits st -> frame_wf f -> sound st (on_frame f st).
Proof.
  intros Hinv Hfit Hf. assert (Hsame : sound st (Ok tt : result (failure TransportError) unit, st)) by (by apply sound_same).
  destruct f; try done; cbn [on_frame].
  - by apply on_reset_stream_ok.
  - destruct Hf. by apply on_stop_sending_ok.
  - by apply on_stream_ok.
  - split; [done|]. by apply on_max_data_ok.
  - destruct Hf. by apply on_max_stream_data_ok.
  - split; [done|]. by apply on_max_streams_ok.
  - destruct Hf as [Hid _]. eapply when_ok; [done|done|apply check_recv_ok; [done|apply Hid]|]. intros st' H _. by apply sound_same.
Qed.

(** ** The application's calls *)

Lemma write_call_ok id d f st : inv [] st -> fits st -> sound st (Streams.write id d f st).
Proof.
  intros Hinv Hfit. unfold Streams.write. change (send_of id st) with (snd_in id (streams st)). destruct (snd_in id (streams st)) as [s|] eqn:Hs; [|by apply sound_same].
  destruct (bool_decide_reflect (s_state s = SOpen)) as [Ho|]; cbn [negb]; [|by apply sound_same].
  destruct (iv_send _ _ Hinv id s Hs) as [Hok _]. destruct (iv_sorted _ _ Hinv) as (_ & Hsc & _). set (n := Z.min _ _).
  destruct ((n =? 0) && negb (len d =? 0)).
  { split; [done|]. cbn [snd]. rewrite put_send_streams. set (s1 := s_with_write_blocked true s). set (st1 := with_streams _ st).
    split; [|by eapply (set_send_evolves st st1 id s s1)]. eapply (unmoved [] st st1 id s s1); try done; eapply (send_ok_moved _ _ _ s); try done; apply Hok. }
  destruct (so_buf _ _ _ _ Hok) as [w Hw]. assert (Hst := so_state _ _ _ _ Hok). rewrite Ho in Hst.
  assert (Hwr := ft_send _ Hfit id s Hs). rewrite (wf_written _ _ Hw) in Hwr. assert (Hd := len_nonneg d). assert (Hb := len_nonneg (data (s_buf s))).
  assert (Hn : 0 <= n <= MAX_VARINT /\ n <= len d) by (destruct (cf_buffer _ (iv_cfg _ _ Hinv)); unfold n, sat_sub, buffered; lia).
  set (d' := take (Z.to_nat n) d). assert (Hd' : len d' = n) by (unfold d', len in *; rewrite length_take; lia).
  destruct (write_ok w d' (s_buf s) Hw Hst) as (b & Hwb & Hw' & _); [rewrite Hd'; change MAX_VARINT with 4611686018427387903 in *; unfold U64_MAX; lia|]. rewrite Hwb.
  assert (Hnext : next b = next (s_buf s) /\ fin b = false /\ buffered b = buffered (s_buf s) + n)
    by (unfold SendBuf.write in Hwb; rewrite Hst in Hwb; injection Hwb as <-; unfold buffered; cbn; by rewrite len_app, Hd'). destruct Hnext as (Hnext & Hfin & Hbuf).
  split; [done|]. cbn [snd]. set (s1 := if n <? len d then _ else _).
  assert (H1 : send_ok (send_queue st) (parked st) id s1 /\ s_queued s1 = s_queued s /\ s_parked s1 = s_parked s /\ next (s_buf s1) = next (s_buf s) /\ buffered (s_buf s1) = buffered (s_buf s) + n).
  { assert (Hn0 := wf_next _ _ Hw). rewrite Hst in Hn0. cbn [b2z] in Hn0. assert (Hlim := so_limit _ _ _ _ Hok). unfold sending in Hlim. rewrite Ho in Hlim. specialize (Hlim eq_refl).
    assert (Hsent : sent (s_buf s) = next (s_buf s)) by (unfold sent; rewrite (wf_written _ _ Hw); lia). rewrite Hsent in Hlim.
    assert (Hsb : sent b <= s_max_data s) by (unfold sent; rewrite Hnext; lia).
    destruct Hok as [K1 K2 K3 K4 K5 K6 K7 K8 K9]. unfold s1. destruct (n <? len d); [|destruct f].
    - split; [|done]. split; try done; cbn; [by exists (w ++ d')|by rewrite Ho].
    - split; [|done]. split; try done. exists (w ++ d'). by apply finish_ok.
    - split; [|done]. split; try done; cbn; [by exists (w ++ d')|by rewrite Ho]. }
  destruct H1 as (H1 & H2 & H3 & H4 & H5). destruct (rescheduled [] st id s s1 Hinv) as [G1 G2]; try done; [by intros ?%elem_of_nil|].
  split; [done|]. eapply evolves_trans; [|by apply soft_evolves]. rewrite put_send_streams. eapply (set_send_evolves st _ id s s1); try done.
  - intros _. unfold sending. rewrite Ho, H4. split; [done|lia].
  - unfold small_send. rewrite H5. unfold n, sat_sub. assert (H := len_nonneg d). unfold buffered in *. lia.
Qed.

Lemma reset_call_ok id error st : inv [] st -> fits st -> field error -> sound st (reset id error st).
Proof.
  intros Hinv Hfit He. unfold reset. change (send_of id st) with (snd_in id (streams st)). destruct (snd_in id (streams st)) as [s|] eqn:Hs; [|by apply sound_same].
  destruct (sending s) eqn:Hl; [|by apply sound_same]. split; [done|]. by destruct (do_reset_ok [] st id error s Hinv Hfit He Hs Hl) as (H1 & H2 & _).
Qed.

Lemma poll_event_ok st : inv [] st -> let st' := snd (poll_event st) in inv [] st' /\ evolves st st'.
Proof.
  intros Hinv. unfold poll_event. destruct (events st) as [|e es]; cbn; [split; [done|apply evolves_refl]|].
  destruct (other_change [] st (with_events es st)) as (H1 & H2 & _); try done; [apply (iv_sorted _ _ Hinv)|apply (iv_tx _ _ Hinv)].
Qed.

(** The limits that transport parameters give. *)
Definition limits_ok (p : TransportParameters) : Prop :=
  field (initial_max_data p) /\ field (initial_max_stream_data_bidi_local p) /\ field (initial_max_stream_data_bidi_remote p) /\ field (initial_max_stream_data_uni p) /\
  field (initial_max_streams_bidi p) /\ field (initial_max_streams_uni p).

(** They come before there is any stream. *)
Lemma set_peer_params_ok p st : inv [] st -> limits_ok p -> peer st = None -> streams st = [] -> sent_total (tx st) = 0 ->
  inv [] (set_peer_params p st) /\ evolves st (set_peer_params p st).
Proof.
  intros [V1 V2 V3 V4 V5 V6 V7 V8 V9 V10 V11] (L1 & L2 & L3 & L4 & L5 & L6) Hp Hs Ht. split; [|by apply recv_evolves].
  assert (Hpk : parked st = []).
  { destruct (parked st) as [|[i []] m] eqn:Hpk; [done|]. destruct (V7 i) as [s H]; [unfold contains_key; cbn; by rewrite Z.eqb_refl|]. by rewrite Hs in H. }
  assert (H0 := to_peer _ _ V8 Hp). unfold field, issued in *. split; cbn; try done.
  - intros id s. by rewrite Hs.
  - rewrite Ht. split; cbn; [lia|lia| |done|by intros l [= <-]]. intros k Hk. rewrite H0.
    change MAX_VARINT with 4611686018427387903 in *. change MAX_STREAMS_LIMIT with 1152921504606846976. destruct Hk as [-> | ->]; cbn; lia.
Qed.

(** ** What became of the frames *)

(** A frame that was given to a packet: what it carries of a stream was sent. *)
Definition emitted (st : Streams) (f : StreamFrame) : Prop :=
  match f with
  | SfStream id offset n fin =>
      issued (cfg st) (tx st) (rx st) id /\ 0 <= offset /\ 0 <= n /\ offset + n + b2z fin <= U64_MAX /\
      forall s, snd_in id (streams st) = Some s -> sending s = true -> offset + n + b2z fin <= next (s_buf s)
  | _ => True
  end.

Lemma emitted_evolves st st' f : evolves st st' -> emitted st f -> emitted st' f.
Proof.
  intros [_ Hi Hs _]. destruct f; try done. intros (H1 & H2 & H3 & H4 & H5). split; [by apply Hi|]. do 3 (split; [done|]). intros s' H Hl.
  destruct (Hs _ _ H1 H Hl) as (s & E1 & E2 & E3). specialize (H5 s E1 E2). lia.
Qed.

(** Acknowledging and losing leave what was sent of a buffer. *)
Record same_sent (b b' : SendBuf) : Prop := mk_same_sent {
  ss_wf : exists w, wf w b /\ wf w b';
  ss_fin : fin b' = fin b;
  ss_next : next b' = next b;
  ss_less : buffered b' <= buffered b;
}.

(** What is acknowledged stays so: nothing comes back to be held. *)
Lemma acked_less w b b' : wf w b -> wf w b' -> (forall p, status_of b p = Acked -> status_of b' p = Acked) -> buffered b' <= buffered b.
Proof.
  intros Hw Hw' Ha. unfold buffered. assert (Hb := wf_base _ _ Hw). assert (Hb' := wf_base _ _ Hw'). rewrite (wf_data _ _ Hw), (wf_data _ _ Hw'), !len_drop by lia.
  destruct (Z.le_gt_cases (base b) (base b')) as [?|Hlow]; [lia|]. exfalso. assert (H := Ha (base b') ltac:(apply (status_is w); [done|cbn; lia])).
  apply (status_is w) in H; [|done]. destruct H as [H|H]; [lia|]. by apply (wf_low _ _ Hw' ltac:(lia)).
Qed.

Lemma same_sent_eq b b' : same_sent b b' -> written b' = written b /\ sent b' = sent b /\ end_ b' = end_ b.
Proof.
  intros [(w & H1 & H2) Hf Hn _]. assert (Hw : written b' = written b) by (by rewrite (wf_written _ _ H1), (wf_written _ _ H2)).
  unfold sent, end_. by rewrite Hw, Hf, Hn.
Qed.

Lemma no_lost_gate s room : gate s room <> Ready -> sending s = true -> is_empty (lost (s_buf s)) = true.
Proof.
  unfold gate, SendBuf.has_pending, has_pending_within. intros Hg Hl. rewrite Hl in Hg. cbn [negb orb] in Hg. destruct (is_empty (lost (s_buf s))) eqn:He; [done|]. cbn in Hg. by destruct Hg.
Qed.

(** What could not be sent is not changed by losing less. *)
Lemma gate_same s s' room : gate s room <> Ready -> sending s' = sending s -> s_max_data s' = s_max_data s -> same_sent (s_buf s) (s_buf s') ->
  (is_empty (lost (s_buf s)) = true -> is_empty (lost (s_buf s')) = true) -> gate s' room = gate s room.
Proof.
  intros Hg Hl Hm Hss Hlost. destruct (sending s) eqn:Hs; [|by rewrite !gate_sending by congruence]. assert (He := no_lost_gate _ _ Hg Hs).
  destruct (same_sent_eq _ _ Hss) as (E1 & E2 & E3). unfold gate, SendBuf.has_pending, has_pending_within. by rewrite Hl, Hs, He, (Hlost He), Hm, E1, E2, E3, (ss_fin _ _ Hss), (ss_next _ _ Hss).
Qed.

Lemma lost_empty w b : wf w b -> is_empty (lost b) = true <-> forall p, status_of b p <> Lost.
Proof.
  intros Hw. rewrite is_empty_elem by apply Hw. split; intros H p; [by apply (no_lost w)|]. intros Hin. apply (H p). by eapply status_is.
Qed.

(** A side whose buffer alone changes. *)
Lemma send_ok_sent q p id s s' : send_ok q p id s -> same_sent (s_buf s) (s_buf s') ->
  s_max_data s' = s_max_data s /\ s_state s' = s_state s /\ s_reset s' = s_reset s /\ s_blocked_sent s' = s_blocked_sent s /\ s_queued s' = s_queued s /\ s_parked s' = s_parked s ->
  send_ok q p id s'.
Proof.
  intros [K1 K2 K3 K4 K5 K6 K7 K8 K9] Hss (E1 & E2 & E3 & E4 & E5 & E6). destruct (same_sent_eq _ _ Hss) as (_ & Es & _). destruct Hss as [(w & Hw & Hw') Hf Hn _].
  split; unfold sending in *; rewrite ?E1, ?E2, ?E3, ?E4, ?E5, ?E6, ?Es, ?Hf; try done. by exists w.
Qed.

(** A side that is acknowledged to its end. *)
Lemma fully_acked_quiet w b : wf w b -> is_fully_acked b = true -> SendBuf.has_pending b = false.
Proof.
  intros Hw Hf. apply (is_fully_acked_ok w) in Hf as [Hf Ha]; [|done]. unfold SendBuf.has_pending. assert (Hn := wf_next _ _ Hw). assert (Hl := len_nonneg w).
  assert (Hlast := Ha (len w) ltac:(lia)). apply (status_is w) in Hlast; [|done]. cbn in Hlast.
  assert (Hlow : len w < next b) by (destruct Hlast as [H|H]; [lia|apply (wf_acked_in _ _ Hw) in H; lia]).
  rewrite (proj2 (lost_empty w b Hw)); [cbn [negb orb]; rewrite (wf_end _ _ Hw), Hf; apply Z.ltb_ge; cbn; lia|].
  intros p Hp. assert (Hp' := Hp). apply (status_is w) in Hp'; [|done]. cbn in Hp'. apply (wf_lost_in _ _ Hw) in Hp'. assert (H := wf_base _ _ Hw). rewrite Ha in Hp; [done|].
  rewrite Hf in Hn. cbn [b2z] in Hn. lia.
Qed.

(** The sending side of a stream is done with. *)
Lemma finish_side ex st id s b :
  inv ex st -> id ∉ ex -> snd_in id (streams st) = Some s -> sending s = true -> same_sent (s_buf s) b -> (is_empty (lost (s_buf s)) = true -> is_empty (lost b) = true) ->
  is_fully_acked b = true -> let st' := with_streams (set_send id (s_with_state SDone (s_with_buf b s)) (streams st)) st in inv ex st' /\ evolves st st'.
Proof.
  intros Hinv Hex Hs Hl Hss Hlost Hfa. cbn zeta. set (s1 := s_with_state SDone (s_with_buf b s)). destruct (iv_send _ _ Hinv id s Hs) as [Hok Hset]. specialize (Hset Hex).
  destruct (iv_sorted _ _ Hinv) as (_ & Hsc & Hsp). destruct (ss_wf _ _ Hss) as (w & Hw & Hw').
  assert (Hpk : s_parked s = false).
  { destruct (s_queued s) eqn:Hq; [by apply (sd_queued _ _ _ _ Hset)|]. apply not_true_is_false. intros H. apply (sd_conn _ _ _ _ Hset Hq) in H.
    assert (Hg := gate_same s (s_with_buf b s) (conn_room st)). rewrite H in Hg. specialize (Hg ltac:(done) eq_refl eq_refl Hss Hlost).
    unfold gate in Hg. cbn [s_buf s_with_buf] in Hg. rewrite (fully_acked_quiet w b Hw' Hfa) in Hg. cbn [negb] in Hg. by rewrite orb_true_r in Hg. }
  split; [|eapply (set_send_evolves st _ id s s1); try done; unfold small_send; cbn; assert (H := ss_less _ _ Hss); lia].
  eapply (send_change ex ex st _ id s s1); try done.
  - split; [done|]. split; [done|]. split; [done|]. assert (H := to_sent _ _ (iv_tx _ _ Hinv)). cbn. lia.
  - apply (iv_queue _ _ Hinv).
  - apply (iv_said _ _ Hinv).
  - destruct Hok as [K1 K2 K3 K4 K5 K6 K7 K8 K9]. split; try done. by exists w.
  - intros _. destruct Hset as [D1 D2 D3 D4 D5]. assert (Hg : forall room, gate s1 room = Nothing) by (intros room; by apply gate_sending). split; rewrite ?Hg; try done. by cbn; rewrite Hpk.
Qed.

(** A call of the connection that cannot fault. *)
Definition kept (st : Streams) (r : result fault Streams) : Prop := exists st', r = Ok st' /\ inv [] st' /\ evolves st st'.

Lemma kept_same st : inv [] st -> kept st (Ok st).
Proof. intros H. exists st. split; [done|]. split; [done|apply evolves_refl]. Qed.

Lemma kept_cleanup st st' id : inv [] st' -> evolves st st' -> kept st (Ok (cleanup id st')).
Proof. intros H1 H2. destruct (cleanup_ok [] st' id H1) as (H3 & H4 & _). eexists. split; [done|]. split; [done|by eapply evolves_trans]. Qed.

Lemma set_send_same_next st id s s' : snd_in id (streams st) = Some s -> next (s_buf s') = next (s_buf s) -> (sending s' = true -> sending s = true) -> buffered (s_buf s') <= buffered (s_buf s) ->
  evolves st (with_streams (set_send id s' (streams st)) st).
Proof. intros Hs Hn Hl Hb. eapply (set_send_evolves st _ id s s'); try done; [intros H; split; [by apply Hl|lia]|]. unfold small_send. lia. Qed.

Lemma acked_ok f st : inv [] st -> emitted st f -> kept st (Streams.on_acked f st).
Proof.
  intros Hinv Hf. destruct f as [id o n fn|id e z| | | | | | |]; try (by apply kept_same); cbn [Streams.on_acked]; change (send_of id st) with (snd_in id (streams st)).
  2:{ destruct (snd_in id (streams st)) as [s|] eqn:Hs; [|apply kept_cleanup; [done|apply evolves_refl]].
      destruct (bool_decide_reflect (s_state s = SReset)) as [Hst|]; [|apply kept_cleanup; [done|apply evolves_refl]]. rewrite put_send_streams.
      set (s1 := s_with_reset None _). apply kept_cleanup; [|by apply (set_send_same_next st id s s1)]. destruct (iv_sorted _ _ Hinv) as (_ & Hsc & _).
      destruct (iv_send _ _ Hinv id s Hs) as [[K1 K2 K3 K4 K5 K6 K7 K8 K9] _].
      eapply (unmoved [] st _ id s s1); try done; [|intros _; rewrite !gate_sending; [done|unfold sending; by rewrite Hst|done]].
      split; try done. cbn. intros _. apply K5. unfold sending. by rewrite Hst. }
  destruct (snd_in id (streams st)) as [s|] eqn:Hs; [|by apply kept_same]. destruct (sending s) eqn:Hl; cbn [negb]; [|by apply kept_same].
  destruct (iv_send _ _ Hinv id s Hs) as [Hok Hset]. destruct (iv_sorted _ _ Hinv) as (_ & Hsc & _). destruct (so_buf _ _ _ _ Hok) as [w Hw].
  destruct Hf as (_ & Ho & Hn & _ & Hf). specialize (Hf s Hs Hl). destruct (SendBuf.on_acked_ok w (s_buf s) o n fn Hw Ho Hn Hf) as (b & Hb & Hw' & Hfin & Hnext & Hp).
  rewrite Hb. cbn [mbind result_bind]. assert (Hss : same_sent (s_buf s) b) by (split; [by exists w|done|done|apply (acked_less w); [done|done|]; intros p H; rewrite Hp; by case_decide]).
  assert (Hlost : is_empty (lost (s_buf s)) = true -> is_empty (lost b) = true).
  { rewrite !(lost_empty w) by done. intros H p. rewrite Hp. case_decide; [done|apply H]. }
  set (s1 := s_with_buf b s). change (s_state s1) with (s_state s). destruct (bool_decide (s_state s = SFinished) && is_fully_acked b) eqn:Hdone.
  { apply andb_true_iff in Hdone as [Hsf%bool_decide_eq_true Hfa]. cbn [s_write_blocked s_with_state s_state]. rewrite (bool_decide_eq_false_2 (SDone = SOpen)) by done.
    rewrite andb_false_r. cbn [andb]. rewrite put_send_streams.
    destruct (finish_side [] st id s b Hinv ltac:(by intros ?%elem_of_nil) Hs Hl Hss Hlost Hfa) as [H1 H2]. by apply kept_cleanup. }
  assert (Hput : forall s2, s_buf s2 = b -> sending s2 = sending s -> s_max_data s2 = s_max_data s /\ s_state s2 = s_state s /\ s_reset s2 = s_reset s /\ s_blocked_sent s2 = s_blocked_sent s /\ s_queued s2 = s_queued s /\ s_parked s2 = s_parked s ->
    inv [] (with_streams (set_send id s2 (streams st)) st) /\ evolves st (with_streams (set_send id s2 (streams st)) st)).
  { intros s2 Eb El E. split; [|apply (set_send_same_next st id s s2); [done|by rewrite Eb|congruence|rewrite Eb; apply Hss]]. destruct E as (E1 & E2 & E3 & E4 & E5 & E6).
    eapply (unmoved [] st _ id s s2); try done; [by eapply (send_ok_sent _ _ _ s); [done|by rewrite Eb|]|]. intros Hq. destruct (Hset ltac:(by intros ?%elem_of_nil)) as [_ _ D3 _ _].
    apply gate_same; [by apply D3|done|done|by rewrite Eb|by rewrite Eb]. }
  rewrite !put_send_streams. destruct (s_write_blocked s1 && _ && _).
  - destruct (Hput (s_with_write_blocked false s1)) as [H1 H2]; try done. destruct (tell_ok [] _ (Writable id) H1) as (H3 & H4 & _). apply kept_cleanup; [done|by eapply evolves_trans].
  - destruct (Hput s1) as [H1 H2]; try done. by apply kept_cleanup.
Qed.

Lemma due_change st d : inv [] st -> data_blocked_sent d = data_blocked_sent (due st) -> kept st (Ok (with_due d st)).
Proof.
  intros Hinv Hd. eexists. split; [done|]. destruct (other_change [] st (with_due d st)) as (H1 & H2 & _); try done; [apply (iv_sorted _ _ Hinv)|apply (iv_tx _ _ Hinv)].
Qed.

(** A side that is noted to have something to say. *)
Lemma noted_send st id s s' : inv [] st -> snd_in id (streams st) = Some s -> send_ok (send_queue st) (parked st) id s' ->
  s_buf s' = s_buf s /\ s_state s' = s_state s /\ s_max_data s' = s_max_data s /\ s_blocked_sent s' = s_blocked_sent s /\ s_queued s' = s_queued s /\ s_parked s' = s_parked s ->
  kept st (Ok (note id (put_send id s' st))).
Proof.
  intros Hinv Hs Hok (E1 & E2 & E3 & E4 & E5 & E6). eexists. split; [done|]. rewrite put_send_streams. destruct (iv_sorted _ _ Hinv) as (_ & Hsc & _). assert (Hctl := insert_sorted id tt _ Hsc).
  split; [|eapply (set_send_evolves st _ id s s'); try done; [unfold sending; rewrite E1, E2; intros H; split; [done|lia]|unfold small_send; by rewrite E1]].
  eapply (unmoved [] st _ id s s'); try done. intros _. unfold gate, sending. by rewrite E1, E2, E3.
Qed.

Lemma noted_recv st id r r' : inv [] st -> rcv_in id (streams st) = Some r ->
  r_buf r' = r_buf r /\ r_max_data r' = r_max_data r /\ r_window r' = r_window r /\ r_high r' = r_high r /\ r_final_size r' = r_final_size r ->
  r_state r' = r_state r -> (forall x, r_stop r' = Some x -> field (st_error x)) -> kept st (Ok (note id (put_recv id r' st))).
Proof.
  intros Hinv Hr E Est Hstop. eexists. split; [done|]. rewrite put_recv_streams. destruct (iv_sorted _ _ Hinv) as (_ & Hsc & _). assert (Hctl := insert_sorted id tt _ Hsc).
  apply (recv_flags [] st _ id r r'); try done. by left.
Qed.

Lemma lost_ok f st : inv [] st -> emitted st f -> kept st (Streams.on_lost f st).
Proof.
  intros Hinv Hf. destruct f as [id o n fn|id e z|id e|v|id max|b max|v|id limit|b limit]; cbn [Streams.on_lost].
  4,6,7,9: case_if; [by apply due_change|by apply kept_same].
  all: try change (send_of id st) with (snd_in id (streams st)); try change (recv_of id st) with (rcv_in id (streams st)).
  1,2,5: destruct (snd_in id (streams st)) as [s|] eqn:Hs; [|by apply kept_same]; destruct (iv_send _ _ Hinv id s Hs) as [Hok _].
  - destruct (sending s) eqn:Hl; cbn [negb]; [|by apply kept_same]. destruct (so_buf _ _ _ _ Hok) as [w Hw]. destruct Hf as (_ & Ho & Hn & Hu & _).
    destruct (SendBuf.on_lost_ok w (s_buf s) o n fn Hw Ho Hn Hu) as (b & Hb & Hw' & Hfin & Hnext & Hp). rewrite Hb. cbn [mbind result_bind].
    set (s1 := s_with_buf b s). assert (Hss : same_sent (s_buf s) b) by (split; [by exists w|done|done|apply (acked_less w); [done|done|]; intros p H; rewrite Hp, H; case_decide as Hd; [by destruct Hd|done]]).
    destruct (rescheduled [] st id s s1 Hinv) as [H1 H2]; try done; [by intros ?%elem_of_nil|by eapply send_ok_sent|].
    eexists. split; [done|]. split; [done|]. eapply evolves_trans; [|by apply soft_evolves]. rewrite put_send_streams. apply (set_send_same_next st id s s1); try done. apply Hss.
  - destruct (s_reset s) as [x|] eqn:Hx; [|by apply kept_same]. destruct (bool_decide _); [|by apply kept_same]. apply (noted_send st id s); try done.
    destruct Hok as [K1 K2 K3 K4 K5 K6 K7 K8 K9]. split; try done; cbn; [by destruct (s_state s)|]. intros y [= <-]. cbn. by apply K6.
  - destruct (_ && _); [|by apply kept_same]. apply (noted_send st id s); try done. eapply (send_ok_moved _ _ _ s); try done; apply Hok.
  - destruct (rcv_in id (streams st)) as [r|] eqn:Hr; [|by apply kept_same]. destruct (r_stop r) as [x|] eqn:Hx; [|by apply kept_same]. destruct (bool_decide _); [|by apply kept_same].
    apply (noted_recv st id r); try done. intros y [= <-]. exact (ro_stop _ (iv_recv _ _ Hinv id r Hr) x Hx).
  - destruct (rcv_in id (streams st)) as [r|] eqn:Hr; [|by apply kept_same]. destruct (_ && _); [|by apply kept_same].
    apply (noted_recv st id r); try done. apply (ro_stop _ (iv_recv _ _ Hinv id r Hr)).
Qed.
