(* ===== verification/StreamsWrite.v ===== *)
(** Writing the frames of the streams: [write_frames] of [Streams].

    What a packet is given is what the state says: [packed] relates the bytes
    and the record of them to the frames, each of which says what the state
    before the packet holds ([says]); and writing leaves all of the state but
    what was sent and what is still to be said ([carried_on]). *)

From Stdlib Require Import ZArith Lia.
From stdpp Require Import base option numbers list_numbers list.
From S2P Require Import Prelude BTree Slice RangeSet Wire Frames Params Reassembly SendBuf Streams StreamsOk StreamsRun.

#[local] Open Scope Z_scope.

(** ** What stays the same *)

Definition reset_of (s : Send) : option (Z * Z) := (fun x => (rs_error x, rs_final_size x)) <$> s_reset s.
Definition stop_of (r : Recv) : option Z := st_error <$> r_stop r.

Record send_from (s0 s : Send) : Prop := mk_send_from {
  sf_data : data (s_buf s) = data (s_buf s0) /\ base (s_buf s) = base (s_buf s0) /\ fin (s_buf s) = fin (s_buf s0);
  sf_next : next (s_buf s0) <= next (s_buf s);
  sf_state : s_max_data s = s_max_data s0 /\ s_state s = s_state s0 /\ reset_of s = reset_of s0;
  sf_blocked : s_blocked_sent s = s_blocked_sent s0 \/ s_blocked_sent s = Some (s_max_data s0);
}.

Record recv_from (r0 r : Recv) : Prop := mk_recv_from {
  rf_same : r_buf r = r_buf r0 /\ r_max_data r = r_max_data r0 /\ r_window r = r_window r0 /\ r_high r = r_high r0 /\ r_final_size r = r_final_size r0 /\ r_state r = r_state r0;
  rf_stop : forall e, stop_of r = Some e -> stop_of r0 = Some e;
}.

Record carried_on (st0 st : Streams) : Prop := mk_carried_on {
  cr_conn : cfg st = cfg st0 /\ peer st = peer st0 /\ rx st = rx st0;
  cr_tx : send_max_data (tx st) = send_max_data (tx st0) /\ peer_max_streams (tx st) = peer_max_streams (tx st0) /\ opened (tx st) = opened (tx st0);
  cr_send : forall id s, snd_in id (streams st) = Some s -> exists s0, snd_in id (streams st0) = Some s0 /\ send_from s0 s;
  cr_recv : forall id r, rcv_in id (streams st) = Some r -> exists r0, rcv_in id (streams st0) = Some r0 /\ recv_from r0 r;
}.

Lemma send_from_refl s : send_from s s.
Proof. split; try done. by left. Qed.

Lemma recv_from_refl r : recv_from r r.
Proof. by split. Qed.

#[export] Hint Resolve send_from_refl recv_from_refl : core.

Lemma send_from_trans s1 s2 s3 : send_from s1 s2 -> send_from s2 s3 -> send_from s1 s3.
Proof.
  intros [(A1 & A2 & A3) A4 (A5 & A6 & A7) A8] [(B1 & B2 & B3) B4 (B5 & B6 & B7) B8]. split; [split_and!; congruence|lia|split_and!; congruence|].
  destruct B8 as [-> | ->]; [done|right; congruence].
Qed.

Lemma recv_from_trans r1 r2 r3 : recv_from r1 r2 -> recv_from r2 r3 -> recv_from r1 r3.
Proof. intros [(A1 & A2 & A3 & A4 & A5 & A6) A] [(B1 & B2 & B3 & B4 & B5 & B6) B]. split; [split_and!; congruence|auto]. Qed.

Lemma carried_refl st : carried_on st st.
Proof. split; try done; eauto. Qed.

Lemma carried_trans st1 st2 st3 : carried_on st1 st2 -> carried_on st2 st3 -> carried_on st1 st3.
Proof.
  intros [(A1 & A2 & A3) (A4 & A5 & A6) A7 A8] [(B1 & B2 & B3) (B4 & B5 & B6) B7 B8]. split; [split_and!; congruence|split_and!; congruence| |].
  - intros id s H. destruct (B7 _ _ H) as (s2 & H2 & E2). destruct (A7 _ _ H2) as (s1 & H1 & E1). exists s1. split; [done|by eapply send_from_trans].
  - intros id r H. destruct (B8 _ _ H) as (r2 & H2 & E2). destruct (A8 _ _ H2) as (r1 & H1 & E1). exists r1. split; [done|by eapply recv_from_trans].
Qed.

Lemma soft_carried st st' : soft st st' -> carried_on st st'.
Proof.
  intros [(H1 & H2 & H3 & H4) Hr Hs]. split; [done|by rewrite H3| |intros id r; rewrite Hr; eauto].
  intros id s' H. destruct (Hs _ _ H) as (s & H0 & E1 & E2 & E3 & E4 & E5). exists s. split; [done|]. split; [by rewrite E1|rewrite E1; lia|unfold reset_of; by rewrite E4|done].
Qed.

Lemma same_streams st st' :
  cfg st' = cfg st /\ peer st' = peer st /\ rx st' = rx st /\ tx st' = tx st /\ streams st' = streams st -> carried_on st st'.
Proof. intros (H1 & H2 & H3 & H4 & H5). split; [done|by rewrite H4|intros id s|intros id r]; rewrite H5; eauto. Qed.

Lemma set_send_carried st st' id s s' :
  snd_in id (streams st) = Some s -> cfg st' = cfg st /\ peer st' = peer st /\ rx st' = rx st /\ streams st' = set_send id s' (streams st) ->
  send_max_data (tx st') = send_max_data (tx st) /\ peer_max_streams (tx st') = peer_max_streams (tx st) /\ opened (tx st') = opened (tx st) -> send_from s s' -> carried_on st st'.
Proof.
  intros Hs (H1 & H2 & H3 & H4) Ht Hf. split; [done|done| |intros id' r; rewrite H4, rcv_set_send; eauto].
  intros id' s1. rewrite H4, snd_set_send by eauto. destruct (Z.eqb_spec id' id) as [->|]; [intros [= <-]|]; eauto.
Qed.

Lemma set_recv_carried st st' id r r' :
  rcv_in id (streams st) = Some r -> cfg st' = cfg st /\ peer st' = peer st /\ rx st' = rx st /\ tx st' = tx st /\ streams st' = set_recv id r' (streams st) ->
  recv_from r r' -> carried_on st st'.
Proof.
  intros Hr (H1 & H2 & H3 & H4 & H5) Hf. split; [done|by rewrite H4|intros id' s; rewrite H5, snd_set_recv; eauto|].
  intros id' r1. rewrite H5, rcv_set_recv by eauto. destruct (Z.eqb_spec id' id) as [->|]; [intros [= <-]|]; eauto.
Qed.

Lemma carried_evolves st st' : carried_on st st' -> evolves st st'.
Proof.
  intros [(H1 & H2 & H3) (T1 & T2 & T3) Hs _]. split; [done|intros id; unfold issued; by rewrite H1, H3, T3| |].
  - intros id s' _ H Hl. destruct (Hs _ _ H) as (s & H0 & [_ Hn (_ & Est & _) _]). exists s. split; [done|]. split; [unfold sending in *; by rewrite <- Est|done].
  - intros Hsm id s' H. destruct (Hs _ _ H) as (s & H0 & [(E & _) _ _ _]). unfold small_send, buffered. rewrite E, H1. by apply (Hsm id).
Qed.

Lemma carried_fits st st' : carried_on st st' -> fits st -> fits st'.
Proof.
  intros [(H1 & H2 & H3) _ Hs Hr] [F1 F2 F3]. split; [by rewrite H3| |].
  - intros id r H. destruct (Hr _ _ H) as (r0 & H0 & [(_ & E & _) _]). rewrite E. by eapply F2.
  - intros id s H. destruct (Hs _ _ H) as (s0 & H0 & [(E1 & E2 & _) _ _ _]). unfold written. rewrite E1, E2. by eapply F3.
Qed.

(** ** Taking a stream out of the queue *)

Lemma schedule_queue id st :
  (length (send_queue (schedule id st)) <= length (send_queue st) + if match send_of id st with Some s => is_ready (gate s (conn_room st)) | None => false end then 1 else 0)%nat.
Proof.
  unfold schedule. destruct (send_of id st) as [s|]; [|lia]. destruct (s_queued s); [lia|]. rewrite !put_send_streams.
  destruct (gate s (conn_room st)), (s_parked s) eqn:Hp; cbn [andb is_ready]; rewrite ?Hp; try match goal with |- context [bool_decide ?P] => destruct (bool_decide P) end; cbn; rewrite ?length_app; cbn; lia.
Qed.

(** A stream of the queue that is no longer kept. *)
Lemma dequeue_gone ex st id q : inv ex st -> send_queue st = id :: q -> snd_in id (streams st) = None -> inv ex (with_queue q st).
Proof.
  intros [V1 V2 V3 V4 V5 V6 V7 V8 V9 V10 V11] Hq Hn. split; try done.
  - intros id' s Hs. destruct (V4 id' s Hs) as [K1 K2]. split; [|done]. eapply send_ok_same; [|done|exact K1]. rewrite Hq. cbn. rewrite elem_of_cons.
    split; [by right|]. intros [->|H]; [cbn in Hs; congruence|done].
  - cbn. rewrite Hq in V6. destruct V6 as [Hnd Hin]. split; [by apply NoDup_cons in Hnd as [_ ?]|]. intros id' H. apply Hin. by right.
Qed.

Lemma requeue_ok st id q : inv [id] st -> send_queue st = id :: q -> (forall s, snd_in id (streams st) = Some s -> s_parked s = contains_key id (parked st)) ->
  inv [] (requeue id st) /\ soft st (requeue id st) /\
  (length (send_queue (requeue id st)) <= length q + if match snd_in id (streams st) with Some s => is_ready (gate s (conn_room st)) | None => false end then 1 else 0)%nat.
Proof.
  intros Hinv Hq Hflag. unfold requeue. rewrite Hq. cbn [tail]. change (send_of id (with_queue q st)) with (snd_in id (streams st)).
  destruct (snd_in id (streams st)) as [s|] eqn:Hs.
  2:{ assert (H1 := dequeue_gone _ st id q Hinv Hq Hs). destruct (schedule_ok [] (with_queue q st) id H1) as [H2 H3]; [intros s H; cbn in H; congruence|]. split; [done|]. split; [by destruct H3|].
      assert (H := schedule_queue id (with_queue q st)). change (send_of id (with_queue q st)) with (snd_in id (streams st)) in H. by rewrite Hs in H. }
  rewrite put_send_streams. set (s1 := s_with_queued false s). set (st1 := with_streams _ (with_queue q st)).
  destruct (iv_send _ _ Hinv id s Hs) as [Hok _]. destruct (iv_sorted _ _ Hinv) as (_ & Hsc & Hsp). destruct (iv_queue _ _ Hinv) as [Hnd _]. rewrite Hq in Hnd. apply NoDup_cons in Hnd as [Hn Hnd].
  assert (H1 : inv [id] st1).
  { eapply (send_change [id] [id] st st1 id s s1); try done.
    - split; [done|]. split; [done|]. split; [done|]. assert (H := to_sent _ _ (iv_tx _ _ Hinv)). cbn. lia.
    - intros id' Hne. cbn. rewrite Hq, elem_of_cons. split; [|done]. split; [by right|by intros [->|?]].
    - apply (iv_said _ _ Hinv).
    - destruct Hok as [K1 K2 K3 K4 K5 K6 K7 K8 K9]. by split.
    - intros H. destruct H. left. }
  assert (Hs1 : snd_in id (streams st1) = Some s1) by (cbn; by rewrite snd_set_send, Z.eqb_refl by eauto).
  destruct (schedule_ok [] st1 id H1) as [H2 H3].
  { intros s0 H. rewrite Hs1 in H. injection H as <-. split; [|done]. exact (Hflag s eq_refl). }
  split; [done|]. split; [eapply soft_trans; [|exact H3]; by eapply (set_send_soft st st1 id s s1)|].
  assert (H := schedule_queue id st1). change (send_of id st1) with (snd_in id (streams st1)) in H. rewrite Hs1 in H. exact H.
Qed.

(** ** What a packet is given *)

(** The bytes of a stream that frame [f] carries. *)
Definition part (s : Send) (offset n : Z) : list Z := take (Z.to_nat n) (drop (Z.to_nat (offset - base (s_buf s))) (data (s_buf s))).

(** The frame [f], with its record [sf], is what the state says. *)
Definition says (st : Streams) (sf : StreamFrame) (f : Frame) : Prop :=
  match sf, f with
  | SfStream id o n fn, Frames.StreamFrame id' o' d fn' =>
      id' = id /\ o' = o /\ fn' = fn /\ len d = n /\
      exists s, snd_in id (streams st) = Some s /\ sending s = true /\ base (s_buf s) <= o /\ d = part s o n /\ o + n <= written (s_buf s) /\
        (fn = true -> fin (s_buf s) = true /\ o + n = written (s_buf s))
  | SfResetStream id e z, ResetStream id' e' z' => id' = id /\ e' = e /\ z' = z /\ exists s, snd_in id (streams st) = Some s /\ reset_of s = Some (e, z)
  | SfStopSending id e, StopSending id' e' => id' = id /\ e' = e /\ exists r, rcv_in id (streams st) = Some r /\ r_state r = ROpen /\ stop_of r = Some e
  | SfMaxData v, MaxData v' => v' = v /\ v = recv_limit (rx st)
  | SfMaxStreamData id m, MaxStreamData id' m' => id' = id /\ m' = m /\ exists r, rcv_in id (streams st) = Some r /\ r_max_data r = m
  | SfMaxStreams b m, MaxStreams b' m' => b' = b /\ m' = m /\ m = at_kind (kind_index b) (max_streams (rx st))
  | SfDataBlocked v, DataBlocked v' => v' = v /\ v = send_max_data (tx st)
  | SfStreamDataBlocked id l, StreamDataBlocked id' l' => id' = id /\ l' = l /\ exists s, snd_in id (streams st) = Some s /\ (l = s_max_data s \/ s_blocked_sent s = Some l)
  | SfStreamsBlocked b l, StreamsBlocked b' l' => b' = b /\ l' = l /\ l = at_kind (kind_index b) (peer_max_streams (tx st))
  | _, _ => False
  end.

Lemma says_carried st0 st sf f : carried_on st0 st -> says st sf f -> says st0 sf f.
Proof.
  intros [(C1 & C2 & C3) (T1 & T2 & T3) Hs Hr] H. destruct sf, f; try done; cbn [says] in *; rewrite <- ?C3, <- ?T1, <- ?T2; try done.
  - destruct H as (-> & -> & -> & Hl & s & H1 & H2 & H3 & H4 & H5 & H6). do 4 (split; [done|]). destruct (Hs _ _ H1) as (s0 & H0 & [(E1 & E2 & E3) _ (_ & E4 & _) _]). exists s0.
    split; [done|]. split; [unfold sending in *; by rewrite <- E4|]. unfold part, written in *. rewrite <- E1, <- E2, <- E3. done.
  - destruct H as (-> & -> & -> & s & H1 & H2). do 3 (split; [done|]). destruct (Hs _ _ H1) as (s0 & H0 & [_ _ (_ & _ & E) _]). exists s0. by rewrite <- E.
  - destruct H as (-> & -> & r & H1 & H2 & H3). do 2 (split; [done|]). destruct (Hr _ _ H1) as (r0 & H0 & [(_ & _ & _ & _ & _ & E) E']). exists r0. rewrite <- E. auto.
  - destruct H as (-> & -> & r & H1 & H2). do 2 (split; [done|]). destruct (Hr _ _ H1) as (r0 & H0 & [(_ & E & _) _]). exists r0. by rewrite <- E.
  - destruct H as (-> & -> & s & H1 & H2). do 2 (split; [done|]). destruct (Hs _ _ H1) as (s0 & H0 & [_ _ (E & _) E']). exists s0. split; [done|]. rewrite <- E.
    destruct H2 as [H2|H2]; [by left|]. destruct E' as [E'|E']; [right; congruence|left; congruence].
Qed.

(** The last frame may be a STREAM frame without its length, that fills the
    packet. *)
Definition ending (e : list Frame) : list Z :=
  match e with [Frames.StreamFrame id o d fn] => match write_stream_to_end [] id o d fn with Some b => b | None => [] end | _ => [] end.

Definition is_stream (f : Frame) : Prop := match f with Frames.StreamFrame _ _ _ _ => True | _ => False end.

Record packed (st : Streams) (budget : Z) (sfs : list StreamFrame) (b : list Z) (fs e : list Frame) : Prop := mk_packed {
  pk_says : Forall2 (says st) sfs (fs ++ e);
  pk_bytes : b = payload_bytes fs ++ ending e;
  pk_end : e = [] \/ (exists f, e = [f] /\ is_stream f) /\ len b = budget;
  pk_room : len b <= budget;
}.

Lemma packed_none st budget : 0 <= budget -> packed st budget [] [] [] [].
Proof. intros H. split; try done. by left. Qed.

Lemma payload_app fs fs' : payload_bytes (fs ++ fs') = payload_bytes fs ++ payload_bytes fs'.
Proof. unfold payload_bytes. by rewrite List.map_app, concat_app. Qed.

Lemma payload_one f : payload_bytes [f] = frame_bytes f.
Proof. unfold payload_bytes. cbn. by rewrite app_nil_r. Qed.

Lemma frame_bytes_pos f : 0 < len (frame_bytes f).
Proof. unfold frame_bytes, len. cbn. lia. Qed.

Lemma packed_more st budget sfs b fs e sf f : packed st budget sfs b fs e -> says st sf f -> len b + len (frame_bytes f) <= budget ->
  packed st budget (sfs ++ [sf]) (b ++ frame_bytes f) (fs ++ [f]) [].
Proof.
  intros [H1 H2 H3 H4] Hs Hr. assert (Hp := frame_bytes_pos f). destruct H3 as [-> |[_ H3]]; [|lia]. rewrite app_nil_r in *.
  split; [rewrite app_nil_r; apply Forall2_app; [done|by constructor]| |by left|rewrite len_app; lia].
  rewrite H2, payload_app, payload_one. cbn. by rewrite !app_nil_r.
Qed.

Lemma packed_last st budget sfs b fs e sf f eb : packed st budget sfs b fs e -> says st sf f -> is_stream f -> ending [f] = eb -> 0 < len eb -> len b + len eb = budget ->
  packed st budget (sfs ++ [sf]) (b ++ eb) fs [f].
Proof.
  intros [H1 H2 H3 H4] Hs Hst He Hp Hr. destruct H3 as [-> |[_ H3]]; [|lia]. rewrite app_nil_r in H1. cbn [ending] in H2. rewrite app_nil_r in H2.
  split; [apply Forall2_app; [done|by constructor]|by rewrite H2, He|right; split; [by exists f|rewrite len_app; lia]|rewrite len_app; lia].
Qed.

Section packet.
(** The state, the packet and the record when the writing starts. *)
Context (st0 : Streams) (out0 : list Z) (sent0 : list StreamFrame) (budget : Z).

Record writing (w : Writing) : Prop := mk_writing_ok {
  wg_inv : inv [] (wr_streams w);
  wg_fits : fits (wr_streams w);
  wg_carried : carried_on st0 (wr_streams w);
  wg_packed : exists sfs b fs e, wr_out w = out0 ++ b /\ wr_sent w = sent0 ++ sfs /\ packed st0 budget sfs b fs e /\ Forall (emitted (wr_streams w)) sfs;
}.

Abbreviation start := (len out0).
Abbreviation runs m w := (wp m w (fun _ w' => writing w') (fun (_ : fault) _ => False)).

Lemma writing_state w st' : writing w -> inv [] st' -> carried_on (wr_streams w) st' -> writing (mk_writing st' (wr_out w) (wr_sent w)).
Proof.
  intros [H1 H2 H3 (sfs & b & fs & e & E1 & E2 & E3 & E4)] Hinv Hc. split; cbn; [done|by eapply carried_fits|by eapply carried_trans|].
  exists sfs, b, fs, e. do 3 (split; [done|]). eapply Forall_impl; [exact E4|]. intros f. apply emitted_evolves. by apply carried_evolves.
Qed.

Lemma writing_put w st' f sf : writing w -> inv [] st' -> carried_on (wr_streams w) st' -> says (wr_streams w) sf f -> emitted st' sf ->
  len (wr_out w) - start + len (frame_bytes f) <= budget -> writing (mk_writing st' (wr_out w ++ frame_bytes f) (wr_sent w ++ [sf])).
Proof.
  intros [H1 H2 H3 (sfs & b & fs & e & E1 & E2 & E3 & E4)] Hinv Hc Hs Hem Hr. split; cbn; [done|by eapply carried_fits|by eapply carried_trans|].
  exists (sfs ++ [sf]), (b ++ frame_bytes f), (fs ++ [f]), []. split; [by rewrite E1, app_assoc|]. split; [by rewrite E2, app_assoc|]. rewrite E1, len_app in Hr. split.
  - apply (packed_more _ _ _ _ _ e); [done|by eapply says_carried|lia].
  - apply Forall_app. split; [|by constructor]. eapply Forall_impl; [exact E4|]. intros g. apply emitted_evolves. by apply carried_evolves.
Qed.

(** [put]: all of the frame, or nothing. *)
Lemma put_wp f w (Q : bool -> Writing -> Prop) R : frame_wf f -> Q false w ->
  (len (wr_out w) - start + len (frame_bytes f) <= budget -> Q true (mk_writing (wr_streams w) (wr_out w ++ frame_bytes f) (wr_sent w))) ->
  wp (put start budget f) w Q R.
Proof.
  intros Hf H0 H1. unfold put, wp, mbind, stx_bind, xget, xsome, xput. rewrite frame_len_ok by done. destruct (Z.ltb_spec budget (len (wr_out w) - start + len (frame_bytes f))) as [|Hr]; [done|].
  rewrite fr_write_ok by done. by apply H1.
Qed.

Definition of_streams (f : Frame) : Prop :=
  match f with Frames.StreamFrame _ _ _ _ => False | _ => True end.

Lemma says_emitted st st' sf f : of_streams f -> says st sf f -> emitted st' sf.
Proof. by destruct sf, f. Qed.

Lemma due_writing w g : writing w -> (forall d, data_blocked_sent (g d) = data_blocked_sent d) -> inv [] (with_due (g (due (wr_streams w))) (wr_streams w)) /\ carried_on (wr_streams w) (with_due (g (due (wr_streams w))) (wr_streams w)).
Proof.
  intros Hw Hg. assert (Hinv := wg_inv _ Hw). split; [|by apply same_streams]. destruct (due_change (wr_streams w) (g (due (wr_streams w))) Hinv (Hg _)) as (st' & [= <-] & H & _). done.
Qed.

Lemma put_due_ok f sf g w : writing w -> frame_wf f -> of_streams f -> says (wr_streams w) sf f -> (forall d, data_blocked_sent (g d) = data_blocked_sent d) ->
  runs (put_due start budget f sf g) w.
Proof.
  intros Hw Hf Ho Hs Hg. unfold put_due. apply wp_bind, put_wp; [done|by apply wp_ret|]. intros Hr. destruct (due_writing w g Hw Hg) as [H1 H2].
  unfold on_due, on_streams, record, wp, mbind, stx_bind, xmod. cbn [wr_streams wr_out wr_sent]. apply (writing_put w); try done. by eapply says_emitted.
Qed.

Lemma on_due_ok g w : writing w -> (forall d, data_blocked_sent (g d) = data_blocked_sent d) -> runs (on_due g) w.
Proof. intros Hw Hg. destruct (due_writing w g Hw Hg) as [H1 H2]. unfold on_due, on_streams, wp, xmod. by apply (writing_state w). Qed.

(** ** The frames of the connection *)

Lemma index_kind k : k = 0 \/ k = 1 -> kind_index (k =? 0) = k.
Proof. by intros [-> | ->]. Qed.

Lemma recv_limit_field ex st : inv ex st -> fits st -> field (recv_limit (rx st)).
Proof.
  intros Hinv Hfit. assert (Hl := ft_limit _ Hfit). assert (H0 := unread_total ex st Hinv). destruct (iv_credit _ _ Hinv) as [C1 C2 C3 C4]. split; lia.
Qed.

Lemma write_max_data_ok w : writing w -> runs (write_max_data start budget) w.
Proof.
  intros Hw. unfold write_max_data. apply wp_bind. cbn [wp xget]. unfold wp at 1. cbn. case_if; [|by apply wp_ret].
  apply put_due_ok; try done. by eapply recv_limit_field; apply Hw.
Qed.

Lemma write_max_streams_ok k w : k = 0 \/ k = 1 -> writing w -> runs (write_max_streams start budget k) w.
Proof.
  intros Hk Hw. unfold write_max_streams. apply wp_bind. unfold wp at 1. cbn. case_if; [|by apply wp_ret].
  assert (Hkind := iv_kinds _ _ (wg_inv _ Hw) k Hk). assert (Ho := kept_opened _ _ _ _ Hkind). destruct Hkind as [_ _ K3 _ _].
  apply put_due_ok; try done; [cbn; lia|cbn; by rewrite index_kind].
Qed.

Lemma write_streams_blocked_ok k w : k = 0 \/ k = 1 -> writing w -> runs (write_streams_blocked start budget k) w.
Proof.
  intros Hk Hw. unfold write_streams_blocked. apply wp_bind. unfold wp at 1. cbn. case_if; [|by apply wp_ret].
  destruct (negb _); [by apply on_due_ok|]. destruct (to_opened _ _ (iv_tx _ _ (wg_inv _ Hw)) k Hk) as [H1 H2]. apply put_due_ok; try done; [cbn; lia|cbn; by rewrite index_kind].
Qed.

Lemma write_data_blocked_ok w : writing w -> runs (write_data_blocked start budget) w.
Proof.
  intros Hw. unfold write_data_blocked. apply wp_bind. unfold wp at 1. cbn. case_if; [|by apply wp_ret].
  case_bool_decide; [by apply on_due_ok|]. apply put_due_ok; try done. destruct (iv_tx _ _ (wg_inv _ Hw)) as [T1 T2 _ _ _]. split; [lia|done].
Qed.

(** ** The frames of the streams *)

Lemma issued_field ex st id : inv ex st -> issued (cfg st) (tx st) (rx st) id -> field id.
Proof.
  intros Hinv [H0 Hi]. split; [done|]. set (k := kind_of id) in *. assert (Hk : k = 0 \/ k = 1) by apply kind_range.
  assert (Hlt : index_of id < MAX_STREAMS_LIMIT).
  { destruct (local (cfg st) id); [destruct (to_opened _ _ (iv_tx _ _ Hinv) k Hk); lia|]. assert (H := ko_limit _ _ _ _ (iv_kinds _ _ Hinv k Hk)). lia. }
  rewrite index_of_eq in Hlt. change MAX_STREAMS_LIMIT with 1152921504606846976 in Hlt. change MAX_VARINT with 4611686018427387903. assert (H := Z.div_mod id 4 ltac:(lia)). assert (H' := Z.mod_pos_bound id 4 ltac:(lia)). lia.
Qed.

(** A sending side with some of its frames said: only its flags moved. *)
Record said_send (s s' : Send) : Prop := mk_said_send {
  sd_same : s_buf s' = s_buf s /\ s_max_data s' = s_max_data s /\ s_state s' = s_state s /\ s_blocked_sent s' = s_blocked_sent s /\ s_queued s' = s_queued s /\ s_parked s' = s_parked s;
  sd_reset : reset_of s' = reset_of s;
}.

Record said_recv (r r' : Recv) : Prop := mk_said_recv {
  sr_same : r_buf r' = r_buf r /\ r_max_data r' = r_max_data r /\ r_window r' = r_window r /\ r_high r' = r_high r /\ r_final_size r' = r_final_size r /\ r_state r' = r_state r;
  sr_stop : stop_of r' = stop_of r \/ r_stop r' = None;
}.

Lemma said_send_refl s : said_send s s.
Proof. by split. Qed.

Lemma said_send_trans s1 s2 s3 : said_send s1 s2 -> said_send s2 s3 -> said_send s1 s3.
Proof. intros [(A1 & A2 & A3 & A4 & A5 & A6) A] [(B1 & B2 & B3 & B4 & B5 & B6) B]. split; [split_and!; congruence|congruence]. Qed.

Lemma said_recv_refl r : said_recv r r.
Proof. split; [done|by left]. Qed.

Lemma said_recv_trans r1 r2 r3 : said_recv r1 r2 -> said_recv r2 r3 -> said_recv r1 r3.
Proof.
  intros [(A1 & A2 & A3 & A4 & A5 & A6) A] [(B1 & B2 & B3 & B4 & B5 & B6) B]. split; [split_and!; congruence|].
  destruct B as [B|B]; [|by right]. destruct A as [A|A]; [left; congruence|]. right. unfold stop_of in B. rewrite A in B. by destruct (r_stop r3).
Qed.

Lemma reset_of_some s x : reset_of s = Some x <-> exists y, s_reset s = Some y /\ x = (rs_error y, rs_final_size y).
Proof. unfold reset_of. destruct (s_reset s); cbn; naive_solver. Qed.

Lemma said_send_ok q p id s s' : send_ok q p id s -> said_send s s' -> send_ok q p id s'.
Proof.
  intros [K1 K2 K3 K4 K5 K6 K7 K8 K9] [(E1 & E2 & E3 & E4 & E5 & E6) Er]. split; unfold sending in *; rewrite ?E1, ?E2, ?E3, ?E4, ?E5, ?E6; try done.
  - destruct (s_state s); try done. destruct K3 as [x Hx]. unfold reset_of in Er. rewrite Hx in Er. destruct (s_reset s') as [y|]; [by exists y|done].
  - intros x Hx. unfold reset_of in Er. rewrite Hx in Er. destruct (s_reset s) as [y|]; [|done]. cbn in Er. injection Er as -> ->. by apply K6.
Qed.

Lemma put_side_ok {A} f sf (done kept : A) w : writing w -> frame_wf f -> of_streams f -> says (wr_streams w) sf f ->
  wp (put_side start budget f sf done kept) w (fun x w' => writing w' /\ wr_streams w' = wr_streams w /\ (x = (done, false) \/ x = (kept, true))) (fun _ _ => False).
Proof.
  intros Hw Hf Ho Hs. unfold put_side. apply wp_bind, put_wp; [done|apply wp_ret; auto|]. intros Hr. unfold record, wp, mbind, stx_bind, xmod, mret, stx_ret. cbn [wr_streams wr_out wr_sent].
  split; [|auto]. apply (writing_put w); try done; [apply Hw|apply carried_refl|by eapply says_emitted].
Qed.

Abbreviation says_side said m w a := (wp m w (fun x w' => writing w' /\ wr_streams w' = wr_streams w /\ said a (fst x)) (fun (_ : fault) _ => False)).

Lemma write_reset_ok id s s0 w : writing w -> field id -> snd_in id (streams (wr_streams w)) = Some s0 -> said_send s0 s -> send_ok (send_queue (wr_streams w)) (parked (wr_streams w)) id s ->
  says_side said_send (write_reset start budget id s) w s.
Proof.
  intros Hw Hid Hs Hsaid Hok. unfold write_reset. destruct (s_reset s) as [[e z []]|] eqn:Hr; try (apply wp_ret; split; [done|]; split; [done|apply said_send_refl]).
  destruct (so_reset _ _ _ _ Hok _ Hr) as [He Hz]. eapply wp_mono; [apply put_side_ok; [done|done|done|]| |done].
  - cbn. do 3 (split; [done|]). exists s0. split; [done|]. rewrite <- (sd_reset _ _ Hsaid). unfold reset_of. by rewrite Hr.
  - intros x w' (H1 & H2 & [-> | ->]); (split; [done|]; split; [done|]); [|apply said_send_refl]. split; [done|]. unfold reset_of. cbn. by rewrite Hr.
Qed.

Lemma write_blocked_ok id s s0 w : writing w -> field id -> snd_in id (streams (wr_streams w)) = Some s0 -> said_send s0 s -> send_ok (send_queue (wr_streams w)) (parked (wr_streams w)) id s ->
  says_side said_send (write_blocked start budget id s) w s.
Proof.
  intros Hw Hid Hs Hsaid Hok. unfold write_blocked. destruct (s_blocked_pending s); [|apply wp_ret; split; [done|]; split; [done|apply said_send_refl]].
  destruct Hsaid as [(_ & E2 & _ & E4 & _) _]. set (limit := match s_blocked_sent s with Some l => l | None => s_max_data s end).
  eapply wp_mono; [apply put_side_ok; [done| |done|]| |done].
  - split; [done|]. unfold limit. destruct (s_blocked_sent s) as [l|] eqn:Hl; [by apply (so_blocked _ _ _ _ Hok)|apply Hok].
  - cbn. do 2 (split; [done|]). exists s0. split; [done|]. unfold limit. rewrite E2, E4. destruct (s_blocked_sent s0); auto.
  - intros x w' (H1 & H2 & [-> | ->]); (split; [done|]; split; [done|]); [by split|apply said_send_refl].
Qed.

Lemma write_send_side_ok id s w : writing w -> field id -> snd_in id (streams (wr_streams w)) = Some s ->
  wp (write_send_side start budget id (Some s)) w (fun x w' => writing w' /\ wr_streams w' = wr_streams w /\ exists s', fst x = Some s' /\ said_send s s') (fun _ _ => False).
Proof.
  intros Hw Hid Hs. cbn [write_send_side]. destruct (iv_send _ _ (wg_inv _ Hw) id s Hs) as [Hok _]. apply wp_bind.
  eapply wp_mono; [by apply (write_reset_ok id s s); [..|apply said_send_refl|]| |done]. intros [s1 m1] w1 (H1 & E1 & S1). cbn [fst] in S1. apply wp_bind.
  eapply wp_mono; [apply (write_blocked_ok id s1 s); rewrite ?E1; [done|done|done|done|by eapply said_send_ok]| |done]. intros [s2 m2] w2 (H2 & E2 & S2). cbn [fst] in S2.
  apply wp_ret. split; [done|]. split; [congruence|]. exists s2. split; [done|by eapply said_send_trans].
Qed.

Lemma write_stop_ok id r r0 w : writing w -> field id -> rcv_in id (streams (wr_streams w)) = Some r0 -> said_recv r0 r -> (is_Some (r_stop r) -> r_state r = ROpen) ->
  (forall x, r_stop r = Some x -> field (st_error x)) -> says_side said_recv (write_stop start budget id r) w r.
Proof.
  intros Hw Hid Hr Hsaid Ho Hst. unfold write_stop. destruct (r_stop r) as [[e []]|] eqn:Hx; try (apply wp_ret; split; [done|]; split; [done|apply said_recv_refl]).
  eapply wp_mono; [apply put_side_ok; [done|split; [done|exact (Hst _ eq_refl)]|done|]| |done].
  - cbn. do 2 (split; [done|]). exists r0. split; [done|]. destruct Hsaid as [(_ & _ & _ & _ & _ & E) [E'|E']]; [|congruence]. rewrite <- E, <- E'. unfold stop_of. rewrite Hx. split; [apply Ho; by eexists|done].
  - intros x w' (H1 & H2 & [-> | ->]); (split; [done|]; split; [done|]); [|apply said_recv_refl]. split; [done|]. left. unfold stop_of. cbn. by rewrite Hx.
Qed.

Lemma write_max_stream_data_ok id r r0 w : writing w -> field id -> rcv_in id (streams (wr_streams w)) = Some r0 -> said_recv r0 r -> field (r_max_data r) ->
  says_side said_recv (write_max_stream_data start budget id r) w r.
Proof.
  intros Hw Hid Hr Hsaid Hm. unfold write_max_stream_data. destruct (r_max_data_pending r); [|apply wp_ret; split; [done|]; split; [done|apply said_recv_refl]].
  eapply wp_mono; [apply put_side_ok; [done|done|done|]| |done].
  - cbn. do 2 (split; [done|]). exists r0. split; [done|]. destruct Hsaid as [(_ & E & _) _]. by rewrite E.
  - intros x w' (H1 & H2 & [-> | ->]); (split; [done|]; split; [done|]); [|apply said_recv_refl]. split; [done|]. by left.
Qed.

Lemma settle_said r : said_recv r (settle r) /\ (is_Some (r_stop (settle r)) -> r_state (settle r) = ROpen).
Proof.
  unfold settle. case_bool_decide as Ho; [split; [apply said_recv_refl|done]|]. split; [|by intros []]. split; [done|by right].
Qed.

Lemma said_stop r r' : said_recv r r' -> (forall x, r_stop r = Some x -> field (st_error x)) -> forall x, r_stop r' = Some x -> field (st_error x).
Proof.
  intros [_ [E|E]] H x Hx; [|congruence]. unfold stop_of in E. rewrite Hx in E. destruct (r_stop r) as [y|]; [|done]. cbn in E. injection E as ->. by apply H.
Qed.

Lemma write_recv_side_ok id r w : writing w -> field id -> rcv_in id (streams (wr_streams w)) = Some r ->
  wp (write_recv_side start budget id (Some r)) w (fun x w' => writing w' /\ wr_streams w' = wr_streams w /\ exists r', fst x = Some r' /\ said_recv r r') (fun _ _ => False).
Proof.
  intros Hw Hid Hr. cbn [write_recv_side]. assert (Hok := iv_recv _ _ (wg_inv _ Hw) id r Hr). destruct (settle_said r) as [Hs Ho]. assert (Hst := said_stop _ _ Hs (ro_stop _ Hok)).
  apply wp_bind. eapply wp_mono; [by apply (write_stop_ok id (settle r) r)| |done]. intros [r1 m1] w1 (H1 & E1 & S1). cbn [fst] in S1. apply wp_bind.
  assert (S2 := said_recv_trans _ _ _ Hs S1). eapply wp_mono; [apply (write_max_stream_data_ok id r1 r); rewrite ?E1; [done|done|done|done|]| |done].
  - destruct S2 as [(_ & -> & _) _]. assert (H := ft_recv _ (wg_fits _ Hw) id r Hr). assert (Hrd := wf_read _ (proj1 (ro_buf _ Hok))). assert (Hlow := end_offset_low (r_buf r)). destruct (ro_end _ Hok). split; lia.
  - intros [r2 m2] w2 (H2 & E2 & S3). cbn [fst] in S3. apply wp_ret. split; [done|]. split; [congruence|]. exists r2. split; [done|by eapply said_recv_trans].
Qed.

(** The sides of a stream are put back. *)
Lemma said_send_kept ex st id s s' : inv ex st -> snd_in id (streams st) = Some s -> said_send s s' ->
  let st' := with_streams (set_send id s' (streams st)) st in inv ex st' /\ carried_on st st'.
Proof.
  intros Hinv Hs Hsaid. cbn zeta. destruct (iv_send _ _ Hinv id s Hs) as [Hok _]. assert (Hok' := said_send_ok _ _ _ _ _ Hok Hsaid). destruct (iv_sorted _ _ Hinv) as (_ & Hsc & _).
  destruct Hsaid as [(E1 & E2 & E3 & E4 & E5 & E6) Er].
  split; [eapply (unmoved ex st _ id s s'); try done; intros _; unfold gate, sending; by rewrite E1, E2, E3|].
  eapply (set_send_carried st _ id s s'); try done. split; [by rewrite E1|rewrite E1; lia|done|by left].
Qed.

Lemma said_recv_kept ex st id r r' : inv ex st -> rcv_in id (streams st) = Some r -> said_recv r r' ->
  let st' := with_streams (set_recv id r' (streams st)) st in inv ex st' /\ carried_on st st'.
Proof.
  intros Hinv Hr Hsaid. cbn zeta. destruct (iv_sorted _ _ Hinv) as (_ & Hsc & _). assert (Hst := said_stop _ _ Hsaid (ro_stop _ (iv_recv _ _ Hinv id r Hr))).
  destruct Hsaid as [(E1 & E2 & E3 & E4 & E5 & E6) Es]. split.
  - apply (recv_flags ex st _ id r r'); try done. by left.
  - eapply (set_recv_carried st _ id r r'); try done. split; [done|]. destruct Es as [-> |Es]; [done|]. unfold stop_of. rewrite Es. done.
Qed.

Lemma put_sides id x s' r' m : BTree.get id m = Some x -> (is_Some s' <-> is_Some (st_send x)) -> (is_Some r' <-> is_Some (st_recv x)) -> sorted m ->
  BTree.insert id (mk_stream s' r') m = (match r' with Some r => set_recv id r | None => fun m => m end) ((match s' with Some s => set_send id s | None => fun m => m end) m).
Proof.
  intros Hx Hs Hr Hm. destruct x as [s0 r0]. cbn in Hs, Hr.
  assert (E1 : (match s' with Some s => set_send id s | None => fun m => m end) m = BTree.insert id (mk_stream s' r0) m).
  { destruct s' as [s|]; [unfold set_send; by rewrite Hx|]. destruct s0 as [s0|]; [by destruct (proj2 Hs ltac:(by eexists))|]. symmetry. by apply insert_get. }
  rewrite E1. destruct r' as [r|].
  - unfold set_recv. by rewrite get_insert, Z.eqb_refl, insert_insert.
  - destruct r0 as [r0|]; [by destruct (proj2 Hr ltac:(by eexists))|]. done.
Qed.

Lemma forget_control_ok id w : writing w -> runs (forget_control id) w.
Proof.
  intros Hw. unfold forget_control, on_streams, wp, xmod. apply (writing_state w); [done| |by apply same_streams]. assert (Hinv := wg_inv _ Hw).
  destruct (other_change [] (wr_streams w) (with_control (BTree.remove id (control (wr_streams w))) (wr_streams w))) as (H & _); try done; [apply remove_sorted, (iv_sorted _ _ Hinv)|apply (iv_tx _ _ Hinv)].
Qed.

Lemma write_control_ok id w : writing w -> runs (write_control start budget id) w.
Proof.
  intros Hw. unfold write_control. apply wp_bind. unfold wp at 1. cbn [xget]. destruct (BTree.get id (streams (wr_streams w))) as [x|] eqn:Hx; [|by apply forget_control_ok].
  assert (Hinv := wg_inv _ Hw). destruct (iv_sorted _ _ Hinv) as (Hss & _). assert (Hid := issued_field _ _ _ Hinv (proj1 (iv_ids _ _ Hinv id x Hx))).
  apply wp_bind. apply (wp_mono _ _ (fun a w' => writing w' /\ wr_streams w' = wr_streams w /\ (is_Some (fst a) <-> is_Some (st_send x)) /\ forall s', fst a = Some s' -> exists s, snd_in id (streams (wr_streams w)) = Some s /\ said_send s s') _ (fun _ _ => False) _).
  { destruct (st_send x) as [s|] eqn:Hs; [|apply wp_ret; by split_and!]. assert (Hs' : snd_in id (streams (wr_streams w)) = Some s) by (unfold snd_in; by rewrite Hx).
    eapply wp_mono; [by apply write_send_side_ok| |done]. intros a w' (H1 & H2 & s' & H3 & H4). do 2 (split; [done|]). rewrite H3. split; [split; by eexists|]. intros s2 [= <-]. by exists s. }
  2: done. intros [s' m1] w1 (H1 & E1 & Hsome1 & Hs'). cbn [fst] in Hsome1, Hs'. apply wp_bind.
  apply (wp_mono _ _ (fun a w' => writing w' /\ wr_streams w' = wr_streams w /\ (is_Some (fst a) <-> is_Some (st_recv x)) /\ forall r', fst a = Some r' -> exists r, rcv_in id (streams (wr_streams w)) = Some r /\ said_recv r r') _ (fun _ _ => False) _).
  { destruct (st_recv x) as [r|] eqn:Hr; [|apply wp_ret; by split_and!]. assert (Hr' : rcv_in id (streams (wr_streams w)) = Some r) by (unfold rcv_in; by rewrite Hx).
    eapply wp_mono; [apply write_recv_side_ok; [done|done|by rewrite E1]| |done]. intros a w' (H2 & H3 & r' & H4 & H5). split; [done|]. split; [congruence|]. rewrite H4. split; [split; by eexists|]. intros r2 [= <-]. by exists r. }
  2: done. intros [r' m2] w2 (H2 & E2 & Hsome2 & Hr'). cbn [fst] in Hsome2, Hr'. apply wp_bind. unfold on_streams at 1. unfold wp at 1. cbn [xmod].
  set (st' := put_stream id (mk_stream s' r') (wr_streams w2)). assert (Hput : inv [] st' /\ carried_on (wr_streams w2) st').
  { unfold st', put_stream. rewrite E2, (put_sides id x s' r') by done. set (st1 := with_streams ((match s' with Some s => set_send id s | None => fun m => m end) (streams (wr_streams w))) (wr_streams w)).
    assert (H3 : inv [] st1 /\ carried_on (wr_streams w) st1).
    { unfold st1. destruct s' as [s'|]; [|by destruct (wr_streams w); split; [|apply carried_refl]]. destruct (Hs' s' eq_refl) as (s & G1 & G2). by apply (said_send_kept [] (wr_streams w) id s s'). }
    destruct H3 as [H3 H4]. change (with_streams ?m (wr_streams w)) with (with_streams m st1). set (m1' := (match s' with Some s => set_send id s | None => fun m => m end) (streams (wr_streams w))).
    destruct r' as [r'|]; [|done]. destruct (Hr' r' eq_refl) as (r & G1 & G2). destruct (said_recv_kept [] st1 id r r' H3) as [G3 G4]; [|done|].
    - unfold st1. cbn. destruct s'; [by rewrite rcv_set_send|done].
    - split; [done|by eapply carried_trans]. }
  destruct Hput as [Hp1 Hp2]. assert (Hw3 : writing (mk_writing st' (wr_out w2) (wr_sent w2))) by by apply (writing_state w2). destruct (m1 || m2); [by apply wp_ret|by apply forget_control_ok].
Qed.

Lemma for_each_ok f ids : (forall id w, writing w -> runs (f id) w) -> forall w, writing w -> runs (for_each f ids) w.
Proof.
  intros Hf. induction ids as [|id ids IH]; intros w Hw; cbn [for_each]; [by apply wp_ret|]. apply wp_bind. eapply wp_mono; [by apply Hf| |done]. intros [] w' H. exact (IH w' H).
Qed.

(** ** The data *)

Lemma unsent_iff ws b p : wf ws b -> status_of b p = Unsent <-> next b <= p.
Proof. intros Hw. apply (status_is ws b p Unsent Hw). Qed.

Lemma given_out_next ws b c b' : wf ws b -> 0 <= ck_len c -> 0 < ck_len c \/ ck_fin c = true -> given_out ws b c b' ->
  next b' = Z.max (next b) (ck_offset c + ck_len c + b2z (ck_fin c)).
Proof.
  intros Hw Hl Hsome [Hw' _ Hin Hout]. set (top := ck_offset c + ck_len c + b2z (ck_fin c)).
  assert (Hcar : forall p, carries c p <-> ck_offset c <= p < top) by done. assert (Htop : ck_offset c < top) by (unfold top; assert (H := b2z_range (ck_fin c)); destruct Hsome as [?|Hf]; [lia|rewrite Hf; simpl; lia]).
  assert (H1 : top - 1 < next b') by (assert (H := Hin (top - 1) ltac:(apply Hcar; lia)); apply (status_is ws) in H; [|done]; cbn in H; lia).
  assert (Hns : forall p, ~ carries c p -> next b <= p <-> next b' <= p).
  { intros p Hp. by rewrite <- (unsent_iff ws b p Hw), <- (unsent_iff ws b' p Hw'), (Hout p Hp). }
  assert (H2 := Hns (next b') ltac:(rewrite Hcar; lia)). assert (H3 := Hns (Z.max (next b) top) ltac:(rewrite Hcar; lia)). lia.
Qed.

Lemma is_ready_gate s room : gate s room = Ready -> sending s = true /\ SendBuf.has_pending (s_buf s) = true.
Proof. unfold gate. destruct (sending s); cbn [negb orb]; [|done]. destruct (SendBuf.has_pending (s_buf s)); done. Qed.

(** How much of the credit a chunk takes. *)
Lemma chunk_credit ws b c b' max_len mx cr : wf ws b -> sent b + cr <= U64_MAX -> 0 <= cr -> sent b <= mx ->
  chosen ws b max_len (Z.min mx (u64 (sent b + cr))) c -> given_out ws b c b' ->
  0 <= ck_new c <= cr /\ sent b' = sent b + ck_new c /\ sent b' <= mx /\ next b' = Z.max (next b) (ck_offset c + ck_len c + b2z (ck_fin c)).
Proof.
  intros Hw Hu Hcr Hmx [[Hl Hl'] Hsome Hin Hfin Hkind] Hg. assert (Hn := given_out_next ws b c b' Hw ltac:(lia) Hsome Hg). assert (Hb := wf_base _ _ Hw). assert (Hnx := wf_next _ _ Hw).
  assert (Hs : sent b = Z.min (next b) (len ws)) by (unfold sent; by rewrite (wf_written _ _ Hw)).
  assert (Hs' : sent b' = Z.min (next b') (len ws)) by (unfold sent; by rewrite (wf_written _ _ (go_wf _ _ _ _ Hg))). rewrite u64_small in Hkind by lia. assert (Hbf := b2z_range (ck_fin c)).
  assert (Hpos : forall p, carries c p <-> ck_offset c <= p < ck_offset c + ck_len c + b2z (ck_fin c)) by done.
  destruct Hkind as [(_ & Hnew & Hk)|(_ & Ho & Hnew & Hlim & Hk)].
  - assert (Hlast : ck_offset c + ck_len c + b2z (ck_fin c) <= next b).
    { assert (H := Hk (ck_offset c + ck_len c + b2z (ck_fin c) - 1) ltac:(apply Hpos; destruct Hsome as [?|Hf]; [lia|rewrite Hf; simpl; lia])). apply (status_is ws) in H; [|done].
      apply (wf_lost_in _ _ Hw) in H. lia. }
    lia.
  - assert (Hend : next b' = next b + ck_len c + b2z (ck_fin c) /\ (ck_fin c = true -> next b + ck_len c = len ws)) by (split; [lia|intros Hf; destruct (Hfin Hf); lia]). destruct Hend as [Hn' Hend'].
    assert (Hsent : sent b' = next b + ck_len c) by (destruct (ck_fin c); cbn [b2z] in *; [specialize (Hend' eq_refl)|]; lia).
    destruct (Z.eq_dec (ck_len c) 0) as [Hz|Hz]; [|specialize (Hlim ltac:(lia)); lia]. destruct Hsome as [?|Hf]; [lia|]. destruct (Hfin Hf) as [_ Hend]. rewrite Hf in Hn. cbn [b2z] in Hn. lia.
Qed.

(** The state when a chunk has been taken, before the stream is looked at
    again. *)
Lemma chunk_taken st id s ws c b limit max_len : inv [] st -> fits st -> snd_in id (streams st) = Some s -> sending s = true -> wf ws (s_buf s) ->
  limit = Z.min (s_max_data s) (u64 (sent (s_buf s) + conn_room st)) -> chosen ws (s_buf s) max_len limit c -> given_out ws (s_buf s) c b ->
  let st1 := sent_more (ck_new c) (put_send id (s_with_buf b s) st) in
  inv [id] st1 /\ carried_on st st1 /\ send_queue st1 = send_queue st /\ (forall s1, snd_in id (streams st1) = Some s1 -> s_parked s1 = contains_key id (parked st1)) /\
  emitted st1 (SfStream id (ck_offset c) (ck_len c) (ck_fin c)).
Proof.
  intros Hinv Hfit Hs Hl Hw -> Hc Hg. cbn zeta. destruct (iv_send _ _ Hinv id s Hs) as [Hok Hset]. specialize (Hset ltac:(by intros ?%elem_of_nil)). destruct (iv_sorted _ _ Hinv) as (_ & Hsc & Hsp).
  assert (Hroom := room_range st (iv_tx _ _ Hinv)). assert (Hsr := sent_range _ _ _ _ Hok). assert (Hwr := ft_send _ Hfit id s Hs). assert (Hlim := so_limit _ _ _ _ Hok Hl).
  destruct (to_sent _ _ (iv_tx _ _ Hinv)) as [T1 T2]. assert (Hmb := to_max _ _ (iv_tx _ _ Hinv)). assert (Hmv : MAX_VARINT = 4611686018427387903) by done.
  destruct (chunk_credit ws (s_buf s) c b max_len (s_max_data s) (conn_room st) Hw) as (Hn1 & Hn2 & Hn3 & Hn4); try done; [unfold U64_MAX; lia|lia|].
  rewrite put_send_streams. unfold sent_more. cbn [tx with_streams]. rewrite u64_small by (unfold U64_MAX; lia). set (st1 := with_tx _ _). set (s1 := s_with_buf b s).
  assert (Hs1 : snd_in id (streams st1) = Some s1) by (cbn; by rewrite snd_set_send, Z.eqb_refl by eauto).
  destruct (go_same _ _ _ _ Hg) as (Eb & Ed & Ef). destruct (ch_len _ _ _ _ _ Hc) as [Hcl _]. assert (Hci := ch_in _ _ _ _ _ Hc). assert (Hbase := wf_base _ _ Hw). assert (Hlenw := wf_len _ _ Hw). assert (Hbf := b2z_range (ck_fin c)).
  split; [|split; [|split; [done|split; [intros s2 H; rewrite Hs1 in H; injection H as <-; apply Hset|]]]].
  - eapply (send_change [] [id] st st1 id s s1); try done.
    + cbn. split; [done|]. split; [done|]. split; [done|]. lia.
    + apply (iv_queue _ _ Hinv).
    + intros id' _ _. by intros ?%elem_of_nil.
    + apply (iv_said _ _ Hinv).
    + destruct Hok as [K1 K2 K3 K4 K5 K6 K7 K8 K9]. split; try done; [by exists ws; apply Hg|cbn; by rewrite Ef].
    + intros H. destruct H. left.
  - eapply (set_send_carried st st1 id s s1); try done. split; [done| |done|by left]. cbn. lia.
  - split; [apply snd_get in Hs as (x & Hx & _); by destruct (iv_ids _ _ Hinv id x Hx)|].
    split; [lia|]. split; [lia|]. split; [unfold U64_MAX in *; lia|]. intros s2 H _. rewrite Hs1 in H. injection H as <-. cbn. lia.
Qed.

(** How much data fits with its length. *)
Lemma shrink_ok id o room h : (forall m, field m -> stream_header_len id o (Some m) = Some (h + len (venc m))) -> h + 1 <= room ->
  forall fuel n, field n -> (Z.to_nat n < fuel)%nat -> exists n', shrink fuel id o room n = Ok n' /\ 0 <= n' <= n /\ h + len (venc n') + n' <= room /\ (n' < n -> room < h + len (venc (n' + 1)) + (n' + 1)).
Proof.
  intros Hh Hroom. induction fuel as [|fuel IH]; intros n Hn Hfuel; [lia|]. cbn [shrink]. rewrite Hh by done. destruct Hn as [Hn0 Hn1].
  destruct (Z.ltb_spec room (h + len (venc n) + n)) as [Hgt|Hle]; [|exists n; split; [done|]; split; [lia|]; split; [done|lia]].
  assert (Hpos : 0 < n) by (destruct (Z.eq_dec n 0) as [->|]; [change (len (venc 0)) with 1 in Hgt; lia|lia]).
  rewrite u64_small by (change MAX_VARINT with 4611686018427387903 in Hn1; unfold U64_MAX; lia).
  destruct (IH (n - 1)) as (n' & H1 & H2 & H3 & H4); [split; lia|lia|]. exists n'. split; [done|]. split; [lia|]. split; [done|]. intros _.
  destruct (Z.eq_dec n' (n - 1)) as [->|]; [by replace (n - 1 + 1) with n by lia|apply H4; lia].
Qed.

Lemma frame_room_ok id o room h available : (forall m, field m -> stream_header_len id o (Some m) = Some (h + len (venc m))) -> h + 1 <= room -> field available ->
  exists m, frame_room id o room (room - h) available = Ok m /\ 0 <= m <= available /\
    if room - h <=? available then m = room - h else h + len (venc m) + m <= room /\ (available = 0 \/ 0 < m).
Proof.
  intros Hh Hroom Ha. unfold frame_room. destruct (Z.leb_spec (room - h) available) as [Hle|Hgt]; cbn [andb].
  - rewrite (proj2 (Z.ltb_lt _ _)) by lia. eexists. split; [done|]. split; [lia|done].
  - destruct (shrink_ok id o room h Hh Hroom (S (Z.to_nat available)) available Ha ltac:(lia)) as (m & H1 & H2 & H3 & H4). exists m. do 3 (split; [done|]).
    destruct (Z.eq_dec available 0); [by left|right]. destruct (Z.eq_dec m 0) as [->|]; [|lia]. specialize (H4 ltac:(lia)). change (len (venc (0 + 1))) with 1 in H4. lia.
Qed.

Lemma part_is ws s o n : wf ws (s_buf s) -> base (s_buf s) <= o -> part s o n = bytes_at ws o n.
Proof. intros Hw Ho. unfold part, bytes_at. rewrite (wf_data _ _ Hw), drop_drop. assert (H := wf_base _ _ Hw). do 2 f_equal. lia. Qed.

(** What taking a chunk leaves, before it is recorded. *)
Record chunk_written (id room : Z) (w : Writing) (sf : StreamFrame) (w' : Writing) : Prop := mk_chunk_written {
  cw_inv : inv [id] (wr_streams w');
  cw_carried : carried_on (wr_streams w) (wr_streams w');
  cw_queue : send_queue (wr_streams w') = send_queue (wr_streams w);
  cw_flags : forall s, snd_in id (streams (wr_streams w')) = Some s -> s_parked s = contains_key id (parked (wr_streams w'));
  cw_emitted : emitted (wr_streams w') sf;
  cw_sent : wr_sent w' = wr_sent w;
  cw_out : exists f eb, wr_out w' = wr_out w ++ eb /\ says (wr_streams w) sf f /\ is_stream f /\ 2 <= len eb /\ (eb = frame_bytes f /\ len eb <= room \/ eb = ending [f] /\ len eb = room);
}.

Lemma header_short id o h : stream_header_len id o None = Some h -> h <= 17.
Proof.
  unfold stream_header_len. cbn [total_len]. assert (H8 : forall v n, varint_len v = Some n -> n <= 8).
  { intros v n. unfold varint_len. destruct (_ <? _); [done|]. intros [= <-]. repeat match goal with |- context [if ?b then _ else _] => destruct b end; lia. }
  destruct (varint_len id) as [n|] eqn:Hi; [|done]. apply H8 in Hi. destruct (if o =? 0 then Some 0 else varint_len o) as [m|] eqn:Ho; [|done].
  assert (Hm : m <= 8) by (destruct (o =? 0); [injection Ho as <-; lia|by apply H8 in Ho]). cbn. intros [= <-]. lia.
Qed.

(** Where there is no data to take, the size does not matter. *)
Lemma next_chunk_dry ws b m m' limit : wf ws b -> 0 <= m -> 0 <= m' -> peek_len limit b = 0 -> next_chunk m limit b = next_chunk m' limit b.
Proof.
  intros Hw Hm Hm' Hp. unfold next_chunk, peek_len in *. assert (Hf := first_ok _ (wf_lost _ _ Hw)). destruct (first (lost b)) as [[a e]|].
  - destruct Hf as (-> & Ha & He & _). unfold lost_chunk. destruct (Z.ltb_spec a (written b)) as [Hlt|]; [|done]. rewrite u64_small in Hp by (rewrite (wf_written _ _ Hw) in *; assert (H := wf_len _ _ Hw); lia). lia.
  - destruct Hf as (-> & _). rewrite Hp. by rewrite !Z.min_l by lia.
Qed.

Lemma next_chunk_none ws b m limit b' : wf ws b -> 0 <= m -> len ws + m <= U64_MAX -> next_chunk m limit b = Ok (None, b') -> 0 < m \/ peek_len limit b = 0 -> has_pending_within limit b = false.
Proof.
  intros Hw Hm Hu Hn Hor. assert (Hlen := wf_len _ _ Hw). assert (Hpos : exists m', 0 < m' /\ len ws + m' <= U64_MAX /\ next_chunk m' limit b = Ok (None, b')).
  { destruct (Z.eq_dec m 0) as [->|]; [|exists m; split; [lia|done]]. destruct Hor as [?|Hp]; [lia|]. exists 1. split; [lia|]. split; [lia|]. rewrite <- Hn. by apply (next_chunk_dry ws). }
  destruct Hpos as (m' & H1 & H2 & H3). destruct (next_chunk_ok ws b m' limit Hw ltac:(lia) H2) as (oc & s' & He & Hpost). rewrite H3 in He. injection He as <- <-. by apply Hpost.
Qed.

Abbreviation takes_chunk id room m w := (wp m w (fun o w' => match o with None => w' = w /\ room < 33 | Some sf => chunk_written id room w sf w' end) (fun (_ : fault) _ => False)).

Lemma write_chunk_ok id s ws limit offset h room w : writing w -> snd_in id (streams (wr_streams w)) = Some s -> sending s = true -> wf ws (s_buf s) ->
  limit = Z.min (s_max_data s) (u64 (sent (s_buf s) + conn_room (wr_streams w))) -> next_offset (s_buf s) = Some offset ->
  stream_header_len id offset None = Some h -> has_pending_within limit (s_buf s) = true -> takes_chunk id room (write_chunk id s limit offset h room) w.
Proof.
  intros Hw Hs Hl Hwf Hlim Hoff Hh Hpend. unfold write_chunk. assert (Hh17 := header_short _ _ _ Hh). destruct (Z.ltb_spec room (h + 1)) as [|Hroom]; [apply wp_ret; split; [done|lia]|].
  destruct (_ && _) eqn:Htight; [apply andb_true_iff in Htight as [_ ?%Z.ltb_lt]; apply wp_ret; split; [done|lia]|]. clear Htight. assert (Hinv := wg_inv _ Hw). assert (Hfit := wg_fits _ Hw). destruct (iv_send _ _ Hinv id s Hs) as [Hok _].
  assert (Hid : field id) by (apply snd_get in Hs as (x & Hx & _); by apply (issued_field _ _ _ Hinv), (iv_ids _ _ Hinv id x)).
  assert (Hwr := ft_send _ Hfit id s Hs). rewrite (wf_written _ _ Hwf) in Hwr. assert (Hmv : MAX_VARINT = 4611686018427387903) by done. assert (Hbase := wf_base _ _ Hwf). assert (Hnx := wf_next _ _ Hwf).
  assert (Hpeek : 0 <= peek_len limit (s_buf s) <= len ws).
  { unfold peek_len. rewrite (wf_written _ _ Hwf). assert (Hf := first_ok _ (wf_lost _ _ Hwf)). destruct (first (lost (s_buf s))) as [[a e]|]; [|unfold sat_sub; lia].
    destruct Hf as (_ & Ha & He & _). destruct (Z.ltb_spec a (len ws)); [|lia]. rewrite u64_small by (unfold U64_MAX; lia). lia. }
  assert (Hofield : field offset).
  { assert (Hno := next_offset_ok ws (s_buf s) Hwf). rewrite Hoff in Hno. destruct Hno as (_ & Hno). assert (Hbf := b2z_range (fin (s_buf s))). split; [|].
    - destruct Hno as [[Hno _]|(_ & -> & _)]; [apply (status_is ws) in Hno; [|done]; apply (wf_lost_in _ _ Hwf) in Hno; lia|lia].
    - destruct Hno as [[Hno _]|(_ & -> & Hno)]; [apply (status_is ws) in Hno; [|done]; apply (wf_lost_in _ _ Hwf) in Hno|rewrite (wf_end _ _ Hwf) in Hno]; lia. }
  destruct (stream_heads (wr_out w) id offset [] false Hid Hofield) as (h0 & Hh2 & Hh0 & Hhn & _); [by split; vm_compute|]. rewrite Hh0 in Hh. injection Hh as <-.
  destruct (frame_room_ok id offset room (len h0) (peek_len limit (s_buf s)) Hhn Hroom) as (m & Hm & Hm1 & Hm2); [split; lia|]. clear Hh17.
  eapply wp_step; [unfold lift; by rewrite Hm|]. destruct (next_chunk_ok ws (s_buf s) m limit Hwf) as (oc & b & Hnc & Hpost); [lia|unfold U64_MAX; lia|].
  eapply wp_step; [unfold lift; by rewrite Hnc|]. destruct oc as [c|].
  2:{ rewrite (next_chunk_none ws (s_buf s) m limit b Hwf) in Hpend; [done|lia|unfold U64_MAX; lia|done|]. destruct (Z.leb_spec (room - len h0) (peek_len limit (s_buf s))); [left; lia|]. destruct Hm2 as [_ [->|?]]; [by right|by left]. }
  destruct Hpost as [Hc Hg]. rewrite Hlim in Hc.
  assert (Hco : ck_offset c = offset).
  { assert (Hno := next_offset_ok ws (s_buf s) Hwf). rewrite Hoff in Hno. destruct (ch_kind _ _ _ _ _ Hc) as [(H & _)|(Hnl & Ho & _)]; [congruence|]. destruct Hno as (_ & [[H _]|(_ & H & _)]); [by destruct (Hnl offset)|congruence]. }
  destruct (ch_len _ _ _ _ _ Hc) as [Hcl1 Hcl2]. destruct (ch_in _ _ _ _ _ Hc) as [Hci1 Hci2]. rewrite <- Hlim in Hcl2. destruct (go_same _ _ _ _ Hg) as (Eb & Ed & Ef).
  assert (Hcopy := copy_ok ws b (ck_offset c) (ck_len c) (data b) [] (go_wf _ _ _ _ Hg) ltac:(by rewrite app_nil_r) ltac:(lia) ltac:(lia) Hci2).
  set (d := bytes_at ws (ck_offset c) (ck_len c)) in *. assert (Hd : len d = ck_len c) by (apply bytes_at_len; lia).
  destruct (stream_heads (wr_out w) id offset d (ck_fin c) Hid Hofield) as (h1 & _ & Hh1 & _ & (hl & Hl1 & Hl2 & Hl3) & Hn1 & Hn2); [rewrite Hd; split; lia|].
  assert (Hlen : len h1 = len h0) by congruence.
  destruct (chunk_taken (wr_streams w) id s ws c b _ _ Hinv Hfit Hs Hl Hwf eq_refl Hc Hg) as (G1 & G2 & G3 & G4 & G5). set (st1 := sent_more _ _) in *.
  assert (Hsays : says (wr_streams w) (SfStream id (ck_offset c) (ck_len c) (ck_fin c)) (Frames.StreamFrame id offset d (ck_fin c))).
  { cbn. do 3 (split; [done|]). split; [done|]. exists s. do 2 (split; [done|]). split; [lia|]. split; [by rewrite (part_is ws) by (done || lia)|]. rewrite (wf_written _ _ Hwf). split; [done|]. apply (ch_fin _ _ _ _ _ Hc). }
  rewrite Hco in *.
  assert (Hrest : forall hd, 2 <= len (hd ++ d) -> (hd ++ d = frame_bytes (Frames.StreamFrame id offset d (ck_fin c)) /\ len (hd ++ d) <= room \/ hd ++ d = ending [Frames.StreamFrame id offset d (ck_fin c)] /\ len (hd ++ d) = room) ->
    chunk_written id room w (SfStream id offset (ck_len c) (ck_fin c)) (mk_writing st1 ((wr_out w ++ hd) ++ d) (wr_sent w))).
  { intros hd H1 H2. split; try done. exists (Frames.StreamFrame id offset d (ck_fin c)), (hd ++ d). split; [by rewrite <- app_assoc|]. done. }
  assert (Hwhole : (ck_len c =? room - len h0) && (room - len h0 <=? peek_len limit (s_buf s)) = (room - len h0 <=? peek_len limit (s_buf s))).
  { destruct (Z.leb_spec (room - len h0) (peek_len limit (s_buf s))); [|by rewrite andb_false_r]. rewrite andb_true_r. apply Z.eqb_eq. lia. }
  rewrite Hwhole. destruct (Z.leb_spec (room - len h0) (peek_len limit (s_buf s))) as [Hbig|Hsmall].
  - apply wp_step with (a := tt) (s' := mk_writing (wr_streams w) (wr_out w ++ h1) (wr_sent w)); [unfold out_mod, mbind, stx_bind, xget, xsome, xput; by rewrite Hn1|].
    eapply wp_step; [unfold lift; by rewrite Hcopy|]. unfold out_mod, on_streams, wp, mbind, stx_bind, xget, xsome, xput, xmod, mret, stx_ret. cbn [wr_streams wr_out wr_sent]. apply Hrest.
    + rewrite len_app. assert (H := len_nonneg d). lia.
    + right. cbn [ending]. rewrite (Hn2 []). split; [done|]. rewrite len_app. lia.
  - rewrite <- Hd. apply wp_step with (a := tt) (s' := mk_writing (wr_streams w) (wr_out w ++ hl) (wr_sent w)); [unfold out_mod, mbind, stx_bind, xget, xsome, xput; by rewrite Hl1|]. rewrite Hd.
    eapply wp_step; [unfold lift; by rewrite Hcopy|]. unfold out_mod, on_streams, wp, mbind, stx_bind, xget, xsome, xput, xmod, mret, stx_ret. cbn [wr_streams wr_out wr_sent].
    assert (Hmono := venc_mono (ck_len c) m ltac:(lia) ltac:(split; lia)). apply Hrest.
    + rewrite len_app, Hl3, Hd. lia.
    + left. split; [done|]. rewrite len_app, Hl3, Hd. lia.
Qed.

Lemma write_stream_frame_ok id room w s : writing w -> snd_in id (streams (wr_streams w)) = Some s -> gate s (conn_room (wr_streams w)) = Ready ->
  takes_chunk id room (write_stream_frame id room) w.
Proof.
  intros Hw Hs Hg. destruct (is_ready_gate _ _ Hg) as [Hl Hp]. destruct (iv_send _ _ (wg_inv _ Hw) id s Hs) as [Hok _]. destruct (so_buf _ _ _ _ Hok) as [ws Hwf].
  unfold write_stream_frame. apply wp_bind. unfold wp at 1. cbn [xget]. change (send_of id (wr_streams w)) with (snd_in id (streams (wr_streams w))). rewrite Hs. cbn zeta.
  assert (Hno := next_offset_ok ws (s_buf s) Hwf). destruct (next_offset (s_buf s)) as [offset|] eqn:Hoff; [|destruct Hno; congruence].
  assert (Hinv := wg_inv _ Hw). assert (Hid : field id) by (apply snd_get in Hs as (x & Hx & _); by apply (issued_field _ _ _ Hinv), (iv_ids _ _ Hinv id x)).
  assert (Hwr := ft_send _ (wg_fits _ Hw) id s Hs). rewrite (wf_written _ _ Hwf) in Hwr. assert (Hbase := wf_base _ _ Hwf). assert (Hnx := wf_next _ _ Hwf). assert (Hbf := b2z_range (fin (s_buf s))).
  assert (Hofield : field offset).
  { destruct Hno as (_ & [[Hno _]|(_ & -> & Hno)]); [apply (status_is ws) in Hno; [|done]; apply (wf_lost_in _ _ Hwf) in Hno|rewrite (wf_end _ _ Hwf) in Hno]; split; lia. }
  destruct (stream_heads [] id offset [] false Hid Hofield) as (h & _ & Hh & _); [by split; vm_compute|]. eapply wp_step; [unfold xsome; by rewrite Hh|]. eapply write_chunk_ok; try done.
  unfold gate in Hg. rewrite Hl, Hp in Hg. cbn [negb orb] in Hg. by destruct (has_pending_within _ _); [|destruct (_ <=? _)].
Qed.

Lemma writing_last w st' f eb sf : writing w -> inv [] st' -> carried_on (wr_streams w) st' -> says (wr_streams w) sf f -> emitted st' sf -> is_stream f -> ending [f] = eb -> 0 < len eb ->
  len (wr_out w) - start + len eb = budget -> writing (mk_writing st' (wr_out w ++ eb) (wr_sent w ++ [sf])).
Proof.
  intros [H1 H2 H3 (sfs & b & fs & e & E1 & E2 & E3 & E4)] Hinv Hc Hs Hem Hst He Hp Hr. split; cbn; [done|by eapply carried_fits|by eapply carried_trans|].
  exists (sfs ++ [sf]), (b ++ eb), fs, [f]. split; [by rewrite E1, app_assoc|]. split; [by rewrite E2, app_assoc|]. rewrite E1, len_app in Hr. split.
  - apply (packed_last _ _ _ _ _ e); [done|by eapply says_carried|done|done|done|lia].
  - apply Forall_app. split; [|by constructor]. eapply Forall_impl; [exact E4|]. intros g. apply emitted_evolves. by apply carried_evolves.
Qed.

(** The frame is recorded, and the stream goes to the end of the queue or
    out of it. *)
Lemma chunk_recorded id room q w sf w' : writing w -> send_queue (wr_streams w) = id :: q -> chunk_written id room w sf w' -> room = budget - (len (wr_out w) - start) ->
  let w'' := mk_writing (requeue id (wr_streams w')) (wr_out w') (wr_sent w' ++ [sf]) in
  writing w'' /\ len (wr_out w) + 2 <= len (wr_out w'') /\ (length (send_queue (wr_streams w'')) <= length (send_queue (wr_streams w)))%nat.
Proof.
  intros Hw Hq [C1 C2 C3 C4 C5 C6 (f & eb & Ho & Hs & Hst & Hlen & Hcase)] Hroom. rewrite Hq in C3. destruct (requeue_ok (wr_streams w') id q C1 C3 C4) as (H1 & H2 & H3). cbn zeta. cbn [wr_streams wr_out].
  assert (Hem : emitted (requeue id (wr_streams w')) sf) by (eapply emitted_evolves; [by apply soft_evolves|done]). assert (Hc := carried_trans _ _ _ C2 (soft_carried _ _ H2)).
  rewrite C6, Ho. split; [|split; [rewrite len_app; lia|rewrite Hq; cbn [length]; destruct (snd_in id _) as [s|]; [destruct (is_ready _)|]; lia]].
  destruct Hcase as [[-> Hle]|[-> He]]; [apply writing_put; try done; lia|apply writing_last with (f := f); try done; lia].
Qed.

(** The loop ends when there is nothing to send, or the packet is full. *)
Abbreviation drains m w := (wp m w (fun _ w' => writing w' /\ (send_queue (wr_streams w') = [] \/ budget - (len (wr_out w') - start) < 33)) (fun (_ : fault) _ => False)).

Lemma write_data_ok : 0 <= budget -> forall fuel w, writing w -> (Z.to_nat (sat_sub budget (len (wr_out w) - start)) + length (send_queue (wr_streams w)) < fuel)%nat -> drains (write_data start budget fuel) w.
Proof.
  intros Hb. induction fuel as [|fuel IH]; intros w Hw Hfuel; [lia|]. cbn [write_data]. apply wp_bind. unfold wp at 1. cbn [xget]. cbn zeta.
  destruct (Z.ltb_spec (sat_sub budget (len (wr_out w) - start)) 4) as [|Hroom]; [apply wp_ret; split; [done|right; unfold sat_sub in *; lia]|]. destruct (send_queue (wr_streams w)) as [|id q] eqn:Hq; [apply wp_ret; auto|].
  change (send_of id (wr_streams w)) with (snd_in id (streams (wr_streams w))). assert (Hinv := wg_inv _ Hw).
  assert (Hex : inv [id] (wr_streams w)) by (eapply inv_weaken; [exact Hinv|intros; left; by intros ?%elem_of_nil]).
  assert (Hflag : forall s, snd_in id (streams (wr_streams w)) = Some s -> s_parked s = contains_key id (parked (wr_streams w))).
  { intros s Hs. destruct (iv_send _ _ Hinv id s Hs) as [_ H]. apply H. by intros ?%elem_of_nil. }
  destruct (requeue_ok _ id q Hex Hq Hflag) as (H1 & H2 & H3).
  assert (Hskip : match snd_in id (streams (wr_streams w)) with Some s => is_ready (gate s (conn_room (wr_streams w))) | None => false end = false ->
    drains (write_data start budget fuel) (mk_writing (requeue id (wr_streams w)) (wr_out w) (wr_sent w))).
  { intros Hn. apply IH; [apply writing_state; [done|done|by apply soft_carried]|]. cbn [wr_out wr_streams]. cbn [length] in Hfuel. destruct (snd_in id (streams (wr_streams w))); [rewrite Hn in H3|]; lia. }
  destruct (snd_in id (streams (wr_streams w))) as [s|] eqn:Hs; [|eapply wp_step; [done|]; by apply Hskip].
  destruct (gate s (conn_room (wr_streams w))) eqn:Hg; cbn [is_ready] in *; try (eapply wp_step; [done|]; by apply Hskip). clear Hskip H1 H2 H3.
  apply wp_bind. eapply wp_mono; [by apply (write_stream_frame_ok id _ w s)| |done]. intros [sf|] w' Hcw; [|destruct Hcw as [-> ?]; apply wp_ret; split; [done|right; unfold sat_sub in *; lia]].
  destruct (chunk_recorded id _ q w sf w' Hw Hq Hcw) as (K1 & K2 & K3); [unfold sat_sub in *; lia|]. cbn zeta in *. cbn [wr_out wr_streams] in K2, K3.
  eapply wp_step; [done|]. eapply wp_step; [done|]. apply IH; [done|]. cbn [wr_out wr_streams]. rewrite Hq in K3. unfold sat_sub in *. lia.
Qed.

Lemma packet_ok : 0 <= budget -> forall w, writing w -> drains (Streams.write_all start budget) w.
Proof.
  intros Hb w Hw. unfold Streams.write_all.
  apply wp_bind; eapply wp_mono; [by apply write_max_data_ok| |done]; intros [] w1 H1.
  apply wp_bind; eapply wp_mono; [apply write_max_streams_ok; auto| |done]; intros [] w2 H2.
  apply wp_bind; eapply wp_mono; [apply write_streams_blocked_ok; auto| |done]; intros [] w3 H3.
  apply wp_bind; eapply wp_mono; [apply write_max_streams_ok; auto| |done]; intros [] w4 H4.
  apply wp_bind; eapply wp_mono; [apply write_streams_blocked_ok; auto| |done]; intros [] w5 H5.
  apply wp_bind; eapply wp_mono; [apply write_data_blocked_ok; auto| |done]; intros [] w6 H6.
  eapply wp_step; [done|]. apply wp_bind; eapply wp_mono; [apply for_each_ok; [intros id w'; apply write_control_ok|done]| |done]; intros [] w7 H7.
  eapply wp_step; [done|]. apply write_data_ok; [done|done|lia].
Qed.
End packet.

(** ** [write_frames] *)

Lemma write_frames_ok out budget sent st : inv [] st -> fits st -> 0 <= budget ->
  exists st' sfs b fs e, write_frames out budget sent st = (Ok tt, mk_writing st' (out ++ b) (sent ++ sfs)) /\
    inv [] st' /\ carried_on st st' /\ packed st budget sfs b fs e /\ Forall (emitted st') sfs /\ (send_queue st' = [] \/ budget - len b < 33).
Proof.
  intros Hinv Hfit Hb. assert (Hw : writing st out sent budget (mk_writing st out sent)).
  { split; cbn; [done|done|apply carried_refl|]. exists [], [], [], []. rewrite !app_nil_r. split; [done|]. split; [done|]. split; [by apply packed_none|by constructor]. }
  assert (H := packet_ok st out sent budget Hb _ Hw). unfold wp, write_frames in *. destruct (Streams.write_all _ _ _) as [[[]|f] [st' out' sent']]; [|done].
  destruct H as [[H1 _ H3 (sfs & b & fs & e & E1 & E2 & E3 & E4)] Hq]. cbn in *. exists st', sfs, b, fs, e. split; [by rewrite E1, E2|]. do 4 (split; [done|]). rewrite E1, len_app in Hq. destruct Hq; [by left|right; lia].
Qed.

(** ** Reading it back *)

(** The bytes that are buffered are bytes. *)
Definition byte_data (st : Streams) : Prop := forall id s b, snd_in id (streams st) = Some s -> b ∈ data (s_buf s) -> byte b.

Lemma part_octets s o n ws : wf ws (s_buf s) -> (forall b, b ∈ data (s_buf s) -> byte b) -> written (s_buf s) <= MAX_VARINT -> octets (part s o n).
Proof.
  intros Hw Hb Hl. split; [intros b Hin; apply Hb; by eapply subseteq_drop, subseteq_take|]. rewrite (wf_written _ _ Hw) in Hl.
  assert (H : (length (part s o n) <= length ws)%nat) by (unfold part; rewrite length_take, length_drop, (wf_data _ _ Hw), length_drop; lia). unfold len in *. lia.
Qed.

Lemma says_wf st sf f : inv [] st -> fits st -> byte_data st -> says st sf f -> frame_wf f /\ allowed_in (frame_type f) OneRtt = true /\ after f = anything.
Proof.
  intros Hinv Hfit Hb Hs. assert (Hid : forall id x, BTree.get id (streams st) = Some x -> field id) by (intros id x Hx; by apply (issued_field _ _ _ Hinv), (iv_ids _ _ Hinv id x)).
  destruct sf, f; try done; cbn [says] in Hs.
  - destruct Hs as (-> & -> & -> & Hl & s & H1 & _ & H2 & H3 & H4 & _). destruct (so_buf _ _ _ _ (proj1 (iv_send _ _ Hinv _ _ H1))) as [ws Hw]. assert (Hwr := ft_send _ Hfit _ _ H1). assert (Hbase := wf_base _ _ Hw).
    split; [|split; [cbn [frame_type]; destruct (offset =? 0), fin; vm_compute; done|done]].
    split; [apply snd_get in H1 as (x & Hx & _); by eapply Hid|]. split; [rewrite H3; by apply (part_octets _ _ _ ws); [|intros b; by apply (Hb id)|]|]. lia.
  - destruct Hs as (-> & -> & -> & s & H1 & H2). apply reset_of_some in H2 as (y & Hy & [= -> ->]). destruct (iv_send _ _ Hinv _ _ H1) as [Hok _]. destruct (so_reset _ _ _ _ Hok y Hy).
    split; [|done]. split; [apply snd_get in H1 as (x & Hx & _); by eapply Hid|done].
  - destruct Hs as (-> & -> & r & H1 & _ & H2). unfold stop_of in H2. destruct (r_stop r) as [x|] eqn:Hx; [|done]. injection H2 as <-. assert (H := ro_stop _ (iv_recv _ _ Hinv _ _ H1) x Hx).
    split; [|done]. split; [apply rcv_get in H1 as (y & Hy & _); by eapply Hid|done].
  - destruct Hs as (-> & ->). split; [|done]. by eapply recv_limit_field.
  - destruct Hs as (-> & -> & r & H1 & <-). assert (Hok := iv_recv _ _ Hinv _ _ H1). assert (H := ft_recv _ Hfit _ _ H1). assert (Hrd := wf_read _ (proj1 (ro_buf _ Hok))). assert (Hlow := end_offset_low (r_buf r)). destruct (ro_end _ Hok).
    split; [|done]. split; [apply rcv_get in H1 as (y & Hy & _); by eapply Hid|]. split; lia.
  - destruct Hs as (-> & -> & ->). assert (Hk := kind_index_range bidirectional). assert (Hkind := iv_kinds _ _ Hinv _ Hk). assert (Ho := kept_opened _ _ _ _ Hkind). destruct Hkind as [_ _ K3 _ _].
    split; [cbn; lia|]. by destruct bidirectional.
  - destruct Hs as (-> & ->). destruct (iv_tx _ _ Hinv) as [T1 T2 _ _ _]. split; [|done]. split; [lia|done].
  - destruct Hs as (-> & -> & s & H1 & H2). destruct (iv_send _ _ Hinv _ _ H1) as [Hok _]. split; [|done]. split; [apply snd_get in H1 as (x & Hx & _); by eapply Hid|].
    destruct H2 as [->|H2]; [apply Hok|by apply (so_blocked _ _ _ _ Hok)].
  - destruct Hs as (-> & -> & ->). assert (Hk := kind_index_range bidirectional). destruct (to_opened _ _ (iv_tx _ _ Hinv) _ Hk) as [H1 H2]. split; [cbn; lia|]. by destruct bidirectional.
Qed.

(** A payload whose last frame may fill the packet. *)
Lemma collect_ending e ty : e = [] \/ (exists f, e = [f] /\ is_stream f) -> Forall frame_wf e -> allowed_in 8 ty = true -> forall fs r st fuel,
  Forall frame_wf fs -> Forall (fun f => allowed_in (frame_type f) ty = true) fs -> Forall (fun f => after f = anything) fs -> reader_ok r -> left_ r = payload_bytes fs ++ ending e ->
  (st = true \/ fs ++ e <> []) -> (length (fs ++ e) < fuel)%nat -> collect fuel (mk_frames r ty st false) = Some (List.map Ok (fs ++ e)).
Proof.
  intros He Hwe Hty. induction fs as [|f fs IH]; intros r st [|fuel] Hw Ha Hp Hr Hl Hst Hf; try (cbn [length] in Hf; lia).
  - destruct He as [->|(f & -> & Hstr)]; [apply collect_ok; (done || by right)|]. destruct f as [| | | | | | |id o d fn| | | | | | | | | | | |]; try done. apply Forall_cons in Hwe as [Hwe _].
    destruct (stream_parts [] id o d fn Hwe) as (_ & b & Hb1 & _ & Hb2). cbn [ending payload_bytes List.map concat app] in Hl. rewrite Hb1 in Hl. cbn [app] in Hl.
    assert (Hne : 0 < len b) by
      (destruct Hwe as (W1 & W2 & W3 & W4); destruct (stream_heads [] id o d fn W1) as (h & Hh & _ & _ & _ & _ & Hto); [assert (Hd := len_nonneg d); split; lia|by apply len_field|];
       rewrite (Hto []) in Hb1; injection Hb1 as <-; cbn [app]; rewrite len_app; assert (Hd := len_nonneg d); lia).
    cbn [collect]. unfold frames_next. cbn [failed fr_reader started fr_ty]. assert (Hend : at_end r = false) by (apply Z.leb_gt; assert (H := left_len r Hr); rewrite Hl in H; lia). rewrite Hend.
    rewrite (Hb2 ty Hty r [] Hr ltac:(by rewrite app_nil_r) eq_refl). destruct (left_app r b [] Hr ltac:(by rewrite app_nil_r)) as [Hr' Hl'].
    rewrite (collect_ok [] ty _ true fuel); [done|done|done|done|done|done|by left|cbn [app length] in *; lia].
  - apply Forall_cons in Hw as [Hwf Hw], Ha as [Haf Ha], Hp as [Hpf Hp]. change (payload_bytes (f :: fs)) with (frame_bytes f ++ payload_bytes fs) in Hl. rewrite <- app_assoc in Hl.
    cbn [collect]. unfold frames_next. cbn [failed fr_reader started fr_ty]. assert (Hne := frame_bytes_pos f). assert (Hn := len_nonneg (payload_bytes fs ++ ending e)).
    assert (Hend : at_end r = false) by (apply Z.leb_gt; assert (H := left_len r Hr); rewrite Hl, len_app in H; lia). rewrite Hend.
    rewrite (takes_frame f ty Hwf Haf r _ Hr Hl ltac:(by rewrite Hpf)). destruct (left_app r _ _ Hr Hl) as [Hr' Hl']. cbn [app length] in Hf.
    rewrite (IH _ true fuel) by (done || (by left) || lia). done.
Qed.

(** And what is written is bytes. *)
Lemma ending_octets f x : is_stream f -> frame_wf f -> x ∈ ending [f] -> byte x.
Proof.
  intros Hstr Hwf. destruct f as [| | | | | | |id o d fn| | | | | | | | | | | |]; try done. destruct Hwf as (H1 & H2 & H3 & H4). assert (Hd := len_nonneg d). assert (Ho : field o) by (split; lia). cbn [ending].
  assert (Hv : forall v, field v -> forall b, b ∈ venc v -> byte b) by (intros v Hv; by destruct (venc_ok v Hv) as (n & _ & _ & _ & _ & _ & H)).
  unfold write_stream_to_end. cbn zeta. rewrite land_255, put_venc by done. cbn [mbind option_bind].
  assert (Hbyte : forall y, byte (y mod 256)) by (intros y; unfold byte; assert (H := Z.mod_pos_bound y 256); lia).
  destruct (o =? 0); [|rewrite put_venc by done]; cbn [mbind option_bind]; rewrite !elem_of_app, list_elem_of_singleton; intros H; destruct_or?; subst; eauto; try (by apply elem_of_nil in H); by apply (proj1 H2).
Qed.

Lemma packed_octets st budget sfs b fs e x : packed st budget sfs b fs e -> Forall frame_wf (fs ++ e) -> x ∈ b -> byte x.
Proof.
  intros [_ -> He _] Hwf [H|H]%elem_of_app; apply Forall_app in Hwf as [Hw1 Hw2]; [by apply (payload_octets fs x)|].
  destruct He as [->|[(f & -> & Hf) _]]; [by apply elem_of_nil in H|]. apply Forall_cons in Hw2 as [Hw2 _]. by apply (ending_octets f x).
Qed.
