(* ===== verification/StreamsTold.v ===== *)
(** What the peer has to be told, and that it is: the frames of flow control
    and of the ends of streams of [pratique/src/quic/streams.rs].

    [binding] says which frames the state of the connection calls for: the
    credit that was given beyond what the handshake gave, the limits that hold
    us back, the resets and the requests to stop.  [waiting] says that a frame
    is due: the flag of it is set, and the stream is in the set of those that
    [write_frames] looks at.  Every call leaves what is called for said or due
    ([heard]); a packet says what is due, or has no room left
    ([write_frames_told]); and a frame that is lost is due again
    ([lost_waiting]). *)

From Stdlib Require Import ZArith Lia.
From stdpp Require Import base option numbers list_numbers list.
From S2P Require Import Prelude BTree Slice RangeSet Wire Frames Params Reassembly SendBuf Streams StreamsOk StreamsRun StreamsWrite.

#[local] Open Scope Z_scope.

(** ** What is called for, and what is due *)

Definition binding (st : Streams) (sf : StreamFrame) : Prop :=
  match sf with
  | SfStream _ _ _ _ | SfDataBlocked _ => False
  | SfResetStream id e z => exists s, snd_in id (streams st) = Some s /\ s_state s = SReset /\ reset_of s = Some (e, z)
  | SfStopSending id e => exists r, rcv_in id (streams st) = Some r /\ r_state r = ROpen /\ stop_of r = Some e
  | SfMaxData v => v = recv_limit (rx st) /\ v <> max_data (cfg st)
  | SfMaxStreamData id m => exists r, rcv_in id (streams st) = Some r /\ r_state r = ROpen /\ r_max_data r = m /\ m <> r_window r
  | SfMaxStreams b m => m = at_kind (kind_index b) (max_streams (rx st)) /\ m <> initial_streams (cfg st) (kind_index b)
  | SfStreamDataBlocked id l => exists s, snd_in id (streams st) = Some s /\ sending s = true /\ s_blocked_sent s = Some l /\ s_max_data s = l
  | SfStreamsBlocked b l => at_kind (kind_index b) (open_blocked (tx st)) = true /\ l = at_kind (kind_index b) (peer_max_streams (tx st))
  end.

Definition waiting (st : Streams) (sf : StreamFrame) : Prop :=
  match sf with
  | SfStream _ _ _ _ => False
  | SfResetStream id e z => contains_key id (control st) = true /\ exists s, snd_in id (streams st) = Some s /\ s_reset s = Some (mk_reset e z true)
  | SfStopSending id e => contains_key id (control st) = true /\ exists r, rcv_in id (streams st) = Some r /\ r_state r = ROpen /\ r_stop r = Some (mk_stop e true)
  | SfMaxData v => v = recv_limit (rx st) /\ max_data_pending (due st) = true
  | SfMaxStreamData id m => contains_key id (control st) = true /\ exists r, rcv_in id (streams st) = Some r /\ r_state r = ROpen /\ r_max_data r = m /\ r_max_data_pending r = true
  | SfMaxStreams b m => m = at_kind (kind_index b) (max_streams (rx st)) /\ at_kind (kind_index b) (max_streams_pending (due st)) = true
  | SfDataBlocked v => v = send_max_data (tx st) /\ data_blocked_pending (due st) = true /\ parked st <> []
  | SfStreamDataBlocked id l => contains_key id (control st) = true /\ exists s, snd_in id (streams st) = Some s /\ s_blocked_sent s = Some l /\ s_blocked_pending s = true
  | SfStreamsBlocked b l => l = at_kind (kind_index b) (peer_max_streams (tx st)) /\ at_kind (kind_index b) (open_blocked (tx st)) = true /\ at_kind (kind_index b) (streams_blocked_pending (due st)) = true
  end.

(** What was said of limits that hold us back is not beyond them. *)
Definition low (s : Send) : Prop := forall l, s_blocked_sent s = Some l -> l <= s_max_data s.

Record fair (st : Streams) : Prop := mk_fair {
  fa_send : forall id s, snd_in id (streams st) = Some s -> low s;
  fa_streams : forall k l, k = 0 \/ k = 1 -> at_kind k (streams_blocked_sent (due st)) = Some l ->
    l <= at_kind k (peer_max_streams (tx st)) /\ (l = at_kind k (peer_max_streams (tx st)) -> at_kind k (open_blocked (tx st)) = true);
  fa_peer : peer st = None -> forall k, k = 0 \/ k = 1 -> at_kind k (streams_blocked_sent (due st)) = None /\ at_kind k (open_blocked (tx st)) = false;
}.

(** DATA_BLOCKED is due from when the limit is recorded. *)
Definition due_still (st st' : Streams) : Prop :=
  (data_blocked_pending (due st) = true -> data_blocked_pending (due st') = true) /\
  (data_blocked_sent (due st') = data_blocked_sent (due st) \/
   data_blocked_sent (due st') = Some (send_max_data (tx st')) /\ data_blocked_pending (due st') = true).

(** A change after which what is called for is due, or was called for before
    and is due if it was. *)
Record heard (st st' : Streams) : Prop := mk_heard {
  he_fair : fair st -> fair st';
  he_bind : fair st -> forall sf, binding st' sf -> binding st sf /\ (waiting st sf -> waiting st' sf) \/ waiting st' sf;
  he_due : due_still st st';
}.

(** ... and that leaves the peer's limit of the connection. *)
Record calm (st st' : Streams) : Prop := mk_calm {
  ca_heard : heard st st';
  ca_max : send_max_data (tx st') = send_max_data (tx st);
}.

Lemma calm_refl st : calm st st.
Proof. split; [|done]. split; [done|auto|]. split; [done|by left]. Qed.

Lemma heard_calm st1 st2 st3 : heard st1 st2 -> calm st2 st3 -> heard st1 st3.
Proof.
  intros [F1 B1 [P1 D1]] [[F2 B2 [P2 D2]] Hm]. split; [auto| |].
  - intros Hf sf H3. destruct (B2 (F1 Hf) sf H3) as [[H2 W2]|]; [|by right]. destruct (B1 Hf sf H2) as [[H1 W1]|]; [left|right]; auto.
  - split; [auto|]. destruct D2 as [->|D2]; [|by right]. rewrite Hm. destruct D1 as [D1|[D1 D1']]; [by left|right; auto].
Qed.

Lemma calm_trans st1 st2 st3 : calm st1 st2 -> calm st2 st3 -> calm st1 st3.
Proof. intros [H1 M1] H2. split; [by eapply heard_calm|]. rewrite (ca_max _ _ H2). done. Qed.

(** ** Changes *)

(** The connection's own frames stay as they are. *)
Record conn_still (st st' : Streams) : Prop := mk_conn_still {
  cs_cfg : cfg st' = cfg st /\ peer st' = peer st;
  cs_rx : recv_limit (rx st') = recv_limit (rx st) /\ max_streams (rx st') = max_streams (rx st);
  cs_tx : open_blocked (tx st') = open_blocked (tx st) /\ peer_max_streams (tx st') = peer_max_streams (tx st) /\ send_max_data (tx st') = send_max_data (tx st);
  cs_due : max_data_pending (due st') = max_data_pending (due st) /\ max_streams_pending (due st') = max_streams_pending (due st) /\
    streams_blocked_sent (due st') = streams_blocked_sent (due st) /\ streams_blocked_pending (due st') = streams_blocked_pending (due st);
  cs_still : due_still st st';
}.

Lemma due_same st st' : due st' = due st -> due_still st st'.
Proof. intros E. unfold due_still. rewrite E. auto. Qed.

Lemma still_due st st' : cfg st' = cfg st /\ peer st' = peer st -> recv_limit (rx st') = recv_limit (rx st) /\ max_streams (rx st') = max_streams (rx st) ->
  open_blocked (tx st') = open_blocked (tx st) /\ peer_max_streams (tx st') = peer_max_streams (tx st) /\ send_max_data (tx st') = send_max_data (tx st) ->
  due st' = due st -> conn_still st st'.
Proof. intros H1 H2 H3 E. split; [done|done|done|by rewrite E|by apply due_same]. Qed.

#[export] Hint Extern 1 (conn_still _ _) => solve [apply still_due; done] : core.
#[export] Hint Extern 1 (due_still _ _) => solve [by apply due_same] : core.

(** What one side of a stream calls for, with the stream noted or not. *)
Record send_heard (noted : bool) (s s' : Send) : Prop := mk_send_heard {
  sh_low : low s -> low s';
  sh_reset : s_state s' = SReset -> forall x, s_reset s' = Some x -> s_state s = SReset /\ s_reset s = Some x \/ rs_pending x = true /\ noted = true;
  sh_blocked : low s -> sending s' = true -> s_blocked_sent s' = Some (s_max_data s') ->
    sending s = true /\ s_blocked_sent s = s_blocked_sent s' /\ s_max_data s = s_max_data s' /\ (s_blocked_pending s = true -> s_blocked_pending s' = true) \/
    s_blocked_pending s' = true /\ noted = true;
}.

Record recv_heard (noted : bool) (r r' : Recv) : Prop := mk_recv_heard {
  rh_stop : r_state r' = ROpen -> forall x, r_stop r' = Some x -> r_state r = ROpen /\ r_stop r = Some x \/ st_pending x = true /\ noted = true;
  rh_max : r_state r' = ROpen -> r_max_data r' <> r_window r' ->
    r_state r = ROpen /\ r_max_data r = r_max_data r' /\ r_window r = r_window r' /\ (r_max_data_pending r = true -> r_max_data_pending r' = true) \/
    r_max_data_pending r' = true /\ noted = true;
}.

(** The sides of the streams of [st'] are sides of [st], or new. *)
Record sides_heard (st st' : Streams) : Prop := mk_sides_heard {
  sd_control : forall id, is_Some (BTree.get id (streams st')) -> contains_key id (control st) = true -> contains_key id (control st') = true;
  sd_send : forall id s', snd_in id (streams st') = Some s' ->
    (exists s, snd_in id (streams st) = Some s /\ send_heard (contains_key id (control st')) s s') \/ s_blocked_sent s' = None /\ s_state s' = SOpen;
  sd_recv : forall id r', rcv_in id (streams st') = Some r' ->
    (exists r, rcv_in id (streams st) = Some r /\ recv_heard (contains_key id (control st')) r r') \/ r_stop r' = None /\ r_max_data r' = r_window r';
}.

(** The frames that are of a stream. *)
Definition of_stream (sf : StreamFrame) : Prop :=
  match sf with SfResetStream _ _ _ | SfStopSending _ _ | SfMaxStreamData _ _ | SfStreamDataBlocked _ _ => True | _ => False end.

Lemma snd_some id m s : snd_in id m = Some s -> is_Some (BTree.get id m).
Proof. intros (x & H & _)%snd_get. by exists x. Qed.

Lemma rcv_some id m r : rcv_in id m = Some r -> is_Some (BTree.get id m).
Proof. intros (x & H & _)%rcv_get. by exists x. Qed.

#[export] Hint Resolve snd_some rcv_some : core.

Lemma sides_bind st st' sf : (forall id s, snd_in id (streams st) = Some s -> low s) -> sides_heard st st' -> of_stream sf ->
  binding st' sf -> binding st sf /\ (waiting st sf -> waiting st' sf) \/ waiting st' sf.
Proof.
  intros Hlow [Hc Hs Hr] Hof H. destruct sf as [|id e z|id e| |id m| | |id l|]; try done; cbn [binding waiting] in *.
  - destruct H as (s' & H1 & H2 & (x & Hx & [= -> ->])%reset_of_some). destruct (Hs id s' H1) as [(s & H3 & [_ K _])|[_ K]]; [|congruence].
    destruct (K H2 x Hx) as [[K1 K2]|[K1 K2]].
    + left. split; [exists s; split; [done|]; split; [done|]; apply reset_of_some; by exists x|]. intros [W1 (s0 & W2 & W3)]. split; [by eapply Hc; eauto|]. exists s'. split; [done|]. congruence.
    + right. split; [done|]. exists s'. split; [done|]. rewrite Hx. f_equal. destruct x. by cbn in *; subst.
  - destruct H as (r' & H1 & H2 & H3). unfold stop_of in H3. destruct (r_stop r') as [x|] eqn:Hx; [|done]. injection H3 as <-. destruct (Hr id r' H1) as [(r & H4 & [K _])|[K _]]; [|congruence].
    destruct (K H2 x Hx) as [[K1 K2]|[K1 K2]].
    + left. split; [exists r; split; [done|]; split; [done|]; unfold stop_of; by rewrite K2|]. intros [W1 (r0 & W2 & W3 & W4)]. split; [by eapply Hc; eauto|]. exists r'. split; [done|]. split; [done|]. congruence.
    + right. split; [done|]. exists r'. split; [done|]. split; [done|]. rewrite Hx. f_equal. destruct x. by cbn in *; subst.
  - destruct H as (r' & H1 & H2 & H3 & H4). destruct (Hr id r' H1) as [(r & H5 & [_ K])|[_ K]]; [|congruence]. destruct (K H2 ltac:(congruence)) as [(K1 & K2 & K3 & K4)|[K1 K2]].
    + left. split; [exists r; split_and!; congruence|]. intros [W1 (r0 & W2 & W3 & W4 & W5)]. split; [by eapply Hc; eauto|]. exists r'. split_and!; try done. apply K4. congruence.
    + right. split; [done|]. exists r'. split_and!; done.
  - destruct H as (s' & H1 & H2 & H3 & H4). destruct (Hs id s' H1) as [(s & H5 & [_ _ K])|[K _]]; [|congruence]. destruct (K (Hlow id s H5) H2 ltac:(congruence)) as [(K1 & K2 & K3 & K4)|[K1 K2]].
    + left. split; [exists s; split_and!; congruence|]. intros [W1 (s0 & W2 & W3 & W4)]. split; [by eapply Hc; eauto|]. exists s'. split_and!; try done. apply K4. congruence.
    + right. split; [done|]. exists s'. split_and!; done.
Qed.

Lemma sides_fair st st' : sides_heard st st' -> (forall id s, snd_in id (streams st) = Some s -> low s) -> forall id s, snd_in id (streams st') = Some s -> low s.
Proof.
  intros [_ Hs _] Hlow id s' H. destruct (Hs id s' H) as [(s & H1 & [K _ _])|[K _]]; [by eapply K, Hlow|]. intros l Hl. congruence.
Qed.

(** The streams change, and nothing of the connection's. *)
Lemma sides_calm st st' : conn_still st st' -> sides_heard st st' -> calm st st'.
Proof.
  intros [[E1 E2] [E3 E4] (E5 & E6 & E7) (E8 & E9 & E10 & E11) Hd] Hs. split; [|done]. split; [| |done].
  - intros [F1 F2 F3]. split; rewrite ?E2, ?E5, ?E6, ?E10; try done. by eapply sides_fair.
  - intros [F1 F2 F3] sf H. destruct sf as [| | |v| |b m|v| |b l]; try (by apply sides_bind); try done; left; cbn [binding waiting] in *;
      rewrite ?E1, ?E3, ?E4, ?E5, ?E6, ?E8, ?E9, ?E11 in *; done.
Qed.

Lemma send_heard_refl b s : send_heard b s s.
Proof. split; auto 10. Qed.

Lemma recv_heard_refl b r : recv_heard b r r.
Proof. split; auto 10. Qed.

#[export] Hint Resolve send_heard_refl recv_heard_refl : core.

(** The fields that the frames of a sending side are about. *)
Definition send_quiet (s s' : Send) : Prop :=
  (s_state s' = SReset -> s_state s = SReset) /\ (sending s' = true -> sending s = true) /\ s_reset s' = s_reset s /\ s_max_data s' = s_max_data s /\
  s_blocked_sent s' = s_blocked_sent s /\ s_blocked_pending s' = s_blocked_pending s.

Lemma quiet_send b s s' : send_quiet s s' -> send_heard b s s'.
Proof.
  intros (E1 & E2 & E3 & E4 & E5 & E6). split; unfold low; rewrite ?E3, ?E4, ?E5, ?E6; auto 10.
Qed.

Definition recv_quiet (r r' : Recv) : Prop :=
  (r_state r' = ROpen -> r_state r = ROpen) /\ r_stop r' = r_stop r /\ r_max_data r' = r_max_data r /\ r_window r' = r_window r /\ r_max_data_pending r' = r_max_data_pending r.

Lemma quiet_recv b r r' : recv_quiet r r' -> recv_heard b r r'.
Proof. intros (E1 & E2 & E3 & E4 & E5). split; rewrite ?E2, ?E3, ?E4, ?E5; auto 10. Qed.

(** A side that is reset or done calls for nothing of its data. *)
Lemma closed_recv b r r' : r_state r' <> ROpen -> recv_heard b r r'.
Proof. intros H. by split; intros. Qed.

Definition grows (st st' : Streams) : Prop := forall id, contains_key id (control st) = true -> contains_key id (control st') = true.

Lemma grows_same st st' : control st' = control st -> grows st st'.
Proof. intros E id. by rewrite E. Qed.

Lemma grows_note id st st' : control st' = BTree.insert id tt (control st) -> grows st st'.
Proof. intros E id'. rewrite E, contains_insert. intros ->. by rewrite orb_true_r. Qed.

#[export] Hint Extern 1 (grows _ _) => solve [by apply grows_same | by eapply grows_note] : core.

Lemma noted id m : contains_key id (BTree.insert id tt m) = true.
Proof. by rewrite contains_insert, Z.eqb_refl. Qed.

Lemma calm_same st st' : conn_still st st' -> streams st' = streams st -> grows st st' -> calm st st'.
Proof. intros Hc Hs Hg. apply sides_calm; [done|]. split; rewrite ?Hs; eauto. Qed.

Lemma calm_send st st' id s s' : snd_in id (streams st) = Some s -> conn_still st st' -> streams st' = set_send id s' (streams st) -> grows st st' ->
  send_heard (contains_key id (control st')) s s' -> calm st st'.
Proof.
  intros Hs Hc Hst Hg Hh. apply sides_calm; [done|]. split; rewrite ?Hst; [auto| |].
  - intros id' s1. rewrite snd_set_send by eauto. destruct (Z.eqb_spec id' id) as [->|]; [intros [= <-]|]; left; eauto.
  - intros id' r. rewrite rcv_set_send. left. eauto.
Qed.

Lemma calm_recv st st' id r r' : rcv_in id (streams st) = Some r -> conn_still st st' -> streams st' = set_recv id r' (streams st) -> grows st st' ->
  recv_heard (contains_key id (control st')) r r' -> calm st st'.
Proof.
  intros Hr Hc Hst Hg Hh. apply sides_calm; [done|]. split; rewrite ?Hst; [auto| |].
  - intros id' s. rewrite snd_set_recv. left. eauto.
  - intros id' r1. rewrite rcv_set_recv by eauto. destruct (Z.eqb_spec id' id) as [->|]; [intros [= <-]|]; left; eauto.
Qed.

Lemma calm_put_send st id s s' : send_of id st = Some s -> send_quiet s s' -> calm st (put_send id s' st).
Proof. intros Hs Hq. rewrite put_send_streams. eapply (calm_send st _ id s s'); auto. by apply quiet_send. Qed.

Lemma calm_put_recv st id r r' : recv_of id st = Some r -> (forall b, recv_heard b r r') -> calm st (put_recv id r' st).
Proof. intros Hr Hq. rewrite put_recv_streams. eapply (calm_recv st _ id r r'); auto. Qed.

(** A new stream. *)
Lemma calm_add st st' id x : conn_still st st' -> streams st' = BTree.insert id x (streams st) -> grows st st' ->
  (forall s, st_send x = Some s -> exists m, s = new_send m) -> (forall r, st_recv x = Some r -> exists w, r = new_recv w) -> calm st st'.
Proof.
  intros Hc Hst Hg Hs Hr. apply sides_calm; [done|]. split; rewrite ?Hst; [auto| |].
  - intros id' s. unfold snd_in. rewrite get_insert. destruct (id' =? id); [|left; eauto]. cbn. intros H. apply Hs in H as [m ->]. by right.
  - intros id' r. unfold rcv_in. rewrite get_insert. destruct (id' =? id); [|left; eauto]. cbn. intros H. apply Hr in H as [w ->]. by right.
Qed.

(** A stream that is forgotten. *)
Lemma calm_gone st st' id : conn_still st st' -> streams st' = BTree.remove id (streams st) -> control st' = BTree.remove id (control st) -> calm st st'.
Proof.
  intros Hc Hst Hctl. apply sides_calm; [done|].
  assert (Hne : forall id', is_Some (BTree.get id' (streams st')) -> id' <> id /\ BTree.get id' (streams st') = BTree.get id' (streams st)).
  { intros id' H. rewrite Hst, get_remove in *. destruct (Z.eqb_spec id' id); [by destruct H|done]. }
  split.
  - intros id' H Hin. destruct (Hne id' H) as [Hn _]. rewrite Hctl, contains_remove, Hin. by rewrite (proj2 (Z.eqb_neq _ _)).
  - intros id' s Hs. destruct (Hne id') as [_ E]; [eauto|]. unfold snd_in in *. rewrite E in Hs. left. eauto.
  - intros id' r Hr. destruct (Hne id') as [_ E]; [eauto|]. unfold rcv_in in *. rewrite E in Hr. left. eauto.
Qed.

(** ** What the calls share *)

Lemma grow_connection_calm st : calm st (grow_connection_window st).
Proof.
  unfold grow_connection_window. cbn zeta. destruct (_ && _); [|apply calm_refl]. set (st' := with_due _ _). split; [|done]. split; [| |split; auto].
  - intros [F1 F2 F3]. split; try done.
  - intros _ sf H. destruct sf as [| | |v| |b m|v| |b l]; try (left; done). right. split; [apply H|done].
Qed.

Lemma grow_stream_limit_calm k st : k = 0 \/ k = 1 -> calm st (grow_stream_limit k st).
Proof.
  intros Hk. unfold grow_stream_limit. cbn zeta. destruct (_ <=? _); [|apply calm_refl]. set (st' := with_due _ _). split; [|done]. split; [| |split; auto].
  - intros [F1 F2 F3]. split; try done.
  - intros _ sf H. destruct sf as [| | |v| |b m|v| |b l]; try (left; done). assert (Hkb := kind_index_range b).
    assert (Hm := fun a => at_put k (kind_index b) a (max_streams (rx st)) Hk Hkb). assert (Hp := at_put k (kind_index b) true (max_streams_pending (due st)) Hk Hkb).
    cbn [binding waiting] in *. unfold st' in *. cbn in *. rewrite Hm in *. rewrite Hp. destruct (kind_index b =? k).
    + right. split; [apply H|done].
    + by left.
Qed.

Lemma cleanup_calm id st : calm st (cleanup id st).
Proof.
  unfold cleanup. destruct (BTree.get id (streams st)) as [x|]; [|apply calm_refl]. destruct (negb (over x)); [apply calm_refl|]. cbn zeta. set (st1 := with_parked _ _).
  assert (H : calm st st1) by (apply (calm_gone st st1 id); auto). destruct (Bool.eqb _ _); [done|]. eapply calm_trans; [exact H|]. eapply calm_trans; [|apply grow_stream_limit_calm, kind_range].
  apply calm_same; auto.
Qed.

Lemma after_consume_calm id n st : calm st (after_consume id n st).
Proof.
  unfold after_consume. cbn zeta. eapply calm_trans; [|apply grow_connection_calm]. eapply calm_trans; [apply (calm_same st (consume n st)); auto|].
  destruct (recv_of id (consume n st)) as [r|] eqn:Hr; [|apply calm_refl]. case_if; [|apply calm_refl]. case_if; [|apply calm_refl]. rewrite put_recv_streams. unfold note.
  eapply (calm_recv _ _ id r); [exact Hr|auto|done|auto|]. cbn [control with_control]. rewrite noted. split; auto.
Qed.

Lemma drain_calm id st : calm st (drain id st).
Proof.
  unfold drain. destruct (recv_of id st) as [r|] eqn:Hr; [|apply calm_refl]. case_if; [apply calm_refl|]. destruct (Reassembly.discard (r_buf r)) as [n b]. cbn zeta.
  set (r1 := if bool_decide _ then r_with_state _ _ else _).
  assert (Hput : calm st (put_recv id r1 st)) by (eapply (calm_put_recv st id r r1); [done|]; intros b0; apply quiet_recv; unfold r1; case_if; done).
  clearbody r1. case_match; [eapply calm_trans; [|apply cleanup_calm]|]; (eapply calm_trans; [exact Hput|apply after_consume_calm]).
Qed.

Lemma do_reset_calm id error st : calm st (do_reset id error st).
Proof.
  unfold do_reset. destruct (send_of id st) as [s|] eqn:Hs; [|apply calm_refl]. cbn zeta. rewrite put_send_streams. unfold note.
  eapply (calm_send st _ id s); [exact Hs|by destruct (s_queued s); auto|by destruct (s_queued s)|by destruct (s_queued s); auto|].
  cbn [control with_control]. rewrite noted. split; [by intros H l Hl; apply H|right|by intros]. split; [|done]. by injection H0 as <-.
Qed.

Lemma schedule_calm id st : calm st (schedule id st).
Proof.
  unfold schedule. destruct (send_of id st) as [s|] eqn:Hs; [|apply calm_refl]. destruct (s_queued s); [apply calm_refl|]. cbn zeta.
  assert (Hput : forall st' s', conn_still st st' -> streams st' = set_send id s' (streams st) -> control st' = control st -> send_quiet s s' -> calm st st').
  { intros st' s' H1 H2 H3 H4. eapply (calm_send st st' id s s'); auto. by apply quiet_send. }
  assert (Hsame : forall st', conn_still st st' -> streams st' = streams st -> control st' = control st -> calm st st') by (intros; apply calm_same; auto).
  assert (Hdue : forall d, max_data_pending d = max_data_pending (due st) /\ max_streams_pending d = max_streams_pending (due st) /\
      streams_blocked_sent d = streams_blocked_sent (due st) /\ streams_blocked_pending d = streams_blocked_pending (due st) ->
    data_blocked_sent d = Some (send_max_data (tx st)) -> data_blocked_pending d = true -> forall st', conn_still st st' -> conn_still st (with_due d st')).
  { intros d Hd H1 H2 st' [C1 C2 C3 _ _]. split; try done. split; [by rewrite <- H2|]. right. cbn. rewrite H1, H2. by rewrite (proj2 (proj2 C3)). }
  rewrite !put_send_streams. destruct (gate s (conn_room st)), (s_parked s) eqn:Hp; cbn [andb]; rewrite ?Hp.
  all: try (eapply Hput; [auto|done|done|done]).
  1,2: case_match; [by eapply Hput; auto|]; unfold note; eapply (calm_send st _ id s); [done|auto|done|auto|]; cbn [control with_control]; rewrite noted;
    (split; [by intros _ l [= <-]|intros; left; split; auto|by right]).
  - case_match; [apply calm_refl|]. apply Hsame; [by apply Hdue; auto|done|done].
  - case_match; [by eapply Hput; auto|]. eapply Hput; [apply Hdue; auto|done|done|done].
Qed.

(** ** The calls of the application *)

(** We are held back by the limit on streams, which is recorded. *)
Lemma open_held k st st' : k = 0 \/ k = 1 -> peer st <> None -> cfg st' = cfg st /\ peer st' = peer st -> rx st' = rx st -> streams st' = streams st -> control st' = control st ->
  (exists t, tx st' = mk_sending (send_max_data (tx st)) t (peer_max_streams (tx st)) (opened (tx st)) (put_kind k true (open_blocked (tx st)))) ->
  (let limit := at_kind k (peer_max_streams (tx st)) in
   at_kind k (streams_blocked_sent (due st)) = Some limit /\ due st' = due st \/
   due st' = mk_due (max_data_pending (due st)) (max_streams_pending (due st)) (data_blocked_sent (due st)) (data_blocked_pending (due st))
               (put_kind k (Some limit) (streams_blocked_sent (due st))) (put_kind k true (streams_blocked_pending (due st)))) ->
  calm st st'.
Proof.
  intros Hk Hpeer [Ec Ep] Er Es Ectl [t Et] Hd. cbn zeta in Hd.
  assert (Hob : forall k', k' = 0 \/ k' = 1 -> at_kind k' (open_blocked (tx st')) = if k' =? k then true else at_kind k' (open_blocked (tx st))) by (intros; rewrite Et; cbn; by apply at_put).
  assert (Hmx : peer_max_streams (tx st') = peer_max_streams (tx st)) by by rewrite Et.
  split; [|by rewrite Et]. split.
  - intros [F1 F2 F3]. split; rewrite ?Es, ?Ep, ?Hmx; try done. intros k' l Hk' Hl. rewrite Hob by done. destruct Hd as [[H1 H2]|H2]; rewrite H2 in Hl.
    + destruct (F2 k' l Hk' Hl). split; [done|]. case_match; auto.
    + cbn in Hl. rewrite at_put in Hl by done. destruct (Z.eqb_spec k' k) as [->|]; [|by apply F2]. injection Hl as <-. split; [lia|done].
  - intros [F1 F2 F3] sf H. destruct sf as [| | |v| |b m|v| |b l]; try (left; cbn [binding waiting] in *; rewrite ?Ec, ?Er, ?Es, ?Ectl in *; done).
    1,2: left; cbn [binding waiting] in *; rewrite ?Ec, ?Er, ?Es in *; split; [done|]; destruct Hd as [[_ ->]| ->]; done.
    assert (Hkb := kind_index_range b). cbn [binding waiting] in *. rewrite Hob, Hmx in * by done. destruct (Z.eqb_spec (kind_index b) k) as [<-|Hne]; cycle 1.
    { left. split; [done|]. intros (W1 & W2 & W3). split_and!; [done|done|]. destruct Hd as [[_ ->]| ->]; [done|]. cbn. rewrite at_put by done. by rewrite (proj2 (Z.eqb_neq _ _)). }
    destruct H as [_ ->]. destruct Hd as [[H1 ->]| ->].
    + left. destruct (F2 _ _ Hkb H1) as [_ H2]. split; [auto|]. by intros (_ & _ & W3).
    + right. split_and!; [done|done|]. cbn. by rewrite at_put, Z.eqb_refl.
  - destruct Hd as [[_ E]|E]; [by apply due_same|]. unfold due_still. rewrite E. auto.
Qed.

Lemma open_calm b st : calm st (snd (open b st)).
Proof.
  unfold open. destruct (peer st) as [p|] eqn:Hp; [|apply calm_refl]. cbn zeta. set (k := kind_index b). assert (Hk : k = 0 \/ k = 1) by apply kind_index_range.
  destruct (_ <=? _); cbn [snd].
  - apply (open_held k); try done; try (by rewrite Hp); try (by case_match); [by eexists; case_match|]. cbn zeta. case_bool_decide as H; [by left|by right].
  - set (id := make_id _ _ _). apply (calm_add st _ id (mk_stream (Some (new_send (if b then pl_bidi_remote p else pl_uni p))) (if b then Some (new_recv (bidi_local (cfg st))) else None))); auto.
    + intros s [= <-]. eauto.
    + intros r. destruct b; [|done]. intros [= <-]. eauto.
Qed.

Lemma write_calm id d f st : calm st (snd (Streams.write id d f st)).
Proof.
  unfold Streams.write. destruct (send_of id st) as [s|] eqn:Hs; [|apply calm_refl]. destruct (bool_decide_reflect (s_state s = SOpen)) as [Ho|]; cbn [negb]; [|apply calm_refl].
  destruct (_ && _); [by eapply calm_put_send|]. destruct (SendBuf.write _ _) as [b|e]; cbn [snd]; [|apply calm_refl]. eapply calm_trans; [|apply schedule_calm].
  eapply calm_put_send; [done|]. unfold send_quiet, sending. destruct (_ <? _); [|destruct f]; cbn; rewrite ?Ho; done.
Qed.

Lemma read_calm id cap st : calm st (snd (Streams.read id cap st)).
Proof.
  unfold Streams.read. destruct (recv_of id st) as [r|] eqn:Hr; [|apply calm_refl].
  assert (Hput : forall r', recv_quiet r r' \/ r_state r' <> ROpen -> calm st (put_recv id r' st)).
  { intros r' H. eapply calm_put_recv; [done|]. intros b. destruct H; [by apply quiet_recv|by apply closed_recv]. }
  destruct (r_state r) eqn:Ho; try apply calm_refl.
  - destruct (r_discard r); [apply calm_refl|]. destruct (Reassembly.read cap (r_buf r)) as [out b]. cbn zeta. destruct (_ && _); cbn [snd]; [apply Hput; by left|].
    set (fin := bool_decide _). set (r1 := if fin then r_with_queued _ _ else _).
    assert (H1 : calm st (after_consume id (len out) (put_recv id r1 st))) by (eapply calm_trans; [apply Hput|apply after_consume_calm]; unfold r1; destruct fin; [by right|left; by case_match]).
    destruct fin; [eapply calm_trans; [exact H1|apply cleanup_calm]|done].
  - eapply calm_trans; [|apply cleanup_calm]. apply Hput. by right.
Qed.

Lemma reset_calm id e st : calm st (snd (reset id e st)).
Proof. unfold reset. destruct (send_of id st) as [s|]; [|apply calm_refl]. cbn [snd]. case_match; [apply do_reset_calm|apply calm_refl]. Qed.

Lemma stop_sending_calm id e st : calm st (snd (stop_sending id e st)).
Proof.
  unfold stop_sending. destruct (recv_of id st) as [r|] eqn:Hr; [|apply calm_refl]. destruct (_ || _); [apply calm_refl|]. cbn [snd]. eapply calm_trans; [|apply drain_calm].
  case_match; [eapply calm_put_recv; [done|]; intros b; by apply quiet_recv|]. rewrite put_recv_streams. unfold note. eapply (calm_recv st _ id r); auto.
  cbn [control with_control]. rewrite noted. split; [intros _ x [= <-]; by right|auto 10].
Qed.

(** ** Frames of the peer *)

Lemma open_loop_calm k index fuel : forall st st', open_loop fuel k index st = Some st' -> calm st st'.
Proof.
  induction fuel as [|fuel IH]; intros st st'; cbn [open_loop]; [done|]. case_match; [|intros [= <-]; apply calm_refl]. intros H1%IH. eapply calm_trans; [|exact H1].
  set (id := make_id _ _ _). eapply (calm_add st _ id); [..|reflexivity| | |]; auto; cbn.
  - intros s. case_match; [|done]. intros [= <-]. eauto.
  - intros r [= <-]. eauto.
Qed.

Lemma opened_remote_calm id st : calm st (snd (opened_remote id st)).
Proof.
  unfold opened_remote, open_remote. cbn zeta. destruct (_ <=? _); [apply calm_refl|]. destruct (open_loop _ _ _ st) as [st'|] eqn:Ho; [|apply calm_refl]. by eapply open_loop_calm.
Qed.

Lemma check_recv_calm id st : calm st (snd (check_recv id st)).
Proof. unfold check_recv. destruct (Bool.eqb _ _); [repeat case_match; apply calm_refl|apply opened_remote_calm]. Qed.

Lemma check_send_calm id st : calm st (snd (check_send id st)).
Proof. unfold check_send. destruct (Bool.eqb _ _); [repeat case_match; apply calm_refl|]. destruct (negb _); [apply calm_refl|apply opened_remote_calm]. Qed.

Lemma when_calm st c k : calm st (snd c) -> (forall st', calm st' (snd (k st'))) -> calm st (snd (when c k)).
Proof. intros Hc Hk. destruct c as [[[]|e] st']; cbn in *; [by eapply calm_trans|done|done]. Qed.

Lemma tell_calm e st : calm st (tell e st).
Proof. apply calm_same; auto. Qed.

Lemma received_calm n st : calm st (received n st).
Proof. apply calm_same; auto. Qed.

Lemma on_stream_calm id o d fin st : calm st (snd (on_stream id o d fin st)).
Proof.
  unfold on_stream. apply when_calm; [apply check_recv_calm|]. clear st. intros st. destruct (recv_of id st) as [r|] eqn:Hr; [|apply calm_refl].
  destruct (negb _); [apply calm_refl|]. cbn zeta. destruct (final_size_error _ _ _); [apply calm_refl|]. do 2 (destruct (_ <? _); [apply calm_refl|]).
  destruct (Reassembly.insert _ _ _ _) as [b|[| |f]]; try apply calm_refl. cbn [snd]. set (r1 := r_with_high _ _). set (r2 := if fin then _ else r1).
  assert (Hq : recv_quiet r r2) by (unfold r2; by destruct fin). clearbody r2. set (st1 := received _ _).
  assert (H1 : calm st st1) by (eapply calm_trans; [|apply received_calm]; eapply calm_put_recv; [done|]; intros b0; by apply quiet_recv).
  case_match; [eapply calm_trans; [exact H1|apply drain_calm]|]. case_match; [|done]. eapply calm_trans; [exact H1|]. eapply calm_trans; [|apply tell_calm].
  eapply (calm_put_recv st1 id r2).
  - change (recv_of id st1) with (rcv_in id (streams (put_recv id r2 st))). rewrite put_recv_streams. cbn. rewrite rcv_set_recv; [by rewrite Z.eqb_refl|]. by exists r.
  - intros b0. by apply quiet_recv.
Qed.

Lemma consume_calm n st : calm st (consume n st).
Proof. apply calm_same; auto. Qed.

Lemma on_reset_stream_calm id e z st : calm st (snd (on_reset_stream id e z st)).
Proof.
  unfold on_reset_stream. apply when_calm; [apply check_recv_calm|]. clear st. intros st. destruct (recv_of id st) as [r|] eqn:Hr; [|apply calm_refl].
  destruct (_ || _); [apply calm_refl|]. destruct (_ <? _); [apply calm_refl|]. cbn zeta. destruct (_ <? _); [apply calm_refl|]. destruct (negb (bool_decide _)); [apply calm_refl|]. cbn [snd].
  assert (Hput : forall r' n, r_state r' <> ROpen -> calm st (put_recv id r' (received n st))).
  { intros r' n H'. eapply calm_trans; [apply (received_calm n)|]. eapply calm_put_recv; [done|]. intros b. by apply closed_recv. }
  assert (Htail : forall n st', calm st st' -> calm st (grow_connection_window (consume n st'))).
  { intros n st' H'. eapply calm_trans; [exact H'|]. eapply calm_trans; [apply (consume_calm n)|apply grow_connection_calm]. }
  destruct (r_discard r); cbn [negb]; [eapply calm_trans; [|apply cleanup_calm]; by apply Htail, Hput|]. apply Htail.
  case_match; [by apply Hput|]. eapply calm_trans; [|apply tell_calm]. by apply Hput.
Qed.

Lemma on_stop_sending_calm id e st : calm st (snd (on_stop_sending id e st)).
Proof.
  unfold on_stop_sending. apply when_calm; [apply check_send_calm|]. clear st. intros st. destruct (send_of id st) as [s|] eqn:Hs; [|apply calm_refl]. cbn [snd].
  case_match; [|apply calm_refl]. eapply calm_trans; [|apply do_reset_calm]. eapply calm_trans; [|apply tell_calm]. by eapply calm_put_send.
Qed.

Lemma on_max_stream_data_calm id m st : calm st (snd (on_max_stream_data id m st)).
Proof.
  unfold on_max_stream_data. apply when_calm; [apply check_send_calm|]. clear st. intros st. destruct (send_of id st) as [s|] eqn:Hs; [|apply calm_refl]. cbn [snd].
  destruct (Z.ltb_spec (s_max_data s) m); [|apply calm_refl]. eapply calm_trans; [|apply schedule_calm]. rewrite put_send_streams. eapply (calm_send st _ id s); auto. split; cbn.
  - intros Hl l Hb. specialize (Hl l Hb). cbn. lia.
  - auto.
  - intros Hl _ Hb. specialize (Hl m Hb). lia.
Qed.

Lemma unpark_calm ids : forall st, calm st (fold_left (fun st id => schedule id match send_of id st with Some s => put_send id (s_with_parked false s) st | None => st end) ids st).
Proof.
  induction ids as [|id ids IH]; intros st; cbn [fold_left]; [apply calm_refl|]. eapply calm_trans; [|apply IH]. eapply calm_trans; [|apply schedule_calm].
  destruct (send_of id st) as [s|] eqn:Hs; [by eapply calm_put_send|apply calm_refl].
Qed.

(** The connection's credit does not matter to the other limits. *)
Lemma tx_heard st t p : open_blocked t = open_blocked (tx st) -> peer_max_streams t = peer_max_streams (tx st) -> heard st (with_parked p (with_tx t st)).
Proof.
  intros E1 E2. split; [| |by apply due_same].
  - intros [F1 F2 F3]. split; cbn; rewrite ?E1, ?E2; done.
  - intros _ sf H. left. destruct sf as [| | |v| |b m|v| |b l]; cbn [binding waiting] in *; cbn in *; rewrite ?E1, ?E2 in *; done.
Qed.

Lemma on_max_data_heard m st : heard st (on_max_data m st).
Proof.
  unfold on_max_data. case_match; [|apply calm_refl]. cbn zeta. eapply heard_calm; [|apply unpark_calm]. by apply tx_heard.
Qed.

Lemma on_max_streams_calm b m st : calm st (on_max_streams b m st).
Proof.
  unfold on_max_streams. set (k := kind_index b). assert (Hk : k = 0 \/ k = 1) by apply kind_index_range. cbn zeta. destruct (Z.ltb_spec (at_kind k (peer_max_streams (tx st))) m) as [Hlt|]; [|apply calm_refl].
  set (st1 := with_tx _ st). assert (H1 : calm st st1); [|destruct (at_kind k (open_blocked _)); [eapply calm_trans; [exact H1|apply tell_calm]|done]].
  assert (Hb : forall k' a, k' = 0 \/ k' = 1 -> at_kind k' (put_kind k a (open_blocked (tx st))) = if k' =? k then a else at_kind k' (open_blocked (tx st))) by (intros; by apply at_put).
  assert (Hm : forall k', k' = 0 \/ k' = 1 -> at_kind k' (put_kind k m (peer_max_streams (tx st))) = if k' =? k then m else at_kind k' (peer_max_streams (tx st))) by (intros; by apply at_put).
  split; [|done]. split; [| |by apply due_same].
  - intros [F1 F2 F3]. split; [done| |].
    + intros k' l Hk' Hl. cbn. rewrite Hb, Hm by done. destruct (F2 k' l Hk' Hl) as [G1 G2]. destruct (Z.eqb_spec k' k) as [->|]; [split; lia|done].
    + intros Hp k' Hk'. cbn. rewrite Hb by done. destruct (F3 Hp k' Hk'). split; [done|]. by case_match.
  - intros _ sf H. left. destruct sf as [| | |v| |b' m'|v| |b' l]; try done. assert (Hk' := kind_index_range b'). cbn [binding waiting] in *. cbn in *. rewrite Hb, Hm in * by done.
    destruct (kind_index b' =? k); [by destruct H|done].
Qed.

Lemma on_frame_heard f st : heard st (snd (on_frame f st)).
Proof.
  destruct f; try apply calm_refl; cbn [on_frame].
  - apply on_reset_stream_calm.
  - apply on_stop_sending_calm.
  - apply on_stream_calm.
  - apply on_max_data_heard.
  - apply on_max_stream_data_calm.
  - apply on_max_streams_calm.
  - apply (when_calm st); [apply check_recv_calm|]. intros st'. apply calm_refl.
Qed.

(** ** The peer's parameters, and what became of the frames *)

Lemma set_peer_params_heard p st : peer st = None -> heard st (set_peer_params p st).
Proof.
  intros Hp. split; [| |by apply due_same].
  - intros [F1 F2 F3]. split; [done| |done]. intros k l Hk Hl. destruct (F3 Hp k Hk) as [E _]. cbn in Hl. congruence.
  - intros [F1 F2 F3] sf H. left. destruct sf as [| | |v| |b m|v| |b l]; try done. cbn in H. destruct (F3 Hp (kind_index b) (kind_index_range b)) as [_ E]. by destruct H; congruence.
Qed.

Lemma poll_event_calm st : calm st (snd (poll_event st)).
Proof. unfold poll_event. destruct (events st); [apply calm_refl|]. apply calm_same; auto. Qed.

Lemma on_acked_calm f st st' : Streams.on_acked f st = Ok st' -> calm st st'.
Proof.
  destruct f as [id o n fn|id e z| | | | | | |]; cbn [Streams.on_acked]; try (intros [= <-]; apply calm_refl).
  - destruct (send_of id st) as [s|] eqn:Hs; [|intros [= <-]; apply calm_refl]. destruct (sending s) eqn:Hl; cbn [negb]; [|intros [= <-]; apply calm_refl].
    destruct (SendBuf.on_acked o n fn (s_buf s)) as [b|]; [|done]. cbn [mbind result_bind]. cbn zeta. set (s1 := if _ && _ then s_with_state _ _ else _). intros [= <-]. eapply calm_trans; [|apply cleanup_calm].
    assert (Hq : forall w, send_quiet s (s_with_write_blocked w s1) /\ send_quiet s s1) by (intros w; unfold s1, send_quiet, sending in *; destruct (_ && _); cbn; by rewrite ?Hl).
    clearbody s1. case_match; [|eapply calm_put_send; [done|apply (Hq true)]]. eapply calm_trans; [|apply tell_calm]. eapply calm_put_send; [done|apply (Hq false)].
  - intros [= <-]. eapply calm_trans; [|apply cleanup_calm]. destruct (send_of id st) as [s|] eqn:Hs; [|apply calm_refl]. case_match; [|apply calm_refl].
    rewrite put_send_streams. eapply (calm_send st _ id s); auto. split; [done|done|done].
Qed.

Lemma due_heard st d : (max_data_pending (due st) = true -> max_data_pending d = true) ->
  (forall k, k = 0 \/ k = 1 -> at_kind k (max_streams_pending (due st)) = true -> at_kind k (max_streams_pending d) = true) ->
  (forall k, k = 0 \/ k = 1 -> at_kind k (streams_blocked_pending (due st)) = true -> at_kind k (streams_blocked_pending d) = true) ->
  (data_blocked_pending (due st) = true -> data_blocked_pending d = true) -> streams_blocked_sent d = streams_blocked_sent (due st) -> data_blocked_sent d = data_blocked_sent (due st) ->
  calm st (with_due d st).
Proof.
  intros H1 H2 H3 H4 H5 H6. split; [|done]. split.
  - intros [F1 F2 F3]. split; cbn; rewrite ?H5; done.
  - intros _ sf H. left. split; [done|]. assert (Hk := kind_index_range). destruct sf; try done; cbn; intros Hw; destruct_and? Hw; split_and?; auto.
  - split; [done|by left].
Qed.

(** What became of a frame sets flags, and puts back what was lost. *)
Lemma on_lost_calm f st st' : Streams.on_lost f st = Ok st' -> calm st st'.
Proof.
  destruct f as [id o n fn|id e z|id e|v|id m|b m|v|id l|b l]; cbn [Streams.on_lost].
  - destruct (send_of id st) as [s|] eqn:Hs; [|intros [= <-]; apply calm_refl]. destruct (sending s) eqn:Hl; cbn [negb]; [|intros [= <-]; apply calm_refl].
    destruct (SendBuf.on_lost o n fn (s_buf s)) as [b|]; [|done]. cbn [mbind result_bind]. intros [= <-]. eapply calm_trans; [by eapply (calm_put_send st id s (s_with_buf b s))|apply schedule_calm].
  - intros [= <-]. destruct (send_of id st) as [s|] eqn:Hs; [|apply calm_refl]. destruct (s_reset s) as [x|] eqn:Hx; [|apply calm_refl]. case_match; [|apply calm_refl].
    rewrite put_send_streams. unfold note. eapply (calm_send st _ id s); auto. cbn [control with_control]. rewrite noted. split; [done|intros _ y [= <-]; by right|auto 10].
  - intros [= <-]. destruct (recv_of id st) as [r|] eqn:Hr; [|apply calm_refl]. destruct (r_stop r) as [x|] eqn:Hx; [|apply calm_refl]. case_match; [|apply calm_refl].
    rewrite put_recv_streams. unfold note. eapply (calm_recv st _ id r); auto. cbn [control with_control]. rewrite noted. split; [intros _ y [= <-]; by right|auto 10].
  - intros [= <-]. case_match; [|apply calm_refl]. by apply due_heard.
  - intros [= <-]. destruct (recv_of id st) as [r|] eqn:Hr; [|apply calm_refl]. case_match; [|apply calm_refl].
    rewrite put_recv_streams. unfold note. eapply (calm_recv st _ id r); auto. cbn [control with_control]. rewrite noted. split; auto 10.
  - intros [= <-]. cbn zeta. case_match; [|apply calm_refl]. assert (Hk := kind_index_range b). apply due_heard; try done. intros k Hk' H'. cbn. rewrite at_put by done. by case_match.
  - intros [= <-]. case_match; [|apply calm_refl]. by apply due_heard.
  - intros [= <-]. destruct (send_of id st) as [s|] eqn:Hs; [|apply calm_refl]. case_match; [|apply calm_refl].
    rewrite put_send_streams. unfold note. eapply (calm_send st _ id s); auto. cbn [control with_control]. rewrite noted. split; [done|intros; left; auto|by right].
  - intros [= <-]. cbn zeta. case_match; [|apply calm_refl]. assert (Hk := kind_index_range b). apply due_heard; try done. intros k Hk' H'. cbn. rewrite at_put by done. by case_match.
Qed.

(** What is called for and is lost is due again. *)
Lemma lost_waiting sf st : binding st sf \/ sf = SfDataBlocked (send_max_data (tx st)) /\ parked st <> [] ->
  exists st', Streams.on_lost sf st = Ok st' /\ waiting st' sf.
Proof.
  intros [H|[-> H]].
  2:{ cbn [Streams.on_lost]. rewrite Z.eqb_refl, bool_decide_eq_false_2 by done. eexists. by split. }
  destruct sf as [|id e z|id e|v|id m|b m|v|id l|b l]; try done; cbn [binding Streams.on_lost] in *.
  - destruct H as (s & H1 & H2 & (x & Hx & [= -> ->])%reset_of_some). change (send_of id st) with (snd_in id (streams st)). rewrite H1, Hx, H2. cbn [bool_decide decide_rel]. rewrite bool_decide_eq_true_2 by done.
    eexists. split; [done|]. rewrite put_send_streams. split; [apply noted|]. cbn. rewrite snd_set_send, Z.eqb_refl by eauto. eexists. split; [done|done].
  - destruct H as (r & H1 & H2 & H3). unfold stop_of in H3. destruct (r_stop r) as [x|] eqn:Hx; [|done]. injection H3 as <-. change (recv_of id st) with (rcv_in id (streams st)). rewrite H1, Hx, bool_decide_eq_true_2 by done.
    eexists. split; [done|]. rewrite put_recv_streams. split; [apply noted|]. cbn. rewrite rcv_set_recv, Z.eqb_refl by eauto. eexists. split; [done|done].
  - destruct H as [-> _]. rewrite Z.eqb_refl. eexists. by split.
  - destruct H as (r & H1 & H2 & H3 & _). change (recv_of id st) with (rcv_in id (streams st)). rewrite H1, bool_decide_eq_true_2, H3, Z.eqb_refl by done. cbn [andb].
    eexists. split; [done|]. rewrite put_recv_streams. split; [apply noted|]. cbn. rewrite rcv_set_recv, Z.eqb_refl by eauto. eexists. split; [done|done].
  - destruct H as [-> _]. cbn zeta. rewrite Z.eqb_refl. eexists. split; [done|]. cbn. by rewrite at_put, Z.eqb_refl by apply kind_index_range.
  - destruct H as (s & H1 & H2 & H3 & H4). change (send_of id st) with (snd_in id (streams st)). rewrite H1, H4, Z.eqb_refl, H2. cbn [andb].
    eexists. split; [done|]. rewrite put_send_streams. split; [apply noted|]. cbn. rewrite snd_set_send, Z.eqb_refl by eauto. eexists. split; [done|done].
  - destruct H as [H1 ->]. cbn zeta. rewrite H1, Z.eqb_refl. cbn [andb]. eexists. split; [done|]. cbn. rewrite at_put, Z.eqb_refl by apply kind_index_range. done.
Qed.

(** ** Packets *)

Lemma put_varint_grows out v out' : put_varint out v = Some out' -> len out <= len out'.
Proof.
  unfold put_varint, put_varint_len. destruct (varint_len v) as [n|]; [|done]. cbn [mbind option_bind]. destruct (negb (_ || _)); [done|]. destruct (negb (n <=? n)); [done|].
  cbn zeta. intros [= <-]. rewrite len_app. match goal with |- _ <= _ + len ?d => assert (Hd := len_nonneg d) end. lia.
Qed.

Lemma put_varints_grows vs : forall out out', put_varints out vs = Some out' -> len out <= len out'.
Proof.
  assert (Hn : forall l, foldl (fun out v => out ← out; put_varint out v) None l = None) by (induction l; done).
  unfold put_varints. induction vs as [|v vs IH]; intros out out'; cbn [foldl mbind option_bind]; [by intros [= <-]|]. destruct (put_varint out v) as [o|] eqn:Hv; [|by rewrite Hn].
  intros H%IH. apply put_varint_grows in Hv. lia.
Qed.

(** The frames that take little room. *)
Definition short (f : Frame) : Prop :=
  match f with
  | ResetStream _ _ _ | StopSending _ _ | MaxData _ | MaxStreamData _ _ | MaxStreams _ _ | DataBlocked _ | StreamDataBlocked _ _ | StreamsBlocked _ _ => True
  | _ => False
  end.

Lemma varint_len_short v n : varint_len v = Some n -> n <= 8.
Proof. unfold varint_len. case_match; [done|]. intros [= <-]. repeat case_match; lia. Qed.

Lemma total_len_short l n : total_len l = Some n -> Forall (fun o => forall m, o = Some m -> m <= 8) l -> n <= 8 * len l.
Proof.
  revert n. induction l as [|o l IH]; intros n; cbn [total_len]; [intros [= <-] _; unfold len; cbn; lia|]. destruct o as [m|]; [|done]. cbn [mbind option_bind].
  destruct (total_len l) as [k|]; [|done]. cbn [mbind option_bind]. intros [= <-] [H1 H2]%Forall_cons. specialize (IH k eq_refl H2). specialize (H1 m eq_refl). unfold len in *. cbn [length]. lia.
Qed.

Lemma short_len f n : short f -> frame_len f = Some n -> n <= 25.
Proof.
  assert (Hv : forall v m, varint_len v = Some m -> m <= 8) by apply varint_len_short.
  assert (Ht : forall vs m, total_len (List.map varint_len vs) = Some m -> m <= 8 * len vs).
  { intros vs m H. replace (len vs) with (len (List.map varint_len vs)) by (unfold len; by rewrite List.length_map). apply (total_len_short _ _ H). apply Forall_forall. intros o (v & -> & _)%list_elem_of_fmap. apply Hv. }
  intros Hs. unfold frame_len. destruct f; try done; cbn [mbind option_bind];
    match goal with
    | |- context [total_len [varint_len ?a; varint_len ?b; varint_len ?c]] => assert (H := Ht [a; b; c]); cbn [List.map] in H; destruct (total_len [_; _; _]) as [k|]
    | |- context [total_len [varint_len ?a; varint_len ?b]] => assert (H := Ht [a; b]); cbn [List.map] in H; destruct (total_len [_; _]) as [k|]
    | |- context [varint_len ?a] => assert (H := Hv a); destruct (varint_len a) as [k|]
    end; try done; cbn [option_bind]; intros [= <-]; specialize (H k eq_refl); unfold len in H; cbn in H; lia.
Qed.

Lemma short_grows f out out' : short f -> Frames.write f out = Some out' -> len out <= len out'.
Proof.
  intros Hs. unfold Frames.write. cbn zeta. destruct f; try done; intros H; (apply put_varints_grows in H || apply put_varint_grows in H); rewrite len_app in H; unfold len at 2 in H; cbn in H; lia.
Qed.

Section packet.
Context (start budget : Z).

(** Less than a frame's room is left. *)
Definition full (w : Writing) : Prop := budget - (len (wr_out w) - start) < 33.

(** The packet gets more. *)
Definition more (w w' : Writing) : Prop := (forall sf, sf ∈ wr_sent w -> sf ∈ wr_sent w') /\ len (wr_out w) <= len (wr_out w').

(** Frames other than those with data: what was due is said, or still due. *)
Record spoken (w w' : Writing) : Prop := mk_spoken {
  sp_more : more w w';
  sp_fair : fair (wr_streams w) -> fair (wr_streams w');
  sp_bind : forall sf, binding (wr_streams w') sf -> binding (wr_streams w) sf;
  sp_wait : forall sf, waiting (wr_streams w) sf -> sf ∈ wr_sent w' \/ waiting (wr_streams w') sf;
  sp_same : parked (wr_streams w') = parked (wr_streams w) /\ tx (wr_streams w') = tx (wr_streams w) /\ data_blocked_sent (due (wr_streams w')) = data_blocked_sent (due (wr_streams w));
  sp_due : data_blocked_pending (due (wr_streams w)) = true -> parked (wr_streams w) <> [] -> SfDataBlocked (send_max_data (tx (wr_streams w))) ∈ wr_sent w' \/ data_blocked_pending (due (wr_streams w')) = true;
}.

(** A frame that was due is said now, unless there is no room. *)
Definition settles (sf : StreamFrame) (w w' : Writing) : Prop := waiting (wr_streams w) sf -> sf ∈ wr_sent w' \/ full w'.

Abbreviation partly m w Q := (wp m w Q (fun (_ : fault) _ => True)).

Lemma more_refl w : more w w.
Proof. by split. Qed.

Lemma more_trans w1 w2 w3 : more w1 w2 -> more w2 w3 -> more w1 w3.
Proof. intros [A1 B1] [A2 B2]. split; [auto|lia]. Qed.

Lemma spoken_refl w : spoken w w.
Proof. split; auto using more_refl. Qed.

Lemma spoken_trans w1 w2 w3 : spoken w1 w2 -> spoken w2 w3 -> spoken w1 w3.
Proof.
  intros [M1 F1 B1 W1 (P1 & T1 & D1) Q1] [M2 F2 B2 W2 (P2 & T2 & D2) Q2]. split; [by eapply more_trans|auto|auto| |split_and!; congruence|].
  - intros sf H. destruct (W1 sf H) as [H1|H1]; [left; by apply M2|auto].
  - intros H1 H2. destruct (Q1 H1 H2) as [H3|H3]; [left; by apply M2|]. rewrite <- T1. apply Q2; [done|by rewrite P1].
Qed.

Lemma full_more w w' : more w w' -> full w -> full w'.
Proof. unfold full. intros [_ H]. lia. Qed.

Lemma settles_more sf w w1 w' : settles sf w w1 -> more w1 w' -> settles sf w w'.
Proof. intros H Hm Hw. destruct (H Hw) as [H1|H1]; [left; by apply Hm|right; by eapply full_more]. Qed.

(** What is said later. *)
Lemma settles_later sf w w1 w' : spoken w w1 -> settles sf w1 w' -> more w1 w' -> settles sf w w'.
Proof. intros Hs H Hm Hw. destruct (sp_wait _ _ Hs sf Hw) as [H1|H1]; [left; by apply Hm|auto]. Qed.

(** [put]: the frame, or no room for it. *)
Lemma put_part f w (Q : bool -> Writing -> Prop) : short f -> (full w -> Q false w) ->
  (forall out, len (wr_out w) <= len out -> Q true (mk_writing (wr_streams w) out (wr_sent w))) -> partly (put start budget f) w Q.
Proof.
  intros Hs H0 H1. unfold put, wp, mbind, stx_bind, xget, xsome, xput. destruct (frame_len f) as [n|] eqn:Hn; [|done].
  destruct (Z.ltb_spec budget (len (wr_out w) - start + n)) as [Hlt|]; [apply H0; unfold full; assert (H := short_len f n Hs Hn); lia|].
  destruct (Frames.write f (wr_out w)) as [out|] eqn:Hw; [|done]. by apply H1, (short_grows f).
Qed.

(** The due frames of the connection change. *)
Lemma due_spoken w w' g : wr_streams w' = with_due (g (due (wr_streams w))) (wr_streams w) -> more w w' ->
  (forall sf, waiting (wr_streams w) sf -> sf ∈ wr_sent w' \/ waiting (wr_streams w') sf) ->
  (forall d, streams_blocked_sent (g d) = streams_blocked_sent d /\ data_blocked_sent (g d) = data_blocked_sent d) -> spoken w w'.
Proof.
  intros E Hm Hwait Hg. destruct (Hg (due (wr_streams w))) as [G1 G2]. split; [done| | |done|by rewrite E|].
  - rewrite E. intros [F1 F2 F3]. split; cbn; rewrite ?G1; done.
  - by rewrite E.
  - intros Hd Hp. destruct (Hwait (SfDataBlocked (send_max_data (tx (wr_streams w))))) as [H|H]; [done|by left|right]. apply H.
Qed.

(** A due frame is put, and its flag is cleared. *)
Lemma put_due_part f sf g w : short f ->
  (forall sf', waiting (wr_streams w) sf' -> sf' = sf \/ waiting (with_due (g (due (wr_streams w))) (wr_streams w)) sf') ->
  (forall d, streams_blocked_sent (g d) = streams_blocked_sent d /\ data_blocked_sent (g d) = data_blocked_sent d) ->
  partly (put_due start budget f sf g) w (fun _ w' => spoken w w' /\ settles sf w w').
Proof.
  intros Hf Hw Hg. unfold put_due. apply wp_bind, put_part; [done| |].
  - intros Hfull. apply wp_ret. split; [apply spoken_refl|]. intros _. by right.
  - intros out Hout. unfold on_due, on_streams, record, wp, mbind, stx_bind, xmod. cbn [wr_streams wr_out wr_sent].
    assert (Hin : sf ∈ wr_sent w ++ [sf]) by (apply elem_of_app; right; by left). split; [|intros _; by left].
    eapply (due_spoken w _ g); [done|split; [|done]; intros sf' H; apply elem_of_app; by left| |done]. intros sf' H. destruct (Hw sf' H) as [->|H']; [by left|by right].
Qed.

Lemma on_due_part g w : (forall sf, waiting (wr_streams w) sf -> waiting (with_due (g (due (wr_streams w))) (wr_streams w)) sf) ->
  (forall d, streams_blocked_sent (g d) = streams_blocked_sent d /\ data_blocked_sent (g d) = data_blocked_sent d) -> partly (on_due g) w (fun _ w' => spoken w w').
Proof. intros Hw Hg. unfold on_due, on_streams, wp, xmod. eapply (due_spoken w _ g); [done|by split|auto|done]. Qed.

Lemma write_max_data_part w : partly (write_max_data start budget) w (fun _ w' => spoken w w' /\ forall v, settles (SfMaxData v) w w').
Proof.
  unfold write_max_data. apply wp_bind. unfold wp at 1. cbn [xget]. destruct (max_data_pending _) eqn:Hp.
  - eapply wp_mono; [apply put_due_part; [done| |done]|cbn; intros _ w' [H1 H2]; split; [done|]; intros v Hv; destruct Hv as [-> Hv]; by apply H2|done].
    intros sf' H. destruct sf' as [| | |v| | | | |]; try (by right). left. by destruct H as [-> _].
  - apply wp_ret. split; [apply spoken_refl|]. intros v [_ H]. congruence.
Qed.

Lemma kind_other k b v p : k = 0 \/ k = 1 -> at_kind (kind_index b) p = true -> kind_index b <> k -> at_kind (kind_index b) (put_kind k v p) = true.
Proof. intros Hk H Hne. rewrite at_put by (done || apply kind_index_range). by rewrite (proj2 (Z.eqb_neq _ _)). Qed.

Lemma kind_bool k b : k = 0 \/ k = 1 -> kind_index b = k -> b = (k =? 0).
Proof. intros Hk. destruct b; cbn; intros <-; done. Qed.

Lemma write_max_streams_part k w : k = 0 \/ k = 1 -> partly (write_max_streams start budget k) w (fun _ w' => spoken w w' /\ forall m, settles (SfMaxStreams (k =? 0) m) w w').
Proof.
  intros Hk. unfold write_max_streams. apply wp_bind. unfold wp at 1. cbn [xget]. cbn zeta. destruct (at_kind k (max_streams_pending _)) eqn:Hp.
  - eapply wp_mono; [apply put_due_part; [done| |done]| |done].
    + intros sf' H. destruct sf' as [| | | | |b m| | |]; try (by right). destruct H as [-> H]. destruct (Z.eq_dec (kind_index b) k) as [E|E]; [left; by rewrite E, (kind_bool k b)|right].
      split; [done|]. by apply kind_other.
    + cbn. intros _ w' [H1 H2]. split; [done|]. intros m Hm. destruct Hm as [-> Hm]. rewrite index_kind in * by done. apply H2. cbn [waiting]. by rewrite !index_kind.
  - apply wp_ret. split; [apply spoken_refl|]. intros m [_ H]. rewrite index_kind in H by done. congruence.
Qed.

Lemma write_streams_blocked_part k w : k = 0 \/ k = 1 -> partly (write_streams_blocked start budget k) w (fun _ w' => spoken w w' /\ forall l, settles (SfStreamsBlocked (k =? 0) l) w w').
Proof.
  intros Hk. unfold write_streams_blocked. apply wp_bind. unfold wp at 1. cbn [xget]. cbn zeta. destruct (at_kind k (streams_blocked_pending _)) eqn:Hp.
  2:{ apply wp_ret. split; [apply spoken_refl|]. intros l (_ & _ & H). rewrite index_kind in H by done. congruence. }
  destruct (at_kind k (open_blocked _)) eqn:Hb; cbn [negb].
  - eapply wp_mono; [apply put_due_part; [done| |done]| |done].
    + intros sf' H. destruct sf' as [| | | | | | | |b l]; try (by right). destruct H as (-> & H1 & H2). destruct (Z.eq_dec (kind_index b) k) as [E|E]; [left; by rewrite E, (kind_bool k b)|right].
      split_and!; [done|done|]. by apply kind_other.
    + cbn. intros _ w' [H1 H2]. split; [done|]. intros l (-> & H3 & H4). rewrite index_kind in * by done. apply H2. cbn [waiting]. by rewrite !index_kind.
  - eapply wp_mono; [apply on_due_part; [|done]| |done].
    + intros sf' H. destruct sf' as [| | | | | | | |b l]; try done. destruct H as (-> & H1 & H2). split_and!; [done|done|]. apply kind_other; [done|done|]. intros E. rewrite E in H1. cbn in H1. congruence.
    + cbn. intros _ w' H. split; [done|]. intros l (_ & H1 & _). rewrite index_kind in H1 by done. congruence.
Qed.

Lemma write_data_blocked_part w : partly (write_data_blocked start budget) w (fun _ w' => spoken w w' /\ forall v, settles (SfDataBlocked v) w w').
Proof.
  unfold write_data_blocked. apply wp_bind. unfold wp at 1. cbn [xget]. cbn zeta. destruct (data_blocked_pending _) eqn:Hp.
  2:{ apply wp_ret. split; [apply spoken_refl|]. intros v (_ & H & _). congruence. }
  case_bool_decide as Hpk.
  - eapply wp_mono; [apply on_due_part; [|done]|cbn; intros _ w' H; split; [done|]; by intros v (_ & _ & H1)|done].
    intros sf' H. destruct sf'; try done. by destruct H as (_ & _ & H).
  - eapply wp_mono; [apply put_due_part; [done| |done]|cbn; intros _ w' [H1 H2]; split; [done|]; intros v Hv; assert (Hv' := Hv); destruct Hv' as [-> _]; by apply H2|done].
    intros sf' H. destruct sf' as [| | | | | |v| |]; try (by right). left. by destruct H as (-> & _).
Qed.

(** *** The frames of a stream *)

Definition stream_of (sf : StreamFrame) : option Z :=
  match sf with SfResetStream id _ _ | SfStopSending id _ | SfMaxStreamData id _ | SfStreamDataBlocked id _ => Some id | _ => None end.

(** A frame of a side was said, or there was no room and its flag is as it was. *)
Definition said_or (w' : Writing) (sf : StreamFrame) (kept : Prop) : Prop := sf ∈ wr_sent w' \/ full w' /\ kept.

Record send_told (id : Z) (m : bool) (w' : Writing) (s s' : Send) : Prop := mk_send_told {
  st_said : said_send s s';
  st_reset : forall e z, s_reset s = Some (mk_reset e z true) -> said_or w' (SfResetStream id e z) (m = true /\ s_reset s' = s_reset s);
  st_blocked : forall l, s_blocked_sent s = Some l -> s_blocked_pending s = true -> said_or w' (SfStreamDataBlocked id l) (m = true /\ s_blocked_pending s' = true);
}.

Record recv_told (id : Z) (m : bool) (w' : Writing) (r r' : Recv) : Prop := mk_recv_told {
  rt_said : said_recv r r';
  rt_stop : forall e, r_state r = ROpen -> r_stop r = Some (mk_stop e true) -> said_or w' (SfStopSending id e) (m = true /\ r_stop r' = r_stop r);
  rt_max : r_state r = ROpen -> r_max_data_pending r = true -> said_or w' (SfMaxStreamData id (r_max_data r)) (m = true /\ r_max_data_pending r' = true);
}.

Lemma said_later w w' sf (P P' : Prop) : more w w' -> (P -> P') -> said_or w sf P -> said_or w' sf P'.
Proof. intros Hm HP [H|[H1 H2]]; [left; by apply Hm|right]. split; [by eapply full_more|auto]. Qed.

Lemma send_told_later id (m m' : bool) w w' s s' : more w w' -> (m = true -> m' = true) -> send_told id m w s s' -> send_told id m' w' s s'.
Proof. intros Hw Hm [H1 H2 H3]. split; [done| |]; intros; (eapply said_later; [exact Hw| |by eauto]); intros []; auto. Qed.

Lemma recv_told_later id (m m' : bool) w w' r r' : more w w' -> (m = true -> m' = true) -> recv_told id m w r r' -> recv_told id m' w' r r'.
Proof. intros Hw Hm [H1 H2 H3]. split; [done| |]; intros; (eapply said_later; [exact Hw| |by eauto]); intros []; auto. Qed.

Lemma put_side_part {A} f sf (done kept : A) w : short f ->
  partly (put_side start budget f sf done kept) w (fun x w' => more w w' /\ wr_streams w' = wr_streams w /\ (x = (done, false) /\ sf ∈ wr_sent w' \/ x = (kept, true) /\ full w')).
Proof.
  intros Hf. unfold put_side. apply wp_bind, put_part; [done| |].
  - intros Hfull. apply wp_ret. split; [apply more_refl|]. auto.
  - intros out Hout. unfold record, wp, mbind, stx_bind, xmod, mret, stx_ret. cbn [wr_streams wr_out wr_sent]. split; [|split; [done|left; split; [done|apply elem_of_app; right; by left]]].
    split; [|done]. intros sf' H. apply elem_of_app. by left.
Qed.

Lemma write_reset_part id s w : partly (write_reset start budget id s) w (fun x w' =>
  more w w' /\ wr_streams w' = wr_streams w /\ said_send s (fst x) /\ s_blocked_pending (fst x) = s_blocked_pending s /\
  forall e z, s_reset s = Some (mk_reset e z true) -> said_or w' (SfResetStream id e z) (snd x = true /\ s_reset (fst x) = s_reset s)).
Proof.
  unfold write_reset. destruct (s_reset s) as [[e z []]|] eqn:Hr; try (apply wp_ret; split; [apply more_refl|]; split; [done|]; split; [apply said_send_refl|]; split; [done|]; intros; congruence).
  eapply wp_mono; [by apply put_side_part| |done]. intros x w' (H1 & H2 & [[-> H3]|[-> H3]]); (split; [done|]; split; [done|]).
  - split; [split; [done|]; unfold reset_of; cbn; by rewrite Hr|]. split; [done|]. intros e' z' [= -> ->]. by left.
  - split; [apply said_send_refl|]. split; [done|]. intros e' z' [= -> ->]. right. cbn [snd fst]. by rewrite Hr.
Qed.

Lemma write_blocked_part id s w : partly (write_blocked start budget id s) w (fun x w' =>
  more w w' /\ wr_streams w' = wr_streams w /\ said_send s (fst x) /\ s_reset (fst x) = s_reset s /\
  forall l, s_blocked_sent s = Some l -> s_blocked_pending s = true -> said_or w' (SfStreamDataBlocked id l) (snd x = true /\ s_blocked_pending (fst x) = true)).
Proof.
  unfold write_blocked. destruct (s_blocked_pending s) eqn:Hp; [|apply wp_ret; split; [apply more_refl|]; split; [done|]; split; [apply said_send_refl|done]].
  eapply wp_mono; [by apply put_side_part| |done]. intros x w' (H1 & H2 & [[-> H3]|[-> H3]]); (split; [done|]; split; [done|]).
  - split; [by split|]. split; [done|]. intros l Hl _. rewrite Hl in H3. by left.
  - split; [apply said_send_refl|]. split; [done|]. intros l Hl _. right. auto.
Qed.

Lemma write_send_side_part id o w : partly (write_send_side start budget id o) w (fun x w' =>
  more w w' /\ wr_streams w' = wr_streams w /\ option_Forall2 (send_told id (snd x) w') o (fst x)).
Proof.
  destruct o as [s|]; cbn [write_send_side]; [|apply wp_ret; split; [apply more_refl|]; split; [done|constructor]].
  apply wp_bind. eapply wp_mono; [apply write_reset_part| |done]. intros [s1 m1] w1 (A1 & A2 & A3 & A4 & A5). cbn [fst snd] in *.
  apply wp_bind. eapply wp_mono; [apply write_blocked_part| |done]. intros [s2 m2] w2 (B1 & B2 & B3 & B4 & B5). cbn [fst snd] in *. apply wp_ret. cbn [fst snd].
  split; [by eapply more_trans|]. split; [congruence|]. constructor. destruct (sd_same _ _ A3) as (_ & _ & _ & E & _). split; [by eapply said_send_trans| |].
  - intros e z H. eapply said_later; [exact B1| |exact (A5 e z H)]. intros [-> H2]. split; [done|congruence].
  - intros l H1 H2. eapply said_later; [apply more_refl| |apply (B5 l); congruence]. intros [-> H4]. split; [apply orb_true_r|done].
Qed.

Lemma write_stop_part id r w : partly (write_stop start budget id r) w (fun x w' =>
  more w w' /\ wr_streams w' = wr_streams w /\ said_recv r (fst x) /\ r_max_data_pending (fst x) = r_max_data_pending r /\
  forall e, r_stop r = Some (mk_stop e true) -> said_or w' (SfStopSending id e) (snd x = true /\ r_stop (fst x) = r_stop r)).
Proof.
  unfold write_stop. destruct (r_stop r) as [[e []]|] eqn:Hr; try (apply wp_ret; split; [apply more_refl|]; split; [done|]; split; [apply said_recv_refl|]; split; [done|]; intros; congruence).
  eapply wp_mono; [by apply put_side_part| |done]. intros x w' (H1 & H2 & [[-> H3]|[-> H3]]); (split; [done|]; split; [done|]).
  - split; [split; [done|]; left; unfold stop_of; cbn; by rewrite Hr|]. split; [done|]. intros e' [= ->]. by left.
  - split; [apply said_recv_refl|]. split; [done|]. intros e' [= ->]. right. cbn [snd fst]. by rewrite Hr.
Qed.

Lemma write_max_stream_data_part id r w : partly (write_max_stream_data start budget id r) w (fun x w' =>
  more w w' /\ wr_streams w' = wr_streams w /\ said_recv r (fst x) /\ r_stop (fst x) = r_stop r /\
  (r_max_data_pending r = true -> said_or w' (SfMaxStreamData id (r_max_data r)) (snd x = true /\ r_max_data_pending (fst x) = true))).
Proof.
  unfold write_max_stream_data. destruct (r_max_data_pending r) eqn:Hp; [|apply wp_ret; split; [apply more_refl|]; split; [done|]; split; [apply said_recv_refl|done]].
  eapply wp_mono; [by apply put_side_part| |done]. intros x w' (H1 & H2 & [[-> H3]|[-> H3]]); (split; [done|]; split; [done|]).
  - split; [split; [done|by left]|]. split; [done|]. intros _. by left.
  - split; [apply said_recv_refl|]. split; [done|]. intros _. right. auto.
Qed.

Lemma write_recv_side_part id o w : partly (write_recv_side start budget id o) w (fun x w' =>
  more w w' /\ wr_streams w' = wr_streams w /\ option_Forall2 (recv_told id (snd x) w') o (fst x)).
Proof.
  destruct o as [r|]; cbn [write_recv_side]; [|apply wp_ret; split; [apply more_refl|]; split; [done|constructor]].
  destruct (settle_said r) as [Hset _]. assert (Hopen : r_state r = ROpen -> settle r = r) by (intros H; unfold settle; by rewrite bool_decide_eq_true_2).
  apply wp_bind. eapply wp_mono; [apply write_stop_part| |done]. intros [r1 m1] w1 (A1 & A2 & A3 & A4 & A5). cbn [fst snd] in *.
  apply wp_bind. eapply wp_mono; [apply write_max_stream_data_part| |done]. intros [r2 m2] w2 (B1 & B2 & B3 & B4 & B5). cbn [fst snd] in *. apply wp_ret. cbn [fst snd].
  split; [by eapply more_trans|]. split; [congruence|]. constructor. assert (A3' := said_recv_trans _ _ _ Hset A3). split; [by eapply said_recv_trans| |].
  - intros e Ho H. rewrite (Hopen Ho) in *. eapply said_later; [exact B1| |exact (A5 e H)]. intros [-> H2]. split; [done|congruence].
  - intros Ho H. rewrite (Hopen Ho) in *. destruct (sr_same _ _ A3) as (_ & E & _). rewrite <- E. eapply said_later; [apply more_refl| |apply B5; congruence].
    intros [-> H4]. split; [apply orb_true_r|done].
Qed.

(** The sides are put back, and the stream is looked at no more when nothing
    of it is due. *)
Lemma sides_spoken w w' id x s' r' (m : bool) : BTree.get id (streams (wr_streams w)) = Some x -> more w w' ->
  wr_streams w' = with_control (if m then control (wr_streams w) else BTree.remove id (control (wr_streams w))) (put_stream id (mk_stream s' r') (wr_streams w)) ->
  option_Forall2 (send_told id m w') (st_send x) s' -> option_Forall2 (recv_told id m w') (st_recv x) r' ->
  spoken w w' /\ forall sf, stream_of sf = Some id -> settles sf w w'.
Proof.
  intros Hx Hm Hst Hs Hr.
  assert (Hsnd : forall id', snd_in id' (streams (wr_streams w')) = if id' =? id then s' else snd_in id' (streams (wr_streams w))).
  { intros id'. rewrite Hst. unfold snd_in. cbn. rewrite get_insert. by destruct (id' =? id). }
  assert (Hrcv : forall id', rcv_in id' (streams (wr_streams w')) = if id' =? id then r' else rcv_in id' (streams (wr_streams w))).
  { intros id'. rewrite Hst. unfold rcv_in. cbn. rewrite get_insert. by destruct (id' =? id). }
  assert (Hctl : forall id', contains_key id' (control (wr_streams w)) = true -> id' <> id \/ m = true -> contains_key id' (control (wr_streams w')) = true).
  { intros id' H Hor. rewrite Hst. cbn. destruct m; [done|]. rewrite contains_remove, H. destruct (Z.eqb_spec id' id); [by destruct Hor|done]. }
  assert (Hrest : cfg (wr_streams w') = cfg (wr_streams w) /\ peer (wr_streams w') = peer (wr_streams w) /\ tx (wr_streams w') = tx (wr_streams w) /\ rx (wr_streams w') = rx (wr_streams w) /\
    due (wr_streams w') = due (wr_streams w) /\ parked (wr_streams w') = parked (wr_streams w)) by (by rewrite Hst). destruct Hrest as (E1 & E2 & E3 & E4 & E5 & E6).
  assert (Hsx : snd_in id (streams (wr_streams w)) = st_send x) by (unfold snd_in; by rewrite Hx). assert (Hrx : rcv_in id (streams (wr_streams w)) = st_recv x) by (unfold rcv_in; by rewrite Hx).
  assert (Hs2 : forall s1, s' = Some s1 -> exists s, snd_in id (streams (wr_streams w)) = Some s /\ said_send s s1) by (intros s1 ->; rewrite Hsx; inversion Hs as [s s2 Ht|]; subst; exists s; split; [done|apply Ht]).
  assert (Hr2 : forall r1, r' = Some r1 -> exists r, rcv_in id (streams (wr_streams w)) = Some r /\ said_recv r r1) by (intros r1 ->; rewrite Hrx; inversion Hr as [r r2 Ht|]; subst; exists r; split; [done|apply Ht]).
  clear Hst.
  assert (Hwait : forall sf, waiting (wr_streams w) sf -> stream_of sf = Some id -> said_or w' sf (waiting (wr_streams w') sf)).
  { intros sf Hw Hid. destruct sf as [|i e z|i e| |i k| | |i l|]; try done; injection Hid as ->; cbn [waiting] in *; rewrite ?Hsnd, ?Hrcv, Z.eqb_refl; destruct Hw as [Hc Hw]; rewrite ?Hsx, ?Hrx in Hw.
    - destruct Hw as (s & H1 & H2). rewrite H1 in Hs. inversion Hs as [s0 s1 Ht|]; subst. eapply said_later; [apply more_refl| |apply (st_reset _ _ _ _ _ Ht e z H2)]. intros [H3 H4]. split; [auto|]. exists s1. split; [done|congruence].
    - destruct Hw as (r & H1 & H2 & H3). rewrite H1 in Hr. inversion Hr as [r0 r1 Ht|]; subst. eapply said_later; [apply more_refl| |apply (rt_stop _ _ _ _ _ Ht e H2 H3)]. intros [H4 H5]. split; [auto|]. exists r1.
      destruct (sr_same _ _ (rt_said _ _ _ _ _ Ht)) as (_ & _ & _ & _ & _ & E). split; [done|]. split; congruence.
    - destruct Hw as (r & H1 & H2 & <- & H3). rewrite H1 in Hr. inversion Hr as [r0 r1 Ht|]; subst. eapply said_later; [apply more_refl| |apply (rt_max _ _ _ _ _ Ht H2 H3)]. intros [H4 H5]. split; [auto|]. exists r1.
      destruct (sr_same _ _ (rt_said _ _ _ _ _ Ht)) as (_ & E & _ & _ & _ & E'). split; [done|]. split; [congruence|]. split; congruence.
    - destruct Hw as (s & H1 & H2 & H3). rewrite H1 in Hs. inversion Hs as [s0 s1 Ht|]; subst. eapply said_later; [apply more_refl| |apply (st_blocked _ _ _ _ _ Ht l H2 H3)]. intros [H4 H5]. split; [auto|]. exists s1.
      destruct (sd_same _ _ (st_said _ _ _ _ _ Ht)) as (_ & _ & _ & E & _). split; [done|]. split; congruence. }
  split; [|intros sf Hid Hw; destruct (Hwait sf Hw Hid) as [H|[H _]]; auto].
  assert (Hother : forall sf, waiting (wr_streams w) sf -> stream_of sf <> Some id -> waiting (wr_streams w') sf).
  { intros sf Hw Hid. destruct sf as [|i e z|i e| |i k| | |i l|]; cbn [waiting] in *; rewrite ?E3, ?E4, ?E5, ?E6; try done; assert (Hne : i <> id) by (intros ->; done); rewrite ?Hsnd, ?Hrcv, (proj2 (Z.eqb_neq _ _)) by done;
      (split; [apply Hctl; [apply Hw|by left]|apply Hw]). }
  split; [done| | | |by rewrite E3, E5, E6|].
  - intros [F1 F2 F3]. split; rewrite ?E2, ?E3, ?E5; try done. intros id' s1. rewrite Hsnd. destruct (Z.eqb_spec id' id) as [->|]; [|by apply F1].
    intros H. destruct (Hs2 s1 H) as (s & H1 & [(_ & G1 & _ & G2 & _) _]). unfold low. rewrite G1, G2. by apply (F1 id).
  - intros sf H. destruct sf as [|i e z|i e|v|i k|b k|v|i l|b l]; cbn [binding] in *; rewrite ?E1, ?E3, ?E4 in *; try done.
    + destruct H as (s1 & H1 & H2 & H3). rewrite Hsnd in H1. destruct (Z.eqb_spec i id) as [->|]; [|by exists s1]. destruct (Hs2 s1 H1) as (s & H4 & [(_ & _ & G & _) G']). exists s. split; [done|]. split; congruence.
    + destruct H as (r1 & H1 & H2 & H3). rewrite Hrcv in H1. destruct (Z.eqb_spec i id) as [->|]; [|by exists r1]. destruct (Hr2 r1 H1) as (r & H4 & [(_ & _ & _ & _ & _ & G) G']). exists r. split; [done|].
      split; [congruence|]. destruct G' as [G'|G']; [congruence|]. unfold stop_of in H3. by rewrite G' in H3.
    + destruct H as (r1 & H1 & H2 & H3 & H5). rewrite Hrcv in H1. destruct (Z.eqb_spec i id) as [->|]; [|by exists r1]. destruct (Hr2 r1 H1) as (r & H4 & [(_ & G1 & G2 & _ & _ & G) _]). exists r. split; [done|]. split_and!; congruence.
    + destruct H as (s1 & H1 & H2 & H3 & H5). rewrite Hsnd in H1. destruct (Z.eqb_spec i id) as [->|]; [|by exists s1]. destruct (Hs2 s1 H1) as (s & H4 & [(_ & G1 & G2 & G3 & _) _]). exists s. unfold sending in *. rewrite G2 in H2. split_and!; (done || congruence).
  - intros sf Hw. destruct (decide (stream_of sf = Some id)) as [Hid|Hid]; [|right; by apply Hother]. destruct (Hwait sf Hw Hid) as [H|[_ H]]; auto.
  - intros Hd _. right. by rewrite E5.
Qed.

Lemma write_control_part id w : partly (write_control start budget id) w (fun _ w' => spoken w w' /\ forall sf, stream_of sf = Some id -> settles sf w w').
Proof.
  unfold write_control. apply wp_bind. unfold wp at 1. cbn [xget]. destruct (BTree.get id (streams (wr_streams w))) as [x|] eqn:Hx.
  - apply wp_bind. eapply wp_mono; [apply write_send_side_part| |done]. intros [s' m1] w1 (A1 & A2 & A3). cbn [fst snd] in *.
    apply wp_bind. eapply wp_mono; [apply write_recv_side_part| |done]. intros [r' m2] w2 (B1 & B2 & B3). cbn [fst snd] in *. assert (E : wr_streams w2 = wr_streams w) by congruence.
    assert (Hs : forall w', more w2 w' -> option_Forall2 (send_told id (m1 || m2) w') (st_send x) s').
    { intros w' Hm. inversion A3; subst; constructor. apply (send_told_later id m1 _ w1); [by eapply more_trans|by intros ->|done]. }
    assert (Hr : forall w', more w2 w' -> option_Forall2 (recv_told id (m1 || m2) w') (st_recv x) r').
    { intros w' Hm. inversion B3; subst; constructor. apply (recv_told_later id m2 _ w2); [done|intros ->; apply orb_true_r|done]. }
    eapply wp_step; [done|]. destruct (m1 || m2) eqn:Hm.
    + apply wp_ret. eapply (sides_spoken w _ id x s' r' true); [done|by eapply more_trans|cbn; rewrite E; by destruct (wr_streams w)|by apply Hs|by apply Hr].
    + unfold forget_control, on_streams, wp, xmod. eapply (sides_spoken w _ id x s' r' false); [done|by eapply more_trans|cbn; by rewrite E|by apply Hs|by apply Hr].
  - assert (Hnone : forall sf, stream_of sf = Some id -> ~ waiting (wr_streams w) sf).
    { intros sf Hid Hw. destruct sf; try done; injection Hid as ->; cbn [waiting] in Hw; destruct Hw as (_ & y & Hy & _); [apply snd_some in Hy|apply rcv_some in Hy|apply rcv_some in Hy|apply snd_some in Hy]; rewrite Hx in Hy; by destruct Hy. }
    unfold forget_control, on_streams, wp, xmod. split; [|intros sf Hid Hw; by destruct (Hnone sf Hid)]. split; [by split|by intros [F1 F2 F3]|done| |done|by right].
    intros sf Hw. right. assert (Hne : stream_of sf <> Some id) by (intros H; by apply (Hnone sf)).
    destruct sf as [|i e z|i e| |i k| | |i l|]; cbn [waiting] in *; try done; (split; [|apply Hw]); cbn; rewrite contains_remove, (proj1 Hw), andb_true_r, negb_true_iff; apply Z.eqb_neq; by intros ->.
Qed.

Lemma for_each_part ids : forall w, partly (for_each (write_control start budget) ids) w (fun _ w' =>
  spoken w w' /\ forall sf id, stream_of sf = Some id -> id ∈ ids -> settles sf w w').
Proof.
  induction ids as [|id ids IH]; intros w; cbn [for_each]; [apply wp_ret; split; [apply spoken_refl|]; by intros sf id _ ?%elem_of_nil|].
  apply wp_bind. eapply wp_mono; [apply write_control_part| |done]. intros [] w1 [H1 H2]. eapply wp_mono; [apply (IH w1)| |done]. intros [] w2 [H3 H4].
  split; [by eapply spoken_trans|]. intros sf id' Hid [->|Hin]%elem_of_cons; [by eapply settles_more; [apply H2|apply H3]|]. eapply settles_later; [exact H1|by eapply H4|apply H3].
Qed.

(** *** The data *)

(** Data is sent: what was said stays said, and the limits are looked at again. *)
Definition sends_on (w w' : Writing) : Prop := more w w' /\ calm (wr_streams w) (wr_streams w').

Lemma sends_refl w : sends_on w w.
Proof. split; [apply more_refl|apply calm_refl]. Qed.

Lemma sends_trans w1 w2 w3 : sends_on w1 w2 -> sends_on w2 w3 -> sends_on w1 w3.
Proof. intros [A1 B1] [A2 B2]. split; [by eapply more_trans|by eapply calm_trans]. Qed.

Lemma requeue_calm id st : calm st (requeue id st).
Proof.
  unfold requeue. set (st1 := with_queue _ st). eapply calm_trans; [|apply schedule_calm]. eapply (calm_trans _ st1); [apply calm_same; auto|].
  destruct (send_of id st1) as [s|] eqn:Hs; [by eapply calm_put_send|apply calm_refl].
Qed.

Lemma stream_header_grows out id o n fin out' : write_stream_header out id o n fin = Some out' -> len out <= len out'.
Proof.
  unfold write_stream_header. cbn zeta. set (out0 := out ++ _). assert (H0 : len out <= len out0) by (unfold out0; rewrite len_app; match goal with |- context [len [?x]] => change (len [x]) with 1 end; lia).
  destruct (put_varint out0 id) as [o1|] eqn:H1; [|done]. apply put_varint_grows in H1. cbn [mbind option_bind].
  destruct (if o =? 0 then Some o1 else put_varint o1 o) as [o2|] eqn:H2; [|done]. cbn [mbind option_bind].
  assert (H2' : len o1 <= len o2) by (destruct (o =? 0); [by injection H2 as <-|by apply put_varint_grows in H2]). destruct n; [intros H3%put_varint_grows; lia|intros [= <-]; lia].
Qed.

Lemma out_mod_part f w : (forall out out', f out = Some out' -> len out <= len out') ->
  partly (out_mod f) w (fun _ w' => more w w' /\ wr_streams w' = wr_streams w).
Proof. intros Hf. unfold out_mod, wp, mbind, stx_bind, xget, xsome, xput. destruct (f (wr_out w)) as [out|] eqn:Ho; [|done]. apply Hf in Ho. by split. Qed.

Lemma lift_part {A} (r : result fault A) w : partly (Streams.lift r) w (fun _ w' => w' = w).
Proof. unfold Streams.lift, wp. by destruct r. Qed.

Lemma write_stream_frame_part id room w : partly (write_stream_frame id room) w (fun _ w' => sends_on w w').
Proof.
  unfold write_stream_frame. apply wp_bind. unfold wp at 1. cbn [xget]. destruct (send_of id (wr_streams w)) as [s|] eqn:Hs; [|apply wp_ret, sends_refl]. cbn zeta.
  destruct (next_offset (s_buf s)) as [o|]; [|apply wp_ret, sends_refl]. destruct (stream_header_len id o None) as [h|] eqn:Hh; [|by unfold wp, mbind, stx_bind, xsome].
  eapply wp_step; [done|]. unfold write_chunk. cbn zeta. do 2 (case_match; [apply wp_ret, sends_refl|]).
  apply wp_bind. eapply wp_mono; [apply lift_part| |done]. intros m w1 ->. apply wp_bind. eapply wp_mono; [apply lift_part| |done]. intros [[c|] b] w1 ->; [|apply wp_ret, sends_refl].
  apply wp_bind. eapply wp_mono; [apply out_mod_part; intros out out'; apply stream_header_grows| |done]. intros [] w2 [M2 E2].
  apply wp_bind. eapply wp_mono; [apply lift_part| |done]. intros d w3 ->.
  apply wp_bind. eapply wp_mono; [apply out_mod_part; intros out out' [= <-]; rewrite len_app; assert (Hd := len_nonneg d); lia| |done]. intros [] w4 [M4 E4].
  eapply wp_step; [done|]. apply wp_ret. assert (Hm : more w w4) by (by eapply more_trans). split; [exact Hm|]. cbn [wr_streams]. rewrite E4, E2. apply (calm_trans _ (put_send id (s_with_buf b s) (wr_streams w))); [by eapply calm_put_send|]. unfold sent_more. rewrite put_send_streams. apply calm_same; auto.
Qed.

Lemma write_data_part fuel : forall w, partly (write_data start budget fuel) w (fun _ w' => sends_on w w').
Proof.
  induction fuel as [|fuel IH]; intros w; cbn [write_data]; [done|]. apply wp_bind. unfold wp at 1. cbn [xget]. cbn zeta. destruct (_ <? 4); [apply wp_ret, sends_refl|].
  destruct (send_queue (wr_streams w)) as [|id q]; [apply wp_ret, sends_refl|].
  assert (Hreq : forall w0 sent, (forall sf, sf ∈ wr_sent w0 -> sf ∈ sent) -> sends_on w0 (mk_writing (requeue id (wr_streams w0)) (wr_out w0) sent)) by (intros; split; [by split|apply requeue_calm]).
  destruct (match send_of id (wr_streams w) with Some s => _ | None => false end).
  - apply wp_bind. eapply wp_mono; [apply write_stream_frame_part| |done]. intros [sf|] w1 H1; [|by apply wp_ret].
    eapply wp_step; [done|]. eapply wp_step; [done|]. eapply wp_mono; [apply IH| |done]. intros [] w2 H2.
    assert (Hmid := Hreq w1 (wr_sent w1 ++ [sf]) ltac:(intros sf' H; apply elem_of_app; by left)). exact (sends_trans _ _ _ H1 (sends_trans _ _ _ Hmid H2)).
  - eapply wp_step; [done|]. eapply wp_mono; [apply IH| |done]. intros [] w2 H2. exact (sends_trans _ _ _ (Hreq w (wr_sent w) ltac:(done)) H2).
Qed.

(** *** The whole packet *)

Lemma frame_kind b (P : bool -> Prop) : P (0 =? 0) -> P (1 =? 0) -> P b.
Proof. by destruct b. Qed.

Lemma write_all_part w : partly (Streams.write_all start budget) w (fun _ w' => exists w1, spoken w w1 /\ (forall sf, settles sf w w1) /\ sends_on w1 w').
Proof.
  unfold Streams.write_all.
  apply wp_bind; eapply wp_mono; [apply write_max_data_part| |done]; intros [] w1 [A1 B1].
  apply wp_bind; eapply wp_mono; [apply write_max_streams_part; auto| |done]; intros [] w2 [A2 B2].
  apply wp_bind; eapply wp_mono; [apply write_streams_blocked_part; auto| |done]; intros [] w3 [A3 B3].
  apply wp_bind; eapply wp_mono; [apply write_max_streams_part; auto| |done]; intros [] w4 [A4 B4].
  apply wp_bind; eapply wp_mono; [apply write_streams_blocked_part; auto| |done]; intros [] w5 [A5 B5].
  apply wp_bind; eapply wp_mono; [apply write_data_blocked_part; auto| |done]; intros [] w6 [A6 B6].
  eapply wp_step; [done|]. apply wp_bind; eapply wp_mono; [apply for_each_part| |done]; intros [] w7 [A7 B7].
  eapply wp_step; [done|]. eapply wp_mono; [apply write_data_part| |done]. intros [] w8 H8. exists w7.
  assert (C6 := spoken_trans _ _ _ A6 A7). assert (C5 := spoken_trans _ _ _ A5 C6). assert (C4 := spoken_trans _ _ _ A4 C5). assert (C3 := spoken_trans _ _ _ A3 C4). assert (C2 := spoken_trans _ _ _ A2 C3).
  assert (D2 := spoken_trans _ _ _ A1 A2). assert (D3 := spoken_trans _ _ _ D2 A3). assert (D4 := spoken_trans _ _ _ D3 A4). assert (D5 := spoken_trans _ _ _ D4 A5). assert (D6 := spoken_trans _ _ _ D5 A6).
  split; [by eapply spoken_trans|]. split; [|exact H8]. intros sf. destruct (stream_of sf) as [id|] eqn:Hid.
  - intros Hw. destruct (sp_wait _ _ D6 sf Hw) as [H|H]; [left; by apply A7|]. apply (B7 sf id Hid); [|done]. apply contains_keys. destruct sf; try done; injection Hid as ->; apply H.
  - destruct sf as [| | |v| |b m|v| |b l]; try done; [by intros Hw; destruct Hw| | | |].
    + eapply settles_more; [apply B1|apply C2].
    + apply (frame_kind b (fun b => settles (SfMaxStreams b m) w w7)); [eapply settles_later; [exact A1|eapply settles_more; [apply B2|apply C3]|apply C2]|eapply settles_later; [exact D3|eapply settles_more; [apply B4|apply C5]|apply C4]].
    + eapply settles_later; [exact D5|eapply settles_more; [apply B6|apply A7]|apply C6].
    + apply (frame_kind b (fun b => settles (SfStreamsBlocked b l) w w7)); [eapply settles_later; [exact D2|eapply settles_more; [apply B3|apply C4]|apply C3]|eapply settles_later; [exact D4|eapply settles_more; [apply B5|apply C6]|apply C5]].
Qed.
End packet.

(** A packet says what is due, or has no room left; and what it leaves called
    for was said in it, or is due, or was called for before. *)
Lemma write_frames_told out budget st st' out' sfs : write_frames out budget [] st = (Ok tt, mk_writing st' out' sfs) ->
  (fair st -> fair st') /\
  (fair st -> forall sf, binding st' sf -> binding st sf /\ (waiting st sf -> sf ∈ sfs \/ waiting st' sf) \/ waiting st' sf) /\
  (forall sf, waiting st sf -> sf ∈ sfs \/ budget - (len out' - len out) < 33) /\
  (data_blocked_pending (due st) = true -> data_blocked_pending (due st') = true \/ SfDataBlocked (send_max_data (tx st)) ∈ sfs \/ parked st = []) /\
  (data_blocked_sent (due st') = data_blocked_sent (due st) \/ data_blocked_sent (due st') = Some (send_max_data (tx st')) /\ data_blocked_pending (due st') = true).
Proof.
  set (w := mk_writing st out []). set (w' := mk_writing st' out' sfs). intros Hrun. assert (H := write_all_part (len out) budget w).
  unfold write_frames in Hrun. fold w in Hrun. unfold wp in H. rewrite Hrun in H. destruct H as (w1 & [M1 F1 B1 W1 (P1 & T1 & D1) Q1] & Hset & M2 & [[F2 B2 [P2 D2]] C2]). cbn [wr_streams wr_out wr_sent w w'] in *.
  split; [auto|]. split; [|split; [|split]].
  - intros Hf sf H. destruct (B2 (F1 Hf) sf H) as [[H1 H2]|H1]; [left|by right]. split; [auto|]. intros Hw. destruct (W1 sf Hw) as [H3|H3]; [left; by apply M2|auto].
  - intros sf Hw. destruct (Hset sf Hw) as [H|H]; [left; by apply M2|right]. unfold full in H. destruct M2 as [_ M2]. cbn [wr_out w'] in M2. lia.
  - intros Hd. destruct (decide (parked st = [])) as [Hp|Hp]; [by auto|]. destruct (Q1 Hd Hp) as [H|H]; [right; left; by apply M2|auto].
  - destruct D2 as [D2|D2]; [left; congruence|by right].
Qed.

(** ** All of it *)

Definition told (given : list StreamFrame) (st : Streams) : Prop := forall sf, binding st sf -> sf ∈ given \/ waiting st sf.

Lemma heard_told given st st' : fair st -> heard st st' -> told given st -> fair st' /\ told given st'.
Proof.
  intros Hf [F B _] Ht. split; [auto|]. intros sf H. destruct (B Hf sf H) as [[H1 H2]|H1]; [|by right]. destruct (Ht sf H1); auto.
Qed.

(** Where something is due, the connection has something to say. *)
Lemma waiting_pending st sf : waiting st sf -> has_pending st = true.
Proof.
  assert (Hc : forall id, contains_key id (control st) = true -> bool_decide (control st = []) = false) by (intros id H; apply bool_decide_eq_false_2; intros E; by rewrite E in H).
  assert (Hk : forall b p, at_kind (kind_index b) p = true -> either p = true) by (intros b [[] []]; destruct b; done).
  unfold has_pending. rewrite !orb_true_iff, !andb_true_iff, !negb_true_iff. destruct sf as [|id e z|id e|v|id m|b m|v|id l|b l]; cbn [waiting]; [done|..].
  1,2,4,7: intros [H _]; apply Hc in H; auto.
  - intros [_ H]. auto 10.
  - intros [_ H]. apply Hk in H. auto 10.
  - intros (_ & H & Hp). do 2 left. right. split; [done|]. by apply bool_decide_eq_false_2.
  - intros (_ & _ & H). apply Hk in H. auto 10.
Qed.
