(* ===== verification/FlowControl.v ===== *)
(** What flow control promises, over every run of the calls of a connection:
    [pratique/src/quic/streams.rs].

    [call] is a call of [Streams] with its arguments, [perform] what it does,
    and [reached] the states that runs of them reach; frames that are
    acknowledged or lost are those that were given to a packet, each any
    number of times and in any order.  The theorems are about every reached
    state. *)

From Stdlib Require Import ZArith Lia String.
From stdpp Require Import base option sorting numbers list_numbers sets list relations.
From S2P Require Import Prelude BTree Slice RangeSet Wire Frames Params Reassembly SendBuf Streams StreamsOk StreamsRun StreamsWrite StreamsTold.

#[local] Open Scope Z_scope.

#[local] Abbreviation total := Slice.total.

(** ** Runs *)

Inductive call : Type :=
| CParams (p : TransportParameters)
| CPoll
| COpen (bidirectional : bool)
| CWrite (id : Z) (d : list Z) (f : bool)
| CRead (id : Z) (cap : nat)
| CReset (id error : Z)
| CStop (id error : Z)
| CFrame (f : Frame)
| CPacket (out : list Z) (budget : Z)
| CAcked (f : StreamFrame)
| CLost (f : StreamFrame).

(** The state a call leaves, whatever it answers; a fault of the code. *)
Definition state_of {E A} (x : outcome E A) : result fault (Streams * list StreamFrame) :=
  match x with (Err (Fails f), _) => Err f | (_, st) => Ok (st, []) end.

Definition state_after (r : result fault Streams) : result fault (Streams * list StreamFrame) :=
  match r with Ok st => Ok (st, []) | Err f => Err f end.

(** The state after a call, and the frames it gave to a packet. *)
Definition perform (c : call) (st : Streams) : result fault (Streams * list StreamFrame) :=
  match c with
  | CParams p => Ok (set_peer_params p st, [])
  | CPoll => Ok (snd (poll_event st), [])
  | COpen b => state_of (open b st)
  | CWrite id d f => state_of (Streams.write id d f st)
  | CRead id cap => state_of (Streams.read id cap st)
  | CReset id e => state_of (reset id e st)
  | CStop id e => state_of (stop_sending id e st)
  | CFrame f => state_of (on_frame f st)
  | CPacket out budget => match write_frames out budget [] st with (Ok _, w) => Ok (wr_streams w, wr_sent w) | (Err f, _) => Err f end
  | CAcked f => state_after (Streams.on_acked f st)
  | CLost f => state_after (Streams.on_lost f st)
  end.

(** The state, and every frame that was given to a packet. *)
Record World := mk_world { now : Streams; given : list StreamFrame }.

(** What a call may be given: the peer's parameters come once, before there
    is any stream; frames have values that were read; error codes can be said;
    what is acknowledged or lost was sent. *)
Definition allowed (c : call) (w : World) : Prop :=
  match c with
  | CParams p => limits_ok p /\ peer (now w) = None /\ streams (now w) = [] /\ sent_total (tx (now w)) = 0
  | CReset _ e | CStop _ e => field e
  | CFrame f => frame_wf f
  | CPacket _ budget => 0 <= budget
  | CAcked f | CLost f => f ∈ given w
  | _ => True
  end.

(** No limit passes what a frame can say, 2^62 - 1, after any step. *)
Inductive step : World -> World -> Prop :=
| step_call c st given st' sfs : allowed c (mk_world st given) -> perform c st = Ok (st', sfs) -> fits st' -> step (mk_world st given) (mk_world st' (sfs ++ given)).

Definition reached (c : StreamsConfig) (w : World) : Prop := rtc step (mk_world (new c) []) w.

(** ** The invariant *)

Lemma new_streams_inv c : config_ok c -> inv [] (new c) /\ fits (new c).
Proof.
  intros [[Hd (H1 & H2 & H3)] Hs Hb]. split.
  - split; cbn; try done.
    + split; [constructor|]. split; constructor.
    + split; [by constructor|]. intros id H. by apply elem_of_nil in H.
    + split; cbn; try done. intros k [-> | ->]; vm_compute; done.
    + destruct Hd as [Hd1 Hd2]. split; cbn; [done|lia|lia|]. apply topped_up_all with (used := 0).
    + intros k Hk. destruct Hk as [-> | ->]; unfold initial_streams; cbn; split; cbn; unfold initial_streams; cbn; lia.
  - destruct Hd. split; cbn; try done.
Qed.

(** Every call that may be made succeeds, and keeps the invariant. *)
Lemma perform_ok c w : inv [] (now w) -> fits (now w) -> Forall (emitted (now w)) (given w) -> allowed c w ->
  exists st' sfs, perform c (now w) = Ok (st', sfs) /\ inv [] st' /\ evolves (now w) st' /\ Forall (emitted st') (sfs ++ given w).
Proof.
  destruct w as [st gv]. cbn [now given]. intros Hinv Hfit Hgv Ha.
  assert (Hkeep : forall st', evolves st st' -> inv [] st' -> exists st'' sfs, Ok (st', []) = @Ok fault _ (st'', sfs) /\ inv [] st'' /\ evolves st st'' /\ Forall (emitted st'') (sfs ++ gv)).
  { intros st' He Hi. exists st', []. do 3 (split; [done|]). eapply Forall_impl; [exact Hgv|]. intros f. by apply emitted_evolves. }
  assert (Hsound : forall E A (x : outcome E A), sound st x -> exists st' sfs, state_of x = Ok (st', sfs) /\ inv [] st' /\ evolves st st' /\ Forall (emitted st') (sfs ++ gv)).
  { intros E A [res st'] (H1 & H2 & H3). cbn in *. unfold state_of. destruct res as [a|[f|e]]; [by apply Hkeep|by destruct (H1 f)|by apply Hkeep]. }
  assert (Hkept : forall r, kept st r -> exists st' sfs, state_after r = Ok (st', sfs) /\ inv [] st' /\ evolves st st' /\ Forall (emitted st') (sfs ++ gv)) by (intros r (st' & -> & H1 & H2); by apply Hkeep).
  destruct c; cbn [perform allowed] in *.
  - destruct Ha as (H1 & H2 & H3 & H4). destruct (set_peer_params_ok p st Hinv H1 H2 H3 H4). by apply Hkeep.
  - destruct (poll_event_ok st Hinv). by apply Hkeep.
  - apply Hsound. assert (H := open_ok [] st bidirectional Hinv). unfold sound. destruct (open bidirectional st) as [res st']. destruct H as (H1 & H2 & H3 & _). done.
  - by apply Hsound, write_call_ok.
  - apply Hsound. assert (H := read_stream_ok [] st id cap Hinv Hfit). unfold sound. by destruct (Streams.read id cap st) as [res st'].
  - by apply Hsound, reset_call_ok.
  - apply Hsound. assert (H := stop_sending_ok [] st id error Hinv Hfit Ha). unfold sound. by destruct (stop_sending id error st) as [res st'].
  - by apply Hsound, on_frame_ok.
  - destruct (write_frames_ok out budget [] st Hinv Hfit Ha) as (st' & sfs & b & fs & e & -> & H1 & H2 & H3 & H4 & _). cbn [wr_streams wr_sent app]. exists st', sfs.
    split; [done|]. split; [done|]. split; [by apply carried_evolves|]. apply Forall_app. split; [done|]. eapply Forall_impl; [exact Hgv|]. intros f. apply emitted_evolves. by apply carried_evolves.
  - apply Hkept, acked_ok; [done|]. rewrite Forall_forall in Hgv. by apply Hgv.
  - apply Hkept, lost_ok; [done|]. rewrite Forall_forall in Hgv. by apply Hgv.
Qed.

Record sane (c : StreamsConfig) (w : World) : Prop := mk_sane {
  sn_cfg : cfg (now w) = c;
  sn_inv : inv [] (now w);
  sn_fits : fits (now w);
  sn_small : small (now w);
  sn_given : Forall (emitted (now w)) (given w);
}.

Lemma sane_step c w w' : sane c w -> step w w' -> sane c w'.
Proof.
  intros [H0 H1 H2 Hs H3] Hstep. destruct Hstep as [cl st gv st' sfs Ha Hp Hf]. destruct (perform_ok cl (mk_world st gv) H1 H2 H3 Ha) as (st2 & sfs2 & He & Hi & Hv & Hg).
  cbn in He. rewrite Hp in He. injection He as <- <-. destruct Hv as [Hc _ _ Hsm]. cbn in *. split; cbn; [congruence|done|done|by apply Hsm|done].
Qed.

Lemma reached_sane c w : config_ok c -> reached c w -> sane c w.
Proof.
  intros Hc Hr. destruct (new_streams_inv c Hc) as [H1 H2]. assert (H0 : sane c (mk_world (new c) [])) by (split; [done|done|done|by intros id s|constructor]).
  unfold reached in Hr. remember (mk_world (new c) []) as w0 eqn:Hw0. clear Hw0. induction Hr as [|x y z Hxy _ IH]; [done|]. apply IH. by eapply sane_step.
Qed.

(** ** What [check] looks at *)

(** The ids of the streams whose sending side has a flag. *)
Definition flagged (f : Send -> bool) (m : smap) : list Z :=
  (List.filter (fun e : Z * Stream => match st_send (snd e) with Some s => f s | None => false end) m).*1.

Lemma flagged_elem f m id : sorted m -> id ∈ flagged f m <-> exists s, snd_in id m = Some s /\ f s = true.
Proof.
  intros Hm. unfold flagged. rewrite list_elem_of_fmap. split.
  - intros ([k x] & -> & Hin). rewrite list_elem_of_In, List.filter_In in Hin. destruct Hin as [Hin Hf]. apply list_elem_of_In in Hin. apply get_in in Hin; [|done]. cbn in *.
    destruct (st_send x) as [s|] eqn:Hs; [|done]. exists s. unfold snd_in. by rewrite Hin.
  - intros (s & (x & Hx & Hs)%snd_get & Hf). exists (id, x). split; [done|]. rewrite list_elem_of_In, List.filter_In. cbn. rewrite Hs. split; [|done]. apply list_elem_of_In. by apply get_in.
Qed.

Lemma flagged_nodup f m : sorted m -> NoDup (flagged f m).
Proof.
  intros Hm. assert (H := keys_nodup m Hm). unfold flagged. clear Hm. induction m as [|[k x] m IH]; [constructor|]. cbn in H. apply NoDup_cons in H as [Hk H]. cbn [List.filter snd].
  destruct (match st_send x with Some s => f s | None => false end); cbn; [|by apply IH]. constructor; [|by apply IH].
  intros Hin. apply Hk. apply list_elem_of_fmap in Hin as (e & -> & Hin). rewrite list_elem_of_In, List.filter_In in Hin. apply list_elem_of_fmap_2. apply list_elem_of_In. apply Hin.
Qed.

Lemma count_flagged f m : Streams.count (fun e : Z * Stream => match st_send (snd e) with Some s => f s | None => false end) m = len (flagged f m).
Proof. unfold Streams.count, flagged, len. by rewrite length_fmap. Qed.

(** Lists without repetitions, one in the other, have the same length just
    when each is in the other. *)
Lemma nodup_same_length (l q : list Z) : NoDup l -> NoDup q -> (forall x, x ∈ l -> x ∈ q) -> len l = len q <-> forall x, x ∈ q -> x ∈ l.
Proof.
  intros Hl Hq Hin. assert (Hsub : forall a b : list Z, NoDup a -> (forall x, x ∈ a -> x ∈ b) -> a ⊆+ b) by (intros a b Ha H; by apply NoDup_submseteq).
  assert (H1 := Hsub l q Hl Hin). split.
  - intros Hlen x Hx. assert (Hp : l ≡ₚ q) by (apply submseteq_length_Permutation; [done|unfold len in Hlen; lia]). by rewrite Hp.
  - intros H. assert (H2 := Hsub q l Hq H). apply submseteq_length in H1, H2. unfold len. lia.
Qed.

Lemma check_sides st : inv [] st ->
  forallb (fun e => match st_send (snd e) with Some s => check_send_side st (fst e) s | None => true end && match st_recv (snd e) with Some r => check_recv_side r | None => true end) (streams st) = true.
Proof.
  intros Hinv. destruct (iv_sorted _ _ Hinv) as (Hss & _). apply List.forallb_forall. intros [id x] Hin. apply list_elem_of_In in Hin. apply get_in in Hin; [|done]. cbn [fst snd].
  apply andb_true_iff. split.
  - destruct (st_send x) as [s|] eqn:Hs; [|done]. assert (Hs' : snd_in id (streams st) = Some s) by (unfold snd_in; by rewrite Hin).
    destruct (iv_send _ _ Hinv id s Hs') as [Hok Hset]. destruct (Hset ltac:(by intros ?%elem_of_nil)) as [D1 D2 _ _ _]. unfold check_send_side. rewrite !andb_true_iff, !negb_true_iff. split_and!.
    + destruct (sending s) eqn:Hl; cbn [andb]; [|done]. apply Z.ltb_ge. by apply (so_limit _ _ _ _ Hok).
    + destruct (s_queued s); cbn [andb]; [by apply D2|done].
    + apply eqb_true_iff. assert (H := so_queued _ _ _ _ Hok). destruct (s_queued s); case_bool_decide; naive_solver.
    + by apply eqb_true_iff.
    + assert (H := so_state _ _ _ _ Hok). case_bool_decide as Hst; [|done]. rewrite Hst in H. by destruct H as [y ->].
  - destruct (st_recv x) as [r|] eqn:Hr; [|done]. assert (Hr' : rcv_in id (streams st) = Some r) by (unfold rcv_in; by rewrite Hin). assert (Hok := iv_recv _ _ Hinv id r Hr').
    destruct (ro_end _ Hok) as [E1 E2]. assert (Hlow := end_offset_low (r_buf r)). unfold check_recv_side. rewrite !(proj2 (Z.ltb_ge _ _)) by lia. cbn [orb negb andb].
    destruct (r_final_size r) as [f|] eqn:Hf; [|done]. assert (f = r_high r) as -> by by apply (ro_final _ Hok). by rewrite Z.ltb_irrefl.
Qed.

(** [check] fails on a stream that was forgotten while it was queued, and on
    nothing else. *)
Lemma check_iff st : inv [] st -> check st = true <-> forall id, id ∈ send_queue st -> is_Some (snd_in id (streams st)).
Proof.
  intros Hinv. destruct (iv_sorted _ _ Hinv) as (Hss & _ & Hsp). unfold check. rewrite (check_sides st Hinv), !count_flagged. destruct (iv_tx _ _ Hinv) as [T1 _ T3 _ _].
  destruct (iv_credit _ _ Hinv) as [C1 C2 C3 _]. assert (Hun := unread_total _ _ Hinv).
  assert (Hkind : forall k, k = 0 \/ k = 1 -> check_kind st k = true).
  { intros k Hk. unfold check_kind. destruct (T3 k Hk) as [T4 T5]. assert (H := ko_limit _ _ _ _ (iv_kinds _ _ Hinv k Hk)). by rewrite !(proj2 (Z.ltb_ge _ _)) by lia. }
  rewrite !Hkind by auto. rewrite !(proj2 (Z.ltb_ge _ _)) by lia. cbn [negb orb andb]. rewrite andb_true_iff, !Z.eqb_eq.
  assert (Hsend : forall id s, snd_in id (streams st) = Some s -> (s_queued s = true <-> id ∈ send_queue st) /\ s_parked s = contains_key id (parked st)).
  { intros id s Hs. destruct (iv_send _ _ Hinv id s Hs) as [Hok Hset]. split; [apply Hok|]. apply Hset. by intros ?%elem_of_nil. }
  assert (Hpk : len (flagged s_parked (streams st)) = len (parked st)).
  { replace (len (parked st)) with (len (parked st).*1) by (unfold len; by rewrite length_fmap). apply nodup_same_length; [by apply flagged_nodup|by apply keys_nodup| |].
    - intros id (s & Hs & Hf)%flagged_elem; [|done]. apply contains_keys. by rewrite <- (proj2 (Hsend id s Hs)).
    - intros id Hin. apply contains_keys in Hin. apply flagged_elem; [done|]. destruct (iv_parked _ _ Hinv id Hin) as [s Hs]. exists s. split; [done|]. by rewrite (proj2 (Hsend id s Hs)). }
  rewrite nodup_same_length; [|by apply flagged_nodup|apply (iv_queue _ _ Hinv)|].
  - split.
    + intros [H _] id Hin. apply H in Hin. apply flagged_elem in Hin as (s & Hs & _); [|done]. by exists s.
    + intros H. split; [|done]. intros id Hin. destruct (H id Hin) as [s Hs]. apply flagged_elem; [done|]. exists s. split; [done|]. by apply (proj1 (Hsend id s Hs)).
  - intros id (s & Hs & Hf)%flagged_elem; [|done]. by apply (Hsend id s Hs).
Qed.

(** ** Frames of the peer *)

(** What a STREAM frame that ends at [end_] says of the final size is not so. *)
Definition contradicts (r : Recv) (end_ : Z) (fin : bool) : Prop :=
  match r_final_size r with Some f => f < end_ \/ fin = true /\ end_ <> f | None => fin = true /\ end_ < r_high r end.

(** It goes beyond the credit of the stream or of the connection. *)
Definition beyond (st : Streams) (r : Recv) (end_ : Z) : Prop :=
  r_max_data r < end_ \/ recv_limit (rx st) < recv_total (rx st) + sat_sub end_ (r_high r).

Lemma final_size_iff r end_ fin : is_Some (final_size_error r end_ fin) <-> contradicts r end_ fin.
Proof.
  unfold final_size_error, contradicts. destruct (r_final_size r) as [f|].
  - destruct (Z.ltb_spec f end_) as [Hlt|Hge]; cbn [orb]; [split; [by left|by eexists]|]. destruct fin; cbn [andb].
    + destruct (Z.eqb_spec end_ f) as [->|]; cbn [negb]; [split; [by intros []|intros [?|[_ ?]]; [lia|done]]|split; [by right|by eexists]].
    + split; [by intros []|intros [?|[? _]]; [lia|done]].
  - destruct fin; cbn [andb]; [|split; [by intros []|by intros []]]. destruct (Z.ltb_spec end_ (r_high r)); [split; [done|by eexists]|split; [by intros []|intros []; lia]].
Qed.

(** The frame is taken: its bytes are held, its end is known, the connection
    has received so much more, and the application hears of it when there is
    something new to read.  Of a stream that is not wanted the bytes are
    thrown away. *)
Definition taken (st : Streams) (id : Z) (r : Recv) (b : Reassembler) (end_ : Z) (fin : bool) (st' : Streams) : Prop :=
  let r1 := with_bytes r b end_ fin in
  let st1 := received (sat_sub end_ (r_high r)) (put_recv id r1 st) in
  recv_total (rx st1) = recv_total (rx st) + sat_sub end_ (r_high r) /\
  if r_discard r then st' = drain id st1
  else exists r', rcv_in id (streams st') = Some r' /\ r_buf r' = b /\ r_high r' = Z.max (r_high r) end_ /\ r_final_size r' = (if fin then Some end_ else r_final_size r) /\
    r_state r' = ROpen /\ rx st' = rx st1 /\ tx st' = tx st /\
    (recv_readable r' = true -> r_queued r' = true) /\
    events st' = events st ++ if recv_readable r' && negb (r_queued r) then [Readable id] else [].

(** What becomes of a STREAM frame, when the stream may be spoken of: [st] is
    the state with the streams it opens. *)
Definition stream_verdict (st : Streams) (id offset : Z) (d : list Z) (fin : bool) (x : outcome TransportError unit) : Prop :=
  let end_ := offset + len d in
  match rcv_in id (streams st) with
  | Some r =>
      if decide (r_state r = ROpen) then
        match x with
        | (Ok _, st') => ~ contradicts r end_ fin /\ ~ beyond st r end_ /\ agrees (r_buf r) offset d /\
            exists b, merged (r_buf r) offset d b /\ within_limit b /\ taken st id r b end_ fin st'
        | (Err (Says e), st') => st' = st /\
            (code e = FINAL_SIZE_ERROR /\ contradicts r end_ fin \/
             code e = FLOW_CONTROL_ERROR /\ ~ contradicts r end_ fin /\ (beyond st r end_ \/ exists b, merged (r_buf r) offset d b /\ ~ within_limit b) \/
             code e = PROTOCOL_VIOLATION /\ ~ contradicts r end_ fin /\ ~ beyond st r end_ /\ conflict (pieces (r_buf r)) offset d)
        | (Err (Fails _), _) => False
        end
      else x = (Ok tt, st)
  | None => x = (Ok tt, st)
  end.

(** A handler after its check: the error of the check, or what the handler
    does where the streams are opened. *)
Lemma when_verdict st id err x k (V : Streams -> outcome TransportError unit -> Prop) : inv [] st -> fits st -> checked st id err x ->
  (forall st', ~ contains id st' = true -> V st' (Ok tt, st')) -> (forall st', inv [] st' -> fits st' -> V st' (k st')) ->
  match err with
  | Some c => exists e, when x k = (Err (Says e), st) /\ code e = c
  | None => exists st1, opens st st1 id /\ inv [] st1 /\ V st1 (when x k)
  end.
Proof.
  intros Hinv Hfit Hx Hout Hk. unfold when. destruct x as [[[]|[f|e]] st']; cbn in Hx.
  - destruct Hx as (-> & H1 & _ & H3 & H4 & H5). exists st'. split; [done|]. split; [done|]. auto.
  - destruct Hx as (-> & H1 & _ & H3 & H4 & H5). exists st'. split; [done|]. split; [done|]. apply Hout. by rewrite <- H5.
  - done.
  - destruct Hx as (-> & ->). by exists e.
Qed.

Lemma stream_taken st id r b end_ fin : inv [] st -> fits st -> rcv_in id (streams st) = Some r -> r_state r = ROpen ->
  let delta := sat_sub end_ (r_high r) in 0 <= end_ <= MAX_VARINT -> recv_total (rx st) + delta <= recv_limit (rx st) ->
  let r1 := with_bytes r b end_ fin in let st1 := received delta (put_recv id r1 st) in
  taken st id r b end_ fin (if r_discard r1 then drain id st1 else if recv_readable r1 && negb (r_queued r1) then tell (Readable id) (put_recv id (r_with_queued true r1) st1) else st1).
Proof.
  intros Hinv Hfit Hr Ho delta He Hl r1 st1. assert (Hdelta : 0 <= delta <= MAX_VARINT) by (unfold delta, sat_sub; assert (H := proj1 (ro_end _ (iv_recv _ _ Hinv id r Hr))); assert (H' := end_offset_low (r_buf r)); assert (H'' := wf_read _ (proj1 (ro_buf _ (iv_recv _ _ Hinv id r Hr)))); lia).
  assert (Hu := total_small [] st delta Hinv Hfit Hdelta). unfold taken. fold r1. fold delta. fold st1.
  assert (E1 : r_discard r1 = r_discard r /\ r_queued r1 = r_queued r /\ r_buf r1 = b /\ r_high r1 = Z.max (r_high r) end_ /\ r_final_size r1 = (if fin then Some end_ else r_final_size r) /\ r_state r1 = ROpen) by (unfold r1, with_bytes; by destruct fin).
  destruct E1 as (E1 & E2 & E3 & E4 & E5 & E6).
  assert (Hst1 : st1 = with_rx (mk_receiving (recv_limit (rx st)) (recv_total (rx st) + delta) (consumed (rx st)) (max_streams (rx st)) (peer_opened (rx st)) (peer_closed (rx st))) (with_streams (set_recv id r1 (streams st)) st)).
  { unfold st1. rewrite put_recv_streams, received_eq by done. done. }
  split; [by rewrite Hst1|]. rewrite E1. destruct (r_discard r); [done|]. rewrite !E2. assert (Hr1 : rcv_in id (streams st1) = Some r1) by (rewrite Hst1; cbn; by rewrite rcv_set_recv, Z.eqb_refl by eauto).
  destruct (recv_readable r1) eqn:Hread; cbn [andb].
  - destruct (r_queued r) eqn:Hq; cbn [negb]; [exists r1; rewrite Hread, E2; split_and!; try done; rewrite Hst1; cbn; by rewrite ?app_nil_r|].
    rewrite put_recv_streams. exists (r_with_queued true r1). split; [cbn; by rewrite rcv_set_recv, Z.eqb_refl by eauto|]. split_and!; try done; [by rewrite Hst1|].
    change (recv_readable (r_with_queued true r1)) with (recv_readable r1). rewrite Hread. by rewrite Hst1.
  - exists r1. rewrite Hread. split_and!; try done; rewrite Hst1; cbn; by rewrite ?app_nil_r.
Qed.

Lemma on_stream_verdict id offset d fin st : inv [] st -> fits st -> frame_wf (Frames.StreamFrame id offset d fin) ->
  match recv_error st id with
  | Some c => exists e, on_stream id offset d fin st = (Err (Says e), st) /\ code e = c
  | None => exists st1, opens st st1 id /\ inv [] st1 /\ stream_verdict st1 id offset d fin (on_stream id offset d fin st)
  end.
Proof.
  intros Hinv Hfit (Hid & _ & Ho & Hend). unfold on_stream.
  apply (when_verdict st id (recv_error st id) (check_recv id st) _ (fun st1 x => stream_verdict st1 id offset d fin x)); [done|done|apply check_recv_ok; [done|apply Hid]| |]; clear st Hinv Hfit.
  { intros st Hn. unfold stream_verdict. destruct (rcv_in id (streams st)) as [r|] eqn:Hr; [|done]. destruct Hn. apply rcv_get in Hr as (x & Hx & _). unfold contains, contains_key. by rewrite Hx. }
  intros st Hinv Hfit. unfold stream_verdict. change (recv_of id st) with (rcv_in id (streams st)). destruct (rcv_in id (streams st)) as [r|] eqn:Hr; [|done].
  destruct (decide (r_state r = ROpen)) as [Hst|Hst]; [rewrite bool_decide_eq_true_2 by done|by rewrite bool_decide_eq_false_2]. cbn [negb].
  assert (Hd := len_nonneg d). assert (Hmv : MAX_VARINT = 4611686018427387903) by done. rewrite (u64_small (offset + len d)) by (unfold U64_MAX; lia). set (end_ := offset + len d) in *.
  assert (Hfin := final_size_iff r end_ fin). destruct (final_size_error r end_ fin) eqn:Hf; [split; [done|]; left; split; [done|]; apply Hfin; by eexists|].
  assert (Hnc : ~ contradicts r end_ fin) by (rewrite <- Hfin; by intros []). unfold beyond. destruct (Z.ltb_spec (r_max_data r) end_) as [|Hmax]; [split; [done|]; right; left; split; [done|]; split; [done|]; left; by left|].
  assert (Hok := iv_recv _ _ Hinv id r Hr). assert (Hmx := ft_recv _ Hfit id r Hr). destruct (ro_buf _ Hok) as [Hb Hb']. assert (Hrd := wf_read _ Hb). destruct (ro_end _ Hok) as [He1 He2]. assert (Hlow := end_offset_low (r_buf r)).
  set (delta := sat_sub end_ (r_high r)). assert (Hdelta : 0 <= delta <= MAX_VARINT) by (unfold delta, sat_sub; lia).
  rewrite (total_small [] st) by done. destruct (Z.ltb_spec (recv_limit (rx st)) (recv_total (rx st) + delta)) as [|Hlim]; [split; [done|]; right; left; split; [done|]; split; [done|]; left; by right|].
  rewrite u64_small by (unfold U64_MAX; lia).
  assert (Hins := ra_insert_ok (r_buf r) offset d (r_max_data r - read_off (r_buf r)) Hb Ho ltac:(lia)). unfold inserted in Hins. fold end_ in Hins.
  destruct (Reassembly.insert offset d _ (r_buf r)) as [b|[| |f]]; [| | |done].
  - destruct Hins as (_ & _ & Hag & Hm & Hw). split; [done|]. split; [intros [?|?]; lia|]. split; [done|]. exists b. split; [done|]. split; [by apply Hw|]. apply (stream_taken st id r b end_ fin Hinv Hfit Hr Hst); [lia|done].
  - split; [done|]. right. left. split; [done|]. split; [done|]. right. destruct Hins as [H|[H|H]]; [unfold U64_MAX in H; lia|lia|done].
  - split; [done|]. right. right. split; [done|]. split; [done|]. split; [intros [?|?]; lia|done].
Qed.

(** The same for RESET_STREAM: what was read or not is given back to the
    connection, and the application is told. *)
Definition was_reset (st : Streams) (id : Z) (r : Recv) (error final_size : Z) (st' : Streams) : Prop :=
  exists r', rcv_in id (streams st') = Some r' /\ r_state r' = RReset error /\ r_final_size r' = Some final_size /\ held (r_buf r') = 0 /\ r_queued r' = true /\
    recv_total (rx st') = recv_total (rx st) + (final_size - r_high r) /\ consumed (rx st') = consumed (rx st) + (final_size - read_off (r_buf r)) /\
    events st' = events st ++ if r_queued r then [] else [Readable id].

Definition reset_verdict (st : Streams) (id error final_size : Z) (x : outcome TransportError unit) : Prop :=
  match rcv_in id (streams st) with
  | Some r =>
      let contradicts := (exists f, r_final_size r = Some f /\ f <> final_size) \/ final_size < r_high r in
      match x with
      | (Ok _, st') => ~ contradicts /\ ~ beyond st r final_size /\
          if decide (r_state r = ROpen) then r_discard r = false -> was_reset st id r error final_size st' else st' = st
      | (Err (Says e), st') => st' = st /\ (code e = FINAL_SIZE_ERROR /\ contradicts \/ code e = FLOW_CONTROL_ERROR /\ ~ contradicts /\ beyond st r final_size)
      | (Err (Fails _), _) => False
      end
  | None => x = (Ok tt, st)
  end.

Lemma reset_contradicts r final_size :
  match r_final_size r with Some fs => negb (fs =? final_size) | None => false end || (final_size <? r_high r) = true <->
  (exists f, r_final_size r = Some f /\ f <> final_size) \/ final_size < r_high r.
Proof.
  rewrite orb_true_iff, Z.ltb_lt. destruct (r_final_size r) as [f|]; [rewrite negb_true_iff, Z.eqb_neq|]; naive_solver.
Qed.

Lemma on_reset_verdict id error final_size st : inv [] st -> fits st -> frame_wf (ResetStream id error final_size) ->
  match recv_error st id with
  | Some c => exists e, on_reset_stream id error final_size st = (Err (Says e), st) /\ code e = c
  | None => exists st1, opens st st1 id /\ inv [] st1 /\ reset_verdict st1 id error final_size (on_reset_stream id error final_size st)
  end.
Proof.
  intros Hinv Hfit (Hid & He & Hfs). unfold on_reset_stream.
  apply (when_verdict st id (recv_error st id) (check_recv id st) _ (fun st1 x => reset_verdict st1 id error final_size x)); [done|done|apply check_recv_ok; [done|apply Hid]| |]; clear st Hinv Hfit.
  { intros st Hn. unfold reset_verdict. destruct (rcv_in id (streams st)) as [r|] eqn:Hr; [|done]. destruct Hn. apply rcv_get in Hr as (x & Hx & _). unfold contains, contains_key. by rewrite Hx. }
  intros st Hinv Hfit. unfold reset_verdict. change (recv_of id st) with (rcv_in id (streams st)). destruct (rcv_in id (streams st)) as [r|] eqn:Hr; [|done].
  assert (Hcon := reset_contradicts r final_size). destruct (match r_final_size r with Some fs => negb (fs =? final_size) | None => false end || (final_size <? r_high r)) eqn:Hc; [split; [done|]; left; split; [done|]; by apply Hcon|].
  assert (Hnc : ~ ((exists f, r_final_size r = Some f /\ f <> final_size) \/ final_size < r_high r)) by (rewrite <- Hcon; done). clear Hc Hcon.
  unfold beyond. destruct (Z.ltb_spec (r_max_data r) final_size) as [|Hmax]; [split; [done|]; right; split; [done|]; split; [done|]; by left|].
  assert (Hge : r_high r <= final_size) by (apply Z.nlt_ge; intros H; apply Hnc; by right).
  assert (Hok := iv_recv _ _ Hinv id r Hr). assert (Hmx := ft_recv _ Hfit id r Hr). destruct (ro_buf _ Hok) as [Hb Hb']. assert (Hrd := wf_read _ Hb). destruct (ro_end _ Hok) as [He1 He2]. assert (Hlow := end_offset_low (r_buf r)).
  assert (Hmv : MAX_VARINT = 4611686018427387903) by done. destruct Hfs as [Hfs1 Hfs2]. rewrite (u64_small (final_size - r_high r)) by (unfold U64_MAX; lia).
  assert (Hsat : sat_sub final_size (r_high r) = final_size - r_high r) by (unfold sat_sub; lia). rewrite Hsat. set (delta := final_size - r_high r).
  rewrite (total_small [] st) by (done || unfold delta; lia). destruct (Z.ltb_spec (recv_limit (rx st)) (recv_total (rx st) + delta)) as [|Hlim]; [split; [done|]; right; split; [done|]; split; [done|]; by right|].
  destruct (decide (r_state r = ROpen)) as [Hst|Hst]; [rewrite bool_decide_eq_true_2 by done|rewrite bool_decide_eq_false_2 by done; split; [done|]; split; [intros [?|?]; lia|done]]. cbn [negb].
  split; [done|]. split; [intros [?|?]; lia|]. intros Hd. rewrite Hd. cbn [negb]. rewrite (u64_small (final_size - _)) by (unfold U64_MAX; lia). set (unr := final_size - read_off (r_buf r)).
  destruct (iv_credit _ _ Hinv) as [C1 C2 C3 C4]. assert (Hfl := ft_limit _ Hfit). destruct (cf_data _ (iv_cfg _ _ Hinv)) as ([Hmd Hmd'] & _). destruct (iv_sorted _ _ Hinv) as (Hss & _).
  destruct (unread_bound id r _ Hss (iv_recv _ _ Hinv) Hr) as [U1 U2]. assert (Hun : unread r = r_high r - read_off (r_buf r)) by (unfold unread; by rewrite Hst).
  rewrite received_eq by (apply u64_small; unfold U64_MAX; lia). rewrite !put_recv_streams. set (r' := as_reset r error final_size (RReset error) true).
  set (st1 := if r_queued r then _ else _).
  assert (Hst1 : st1 = mk_streams (cfg st) (set_recv id r' (streams st)) (peer st) (tx st) (mk_receiving (recv_limit (rx st)) (recv_total (rx st) + delta) (consumed (rx st)) (max_streams (rx st)) (peer_opened (rx st)) (peer_closed (rx st))) (due st) (control st) (send_queue st) (parked st) (events st ++ if r_queued r then [] else [Readable id])).
  { unfold st1, r', as_reset. destruct (r_queued r) eqn:Hq; [|done]. rewrite app_nil_r. unfold r_with_state, r_with_stop, r_with_buf, r_with_high, r_with_final. cbn. by rewrite Hq. }
  rewrite Hst1. clear Hst1 st1. unfold consume. cbn [rx consumed]. rewrite (u64_small (consumed _ + _)) by (unfold U64_MAX, unr; lia).
  set (st2 := with_rx _ _). destruct (grow_connection_window_eq st2) as (due' & Heq & _); cbn [st2 with_rx rx consumed cfg]; [unfold unr; lia|done|unfold U64_MAX, unr; lia|]. rewrite Heq. clear Heq.
  exists r'. cbn. split; [by rewrite rcv_set_recv, Z.eqb_refl by eauto|]. done.
Qed.

(** ** Runs to compute *)

Definition fitsb (st : Streams) : bool :=
  (recv_limit (rx st) <=? MAX_VARINT) &&
  forallb (fun e => match st_send (snd e) with Some s => written (s_buf s) <=? MAX_VARINT | None => true end &&
                    match st_recv (snd e) with Some r => r_max_data r <=? MAX_VARINT | None => true end) (streams st).

Lemma get_elem {V} k (v : V) m : BTree.get k m = Some v -> (k, v) ∈ m.
Proof. induction m as [|[k' v'] m IH]; cbn [BTree.get]; [done|]. destruct (Z.eqb_spec k k') as [->|]; [intros [= ->]; left|intros H; right; auto]. Qed.

Lemma fitsb_fits st : fitsb st = true -> fits st.
Proof.
  unfold fitsb. rewrite andb_true_iff, List.forallb_forall. intros [H1 H2]. split; [by apply Z.leb_le| |].
  - intros id r (x & Hx & Hr)%rcv_get. apply get_elem, list_elem_of_In, H2 in Hx. cbn in Hx. rewrite Hr in Hx. apply andb_true_iff in Hx as [_ Hx]. by apply Z.leb_le.
  - intros id s (x & Hx & Hs)%snd_get. apply get_elem, list_elem_of_In, H2 in Hx. cbn in Hx. rewrite Hs in Hx. apply andb_true_iff in Hx as [Hx _]. by apply Z.leb_le.
Qed.

(** Several calls, one after another, and that they may be made. *)
Fixpoint runs (cs : list call) (w : World) : option World :=
  match cs with
  | [] => Some w
  | c :: cs => match perform c (now w) with Ok (st, sfs) => runs cs (mk_world st (sfs ++ given w)) | Err _ => None end
  end.

Fixpoint may (cs : list call) (w : World) : Prop :=
  match cs with
  | [] => True
  | c :: cs => allowed c w /\ match perform c (now w) with Ok (st, sfs) => fitsb st = true /\ may cs (mk_world st (sfs ++ given w)) | Err _ => False end
  end.

Lemma runs_reached c cs w w' : reached c w -> may cs w -> runs cs w = Some w' -> reached c w'.
Proof.
  revert w. induction cs as [|cl cs IH]; intros w Hr Hm He; cbn in *; [by injection He as <-|]. destruct Hm as [Ha Hm]. destruct (perform cl (now w)) as [[st sfs]|] eqn:Hp; [|done].
  destruct Hm as [Hf Hm]. apply (IH (mk_world st (sfs ++ given w))); [|done|done]. eapply rtc_r; [exact Hr|]. destruct w as [st0 gv]. apply (step_call cl); [done|done|by apply fitsb_fits].
Qed.

(** A small connection: a client, and what its peer allows. *)
Definition small_config : StreamsConfig := mk_config true 20 8 8 8 2 2 16.

Definition small_params : TransportParameters :=
  mk_params None 0 None 1200 6 6 6 6 2 2 3 25 false None 2 None None None [].

Lemma small_config_ok : config_ok small_config.
Proof. split; unfold field, small_config; cbn; change MAX_VARINT with 4611686018427387903; change MAX_STREAMS_LIMIT with 1152921504606846976; lia. Qed.

(** Shows that the calls of a run may be made. *)
Ltac may := vm_compute; repeat match goal with |- _ /\ _ => split end; try done; try (intros; discriminate); try (by left); try (by right; left).

(** C10: the accounts of a connection's streams are kept, whatever is called
    and whatever the peer, the network and the application do.  In every state
    that runs of the calls reach, no call that may be made panics or runs out
    of fuel; no more was sent than the peer allows and no more received than
    was allowed; every stream that is kept was opened by one of the two and
    has the sides its id says, with the window the configuration gives; and
    [check], the test of the accounts that the code has for its own tests,
    answers that all is well just when every stream in the queue of those that
    have something to send is still kept. *)
Theorem flow_accounts c w :
  config_ok c -> reached c w ->
  (forall cl, allowed cl w -> exists st sfs, perform cl (now w) = Ok (st, sfs)) /\
  sent_total (tx (now w)) <= send_max_data (tx (now w)) /\ consumed (rx (now w)) <= recv_total (rx (now w)) <= recv_limit (rx (now w)) /\
  (forall id x, BTree.get id (streams (now w)) = Some x -> issued (cfg (now w)) (tx (now w)) (rx (now w)) id /\ shape (cfg (now w)) id x) /\
  (check (now w) = true <-> forall id, id ∈ send_queue (now w) -> is_Some (send_of id (now w))).
Proof.
  intros Hc Hr. destruct (reached_sane c w Hc Hr) as [_ Hinv Hfit _ Hg]. split.
  { intros cl Ha. destruct (perform_ok cl w Hinv Hfit Hg Ha) as (st & sfs & H & _). by exists st, sfs. }
  split; [apply (iv_tx _ _ Hinv)|]. assert (Hun := unread_total _ _ Hinv). destruct (iv_credit _ _ Hinv) as [C1 C2 C3 _]. split; [lia|].
  split; [apply (iv_ids _ _ Hinv)|by apply check_iff].
Qed.

(** A stream that is opened, written and sent. *)
Definition sent_run : list call := [CParams small_params; COpen false; CWrite 2 [1; 2; 3; 4; 5] true; CPacket [] 100].

Definition start_world : World := mk_world (new small_config) [].

Definition sent_world : World := match runs sent_run start_world with Some w => w | None => start_world end.

Lemma sent_reached : reached small_config sent_world.
Proof. apply (runs_reached small_config sent_run start_world); [apply rtc_refl|may|by vm_compute]. Qed.

Lemma sent_given : given sent_world = [SfStream 2 0 5 true].
Proof. by vm_compute. Qed.

Lemma flow_accounts_witness :
  stream_ids (now sent_world) = [2] /\ given sent_world = [SfStream 2 0 5 true] /\ exists st sfs, perform (CLost (SfStream 2 0 5 true)) (now sent_world) = Ok (st, sfs).
Proof.
  split; [by vm_compute|]. split; [by vm_compute|]. destruct (flow_accounts small_config sent_world small_config_ok sent_reached) as (H & _). apply (H (CLost (SfStream 2 0 5 true))).
  unfold allowed. rewrite sent_given. left.
Defined.


(** What a receiving side holds. *)
Definition held_of (e : Z * Stream) : Z := match st_recv (snd e) with Some r => held (r_buf r) | None => 0 end.

Lemma held_unread r : recv_ok r -> 0 <= held (r_buf r) /\ held (r_buf r) <= end_offset (r_buf r) - read_off (r_buf r).
Proof. intros Hok. assert (H := held_bound (r_buf r) (proj1 (ro_buf _ Hok))). lia. Qed.

Lemma held_window r : recv_ok r -> 0 <= held (r_buf r) <= unread r /\ held (r_buf r) <= r_window r.
Proof.
  intros Hok. destruct (held_unread r Hok) as [H0 H1]. destruct (ro_end _ Hok) as [E1 E2]. assert (Hl := ro_limit _ Hok). assert (Hs := ro_state _ Hok). destruct (ro_window _ Hok).
  unfold unread. destruct (r_state r); try lia; destruct Hs as [_ ->]; cbn; lia.
Qed.

Lemma total_le {A} (f g : A -> Z) l : (forall x, x ∈ l -> f x <= g x) -> total f l <= total g l.
Proof.
  induction l as [|x l IH]; intros H; cbn [total foldr]; [lia|]. fold (total f l) (total g l). assert (H1 := H x ltac:(left)). assert (H2 := IH ltac:(intros y Hy; apply H; by right)). lia.
Qed.

(** C11: what a connection holds is bounded by its configuration, whatever the
    peer sends and however slowly the application reads.  In every reached
    state a stream holds, of data that was not read, at most the window that
    the configuration gives to such a stream, and all the streams together at
    most the window of the connection ([max_data]); of what is written and
    not acknowledged a stream holds at most [send_buffer]; and of the streams
    that the peer opened no more are kept at a time than the configuration
    lets it open. *)
Theorem flow_memory c w :
  config_ok c -> reached c w ->
  (forall id r, recv_of id (now w) = Some r -> 0 <= held (r_buf r) <= window_of c id) /\
  total held_of (streams (now w)) <= recv_total (rx (now w)) - consumed (rx (now w)) <= max_data c /\
  (forall id n, stream_buffered id (now w) = Some n -> 0 <= n <= send_buffer c) /\
  forall k, k = 0 \/ k = 1 -> total (peers c k) (streams (now w)) <= initial_streams c k.
Proof.
  intros Hc Hr. destruct (reached_sane c w Hc Hr) as [Hcfg Hinv Hfit Hsm _]. destruct (iv_sorted _ _ Hinv) as (Hss & _).
  split; [|split; [split|split]].
  - intros id r H. change (rcv_in id (streams (now w)) = Some r) in H. destruct (held_window r (iv_recv _ _ Hinv id r H)) as [H1 H2].
    apply rcv_get in H as (x & Hx & Hrx). destruct (iv_ids _ _ Hinv id x Hx) as (_ & _ & _ & Hwin). rewrite Hcfg in Hwin. rewrite <- (Hwin r Hrx). lia.
  - destruct (iv_credit _ _ Hinv) as [C1 C2 _ _]. assert (H : total held_of (streams (now w)) <= total unread_in (streams (now w))); [|lia].
    apply total_le. intros [id x] Hin. unfold held_of, unread_in. cbn. destruct (st_recv x) as [r|] eqn:Hrx; [|done]. apply get_in in Hin; [|done].
    destruct (held_window r) as [H1 _]; [|lia]. apply (iv_recv _ _ Hinv id). unfold rcv_in. by rewrite Hin.
  - destruct (iv_credit _ _ Hinv) as [_ _ C3 _]. rewrite Hcfg in C3. lia.
  - intros id n Hn. unfold stream_buffered in Hn. destruct (send_of id (now w)) as [s|] eqn:Hs; [|done]. injection Hn as <-. assert (H := Hsm id s Hs). unfold small_send in H. rewrite Hcfg in H.
    split; [apply len_nonneg|done].
  - intros k Hk. destruct (iv_kinds _ _ Hinv k Hk) as [_ K2 K3 K4 _]. rewrite Hcfg in *. lia.
Qed.

Lemma flow_memory_witness : stream_buffered 2 (now sent_world) = Some 5 /\ 0 <= 5 <= send_buffer small_config.
Proof.
  assert (H : stream_buffered 2 (now sent_world) = Some 5) by (by vm_compute). split; [done|].
  destruct (flow_memory small_config sent_world small_config_ok sent_reached) as (_ & _ & Hb & _). exact (Hb 2 5 H).
Defined.

(** ** Nothing waits for nothing *)

(** Data that waits while its stream is not in the queue waits for credit. *)
Lemma held_back q p id s room : send_ok q p id s -> settled room p id s -> 0 <= room <= MAX_VARINT ->
  sending s = true -> SendBuf.has_pending (s_buf s) = true -> s_queued s = false ->
  is_empty (lost (s_buf s)) = true /\
  (sent (s_buf s) = s_max_data s /\ s_blocked_sent s = Some (s_max_data s) \/ sent (s_buf s) < s_max_data s /\ room = 0 /\ contains_key id p = true).
Proof.
  intros Hok [D1 _ D3 D4 D5] Hroom Hl Hp Hq. specialize (D3 Hq). specialize (D4 Hq). specialize (D5 Hq). assert (He := no_lost_gate s room D3 Hl). split; [done|].
  assert (Hlim := so_limit _ _ _ _ Hok Hl). assert (Hr := sent_range _ _ _ _ Hok). assert (Hm := so_max _ _ _ _ Hok). unfold field in Hm. change MAX_VARINT with 4611686018427387903 in *.
  unfold gate in D3, D4, D5. rewrite Hl, Hp in D3, D4, D5. cbn [negb orb] in D3, D4, D5. rewrite u64_small in D3, D4, D5 by (unfold U64_MAX; lia).
  destruct (has_pending_within _ (s_buf s)) eqn:Hw; [done|]. destruct (Z.leb_spec (s_max_data s) (sent (s_buf s))) as [Hle|Hlt]; [left; split; [lia|by apply D5]|].
  right. split; [done|]. split; [|by rewrite <- D1; apply D4].
  unfold has_pending_within in Hw. unfold SendBuf.has_pending in Hp. rewrite He in Hw, Hp. cbn [negb orb] in Hw, Hp. apply orb_false_iff in Hw as [Hw1 Hw2]. apply Z.ltb_ge in Hw1. apply Z.ltb_lt in Hp.
  destruct (so_buf _ _ _ _ Hok) as [ws Hwf]. assert (Hn : next (s_buf s) < written (s_buf s)) by
    (rewrite (wf_end _ _ Hwf), <- (wf_written _ _ Hwf) in Hp; destruct (fin (s_buf s)); cbn in Hw2, Hp; [apply Z.eqb_neq in Hw2|]; lia).
  unfold sent in *. lia.
Qed.

(** *** What is said *)

(** The calls but those of packets leave what the peer has to be told due. *)
Lemma perform_heard cl w st' sfs : allowed cl w -> perform cl (now w) = Ok (st', sfs) ->
  match cl with CPacket _ _ => True | _ => sfs = [] /\ heard (now w) st' end.
Proof.
  assert (Hst : forall E A (x : outcome E A), calm (now w) (snd x) \/ heard (now w) (snd x) -> state_of x = Ok (st', sfs) -> sfs = [] /\ heard (now w) st').
  { intros E A [[a|[f|e]] st1] Hh; cbn; [intros [= <- <-]|done|intros [= <- <-]]; (split; [done|]); destruct Hh as [[H _]|H]; exact H. }
  assert (Haf : forall r, (forall st1, r = Ok st1 -> calm (now w) st1) -> state_after r = Ok (st', sfs) -> sfs = [] /\ heard (now w) st').
  { intros [st1|f] Hh; [|done]. intros [= <- <-]. split; [done|]. by apply Hh. }
  intros Ha. destruct cl as [p| |b|id d f|id cap|id e|id e|f|out budget|f|f]; cbn [perform].
  - intros [= <- <-]. split; [done|]. apply set_peer_params_heard. by destruct Ha as (_ & H & _).
  - intros [= <- <-]. split; [done|]. apply poll_event_calm.
  - apply Hst. left. apply open_calm.
  - apply Hst. left. apply write_calm.
  - apply Hst. left. apply read_calm.
  - apply Hst. left. apply reset_calm.
  - apply Hst. left. apply stop_sending_calm.
  - apply Hst. right. apply on_frame_heard.
  - done.
  - apply Haf. intros st1. apply on_acked_calm.
  - apply Haf. intros st1. apply on_lost_calm.
Qed.

(** DATA_BLOCKED stays due until it is said, or nothing waits for it. *)
Definition block_due (st st' : Streams) (sfs : list StreamFrame) : Prop :=
  (data_blocked_pending (due st) = true -> data_blocked_pending (due st') = true \/ SfDataBlocked (send_max_data (tx st)) ∈ sfs \/ parked st = []) /\
  (data_blocked_sent (due st') = data_blocked_sent (due st) \/ data_blocked_sent (due st') = Some (send_max_data (tx st')) /\ data_blocked_pending (due st') = true).

Lemma perform_told cl w st' sfs : allowed cl w -> fair (now w) -> told (given w) (now w) -> perform cl (now w) = Ok (st', sfs) ->
  fair st' /\ told (sfs ++ given w) st' /\ block_due (now w) st' sfs.
Proof.
  intros Ha Hf Ht Hp. assert (Hh := perform_heard cl w st' sfs Ha Hp).
  assert (Hcall : sfs = [] /\ heard (now w) st' -> fair st' /\ told (sfs ++ given w) st' /\ block_due (now w) st' sfs).
  { intros [-> H]. destruct (heard_told _ _ _ Hf H Ht) as [H1 H2]. split; [done|]. split; [done|]. destruct (he_due _ _ H) as [D1 D2]. split; [auto|done]. }
  destruct cl as [p| |b|id d f|id cap|id e|id e|f|out budget|f|f]; try (by apply Hcall). cbn [perform] in Hp.
  destruct (write_frames out budget [] (now w)) as [[[]|f] [st1 out' sfs1]] eqn:Hw; [|done]. injection Hp as <- <-. cbn [wr_streams wr_sent] in *.
  destruct (write_frames_told _ _ _ _ _ _ Hw) as (H1 & H2 & _ & H4). split; [auto|]. split; [|exact H4]. intros sf Hb. destruct (H2 Hf sf Hb) as [[H5 H6]|H5]; [|by right].
  destruct (Ht sf H5) as [H7|H7]; [left; apply elem_of_app; by right|]. destruct (H6 H7) as [H8|H8]; [left; apply elem_of_app; by left|by right].
Qed.

Lemma new_told c : fair (new c) /\ told [] (new c).
Proof.
  assert (Hk : forall k, k = 0 \/ k = 1 -> at_kind k (max_streams_bidi c, max_streams_uni c) = initial_streams c k) by by intros k [-> | ->].
  split; [split; try done; intros k l [-> | ->]; done|].
  intros sf H. destruct sf as [|id e z|id e|v|id m|b m|v|id l|b l]; cbn [binding] in H; try done.
  - by destruct H as (s & H & _).
  - by destruct H as (s & H & _).
  - destruct H as [-> H]. by destruct H.
  - by destruct H as (s & H & _).
  - destruct H as [-> H]. cbn in H. rewrite Hk in H by apply kind_index_range. by destruct H.
  - by destruct H as (s & H & _).
  - destruct H as [H _]. by destruct b.
Qed.

Lemma reached_told c w : reached c w -> fair (now w) /\ told (given w) (now w).
Proof.
  unfold reached. intros Hr. assert (H0 : fair (now (mk_world (new c) [])) /\ told (given (mk_world (new c) [])) (now (mk_world (new c) []))) by apply new_told.
  revert H0. generalize (mk_world (new c) []), w, Hr. clear. intros w0 w Hr. induction Hr as [|x y z Hxy _ IH]; [done|]. intros [H1 H2]. apply IH. destruct Hxy as [cl st gv st' sfs Ha Hp _].
  by destruct (perform_told cl (mk_world st gv) st' sfs Ha H1 H2 Hp) as (H3 & H4 & _).
Qed.

(** A frame was given to a packet, or is due. *)
Definition announced (w : World) (sf : StreamFrame) : Prop := sf ∈ given w \/ waiting (now w) sf.

Lemma credit_kept c w : config_ok c -> reached c w ->
  (forall id r, recv_of id (now w) = Some r -> r_state r = ROpen -> r_final_size r = None ->
    read_off (r_buf r) + window_of c id - r_max_data r < Z.max 1 (window_of c id / 2)) /\
  consumed (rx (now w)) + max_data c - recv_limit (rx (now w)) < Z.max 1 (max_data c / 2) /\
  forall k, k = 0 \/ k = 1 ->
    Z.min (initial_streams c k + at_kind k (peer_closed (rx (now w)))) MAX_STREAMS_LIMIT - at_kind k (max_streams (rx (now w))) < Z.max 1 (initial_streams c k / 2).
Proof.
  intros Hc Hr. destruct (reached_sane c w Hc Hr) as [Hcfg Hinv Hfit _ _]. destruct (iv_credit _ _ Hinv) as [C1 C2 C3 C4]. rewrite Hcfg in C4. split; [|split].
  - intros id r Hr' Ho Hf. change (rcv_in id (streams (now w)) = Some r) in Hr'. assert (H := ro_credit _ (iv_recv _ _ Hinv id r Hr') Ho Hf).
    apply rcv_get in Hr' as (x & Hx & Hrx). destruct (iv_ids _ _ Hinv id x Hx) as (_ & _ & _ & Hwin). rewrite Hcfg in Hwin. rewrite <- (Hwin r Hrx). unfold topped_up in H. lia.
  - unfold topped_up in C4. lia.
  - intros k Hk. assert (H := ko_credit _ _ _ _ (iv_kinds _ _ Hinv k Hk)). rewrite Hcfg in H. lia.
Qed.

(** Where data of a live stream waits. *)
Lemma data_waits c w id s : config_ok c -> reached c w -> send_of id (now w) = Some s -> sending s = true -> SendBuf.has_pending (s_buf s) = true ->
  id ∈ send_queue (now w) /\ has_pending (now w) = true \/
  is_empty (lost (s_buf s)) = true /\
  (sent (s_buf s) = s_max_data s /\ s_blocked_sent s = Some (s_max_data s) \/
   sent (s_buf s) < s_max_data s /\ sent_total (tx (now w)) = send_max_data (tx (now w)) /\ id ∈ (parked (now w)).*1 /\
     data_blocked_sent (due (now w)) = Some (send_max_data (tx (now w)))).
Proof.
  intros Hc Hr. destruct (reached_sane c w Hc Hr) as [Hcfg Hinv Hfit _ _]. destruct (iv_tx _ _ Hinv) as [T1 T2 _ _ _]. intros Hs Hl Hp.
  change (snd_in id (streams (now w)) = Some s) in Hs. destruct (iv_send _ _ Hinv id s Hs) as [Hok Hset]. destruct (s_queued s) eqn:Hq.
  - left. apply (so_queued _ _ _ _ Hok) in Hq. split; [done|]. unfold has_pending. rewrite !orb_true_iff, (bool_decide_eq_false_2 (send_queue _ = [])); [by right|]. intros He. rewrite He in Hq. by apply elem_of_nil in Hq.
  - right. assert (Hroom : conn_room (now w) = send_max_data (tx (now w)) - sent_total (tx (now w))) by (unfold conn_room, sat_sub; lia).
    destruct (held_back _ _ id s (conn_room (now w)) Hok (Hset ltac:(by intros ?%elem_of_nil)) ltac:(lia) Hl Hp Hq) as [He [[H1 H2]|(H1 & H2 & H3)]]; (split; [done|]); [by left|].
    right. split; [done|]. split; [lia|]. apply contains_keys in H3. split; [done|]. apply (iv_said _ _ Hinv). intros He'. rewrite He' in H3. by apply elem_of_nil in H3.
Qed.


(** Written beyond what the peer allows the stream: six bytes go, and the
    rest waits for the peer, which is told. *)
Definition held_run : list call := [CParams small_params; COpen false; CWrite 2 [1; 2; 3; 4; 5; 6; 7; 8] true; CPacket [] 100; CPacket [] 100].

Definition held_world : World := match runs held_run start_world with Some w => w | None => start_world end.

Lemma held_reached : reached small_config held_world.
Proof. apply (runs_reached small_config held_run start_world); [apply rtc_refl|may|by vm_compute]. Qed.


(** Two streams, and credit of the connection for three bytes: the first is
    held back, and given up before the packet that would have said so; the
    second is held back at the same limit, and nothing says so. *)
Definition tight_params : TransportParameters :=
  mk_params None 0 None 1200 3 6 6 6 2 2 3 25 false None 2 None None None [].

Definition unsaid_run : list call :=
  [CParams tight_params; COpen false; CWrite 2 [1; 2; 3; 4; 5] false; CPacket [] 100; CReset 2 7; CPacket [] 100; COpen false; CWrite 6 [8] false; CPacket [] 100].

Definition unsaid_world : World := match runs unsaid_run start_world with Some w => w | None => start_world end.

Example unsaid_blocked :
  reached small_config unsaid_world /\ (parked (now unsaid_world)).*1 = [6] /\ sent_total (tx (now unsaid_world)) = send_max_data (tx (now unsaid_world)) /\
  given unsaid_world = [SfResetStream 2 7 3; SfStream 2 0 3 false] /\ has_pending (now unsaid_world) = false.
Proof.
  split; [|split_and!; by vm_compute]. apply (runs_reached small_config unsaid_run start_world); [apply rtc_refl|may|by vm_compute].
Qed.

(** ** Packets *)

(** C13: what [write_frames] puts in a packet is what the peer reads.  In every
    reached state whose buffered data are bytes, the call succeeds for every
    budget and stays within it; each frame it records in the packet says what
    the connection has to say at that moment (the data of a STREAM frame are
    the bytes that were written to the stream at that offset, its end is the
    end of the stream, a limit is the limit in force); reading the bytes that
    were added gives just those frames, in that order and with no error; the
    call changes nothing but what is waiting and what was said; and it stops
    only when no stream has anything left or less than a frame's room is. *)
Theorem packet_frames c w out budget :
  config_ok c -> reached c w -> byte_data (now w) -> 0 <= budget ->
  exists st' sfs b fs,
    write_frames out budget [] (now w) = (Ok tt, mk_writing st' (out ++ b) sfs) /\
    len b <= budget /\ Forall2 (says (now w)) sfs fs /\
    (fs <> [] -> len b <= U64_MAX -> forall fuel, (length fs < fuel)%nat -> collect fuel (frames b OneRtt) = Some (List.map Ok fs)) /\
    carried_on (now w) st' /\ (send_queue st' = [] \/ budget - len b < 33).
Proof.
  intros Hc Hr Hb Hbud. destruct (reached_sane c w Hc Hr) as [_ Hinv Hfit _ _].
  destruct (write_frames_ok out budget [] (now w) Hinv Hfit Hbud) as (st' & sfs & b & fs & e & Heq & _ & Hcar & [P1 P2 P3 P4] & _ & Hq).
  exists st', sfs, b, (fs ++ e). split; [done|]. split; [done|]. split; [done|]. split; [|done]. intros Hne Hlen fuel Hf.
  assert (Hall : Forall (fun f => frame_wf f /\ allowed_in (frame_type f) OneRtt = true /\ after f = anything) (fs ++ e)).
  { apply Forall_forall. intros f Hin. apply list_elem_of_lookup in Hin as [i Hi]. destruct (Forall2_lookup_r _ _ _ _ _ P1 Hi) as (sf & _ & Hs). by apply (says_wf (now w) sf). }
  apply Forall_app in Hall as [Hfs He]. assert (He' : e = [] \/ exists f, e = [f] /\ is_stream f) by (destruct P3 as [H|[H _]]; [by left|right; exact H]).
  assert (Hwe : Forall frame_wf e) by (eapply Forall_impl; [exact He|]; naive_solver). assert (Hwf : Forall frame_wf fs) by (eapply Forall_impl; [exact Hfs|]; naive_solver).
  destruct (new_reader_ok b) as [Hrd Hleft]; [|done|].
  - intros x. by apply (packed_octets (now w) budget sfs b fs e); [split|apply Forall_app].
  - apply (collect_ending e OneRtt He' Hwe eq_refl fs); [done|eapply Forall_impl; [exact Hfs|]; naive_solver|eapply Forall_impl; [exact Hfs|]; naive_solver|done|by rewrite Hleft|by right|done].
Qed.

Definition byte_datab (st : Streams) : bool :=
  forallb (fun e : Z * Stream => match st_send (snd e) with Some s => forallb (fun b => (0 <=? b) && (b <? 256)) (data (s_buf s)) | None => true end) (streams st).

Lemma byte_datab_ok st : byte_datab st = true -> byte_data st.
Proof.
  unfold byte_datab. rewrite List.forallb_forall. intros H id s b (x & Hx & Hs)%snd_get Hb. apply get_elem, list_elem_of_In, H in Hx. cbn in Hx. rewrite Hs, List.forallb_forall in Hx.
  apply list_elem_of_In, Hx in Hb. apply andb_true_iff in Hb as [H1 H2]. unfold byte. lia.
Qed.

(** Two streams with something to say. *)
Definition ready_run : list call := [CParams small_params; COpen false; CWrite 2 [1; 2; 3; 4; 5] true; COpen true; CWrite 0 [6; 7] false; CStop 0 9].

Definition ready_world : World := match runs ready_run start_world with Some w => w | None => start_world end.

Lemma ready_reached : reached small_config ready_world.
Proof. apply (runs_reached small_config ready_run start_world); [apply rtc_refl|may|by vm_compute]. Qed.

Lemma ready_bytes : byte_data (now ready_world).
Proof. apply byte_datab_ok. by vm_compute. Qed.

Lemma packet_frames_witness :
  exists st' b fs, write_frames [] 100 [] (now ready_world) = (Ok tt, mk_writing st' b [SfStopSending 0 9; SfStream 2 0 5 true; SfStream 0 0 1 false]) /\
    length fs = 3%nat /\ collect 4 (frames b OneRtt) = Some (List.map Ok fs).
Proof.
  destruct (packet_frames small_config ready_world [] 100 small_config_ok ready_reached ready_bytes ltac:(lia)) as (st' & sfs & b & fs & H1 & H2 & H3 & H4 & _).
  exists st', b, fs. cbn [app] in H1. assert (Hs : sfs = [SfStopSending 0 9; SfStream 2 0 5 true; SfStream 0 0 1 false]) by (vm_compute in H1; by injection H1 as _ _ <-).
  subst sfs. assert (Hl : length fs = 3%nat) by (apply Forall2_length in H3; by rewrite <- H3). split; [exact H1|]. split; [exact Hl|].
  apply H4; [intros ->; discriminate|unfold U64_MAX; lia|rewrite Hl; lia].
Defined.

(** ** Frames of the peer, in every state *)


(** Nine bytes end where eight were allowed. *)
Lemma beyond_wf : frame_wf (Frames.StreamFrame 3 7 [1; 2] false).
Proof.
  assert (Hmv : MAX_VARINT = 4611686018427387903) by done. unfold frame_wf, octets, field. change (len [1; 2]) with 2. split_and!; try lia.
  intros b Hb. repeat (apply elem_of_cons in Hb as [->|Hb]; [unfold byte; lia|]). by apply elem_of_nil in Hb.
Qed.


(** ** A stream that is forgotten while it is queued *)

(** A probe puts the data of the oldest packet back in the queue while the
    packet is still out; when it is acknowledged after all, the stream is
    finished and forgotten, and its id stays in the queue: [check] fails, and
    [has_pending] is true with nothing to send. *)
Definition probed_run : list call := sent_run ++ [CLost (SfStream 2 0 5 true); CAcked (SfStream 2 0 5 true)].

Definition probed_world : World := match runs probed_run start_world with Some w => w | None => start_world end.

Example probed_stale :
  reached small_config probed_world /\ streams (now probed_world) = [] /\ send_queue (now probed_world) = [2] /\ check (now probed_world) = false /\ has_pending (now probed_world) = true.
Proof.
  split; [|split_and!; by vm_compute]. apply (runs_reached small_config probed_run start_world); [apply rtc_refl|may|by vm_compute].
Qed.
